(* ===== verification/_CoqProject ===== *)
-Q . S2P
Prelude.v
Bytes.v
Message.v
CapTypes.v
Buddy.v
BuddySpec.v
BuddyThm.v
Pmm.v
PmmThm.v
Bridge.v
Task.v
Kernel.v
Capability.v
CapabilityThm.v
Scheduler.v
SchedulerThm.v
Paging.v
Shmem.v
ShmemSpec.v
ShmemThm.v
Ipc.v
IpcInv.v
IpcThm.v
IpcOps.v
A64.v
A64Fmt.v
A64Ops.v
A64Thm.v
WasmTypes.v
WasmParse.v
WasmParseThm.v
WasmModule.v
WasmModuleThm.v
WasmValidate.v
WasmValidateThm.v
Peephole.v
Lower.v
LowerOps.v
LowerNew.v
ModuleLower.v
JitCache.v
LowerInv.v
LowerTyped.v
Semantics.v
LowerSem.v
LowerSemThm.v
LowerSym.v
LowerControl.v
LowerFunction.v
LowerReloc.v
ModuleLowerThm.v
Slice.v
SqliteDb.v
SqlWrite.v
SqlTables.v
SqlIo.v
SqliteRow.v
SqliteScanThm.v
SqliteTree.v
SqliteThm.v
SqlTrack.v
SqlIoThm.v
GraphWalkThm.v
SqlAppend.v
SqlInsertThm.v
SqlLimits.v
Mvfs.v
MvfsThm.v
Elf.v
Spawn.v
SpawnThm.v
Frame.v
FrameThm.v
Mcp.v
Ring.v
DisplayList.v
Fbp.v
Firewall.v
Fpk.v
Dsml.v
