(* ===== verification/Prelude.v ===== *)
(** * Folkering OS: verification library

    This library models seven parts of Folkering OS (src/, Rust) and proves
    what makes them correct:

    - the core of the kernel (src/kernel/src): memory, paging, shared memory,
      tasks, spawning, scheduling, capabilities and message passing;
    - three services of the kernel: the file system kept in memory and flushed
      to disk (fs/mvfs.rs), the read-only file system packed on the host
      (src/tools/folk-pack, fs/ramdisk.rs), and the packet filter
      (net/firewall.rs);
    - the WebAssembly-to-AArch64 compiler (src/tools/a64-encoder/src), with
      which the kernel compiles code for a remote executor;
    - the database of the system: the SQLite reader
      (src/userspace/libsqlite/src) and the storage engine of the synapse
      service (src/userspace/synapse-service/src);
    - the graphics ring between applications and the compositor
      (src/userspace/libfolk/src/gfx, src/userspace/compositor/src/gfx_*.rs);
    - the user-interface markup that is compiled to what the ring carries
      (src/userspace/libfolkui/src);
    - the two wire protocols to the host: the MCP link
      (src/userspace/libfolk/src/mcp) and FBP, the protocol of the semantic
      browser (src/tools/fbp-rs/src).

    ** The kernel

    The kernel is a single-core microkernel: tasks talk by message passing
    guarded by capabilities, share memory by explicit regions, and are
    scheduled by priority and deadline with hints from a user-space "brain".
    The physical memory manager hands out pages; paging and shared memory take
    them from it and give them back; task exit returns everything a task owns.
    Sends consult the capability table, move messages between the queues in
    the task records, block and wake tasks through the scheduler's run queue;
    the timer interrupt preempts.  All of it is one state, the record [Kernel]
    of Kernel.v, which holds the kernel's statics; an operation is a function
    on it, or a computation in the monad [M] when it can fail or panic.

    - Prelude.v (this file): machine integers, outcomes, the monad, its
      triples, record update, tactics, shared arithmetic.  Bytes.v: byte
      strings and UTF-8.
    - Message.v: ipc/message.rs and ipc/queue.rs (messages, caller tokens, the
      bounded queue).
    - CapTypes.v: capability/types.rs (capability kinds and what each grants).
    - Buddy.v, BuddySpec.v, BuddyThm.v: the [BuddyAllocator] of
      memory/physical.rs.  Its free lists live in the free blocks themselves,
      as words of a memory map; BuddySpec.v relates them to a finite
      description ([FreeMap]) by a list-segment predicate, and the operations
      are shown to refine operations on that description.
    - Pmm.v, PmmThm.v: the rest of memory/physical.rs (boot scan,
      region sort, bump arenas, entry points).
    - Bridge.v: bridge/types.rs and bridge/reader.rs.
    - Task.v: task/task.rs (task control block, constructor, name) and
      arch/x86_64/interrupt_frame.rs.
    - Kernel.v: the statics; the task-table functions of task/task.rs;
      task/statistics.rs; the counters of ipc/mod.rs and timer/mod.rs.
    - Capability.v, CapabilityThm.v: capability/mod.rs.
    - Scheduler.v, SchedulerThm.v: task/scheduler.rs and task/preempt.rs.
    - Paging.v: memory/paging.rs, the functions on task tables.
    - Shmem.v, ShmemSpec.v, ShmemThm.v: ipc/shared_memory.rs and its system
      calls in arch/x86_64/syscall/handlers/memory.rs.
    - Ipc.v, IpcInv.v, IpcThm.v, IpcOps.v: ipc/send.rs, ipc/receive.rs,
      arch/x86_64/syscall/handlers/ipc.rs and task.rs (exit and listings), and
      [free_task_slots] of net/tcp_async.rs.

    - Elf.v, Spawn.v, SpawnThm.v: task/elf.rs, task/spawn.rs, the loaders of
      arch/x86_64/usermode.rs and the spawn system call.  The state is the
      kernel's with the contents of physical frames ([Loader]).

    ** Services of the kernel

    - Mvfs.v, MvfsThm.v: fs/mvfs.rs.  The table of files, the dirty bits and
      the two disks are the record [Fs]; the block drivers are a class
      ([BlockDriver], [DriverLaws]).  A call changes the table under one
      lock and flushes a snapshot of it under another, so calls of several
      tasks interleave between those points: [step] is the relation.
    - Fpk.v: the read-only file system: the packer's arguments and the image it
      writes (tools/folk-pack/src/main.rs, format.rs), mounting and lookup
      (fs/format.rs, fs/ramdisk.rs, fs/mod.rs, the boot step of lib.rs), the
      system calls of both file systems (arch/x86_64/syscall/handlers/fs.rs)
      and their wrappers (libfolk/src/sys/fs.rs).  The state is [Machine]: one
      memory for image and buffers, the ramdisk, and the [Fs] of Mvfs.v.
    - Firewall.v: net/firewall.rs, its tracker of connection attempts and its
      queue of suspicious packets.  The clock, whether each [try_lock]
      succeeds and whether a port is open are the environment of a frame.

    ** The compiler

    A module is parsed into types, globals, exports and bodies; each body is a
    list of operations, which the validator checks and the lowerer turns into
    A64 words; the linker concatenates the functions and patches the calls
    between them; a peephole pass cleans the words; the code can be cached in
    a file.  The lowerer keeps WebAssembly's operand stack in registers, with
    spill slots below them, and a stack of labels with the branches to patch.

    - A64.v: lib.rs, registers, conditions and one operation per emitter of
      [Encoder].  A64Fmt.v, A64Ops.v, A64Thm.v: a table of the instruction
      formats, and that every emitter appends what the table says.
    - WasmTypes.v: wasm_lower/types.rs.
    - WasmParse.v (WasmParseThm.v): wasm_parse.rs.
    - WasmModule.v (WasmModuleThm.v): wasm_module.rs.
    - WasmValidate.v (WasmValidateThm.v): wasm_validate.rs.
    - Peephole.v: peephole.rs and the words of a code buffer.
    - Lower.v, LowerOps.v, LowerNew.v: the other files of wasm_lower/ (state
      and stack, operations, constructors).
    - ModuleLower.v (LowerReloc.v, ModuleLowerThm.v): module_lower.rs.
    - JitCache.v: jit_cache.rs.
    - LowerInv.v, LowerTyped.v, LowerControl.v, LowerFunction.v: the lowerer's invariant, the typing of its stack, its
      branches, and the lowering of whole functions.
    - Semantics.v: reference semantics of the instructions and of the integer
      operations.  LowerSem.v, LowerSemThm.v: the simulation between them.
    - LowerSym.v: the compile-time bounds that let the lowerer leave out
      bounds checks, and concrete compilations.

    ** The database

    The synapse service keeps a SQLite database in one four-megabyte buffer,
    reads it with libsqlite's scanner and changes its pages itself; the pages
    it marks dirty are written to the disk.  A byte array is a function from
    offsets to bytes and a slice of it carries its offset, since the code
    computes offsets from the addresses of slices.

    - Slice.v: byte arrays, slices, big-endian words.
    - SqliteDb.v: libsqlite/src/{varint,header,page,record,btree,lib}.rs.
    - SqlWrite.v, SqlTables.v: state.rs (the buffer, its accessors, its dirty
      bitmap), btree.rs (overflow chains, leaves, deletion; the inserts and
      updates of each table, the graph walk) and cache.rs.
    - SqlIo.v: sqlite_io.rs, with the sector calls of libfolk/src/sys/block.rs.
    - SqliteRow.v, SqliteScanThm.v, SqliteTree.v, SqliteThm.v: records by
      their bytes, the scanner's loop, B-trees as inductive trees, what the
      reader promises, and concrete databases.
    - SqlTrack.v, SqlIoThm.v: dirty pages, flushing and loading.
    - SqlAppend.v, SqlInsertThm.v: what changing a leaf does to the tree.  GraphWalkThm.v: the graph walk.  SqlLimits.v: where the
      storage code reaches its limits.

    ** Graphics and the host

    - Ring.v: gfx/ring.rs, the byte ring with one writer and one reader, as
      functions and as a relation in which the two sides move one byte, or
      publish one index, at a time.
    - DisplayList.v: gfx/display_list.rs and gfx/input.rs (writers), the
      compositor's gfx_consumer.rs, gfx_dispatch.rs and the draining of one
      ring in gfx_rings.rs (reader).
    - Dsml.v: libfolkui/src/{dom,parser,layout,hit,state,compiler,diff}.rs.
      The nodes are a list with indices, as in the source; [doc] is the tree
      they stand for ([flat]).  Parsing is related to [print]; what a layout
      and its commands should be is said by [laid] and [paints], written from
      the attributes alone, and the passes over the list reach them by way of
      [arrange] and [paint], the same passes over the tree.
    - Frame.v, FrameThm.v: mcp/frame.rs (CRC-16, COBS, frames, accumulator).
      Mcp.v: mcp/types.rs and mcp/client.rs, with the reassembly of binaries
      sent in chunks.
    - Fbp.v: fbp-rs/src/lib.rs, both directions of the protocol and the
      string interner.

    ** What the theorems show

    - Memory.  Buddy allocation and freeing refine the free-block description
      and keep it well formed; along any sequence of allocations and frees of
      held blocks, blocks never overlap, no page is lost, and no operation
      panics ([client_never_overlaps], [alloc_pages_correct],
      [free_pages_correct], [add_region_covers]).  The same holds for the whole
      manager from the boot memory map on ([pmm_no_overlap]).  A double free
      panics, unless the block has merged ([double_free_panics],
      [double_free_after_merge_undetected]).
    - Paging and shared memory.  A fresh task table shares exactly the kernel
      half and frees back to nothing; whatever calls, switches and exits
      happen, at whatever addresses, no table of a live task, and no other
      table whose lower half is its own, translates to a frame of a destroyed
      region, the upper half that all of them share included; the system calls
      are such steps ([shmem_calls_are_steps])
      ([new_page_table_roundtrip], [shmem_no_stale_mapping],
      [shmem_create_outcome]).
    - Capabilities.  [grants] coincides with an access relation written from
      the kinds' meaning; checks are sound; transfers never create authority
      ([grants_sound], [grants_complete], [has_capability_sound],
      [transfers_confine_authority]); ids are never reused.
    - Scheduling.  The selected task has the highest effective priority;
      equal tasks take turns; yields and preemptions keep the current task,
      its context, its FPU area and its page table consistent.
    - IPC.  From boot on, every reachable state satisfies the task-table
      invariant of IpcInv.v: bounded queues, blocked tasks wait on live tasks,
      runnable tasks are queued ([ipc_invariant_reachable]).  A request and
      its reply travel unchanged, refused sends have no effect, only the task
      a sender waits for may reply directly, exit wakes exactly its waiters.
    - Encoding and parsing.  Every emitter appends the instruction its layout
      describes and the words are read back; printed modules and bodies parse
      to themselves; the parsers end on every input ([emitter_roundtrip],
      [parse_module_roundtrip], [parse_print_roundtrip], [parse_ops_total],
      [section_loop_fuel], [leb128_roundtrip]).
    - Validation.  On code without control flow the validator accepts exactly
      the well-typed bodies, and reports the first operation that is not
      ([validate_decides_typing], [validate_error_position]).
    - Lowering.  Validated functions lower without a panic; the end of a
      construct resolves its branches; the recorded call sites are placeholder
      branches, each call has its own, and linked they reach their targets; for
      functions without a frame and straight-line integer code, the emitted
      instructions compute what the operations mean; an access whose check is
      left out is in bounds ([validated_function_lowers],
      [end_resolves_branches], [linked_calls_reach_targets],
      [compile_module_never_panics], [compiled_code_computes],
      [call_arguments_delivered], [elided_access_in_bounds]).
    - Reading the database.  Every loop over a scanner ends; on a well-formed
      B-tree the scanner yields the rows in order, up to the first empty leaf;
      tables and rows are found by name; records read back
      ([scan_terminates], [scan_refines_tree], [find_table_root_spec],
      [query_by_name_spec], [record_roundtrip], [varint_roundtrip]).
    - Changing it.  An inserted file is the last row of the table and all
      other rows and tables stay ([insert_file_appends]); every operation
      leaves unmarked pages as they are, so that flushing and loading gives
      the same database ([operations_stay_synced], [flush_load_roundtrip]);
      the graph walk ends, reports only what active edges reach, and all of it
      under a bound on the depth ([graph_walk_spec]).
    - Spawning.  A spawn that succeeds has mapped every segment page with the
      file's bytes, zeroes around them and the segment's permissions, and a
      stack, and has left a runnable task at the entry point
      ([spawn_loads_image]; an offset near 2^64 wraps, and the page gets other
      bytes of the file, [huge_offset_wraps]); on every outcome only user
      addresses are mapped, and tables whose lower half is apart from the new
      one stay ([spawn_confined]); program headers are read inside the file
      ([program_headers_in_bounds]).
    - Files.  Writes, deletes and reads refine operations on a map from names
      to contents ([mvfs_refines_map]); however calls interleave and writes
      to the disk fail, the slots that are not marked dirty are on disk, so a
      boot after a flush that took the last bits loads the table, unless the
      disk has no region of the file system or the driver refuses one of the
      boot's reads ([mvfs_interleaving_persists]); on a disk that does not fail every call
      leaves its table there ([mvfs_reliable_persists]).
      A packed image is served as it was packed: after mounting, the directory
      lists the files in order and reading a name copies the contents of the
      first file with it ([fpk_image_served]); no call writes outside the
      caller's buffer, a buffer lies in user space, and what is read is part
      of the image ([fs_calls_confined]).
    - Packets.  An address that has been blocked stays blocked for 120 seconds
      after its last recorded attempt whatever arrives, as long as the
      tracker's lock is free at every frame ([blocked_stays_blocked]; attempts
      that are dropped are not recorded, [flooding_is_let_back_in]); unsolicited SYNs are
      dropped, three of them block, the table keeps its invariant
      ([unsolicited_syn_dropped], [three_syns_block], [tracker_invariant]).
    - Ring and display lists.  Under every interleaving the reader gets the
      written bytes in order and the writer never overwrites unread ones
      ([spsc_fifo]); the functions are runs of those steps
      ([ring_operations]); what a frame's writer appends, the compositor
      executes, up to the first Sync ([drain_executes_first_frame],
      [display_list_roundtrip], [walk_total], [event_delivered]).
    - Markup.  The markup of a document parses to its nodes
      ([dsml_roundtrip]); the parser ends on every input, and what it accepts
      is a document, which is laid out without a panic, each box in the place
      its attributes and its parent's give it, and compiled to the commands
      that show its elements, in order, and these are what the compositor
      executes
      ([dsml_parse_total], [markup_reaches_screen]); a hit has no child that is
      hit ([hit_is_deepest]); an unchanged state sends an empty frame
      ([unchanged_state_sends_nothing]).
    - Host link.  Frames read back ([frame_roundtrip]), the encoder in place
      agrees with COBS by blocks ([cobs_encode_reference]), a frame whose
      contents differ in one byte is refused ([corrupted_byte_rejected]);
      chunks in order rebuild the binary whatever was assembled before
      ([wasm_reassembly]); page states and events read back
      ([fbp_roundtrip], [interaction_roundtrip]).
    - Findings.  Where the code does not do what it means to, a theorem states
      what it does; the manifest lists them.

    ** Modelling choices

    - The code is built in release mode: arithmetic wraps at its width
      ([wrap]), shift counts are taken modulo the width, debug assertions are
      off, a panic ends the run ([Panic]).  An index out of range, a failed
      [unwrap] and an unchecked allocation are panics of the model.
    - Kernel: one core; kernel code runs with interrupts off or under the
      locks that serialise it, so an operation is one step.  A blocking send
      is split where the source switches away: its first part, then the reply
      that arrives by another task's operation.
    - Each side of the graphics ring is a thread of its own: its steps are the
      loads and stores of the source, one byte of data at a time, in program
      order (the indices are stored with Release and loaded with Acquire
      ordering, so the order of the steps is the order the other side sees).
      The capacity is a parameter that divides 2^64, as the source's does.
    - Logging is left out.  Floating-point numbers are their bit patterns.
    - Fuel.  Recursions that are not structural take fuel: buddy allocation 12
      (orders go up to 10 and one more call finds the top), freeing 11 (one per
      merge), list walks 1,000,000 as in the source (the hop limit), region
      seeding one per page, the order search 10; the body parser one round per
      byte and one more, the section loop as many, LEB128 ten bytes; a scan
      2^1200 rounds (the stack of 64 pairs of a page and a cell has at most
      2^1024 + 1 states in order), a descent 65, an overflow chain 2^65 (each
      round reads a byte), loading one round per sector; display lists take
      one round per byte and one more, program headers one per header
      ([collect_enough], [walk_rounds]); markup takes one round per byte and
      its attributes and children one more ([dsml_parse_total]), layout,
      painting and hit testing one per node ([layout_spec], [emit_spec],
      [hit_test_total]).  The theorems are
      about the functions with this fuel and show that it suffices.  The search
      for a large blob is a loop of the source that may not end
      ([blob_search_runs_on]); its fuel is an argument.
    - Assumptions are explicit.  [walkable] bounds physical memory so that a
      free list fits the source's hop limit; [map_ok] says that the boot
      loader's usable entries are page aligned and disjoint; [MapperLaws] is
      the documented behaviour of the x86_64 crate's page-table mapper, which
      is not part of the repository (its address types panic on addresses that
      are not canonical, a change at an address of the upper half is seen by
      every table, one of the lower half by the tables that are not [apart]),
      and [HashOrder] an arbitrary iteration
      order of a hash table; SHA-256, the file system of the code cache, the
      bytes in the padding of a structure and the width of a progress bar's
      fill (floating point) are parameters; [DeviceLaws] says that a sector written is the sector read,
      and [DriverLaws] that a failed write of the kernel's drivers leaves the
      other sectors alone ([Reliable]: no write fails); [PostcardLaws] is the
      round trip of the postcard crate.  ShmemSpec.v, SqlIoThm.v, MvfsThm.v,
      FrameThm.v and Mcp.v have instances.

    ** Not modelled

    - Hardware: assembly entry and context-switch code, descriptor tables and
      interrupt controllers, device drivers, the active-table half of paging
      (TLB and page-table registers).
    - Code that calls third-party libraries throughout: the network stack on
      smoltcp and TLS, the kernel heap's allocator, the vendored crates.
    - The kernel's client of the compiler (its compiler is modelled, its TCP
      stream is not), raw block input and output by system call, the TCP slots
      and the packet ring of applications.
    - What a drawing command does to pixels, language-model clients, numeric code on floating-point
      values (tensors, vector search, inference), the other user-space
      services, the applications, and the host's build and proxy tools (of the
      packer, the generators of databases, models and embedded assets). *)

From Stdlib Require Export ZArith Lia.
From stdpp Require Export base numbers gmap list sorting.

(** ** Machine integers

    The kernel is built in release mode, where arithmetic on [u8], [u16],
    [u32], [u64] and [usize] wraps.  A w-bit value is a [Z] in [0, 2^w). *)

#[global] Open Scope Z_scope.

Definition wrap (w z : Z) : Z := z mod 2 ^ w.

Abbreviation u8 := (wrap 8).
Abbreviation u16 := (wrap 16).
Abbreviation u32 := (wrap 32).
Abbreviation u64 := (wrap 64).

Definition in_width (w z : Z) : Prop := 0 <= z < 2 ^ w.

Definition U8_MAX : Z := 255.
Definition U16_MAX : Z := 65535.
Definition U32_MAX : Z := 4294967295.
Definition U64_MAX : Z := 18446744073709551615.

Definition checked_add (w a b : Z) : option Z :=
  if a + b <? 2 ^ w then Some (a + b) else None.

Definition saturating_sub (a b : Z) : Z := Z.max 0 (a - b).

(** A 64-bit two's complement value: [z as i64]. *)
Definition i64 (z : Z) : Z := (z + 2 ^ 63) mod 2 ^ 64 - 2 ^ 63.

Definition saturating_add (w a b : Z) : Z := Z.min (2 ^ w - 1) (a + b).

(** ** Outcomes and the kernel monad

    A kernel operation returns a value, an error of its own error type, or
    panics (the kernel is built with [panic = "abort"]).  State changes made
    before an error stay: [M] keeps the state in every outcome. *)

Inductive outcome (E A : Type) : Type :=
| Ok (a : A)
| Err (e : E)
| Panic.
Arguments Ok {E A} a.
Arguments Err {E A} e.
Arguments Panic {E A}.

(** [r?] in code without state *)
Definition obind {E A B} (r : outcome E A) (f : A -> outcome E B) : outcome E B :=
  match r with Ok a => f a | Err e => Err e | Panic => Panic end.

Lemma obind_ok {E A B} (r : outcome E A) (f : A -> outcome E B) b : obind r f = Ok b -> exists a, r = Ok a /\ f a = Ok b.
Proof. destruct r as [a|e|]; cbn; try done. by exists a. Qed.

Definition M (S E A : Type) : Type := S -> S * outcome E A.

Section monad.
Context {S E : Type}.

Definition M_ret {A} (a : A) : M S E A := fun s => (s, Ok a).

Definition M_bind {A B} (k : A -> M S E B) (m : M S E A) : M S E B :=
  fun s => match m s with
           | (s', Ok a) => k a s'
           | (s', Err e) => (s', Err e)
           | (s', Panic) => (s', Panic)
           end.

Definition throw {A} (e : E) : M S E A := fun s => (s, Err e).
Definition panic {A} : M S E A := fun s => (s, Panic).
Definition gets {A} (f : S -> A) : M S E A := fun s => (s, Ok (f s)).
Definition modify (f : S -> S) : M S E unit := fun s => (f s, Ok tt).

(** [Option::ok_or(e)?] *)
Definition ok_or {A} (o : option A) (e : E) : M S E A :=
  match o with Some a => M_ret a | None => throw e end.

(** An early [return Err(e)] under a condition. *)
Definition fail_if (b : bool) (e : E) : M S E unit :=
  if b then throw e else M_ret tt.
End monad.

(** ** Triples for the monad

    From a state in [P] the operation panics, returns a value with [Q], or
    returns an error with [R]. *)

Definition triple {S E A} (P : S -> Prop) (m : M S E A) (Q : A -> S -> Prop) (R : E -> S -> Prop) : Prop :=
  forall s, P s ->
    match m s with
    | (s', Ok a) => Q a s'
    | (s', Err e) => R e s'
    | (s', Panic) => True
    end.

Section triples.
Context {S E : Type} (R : E -> S -> Prop).

Lemma triple_bind {A B} (P : S -> Prop) (m : M S E A) (Q' : A -> S -> Prop) (f : A -> M S E B) Q :
  triple P m Q' R -> (forall a, triple (Q' a) (f a) Q R) -> triple P (M_bind f m) Q R.
Proof.
  intros Hm Hf s Hs. unfold M_bind. specialize (Hm s Hs).
  destruct (m s) as [s' [a|e|]]; [|done|done]. by apply Hf.
Qed.

Lemma triple_gets {A} (P : S -> Prop) (f : S -> A) : triple P (gets f) (fun a s => a = f s /\ P s) R.
Proof. intros s Hs. done. Qed.

Lemma triple_modify (P : S -> Prop) (f : S -> S) (Q : unit -> S -> Prop) :
  (forall s, P s -> Q tt (f s)) -> triple P (modify f) Q R.
Proof. intros H s Hs. by apply H. Qed.

Lemma triple_ok_or {A} (P : S -> Prop) (o : option A) (e : E) :
  (forall s, P s -> R e s) -> triple P (ok_or o e) (fun a s => o = Some a /\ P s) R.
Proof. intros H s Hs. destruct o; cbn; auto. Qed.

Lemma triple_fail_if (P : S -> Prop) (b : bool) (e : E) :
  (forall s, P s -> R e s) -> triple P (fail_if b e) (fun _ s => b = false /\ P s) R.
Proof. intros H s Hs. destruct b; cbn; auto. Qed.

Lemma triple_weaken {A} (P P' : S -> Prop) (m : M S E A) (Q Q' : A -> S -> Prop) :
  triple P' m Q' R -> (forall s, P s -> P' s) -> (forall a s, Q' a s -> Q a s) -> triple P m Q R.
Proof.
  intros H HP HQ s Hs. specialize (H s (HP s Hs)). destruct (m s) as [s' [a|e|]]; auto.
Qed.
End triples.

Declare Scope kernel_scope.
Delimit Scope kernel_scope with kernel.

Notation "x <- c ;; k" := (M_bind (fun x => k) c)
  (at level 100, c at next level, right associativity) : kernel_scope.
Notation "'let*' p := c 'in' k" := (M_bind (fun x => match x with p => k end) c)
  (at level 100, p pattern, c at level 200, right associativity) : kernel_scope.
Notation "c ;;; k" := (M_bind (fun _ => k) c)
  (at level 100, right associativity) : kernel_scope.

Notation "'let?' p := r 'in' k" := (obind r (fun x => match x with p => k end))
  (at level 100, p pattern, r at level 200, right associativity) : kernel_scope.

(** Laws of sequencing, pointwise in the state. *)
Lemma bind_assoc {S E A B C} (m : M S E A) (f : A -> M S E B) (g : B -> M S E C) s :
  M_bind g (M_bind f m) s = M_bind (fun a => M_bind g (f a)) m s.
Proof. unfold M_bind. by destruct (m s) as [s' [a|e|]]. Qed.

Lemma bind_ext {S E A B} (m m' : M S E A) (f g : A -> M S E B) s :
  m s = m' s -> (forall a s, f a s = g a s) -> M_bind f m s = M_bind g m' s.
Proof. intros Hm Hf. unfold M_bind. rewrite Hm. by destruct (m' s) as [s' [a|e|]]. Qed.

(** ** Record update

    [r <| f := v |>] is the Rust assignment [r.f = v] on an owned record.  A
    record type declares its eta expansion once; the setter of a field is
    found by abstracting the field in it. *)

Class Eta (R : Type) := eta_of : R -> R.

Class Setter {R T : Type} (f : R -> T) := { update_field : (T -> T) -> R -> R }.

Ltac derive_setter :=
  lazymatch goal with
  | |- @Setter ?R ?T ?f =>
      let i := constr:(_ : Eta R) in
      let i' := eval red in i in
      let e := eval pattern f in i' in
      lazymatch e with
      | ?F f => let t := eval cbv beta in (fun (g : T -> T) => F (fun r => g (f r))) in exact (Build_Setter R T f t)
      end
  end.

Notation "r <| f := v |>" := (update_field (f := f) (fun _ => v) r)
  (at level 1, left associativity, f at next level, v at level 200) : kernel_scope.

(** ** Proof automation *)

(** Split on the innermost [match] or [if] of the goal or a hypothesis. *)
Ltac split_match :=
  match goal with
  | |- context [match ?x with _ => _ end] =>
      lazymatch x with context [match _ with _ => _ end] => fail | _ => destruct x eqn:? end
  end.

Ltac split_match_in H :=
  match type of H with
  | context [match ?x with _ => _ end] =>
      lazymatch x with context [match _ with _ => _ end] => fail | _ => destruct x eqn:? end
  end.

(** Turn boolean comparisons on [Z] and [bool] connectives into propositions. *)
Ltac bool_prop :=
  repeat match goal with
  | H : (_ && _)%bool = true |- _ => apply andb_true_iff in H; destruct H
  | H : (_ || _)%bool = false |- _ => apply orb_false_iff in H; destruct H
  | H : negb _ = true |- _ => apply negb_true_iff in H
  | H : negb _ = false |- _ => apply negb_false_iff in H
  | H : (_ <? _) = true |- _ => apply Z.ltb_lt in H
  | H : (_ <? _) = false |- _ => apply Z.ltb_ge in H
  | H : (_ <=? _) = true |- _ => apply Z.leb_le in H
  | H : (_ <=? _) = false |- _ => apply Z.leb_gt in H
  | H : (_ =? _) = true |- _ => apply Z.eqb_eq in H
  | H : (_ =? _) = false |- _ => apply Z.eqb_neq in H
  end.

(** One step of the monad: unfold the structural operations and reduce. *)
Ltac step_monad :=
  try unfold M_bind at 1; try unfold gets at 1; cbv beta iota zeta.

Create HintDb kernel.

(** ** Arithmetic shared by the components *)

Lemma wrap_range (w z : Z) : 0 <= w -> in_width w (wrap w z).
Proof. intros. apply Z.mod_pos_bound. lia. Qed.

Lemma wrap_small (w z : Z) : in_width w z -> wrap w z = z.
Proof. intros. by apply Z.mod_small. Qed.

Lemma land_ones_mod (a w : Z) : 0 <= w -> Z.land a (2 ^ w - 1) = a mod 2 ^ w.
Proof.
  intros Hw. rewrite <- Z.land_ones by done.
  f_equal. rewrite Z.ones_equiv. lia.
Qed.

Lemma lor_shiftl_add (lo hi w : Z) :
  0 <= w -> 0 <= lo < 2 ^ w -> Z.lor lo (Z.shiftl hi w) = lo + hi * 2 ^ w.
Proof.
  intros Hw Hlo. rewrite <- Z.shiftl_mul_pow2 by done.
  symmetry. apply Z.add_nocarry_lor, Z.bits_inj'. intros n Hn.
  rewrite Z.land_spec, Z.shiftl_spec, Z.bits_0 by done.
  destruct (Z.lt_ge_cases n w) as [Hlt|Hge].
  - rewrite (Z.testbit_neg_r hi) by lia. apply andb_false_r.
  - rewrite <- (Z.mod_small lo (2 ^ w)), Z.mod_pow2_bits_high by lia. done.
Qed.

Lemma lxor_cancel (a k : Z) : Z.lxor (Z.lxor a k) k = a.
Proof. by rewrite Z.lxor_assoc, Z.lxor_nilpotent, Z.lxor_0_r. Qed.

(** Masking off the low [k] bits of a w-bit value rounds down to a multiple of
    2^k. *)
Lemma land_high_mask (y k w : Z) :
  0 <= k <= w -> 0 <= y < 2 ^ w -> Z.land y (2 ^ w - 2 ^ k) = y / 2 ^ k * 2 ^ k.
Proof.
  intros Hk Hy.
  assert (2 ^ w - 2 ^ k = Z.shiftl (Z.ones (w - k)) k) as ->.
  { rewrite Z.shiftl_mul_pow2, Z.ones_equiv by lia.
    replace w with ((w - k) + k) at 1 by lia. rewrite Z.pow_add_r by lia. lia. }
  rewrite <- Z.shiftl_mul_pow2, <- Z.shiftr_div_pow2 by lia.
  apply Z.bits_inj'. intros n Hn. rewrite Z.land_spec, !Z.shiftl_spec by lia.
  destruct (Z.lt_ge_cases n k) as [Hlt|Hge].
  - rewrite !(Z.testbit_neg_r _ (n - k)) by lia. apply andb_false_r.
  - rewrite Z.shiftr_spec by lia. replace (n - k + k) with n by lia.
    destruct (Z.lt_ge_cases n w) as [Hnw|Hnw].
    + rewrite Z.ones_spec_low by lia. apply andb_true_r.
    + rewrite Z.ones_spec_high by lia. rewrite andb_false_r. symmetry.
      rewrite <- (Z.mod_small y (2 ^ w)) by lia. apply Z.mod_pow2_bits_high. lia.
Qed.
