(* ===== verification/Bytes.v ===== *)
(** Byte strings: little-endian words and UTF-8.

    [u32::to_le_bytes], [u64::from_le_bytes] and their relatives, shared by
    the task-list system call, the instruction encoder, the WebAssembly parser
    and the code cache.  A byte is a [Z] in [0, 256). *)

From Stdlib Require Import String Ascii.
From S2P Require Import Prelude.

(** The bytes of a string literal. *)
Definition str (s : string) : list Z := (fun a => Z.of_N (N_of_ascii a)) <$> list_ascii_of_string s.

(** Little-endian bytes of a word. *)
Fixpoint le_bytes (n : nat) (z : Z) : list Z :=
  match n with
  | O => []
  | S n => z mod 256 :: le_bytes n (z / 256)
  end.

Fixpoint from_le_bytes (l : list Z) : Z :=
  match l with
  | [] => 0
  | b :: l => b + 256 * from_le_bytes l
  end.

Definition byte (b : Z) : Prop := 0 <= b < 256.

Lemma le_bytes_length n z : length (le_bytes n z) = n.
Proof. revert z. induction n as [|n IH]; intros z; cbn; [done|by rewrite IH]. Qed.

Lemma le_bytes_byte n z : Forall byte (le_bytes n z).
Proof.
  revert z. induction n as [|n IH]; intros z; cbn; constructor; [|apply IH].
  apply Z.mod_pos_bound. lia.
Qed.

Lemma pow2_8S n : 2 ^ (8 * Z.of_nat (S n)) = 256 * 2 ^ (8 * Z.of_nat n).
Proof.
  replace (8 * Z.of_nat (S n)) with (8 + 8 * Z.of_nat n) by lia.
  rewrite Z.pow_add_r by lia. done.
Qed.

Lemma from_le_bytes_range l :
  Forall byte l -> 0 <= from_le_bytes l < 2 ^ (8 * Z.of_nat (length l)).
Proof.
  induction 1 as [|b l Hb _ IH]; [cbn; lia|].
  cbn [length from_le_bytes]. rewrite pow2_8S. unfold byte in Hb. nia.
Qed.

Lemma from_to_le_bytes n z : from_le_bytes (le_bytes n z) = z mod 2 ^ (8 * Z.of_nat n).
Proof.
  revert z. induction n as [|n IH]; intros z; cbn [le_bytes from_le_bytes].
  - change (2 ^ (8 * Z.of_nat 0)) with 1. by rewrite Z.mod_1_r.
  - rewrite IH, pow2_8S, Z.rem_mul_r by lia. done.
Qed.

Lemma to_from_le_bytes l : Forall byte l -> le_bytes (length l) (from_le_bytes l) = l.
Proof.
  induction 1 as [|b l Hb _ IH]; [done|].
  cbn [length le_bytes from_le_bytes]. unfold byte in Hb.
  rewrite (Z.mul_comm 256), Z_mod_plus_full, Z.mod_small, Z.div_add by lia.
  rewrite Z.div_small, Z.add_0_l by lia. by rewrite IH.
Qed.

Lemma le_bytes_inj n x y :
  in_width (8 * Z.of_nat n) x -> in_width (8 * Z.of_nat n) y -> le_bytes n x = le_bytes n y -> x = y.
Proof.
  intros Hx Hy H. apply (f_equal from_le_bytes) in H. rewrite !from_to_le_bytes in H.
  by rewrite !Z.mod_small in H.
Qed.

(** [core::str::from_utf8]: the well-formed byte sequences of UTF-8. *)
Definition in_range (lo hi b : Z) : bool := (lo <=? b) && (b <=? hi).
Definition utf8_tail (b : Z) : bool := in_range 0x80 0xBF b.

Fixpoint utf8_valid (l : list Z) : bool :=
  match l with
  | [] => true
  | b0 :: l1 =>
      if b0 <? 0x80 then utf8_valid l1 else
      match l1 with
      | [] => false
      | b1 :: l2 =>
          if in_range 0xC2 0xDF b0 then utf8_tail b1 && utf8_valid l2 else
          match l2 with
          | [] => false
          | b2 :: l3 =>
              if in_range 0xE0 0xEF b0 then
                in_range (if b0 =? 0xE0 then 0xA0 else 0x80) (if b0 =? 0xED then 0x9F else 0xBF) b1
                && utf8_tail b2 && utf8_valid l3
              else
                match l3 with
                | [] => false
                | b3 :: l4 =>
                    in_range 0xF0 0xF4 b0
                    && in_range (if b0 =? 0xF0 then 0x90 else 0x80) (if b0 =? 0xF4 then 0x8F else 0xBF) b1
                    && utf8_tail b2 && utf8_tail b3 && utf8_valid l4
                end
          end
      end
  end.
