(* ===== verification/Message.v ===== *)
(** * IPC messages, caller tokens and receive queues

    Models [kernel/src/ipc/message.rs] (the message record, its constructors
    and the [CallerToken] codec) and [kernel/src/ipc/queue.rs] (the bounded
    per-task queue). *)

From S2P Require Import Prelude.
#[local] Open Scope kernel_scope.

(** ** Message records *)

Definition TaskId : Type := Z.
Definition CapabilityId : Type := Z.
Definition ShmemId : Type := Z.

Inductive IpcType : Type :=
| Request
| Reply
| Notification.

#[export] Instance IpcType_eq_dec : EqDecision IpcType.
Proof. solve_decision. Defined.

(** [payload : [u64; 4]] *)
Record Payload : Type := mkPayload { p0 : Z; p1 : Z; p2 : Z; p3 : Z }.

Record IpcMessage : Type := mkMsg {
  sender : TaskId;
  msg_type : IpcType;
  payload : Payload;
  cap : option CapabilityId;
  shmem : option ShmemId;
  msg_id : Z;
}.

#[export] Instance eta_IpcMessage : Eta IpcMessage :=
  fun r => mkMsg (sender r) (msg_type r) (payload r) (cap r) (shmem r) (msg_id r).
#[export] Instance set_sender : Setter sender := ltac:(derive_setter).
#[export] Instance set_msg_type : Setter msg_type := ltac:(derive_setter).
#[export] Instance set_msg_id : Setter msg_id := ltac:(derive_setter).

Definition new_request (p : Payload) : IpcMessage := mkMsg 0 Request p None None 0.
Definition new_reply (p : Payload) : IpcMessage := mkMsg 0 Reply p None None 0.
Definition new_notification (p : Payload) : IpcMessage := mkMsg 0 Notification p None None 0.

(** ** Caller tokens *)

Module CallerToken.

Definition OBFUSCATION_KEY : Z := 0xDEADBEEFCAFEBABE.

(** [CallerToken::new(sender_pid, request_id)] *)
Definition new (sender_pid request_id : Z) : Z :=
  let sender := Z.land sender_pid 0xFFFF in
  let req := Z.land request_id 0xFFFFFFFFFFFF in
  let raw := Z.lor sender (u64 (Z.shiftl req 16)) in
  Z.lxor raw OBFUSCATION_KEY.

(** [CallerToken::decode] *)
Definition decode (token : Z) : option (TaskId * Z) :=
  let raw := Z.lxor token OBFUSCATION_KEY in
  let sender_pid := u32 (Z.land raw 0xFFFF) in
  let request_id := Z.land (Z.shiftr raw 16) 0xFFFFFFFFFFFF in
  if sender_pid =? 0 then None else Some (sender_pid, request_id).

Definition as_raw (token : Z) : Z := token.
Definition from_raw (raw : Z) : Z := raw.

End CallerToken.

(** ** Bounded receive queues *)

Module Queue.

Record MessageQueue : Type := mkQueue {
  queue : list IpcMessage;
  max_size : Z;
}.

Definition DEFAULT_SIZE : Z := 64.

Definition with_capacity (capacity : Z) : MessageQueue := mkQueue [] capacity.
Definition new : MessageQueue := with_capacity DEFAULT_SIZE.

(** [init_at_ptr] on zeroed memory: an all-zero [VecDeque] is empty, only
    [max_size] is written. *)
Definition init_at_ptr (zeroed : MessageQueue) : MessageQueue :=
  mkQueue (queue zeroed) DEFAULT_SIZE.

Definition len (q : MessageQueue) : Z := Z.of_nat (length (queue q)).
Definition is_empty (q : MessageQueue) : bool :=
  match queue q with [] => true | _ => false end.
Definition is_full (q : MessageQueue) : bool := max_size q <=? len q.
Definition capacity (q : MessageQueue) : Z := max_size q.

Definition push (q : MessageQueue) (msg : IpcMessage) : MessageQueue * bool :=
  if is_full q then (q, false)
  else (mkQueue (queue q ++ [msg]) (max_size q), true).

Definition pop (q : MessageQueue) : MessageQueue * option IpcMessage :=
  match queue q with
  | [] => (q, None)
  | m :: rest => (mkQueue rest (max_size q), Some m)
  end.

Definition clear (q : MessageQueue) : MessageQueue := mkQueue [] (max_size q).
Definition peek (q : MessageQueue) : option IpcMessage := head (queue q).
Definition iter (q : MessageQueue) : list IpcMessage := queue q.

(** [utilization]: the division panics on a zero capacity, the cast to [u8]
    truncates. *)
Definition utilization (q : MessageQueue) : option Z :=
  if max_size q =? 0 then None else Some (u8 (len q * 100 / max_size q)).

(** A queue never holds more than its capacity. *)
Definition wf (q : MessageQueue) : Prop := len q <= max_size q.

(** A client of the queue: what it asks for and what it observes. *)
Inductive op : Type :=
| OPush (m : IpcMessage)
| OPop.

(** Run operations, collecting the messages accepted and those delivered. *)
Fixpoint run (ops : list op) (q : MessageQueue) :
    MessageQueue * list IpcMessage * list IpcMessage :=
  match ops with
  | [] => (q, [], [])
  | OPush m :: rest =>
      let (q', ok) := push q m in
      let '(qf, acc, del) := run rest q' in
      (qf, if ok then m :: acc else acc, del)
  | OPop :: rest =>
      let (q', r) := pop q in
      let '(qf, acc, del) := run rest q' in
      (qf, acc, match r with Some m => m :: del | None => del end)
  end.

End Queue.

(** ** Token lemmas *)

Section token.
Import CallerToken.

Lemma token_decode (pid rid : Z) :
  decode (new pid rid) =
    if pid mod 2 ^ 16 =? 0 then None
    else Some (pid mod 2 ^ 16, rid mod 2 ^ 48).
Proof.
  unfold decode, new. rewrite lxor_cancel.
  change 0xFFFF with (2 ^ 16 - 1). change 0xFFFFFFFFFFFF with (2 ^ 48 - 1).
  rewrite !land_ones_mod by lia.
  pose proof (Z.mod_pos_bound pid (2 ^ 16) ltac:(lia)).
  pose proof (Z.mod_pos_bound rid (2 ^ 48) ltac:(lia)).
  unfold wrap. rewrite (Z.mod_small (Z.shiftl _ _)) by (rewrite Z.shiftl_mul_pow2; lia).
  rewrite lor_shiftl_add by lia.
  rewrite Z.shiftr_div_pow2, Z.div_add, Z.mod_add by lia.
  rewrite (Z.div_small (pid mod 2 ^ 16)), Z.add_0_l by lia.
  rewrite !Z.mod_mod by lia. rewrite (Z.mod_small _ (2 ^ 32)) by lia.
  done.
Qed.

(** Decoding an issued token gives back the low 16 bits of the process id
    and the low 48 bits of the request id, and fails exactly when those 16
    bits are zero; for a task id in [1, 65535] and a 48-bit request id the
    codec is therefore a round trip. *)
Theorem token_roundtrip (pid rid : Z) :
  decode (new pid rid) =
    if pid mod 2 ^ 16 =? 0 then None
    else Some (pid mod 2 ^ 16, rid mod 2 ^ 48).
Proof. apply token_decode. Qed.
End token.

(** ** Queue lemmas *)

Section queue.
Import Queue.

Lemma wf_new : wf new.
Proof. by vm_compute. Qed.

Lemma queue_wf_push q m : wf q -> wf (push q m).1.
Proof.
  unfold push, is_full, wf, len. intros Hq.
  split_match; bool_prop; cbn; [lia|]. rewrite length_app. cbn. unfold len in *. lia.
Qed.

Lemma queue_wf_pop q : wf q -> wf (pop q).1.
Proof. unfold pop, wf, len. destruct (queue q) as [|m rest] eqn:E; cbn; rewrite ?E; cbn; lia. Qed.

Lemma wf_clear q : wf q -> wf (clear q).
Proof. unfold wf, len. cbn. lia. Qed.

Lemma push_max_size q m : max_size (push q m).1 = max_size q.
Proof. unfold push. by split_match. Qed.

Lemma pop_max_size q : max_size (pop q).1 = max_size q.
Proof. unfold pop. by split_match. Qed.

Lemma push_ok q m : is_full q = false -> push q m = (mkQueue (queue q ++ [m]) (max_size q), true).
Proof. unfold push. by intros ->. Qed.

(** under any sequence of sends and receives a queue that starts within
    its capacity stays within it, keeps its capacity, and is a FIFO: what was
    queued followed by what was accepted is what was delivered followed by
    what is still queued, in order. *)
Theorem queue_fifo_bounded (ops : list op) (q : MessageQueue) :
  wf q ->
  let '(q', acc, del) := run ops q in
  wf q' /\ max_size q' = max_size q /\ queue q ++ acc = del ++ queue q'.
Proof.
  revert q. induction ops as [|[m|] ops IH]; intros q Hq; cbn [run].
  - by rewrite app_nil_r.
  - specialize (IH (push q m).1 (queue_wf_push _ m Hq)). rewrite push_max_size in IH.
    unfold push in *. destruct (is_full q); cbn in *; destruct (run ops _) as [[q' acc] del];
      destruct IH as (? & ? & IH); split_and!; try done.
    by rewrite <- IH, <- app_assoc.
  - specialize (IH (pop q).1 (queue_wf_pop _ Hq)). rewrite pop_max_size in IH.
    unfold pop in *. destruct (queue q) as [|m rest] eqn:E; cbn in *;
      destruct (run ops _) as [[q' acc] del]; destruct IH as (? & ? & IH); split_and!; try done.
    + by rewrite E in IH.
    + cbn. by rewrite <- IH.
Qed.

Lemma queue_fifo_bounded_witness :
  let m1 := new_request (mkPayload 1 0 0 0) in
  let m2 := new_request (mkPayload 2 0 0 0) in
  let q := with_capacity 1 in
  wf q /\
  (let '(q', acc, del) := run [OPush m1; OPush m2; OPop; OPush m2] q in
   wf q' /\ max_size q' = max_size q /\ queue q ++ acc = del ++ queue q') /\
  (run [OPush m1; OPush m2; OPop; OPush m2] q).2 = [m1].
Proof.
  cbn zeta. split; [unfold wf, len; cbn; lia|]. split; [|reflexivity].
  apply (queue_fifo_bounded [OPush _; OPush _; OPop; OPush _]). unfold wf, len. cbn. lia.
Defined.

(** The utilization percentage of a queue within its capacity is between
    0 and 100, so its cast to [u8] loses nothing. *)
Theorem utilization_percent (q : MessageQueue) :
  wf q -> 0 < max_size q ->
  exists u, utilization q = Some u /\ 0 <= u <= 100 /\
    u * max_size q <= len q * 100 < (u + 1) * max_size q.
Proof.
  intros Hq Hm. unfold utilization, wrap, wf in *.
  assert (0 <= len q) by (unfold len; lia).
  destruct (Z.eqb_spec (max_size q) 0); [lia|].
  assert (0 <= len q * 100 / max_size q <= 100).
  { split; [apply Z.div_pos; lia|]. apply Z.div_le_upper_bound; lia. }
  eexists; split; [done|]. rewrite Z.mod_small by lia.
  split; [lia|]. pose proof (Z.mul_div_le (len q * 100) (max_size q) Hm).
  pose proof (Z.mul_succ_div_gt (len q * 100) (max_size q) Hm). lia.
Qed.

Lemma utilization_percent_witness :
  exists u, utilization (with_capacity 100) = Some u /\ 0 <= u <= 100 /\
    u * 100 <= 0 * 100 < (u + 1) * 100.
Proof. apply (utilization_percent (with_capacity 100)); unfold wf, len; cbn; lia. Defined.
End queue.

#[export] Hint Resolve wf_new queue_wf_push queue_wf_pop wf_clear : kernel.
