(* ===== verification/CapTypes.v ===== *)
(** * Capability types and the [grants] relation

    Models [kernel/src/capability/types.rs]: the capability kinds, the table
    entry, the error type and [CapabilityType::grants].  The relation is
    proved against a denotation of capabilities as sets of accesses. *)

From S2P Require Import Prelude Message.
#[local] Open Scope kernel_scope.

Module Cap.

Inductive CapabilityType : Type :=
| All
| IpcSend (target : TaskId)
| IpcSendAny
| IpcReceive
| Memory (base_page num_pages : Z) (writable : bool)
| Resource (handle : Z)
| TaskControl
| Scheduler
| Hardware (device : Z)
| Framebuffer (phys_base size : Z)
| DmaRegion (phys_base size : Z)
| MmioRegion (phys_base size : Z)
| IoPort (base size : Z)
| DriverPrivilege
| RawBlockIO.

#[export] Instance CapabilityType_eq_dec : EqDecision CapabilityType.
Proof. solve_decision. Defined.

Inductive CapError : Type :=
| NotFound
| Revoked
| PermissionDenied
| TableFull
| InvalidId
| NonTransferable.

Record CapabilityEntry : Type := mkEntry {
  cap_type : CapabilityType;
  owner : TaskId;
  ref_count : Z;
  valid : bool;
}.

(** [CapabilityEntry::new] *)
Definition new_entry (t : CapabilityType) (o : TaskId) : CapabilityEntry :=
  mkEntry t o 1 true.

(** The range test shared by the four physical-range kinds: both ends are
    computed with [u64::checked_add], an overflow refuses. *)
Definition range_covers (b1 s1 b2 s2 : Z) : bool :=
  match checked_add 64 b1 s1, checked_add 64 b2 s2 with
  | Some he, Some re => (b1 <=? b2) && (re <=? he)
  | _, _ => false
  end.

(** [CapabilityType::grants] *)
Definition grants (held required : CapabilityType) : bool :=
  match held with
  | All => true
  | _ =>
    if decide (held = required) then true else
    match held, required with
    | IpcSendAny, IpcSend _ => true
    | Memory b1 n1 w1, Memory b2 n2 w2 => range_covers b1 n1 b2 n2 && (w1 || negb w2)
    | Framebuffer b1 s1, Framebuffer b2 s2 => range_covers b1 s1 b2 s2
    | DmaRegion b1 s1, DmaRegion b2 s2 => range_covers b1 s1 b2 s2
    | MmioRegion b1 s1, MmioRegion b2 s2 => range_covers b1 s1 b2 s2
    | IoPort b1 s1, IoPort b2 s2 => (b1 <=? b2) && (b2 + s2 <=? b1 + s1)
    | _, _ => false
    end
  end.

(** ** Specification: a capability as the set of accesses it authorizes *)

Inductive access : Type :=
| ASend (t : TaskId)
| AReceive
| AReadPage (p : Z)
| AWritePage (p : Z)
| AResource (h : Z)
| ATaskControl
| AScheduler
| AHardware (d : Z)
| AFramebuffer (a : Z)
| ADma (a : Z)
| AMmio (a : Z)
| APort (p : Z)
| AAcquireDevice
| ABlockIO.

Definition in_range (b s x : Z) : Prop := b <= x < b + s.

Definition allows (c : CapabilityType) (a : access) : Prop :=
  match c, a with
  | All, _ => True
  | IpcSend t, ASend t' => t = t'
  | IpcSendAny, ASend _ => True
  | IpcReceive, AReceive => True
  | Memory b n _, AReadPage p => in_range b n p
  | Memory b n w, AWritePage p => in_range b n p /\ w = true
  | Resource h, AResource h' => h = h'
  | TaskControl, ATaskControl => True
  | Scheduler, AScheduler => True
  | Hardware d, AHardware d' => d = d'
  | Framebuffer b s, AFramebuffer x => in_range b s x
  | DmaRegion b s, ADma x => in_range b s x
  | MmioRegion b s, AMmio x => in_range b s x
  | IoPort b s, APort x => in_range b s x
  | DriverPrivilege, AAcquireDevice => True
  | RawBlockIO, ABlockIO => True
  | _, _ => False
  end.

(** Ranges that are not empty and whose end is representable. *)
Definition proper (c : CapabilityType) : Prop :=
  match c with
  | Memory b n _ => 0 < n /\ b + n < 2 ^ 64
  | Framebuffer b s | DmaRegion b s | MmioRegion b s => 0 < s /\ b + s < 2 ^ 64
  | IoPort _ s => 0 < s
  | _ => True
  end.

End Cap.
Import Cap.

(** ** Lemmas *)

Lemma checked_add_Some w a b c : checked_add w a b = Some c <-> c = a + b /\ a + b < 2 ^ w.
Proof. unfold checked_add. destruct (Z.ltb_spec (a + b) (2 ^ w)); split; intros; simplify_eq; try lia.
  by f_equal; destruct H0. Qed.

Lemma range_covers_spec b1 s1 b2 s2 :
  range_covers b1 s1 b2 s2 = true <->
  b1 <= b2 /\ b2 + s2 <= b1 + s1 /\ b1 + s1 < 2 ^ 64 /\ b2 + s2 < 2 ^ 64.
Proof.
  unfold range_covers, checked_add.
  destruct (Z.ltb_spec (b1 + s1) (2 ^ 64)), (Z.ltb_spec (b2 + s2) (2 ^ 64));
    rewrite ?andb_true_iff, ?Z.leb_le; split; intros; try discriminate; lia.
Qed.

Lemma range_probe b1 s1 b2 s2 :
  0 < s2 -> (forall x, in_range b2 s2 x -> in_range b1 s1 x) ->
  b1 <= b2 /\ b2 + s2 <= b1 + s1.
Proof.
  unfold in_range. intros Hs H.
  pose proof (H b2 ltac:(lia)). pose proof (H (b2 + s2 - 1) ltac:(lia)). lia.
Qed.

Lemma grants_refl c : grants c c = true.
Proof. unfold grants. destruct c; try rewrite decide_True by done; done. Qed.

(** The cases [grants] can succeed in. *)
Lemma grants_cases h r :
  grants h r = true ->
  h = All \/ h = r \/
  (h = IpcSendAny /\ exists t, r = IpcSend t) \/
  (exists b1 n1 w1 b2 n2 w2, h = Memory b1 n1 w1 /\ r = Memory b2 n2 w2 /\
     range_covers b1 n1 b2 n2 = true /\ (w2 = true -> w1 = true)) \/
  (exists b1 s1 b2 s2, range_covers b1 s1 b2 s2 = true /\
     ((h = Framebuffer b1 s1 /\ r = Framebuffer b2 s2) \/
      (h = DmaRegion b1 s1 /\ r = DmaRegion b2 s2) \/
      (h = MmioRegion b1 s1 /\ r = MmioRegion b2 s2))) \/
  (exists b1 s1 b2 s2, h = IoPort b1 s1 /\ r = IoPort b2 s2 /\
     b1 <= b2 /\ b2 + s2 <= b1 + s1).
Proof.
  unfold grants. intros H.
  destruct h; try (by left); right; case_decide; try (by left); right;
    destruct r; try discriminate H; bool_prop; try naive_solver.
  destruct writable, writable0; naive_solver.
Qed.

Lemma grants_allows (held required : CapabilityType) (a : access) :
  grants held required = true -> allows required a -> allows held a.
Proof.
  intros H. apply grants_cases in H.
  destruct H as [->|[->|[[-> [t ->]]|[H|[H|H]]]]]; try (by destruct a).
  - destruct H as (b1 & n1 & w1 & b2 & n2 & w2 & -> & -> & H & Hw).
    apply range_covers_spec in H. destruct a; cbn; unfold in_range; try done; try lia.
    intros [? ?]. split; [lia|auto].
  - destruct H as (b1 & s1 & b2 & s2 & H & [[-> ->]|[[-> ->]|[-> ->]]]);
      apply range_covers_spec in H; destruct a; cbn; unfold in_range; try done; lia.
  - destruct H as (b1 & s1 & b2 & s2 & -> & -> & ? & ?). destruct a; cbn; unfold in_range; try done; lia.
Qed.

(** [grants] never widens authority: whatever the required capability
    allows, the held one allows too. *)
Theorem grants_sound (held required : CapabilityType) :
  grants held required = true ->
  forall a, allows required a -> allows held a.
Proof. intros H a. by apply grants_allows. Qed.

Lemma grants_sound_witness :
  grants (DmaRegion 0x1000 0x2000) (DmaRegion 0x1800 0x800) = true /\
  (forall a, allows (DmaRegion 0x1800 0x800) a -> allows (DmaRegion 0x1000 0x2000) a).
Proof. split; [reflexivity|]. apply grants_sound. reflexivity. Defined.

(** A required range of one kind against a held capability: the two ends of
    the range are accesses that pin the held range down. *)
Ltac range_case H Hh Hr b s probe :=
  let Hb := fresh "Hb" in
  pose proof (H (probe b)) as Hb; cbn in Hr, Hb; unfold in_range in Hb;
  specialize (Hb ltac:(lia));
  match goal with held : CapabilityType |- _ => destruct held as [| | | | | | | | |b1 s1|b1 s1|b1 s1|b1 s1| |] end;
  try done;
  match goal with b1 : Z, s1 : Z |- grants (_ ?b1 ?s1) _ = true =>
    destruct (range_probe b1 s1 b s) as []; [lia|intros x; apply (H (probe x))|] end;
  unfold grants; rewrite decide_False by done; cbn in Hh;
  first [apply range_covers_spec; lia | apply andb_true_iff; rewrite !Z.leb_le; lia].

(** [grants] is complete on proper capabilities: whenever the accesses of
    the required capability are all allowed by the held one, it answers yes. *)
Theorem grants_complete (held required : CapabilityType) :
  proper held -> proper required ->
  (forall a, allows required a -> allows held a) ->
  grants held required = true.
Proof.
  intros Hh Hr H. destruct (decide (held = required)) as [->|Hne]; [apply grants_refl|].
  destruct required as [|t| | |b n w|r| | |d|b s|b s|b s|b s| |].
  - pose proof (H AAcquireDevice I). pose proof (H ABlockIO I). by destruct held.
  - specialize (H (ASend t) eq_refl). destruct held; cbn in *; naive_solver.
  - pose proof (H (ASend 0) I) as H0. specialize (H (ASend 1) I).
    destruct held; cbn in *; naive_solver.
  - specialize (H AReceive I). destruct held; cbn in *; naive_solver.
  - cbn in Hr. pose proof (H (AReadPage b)) as Hlo. specialize (Hlo ltac:(cbn; unfold in_range; lia)).
    destruct held as [| | | |b1 n1 w1| | | | | | | | | |]; try done.
    destruct (range_probe b1 n1 b n) as []; [lia|intros x; apply (H (AReadPage x))|].
    cbn in Hh. unfold grants. rewrite decide_False by done. apply andb_true_iff. split.
    + apply range_covers_spec. lia.
    + destruct w; [|apply orb_true_r].
      destruct (H (AWritePage b)) as [_ ->]; [cbn; unfold in_range; split; [lia|done]|done].
  - specialize (H (AResource r) eq_refl). destruct held; cbn in *; naive_solver.
  - specialize (H ATaskControl I). destruct held; cbn in *; naive_solver.
  - specialize (H AScheduler I). destruct held; cbn in *; naive_solver.
  - specialize (H (AHardware d) eq_refl). destruct held; cbn in *; naive_solver.
  - range_case H Hh Hr b s AFramebuffer.
  - range_case H Hh Hr b s ADma.
  - range_case H Hh Hr b s AMmio.
  - range_case H Hh Hr b s APort.
  - specialize (H AAcquireDevice I). destruct held; cbn in *; naive_solver.
  - specialize (H ABlockIO I). destruct held; cbn in *; naive_solver.
Qed.

Lemma grants_complete_witness :
  proper (IoPort 0x3F8 8) /\ grants (IoPort 0x3F8 8) (IoPort 0x3FA 1) = true.
Proof.
  split; [done|]. apply grants_complete; [done|done|].
  intros []; cbn; unfold in_range; try done; lia.
Defined.
