(* ===== verification/Buddy.v ===== *)
(** * The buddy allocator

    Models [BuddyAllocator] of [kernel/src/memory/physical.rs]: free lists of
    2^order-page blocks, threaded through the free memory itself.  The memory
    the lists live in is a finite map from the (virtual) address of a free
    block to its [next] pointer. *)

From S2P Require Import Prelude.
#[local] Open Scope kernel_scope.

Module Buddy.

Definition PAGE_SIZE : Z := 4096.
Definition MAX_ORDER : nat := 10.
(** [is_block_free] and [remove_from_free_list] give up after this many hops. *)
Definition WALK_LIMIT : Z := 1000000.
(** The lowest address of the higher half. *)
Definition HIGHER_HALF : Z := 0xFFFF800000000000.

Record State : Type := mkState {
  hhdm_offset : Z;
  mem : gmap Z (option Z);
  free_lists : list (option Z);
  base_addr : Z;
  total_pages : Z;
  free_count : Z;
}.

#[export] Instance eta_State : Eta State := fun r =>
  mkState (hhdm_offset r) (mem r) (free_lists r) (base_addr r) (total_pages r) (free_count r).
#[export] Instance set_mem : Setter mem := ltac:(derive_setter).
#[export] Instance set_free_lists : Setter free_lists := ltac:(derive_setter).
#[export] Instance set_total_pages : Setter total_pages := ltac:(derive_setter).
#[export] Instance set_free_count : Setter free_count := ltac:(derive_setter).

(** [BuddyAllocator::new()], with the boot loader's direct-map offset. *)
Definition new (hhdm : Z) : State :=
  mkState hhdm ∅ (replicate (S MAX_ORDER) None) 0 0 0.

(** Nothing in the allocator returns an error: it answers or panics. *)
Definition B (A : Type) : Type := M State Empty_set A.

Definition phys_to_virt (s : State) (phys : Z) : Z := u64 (hhdm_offset s + phys).
Definition virt_to_phys (s : State) (virt : Z) : option Z :=
  if hhdm_offset s <=? virt then Some (virt - hhdm_offset s) else None.

(** [1 << order] pages, and their size in bytes. *)
Definition block_pages (order : nat) : Z := 2 ^ Z.of_nat order.
Definition block_size (order : nat) : Z := PAGE_SIZE * block_pages order.

(** [self.free_lists[order]]: an index past the array panics. *)
Definition list_head (order : nat) : B (option Z) := fun s =>
  match free_lists s !! order with
  | Some h => (s, Ok h)
  | None => (s, Panic)
  end.

Definition set_list_head (order : nat) (h : option Z) : B unit :=
  modify (fun s => s <| free_lists := <[order := h]> (free_lists s) |>).

(** [block_ptr.as_ref().next].  Reading memory that holds no free block is
    undefined behaviour; the model stops there. *)
Definition read_next (ptr : Z) : B (option Z) := fun s =>
  match mem s !! ptr with
  | Some n => (s, Ok n)
  | None => (s, Panic)
  end.

Definition write_block (ptr : Z) (next : option Z) : B unit :=
  modify (fun s => s <| mem := <[ptr := next]> (mem s) |>).

Definition add_free (n : Z) : B unit :=
  modify (fun s => s <| free_count := u64 (free_count s + n) |>).
Definition sub_free (n : Z) : B unit :=
  modify (fun s => s <| free_count := u64 (free_count s - n) |>).

(** [free_block_unchecked] *)
Definition free_block_unchecked (addr : Z) (order : nat) : B unit :=
  virt_addr <- gets (fun s => phys_to_virt s addr) ;;
  if virt_addr <? HIGHER_HALF then M_ret tt
  else
    next <- list_head order ;;
    write_block virt_addr next ;;;
    set_list_head order (Some virt_addr).

(** [alloc_pages]: the recursion goes up one order per call. *)
Fixpoint alloc_pages_fuel (fuel : nat) (order : nat) : B (option Z) :=
  match fuel with
  | O => panic
  | S fuel =>
      if (MAX_ORDER <? order)%nat then M_ret None
      else
        h <- list_head order ;;
        match h with
        | Some block_ptr =>
            next <- read_next block_ptr ;;
            set_list_head order next ;;;
            sub_free (block_pages order) ;;;
            gets (fun s => virt_to_phys s block_ptr)
        | None =>
            if (order <? MAX_ORDER)%nat then
              larger <- alloc_pages_fuel fuel (S order) ;;
              match larger with
              | Some larger_block_addr =>
                  free_block_unchecked (u64 (larger_block_addr + block_pages order * PAGE_SIZE)) order ;;;
                  add_free (block_pages order) ;;;
                  M_ret (Some larger_block_addr)
              | None => M_ret None
              end
            else M_ret None
        end
  end.

Definition alloc_pages (order : nat) : B (option Z) := alloc_pages_fuel (S (S MAX_ORDER)) order.

(** [is_block_free]: the walk along one list, capped at [WALK_LIMIT] hops. *)
Fixpoint walk (fuel : nat) (m : gmap Z (option Z)) (target : Z) (hops : Z) (current : option Z) : option bool :=
  match current with
  | None => Some false
  | Some p =>
      if WALK_LIMIT <=? hops then Some false
      else if p =? target then Some true
      else match fuel, m !! p with
           | S fuel, Some next => walk fuel m target (hops + 1) next
           | _, _ => None
           end
  end.

Definition walk_fuel : nat := Z.to_nat WALK_LIMIT.

Definition is_block_free (addr : Z) (order : nat) : B bool :=
  virt_addr <- gets (fun s => phys_to_virt s addr) ;;
  h <- list_head order ;;
  fun s => match walk walk_fuel (mem s) virt_addr 0 h with
           | Some b => (s, Ok b)
           | None => (s, Panic)
           end.

(** [remove_from_free_list]: the walk keeps the previous node so that it can
    be re-linked; a list that ends without the block panics. *)
Fixpoint unlink (fuel : nat) (order : nat) (target : Z) (hops : Z) (prev current : option Z) : B unit :=
  match current with
  | None => panic
  | Some p =>
      if WALK_LIMIT <=? hops then M_ret tt
      else if p =? target then
        next <- read_next p ;;
        match prev with
        | Some prev_ptr => write_block prev_ptr next
        | None => set_list_head order next
        end
      else
        next <- read_next p ;;
        match fuel with
        | S fuel => unlink fuel order target (hops + 1) current next
        | O => panic
        end
  end.

Definition remove_from_free_list (addr : Z) (order : nat) : B unit :=
  target <- gets (fun s => phys_to_virt s addr) ;;
  h <- list_head order ;;
  unlink walk_fuel order target 0 None h.

(** [buddy_address] *)
Definition buddy_address (addr : Z) (order : nat) : Z := Z.lxor addr (block_size order).

(** [free_pages], in release mode (the debug assertions are compiled out). *)
Fixpoint free_pages_fuel (fuel : nat) (addr : Z) (order : nat) : B unit :=
  match fuel with
  | O => panic
  | S fuel =>
      already <- is_block_free addr order ;;
      if already : bool then panic
      else
        let give_back :=
          free_block_unchecked addr order ;;;
          add_free (block_pages order) in
        if (order <? MAX_ORDER)%nat then
          let buddy_addr := buddy_address addr order in
          buddy_free <- is_block_free buddy_addr order ;;
          if buddy_free : bool then
            remove_from_free_list buddy_addr order ;;;
            sub_free (block_pages order) ;;;
            free_pages_fuel fuel (Z.min addr buddy_addr) (S order)
          else give_back
        else give_back
  end.

Definition free_pages (addr : Z) (order : nat) : B unit := free_pages_fuel (S MAX_ORDER) addr order.

(** [usize::trailing_zeros], 64 on zero. *)
Fixpoint pos_trailing_zeros (p : positive) : nat :=
  match p with xO q => S (pos_trailing_zeros q) | _ => 0%nat end.
Definition trailing_zeros (z : Z) : nat :=
  match z with Zpos p => pos_trailing_zeros p | _ => 64%nat end.

(** [add_region]: the loop takes at least one page off per turn. *)
Fixpoint add_region_fuel (fuel : nat) (base num_pages : Z) : B unit :=
  if num_pages <=? 0 then M_ret tt
  else
    match fuel with
    | O => panic
    | S fuel =>
        let order := Nat.min (trailing_zeros num_pages) MAX_ORDER in
        let aligned_order := Nat.min (trailing_zeros (base / PAGE_SIZE)) order in
        let actual_order := Nat.min aligned_order order in
        let actual_pages := block_pages actual_order in
        free_block_unchecked base actual_order ;;;
        modify (fun s => s <| total_pages := u64 (total_pages s + actual_pages) |>
                           <| free_count := u64 (free_count s + actual_pages) |>) ;;;
        add_region_fuel fuel (u64 (base + actual_pages * PAGE_SIZE)) (num_pages - actual_pages)
    end.

Definition add_region (base num_pages : Z) : B unit := add_region_fuel (Z.to_nat num_pages) base num_pages.

Record MemoryStats : Type := mkStats { total_bytes : Z; free_bytes : Z; used_bytes : Z }.

Definition stats (s : State) : MemoryStats :=
  mkStats (u64 (total_pages s * PAGE_SIZE)) (u64 (free_count s * PAGE_SIZE))
          (u64 (u64 (total_pages s - free_count s) * PAGE_SIZE)).

End Buddy.
