(* ===== verification/BuddySpec.v ===== *)
(** * Correctness of the buddy allocator

    A representation predicate ties the intrusive free lists to one list of
    block addresses per order; the allocator is proved against the set of
    physical bytes those blocks cover. *)

From S2P Require Import Prelude Buddy.
Import Buddy.
#[local] Open Scope kernel_scope.

(** ** Specification *)

(** The free blocks, by order: physical base addresses in list order. *)
Definition FreeMap : Type := nat -> list Z.

Definition upd (o : nat) (l : list Z) (L : FreeMap) : FreeMap :=
  fun o' => if decide (o' = o) then l else L o'.

(** The list segment from [h] to [e] through the nodes [ps]. *)
Fixpoint lseg (m : gmap Z (option Z)) (h : option Z) (ps : list Z) (e : option Z) : Prop :=
  match ps with
  | [] => h = e
  | p :: ps' => h = Some p /\ exists n, m !! p = Some n /\ lseg m n ps' e
  end.

Definition in_block (a : Z) (o : nat) (x : Z) : Prop := a <= x < a + block_size o.

(** A naturally aligned block below the physical limit. *)
Definition block_ok (lim a : Z) (o : nat) : Prop :=
  0 <= a /\ a + block_size o <= lim /\ (block_size o | a).

Definition listed (L : FreeMap) (o : nat) (a : Z) : Prop := (o <= MAX_ORDER)%nat /\ a ∈ L o.

(** The bytes covered by free blocks. *)
Definition covers (L : FreeMap) (x : Z) : Prop := exists o a, listed L o a /\ in_block a o x.

Definition blocks_disjoint (a : Z) (o : nat) (b : Z) (p : nat) : Prop :=
  a + block_size o <= b \/ b + block_size p <= a.

(** Free blocks are aligned, listed once and pairwise disjoint. *)
Record well_formed (lim : Z) (L : FreeMap) : Prop := {
  wf_nodup o : (o <= MAX_ORDER)%nat -> NoDup (L o);
  wf_ok o a : listed L o a -> block_ok lim a o;
  wf_disjoint o a p b : listed L o a -> listed L p b -> (o, a) <> (p, b) -> blocks_disjoint a o b p;
}.

(** Two free buddies are always merged. *)
Definition coalesced (L : FreeMap) : Prop :=
  forall o a, (o < MAX_ORDER)%nat -> a ∈ L o -> buddy_address a o ∉ L o.

(** The lists in memory are the lists of [L], in the direct map. *)
Record repr (lim : Z) (s : State) (L : FreeMap) : Prop := {
  repr_low : HIGHER_HALF <= hhdm_offset s;
  repr_high : hhdm_offset s + lim <= 2 ^ 64;
  repr_length : length (free_lists s) = S MAX_ORDER;
  repr_list o : (o <= MAX_ORDER)%nat ->
    exists h, free_lists s !! o = Some h /\
      lseg (mem s) h ((fun a => hhdm_offset s + a) <$> L o) None;
}.

(** No free list is longer than the walk limit. *)
Definition within_walk (L : FreeMap) : Prop :=
  forall o, (o <= MAX_ORDER)%nat -> Z.of_nat (length (L o)) <= WALK_LIMIT.

(** ** Lists in memory *)

Lemma upd_eq o l L : upd o l L o = l.
Proof. unfold upd. by rewrite decide_True. Qed.

Lemma upd_ne o o' l L : o' <> o -> upd o l L o' = L o'.
Proof. intros. unfold upd. by rewrite decide_False. Qed.

Lemma lseg_frame m q v h ps e : q ∉ ps -> lseg m h ps e -> lseg (<[q := v]> m) h ps e.
Proof.
  revert h. induction ps as [|p ps IH]; intros h Hq; [done|].
  intros (-> & n & Hn & Hl). cbn. split; [done|]. exists n.
  rewrite lookup_insert_ne by set_solver. split; [done|]. apply IH; set_solver.
Qed.

Lemma lseg_app m h a b e :
  lseg m h (a ++ b) e <-> exists mid, lseg m h a mid /\ lseg m mid b e.
Proof.
  revert h. induction a as [|p a IH]; intros h; cbn; [naive_solver|].
  split.
  - intros (-> & n & Hn & Hl). apply IH in Hl as (mid & ? & ?). naive_solver.
  - intros (mid & (-> & n & Hn & Hl) & Hb). split; [done|]. exists n.
    split; [done|]. apply IH. eauto.
Qed.

Lemma lseg_head m h ps : lseg m h ps None -> h = head ps.
Proof. destruct ps; cbn; naive_solver. Qed.

(** Relinking the last node of a segment changes where it ends. *)
Lemma lseg_relink m h ps p e e' :
  p ∉ ps -> lseg m h (ps ++ [p]) e -> lseg (<[p := e']> m) h (ps ++ [p]) e'.
Proof.
  intros Hp H. apply lseg_app in H as (mid & H1 & -> & n & Hn & _).
  apply lseg_app. exists (Some p). split; [by apply lseg_frame|].
  cbn. split; [done|]. exists e'. by rewrite lookup_insert_eq.
Qed.

Lemma walk_spec fuel m target hops h ps :
  lseg m h ps None -> 0 <= hops -> hops + Z.of_nat (length ps) <= WALK_LIMIT ->
  (length ps <= fuel)%nat ->
  walk fuel m target hops h = Some (bool_decide (target ∈ ps)).
Proof.
  revert fuel hops h. induction ps as [|p ps IH]; intros fuel hops h Hl H0 Hlim Hf.
  - cbn in Hl. subst. destruct fuel; reflexivity.
  - destruct Hl as (-> & n & Hn & Hl). cbn in Hlim, Hf.
    destruct fuel as [|fuel]; [lia|]. cbn [walk].
    destruct (Z.leb_spec WALK_LIMIT hops); [lia|].
    destruct (Z.eqb_spec p target) as [->|Hne].
    + by rewrite bool_decide_true by set_solver.
    + rewrite Hn, (IH fuel (hops + 1) n) by (done || lia).
      f_equal. apply bool_decide_ext. set_solver.
Qed.

(** What removing a node from a list leaves behind: the same list without the
    node, and nothing outside the list touched. *)
Lemma unlink_spec fuel order s pre l1 t l2 hops :
  let l := pre ++ l1 ++ t :: l2 in
  lseg (mem s) (default None (free_lists s !! order)) l None ->
  NoDup l -> (order < length (free_lists s))%nat ->
  0 <= hops -> hops + Z.of_nat (length l1) < WALK_LIMIT -> (length l1 <= fuel)%nat ->
  exists s' h,
    unlink fuel order t hops (last pre) (head (l1 ++ t :: l2)) s = (s', Ok tt) /\
    s' = s <| mem := mem s' |> <| free_lists := <[order := h]> (free_lists s) |> /\
    lseg (mem s') h (pre ++ l1 ++ l2) None /\
    (forall q, q ∉ l -> mem s' !! q = mem s !! q).
Proof.
  revert pre fuel hops. induction l1 as [|p l1 IH]; intros pre fuel hops l Hl Hnd Ho H0 Hlim Hf; subst l.
  - cbn in *. apply lseg_app in Hl as (mid & Hpre & -> & n & Hn & Hl2).
    assert (unlink fuel order t hops (last pre) (Some t) s =
      match last pre with
      | Some q => write_block q n s
      | None => set_list_head order n s
      end) as ->.
    { destruct fuel; cbn [unlink]; (destruct (Z.leb_spec WALK_LIMIT hops); [lia|]);
        rewrite Z.eqb_refl; unfold M_bind, read_next; rewrite Hn; by destruct (last pre). }
    destruct (lookup_lt_is_Some_2 (free_lists s) order Ho) as [h0 Hh0]. rewrite Hh0 in Hpre. cbn in Hpre.
    induction pre as [|p0 pre0 _] using rev_ind.
    + cbn in *. eexists _, n. split; [done|]. split_and!; done.
    + rewrite last_snoc. eexists _, h0. split; [done|]. cbn. split_and!.
      * rewrite list_insert_id by done. by destruct s.
      * rewrite <- app_assoc in Hnd. apply NoDup_app in Hnd as (? & Hd & Hnd2).
        cbn in Hnd2. apply NoDup_cons in Hnd2 as [Hp0 Hnd2].
        apply lseg_app. exists n. split; [|apply lseg_frame; set_solver].
        eapply lseg_relink; [|done]. intros Hin. apply (Hd _ Hin). set_solver.
      * intros q Hq. rewrite lookup_insert_ne by set_solver. done.
  - assert (exists n, mem s !! p = Some n /\ n = head (l1 ++ t :: l2)) as (n & Hn & Hhead).
    { apply lseg_app in Hl as (mid & _ & -> & n & Hn & Hl2). exists n.
      split; [done|]. by apply lseg_head in Hl2. }
    assert (p <> t) by (intros ->; apply NoDup_app in Hnd as (_ & _ & Hnd);
      cbn in Hnd; apply NoDup_cons in Hnd as [Hnd _]; set_solver).
    cbn in Hlim, Hf. destruct fuel as [|fuel]; [lia|].
    assert (unlink (S fuel) order t hops (last pre) (Some p) s =
      unlink fuel order t (hops + 1) (last (pre ++ [p])) (head (l1 ++ t :: l2)) s) as Hstep.
    { cbn [unlink]. destruct (Z.leb_spec WALK_LIMIT hops); [lia|].
      destruct (Z.eqb_spec p t); [done|]. unfold M_bind, read_next.
      by rewrite Hn, last_snoc, <- Hhead. }
    destruct (IH (pre ++ [p]) fuel (hops + 1)) as (s' & h & Hrun & Hs' & Hl' & Hfr);
      rewrite <- ?app_assoc in *; cbn in *; try done; try lia.
    exists s', h. by rewrite Hstep.
Qed.

Lemma lseg_ext m m' h ps e :
  (forall q, q ∈ ps -> m' !! q = m !! q) -> lseg m h ps e -> lseg m' h ps e.
Proof.
  revert h. induction ps as [|p ps IH]; intros h Hq; [done|].
  intros (-> & n & Hn & Hl). cbn. split; [done|]. exists n.
  rewrite Hq by set_solver. split; [done|]. apply IH; set_solver.
Qed.

(** ** Blocks and coverage *)

Lemma block_size_pos o : 0 < block_size o.
Proof. unfold block_size, block_pages, PAGE_SIZE. lia. Qed.

Lemma block_size_S o : block_size (S o) = 2 * block_size o.
Proof.
  unfold block_size, block_pages. rewrite Nat2Z.inj_succ, Z.pow_succ_r by lia. lia.
Qed.

Lemma in_block_base a o : in_block a o a.
Proof. unfold in_block. pose proof (block_size_pos o). lia. Qed.

#[export] Hint Resolve in_block_base : kernel.

Lemma disjoint_not_in a o b p x : blocks_disjoint a o b p -> in_block a o x -> in_block b p x -> False.
Proof. unfold blocks_disjoint, in_block. lia. Qed.

(** Two aligned blocks that do not overlap bytewise are disjoint ranges. *)
Lemma not_overlap_disjoint a o b p :
  (forall x, in_block a o x -> in_block b p x -> False) -> blocks_disjoint a o b p.
Proof.
  intros H. unfold blocks_disjoint.
  destruct (Z.le_gt_cases (a + block_size o) b); [by left|].
  destruct (Z.le_gt_cases (b + block_size p) a); [by right|]. exfalso.
  apply (H (Z.max a b)); unfold in_block;
    pose proof (block_size_pos o); pose proof (block_size_pos p); lia.
Qed.

Section wf.
Context (lim : Z).

Lemma listed_covers L o a : listed L o a -> covers L a.
Proof. intros H. exists o, a. split; [done|]. apply in_block_base. Qed.

Lemma listed_order_inj L o p a : well_formed lim L -> listed L o a -> listed L p a -> o = p.
Proof.
  intros W Ho Hp. destruct (decide (o = p)) as [|Hne]; [done|]. exfalso.
  eapply (disjoint_not_in a o a p a); [eapply wf_disjoint; try done; congruence|..]; auto with kernel.
Qed.

Lemma listed_push L o b p a :
  (o <= MAX_ORDER)%nat ->
  listed (upd o (b :: L o) L) p a <-> listed L p a \/ (p = o /\ a = b).
Proof.
  intros Ho. unfold listed. destruct (decide (p = o)) as [->|Hne];
    [rewrite upd_eq, elem_of_cons|rewrite upd_ne by done]; naive_solver.
Qed.

Lemma listed_remove L o b l1 l2 p a :
  (o <= MAX_ORDER)%nat -> L o = l1 ++ b :: l2 -> NoDup (L o) ->
  listed (upd o (l1 ++ l2) L) p a <-> listed L p a /\ (p, a) <> (o, b).
Proof.
  intros Ho HL Hnd. unfold listed. destruct (decide (p = o)) as [->|Hne];
    [rewrite upd_eq|rewrite upd_ne by done; naive_solver].
  rewrite HL in *. apply NoDup_app in Hnd as (Hnd1 & Hd & [Hb Hnd2]%NoDup_cons).
  rewrite !elem_of_app, elem_of_cons. split; [|naive_solver].
  intros [_ Ha]. split; [naive_solver|]. intros [= ->].
  destruct Ha as [Ha|Ha]; [|done]. apply (Hd _ Ha). set_solver.
Qed.

(** Adding a block that overlaps no free block. *)
Lemma wf_push L o b :
  well_formed lim L -> (o <= MAX_ORDER)%nat -> block_ok lim b o ->
  (forall x, in_block b o x -> ~ covers L x) ->
  well_formed lim (upd o (b :: L o) L).
Proof.
  intros W Ho Hok Hfree.
  assert (forall p a, listed L p a -> blocks_disjoint b o a p) as Hdis.
  { intros p a Ha. apply not_overlap_disjoint. intros x Hx Hx'.
    apply (Hfree x Hx). by exists p, a. }
  split.
  - intros p Hp. destruct (decide (p = o)) as [->|Hne];
      [rewrite upd_eq|rewrite upd_ne by done; by apply (wf_nodup lim)].
    apply NoDup_cons. split; [|by apply (wf_nodup lim)]. intros Hin.
    apply (Hfree b); [auto with kernel|]. by apply (listed_covers L o).
  - intros p a [Ha|[-> ->]]%listed_push; [by apply (wf_ok lim L)|done|done].
  - intros p a q c [Ha|[-> ->]]%listed_push [Hc|[-> ->]]%listed_push Hne; try done.
    + by eapply wf_disjoint.
    + by apply or_comm, Hdis.
    + by apply Hdis.
Qed.

Lemma covers_push L o b x :
  (o <= MAX_ORDER)%nat -> covers (upd o (b :: L o) L) x <-> covers L x \/ in_block b o x.
Proof.
  intros Ho. unfold covers. setoid_rewrite (listed_push L o b _ _ Ho). naive_solver.
Qed.

(** Taking a listed block out. *)
Lemma wf_remove L o b l1 l2 :
  well_formed lim L -> (o <= MAX_ORDER)%nat -> L o = l1 ++ b :: l2 ->
  well_formed lim (upd o (l1 ++ l2) L).
Proof.
  intros W Ho HL. pose proof (wf_nodup lim L W o Ho) as Hnd. split.
  - intros p Hp. destruct (decide (p = o)) as [->|Hne];
      [rewrite upd_eq|rewrite upd_ne by done; by apply (wf_nodup lim)].
    rewrite HL in Hnd. apply NoDup_app in Hnd as (? & Hd & [? ?]%NoDup_cons).
    apply NoDup_app. split_and!; try done. intros y Hy Hy'. apply (Hd y Hy). set_solver.
  - intros p a [Ha _]%(listed_remove L o b); [|done..]. by apply (wf_ok lim L).
  - intros p a q c [Ha _]%(listed_remove L o b) [Hc _]%(listed_remove L o b) Hne; try done.
    by eapply wf_disjoint.
Qed.

Lemma covers_remove L o b l1 l2 x :
  well_formed lim L -> (o <= MAX_ORDER)%nat -> L o = l1 ++ b :: l2 ->
  covers (upd o (l1 ++ l2) L) x <-> covers L x /\ ~ in_block b o x.
Proof.
  intros W Ho HL. pose proof (wf_nodup lim L W o Ho) as Hnd.
  assert (listed L o b) by (split; [done|]; rewrite HL; set_solver).
  unfold covers. setoid_rewrite (listed_remove L o b l1 l2 _ _ Ho HL Hnd). split.
  - intros (p & a & [Ha Hne] & Hx). split; [by exists p, a|]. intros Hx'.
    eapply disjoint_not_in; [eapply (wf_disjoint lim L W p a o b)|..]; done.
  - intros [(p & a & Ha & Hx) Hn]. exists p, a. split_and!; try done. congruence.
Qed.

(** ** The list operations, on the representation *)

Context (s : State) (L : FreeMap).
Context (HR : repr lim s L) (HW : well_formed lim L).

Lemma virt_exact a : 0 <= a < lim -> phys_to_virt s a = hhdm_offset s + a.
Proof.
  intros Ha. destruct HR as [Hlo Hhi _ _]. unfold phys_to_virt, HIGHER_HALF in *.
  apply wrap_small. unfold in_width. lia.
Qed.

Lemma listed_below o a : listed L o a -> 0 <= a < lim.
Proof.
  intros Ha. pose proof (wf_ok lim L HW o a Ha) as (? & ? & _).
  pose proof (block_size_pos o). lia.
Qed.

(** The direct map is injective on addresses, so a walk compares physical
    addresses. *)
Lemma virt_inj a b : in_width 64 a -> 0 <= b < lim -> phys_to_virt s a = hhdm_offset s + b -> a = b.
Proof.
  intros Ha Hb. destruct HR as [Hlo Hhi _ _]. unfold in_width, phys_to_virt, wrap, HIGHER_HALF in *.
  destruct (Z.lt_ge_cases (hhdm_offset s + a) (2 ^ 64)).
  - rewrite Z.mod_small by lia. lia.
  - rewrite <- (Z.mod_unique_pos _ (2 ^ 64) 1 (hhdm_offset s + a - 2 ^ 64)) by lia. lia.
Qed.

Lemma is_block_free_spec a o :
  within_walk L -> (o <= MAX_ORDER)%nat -> in_width 64 a ->
  is_block_free a o s = (s, Ok (bool_decide (a ∈ L o))).
Proof.
  intros Hw Ho Ha. unfold is_block_free, M_bind, gets, list_head.
  destruct (repr_list lim s L HR o Ho) as (h & -> & Hl).
  specialize (Hw o Ho). rewrite (walk_spec _ _ _ _ _ _ Hl);
    rewrite ?length_fmap; unfold walk_fuel; [|lia..].
  do 2 f_equal. apply bool_decide_ext. rewrite list_elem_of_fmap. split.
  - intros (b & Hb & Hin). assert (a = b) as ->; [|done].
    apply virt_inj; [done| |done]. by apply (listed_below o).
  - intros Hin. exists a. split; [|done]. apply virt_exact. by apply (listed_below o).
Qed.

(** Distinct free blocks are distinct nodes in memory. *)
Lemma node_disjoint o p q :
  (o <= MAX_ORDER)%nat -> (p <= MAX_ORDER)%nat -> o <> p ->
  q ∈ (fun a => hhdm_offset s + a) <$> L p -> q ∉ (fun a => hhdm_offset s + a) <$> L o.
Proof.
  intros Ho Hp Hne (a & -> & Ha)%list_elem_of_fmap (b & Heq & Hb)%list_elem_of_fmap.
  assert (a = b) as <- by lia. apply Hne. by apply (listed_order_inj L o p a).
Qed.

Lemma free_block_unchecked_spec b o :
  (o <= MAX_ORDER)%nat -> block_ok lim b o -> (forall x, in_block b o x -> ~ covers L x) ->
  exists s', free_block_unchecked b o s = (s', Ok tt) /\ repr lim s' (upd o (b :: L o) L) /\
    hhdm_offset s' = hhdm_offset s /\ free_count s' = free_count s /\ total_pages s' = total_pages s.
Proof.
  intros Ho Hok Hfree. pose proof (block_size_pos o). destruct Hok as (Hb0 & Hblim & _).
  destruct (repr_list lim s L HR o Ho) as (h & Hh & Hl).
  assert (forall p, (p <= MAX_ORDER)%nat -> hhdm_offset s + b ∉ (fun a => hhdm_offset s + a) <$> L p) as Hnot.
  { intros p Hp (a & Heq & Ha)%list_elem_of_fmap. replace a with b in Ha by lia.
    apply (Hfree b); [auto with kernel|]. by apply (listed_covers L p b). }
  unfold free_block_unchecked. step_monad. rewrite virt_exact by lia.
  destruct HR as [Hlo Hhi Hlen Hls].
  destruct (Z.ltb_spec (hhdm_offset s + b) HIGHER_HALF); [lia|].
  unfold list_head, M_bind at 1. rewrite Hh.
  eexists; split; [done|]. split_and!; [|done..]. split; cbn; [done|done|by rewrite length_insert|].
  intros p Hp. destruct (decide (p = o)) as [->|Hne].
  - exists (Some (hhdm_offset s + b)). rewrite upd_eq. split.
    { apply list_lookup_insert_eq. lia. }
    cbn. split; [done|]. exists h. rewrite lookup_insert_eq. split; [done|].
    apply lseg_frame; auto.
  - destruct (Hls p Hp) as (h' & Hh' & Hl'). exists h'.
    rewrite list_lookup_insert_ne, upd_ne by done. split; [done|]. apply lseg_frame; auto.
Qed.

Lemma remove_from_free_list_spec b o l1 l2 :
  within_walk L -> (o <= MAX_ORDER)%nat -> L o = l1 ++ b :: l2 ->
  exists s', remove_from_free_list b o s = (s', Ok tt) /\ repr lim s' (upd o (l1 ++ l2) L) /\
    hhdm_offset s' = hhdm_offset s /\ free_count s' = free_count s /\ total_pages s' = total_pages s.
Proof.
  intros Hw Ho HL. destruct (repr_list lim s L HR o Ho) as (h & Hh & Hl).
  assert (0 <= b < lim) as Hb.
  { apply (listed_below o). split; [done|]. rewrite HL. set_solver. }
  specialize (Hw o Ho). rewrite HL, length_app in Hw. cbn in Hw.
  set (v := fun a => hhdm_offset s + a) in *.
  assert (v <$> L o = [] ++ (v <$> l1) ++ v b :: (v <$> l2)) as HvL.
  { by rewrite HL, fmap_app, fmap_cons. }
  destruct (unlink_spec walk_fuel o s [] (v <$> l1) (v b) (v <$> l2) 0)
    as (s' & h' & Hrun & Hs' & Hl' & Hframe).
  { rewrite Hh. cbn. cbn in HvL. by rewrite <- HvL. }
  { rewrite <- HvL. apply NoDup_fmap_2_strong; [unfold v; lia|]. by apply (wf_nodup lim). }
  { destruct HR as [_ _ Hlen _]. lia. } { lia. } { rewrite length_fmap. lia. }
  { rewrite length_fmap. unfold walk_fuel. lia. }
  exists s'. unfold remove_from_free_list, M_bind, gets, list_head.
  rewrite virt_exact, Hh by done. apply lseg_head in Hl. rewrite HvL in Hl. cbn in Hl, Hrun.
  rewrite Hl. split; [done|]. rewrite Hs'; cbn. split_and!; [|done..].
  destruct HR as [Hlo Hhi Hlen Hls]. split; cbn; [done|done|by rewrite length_insert|].
  intros p Hp. destruct (decide (p = o)) as [->|Hne].
  - exists h'. rewrite upd_eq, fmap_app. split; [apply list_lookup_insert_eq; lia|]. done.
  - destruct (Hls p Hp) as (hp & Hhp & Hlp). exists hp.
    rewrite list_lookup_insert_ne, upd_ne by done. split; [done|].
    eapply lseg_ext; [|done]. intros q Hq. apply Hframe. cbn in HvL. rewrite <- HvL.
    by apply (node_disjoint o p).
Qed.
End wf.

(** ** Buddies *)

Lemma lxor_one k : 0 <= k -> Z.lxor k 1 = if Z.even k then k + 1 else k - 1.
Proof.
  intros Hk. destruct k as [|[p|p|]|]; [reflexivity..|lia].
Qed.

Lemma buddy_cases a o :
  0 <= a -> (block_size o | a) ->
  (buddy_address a o = a + block_size o /\ (block_size (S o) | a)) \/
  (buddy_address a o = a - block_size o /\ (block_size (S o) | a - block_size o)).
Proof.
  intros Ha [k ->]. pose proof (block_size_pos o). rewrite block_size_S.
  assert (0 <= k) by nia.
  assert (block_size o = 2 ^ (12 + Z.of_nat o)) as Hsz.
  { unfold block_size, block_pages, PAGE_SIZE. rewrite Z.pow_add_r; lia. }
  assert (buddy_address (k * block_size o) o = Z.lxor k 1 * block_size o) as ->.
  { unfold buddy_address. rewrite Hsz at 2. rewrite Hsz.
    rewrite <- (Z.mul_1_l (2 ^ (12 + Z.of_nat o))) at 2.
    rewrite <- !Z.shiftl_mul_pow2 by lia. symmetry. apply Z.shiftl_lxor. }
  rewrite lxor_one by done. destruct (Z.even k) eqn:E.
  - left. apply Z.even_spec in E as [j ->]. split; [lia|]. exists j. lia.
  - right. assert (Z.odd k = true) as [j ->]%Z.odd_spec by (rewrite <- Z.negb_even, E; done).
    split; [lia|]. exists j. lia.
Qed.

Lemma buddy_involutive a o : buddy_address (buddy_address a o) o = a.
Proof. apply lxor_cancel. Qed.

Lemma coalesced_remove L o l1 b l2 : L o = l1 ++ b :: l2 -> coalesced L -> coalesced (upd o (l1 ++ l2) L).
Proof.
  intros HL HC p a Hp Ha. specialize (HC p a Hp). destruct (decide (p = o)) as [->|Hne].
  - rewrite upd_eq in *. rewrite HL in HC. set_solver.
  - rewrite upd_ne in * by done. auto.
Qed.

Lemma coalesced_push L o b :
  ((o < MAX_ORDER)%nat -> buddy_address b o ∉ b :: L o) -> coalesced L -> coalesced (upd o (b :: L o) L).
Proof.
  intros Hb HC p a Hp Ha. destruct (decide (p = o)) as [->|Hne].
  - rewrite upd_eq in *. specialize (Hb Hp). apply elem_of_cons in Ha as [->|Ha]; [done|].
    intros [Heq|Hin]%elem_of_cons; [|by apply (HC o a Hp Ha)].
    apply Hb. rewrite <- Heq, buddy_involutive. set_solver.
  - rewrite upd_ne in * by done. auto.
Qed.

Lemma within_walk_remove L o l1 b l2 : L o = l1 ++ b :: l2 -> within_walk L -> within_walk (upd o (l1 ++ l2) L).
Proof.
  intros HL Hw p Hp. specialize (Hw p Hp). destruct (decide (p = o)) as [->|Hne].
  - rewrite upd_eq. rewrite HL in Hw. rewrite length_app in *. cbn in Hw. lia.
  - by rewrite upd_ne.
Qed.

(** The halves of a block. *)
Lemma block_halves lim a o :
  block_ok lim a (S o) <->
  block_ok lim a o /\ block_ok lim (a + block_size o) o /\ (block_size (S o) | a).
Proof.
  unfold block_ok. rewrite block_size_S. pose proof (block_size_pos o). split.
  - intros (? & ? & [k ->]). split_and!; try lia; [exists (2 * k)|exists (2 * k + 1)|exists k]; lia.
  - intros ((? & ? & ?) & (? & ? & ?) & ?). split_and!; [lia|lia|done].
Qed.

Lemma in_block_halves a o x : in_block a (S o) x <-> in_block a o x \/ in_block (a + block_size o) o x.
Proof. unfold in_block. rewrite block_size_S. pose proof (block_size_pos o). lia. Qed.

(** ** Allocation *)

(** What a successful or failed allocation of a 2^order block does to the
    free map. *)
Definition alloc_post (lim : Z) (order : nat) (s s' : State) (L : FreeMap) (r : option Z) : Prop :=
  match r with
  | None => s' = s /\ forall o, (order <= o <= MAX_ORDER)%nat -> L o = []
  | Some a => exists L',
      repr lim s' L' /\ well_formed lim L' /\ block_ok lim a order /\
      (forall x, covers L x <-> covers L' x \/ in_block a order x) /\
      (forall x, in_block a order x -> ~ covers L' x) /\
      (forall o, (o < order)%nat -> L' o = L o) /\
      free_count s' = u64 (free_count s - block_pages order) /\
      total_pages s' = total_pages s /\
      (coalesced L -> coalesced L')
  end.

Lemma block_pages_S o : block_pages (S o) = 2 * block_pages o.
Proof. unfold block_pages. rewrite Nat2Z.inj_succ, Z.pow_succ_r by lia. lia. Qed.

Lemma u64_split f n : u64 (u64 (f - 2 * n) + n) = u64 (f - n).
Proof. unfold wrap. rewrite Zplus_mod_idemp_l. f_equal. lia. Qed.

(** Popping the head of a non-empty list. *)
Lemma alloc_pop_spec lim order a l s L fuel :
  repr lim s L -> well_formed lim L -> (order <= MAX_ORDER)%nat -> L order = a :: l ->
  exists s', alloc_pages_fuel (S fuel) order s = (s', Ok (Some a)) /\ alloc_post lim order s s' L (Some a).
Proof.
  intros HR HW Ho HL. destruct (repr_list lim s L HR order Ho) as (h & Hh & Hl).
  assert (listed L order a) as Ha by (split; [done|]; rewrite HL; set_solver).
  pose proof (wf_ok lim L HW order a Ha) as Hok.
  rewrite HL, fmap_cons in Hl. destruct Hl as (-> & n & Hn & Hl).
  cbn [alloc_pages_fuel]. destruct (Nat.ltb_spec MAX_ORDER order); [lia|].
  unfold list_head, read_next, M_bind at 1. rewrite Hh. unfold M_bind at 1. rewrite Hn.
  assert (forall s', hhdm_offset s' = hhdm_offset s -> virt_to_phys s' (hhdm_offset s + a) = Some a) as Hv.
  { intros s' Hs'. unfold virt_to_phys. rewrite Hs'.
    destruct (Z.leb_spec (hhdm_offset s) (hhdm_offset s + a)); [f_equal; lia|destruct Hok; lia]. }
  unfold gets, set_list_head, sub_free, modify, M_bind. rewrite Hv by done.
  eexists. split; [reflexivity|]. exists (upd order l L).
  pose proof (covers_remove lim L order a [] l) as Hcov. cbn in Hcov.
  split_and!; try done.
  - destruct HR as [Hlo Hhi Hlen Hls]. split; cbn; [done|done|by rewrite length_insert|].
    intros p Hp. destruct (decide (p = order)) as [->|Hne].
    + exists n. rewrite upd_eq. split; [apply list_lookup_insert_eq; lia|done].
    + rewrite list_lookup_insert_ne, upd_ne by done. auto.
  - by apply (wf_remove lim L order a [] l).
  - intros x. rewrite Hcov by done. split.
    + intros Hx. destruct (decide (a <= x < a + block_size order)) as [Hin|Hin]; [by right|by left].
    + intros [[? _]|Hx]; [done|by exists order, a].
  - intros x Hx. rewrite Hcov by done. naive_solver.
  - intros o Hlt. rewrite upd_ne by lia. done.
  - apply (coalesced_remove L order [] a l HL).
Qed.

(** Splitting a block just allocated one order up. *)
Lemma alloc_split_spec lim order a s s1 L :
  (order < MAX_ORDER)%nat -> L order = [] -> alloc_post lim (S order) s s1 L (Some a) ->
  exists s2, free_block_unchecked (u64 (a + block_pages order * PAGE_SIZE)) order s1 = (s2, Ok tt) /\
    alloc_post lim order s (s2 <| free_count := u64 (free_count s2 + block_pages order) |>) L (Some a).
Proof.
  intros Ho HL (L1 & HR1 & HW1 & Hok & Hcov & Hnc & Hlow & Hfc & Htp & HC).
  pose proof (proj1 (block_halves lim a order) Hok) as (Hok1 & Hok2 & Hal).
  pose proof (block_size_pos order). destruct Hok as (Ha0 & Halim & _).
  assert (u64 (a + block_pages order * PAGE_SIZE) = a + block_size order) as ->.
  { replace (block_pages order * PAGE_SIZE) with (block_size order) by (unfold block_size; lia).
    destruct HR1 as [Hlo Hhi _ _]. unfold HIGHER_HALF in *.
    destruct Hok2 as (? & ? & _). apply wrap_small. unfold in_width. lia. }
  assert (forall x, in_block (a + block_size order) order x -> ~ covers L1 x) as Hnc2.
  { intros x Hx. apply Hnc, in_block_halves. by right. }
  destruct (free_block_unchecked_spec lim s1 L1 HR1 (a + block_size order) order)
    as (s2 & -> & HR2 & Hhh & Hfc2 & Htp2); [lia|done|done|].
  eexists. split; [done|]. exists (upd order ((a + block_size order) :: L1 order) L1).
  split_and!; cbn; try done.
  - destruct HR2. by split.
  - apply wf_push; try done. lia.
  - intros x. rewrite covers_push, Hcov, in_block_halves by lia. tauto.
  - intros x Hx. rewrite covers_push by lia. intros [Hc|Hc].
    + eapply Hnc; [|done]. apply in_block_halves. by left.
    + unfold in_block in *. lia.
  - intros o Hlt. rewrite upd_ne by lia. apply Hlow. lia.
  - rewrite Hfc2, Hfc, block_pages_S. apply u64_split.
  - congruence.
  - intros HCL. apply coalesced_push; [|by apply HC]. intros _.
    rewrite Hlow, HL by lia. destruct (buddy_cases a order) as [[Hb _]|[Hb Hd]]; [lia|by destruct Hok1 as (_ & _ & ?)|..].
    + rewrite <- Hb, buddy_involutive, Hb. set_unfold. lia.
    + exfalso. rewrite block_size_S in *. destruct Hal as [k ->], Hd as [j Hj].
      assert (block_size order * (2 * (k - j) - 1) = 0) as [?|?]%Z.mul_eq_0 by lia; lia.
Qed.

Lemma alloc_pages_fuel_spec lim fuel order s L :
  repr lim s L -> well_formed lim L -> (order <= MAX_ORDER)%nat -> (S MAX_ORDER <= fuel + order)%nat ->
  exists s' r, alloc_pages_fuel fuel order s = (s', Ok r) /\ alloc_post lim order s s' L r.
Proof.
  intros HR HW. revert order. induction fuel as [|fuel IH]; intros order Ho Hf; [lia|].
  destruct (L order) as [|a l] eqn:HL;
    [|destruct (alloc_pop_spec lim order a l s L fuel) as (s' & ? & ?); eauto].
  destruct (repr_list lim s L HR order Ho) as (h & Hh & Hl).
  rewrite HL in Hl. cbn in Hl. subst h.
  cbn [alloc_pages_fuel]. destruct (Nat.ltb_spec MAX_ORDER order); [lia|].
  unfold list_head, M_bind at 1. rewrite Hh.
  destruct (Nat.ltb_spec order MAX_ORDER) as [Hlt|Hge].
  - destruct (IH (S order)) as (s1 & r & Hrun & Hpost); [lia..|].
    unfold M_bind at 1. rewrite Hrun. destruct r as [a|].
    + destruct (alloc_split_spec lim order a s s1 L) as (s2 & Hs2 & Hpost2); try done.
      unfold M_bind at 1. rewrite Hs2. eexists _, _. split; [reflexivity|]. done.
    + exists s1, None. split; [done|]. destruct Hpost as [-> Hnone]. split; [done|].
      intros o Hoo. destruct (decide (o = order)) as [->|]; [done|]. apply Hnone. lia.
  - exists s, None. split; [done|]. split; [done|]. intros o Hoo.
    replace o with order by lia. done.
Qed.

(** ** Freeing *)

Definition free_post (lim : Z) (addr : Z) (order : nat) (s s' : State) (L : FreeMap) : Prop :=
  exists L',
    repr lim s' L' /\ well_formed lim L' /\
    (forall x, covers L' x <-> covers L x \/ in_block addr order x) /\
    free_count s' = u64 (free_count s + block_pages order) /\
    total_pages s' = total_pages s /\
    (coalesced L -> coalesced L').

Lemma block_ok_width lim s L a o :
  repr lim s L -> block_ok lim a o -> in_width 64 a /\ in_width 64 (buddy_address a o).
Proof.
  intros [Hlo Hhi _ _] (Ha & Hlim & Hd). pose proof (block_size_pos o).
  unfold in_width, HIGHER_HALF in *.
  destruct (buddy_cases a o Ha Hd) as [[-> _]|[-> [k Hk]]]; [lia|]. rewrite block_size_S in Hk.
  assert (0 <= a - block_size o) by (destruct (Z.lt_ge_cases k 0); [nia|nia]). lia.
Qed.

(** Merging with a free buddy gives an aligned block twice the size. *)
Lemma merge_spec lim a o :
  block_ok lim a o -> block_ok lim (buddy_address a o) o ->
  block_ok lim (Z.min a (buddy_address a o)) (S o) /\
  (forall x, in_block (Z.min a (buddy_address a o)) (S o) x <->
     in_block a o x \/ in_block (buddy_address a o) o x).
Proof.
  intros Ha Hb. pose proof (block_size_pos o). pose proof Ha as (Ha0 & Halim & Had).
  destruct (buddy_cases a o Ha0 Had) as [[Heq Hd]|[Heq Hd]]; rewrite Heq in *.
  - rewrite Z.min_l by lia. split; [by apply block_halves|apply in_block_halves].
  - rewrite Z.min_r by lia. split.
    + apply block_halves. by replace (a - block_size o + block_size o) with a by lia.
    + intros x. rewrite in_block_halves. replace (a - block_size o + block_size o) with a by lia. tauto.
Qed.

Lemma give_back_spec lim a o s L :
  repr lim s L -> well_formed lim L -> (o <= MAX_ORDER)%nat -> block_ok lim a o ->
  (forall x, in_block a o x -> ~ covers L x) ->
  ((o < MAX_ORDER)%nat -> buddy_address a o ∉ L o) ->
  exists s', (free_block_unchecked a o ;;; add_free (block_pages o)) s = (s', Ok tt) /\
    free_post lim a o s s' L.
Proof.
  intros HR HW Ho Hok Hnc Hb.
  destruct (free_block_unchecked_spec lim s L HR a o) as (s2 & Hrun & HR2 & _ & Hfc2 & Htp2); try done.
  unfold M_bind. rewrite Hrun. eexists. split; [reflexivity|].
  exists (upd o (a :: L o) L). split_and!; cbn; [by destruct HR2| |..].
  - by apply wf_push.
  - intros x. by apply covers_push.
  - by rewrite Hfc2.
  - done.
  - apply coalesced_push. intros Hlt. rewrite not_elem_of_cons. split; [|auto].
    pose proof (block_size_pos o). destruct Hok as (? & _ & Hd).
    destruct (buddy_cases a o) as [[-> _]|[-> _]]; try done; lia.
Qed.

Lemma u64_merge f n : u64 (u64 (f - n) + 2 * n) = u64 (f + n).
Proof. unfold wrap. rewrite Zplus_mod_idemp_l. f_equal. lia. Qed.

Lemma free_pages_fuel_spec lim fuel a o s L :
  repr lim s L -> well_formed lim L -> within_walk L -> (o <= MAX_ORDER)%nat ->
  (S MAX_ORDER <= fuel + o)%nat -> block_ok lim a o -> (forall x, in_block a o x -> ~ covers L x) ->
  exists s', free_pages_fuel fuel a o s = (s', Ok tt) /\ free_post lim a o s s' L.
Proof.
  revert a o s L. induction fuel as [|fuel IH]; intros a o s L HR HW Hw Ho Hf Hok Hnc; [lia|].
  destruct (block_ok_width lim s L a o HR Hok) as [Hwa Hwb].
  cbn [free_pages_fuel]. unfold M_bind at 1.
  rewrite (is_block_free_spec lim s L HR HW) by done. rewrite bool_decide_false
    by (intros Hin; apply (Hnc a); [apply in_block_base|by apply (listed_covers L o)]).
  destruct (Nat.ltb_spec o MAX_ORDER) as [Hlt|Hge]; [|apply give_back_spec; try done; lia].
  cbv zeta. unfold M_bind at 1. rewrite (is_block_free_spec lim s L HR HW) by done.
  destruct (decide (buddy_address a o ∈ L o)) as [Hin|Hnin];
    [rewrite bool_decide_true by done|rewrite bool_decide_false by done; by apply give_back_spec].
  pose proof (wf_ok lim L HW o _ (conj Ho Hin)) as Hbok.
  apply list_elem_of_split in Hin as (l1 & l2 & HL).
  destruct (remove_from_free_list_spec lim s L HR HW _ o l1 l2 Hw Ho HL)
    as (s1 & Hrun & HR1 & _ & Hfc1 & Htp1).
  pose proof (covers_remove lim L o (buddy_address a o) l1 l2) as Hcov.
  destruct (merge_spec lim a o Hok Hbok) as [Hmok Hmin].
  destruct (IH (Z.min a (buddy_address a o)) (S o) (s1 <| free_count := u64 (free_count s1 - block_pages o) |>)
    (upd o (l1 ++ l2) L)) as (s' & Hrun' & L' & HR' & HW' & Hcov' & Hfc' & Htp' & HC').
  - destruct HR1. by split.
  - by eapply wf_remove.
  - by eapply within_walk_remove.
  - lia.
  - lia.
  - done.
  - intros x Hx. rewrite Hcov by done. rewrite Hmin in Hx. naive_solver.
  - unfold M_bind at 1. rewrite Hrun. unfold M_bind at 1. cbn [sub_free modify].
    exists s'. split; [done|]. exists L'. split_and!; try done.
    + intros x. rewrite Hcov', Hcov, Hmin by done.
      destruct (decide (buddy_address a o <= x < buddy_address a o + block_size o)) as [Hx|Hx].
      * split; [|by right; right]. intros _. left. exists o, (buddy_address a o). split; [|done].
        split; [done|]. rewrite HL. set_solver.
      * assert (~ in_block (buddy_address a o) o x) by done. tauto.
    + rewrite Hfc'. cbn. rewrite Hfc1, block_pages_S. apply u64_merge.
    + cbn in Htp'. congruence.
    + intros HC. apply HC'. by eapply coalesced_remove.
Qed.
