(* ===== verification/BuddyThm.v ===== *)
(** * Theorems on the buddy allocator

    The main results on [BuddyAllocator]: allocation and freeing against the
    set of free bytes, a client that allocates and frees in any order, the
    seeding of a region, and what the double-free check catches. *)

From S2P Require Import Prelude Buddy BuddySpec.
Import Buddy.
#[local] Open Scope kernel_scope.

(** ** The walk limit

    A managed range of at most one million pages keeps every list within the
    hop limit of [is_block_free] and [remove_from_free_list]. *)

Definition walkable (lim : Z) : Prop := lim <= WALK_LIMIT * PAGE_SIZE.

Lemma aligned_list_length (n size : Z) (l : list Z) :
  0 < size -> NoDup l -> (forall a, a ∈ l -> 0 <= a /\ a + size <= n /\ (size | a)) ->
  Z.of_nat (length l) <= n / size \/ l = [].
Proof.
  intros Hs Hnd Hl. destruct l as [|a0 l']; [by right|left]. set (l := a0 :: l') in *.
  assert (0 <= n / size) by (destruct (Hl a0) as (? & ? & _); [set_solver|apply Z.div_pos; lia]).
  assert (l ⊆+ ((fun i => i * size) <$> seqZ 0 (n / size))) as Hsub.
  { apply NoDup_submseteq; [done|]. intros a Ha. destruct (Hl a Ha) as (H0 & Hn & [k ->]).
    apply list_elem_of_fmap. exists k. split; [done|]. apply elem_of_seqZ. split; [nia|].
    assert (k + 1 <= n / size); [|lia]. apply Z.div_le_lower_bound; lia. }
  apply submseteq_length in Hsub. rewrite length_fmap, length_seqZ in Hsub. lia.
Qed.

Lemma walkable_within lim L : walkable lim -> well_formed lim L -> within_walk L.
Proof.
  intros Hlim HW o Ho. pose proof (block_size_pos o). assert (PAGE_SIZE <= block_size o).
  { unfold block_size, block_pages, PAGE_SIZE. lia. }
  destruct (aligned_list_length lim (block_size o) (L o)) as [Hl| ->]; [done|by apply (wf_nodup lim)|..].
  - intros a Ha. apply (wf_ok lim L HW o a (conj Ho Ha)).
  - unfold walkable in *. etransitivity; [exact Hl|].
    apply Z.div_le_upper_bound; [done|]. unfold WALK_LIMIT, PAGE_SIZE in *. lia.
  - done.
Qed.

(** ** Allocation and freeing *)

(** C37: [alloc_pages] always returns.  On success the block is naturally
    aligned, was entirely free before and is entirely allocated after, no
    other byte changes hands, the page count drops by 2^order, and a free map
    with no two free buddies stays that way; it fails, changing nothing, only
    when no list of that order or above holds a block. *)
Theorem alloc_pages_correct (lim : Z) (order : nat) (s : State) (L : FreeMap) :
  repr lim s L -> well_formed lim L -> (order <= MAX_ORDER)%nat ->
  exists s' r, alloc_pages order s = (s', Ok r) /\ alloc_post lim order s s' L r.
Proof. intros. apply alloc_pages_fuel_spec; try done. lia. Qed.

(** C38: freeing an aligned block none of whose bytes is free always returns:
    exactly its bytes become free, the page count grows by 2^order whatever
    was merged on the way, and no two buddies are left free unmerged. *)
Theorem free_pages_correct (lim a : Z) (o : nat) (s : State) (L : FreeMap) :
  repr lim s L -> well_formed lim L -> walkable lim -> (o <= MAX_ORDER)%nat ->
  block_ok lim a o -> (forall x, in_block a o x -> ~ covers L x) ->
  exists s', free_pages a o s = (s', Ok tt) /\ free_post lim a o s s' L.
Proof.
  intros HR HW Hlim Ho Hok Hnc. apply free_pages_fuel_spec; try done; [|lia].
  by eapply walkable_within.
Qed.

(** A concrete allocator: one 4 MiB block at 4 MiB, direct map at the bottom
    of the higher half. *)
Definition one_block : State :=
  (free_pages 0x400000 10 (new HIGHER_HALF)).1.
Definition one_block_map : FreeMap := fun o => if decide (o = 10%nat) then [0x400000] else [].

Lemma one_block_repr : repr 0x800000 one_block one_block_map.
Proof.
  split; [by vm_compute|by vm_compute|reflexivity|].
  intros o Ho. unfold MAX_ORDER in Ho.
  do 10 (destruct o as [|o]; [by exists None|]).
  destruct o as [|o]; [|lia]. exists (Some (HIGHER_HALF + 0x400000)). split; [reflexivity|].
  cbn. split; [reflexivity|]. by exists None.
Qed.

Lemma one_block_listed o a : listed one_block_map o a -> o = 10%nat /\ a = 0x400000.
Proof. unfold listed, one_block_map. case_decide; set_solver. Qed.

Lemma one_block_wf : well_formed 0x800000 one_block_map.
Proof.
  split.
  - intros o _. unfold one_block_map. case_decide; [apply NoDup_singleton|apply NoDup_nil_2].
  - intros o a [-> ->]%one_block_listed. split_and!; [done|by vm_compute|by exists 1].
  - intros o a p b [-> ->]%one_block_listed [-> ->]%one_block_listed. done.
Qed.

Lemma alloc_pages_correct_witness :
  repr 0x800000 one_block one_block_map /\
  (exists s' r, alloc_pages 3 one_block = (s', Ok r) /\ alloc_post 0x800000 3 one_block s' one_block_map r) /\
  (alloc_pages 3 one_block).2 = Ok (Some 0x400000).
Proof.
  split; [apply one_block_repr|]. split; [|by vm_compute].
  apply alloc_pages_correct; [apply one_block_repr|apply one_block_wf|unfold MAX_ORDER; lia].
Defined.

Lemma one_block_covers x : covers one_block_map x -> 0x400000 <= x.
Proof. intros (o & a & [-> ->]%one_block_listed & Hx). unfold in_block in Hx. lia. Qed.

Lemma free_pages_correct_witness :
  exists s', free_pages 0x1000 0 one_block = (s', Ok tt) /\
    free_post 0x800000 0x1000 0 one_block s' one_block_map.
Proof.
  apply free_pages_correct; [apply one_block_repr|apply one_block_wf|by vm_compute|unfold MAX_ORDER; lia|..].
  - split_and!; [done|by vm_compute|by exists 1].
  - intros x [_ Hx] Hc%one_block_covers. change (0x1000 + block_size 0) with 0x2000 in Hx. lia.
Defined.

(** ** A client in any order *)

(** The blocks a client holds, with the order it asked for. *)
Abbreviation Held := (list (Z * nat)).

(** One call of the allocator by a client that frees only what it holds, with
    the order it was allocated with. *)
Inductive client_step : State * Held -> State * Held -> Prop :=
| CAlloc s s' o a held :
    alloc_pages o s = (s', Ok (Some a)) -> client_step (s, held) (s', (a, o) :: held)
| CAllocFail s s' o held :
    alloc_pages o s = (s', Ok None) -> client_step (s, held) (s', held)
| CFree s s' o a held held' :
    held ≡ₚ (a, o) :: held' -> free_pages a o s = (s', Ok tt) -> client_step (s, held) (s', held').

#[export] Instance in_block_dec a o x : Decision (in_block a o x).
Proof. unfold in_block. apply _. Defined.

(** How many held blocks contain a byte. *)
Definition owners (x : Z) (held : Held) : nat :=
  length (filter (fun b => in_block b.1 b.2 x) held).

Definition held_pages (held : Held) : Z := foldr Z.add 0 ((fun b => block_pages b.2) <$> held).

(** Every byte of the universe is free or held exactly once; held blocks are
    aligned; the pages add up. *)
Record client_inv (lim : Z) (U : Z -> Prop) (total : Z) (s : State) (held : Held) : Prop := {
  inv_map : exists L, repr lim s L /\ well_formed lim L /\ coalesced L /\
    forall x, (covers L x /\ owners x held = 0%nat /\ U x) \/
              (~ covers L x /\ owners x held = 1%nat /\ U x) \/
              (~ covers L x /\ owners x held = 0%nat /\ ~ U x);
  inv_blocks a o : (a, o) ∈ held -> block_ok lim a o /\ (o <= MAX_ORDER)%nat;
  inv_pages : u64 (free_count s + held_pages held) = u64 total;
}.

Lemma owners_cons x a o held :
  owners x ((a, o) :: held) = ((if decide (in_block a o x) then 1 else 0) + owners x held)%nat.
Proof. unfold owners. rewrite filter_cons. cbn. by case_decide. Qed.

Lemma owners_perm x held held' : held ≡ₚ held' -> owners x held = owners x held'.
Proof. unfold owners. by intros ->. Qed.

Lemma held_pages_perm held held' : held ≡ₚ held' -> held_pages held = held_pages held'.
Proof. unfold held_pages. induction 1; cbn in *; lia. Qed.

Lemma alloc_oversize o s : (MAX_ORDER < o)%nat -> alloc_pages o s = (s, Ok None).
Proof.
  intros Ho. unfold alloc_pages. cbn [alloc_pages_fuel].
  destruct (Nat.ltb_spec MAX_ORDER o); [done|lia].
Qed.

Lemma u64_shift f f' n h : f' = u64 (f - n) -> u64 (f' + (n + h)) = u64 (f + h).
Proof. intros ->. unfold wrap. rewrite Zplus_mod_idemp_l. f_equal. lia. Qed.

Lemma u64_unshift f f' n h : f' = u64 (f + n) -> u64 (f' + h) = u64 (f + (n + h)).
Proof. intros ->. unfold wrap. rewrite Zplus_mod_idemp_l. f_equal. lia. Qed.

Section client.
Context (lim : Z) (U : Z -> Prop) (total : Z) (Hlim : walkable lim).

Lemma client_alloc s s' o a held :
  client_inv lim U total s held -> alloc_pages o s = (s', Ok (Some a)) ->
  client_inv lim U total s' ((a, o) :: held).
Proof.
  intros [(L & HR & HW & HC & Hx) Hb Hp] Hrun.
  destruct (decide (o <= MAX_ORDER)%nat) as [Ho|Ho];
    [|rewrite alloc_oversize in Hrun by lia; discriminate].
  destruct (alloc_pages_fuel_spec lim (S (S MAX_ORDER)) o s L HR HW Ho ltac:(lia)) as (s1 & r & Hrun' & Hpost).
  unfold alloc_pages in Hrun. rewrite Hrun' in Hrun. simplify_eq.
  destruct Hpost as (L' & HR' & HW' & Hok & Hcov & Hnc & _ & Hfc & _ & HC').
  split.
  - exists L'. split_and!; auto. intros x. rewrite owners_cons. specialize (Hx x).
    specialize (Hcov x). specialize (Hnc x). case_decide; intuition lia.
  - intros b p [[= -> ->]|Hin]%elem_of_cons; [done|auto].
  - cbn [held_pages]. rewrite <- Hp. unfold held_pages. cbn. by apply u64_shift.
Qed.

(** A held block is wholly outside the free map. *)
Lemma held_not_free L a o held held' :
  (forall x, (covers L x /\ owners x held = 0%nat /\ U x) \/
             (~ covers L x /\ owners x held = 1%nat /\ U x) \/
             (~ covers L x /\ owners x held = 0%nat /\ ~ U x)) ->
  held ≡ₚ (a, o) :: held' -> forall x, in_block a o x -> ~ covers L x.
Proof.
  intros Hx Hperm x Hin Hc. specialize (Hx x).
  rewrite (owners_perm x _ _ Hperm), owners_cons, decide_True in Hx by done. intuition lia.
Qed.

Lemma client_free_ok s a o held held' :
  client_inv lim U total s held -> held ≡ₚ (a, o) :: held' ->
  exists s', free_pages a o s = (s', Ok tt) /\ client_inv lim U total s' held'.
Proof.
  intros [(L & HR & HW & HC & Hx) Hb Hp] Hperm.
  destruct (Hb a o) as [Hok Ho]; [rewrite Hperm; set_solver|].
  pose proof (held_not_free L a o held held' Hx Hperm) as Hnc.
  destruct (free_pages_fuel_spec lim (S MAX_ORDER) a o s L) as (s' & Hrun & L' & HR' & HW' & Hcov & Hfc & _ & HC');
    try done; [by eapply walkable_within|lia|].
  exists s'. split; [done|]. split.
  - exists L'. split_and!; auto. intros x. specialize (Hx x). specialize (Hcov x). specialize (Hnc x).
    rewrite (owners_perm x _ _ Hperm), owners_cons in Hx. case_decide; intuition lia.
  - intros b p Hin. apply Hb. rewrite Hperm. set_solver.
  - rewrite <- Hp, (held_pages_perm _ _ Hperm). unfold held_pages at 2. cbn. by apply u64_unshift.
Qed.

Lemma client_step_inv c c' :
  client_step c c' -> client_inv lim U total c.1 c.2 -> client_inv lim U total c'.1 c'.2.
Proof.
  intros [s s' o a held Hrun|s s' o held Hrun|s s' o a held held' Hperm Hrun]; cbn; intros Hinv.
  - by eapply client_alloc.
  - assert (s' = s) as ->; [|done].
    destruct (decide (o <= MAX_ORDER)%nat) as [Ho|Ho];
      [|rewrite alloc_oversize in Hrun by lia; by simplify_eq].
    destruct Hinv as [(L & HR & HW & _) _ _].
    destruct (alloc_pages_fuel_spec lim (S (S MAX_ORDER)) o s L HR HW Ho ltac:(lia)) as (s1 & r & Hrun' & Hpost).
    unfold alloc_pages in Hrun. rewrite Hrun' in Hrun. simplify_eq. by destruct Hpost.
  - destruct (client_free_ok s a o held held' Hinv Hperm) as (s1 & Hrun' & ?).
    rewrite Hrun in Hrun'. by simplify_eq.
Qed.

Lemma client_reachable_inv c c' :
  rtc client_step c c' -> client_inv lim U total c.1 c.2 -> client_inv lim U total c'.1 c'.2.
Proof. induction 1; [done|]. eauto using client_step_inv. Qed.
End client.

Lemma client_inv_init lim s L :
  repr lim s L -> well_formed lim L -> coalesced L -> client_inv lim (covers L) (free_count s) s [].
Proof.
  intros HR HW HC. split.
  - exists L. split_and!; try done. intros x.
    assert (Decision (covers L x)) as [Hc|Hc]; [|by left|by right; right].
    set (probe := fun o => filter (fun a => in_block a o x) (L o)).
    destruct (decide (Exists (fun o => probe o <> []) (seq 0 (S MAX_ORDER)))) as [He|He].
    + left. apply Exists_exists in He as (o & Ho%elem_of_seq & Hne).
      destruct (probe o) as [|a r] eqn:E; [done|].
      assert (a ∈ probe o) as [Hin Ha]%list_elem_of_filter by (rewrite E; set_solver).
      exists o, a. split; [split; [lia|done]|done].
    + right. intros (o & a & [Ho Ha] & Hin). apply He, Exists_exists. exists o.
      split; [apply elem_of_seq; lia|]. intros Hnil.
      assert (a ∈ probe o) as Hp by (apply list_elem_of_filter; done). rewrite Hnil in Hp. set_solver.
  - set_solver.
  - unfold held_pages. cbn. f_equal. lia.
Qed.

(** C1: whatever sequence of allocations and frees a client makes, freeing
    only blocks it holds, every byte managed at the start is at all times
    either free or in exactly one held block and no other byte ever is, held
    blocks are naturally aligned, the free-page counter plus the pages held is
    constant, no two free buddies stay unmerged, and freeing a held block
    never panics. *)
Theorem client_never_overlaps (lim : Z) (s0 s : State) (L0 : FreeMap) (held : Held) :
  repr lim s0 L0 -> well_formed lim L0 -> coalesced L0 -> walkable lim ->
  rtc client_step (s0, []) (s, held) ->
  client_inv lim (covers L0) (free_count s0) s held /\
  (forall a o held', held ≡ₚ (a, o) :: held' -> exists s', free_pages a o s = (s', Ok tt)).
Proof.
  intros HR HW HC Hlim Hrun.
  assert (client_inv lim (covers L0) (free_count s0) s held) as Hinv.
  { apply (client_reachable_inv lim _ _ Hlim _ _ Hrun). by apply client_inv_init. }
  split; [done|]. intros a o held' Hperm.
  destruct (client_free_ok lim _ _ Hlim s a o held held' Hinv Hperm) as (s' & ? & _). eauto.
Qed.

Lemma one_block_coalesced : coalesced one_block_map.
Proof. intros o a Ho Ha. unfold one_block_map in *. case_decide; [unfold MAX_ORDER in *; lia|set_solver]. Qed.

Lemma client_never_overlaps_witness :
  let s := (alloc_pages 2 one_block).1 in
  client_inv 0x800000 (covers one_block_map) (free_count one_block) s [(0x400000, 2%nat)] /\
  (forall a o held', [(0x400000, 2%nat)] ≡ₚ (a, o) :: held' -> exists s', free_pages a o s = (s', Ok tt)).
Proof.
  apply (client_never_overlaps 0x800000 one_block _ one_block_map);
    [apply one_block_repr|apply one_block_wf|apply one_block_coalesced|by vm_compute|].
  eapply rtc_l; [|apply rtc_refl]. apply CAlloc. vm_compute. reflexivity.
Defined.

(** ** Double frees *)

(** Freeing a block that stands in the free list of its order stops the
    kernel before anything is changed. *)
Theorem double_free_panics (lim a : Z) (o : nat) (s : State) (L : FreeMap) :
  repr lim s L -> well_formed lim L -> walkable lim -> listed L o a ->
  free_pages a o s = (s, Panic).
Proof.
  intros HR HW Hlim [Ho Ha]. unfold free_pages. cbn [free_pages_fuel]. unfold M_bind at 1.
  destruct (block_ok_width lim s L a o HR (wf_ok lim L HW o a (conj Ho Ha))) as [Hwa _].
  rewrite (is_block_free_spec lim s L HR HW) by (done || by eapply walkable_within).
  by rewrite bool_decide_true.
Qed.

Lemma double_free_panics_witness : free_pages 0x400000 10 one_block = (one_block, Panic).
Proof.
  apply (double_free_panics 0x800000 _ _ _ one_block_map);
    [apply one_block_repr|apply one_block_wf|by vm_compute|]. split; [done|]. by vm_compute; left.
Defined.

(** The check looks only at the list of the order it is given, so a block
    that has been merged into a larger one can be freed again unnoticed: the
    same page then stands in two free lists and is handed out twice. *)
Theorem double_free_after_merge_undetected :
  let prog := free_pages 0x100000 0 ;;; free_pages 0x101000 0 ;;; free_pages 0x100000 0 ;;;
              x <- alloc_pages 0 ;; y <- alloc_pages 1 ;; M_ret (x, y) in
  (prog (new HIGHER_HALF)).2 = Ok (Some 0x100000, Some 0x100000).
Proof. vm_compute. reflexivity. Qed.

(** ** Seeding a region *)

Lemma pos_trailing_zeros_divide p : exists q, Zpos p = q * 2 ^ Z.of_nat (pos_trailing_zeros p) /\ 0 < q.
Proof.
  induction p as [p _|p (q & IH & Hq)|]; cbn [pos_trailing_zeros]; [exists (Zpos p~1)|exists q|exists 1].
  - cbn. lia.
  - rewrite Nat2Z.inj_succ, Z.pow_succ_r by lia. lia.
  - cbn. lia.
Qed.

Lemma trailing_zeros_divide z n : 0 < z -> (n <= trailing_zeros z)%nat -> (2 ^ Z.of_nat n | z).
Proof.
  intros Hz Hn. destruct z as [|p|]; try lia. cbn in Hn.
  destruct (pos_trailing_zeros_divide p) as (q & -> & _).
  replace (Z.of_nat (pos_trailing_zeros p)) with (Z.of_nat n + Z.of_nat (pos_trailing_zeros p - n)) by lia.
  rewrite Z.pow_add_r by lia.
  exists (q * 2 ^ Z.of_nat (pos_trailing_zeros p - n)). ring.
Qed.

(** The block taken off in one turn fits and is aligned. *)
Lemma region_turn base n k order :
  base = k * PAGE_SIZE -> 0 <= k -> 0 < n -> (order <= trailing_zeros n)%nat ->
  (order <= trailing_zeros (base / PAGE_SIZE))%nat ->
  0 < block_pages order <= n /\ (block_size order | base).
Proof.
  intros -> Hk Hn Ho Hob. rewrite Z.div_mul in Hob by done.
  assert (0 < block_pages order) by (unfold block_pages; lia). split.
  - split; [done|]. destruct (trailing_zeros_divide n order Hn Ho) as [q Hq].
    apply Z.divide_pos_le; [done|by exists q].
  - unfold block_size. destruct (Z.eq_dec k 0) as [->|Hne]; [by exists 0|].
    destruct (trailing_zeros_divide k order ltac:(lia) Hob) as [q ->].
    exists q. unfold block_pages. lia.
Qed.

Lemma region_empty lim (s : State) L base n :
  repr lim s L -> well_formed lim L -> 0 <= n <= 0 ->
  exists s' L', (s, @Ok Empty_set unit tt) = (s', Ok tt) /\ repr lim s' L' /\ well_formed lim L' /\
    (forall x, covers L' x <-> covers L x \/ base <= x < base + n * PAGE_SIZE) /\
    u64 (total_pages s') = u64 (total_pages s + n) /\ u64 (free_count s') = u64 (free_count s + n).
Proof.
  intros HR HW Hn. exists s, L. replace n with 0 by lia. rewrite !Z.add_0_r.
  split_and!; try done. intros x. split; [by left|]. intros [?|?]; [done|lia].
Qed.

Lemma add_region_fuel_spec lim fuel base n k s L :
  repr lim s L -> well_formed lim L -> base = k * PAGE_SIZE -> 0 <= k -> 0 <= n ->
  base + n * PAGE_SIZE <= lim -> (Z.to_nat n <= fuel)%nat ->
  (forall x, base <= x < base + n * PAGE_SIZE -> ~ covers L x) ->
  exists s' L', add_region_fuel fuel base n s = (s', Ok tt) /\ repr lim s' L' /\ well_formed lim L' /\
    (forall x, covers L' x <-> covers L x \/ base <= x < base + n * PAGE_SIZE) /\
    u64 (total_pages s') = u64 (total_pages s + n) /\ u64 (free_count s') = u64 (free_count s + n).
Proof.
  revert base n k s L. induction fuel as [|fuel IH]; intros base n k s L HR HW Hbase Hk Hn Hlim Hf Hnc;
    cbn [add_region_fuel]; destruct (Z.leb_spec n 0) as [H0|H0]; try lia; [by apply region_empty..|].
  set (order := Nat.min (Nat.min _ _) _).
  destruct (region_turn base n k order) as [Hpg Hal]; try done; [unfold order; lia..|].
  assert (order <= MAX_ORDER)%nat as Ho by (unfold order; lia).
  assert (block_size order = block_pages order * PAGE_SIZE) as Hsz by (unfold block_size; lia).
  assert (block_size order <= n * PAGE_SIZE) by (rewrite Hsz; unfold PAGE_SIZE; lia).
  pose proof (block_size_pos order) as Hpos.
  assert (0 <= base) by (subst base; unfold PAGE_SIZE; lia).
  assert (block_ok lim base order) as Hok by (split_and!; [done|lia|done]).
  assert (forall x, in_block base order x -> ~ covers L x) as Hnb.
  { intros x Hx. apply Hnc. unfold in_block in Hx. lia. }
  destruct (free_block_unchecked_spec lim s L HR base order) as (s1 & Hrun & HR1 & _ & Hfc1 & Htp1); try done.
  assert (u64 (base + block_pages order * PAGE_SIZE) = base + block_size order) as ->.
  { rewrite <- Hsz. destruct HR as [Hlo Hhi _ _]. apply wrap_small. unfold in_width, HIGHER_HALF in *. lia. }
  set (f := fun s2 : State => (s2 <| total_pages := _ |>) <| free_count := _ |>).
  destruct (IH (base + block_size order) (n - block_pages order) (k + block_pages order) (f s1)
    (upd order (base :: L order) L)) as (s' & L' & Hrun' & HR' & HW' & Hcov & Htp & Hfc); try lia.
  - by destruct HR1.
  - by apply wf_push.
  - intros x Hx. rewrite covers_push by done. intros [Hc|Hc]; [eapply Hnc; [|done]; lia|].
    unfold in_block in Hc. lia.
  - exists s', L'. unfold M_bind at 1. rewrite Hrun. split; [exact Hrun'|]. split_and!; try done.
    + intros x. rewrite Hcov, covers_push by done. unfold in_block.
      split; [intros [[?|?]|?]|intros [?|?]]; [tauto|right; lia|right; lia|tauto|].
      destruct (Z.lt_ge_cases x (base + block_size order)); [left; right|right]; lia.
    + rewrite Htp. cbn. rewrite Htp1. unfold wrap. rewrite Zplus_mod_idemp_l. f_equal. lia.
    + rewrite Hfc. cbn. rewrite Hfc1. unfold wrap. rewrite Zplus_mod_idemp_l. f_equal. lia.
Qed.

(** Seeding a page-aligned region splits it into naturally aligned blocks
    that cover exactly its bytes: the loop ends, nothing outside the region
    becomes free, and both page counters grow by the region's size. *)
Theorem add_region_covers (lim k n : Z) (s : State) (L : FreeMap) :
  repr lim s L -> well_formed lim L -> 0 <= k -> 0 <= n -> (k + n) * PAGE_SIZE <= lim ->
  (forall x, k * PAGE_SIZE <= x < (k + n) * PAGE_SIZE -> ~ covers L x) ->
  exists s' L', add_region (k * PAGE_SIZE) n s = (s', Ok tt) /\ repr lim s' L' /\ well_formed lim L' /\
    (forall x, covers L' x <-> covers L x \/ k * PAGE_SIZE <= x < (k + n) * PAGE_SIZE) /\
    u64 (total_pages s') = u64 (total_pages s + n) /\ u64 (free_count s') = u64 (free_count s + n).
Proof.
  intros HR HW Hk Hn Hlim Hnc. rewrite Z.mul_add_distr_r in *.
  by apply (add_region_fuel_spec lim (Z.to_nat n) (k * PAGE_SIZE) n k).
Qed.

Lemma add_region_covers_witness :
  exists s' L', add_region 0x3000 5 one_block = (s', Ok tt) /\ repr 0x800000 s' L' /\ well_formed 0x800000 L' /\
    (forall x, covers L' x <-> covers one_block_map x \/ 3 * PAGE_SIZE <= x < (3 + 5) * PAGE_SIZE) /\
    u64 (total_pages s') = u64 (total_pages one_block + 5) /\ u64 (free_count s') = u64 (free_count one_block + 5).
Proof.
  apply (add_region_covers 0x800000 3 5);
    [apply one_block_repr|apply one_block_wf|lia|lia|by vm_compute|].
  intros x Hx Hc%one_block_covers. unfold PAGE_SIZE in Hx. lia.
Defined.
