(* ===== verification/Pmm.v ===== *)
(** * The physical memory manager

    Models the rest of [kernel/src/memory/physical.rs]: the boot-time scan of
    the memory map, the bump allocator over the usable regions, and the public
    entry points that try the buddy allocator first and the bump arenas
    second. *)

From S2P Require Import Prelude Buddy.
#[local] Open Scope kernel_scope.

Module Pmm.
Import Buddy.

Definition MAX_REGIONS : nat := 16.

Record BootstrapRegion : Type := mkRegion { next_page : Z; end_page : Z }.

(** [BootstrapAllocator]: the live prefix of its fixed array of regions. *)
Definition BootstrapAllocator : Type := list BootstrapRegion.

Record State : Type := mkPmm {
  buddy : Buddy.State;
  bootstrap : option BootstrapAllocator;
  TOTAL_RAM_PAGES : Z;
  ALLOCATED_PAGES : Z;
}.

#[export] Instance eta_State : Eta State := fun r =>
  mkPmm (buddy r) (bootstrap r) (TOTAL_RAM_PAGES r) (ALLOCATED_PAGES r).
#[export] Instance set_buddy : Setter buddy := ltac:(derive_setter).
#[export] Instance set_bootstrap : Setter bootstrap := ltac:(derive_setter).
#[export] Instance set_TOTAL_RAM_PAGES : Setter TOTAL_RAM_PAGES := ltac:(derive_setter).
#[export] Instance set_ALLOCATED_PAGES : Setter ALLOCATED_PAGES := ltac:(derive_setter).

Definition P (A : Type) : Type := M State Empty_set A.

(** ** The bump allocator *)

Module Bootstrap.

Definition new : BootstrapAllocator := [].

Definition add_region (b : BootstrapAllocator) (start num_pages : Z) : BootstrapAllocator :=
  if (MAX_REGIONS <=? length b)%nat then b
  else b ++ [mkRegion start (u64 (start + u64 (num_pages * PAGE_SIZE)))].

(** [alloc_page]: one page off the first region that has one. *)
Fixpoint alloc_page (b : BootstrapAllocator) : BootstrapAllocator * option Z :=
  match b with
  | [] => ([], None)
  | r :: rest =>
      if next_page r <? end_page r then
        (mkRegion (u64 (next_page r + PAGE_SIZE)) (end_page r) :: rest, Some (next_page r))
      else
        let (rest', p) := alloc_page rest in (r :: rest', p)
  end.

(** A left shift of a [usize] in release mode: the count is taken modulo 64. *)
Definition shl (x : Z) (n : nat) : Z := u64 (Z.shiftl x (Z.of_nat n mod 64)).

(** [(x + alignment - 1) & !(alignment - 1)] on [usize]. *)
Definition align_up (x alignment : Z) : Z :=
  Z.land (u64 (u64 (x + alignment) - 1)) (U64_MAX - u64 (alignment - 1)).

(** [alloc_block]: the first region whose tail, aligned to the block size,
    still holds the block. *)
Fixpoint alloc_block (order : nat) (b : BootstrapAllocator) : BootstrapAllocator * option Z :=
  match b with
  | [] => ([], None)
  | r :: rest =>
      let block_size := shl PAGE_SIZE order in
      let skip := let (rest', p) := alloc_block order rest in (r :: rest', p) in
      let aligned_start := align_up (next_page r) block_size in
      match checked_add 64 aligned_start block_size with
      | None => skip
      | Some aligned_end =>
          if aligned_end <=? end_page r then
            (mkRegion aligned_end (end_page r) :: rest, Some aligned_start)
          else skip
      end
  end.

End Bootstrap.

(** ** Boot: [BuddyAllocator::init] *)

(** An entry of the boot loader's memory map. *)
Record MapEntry : Type := mkMapEntry { me_usable : bool; me_base : Z; me_length : Z }.

Definition aligned_base (e : MapEntry) : Z := Bootstrap.align_up (me_base e) PAGE_SIZE.
Definition aligned_end (e : MapEntry) : Z := Bootstrap.align_up (u64 (me_base e + me_length e)) PAGE_SIZE.
Definition aligned_pages (e : MapEntry) : Z := (aligned_end e - aligned_base e) / PAGE_SIZE.

(** The first pass counts pages: all usable ones, and those from 1 MiB up. *)
Fixpoint count_pages (map : list MapEntry) (total usable : Z) : Z * Z :=
  match map with
  | [] => (total, usable)
  | e :: rest =>
      if (me_usable e && (aligned_base e <? aligned_end e))%bool then
        count_pages rest (u64 (total + aligned_pages e))
          (if 0x100000 <=? aligned_base e then u64 (usable + aligned_pages e) else usable)
      else count_pages rest total usable
  end.

(** The second pass collects at most [MAX_REGIONS] regions from 1 MiB up. *)
Fixpoint collect_regions (map : list MapEntry) (regions : list (Z * Z)) : list (Z * Z) :=
  match map with
  | [] => regions
  | e :: rest =>
      if (me_usable e && (length regions <? MAX_REGIONS)%nat &&
          (aligned_base e <? aligned_end e) && (0x100000 <=? aligned_base e))%bool
      then collect_regions rest (regions ++ [(aligned_base e, aligned_pages e)])
      else collect_regions rest regions
  end.

(** The index of the first largest region from [i] on. *)
Fixpoint find_max (regions : list (Z * Z)) (js : list nat) (max_j : nat) : nat :=
  match js with
  | [] => max_j
  | j :: js =>
      match regions !! j, regions !! max_j with
      | Some (_, pj), Some (_, pm) => find_max regions js (if pm <? pj then j else max_j)
      | _, _ => find_max regions js max_j
      end
  end.

Definition swap (regions : list (Z * Z)) (i j : nat) : list (Z * Z) :=
  match regions !! i, regions !! j with
  | Some a, Some b => <[j := a]> (<[i := b]> regions)
  | _, _ => regions
  end.

(** The selection sort, largest first. *)
Fixpoint sort_from (is_ : list nat) (regions : list (Z * Z)) : list (Z * Z) :=
  match is_ with
  | [] => regions
  | i :: is_ =>
      let max_j := find_max regions (seq (S i) (length regions - S i)) i in
      sort_from is_ (if (max_j =? i)%nat then regions else swap regions i max_j)
  end.
Definition sort_regions (regions : list (Z * Z)) : list (Z * Z) :=
  sort_from (seq 0 (length regions)) regions.

Definition init (map : list MapEntry) : P unit :=
  modify (fun s =>
    let '(total_mem, usable_mem) := count_pages map 0 0 in
    let regions := sort_regions (collect_regions map []) in
    s <| buddy := ((buddy s) <| total_pages := total_mem |>) <| free_count := usable_mem |> |>
      <| TOTAL_RAM_PAGES := total_mem |>
      <| bootstrap := Some (foldl (fun b r => Bootstrap.add_region b r.1 r.2) Bootstrap.new regions) |>).

(** ** Entry points *)

(** Run an operation of the buddy allocator under its lock. *)
Definition with_buddy {A} (m : B A) : P A := fun s =>
  let (b', r) := m (buddy s) in (s <| buddy := b' |>, r).

(** Run an operation of the bump allocator, if boot has set it up; [pages] are
    counted as allocated on success. *)
Definition with_bootstrap (f : BootstrapAllocator -> BootstrapAllocator * option Z) (pages : Z) : P (option Z) :=
  fun s =>
    match bootstrap s with
    | None => (s, Ok None)
    | Some b =>
        let (b', r) := f b in
        let s' := s <| bootstrap := Some b' |> in
        (match r with
         | Some _ => s' <| ALLOCATED_PAGES := u64 (ALLOCATED_PAGES s + pages) |>
         | None => s'
         end, Ok r)
    end.

Definition alloc_pages (order : nat) : P (option Z) :=
  r <- with_buddy (Buddy.alloc_pages order) ;;
  match r with
  | Some addr => M_ret (Some addr)
  | None =>
      if (0 <? order)%nat
      then with_bootstrap (Bootstrap.alloc_block order) (Bootstrap.shl 1 order)
      else M_ret None
  end.

Definition free_pages (addr : Z) (order : nat) : P unit := with_buddy (Buddy.free_pages addr order).

Definition alloc_page : P (option Z) :=
  r <- alloc_pages 0 ;;
  match r with
  | Some page => M_ret (Some page)
  | None => with_bootstrap Bootstrap.alloc_page 1
  end.

Definition free_page (addr : Z) : P unit := free_pages addr 0.

(** The order search of [alloc_contiguous]. *)
Fixpoint contiguous_order (fuel : nat) (order : nat) (num_pages : Z) : nat :=
  match fuel with
  | O => order
  | S fuel =>
      if ((block_pages order <? num_pages) && (order <? 10)%nat)%bool
      then contiguous_order fuel (S order) num_pages
      else order
  end.

Definition alloc_contiguous (num_pages : Z) : P (option Z) :=
  if num_pages =? 0 then M_ret None
  else alloc_pages (contiguous_order 10 0 num_pages).

Definition stats (s : State) : MemoryStats := Buddy.stats (buddy s).

Definition memory_stats (s : State) : Z * Z :=
  (TOTAL_RAM_PAGES s, saturating_sub (TOTAL_RAM_PAGES s) (ALLOCATED_PAGES s)).

End Pmm.
