(* ===== verification/PmmThm.v ===== *)
(** * Correctness of the physical memory manager

    The bump arenas, the buddy lists and the blocks handed out never share a
    byte, from the boot-time memory map on. *)

From S2P Require Import Prelude Buddy BuddySpec BuddyThm Pmm.

Import Pmm.
#[local] Open Scope kernel_scope.

(** ** Arithmetic of the bump allocator *)

Lemma align_up_pow2 x k :
  0 <= k < 64 -> 0 <= x -> x + 2 ^ k <= 2 ^ 64 ->
  let y := Bootstrap.align_up x (2 ^ k) in (2 ^ k | y) /\ x <= y < x + 2 ^ k.
Proof.
  intros Hk Hx Hlim y. subst y. unfold Bootstrap.align_up.
  pose proof (Z.pow_pos_nonneg 2 k ltac:(lia) ltac:(lia)).
  assert (2 ^ k < 2 ^ 64) by (apply Z.pow_lt_mono_r; lia).
  assert (u64 (u64 (x + 2 ^ k) - 1) = x + 2 ^ k - 1) as ->.
  { unfold wrap. rewrite Zminus_mod_idemp_l. apply Z.mod_small. lia. }
  rewrite (wrap_small 64 (2 ^ k - 1)) by (unfold in_width; lia).
  replace (U64_MAX - (2 ^ k - 1)) with (2 ^ 64 - 2 ^ k) by (unfold U64_MAX; lia).
  rewrite land_high_mask by lia.
  pose proof (Z.mul_div_le (x + 2 ^ k - 1) (2 ^ k)). pose proof (Z.mul_succ_div_gt (x + 2 ^ k - 1) (2 ^ k)).
  split; [by eexists|]. lia.
Qed.

Lemma shl_page o : (o <= Buddy.MAX_ORDER)%nat -> Bootstrap.shl Buddy.PAGE_SIZE o = Buddy.block_size o.
Proof. intros Ho. unfold Buddy.MAX_ORDER in Ho. do 11 (destruct o as [|o]; [reflexivity|]). lia. Qed.

Lemma block_size_pow2 o : Buddy.block_size o = 2 ^ (12 + Z.of_nat o).
Proof. unfold Buddy.block_size, Buddy.block_pages, Buddy.PAGE_SIZE. rewrite Z.pow_add_r; lia. Qed.

(** ** The arenas *)

Definition in_region (r : BootstrapRegion) (x : Z) : Prop := next_page r <= x < end_page r.
#[export] Instance in_region_dec r x : Decision (in_region r x).
Proof. unfold in_region. apply _. Defined.

(** How many arenas still hold a byte. *)
Definition arenas (x : Z) (b : list BootstrapRegion) : nat := length (filter (fun r => in_region r x) b).

#[global] Arguments arenas : simpl never.
#[global] Arguments owners : simpl never.

Definition region_ok (lim : Z) (r : BootstrapRegion) : Prop :=
  (Buddy.PAGE_SIZE | next_page r) /\ (Buddy.PAGE_SIZE | end_page r) /\
  0 <= next_page r <= lim /\ end_page r <= lim.

Definition taken (r : option Z) (o : nat) (x : Z) : nat :=
  match r with Some a => if decide (in_block a o x) then 1 else 0 | None => 0 end%nat.

(** What a bump allocation guarantees: the block is aligned and its bytes
    leave the arenas; no byte enters them. *)
Definition bump_post (lim : Z) (o : nat) (b b' : BootstrapAllocator) (r : option Z) : Prop :=
  Forall (region_ok lim) b' /\
  (forall x, (arenas x b' + taken r o x <= arenas x b)%nat) /\
  match r with Some a => block_ok lim a o | None => b' = b end.

Lemma arenas_cons x r b :
  arenas x (r :: b) = ((if decide (in_region r x) then 1 else 0) + arenas x b)%nat.
Proof. unfold arenas. rewrite filter_cons. by case_decide. Qed.

Lemma bump_skip lim o r b b' p :
  region_ok lim r -> bump_post lim o b b' p -> bump_post lim o (r :: b) (r :: b') p.
Proof.
  intros Hr (Hok & Hx & Hp). split; [by constructor|]. split.
  - intros x. rewrite !arenas_cons. specialize (Hx x). lia.
  - destruct p; congruence.
Qed.

Lemma bump_take lim o r b a :
  region_ok lim r -> Forall (region_ok lim) b -> next_page r <= a -> a + Buddy.block_size o <= end_page r ->
  (Buddy.block_size o | a) ->
  bump_post lim o (r :: b) (mkRegion (a + Buddy.block_size o) (end_page r) :: b) (Some a).
Proof.
  intros (Hn & He & Hr & Hl) Hb Ha Hend Hal. pose proof (block_size_pos o).
  assert (Buddy.PAGE_SIZE | Buddy.block_size o) by (exists (Buddy.block_pages o); unfold Buddy.block_size; lia).
  split; [|split].
  - constructor; [|done]. unfold region_ok; cbn. split_and!; try done; try lia.
    apply Z.divide_add_r; [|done]. by transitivity (Buddy.block_size o).
  - intros x. rewrite !arenas_cons. cbn. unfold in_region, in_block. cbn. repeat case_decide; lia.
  - split_and!; try done; lia.
Qed.

Lemma alloc_block_spec lim o b :
  lim <= 2 ^ 47 -> (o <= Buddy.MAX_ORDER)%nat -> Forall (region_ok lim) b ->
  bump_post lim o b (Bootstrap.alloc_block o b).1 (Bootstrap.alloc_block o b).2.
Proof.
  intros Hlim Ho. induction 1 as [|r b Hr Hb IH]; cbn [Bootstrap.alloc_block].
  - split; [constructor|]. split; [|done]. intros x. cbn. lia.
  - rewrite shl_page by done.
    destruct (align_up_pow2 (next_page r) (12 + Z.of_nat o)) as [Hal Hrange].
    { unfold Buddy.MAX_ORDER in Ho. lia. } { destruct Hr; lia. }
    { assert (2 ^ (12 + Z.of_nat o) <= 2 ^ 22) by (apply Z.pow_le_mono_r; unfold Buddy.MAX_ORDER in Ho; lia).
      destruct Hr; lia. }
    rewrite <- block_size_pow2 in Hal, Hrange.
    set (a := Bootstrap.align_up _ _) in *. unfold checked_add.
    destruct (Bootstrap.alloc_block o b) as [b' p].
    destruct (Z.ltb_spec (a + Buddy.block_size o) (2 ^ 64)); [|by apply bump_skip].
    destruct (Z.leb_spec (a + Buddy.block_size o) (end_page r)); [|by apply bump_skip].
    apply bump_take; try done. lia.
Qed.

Lemma boot_alloc_page_spec lim b :
  lim <= 2 ^ 47 -> Forall (region_ok lim) b ->
  bump_post lim 0 b (Bootstrap.alloc_page b).1 (Bootstrap.alloc_page b).2.
Proof.
  intros Hlim. induction 1 as [|r b Hr Hb IH]; cbn [Bootstrap.alloc_page].
  - split; [constructor|]. split; [|done]. intros x. cbn. lia.
  - destruct (Bootstrap.alloc_page b) as [b' p].
    destruct (Z.ltb_spec (next_page r) (end_page r)); [|by apply bump_skip].
    pose proof Hr as ([k Hk] & [j Hj] & ? & ?).
    assert (Buddy.block_size 0 = Buddy.PAGE_SIZE) as Hsz by done.
    assert (next_page r + Buddy.PAGE_SIZE <= end_page r) by (unfold Buddy.PAGE_SIZE in *; lia).
    assert (u64 (next_page r + Buddy.PAGE_SIZE) = next_page r + Buddy.block_size 0) as ->.
    { rewrite Hsz. apply wrap_small. unfold in_width, Buddy.PAGE_SIZE in *. lia. }
    apply bump_take; try done. by exists k.
Qed.

(** ** The manager as a whole *)

(** The bytes in free buddy blocks, in the bump arenas and in the blocks
    handed out never overlap; everything is aligned and below the limit. *)
Record pmm_inv (lim : Z) (s : State) (held : Held) : Prop := {
  pmm_regions : Forall (region_ok lim) (default [] (bootstrap s));
  pmm_map : exists L, repr lim (buddy s) L /\ well_formed lim L /\
    forall x, (arenas x (default [] (bootstrap s)) + owners x held <= 1)%nat /\
      (covers L x -> (arenas x (default [] (bootstrap s)) + owners x held = 0)%nat);
  pmm_blocks a o : (a, o) ∈ held -> block_ok lim a o /\ (o <= Buddy.MAX_ORDER)%nat;
}.

Definition hold (r : option Z) (o : nat) (held : Held) : Held :=
  match r with Some a => (a, o) :: held | None => held end.

Lemma owners_hold x r o held : owners x (hold r o held) = (taken r o x + owners x held)%nat.
Proof. destruct r; [apply owners_cons|done]. Qed.

Section pmm.
Context (lim : Z) (Hlim : walkable lim).

Lemma lim_small : lim <= 2 ^ 47.
Proof using Hlim. unfold walkable, Buddy.WALK_LIMIT, Buddy.PAGE_SIZE in Hlim. lia. Qed.

(** A bump allocation keeps the invariant. *)
Lemma with_bootstrap_inv o f n s held :
  (o <= Buddy.MAX_ORDER)%nat -> pmm_inv lim s held ->
  (forall b, Forall (region_ok lim) b -> bump_post lim o b (f b).1 (f b).2) ->
  exists s' r, with_bootstrap f n s = (s', Ok r) /\ pmm_inv lim s' (hold r o held).
Proof.
  intros Ho [Hreg (L & HR & HW & Hx) Hb] Hf. unfold with_bootstrap.
  destruct (bootstrap s) as [b|] eqn:E; cbn in *; [|exists s, None; split; [done|]].
  - specialize (Hf b Hreg). destruct (f b) as [b' r]. cbn in Hf. destruct Hf as (Hok & Hx' & Hr).
    eexists _, r. split; [reflexivity|].
    assert (forall st, bootstrap st = Some b' -> buddy st = buddy s -> pmm_inv lim st (hold r o held)) as Hgoal.
    { intros st Hst Hbs. split; rewrite ?Hst; cbn [from_option id]; [done|exists L|].
      - rewrite Hbs. split_and!; [done..|]. intros x. rewrite owners_hold.
        specialize (Hx x). specialize (Hx' x). intuition lia.
      - intros a p Hin. destruct r as [a'|]; cbn in Hin; [|auto].
        apply elem_of_cons in Hin as [[= -> ->]|Hin]; auto. }
    destruct r; by apply Hgoal.
  - split; rewrite ?E; cbn; eauto.
Qed.

Lemma with_buddy_alloc_inv o s held :
  (o <= Buddy.MAX_ORDER)%nat -> pmm_inv lim s held ->
  exists s' r, with_buddy (Buddy.alloc_pages o) s = (s', Ok r) /\ pmm_inv lim s' (hold r o held).
Proof.
  intros Ho [Hreg (L & HR & HW & Hx) Hb]. unfold with_buddy.
  destruct (alloc_pages_fuel_spec lim (S (S Buddy.MAX_ORDER)) o (buddy s) L HR HW Ho ltac:(lia))
    as (b' & r & Hrun & Hpost).
  unfold Buddy.alloc_pages. rewrite Hrun. eexists _, r. split; [reflexivity|].
  destruct r as [a|]; cbn [hold].
  - destruct Hpost as (L' & HR' & HW' & Hok & Hcov & Hnc & _). split; cbn; [done|exists L'|].
    + split_and!; [done..|]. intros x. rewrite owners_cons.
      specialize (Hx x). specialize (Hcov x). specialize (Hnc x). case_decide; intuition lia.
    + intros b p [[= -> ->]|Hin]%elem_of_cons; auto.
  - destruct Hpost as [-> _]. split; cbn; eauto.
Qed.

Lemma alloc_pages_inv o s held :
  (o <= Buddy.MAX_ORDER)%nat -> pmm_inv lim s held ->
  exists s' r, alloc_pages o s = (s', Ok r) /\ pmm_inv lim s' (hold r o held).
Proof using Hlim.
  intros Ho Hinv. destruct (with_buddy_alloc_inv o s held Ho Hinv) as (s1 & r & Hrun & Hinv1).
  unfold alloc_pages, M_bind. rewrite Hrun. destruct r as [a|]; [by exists s1, (Some a)|].
  destruct (Nat.ltb_spec 0 o); [|by exists s1, None].
  apply with_bootstrap_inv; try done. intros b Hb. apply alloc_block_spec; try done. apply lim_small.
Qed.

Lemma alloc_page_inv s held :
  pmm_inv lim s held -> exists s' r, alloc_page s = (s', Ok r) /\ pmm_inv lim s' (hold r 0 held).
Proof using Hlim.
  intros Hinv. destruct (alloc_pages_inv 0 s held ltac:(lia) Hinv) as (s1 & r & Hrun & Hinv1).
  unfold alloc_page, M_bind. rewrite Hrun. destruct r as [a|]; [by exists s1, (Some a)|].
  apply with_bootstrap_inv; [lia|done|]. intros b Hb. apply boot_alloc_page_spec; try done. apply lim_small.
Qed.

Lemma free_pages_inv a o s held held' :
  pmm_inv lim s held -> held ≡ₚ (a, o) :: held' ->
  exists s', free_pages a o s = (s', Ok tt) /\ pmm_inv lim s' held'.
Proof using Hlim.
  intros [Hreg (L & HR & HW & Hx) Hb] Hperm.
  destruct (Hb a o) as [Hok Ho]; [rewrite Hperm; set_solver|].
  destruct (free_pages_fuel_spec lim (S Buddy.MAX_ORDER) a o (buddy s) L)
    as (b' & Hrun & L' & HR' & HW' & Hcov & _); try done; [by eapply walkable_within|lia| |].
  { intros x Hin Hc. specialize (Hx x). rewrite (owners_perm x _ _ Hperm), owners_cons, decide_True in Hx by done.
    intuition lia. }
  unfold free_pages, with_buddy, Buddy.free_pages. rewrite Hrun. eexists. split; [reflexivity|].
  split; cbn; [done|exists L'|].
  - split_and!; [done..|]. intros x. specialize (Hx x). specialize (Hcov x).
    rewrite (owners_perm x _ _ Hperm), owners_cons in Hx. case_decide; intuition lia.
  - intros b p Hin. apply Hb. rewrite Hperm. set_solver.
Qed.
End pmm.

(** ** The boot-time sort *)

Definition transp (i j k : nat) : nat :=
  if decide (k = i) then j else if decide (k = j) then i else k.

Lemma transp_inj i j : Inj (=) (=) (transp i j).
Proof. intros x y. unfold transp. repeat case_decide; congruence. Qed.

Lemma swap_lookup l i j k :
  (i < length l)%nat -> (j < length l)%nat -> swap l i j !! k = l !! transp i j k.
Proof.
  intros Hi Hj. destruct (lookup_lt_is_Some_2 l i Hi) as [a Ha], (lookup_lt_is_Some_2 l j Hj) as [b Hb].
  unfold swap, transp. rewrite Ha, Hb. destruct (decide (k = j)) as [->|Hkj].
  - rewrite list_lookup_insert_eq by (by rewrite length_insert). case_decide; congruence.
  - rewrite list_lookup_insert_ne by done. case_decide as Hki.
    + subst k. by rewrite list_lookup_insert_eq.
    + by rewrite list_lookup_insert_ne.
Qed.

Lemma length_swap l i j : length (swap l i j) = length l.
Proof. unfold swap. repeat split_match; rewrite ?length_insert; done. Qed.

Lemma swap_perm l i j : (i < length l)%nat -> (j < length l)%nat -> swap l i j ≡ₚ l.
Proof.
  intros Hi Hj. apply Permutation_inj. rewrite length_swap. split; [done|].
  exists (transp i j). split; [apply transp_inj|]. intros k. by apply swap_lookup.
Qed.

(** The page count of region [k], in index order. *)
Definition pages_at (l : list (Z * Z)) (k : nat) : Z := default 0 (snd <$> l !! k).

Lemma find_max_spec l js m :
  (m < length l)%nat -> Forall (fun j => (j < length l)%nat) js ->
  let r := find_max l js m in
  (r = m \/ r ∈ js) /\ (r < length l)%nat /\ pages_at l m <= pages_at l r /\
  forall j, j ∈ js -> pages_at l j <= pages_at l r.
Proof.
  intros Hm Hjs. revert m Hm. induction Hjs as [|j js Hj Hjs IH]; intros m Hm; cbn [find_max].
  - split_and!; [by left|done|lia|set_solver].
  - destruct (lookup_lt_is_Some_2 l j Hj) as [[bj pj] Ej], (lookup_lt_is_Some_2 l m Hm) as [[bm pm] Em].
    rewrite Ej, Em. assert (pages_at l j = pj) by (unfold pages_at; by rewrite Ej).
    assert (pages_at l m = pm) by (unfold pages_at; by rewrite Em).
    destruct (Z.ltb_spec pm pj); [destruct (IH j Hj) as (G1 & G2 & G3 & G4)|destruct (IH m Hm) as (G1 & G2 & G3 & G4)];
      (split_and!; [set_solver|done|lia|]); intros k [->|Hk]%elem_of_cons; auto; lia.
Qed.

Definition sorted_upto (i : nat) (l : list (Z * Z)) : Prop :=
  forall p q, (p < i)%nat -> (p < q < length l)%nat -> pages_at l q <= pages_at l p.

Lemma sort_step l i :
  (i < length l)%nat -> sorted_upto i l ->
  let m := find_max l (seq (S i) (length l - S i)) i in
  let l' := if (m =? i)%nat then l else swap l i m in
  l' ≡ₚ l /\ sorted_upto (S i) l'.
Proof.
  intros Hi Hs m. destruct (find_max_spec l (seq (S i) (length l - S i)) i Hi) as (Hm & Hml & Hmi & Hmax).
  { apply Forall_forall. intros j Hj%elem_of_seq. lia. }
  fold m in Hm, Hml, Hmi, Hmax. assert (i <= m)%nat as Him by (destruct Hm as [->|Hm%elem_of_seq]; lia).
  assert (forall q, (i <= q < length l)%nat -> pages_at l q <= pages_at l m) as Hall.
  { intros q Hq. destruct (decide (q = i)) as [->|]; [done|]. apply Hmax, elem_of_seq. lia. }
  destruct (Nat.eqb_spec m i) as [Heq|Hne]; intros l'; subst l'.
  - split; [done|]. intros p q Hp Hq. destruct (decide (p = i)) as [->|]; [|apply Hs; lia].
    transitivity (pages_at l m); [apply Hall; lia|by rewrite Heq].
  - split; [by apply swap_perm|]. intros p q Hp Hq. rewrite length_swap in Hq.
    assert (forall k, pages_at (swap l i m) k = pages_at l (transp i m k)) as Hat.
    { intros k. unfold pages_at. by rewrite swap_lookup. }
    rewrite !Hat. assert (i <= q -> i <= transp i m q < length l)%nat by (unfold transp; repeat case_decide; lia).
    destruct (decide (p = i)) as [->|].
    + unfold transp at 2. rewrite decide_True by done. apply Hall. lia.
    + assert (transp i m p = p) as -> by (unfold transp; repeat case_decide; lia).
      apply Hs; [lia|]. unfold transp. repeat case_decide; lia.
Qed.

Lemma sort_from_spec i l :
  (i <= length l)%nat -> sorted_upto i l ->
  let l' := sort_from (seq i (length l - i)) l in l' ≡ₚ l /\ sorted_upto (length l) l'.
Proof.
  remember (length l - i)%nat as d eqn:Hd. revert i l Hd.
  induction d as [|d IH]; intros i l Hd Hi Hs; cbn [seq sort_from].
  - split; [done|]. by replace (length l) with i by lia.
  - destruct (sort_step l i) as [Hp Hs']; [lia|done|]. cbv zeta in Hp, Hs' |- *.
    match goal with |- context [sort_from (seq (S i) d) ?x] => set (l1 := x) in * end. pose proof (Permutation_length Hp) as Hlen.
    destruct (IH (S i) l1) as [Hp2 Hs2]; [lia|lia|done|].
    split; [by rewrite Hp2|]. by rewrite <- Hlen.
Qed.

(** The boot-time selection sort orders the usable regions largest first
    and neither loses nor duplicates a region. *)
Theorem sort_regions_correct (regions : list (Z * Z)) :
  let sorted := sort_regions regions in
  sorted ≡ₚ regions /\
  forall p q, (p < q < length sorted)%nat -> pages_at sorted q <= pages_at sorted p.
Proof.
  intros sorted. subst sorted. unfold sort_regions.
  destruct (sort_from_spec 0 regions) as [Hp Hs]; [lia|intros p q; lia|].
  rewrite Nat.sub_0_r in *. split; [done|]. intros p q Hpq.
  rewrite (Permutation_length Hp) in Hpq. apply Hs; [|rewrite (Permutation_length Hp)]; lia.
Qed.

(** ** The order search *)

Lemma contiguous_order_spec fuel o n :
  (o + fuel = 10)%nat -> (forall p, (p < o)%nat -> Buddy.block_pages p < n) ->
  let r := contiguous_order fuel o n in
  (o <= r <= 10)%nat /\ (n <= Buddy.block_pages r \/ r = 10%nat) /\
  (forall p, (p < r)%nat -> Buddy.block_pages p < n).
Proof.
  revert o. induction fuel as [|fuel IH]; intros o Ho Hlt; cbn [contiguous_order].
  - split_and!; try done; lia.
  - destruct (Z.ltb_spec (Buddy.block_pages o) n) as [H|H]; cbn [andb].
    + destruct (Nat.ltb_spec o 10) as [H2|H2]; [|lia].
      destruct (IH (S o)) as (? & ? & ?); [lia| |split_and!; try done; lia].
      intros p Hp. destruct (decide (p = o)) as [->|]; [done|]. apply Hlt. lia.
    + split_and!; try done; lia.
Qed.

(** For up to 1024 pages the order [alloc_contiguous] asks for is the
    smallest one whose block holds them. *)
Theorem contiguous_order_least (n : Z) :
  1 <= n <= 1024 ->
  let r := contiguous_order 10 0 n in
  (r <= 10)%nat /\ n <= Buddy.block_pages r /\ (forall p, (p < r)%nat -> Buddy.block_pages p < n).
Proof.
  intros Hn r. destruct (contiguous_order_spec 10 0 n) as (Hr & Hge & Hlt); [done|lia|].
  fold r in Hr, Hge, Hlt. split_and!; try done; [lia|].
  destruct Hge as [|Hge]; [done|]. rewrite Hge. change (Buddy.block_pages 10) with 1024. lia.
Qed.

Lemma contiguous_order_least_witness :
  (contiguous_order 10 0 5 <= 10)%nat /\ 5 <= Buddy.block_pages (contiguous_order 10 0 5) /\
  (forall p, (p < contiguous_order 10 0 5)%nat -> Buddy.block_pages p < 5).
Proof. apply (contiguous_order_least 5). lia. Defined.

(** * Theorems on the physical memory manager

    Boot establishes, and every call of the manager keeps, the invariant that
    no byte of physical memory is handed out twice. *)

Import Pmm.

(** ** The boot loader's memory map

    What the boot protocol promises of usable entries: base and length are
    multiples of the page size, and no two usable entries overlap. *)

Definition entry_ok (lim : Z) (e : MapEntry) : Prop :=
  me_usable e = true ->
  (Buddy.PAGE_SIZE | me_base e) /\ (Buddy.PAGE_SIZE | me_length e) /\
  0 <= me_base e /\ 0 <= me_length e /\ me_base e + me_length e <= lim.

Definition usable_at (x : Z) (e : MapEntry) : Prop :=
  me_usable e = true /\ me_base e <= x < me_base e + me_length e.
#[export] Instance usable_at_dec x e : Decision (usable_at x e).
Proof. unfold usable_at. apply _. Defined.

Definition entries (x : Z) (map : list MapEntry) : nat := length (filter (usable_at x) map).
#[global] Arguments entries : simpl never.

Definition map_ok (lim : Z) (map : list MapEntry) : Prop :=
  Forall (entry_ok lim) map /\ forall x, (entries x map <= 1)%nat.

Definition to_region (r : Z * Z) : BootstrapRegion :=
  mkRegion r.1 (u64 (r.1 + u64 (r.2 * Buddy.PAGE_SIZE))).

Lemma align_up_page x : (Buddy.PAGE_SIZE | x) -> 0 <= x <= 2 ^ 47 -> Bootstrap.align_up x Buddy.PAGE_SIZE = x.
Proof.
  intros [k Hk] Hx. destruct (align_up_pow2 x 12) as [[j Hj] Hr]; [lia|lia|lia|].
  change (2 ^ 12) with Buddy.PAGE_SIZE in *. unfold Buddy.PAGE_SIZE in *. lia.
Qed.

Lemma entry_aligned lim e :
  lim <= 2 ^ 47 -> entry_ok lim e -> me_usable e = true ->
  aligned_base e = me_base e /\ aligned_end e = me_base e + me_length e /\
  to_region (aligned_base e, aligned_pages e) = mkRegion (me_base e) (me_base e + me_length e) /\
  region_ok lim (mkRegion (me_base e) (me_base e + me_length e)).
Proof.
  intros Hlim He Hu. destruct (He Hu) as (Hb & Hl & Hb0 & Hl0 & Hend).
  assert (aligned_base e = me_base e) as Eb by (apply align_up_page; [done|lia]).
  assert (aligned_end e = me_base e + me_length e) as Ee.
  { unfold aligned_end. rewrite wrap_small by (unfold in_width; lia).
    apply align_up_page; [by apply Z.divide_add_r|lia]. }
  split_and!; try done.
  - unfold to_region, aligned_pages. rewrite Eb, Ee. cbn [fst snd].
    replace (me_base e + me_length e - me_base e) with (me_length e) by lia.
    destruct Hl as [k Hk]. rewrite Hk at 1. rewrite Z.div_mul by done. rewrite <- Hk.
    rewrite (wrap_small 64 (me_length e)), wrap_small by (unfold in_width; lia). done.
  - unfold region_ok. cbn. split_and!; try done; try lia. by apply Z.divide_add_r.
Qed.

Lemma entries_cons x e map :
  entries x (e :: map) = ((if decide (usable_at x e) then 1 else 0) + entries x map)%nat.
Proof. unfold entries. rewrite filter_cons. by case_decide. Qed.

Lemma arenas_app x b b' : arenas x (b ++ b') = (arenas x b + arenas x b')%nat.
Proof. unfold arenas. by rewrite filter_app, length_app. Qed.

Lemma collect_regions_spec lim map acc :
  lim <= 2 ^ 47 -> Forall (entry_ok lim) map -> Forall (region_ok lim) (to_region <$> acc) ->
  (length acc <= MAX_REGIONS)%nat ->
  let rs := collect_regions map acc in
  Forall (region_ok lim) (to_region <$> rs) /\ (length rs <= MAX_REGIONS)%nat /\
  forall x, (arenas x (to_region <$> rs) <= arenas x (to_region <$> acc) + entries x map)%nat.
Proof.
  intros Hlim Hmap. revert acc. induction Hmap as [|e map He Hmap IH]; intros acc Hacc Hlen; cbn [collect_regions].
  - split_and!; try done. intros x. lia.
  - destruct (me_usable e) eqn:Hu, (Nat.ltb_spec (length acc) MAX_REGIONS) as [Hlt|Hge],
      (Z.ltb_spec (aligned_base e) (aligned_end e)), (Z.leb_spec 0x100000 (aligned_base e)); cbn [andb];
      try (destruct (IH acc Hacc Hlen) as (G1 & G2 & G3); split_and!; [done|done|];
           intros x; rewrite entries_cons; specialize (G3 x); lia).
    destruct (entry_aligned lim e Hlim He Hu) as (Eb & Ee & Er & Hr).
    destruct (IH (acc ++ [(aligned_base e, aligned_pages e)])) as (G1 & G2 & G3).
    { rewrite fmap_app. apply Forall_app. split; [done|].
      change (to_region <$> [(aligned_base e, aligned_pages e)]) with [to_region (aligned_base e, aligned_pages e)].
      rewrite Er. by apply Forall_singleton. }
    { rewrite length_app. cbn. lia. }
    split_and!; [done|done|]. intros x. specialize (G3 x). rewrite entries_cons.
    rewrite fmap_app, arenas_app in G3.
    change (to_region <$> [(aligned_base e, aligned_pages e)]) with [to_region (aligned_base e, aligned_pages e)] in G3.
    rewrite Er, arenas_cons in G3. change (arenas x []) with 0%nat in G3.
    unfold in_region, usable_at in *. cbn in G3. repeat case_decide; intuition lia.
Qed.

Lemma foldl_add_region rs acc :
  (length acc + length rs <= MAX_REGIONS)%nat ->
  foldl (fun b r => Bootstrap.add_region b r.1 r.2) acc rs = acc ++ (to_region <$> rs).
Proof.
  revert acc. induction rs as [|r rs IH]; intros acc Hlen; cbn; [by rewrite app_nil_r|].
  cbn in Hlen. unfold Bootstrap.add_region at 2. destruct (Nat.leb_spec MAX_REGIONS (length acc)); [lia|].
  rewrite IH by (rewrite length_app; cbn; lia). by rewrite <- app_assoc.
Qed.

Lemma arenas_perm x b b' : b ≡ₚ b' -> arenas x b = arenas x b'.
Proof. unfold arenas. by intros ->. Qed.

(** The statics before boot. *)
Definition reset (hhdm : Z) : State := mkPmm (Buddy.new hhdm) None 0 0.

Lemma init_inv lim hhdm map :
  walkable lim -> Buddy.HIGHER_HALF <= hhdm -> hhdm + lim <= 2 ^ 64 -> map_ok lim map ->
  exists s, init map (reset hhdm) = (s, Ok tt) /\ pmm_inv lim s [].
Proof.
  intros Hlim Hlo Hhi [Hents Hcount]. pose proof (lim_small lim Hlim) as Hsmall.
  destruct (collect_regions_spec lim map [] Hsmall Hents) as (G1 & G2 & G3); [done|cbn; lia|].
  destruct (sort_from_spec 0 (collect_regions map [])) as [Hperm _]; [lia|intros p q; lia|].
  rewrite Nat.sub_0_r in Hperm. fold (sort_regions (collect_regions map [])) in Hperm.
  set (rs := sort_regions _) in *.
  unfold init, modify. destruct (count_pages map 0 0) as [total usable].
  eexists. split; [reflexivity|]. fold rs.
  assert (foldl (fun b r => Bootstrap.add_region b r.1 r.2) Bootstrap.new rs = to_region <$> rs) as ->.
  { apply (foldl_add_region rs []). cbn. rewrite (Permutation_length Hperm). lia. }
  split; cbn [bootstrap update_field from_option id].
  - cbn. by rewrite Hperm.
  - exists (fun _ => []). split_and!.
    + split; cbn; [done|done|done|]. intros o Ho. exists None. split; [|done].
      unfold Buddy.MAX_ORDER in Ho. do 11 (destruct o as [|o]; [done|]). lia.
    + split; [intros; apply NoDup_nil_2|..]; intros; exfalso; unfold listed in *; set_solver.
    + intros x. cbn. specialize (G3 x). specialize (Hcount x).
      rewrite (arenas_perm x _ (to_region <$> collect_regions map [])) by (by rewrite Hperm).
      change (arenas x (to_region <$> [])) with 0%nat in G3. unfold owners at 1. cbn [filter list_filter length].
      split; [lia|]. intros (o & a & [_ Ha] & _). set_solver.
  - set_solver.
Qed.

(** ** Clients of the manager *)

(** A client of the public entry points: blocks of order up to [MAX_ORDER],
    single pages, contiguous runs of up to 1024 pages, and frees of what it
    holds. *)
Inductive pmm_step : State * Held -> State * Held -> Prop :=
| PAllocPages s s' o r held :
    (o <= Buddy.MAX_ORDER)%nat -> alloc_pages o s = (s', Ok r) ->
    pmm_step (s, held) (s', hold r o held)
| PAllocPage s s' r held :
    alloc_page s = (s', Ok r) -> pmm_step (s, held) (s', hold r 0 held)
| PAllocContiguous s s' n r held :
    1 <= n <= 1024 -> alloc_contiguous n s = (s', Ok r) ->
    pmm_step (s, held) (s', hold r (contiguous_order 10 0 n) held)
| PFree s s' a o held held' :
    held ≡ₚ (a, o) :: held' -> free_pages a o s = (s', Ok tt) -> pmm_step (s, held) (s', held').

Lemma alloc_contiguous_order n s :
  1 <= n <= 1024 ->
  alloc_contiguous n s = alloc_pages (contiguous_order 10 0 n) s /\
  (contiguous_order 10 0 n <= Buddy.MAX_ORDER)%nat.
Proof.
  intros Hn. unfold alloc_contiguous. destruct (Z.eqb_spec n 0); [lia|]. split; [done|].
  destruct (contiguous_order_spec 10 0 n) as (? & _); [done|lia|]. unfold Buddy.MAX_ORDER. lia.
Qed.

Lemma pmm_step_inv lim c c' :
  walkable lim -> pmm_step c c' -> pmm_inv lim c.1 c.2 -> pmm_inv lim c'.1 c'.2.
Proof.
  intros Hlim [s s' o r held Ho Hrun|s s' r held Hrun|s s' n r held Hn Hrun|s s' a o held held' Hperm Hrun];
    cbn; intros Hinv.
  - destruct (alloc_pages_inv lim Hlim o s held Ho Hinv) as (s1 & r1 & Hrun' & ?). rewrite Hrun in Hrun'. by simplify_eq.
  - destruct (alloc_page_inv lim Hlim s held Hinv) as (s1 & r1 & Hrun' & ?). rewrite Hrun in Hrun'. by simplify_eq.
  - destruct (alloc_contiguous_order n s Hn) as [Heq Ho]. rewrite Heq in Hrun.
    destruct (alloc_pages_inv lim Hlim _ s held Ho Hinv) as (s1 & r1 & Hrun' & ?). rewrite Hrun in Hrun'. by simplify_eq.
  - destruct (free_pages_inv lim Hlim a o s held held' Hinv Hperm) as (s1 & Hrun' & ?). rewrite Hrun in Hrun'. by simplify_eq.
Qed.

(** C20: from a memory map as the boot protocol describes it, after boot and
    any sequence of page, block and contiguous allocations and frees of held
    blocks, the blocks handed out, the bump arenas and the buddy free lists
    never share a byte; every held block is naturally aligned inside physical
    memory; and the next allocation or free of a held block returns. *)
Theorem pmm_no_overlap (lim hhdm : Z) (map : list MapEntry) (s0 s : State) (held : Held) :
  walkable lim -> Buddy.HIGHER_HALF <= hhdm -> hhdm + lim <= 2 ^ 64 -> map_ok lim map ->
  init map (reset hhdm) = (s0, Ok tt) -> rtc pmm_step (s0, []) (s, held) ->
  pmm_inv lim s held /\
  (forall x, (owners x held <= 1)%nat) /\
  (forall a o held', held ≡ₚ (a, o) :: held' -> exists s', free_pages a o s = (s', Ok tt)) /\
  (exists s' r, alloc_page s = (s', Ok r)).
Proof.
  intros Hlim Hlo Hhi Hmap Hinit Hrun.
  destruct (init_inv lim hhdm map Hlim Hlo Hhi Hmap) as (s0' & Hinit' & Hinv0).
  rewrite Hinit in Hinit'. injection Hinit' as <-.
  assert (pmm_inv lim s held) as Hinv.
  { remember (s0, []) as c0 eqn:E0. remember (s, held) as c1 eqn:E1.
    assert (pmm_inv lim c0.1 c0.2 -> pmm_inv lim c1.1 c1.2) as H.
    { clear E0 E1. induction Hrun; [done|]. eauto using pmm_step_inv. }
    subst. by apply H. }
  split_and!; [done|..].
  - intros x. destruct Hinv as [_ (L & _ & _ & Hx) _]. specialize (Hx x). lia.
  - intros a o held' Hperm. destruct (free_pages_inv lim Hlim a o s held held' Hinv Hperm) as (? & ? & _). eauto.
  - destruct (alloc_page_inv lim Hlim s held Hinv) as (? & ? & ? & _). eauto.
Qed.

(** One usable region of 15 MiB from 1 MiB up, one page below 1 MiB and one
    reserved range. *)
Definition sample_map : list MapEntry :=
  [mkMapEntry true 0x1000 0x1000; mkMapEntry false 0x9000 0x100; mkMapEntry true 0x100000 0xF00000].

Lemma sample_map_ok : map_ok 0x1000000 sample_map.
Proof.
  split.
  - repeat apply Forall_cons_2; [| | |constructor]; intros Hu; try discriminate; cbn;
      split_and!; try lia; [by exists 1|by exists 1|by exists 256|by exists 3840].
  - intros x. unfold entries, sample_map. rewrite !filter_cons, filter_nil.
    unfold usable_at. cbn. repeat case_decide; cbn; intuition lia.
Qed.

Definition sample_pmm : State := (init sample_map (reset Buddy.HIGHER_HALF)).1.

Lemma sample_pmm_inv : pmm_inv 0x1000000 sample_pmm [].
Proof.
  destruct (init_inv 0x1000000 Buddy.HIGHER_HALF sample_map) as (s & Hrun & Hinv);
    [by vm_compute..|apply sample_map_ok|]. unfold sample_pmm. by rewrite Hrun.
Qed.

Lemma pmm_no_overlap_witness :
  let s := (alloc_page sample_pmm).1 in
  pmm_inv 0x1000000 s [(0x100000, 0%nat)] /\
  (forall x, (owners x [(0x100000%Z, 0%nat)] <= 1)%nat) /\
  (forall a o held', [(0x100000, 0%nat)] ≡ₚ (a, o) :: held' -> exists s', free_pages a o s = (s', Ok tt)) /\
  (exists s' r, alloc_page s = (s', Ok r)).
Proof.
  apply (pmm_no_overlap 0x1000000 Buddy.HIGHER_HALF sample_map sample_pmm);
    [by vm_compute|by vm_compute|by vm_compute|apply sample_map_ok|by vm_compute|].
  eapply rtc_l; [|apply rtc_refl].
  apply (PAllocPage sample_pmm _ (Some 0x100000) []). vm_compute. reflexivity.
Defined.

(** Past 1024 pages [alloc_contiguous] stops at order 10: a request for
    2048 pages succeeds with a 1024-page block, and the next allocation comes
    from inside the range that was asked for. *)
Theorem alloc_contiguous_short :
  contiguous_order 10 0 2048 = 10%nat /\ Buddy.block_pages 10 = 1024 /\
  exists s1 s2,
    alloc_contiguous 2048 sample_pmm = (s1, Ok (Some 0x400000)) /\
    alloc_contiguous 2 s1 = (s2, Ok (Some 0x800000)) /\
    0x400000 <= 0x800000 < 0x400000 + 2048 * Buddy.PAGE_SIZE.
Proof.
  split; [reflexivity|]. split; [reflexivity|]. eexists _, _.
  split; [vm_compute; reflexivity|]. split; [vm_compute; reflexivity|]. by vm_compute.
Qed.
