(* ===== verification/Bridge.v ===== *)
(** * The brain bridge

    Models [kernel/src/bridge/types.rs] and [kernel/src/bridge/reader.rs]: the
    page shared with userspace, the decoding of its enums, and the reader that
    takes at most one hint per version. *)

From S2P Require Import Prelude.
#[local] Open Scope kernel_scope.

Module Bridge.

Definition HINT_TIMEOUT_MS : Z := 5000.
Definition MIN_CONFIDENCE : Z := 128.

Inductive IntentType : Type :=
| Idle
| Gaming
| Coding
| Rendering
| Compiling
| VideoEncoding
| MLTraining
| Browsing
| VideoPlayback.

#[export] Instance IntentType_eq_dec : EqDecision IntentType.
Proof. solve_decision. Defined.

Inductive WorkloadType : Type :=
| CpuBound
| IoBound
| Mixed
| MemoryBound
| GpuBound.

(** The enums as [u8] discriminants, and the total decoders. *)
Definition intent_as_u8 (i : IntentType) : Z :=
  match i with
  | Idle => 0 | Gaming => 1 | Coding => 2 | Rendering => 3 | Compiling => 4
  | VideoEncoding => 5 | MLTraining => 6 | Browsing => 7 | VideoPlayback => 8
  end.

Definition intent_from_u8 (value : Z) : IntentType :=
  match value with
  | 0 => Idle
  | 1 => Gaming
  | 2 => Coding
  | 3 => Rendering
  | 4 => Compiling
  | 5 => VideoEncoding
  | 6 => MLTraining
  | 7 => Browsing
  | 8 => VideoPlayback
  | _ => Idle
  end.

Definition workload_as_u8 (w : WorkloadType) : Z :=
  match w with CpuBound => 0 | IoBound => 1 | Mixed => 2 | MemoryBound => 3 | GpuBound => 4 end.

Definition workload_from_u8 (value : Z) : WorkloadType :=
  match value with
  | 0 => CpuBound
  | 1 => IoBound
  | 2 => Mixed
  | 3 => MemoryBound
  | 4 => GpuBound
  | _ => Mixed
  end.

(** The shared page.  Userspace writes it; the kernel only reads.  The
    feedback and statistics fields no code touches are left out. *)
Record BrainBridge : Type := mkBridge {
  current_intent : Z;
  expected_burst_sec : Z;
  workload_type : Z;
  confidence : Z;
  predicted_cpu : Z;
  predicted_memory : Z;
  predicted_io : Z;
  version : Z;
  timestamp : Z;
  writer_task_id : Z;
}.

(** [BrainBridge::new] *)
Definition new : BrainBridge := mkBridge (intent_as_u8 Idle) 0 (workload_as_u8 Mixed) 0 0 0 0 0 0 0.

(** [is_hint_valid]: the age is computed by an unguarded subtraction. *)
Definition is_hint_valid (b : BrainBridge) (current_time_ms : Z) : bool :=
  if confidence b <? MIN_CONFIDENCE then false
  else if HINT_TIMEOUT_MS <? u64 (current_time_ms - timestamp b) then false
  else true.

Record BrainBridgeSnapshot : Type := mkSnapshot {
  snap_intent : IntentType;
  snap_burst_sec : Z;
  snap_workload : WorkloadType;
  snap_cpu : Z;
  snap_memory : Z;
  snap_io : Z;
  snap_confidence : Z;
  snap_timestamp : Z;
}.

Definition from_bridge (b : BrainBridge) : BrainBridgeSnapshot :=
  mkSnapshot (intent_from_u8 (current_intent b)) (expected_burst_sec b)
    (workload_from_u8 (workload_type b)) (predicted_cpu b) (predicted_memory b)
    (predicted_io b) (confidence b) (timestamp b).

(** The reader's statics. *)
Record Reader : Type := mkReader {
  BRAIN_BRIDGE_PHYS_ADDR : Z;
  LAST_READ_VERSION : Z;
  TOTAL_HINTS_READ : Z;
  HINTS_REJECTED_CONFIDENCE : Z;
  HINTS_REJECTED_TIMEOUT : Z;
}.

#[export] Instance eta_Reader : Eta Reader := fun r =>
  mkReader (BRAIN_BRIDGE_PHYS_ADDR r) (LAST_READ_VERSION r) (TOTAL_HINTS_READ r)
    (HINTS_REJECTED_CONFIDENCE r) (HINTS_REJECTED_TIMEOUT r).
#[export] Instance set_PHYS : Setter BRAIN_BRIDGE_PHYS_ADDR := ltac:(derive_setter).
#[export] Instance set_LAST : Setter LAST_READ_VERSION := ltac:(derive_setter).
#[export] Instance set_TOTAL : Setter TOTAL_HINTS_READ := ltac:(derive_setter).
#[export] Instance set_REJC : Setter HINTS_REJECTED_CONFIDENCE := ltac:(derive_setter).
#[export] Instance set_REJT : Setter HINTS_REJECTED_TIMEOUT := ltac:(derive_setter).

Definition reader_reset : Reader := mkReader 0 0 0 0 0.

(** [reader::init]: asserts that the page is aligned. *)
Definition init (phys_addr : Z) : M Reader Empty_set unit :=
  if phys_addr mod 4096 =? 0
  then modify (fun r => r <| BRAIN_BRIDGE_PHYS_ADDR := phys_addr |>)
  else panic.

(** [reader::read_hints], on the page [bridge] found at the stored address. *)
Definition read_hints (bridge : BrainBridge) (current_time_ms : Z) (r : Reader) :
    Reader * option BrainBridgeSnapshot :=
  if BRAIN_BRIDGE_PHYS_ADDR r =? 0 then (r, None)
  else
    let current_version := version bridge in
    if current_version <=? LAST_READ_VERSION r then (r, None)
    else if confidence bridge <? MIN_CONFIDENCE then
      (r <| HINTS_REJECTED_CONFIDENCE := u64 (HINTS_REJECTED_CONFIDENCE r + 1) |>
         <| LAST_READ_VERSION := current_version |>, None)
    else if ((timestamp bridge <? current_time_ms) &&
             (HINT_TIMEOUT_MS <? u64 (current_time_ms - timestamp bridge)))%bool then
      (r <| HINTS_REJECTED_TIMEOUT := u64 (HINTS_REJECTED_TIMEOUT r + 1) |>
         <| LAST_READ_VERSION := current_version |>, None)
    else
      (r <| LAST_READ_VERSION := current_version |>
         <| TOTAL_HINTS_READ := u64 (TOTAL_HINTS_READ r + 1) |>, Some (from_bridge bridge)).

Record ReaderStats : Type := mkReaderStats {
  total_hints_read : Z;
  hints_rejected_confidence : Z;
  hints_rejected_timeout : Z;
  last_read_version : Z;
}.

Definition stats (r : Reader) : ReaderStats :=
  mkReaderStats (TOTAL_HINTS_READ r) (HINTS_REJECTED_CONFIDENCE r) (HINTS_REJECTED_TIMEOUT r)
    (LAST_READ_VERSION r).

(** Read the same page again and again, as the scheduler does. *)
Fixpoint poll (pages : list (BrainBridge * Z)) (r : Reader) : Reader * list Z :=
  match pages with
  | [] => (r, [])
  | (b, now) :: rest =>
      let (r1, o) := read_hints b now r in
      let (r2, vs) := poll rest r1 in
      (r2, match o with Some _ => version b :: vs | None => vs end)
  end.

End Bridge.

(** ** Properties of the reader *)

Section bridge.
Import Bridge.

Lemma intent_roundtrip i : intent_from_u8 (intent_as_u8 i) = i.
Proof. by destruct i. Qed.

Lemma workload_roundtrip w : workload_from_u8 (workload_as_u8 w) = w.
Proof. by destruct w. Qed.

(** What a delivered hint guarantees. *)
Lemma read_hints_some b now r r' s :
  read_hints b now r = (r', Some s) ->
  BRAIN_BRIDGE_PHYS_ADDR r <> 0 /\ LAST_READ_VERSION r < version b /\
  MIN_CONFIDENCE <= confidence b /\ s = from_bridge b /\
  LAST_READ_VERSION r' = version b /\ BRAIN_BRIDGE_PHYS_ADDR r' = BRAIN_BRIDGE_PHYS_ADDR r /\
  (timestamp b < now -> u64 (now - timestamp b) <= HINT_TIMEOUT_MS).
Proof.
  unfold read_hints. repeat split_match; intros; simplify_eq; bool_prop; split_and!; cbn; try done; try lia.
Qed.

Lemma read_hints_version b now r : LAST_READ_VERSION r <= LAST_READ_VERSION (read_hints b now r).1.
Proof. unfold read_hints. repeat split_match; bool_prop; cbn; lia. Qed.

(** However userspace rewrites the page between polls, each version is
    delivered at most once and in increasing order, never below the version
    last seen, and every hint that is delivered meets the confidence bar. *)
Theorem hints_at_most_once (pages : list (BrainBridge * Z)) (r : Reader) :
  let (r', vs) := poll pages r in
  StronglySorted Z.lt vs /\ Forall (fun v => LAST_READ_VERSION r < v <= LAST_READ_VERSION r') vs /\
  LAST_READ_VERSION r <= LAST_READ_VERSION r' /\
  Forall (fun v => exists b now, (b, now) ∈ pages /\ version b = v /\ MIN_CONFIDENCE <= confidence b) vs.
Proof.
  revert r. induction pages as [|[b now] pages IH]; intros r; cbn [poll].
  - split_and!; try constructor. lia.
  - pose proof (read_hints_version b now r) as Hv.
    destruct (read_hints b now r) as [r1 o] eqn:E. cbn in Hv.
    specialize (IH r1). destruct (poll pages r1) as [r2 vs]. destruct IH as (Hs & Hr & Hle & Hc).
    assert (Forall (fun v => exists b' now', (b', now') ∈ (b, now) :: pages /\ version b' = v /\
      MIN_CONFIDENCE <= confidence b') vs) as Hc'.
    { eapply Forall_impl; [exact Hc|]. intros v (b' & now' & ? & ? & ?). exists b', now'. set_solver. }
    destruct o as [s|].
    + apply read_hints_some in E as (_ & Hlt & Hconf & _ & Hlast & _). rewrite Hlast in *.
      split_and!; [|constructor; [lia|]|lia|].
      * constructor; [done|]. eapply Forall_impl; [exact Hr|]. cbn. intros v ?. lia.
      * eapply Forall_impl; [exact Hr|]. cbn. intros v ?. lia.
      * constructor; [|done]. exists b, now. set_solver.
    + split_and!; [done| |lia|done]. eapply Forall_impl; [exact Hr|]. cbn. intros v ?. lia.
Qed.

(** The validity check the shared type offers and the reader disagree on
    a hint stamped in the future: the subtraction of [is_hint_valid] wraps and
    rejects it, the reader delivers it. *)
Theorem future_hint_diverges (b : BrainBridge) (now : Z) (r : Reader) :
  in_width 64 now -> in_width 64 (timestamp b) -> now < timestamp b ->
  timestamp b < now + 2 ^ 64 - HINT_TIMEOUT_MS ->
  MIN_CONFIDENCE <= confidence b -> BRAIN_BRIDGE_PHYS_ADDR r <> 0 -> LAST_READ_VERSION r < version b ->
  is_hint_valid b now = false /\ (read_hints b now r).2 = Some (from_bridge b).
Proof.
  unfold in_width, HINT_TIMEOUT_MS. intros Hn Ht Hlt Hfar Hc Hp Hv. split.
  - unfold is_hint_valid, wrap, HINT_TIMEOUT_MS. destruct (Z.ltb_spec (confidence b) MIN_CONFIDENCE); [lia|].
    rewrite <- (Z.mod_unique_pos (now - timestamp b) (2 ^ 64) (-1) (now - timestamp b + 2 ^ 64)) by lia.
    destruct (Z.ltb_spec 5000 (now - timestamp b + 2 ^ 64)); [done|lia].
  - unfold read_hints. destruct (Z.eqb_spec (BRAIN_BRIDGE_PHYS_ADDR r) 0); [done|].
    destruct (Z.leb_spec (version b) (LAST_READ_VERSION r)); [lia|].
    destruct (Z.ltb_spec (confidence b) MIN_CONFIDENCE); [lia|].
    destruct (Z.ltb_spec (timestamp b) now); [lia|]. done.
Qed.

Lemma future_hint_diverges_witness :
  let b := mkBridge 4 30 0 200 90 10 5 1 2000 7 in
  let r := mkReader 4096 0 0 0 0 in
  is_hint_valid b 1000 = false /\ (read_hints b 1000 r).2 = Some (from_bridge b).
Proof.
  apply future_hint_diverges; unfold in_width, MIN_CONFIDENCE, HINT_TIMEOUT_MS; cbn; lia.
Defined.
End bridge.
