(* ===== verification/Task.v ===== *)
(** * Tasks

    Models the data of [kernel/src/task/task.rs]: the CPU context, the task
    states and statistics, the task record with its constructor and
    [set_name], and the initial interrupt frame of
    [kernel/src/arch/x86_64/interrupt_frame.rs]. *)

From S2P Require Import Prelude Message.
#[local] Open Scope kernel_scope.

Module Task.

(** CPU context, in the order of its layout. *)
Record Context : Type := mkContext {
  rsp : Z;
  rbp : Z;
  rax : Z;
  rbx : Z;
  rcx : Z;
  rdx : Z;
  rsi : Z;
  rdi : Z;
  r8 : Z;
  r9 : Z;
  r10 : Z;
  r11 : Z;
  r12 : Z;
  r13 : Z;
  r14 : Z;
  r15 : Z;
  rip : Z;
  rflags : Z;
  cs : Z;
  ss : Z;
}.

#[export] Instance eta_Context : Eta Context := fun r =>
  mkContext (rsp r) (rbp r) (rax r) (rbx r) (rcx r) (rdx r) (rsi r) (rdi r) (r8 r) (r9 r) (r10
    r) (r11 r) (r12 r) (r13 r) (r14 r) (r15 r) (rip r) (rflags r) (cs r) (ss r).
#[export] Instance set_rax : Setter rax := ltac:(derive_setter).
#[export] Instance set_rsp : Setter rsp := ltac:(derive_setter).
#[export] Instance set_rbp : Setter rbp := ltac:(derive_setter).
#[export] Instance set_rip : Setter rip := ltac:(derive_setter).
#[export] Instance set_rflags : Setter rflags := ltac:(derive_setter).
#[export] Instance set_cs : Setter cs := ltac:(derive_setter).
#[export] Instance set_ss : Setter ss := ltac:(derive_setter).

(** [Context::zero] *)
Definition zero_context : Context :=
  mkContext 0 0 0 0 0 0 0 0 0 0 0 0 0 0 0 0 0 0x202 0x08 0x10.

Inductive SandboxLevel : Type :=
| System
| Trusted
| Untrusted
| Confined.

Record Credentials : Type := mkCredentials { uid : Z; gid : Z; sandbox_level : SandboxLevel }.

Record TaskStatistics : Type := mkTaskStatistics {
  context_switches : Z;
  syscalls : Z;
  cpu_cycles : Z;
  created_at_ms : Z;
  total_runtime_ms : Z;
  ipc_sent : Z;
  ipc_received : Z;
  ipc_replied : Z;
  ipc_blocks : Z;
  page_faults : Z;
  heap_allocations : Z;
  heap_frees : Z;
  deadline_misses : Z;
  priority_boosts : Z;
  voluntary_yields : Z;
  preemptions : Z;
}.

#[export] Instance eta_TaskStatistics : Eta TaskStatistics := fun r =>
  mkTaskStatistics (context_switches r) (syscalls r) (cpu_cycles r) (created_at_ms r)
    (total_runtime_ms r) (ipc_sent r) (ipc_received r) (ipc_replied r) (ipc_blocks r)
    (page_faults r) (heap_allocations r) (heap_frees r) (deadline_misses r) (priority_boosts r)
    (voluntary_yields r) (preemptions r).
#[export] Instance set_context_switches : Setter context_switches := ltac:(derive_setter).
#[export] Instance set_syscalls : Setter syscalls := ltac:(derive_setter).
#[export] Instance set_ipc_sent : Setter ipc_sent := ltac:(derive_setter).
#[export] Instance set_ipc_received : Setter ipc_received := ltac:(derive_setter).
#[export] Instance set_ipc_replied : Setter ipc_replied := ltac:(derive_setter).
#[export] Instance set_ipc_blocks : Setter ipc_blocks := ltac:(derive_setter).
#[export] Instance set_page_faults : Setter page_faults := ltac:(derive_setter).
#[export] Instance set_deadline_misses : Setter deadline_misses := ltac:(derive_setter).
#[export] Instance set_priority_boosts : Setter priority_boosts := ltac:(derive_setter).
#[export] Instance set_voluntary_yields : Setter voluntary_yields := ltac:(derive_setter).
#[export] Instance set_preemptions : Setter preemptions := ltac:(derive_setter).

Definition zero_statistics : TaskStatistics := mkTaskStatistics 0 0 0 0 0 0 0 0 0 0 0 0 0 0 0 0.

Definition PRIORITY_IDLE : Z := 0.
Definition PRIORITY_LOW : Z := 64.
Definition PRIORITY_NORMAL : Z := 128.
Definition PRIORITY_HIGH : Z := 192.
Definition PRIORITY_REALTIME : Z := 255.

Inductive TaskState : Type :=
| Runnable
| Running
| BlockedOnReceive
| BlockedOnSend (target : TaskId)
| WaitingForReply (request_id : Z)
| Exited.

#[export] Instance TaskState_eq_dec : EqDecision TaskState.
Proof. solve_decision. Defined.

Record Task : Type := mkTask {
  id : TaskId;
  state : TaskState;
  page_table : Z;
  page_table_phys : Z;
  kernel_stack_base : option Z;
  kernel_stack_ptr : option Z;
  context : Context;
  kernel_context : Context;
  recv_queue : Queue.MessageQueue;
  ipc_reply : option IpcMessage;
  blocked_on : option TaskId;
  capabilities : list CapabilityId;
  credentials : Credentials;
  priority : Z;
  base_priority : Z;
  inherited_priority : Z;
  deadline_ms : option Z;
  cpu_time_used_ms : Z;
  last_scheduled_ms : Z;
  semantic_priority : Z;
  is_background_ai : bool;
  stats : TaskStatistics;
  interrupt_pending : bool;
  name : list Z;
  xsave_area : list Z;
}.

#[export] Instance eta_Task : Eta Task := fun r =>
  mkTask (id r) (state r) (page_table r) (page_table_phys r) (kernel_stack_base r)
    (kernel_stack_ptr r) (context r) (kernel_context r) (recv_queue r) (ipc_reply r) (blocked_on
    r) (capabilities r) (credentials r) (priority r) (base_priority r) (inherited_priority r)
    (deadline_ms r) (cpu_time_used_ms r) (last_scheduled_ms r) (semantic_priority r)
    (is_background_ai r) (stats r) (interrupt_pending r) (name r) (xsave_area r).
#[export] Instance set_state : Setter state := ltac:(derive_setter).
#[export] Instance set_page_table_phys : Setter page_table_phys := ltac:(derive_setter).
#[export] Instance set_context : Setter context := ltac:(derive_setter).
#[export] Instance set_recv_queue : Setter recv_queue := ltac:(derive_setter).
#[export] Instance set_ipc_reply : Setter ipc_reply := ltac:(derive_setter).
#[export] Instance set_blocked_on : Setter blocked_on := ltac:(derive_setter).
#[export] Instance set_capabilities : Setter capabilities := ltac:(derive_setter).
#[export] Instance set_priority : Setter priority := ltac:(derive_setter).
#[export] Instance set_inherited_priority : Setter inherited_priority := ltac:(derive_setter).
#[export] Instance set_last_scheduled_ms : Setter last_scheduled_ms := ltac:(derive_setter).
#[export] Instance set_stats : Setter stats := ltac:(derive_setter).
#[export] Instance set_name : Setter name := ltac:(derive_setter).

(** [XsaveArea::default_init]: x87 control word, MXCSR and XSTATE_BV. *)
Definition xsave_default_init : list Z :=
  <[512%nat := 0x07]> (<[25%nat := 0x1F]> (<[24%nat := 0x80]> (<[1%nat := 0x03]> (<[0%nat := 0x7F]> (replicate 1024 0))))).

Definition KERNEL_STACK_SIZE : Z := 8192.
Definition USER_STACK_TOP : Z := 0x7FFFFFFFF000.

(** The frame a fresh task starts from, and its size: twenty words. *)
Record InterruptFrame : Type := mkFrame {
  fr_gprs : list Z; fr_rip : Z; fr_cs : Z; fr_rflags : Z; fr_rsp : Z; fr_ss : Z;
}.
Definition new_user (entry_point user_stack_top : Z) : InterruptFrame :=
  mkFrame (replicate 15 0) entry_point 0x1B 0x202 user_stack_top 0x23.
Definition FRAME_SIZE : Z := 160.

(** [Task::new]: [stack_base] is the address the kernel heap gave for the
    task's stack, [now] the uptime.  The frame itself is written at
    [kernel_stack_ptr]. *)
Definition new (id page_table_ptr entry_point stack_base now : Z) : Task :=
  mkTask id Runnable page_table_ptr 0
    (Some stack_base) (Some (stack_base + KERNEL_STACK_SIZE - FRAME_SIZE))
    (mkContext USER_STACK_TOP USER_STACK_TOP 0 0 0 0 0 0 0 0 0 0 0 0 0 0 entry_point 0x202 0x23 0x1B)
    (mkContext 0 0 0 0 0 0 0 0 0 0 0 0 0 0 0 0 0 0x202 0x08 0x10)
    (Queue.init_at_ptr (Queue.mkQueue [] 0)) None None
    [] (mkCredentials 0 0 Untrusted)
    PRIORITY_NORMAL PRIORITY_NORMAL 0 None 0 0
    128 false
    (mkTaskStatistics 0 0 0 now 0 0 0 0 0 0 0 0 0 0 0 0)
    false (replicate 16 0) xsave_default_init.

(** [set_name]: at most 15 bytes, then a terminator. *)
Definition set_name_bytes (bytes : list Z) (t : Task) : Task :=
  let len := Nat.min (length bytes) 15 in
  t <| name := <[len := 0]> (take len bytes ++ drop len (name t)) |>.

End Task.

Section task.
Import Task.

(** A task name is stored truncated to 15 bytes and always followed by a
    terminator inside its 16-byte field, so reading up to the first zero gives
    back the name when it has no zero byte. *)
Theorem set_name_terminated (bytes : list Z) (t : Task) :
  length (name t) = 16%nat ->
  let n := name (set_name_bytes bytes t) in
  length n = 16%nat /\ take (Nat.min (length bytes) 15) n = take 15 bytes /\
  n !! Nat.min (length bytes) 15 = Some 0.
Proof.
  intros Hn n. subst n. unfold set_name_bytes. cbn.
  set (len := Nat.min (length bytes) 15).
  assert (length (take len bytes) = len) as Hlen by (rewrite length_take; lia).
  assert (length (take len bytes ++ drop len (name t)) = 16)%nat as Hall
    by (rewrite length_app, Hlen, length_drop; lia).
  split_and!.
  - by rewrite length_insert.
  - rewrite take_insert_ge by lia. rewrite take_app_length' by done.
    subst len. destruct (Nat.le_gt_cases (length bytes) 15).
    + rewrite !take_ge by lia. done.
    + by rewrite Nat.min_r by lia.
  - apply list_lookup_insert_eq. lia.
Qed.

Lemma set_name_terminated_witness :
  let t := new 3 0 0x400000 0x8000 0 in
  let n := name (set_name_bytes [115; 104; 101; 108; 108] t) in
  length n = 16%nat /\ take 5 n = [115; 104; 101; 108; 108] /\ n !! 5%nat = Some 0.
Proof. apply (set_name_terminated [115; 104; 101; 108; 108]). reflexivity. Defined.
End task.
