(* ===== verification/Kernel.v ===== *)
(** * The kernel's statics

    One record holds the global state the components share: the task table
    and the current-task cell of [kernel/src/task/task.rs], the counters of
    [kernel/src/task/statistics.rs], the capability table, the scheduler, the
    message counter, the uptime, the bridge, the physical memory manager, the
    page tables, the shared-memory table and the TCP slots; with the accessors
    of the task table and the statistics recorders. *)

From S2P Require Import Prelude Message CapTypes Buddy Pmm Bridge Task.
Import Cap Task.
#[local] Open Scope kernel_scope.

(** ** Statics of the components *)

(** [SystemStatistics] *)
Record SystemStatistics : Type := mkSystemStatistics {
  total_context_switches : Z;
  total_syscalls : Z;
  total_ipc_messages : Z;
  total_page_faults : Z;
  scheduler_invocations : Z;
}.

#[export] Instance eta_SystemStatistics : Eta SystemStatistics := fun r =>
  mkSystemStatistics (total_context_switches r) (total_syscalls r) (total_ipc_messages r)
    (total_page_faults r) (scheduler_invocations r).
#[export] Instance set_total_context_switches : Setter total_context_switches := ltac:(derive_setter).
#[export] Instance set_total_syscalls : Setter total_syscalls := ltac:(derive_setter).
#[export] Instance set_total_ipc_messages : Setter total_ipc_messages := ltac:(derive_setter).
#[export] Instance set_total_page_faults : Setter total_page_faults := ltac:(derive_setter).
#[export] Instance set_scheduler_invocations : Setter scheduler_invocations := ltac:(derive_setter).

Definition zero_system_stats : SystemStatistics := mkSystemStatistics 0 0 0 0 0.

(** [EnhancedScheduler] *)
Record EnhancedScheduler : Type := mkScheduler {
  tasks : list TaskId;
  last_hint_check : Z;
  hint_check_interval : Z;
  current_cpu_boost : bool;
  current_workload : Bridge.IntentType;
  aging_interval_ms : Z;
  last_aging_ms : Z;
}.

#[export] Instance eta_EnhancedScheduler : Eta EnhancedScheduler := fun r =>
  mkScheduler (tasks r) (last_hint_check r) (hint_check_interval r) (current_cpu_boost r)
    (current_workload r) (aging_interval_ms r) (last_aging_ms r).
#[export] Instance set_tasks : Setter tasks := ltac:(derive_setter).
#[export] Instance set_last_hint_check : Setter last_hint_check := ltac:(derive_setter).
#[export] Instance set_current_cpu_boost : Setter current_cpu_boost := ltac:(derive_setter).
#[export] Instance set_current_workload : Setter current_workload := ltac:(derive_setter).
#[export] Instance set_last_aging_ms : Setter last_aging_ms := ltac:(derive_setter).

(** [EnhancedScheduler::new] *)
Definition new_scheduler : EnhancedScheduler := mkScheduler [] 0 10 false Bridge.Idle 100 0.

Definition MAX_CAPABILITIES : Z := 4096.

(** [CapabilityTable]: the occupied slots of the fixed array. *)
Record CapabilityTable : Type := mkCapTable {
  entries : gmap Z CapabilityEntry;
  next_id : Z;
}.

#[export] Instance eta_CapabilityTable : Eta CapabilityTable := fun r =>
  mkCapTable (entries r) (next_id r).
#[export] Instance set_entries : Setter entries := ltac:(derive_setter).
#[export] Instance set_next_id : Setter next_id := ltac:(derive_setter).

(** [CapabilityTable::new] *)
Definition new_cap_table : CapabilityTable := mkCapTable ∅ 1.

Inductive ShmemPerms : Type :=
| ReadOnly
| WriteOnly
| ReadWrite.

(** [SharedMemory] *)
Record SharedMemory : Type := mkShmem {
  shm_id : Z;
  phys_pages : list Z;
  block_order : Z;
  shm_size : Z;
  perms : ShmemPerms;
  shm_tasks : list TaskId;
  mappings : list (TaskId * Z);
}.

#[export] Instance eta_SharedMemory : Eta SharedMemory := fun r =>
  mkShmem (shm_id r) (phys_pages r) (block_order r) (shm_size r) (perms r) (shm_tasks r)
    (mappings r).
#[export] Instance set_shm_tasks : Setter shm_tasks := ltac:(derive_setter).
#[export] Instance set_mappings : Setter mappings := ltac:(derive_setter).

Inductive SlotState : Type :=
| SlotFree
| SlotConnecting
| SlotConnected.

(** [AsyncSlot] of [net/tcp_async.rs] *)
Record AsyncSlot : Type := mkSlot {
  slot_state : SlotState;
  handle : option Z;
  slot_owner : Z;
  connecting_since_ms : Z;
}.

#[export] Instance eta_AsyncSlot : Eta AsyncSlot := fun r =>
  mkSlot (slot_state r) (handle r) (slot_owner r) (connecting_since_ms r).
#[export] Instance set_slot_state : Setter slot_state := ltac:(derive_setter).
#[export] Instance set_handle : Setter handle := ltac:(derive_setter).
#[export] Instance set_slot_owner : Setter slot_owner := ltac:(derive_setter).

(** What a frequency controller was asked for, in order. *)
Inductive FreqRequest : Type :=
| FreqCustom (mhz : Z)
| FreqBase.

(** [NET_STATE]: locked by someone else, not yet set up, or available. *)
Inductive NetState : Type :=
| NetBusy
| NetDown
| NetUp.

(** ** The kernel *)

(** [context_current] and [xsave_current] are the tasks whose context and
    XSAVE areas the two CPU pointers point into, 0 for none; [pt_mem] the
    words of the page-table frames; [closed_sockets] the handles given back
    to the network stack and [freed_stacks] the kernel stacks given back to
    the heap, most recent first. *)
Record Kernel : Type := mkKernel {
  task_table : gmap TaskId Task;
  current_task_id : TaskId;
  next_task_id : Z;
  system_stats : SystemStatistics;
  cap_table : CapabilityTable;
  scheduler : EnhancedScheduler;
  ticks_remaining : Z;
  next_msg_id : Z;
  uptime : Z;
  bridge_page : Bridge.BrainBridge;
  bridge_reader : Bridge.Reader;
  cpu_freq_log : list FreqRequest;
  cr3 : Z;
  kernel_pml4 : Z;
  xsave_current : TaskId;
  context_current : TaskId;
  pmm : Pmm.State;
  pt_mem : gmap Z Z;
  shmem_table : gmap Z SharedMemory;
  next_shmem_id : Z;
  tcp_slots : list AsyncSlot;
  net_state : NetState;
  closed_sockets : list Z;
  freed_stacks : list Z;
}.

#[export] Instance eta_Kernel : Eta Kernel := fun r =>
  mkKernel (task_table r) (current_task_id r) (next_task_id r) (system_stats r) (cap_table r)
    (scheduler r) (ticks_remaining r) (next_msg_id r) (uptime r) (bridge_page r) (bridge_reader
    r) (cpu_freq_log r) (cr3 r) (kernel_pml4 r) (xsave_current r) (context_current r) (pmm r)
    (pt_mem r) (shmem_table r) (next_shmem_id r) (tcp_slots r) (net_state r) (closed_sockets r)
    (freed_stacks r).
#[export] Instance set_task_table : Setter task_table := ltac:(derive_setter).
#[export] Instance set_current_task_id : Setter current_task_id := ltac:(derive_setter).
#[export] Instance set_next_task_id : Setter next_task_id := ltac:(derive_setter).
#[export] Instance set_system_stats : Setter system_stats := ltac:(derive_setter).
#[export] Instance set_cap_table : Setter cap_table := ltac:(derive_setter).
#[export] Instance set_scheduler : Setter scheduler := ltac:(derive_setter).
#[export] Instance set_ticks_remaining : Setter ticks_remaining := ltac:(derive_setter).
#[export] Instance set_next_msg_id : Setter next_msg_id := ltac:(derive_setter).
#[export] Instance set_uptime : Setter uptime := ltac:(derive_setter).
#[export] Instance set_bridge_page : Setter bridge_page := ltac:(derive_setter).
#[export] Instance set_bridge_reader : Setter bridge_reader := ltac:(derive_setter).
#[export] Instance set_cpu_freq_log : Setter cpu_freq_log := ltac:(derive_setter).
#[export] Instance set_cr3 : Setter cr3 := ltac:(derive_setter).
#[export] Instance set_kernel_pml4 : Setter kernel_pml4 := ltac:(derive_setter).
#[export] Instance set_xsave_current : Setter xsave_current := ltac:(derive_setter).
#[export] Instance set_context_current : Setter context_current := ltac:(derive_setter).
#[export] Instance set_pmm : Setter pmm := ltac:(derive_setter).
#[export] Instance set_pt_mem : Setter pt_mem := ltac:(derive_setter).
#[export] Instance set_shmem_table : Setter shmem_table := ltac:(derive_setter).
#[export] Instance set_next_shmem_id : Setter next_shmem_id := ltac:(derive_setter).
#[export] Instance set_tcp_slots : Setter tcp_slots := ltac:(derive_setter).
#[export] Instance set_net_state : Setter net_state := ltac:(derive_setter).
#[export] Instance set_closed_sockets : Setter closed_sockets := ltac:(derive_setter).
#[export] Instance set_freed_stacks : Setter freed_stacks := ltac:(derive_setter).

Abbreviation K := (M Kernel).

(** ** The task table *)

Definition get_task (k : Kernel) (tid : TaskId) : option Task := task_table k !! tid.

(** Lock a task and change it in place; nothing happens when it is gone. *)
Definition update_task (tid : TaskId) (f : Task -> Task) (k : Kernel) : Kernel :=
  k <| task_table := alter f tid (task_table k) |>.

Definition insert_task (t : Task) (k : Kernel) : Kernel :=
  k <| task_table := <[id t := t]> (task_table k) |>.

Definition remove_task (tid : TaskId) (k : Kernel) : Kernel :=
  k <| task_table := delete tid (task_table k) |>.

Definition get_current_task (k : Kernel) : TaskId := current_task_id k.

(** [current_task()]: panics when the current task is not in the table. *)
Definition current_task {E} : K E Task := fun k =>
  match get_task k (current_task_id k) with
  | Some t => (k, Ok t)
  | None => (k, Panic)
  end.

Definition set_current_task (tid : TaskId) (k : Kernel) : Kernel := k <| current_task_id := tid |>.

Definition allocate_task_id (k : Kernel) : Kernel * TaskId :=
  (k <| next_task_id := u32 (next_task_id k + 1) |>, next_task_id k).

(** [BTreeMap] iteration: keys in ascending order. *)
Definition task_ids (k : Kernel) : list TaskId := merge_sort Z.le (elements (dom (task_table k))).

(** [next_message_id] of [kernel/src/ipc/mod.rs] *)
Definition next_message_id {E} : K E Z := fun k =>
  (k <| next_msg_id := u64 (next_msg_id k + 1) |>, Ok (next_msg_id k)).

(** [timer::tick] *)
Definition timer_tick (k : Kernel) : Kernel := k <| uptime := u64 (uptime k + 10) |>.

(** ** Statistics *)

(** Bump one counter of one task. *)
Definition bump (f : TaskStatistics -> Z) `{!Setter f} (tid : TaskId) (k : Kernel) : Kernel :=
  update_task tid (fun t => t <| stats := (stats t) <| f := u64 (f (stats t) + 1) |> |>) k.

Definition bump_system (f : SystemStatistics -> Z) `{!Setter f} (k : Kernel) : Kernel :=
  k <| system_stats := (system_stats k) <| f := u64 (f (system_stats k) + 1) |> |>.

Definition record_context_switch (tid : TaskId) (k : Kernel) : Kernel :=
  bump_system total_context_switches (bump context_switches tid k).
Definition record_syscall (tid : TaskId) (k : Kernel) : Kernel :=
  bump_system total_syscalls (bump syscalls tid k).
Definition record_ipc_sent (tid : TaskId) (k : Kernel) : Kernel :=
  bump_system total_ipc_messages (bump ipc_sent tid k).
Definition record_ipc_received (tid : TaskId) : Kernel -> Kernel := bump ipc_received tid.
Definition record_ipc_replied (tid : TaskId) : Kernel -> Kernel := bump ipc_replied tid.
Definition record_ipc_block (tid : TaskId) : Kernel -> Kernel := bump ipc_blocks tid.
Definition record_page_fault (tid : TaskId) (k : Kernel) : Kernel :=
  bump_system total_page_faults (bump page_faults tid k).
Definition record_deadline_miss (tid : TaskId) : Kernel -> Kernel := bump deadline_misses tid.
Definition record_priority_boost (tid : TaskId) : Kernel -> Kernel := bump priority_boosts tid.
Definition record_voluntary_yield (tid : TaskId) : Kernel -> Kernel := bump voluntary_yields tid.
Definition record_preemption (tid : TaskId) : Kernel -> Kernel := bump preemptions tid.
Definition record_scheduler_invocation : Kernel -> Kernel := bump_system scheduler_invocations.

Definition get_task_stats (k : Kernel) (tid : TaskId) : option TaskStatistics := stats <$> get_task k tid.
Definition get_system_stats (k : Kernel) : SystemStatistics := system_stats k.
Definition get_all_task_stats (k : Kernel) : list (TaskId * TaskStatistics) :=
  omap (fun tid => (fun t => (tid, stats t)) <$> get_task k tid) (task_ids k).

(** The statics at their initial values, before any subsystem is set up. *)
Definition static_kernel (hhdm : Z) : Kernel :=
  mkKernel ∅ 0 1 zero_system_stats new_cap_table new_scheduler 5 1 0
    Bridge.new Bridge.reader_reset [] 0 0 0 0
    (Pmm.mkPmm (Buddy.new hhdm) None 0 0) ∅ ∅ 1
    (replicate 4 (mkSlot SlotFree None 0 0)) NetDown [] [].

(** ** Locality of the accessors *)

Lemma get_update_eq k tid f : get_task (update_task tid f k) tid = f <$> get_task k tid.
Proof. apply lookup_alter_eq. Qed.

Lemma get_update_ne k tid tid' f : tid' <> tid -> get_task (update_task tid f k) tid' = get_task k tid'.
Proof. intros. apply lookup_alter_ne. congruence. Qed.

Lemma get_update k tid tid' f :
  get_task (update_task tid f k) tid' =
  if decide (tid' = tid) then f <$> get_task k tid' else get_task k tid'.
Proof. case_decide; subst; [apply get_update_eq|by apply get_update_ne]. Qed.

(** Updating one task again: the two functions compose. *)
Lemma get_update_Some k tid tid' f t :
  get_task (update_task tid f k) tid' = Some t ->
  exists t0, get_task k tid' = Some t0 /\ t = if decide (tid' = tid) then f t0 else t0.
Proof.
  rewrite get_update. case_decide; [|by eexists].
  destruct (get_task k tid') as [t0|]; [|done]. intros [= <-]. by exists t0.
Qed.

Lemma dom_update k tid f : dom (task_table (update_task tid f k)) = dom (task_table k).
Proof. cbn. apply dom_alter_L. Qed.

Lemma elem_task_ids k tid : tid ∈ task_ids k <-> is_Some (get_task k tid).
Proof.
  unfold task_ids, get_task. rewrite (merge_sort_Permutation Z.le), elem_of_elements. apply elem_of_dom.
Qed.
