(* ===== verification/Capability.v ===== *)
(** * The capability table

    Models [kernel/src/capability/mod.rs]: the global table, granting,
    checking, revoking and transferring capabilities. *)

From S2P Require Import Prelude Message CapTypes Buddy Pmm Task Kernel.
Import Cap Task.
#[local] Open Scope kernel_scope.

Module Capability.

(** ** The table *)

(** The slot scan of [allocate]: the first free index from [i] on. *)
Fixpoint first_free (fuel : nat) (i : Z) (e : gmap Z CapabilityEntry) : option Z :=
  match fuel with
  | O => None
  | S fuel => match e !! i with
              | None => Some i
              | Some _ => first_free fuel (i + 1) e
              end
  end.

Definition allocate (tb : CapabilityTable) (entry : CapabilityEntry) :
    CapabilityTable * (CapabilityId + CapError) :=
  let id := next_id tb in
  if MAX_CAPABILITIES <=? id then (tb, inr TableFull)
  else
    match entries tb !! id with
    | Some _ =>
        match first_free 4095 1 (entries tb) with
        | Some i => (mkCapTable (<[i := entry]> (entries tb)) (u32 (i + 1)), inl i)
        | None => (tb, inr TableFull)
        end
    | None => (mkCapTable (<[id := entry]> (entries tb)) (u32 (id + 1)), inl id)
    end.

Definition table_get (tb : CapabilityTable) (id : CapabilityId) : option CapabilityEntry :=
  if MAX_CAPABILITIES <=? id then None else entries tb !! id.

Definition table_revoke (tb : CapabilityTable) (id : CapabilityId) : CapabilityTable * (unit + CapError) :=
  if MAX_CAPABILITIES <=? id then (tb, inr InvalidId)
  else
    match entries tb !! id with
    | Some _ => (mkCapTable (delete id (entries tb)) (next_id tb), inl tt)
    | None => (tb, inr NotFound)
    end.

(** ** Granting and checking *)

Definition grant (task_id : TaskId) (cap_type : CapabilityType) : K CapError CapabilityId := fun k =>
  let (tb, r) := allocate (cap_table k) (new_entry cap_type task_id) in
  match r with
  | inr e => (k <| cap_table := tb |>, Err e)
  | inl id =>
      (update_task task_id (fun t => t <| capabilities := capabilities t ++ [id] |>)
         (k <| cap_table := tb |>), Ok id)
  end.

Definition has_capability (k : Kernel) (task_id : TaskId) (required : CapabilityType) : bool :=
  match get_task k task_id with
  | None => false
  | Some t =>
      existsb (fun cap_id =>
        match table_get (cap_table k) cap_id with
        | Some e => valid e && grants (cap_type e) required
        | None => false
        end) (capabilities t)
  end.

Definition has_ipc_send (k : Kernel) (task_id target_id : TaskId) : bool :=
  if task_id =? 0 then true else has_capability k task_id (IpcSend target_id).

Definition grant_ipc_send (task_id target_id : TaskId) := grant task_id (IpcSend target_id).
Definition grant_ipc_send_any (task_id : TaskId) := grant task_id IpcSendAny.
Definition grant_all (task_id : TaskId) := grant task_id All.
Definition grant_framebuffer (task_id phys_base size : Z) := grant task_id (Framebuffer phys_base size).
Definition has_framebuffer_access (k : Kernel) (task_id phys_addr size : Z) : bool :=
  has_capability k task_id (Framebuffer phys_addr size).
Definition grant_dma_region (task_id phys_base size : Z) := grant task_id (DmaRegion phys_base size).
Definition has_dma_access (k : Kernel) (task_id phys_addr size : Z) : bool :=
  has_capability k task_id (DmaRegion phys_addr size).
Definition grant_mmio_region (task_id phys_base size : Z) := grant task_id (MmioRegion phys_base size).
Definition has_mmio_access (k : Kernel) (task_id phys_addr size : Z) : bool :=
  has_capability k task_id (MmioRegion phys_addr size).
Definition grant_io_port (task_id base size : Z) := grant task_id (IoPort base size).
Definition has_io_port_access (k : Kernel) (task_id base size : Z) : bool :=
  has_capability k task_id (IoPort base size).
Definition grant_driver_privilege (task_id : TaskId) := grant task_id DriverPrivilege.
Definition has_driver_privilege (k : Kernel) (task_id : TaskId) : bool := has_capability k task_id DriverPrivilege.
Definition grant_raw_block_io (task_id : TaskId) := grant task_id RawBlockIO.
Definition has_raw_block_io (k : Kernel) (task_id : TaskId) : bool := has_capability k task_id RawBlockIO.

(** ** Revoking *)

Definition revoke (cap_id : CapabilityId) : K CapError unit := fun k =>
  let (tb, r) := table_revoke (cap_table k) cap_id in
  (k <| cap_table := tb |>, match r with inl _ => Ok tt | inr e => Err e end).

(** Run an operation of the memory manager; it never returns an error. *)
Definition with_pmm {E A} (m : Pmm.P A) : K E A := fun k =>
  let (p', r) := m (pmm k) in
  (k <| pmm := p' |>, match r with Ok a => Ok a | Err e => match e with end | Panic => Panic end).

(** [revoke_with_cleanup]: the pages behind a DMA capability go back to the
    allocator, at the order [alloc_contiguous] used. *)
Definition revoke_with_cleanup (cap_id : CapabilityId) : K CapError unit := fun k =>
  match cap_type <$> table_get (cap_table k) cap_id with
  | Some (DmaRegion phys_base size) =>
      let num_pages := u64 (size + 4095) / 4096 in
      (with_pmm (Pmm.free_pages phys_base (Pmm.contiguous_order 10 0 num_pages)) ;;;
       revoke cap_id) k
  | _ => revoke cap_id k
  end.

(** ** Transferring *)

Definition is_non_transferable (c : CapabilityType) : bool :=
  match c with
  | DmaRegion _ _ | MmioRegion _ _ | IoPort _ _ | Framebuffer _ _ | DriverPrivilege | RawBlockIO => true
  | _ => false
  end.

(** [TransferableCap]: only [check] makes one. *)
Inductive TransferableCap : Type := mkTransferableCap (cap_id : CapabilityId).
Definition cap_id_of (c : TransferableCap) : CapabilityId := let '(mkTransferableCap i) := c in i.

Definition check (k : Kernel) (cap_id : CapabilityId) : option TransferableCap :=
  match table_get (cap_table k) cap_id with
  | None => None
  | Some e => if is_non_transferable (cap_type e) then None else Some (mkTransferableCap cap_id)
  end.

Definition transfer (from_task to_task : TaskId) (cap : TransferableCap) : K CapError CapabilityId :=
  let cap_id := cap_id_of cap in
  from <- gets (fun k => get_task k from_task) ;;
  from <- ok_or from NotFound ;;
  to <- gets (fun k => get_task k to_task) ;;
  to <- ok_or to NotFound ;;
  fail_if (negb (bool_decide (cap_id ∈ capabilities from))) PermissionDenied ;;;
  e <- gets (fun k => table_get (cap_table k) cap_id) ;;
  e <- ok_or e NotFound ;;
  fail_if (is_non_transferable (cap_type e)) NonTransferable ;;;
  grant to_task (cap_type e).

End Capability.
