(* ===== verification/CapabilityThm.v ===== *)
(** * Theorems on the capability table

    Identifiers are issued once and never again, so a task's list of held
    identifiers cannot pick up authority by itself; checks are sound for the
    denotation of capabilities; transfers create no authority and never move
    a hardware-bound capability. *)

From S2P Require Import Prelude Message CapTypes Buddy Pmm Task Kernel Capability.
Import Cap Task Capability.
#[local] Open Scope kernel_scope.

(** ** The table invariant *)

Definition table_ok (tb : CapabilityTable) : Prop :=
  1 <= next_id tb <= MAX_CAPABILITIES /\
  forall i, is_Some (entries tb !! i) -> 1 <= i < next_id tb.

Lemma table_ok_new : table_ok new_cap_table.
Proof. split; [done|]. intros i [e He]. cbn in He. by rewrite lookup_empty in He. Qed.

(** Under the invariant the slot at [next_id] is free: the scan for another
    slot never runs. *)
Lemma allocate_ok tb e :
  table_ok tb ->
  allocate tb e =
    if MAX_CAPABILITIES <=? next_id tb then (tb, inr TableFull)
    else (mkCapTable (<[next_id tb := e]> (entries tb)) (next_id tb + 1), inl (next_id tb)).
Proof.
  intros [Hn He]. unfold allocate. destruct (Z.leb_spec MAX_CAPABILITIES (next_id tb)); [done|].
  destruct (entries tb !! next_id tb) as [e'|] eqn:E.
  - specialize (He (next_id tb)). rewrite E in He. destruct He; [by eexists|lia].
  - do 2 f_equal. apply wrap_small. unfold in_width, MAX_CAPABILITIES in *. lia.
Qed.

Lemma allocate_table_ok tb e : table_ok tb -> table_ok (allocate tb e).1.
Proof.
  intros Hok. rewrite allocate_ok by done.
  destruct (Z.leb_spec MAX_CAPABILITIES (next_id tb)); [done|]. destruct Hok as [Hn He].
  split; cbn; [lia|]. intros i Hi. destruct (decide (i = next_id tb)) as [->|Hne]; [lia|].
  rewrite lookup_insert_ne in Hi by done. specialize (He i Hi). lia.
Qed.

Lemma revoke_table_ok tb id : table_ok tb -> table_ok (table_revoke tb id).1.
Proof.
  intros [Hn He]. unfold table_revoke. repeat split_match; try done. split; cbn; [done|].
  intros i Hi. apply He. destruct (decide (i = id)) as [->|Hne].
  - by rewrite lookup_delete_eq in Hi; destruct Hi.
  - by rewrite lookup_delete_ne in Hi.
Qed.

(** ** Sequences of table operations *)

Inductive table_op : Type :=
| TAlloc (e : CapabilityEntry)
| TRevoke (id : CapabilityId).

(** Run operations and collect the identifiers issued. *)
Fixpoint table_run (ops : list table_op) (tb : CapabilityTable) : CapabilityTable * list CapabilityId :=
  match ops with
  | [] => (tb, [])
  | TAlloc e :: rest =>
      let (tb', r) := allocate tb e in
      let (tb'', ids) := table_run rest tb' in
      (tb'', match r with inl id => id :: ids | inr _ => ids end)
  | TRevoke id :: rest => table_run rest (table_revoke tb id).1
  end.

Lemma table_revoke_next tb id : next_id (table_revoke tb id).1 = next_id tb.
Proof. unfold table_revoke. by repeat split_match. Qed.

Lemma table_run_spec ops tb :
  table_ok tb ->
  let (tb', ids) := table_run ops tb in
  table_ok tb' /\ StronglySorted Z.lt ids /\ Forall (fun i => next_id tb <= i < next_id tb') ids /\
  next_id tb <= next_id tb'.
Proof.
  revert tb. induction ops as [|[e|id] ops IH]; intros tb Hok; cbn [table_run].
  - split_and!; try done; constructor.
  - pose proof (allocate_table_ok tb e Hok) as Hok'. rewrite allocate_ok in * by done.
    destruct (Z.leb_spec MAX_CAPABILITIES (next_id tb)) as [Hfull|Hlt].
    { specialize (IH tb Hok). by destruct (table_run ops tb). }
    specialize (IH _ Hok'). cbn in IH. destruct (table_run ops _) as [tb' ids].
    destruct IH as (G1 & G2 & G3 & G4). split_and!; [done| |constructor; [lia|]|lia].
    + constructor; [done|]. eapply Forall_impl; [exact G3|]. cbn. intros i ?. lia.
    + eapply Forall_impl; [exact G3|]. cbn. intros i ?. lia.
  - specialize (IH _ (revoke_table_ok tb id Hok)). by rewrite table_revoke_next in IH.
Qed.

(** Whatever the order of grants and revocations, no identifier is ever
    issued twice: identifiers come out strictly increasing in [1, 4096), so an
    identifier that was revoked stays dead. *)
Theorem cap_ids_never_reused (ops : list table_op) :
  let (tb, ids) := table_run ops new_cap_table in
  StronglySorted Z.lt ids /\ Forall (fun i => 1 <= i < MAX_CAPABILITIES) ids /\ table_ok tb.
Proof.
  pose proof (table_run_spec ops new_cap_table table_ok_new) as H.
  destruct (table_run ops new_cap_table) as [tb ids]. destruct H as (Hok & Hs & Hf & _).
  split_and!; try done. eapply Forall_impl; [exact Hf|]. cbn. destruct Hok as [? _]. intros i ?. lia.
Qed.

(** Grant and at once revoke, [n] times over. *)
Fixpoint churn (n : nat) (tb : CapabilityTable) : CapabilityTable :=
  match n with
  | O => tb
  | S n =>
      let (tb1, r) := allocate tb (new_entry IpcReceive 1) in
      churn n (match r with inl id => (table_revoke tb1 id).1 | inr _ => tb1 end)
  end.

(** Revoking frees a slot but the allocator never returns to it: after
    4095 grants, each revoked before the next, the table is empty and still
    refuses every further grant. *)
Theorem revoked_slots_not_reclaimed (e : CapabilityEntry) :
  let tb := churn 4095 new_cap_table in
  entries tb = ∅ /\ allocate tb e = (tb, inr TableFull).
Proof. by vm_compute. Qed.

(** ** Held capabilities and authority *)

(** A task holds a capability when one of its identifiers names a valid entry
    of that type. *)
Definition holds (k : Kernel) (tid : TaskId) (c : CapabilityType) : Prop :=
  exists t i e, get_task k tid = Some t /\ i ∈ capabilities t /\
    table_get (cap_table k) i = Some e /\ valid e = true /\ cap_type e = c.

(** The accesses a task is authorized for. *)
Definition authority (k : Kernel) (tid : TaskId) (a : access) : Prop :=
  exists c, holds k tid c /\ allows c a.

(** Every identifier in circulation has been issued. *)
Definition caps_inv (k : Kernel) : Prop :=
  table_ok (cap_table k) /\
  forall tid t i, get_task k tid = Some t -> i ∈ capabilities t -> i < next_id (cap_table k).

Lemma has_capability_iff k tid req :
  has_capability k tid req = true <-> exists c, holds k tid c /\ grants c req = true.
Proof.
  unfold has_capability, holds. destruct (get_task k tid) as [t|]; [|naive_solver].
  rewrite existsb_exists. setoid_rewrite <- list_elem_of_In. split.
  - intros (i & Hi & Hb). destruct (table_get (cap_table k) i) as [e|] eqn:E; [|done].
    bool_prop. naive_solver.
  - intros (c & (t' & i & e & [= <-] & Hi & He & Hv & <-) & Hg). exists i. split; [done|].
    by rewrite He, Hv.
Qed.

(** an access check that succeeds is backed by authority the task really
    holds: every access the required capability stands for is one of the
    task's own. *)
Theorem has_capability_sound (k : Kernel) (tid : TaskId) (req : CapabilityType) :
  has_capability k tid req = true -> forall a, allows req a -> authority k tid a.
Proof.
  intros (c & Hc & Hg)%has_capability_iff a Ha. exists c. split; [done|].
  by eapply grants_allows.
Qed.

(** ** What each operation does to the held capabilities *)

Lemma table_get_insert tb e :
  table_ok tb -> next_id tb < MAX_CAPABILITIES -> forall i,
  table_get (mkCapTable (<[next_id tb := e]> (entries tb)) (next_id tb + 1)) i =
  if decide (i = next_id tb) then Some e else table_get tb i.
Proof.
  intros Hok Hlt i. unfold table_get; cbn. case_decide as Hi.
  - subst i. destruct (Z.leb_spec MAX_CAPABILITIES (next_id tb)); [lia|]. apply lookup_insert_eq.
  - by rewrite lookup_insert_ne.
Qed.

Lemma grant_spec tid c k :
  caps_inv k ->
  (next_id (cap_table k) = MAX_CAPABILITIES /\ grant tid c k = (k, Err TableFull)) \/
  exists k', grant tid c k = (k', Ok (next_id (cap_table k))) /\ caps_inv k' /\
    (forall tid' c', holds k' tid' c' <->
       holds k tid' c' \/ (tid' = tid /\ c' = c /\ is_Some (get_task k tid))).
Proof.
  intros [Hok Hids]. unfold grant. rewrite allocate_ok by done.
  destruct (Z.leb_spec MAX_CAPABILITIES (next_id (cap_table k))) as [Hfull|Hlt].
  - left. destruct Hok as [? _]. split; [lia|]. by destruct k.
  - right. eexists. split; [reflexivity|].
    set (f := fun t => t <| capabilities := capabilities t ++ [next_id (cap_table k)] |>).
    set (k1 := k <| cap_table := _ |>).
    assert (forall t, get_task k1 t = get_task k t) as Hk1 by done.
    split.
    + split; [apply (allocate_table_ok (cap_table k) (new_entry c tid)) in Hok as Hok'|].
      * rewrite allocate_ok in Hok' by done. destruct (Z.leb_spec MAX_CAPABILITIES (next_id (cap_table k))); [lia|].
        exact Hok'.
      * intros tid' t i (t0 & Ht0 & ->)%get_update_Some Hi. rewrite Hk1 in Ht0. cbn.
        specialize (Hids tid' t0 i Ht0). case_decide; [|specialize (Hids Hi); lia].
        cbn in Hi. apply elem_of_app in Hi as [Hi|Hi%list_elem_of_singleton]; [specialize (Hids Hi)|]; lia.
    + intros tid' c'. unfold holds. split.
      * intros (t & i & e & (t0 & Ht0 & ->)%get_update_Some & Hi & He & Hv & Hc). rewrite Hk1 in Ht0.
        cbn in He. rewrite table_get_insert in He by done.
        specialize (Hids tid' t0 i Ht0).
        assert (i ∈ capabilities t0 \/ (tid' = tid /\ i = next_id (cap_table k))) as [Hi0|[-> ->]].
        { destruct (decide (tid' = tid)); [|by left]. cbn in Hi. apply elem_of_app in Hi as [?|Hi%list_elem_of_singleton]; auto. }
        -- specialize (Hids Hi0). rewrite decide_False in He by lia. left. by exists t0, i, e.
        -- rewrite decide_True in He by done. simplify_eq. right. cbn. rewrite Ht0. eauto.
      * intros [(t & i & e & Ht & Hi & He & Hv & Hc)|(-> & -> & [t Ht])].
        -- exists (if decide (tid' = tid) then f t else t), i, e. split_and!; try done.
           ++ rewrite get_update, Hk1, Ht. by case_decide.
           ++ case_decide; [cbn; set_solver|done].
           ++ cbn. rewrite table_get_insert by done. specialize (Hids tid' t i Ht Hi).
              by rewrite decide_False by lia.
        -- exists (f t), (next_id (cap_table k)), (new_entry c tid). split_and!; try done.
           ++ by rewrite get_update, decide_True, Hk1, Ht.
           ++ cbn. set_solver.
           ++ cbn. rewrite table_get_insert by done. by rewrite decide_True.
Qed.

Lemma revoke_spec i k k' r :
  caps_inv k -> revoke i k = (k', r) ->
  caps_inv k' /\ (forall tid c, holds k' tid c -> holds k tid c).
Proof.
  intros [Hok Hids] Hrun. unfold revoke in Hrun.
  pose proof (revoke_table_ok (cap_table k) i Hok) as Hok'.
  pose proof (table_revoke_next (cap_table k) i) as Hnext.
  assert (forall j e, table_get (table_revoke (cap_table k) i).1 j = Some e -> table_get (cap_table k) j = Some e) as Hget.
  { intros j e. unfold table_revoke, table_get. repeat split_match; try done.
    cbn. intros [_ ?]%lookup_delete_Some. done. }
  destruct (table_revoke (cap_table k) i) as [tb r0]. simplify_eq. cbn in *. split.
  - split; [done|]. intros tid t j Ht Hj. cbn. rewrite Hnext. eauto.
  - intros tid c (t & j & e & Ht & Hj & He & Hv & Hc). exists t, j, e. split_and!; try done. by apply Hget.
Qed.

Lemma transfer_spec from to cap k :
  caps_inv k ->
  (exists e, transfer from to cap k = (k, Err e)) \/
  exists k' i c, transfer from to cap k = (k', Ok i) /\ caps_inv k' /\
    is_non_transferable c = false /\ (exists t e, get_task k from = Some t /\ cap_id_of cap ∈ capabilities t /\
      table_get (cap_table k) (cap_id_of cap) = Some e /\ cap_type e = c) /\
    (forall tid' c', holds k' tid' c' <-> holds k tid' c' \/ (tid' = to /\ c' = c)).
Proof.
  intros Hinv. unfold transfer, M_bind, gets, ok_or, fail_if, throw, M_ret.
  destruct (get_task k from) as [tf|] eqn:Ef; [|by left; eexists].
  destruct (get_task k to) as [tt'|] eqn:Et; [|by left; eexists].
  case_bool_decide as Hc; cbn [negb]; [|by left; eexists].
  destruct (table_get (cap_table k) (cap_id_of cap)) as [e|] eqn:Eg; [|by left; eexists].
  destruct (is_non_transferable (cap_type e)) eqn:Hn; [by left; eexists|].
  destruct (grant_spec to (cap_type e) k Hinv) as [[_ Hg]|(k' & Hg & Hinv' & Hh)]; rewrite Hg.
  - left. by eexists.
  - right. exists k', (next_id (cap_table k)), (cap_type e). split_and!; try done.
    + by exists tf, e.
    + intros tid' c'. rewrite Hh, Et. split; [naive_solver|].
      intros [?|[-> ->]]; [by left|right; eauto].
Qed.

(** ** Transfers and revocations in any order *)

(** What tasks can do to the capability state once the kernel has made its
    grants: check and transfer, or revoke; failed calls included. *)
Inductive cap_step : Kernel -> Kernel -> Prop :=
| CTransfer from to i cap k k' r :
    check k i = Some cap -> transfer from to cap k = (k', r) -> cap_step k k'
| CRevoke i k k' r : revoke i k = (k', r) -> cap_step k k'.

Lemma check_id k i cap : check k i = Some cap -> cap_id_of cap = i.
Proof. unfold check. repeat split_match; intros; by simplify_eq. Qed.

(** Entries are created valid and nothing clears the flag. *)
Definition entries_valid (k : Kernel) : Prop :=
  forall i e, table_get (cap_table k) i = Some e -> valid e = true.

Lemma grant_entries_valid tid c k k' r :
  caps_inv k -> grant tid c k = (k', r) -> entries_valid k -> entries_valid k'.
Proof.
  intros [Hok _] Hrun Hv. unfold grant in Hrun. rewrite allocate_ok in Hrun by done.
  destruct (Z.leb_spec MAX_CAPABILITIES (next_id (cap_table k))); simplify_eq.
  - by destruct k.
  - intros i e. cbn. rewrite table_get_insert by done. case_decide; [|apply Hv].
    by intros [= <-].
Qed.

Lemma transfer_entries_valid from to cap k k' r :
  caps_inv k -> transfer from to cap k = (k', r) -> entries_valid k -> entries_valid k'.
Proof.
  intros Hinv Hrun Hv. revert Hrun. unfold transfer, M_bind, gets, ok_or, fail_if, throw, M_ret.
  destruct (get_task k from); [|by intros [= <-]]. destruct (get_task k to); [|by intros [= <-]].
  destruct (negb _); [by intros [= <-]|]. destruct (table_get _ _) as [e|]; [|by intros [= <-]].
  destruct (is_non_transferable _); [by intros [= <-]|]. intros Hrun. by eapply grant_entries_valid.
Qed.

Lemma revoke_entries_valid i k k' r : revoke i k = (k', r) -> entries_valid k -> entries_valid k'.
Proof.
  unfold revoke, table_revoke, entries_valid, table_get. intros Hrun Hv j e.
  repeat split_match_in Hrun; simplify_eq; cbn; try apply Hv.
  intros He. apply (Hv j). destruct (MAX_CAPABILITIES <=? j); [done|].
  by apply lookup_delete_Some in He as [_ ?].
Qed.

Lemma cap_step_confined k k' :
  caps_inv k -> entries_valid k -> cap_step k k' ->
  caps_inv k' /\ entries_valid k' /\
  forall tid c, holds k' tid c ->
    holds k tid c \/ (is_non_transferable c = false /\ exists from, holds k from c).
Proof.
  intros Hinv Hv Hstep. revert Hinv Hv.
  destruct Hstep as [from to i cap k1 k2 r Hcheck Hrun|i k1 k2 r Hrun]; intros Hinv Hv.
  - split_and!; [| by eapply transfer_entries_valid|].
    + destruct (transfer_spec from to cap k1 Hinv) as [[e He]|(k'' & j & c & He & Hinv' & _)];
        rewrite He in Hrun; by simplify_eq.
    + destruct (transfer_spec from to cap k1 Hinv)
        as [[e He]|(k'' & j & c & He & Hinv' & Hn & (t & en & Ht & Hi & Hg & Hc) & Hh)];
        rewrite He in Hrun; simplify_eq; [by left|].
      intros tid c'. rewrite Hh. intros [?|[-> ->]]; [by left|right]. split; [done|].
      exists from, t, (cap_id_of cap), en. eauto 6.
  - destruct (revoke_spec i k1 k2 r Hinv Hrun) as [Hinv' Hh].
    split_and!; [done|by eapply revoke_entries_valid|]. intros tid c Hc. left. by apply Hh.
Qed.

(** C12: through any sequence of transfers and revocations, successful or not,
    no authority appears from nowhere (each held capability was held by some
    task at the start), and a hardware-bound capability, DMA, MMIO, I/O
    ports, framebuffer, driver privilege or raw block I/O, is only ever held
    by a task that held it at the start. *)
Theorem transfers_confine_authority (k k' : Kernel) :
  caps_inv k -> entries_valid k -> rtc cap_step k k' ->
  caps_inv k' /\
  (forall tid c, holds k' tid c -> exists tid0, holds k tid0 c) /\
  (forall tid c, is_non_transferable c = true -> holds k' tid c -> holds k tid c) /\
  (forall tid a, authority k' tid a -> exists tid0, authority k tid0 a).
Proof.
  intros Hinv Hv Hrun.
  assert (caps_inv k' /\ (forall tid c, holds k' tid c -> exists tid0, holds k tid0 c) /\
    (forall tid c, is_non_transferable c = true -> holds k' tid c -> holds k tid c)) as (G1 & G2 & G3).
  { induction Hrun as [k|k k1 k' Hstep Hrun IH]; [eauto 10|].
    destruct (cap_step_confined k k1 Hinv Hv Hstep) as (Hinv1 & Hv1 & Hh).
    destruct (IH Hinv1 Hv1) as (G1 & G2 & G3). split_and!; [done|..].
    - intros tid c Hc. destruct (G2 tid c Hc) as [tid1 Hc1].
      destruct (Hh tid1 c Hc1) as [?|(_ & from & ?)]; eauto.
    - intros tid c Hn Hc. destruct (Hh tid c (G3 tid c Hn Hc)) as [?|(Hf & _)]; [done|congruence]. }
  split_and!; try done. intros tid a (c & Hc & Ha). destruct (G2 tid c Hc) as [tid0 ?].
  exists tid0, c. done.
Qed.

(** Two tasks; the first holds a transferable and a hardware capability. *)
Definition two_tasks : Kernel :=
  insert_task (Task.new 2 0 0x400000 0x20000 0)
    (insert_task (Task.new 1 0 0x400000 0x10000 0) (static_kernel Buddy.HIGHER_HALF)).
Definition cap_demo : Kernel :=
  (grant 1 (MmioRegion 0xFEB00000 0x1000) (grant 1 (IpcSend 2) two_tasks).1).1.
Definition cap_demo_after : Kernel := (transfer 1 2 (mkTransferableCap 1) cap_demo).1.

Lemma cap_demo_get tid t :
  get_task cap_demo tid = Some t -> (tid = 1 /\ capabilities t = [1; 2]) \/ capabilities t = [].
Proof.
  unfold cap_demo. unfold get_task. intros Ht.
  apply elem_of_map_to_list in Ht. vm_compute in Ht.
  repeat (apply elem_of_cons in Ht as [[= -> ->]|Ht]; [by (left + right)|]). by apply elem_of_nil in Ht.
Qed.

Lemma cap_demo_inv : caps_inv cap_demo.
Proof.
  split.
  - split; [by vm_compute|]. intros i [e He]. apply elem_of_map_to_list in He. vm_compute in He.
    repeat (apply elem_of_cons in He as [[= -> ->]|He]; [by vm_compute|]). by apply elem_of_nil in He.
  - intros tid t i Ht Hi. change (next_id (cap_table cap_demo)) with 3.
    destruct (cap_demo_get tid t Ht) as [[_ E]|E]; rewrite E in Hi; set_unfold in Hi; lia.
Qed.

Lemma cap_demo_valid : entries_valid cap_demo.
Proof.
  intros i e. unfold table_get. case_match; [done|]. intros He.
  apply elem_of_map_to_list in He. vm_compute in He.
  repeat (apply elem_of_cons in He as [[= -> ->]|He]; [by vm_compute|]). by apply elem_of_nil in He.
Qed.

Lemma transfers_confine_authority_witness :
  (transfer 1 2 (mkTransferableCap 1) cap_demo).2 = Ok 3 /\
  has_ipc_send cap_demo_after 2 2 = true /\
  caps_inv cap_demo_after /\
  (forall tid c, holds cap_demo_after tid c -> exists tid0, holds cap_demo tid0 c) /\
  (forall tid c, is_non_transferable c = true -> holds cap_demo_after tid c -> holds cap_demo tid c) /\
  (forall tid a, authority cap_demo_after tid a -> exists tid0, authority cap_demo tid0 a).
Proof.
  split; [by vm_compute|]. split; [by vm_compute|].
  apply (transfers_confine_authority cap_demo cap_demo_after cap_demo_inv cap_demo_valid).
  eapply rtc_l; [|apply rtc_refl].
  apply (CTransfer 1 2 1 (mkTransferableCap 1) cap_demo cap_demo_after (Ok 3)); by vm_compute.
Defined.

Lemma has_capability_sound_witness :
  has_capability cap_demo 1 (MmioRegion 0xFEB00800 0x100) = true /\
  (forall a, allows (MmioRegion 0xFEB00800 0x100) a -> authority cap_demo 1 a).
Proof. split; [by vm_compute|]. apply has_capability_sound. by vm_compute. Defined.
