(* ===== verification/Scheduler.v ===== *)
(** * The scheduler

    Models [kernel/src/task/scheduler.rs] and the timer path of
    [kernel/src/task/preempt.rs]: the run queue, the selection with deadlines,
    inherited and semantic priorities, aging, the brain-bridge hints, the
    yield and the preemption handler. *)

From S2P Require Import Prelude Message Bridge Task Kernel.
Import Task.
#[local] Open Scope kernel_scope.

Module Sched.

(** [enqueue]: always appended, queued or not. *)
Definition add_task (tid : TaskId) (s : EnhancedScheduler) : EnhancedScheduler :=
  s <| tasks := tasks s ++ [tid] |>.

Definition enqueue (tid : TaskId) (k : Kernel) : Kernel :=
  k <| scheduler := add_task tid (scheduler k) |>.

(** Visit the queued tasks that exist, in queue order. *)
Definition for_queued (f : Task -> Task) (k : Kernel) : Kernel :=
  foldl (fun k tid => update_task tid f k) k (tasks (scheduler k)).

(** ** Aging *)

Definition age_task (current_time : Z) (t : Task) : Task :=
  if decide (state t = Runnable) then
    let wait_time := saturating_sub current_time (last_scheduled_ms t) in
    if ((1000 <? wait_time) && (priority t <? PRIORITY_REALTIME))%bool then
      let boost := u8 (u8 (wait_time / 1000) * 10) in
      t <| priority := Z.min (saturating_add 8 (priority t) boost) 200 |>
    else t
  else t.

Definition age_tasks (k : Kernel) : Kernel := for_queued (age_task (uptime k)) k.

(** ** Hints *)

Definition apply_brain_hint (hint : Bridge.BrainBridgeSnapshot) (k : Kernel) : Kernel :=
  match Bridge.snap_intent hint with
  | Bridge.Compiling =>
      if (180 <? Bridge.snap_confidence hint) && negb (current_cpu_boost (scheduler k)) then
        k <| cpu_freq_log := FreqCustom 3500 :: cpu_freq_log k |>
          <| scheduler := (scheduler k) <| current_cpu_boost := true |> |>
      else k
  | Bridge.Idle =>
      if current_cpu_boost (scheduler k) then
        k <| cpu_freq_log := FreqBase :: cpu_freq_log k |>
          <| scheduler := (scheduler k) <| current_cpu_boost := false |> |>
      else k
  | _ => k
  end%bool.

Definition adjust_priorities_for_workload (hint : Bridge.BrainBridgeSnapshot) (k : Kernel) : Kernel :=
  if Bridge.snap_confidence hint <? 180 then k
  else
    match Bridge.snap_intent hint with
    | Bridge.Compiling | Bridge.MLTraining =>
        for_queued (fun t => t <| priority := saturating_add 8 (base_priority t) 30 |>) k
    | Bridge.Gaming => for_queued (fun t => t <| priority := PRIORITY_HIGH |>) k
    | Bridge.Idle => for_queued (fun t => t <| priority := base_priority t |>) k
    | _ => k
    end.

Definition check_brain_hints (k : Kernel) : Kernel :=
  let (r, hint) := Bridge.read_hints (bridge_page k) (uptime k) (bridge_reader k) in
  let k := k <| bridge_reader := r |> in
  match hint with
  | None => k
  | Some hint =>
      let k := k <| scheduler := (scheduler k) <| current_workload := Bridge.snap_intent hint |> |> in
      adjust_priorities_for_workload hint (apply_brain_hint hint k)
  end.

(** ** Selection *)

(** The effective priority of a task, a [u16]; [queued] is the length of the
    run queue. *)
Definition effective_priority (queued : nat) (current_time : Z) (t : Task) : Z :=
  let p := priority t in
  let p := if priority t <? inherited_priority t then inherited_priority t else p in
  let p := Z.max (p + (semantic_priority t - 128)) 0 in
  let p := if (is_background_ai t && (2 <? queued)%nat)%bool then saturating_sub p 50 else p in
  match deadline_ms t with
  | None => p
  | Some deadline =>
      let time_to_deadline := saturating_sub deadline current_time in
      if time_to_deadline <? 10 then U16_MAX
      else if time_to_deadline <? 50 then saturating_add 16 p 100
      else if time_to_deadline <? 200 then saturating_add 16 p 50
      else p
  end.

(** The best candidate so far: id, effective priority, deadline. *)
Definition Best : Type := option TaskId * Z * Z.

(** One turn of the selection loop. *)
Definition consider (queued : nat) (current_time : Z) (tid : TaskId) (t : Task) (best : Best) : Best :=
  let '(best_task_id, best_priority, best_deadline) := best in
  if decide (state t = Runnable) then
    let effective_priority := effective_priority queued current_time t in
    let '(best_task_id, best_deadline) :=
      match deadline_ms t with
      | Some deadline =>
          if ((effective_priority =? best_priority) && (deadline <? best_deadline))%bool
          then (Some tid, deadline) else (best_task_id, best_deadline)
      | None => (best_task_id, best_deadline)
      end in
    if best_priority <? effective_priority then
      (Some tid, effective_priority,
       match deadline_ms t with Some deadline => deadline | None => best_deadline end)
    else (best_task_id, best_priority, best_deadline)
  else best.

Fixpoint select (queued : nat) (k : Kernel) (queue : list TaskId) (best : Best) : Best :=
  match queue with
  | [] => best
  | tid :: rest =>
      select queued k rest
        match get_task k tid with
        | Some t => consider queued (uptime k) tid t best
        | None => best
        end
  end.

(** Take the first occurrence out and append. *)
Fixpoint remove_first (tid : TaskId) (queue : list TaskId) : list TaskId :=
  match queue with
  | [] => []
  | x :: rest => if x =? tid then rest else x :: remove_first tid rest
  end.

Definition rotate (tid : TaskId) (queue : list TaskId) : list TaskId :=
  if bool_decide (tid ∈ queue) then remove_first tid queue ++ [tid] else queue.

(** The part of [schedule_next] before the selection. *)
Definition periodic (k : Kernel) : Kernel :=
  let k := record_scheduler_invocation k in
  let current_time := uptime k in
  let k :=
    if hint_check_interval (scheduler k) <=? u64 (current_time - last_hint_check (scheduler k)) then
      check_brain_hints (k <| scheduler := (scheduler k) <| last_hint_check := current_time |> |>)
    else k in
  if aging_interval_ms (scheduler k) <=? u64 (current_time - last_aging_ms (scheduler k)) then
    age_tasks (k <| scheduler := (scheduler k) <| last_aging_ms := current_time |> |>)
  else k.

Definition pick (k : Kernel) : option TaskId :=
  (select (length (tasks (scheduler k))) k (tasks (scheduler k)) (None, 0, U64_MAX)).1.1.

Definition schedule_next (k : Kernel) : Kernel * option TaskId :=
  let k := periodic k in
  match pick k with
  | Some selected_id =>
      let k := k <| scheduler := (scheduler k) <| tasks := rotate selected_id (tasks (scheduler k)) |> |> in
      (update_task selected_id (fun t => t <| last_scheduled_ms := uptime k |>) k, Some selected_id)
  | None => (k, None)
  end.

(** ** Yielding *)

(** How [yield_cpu] ends: back to its caller, or in another task for good. *)
Inductive YieldResult : Type :=
| Returned
| Switched (next : TaskId).

Definition switch_page_table (pml4 : Z) (k : Kernel) : Kernel := k <| cr3 := pml4 |>.

Definition yield_cpu {E} : K E YieldResult := fun k =>
  let k := record_voluntary_yield (current_task_id k) k in
  let (k, next) := schedule_next k in
  match next with
  | None => (k, Ok Returned)
  | Some next_id =>
      if current_task_id k =? next_id then
        (match get_task k next_id with
         | Some _ => k <| context_current := next_id |>
         | None => k
         end, Ok Returned)
      else
        match get_task k next_id with
        | None => (k, Panic)
        | Some target =>
            let k := if page_table_phys target =? 0 then k else switch_page_table (page_table_phys target) k in
            let k := set_current_task next_id k in
            let k := record_context_switch next_id k in
            let k := k <| xsave_current := next_id |> in
            (k <| context_current := next_id |>, Ok (Switched next_id))
        end
  end.

(** ** The timer *)

Definition TIME_SLICE_TICKS : Z := 5.

Definition timer_tick_preempt (k : Kernel) : Kernel * bool :=
  let remaining := ticks_remaining k in
  let k := k <| ticks_remaining := u64 (remaining - 1) |> in
  if remaining <=? 1 then
    (record_preemption (current_task_id k) (k <| ticks_remaining := TIME_SLICE_TICKS |>), true)
  else (k, false).

Definition reset_time_slice (k : Kernel) : Kernel := k <| ticks_remaining := TIME_SLICE_TICKS |>.

(** Which context the timer interrupt returns to: the frame it interrupted,
    or a task's saved context. *)
Inductive Resume : Type :=
| ResumeFrame
| ResumeTask (tid : TaskId).

(** [timer_preempt_handler]: [saved] holds the interrupted registers. *)
Definition timer_preempt_handler (saved : Context) (k : Kernel) : Kernel * Resume :=
  let k := timer_tick k in
  let current_id := current_task_id k in
  if current_id =? 0 then (k, ResumeFrame)
  else
    match get_task k current_id with
    | None => (k, ResumeFrame)
    | Some _ =>
        let k := update_task current_id (fun t => t <| context := saved |>) k in
        let (k, next) := schedule_next k in
        match next with
        | None => (k, ResumeTask current_id)
        | Some next_id =>
            if next_id =? current_id then (k <| xsave_current := current_id |>, ResumeTask current_id)
            else
              let k := record_preemption current_id k in
              let k := record_context_switch next_id k in
              match get_task k next_id with
              | None => (k, ResumeTask current_id)
              | Some next_task =>
                  let k := if page_table_phys next_task =? 0 then k
                           else switch_page_table (page_table_phys next_task) k in
                  let k := set_current_task next_id k in
                  let k := k <| xsave_current := next_id |> in
                  (k <| context_current := next_id |>, ResumeTask next_id)
              end
        end
    end.

End Sched.
