(* ===== verification/SchedulerThm.v ===== *)
(** * Theorems on the scheduler

    What the scheduler may touch, what it selects, fairness among equals, and
    the consistency of the CPU's task pointers across switches. *)

From S2P Require Import Prelude Message Bridge Task Kernel Scheduler.
Import Task Sched.
#[local] Open Scope kernel_scope.

(** ** Frame: what scheduling may change

    In a task: its priority, the time it was last scheduled, its statistics.
    In the kernel: the order of the run queue, the scheduler's own fields, the
    statistics, the bridge reader and the CPU's view of the current task. *)

Definition task_frame (t t' : Task) : Prop :=
  exists p l st, t' = ((t <| priority := p |>) <| last_scheduled_ms := l |>) <| stats := st |>.

Record sched_frame (k k' : Kernel) : Prop := {
  sf_queue : tasks (scheduler k') ≡ₚ tasks (scheduler k);
  sf_task tid : option_Forall2 task_frame (get_task k tid) (get_task k' tid);
  sf_uptime : uptime k' = uptime k;
  sf_caps : cap_table k' = cap_table k;
  sf_msg : next_msg_id k' = next_msg_id k;
  sf_pmm : pmm k' = pmm k;
  sf_pt : pt_mem k' = pt_mem k;
  sf_shmem : shmem_table k' = shmem_table k;
  sf_shmem_id : next_shmem_id k' = next_shmem_id k;
}.

#[export] Instance task_frame_preorder : PreOrder task_frame.
Proof.
  split.
  - intros t. exists (priority t), (last_scheduled_ms t), (stats t). by destruct t.
  - intros t1 t2 t3 (p & l & st & ->) (p' & l' & st' & ->). by exists p', l', st'.
Qed.

#[export] Instance sched_frame_preorder : PreOrder sched_frame.
Proof.
  split.
  - intros k. by split.
  - intros k1 k2 k3 [] []. split; try congruence.
    + etransitivity; eauto.
    + intros tid. specialize (sf_task0 tid). specialize (sf_task1 tid).
      destruct sf_task0; inversion sf_task1; constructor. etransitivity; eauto.
Qed.

Lemma task_frame_fields t t' :
  task_frame t t' ->
  id t' = id t /\ state t' = state t /\ recv_queue t' = recv_queue t /\ blocked_on t' = blocked_on t /\
  capabilities t' = capabilities t /\ ipc_reply t' = ipc_reply t /\ context t' = context t /\
  page_table_phys t' = page_table_phys t.
Proof. by intros (p & l & st & ->). Qed.

Lemma sched_frame_get k k' tid t' :
  sched_frame k k' -> get_task k' tid = Some t' -> exists t, get_task k tid = Some t /\ task_frame t t'.
Proof. intros [_ Ht _ _ _ _ _ _ _] H. specialize (Ht tid). rewrite H in Ht. inversion Ht. eauto. Qed.

Lemma sched_frame_get' k k' tid t :
  sched_frame k k' -> get_task k tid = Some t -> exists t', get_task k' tid = Some t' /\ task_frame t t'.
Proof. intros [_ Ht _ _ _ _ _ _ _] H. specialize (Ht tid). rewrite H in Ht. inversion Ht. eauto. Qed.

(** The building blocks. *)
Lemma frame_update tid f k : (forall t, task_frame t (f t)) -> sched_frame k (update_task tid f k).
Proof.
  intros Hf. split; try done. intros tid'. rewrite get_update.
  destruct (get_task k tid'); case_decide; constructor; [apply Hf|reflexivity].
Qed.

Lemma frame_foldl f l k :
  (forall t, task_frame t (f t)) -> sched_frame k (foldl (fun k tid => update_task tid f k) k l).
Proof.
  intros Hf. revert k. induction l as [|tid l IH]; intros k; cbn; [reflexivity|].
  etransitivity; [by apply frame_update|apply IH].
Qed.

(** A change of the kernel outside the queue, the tasks and the statics that
    scheduling leaves alone. *)
Lemma frame_other k k' :
  tasks (scheduler k') ≡ₚ tasks (scheduler k) -> task_table k' = task_table k -> uptime k' = uptime k ->
  cap_table k' = cap_table k -> next_msg_id k' = next_msg_id k -> pmm k' = pmm k -> pt_mem k' = pt_mem k ->
  shmem_table k' = shmem_table k -> next_shmem_id k' = next_shmem_id k -> sched_frame k k'.
Proof.
  intros Hq Ht **. split; try done. intros tid. unfold get_task. rewrite Ht.
  destruct (task_table k !! tid); constructor; reflexivity.
Qed.

Lemma frame_priority t v : task_frame t (t <| priority := v |>).
Proof. exists v, (last_scheduled_ms t), (stats t). by destruct t. Qed.

Lemma frame_scheduled t v : task_frame t (t <| last_scheduled_ms := v |>).
Proof. exists (priority t), v, (stats t). by destruct t. Qed.

Lemma frame_bump (f : TaskStatistics -> Z) `{!Setter f} tid k : sched_frame k (bump f tid k).
Proof. apply frame_update. intros t. eexists (priority t), (last_scheduled_ms t), _. by destruct t. Qed.

Lemma frame_bump_system (f : SystemStatistics -> Z) `{!Setter f} k : sched_frame k (bump_system f k).
Proof. by apply frame_other. Qed.

Lemma frame_context_switch tid k : sched_frame k (record_context_switch tid k).
Proof. etransitivity; [apply (frame_bump context_switches)|apply (frame_bump_system total_context_switches)]. Qed.

Lemma age_task_frame now t : task_frame t (age_task now t).
Proof. unfold age_task. repeat case_match; try reflexivity. apply frame_priority. Qed.

Lemma for_queued_frame f k : (forall t, task_frame t (f t)) -> sched_frame k (for_queued f k).
Proof. intros. by apply frame_foldl. Qed.

Lemma adjust_frame h k : sched_frame k (adjust_priorities_for_workload h k).
Proof.
  unfold adjust_priorities_for_workload.
  repeat case_match; try reflexivity; apply for_queued_frame; intros t; apply frame_priority.
Qed.

Lemma apply_brain_hint_frame h k : sched_frame k (apply_brain_hint h k).
Proof. unfold apply_brain_hint. repeat case_match; try reflexivity; by apply frame_other. Qed.

Lemma check_brain_hints_frame k : sched_frame k (check_brain_hints k).
Proof.
  unfold check_brain_hints. destruct (Bridge.read_hints _ _ _) as [r [h|]]; [|by apply frame_other].
  etransitivity; [|apply adjust_frame]. etransitivity; [|apply apply_brain_hint_frame].
  by apply frame_other.
Qed.

Lemma periodic_frame k : sched_frame k (periodic k).
Proof.
  unfold periodic. set (k0 := record_scheduler_invocation k).
  assert (sched_frame k k0) as H0 by apply (frame_bump_system scheduler_invocations).
  set (k1 := if _ <=? u64 (uptime k0 - last_hint_check (scheduler k0)) then _ else k0).
  assert (sched_frame k0 k1) as H1.
  { unfold k1. case_match; [|reflexivity].
    etransitivity; [|apply check_brain_hints_frame]. by apply frame_other. }
  etransitivity; [exact H0|]. etransitivity; [exact H1|].
  case_match; [|reflexivity]. etransitivity; [|apply for_queued_frame, age_task_frame].
  by apply frame_other.
Qed.

(** ** The run queue is kept *)

Lemma remove_first_perm tid q : tid ∈ q -> q ≡ₚ tid :: remove_first tid q.
Proof.
  induction q as [|x q IH]; [set_solver|]. intros Hin. cbn.
  destruct (Z.eqb_spec x tid) as [->|Hne]; [done|].
  apply elem_of_cons in Hin as [->|Hin]; [done|]. rewrite (IH Hin) at 1. apply Permutation_swap.
Qed.

Lemma rotate_perm tid q : rotate tid q ≡ₚ q.
Proof.
  unfold rotate. case_bool_decide as H; [|done].
  rewrite (remove_first_perm tid q H) at 2. by rewrite Permutation_app_comm.
Qed.

Lemma schedule_next_frame k : sched_frame k (schedule_next k).1.
Proof.
  unfold schedule_next. etransitivity; [apply periodic_frame|].
  set (k1 := periodic k). destruct (pick k1) as [tid|]; [|reflexivity]. cbn [fst].
  etransitivity; [|apply frame_update; intros t; apply frame_scheduled].
  apply frame_other; try done. apply rotate_perm.
Qed.

(** ** Selection *)

(** The candidates and their effective priority. *)
Definition candidate (k : Kernel) (tid : TaskId) (t : Task) : Prop :=
  get_task k tid = Some t /\ state t = Runnable.

Definition eff (k : Kernel) (t : Task) : Z :=
  effective_priority (length (tasks (scheduler k))) (uptime k) t.

Lemma effective_priority_nonneg n now t : 0 <= effective_priority n now t.
Proof. unfold effective_priority, saturating_sub, saturating_add, U16_MAX. repeat case_match; lia. Qed.

(** After the tasks [seen]: the best is one of them and no other beats it. *)
Definition best_ok (k : Kernel) (seen : list TaskId) (b : Best) : Prop :=
  let '(o, p, _) := b in
  0 <= p /\
  (forall tid t, tid ∈ seen -> candidate k tid t -> eff k t <= p) /\
  match o with
  | Some tid => tid ∈ seen /\ exists t, candidate k tid t /\ eff k t = p
  | None => p = 0
  end.

Lemma consider_ok k seen tid t b :
  get_task k tid = Some t -> best_ok k seen b ->
  best_ok k (seen ++ [tid]) (consider (length (tasks (scheduler k))) (uptime k) tid t b).
Proof.
  destruct b as [[o p] d]. intros Ht (Hp & Hall & Ho). unfold consider.
  assert (forall q, p <= q -> (state t = Runnable -> eff k t <= q) -> forall tid' t', tid' ∈ seen ++ [tid] ->
    candidate k tid' t' -> eff k t' <= q) as Hle.
  { intros q Hpq Hq tid' t' [Hin| ->%list_elem_of_singleton]%elem_of_app [Hg Hs].
    - specialize (Hall tid' t' Hin (conj Hg Hs)). lia.
    - rewrite Ht in Hg. injection Hg as <-. auto. }
  assert (match o with Some tid' => tid' ∈ seen ++ [tid] /\ exists t', candidate k tid' t' /\ eff k t' = p
    | None => p = 0 end) as Ho'.
  { destruct o; [|done]. destruct Ho as [? ?]. split; [set_solver|done]. }
  destruct (decide (state t = Runnable)) as [Hs|Hs].
  2: { split_and!; [done| |done]. apply Hle; [lia|done]. }
  fold (eff k t). pose proof (effective_priority_nonneg (length (tasks (scheduler k))) (uptime k) t) as Hnn.
  fold (eff k t) in Hnn.
  assert (tid ∈ seen ++ [tid] /\ exists t', candidate k tid t' /\ eff k t' = eff k t) as Hme.
  { split; [set_solver|]. by exists t. }
  destruct (deadline_ms t) as [dl|]; [destruct (Z.eqb_spec (eff k t) p) as [Heq|Hne]; [destruct (dl <? d)|]|];
    cbn [andb]; destruct (Z.ltb_spec p (eff k t)); split_and!; try done; try lia;
    try (apply Hle; [lia|intros; lia]); destruct Hme as [Hme1 (t' & Hc & He)]; try done;
    exists t'; (split; [done|lia]).
Qed.

Lemma select_ok k queue seen b :
  best_ok k seen b -> best_ok k (seen ++ queue) (select (length (tasks (scheduler k))) k queue b).
Proof.
  revert seen b. induction queue as [|tid queue IH]; intros seen b Hb; cbn [select]; [by rewrite app_nil_r|].
  replace (seen ++ tid :: queue) with ((seen ++ [tid]) ++ queue) by (by rewrite <- app_assoc).
  apply IH. destruct (get_task k tid) as [t|] eqn:Ht; [by apply consider_ok|].
  destruct b as [[o p] d]. destruct Hb as (Hp & Hall & Ho). split_and!; [done| |].
  - intros tid' t' [Hin| ->%list_elem_of_singleton]%elem_of_app Hc; [by eapply Hall|].
    destruct Hc as [Hc _]. congruence.
  - destruct o; [|done]. destruct Ho. split; [set_solver|done].
Qed.

Lemma pick_ok k : exists p d, best_ok k (tasks (scheduler k)) (pick k, p, d).
Proof.
  unfold pick. pose proof (select_ok k (tasks (scheduler k)) [] (None, 0, U64_MAX)) as H.
  cbn [app] in H. destruct (select _ _ _ _) as [[o p] d]. exists p, d. apply H.
  split_and!; [lia|set_solver|done].
Qed.

(** C33: the task [schedule_next] returns is queued and runnable, no runnable
    queued task has a higher effective priority, and it goes to the back of
    the queue with its time stamp set; otherwise scheduling only reorders the
    queue and touches priorities and statistics.  It returns nothing only when
    every runnable queued task has effective priority zero. *)
Theorem schedule_next_highest (k k' : Kernel) (r : option TaskId) :
  schedule_next k = (k', r) ->
  sched_frame k k' /\
  match r with
  | Some tid =>
      last (tasks (scheduler k')) = Some tid /\
      (exists t, candidate (periodic k) tid t /\
        get_task k' tid = Some (t <| last_scheduled_ms := uptime k |>) /\
        forall tid' t', tid' ∈ tasks (scheduler k) -> candidate (periodic k) tid' t' ->
          eff (periodic k) t' <= eff (periodic k) t)
  | None => forall tid t, tid ∈ tasks (scheduler k) -> candidate (periodic k) tid t -> eff (periodic k) t = 0
  end.
Proof.
  intros Hrun. pose proof (schedule_next_frame k) as Hf. rewrite Hrun in Hf. split; [done|].
  unfold schedule_next in Hrun. pose proof (periodic_frame k) as Hpf.
  destruct (pick_ok (periodic k)) as (p & d & Hp & Hall & Ho).
  assert (forall tid, tid ∈ tasks (scheduler k) <-> tid ∈ tasks (scheduler (periodic k))) as Hq.
  { intros tid. by rewrite (sf_queue _ _ Hpf). }
  destruct (pick (periodic k)) as [tid|]; simplify_eq.
  - destruct Ho as (Hin & t & Hc & Heff). split.
    + cbn. unfold rotate. rewrite bool_decide_true by done. apply last_snoc.
    + exists t. split; [done|]. split.
      * destruct Hc as [Hg _]. rewrite get_update_eq. unfold get_task in *. cbn. rewrite Hg. cbn.
        by rewrite (sf_uptime _ _ Hpf).
      * intros tid' t' Hin' Hc'. rewrite Heff. apply (Hall tid'); [by apply Hq|done].
  - intros tid t Hin Hc. rewrite Hq in Hin. specialize (Hall tid t Hin Hc).
    pose proof (effective_priority_nonneg (length (tasks (scheduler (periodic k)))) (uptime (periodic k)) t).
    unfold eff in *. lia.
Qed.

(** Scheduling alone does not change which task is current. *)
Lemma for_queued_current f k : current_task_id (for_queued f k) = current_task_id k.
Proof.
  unfold for_queued. generalize (tasks (scheduler k)) as l. intros l. revert k.
  induction l as [|tid l IH]; intros k; [done|]. cbn. by rewrite IH.
Qed.

Lemma check_brain_hints_current k : current_task_id (check_brain_hints k) = current_task_id k.
Proof.
  unfold check_brain_hints. destruct (Bridge.read_hints _ _ _) as [r [h|]]; [|done].
  unfold adjust_priorities_for_workload, apply_brain_hint.
  repeat case_match; rewrite ?for_queued_current; done.
Qed.

Lemma periodic_current k : current_task_id (periodic k) = current_task_id k.
Proof.
  unfold periodic. cbv zeta.
  repeat case_match; unfold age_tasks; rewrite ?for_queued_current; cbn; rewrite ?check_brain_hints_current; done.
Qed.

Lemma schedule_next_current k : current_task_id (schedule_next k).1 = current_task_id k.
Proof.
  unfold schedule_next. cbv zeta. destruct (pick (periodic k)); cbn; apply periodic_current.
Qed.

(** The picked task is queued, present and runnable. *)
Lemma schedule_next_pick k k' tid :
  schedule_next k = (k', Some tid) ->
  tid ∈ tasks (scheduler k) /\ exists t, get_task k' tid = Some t /\ state t = Runnable.
Proof.
  unfold schedule_next. pose proof (periodic_frame k) as Hpf.
  destruct (pick_ok (periodic k)) as (p & d & _ & _ & Ho).
  destruct (pick (periodic k)) as [tid'|]; [|done]. intros [= <- <-].
  destruct Ho as (Hin & t & [Hg Hs] & _). split; [by rewrite <- (sf_queue _ _ Hpf)|].
  rewrite get_update_eq. unfold get_task in *. cbn. rewrite Hg. cbn. eauto.
Qed.

(** ** Fairness among equals *)

(** Neither the hint check nor aging is due. *)
Definition quiet (k : Kernel) : Prop :=
  u64 (uptime k - last_hint_check (scheduler k)) < hint_check_interval (scheduler k) /\
  u64 (uptime k - last_aging_ms (scheduler k)) < aging_interval_ms (scheduler k).

(** Every queued task is runnable at the same effective priority and has no
    deadline. *)
Definition uniform (p : Z) (k : Kernel) : Prop :=
  forall tid, tid ∈ tasks (scheduler k) ->
    exists t, candidate k tid t /\ eff k t = p /\ deadline_ms t = None.

Fixpoint schedule_n (n : nat) (k : Kernel) : Kernel * list (option TaskId) :=
  match n with
  | O => (k, [])
  | S n => let (k1, r) := schedule_next k in
           let (k2, rs) := schedule_n n k1 in (k2, r :: rs)
  end.

Lemma periodic_quiet k : quiet k -> periodic k = record_scheduler_invocation k.
Proof.
  intros [Hh Ha]. unfold periodic. cbn.
  destruct (Z.leb_spec (hint_check_interval (scheduler k)) (u64 (uptime k - last_hint_check (scheduler k)))); [lia|].
  cbn. destruct (Z.leb_spec (aging_interval_ms (scheduler k)) (u64 (uptime k - last_aging_ms (scheduler k)))); [lia|].
  done.
Qed.

Lemma consider_uniform k tid t o p d :
  candidate k tid t -> deadline_ms t = None ->
  consider (length (tasks (scheduler k))) (uptime k) tid t (o, p, d) =
  if p <? eff k t then (Some tid, eff k t, d) else (o, p, d).
Proof. intros [_ Hs] Hd. unfold consider. rewrite decide_True by done. by rewrite Hd. Qed.

Lemma pick_head p k tid rest :
  uniform p k -> 0 < p -> tasks (scheduler k) = tid :: rest -> pick k = Some tid.
Proof.
  intros Hu Hp Hq. unfold pick. rewrite Hq at 2. cbn [select].
  destruct (Hu tid) as (t & Hc & He & Hd); [rewrite Hq; set_solver|].
  rewrite (proj1 Hc), (consider_uniform k tid t) by done. rewrite He.
  destruct (Z.ltb_spec 0 p); [|lia].
  assert (forall l, (forall x, x ∈ l -> x ∈ tasks (scheduler k)) ->
    (select (length (tasks (scheduler k))) k l (Some tid, p, U64_MAX)).1.1 = Some tid) as Hsel.
  { induction l as [|x l IH]; intros Hl; [done|]. cbn [select].
    destruct (Hu x) as (tx & Hcx & Hex & Hdx); [apply Hl; set_solver|].
    rewrite (proj1 Hcx), (consider_uniform k x tx) by done. rewrite Hex, Z.ltb_irrefl.
    apply IH. set_solver. }
  apply Hsel. rewrite Hq. set_solver.
Qed.

Lemma schedule_next_uniform p k tid rest :
  quiet k -> uniform p k -> 0 < p -> tasks (scheduler k) = tid :: rest ->
  exists k', schedule_next k = (k', Some tid) /\ tasks (scheduler k') = rest ++ [tid] /\ quiet k' /\ uniform p k'.
Proof.
  intros Hqt Hu Hp Hq. unfold schedule_next. rewrite periodic_quiet by done.
  assert (uniform p (record_scheduler_invocation k)) as Hu' by done.
  rewrite (pick_head p (record_scheduler_invocation k) tid rest) by done.
  eexists. split; [reflexivity|].
  assert (rotate tid (tasks (scheduler k)) = rest ++ [tid]) as Hrot.
  { unfold rotate. rewrite Hq, bool_decide_true by set_solver. cbn. by rewrite Z.eqb_refl. }
  split; [exact Hrot|]. split; [done|].
  intros x Hx. cbn in Hx. rewrite Hrot in Hx.
  destruct (Hu x) as (t & [Hg Hs] & He & Hd); [rewrite Hq; set_solver|].
  assert (length (rotate tid (tasks (scheduler k))) = length (tasks (scheduler k))) as Hlen
    by (apply Permutation_length, rotate_perm).
  unfold eff, candidate. rewrite get_update.
  change (get_task _ x) with (get_task k x). rewrite Hg. cbn [fmap option_fmap option_map].
  case_decide; (eexists; split; [split; [reflexivity|done]|]; split; [|done]).
  all: rewrite <- He; unfold eff, effective_priority; cbn; by rewrite Hlen.
Qed.

Lemma schedule_n_uniform p l1 l2 k :
  quiet k -> uniform p k -> 0 < p -> tasks (scheduler k) = l1 ++ l2 ->
  let (k', rs) := schedule_n (length l1) k in
  rs = Some <$> l1 /\ tasks (scheduler k') = l2 ++ l1.
Proof.
  revert l2 k. induction l1 as [|tid l1 IH]; intros l2 k Hqt Hu Hp Hq; cbn [length schedule_n].
  - split; [done|]. by rewrite app_nil_r.
  - destruct (schedule_next_uniform p k tid (l1 ++ l2)) as (k1 & -> & Hq1 & Hqt1 & Hu1); try done.
    rewrite <- app_assoc in Hq1. specialize (IH (l2 ++ [tid]) k1 Hqt1 Hu1 Hp Hq1).
    destruct (schedule_n (length l1) k1) as [k2 rs]. destruct IH as [-> Hq2].
    split; [done|]. rewrite Hq2. by rewrite <- app_assoc.
Qed.

(** Among runnable tasks of one positive effective priority and without
    deadlines, scheduling is round robin: as many decisions as there are
    queued tasks return each of them once, in queue order, and leave the
    queue as it was. *)
Theorem round_robin (p : Z) (k : Kernel) :
  quiet k -> uniform p k -> 0 < p ->
  let (k', rs) := schedule_n (length (tasks (scheduler k))) k in
  rs = Some <$> tasks (scheduler k) /\ tasks (scheduler k') = tasks (scheduler k).
Proof.
  intros Hqt Hu Hp. pose proof (schedule_n_uniform p (tasks (scheduler k)) [] k Hqt Hu Hp) as H.
  rewrite app_nil_r in H. specialize (H eq_refl). by destruct (schedule_n _ k).
Qed.

(** ** Aging *)

(** Aging never takes a priority out of its byte and never above 255; it
    raises a waiting task below 200 but, because of its cap, lowers every
    waiting task whose priority lies strictly between 200 and 255. *)
Theorem age_task_priority (now : Z) (t : Task) :
  0 <= priority t <= U8_MAX ->
  0 <= priority (age_task now t) <= U8_MAX /\
  (priority t <= 200 -> priority t <= priority (age_task now t) <= 200) /\
  (200 < priority t < PRIORITY_REALTIME -> state t = Runnable ->
   1000 < saturating_sub now (last_scheduled_ms t) -> priority (age_task now t) = 200).
Proof.
  unfold U8_MAX, PRIORITY_REALTIME. intros Hp.
  assert (forall b, 0 <= u8 b < 256) as Hb by (intros b; apply (wrap_range 8); lia).
  unfold age_task. case_decide as Hs; [|naive_solver lia].
  set (w := saturating_sub now (last_scheduled_ms t)).
  specialize (Hb (u8 (w / 1000) * 10)). set (boost := u8 _) in *.
  destruct (Z.ltb_spec 1000 w), (Z.ltb_spec (priority t) PRIORITY_REALTIME); unfold PRIORITY_REALTIME in *;
    cbn; unfold saturating_add; change (2 ^ 8) with 256; split_and!; intros; try lia.
Qed.

Lemma age_task_priority_witness :
  let t := (Task.new 1 0 0 0 0) <| priority := 250 |> in
  (0 <= priority (age_task 2000 t) <= U8_MAX /\
   (priority t <= 200 -> priority t <= priority (age_task 2000 t) <= 200) /\
   (200 < priority t < PRIORITY_REALTIME -> state t = Runnable ->
    1000 < saturating_sub 2000 (last_scheduled_ms t) -> priority (age_task 2000 t) = 200)) /\
  priority (age_task 2000 t) = 200.
Proof. split; [|by vm_compute]. apply age_task_priority. by vm_compute. Defined.

(** ** Switching *)

(** when a yield leaves the current task, the task it enters is a queued
    runnable one, and the current-task cell, the system-call context pointer
    and the XSAVE pointer all name it; its page table is loaded when it has
    one. *)
Theorem yield_switch_consistent (k k' : Kernel) (next : TaskId) :
  yield_cpu (E := Empty_set) k = (k', Ok (Switched next)) ->
  next <> current_task_id k /\ next ∈ tasks (scheduler k) /\
  current_task_id k' = next /\ context_current k' = next /\ xsave_current k' = next /\
  exists t, get_task k' next = Some t /\ state t = Runnable /\
    (page_table_phys t <> 0 -> cr3 k' = page_table_phys t).
Proof.
  unfold yield_cpu. set (k0 := record_voluntary_yield (current_task_id k) k).
  assert (sched_frame k k0) as H0 by apply (frame_bump voluntary_yields).
  assert (current_task_id (schedule_next k0).1 = current_task_id k) as Hcur by (by rewrite schedule_next_current).
  pose proof (schedule_next_frame k0) as Hf.
  destruct (schedule_next k0) as [k1 [nx|]] eqn:E; [|done]. cbn in Hf, Hcur.
  pose proof (schedule_next_pick k0 k1 nx E) as (Hin & t0 & Ht0 & Hs0).
  destruct (Z.eqb_spec (current_task_id k1) nx) as [Heq|Hne]; [done|]. rewrite Ht0.
  intros [= <- <-]. rewrite Hcur in Hne. split_and!; try done.
  destruct (sched_frame_get' _ (record_context_switch nx (set_current_task nx
      (if page_table_phys t0 =? 0 then k1 else switch_page_table (page_table_phys t0) k1))) nx t0
      (frame_context_switch nx _)) as (t & Ht & Hfr); [by destruct (page_table_phys t0 =? 0)|].
    exists t. split; [exact Ht|]. destruct (task_frame_fields _ _ Hfr) as (_ & -> & _ & _ & _ & _ & _ & ->).
    split; [done|]. intros Hpt. cbn. destruct (Z.eqb_spec (page_table_phys t0) 0); done.
Qed.

(** The timer interrupt saves the interrupted registers into the current
    task whatever it decides next, and resumes a task that is current
    afterwards; if that is another task, it is a queued one and the XSAVE and
    system-call pointers follow it. *)
Theorem preempt_saves_and_resumes (saved : Context) (k : Kernel) (t : Task) :
  current_task_id k <> 0 -> get_task k (current_task_id k) = Some t ->
  exists k' n t', timer_preempt_handler saved k = (k', ResumeTask n) /\
    uptime k' = u64 (uptime k + 10) /\ current_task_id k' = n /\
    get_task k' (current_task_id k) = Some t' /\ context t' = saved /\
    (n <> current_task_id k -> xsave_current k' = n /\ context_current k' = n /\ n ∈ tasks (scheduler k)).
Proof.
  intros H0 Ht. set (cur := current_task_id k) in *. unfold timer_preempt_handler.
  change (current_task_id (timer_tick k)) with cur. change (get_task (timer_tick k) cur) with (get_task k cur).
  destruct (Z.eqb_spec cur 0); [done|]. rewrite Ht.
  set (k0 := update_task cur _ (timer_tick k)).
  assert (get_task k0 cur = Some (t <| context := saved |>)) as Hk0.
  { unfold k0. rewrite get_update_eq. change (get_task (timer_tick k) cur) with (get_task k cur). by rewrite Ht. }
  pose proof (schedule_next_frame k0) as Hf. pose proof (schedule_next_current k0) as Hcur.
  assert (current_task_id k0 = cur) as Hc0 by done. rewrite Hc0 in Hcur.
  destruct (schedule_next k0) as [k1 nx] eqn:E. cbn in Hf, Hcur.
  assert (forall k2, sched_frame k1 k2 -> exists t', get_task k2 cur = Some t' /\ context t' = saved) as Hsaved.
  { intros k2 Hf2. destruct (sched_frame_get' k0 k2 cur _ (transitivity Hf Hf2) Hk0) as (t' & Ht' & Hfr).
    exists t'. split; [done|]. by destruct (task_frame_fields _ _ Hfr) as (_ & _ & _ & _ & _ & _ & -> & _). }
  assert (uptime k1 = u64 (uptime k + 10)) as Hup by (by rewrite (sf_uptime _ _ Hf)).
  destruct nx as [nx|].
  2: { destruct (Hsaved k1 ltac:(reflexivity)) as (t' & ? & ?). by exists k1, cur, t'. }
  destruct (schedule_next_pick k0 k1 nx E) as (Hin & tn & Htn & _).
  destruct (Z.eqb_spec nx cur) as [->|Hne].
  { destruct (Hsaved k1 ltac:(reflexivity)) as (t' & ? & ?). by eexists _, cur, t'. }
  set (k2 := record_context_switch nx (record_preemption cur k1)).
  assert (sched_frame k1 k2) as Hf2.
  { etransitivity; [apply (frame_bump preemptions)|apply frame_context_switch]. }
  destruct (sched_frame_get' k1 k2 nx tn Hf2 Htn) as (tn' & -> & _).
  destruct (Hsaved k2 Hf2) as (t' & Ht' & Hctx).
  eexists _, nx, t'. split; [reflexivity|]. split; [|split; [done|]]; [by destruct (page_table_phys tn' =? 0)|].
  split; [|done]. by destruct (page_table_phys tn' =? 0).
Qed.

(** The tie-break among equal priorities compares with the deadline of a
    task that is no longer the best: adding a lower-priority task with a
    deadline makes a task without one win over a task with one. *)
Theorem deadline_tie_uses_stale (k0 : Kernel) :
  let mk tid p d := mkTask tid Runnable 0 0 None None zero_context zero_context Queue.new None None []
    (mkCredentials 0 0 Untrusted) p p 0 d 0 0 128 false zero_statistics false [] [] in
  let a := mk 1 100 (Some 5000) in
  let b := mk 2 150 None in
  let c := mk 3 150 (Some 6000) in
  let k q := (k0 <| task_table := <[1 := a]> (<[2 := b]> (<[3 := c]> ∅)) |> <| uptime := 0 |>)
               <| scheduler := (scheduler k0) <| tasks := q |> |> in
  pick (k [2; 3]) = Some 3 /\ pick (k [1; 2; 3]) = Some 2.
Proof. by vm_compute. Qed.

(** ** Witnesses *)

(** Three tasks of equal priority, all queued, task 1 running. *)
Definition three_tasks : Kernel :=
  let mk tid := Task.new tid 0 0x400000 (0x10000 * tid) 0 in
  set_current_task 1
    (Sched.enqueue 3 (Sched.enqueue 2 (Sched.enqueue 1
      (insert_task (mk 3) (insert_task (mk 2) (insert_task (mk 1) (static_kernel 0xFFFF800000000000))))))).

Lemma schedule_next_highest_witness :
  let k := three_tasks in let k' := (schedule_next k).1 in
  sched_frame k k' /\
  last (tasks (scheduler k')) = Some 1 /\
  (exists t, candidate (periodic k) 1 t /\
    get_task k' 1 = Some (t <| last_scheduled_ms := uptime k |>) /\
    forall tid' t', tid' ∈ tasks (scheduler k) -> candidate (periodic k) tid' t' ->
      eff (periodic k) t' <= eff (periodic k) t).
Proof. apply (schedule_next_highest three_tasks _ (Some 1)). vm_compute. reflexivity. Defined.

Lemma three_tasks_uniform : uniform 128 three_tasks.
Proof.
  intros tid Hin. assert (tid = 1 \/ tid = 2 \/ tid = 3) as [->|[->| ->]] by (vm_compute in Hin; set_solver);
    (eexists; split; [split; [reflexivity|reflexivity]|]; split; reflexivity).
Qed.

Lemma round_robin_witness :
  let (k', rs) := schedule_n 3 three_tasks in
  rs = [Some 1; Some 2; Some 3] /\ tasks (scheduler k') = [1; 2; 3].
Proof.
  apply (round_robin 128 three_tasks); [split; by vm_compute|apply three_tasks_uniform|lia].
Defined.

Definition yield_demo : Kernel := (schedule_next three_tasks).1.

Lemma yield_switch_consistent_witness :
  let k' := (yield_cpu (E := Empty_set) yield_demo).1 in
  2 <> current_task_id yield_demo /\ 2 ∈ tasks (scheduler yield_demo) /\
  current_task_id k' = 2 /\ context_current k' = 2 /\ xsave_current k' = 2 /\
  exists t, get_task k' 2 = Some t /\ state t = Runnable /\ (page_table_phys t <> 0 -> cr3 k' = page_table_phys t).
Proof. apply (yield_switch_consistent yield_demo _ 2). vm_compute. reflexivity. Defined.

Lemma preempt_saves_and_resumes_witness :
  exists k' n t', timer_preempt_handler zero_context three_tasks = (k', ResumeTask n) /\
    uptime k' = u64 (0 + 10) /\ current_task_id k' = n /\ get_task k' 1 = Some t' /\ context t' = zero_context /\
    (n <> 1 -> xsave_current k' = n /\ context_current k' = n /\ n ∈ [1; 2; 3]).
Proof.
  apply (preempt_saves_and_resumes zero_context three_tasks (Task.new 1 0 0x400000 0x10000 0));
    [by vm_compute|by vm_compute].
Defined.
