(* ===== verification/Paging.v ===== *)
(** * Page tables

    Models the parts of [kernel/src/memory/paging.rs] that work on a task's
    page table.  Installing and removing an entry is done by the mapper of the
    [x86_64] crate, an interface here ([Mapper]) with the crate's documented
    behaviour as laws ([MapperLaws]); creating, switching and freeing a table
    is the kernel's own code on the table words. *)

From S2P Require Import Prelude Message Buddy BuddySpec BuddyThm Pmm PmmThm Task Kernel.

#[local] Open Scope kernel_scope.

Inductive PageSize : Type :=
| Size4KiB
| Size2MiB.

#[export] Instance PageSize_eq_dec : EqDecision PageSize.
Proof. solve_decision. Defined.

(** The words of page-table frames by physical address; an absent word is a
    zero entry. *)
Abbreviation PtMem := (gmap Z Z).

Definition page_bytes (s : PageSize) : Z := match s with Size4KiB => 4096 | Size2MiB => 2 * 1024 * 1024 end.

(** Addresses below this one belong to the task; the tables of the others, from
    root entry 256 on, are shared by all tasks. *)
Definition USER_END : Z := 0x0000800000000000.

(** [Mapper::map_to] may allocate intermediate tables from the memory manager,
    page by page; [Mapper::unmap] gives back the frame the entry pointed to.
    Both take the start of a page.  [mapped] is the last-level entry (frame and
    flags) of the page that starts at an address.  [apart] holds of two roots
    whose tables are disjoint but for those of the shared half, as the roots of
    two tasks are: each has a frame of its own, an empty lower half when it is
    created, and intermediate tables that were free when they were taken. *)
Class Mapper := {
  map_to : PageSize -> Z -> Z -> Z -> Z -> PtMem * Pmm.State -> (PtMem * Pmm.State) * bool;
  unmap : PageSize -> Z -> Z -> PtMem -> PtMem * option Z;
  mapped : PtMem -> Z -> PageSize -> Z -> option (Z * Z);
  apart : Z -> Z -> Prop;
}.

(** A table whose translations can be told from those of the table at [pml4]. *)
Definition beside `{Mapper} (pml4 pml4' : Z) : Prop := pml4' = pml4 \/ apart pml4 pml4'.

(** [map_to] adds the one entry it is asked for, and only when it succeeds: to
    its own table, and, for a page of the shared half, possibly to the others.
    [unmap] adds none. *)
Class MapperLaws `{Mapper} := {
  map_to_ok size pml4 virt phys flags m p m' p' :
    (page_bytes size | virt) -> map_to size pml4 virt phys flags (m, p) = ((m', p'), true) ->
    mapped m pml4 size virt = None /\ mapped m' pml4 size virt = Some (phys, flags);
  map_to_other size pml4 virt phys flags m p m' p' b pml4' size' virt' :
    map_to size pml4 virt phys flags (m, p) = ((m', p'), b) -> beside pml4 pml4' ->
    b = false \/ (size', virt') <> (size, virt) \/ (virt < USER_END /\ pml4' <> pml4) ->
    mapped m' pml4' size' virt' = mapped m pml4' size' virt';
  map_to_frames size pml4 virt phys flags m p m' p' b :
    map_to size pml4 virt phys flags (m, p) = ((m', p'), b) ->
    exists n, p' = Nat.iter n (fun p => (Pmm.alloc_page p).1) p;
  unmap_ok size pml4 virt m :
    (page_bytes size | virt) ->
    (unmap size pml4 virt m).2 = fst <$> mapped m pml4 size virt /\
    mapped (unmap size pml4 virt m).1 pml4 size virt = None;
  unmap_shrinks size pml4 virt m pml4' size' virt' e :
    mapped (unmap size pml4 virt m).1 pml4' size' virt' = Some e -> mapped m pml4' size' virt' = Some e;
}.

Module Paging.

Inductive MapError : Type :=
| MapperNotInitialized
| MapFailed
| UnmapFailed
| PageNotMapped
| OutOfMemory.

Definition HUGE_2M : Z := 2 * 1024 * 1024.

(** [VirtAddr::new] panics on an address that is not canonical. *)
Definition virt_addr {E} (a : Z) : K E unit :=
  if (a <? 2 ^ 47) || (2 ^ 64 - 2 ^ 47 <=? a) then M_ret tt else panic.

(** [PhysAddr::new] panics on an address of more than 52 bits. *)
Definition phys_addr {E} (a : Z) : K E unit := if a <? 2 ^ 52 then M_ret tt else panic.

(** [Page::containing_address] and [PhysFrame::containing_address] *)
Definition containing_address (size : PageSize) (a : Z) : Z := a - a mod page_bytes size.

Section ops.
Context `{Mapper}.

Definition run_map_to {E} (size : PageSize) (pml4 virt phys flags : Z) : K E bool := fun k =>
  let '((m, p), ok) := map_to size pml4 virt phys flags (pt_mem k, pmm k) in
  (k <| pt_mem := m |> <| pmm := p |>, Ok ok).

Definition run_unmap {E} (size : PageSize) (pml4 virt : Z) : K E (option Z) := fun k =>
  let (m, r) := unmap size pml4 virt (pt_mem k) in (k <| pt_mem := m |>, Ok r).

Definition map_page_in_table (pml4 virt phys flags : Z) : K MapError unit :=
  virt_addr virt ;;; phys_addr phys ;;;
  ok <- run_map_to Size4KiB pml4 (containing_address Size4KiB virt) (containing_address Size4KiB phys) flags ;;
  if ok : bool then M_ret tt else throw MapFailed.

Definition unmap_page_in_table (pml4 virt : Z) : K MapError Z :=
  virt_addr virt ;;;
  r <- run_unmap Size4KiB pml4 (containing_address Size4KiB virt) ;;
  ok_or r UnmapFailed.

Definition map_huge_page_in_table (pml4 virt phys flags : Z) : K MapError unit :=
  if (negb (Z.land virt (HUGE_2M - 1) =? 0) || negb (Z.land phys (HUGE_2M - 1) =? 0))%bool
  then throw MapFailed
  else
    virt_addr virt ;;; phys_addr phys ;;;
    ok <- run_map_to Size2MiB pml4 (containing_address Size2MiB virt) (containing_address Size2MiB phys) flags ;;
    if ok : bool then M_ret tt else throw MapFailed.

Definition unmap_huge_page_in_table (pml4 virt : Z) : K MapError Z :=
  if negb (Z.land virt (HUGE_2M - 1) =? 0) then throw UnmapFailed
  else
    virt_addr virt ;;;
    r <- run_unmap Size2MiB pml4 (containing_address Size2MiB virt) ;;
    ok_or r UnmapFailed.
End ops.

(** ** Table words *)

Definition read_word (m : PtMem) (addr : Z) : Z := default 0 (m !! addr).

(** Zero a fresh frame. *)
Definition zero_frame (phys : Z) (m : PtMem) : PtMem :=
  foldl (fun m i => delete (phys + 8 * Z.of_nat i) m) m (seq 0 512).

(** Copy entries 256 to 511 of one table into another. *)
Definition copy_upper_half (src dst : Z) (m : PtMem) : PtMem :=
  foldl (fun m' i => <[dst + 8 * Z.of_nat i := read_word m (src + 8 * Z.of_nat i)]> m') m (seq 256 256).

Definition create_task_page_table : K MapError Z := fun k =>
  match Pmm.alloc_page (pmm k) with
  | (p, Ok (Some new_pml4)) =>
      (k <| pmm := p |> <| pt_mem := copy_upper_half (cr3 k) new_pml4 (zero_frame new_pml4 (pt_mem k)) |>,
       Ok new_pml4)
  | (p, Ok None) => (k <| pmm := p |>, Err OutOfMemory)
  | (p, Err e) => match e with end
  | (p, Panic) => (k <| pmm := p |>, Panic)
  end.

(** The address part of an entry: [entry & !0xFFF]. *)
Definition entry_addr (e : Z) : Z := Z.land e (U64_MAX - 0xFFF).

(** Run the memory manager from a list of frames to free. *)
Fixpoint free_frames (frames : list Z) : Pmm.P unit :=
  match frames with
  | [] => M_ret tt
  | f :: rest => Pmm.free_page f ;;; free_frames rest
  end.

(** [free_intermediate_table]: the frames it frees, in order.  [depth] counts
    down to the page-table level, whose entries are not visited; an entry with
    the huge-page bit is data and is left alone. *)
Fixpoint table_frames (depth : nat) (m : PtMem) (table : Z) : list Z :=
  match depth with
  | O => []
  | S depth =>
      flat_map (fun i =>
        let entry := read_word m (table + 8 * Z.of_nat i) in
        if (negb (Z.land entry 1 =? 0) && (Z.land entry 0x80 =? 0))%bool
        then table_frames depth m (entry_addr entry)
        else []) (seq 0 512)
  end ++ [table].

(** The frames of a task's page table below entry 256, then the root. *)
Definition task_table_frames (m : PtMem) (pml4 : Z) : list Z :=
  flat_map (fun i =>
    let entry := read_word m (pml4 + 8 * Z.of_nat i) in
    if negb (Z.land entry 1 =? 0) then table_frames 2 m (entry_addr entry) else []) (seq 0 256) ++ [pml4].

(** [free_task_page_table]: the walk reads only table words, the frees only
    the allocator, so the frames can be collected before they are freed.  The
    first words of a freed frame become the allocator's list node; the walk
    has left a frame before it is freed. *)
Definition free_task_page_table {E} (pml4 : Z) : K E unit := fun k =>
  let (p, r) := free_frames (task_table_frames (pt_mem k) pml4) (pmm k) in
  (k <| pmm := p |>, match r with Ok u => Ok u | Err e => match e with end | Panic => Panic end).

End Paging.

(** ** Addresses *)

Lemma containing_start size a : (page_bytes size | a) -> Paging.containing_address size a = a.
Proof. intros Ha. unfold Paging.containing_address. rewrite (proj2 (Z.mod_divide a (page_bytes size) ltac:(by destruct size))); [lia|done]. Qed.

Lemma containing_page size a : (page_bytes size | Paging.containing_address size a).
Proof.
  unfold Paging.containing_address. exists (a / page_bytes size).
  pose proof (Z.div_mod a (page_bytes size) ltac:(by destruct size)). lia.
Qed.

Lemma virt_addr_user {E} a k : a < USER_END -> Paging.virt_addr (E := E) a k = (k, Ok tt).
Proof. intros Ha. unfold Paging.virt_addr. unfold USER_END in Ha. destruct (Z.ltb_spec a (2 ^ 47)); [done|lia]. Qed.

Lemma phys_addr_ok {E} a k : a < 2 ^ 52 -> Paging.phys_addr (E := E) a k = (k, Ok tt).
Proof. intros Ha. unfold Paging.phys_addr. by destruct (Z.ltb_spec a (2 ^ 52)); [|lia]. Qed.

Lemma virt_addr_cases {E} a k : Paging.virt_addr (E := E) a k = (k, Ok tt) \/ Paging.virt_addr (E := E) a k = (k, Panic).
Proof. unfold Paging.virt_addr. destruct (_ || _); [by left|by right]. Qed.

Lemma phys_addr_cases {E} a k : Paging.phys_addr (E := E) a k = (k, Ok tt) \/ Paging.phys_addr (E := E) a k = (k, Panic).
Proof. unfold Paging.phys_addr. destruct (_ <? _); [by left|by right]. Qed.

(** * Page tables: theorems

    A new task's page table shares the kernel half and nothing else, so that
    freeing it at exit gives back exactly the frames the task owns. *)

Import Paging.

(** ** Loops over table words *)

Lemma foldl_delete_lookup (p : Z) (l : list nat) (m : PtMem) (a : Z) :
  foldl (fun m i => delete (p + 8 * Z.of_nat i) m) m l !! a =
  if decide (a ∈ (fun i => p + 8 * Z.of_nat i) <$> l) then None else m !! a.
Proof.
  revert m. induction l as [|i l IH]; intros m; [done|]. cbn [foldl fmap list_fmap]. rewrite IH.
  destruct (decide (a = p + 8 * Z.of_nat i)) as [->|Hne].
  - rewrite lookup_delete_eq, (decide_True _ _ (list_elem_of_here _ _)). by case_decide.
  - rewrite lookup_delete_ne by done. repeat case_decide; set_solver.
Qed.

Lemma foldl_insert_lookup (d : Z) (g : nat -> Z) (l : list nat) (m : PtMem) :
  (forall j, j ∈ l ->
     foldl (fun m i => <[d + 8 * Z.of_nat i := g i]> m) m l !! (d + 8 * Z.of_nat j) = Some (g j)) /\
  (forall a, a ∉ (fun i => d + 8 * Z.of_nat i) <$> l ->
     foldl (fun m i => <[d + 8 * Z.of_nat i := g i]> m) m l !! a = m !! a).
Proof.
  revert m. induction l as [|i l IH]; intros m; [split; [set_solver|done]|]. cbn [foldl fmap list_fmap].
  destruct (IH (<[d + 8 * Z.of_nat i := g i]> m)) as [H1 H2]. split.
  - intros j Hj. destruct (decide (j ∈ l)) as [|Hn]; [by apply H1|].
    apply elem_of_cons in Hj as [->|]; [|done]. rewrite H2, lookup_insert_eq; [done|].
    intros (j & Hj & Hin)%list_elem_of_fmap. assert (j = i) as -> by lia. done.
  - intros a Ha. rewrite H2, lookup_insert_ne by set_solver. done.
Qed.

(** The words of a frame. *)
Definition in_frame (p a : Z) : Prop := p <= a < p + Buddy.PAGE_SIZE.

Lemma zero_frame_word p m i : (i < 512)%nat -> read_word (zero_frame p m) (p + 8 * Z.of_nat i) = 0.
Proof.
  intros Hi. unfold read_word, zero_frame. rewrite foldl_delete_lookup, decide_True; [done|].
  apply list_elem_of_fmap. exists i. split; [done|]. apply elem_of_seq. lia.
Qed.

Lemma zero_frame_other p m a : ~ in_frame p a -> read_word (zero_frame p m) a = read_word m a.
Proof.
  intros Ha. unfold read_word, zero_frame. rewrite foldl_delete_lookup, decide_False; [done|].
  intros (i & -> & Hi%elem_of_seq)%list_elem_of_fmap. apply Ha. unfold in_frame, Buddy.PAGE_SIZE. lia.
Qed.

Lemma copy_word src dst m i :
  (256 <= i < 512)%nat -> read_word (copy_upper_half src dst m) (dst + 8 * Z.of_nat i) = read_word m (src + 8 * Z.of_nat i).
Proof.
  intros Hi. unfold read_word at 1, copy_upper_half.
  rewrite (proj1 (foldl_insert_lookup dst _ _ m) i); [done|]. apply elem_of_seq. lia.
Qed.

Lemma copy_other src dst m a :
  ~ (dst + 2048 <= a < dst + 4096) -> read_word (copy_upper_half src dst m) a = read_word m a.
Proof.
  intros Ha. unfold read_word, copy_upper_half. rewrite (proj2 (foldl_insert_lookup dst _ _ m) a); [done|].
  intros (i & -> & Hi%elem_of_seq)%list_elem_of_fmap. lia.
Qed.

Lemma flat_map_nil {A B} (f : A -> list B) (l : list A) : (forall x, x ∈ l -> f x = []) -> flat_map f l = [].
Proof.
  induction l as [|x l IH]; intros Hf; [done|]. cbn. rewrite Hf by set_solver. apply IH. set_solver.
Qed.

(** A table with an empty lower half owns no frame but its root. *)
Lemma empty_lower_half m pml4 :
  (forall i, (i < 256)%nat -> read_word m (pml4 + 8 * Z.of_nat i) = 0) -> task_table_frames m pml4 = [pml4].
Proof.
  intros Hz. unfold task_table_frames. rewrite flat_map_nil; [done|].
  intros i Hi%elem_of_seq. cbv zeta. rewrite Hz by lia. done.
Qed.

(** ** Theorems *)

(** A new task page table has an empty user half and the running table's
    kernel half; no other frame's words change; and freeing it right away
    frees its root and nothing else, so that the allocator is back where it
    was. *)
Theorem new_page_table_roundtrip (lim : Z) (held : Held) (k k' : Kernel) (pml4 : Z) :
  walkable lim -> pmm_inv lim (pmm k) held -> (Buddy.PAGE_SIZE | cr3 k) ->
  create_task_page_table k = (k', Ok pml4) -> pml4 <> cr3 k ->
  (forall i, (i < 256)%nat -> read_word (pt_mem k') (pml4 + 8 * Z.of_nat i) = 0) /\
  (forall i, (256 <= i < 512)%nat ->
     read_word (pt_mem k') (pml4 + 8 * Z.of_nat i) = read_word (pt_mem k) (cr3 k + 8 * Z.of_nat i)) /\
  (forall a, ~ in_frame pml4 a -> read_word (pt_mem k') a = read_word (pt_mem k) a) /\
  exists k'', free_task_page_table (E := Empty_set) pml4 k' = (k'', Ok tt) /\
    pmm_inv lim (pmm k') ((pml4, 0%nat) :: held) /\ pmm_inv lim (pmm k'') held.
Proof.
  intros Hlim Hp [c Hc] Hrun Hne. unfold create_task_page_table in Hrun.
  destruct (alloc_page_inv lim Hlim (pmm k) held Hp) as (p1 & r & Hal & Hp1). rewrite Hal in Hrun.
  destruct r as [a|]; [|done].
  set (k1 := k <| pmm := p1 |> <| pt_mem := copy_upper_half (cr3 k) a (zero_frame a (pt_mem k)) |>).
  assert ((k1, Ok a) = (k', Ok (E := MapError) pml4)) as [= <- <-] by exact Hrun. fold k1. cbn in Hp1.
  destruct (pmm_blocks _ _ _ Hp1 a 0%nat (list_elem_of_here _ _)) as [Hok _].
  assert (Buddy.PAGE_SIZE | a) as [d Hd].
  { destruct Hok as (_ & _ & Hd). exact Hd. }
  assert (forall i, (i < 512)%nat -> ~ in_frame a (cr3 k + 8 * Z.of_nat i)) as Hdisj.
  { intros i Hi. unfold in_frame, Buddy.PAGE_SIZE in *. intros Hin. apply Hne. lia. }
  assert (pt_mem k1 = copy_upper_half (cr3 k) a (zero_frame a (pt_mem k))) as Epm by done.
  assert (forall i, (i < 256)%nat -> read_word (pt_mem k1) (a + 8 * Z.of_nat i) = 0) as Hlow.
  { intros i Hi. rewrite Epm, copy_other by lia. apply zero_frame_word. lia. }
  split_and!; [done| | |].
  - intros i Hi. rewrite Epm, copy_word by done. apply zero_frame_other, Hdisj. lia.
  - intros x Hx. rewrite Epm, copy_other by (unfold in_frame, Buddy.PAGE_SIZE in Hx; lia). by apply zero_frame_other.
  - destruct (free_pages_inv lim Hlim a 0 p1 _ held Hp1 ltac:(reflexivity)) as (p2 & Hfree & Hp2).
    exists (k1 <| pmm := p2 |>). split_and!; [|done|done]. unfold free_task_page_table.
    rewrite (empty_lower_half _ _ Hlow). cbn [free_frames]. unfold M_bind, Pmm.free_page.
    change (pmm k1) with p1. by rewrite Hfree.
Qed.

(** Task 1 of a booted kernel runs on a root at 4 KiB whose entry 511 maps the
    kernel. *)
Definition paging_demo : Kernel :=
  (static_kernel Buddy.HIGHER_HALF) <| pmm := sample_pmm |> <| cr3 := 0x1000 |> <| pt_mem := {[ 0x1FF8 := 0x2003 ]} |>.

Lemma new_page_table_roundtrip_witness :
  let k' := (create_task_page_table paging_demo).1 in
  (forall i, (i < 256)%nat -> read_word (pt_mem k') (0x100000 + 8 * Z.of_nat i) = 0) /\
  (forall i, (256 <= i < 512)%nat ->
     read_word (pt_mem k') (0x100000 + 8 * Z.of_nat i) = read_word (pt_mem paging_demo) (0x1000 + 8 * Z.of_nat i)) /\
  (forall a, ~ in_frame 0x100000 a -> read_word (pt_mem k') a = read_word (pt_mem paging_demo) a) /\
  exists k'', free_task_page_table (E := Empty_set) 0x100000 k' = (k'', Ok tt) /\
    pmm_inv 0x1000000 (pmm k') [(0x100000, 0%nat)] /\ pmm_inv 0x1000000 (pmm k'') [].
Proof.
  assert (create_task_page_table paging_demo = ((create_task_page_table paging_demo).1, Ok 0x100000)) as Hrun
    by by vm_compute.
  assert (pmm_inv 0x1000000 (pmm paging_demo) []) as Hp by apply sample_pmm_inv.
  exact (new_page_table_roundtrip 0x1000000 [] paging_demo _ 0x100000 ltac:(by vm_compute) Hp
    ltac:(by exists 1) Hrun ltac:(done)).
Defined.
