(* ===== verification/Shmem.v ===== *)
(** * Shared memory

    Models [kernel/src/ipc/shared_memory.rs]: regions of physical pages that
    tasks create, map, grant, revoke and destroy, and the sweep on task
    exit; with the system calls of
    [kernel/src/arch/x86_64/syscall/handlers/memory.rs] that reach them. *)

From S2P Require Import Prelude Message Buddy Pmm Task Kernel Capability Paging.
Import Task.
#[local] Open Scope kernel_scope.

(** The order in which the hash table is iterated: some order of its keys. *)
Class HashOrder := {
  hash_order : gset Z -> list Z;
  hash_order_perm X : hash_order X ≡ₚ elements X;
}.

Module Shmem.

Inductive ShmemError : Type :=
| InvalidId
| PermissionDenied
| OutOfMemory
| IdOverflow
| InvalidSize
| MapFailed
| UnmapFailed.

Definition PAGE_SIZE : Z := 4096.
Definition HUGE_PAGE_SIZE : Z := 2 * 1024 * 1024.
Definition HUGE_PAGE_ORDER : Z := 9.

(** ** Page flags *)

Definition READABLE : Z := 1.
Definition WRITABLE : Z := 2.
Definition USER : Z := 4.

(** Bits of the [x86_64] crate's [PageTableFlags]. *)
Definition PT_PRESENT : Z := 1.
Definition PT_WRITABLE : Z := 2.
Definition PT_USER : Z := 4.
Definition PT_NO_EXECUTE : Z := Z.shiftl 1 63.

Definition convert_page_flags (flags : Z) : Z :=
  let pt := PT_PRESENT in
  let pt := if Z.land flags WRITABLE =? 0 then pt else Z.lor pt PT_WRITABLE in
  let pt := if Z.land flags USER =? 0 then pt else Z.lor pt PT_USER in
  Z.lor pt PT_NO_EXECUTE.

Definition page_flags (p : ShmemPerms) : Z :=
  match p with
  | ReadOnly => Z.lor READABLE USER
  | WriteOnly => Z.lor WRITABLE USER
  | ReadWrite => Z.lor (Z.lor READABLE WRITABLE) USER
  end.

(** ** Creating *)

(** Free a list of blocks of one order. *)
Fixpoint free_blocks (order : nat) (blocks : list Z) : Pmm.P unit :=
  match blocks with
  | [] => M_ret tt
  | a :: rest => Pmm.free_pages a order ;;; free_blocks order rest
  end.

(** Allocate [n] blocks; on the first failure stop and report what was got. *)
Fixpoint alloc_blocks (alloc : Pmm.P (option Z)) (n : nat) (got : list Z) : Pmm.P (list Z * bool) :=
  match n with
  | O => M_ret (got, true)
  | S n =>
      r <- alloc ;;
      match r with
      | Some a => alloc_blocks alloc n (got ++ [a])
      | None => M_ret (got, false)
      end
  end.

(** [NEXT_SHMEM_ID.fetch_add], then the non-zero check. *)
Definition fetch_shmem_id : K ShmemError Z := fun k =>
  (k <| next_shmem_id := u32 (next_shmem_id k + 1) |>, Ok (next_shmem_id k)).

Definition insert_region (s : SharedMemory) : K ShmemError unit :=
  modify (fun k => k <| shmem_table := <[shm_id s := s]> (shmem_table k) |>).

Definition shmem_create (size : Z) (p : ShmemPerms) : K ShmemError ShmemId :=
  if size =? 0 then throw InvalidSize
  else
    let num_pages := u64 (u64 (size + PAGE_SIZE) - 1) / PAGE_SIZE in
    let actual_size := u64 (num_pages * PAGE_SIZE) in
    got <- Capability.with_pmm (alloc_blocks Pmm.alloc_page (Z.to_nat num_pages) []) ;;
    let '(pages, ok) := got in
    if negb ok then
      Capability.with_pmm (free_blocks 0 pages) ;;; throw OutOfMemory
    else
      id_raw <- fetch_shmem_id ;;
      if id_raw =? 0 then throw IdOverflow
      else
        t <- current_task ;;
        insert_region (mkShmem id_raw pages 0 actual_size p [id t] []) ;;;
        M_ret id_raw.

Definition shmem_create_huge (size : Z) (p : ShmemPerms) : K ShmemError ShmemId :=
  if size =? 0 then throw InvalidSize
  else
    let num_blocks := u64 (u64 (size + HUGE_PAGE_SIZE) - 1) / HUGE_PAGE_SIZE in
    let actual_size := u64 (num_blocks * HUGE_PAGE_SIZE) in
    got <- Capability.with_pmm (alloc_blocks (Pmm.alloc_pages 9) (Z.to_nat num_blocks) []) ;;
    let '(blocks, ok) := got in
    if negb ok then
      Capability.with_pmm (free_blocks 9 blocks) ;;; shmem_create size p
    else
      id_raw <- fetch_shmem_id ;;
      if id_raw =? 0 then
        Capability.with_pmm (free_blocks 9 blocks) ;;; throw IdOverflow
      else
        t <- current_task ;;
        insert_region (mkShmem id_raw blocks HUGE_PAGE_ORDER actual_size p [id t] []) ;;;
        M_ret id_raw.

(** ** Access lists *)

Definition get_region (rid : ShmemId) : K ShmemError SharedMemory :=
  r <- gets (fun k => shmem_table k !! rid) ;; ok_or r InvalidId.

Definition update_region (rid : ShmemId) (f : SharedMemory -> SharedMemory) : K ShmemError unit :=
  modify (fun k => k <| shmem_table := alter f rid (shmem_table k) |>).

Definition shmem_grant (rid : ShmemId) (task : TaskId) : K ShmemError unit :=
  s <- get_region rid ;;
  t <- current_task ;;
  fail_if (negb (bool_decide (id t ∈ shm_tasks s))) PermissionDenied ;;;
  if bool_decide (task ∈ shm_tasks s) then M_ret tt
  else update_region rid (fun s => s <| shm_tasks := shm_tasks s ++ [task] |>).

Definition shmem_revoke (rid : ShmemId) (task : TaskId) : K ShmemError unit :=
  s <- get_region rid ;;
  t <- current_task ;;
  fail_if (negb (bool_decide (head (shm_tasks s) = Some (id t)))) PermissionDenied ;;;
  update_region rid (fun s =>
    s <| shm_tasks := filter (fun x => x = id t \/ x <> task) (shm_tasks s) |>).

(** ** Mapping *)

Section mapping.
Context `{Mapper}.

Definition is_huge (s : SharedMemory) : bool := block_order s =? HUGE_PAGE_ORDER.
Definition block_bytes (s : SharedMemory) : Z := if is_huge s then HUGE_PAGE_SIZE else PAGE_SIZE.

(** The virtual address of block [i] of a region mapped at [virt]. *)
Definition block_virt (s : SharedMemory) (virt : Z) (i : nat) : Z :=
  u64 (virt + u64 (Z.of_nat i * block_bytes s)).

(** Turn a page-table result into a boolean, keeping the effect. *)
Definition try_map {A} (m : K Paging.MapError A) : K ShmemError bool := fun k =>
  match m k with
  | (k', Ok _) => (k', Ok true)
  | (k', Err _) => (k', Ok false)
  | (k', Panic) => (k', Panic)
  end.

Definition unmap_block (huge : bool) (pml4 virt : Z) : K ShmemError bool :=
  if huge then try_map (Paging.unmap_huge_page_in_table pml4 virt)
  else try_map (Paging.unmap_page_in_table pml4 virt).

Definition map_block (huge : bool) (pml4 virt phys flags : Z) : K ShmemError bool :=
  if huge then try_map (Paging.map_huge_page_in_table pml4 virt phys flags)
  else try_map (Paging.map_page_in_table pml4 virt phys flags).

(** Remove the entries of blocks [is_], ignoring failures. *)
Fixpoint unmap_blocks (s : SharedMemory) (pml4 virt : Z) (is_ : list nat) : K ShmemError unit :=
  match is_ with
  | [] => M_ret tt
  | i :: rest => unmap_block (is_huge s) pml4 (block_virt s virt i) ;;; unmap_blocks s pml4 virt rest
  end.

(** Install the entries block by block; the first failure removes those
    already installed. *)
Fixpoint map_blocks (s : SharedMemory) (pml4 virt flags : Z) (i : nat) (pages : list Z) : K ShmemError unit :=
  match pages with
  | [] => M_ret tt
  | phys :: rest =>
      ok <- map_block (is_huge s) pml4 (block_virt s virt i) phys flags ;;
      if ok : bool then map_blocks s pml4 virt flags (S i) rest
      else unmap_blocks s pml4 virt (seq 0 i) ;;; throw MapFailed
  end.

Definition shmem_map (rid : ShmemId) (virt : Z) : K ShmemError unit :=
  s <- get_region rid ;;
  fail_if (negb (virt mod block_bytes s =? 0)) InvalidSize ;;;
  t <- current_task ;;
  fail_if (negb (bool_decide (id t ∈ shm_tasks s))) PermissionDenied ;;;
  let pt_flags := convert_page_flags (page_flags (perms s)) in
  fail_if (page_table_phys t =? 0) MapFailed ;;;
  map_blocks s (page_table_phys t) virt pt_flags 0 (phys_pages s) ;;;
  r <- gets (fun k => shmem_table k !! rid) ;;
  match r with
  | Some _ => update_region rid (fun s => s <| mappings := mappings s ++ [(id t, virt)] |>)
  | None =>
      unmap_blocks s (page_table_phys t) virt (seq 0 (length (phys_pages s))) ;;;
      throw InvalidId
  end.

(** Remove the entries in order; the first failure stops. *)
Fixpoint unmap_all (s : SharedMemory) (pml4 virt : Z) (is_ : list nat) : K ShmemError unit :=
  match is_ with
  | [] => M_ret tt
  | i :: rest =>
      ok <- unmap_block (is_huge s) pml4 (block_virt s virt i) ;;
      if ok : bool then unmap_all s pml4 virt rest else throw UnmapFailed
  end.

Definition shmem_unmap (rid : ShmemId) (virt : Z) : K ShmemError unit :=
  s <- get_region rid ;;
  fail_if (negb (virt mod block_bytes s =? 0)) InvalidSize ;;;
  t <- current_task ;;
  fail_if (page_table_phys t =? 0) UnmapFailed ;;;
  unmap_all s (page_table_phys t) virt (seq 0 (length (phys_pages s))) ;;;
  t <- current_task ;;
  update_region rid (fun s => s <| mappings := filter (fun m => m <> (id t, virt)) (mappings s) |>).

(** ** Destroying *)

Fixpoint clear_each (s : SharedMemory) (ms : list (TaskId * Z)) : K ShmemError unit :=
  match ms with
  | [] => M_ret tt
  | (tid, virt_base) :: rest =>
      pml4 <- gets (fun k => page_table_phys <$> get_task k tid) ;;
      match pml4 with
      | None => clear_each s rest
      | Some pml4 =>
          if pml4 =? 0 then clear_each s rest
          else unmap_blocks s pml4 virt_base (seq 0 (length (phys_pages s))) ;;; clear_each s rest
      end
  end.

Definition clear_mappings (s : SharedMemory) : K ShmemError unit := clear_each s (mappings s).

Definition free_region_pages (s : SharedMemory) : K ShmemError unit :=
  Capability.with_pmm (free_blocks (Z.to_nat (block_order s)) (phys_pages s)).

Definition shmem_destroy (rid : ShmemId) : K ShmemError unit :=
  s <- get_region rid ;;
  modify (fun k => k <| shmem_table := delete rid (shmem_table k) |>) ;;;
  t <- current_task ;;
  if negb (bool_decide (id t ∈ shm_tasks s)) then
    modify (fun k => k <| shmem_table := <[rid := s]> (shmem_table k) |>) ;;;
    throw PermissionDenied
  else
    clear_mappings s ;;;
    free_region_pages s.

(** ** System calls *)

(** The value a call returns to the task: [u64::MAX] for every error. *)
Definition or_max {A} (f : A -> Z) (m : K ShmemError A) : K Empty_set Z := fun k =>
  match m k with
  | (k', Ok a) => (k', Ok (f a))
  | (k', Err _) => (k', Ok U64_MAX)
  | (k', Panic) => (k', Panic)
  end.

Definition syscall_shmem_create (size : Z) : K Empty_set Z :=
  if (size =? 0) || (1024 * 1024 * 1024 <? size) then M_ret U64_MAX
  else or_max (fun rid => rid) (shmem_create size ReadWrite).

Definition syscall_shmem_map (shmem_id virt_addr : Z) : K Empty_set Z :=
  if u32 shmem_id =? 0 then M_ret U64_MAX
  else if virt_addr =? 0 then M_ret U64_MAX
  else if 0x0000800000000000 <=? virt_addr then M_ret U64_MAX
  else if negb (Z.land virt_addr 0xFFF =? 0) then M_ret U64_MAX
  else or_max (fun _ => 0) (shmem_map (u32 shmem_id) virt_addr).

Definition syscall_shmem_grant (shmem_id target_task : Z) : K Empty_set Z :=
  if u32 shmem_id =? 0 then M_ret U64_MAX
  else if (target_task =? 0) || (2 ^ 32 - 1 <? target_task) then M_ret U64_MAX
  else or_max (fun _ => 0) (shmem_grant (u32 shmem_id) target_task).

Definition syscall_shmem_unmap (shmem_id virt_addr : Z) : K Empty_set Z :=
  if u32 shmem_id =? 0 then M_ret U64_MAX
  else if virt_addr =? 0 then M_ret U64_MAX
  else or_max (fun _ => 0) (shmem_unmap (u32 shmem_id) virt_addr).

Definition syscall_shmem_destroy (shmem_id : Z) : K Empty_set Z :=
  if u32 shmem_id =? 0 then M_ret U64_MAX
  else or_max (fun _ => 0) (shmem_destroy (u32 shmem_id)).

(** ** Task exit *)

Section exit.
Context `{HashOrder}.

(** The first phase: regions the task created leave the table; from the others
    the task and its mappings are dropped. *)
Definition drop_task (task_id : TaskId) (s : SharedMemory) : SharedMemory :=
  s <| shm_tasks := filter (fun x => x <> task_id) (shm_tasks s) |>
    <| mappings := filter (fun m => m.1 <> task_id) (mappings s) |>.

Definition created_by (task_id : TaskId) (s : SharedMemory) : bool :=
  bool_decide (head (shm_tasks s) = Some task_id).

Definition destroy_list (task_id : TaskId) (tb : gmap Z SharedMemory) : list SharedMemory :=
  omap (fun rid => tb !! rid ≫= fun s => if created_by task_id s then Some s else None) (hash_order (dom tb)).

Definition keep_table (task_id : TaskId) (tb : gmap Z SharedMemory) : gmap Z SharedMemory :=
  omap (fun s => if created_by task_id s then None else Some (drop_task task_id s)) tb.

Fixpoint destroy_regions (task_id : TaskId) (rs : list SharedMemory) : K ShmemError unit :=
  match rs with
  | [] => M_ret tt
  | s :: rest =>
      let s := s <| mappings := filter (fun m => m.1 <> task_id) (mappings s) |> in
      clear_mappings s ;;;
      free_region_pages s ;;;
      destroy_regions task_id rest
  end.

Definition free_task_regions (task_id : TaskId) : K ShmemError unit := fun k =>
  let to_destroy := destroy_list task_id (shmem_table k) in
  destroy_regions task_id to_destroy (k <| shmem_table := keep_table task_id (shmem_table k) |>).
End exit.
End mapping.

End Shmem.
