(* ===== verification/ShmemSpec.v ===== *)
(** * Shared memory: instances and lemmas

    Instances of the mapper's interface, then the effect of every loop of
    shared_memory.rs. *)

From S2P Require Import Prelude Message Buddy BuddySpec BuddyThm Pmm PmmThm Task Kernel Capability Paging Shmem.

(** * Instances of the interfaces

    A concrete mapper that satisfies the laws of [MapperLaws], and the
    iteration order of a finite set: the interfaces' hypotheses can hold, and
    the theorems stated against them can be run. *)

#[local] Open Scope kernel_scope.

Definition is_2mib (s : PageSize) : bool := match s with Size4KiB => false | Size2MiB => true end.

(** One word per mapped page, under an injective code of table, size and
    address, holding a code of frame and flags.  The shared half has one word
    for all tables. *)
Definition owner_of (pml4 virt : Z) : Z := if virt <? USER_END then pml4 else 0.
Definition flat_key (pml4 : Z) (s : PageSize) (virt : Z) : Z := Zpos (encode (owner_of pml4 virt, is_2mib s, virt)).
Definition flat_entry (phys flags : Z) : Z := Zpos (encode (phys, flags)).

Definition flat_mapped (m : PtMem) (pml4 : Z) (s : PageSize) (virt : Z) : option (Z * Z) :=
  match m !! flat_key pml4 s virt with
  | Some (Zpos p) => decode p
  | _ => None
  end.

#[export] Instance flat_mapper : Mapper := {
  map_to s pml4 virt phys flags st :=
    let (m, p) := st in
    match flat_mapped m pml4 s virt with
    | Some _ => ((m, p), false)
    | None => ((<[flat_key pml4 s virt := flat_entry phys flags]> m, p), true)
    end;
  unmap s pml4 virt m :=
    (delete (flat_key pml4 s virt) m, fst <$> flat_mapped m pml4 s virt);
  mapped := flat_mapped;
  apart p q := p <> q;
}.

Lemma flat_key_inj pml4 s virt pml4' s' virt' :
  flat_key pml4 s virt = flat_key pml4' s' virt' -> (s, virt) = (s', virt') /\ (virt < USER_END -> pml4 = pml4').
Proof.
  unfold flat_key. intros [= H]. apply (inj encode) in H. injection H as Ho Hs ->. split; [by destruct s, s'|].
  unfold owner_of in Ho. by destruct (Z.ltb_spec virt' USER_END); [|lia].
Qed.

#[export] Instance flat_mapper_laws : MapperLaws.
Proof.
  split.
  - intros s pml4 virt phys flags m p m' p' _. cbn.
    destruct (flat_mapped m pml4 s virt) eqn:E; [done|]. intros [= <- <-]. split; [done|].
    unfold flat_mapped. rewrite lookup_insert_eq. unfold flat_entry. by rewrite decode_encode.
  - intros s pml4 virt phys flags m p m' p' b pml4' s' virt'. cbn.
    destruct (flat_mapped m pml4 s virt) eqn:E; [by intros [= <- <- <-]|]. intros [= <- <- <-] _ Hne.
    unfold flat_mapped. rewrite lookup_insert_ne; [done|]. intros [Hk Hp]%flat_key_inj. destruct Hne as [?|[?|[? Hn]]]; [done|congruence|].
    by rewrite Hp in Hn.
  - intros s pml4 virt phys flags m p m' p' b. cbn.
    destruct (flat_mapped m pml4 s virt); intros [= <- <- <-]; by exists 0%nat.
  - intros s pml4 virt m _. split; [done|]. cbn. unfold flat_mapped. by rewrite lookup_delete_eq.
  - intros s pml4 virt m pml4' s' virt' e. cbn. unfold flat_mapped.
    destruct (delete _ m !! _) eqn:E; [|done]. by apply lookup_delete_Some in E as [_ ->].
Qed.

#[export] Instance elements_order : HashOrder := {
  hash_order := elements;
  hash_order_perm X := reflexivity (elements X);
}.

(** * Shared memory: lemmas

    The effect of every loop of [shared_memory.rs] on the allocator (which
    blocks it takes and gives back) and on the page tables (which translations
    it can add and which it removes). *)

Import Task Shmem.

(** ** Blocks *)

Definition blocks_of (o : nat) (pages : list Z) : Held := (fun a => (a, o)) <$> pages.

Lemma pmm_inv_perm lim p held held' : held ≡ₚ held' -> pmm_inv lim p held -> pmm_inv lim p held'.
Proof.
  intros Hp [Hr (L & HR & HW & Hx) Hb]. split; [done| |].
  - exists L. split_and!; [done..|]. intros x. by rewrite <- (owners_perm x _ _ Hp).
  - intros a o Hin. apply Hb. by rewrite Hp.
Qed.

#[export] Instance pmm_inv_proper lim p : Proper ((≡ₚ) ==> iff) (pmm_inv lim p).
Proof. intros held held' Hp. by split; apply pmm_inv_perm. Qed.

Section blocks.
Context (lim : Z) (Hlim : walkable lim).

Lemma free_blocks_inv o blocks p held held' :
  pmm_inv lim p held -> held ≡ₚ blocks_of o blocks ++ held' ->
  exists p', free_blocks o blocks p = (p', Ok tt) /\ pmm_inv lim p' held'.
Proof using Hlim.
  revert p held. induction blocks as [|a blocks IH]; intros p held Hinv Hp; cbn [free_blocks].
  - exists p. split; [done|]. by eapply pmm_inv_perm.
  - destruct (free_pages_inv lim Hlim a o p held (blocks_of o blocks ++ held') Hinv Hp) as (p1 & Hrun & Hinv1).
    unfold M_bind. rewrite Hrun. by eapply IH.
Qed.

Lemma alloc_blocks_inv o (alloc : Pmm.P (option Z)) n got p held :
  (forall p held, pmm_inv lim p held ->
     exists p' r, alloc p = (p', Ok r) /\ pmm_inv lim p' (hold r o held)) ->
  pmm_inv lim p (blocks_of o got ++ held) ->
  exists p' got' ok, alloc_blocks alloc n got p = (p', Ok (got', ok)) /\
    pmm_inv lim p' (blocks_of o got' ++ held) /\ (ok = true -> length got' = (length got + n)%nat).
Proof.
  intros Halloc. revert got p. induction n as [|n IH]; intros got p Hinv; cbn [alloc_blocks].
  - exists p, got, true. split_and!; [done..|lia].
  - destruct (Halloc p _ Hinv) as (p1 & [a|] & Hrun & Hinv1); unfold M_bind; rewrite Hrun.
    + destruct (IH (got ++ [a]) p1) as (p' & got' & ok & H1 & H2 & H3).
      { eapply pmm_inv_perm, Hinv1. unfold blocks_of. rewrite fmap_app. cbn. solve_Permutation. }
      exists p', got', ok. split_and!; [done..|]. intros Hok. rewrite (H3 Hok), length_app. cbn. lia.
    + exists p1, got, false. by split_and!.
Qed.

(** What the mapper does to the allocator: it takes some pages. *)
Definition takes (p p' : Pmm.State) : Prop := exists n, p' = Nat.iter n (fun p => (Pmm.alloc_page p).1) p.

#[export] Instance takes_preorder : PreOrder takes.
Proof.
  split; [by exists 0%nat|]. intros p1 p2 p3 [n ->] [m ->]. exists (m + n)%nat. by rewrite Nat.iter_add.
Qed.

Lemma takes_inv p p' held :
  takes p p' -> pmm_inv lim p held -> exists extra, pmm_inv lim p' (held ++ extra).
Proof using Hlim.
  intros [n ->] Hinv. induction n as [|n IH]; [exists []; by rewrite app_nil_r|].
  destruct IH as [extra IH]. rewrite Nat.iter_succ.
  destruct (alloc_page_inv lim Hlim _ _ IH) as (p1 & r & Hrun & Hinv1). rewrite Hrun.
  exists (hold r 0 extra). eapply pmm_inv_perm, Hinv1. destruct r; cbn; [solve_Permutation|done].
Qed.
End blocks.

(** ** The blocks of the table *)

Definition region_blocks (s : SharedMemory) : Held := blocks_of (Z.to_nat (block_order s)) (phys_pages s).

Definition table_blocks (tb : gmap Z SharedMemory) : Held := flat_map (fun x => region_blocks x.2) (map_to_list tb).

Lemma table_blocks_empty : table_blocks ∅ = [].
Proof. unfold table_blocks. by rewrite map_to_list_empty. Qed.

Lemma table_blocks_insert tb i s :
  tb !! i = None -> table_blocks (<[i := s]> tb) ≡ₚ region_blocks s ++ table_blocks tb.
Proof. intros Hi. unfold table_blocks. by rewrite map_to_list_insert. Qed.

Lemma table_blocks_delete tb i s :
  tb !! i = Some s -> table_blocks tb ≡ₚ region_blocks s ++ table_blocks (delete i tb).
Proof. intros Hi. unfold table_blocks. by rewrite <- (map_to_list_delete tb i s Hi). Qed.

Lemma table_blocks_alter tb i f :
  (forall s, region_blocks (f s) = region_blocks s) -> table_blocks (alter f i tb) ≡ₚ table_blocks tb.
Proof.
  intros Hf. destruct (tb !! i) as [s|] eqn:E.
  - rewrite (table_blocks_delete tb i s E), (table_blocks_delete (alter f i tb) i (f s)).
    + rewrite delete_alter_eq. by rewrite Hf.
    + by rewrite lookup_alter_eq, E.
  - by rewrite alter_id; [|intros; congruence].
Qed.

Lemma elem_table_blocks tb i s a :
  tb !! i = Some s -> a ∈ phys_pages s -> (a, Z.to_nat (block_order s)) ∈ table_blocks tb.
Proof.
  intros Hi Ha. rewrite (table_blocks_delete tb i s Hi). apply elem_of_app. left.
  unfold region_blocks, blocks_of. apply list_elem_of_fmap. eauto.
Qed.

(** The exit sweep splits the table's blocks into those it frees and those of
    the regions that stay. *)
Lemma sweep_blocks `{HashOrder} tid tb :
  table_blocks tb ≡ₚ flat_map region_blocks (destroy_list tid tb) ++ table_blocks (keep_table tid tb).
Proof.
  unfold destroy_list. rewrite (hash_order_perm (dom tb)).
  induction tb as [|i s tb Hi IH] using map_ind.
  - rewrite dom_empty_L, elements_empty. unfold keep_table. by rewrite omap_empty.
  - rewrite (table_blocks_insert _ _ _ Hi), dom_insert_L.
    rewrite elements_union_singleton by (by apply not_elem_of_dom).
    assert (forall l : list Z, i ∉ l ->
      omap (fun rid => <[i:=s]> tb !! rid ≫= fun s => if created_by tid s then Some s else None) l =
      omap (fun rid => tb !! rid ≫= fun s => if created_by tid s then Some s else None) l) as Hext.
    { intros l Hl. induction l as [|j l IHl]; [done|]. cbn. rewrite lookup_insert_ne by set_solver.
      rewrite IHl by set_solver. done. }
    cbn [omap list_omap]. rewrite lookup_insert_eq. cbn [mbind option_bind].
    rewrite Hext by (rewrite elem_of_elements; by apply not_elem_of_dom).
    unfold keep_table in *. destruct (created_by tid s) eqn:Hc.
    + rewrite omap_insert_None by (by rewrite Hc). rewrite delete_id by (by rewrite lookup_omap, Hi).
      cbn. rewrite <- app_assoc. by rewrite <- IH.
    + rewrite (omap_insert_Some _ _ _ _ (drop_task tid s)) by (by rewrite Hc).
      rewrite table_blocks_insert by (by rewrite lookup_omap, Hi).
      rewrite IH. change (region_blocks (drop_task tid s)) with (region_blocks s). solve_Permutation.
Qed.

(** ** Translations *)

Definition page_size_of (s : SharedMemory) : PageSize := if is_huge s then Size2MiB else Size4KiB.

(** A base address a region can be mapped at, and one at which it was: then
    all of it lies in the task's half. *)
Definition aligned (s : SharedMemory) (virt : Z) : Prop := virt mod block_bytes s = 0.

Definition placed (s : SharedMemory) (virt : Z) : Prop :=
  aligned s virt /\ 0 <= virt /\ virt + Z.of_nat (length (phys_pages s)) * block_bytes s <= USER_END.

Lemma block_bytes_page s : block_bytes s = page_bytes (page_size_of s).
Proof. unfold block_bytes, page_size_of. by destruct (is_huge s). Qed.

Lemma block_bytes_divide s : (block_bytes s | 2 ^ 47) /\ 0 < block_bytes s.
Proof.
  unfold block_bytes. destruct (is_huge s); (split; [|done]).
  - by exists (2 ^ 26).
  - by exists (2 ^ 35).
Qed.

(** The address of a block of a placed region does not wrap. *)
Lemma block_virt_small s virt i :
  0 <= virt -> virt + Z.of_nat i * block_bytes s <= USER_END ->
  block_virt s virt i = virt + Z.of_nat i * block_bytes s.
Proof.
  intros Hv Hi. unfold block_virt, USER_END in *. pose proof (block_bytes_divide s) as [_ Hb].
  rewrite (wrap_small 64 (Z.of_nat i * block_bytes s)) by (unfold in_width; lia). apply wrap_small. unfold in_width. lia.
Qed.

Lemma placed_block s virt i : placed s virt -> (i < length (phys_pages s))%nat -> block_virt s virt i < USER_END.
Proof.
  intros (_ & H0 & H1) Hi. pose proof (block_bytes_divide s) as [_ Hb]. rewrite block_virt_small by nia. nia.
Qed.

Lemma block_virt_page s virt i : aligned s virt -> (page_bytes (page_size_of s) | block_virt s virt i).
Proof.
  intros Ha. rewrite <- block_bytes_page. pose proof (block_bytes_divide s) as [Hd Hb]. apply Z.mod_divide; [lia|].
  unfold block_virt, wrap. assert (Hm : forall x, (x mod 2 ^ 64) mod block_bytes s = x mod block_bytes s).
  { intros x. apply Z.mod_mod_divide. destruct Hd as [c Hc]. exists (c * 2 ^ 17). rewrite <- Z.mul_assoc, (Z.mul_comm (2 ^ 17)), Z.mul_assoc, <- Hc. done. }
  rewrite Hm, Z.add_mod, Hm, Ha, Z.mod_mul by lia. done.
Qed.

Lemma block_virt_aligned s virt i :
  aligned s virt -> is_huge s = true -> Z.land (block_virt s virt i) (Paging.HUGE_2M - 1) = 0.
Proof.
  intros Ha Hh. apply (block_virt_page s virt i) in Ha. unfold page_size_of in Ha. rewrite Hh in Ha.
  change (Paging.HUGE_2M) with (2 ^ 21). rewrite land_ones_mod by done. by apply Z.mod_divide in Ha.
Qed.

Section tables.
Context `{MapperLaws}.

(** What the CPU translates a page to, by table root, size and address. *)
Definition trans (k : Kernel) (q : Z * PageSize * Z) : option (Z * Z) := mapped (pt_mem k) q.1.1 q.1.2 q.2.

(** Only page tables and the allocator change, the latter by taking pages. *)
Definition touches (k k' : Kernel) : Prop :=
  takes (pmm k) (pmm k') /\ k' = k <| pt_mem := pt_mem k' |> <| pmm := pmm k' |>.

#[export] Instance touches_preorder : PreOrder touches.
Proof.
  split.
  - intros k. split; [reflexivity|by destruct k].
  - intros k1 k2 k3 [T1 E1] [T2 E2]. split; [by transitivity (pmm k2)|]. rewrite E2 at 1.
    generalize (pt_mem k3), (pmm k3). intros m p. by rewrite E1.
Qed.

(** Nothing new is translated. *)
Definition shrinks (k k' : Kernel) : Prop := forall q e, trans k' q = Some e -> trans k q = Some e.

#[export] Instance shrinks_preorder : PreOrder shrinks.
Proof. split; [by intros ??|]. intros k1 k2 k3 H1 H2 q e Hq. by apply H1, H2. Qed.

Lemma shrinks_none k k' q : shrinks k k' -> trans k q = None -> trans k' q = None.
Proof. intros Hs Hq. destruct (trans k' q) as [e|] eqn:E; [|done]. apply Hs in E. congruence. Qed.

(** Nothing new is translated by the tables that can be told from [pml4]'s. *)
Definition shrinks_beside (pml4 : Z) (k k' : Kernel) : Prop :=
  forall q e, beside pml4 q.1.1 -> trans k' q = Some e -> trans k q = Some e.

Lemma unmap_effect sz pml4 virt k :
  let k' := k <| pt_mem := (unmap sz pml4 virt (pt_mem k)).1 |> in
  touches k k' /\ shrinks k k' /\ ((page_bytes sz | virt) -> trans k' (pml4, sz, virt) = None).
Proof.
  intros k'. split_and!.
  - by split; [exists 0%nat|].
  - intros [[p s] v] e. unfold trans. cbn. apply unmap_shrinks.
  - intros Hv. by destruct (unmap_ok sz pml4 virt (pt_mem k) Hv) as [_ Hn].
Qed.

(** The common part of both sizes; an address outside the task's half may panic. *)
Lemma unmap_page_spec sz pml4 v k :
  exists k' r, try_map (Paging.virt_addr v ;;; r <- Paging.run_unmap sz pml4 (Paging.containing_address sz v) ;; ok_or r Paging.UnmapFailed) k = (k', r) /\
    touches k k' /\ shrinks k k' /\
    match r with
    | Ok _ => (page_bytes sz | v) -> trans k' (pml4, sz, v) = None
    | Err _ => False
    | Panic => USER_END <= v
    end.
Proof.
  unfold try_map, M_bind. destruct (virt_addr_cases (E := Paging.MapError) v k) as [Hv|Hv]; rewrite Hv.
  - destruct (unmap_effect sz pml4 (Paging.containing_address sz v) k) as (H1 & H2 & H3). unfold Paging.run_unmap.
    destruct (unmap sz pml4 _ (pt_mem k)) as [m [r|]]; eexists _, (Ok _); split_and!; try done;
      intros Hp; rewrite containing_start in H3 by done; by apply H3.
  - exists k, Panic. split_and!; [done|reflexivity..|].
    destruct (Z.leb_spec USER_END v) as [|Hlt]; [done|]. by rewrite virt_addr_user in Hv.
Qed.

(** Removing the entry of a block. *)
Lemma unmap_block_spec s pml4 virt i k :
  exists k' r, unmap_block (is_huge s) pml4 (block_virt s virt i) k = (k', r) /\ touches k k' /\ shrinks k k' /\
    match r with
    | Ok _ => aligned s virt -> trans k' (pml4, page_size_of s, block_virt s virt i) = None
    | Err _ => False
    | Panic => USER_END <= block_virt s virt i
    end.
Proof.
  assert (Hpage : aligned s virt -> (page_bytes (page_size_of s) | block_virt s virt i)) by apply block_virt_page.
  pose proof (unmap_page_spec (page_size_of s) pml4 (block_virt s virt i) k) as (k' & r & Hrun & H1 & H2 & H3).
  assert (Hal := block_virt_aligned s virt i). unfold unmap_block, page_size_of in *. destruct (is_huge s).
  - unfold Paging.unmap_huge_page_in_table. destruct (Z.eqb_spec (Z.land (block_virt s virt i) (Paging.HUGE_2M - 1)) 0) as [Hz|Hz]; cbn [negb].
    + exists k', r. split_and!; try done. destruct r; auto.
    + exists k, (Ok false). split_and!; [done|reflexivity|reflexivity|]. intros Ha. by destruct Hz; apply Hal.
  - unfold Paging.unmap_page_in_table. exists k', r. split_and!; try done. destruct r; auto.
Qed.

(** Installing an entry. *)
Lemma map_page_spec sz pml4 virt phys flags k :
  (page_bytes sz | virt) -> (page_bytes sz | phys) -> virt <= USER_END ->
  exists k' r, try_map (Paging.virt_addr virt ;;; Paging.phys_addr phys ;;;
      ok <- Paging.run_map_to sz pml4 (Paging.containing_address sz virt) (Paging.containing_address sz phys) flags ;;
      if ok : bool then M_ret tt else throw Paging.MapFailed) k = (k', r) /\ touches k k' /\
    match r with
    | Ok b => (b = true -> virt < USER_END) /\ forall q e, beside pml4 q.1.1 -> trans k' q = Some e ->
        trans k q = Some e \/ (b = true /\ q = (pml4, sz, virt) /\ e = (phys, flags))
    | Err _ => False
    | Panic => True
    end.
Proof.
  intros Hv Hp Hu. unfold try_map, M_bind.
  destruct (virt_addr_cases (E := Paging.MapError) virt k) as [Hc|Hc]; rewrite Hc; [|by exists k, Panic; split_and!].
  assert (Hlt : virt < USER_END).
  { destruct (decide (virt = USER_END)) as [->|]; [|lia]. change (Paging.virt_addr (E := Paging.MapError) USER_END k) with (k, @Panic Paging.MapError unit) in Hc. congruence. }
  destruct (phys_addr_cases (E := Paging.MapError) phys k) as [-> | ->]; [|by exists k, Panic; split_and!].
  rewrite !containing_start by done. unfold Paging.run_map_to.
  destruct (map_to sz pml4 virt phys flags (pt_mem k, pmm k)) as [[m p] b] eqn:E.
  assert (Hgo : touches k (k <| pt_mem := m |> <| pmm := p |>) /\
    forall q e, beside pml4 q.1.1 -> trans (k <| pt_mem := m |> <| pmm := p |>) q = Some e ->
      trans k q = Some e \/ (b = true /\ q = (pml4, sz, virt) /\ e = (phys, flags))).
  { split; [by split; [by eapply map_to_frames|]|].
    intros [[p' s'] v'] e. unfold trans. cbn. intros Hb Hq.
    destruct (decide ((p', s', v') = (pml4, sz, virt) /\ b = true)) as [[[= -> -> ->] ->]|Hne].
    - destruct (map_to_ok _ _ _ _ _ _ _ _ _ Hv E) as [_ Hm]. right. split_and!; congruence.
    - left. rewrite <- Hq. symmetry. eapply map_to_other; [done|done|]. destruct b; [right|by left].
      destruct (decide ((s', v') = (sz, virt))) as [[= -> ->]|]; [right|by left]. split; [done|]. intros ->. by apply Hne. }
  destruct Hgo as [HT Hq]. destruct b; eexists _, (Ok _); split_and!; try done.
Qed.

Lemma map_block_spec s pml4 virt phys flags k :
  (page_bytes (page_size_of s) | virt) -> (page_bytes (page_size_of s) | phys) -> virt <= USER_END ->
  exists k' r, map_block (is_huge s) pml4 virt phys flags k = (k', r) /\ touches k k' /\
    match r with
    | Ok b => (b = true -> virt < USER_END) /\ forall q e, beside pml4 q.1.1 -> trans k' q = Some e ->
        trans k q = Some e \/ (b = true /\ q = (pml4, page_size_of s, virt) /\ e = (phys, flags))
    | Err _ => False
    | Panic => True
    end.
Proof.
  intros Hv Hp Hu. pose proof (map_page_spec _ pml4 virt phys flags k Hv Hp Hu) as Hgo.
  unfold map_block, page_size_of in *. destruct (is_huge s); [|exact Hgo].
  unfold Paging.map_huge_page_in_table. destruct (_ || _)%bool; [|exact Hgo].
  exists k, (Ok false). split; [done|]. split; [reflexivity|]. split; [done|]. by left.
Qed.

(** The translations of a region mapped at [virt] under the root [pml4]. *)
Definition page_at (s : SharedMemory) (pml4 virt : Z) (i : nat) : Z * PageSize * Z :=
  (pml4, page_size_of s, block_virt s virt i).

Lemma unmap_blocks_spec s pml4 virt is_ k :
  aligned s virt -> Forall (fun i => block_virt s virt i < USER_END) is_ ->
  exists k', unmap_blocks s pml4 virt is_ k = (k', Ok tt) /\ touches k k' /\ shrinks k k' /\
    forall i, i ∈ is_ -> trans k' (page_at s pml4 virt i) = None.
Proof.
  intros Ha Hu. revert k. induction Hu as [|i is_ Hi _ IH]; intros k; cbn [unmap_blocks].
  - exists k. split; [done|]. split; [reflexivity|]. split; [reflexivity|]. intros i Hi. set_solver.
  - destruct (unmap_block_spec s pml4 virt i k) as (k1 & r & Hrun & T1 & S1 & N1).
    unfold M_bind. rewrite Hrun. destruct r as [b|e|]; [|done|lia].
    destruct (IH k1) as (k2 & Hrun2 & T2 & S2 & N2).
    exists k2. split_and!; [done|by etrans|by etrans|]. intros j [->|Hj]%elem_of_cons; [|by apply N2].
    eapply shrinks_none; [exact S2|by apply N1].
Qed.

Lemma unmap_all_spec s pml4 virt is_ k :
  exists k' r, unmap_all s pml4 virt is_ k = (k', r) /\ touches k k' /\ shrinks k k' /\
    (aligned s virt -> r = Ok tt -> forall i, i ∈ is_ -> trans k' (page_at s pml4 virt i) = None).
Proof.
  revert k. induction is_ as [|i is_ IH]; intros k; cbn [unmap_all].
  - exists k, (Ok tt). split_and!; [done|reflexivity..|]. intros _ _ i Hi. set_solver.
  - destruct (unmap_block_spec s pml4 virt i k) as (k1 & r1 & Hrun & T1 & S1 & N1).
    unfold M_bind. rewrite Hrun. destruct r1 as [[]|e|]; [|exists k1, (Err UnmapFailed); by split_and!|done|exists k1, Panic; by split_and!].
    destruct (IH k1) as (k2 & r & Hrun2 & T2 & S2 & N2).
    exists k2, r. split_and!; [done|by etrans|by etrans|].
    intros Ha Hok j [->|Hj]%elem_of_cons; [|by apply N2]. eapply shrinks_none; [exact S2|by apply N1].
Qed.

Lemma next_block s virt i :
  aligned s virt -> virt + Z.of_nat i * block_bytes s < USER_END -> virt + Z.of_nat (S i) * block_bytes s <= USER_END.
Proof.
  intros Ha Hlt. pose proof (block_bytes_divide s) as [[c Hc] Hb]. apply Z.mod_divide in Ha as [a ->]; [|lia].
  change USER_END with (2 ^ 47) in *. rewrite Hc in Hlt |- *.
  assert (a + Z.of_nat i < c) by (apply (Z.mul_lt_mono_pos_r (block_bytes s)); lia).
  transitivity ((a + Z.of_nat (S i)) * block_bytes s); [lia|]. apply Z.mul_le_mono_nonneg_r; lia.
Qed.

(** Mapping installs the blocks in order, all in the task's half, or leaves
    nothing behind. *)
Lemma map_blocks_spec s pml4 virt flags i pages k :
  aligned s virt -> 0 <= virt -> virt + Z.of_nat i * block_bytes s <= USER_END ->
  Forall (fun phys => (page_bytes (page_size_of s) | phys)) pages ->
  exists k' r, map_blocks s pml4 virt flags i pages k = (k', r) /\ touches k k' /\
    match r with
    | Ok _ => virt + Z.of_nat (i + length pages) * block_bytes s <= USER_END /\
        forall q e, beside pml4 q.1.1 -> trans k' q = Some e -> trans k q = Some e \/
          exists j phys, pages !! j = Some phys /\ q = page_at s pml4 virt (i + j) /\ e.1 = phys
    | Err _ => shrinks_beside pml4 k k' /\ forall j, (j < i)%nat -> trans k' (page_at s pml4 virt j) = None
    | Panic => True
    end.
Proof.
  intros Ha Hv0 Hi Hpages. revert i k Hi. induction Hpages as [|phys pages Hphys _ IH]; intros i k Hi; cbn [map_blocks].
  { exists k, (Ok tt). split_and!; [done|reflexivity|cbn; by rewrite Nat.add_0_r|by left]. }
  assert (Hbi := block_virt_small s virt i Hv0 Hi).
  destruct (map_block_spec s pml4 (block_virt s virt i) phys flags k (block_virt_page s virt i Ha) Hphys ltac:(lia)) as (k1 & r1 & Hrun & T1 & M1).
  unfold M_bind at 1. rewrite Hrun. destruct r1 as [b|e|]; [|done|by exists k1, Panic; split_and!].
  destruct M1 as [Hlt M1]. destruct b.
  - assert (Hi' := next_block s virt i Ha ltac:(specialize (Hlt eq_refl); lia)).
    destruct (IH (S i) k1 Hi') as (k2 & r & Hrun2 & T2 & M2). exists k2, r. split_and!; [done|by etrans|].
    destruct r as [u|e|]; [..|done].
    + destruct M2 as [M2' M2]. split; [cbn [length]; by rewrite Nat.add_succ_r|]. intros q e Hb Hq. destruct (M2 q e Hb Hq) as [Hq1|(j & ph & Hj & -> & He)].
      * destruct (M1 q e Hb Hq1) as [?|(_ & -> & ->)]; [by left|]. right. exists 0%nat, phys.
        by rewrite Nat.add_0_r.
      * right. exists (S j), ph. by rewrite Nat.add_succ_r.
    + destruct M2 as [M2 N2]. split; [|intros j Hj; apply N2; lia].
      intros q e' Hb Hq. destruct (M1 q e' Hb (M2 q e' Hb Hq)) as [?|(_ & -> & _)]; [done|].
      pose proof (N2 i ltac:(lia)) as Hn. unfold page_at in Hn. congruence.
  - assert (Hall : Forall (fun j => block_virt s virt j < USER_END) (seq 0 i)).
    { apply Forall_forall. intros j Hj%elem_of_seq. pose proof (block_bytes_divide s) as [_ Hbb]. rewrite block_virt_small by nia. nia. }
    destruct (unmap_blocks_spec s pml4 virt (seq 0 i) k1 Ha Hall) as (k2 & Hrun2 & T2 & S2 & N2).
    unfold M_bind. rewrite Hrun2. exists k2, (Err MapFailed). split_and!; [done|by etrans| |].
    + intros q e Hb Hq. destruct (M1 q e Hb (S2 q e Hq)) as [?|(? & _)]; done.
    + intros j Hj. apply N2. apply elem_of_seq. lia.
Qed.

Lemma touches_get k k' tid : touches k k' -> get_task k' tid = get_task k tid.
Proof. intros [_ ->]. done. Qed.

(** Clearing removes every recorded translation of a live task. *)
Lemma clear_each_spec s ms k :
  Forall (fun m => placed s m.2) ms ->
  exists k', clear_each s ms k = (k', Ok tt) /\ touches k k' /\ shrinks k k' /\
    forall tid base t i, (tid, base) ∈ ms -> get_task k tid = Some t -> page_table_phys t <> 0 ->
      (i < length (phys_pages s))%nat -> trans k' (page_at s (page_table_phys t) base i) = None.
Proof.
  revert k. induction ms as [|[tid base] ms IH]; intros k Hal; cbn [clear_each].
  { exists k. split_and!; [done|reflexivity..|]. intros tid base t i Hin. set_solver. }
  apply Forall_cons in Hal as [Ha Hal]. unfold M_bind at 1, gets at 1.
  assert (forall k1, touches k k1 -> shrinks k k1 ->
    (forall t i, get_task k tid = Some t -> page_table_phys t <> 0 -> (i < length (phys_pages s))%nat ->
       trans k1 (page_at s (page_table_phys t) base i) = None) ->
    exists k', clear_each s ms k1 = (k', Ok tt) /\ touches k k' /\ shrinks k k' /\
    forall tid' base' t i, (tid', base') ∈ (tid, base) :: ms -> get_task k tid' = Some t -> page_table_phys t <> 0 ->
      (i < length (phys_pages s))%nat -> trans k' (page_at s (page_table_phys t) base' i) = None) as Hgo.
  { intros k1 T1 S1 N1. destruct (IH k1 Hal) as (k' & Hrun & T2 & S2 & N2).
    exists k'. split_and!; [done|by etrans|by etrans|].
    intros tid' base' t i [[= -> ->]|Hin]%elem_of_cons Ht Hp Hi.
    - eapply shrinks_none; [exact S2|by apply N1].
    - eapply N2; eauto. by rewrite (touches_get _ _ _ T1). }
  destruct (get_task k tid) as [t|] eqn:Ht; cbn [fmap option_fmap option_map].
  - destruct (Z.eqb_spec (page_table_phys t) 0).
    + apply Hgo; [reflexivity..|]. intros t' i [= <-]. done.
    + destruct (unmap_blocks_spec s (page_table_phys t) base (seq 0 (length (phys_pages s))) k (proj1 Ha))
        as (k1 & Hrun & T1 & S1 & N1).
      { apply Forall_forall. intros i Hi%elem_of_seq. apply placed_block; [done|lia]. }
      unfold M_bind. rewrite Hrun. apply Hgo; [done..|]. intros t' i [= <-] _ Hi. apply N1.
      apply elem_of_seq. lia.
  - apply Hgo; [reflexivity..|]. intros t i [=].
Qed.
End tables.
