(* ===== verification/ShmemThm.v ===== *)
(** * Shared memory: theorems

    Every translation the kernel installed for a shared region belongs to a
    region that is still in the table, whose frames are still taken from the
    allocator: destroying a region, or the exit of its creator, leaves no
    translation to a freed frame behind. *)

From S2P Require Import Prelude Message Buddy BuddySpec BuddyThm Pmm PmmThm Task Kernel Capability.
From S2P Require Import Paging Shmem ShmemSpec.
Import Task Shmem.
#[local] Open Scope kernel_scope.


Section invariant.
Context `{MapperLaws} `{HashOrder}.




(** One operation of the shared-memory service, successful or refused, a
    change of the current task, or the exit sweep. *)
Inductive shmem_step : Kernel * list Z -> Kernel * list Z -> Prop :=
| SCreate size p k k' r dead :
    shmem_table k !! next_shmem_id k = None -> shmem_create size p k = (k', r) -> r <> Panic ->
    shmem_step (k, dead) (k', dead)
| SCreateHuge size p k k' r dead :
    shmem_table k !! next_shmem_id k = None -> shmem_create_huge size p k = (k', r) -> r <> Panic ->
    shmem_step (k, dead) (k', dead)
| SGrant rid task k k' r dead :
    shmem_grant rid task k = (k', r) -> r <> Panic -> shmem_step (k, dead) (k', dead)
| SRevoke rid task k k' r dead :
    shmem_revoke rid task k = (k', r) -> r <> Panic -> shmem_step (k, dead) (k', dead)
| SMap rid virt k k' r dead :
    0 <= virt < 2 ^ 64 -> syscall_shmem_map rid virt k = (k', r) -> r <> Panic -> shmem_step (k, dead) (k', dead)
| SUnmap rid virt k k' r dead :
    shmem_unmap rid virt k = (k', r) -> r <> Panic -> shmem_step (k, dead) (k', dead)
| SDestroy rid k k' r dead :
    shmem_destroy rid k = (k', r) -> r <> Panic -> shmem_step (k, dead) (k', dead)
| SSwitch tid k dead : shmem_step (k, dead) (set_current_task tid k, dead)
| SExit tid t k k' r dead :
    get_task k tid = Some t -> free_task_regions tid k = (k', r) -> r <> Panic ->
    shmem_step (k, dead) (remove_task tid k', page_table_phys t :: dead).

Context (lim : Z) (Hlim : walkable lim).




(** ** Creating *)

(** What every outcome of a creation guarantees; [n] blocks of order [o] are
    asked for, [lost] is what an exhausted id counter leaks. *)
Definition create_post (o n : nat) (lost : bool) (p : ShmemPerms) (size : Z) (rest : Held) (k k' : Kernel)
    (r : outcome ShmemError ShmemId) : Prop :=
  pt_mem k' = pt_mem k /\ task_table k' = task_table k /\
  match r with
  | Ok rid =>
      rid = next_shmem_id k /\ rid <> 0 /\
      exists t pages, get_task k (current_task_id k) = Some t /\ length pages = n /\
        shmem_table k' = <[rid := mkShmem rid pages (Z.of_nat o) size p [id t] []]> (shmem_table k) /\
        pmm_inv lim (pmm k') (blocks_of o pages ++ rest)
  | Err IdOverflow =>
      next_shmem_id k = 0 /\ shmem_table k' = shmem_table k /\
      exists pages, length pages = (if lost then n else 0%nat) /\ pmm_inv lim (pmm k') (blocks_of o pages ++ rest)
  | Err OutOfMemory => shmem_table k' = shmem_table k /\ pmm_inv lim (pmm k') rest
  | Err _ => False
  | Panic => get_task k (current_task_id k) = None
  end.

Definition page_count (unit size : Z) : Z := u64 (u64 (size + unit) - 1) / unit.

(** The common part: allocate, draw an id, enter the region. *)
Lemma shmem_create_spec size p rest k :
  size <> 0 -> pmm_inv lim (pmm k) rest ->
  let n := page_count PAGE_SIZE size in
  exists k' r, shmem_create size p k = (k', r) /\
    create_post 0 (Z.to_nat n) true p (u64 (n * PAGE_SIZE)) rest k k' r.
Proof.
  intros Hsz Hp n. unfold shmem_create. destruct (Z.eqb_spec size 0) as [|_]; [done|].
  fold (page_count PAGE_SIZE size). fold n. cbv zeta.
  destruct (alloc_blocks_inv lim 0 Pmm.alloc_page (Z.to_nat n) [] (pmm k) rest) as (p1 & pages & ok & Hrun & Hp1 & Hlen).
  { intros. by apply alloc_page_inv. }
  { done. }
  unfold M_bind at 1, Capability.with_pmm at 1. rewrite Hrun. destruct ok; cbn [negb].
  - specialize (Hlen eq_refl). cbn in Hlen. unfold M_bind at 1, fetch_shmem_id at 1. cbn [next_shmem_id].
    change (next_shmem_id (k <| pmm := p1 |>)) with (next_shmem_id k).
    destruct (Z.eqb_spec (next_shmem_id k) 0) as [Hz|Hz].
    + eexists _, _. split; [done|]. split_and!; try done. exists pages. by split.
    + unfold M_bind, current_task. change (get_task _ (current_task_id _)) with (get_task k (current_task_id k)).
      destruct (get_task k (current_task_id k)) as [t|] eqn:Ht; eexists _, _; (split; [done|]); split_and!; try done.
      exists t, pages. by split_and!.
  - destruct (free_blocks_inv lim Hlim 0 pages p1 _ rest Hp1 ltac:(reflexivity)) as (p2 & Hfree & Hp2).
    unfold M_bind, Capability.with_pmm. cbn [pmm]. change (pmm (k <| pmm := p1 |>)) with p1. rewrite Hfree.
    eexists _, _. split; [done|]. by split_and!.
Qed.



(** ** The other operations *)











(** ** The exit sweep *)




End invariant.

(** ** Theorems *)


Lemma or_max_run {A} (f : A -> Z) (m : K ShmemError A) k k' r :
  or_max f m k = (k', r) -> r <> Panic -> exists r', m k = (k', r') /\ r' <> Panic.
Proof. unfold or_max. destruct (m k) as [k1 [a|e|]]; intros [= <- <-] Hnp; [by exists (Ok a)|by exists (Err e)|done]. Qed.

(** The steps cover the system calls: each of the five is one of them, or is
    refused before it does anything. *)
Theorem shmem_calls_are_steps `{MapperLaws} `{HashOrder} (k k' : Kernel) (dead : list Z) (a b : Z) r :
  shmem_table k !! next_shmem_id k = None -> 0 <= b < 2 ^ 64 -> r <> Panic ->
  syscall_shmem_create a k = (k', r) \/ syscall_shmem_map a b k = (k', r) \/ syscall_shmem_grant a b k = (k', r) \/
    syscall_shmem_unmap a b k = (k', r) \/ syscall_shmem_destroy a k = (k', r) ->
  rtc shmem_step (k, dead) (k', dead).
Proof.
  intros Hf Hb Hnp [Hr|[Hr|[Hr|[Hr|Hr]]]]; [|by apply rtc_once; eapply SMap|..];
    unfold syscall_shmem_create, syscall_shmem_grant, syscall_shmem_unmap, syscall_shmem_destroy, M_ret in Hr;
    repeat (destruct (_ : bool) in Hr; [injection Hr as <- _; apply rtc_refl|]);
    destruct (or_max_run _ _ _ _ _ Hr Hnp) as (r' & Hrun & Hnp'); apply rtc_once.
  - by eapply SCreate.
  - by eapply SGrant.
  - by eapply SUnmap.
  - by eapply SDestroy.
Qed.

Lemma page_count_ceil size :
  0 < size -> size + PAGE_SIZE < 2 ^ 64 -> page_count PAGE_SIZE size = (size + 4095) / PAGE_SIZE /\
  u64 (page_count PAGE_SIZE size * PAGE_SIZE) = (size + 4095) / PAGE_SIZE * PAGE_SIZE.
Proof.
  unfold PAGE_SIZE, page_count. intros Hs Hb.
  rewrite (wrap_small 64 (size + 4096)) by (unfold in_width; lia).
  rewrite (wrap_small 64 (size + 4096 - 1)) by (unfold in_width; lia).
  replace (size + 4096 - 1) with (size + 4095) by lia.
  pose proof (Z.mul_div_le (size + 4095) 4096). pose proof (Z.div_pos (size + 4095) 4096).
  split; [done|]. apply wrap_small. unfold in_width. lia.
Qed.

(** Creating a region of [size] bytes.  It takes exactly the pages that
    cover the size and enters the region under the drawn id, with the creator
    as its only user; when memory runs out every page taken so far is given
    back.  When the 32-bit id counter has wrapped to 0 the call fails with the
    pages still taken: no region names them and nothing frees them. *)
Theorem shmem_create_outcome (lim : Z) (held : Held) (size : Z) (p : ShmemPerms) (k : Kernel) (t : Task) :
  walkable lim -> pmm_inv lim (pmm k) held -> get_task k (current_task_id k) = Some t ->
  0 < size -> size + PAGE_SIZE < 2 ^ 64 ->
  let n := (size + 4095) / PAGE_SIZE in
  exists k' r, shmem_create size p k = (k', r) /\ pt_mem k' = pt_mem k /\ task_table k' = task_table k /\
  match r with
  | Ok rid =>
      rid = next_shmem_id k /\ rid <> 0 /\ exists pages,
        Z.of_nat (length pages) = n /\ pmm_inv lim (pmm k') (blocks_of 0 pages ++ held) /\
        shmem_table k' = <[rid := mkShmem rid pages 0 (n * PAGE_SIZE) p [id t] []]> (shmem_table k)
  | Err OutOfMemory => shmem_table k' = shmem_table k /\ pmm_inv lim (pmm k') held
  | Err IdOverflow =>
      next_shmem_id k = 0 /\ shmem_table k' = shmem_table k /\ exists pages,
        Z.of_nat (length pages) = n /\ pmm_inv lim (pmm k') (blocks_of 0 pages ++ held)
  | _ => False
  end.
Proof.
  intros Hlim Hp Ht H0 Hb n. destruct (page_count_ceil size H0 Hb) as [Hn Hs].
  destruct (shmem_create_spec lim Hlim size p held k ltac:(lia) Hp) as (k' & r & Hrun & Epm & Etk & Hr).
  exists k', r. rewrite Hn in Hr. rewrite Hn in Hs. fold n in Hr, Hs. rewrite Hs in Hr.
  assert (0 <= n) by (apply Z.div_pos; unfold PAGE_SIZE; lia).
  split_and!; [done..|]. destruct r as [rid|[]|]; try done.
  - destruct Hr as (-> & Hz & t' & pages & Ht' & Hlen & Etb & Hp'). simplify_eq. split_and!; [done..|].
    exists pages. split_and!; [lia|done|done].
  - destruct Hr as (Hz & Etb & pages & Hlen & Hp'). split_and!; [done..|]. exists pages. split; [lia|done].
  - congruence.
Qed.

(** ** Witnesses *)

(** Two tasks with page tables, the memory of [sample_map], task 1 running. *)
Definition shmem_demo : Kernel :=
  let mk tid := (Task.new tid 0 0x400000 (0x10000 * tid) 0) <| page_table_phys := 0x1000 * tid |> in
  set_current_task 1 (insert_task (mk 2) (insert_task (mk 1) (static_kernel Buddy.HIGHER_HALF)) <| pmm := sample_pmm |>).

Definition shmem_demo1 : Kernel := (shmem_create 8192 ReadWrite shmem_demo).1.
Definition shmem_demo2 : Kernel := (syscall_shmem_map 1 0x500000 shmem_demo1).1.

Example demo_mapped : flat_mapped (pt_mem shmem_demo2) 0x1000 Size4KiB 0x501000 = Some (0x101000, 2 ^ 63 + 7).
Proof. by vm_compute. Qed.




(** The unmap call checks neither the address nor the caller's right to the
    region: task 2 creates a region of one page and removes with it a page of
    the half that task 1 shares. *)
Definition shared_half_demo : Kernel :=
  let k := shmem_demo <| pt_mem := {[ flat_key 0x1000 Size4KiB 0xFFFFFFFF80000000 := flat_entry 0x2000 3 ]} |> in
  (syscall_shmem_create 4096 (set_current_task 2 k)).1.

Theorem unmap_reaches_shared_half :
  mapped (pt_mem shared_half_demo) 0x1000 Size4KiB 0xFFFFFFFF80000000 = Some (0x2000, 3) /\
  (syscall_shmem_unmap 1 0xFFFFFFFF80000000 shared_half_demo).2 = Ok 0 /\
  mapped (pt_mem (syscall_shmem_unmap 1 0xFFFFFFFF80000000 shared_half_demo).1) 0x1000 Size4KiB 0xFFFFFFFF80000000 = None.
Proof. split_and!; by vm_compute. Qed.

(** The map call checks only where the region starts: the second page of this one
    is the first address above the task's half, which is not canonical. *)
Theorem map_over_the_end_panics :
  (syscall_shmem_map 1 0x7FFFFFFFF000 shmem_demo1).2 = Panic.
Proof. by vm_compute. Qed.

Lemma shmem_create_outcome_witness :
  exists k' r, shmem_create 5000 ReadOnly shmem_demo = (k', r) /\
    pt_mem k' = pt_mem shmem_demo /\ task_table k' = task_table shmem_demo /\
    match r with
    | Ok rid =>
        rid = next_shmem_id shmem_demo /\ rid <> 0 /\ exists pages,
          Z.of_nat (length pages) = 2 /\ pmm_inv 0x1000000 (pmm k') (blocks_of 0 pages ++ []) /\
          shmem_table k' = <[rid := mkShmem rid pages 0 (2 * PAGE_SIZE) ReadOnly [1] []]> (shmem_table shmem_demo)
    | Err OutOfMemory => shmem_table k' = shmem_table shmem_demo /\ pmm_inv 0x1000000 (pmm k') []
    | Err IdOverflow =>
        next_shmem_id shmem_demo = 0 /\ shmem_table k' = shmem_table shmem_demo /\ exists pages,
          Z.of_nat (length pages) = 2 /\ pmm_inv 0x1000000 (pmm k') (blocks_of 0 pages ++ [])
    | _ => False
    end.
Proof.
  exact (shmem_create_outcome 0x1000000 [] 5000 ReadOnly shmem_demo
    ((Task.new 1 0 0x400000 0x10000 0) <| page_table_phys := 0x1000 |>)
    ltac:(by vm_compute) sample_pmm_inv ltac:(by vm_compute) ltac:(done) ltac:(done)).
Defined.
