(* ===== verification/Ipc.v ===== *)
(** * Inter-process communication and exit

    The IPC paths, then the task life cycle system calls. *)

From S2P Require Import Prelude Bytes Message CapTypes Buddy Pmm Task Kernel Capability Scheduler Paging Shmem.

(** * Inter-process communication

    Models [kernel/src/ipc/send.rs], [kernel/src/ipc/receive.rs] and the IPC
    system calls of [kernel/src/arch/x86_64/syscall/handlers/ipc.rs]:
    synchronous and asynchronous sends, receives, replies, deferred replies by
    token, and the wake-up of waiters when a task exits. *)

Import Task.
#[local] Open Scope kernel_scope.

Module Ipc.

Inductive Errno : Type :=
| EINVAL
| EPERM
| ENOBUFS
| EDEAD
| ECAPFAIL
| ENOTASK
| EWOULDBLOCK
| ESRCH.

(** ** Sending *)

Definition capability_check (k : Kernel) (t : Task) (target : TaskId) : bool :=
  Capability.has_ipc_send k (id t) target.

(** [transfer_capability]: every capability error becomes [ECAPFAIL]. *)
Definition transfer_capability (sender target : Task) (cap_id : CapabilityId) : K Errno unit := fun k =>
  match Capability.check k cap_id with
  | None => (k, Err ECAPFAIL)
  | Some cap =>
      match Capability.transfer (id sender) (id target) cap k with
      | (k', Ok _) => (k', Ok tt)
      | (k', Err _) => (k', Err ECAPFAIL)
      | (k', Panic) => (k', Panic)
      end
  end.

(** [target_lock.recv_queue.push(msg)] *)
Definition push_message (target : TaskId) (msg : IpcMessage) : K Errno unit := fun k =>
  match get_task k target with
  | None => (k, Panic)
  | Some t =>
      if (Queue.push (recv_queue t) msg).2
      then (update_task target (fun t => t <| recv_queue := (Queue.push (recv_queue t) msg).1 |>) k, Ok tt)
      else (k, Err ENOBUFS)
  end.

(** Make a task that waits for a message runnable and queue it. *)
Definition wake_if_receiving (target : TaskId) (k : Kernel) : Kernel :=
  match get_task k target with
  | Some t =>
      if decide (state t = BlockedOnReceive)
      then Sched.enqueue target (update_task target (fun t => t <| state := Runnable |>) k)
      else k
  | None => k
  end.

(** The part both sends share: target, liveness and permission checks, the
    kernel's copy of the message, the capability transfer.  Gives back the
    current task and the message. *)
Definition prepare_send (target : TaskId) (ty : IpcType) (msg : IpcMessage) : K Errno (Task * IpcMessage) :=
  tt' <- gets (fun k => get_task k target) ;;
  target_task <- ok_or tt' EINVAL ;;
  fail_if (bool_decide (state target_task = Exited)) EDEAD ;;;
  current <- current_task ;;
  allowed <- gets (fun k => capability_check k current target) ;;
  fail_if (negb allowed) EPERM ;;;
  mid <- next_message_id ;;
  let kernel_msg := ((msg <| sender := id current |>) <| msg_type := ty |>) <| msg_id := mid |> in
  match cap kernel_msg with
  | Some cap_id => transfer_capability current target_task cap_id
  | None => M_ret tt
  end ;;;
  M_ret (current, kernel_msg).

(** Steps 6 to 8 of [ipc_send], with interrupts off: enqueue, block the
    sender, pass its priority on, wake the target. *)
Definition block_on_send (current_id target : TaskId) (kernel_msg : IpcMessage) : K Errno unit :=
  push_message target kernel_msg ;;;
  sender_priority <- gets (fun k => default 0 (priority <$> get_task k current_id)) ;;
  modify (update_task current_id (fun t =>
    ((t <| state := BlockedOnSend target |>) <| blocked_on := Some target |>) <| ipc_reply := None |>)) ;;;
  modify (update_task target (fun t =>
    if inherited_priority t <? sender_priority then t <| inherited_priority := sender_priority |> else t)) ;;;
  modify (wake_if_receiving target).

(** How a blocking send ends in the caller's kernel frame: the yield switched
    away for good (the reply arrives in [context.rax]), or it came back. *)
Inductive SendResult : Type :=
| SwitchedAway
| GotReply (reply : IpcMessage).

Definition ipc_send (target : TaskId) (msg : IpcMessage) : K Errno SendResult :=
  pm <- prepare_send target Request msg ;;
  let '(_, kernel_msg) := pm in
  cur <- gets current_task_id ;;
  block_on_send cur target kernel_msg ;;;
  y <- Sched.yield_cpu ;;
  match y with
  | Sched.Switched _ => M_ret SwitchedAway
  | Sched.Returned =>
      r <- gets (fun k => get_task k cur ≫= ipc_reply) ;;
      modify (update_task cur (fun t => t <| ipc_reply := None |>)) ;;;
      reply <- ok_or r EINVAL ;;
      M_ret (GotReply reply)
  end.

Definition ipc_send_async (target : TaskId) (msg : IpcMessage) : K Errno unit :=
  pm <- prepare_send target Notification msg ;;
  let '(_, kernel_msg) := pm in
  push_message target kernel_msg ;;;
  modify (wake_if_receiving target).

(** ** Receiving *)

(** [current_lock.recv_queue.pop()] *)
Definition pop_message : K Errno (option IpcMessage) :=
  t <- current_task ;;
  cur <- gets current_task_id ;;
  modify (update_task cur (fun t => t <| recv_queue := (Queue.pop (recv_queue t)).1 |>)) ;;;
  M_ret (Queue.pop (recv_queue t)).2.

Definition ipc_receive : K Errno IpcMessage :=
  m <- pop_message ;;
  match m with
  | Some msg => M_ret msg
  | None =>
      cur <- gets current_task_id ;;
      modify (update_task cur (fun t => t <| state := BlockedOnReceive |>)) ;;;
      throw EWOULDBLOCK
  end.

Definition ipc_try_receive : K Errno (option IpcMessage) := pop_message.

Definition ipc_recv_async : K Errno (Z * IpcMessage) :=
  current <- current_task ;;
  m <- pop_message ;;
  match m with
  | None => throw EWOULDBLOCK
  | Some msg =>
      (if decide (msg_type msg = Request) then
         modify (update_task (sender msg) (fun s =>
           if decide (state s = BlockedOnSend (id current))
           then s <| state := WaitingForReply (msg_id msg) |> else s))
       else M_ret tt) ;;;
      M_ret (CallerToken.new (sender msg) (msg_id msg), msg)
  end.

(** ** Replying *)

(** Deliver a reply to a waiting sender and make it runnable; then drop the
    priority the current task inherited, and queue the sender. *)
Definition deliver_reply (sender_id : TaskId) (reply_payload : Payload) : K Errno unit :=
  current <- current_task ;;
  mid <- next_message_id ;;
  let reply_msg := ((new_reply reply_payload) <| sender := id current |>) <| msg_id := mid |> in
  modify (update_task sender_id (fun s =>
    (((s <| ipc_reply := Some reply_msg |>)
        <| context := (context s) <| rax := p0 reply_payload |> |>)
        <| state := Runnable |>) <| blocked_on := None |>)) ;;;
  cur <- gets current_task_id ;;
  modify (update_task cur (fun t => t <| inherited_priority := 0 |>)) ;;;
  modify (Sched.enqueue sender_id).

Definition ipc_reply (request : IpcMessage) (reply_payload : Payload) : K Errno unit :=
  current <- current_task ;;
  let sender_id := sender request in
  s <- gets (fun k => get_task k sender_id) ;;
  sender_task <- ok_or s EINVAL ;;
  fail_if (negb (bool_decide (state sender_task = BlockedOnSend (id current)))) EINVAL ;;;
  deliver_reply sender_id reply_payload.

Definition ipc_reply_with_token (token : Z) (reply_payload : Payload) : K Errno unit :=
  current_task ;;;
  d <- ok_or (CallerToken.decode token) EINVAL ;;
  let '(sender_pid, request_id) := d in
  s <- gets (fun k => get_task k sender_pid) ;;
  sender_task <- ok_or s ESRCH ;;
  fail_if (negb (bool_decide (state sender_task = WaitingForReply request_id))) EINVAL ;;;
  deliver_reply sender_pid reply_payload.

(** ** Waking waiters on exit *)

Definition should_wake (exiting_task : TaskId) (t : Task) : bool :=
  bool_decide (blocked_on t = Some exiting_task) &&
  match state t with
  | BlockedOnSend x => x =? exiting_task
  | WaitingForReply _ => true
  | _ => false
  end.

Definition wake_with_error (t : Task) : Task :=
  (((t <| context := (context t) <| rax := U64_MAX |> |>) <| state := Runnable |>)
     <| blocked_on := None |>) <| Task.ipc_reply := None |>.

Fixpoint unblock_each (exiting_task : TaskId) (ids : list TaskId) (k : Kernel) : Kernel * Z :=
  match ids with
  | [] => (k, 0)
  | tid :: rest =>
      match get_task k tid with
      | Some t =>
          if should_wake exiting_task t then
            let (k', n) := unblock_each exiting_task rest
                             (Sched.enqueue tid (update_task tid wake_with_error k)) in
            (k', u32 (n + 1))
          else unblock_each exiting_task rest k
      | None => unblock_each exiting_task rest k
      end
  end.

Definition unblock_waiters_for (exiting_task : TaskId) (k : Kernel) : Kernel * Z :=
  unblock_each exiting_task (task_ids k) k.

(** ** System calls *)

Definition EAGAIN_RECV : Z := 0xFFFFFFFFFFFFFFFD.
Definition ERR_RECV : Z := 0xFFFFFFFFFFFFFFFC.

(** Turn a result into a return value; [None] when the call does not return
    here. *)
Definition ret_value {A} (ok : A -> Kernel -> Kernel * option Z) (err : Errno -> Z)
    (m : K Errno A) : K Errno (option Z) := fun k =>
  match m k with
  | (k', Ok a) => let (k'', v) := ok a k' in (k'', Ok v)
  | (k', Err e) => (k', Ok (Some (err e)))
  | (k', Panic) => (k', Panic)
  end.

Definition syscall_ipc_send (target payload0 payload1 : Z) : K Errno (option Z) := fun k =>
  let msg := (new_request (mkPayload payload0 payload1 0 0)) <| sender := current_task_id k |> in
  ret_value (fun r k =>
    match r with
    | GotReply reply => (record_ipc_sent (current_task_id k) k, Some (p0 (payload reply)))
    | SwitchedAway => (k, None)
    end) (fun _ => U64_MAX) (ipc_send (u32 target) msg) k.

(** Keep the received message for the reply, and pack sender and payload. *)
Definition remember_request (msg : IpcMessage) (k : Kernel) : Kernel :=
  let k := record_ipc_received (current_task_id k) k in
  update_task (current_task_id k) (fun t => t <| Task.ipc_reply := Some msg |>) k.

Definition syscall_ipc_receive : K Errno (option Z) :=
  ret_value (fun msg k =>
    (remember_request msg k,
     Some (Z.lor (u64 (Z.shiftl (Z.land (p0 (payload msg)) 0xFFFFFFFF) 32)) (sender msg))))
    (fun e => match e with EWOULDBLOCK => EAGAIN_RECV | _ => ERR_RECV end) ipc_receive.

Definition syscall_ipc_reply (payload0 payload1 : Z) : K Errno (option Z) := fun k =>
  match get_task k (current_task_id k) with
  | None => (k, Ok (Some U64_MAX))
  | Some t =>
      match Task.ipc_reply t with
      | None => (k, Ok (Some U64_MAX))
      | Some request_msg =>
          ret_value (fun _ k => (record_ipc_replied (current_task_id k) k, Some 0)) (fun _ => U64_MAX)
            (ipc_reply request_msg (mkPayload payload0 payload1 0 0)) k
      end
  end.

Definition syscall_ipc_recv_async : K Errno (option Z) :=
  ret_value (fun tm k => (remember_request tm.2 k, Some (CallerToken.as_raw tm.1)))
    (fun e => match e with EWOULDBLOCK => EAGAIN_RECV | _ => ERR_RECV end) ipc_recv_async.

Definition syscall_ipc_reply_token (token_raw payload0 payload1 : Z) : K Errno (option Z) :=
  ret_value (fun _ k => (record_ipc_replied (current_task_id k) k, Some 0)) (fun _ => U64_MAX)
    (ipc_reply_with_token (CallerToken.from_raw token_raw) (mkPayload payload0 payload1 0 0)).

Definition syscall_ipc_get_recv_payload (k : Kernel) : Z :=
  match get_task k (current_task_id k) ≫= Task.ipc_reply with
  | Some msg => p0 (payload msg)
  | None => U64_MAX
  end.

Definition syscall_ipc_get_recv_sender (k : Kernel) : Z :=
  match get_task k (current_task_id k) ≫= Task.ipc_reply with
  | Some msg => sender msg
  | None => U64_MAX
  end.

End Ipc.

(** * Task lifecycle

    Models [kernel/src/arch/x86_64/syscall/handlers/task.rs]: the exit system
    call with everything it releases (including [free_task_slots] of
    [kernel/src/net/tcp_async.rs]) and the task listings. *)

Import Task.

Module Lifecycle.

(** ** TCP slots *)

(** One slot of the exiting task: its socket is aborted and removed from the
    network stack, the slot becomes free. *)
Definition free_slot (task_id : TaskId) (s : AsyncSlot) : AsyncSlot * list Z :=
  if slot_owner s =? task_id then
    (((s <| handle := None |>) <| slot_state := SlotFree |>) <| slot_owner := 0 |>,
     match handle s with Some h => [h] | None => [] end)
  else (s, []).

(** [free_task_slots]: best effort, skipped when the stack is busy or down. *)
Definition free_task_slots (task_id : TaskId) (k : Kernel) : Kernel :=
  match net_state k with
  | NetBusy | NetDown => k
  | NetUp =>
      k <| tcp_slots := fst <$> (free_slot task_id <$> tcp_slots k) |>
        <| closed_sockets := rev (mjoin (snd <$> (free_slot task_id <$> tcp_slots k))) ++ closed_sockets k |>
  end.

(** ** Exit *)

(** [let _ = m]: keep the effect, drop the error. *)
Definition ignore {E A} (m : K E A) : K Empty_set unit := fun k =>
  match m k with
  | (k', Panic) => (k', Panic)
  | (k', _) => (k', Ok tt)
  end.

Fixpoint revoke_all (caps : list CapabilityId) : K Empty_set unit :=
  match caps with
  | [] => M_ret tt
  | c :: rest => ignore (Capability.revoke_with_cleanup c) ;;; revoke_all rest
  end.

Section exit.
Context `{Mapper} `{HashOrder}.

(** [syscall_exit], up to its final halt loop. *)
Definition syscall_exit : K Empty_set unit :=
  current_id <- gets get_current_task ;;
  t <- gets (fun k => get_task k current_id) ;;
  let pt := default 0 (page_table_phys <$> t) in
  let stack_base := t ≫= kernel_stack_base in
  modify (update_task current_id (fun t => t <| state := Exited |>)) ;;;
  modify (free_task_slots current_id) ;;;
  ignore (Shmem.free_task_regions current_id) ;;;
  modify (fun k => (Ipc.unblock_waiters_for current_id k).1) ;;;
  caps <- gets (fun k => default [] (capabilities <$> get_task k current_id)) ;;
  modify (update_task current_id (fun t => t <| capabilities := [] |>)) ;;;
  revoke_all caps ;;;
  modify (remove_task current_id) ;;;
  (if pt =? 0 then M_ret tt
   else
     modify (fun k => if kernel_pml4 k =? 0 then k else k <| cr3 := kernel_pml4 k |>) ;;;
     Paging.free_task_page_table pt) ;;;
  match stack_base with
  | Some base => modify (fun k => k <| freed_stacks := base :: freed_stacks k |>)
  | None => M_ret tt
  end.
End exit.

(** ** Listings *)

Definition syscall_get_pid (k : Kernel) : Z := get_current_task k.
Definition syscall_task_list (k : Kernel) : Z := Z.of_nat (size (task_table k)).
Definition syscall_uptime (k : Kernel) : Z := uptime k.

Definition state_val (s : TaskState) : Z :=
  match s with
  | Runnable => 0
  | Running => 1
  | BlockedOnReceive => 2
  | BlockedOnSend _ => 3
  | WaitingForReply _ => 4
  | Exited => 5
  end.

(** One 32-byte record: id, state, name, CPU time. *)
Definition task_record (tid : TaskId) (t : Task) : list Z :=
  le_bytes 4 tid ++ le_bytes 4 (state_val (state t)) ++ name t ++ le_bytes 8 (cpu_time_used_ms t).

(** The records that fit, in key order, with their number. *)
Fixpoint write_records (k : Kernel) (ids : list TaskId) (room : Z) : list Z * Z :=
  match ids with
  | [] => ([], 0)
  | tid :: rest =>
      if room <? 32 then ([], 0)
      else
        match get_task k tid with
        | Some t => let (bytes, n) := write_records k rest (room - 32) in (task_record tid t ++ bytes, n + 1)
        | None => write_records k rest room
        end
  end.

Definition USERSPACE_TOP : Z := 0x0000800000000000.

(** [syscall_task_list_detailed]: what is written to the buffer, and the
    return value. *)
Definition syscall_task_list_detailed (buf_ptr buf_size : Z) (k : Kernel) : list Z * Z :=
  if ((buf_ptr =? 0) || (buf_size =? 0))%bool then ([], Z.of_nat (size (task_table k)))
  else if ((buf_ptr <? 0x200000) || (USERSPACE_TOP <=? buf_ptr) || (64 * 1024 <? buf_size))%bool then ([], 0)
  else
    match checked_add 64 buf_ptr buf_size with
    | None => ([], 0)
    | Some buf_end =>
        if USERSPACE_TOP <? buf_end then ([], 0)
        else write_records k (task_ids k) buf_size
    end.

End Lifecycle.
