(* ===== verification/IpcInv.v ===== *)
(** * The IPC invariant

    What every task of a running kernel satisfies: its table key is its id,
    its queue respects its capacity, a blocked task records whom it waits for
    and that task exists, a runnable task is in the run queue, and its
    capability identifiers have been issued.  Each operation of IPC,
    scheduling and capabilities keeps it. *)

From S2P Require Import Prelude Message CapTypes Buddy Pmm Bridge Task Kernel Capability CapabilityThm.
From S2P Require Import Scheduler SchedulerThm Ipc.
Import Cap Task.
#[local] Open Scope kernel_scope.

Definition alive (k : Kernel) (tid : TaskId) : Prop := is_Some (get_task k tid).

Definition blocked_ok (k : Kernel) (t : Task) : Prop :=
  match state t with
  | BlockedOnSend x => blocked_on t = Some x /\ alive k x
  | WaitingForReply _ => exists x, blocked_on t = Some x /\ alive k x
  | _ => True
  end.

Record task_ok (k : Kernel) (tid : TaskId) (t : Task) : Prop := {
  tok_id : id t = tid;
  tok_queue : Queue.wf (recv_queue t);
  tok_blocked : blocked_ok k t;
  tok_runnable : state t = Runnable -> tid ∈ tasks (scheduler k);
  tok_caps i : i ∈ capabilities t -> i < next_id (cap_table k);
}.

Definition ipc_inv (k : Kernel) : Prop :=
  table_ok (cap_table k) /\ forall tid t, get_task k tid = Some t -> task_ok k tid t.

Lemma ipc_inv_caps k : ipc_inv k -> caps_inv k.
Proof. intros [Hok Ht]. split; [done|]. intros tid t i Hg Hi. by eapply tok_caps; [apply Ht|]. Qed.

(** ** Moving the invariant between kernels *)

(** A task stays fine in a kernel with no fewer tasks, queue entries and
    issued identifiers. *)
Lemma task_ok_mono k k' tid t :
  (forall x, alive k x -> alive k' x) -> (forall x, x ∈ tasks (scheduler k) -> x ∈ tasks (scheduler k')) ->
  next_id (cap_table k) <= next_id (cap_table k') -> task_ok k tid t -> task_ok k' tid t.
Proof.
  intros Ha Hq Hn [Hid Hw Hb Hr Hc]. split; try done; [|auto|].
  - unfold blocked_ok in *. destruct (state t); naive_solver.
  - intros i Hi. specialize (Hc i Hi). lia.
Qed.

Lemma alive_update k tid f x : alive (update_task tid f k) x <-> alive k x.
Proof.
  unfold alive. rewrite get_update. case_decide; [|done].
  destruct (get_task k x); cbn; split; intros [? ?]; eauto; discriminate.
Qed.

(** Changing one task. *)
Lemma inv_update tid f k :
  ipc_inv k -> (forall t, get_task k tid = Some t -> task_ok k tid (f t)) -> ipc_inv (update_task tid f k).
Proof.
  intros [Hok Ht] Hf. split; [done|]. intros x t (t0 & Hg & ->)%get_update_Some.
  apply (task_ok_mono k).
  - intros y. apply alive_update.
  - done.
  - cbn. lia.
  - case_decide; [subst; auto|auto].
Qed.

(** Changes of a task that leave alone what the invariant looks at. *)
Definition harmless (f : Task -> Task) : Prop :=
  forall t, id (f t) = id t /\ state (f t) = state t /\ recv_queue (f t) = recv_queue t /\
    blocked_on (f t) = blocked_on t /\ capabilities (f t) = capabilities t.

Lemma task_ok_harmless k tid t f : harmless f -> task_ok k tid t -> task_ok k tid (f t).
Proof.
  intros Hf [Hid Hw Hb Hr Hc]. destruct (Hf t) as (E1 & E2 & E3 & E4 & E5).
  split; [congruence|by rewrite E3| |by rewrite E2|by rewrite E5].
  unfold blocked_ok in *. by rewrite E2, E4.
Qed.

Lemma inv_harmless tid f k : harmless f -> ipc_inv k -> ipc_inv (update_task tid f k).
Proof. intros Hf Hk. apply inv_update; [done|]. intros t Ht. apply task_ok_harmless; [done|]. by apply Hk. Qed.

Lemma inv_enqueue tid k : ipc_inv k -> ipc_inv (Sched.enqueue tid k).
Proof.
  intros [Hok Ht]. split; [done|]. intros x t Hg. apply (task_ok_mono k); [done| |done|by apply Ht].
  cbn. set_solver.
Qed.

(** Making a task runnable and queueing it. *)
Lemma inv_wake tid f k :
  ipc_inv k ->
  (forall t, get_task k tid = Some t -> id (f t) = id t /\ state (f t) = Runnable /\
     recv_queue (f t) = recv_queue t /\ capabilities (f t) = capabilities t) ->
  ipc_inv (Sched.enqueue tid (update_task tid f k)).
Proof.
  intros Hk Hf. change (ipc_inv (update_task tid f (Sched.enqueue tid k))).
  apply inv_update; [by apply inv_enqueue|]. intros t Hg.
  destruct (Hf t Hg) as (E1 & E2 & E3 & E4). destruct Hk as [_ Hk]. destruct (Hk tid t Hg) as [Hid Hw _ _ Hc].
  split; [congruence|by rewrite E3| | |by rewrite E4].
  - unfold blocked_ok. by rewrite E2.
  - intros _. cbn. set_solver.
Qed.

(** Scheduling keeps the invariant. *)
Lemma inv_sched_frame k k' : sched_frame k k' -> ipc_inv k -> ipc_inv k'.
Proof.
  intros Hf [Hok Ht]. split; [by rewrite (sf_caps _ _ Hf)|]. intros tid t' Hg.
  destruct (sched_frame_get k k' tid t' Hf Hg) as (t & Hg0 & Hfr).
  destruct (task_frame_fields t t' Hfr) as (E1 & E2 & E3 & E4 & E5 & _).
  apply (task_ok_mono k).
  - intros x [tx Hx]. destruct (sched_frame_get' k k' x tx Hf Hx) as (tx' & ? & _). by exists tx'.
  - intros x. by rewrite (sf_queue _ _ Hf).
  - rewrite (sf_caps _ _ Hf). lia.
  - destruct (Ht tid t Hg0) as [Hid Hw Hb Hr Hc]. split; [congruence|by rewrite E3| |by rewrite E2|by rewrite E5].
    unfold blocked_ok in *. by rewrite E2, E4.
Qed.

(** The statics the invariant does not read. *)
Lemma inv_same k k' :
  task_table k' = task_table k -> scheduler k' = scheduler k -> cap_table k' = cap_table k ->
  ipc_inv k -> ipc_inv k'.
Proof.
  intros Ht Hs Hc [Hok Hk]. split; [by rewrite Hc|]. intros tid t Hg. unfold get_task in Hg. rewrite Ht in Hg.
  apply (task_ok_mono k); [|by rewrite Hs|rewrite Hc; lia|by apply Hk].
  intros x. unfold alive, get_task. by rewrite Ht.
Qed.

(** ** Capabilities *)

Lemma inv_grant tid c k k' r : ipc_inv k -> Capability.grant tid c k = (k', r) -> ipc_inv k'.
Proof.
  intros Hk Hrun. pose proof Hk as [Hok Ht]. unfold Capability.grant in Hrun. rewrite allocate_ok in Hrun by done.
  destruct (Z.leb_spec MAX_CAPABILITIES (next_id (cap_table k))) as [Hfull|Hlt]; simplify_eq.
  - by apply (inv_same k).
  - set (k1 := k <| cap_table := _ |>).
    assert (ipc_inv k1) as Hk1.
    { split.
      - pose proof (allocate_table_ok (cap_table k) (new_entry c tid) Hok) as H. rewrite allocate_ok in H by done.
        destruct (Z.leb_spec MAX_CAPABILITIES (next_id (cap_table k))); [lia|]. exact H.
      - intros x t Hg. apply (task_ok_mono k); [done|done|cbn; lia|by apply Ht]. }
    apply inv_update; [done|]. intros t Hg. destruct (proj2 Hk1 tid t Hg) as [Hid Hw Hb Hr Hc].
    split; try done. intros i Hi. cbn in Hi. apply elem_of_app in Hi as [Hi|Hi%list_elem_of_singleton].
    + specialize (Hc i Hi). cbn in Hc |- *. lia.
    + subst i. cbn. lia.
Qed.

Lemma inv_transfer from to cap k k' r : ipc_inv k -> Capability.transfer from to cap k = (k', r) -> ipc_inv k'.
Proof.
  intros Hk Hrun. revert Hrun. unfold Capability.transfer, M_bind, gets, ok_or, fail_if, throw, M_ret.
  destruct (get_task k from); [|by intros [= <-]]. destruct (get_task k to); [|by intros [= <-]].
  destruct (negb _); [by intros [= <-]|]. destruct (Capability.table_get _ _) as [e|]; [|by intros [= <-]].
  destruct (Capability.is_non_transferable _); [by intros [= <-]|]. by apply inv_grant.
Qed.

Lemma inv_revoke i k k' r : ipc_inv k -> Capability.revoke i k = (k', r) -> ipc_inv k'.
Proof.
  intros [Hok Ht] Hrun. unfold Capability.revoke in Hrun.
  pose proof (revoke_table_ok (cap_table k) i Hok) as Hok'. pose proof (table_revoke_next (cap_table k) i) as Hn.
  destruct (Capability.table_revoke (cap_table k) i) as [tb r0]. simplify_eq. split; [done|].
  intros tid t Hg. apply (task_ok_mono k); [done|done|cbn in *; lia|by apply Ht].
Qed.

(** ** Operations *)

(** The invariant with a set of tasks known to be alive. *)
Definition inv_with (xs : list TaskId) (k : Kernel) : Prop := ipc_inv k /\ forall x, x ∈ xs -> alive k x.

Abbreviation keeps xs m := (triple (inv_with xs) m (fun _ => inv_with xs) (fun _ => inv_with xs)).

Lemma inv_with_update xs tid f k :
  inv_with xs k -> (forall t, get_task k tid = Some t -> task_ok k tid (f t)) -> inv_with xs (update_task tid f k).
Proof. intros [Hk Ha] Hf. split; [by apply inv_update|]. intros x Hx. apply alive_update. auto. Qed.

Lemma inv_with_harmless xs tid f k : harmless f -> inv_with xs k -> inv_with xs (update_task tid f k).
Proof. intros Hf Hk. apply inv_with_update; [done|]. intros t Ht. apply task_ok_harmless; [done|]. by apply Hk. Qed.

Lemma inv_with_other xs k k' :
  task_table k' = task_table k -> scheduler k' = scheduler k -> cap_table k' = cap_table k ->
  inv_with xs k -> inv_with xs k'.
Proof.
  intros Ht Hs Hc [Hk Ha]. split; [by apply (inv_same k)|]. intros x Hx. unfold alive, get_task. rewrite Ht.
  by apply Ha.
Qed.

Lemma inv_with_sched xs k k' : sched_frame k k' -> inv_with xs k -> inv_with xs k'.
Proof.
  intros Hf [Hk Ha]. split; [by eapply inv_sched_frame|]. intros x Hx. destruct (Ha x Hx) as [t Ht].
  destruct (sched_frame_get' k k' x t Hf Ht) as (t' & ? & _). by exists t'.
Qed.

Lemma triple_current {E} (P : Kernel -> Prop) (R : E -> Kernel -> Prop) :
  triple P current_task (fun t k => get_task k (current_task_id k) = Some t /\ P k) R.
Proof. intros k Hk. unfold current_task. by destruct (get_task k (current_task_id k)) eqn:E1. Qed.

Lemma keeps_next_message_id {E} xs : @keeps xs (@next_message_id E).
Proof. intros k Hk. by apply (inv_with_other xs k). Qed.

Lemma keeps_gets {E A} xs (f : Kernel -> A) : @keeps xs (@gets Kernel E A f).
Proof. intros k Hk. done. Qed.

Lemma keeps_bind {E A B} xs (m : K E A) (f : A -> K E B) :
  keeps xs m -> (forall a, keeps xs (f a)) -> keeps xs (M_bind f m).
Proof. intros Hm Hf. by eapply triple_bind. Qed.

Lemma keeps_ret {E A} xs (a : A) : @keeps xs (@M_ret Kernel E A a).
Proof. by intros k Hk. Qed.

Lemma keeps_throw {E A} xs (e : E) : @keeps xs (@throw Kernel E A e).
Proof. by intros k Hk. Qed.

Lemma keeps_ok_or {E A} xs (o : option A) (e : E) : @keeps xs (ok_or o e).
Proof. intros k Hk. by destruct o. Qed.

Lemma keeps_fail_if {E} xs b (e : E) : @keeps xs (fail_if b e).
Proof. intros k Hk. by destruct b. Qed.

Lemma keeps_current {E} xs : @keeps xs (@current_task E).
Proof. intros k Hk. unfold current_task. by destruct (get_task k (current_task_id k)). Qed.

Lemma keeps_modify {E} xs f :
  (forall k, inv_with xs k -> inv_with xs (f k)) -> @keeps xs (@modify Kernel E f).
Proof. intros Hf k Hk. by apply Hf. Qed.

#[export] Hint Resolve keeps_next_message_id keeps_gets keeps_ret keeps_throw keeps_ok_or keeps_fail_if
  keeps_current : kernel.

Lemma keeps_transfer_capability xs s t c : keeps xs (Ipc.transfer_capability s t c).
Proof.
  intros k [Hk Ha]. unfold Ipc.transfer_capability. destruct (Capability.check k c) as [cap|]; [|done].
  destruct (Capability.transfer _ _ _ _) as [k' r] eqn:E.
  assert (inv_with xs k') as Hk'; [|by destruct r].
  split; [by eapply inv_transfer|]. intros x Hx. specialize (Ha x Hx).
  revert E. unfold Capability.transfer, M_bind, gets, ok_or, fail_if, throw, M_ret.
  destruct (get_task k (id s)); [|by intros [= <-]]. destruct (get_task k (id t)); [|by intros [= <-]].
  destruct (negb _); [by intros [= <-]|]. destruct (Capability.table_get _ _) as [e|]; [|by intros [= <-]].
  destruct (Capability.is_non_transferable _); [by intros [= <-]|]. unfold Capability.grant.
  destruct (Capability.allocate _ _) as [tb [i|er]]; intros [= <- <-]; [by apply alive_update|done].
Qed.

Lemma keeps_push_message xs target msg : keeps xs (Ipc.push_message target msg).
Proof.
  intros k Hk. unfold Ipc.push_message. destruct (get_task k target) as [t|] eqn:Ht; [|done].
  destruct (Queue.push (recv_queue t) msg).2; [|done].
  apply inv_with_update; [done|]. intros t' Ht'. destruct (proj2 (proj1 Hk) target t' Ht') as [Hid Hw Hb Hr Hc].
  split; try done. by apply queue_wf_push.
Qed.

Lemma inv_with_wake xs tid f k :
  inv_with xs k ->
  (forall t, get_task k tid = Some t -> id (f t) = id t /\ state (f t) = Runnable /\
     recv_queue (f t) = recv_queue t /\ capabilities (f t) = capabilities t) ->
  inv_with xs (Sched.enqueue tid (update_task tid f k)).
Proof.
  intros [Hk Ha] Hf. split; [by apply inv_wake|]. intros x Hx.
  change (alive (update_task tid f k) x). apply alive_update. auto.
Qed.

Lemma keeps_wake_if_receiving xs target k : inv_with xs k -> inv_with xs (Ipc.wake_if_receiving target k).
Proof.
  intros Hk. unfold Ipc.wake_if_receiving. destruct (get_task k target) as [t|]; [|done].
  case_decide; [|done]. by apply inv_with_wake.
Qed.

Lemma keeps_block_on_send xs cur target msg :
  target ∈ xs -> keeps xs (Ipc.block_on_send cur target msg).
Proof.
  intros Hin. unfold Ipc.block_on_send.
  repeat (apply keeps_bind; [|intros ?]); auto with kernel; try apply keeps_push_message; apply keeps_modify; intros k Hk.
  - apply inv_with_update; [done|]. intros t Ht. destruct (proj2 (proj1 Hk) cur t Ht) as [Hid Hw Hb Hr Hc].
    split; try done. cbn. split; [done|]. by apply (proj2 Hk).
  - apply inv_with_harmless; [|done]. intros t. by case_match.
  - by apply keeps_wake_if_receiving.
Qed.

Lemma frame_yield k : sched_frame k (Sched.yield_cpu (E := Ipc.Errno) k).1.
Proof.
  unfold Sched.yield_cpu. set (k0 := record_voluntary_yield (current_task_id k) k).
  etransitivity; [apply (frame_bump voluntary_yields (current_task_id k))|]. fold (record_voluntary_yield (current_task_id k) k).
  fold k0. pose proof (schedule_next_frame k0) as Hf.
  destruct (Sched.schedule_next k0) as [k1 [nx|]]; [|exact Hf]. cbn in Hf.
  etransitivity; [exact Hf|]. destruct (current_task_id k1 =? nx).
  - destruct (get_task k1 nx); [by apply frame_other|reflexivity].
  - destruct (get_task k1 nx) as [t|]; [|reflexivity]. cbn [fst].
    set (k2 := set_current_task nx (if page_table_phys t =? 0 then k1 else _)).
    transitivity k2; [unfold k2; destruct (page_table_phys t =? 0); by apply frame_other|].
    transitivity (record_context_switch nx k2); [apply frame_context_switch|]. by apply frame_other.
Qed.

Lemma keeps_yield xs : keeps xs (@Sched.yield_cpu Ipc.Errno).
Proof.
  intros k Hk. pose proof (frame_yield k) as Hf.
  destruct (Sched.yield_cpu k) as [k' [a|e|]]; [by eapply inv_with_sched..|done].
Qed.

Lemma keeps_pop xs : keeps xs Ipc.pop_message.
Proof.
  unfold Ipc.pop_message. repeat (apply keeps_bind; [|intros ?]); auto with kernel.
  apply keeps_modify. intros k Hk. apply inv_with_update; [done|]. intros t Ht.
  destruct (proj2 (proj1 Hk) _ t Ht) as [Hid Hw Hb Hr Hc]. split; try done. by apply queue_wf_pop.
Qed.

Lemma keeps_deliver_reply xs sid p : keeps xs (Ipc.deliver_reply sid p).
Proof.
  intros k Hk. unfold Ipc.deliver_reply, M_bind, current_task.
  destruct (get_task k (current_task_id k)) as [t|] eqn:Ht; [|done].
  unfold next_message_id, gets, modify. set (k0 := k <| next_msg_id := u64 (next_msg_id k + 1) |>).
  match goal with |- context [update_task sid ?F k0] => set (f := F) end. set (g := fun t => t <| inherited_priority := 0 |>).
  change (inv_with xs (update_task (current_task_id k) g (Sched.enqueue sid (update_task sid f k0)))).
  apply inv_with_harmless; [done|]. apply inv_with_wake; [by apply (inv_with_other xs k)|]. done.
Qed.

(** [prepare_send] leaves the invariant and, on success, a live target. *)
Lemma prepare_send_ok target ty msg :
  triple ipc_inv (Ipc.prepare_send target ty msg) (fun _ k => inv_with [target] k) (fun _ => ipc_inv).
Proof.
  unfold Ipc.prepare_send. eapply triple_bind; [apply triple_gets|]. intros o.
  eapply triple_bind; [apply triple_ok_or; naive_solver|]. intros t.
  apply (triple_weaken _ _ (inv_with [target]) _ _ (fun _ => inv_with [target])); [|..|done].
  2: { intros k (-> & Ho & Hk). split; [done|]. intros x ->%list_elem_of_singleton. by exists t. }
  assert (forall m : K Ipc.Errno (Task * IpcMessage), keeps [target] m ->
    triple (inv_with [target]) m (fun _ => inv_with [target]) (fun _ => ipc_inv)) as Hweak.
  { intros m Hm k Hk. specialize (Hm k Hk). destruct (m k) as [k' [a|e|]]; [done|apply Hm|done]. }
  apply Hweak. repeat (apply keeps_bind; [|intros ?]); auto with kernel.
  destruct (cap _); [apply keeps_transfer_capability|auto with kernel].
Qed.
