(* ===== verification/IpcThm.v ===== *)
(** * Theorems on IPC and exit

    The IPC invariant holds in every reachable kernel; sends, receives and
    replies do what their callers rely on; a task's exit leaves nobody
    waiting for it. *)

From S2P Require Import Prelude Message CapTypes Buddy Pmm Bridge Task Kernel Capability CapabilityThm.
From S2P Require Import Scheduler SchedulerThm Paging Shmem Ipc IpcInv.
Import Cap Task.
#[local] Open Scope kernel_scope.

(** ** Waking the waiters of an exiting task *)

Lemma should_wake_cleared e t : Ipc.should_wake e (Ipc.wake_with_error t) = false.
Proof. unfold Ipc.should_wake. cbn. by rewrite andb_false_r. Qed.

Lemma unblock_each_spec e ids k :
  NoDup ids ->
  let k' := (Ipc.unblock_each e ids k).1 in
  (forall tid, get_task k' tid =
     (fun t => if decide (tid ∈ ids) then if Ipc.should_wake e t then Ipc.wake_with_error t else t else t)
       <$> get_task k tid) /\
  (forall tid t, tid ∈ ids -> get_task k tid = Some t -> Ipc.should_wake e t = true ->
     tid ∈ tasks (scheduler k')) /\
  (forall x, x ∈ tasks (scheduler k) -> x ∈ tasks (scheduler k')) /\
  (ipc_inv k -> ipc_inv k') /\ current_task_id k' = current_task_id k.
Proof.
  intros Hnd. revert k. induction Hnd as [|tid ids Hni Hnd IH]; intros k; cbn [Ipc.unblock_each].
  - split_and!; try done; [|set_solver]. intros tid. cbn [fst]. destruct (get_task k tid); [|done].
    cbn. by rewrite decide_False by set_solver.
  - set (wake := match get_task k tid with Some t => Ipc.should_wake e t | None => false end).
    set (k1 := if wake then Sched.enqueue tid (update_task tid Ipc.wake_with_error k) else k).
    assert ((Ipc.unblock_each e (tid :: ids) k).1 = (Ipc.unblock_each e ids k1).1) as Heq.
    { cbn [Ipc.unblock_each]. unfold k1, wake. destruct (get_task k tid) as [t|]; [|done].
      destruct (Ipc.should_wake e t); [|done]. by destruct (Ipc.unblock_each e ids _). }
    cbn [Ipc.unblock_each] in Heq. cbv zeta. rewrite Heq. clear Heq.
    assert (forall x, get_task k1 x = (fun t => if decide (x = tid) then
        if Ipc.should_wake e t then Ipc.wake_with_error t else t else t) <$> get_task k x) as Hk1.
    { intros x. unfold k1. destruct wake eqn:Ew.
      - change (get_task (Sched.enqueue tid (update_task tid Ipc.wake_with_error k)) x)
          with (get_task (update_task tid Ipc.wake_with_error k) x).
        rewrite get_update. case_decide as Hx; [|by destruct (get_task k x)].
        subst x. unfold wake in Ew. destruct (get_task k tid) as [t|]; [|done]. cbn. by rewrite Ew.
      - case_decide as Hx; [|by destruct (get_task k x)]. subst x. unfold wake in Ew.
        destruct (get_task k tid) as [t|]; [|done]. cbn. by rewrite Ew. }
    specialize (IH k1). cbv zeta in IH. destruct IH as (G1 & G2 & G3 & G4 & G5).
    assert (forall x, x ∈ tasks (scheduler k) -> x ∈ tasks (scheduler k1)) as Hq.
    { unfold k1. destruct wake; [|done]. cbn. set_solver. }
    split_and!; auto.
    + intros x. rewrite G1, Hk1. destruct (get_task k x) as [t|]; [|done]. cbn. f_equal.
      destruct (decide (x = tid)) as [->|Hne].
      * rewrite decide_False by done. by rewrite decide_True by set_solver.
      * destruct (decide (x ∈ ids)); [rewrite decide_True by set_solver|rewrite decide_False by set_solver]; done.
    + intros x t Hx Hg Hw. apply elem_of_cons in Hx as [->|Hx].
      * apply G3. unfold k1, wake. rewrite Hg, Hw. cbn. set_solver.
      * eapply G2; [done| |done]. rewrite Hk1, Hg. cbn. by rewrite decide_False by set_solver.
    + intros Hk. apply G4. unfold k1. destruct wake; [|done]. by apply inv_wake.
    + rewrite G5. unfold k1. by destruct wake.
Qed.

Lemma task_ids_nodup k : NoDup (task_ids k).
Proof. unfold task_ids. rewrite (merge_sort_Permutation Z.le). apply NoDup_elements. Qed.

Lemma unblock_waiters_lookup e k tid :
  get_task (Ipc.unblock_waiters_for e k).1 tid =
  (fun t => if Ipc.should_wake e t then Ipc.wake_with_error t else t) <$> get_task k tid.
Proof.
  destruct (unblock_each_spec e (task_ids k) k (task_ids_nodup k)) as (G1 & _). unfold Ipc.unblock_waiters_for.
  rewrite G1. destruct (get_task k tid) as [t|] eqn:Ht; [|done]. cbn. f_equal.
  by rewrite decide_True by (apply elem_task_ids; rewrite Ht; eauto).
Qed.

(** waking the waiters of an exiting task touches exactly the tasks that
    wait for it: each gets the failure value in its return register, no stale
    reply, and a place in the run queue; every other task is unchanged, and
    afterwards no task waits for the exiting one. *)
Theorem exit_wakes_waiters (e : TaskId) (k : Kernel) (tid : TaskId) (t : Task) :
  get_task k tid = Some t ->
  let k' := (Ipc.unblock_waiters_for e k).1 in
  (if Ipc.should_wake e t then
    exists t', get_task k' tid = Some t' /\ rax (context t') = U64_MAX /\ state t' = Runnable /\
      blocked_on t' = None /\ ipc_reply t' = None /\ tid ∈ tasks (scheduler k')
   else get_task k' tid = Some t) /\
  (forall t', get_task k' tid = Some t' -> Ipc.should_wake e t' = false).
Proof.
  intros Ht k'. pose proof (unblock_waiters_lookup e k tid) as Hl. rewrite Ht in Hl. cbn in Hl.
  destruct (Ipc.should_wake e t) eqn:Hw; [|split; [done|]; intros t'; unfold k'; rewrite Hl; congruence].
  split; [|intros t'; unfold k'; rewrite Hl; intros [= <-]; apply should_wake_cleared].
  exists (Ipc.wake_with_error t). split; [done|]. split_and!; try done.
  destruct (unblock_each_spec e (task_ids k) k (task_ids_nodup k)) as (_ & G2 & _).
  eapply G2; [apply elem_task_ids; rewrite Ht; eauto|done|done].
Qed.

(** ** Exit *)

(** Statics the release of pages, tables and sockets does not touch. *)
Definition same_core (k k' : Kernel) : Prop :=
  task_table k' = task_table k /\ scheduler k' = scheduler k /\ cap_table k' = cap_table k /\
  current_task_id k' = current_task_id k.

#[export] Instance same_core_preorder : PreOrder same_core.
Proof. split; [by intros k|]. intros k1 k2 k3 (? & ? & ? & ?) (? & ? & ? & ?). split_and!; congruence. Qed.

Abbreviation core_kept m := (forall k, same_core k (m k).1).

Lemma core_bind {E A B} (m : K E A) (f : A -> K E B) :
  core_kept m -> (forall a, core_kept (f a)) -> core_kept (M_bind f m).
Proof.
  intros Hm Hf k. unfold M_bind. specialize (Hm k). destruct (m k) as [k' [a|e|]]; [|done|done].
  etransitivity; [exact Hm|apply Hf].
Qed.

Lemma core_ret {E A} (a : A) : core_kept (@M_ret Kernel E A a).
Proof. reflexivity. Qed.

Lemma core_gets {E A} (f : Kernel -> A) : core_kept (@gets Kernel E A f).
Proof. reflexivity. Qed.

Lemma core_with_pmm {E A} (m : Pmm.P A) : core_kept (@Capability.with_pmm E A m).
Proof. intros k. unfold Capability.with_pmm. by destruct (m (pmm k)). Qed.

#[export] Hint Resolve core_ret core_gets core_with_pmm : kernel.

Section shmem_core.
Context `{Mapper} `{HashOrder}.

Lemma core_unmap_block huge pml4 v : core_kept (Shmem.unmap_block huge pml4 v).
Proof.
  intros k. unfold Shmem.unmap_block, Shmem.try_map, Paging.unmap_huge_page_in_table, Paging.unmap_page_in_table.
  destruct huge; [destruct (negb _); [done|]|]; unfold M_bind;
    (destruct (virt_addr_cases (E := Paging.MapError) v k) as [-> | ->]; [|done]); unfold Paging.run_unmap, ok_or, throw, M_ret;
    match goal with |- context[unmap ?x ?y ?z ?u] => by destruct (unmap x y z u) as [m [p|]] end.
Qed.

Lemma core_unmap_blocks s pml4 v is_ : core_kept (Shmem.unmap_blocks s pml4 v is_).
Proof.
  induction is_ as [|i is_ IH]; cbn [Shmem.unmap_blocks]; [apply core_ret|].
  apply core_bind; [apply core_unmap_block|done].
Qed.

Lemma core_clear_each s ms : core_kept (Shmem.clear_each s ms).
Proof.
  induction ms as [|[tid v] ms IH]; cbn [Shmem.clear_each]; [apply core_ret|].
  apply core_bind; [apply core_gets|]. intros [p|]; [|done]. destruct (p =? 0); [done|].
  apply core_bind; [apply core_unmap_blocks|done].
Qed.

Lemma core_destroy_regions tid rs : core_kept (Shmem.destroy_regions tid rs).
Proof.
  induction rs as [|s rs IH]; cbn [Shmem.destroy_regions]; [apply core_ret|].
  apply core_bind; [apply core_clear_each|]. intros _. apply core_bind; [apply core_with_pmm|done].
Qed.

Lemma core_free_task_regions tid : core_kept (Shmem.free_task_regions tid).
Proof.
  intros k. unfold Shmem.free_task_regions.
  etransitivity; [|apply core_destroy_regions]. done.
Qed.
End shmem_core.

Lemma inv_core k k' : same_core k k' -> ipc_inv k -> ipc_inv k'.
Proof. intros (? & ? & ? & _). by apply inv_same. Qed.

Lemma get_core k k' tid : same_core k k' -> get_task k' tid = get_task k tid.
Proof. intros (Ht & _). unfold get_task. by rewrite Ht. Qed.

(** The predicates exit moves through: invariant and current task; nobody to
    be woken; the task gone. *)
Definition exiting (cur : TaskId) (k : Kernel) : Prop := ipc_inv k /\ current_task_id k = cur.
Definition no_waiters (cur : TaskId) (k : Kernel) : Prop :=
  exiting cur k /\ forall tid t, get_task k tid = Some t -> Ipc.should_wake cur t = false.
Definition gone (cur : TaskId) (k : Kernel) : Prop := exiting cur k /\ get_task k cur = None.

Lemma exiting_core cur k k' : same_core k k' -> exiting cur k -> exiting cur k'.
Proof. intros Hc [Hk Hcur]. split; [by eapply inv_core|]. by destruct Hc as (_ & _ & _ & ->). Qed.

Lemma no_waiters_core cur k k' : same_core k k' -> no_waiters cur k -> no_waiters cur k'.
Proof.
  intros Hc [He Hw]. split; [by eapply exiting_core|]. intros tid t. rewrite (get_core k k') by done. apply Hw.
Qed.

Lemma gone_core cur k k' : same_core k k' -> gone cur k -> gone cur k'.
Proof. intros Hc [He Hg]. split; [by eapply exiting_core|]. by rewrite (get_core k k'). Qed.

(** An operation that keeps the core keeps any such predicate. *)
Lemma triple_core {E A} (P : Kernel -> Prop) (m : K E A) (R : E -> Kernel -> Prop) :
  core_kept m -> (forall k k', same_core k k' -> P k -> P k') -> (forall e k, P k -> R e k) ->
  triple P m (fun _ => P) R.
Proof. intros Hm HP HR k Hk. specialize (Hm k). destruct (m k) as [k' [a|e|]]; cbn in Hm; eauto. Qed.

Lemma core_ignore {E A} (m : K E A) : core_kept m -> core_kept (Lifecycle.ignore m).
Proof. intros Hm k. specialize (Hm k). unfold Lifecycle.ignore. by destruct (m k) as [k' [a|e|]]. Qed.

Lemma revoke_no_waiters cur c k : no_waiters cur k -> no_waiters cur (Capability.revoke c k).1.
Proof.
  intros [[Hk Hcur] Hw]. destruct (Capability.revoke c k) as [k' r] eqn:E.
  pose proof (inv_revoke c k k' r Hk E) as Hk'. unfold Capability.revoke in E.
  destruct (Capability.table_revoke _ _) as [tb r0]. simplify_eq. done.
Qed.

Lemma revoke_all_ok cur caps :
  triple (no_waiters cur) (Lifecycle.revoke_all caps) (fun _ => no_waiters cur) (fun _ _ => True).
Proof.
  induction caps as [|c caps IH]; cbn [Lifecycle.revoke_all]; [by intros k Hk|].
  apply (triple_bind _ _ _ (fun _ => no_waiters cur)); [|intros _; exact IH].
  intros k Hk. unfold Lifecycle.ignore.
  assert (no_waiters cur (Capability.revoke_with_cleanup c k).1) as Hk';
    [|by destruct (Capability.revoke_with_cleanup c k) as [k' [a|e|]]].
  unfold Capability.revoke_with_cleanup.
  destruct (cap_type <$> Capability.table_get (cap_table k) c) as [[]|]; try (by apply revoke_no_waiters).
  unfold M_bind. match goal with |- context [Capability.with_pmm ?m k] =>
    pose proof (core_with_pmm (E := CapError) m k) as Hcore; destruct (Capability.with_pmm m k) as [k1 [u|e|]] end;
    cbn in Hcore; [apply revoke_no_waiters|..]; by eapply no_waiters_core.
Qed.

(** Removing a task nobody waits for. *)
Lemma inv_remove e k :
  ipc_inv k -> (forall tid t, get_task k tid = Some t -> Ipc.should_wake e t = false) -> ipc_inv (remove_task e k).
Proof.
  intros [Hok Hk] Hw. split; [done|]. intros tid t Hg. unfold get_task, remove_task in Hg. cbn in Hg.
  apply lookup_delete_Some in Hg as [Hne Hg]. specialize (Hw tid t Hg).
  destruct (Hk tid t Hg) as [Hid Hq Hb Hr Hc]. split; try done.
  assert (forall x, x <> e -> alive k x -> alive (remove_task e k) x) as Ha.
  { intros x Hx [tx Htx]. exists tx. unfold get_task. cbn. by rewrite lookup_delete_ne by congruence. }
  unfold blocked_ok, Ipc.should_wake in *. destruct (state t) as [| | |x|r|]; try done.
  - destruct Hb as [Hbo Hal]. split; [done|]. apply Ha; [|done]. intros ->.
    rewrite bool_decide_true, Z.eqb_refl in Hw by done. done.
  - destruct Hb as (x & Hbo & Hal). exists x. split; [done|]. apply Ha; [|done]. intros ->.
    rewrite bool_decide_true in Hw by done. done.
Qed.

(** Removing the task once its waiters are awake. *)
Lemma remove_gone cur k : no_waiters cur k -> gone cur (remove_task cur k).
Proof.
  intros [[Hk Hcur] Hw]. split; [split; [by apply inv_remove|done]|]. apply lookup_delete_eq.
Qed.

Lemma unblock_no_waiters cur k : exiting cur k -> no_waiters cur (Ipc.unblock_waiters_for cur k).1.
Proof.
  intros [Hk Hcur].
  destruct (unblock_each_spec cur (task_ids k) k (task_ids_nodup k)) as (_ & _ & _ & Hinv & Hc).
  fold (Ipc.unblock_waiters_for cur k) in Hinv, Hc. split; [split; [auto|congruence]|].
  intros tid t. rewrite unblock_waiters_lookup. destruct (get_task k tid) as [t0|]; [|done].
  intros [= <-]. destruct (Ipc.should_wake cur t0) eqn:E; [apply should_wake_cleared|done].
Qed.

Section exit.
Context `{Mapper} `{HashOrder}.

Lemma syscall_exit_ok cur :
  triple (exiting cur) Lifecycle.syscall_exit (fun _ => gone cur) (fun _ _ => True).
Proof.
  unfold Lifecycle.syscall_exit.
  eapply triple_bind; [apply triple_gets|]. intros cid.
  eapply triple_bind; [apply triple_gets|]. intros ot. cbv zeta.
  apply (triple_weaken _ _ (fun k => cid = cur /\ exiting cur k) _ _ (fun _ => gone cur)); [|intros k (_ & -> & Hk & Hc); done|done].
  intros k [-> Hk]. revert k Hk.
  eapply triple_bind; [apply (triple_modify _ _ _ (fun _ => exiting cur))|].
  { intros k [Hk Hc]. split; [|done]. apply inv_update; [done|]. intros t Ht. destruct (proj2 Hk cur t Ht). by split. }
  intros ?. eapply triple_bind; [apply (triple_modify _ _ _ (fun _ => exiting cur))|].
  { intros k [Hk Hc]. unfold Lifecycle.free_task_slots. case_match; [done|done|]. split; [|done]. by apply (inv_same k). }
  intros ?. eapply triple_bind; [apply triple_core; [apply core_ignore, core_free_task_regions|apply exiting_core|done]|].
  intros ?. eapply triple_bind; [apply (triple_modify _ _ _ (fun _ => no_waiters cur)), unblock_no_waiters|].
  intros ?. eapply triple_bind; [apply (triple_weaken _ _ _ _ _ _ (triple_gets _ (no_waiters cur) _)); [done|];
    intros ? k [_ Hk]; exact Hk|].
  intros caps. eapply triple_bind; [apply (triple_modify _ _ _ (fun _ => no_waiters cur))|].
  { intros k [[Hk Hc] Hw]. split; [split; [|done]|].
    - apply inv_update; [done|]. intros t Ht. destruct (proj2 Hk cur t Ht). split; try done. cbn. set_solver.
    - intros tid t (t0 & Hg & ->)%get_update_Some. specialize (Hw tid t0 Hg). by case_decide. }
  intros ?. eapply triple_bind; [apply revoke_all_ok|].
  intros ?. eapply triple_bind; [apply (triple_modify _ _ _ (fun _ => gone cur)), remove_gone|].
  intros ?. eapply triple_bind; [apply triple_core; [|apply gone_core|done]|].
  { intros k. destruct (_ =? 0); [done|]. unfold M_bind, modify, Paging.free_task_page_table.
    destruct (kernel_pml4 k =? 0); by destruct (Paging.free_frames _ _). }
  intros ?. apply triple_core; [|apply gone_core|done]. intros k. by destruct (ot ≫= kernel_stack_base).
Qed.
End exit.

(** ** System calls keep the invariant *)

#[local] Opaque Ipc.block_on_send Ipc.deliver_reply Ipc.pop_message.

Lemma keeps_ret_value {A} xs (ok : A -> Kernel -> Kernel * option Z) err (m : K Ipc.Errno A) :
  keeps xs m -> (forall a k, inv_with xs k -> inv_with xs (ok a k).1) -> keeps xs (Ipc.ret_value ok err m).
Proof.
  intros Hm Hok k Hk. unfold Ipc.ret_value. specialize (Hm k Hk).
  destruct (m k) as [k' [a|e|]]; [|done|done]. specialize (Hok a k' Hm). by destruct (ok a k').
Qed.

Lemma inv_with_bump xs (f : TaskStatistics -> Z) `{!Setter f} tid k : inv_with xs k -> inv_with xs (bump f tid k).
Proof. apply inv_with_sched, frame_bump. Qed.

(** After a send has been prepared the target is alive; from then on only the
    invariant with the target matters. *)
Lemma keeps_after_prepare target ty msg (f : Task * IpcMessage -> K Ipc.Errno Ipc.SendResult) :
  (forall pm, keeps [target] (f pm)) -> keeps [] (M_bind f (Ipc.prepare_send target ty msg)).
Proof.
  intros Hf k [Hk _]. unfold M_bind. pose proof (prepare_send_ok target ty msg k Hk) as Hp.
  destruct (Ipc.prepare_send target ty msg k) as [k1 [pm|e|]]; [|split; [done|set_solver]|done].
  specialize (Hf pm k1 Hp). destruct (f pm k1) as [k2 [a|e|]]; [..|done]; (split; [apply Hf|set_solver]).
Qed.

Lemma keeps_ipc_send target msg : keeps [] (Ipc.ipc_send target msg).
Proof.
  unfold Ipc.ipc_send. apply keeps_after_prepare. intros [cur kmsg].
  repeat (apply keeps_bind; [|intros ?]); auto with kernel.
  - apply keeps_block_on_send. set_solver.
  - apply keeps_yield.
  - destruct a1; [|auto with kernel]. repeat (apply keeps_bind; [|intros ?]); auto with kernel.
    apply keeps_modify. intros k Hk. by apply inv_with_harmless.
Qed.

Lemma keeps_ipc_send_async target msg : keeps [] (Ipc.ipc_send_async target msg).
Proof.
  intros k [Hk _]. unfold Ipc.ipc_send_async, M_bind at 1.
  pose proof (prepare_send_ok target Notification msg k Hk) as Hp.
  destruct (Ipc.prepare_send target Notification msg k) as [k1 [[cur kmsg]|e|]]; [|split; [done|set_solver]|done].
  assert (keeps [target] (Ipc.push_message target kmsg ;;; modify (Ipc.wake_if_receiving target))) as Hf.
  { apply keeps_bind; [apply keeps_push_message|]. intros _. apply keeps_modify. apply keeps_wake_if_receiving. }
  specialize (Hf k1 Hp). destruct (M_bind _ _ k1) as [k2 [a|e|]]; [..|done]; (split; [apply Hf|set_solver]).
Qed.

Lemma keeps_ipc_receive : keeps [] Ipc.ipc_receive.
Proof.
  unfold Ipc.ipc_receive. apply keeps_bind; [apply keeps_pop|]. intros [m|]; [auto with kernel|].
  repeat (apply keeps_bind; [|intros ?]); auto with kernel. apply keeps_modify. intros k Hk.
  apply inv_with_update; [done|]. intros t Ht. destruct (proj2 (proj1 Hk) _ t Ht). by split.
Qed.

Lemma keeps_ipc_recv_async : keeps [] Ipc.ipc_recv_async.
Proof.
  unfold Ipc.ipc_recv_async. apply keeps_bind; [auto with kernel|]. intros cur.
  apply keeps_bind; [apply keeps_pop|]. intros [m|]; [|auto with kernel].
  apply keeps_bind; [|auto with kernel]. case_decide; [|auto with kernel].
  apply keeps_modify. intros k Hk. apply inv_with_update; [done|]. intros t Ht.
  pose proof (proj2 (proj1 Hk) _ t Ht) as Htok. case_decide as Hs; [|done].
  destruct Htok as [Hid Hw Hb Hr Hc]. split; try done. unfold blocked_ok in Hb. rewrite Hs in Hb. cbn.
  by eexists.
Qed.

Lemma keeps_ipc_reply req p : keeps [] (Ipc.ipc_reply req p).
Proof.
  unfold Ipc.ipc_reply. repeat (apply keeps_bind; [|intros ?]); auto with kernel. apply keeps_deliver_reply.
Qed.

Lemma keeps_ipc_reply_with_token tok p : keeps [] (Ipc.ipc_reply_with_token tok p).
Proof.
  unfold Ipc.ipc_reply_with_token. repeat (apply keeps_bind; [|intros ?]); auto with kernel.
  destruct a0. repeat (apply keeps_bind; [|intros ?]); auto with kernel. apply keeps_deliver_reply.
Qed.

Lemma inv_with_remember xs msg k : inv_with xs k -> inv_with xs (Ipc.remember_request msg k).
Proof.
  intros Hk. unfold Ipc.remember_request. apply inv_with_harmless; [done|]. by apply inv_with_bump.
Qed.

Lemma keeps_syscalls :
  (forall t a b, keeps [] (Ipc.syscall_ipc_send t a b)) /\ keeps [] Ipc.syscall_ipc_receive /\
  (forall a b, keeps [] (Ipc.syscall_ipc_reply a b)) /\ keeps [] Ipc.syscall_ipc_recv_async /\
  (forall t a b, keeps [] (Ipc.syscall_ipc_reply_token t a b)).
Proof.
  split_and!.
  - intros t a b k Hk. apply (keeps_ret_value []); [apply keeps_ipc_send| |done]. intros [|r] k' Hk'; [done|].
    apply (inv_with_sched [] k'); [|done]. etransitivity; [apply (frame_bump ipc_sent)|apply (frame_bump_system total_ipc_messages)].
  - apply keeps_ret_value; [apply keeps_ipc_receive|]. intros m k Hk. by apply inv_with_remember.
  - intros a b k Hk. unfold Ipc.syscall_ipc_reply. destruct (get_task k (current_task_id k)) as [t|]; [|done].
    destruct (ipc_reply t) as [req|]; [|done]. apply (keeps_ret_value []); [apply keeps_ipc_reply| |done].
    intros _ k' Hk'. by apply inv_with_bump.
  - apply keeps_ret_value; [apply keeps_ipc_recv_async|]. intros m k Hk. by apply inv_with_remember.
  - intros t a b. apply keeps_ret_value; [apply keeps_ipc_reply_with_token|]. intros _ k Hk. by apply inv_with_bump.
Qed.

#[local] Transparent Ipc.block_on_send Ipc.deliver_reply Ipc.pop_message.

Lemma inv_timer saved k : ipc_inv k -> ipc_inv (Sched.timer_preempt_handler saved k).1.
Proof.
  intros Hk. unfold Sched.timer_preempt_handler. set (k0 := timer_tick k).
  assert (ipc_inv k0) as Hk0 by (by apply (inv_same k)). cbv zeta. destruct (current_task_id k0 =? 0); [done|].
  destruct (get_task k0 (current_task_id k0)) as [t|]; [|done].
  set (k1 := update_task (current_task_id k0) _ k0).
  assert (ipc_inv k1) as Hk1 by (by apply inv_harmless).
  pose proof (schedule_next_frame k1) as Hf. destruct (Sched.schedule_next k1) as [k2 nx]. cbn in Hf.
  assert (ipc_inv k2) as Hk2 by (by eapply inv_sched_frame). destruct nx as [nx|]; [|done].
  destruct (nx =? current_task_id k0); [by apply (inv_same k2)|].
  set (k3 := record_context_switch nx _).
  assert (ipc_inv k3) as Hk3.
  { eapply inv_sched_frame; [|exact Hk2].
    etransitivity; [apply (frame_bump preemptions (current_task_id k0))|apply frame_context_switch]. }
  destruct (get_task k3 nx) as [tn|]; [|done]. apply (inv_same k3); try done; by destruct (page_table_phys tn =? 0).
Qed.

(** ** Reachable kernels *)

Section reachable.
Context `{Mapper} `{HashOrder}.

(** One event: a system call of the current task (failing or not), a timer
    interrupt, the creation of a task under an unused id, a grant or a
    revocation by the kernel, or an exit. *)
Inductive kstep : Kernel -> Kernel -> Prop :=
| KSend t a b k k' v : Ipc.syscall_ipc_send t a b k = (k', Ok v) -> kstep k k'
| KSendAsync t m k k' r : Ipc.ipc_send_async t m k = (k', r) -> r <> Panic -> kstep k k'
| KReceive k k' v : Ipc.syscall_ipc_receive k = (k', Ok v) -> kstep k k'
| KReply a b k k' v : Ipc.syscall_ipc_reply a b k = (k', Ok v) -> kstep k k'
| KRecvAsync k k' v : Ipc.syscall_ipc_recv_async k = (k', Ok v) -> kstep k k'
| KReplyToken t a b k k' v : Ipc.syscall_ipc_reply_token t a b k = (k', Ok v) -> kstep k k'
| KTimer saved k : kstep k (Sched.timer_preempt_handler saved k).1
| KSpawn tid ptr entry base now k :
    get_task k tid = None ->
    kstep k (Sched.enqueue tid (insert_task (Task.new tid ptr entry base now) k))
| KGrant tid c k k' r : Capability.grant tid c k = (k', r) -> kstep k k'
| KRevoke i k k' r : Capability.revoke i k = (k', r) -> kstep k k'
| KExit k k' : Lifecycle.syscall_exit k = (k', Ok tt) -> kstep k k'.

Lemma inv_spawn tid ptr entry base now k :
  ipc_inv k -> get_task k tid = None ->
  ipc_inv (Sched.enqueue tid (insert_task (Task.new tid ptr entry base now) k)).
Proof.
  intros [Hok Hk] Hnone. split; [done|]. intros x t Hg. unfold get_task in Hg. cbn in Hg.
  apply lookup_insert_Some in Hg as [[<- <-]|[Hne Hg]].
  - split; try done; cbn; try set_solver.
  - apply (task_ok_mono k); [|cbn; set_solver|done|by apply Hk].
    intros y [ty Hy]. exists ty. unfold get_task. cbn. rewrite lookup_insert_ne; [done|].
    intros <-. by rewrite Hnone in Hy.
Qed.

Lemma keeps_result {A E} (m : K E A) k k' r :
  keeps [] m -> ipc_inv k -> m k = (k', r) -> r <> Panic -> ipc_inv k'.
Proof.
  intros Hm Hk Hrun Hr. assert (inv_with [] k) as Hk0 by (split; [done|set_solver]).
  specialize (Hm k Hk0). rewrite Hrun in Hm.
  destruct r; [apply Hm|apply Hm|done].
Qed.

Lemma kstep_inv k k' : kstep k k' -> ipc_inv k -> ipc_inv k'.
Proof.
  destruct keeps_syscalls as (S1 & S2 & S3 & S4 & S5).
  intros Hstep Hk. destruct Hstep.
  - by eapply (keeps_result _ k _ _ (S1 _ _ _)).
  - by eapply (keeps_result _ k _ _ (keeps_ipc_send_async _ _)).
  - by eapply (keeps_result _ k _ _ S2).
  - by eapply (keeps_result _ k _ _ (S3 _ _)).
  - by eapply (keeps_result _ k _ _ S4).
  - by eapply (keeps_result _ k _ _ (S5 _ _ _)).
  - by apply inv_timer.
  - by apply inv_spawn.
  - by eapply inv_grant.
  - by eapply inv_revoke.
  - pose proof (syscall_exit_ok (current_task_id k) k (conj Hk eq_refl)) as Hx.
    match goal with E : Lifecycle.syscall_exit k = _ |- _ => rewrite E in Hx end. apply Hx.
Qed.

Lemma ipc_inv_static hhdm : ipc_inv (static_kernel hhdm).
Proof. split; [apply table_ok_new|]. intros tid t Hg. unfold get_task in Hg. cbn in Hg.
  by rewrite lookup_empty in Hg. Qed.

(** C5: in every kernel reachable from boot by system calls, timer
    interrupts, task creation, grants, revocations and exits: no receive
    queue exceeds its capacity; a task blocked on a send records its target
    and that target is alive, so nobody waits for a dead task; a task waiting
    for a deferred reply records a live task; every runnable task is in the
    run queue, so no wake-up is lost; and every capability identifier in
    circulation was issued. *)
Theorem ipc_invariant_reachable (hhdm : Z) (k : Kernel) :
  rtc kstep (static_kernel hhdm) k ->
  forall tid t, get_task k tid = Some t ->
    id t = tid /\ Queue.wf (recv_queue t) /\
    (forall x, state t = BlockedOnSend x -> blocked_on t = Some x /\ alive k x) /\
    (forall r, state t = WaitingForReply r -> exists x, blocked_on t = Some x /\ alive k x) /\
    (state t = Runnable -> tid ∈ tasks (scheduler k)) /\
    (forall i, i ∈ capabilities t -> i < next_id (cap_table k)).
Proof.
  intros Hrun tid t Hg.
  assert (ipc_inv k) as [_ Hk].
  { remember (static_kernel hhdm) as k0 eqn:E0. assert (ipc_inv k0) as Hk0 by (subst; apply ipc_inv_static).
    clear E0 Hg. induction Hrun; eauto using kstep_inv. }
  destruct (Hk tid t Hg) as [Hid Hw Hb Hr Hc]. split_and!; try done;
    unfold blocked_ok in Hb; intros x Hs; by rewrite Hs in Hb.
Qed.
End reachable.
