(* ===== verification/IpcOps.v ===== *)
(** * What IPC calls deliver

    Functional behaviour of sends, receives and replies on every branch, the
    round trip of a request, and the gaps found in deferred replies, in
    capability-carrying sends and in exit. *)

From S2P Require Import Prelude Message CapTypes Buddy Pmm Bridge Task Kernel Capability CapabilityThm.
From S2P Require Import Scheduler SchedulerThm Paging Shmem ShmemSpec Ipc IpcInv IpcThm.
Import Cap Task.
#[local] Open Scope kernel_scope.

(** The message as the kernel delivers it. *)
Definition stamped (c : Task) (ty : IpcType) (mid : Z) (msg : IpcMessage) : IpcMessage :=
  ((msg <| sender := id c |>) <| msg_type := ty |>) <| msg_id := mid |>.

(** The kernel after a message id has been drawn. *)
Definition drawn (k : Kernel) : Kernel := k <| next_msg_id := u64 (next_msg_id k + 1) |>.

Section send.
Context (k : Kernel) (target : TaskId) (msg : IpcMessage) (ts tc : Task).
Context (Hs : get_task k target = Some ts) (Hlive : state ts <> Exited).
Context (Hc : get_task k (current_task_id k) = Some tc).
Context (Hperm : Capability.has_ipc_send k (id tc) target = true).
Context (Hcap : cap msg = None).

Lemma prepare_send_plain ty :
  Ipc.prepare_send target ty msg k = (drawn k, Ok (tc, stamped tc ty (next_msg_id k) msg)).
Proof using Hs Hlive Hc Hperm Hcap.
  unfold Ipc.prepare_send, M_bind, gets, ok_or, fail_if, current_task, M_ret, throw.
  rewrite Hs, bool_decide_false by done. rewrite Hc. unfold Ipc.capability_check. rewrite Hperm. cbn. by rewrite Hcap.
Qed.

Lemma push_message_ok k0 m t :
  get_task k0 target = Some t -> Queue.is_full (recv_queue t) = false ->
  Ipc.push_message target m k0 =
  (update_task target (fun t => t <| recv_queue := (Queue.push (recv_queue t) m).1 |>) k0, Ok tt).
Proof. intros Ht Hf. unfold Ipc.push_message. by rewrite Ht, push_ok. Qed.
End send.

(** an asynchronous send that passes its checks appends exactly one
    message to the target's queue, stamped by the kernel with the sender's
    identity and a fresh id, wakes a target blocked on receive into the run
    queue, and touches no other task. *)
Theorem send_async_delivers (k : Kernel) (target : TaskId) (msg : IpcMessage) (ts tc : Task) :
  get_task k target = Some ts -> state ts <> Exited -> get_task k (current_task_id k) = Some tc ->
  Capability.has_ipc_send k (id tc) target = true -> cap msg = None -> Queue.is_full (recv_queue ts) = false ->
  exists k' ts', Ipc.ipc_send_async target msg k = (k', Ok tt) /\ get_task k' target = Some ts' /\
    Queue.queue (recv_queue ts') =
      Queue.queue (recv_queue ts) ++ [stamped tc Notification (next_msg_id k) msg] /\
    next_msg_id k' = u64 (next_msg_id k + 1) /\
    (if decide (state ts = BlockedOnReceive) then state ts' = Runnable /\ target ∈ tasks (scheduler k')
     else state ts' = state ts) /\
    (forall tid, tid <> target -> get_task k' tid = get_task k tid).
Proof.
  intros Hs Hlive Hc Hperm Hcap Hfull. unfold Ipc.ipc_send_async, M_bind at 1.
  rewrite (prepare_send_plain k target msg ts tc) by done. unfold M_bind at 1.
  rewrite (push_message_ok target (drawn k) _ ts) by done. unfold modify, Ipc.wake_if_receiving.
  set (m := stamped _ _ _ _). set (f := fun t => t <| recv_queue := (Queue.push (recv_queue t) m).1 |>).
  assert (get_task (update_task target f (drawn k)) target = Some (f ts)) as Hf.
  { rewrite get_update_eq. change (get_task (drawn k) target) with (get_task k target). by rewrite Hs. }
  assert (Queue.queue (recv_queue (f ts)) = Queue.queue (recv_queue ts) ++ [m]) as Hq.
  { cbn. by rewrite push_ok. }
  rewrite Hf. change (state (f ts)) with (state ts). case_decide.
  - eexists _, ((f ts) <| state := Runnable |>). split; [reflexivity|]. split_and!; try done.
    + change (get_task (update_task target (fun t => t <| state := Runnable |>) (update_task target f (drawn k))) target
        = Some ((f ts) <| state := Runnable |>)). rewrite get_update_eq. by rewrite Hf.
    + cbn. set_solver.
    + intros tid Hne. change (get_task (update_task target (fun t => t <| state := Runnable |>)
        (update_task target f (drawn k))) tid = get_task k tid). by rewrite !get_update_ne.
  - eexists _, (f ts). split; [reflexivity|]. split_and!; try done. intros tid Hne. by rewrite get_update_ne.
Qed.

(** A send refused because the target does not exist, has exited, or the
    caller lacks the capability leaves the kernel exactly as it was; refused
    because of its capability it has only drawn a message id. *)
Theorem refused_send_no_effect (k k' : Kernel) (target : TaskId) (ty : IpcType) (msg : IpcMessage) (e : Ipc.Errno) :
  caps_inv k -> Ipc.prepare_send target ty msg k = (k', Err e) ->
  (e = Ipc.EINVAL /\ get_task k target = None /\ k' = k) \/
  (e = Ipc.EDEAD /\ (exists t, get_task k target = Some t /\ state t = Exited) /\ k' = k) \/
  (e = Ipc.EPERM /\ (exists c, get_task k (current_task_id k) = Some c /\
     Capability.has_ipc_send k (id c) target = false) /\ k' = k) \/
  (e = Ipc.ECAPFAIL /\ is_Some (cap msg) /\ k' = drawn k).
Proof.
  intros Hinv. unfold Ipc.prepare_send, M_bind, gets, ok_or, fail_if, current_task, M_ret, throw, Ipc.capability_check.
  destruct (get_task k target) as [t|] eqn:Ht; [|intros [= <- <-]; by left].
  case_bool_decide as Hx; [intros [= <- <-]; right; left; by eauto|].
  destruct (get_task k (current_task_id k)) as [c|] eqn:Hc; [|done].
  destruct (Capability.has_ipc_send k (id c) target) eqn:Hp; cbn [negb]; [|intros [= <- <-]; right; right; left; by eauto].
  unfold next_message_id. fold (drawn k). cbv zeta. change (cap (_ <| msg_id := _ |>)) with (cap msg).
  destruct (cap msg) as [i|]; [|done]. unfold Ipc.transfer_capability.
  destruct (Capability.check (drawn k) i) as [cp|]; [|intros [= <- <-]; right; right; right; by eauto].
  destruct (transfer_spec (id c) (id t) cp (drawn k) Hinv) as [[er ->]|(k1 & j & ct & -> & _)]; [|done].
  intros [= <- <-]. right; right; right. by eauto.
Qed.

(** ** Replies *)

Lemma deliver_reply_run k sid p tc ts :
  get_task k (current_task_id k) = Some tc -> get_task k sid = Some ts ->
  exists k', Ipc.deliver_reply sid p k = (k', Ok tt) /\
    current_task_id k' = current_task_id k /\ sid ∈ tasks (scheduler k') /\
    (exists ts', get_task k' sid = Some ts' /\ state ts' = Runnable /\ blocked_on ts' = None /\
      rax (context ts') = p0 p /\
      ipc_reply ts' = Some (mkMsg (id tc) Reply p None None (next_msg_id k))) /\
    (forall tid, tid <> sid -> get_task k' tid =
      (fun t => if decide (tid = current_task_id k) then t <| inherited_priority := 0 |> else t) <$> get_task k tid).
Proof.
  intros Hc Hs. unfold Ipc.deliver_reply, M_bind, current_task, next_message_id, gets, modify. rewrite Hc.
  match goal with |- context [update_task sid ?F ?K0] => set (f := F); set (k0 := K0) end.
  set (g := fun t => t <| inherited_priority := 0 |>).
  eexists. split; [reflexivity|]. split_and!; [done|cbn; set_solver|..].
  - change (exists ts', get_task (update_task (current_task_id k) g (update_task sid f k0)) sid = Some ts' /\
      state ts' = Runnable /\ blocked_on ts' = None /\ rax (context ts') = p0 p /\
      ipc_reply ts' = Some (mkMsg (id tc) Reply p None None (next_msg_id k))).
    rewrite get_update, get_update_eq. change (get_task k0 sid) with (get_task k sid). rewrite Hs. cbn.
    case_decide; by eexists.
  - intros tid Hne. change (get_task (update_task (current_task_id k) g (update_task sid f k0)) tid =
      (fun t => if decide (tid = current_task_id k) then g t else t) <$> get_task k tid).
    rewrite get_update, get_update_ne by done. change (get_task k0 tid) with (get_task k tid).
    by destruct (get_task k tid); case_decide.
Qed.

(** The checks of a direct reply. *)
Lemma ipc_reply_run k req p tc :
  get_task k (current_task_id k) = Some tc ->
  Ipc.ipc_reply req p k =
  match get_task k (sender req) with
  | Some ts => if bool_decide (state ts = BlockedOnSend (id tc))
               then Ipc.deliver_reply (sender req) p k else (k, Err Ipc.EINVAL)
  | None => (k, Err Ipc.EINVAL)
  end.
Proof.
  intros Hc. unfold Ipc.ipc_reply, M_bind, gets, ok_or, fail_if, current_task, M_ret, throw. rewrite Hc.
  destruct (get_task k (sender req)) as [ts|]; [|done]. by case_bool_decide.
Qed.

(** a direct reply reaches only a task that is blocked on the replier:
    then that task gets the payload in its return register and its reply slot,
    becomes runnable and queued, and no other task's state changes; in every
    other case the reply is refused and nothing changes. *)
Theorem reply_only_to_blocked_sender (k : Kernel) (req : IpcMessage) (p : Payload) (tc : Task) :
  get_task k (current_task_id k) = Some tc ->
  if bool_decide (state <$> get_task k (sender req) = Some (BlockedOnSend (id tc))) then
    exists k' ts', Ipc.ipc_reply req p k = (k', Ok tt) /\ get_task k' (sender req) = Some ts' /\
      state ts' = Runnable /\ blocked_on ts' = None /\ rax (context ts') = p0 p /\
      sender req ∈ tasks (scheduler k') /\
      (forall tid t, tid <> sender req -> get_task k tid = Some t ->
         exists t', get_task k' tid = Some t' /\ state t' = state t /\ ipc_reply t' = ipc_reply t)
  else Ipc.ipc_reply req p k = (k, Err Ipc.EINVAL).
Proof.
  intros Hc. rewrite (ipc_reply_run k req p tc Hc). destruct (get_task k (sender req)) as [ts|] eqn:Hs.
  2: { by rewrite bool_decide_false. }
  cbn [fmap option_fmap option_map]. destruct (decide (state ts = BlockedOnSend (id tc))) as [Hb|Hb].
  - rewrite !bool_decide_true by (done || by rewrite Hb).
    destruct (deliver_reply_run k (sender req) p tc ts Hc Hs) as (k' & Hrun & _ & Hq & (ts' & Hg & H1 & H2 & H3 & _) & Hoth).
    exists k', ts'. split_and!; try done. intros tid t Hne Ht. rewrite Hoth, Ht by done. cbn. eexists. split; [done|].
    by case_decide.
  - rewrite !bool_decide_false by (done || congruence). done.
Qed.

(** Waking the target changes at most its state, and no other task. *)
Lemma wake_keeps k target :
  (forall t, get_task k target = Some t -> exists t', get_task (Ipc.wake_if_receiving target k) target = Some t' /\
     recv_queue t' = recv_queue t /\ id t' = id t) /\
  (forall tid, tid <> target -> get_task (Ipc.wake_if_receiving target k) tid = get_task k tid).
Proof.
  unfold Ipc.wake_if_receiving. destruct (get_task k target) as [t0|] eqn:Ht; [|done].
  case_decide; [|split; [|done]; rewrite Ht; eauto].
  set (f := fun t => t <| state := Runnable |>). split.
  - intros t [= <-]. exists (f t0). split; [|done]. change (get_task (update_task target f k) target = Some (f t0)).
    rewrite get_update_eq. by rewrite Ht.
  - intros tid Hne. change (get_task (update_task target f k) tid = get_task k tid). by rewrite get_update_ne.
Qed.

(** C31: a request to a server with an empty queue and its reply make a round
    trip.  The client's send leaves it blocked with the message in the
    server's queue; when the server runs,
    its receive returns that message with the client as authenticated sender;
    its reply puts the payload in the client's return register and makes the
    client runnable and queued. *)
Theorem request_reply_roundtrip (k : Kernel) (s : TaskId) (msg : IpcMessage) (p : Payload) (ts tc : Task) :
  let c := current_task_id k in
  s <> c -> get_task k s = Some ts -> get_task k c = Some tc -> id ts = s -> id tc = c ->
  state ts <> Exited -> Capability.has_ipc_send k (id tc) s = true -> cap msg = None ->
  recv_queue ts = Queue.new ->
  exists k1 k2 k3 m tc3,
    (Ipc.prepare_send s Request msg ;;; Ipc.block_on_send c s (stamped tc Request (next_msg_id k) msg)) k = (k1, Ok tt) /\
    (exists tc1, get_task k1 c = Some tc1 /\ state tc1 = BlockedOnSend s) /\
    Ipc.ipc_receive (set_current_task s k1) = (k2, Ok m) /\ sender m = c /\ payload m = payload msg /\
    Ipc.ipc_reply m p k2 = (k3, Ok tt) /\
    get_task k3 c = Some tc3 /\ state tc3 = Runnable /\ rax (context tc3) = p0 p /\ c ∈ tasks (scheduler k3).
Proof.
  intros c Hne Hs Hc Hids Hidc Hlive Hperm Hcap Hq. set (m := stamped tc Request (next_msg_id k) msg).
  unfold M_bind at 1. rewrite (prepare_send_plain k s msg ts tc) by done. unfold Ipc.block_on_send.
  unfold M_bind at 1. rewrite (push_message_ok s (drawn k) _ ts) by (done || by rewrite Hq).
  unfold M_bind at 1, gets. unfold M_bind at 1, modify at 1. unfold M_bind at 1, modify at 1. unfold modify.
  match goal with |- context [default 0 ?x] => set (sp := default 0 x) end.
  set (f1 := fun t => t <| recv_queue := (Queue.push (recv_queue t) m).1 |>).
  set (f2 := fun t => ((t <| state := BlockedOnSend s |>) <| blocked_on := Some s |>) <| ipc_reply := None |>).
  set (f3 := fun t => if inherited_priority t <? sp then t <| inherited_priority := sp |> else t).
  set (k0 := update_task s f3 (update_task c f2 (update_task s f1 (drawn k)))).
  assert (get_task k0 s = Some (f3 (f1 ts))) as Hk0s.
  { unfold k0. rewrite get_update_eq, get_update_ne, get_update_eq by done.
    change (get_task (drawn k) s) with (get_task k s). by rewrite Hs. }
  assert (get_task k0 c = Some (f2 tc)) as Hk0c.
  { unfold k0. rewrite get_update_ne, get_update_eq, get_update_ne by done.
    change (get_task (drawn k) c) with (get_task k c). by rewrite Hc. }
  destruct (wake_keeps k0 s) as (Hw1 & Hw2). set (k1 := Ipc.wake_if_receiving s k0) in *.
  destruct (Hw1 _ Hk0s) as (ts1 & Hts1 & Hq1 & Hi1). specialize (Hw2 c ltac:(done)). rewrite Hk0c in Hw2.
  assert (recv_queue ts1 = Queue.mkQueue [m] Queue.DEFAULT_SIZE) as Hrq.
  { rewrite Hq1. unfold f3. case_match; cbn; rewrite Hq; reflexivity. }
  assert (id ts1 = s) as Hid1. { rewrite Hi1. unfold f3. by case_match. }
  set (g := fun t => t <| recv_queue := (Queue.pop (recv_queue t)).1 |>).
  set (k2 := update_task s g (set_current_task s k1)).
  assert (get_task k2 c = Some (f2 tc)) as Hk2c by (unfold k2; by rewrite get_update_ne).
  assert (get_task k2 s = Some (g ts1)) as Hk2s.
  { unfold k2. rewrite get_update_eq. change (get_task (set_current_task s k1) s) with (get_task k1 s). by rewrite Hts1. }
  destruct (deliver_reply_run k2 c p (g ts1) (f2 tc) Hk2s Hk2c) as (k3 & Hrun3 & _ & Hq3 & (tc3 & Hg3 & Hst3 & _ & Hrax & _) & _).
  exists k1, k2, k3, m, tc3. split_and!; try done.
  - eexists. split; [exact Hw2|done].
  - unfold Ipc.ipc_receive, Ipc.pop_message, M_bind, current_task.
    change (get_task (set_current_task s k1) (current_task_id (set_current_task s k1))) with (get_task k1 s).
    rewrite Hts1. cbn. rewrite Hrq. done.
  - rewrite (ipc_reply_run k2 m p (g ts1) Hk2s). change (sender m) with (id tc). rewrite Hidc, Hk2c.
    rewrite bool_decide_true by (cbn; by rewrite Hid1). exact Hrun3.
Qed.

(** ** Gaps *)

(** The checks of a deferred reply. *)
Lemma reply_token_run k sid rid p tc ts :
  get_task k (current_task_id k) = Some tc -> get_task k sid = Some ts -> state ts = WaitingForReply rid ->
  1 <= sid < 2 ^ 16 -> 0 <= rid < 2 ^ 48 ->
  Ipc.ipc_reply_with_token (CallerToken.new sid rid) p k = Ipc.deliver_reply sid p k.
Proof.
  intros Hc Hs Hst Hsid Hrid. unfold Ipc.ipc_reply_with_token, M_bind at 1, current_task. rewrite Hc.
  unfold M_bind at 1. rewrite token_decode, !Z.mod_small by lia. destruct (Z.eqb_spec sid 0); [lia|].
  cbn [ok_or M_ret]. unfold M_ret, M_bind at 1, gets, M_bind at 1, ok_or. rewrite Hs. cbn [M_ret].
  unfold M_ret, M_bind, fail_if. by rewrite bool_decide_true.
Qed.

(** A deferred reply is not tied to the replier: any task at all that
    presents the token computed from the sender's id and the message id, both
    small public numbers, completes the call of a task that waits on somebody
    else. *)
Theorem deferred_reply_unauthenticated (k : Kernel) (sid rid : Z) (p : Payload) (tc ts : Task) (server : TaskId) :
  get_task k (current_task_id k) = Some tc -> get_task k sid = Some ts -> state ts = WaitingForReply rid ->
  blocked_on ts = Some server -> server <> current_task_id k ->
  1 <= sid < 2 ^ 16 -> 0 <= rid < 2 ^ 48 ->
  exists k' ts', Ipc.ipc_reply_with_token (CallerToken.new sid rid) p k = (k', Ok tt) /\
    get_task k' sid = Some ts' /\ state ts' = Runnable /\ rax (context ts') = p0 p.
Proof.
  intros Hc Hs Hst _ _ Hsid Hrid. rewrite (reply_token_run k sid rid p tc ts) by done.
  destruct (deliver_reply_run k sid p tc ts Hc Hs) as (k' & Hrun & _ & _ & (ts' & Hg & H1 & _ & H3 & _) & _).
  exists k', ts'. done.
Qed.

(** Task 1 runs and may send to task 2; task 3 waits for task 2's deferred
    reply to its message 7. *)
Definition ipc_demo : Kernel :=
  update_task 3 (fun t => (t <| state := WaitingForReply 7 |>) <| blocked_on := Some 2 |>)
    (Capability.grant 1 (IpcSend 2) three_tasks).1.

Definition demo_msg : IpcMessage := new_request (mkPayload 11 22 33 44).

(** Sixty-four notifications fill task 2's queue. *)
Definition full_demo : Kernel := Nat.iter 64 (fun k => (Ipc.ipc_send_async 2 demo_msg k).1) ipc_demo.

(** A send that carries a capability transfers it before it knows whether
    the target's queue has room: the send fails, and the target keeps the
    capability. *)
Theorem failed_send_transfers_capability :
  let m := mkMsg 0 Request (mkPayload 0 0 0 0) (Some 1) None 0 in
  Capability.has_ipc_send full_demo 2 2 = false /\
  (Ipc.ipc_send_async 2 m full_demo).2 = Err Ipc.ENOBUFS /\
  Capability.has_ipc_send (Ipc.ipc_send_async 2 m full_demo).1 2 2 = true.
Proof. by vm_compute. Qed.

(** Exit never gives the CPU to another task: the exited task stays
    current though it is gone, and however many timer interrupts follow, each
    resumes the interrupted halt loop, runnable tasks or not. *)
Theorem exit_never_switches `{Mapper} `{HashOrder} (k k' : Kernel) (saved : Context) (n : nat) :
  ipc_inv k -> Lifecycle.syscall_exit k = (k', Ok tt) ->
  let kn := Nat.iter n (fun k => (Sched.timer_preempt_handler saved k).1) k' in
  get_task kn (current_task_id kn) = None /\ (Sched.timer_preempt_handler saved kn).2 = Sched.ResumeFrame.
Proof.
  intros Hk Hrun kn. pose proof (syscall_exit_ok (current_task_id k) k (conj Hk eq_refl)) as Hx.
  rewrite Hrun in Hx. destruct Hx as [[_ Hc] Hg]. rewrite <- Hc in Hg.
  assert (forall k0, get_task k0 (current_task_id k0) = None ->
    Sched.timer_preempt_handler saved k0 = (timer_tick k0, Sched.ResumeFrame)) as Hstep.
  { intros k0 H0'. unfold Sched.timer_preempt_handler. cbv zeta.
    change (get_task (timer_tick k0) (current_task_id (timer_tick k0))) with (get_task k0 (current_task_id k0)).
    rewrite H0'. by case_match. }
  assert (get_task kn (current_task_id kn) = None) as Hn.
  { unfold kn. clear kn. induction n as [|n IH]; [done|]. rewrite Nat.iter_succ.
    rewrite (Hstep _ IH). exact IH. }
  split; [done|]. by rewrite (Hstep _ Hn).
Qed.

(** ** Witnesses *)

Lemma send_async_delivers_witness :
  exists k' ts', Ipc.ipc_send_async 2 demo_msg ipc_demo = (k', Ok tt) /\ get_task k' 2 = Some ts' /\
    Queue.queue (recv_queue ts') = [stamped (Task.new 1 0 0x400000 0x10000 0) Notification 1 demo_msg] /\
    next_msg_id k' = u64 (1 + 1) /\ state ts' = Runnable /\
    (forall tid, tid <> 2 -> get_task k' tid = get_task ipc_demo tid).
Proof.
  edestruct (send_async_delivers ipc_demo 2 demo_msg) as (k' & ts' & H1 & H2 & H3 & H4 & H5 & H6);
    [vm_compute; reflexivity|done|vm_compute; reflexivity|by vm_compute|done|by vm_compute|].
  exists k', ts'. split_and!; [exact H1|exact H2|exact H3|exact H4|exact H5|exact H6].
Defined.

Lemma refused_send_no_effect_witness :
  let r := Ipc.prepare_send 9 Request demo_msg cap_demo in
  r.2 = Err Ipc.EINVAL /\
  ((Ipc.EINVAL = Ipc.EINVAL /\ get_task cap_demo 9 = None /\ r.1 = cap_demo) \/
   (Ipc.EINVAL = Ipc.EDEAD /\ (exists t, get_task cap_demo 9 = Some t /\ state t = Exited) /\ r.1 = cap_demo) \/
   (Ipc.EINVAL = Ipc.EPERM /\ (exists c, get_task cap_demo (current_task_id cap_demo) = Some c /\
      Capability.has_ipc_send cap_demo (id c) 9 = false) /\ r.1 = cap_demo) \/
   (Ipc.EINVAL = Ipc.ECAPFAIL /\ is_Some (cap demo_msg) /\ r.1 = drawn cap_demo)).
Proof.
  split; [by vm_compute|]. apply (refused_send_no_effect cap_demo _ 9 Request demo_msg); [apply cap_demo_inv|by vm_compute].
Defined.

Lemma reply_only_to_blocked_sender_witness :
  Ipc.ipc_reply (stamped (Task.new 3 0 0 0 0) Request 7 demo_msg) (mkPayload 1 2 3 4) ipc_demo =
  (ipc_demo, Err Ipc.EINVAL).
Proof.
  apply (reply_only_to_blocked_sender ipc_demo (stamped (Task.new 3 0 0 0 0) Request 7 demo_msg) (mkPayload 1 2 3 4)
    ((Task.new 1 0 0x400000 0x10000 0) <| capabilities := [1] |>)). vm_compute. reflexivity.
Defined.

Lemma request_reply_roundtrip_witness :
  exists k1 k2 k3 m tc3,
    (Ipc.prepare_send 2 Request demo_msg ;;;
     Ipc.block_on_send 1 2 (stamped ((Task.new 1 0 0x400000 0x10000 0) <| capabilities := [1] |>) Request 1 demo_msg)) ipc_demo
      = (k1, Ok tt) /\
    (exists tc1, get_task k1 1 = Some tc1 /\ state tc1 = BlockedOnSend 2) /\
    Ipc.ipc_receive (set_current_task 2 k1) = (k2, Ok m) /\ sender m = 1 /\ payload m = payload demo_msg /\
    Ipc.ipc_reply m (mkPayload 99 0 0 0) k2 = (k3, Ok tt) /\
    get_task k3 1 = Some tc3 /\ state tc3 = Runnable /\ rax (context tc3) = 99 /\ 1 ∈ tasks (scheduler k3).
Proof.
  apply (request_reply_roundtrip ipc_demo 2 demo_msg (mkPayload 99 0 0 0) (Task.new 2 0 0x400000 0x20000 0)
    ((Task.new 1 0 0x400000 0x10000 0) <| capabilities := [1] |>)); by vm_compute.
Defined.

Lemma deferred_reply_unauthenticated_witness :
  exists k' ts', Ipc.ipc_reply_with_token (CallerToken.new 3 7) (mkPayload 5 0 0 0) ipc_demo = (k', Ok tt) /\
    get_task k' 3 = Some ts' /\ state ts' = Runnable /\ rax (context ts') = 5.
Proof.
  apply (deferred_reply_unauthenticated ipc_demo 3 7 (mkPayload 5 0 0 0)
    ((Task.new 1 0 0x400000 0x10000 0) <| capabilities := [1] |>)
    (((Task.new 3 0 0x400000 0x30000 0) <| state := WaitingForReply 7 |>) <| blocked_on := Some 2 |>) 2);
    try lia; by vm_compute.
Defined.

Lemma exit_wakes_waiters_witness :
  let k' := (Ipc.unblock_waiters_for 2 ipc_demo).1 in
  (exists t', get_task k' 3 = Some t' /\ rax (context t') = U64_MAX /\ state t' = Runnable /\
    blocked_on t' = None /\ ipc_reply t' = None /\ 3 ∈ tasks (scheduler k')) /\
  (forall t', get_task k' 3 = Some t' -> Ipc.should_wake 2 t' = false).
Proof.
  refine (exit_wakes_waiters 2 ipc_demo 3
    (((Task.new 3 0 0x400000 0x30000 0) <| state := WaitingForReply 7 |>) <| blocked_on := Some 2 |>) _).
  vm_compute. reflexivity.
Defined.

(** A kernel reached from boot: two tasks are created, the first exits. *)
Definition spawned (tid : TaskId) (k : Kernel) : Kernel :=
  Sched.enqueue tid (insert_task (Task.new tid 0 0x400000 (0x10000 * tid) 0) k).
Definition boot2 : Kernel := spawned 2 (spawned 1 (static_kernel Buddy.HIGHER_HALF)).

Lemma boot2_reachable : rtc kstep (static_kernel Buddy.HIGHER_HALF) boot2.
Proof.
  eapply rtc_l; [apply (KSpawn 1 0 0x400000 0x10000 0); by vm_compute|].
  eapply rtc_l; [apply (KSpawn 2 0 0x400000 0x20000 0); by vm_compute|]. apply rtc_refl.
Qed.

Lemma ipc_invariant_reachable_witness :
  get_task boot2 1 = Some (Task.new 1 0 0x400000 0x10000 0) /\
  let t := Task.new 1 0 0x400000 0x10000 0 in
  id t = 1 /\ Queue.wf (recv_queue t) /\
  (forall x, state t = BlockedOnSend x -> blocked_on t = Some x /\ alive boot2 x) /\
  (forall r, state t = WaitingForReply r -> exists x, blocked_on t = Some x /\ alive boot2 x) /\
  (state t = Runnable -> 1 ∈ tasks (scheduler boot2)) /\
  (forall i, i ∈ capabilities t -> i < next_id (cap_table boot2)).
Proof.
  split; [by vm_compute|].
  apply (ipc_invariant_reachable Buddy.HIGHER_HALF boot2 boot2_reachable). by vm_compute.
Defined.

Lemma exit_never_switches_witness :
  let k := set_current_task 1 boot2 in
  let k' := (Lifecycle.syscall_exit k).1 in
  let kn := Nat.iter 3 (fun k => (Sched.timer_preempt_handler zero_context k).1) k' in
  get_task kn (current_task_id kn) = None /\ (Sched.timer_preempt_handler zero_context kn).2 = Sched.ResumeFrame.
Proof.
  apply (exit_never_switches (set_current_task 1 boot2) _ zero_context 3).
  - apply (inv_same boot2); try done. apply (inv_spawn 2); [apply (inv_spawn 1); [apply ipc_inv_static|]|]; by vm_compute.
  - vm_compute. reflexivity.
Defined.
