(* ===== verification/A64.v ===== *)
(** The AArch64 instruction encoder (src/tools/a64-encoder/src/lib.rs).

    Registers, conditions, the byte buffer and one operation per emitter
    method, each the word expression of the source between its operand checks
    and the append.  [x .| y], [x .& y], [x .<< k] and [x .>> k] are the Rust
    operators on [u32] (and on the signed offsets, for [.&] and [.>>]): a left
    shift drops the bits above bit 31. *)

From S2P Require Import Prelude Bytes.

Declare Scope word_scope.
Delimit Scope word_scope with word.

Definition shl32 (x k : Z) : Z := u32 (Z.shiftl x k).

Notation "x .<< k" := (shl32 x k) (at level 33, left associativity) : word_scope.
Notation "x .>> k" := (Z.shiftr x k) (at level 33, left associativity) : word_scope.
Notation "x .& y" := (Z.land x y) (at level 39, left associativity) : word_scope.
Notation "x .| y" := (Z.lor x y) (at level 45, left associativity) : word_scope.

Open Scope kernel_scope.
Open Scope word_scope.

(** ** Registers and operands *)

Inductive Vreg := MkVreg (idx : Z).
Inductive Reg := MkReg (idx : Z).

#[global] Instance Vreg_eq_dec : EqDecision Vreg.
Proof. solve_decision. Defined.
#[global] Instance Reg_eq_dec : EqDecision Reg.
Proof. solve_decision. Defined.

Definition vreg_idx (v : Vreg) : Z := match v with MkVreg i => i end.
Definition reg_idx (r : Reg) : Z := match r with MkReg i => i end.

Definition Vreg_new (idx : Z) : option Vreg := if idx <=? 31 then Some (MkVreg idx) else None.
Definition Reg_new (idx : Z) : option Reg := if idx <=? 30 then Some (MkReg idx) else None.

Definition venc (v : Vreg) : Z := vreg_idx v .& 0x1F.
Definition enc (r : Reg) : Z := reg_idx r .& 0x1F.

Definition X0 := MkReg 0.
Definition X16 := MkReg 16.
Definition X17 := MkReg 17.
Definition X29 := MkReg 29.
Definition X30 := MkReg 30.
Definition ZR := MkReg 31.
Definition SP := MkReg 31.

Inductive MovShift := Lsl0 | Lsl16 | Lsl32 | Lsl48.

Definition MovShift_u32 (s : MovShift) : Z :=
  match s with Lsl0 => 0 | Lsl16 => 1 | Lsl32 => 2 | Lsl48 => 3 end.

Inductive Condition := Eq | Ne | Hs | Lo | Hi | Ls | Ge | Lt | Gt | Le.

Definition Condition_u32 (c : Condition) : Z :=
  match c with
  | Eq => 0 | Ne => 1 | Hs => 2 | Lo => 3 | Hi => 8
  | Ls => 9 | Ge => 10 | Lt => 11 | Gt => 12 | Le => 13
  end.

Definition invert (c : Condition) : Condition :=
  match c with
  | Eq => Ne | Ne => Eq
  | Hs => Lo | Lo => Hs
  | Hi => Ls | Ls => Hi
  | Ge => Lt | Lt => Ge
  | Gt => Le | Le => Gt
  end.

Inductive EncodeError := ImmediateOutOfRange | OffsetMisaligned.

#[global] Instance EncodeError_eq_dec : EqDecision EncodeError.
Proof. solve_decision. Defined.

(** ** The buffer *)

Record Encoder := mkEncoder { buf : list Z }.

Abbreviation EncM := (M Encoder EncodeError).
Abbreviation u32_result := (Z + EncodeError)%type.

Definition lift_result {S E A} (r : A + E) : M S E A :=
  match r with inl a => M_ret a | inr e => throw e end.

Definition new_encoder : Encoder := mkEncoder [].
Definition pos (e : Encoder) : Z := Z.of_nat (length (buf e)).
Definition into_bytes (e : Encoder) : list Z := buf e.
Definition as_bytes (e : Encoder) : list Z := buf e.

Definition emit {E} (word : Z) : M Encoder E unit :=
  modify (fun e => mkEncoder (buf e ++ le_bytes 4 word)).

Definition emit_raw_word {E} (word : Z) : M Encoder E unit := emit word.

(** [self.buf\[pos..pos + 4\].copy_from_slice(..)]: a range that does not lie in
    the buffer panics. *)
Definition splice (l : list Z) (at_ : nat) (bs : list Z) : list Z :=
  take at_ l ++ bs ++ drop (at_ + length bs) l.

Definition patch_word {E} (at_ word : Z) : M Encoder E unit :=
  fun e =>
    if (0 <=? at_) && (at_ + 4 <=? pos e)
    then (mkEncoder (splice (buf e) (Z.to_nat at_) (le_bytes 4 word)), Ok tt)
    else (e, Panic).

(** ** Encoding helpers *)

Definition encode_b_cond (cond : Condition) (offset : Z) : u32_result :=
  if negb ((offset .& 0x3) =? 0) then inr OffsetMisaligned else
  let imm19 := offset .>> 2 in
  if negb ((-(2 ^ 18) <=? imm19) && (imm19 <? 2 ^ 18)) then inr ImmediateOutOfRange else
  inl (0x54000000 .| ((u32 imm19) .& 0x0007FFFF) .<< 5 .| Condition_u32 cond).

Definition encode_b (offset : Z) : u32_result :=
  if negb ((offset .& 0x3) =? 0) then inr OffsetMisaligned else
  let imm26 := offset .>> 2 in
  if negb ((-(2 ^ 25) <=? imm26) && (imm26 <? 2 ^ 25)) then inr ImmediateOutOfRange else
  inl (0x14000000 .| (u32 imm26) .& 0x03FFFFFF).

Definition encode_cbnz_w (rt : Reg) (offset : Z) : u32_result :=
  if negb ((offset .& 0x3) =? 0) then inr OffsetMisaligned else
  let imm19 := offset .>> 2 in
  if negb ((-(2 ^ 18) <=? imm19) && (imm19 <? 2 ^ 18)) then inr ImmediateOutOfRange else
  inl (0x35000000 .| ((u32 imm19) .& 0x0007FFFF) .<< 5 .| enc rt).

Definition encode_cbz_w (rt : Reg) (offset : Z) : u32_result :=
  if negb ((offset .& 0x3) =? 0) then inr OffsetMisaligned else
  let imm19 := offset .>> 2 in
  if negb ((-(2 ^ 18) <=? imm19) && (imm19 <? 2 ^ 18)) then inr ImmediateOutOfRange else
  inl (0x34000000 .| ((u32 imm19) .& 0x0007FFFF) .<< 5 .| enc rt).

(** ** Emitters *)

Module Enc.

Definition movz (rd : Reg) (imm16 : Z) (shift : MovShift) : EncM unit :=
  let word := 0xD2800000 .| (MovShift_u32 shift) .<< 21 .| imm16 .<< 5 .| enc rd in
  emit word.

Definition movn (rd : Reg) (imm16 : Z) (shift : MovShift) : EncM unit :=
  let word := 0x92800000 .| (MovShift_u32 shift) .<< 21 .| imm16 .<< 5 .| enc rd in
  emit word.

Definition movk (rd : Reg) (imm16 : Z) (shift : MovShift) : EncM unit :=
  let word := 0xF2800000 .| (MovShift_u32 shift) .<< 21 .| imm16 .<< 5 .| enc rd in
  emit word.

Definition add (rd : Reg) (rn : Reg) (rm : Reg) : EncM unit :=
  let word := 0x8B000000 .| (enc rm) .<< 16 .| (enc rn) .<< 5 .| enc rd in
  emit word.

Definition sub (rd : Reg) (rn : Reg) (rm : Reg) : EncM unit :=
  let word := 0xCB000000 .| (enc rm) .<< 16 .| (enc rn) .<< 5 .| enc rd in
  emit word.

Definition mul (rd : Reg) (rn : Reg) (rm : Reg) : EncM unit :=
  let word := 0x9B000000 .| (enc rm) .<< 16 .| 31 .<< 10 .| (enc rn) .<< 5 .| enc rd in
  emit word.

Definition sdiv (rd : Reg) (rn : Reg) (rm : Reg) : EncM unit :=
  let word := 0x9AC00C00 .| (enc rm) .<< 16 .| (enc rn) .<< 5 .| enc rd in
  emit word.

Definition add_ext_uxtw (rd : Reg) (rn : Reg) (rm : Reg) : EncM unit :=
  let word := 0x8B204000 .| (enc rm) .<< 16 .| (enc rn) .<< 5 .| enc rd in
  emit word.

Definition add_ext_uxtw_shifted (rd : Reg) (rn : Reg) (rm : Reg) (shift : Z) : EncM unit :=
  fail_if (4 <? shift) ImmediateOutOfRange ;;;
  let word := 0x8B204000 .| (enc rm) .<< 16 .| (shift .& 0x7) .<< 10 .| (enc rn) .<< 5 .| enc rd in
  emit word.

Definition fmov_s_from_w (sd : Vreg) (wn : Reg) : EncM unit :=
  emit (0x1E270000 .| (enc wn) .<< 5 .| venc sd).

Definition fmov_w_from_s (wd : Reg) (sn : Vreg) : EncM unit :=
  emit (0x1E260000 .| (venc sn) .<< 5 .| enc wd).

Definition fadd_s (sd : Vreg) (sn : Vreg) (sm : Vreg) : EncM unit :=
  emit (0x1E202800 .| (venc sm) .<< 16 .| (venc sn) .<< 5 .| venc sd).

Definition fsub_s (sd : Vreg) (sn : Vreg) (sm : Vreg) : EncM unit :=
  emit (0x1E203800 .| (venc sm) .<< 16 .| (venc sn) .<< 5 .| venc sd).

Definition fmul_s (sd : Vreg) (sn : Vreg) (sm : Vreg) : EncM unit :=
  emit (0x1E200800 .| (venc sm) .<< 16 .| (venc sn) .<< 5 .| venc sd).

Definition fdiv_s (sd : Vreg) (sn : Vreg) (sm : Vreg) : EncM unit :=
  emit (0x1E201800 .| (venc sm) .<< 16 .| (venc sn) .<< 5 .| venc sd).

Definition fmov_s_s (sd : Vreg) (sn : Vreg) : EncM unit :=
  emit (0x1E204000 .| (venc sn) .<< 5 .| venc sd).

Definition ldr_s_imm (sd : Vreg) (xn : Reg) (offset : Z) : EncM unit :=
  fail_if (negb ((offset .& 0x3) =? 0)) OffsetMisaligned ;;;
  let imm12 := offset .>> 2 in
  fail_if (0xFFF <? imm12) ImmediateOutOfRange ;;;
  emit (0xBD400000 .| imm12 .<< 10 .| (enc xn) .<< 5 .| venc sd).

Definition str_s_imm (sd : Vreg) (xn : Reg) (offset : Z) : EncM unit :=
  fail_if (negb ((offset .& 0x3) =? 0)) OffsetMisaligned ;;;
  let imm12 := offset .>> 2 in
  fail_if (0xFFF <? imm12) ImmediateOutOfRange ;;;
  emit (0xBD000000 .| imm12 .<< 10 .| (enc xn) .<< 5 .| venc sd).

Definition fcmp_s (sn : Vreg) (sm : Vreg) : EncM unit :=
  emit (0x1E202000 .| (venc sm) .<< 16 .| (venc sn) .<< 5).

Definition fmov_d_from_x (dd : Vreg) (xn : Reg) : EncM unit :=
  emit (0x9E670000 .| (enc xn) .<< 5 .| venc dd).

Definition fmov_x_from_d (xd : Reg) (dn : Vreg) : EncM unit :=
  emit (0x9E660000 .| (venc dn) .<< 5 .| enc xd).

Definition fadd_d (dd : Vreg) (dn : Vreg) (dm : Vreg) : EncM unit :=
  emit (0x1E602800 .| (venc dm) .<< 16 .| (venc dn) .<< 5 .| venc dd).

Definition fsub_d (dd : Vreg) (dn : Vreg) (dm : Vreg) : EncM unit :=
  emit (0x1E603800 .| (venc dm) .<< 16 .| (venc dn) .<< 5 .| venc dd).

Definition fmul_d (dd : Vreg) (dn : Vreg) (dm : Vreg) : EncM unit :=
  emit (0x1E600800 .| (venc dm) .<< 16 .| (venc dn) .<< 5 .| venc dd).

Definition fdiv_d (dd : Vreg) (dn : Vreg) (dm : Vreg) : EncM unit :=
  emit (0x1E601800 .| (venc dm) .<< 16 .| (venc dn) .<< 5 .| venc dd).

Definition fmov_d_d (dd : Vreg) (dn : Vreg) : EncM unit :=
  emit (0x1E604000 .| (venc dn) .<< 5 .| venc dd).

Definition ldr_d_imm (dd : Vreg) (xn : Reg) (offset : Z) : EncM unit :=
  fail_if (negb ((offset .& 0x7) =? 0)) OffsetMisaligned ;;;
  let imm12 := offset .>> 3 in
  fail_if (0xFFF <? imm12) ImmediateOutOfRange ;;;
  emit (0xFD400000 .| imm12 .<< 10 .| (enc xn) .<< 5 .| venc dd).

Definition str_d_imm (dd : Vreg) (xn : Reg) (offset : Z) : EncM unit :=
  fail_if (negb ((offset .& 0x7) =? 0)) OffsetMisaligned ;;;
  let imm12 := offset .>> 3 in
  fail_if (0xFFF <? imm12) ImmediateOutOfRange ;;;
  emit (0xFD000000 .| imm12 .<< 10 .| (enc xn) .<< 5 .| venc dd).

Definition fcmp_d (dn : Vreg) (dm : Vreg) : EncM unit :=
  emit (0x1E602000 .| (venc dm) .<< 16 .| (venc dn) .<< 5).

Definition ldr_q_imm (qt : Vreg) (xn : Reg) (offset : Z) : EncM unit :=
  fail_if (negb ((offset .& 0xF) =? 0)) OffsetMisaligned ;;;
  let imm12 := offset .>> 4 in
  fail_if (0xFFF <? imm12) ImmediateOutOfRange ;;;
  emit (0x3DC00000 .| imm12 .<< 10 .| (enc xn) .<< 5 .| venc qt).

Definition str_q_imm (qt : Vreg) (xn : Reg) (offset : Z) : EncM unit :=
  fail_if (negb ((offset .& 0xF) =? 0)) OffsetMisaligned ;;;
  let imm12 := offset .>> 4 in
  fail_if (0xFFF <? imm12) ImmediateOutOfRange ;;;
  emit (0x3D800000 .| imm12 .<< 10 .| (enc xn) .<< 5 .| venc qt).

Definition ldr_q_literal (qt : Vreg) (byte_offset : Z) : EncM unit :=
  fail_if (negb ((byte_offset .& 0x3) =? 0)) OffsetMisaligned ;;;
  let imm19 := byte_offset .>> 2 in
  fail_if (negb ((-(2 ^ 18) <=? imm19) && (imm19 <? 2 ^ 18))) ImmediateOutOfRange ;;;
  let imm19_enc := (u32 imm19) .& 0x7FFFF in
  emit (0x9C000000 .| imm19_enc .<< 5 .| venc qt).

Definition fadd_4s (vd : Vreg) (vn : Vreg) (vm : Vreg) : EncM unit :=
  emit (0x4E20D400 .| (venc vm) .<< 16 .| (venc vn) .<< 5 .| venc vd).

Definition fmul_4s (vd : Vreg) (vn : Vreg) (vm : Vreg) : EncM unit :=
  emit (0x6E20DC00 .| (venc vm) .<< 16 .| (venc vn) .<< 5 .| venc vd).

Definition dup_s_from_v_s_lane (sd : Vreg) (vn : Vreg) (lane : Z) : EncM unit :=
  fail_if (4 <=? lane) ImmediateOutOfRange ;;;
  let imm5 := lane .<< 3 .| 4 in
  emit (0x5E000400 .| imm5 .<< 16 .| (venc vn) .<< 5 .| venc sd).

Definition dup_4s_from_vs_lane0 (vd : Vreg) (vn : Vreg) : EncM unit :=
  emit (0x4E040400 .| (venc vn) .<< 5 .| venc vd).

Definition dup_4s_from_w (vd : Vreg) (wn : Reg) : EncM unit :=
  emit (0x4E040C00 .| (enc wn) .<< 5 .| venc vd).

Definition add_4s_vector (vd : Vreg) (vn : Vreg) (vm : Vreg) : EncM unit :=
  emit (0x4EA08400 .| (venc vm) .<< 16 .| (venc vn) .<< 5 .| venc vd).

Definition sub_4s_vector (vd : Vreg) (vn : Vreg) (vm : Vreg) : EncM unit :=
  emit (0x6EA08400 .| (venc vm) .<< 16 .| (venc vn) .<< 5 .| venc vd).

Definition eor_16b_vec (vd : Vreg) (vn : Vreg) (vm : Vreg) : EncM unit :=
  emit (0x6E201C00 .| (venc vm) .<< 16 .| (venc vn) .<< 5 .| venc vd).

Definition sdot_4s_16b (vd : Vreg) (vn : Vreg) (vm : Vreg) : EncM unit :=
  emit (0x4E809400 .| (venc vm) .<< 16 .| (venc vn) .<< 5 .| venc vd).

Definition udot_4s_16b (vd : Vreg) (vn : Vreg) (vm : Vreg) : EncM unit :=
  emit (0x6E809400 .| (venc vm) .<< 16 .| (venc vn) .<< 5 .| venc vd).

Definition mul_4s_vector (vd : Vreg) (vn : Vreg) (vm : Vreg) : EncM unit :=
  emit (0x4EA09C00 .| (venc vm) .<< 16 .| (venc vn) .<< 5 .| venc vd).

Definition umov_w_from_vs_lane (wd : Reg) (vn : Vreg) (lane : Z) : EncM unit :=
  fail_if (4 <=? lane) ImmediateOutOfRange ;;;
  let imm5 := lane .<< 3 .| 4 in
  emit (0x0E003C00 .| imm5 .<< 16 .| (venc vn) .<< 5 .| enc wd).

Definition fmla_4s (vd : Vreg) (vn : Vreg) (vm : Vreg) : EncM unit :=
  emit (0x4E20CC00 .| (venc vm) .<< 16 .| (venc vn) .<< 5 .| venc vd).

Definition fsub_4s (vd : Vreg) (vn : Vreg) (vm : Vreg) : EncM unit :=
  emit (0x4EA0D400 .| (venc vm) .<< 16 .| (venc vn) .<< 5 .| venc vd).

Definition fdiv_4s (vd : Vreg) (vn : Vreg) (vm : Vreg) : EncM unit :=
  emit (0x6E20FC00 .| (venc vm) .<< 16 .| (venc vn) .<< 5 .| venc vd).

Definition faddp_4s (vd : Vreg) (vn : Vreg) (vm : Vreg) : EncM unit :=
  emit (0x6E20D400 .| (venc vm) .<< 16 .| (venc vn) .<< 5 .| venc vd).

Definition faddp_s_from_2s_scalar (sd : Vreg) (vn : Vreg) : EncM unit :=
  emit (0x7E30D800 .| (venc vn) .<< 5 .| venc sd).

Definition fmax_4s (vd : Vreg) (vn : Vreg) (vm : Vreg) : EncM unit :=
  emit (0x4E20F400 .| (venc vm) .<< 16 .| (venc vn) .<< 5 .| venc vd).

Definition fmin_4s (vd : Vreg) (vn : Vreg) (vm : Vreg) : EncM unit :=
  emit (0x4EA0F400 .| (venc vm) .<< 16 .| (venc vn) .<< 5 .| venc vd).

Definition fadd_2d (vd : Vreg) (vn : Vreg) (vm : Vreg) : EncM unit :=
  emit (0x4E60D400 .| (venc vm) .<< 16 .| (venc vn) .<< 5 .| venc vd).

Definition fsub_2d (vd : Vreg) (vn : Vreg) (vm : Vreg) : EncM unit :=
  emit (0x4EE0D400 .| (venc vm) .<< 16 .| (venc vn) .<< 5 .| venc vd).

Definition fmul_2d (vd : Vreg) (vn : Vreg) (vm : Vreg) : EncM unit :=
  emit (0x6E60DC00 .| (venc vm) .<< 16 .| (venc vn) .<< 5 .| venc vd).

Definition fdiv_2d (vd : Vreg) (vn : Vreg) (vm : Vreg) : EncM unit :=
  emit (0x6E60FC00 .| (venc vm) .<< 16 .| (venc vn) .<< 5 .| venc vd).

Definition fmin_2d (vd : Vreg) (vn : Vreg) (vm : Vreg) : EncM unit :=
  emit (0x4EE0F400 .| (venc vm) .<< 16 .| (venc vn) .<< 5 .| venc vd).

Definition fmax_2d (vd : Vreg) (vn : Vreg) (vm : Vreg) : EncM unit :=
  emit (0x4E60F400 .| (venc vm) .<< 16 .| (venc vn) .<< 5 .| venc vd).

Definition fsqrt_2d (vd : Vreg) (vn : Vreg) : EncM unit :=
  emit (0x6EE1F800 .| (venc vn) .<< 5 .| venc vd).

Definition fabs_2d (vd : Vreg) (vn : Vreg) : EncM unit :=
  emit (0x4EE0F800 .| (venc vn) .<< 5 .| venc vd).

Definition fneg_2d (vd : Vreg) (vn : Vreg) : EncM unit :=
  emit (0x6EE0F800 .| (venc vn) .<< 5 .| venc vd).

Definition add_16b_vector (vd : Vreg) (vn : Vreg) (vm : Vreg) : EncM unit :=
  emit (0x4E208400 .| (venc vm) .<< 16 .| (venc vn) .<< 5 .| venc vd).

Definition sub_16b_vector (vd : Vreg) (vn : Vreg) (vm : Vreg) : EncM unit :=
  emit (0x6E208400 .| (venc vm) .<< 16 .| (venc vn) .<< 5 .| venc vd).

Definition dup_16b_from_w (vd : Vreg) (wn : Reg) : EncM unit :=
  emit (0x4E010C00 .| (enc wn) .<< 5 .| venc vd).

Definition umov_w_from_vb_lane (wd : Reg) (vn : Vreg) (lane : Z) : EncM unit :=
  fail_if (16 <=? lane) ImmediateOutOfRange ;;;
  let imm5 := lane .<< 1 .| 1 in
  emit (0x0E003C00 .| imm5 .<< 16 .| (venc vn) .<< 5 .| enc wd).

Definition add_8h_vector (vd : Vreg) (vn : Vreg) (vm : Vreg) : EncM unit :=
  emit (0x4E608400 .| (venc vm) .<< 16 .| (venc vn) .<< 5 .| venc vd).

Definition sub_8h_vector (vd : Vreg) (vn : Vreg) (vm : Vreg) : EncM unit :=
  emit (0x6E608400 .| (venc vm) .<< 16 .| (venc vn) .<< 5 .| venc vd).

Definition mul_8h_vector (vd : Vreg) (vn : Vreg) (vm : Vreg) : EncM unit :=
  emit (0x4E609C00 .| (venc vm) .<< 16 .| (venc vn) .<< 5 .| venc vd).

Definition dup_8h_from_w (vd : Vreg) (wn : Reg) : EncM unit :=
  emit (0x4E020C00 .| (enc wn) .<< 5 .| venc vd).

Definition umov_w_from_vh_lane (wd : Reg) (vn : Vreg) (lane : Z) : EncM unit :=
  fail_if (8 <=? lane) ImmediateOutOfRange ;;;
  let imm5 := lane .<< 2 .| 2 in
  emit (0x0E003C00 .| imm5 .<< 16 .| (venc vn) .<< 5 .| enc wd).

Definition dup_2d_from_x (vd : Vreg) (xn : Reg) : EncM unit :=
  emit (0x4E080C00 .| (enc xn) .<< 5 .| venc vd).

Definition dup_d_from_v_d_lane (dd : Vreg) (vn : Vreg) (lane : Z) : EncM unit :=
  fail_if (2 <=? lane) ImmediateOutOfRange ;;;
  let imm5 := lane .<< 4 .| 8 in
  emit (0x5E000400 .| imm5 .<< 16 .| (venc vn) .<< 5 .| venc dd).

Definition fabs_4s (vd : Vreg) (vn : Vreg) : EncM unit :=
  emit (0x4EA0F800 .| (venc vn) .<< 5 .| venc vd).

Definition fneg_4s (vd : Vreg) (vn : Vreg) : EncM unit :=
  emit (0x6EA0F800 .| (venc vn) .<< 5 .| venc vd).

Definition fsqrt_4s (vd : Vreg) (vn : Vreg) : EncM unit :=
  emit (0x6EA1F800 .| (venc vn) .<< 5 .| venc vd).

Definition fcmeq_4s (vd : Vreg) (vn : Vreg) (vm : Vreg) : EncM unit :=
  emit (0x4E20E400 .| (venc vm) .<< 16 .| (venc vn) .<< 5 .| venc vd).

Definition fcmgt_4s (vd : Vreg) (vn : Vreg) (vm : Vreg) : EncM unit :=
  emit (0x6EA0E400 .| (venc vm) .<< 16 .| (venc vn) .<< 5 .| venc vd).

Definition bsl_16b (vd : Vreg) (vn : Vreg) (vm : Vreg) : EncM unit :=
  emit (0x6E601C00 .| (venc vm) .<< 16 .| (venc vn) .<< 5 .| venc vd).

Definition orr_16b_vec (vd : Vreg) (vn : Vreg) (vm : Vreg) : EncM unit :=
  emit (0x4EA01C00 .| (venc vm) .<< 16 .| (venc vn) .<< 5 .| venc vd).

Definition sxtb_w (rd : Reg) (rn : Reg) : EncM unit :=
  emit (0x13001C00 .| (enc rn) .<< 5 .| enc rd).

Definition sxth_w (rd : Reg) (rn : Reg) : EncM unit :=
  emit (0x13003C00 .| (enc rn) .<< 5 .| enc rd).

Definition sxtb_x (rd : Reg) (rn : Reg) : EncM unit :=
  emit (0x93401C00 .| (enc rn) .<< 5 .| enc rd).

Definition sxth_x (rd : Reg) (rn : Reg) : EncM unit :=
  emit (0x93403C00 .| (enc rn) .<< 5 .| enc rd).

Definition fcvt_s_d (sd : Vreg) (dn : Vreg) : EncM unit :=
  emit (0x1E624000 .| (venc dn) .<< 5 .| venc sd).

Definition fcvt_d_s (dd : Vreg) (sn : Vreg) : EncM unit :=
  emit (0x1E22C000 .| (venc sn) .<< 5 .| venc dd).

Definition fcvtzs_w_s (rd : Reg) (sn : Vreg) : EncM unit :=
  emit (0x1E380000 .| (venc sn) .<< 5 .| enc rd).

Definition fcvtzs_w_d (rd : Reg) (dn : Vreg) : EncM unit :=
  emit (0x1E780000 .| (venc dn) .<< 5 .| enc rd).

Definition fcvtzs_x_s (rd : Reg) (sn : Vreg) : EncM unit :=
  emit (0x9E380000 .| (venc sn) .<< 5 .| enc rd).

Definition fcvtzs_x_d (rd : Reg) (dn : Vreg) : EncM unit :=
  emit (0x9E780000 .| (venc dn) .<< 5 .| enc rd).

Definition fcvtzu_w_s (rd : Reg) (sn : Vreg) : EncM unit :=
  emit (0x1E390000 .| (venc sn) .<< 5 .| enc rd).

Definition fcvtzu_w_d (rd : Reg) (dn : Vreg) : EncM unit :=
  emit (0x1E790000 .| (venc dn) .<< 5 .| enc rd).

Definition fcvtzu_x_s (rd : Reg) (sn : Vreg) : EncM unit :=
  emit (0x9E390000 .| (venc sn) .<< 5 .| enc rd).

Definition fcvtzu_x_d (rd : Reg) (dn : Vreg) : EncM unit :=
  emit (0x9E790000 .| (venc dn) .<< 5 .| enc rd).

Definition scvtf_s_w (sd : Vreg) (rn : Reg) : EncM unit :=
  emit (0x1E220000 .| (enc rn) .<< 5 .| venc sd).

Definition scvtf_d_w (dd : Vreg) (rn : Reg) : EncM unit :=
  emit (0x1E620000 .| (enc rn) .<< 5 .| venc dd).

Definition scvtf_s_x (sd : Vreg) (rn : Reg) : EncM unit :=
  emit (0x9E220000 .| (enc rn) .<< 5 .| venc sd).

Definition scvtf_d_x (dd : Vreg) (rn : Reg) : EncM unit :=
  emit (0x9E620000 .| (enc rn) .<< 5 .| venc dd).

Definition ucvtf_s_w (sd : Vreg) (rn : Reg) : EncM unit :=
  emit (0x1E230000 .| (enc rn) .<< 5 .| venc sd).

Definition ucvtf_d_w (dd : Vreg) (rn : Reg) : EncM unit :=
  emit (0x1E630000 .| (enc rn) .<< 5 .| venc dd).

Definition ucvtf_s_x (sd : Vreg) (rn : Reg) : EncM unit :=
  emit (0x9E230000 .| (enc rn) .<< 5 .| venc sd).

Definition ucvtf_d_x (dd : Vreg) (rn : Reg) : EncM unit :=
  emit (0x9E630000 .| (enc rn) .<< 5 .| venc dd).

Definition and_w (rd : Reg) (rn : Reg) (rm : Reg) : EncM unit :=
  emit (0x0A000000 .| (enc rm) .<< 16 .| (enc rn) .<< 5 .| enc rd).

Definition orr_w (rd : Reg) (rn : Reg) (rm : Reg) : EncM unit :=
  emit (0x2A000000 .| (enc rm) .<< 16 .| (enc rn) .<< 5 .| enc rd).

Definition eor_w (rd : Reg) (rn : Reg) (rm : Reg) : EncM unit :=
  emit (0x4A000000 .| (enc rm) .<< 16 .| (enc rn) .<< 5 .| enc rd).

Definition lsl_w (rd : Reg) (rn : Reg) (rm : Reg) : EncM unit :=
  emit (0x1AC02000 .| (enc rm) .<< 16 .| (enc rn) .<< 5 .| enc rd).

Definition lsr_w (rd : Reg) (rn : Reg) (rm : Reg) : EncM unit :=
  emit (0x1AC02400 .| (enc rm) .<< 16 .| (enc rn) .<< 5 .| enc rd).

Definition asr_w (rd : Reg) (rn : Reg) (rm : Reg) : EncM unit :=
  emit (0x1AC02800 .| (enc rm) .<< 16 .| (enc rn) .<< 5 .| enc rd).

Definition cmp_x (rn : Reg) (rm : Reg) : EncM unit :=
  let word := 0xEB000000 .| (enc rm) .<< 16 .| (enc rn) .<< 5 .| 31 in
  emit word.

Definition sxtw (xd : Reg) (wn : Reg) : EncM unit :=
  emit (0x93407C00 .| (enc wn) .<< 5 .| enc xd).

Definition and_x (rd : Reg) (rn : Reg) (rm : Reg) : EncM unit :=
  emit (0x8A000000 .| (enc rm) .<< 16 .| (enc rn) .<< 5 .| enc rd).

Definition orr_x (rd : Reg) (rn : Reg) (rm : Reg) : EncM unit :=
  emit (0xAA000000 .| (enc rm) .<< 16 .| (enc rn) .<< 5 .| enc rd).

Definition eor_x (rd : Reg) (rn : Reg) (rm : Reg) : EncM unit :=
  emit (0xCA000000 .| (enc rm) .<< 16 .| (enc rn) .<< 5 .| enc rd).

Definition lsl_x (rd : Reg) (rn : Reg) (rm : Reg) : EncM unit :=
  emit (0x9AC02000 .| (enc rm) .<< 16 .| (enc rn) .<< 5 .| enc rd).

Definition lsr_x (rd : Reg) (rn : Reg) (rm : Reg) : EncM unit :=
  emit (0x9AC02400 .| (enc rm) .<< 16 .| (enc rn) .<< 5 .| enc rd).

Definition asr_x (rd : Reg) (rn : Reg) (rm : Reg) : EncM unit :=
  emit (0x9AC02800 .| (enc rm) .<< 16 .| (enc rn) .<< 5 .| enc rd).

Definition cmp_w (rn : Reg) (rm : Reg) : EncM unit :=
  let word := 0x6B000000 .| (enc rm) .<< 16 .| (enc rn) .<< 5 .| 31 in
  emit word.

Definition cset (rd : Reg) (cond : Condition) : EncM unit :=
  let inv := Condition_u32 (invert cond) in
  let word := 0x9A800400 .| 31 .<< 16 .| inv .<< 12 .| 31 .<< 5 .| enc rd in
  emit word.

Definition csel (rd : Reg) (rn : Reg) (rm : Reg) (cond : Condition) : EncM unit :=
  let word := 0x9A800000 .| (enc rm) .<< 16 .| (Condition_u32 cond) .<< 12 .| (enc rn) .<< 5 .| enc rd in
  emit word.

Definition fcsel_s (sd : Vreg) (sn : Vreg) (sm : Vreg) (cond : Condition) : EncM unit :=
  let word := 0x1E200C00 .| (venc sm) .<< 16 .| (Condition_u32 cond) .<< 12 .| (venc sn) .<< 5 .| venc sd in
  emit word.

Definition fcsel_d (dd : Vreg) (dn : Vreg) (dm : Vreg) (cond : Condition) : EncM unit :=
  let word := 0x1E600C00 .| (venc dm) .<< 16 .| (Condition_u32 cond) .<< 12 .| (venc dn) .<< 5 .| venc dd in
  emit word.

Definition udiv (rd : Reg) (rn : Reg) (rm : Reg) : EncM unit :=
  let word := 0x9AC00800 .| (enc rm) .<< 16 .| (enc rn) .<< 5 .| enc rd in
  emit word.

Definition ldr_w_imm (rt : Reg) (rn : Reg) (offset : Z) : EncM unit :=
  fail_if (negb ((offset .& 0x3) =? 0)) OffsetMisaligned ;;;
  let imm12 := offset .>> 2 in
  fail_if (0xFFF <? imm12) ImmediateOutOfRange ;;;
  let word := 0xB9400000 .| imm12 .<< 10 .| (enc rn) .<< 5 .| enc rt in
  emit word.

Definition str_w_imm (rt : Reg) (rn : Reg) (offset : Z) : EncM unit :=
  fail_if (negb ((offset .& 0x3) =? 0)) OffsetMisaligned ;;;
  let imm12 := offset .>> 2 in
  fail_if (0xFFF <? imm12) ImmediateOutOfRange ;;;
  let word := 0xB9000000 .| imm12 .<< 10 .| (enc rn) .<< 5 .| enc rt in
  emit word.

Definition ldr_imm (rt : Reg) (rn : Reg) (offset : Z) : EncM unit :=
  fail_if (negb ((offset .& 0x7) =? 0)) OffsetMisaligned ;;;
  let imm12 := offset .>> 3 in
  fail_if (0xFFF <? imm12) ImmediateOutOfRange ;;;
  let word := 0xF9400000 .| imm12 .<< 10 .| (enc rn) .<< 5 .| enc rt in
  emit word.

Definition str_imm (rt : Reg) (rn : Reg) (offset : Z) : EncM unit :=
  fail_if (negb ((offset .& 0x7) =? 0)) OffsetMisaligned ;;;
  let imm12 := offset .>> 3 in
  fail_if (0xFFF <? imm12) ImmediateOutOfRange ;;;
  let word := 0xF9000000 .| imm12 .<< 10 .| (enc rn) .<< 5 .| enc rt in
  emit word.

Definition b (offset : Z) : EncM unit :=
  fail_if (negb ((offset .& 0x3) =? 0)) OffsetMisaligned ;;;
  let imm26 := offset .>> 2 in
  fail_if (negb ((-(2 ^ 25) <=? imm26) && (imm26 <? 2 ^ 25))) ImmediateOutOfRange ;;;
  let word := 0x14000000 .| (u32 imm26) .& 0x03FFFFFF in
  emit word.

Definition b_cond (cond : Condition) (offset : Z) : EncM unit :=
  fail_if (negb ((offset .& 0x3) =? 0)) OffsetMisaligned ;;;
  let imm19 := offset .>> 2 in
  fail_if (negb ((-(2 ^ 18) <=? imm19) && (imm19 <? 2 ^ 18))) ImmediateOutOfRange ;;;
  let word := 0x54000000 .| ((u32 imm19) .& 0x0007FFFF) .<< 5 .| Condition_u32 cond in
  emit word.

Definition br (rn : Reg) : EncM unit :=
  let word := 0xD61F0000 .| (enc rn) .<< 5 in
  emit word.

Definition ret (rn : Reg) : EncM unit :=
  let word := 0xD65F0000 .| (enc rn) .<< 5 in
  emit word.

Definition nop : EncM unit :=
  emit 0xD503201F.

Definition stp_pre_indexed_64 (rt : Reg) (rt2 : Reg) (rn : Reg) (imm : Z) : EncM unit :=
  fail_if (negb ((imm .& 0x7) =? 0)) OffsetMisaligned ;;;
  let imm7 := imm .>> 3 in
  fail_if (negb ((-64 <=? imm7) && (imm7 <? 64))) ImmediateOutOfRange ;;;
  let word := 0xA9800000 .| ((u32 imm7) .& 0x7F) .<< 15 .| (enc rt2) .<< 10 .| (enc rn) .<< 5 .| enc rt in
  emit word.

Definition stp_offset_64 (rt : Reg) (rt2 : Reg) (rn : Reg) (imm : Z) : EncM unit :=
  fail_if (negb ((imm .& 0x7) =? 0)) OffsetMisaligned ;;;
  let imm7 := imm .>> 3 in
  fail_if (negb ((-64 <=? imm7) && (imm7 <? 64))) ImmediateOutOfRange ;;;
  let word := 0xA9000000 .| ((u32 imm7) .& 0x7F) .<< 15 .| (enc rt2) .<< 10 .| (enc rn) .<< 5 .| enc rt in
  emit word.

Definition ldp_offset_64 (rt : Reg) (rt2 : Reg) (rn : Reg) (imm : Z) : EncM unit :=
  fail_if (negb ((imm .& 0x7) =? 0)) OffsetMisaligned ;;;
  let imm7 := imm .>> 3 in
  fail_if (negb ((-64 <=? imm7) && (imm7 <? 64))) ImmediateOutOfRange ;;;
  let word := 0xA9400000 .| ((u32 imm7) .& 0x7F) .<< 15 .| (enc rt2) .<< 10 .| (enc rn) .<< 5 .| enc rt in
  emit word.

Definition ldp_post_indexed_64 (rt : Reg) (rt2 : Reg) (rn : Reg) (imm : Z) : EncM unit :=
  fail_if (negb ((imm .& 0x7) =? 0)) OffsetMisaligned ;;;
  let imm7 := imm .>> 3 in
  fail_if (negb ((-64 <=? imm7) && (imm7 <? 64))) ImmediateOutOfRange ;;;
  let word := 0xA8C00000 .| ((u32 imm7) .& 0x7F) .<< 15 .| (enc rt2) .<< 10 .| (enc rn) .<< 5 .| enc rt in
  emit word.

Definition bl (offset : Z) : EncM unit :=
  fail_if (negb ((offset .& 0x3) =? 0)) OffsetMisaligned ;;;
  let imm26 := offset .>> 2 in
  fail_if (negb ((-(2 ^ 25) <=? imm26) && (imm26 <? 2 ^ 25))) ImmediateOutOfRange ;;;
  let word := 0x94000000 .| (u32 imm26) .& 0x03FFFFFF in
  emit word.

Definition blr (rn : Reg) : EncM unit :=
  let word := 0xD63F0000 .| (enc rn) .<< 5 in
  emit word.

Definition cbnz_w (rt : Reg) (offset : Z) : EncM unit :=
  w <- lift_result (encode_cbnz_w rt offset) ;; emit w.

Definition cbz_w (rt : Reg) (offset : Z) : EncM unit :=
  w <- lift_result (encode_cbz_w rt offset) ;; emit w.

End Enc.
