(* ===== verification/A64Fmt.v ===== *)
(** Instruction formats: what every emitter of A64.v appends.

    [layout] gives, for every kind of instruction, its 32 bits from the most
    significant down, in the notation of the source's doc comments (the
    documented layout where the comment has one, the documented base word with
    the operand fields cut out where it only has that).  [assemble] puts
    operand values into the fields of a layout and [disassemble] reads them
    back.  [run] is an emitter call, [operands] its specification: the kind of
    instruction and the field values, or the error. *)

From Stdlib Require Import Ascii String.
From S2P Require Import Prelude Bytes A64.
From stdpp Require Import list.

Open Scope Z_scope.
Open Scope kernel_scope.
Open Scope word_scope.

(** ** Layouts *)

(** A field is (bit position, width). *)
Definition field : Type := (Z * Z)%type.
Record Format := mkFormat { base : Z; fields : list field }.

Inductive piece := Bit (b : bool) | Field (w : Z).

(** Read a layout: [0] and [1] are bits, [name(w)] is a field of width [w],
    spaces separate.  [inname] is set inside a name and [num] holds the digits
    of a width. *)
Fixpoint pieces (s : string) (inname : bool) (num : option Z) : list piece :=
  match s with
  | EmptyString => []
  | String c s =>
      match num with
      | Some n =>
          if (c =? ")")%char then Field n :: pieces s false None
          else pieces s inname (Some (10 * n + (Z.of_N (N_of_ascii c) - 48)))
      | None =>
          if (c =? "(")%char then pieces s false (Some 0)
          else if (c =? " ")%char then pieces s false None
          else if inname then pieces s true None
          else if (c =? "0")%char then Bit false :: pieces s false None
          else if (c =? "1")%char then Bit true :: pieces s false None
          else pieces s true None
      end
  end.

Definition pieces_width (l : list piece) : Z :=
  foldr (fun p n => match p with Bit _ => 1 | Field w => w end + n) 0 l.

Fixpoint pieces_format (l : list piece) : Format :=
  match l with
  | [] => mkFormat 0 []
  | Bit b :: l =>
      let f := pieces_format l in
      mkFormat (Z.b2z b * 2 ^ pieces_width l + base f) (fields f)
  | Field w :: l =>
      let f := pieces_format l in mkFormat (base f) ((pieces_width l, w) :: fields f)
  end.

Inductive Opcode :=
| OP_movz | OP_movn | OP_movk | OP_add
| OP_sub | OP_mul | OP_sdiv | OP_add_ext_uxtw_shifted
| OP_fmov_s_from_w | OP_fmov_w_from_s | OP_fadd_s | OP_fsub_s
| OP_fmul_s | OP_fdiv_s | OP_fmov_s_s | OP_ldr_s_imm
| OP_str_s_imm | OP_fcmp_s | OP_fmov_d_from_x | OP_fmov_x_from_d
| OP_fadd_d | OP_fsub_d | OP_fmul_d | OP_fdiv_d
| OP_fmov_d_d | OP_ldr_d_imm | OP_str_d_imm | OP_fcmp_d
| OP_ldr_q_imm | OP_str_q_imm | OP_ldr_q_literal | OP_fadd_4s
| OP_fmul_4s | OP_dup_s_from_v_s_lane | OP_dup_4s_from_vs_lane0 | OP_dup_4s_from_w
| OP_add_4s_vector | OP_sub_4s_vector | OP_eor_16b_vec | OP_sdot_4s_16b
| OP_udot_4s_16b | OP_mul_4s_vector | OP_umov_w_from_vs_lane | OP_fmla_4s
| OP_fsub_4s | OP_fdiv_4s | OP_faddp_4s | OP_faddp_s_from_2s_scalar
| OP_fmax_4s | OP_fmin_4s | OP_fadd_2d | OP_fsub_2d
| OP_fmul_2d | OP_fdiv_2d | OP_fmin_2d | OP_fmax_2d
| OP_fsqrt_2d | OP_fabs_2d | OP_fneg_2d | OP_add_16b_vector
| OP_sub_16b_vector | OP_dup_16b_from_w | OP_umov_w_from_vb_lane | OP_add_8h_vector
| OP_sub_8h_vector | OP_mul_8h_vector | OP_dup_8h_from_w | OP_umov_w_from_vh_lane
| OP_dup_2d_from_x | OP_dup_d_from_v_d_lane | OP_fabs_4s | OP_fneg_4s
| OP_fsqrt_4s | OP_fcmeq_4s | OP_fcmgt_4s | OP_bsl_16b
| OP_orr_16b_vec | OP_sxtb_w | OP_sxth_w | OP_sxtb_x
| OP_sxth_x | OP_fcvt_s_d | OP_fcvt_d_s | OP_fcvtzs_w_s
| OP_fcvtzs_w_d | OP_fcvtzs_x_s | OP_fcvtzs_x_d | OP_fcvtzu_w_s
| OP_fcvtzu_w_d | OP_fcvtzu_x_s | OP_fcvtzu_x_d | OP_scvtf_s_w
| OP_scvtf_d_w | OP_scvtf_s_x | OP_scvtf_d_x | OP_ucvtf_s_w
| OP_ucvtf_d_w | OP_ucvtf_s_x | OP_ucvtf_d_x | OP_and_w
| OP_orr_w | OP_eor_w | OP_lsl_w | OP_lsr_w
| OP_asr_w | OP_cmp_x | OP_sxtw | OP_and_x
| OP_orr_x | OP_eor_x | OP_lsl_x | OP_lsr_x
| OP_asr_x | OP_cmp_w | OP_cset | OP_csel
| OP_fcsel_s | OP_fcsel_d | OP_udiv | OP_ldr_w_imm
| OP_str_w_imm | OP_ldr_imm | OP_str_imm | OP_b
| OP_b_cond | OP_br | OP_ret | OP_nop
| OP_stp_pre_indexed_64 | OP_stp_offset_64 | OP_ldp_offset_64 | OP_ldp_post_indexed_64
| OP_bl | OP_blr | OP_cbnz_w | OP_cbz_w.

Definition layout (op : Opcode) : string :=
  match op with
  | OP_movz => "1 10 100101 hw(2) imm16(16) Rd(5)"
  | OP_movn => "1 00 100101 hw(2) imm16(16) Rd(5)"
  | OP_movk => "1 11 100101 hw(2) imm16(16) Rd(5)"
  | OP_add => "1 0 0 01011 00 0 Rm(5) 000000 Rn(5) Rd(5)"
  | OP_sub => "1 1 0 01011 00 0 Rm(5) 000000 Rn(5) Rd(5)"
  | OP_mul => "10011011000 rm(5) 011111 rn(5) rd(5)"
  | OP_sdiv => "1 0011010110 Rm(5) 000011 Rn(5) Rd(5)"
  | OP_add_ext_uxtw_shifted => "10001011001 rm(5) 010 imm3(3) rn(5) rd(5)"
  | OP_fmov_s_from_w => "0 0 011110 00 1 00 111 000000 Rn(5) Rd(5)"
  | OP_fmov_w_from_s => "0001111000100110000000 sn(5) wd(5)"
  | OP_fadd_s => "00011110001 sm(5) 001010 sn(5) sd(5)"
  | OP_fsub_s => "00011110001 sm(5) 001110 sn(5) sd(5)"
  | OP_fmul_s => "00011110001 sm(5) 000010 sn(5) sd(5)"
  | OP_fdiv_s => "00011110001 sm(5) 000110 sn(5) sd(5)"
  | OP_fmov_s_s => "0 0 011110 00 1 00000 010000 Rn(5) Rd(5)"
  | OP_ldr_s_imm => "10 111 1 01 01 imm12(12) Rn(5) Rt(5)"
  | OP_str_s_imm => "1011110100 imm12(12) xn(5) sd(5)"
  | OP_fcmp_s => "0 0 011110 00 1 Rm(5) 00 1000 Rn(5) 00000"
  | OP_fmov_d_from_x => "1 0 011110 01 1 00 111 000000 Rn(5) Rd(5)"
  | OP_fmov_x_from_d => "1001111001100110000000 dn(5) xd(5)"
  | OP_fadd_d => "00011110011 dm(5) 001010 dn(5) dd(5)"
  | OP_fsub_d => "00011110011 dm(5) 001110 dn(5) dd(5)"
  | OP_fmul_d => "00011110011 dm(5) 000010 dn(5) dd(5)"
  | OP_fdiv_d => "00011110011 dm(5) 000110 dn(5) dd(5)"
  | OP_fmov_d_d => "0001111001100000010000 dn(5) dd(5)"
  | OP_ldr_d_imm => "11 111 1 01 01 imm12(12) Rn(5) Rt(5)"
  | OP_str_d_imm => "1111110100 imm12(12) xn(5) dd(5)"
  | OP_fcmp_d => "00011110011 dm(5) 001000 dn(5) 00000"
  | OP_ldr_q_imm => "00 111 1 01 11 imm12(12) Rn(5) Rt(5)"
  | OP_str_q_imm => "0011110110 imm12(12) xn(5) qt(5)"
  | OP_ldr_q_literal => "10 011 1 0 0 imm19(19) Rt(5)"
  | OP_fadd_4s => "0 1 0 0 1 1 1 0 0 0 1 Rm(5) 1 1 0 1 0 1 Rn(5) Rd(5)"
  | OP_fmul_4s => "0 1 1 0 1 1 1 0 0 0 1 Rm(5) 1 1 0 1 1 1 Rn(5) Rd(5)"
  | OP_dup_s_from_v_s_lane => "01011110000 lane(2) 100000001 vn(5) sd(5)"
  | OP_dup_4s_from_vs_lane0 => "0100111000000100000001 vn(5) vd(5)"
  | OP_dup_4s_from_w => "0100111000000100000011 wn(5) vd(5)"
  | OP_add_4s_vector => "0 1 0 0 1 1 1 0 10 1 Rm(5) 1 0 0 0 0 1 Rn(5) Rd(5)"
  | OP_sub_4s_vector => "01101110101 vm(5) 100001 vn(5) vd(5)"
  | OP_eor_16b_vec => "0 1 1 0 1 1 1 0 0 0 1 Rm(5) 0 0 0 1 1 1 Rn(5) Rd(5)"
  | OP_sdot_4s_16b => "0 1 0 0 1 1 1 0 1 0 0 Rm(5) 1 0 0 1 0 1 Rn(5) Rd(5)"
  | OP_udot_4s_16b => "01101110100 vm(5) 100101 vn(5) vd(5)"
  | OP_mul_4s_vector => "01001110101 vm(5) 100111 vn(5) vd(5)"
  | OP_umov_w_from_vs_lane => "00001110000 lane(2) 100001111 vn(5) wd(5)"
  | OP_fmla_4s => "0 1 0 0 1 1 1 0 0 0 1 Rm(5) 1 1 0 0 1 1 Rn(5) Rd(5)"
  | OP_fsub_4s => "01001110101 vm(5) 110101 vn(5) vd(5)"
  | OP_fdiv_4s => "0 1 1 0 1 1 1 0 0 0 1 Rm(5) 1 1 1 1 1 1 Rn(5) Rd(5)"
  | OP_faddp_4s => "0 1 1 0 1 1 1 0 0 0 1 Rm(5) 1 1 0 1 0 1 Rn(5) Rd(5)"
  | OP_faddp_s_from_2s_scalar => "01 1 11110 0 0 11000 0 110110 Rn(5) Rd(5)"
  | OP_fmax_4s => "0 1 0 0 1 1 1 0 0 0 1 Rm(5) 1 1 1 1 0 1 Rn(5) Rd(5)"
  | OP_fmin_4s => "01001110101 vm(5) 111101 vn(5) vd(5)"
  | OP_fadd_2d => "01001110011 vm(5) 110101 vn(5) vd(5)"
  | OP_fsub_2d => "01001110111 vm(5) 110101 vn(5) vd(5)"
  | OP_fmul_2d => "01101110011 vm(5) 110111 vn(5) vd(5)"
  | OP_fdiv_2d => "01101110011 vm(5) 111111 vn(5) vd(5)"
  | OP_fmin_2d => "01001110111 vm(5) 111101 vn(5) vd(5)"
  | OP_fmax_2d => "01001110011 vm(5) 111101 vn(5) vd(5)"
  | OP_fsqrt_2d => "0110111011100001111110 vn(5) vd(5)"
  | OP_fabs_2d => "0100111011100000111110 vn(5) vd(5)"
  | OP_fneg_2d => "0110111011100000111110 vn(5) vd(5)"
  | OP_add_16b_vector => "01001110001 vm(5) 100001 vn(5) vd(5)"
  | OP_sub_16b_vector => "01101110001 vm(5) 100001 vn(5) vd(5)"
  | OP_dup_16b_from_w => "0100111000000001000011 wn(5) vd(5)"
  | OP_umov_w_from_vb_lane => "00001110000 lane(4) 1001111 vn(5) wd(5)"
  | OP_add_8h_vector => "01001110011 vm(5) 100001 vn(5) vd(5)"
  | OP_sub_8h_vector => "01101110011 vm(5) 100001 vn(5) vd(5)"
  | OP_mul_8h_vector => "01001110011 vm(5) 100111 vn(5) vd(5)"
  | OP_dup_8h_from_w => "0100111000000010000011 wn(5) vd(5)"
  | OP_umov_w_from_vh_lane => "00001110000 lane(3) 10001111 vn(5) wd(5)"
  | OP_dup_2d_from_x => "0100111000001000000011 xn(5) vd(5)"
  | OP_dup_d_from_v_d_lane => "01011110000 lane(1) 1000000001 vn(5) dd(5)"
  | OP_fabs_4s => "0 1 0 0 1 1 1 0 1 0 1 0 0 0 0 0 1 1 1 1 1 0 Rn(5) Rd(5)"
  | OP_fneg_4s => "0110111010100000111110 vn(5) vd(5)"
  | OP_fsqrt_4s => "0110111010100001111110 vn(5) vd(5)"
  | OP_fcmeq_4s => "0 1 0 0 1 1 1 0 0 0 1 Rm(5) 1 1 1 0 0 1 Rn(5) Rd(5)"
  | OP_fcmgt_4s => "01101110101 vm(5) 111001 vn(5) vd(5)"
  | OP_bsl_16b => "0 1 1 0 1 1 1 0 0 1 1 Rm(5) 0 0 0 1 1 1 Rn(5) Rd(5)"
  | OP_orr_16b_vec => "0 1 0 0 1 1 1 0 1 0 1 Rm(5) 0 0 0 1 1 1 Rn(5) Rd(5)"
  | OP_sxtb_w => "0001001100000000000111 rn(5) rd(5)"
  | OP_sxth_w => "0001001100000000001111 rn(5) rd(5)"
  | OP_sxtb_x => "1001001101000000000111 rn(5) rd(5)"
  | OP_sxth_x => "1001001101000000001111 rn(5) rd(5)"
  | OP_fcvt_s_d => "0001111001100010010000 dn(5) sd(5)"
  | OP_fcvt_d_s => "0001111000100010110000 sn(5) dd(5)"
  | OP_fcvtzs_w_s => "0001111000111000000000 sn(5) rd(5)"
  | OP_fcvtzs_w_d => "0001111001111000000000 dn(5) rd(5)"
  | OP_fcvtzs_x_s => "1001111000111000000000 sn(5) rd(5)"
  | OP_fcvtzs_x_d => "1001111001111000000000 dn(5) rd(5)"
  | OP_fcvtzu_w_s => "0001111000111001000000 sn(5) rd(5)"
  | OP_fcvtzu_w_d => "0001111001111001000000 dn(5) rd(5)"
  | OP_fcvtzu_x_s => "1001111000111001000000 sn(5) rd(5)"
  | OP_fcvtzu_x_d => "1001111001111001000000 dn(5) rd(5)"
  | OP_scvtf_s_w => "0001111000100010000000 rn(5) sd(5)"
  | OP_scvtf_d_w => "0001111001100010000000 rn(5) dd(5)"
  | OP_scvtf_s_x => "1001111000100010000000 rn(5) sd(5)"
  | OP_scvtf_d_x => "1001111001100010000000 rn(5) dd(5)"
  | OP_ucvtf_s_w => "0001111000100011000000 rn(5) sd(5)"
  | OP_ucvtf_d_w => "0001111001100011000000 rn(5) dd(5)"
  | OP_ucvtf_s_x => "1001111000100011000000 rn(5) sd(5)"
  | OP_ucvtf_d_x => "1001111001100011000000 rn(5) dd(5)"
  | OP_and_w => "0 00 01010 00 0 Rm(5) 000000 Rn(5) Rd(5)"
  | OP_orr_w => "00101010000 rm(5) 000000 rn(5) rd(5)"
  | OP_eor_w => "01001010000 rm(5) 000000 rn(5) rd(5)"
  | OP_lsl_w => "00011010110 rm(5) 001000 rn(5) rd(5)"
  | OP_lsr_w => "00011010110 rm(5) 001001 rn(5) rd(5)"
  | OP_asr_w => "00011010110 rm(5) 001010 rn(5) rd(5)"
  | OP_cmp_x => "11101011000 rm(5) 000000 rn(5) 11111"
  | OP_sxtw => "1 00 100110 1 000000 011111 Rn(5) Rd(5)"
  | OP_and_x => "10001010000 rm(5) 000000 rn(5) rd(5)"
  | OP_orr_x => "10101010000 rm(5) 000000 rn(5) rd(5)"
  | OP_eor_x => "11001010000 rm(5) 000000 rn(5) rd(5)"
  | OP_lsl_x => "10011010110 rm(5) 001000 rn(5) rd(5)"
  | OP_lsr_x => "10011010110 rm(5) 001001 rn(5) rd(5)"
  | OP_asr_x => "10011010110 rm(5) 001010 rn(5) rd(5)"
  | OP_cmp_w => "0 1 1 01011 00 0 Rm(5) 000000 Rn(5) 11111"
  | OP_cset => "1 0 0 11010100 11111 cond(4) 01 11111 Rd(5)"
  | OP_csel => "1 0011010100 Rm(5) cond(4) 00 Rn(5) Rd(5)"
  | OP_fcsel_s => "0 00 11110 00 1 Sm(5) cond(4) 11 Sn(5) Sd(5)"
  | OP_fcsel_d => "0 00 11110 01 1 Dm(5) cond(4) 11 Dn(5) Dd(5)"
  | OP_udiv => "1 0011010110 Rm(5) 000010 Rn(5) Rd(5)"
  | OP_ldr_w_imm => "10 111 0 01 01 imm12(12) Rn(5) Rt(5)"
  | OP_str_w_imm => "10 111 0 01 00 imm12(12) Rn(5) Rt(5)"
  | OP_ldr_imm => "11 111 0 01 01 imm12(12) Rn(5) Rt(5)"
  | OP_str_imm => "11 111 0 01 00 imm12(12) Rn(5) Rt(5)"
  | OP_b => "0 0 0101 imm26(26)"
  | OP_b_cond => "0 1 0 1 0 1 0 0 imm19(19) 0 cond(4)"
  | OP_br => "1101 0110 0 0 011111 000000 Rn(5) 00000"
  | OP_ret => "1101 0110 0 1 011111 000000 Rn(5) 00000"
  | OP_nop => "11010101000000110010000000011111"
  | OP_stp_pre_indexed_64 => "1010 1001 10 imm7(7) Rt2(5) Rn(5) Rt(5)"
  | OP_stp_offset_64 => "1010100100 imm7(7) rt2(5) rn(5) rt(5)"
  | OP_ldp_offset_64 => "1010100101 imm7(7) rt2(5) rn(5) rt(5)"
  | OP_ldp_post_indexed_64 => "1010 1000 11 imm7(7) Rt2(5) Rn(5) Rt(5)"
  | OP_bl => "1 0 0 1 0 1 imm26(26)"
  | OP_blr => "1101 0110 0 0 111111 000000 Rn(5) 00000"
  | OP_cbnz_w => "0 011010 1 imm19(19) Rt(5)"
  | OP_cbz_w => "0 011010 0 imm19(19) Rt(5)"
  end%string.

Definition all_opcodes : list Opcode :=
  [OP_movz; OP_movn; OP_movk; OP_add;
   OP_sub; OP_mul; OP_sdiv; OP_add_ext_uxtw_shifted;
   OP_fmov_s_from_w; OP_fmov_w_from_s; OP_fadd_s; OP_fsub_s;
   OP_fmul_s; OP_fdiv_s; OP_fmov_s_s; OP_ldr_s_imm;
   OP_str_s_imm; OP_fcmp_s; OP_fmov_d_from_x; OP_fmov_x_from_d;
   OP_fadd_d; OP_fsub_d; OP_fmul_d; OP_fdiv_d;
   OP_fmov_d_d; OP_ldr_d_imm; OP_str_d_imm; OP_fcmp_d;
   OP_ldr_q_imm; OP_str_q_imm; OP_ldr_q_literal; OP_fadd_4s;
   OP_fmul_4s; OP_dup_s_from_v_s_lane; OP_dup_4s_from_vs_lane0; OP_dup_4s_from_w;
   OP_add_4s_vector; OP_sub_4s_vector; OP_eor_16b_vec; OP_sdot_4s_16b;
   OP_udot_4s_16b; OP_mul_4s_vector; OP_umov_w_from_vs_lane; OP_fmla_4s;
   OP_fsub_4s; OP_fdiv_4s; OP_faddp_4s; OP_faddp_s_from_2s_scalar;
   OP_fmax_4s; OP_fmin_4s; OP_fadd_2d; OP_fsub_2d;
   OP_fmul_2d; OP_fdiv_2d; OP_fmin_2d; OP_fmax_2d;
   OP_fsqrt_2d; OP_fabs_2d; OP_fneg_2d; OP_add_16b_vector;
   OP_sub_16b_vector; OP_dup_16b_from_w; OP_umov_w_from_vb_lane; OP_add_8h_vector;
   OP_sub_8h_vector; OP_mul_8h_vector; OP_dup_8h_from_w; OP_umov_w_from_vh_lane;
   OP_dup_2d_from_x; OP_dup_d_from_v_d_lane; OP_fabs_4s; OP_fneg_4s;
   OP_fsqrt_4s; OP_fcmeq_4s; OP_fcmgt_4s; OP_bsl_16b;
   OP_orr_16b_vec; OP_sxtb_w; OP_sxth_w; OP_sxtb_x;
   OP_sxth_x; OP_fcvt_s_d; OP_fcvt_d_s; OP_fcvtzs_w_s;
   OP_fcvtzs_w_d; OP_fcvtzs_x_s; OP_fcvtzs_x_d; OP_fcvtzu_w_s;
   OP_fcvtzu_w_d; OP_fcvtzu_x_s; OP_fcvtzu_x_d; OP_scvtf_s_w;
   OP_scvtf_d_w; OP_scvtf_s_x; OP_scvtf_d_x; OP_ucvtf_s_w;
   OP_ucvtf_d_w; OP_ucvtf_s_x; OP_ucvtf_d_x; OP_and_w;
   OP_orr_w; OP_eor_w; OP_lsl_w; OP_lsr_w;
   OP_asr_w; OP_cmp_x; OP_sxtw; OP_and_x;
   OP_orr_x; OP_eor_x; OP_lsl_x; OP_lsr_x;
   OP_asr_x; OP_cmp_w; OP_cset; OP_csel;
   OP_fcsel_s; OP_fcsel_d; OP_udiv; OP_ldr_w_imm;
   OP_str_w_imm; OP_ldr_imm; OP_str_imm; OP_b;
   OP_b_cond; OP_br; OP_ret; OP_nop;
   OP_stp_pre_indexed_64; OP_stp_offset_64; OP_ldp_offset_64; OP_ldp_post_indexed_64;
   OP_bl; OP_blr; OP_cbnz_w; OP_cbz_w].

(** ** Assembling and disassembling *)

Definition format (op : Opcode) : Format := pieces_format (pieces (layout op) false None).

Definition mask (f : field) : Z := Z.shiftl (Z.ones f.2) f.1.

Fixpoint put (w : Z) (fs : list field) (vs : list Z) : Z :=
  match fs, vs with
  | f :: fs, v :: vs => put (w .| v .<< f.1) fs vs
  | _, _ => w
  end.

Definition assemble (op : Opcode) (vs : list Z) : Z := put (base (format op)) (fields (format op)) vs.

Definition get (w : Z) (f : field) : Z := (w .& mask f) .>> f.1.

(** The bits a layout fixes. *)
Definition fixed (fm : Format) : Z := foldr (fun f m => Z.ldiff m (mask f)) (Z.ones 32) (fields fm).

Definition matches (w : Z) (op : Opcode) : bool := (w .& fixed (format op)) =? base (format op).

Definition disassemble (w : Z) : option (Opcode * list Z) :=
  match List.find (matches w) all_opcodes with
  | Some op => Some (op, get w <$> fields (format op))
  | None => None
  end.

Definition fits (f : field) (v : Z) : Prop := 0 <= v < 2 ^ f.2.

(** A format is well formed: 32 bits, fields inside the word, disjoint from
    each other and from the base. *)
Definition disjoint_from (w : Z) (f : field) : bool := Z.land w (mask f) =? 0.

Fixpoint fields_ok (w : Z) (fs : list field) : bool :=
  match fs with
  | [] => true
  | f :: fs =>
      (0 <=? f.1) && (0 <? f.2) && (f.1 + f.2 <=? 32) && disjoint_from w f
      && forallb (disjoint_from (mask f)) fs && fields_ok w fs
  end.

Definition format_ok (fm : Format) : bool :=
  fields_ok (base fm) (fields fm) && (0 <=? base fm) && (base fm <? 2 ^ 32)
  && (Z.land (base fm) (fixed fm) =? base fm)
  && forallb (fun f => Z.land (mask f) (fixed fm) =? 0) (fields fm).

(** Two formats are told apart by a bit both fix. *)
Definition separated (a b : Format) : bool :=
  negb (Z.land (base a) (fixed b) =? Z.land (base b) (fixed a)).

Lemma layouts_32 : forallb (fun op => pieces_width (pieces (layout op) false None) =? 32) all_opcodes = true.
Proof. by vm_compute. Qed.

Lemma formats_ok : forallb (fun op => format_ok (format op)) all_opcodes = true.
Proof. by vm_compute. Qed.

Fixpoint pairwise_separated (l : list Format) : bool :=
  match l with
  | [] => true
  | a :: l => forallb (separated a) l && pairwise_separated l
  end.

Lemma formats_separated : pairwise_separated (format <$> all_opcodes) = true.
Proof. by vm_compute. Qed.

Lemma all_opcodes_all op : In op all_opcodes.
Proof. destruct op; unfold all_opcodes; repeat (first [left; reflexivity|right]). Qed.

Lemma format_ok_all op : format_ok (format op) = true.
Proof. pose proof formats_ok as H. rewrite forallb_forall in H. apply H, all_opcodes_all. Qed.

(** ** Field algebra *)

Lemma shl32_in f v :
  0 <= f.1 -> 0 <= f.2 -> f.1 + f.2 <= 32 -> fits f v -> v .<< f.1 = Z.shiftl v f.1.
Proof.
  intros H1 H2 H3 [Hv1 Hv2]. unfold shl32. apply wrap_small. split.
  - apply Z.shiftl_nonneg. done.
  - rewrite Z.shiftl_mul_pow2 by done. apply Z.lt_le_trans with (2 ^ f.2 * 2 ^ f.1).
    + apply Z.mul_lt_mono_pos_r; [lia|done].
    + rewrite <- Z.pow_add_r by done. apply Z.pow_le_mono_r; lia.
Qed.

Lemma land_mask_in f v : 0 <= f.1 -> 0 <= f.2 -> fits f v -> Z.land (Z.shiftl v f.1) (mask f) = Z.shiftl v f.1.
Proof.
  intros H1 H2 Hv. unfold mask. rewrite <- Z.shiftl_land. f_equal.
  rewrite Z.land_ones by done. by apply Z.mod_small.
Qed.

Lemma land_mask_zero f v m :
  0 <= f.1 -> 0 <= f.2 -> fits f v -> Z.land (mask f) m = 0 -> Z.land (Z.shiftl v f.1) m = 0.
Proof.
  intros H1 H2 Hv Hm. rewrite <- (land_mask_in f v), <- Z.land_assoc, Hm by done. apply Z.land_0_r.
Qed.

Lemma fields_ok_cons w f fs :
  fields_ok w (f :: fs) = true ->
  0 <= f.1 /\ 0 < f.2 /\ f.1 + f.2 <= 32 /\ Z.land w (mask f) = 0 /\
  (forall g, In g fs -> Z.land (mask f) (mask g) = 0) /\ fields_ok w fs = true.
Proof.
  cbn [fields_ok]. rewrite !andb_true_iff, forallb_forall. unfold disjoint_from.
  intros [[[[[H1 H2] H3] H4] H5] H6]. rewrite Z.eqb_eq in H4. split_and!; try done; try lia.
  intros g Hg. apply H5 in Hg. by apply Z.eqb_eq.
Qed.

(** Filling a field keeps the word clear of the fields still to fill. *)
Lemma fields_ok_put w f fs v :
  fields_ok w (f :: fs) = true -> fits f v -> fields_ok (w .| Z.shiftl v f.1) fs = true.
Proof.
  intros H Hv. destruct (fields_ok_cons _ _ _ H) as (H1 & H2 & H3 & H4 & H5 & H6). clear H H4.
  induction fs as [|g fs IH]; [done|].
  destruct (fields_ok_cons _ _ _ H6) as (G1 & G2 & G3 & G4 & G5 & G6).
  cbn [fields_ok] in *. rewrite !andb_true_iff in *. destruct H6 as [[[? ?] ?] ?].
  split_and!; try tauto; [|apply IH; [|done]; intros h Hh; apply H5; by right].
  unfold disjoint_from. rewrite Z.land_lor_distr_l, G4. cbn. apply Z.eqb_eq.
  apply land_mask_zero; [done|lia|done|]. apply H5. by left.
Qed.

(** Bits away from the fields are those of the word filled. *)
Lemma land_put w fs vs m :
  fields_ok w fs = true -> Forall2 fits fs vs -> (forall f, In f fs -> Z.land (mask f) m = 0) ->
  Z.land (put w fs vs) m = Z.land w m.
Proof.
  intros H HF. revert w H. induction HF as [|f v fs vs Hv HF IH]; intros w H Hm; [done|].
  destruct (fields_ok_cons _ _ _ H) as (H1 & H2 & H3 & H4 & H5 & H6).
  cbn [put]. rewrite shl32_in by (done || lia).
  rewrite IH; [|by apply fields_ok_put|intros g Hg; apply Hm; by right].
  rewrite Z.land_lor_distr_l, (land_mask_zero f v m), Z.lor_0_r; try (done || lia).
  apply Hm. by left.
Qed.

Lemma get_put w fs vs : fields_ok w fs = true -> Forall2 fits fs vs -> get (put w fs vs) <$> fs = vs.
Proof.
  intros H HF. revert w H. induction HF as [|f v fs vs Hv HF IH]; intros w H; [done|].
  destruct (fields_ok_cons _ _ _ H) as (H1 & H2 & H3 & H4 & H5 & H6).
  cbn [fmap list_fmap put]. rewrite !shl32_in by (done || lia).
  pose proof (fields_ok_put _ _ _ _ H Hv) as Hok. f_equal; [|by apply IH].
  unfold get. rewrite land_put; [|done|done|].
  - rewrite Z.land_lor_distr_l, H4, land_mask_in, Z.lor_0_l by (done || lia).
    rewrite Z.shiftr_shiftl_l, Z.sub_diag, Z.shiftl_0_r by lia. done.
  - intros g Hg. rewrite Z.land_comm. by apply H5.
Qed.

Lemma put_range w fs vs :
  fields_ok w fs = true -> Forall2 fits fs vs -> in_width 32 w -> in_width 32 (put w fs vs).
Proof.
  intros H HF. revert w H. induction HF as [|f v fs vs Hv HF IH]; intros w H Hw; [done|].
  cbn [put]. destruct (fields_ok_cons _ _ _ H) as (H1 & H2 & H3 & H4 & H5 & H6).
  apply IH; [rewrite shl32_in by (done || lia); by apply fields_ok_put|].
  assert (in_width 32 (v .<< f.1)) as [Hs1 Hs2] by by apply wrap_range.
  destruct Hw as [Hw1 Hw2]. split; [by apply Z.lor_nonneg|].
  apply Z.log2_lt_cancel. rewrite Z.log2_lor by done. change (Z.log2 (2 ^ 32)) with 32.
  apply Z.max_lub_lt; (destruct (decide (0 < w)) as [?|?]; destruct (decide (0 < v .<< f.1)) as [?|?]);
    try (apply Z.log2_lt_pow2; done); rewrite Z.log2_nonpos by lia; lia.
Qed.

Definition operands_ok (op : Opcode) (vs : list Z) : Prop := Forall2 fits (fields (format op)) vs.

Lemma format_ok_spec op :
  fields_ok (base (format op)) (fields (format op)) = true /\
  in_width 32 (base (format op)) /\
  Z.land (base (format op)) (fixed (format op)) = base (format op) /\
  forall f, In f (fields (format op)) -> Z.land (mask f) (fixed (format op)) = 0.
Proof.
  pose proof (format_ok_all op) as H. unfold format_ok in H.
  rewrite !andb_true_iff, forallb_forall in H. destruct H as [[[[H1 H2] H3] H4] H5].
  split_and!; try done.
  - split; [by apply Z.leb_le|by apply Z.ltb_lt].
  - by apply Z.eqb_eq.
  - intros f Hf. apply Z.eqb_eq. by apply H5.
Qed.

Lemma assemble_range op vs : operands_ok op vs -> in_width 32 (assemble op vs).
Proof. intros H. destruct (format_ok_spec op) as (H1 & H2 & _). by apply put_range. Qed.

Lemma assemble_fixed op vs :
  operands_ok op vs -> Z.land (assemble op vs) (fixed (format op)) = base (format op).
Proof.
  intros H. destruct (format_ok_spec op) as (H1 & H2 & H3 & H4).
  unfold assemble. rewrite land_put by done. done.
Qed.

Lemma separated_not_both a b w :
  separated a b = true -> Z.land w (fixed a) = base a -> Z.land w (fixed b) = base b -> False.
Proof.
  unfold separated. intros H Ha Hb. apply negb_true_iff, Z.eqb_neq in H. apply H.
  rewrite <- Ha, <- Hb, <- !Z.land_assoc. f_equal. apply Z.land_comm.
Qed.

Lemma pairwise_separated_unique l a b w :
  pairwise_separated (format <$> l) = true -> In a l -> In b l ->
  matches w a = true -> matches w b = true -> a = b.
Proof.
  unfold matches. rewrite !Z.eqb_eq. induction l as [|c l IH]; [done|].
  cbn [fmap list_fmap pairwise_separated]. rewrite andb_true_iff, forallb_forall.
  intros [Hc Hl] Ha Hb Hma Hmb.
  assert (forall d, In d l -> separated (format c) (format d) = true) as Hs.
  { intros d Hd. apply Hc, (in_map format), Hd. }
  destruct Ha as [<-|Ha], Hb as [<-|Hb]; [done| | |by apply IH].
  - destruct (separated_not_both _ _ w (Hs b Hb)); done.
  - destruct (separated_not_both _ _ w (Hs a Ha)); done.
Qed.

Lemma matches_unique a b w : matches w a = true -> matches w b = true -> a = b.
Proof. apply (pairwise_separated_unique all_opcodes); auto using formats_separated, all_opcodes_all. Qed.

Lemma disassemble_assemble op vs : operands_ok op vs -> disassemble (assemble op vs) = Some (op, vs).
Proof.
  intros H. unfold disassemble.
  assert (matches (assemble op vs) op = true) as Hm by (apply Z.eqb_eq; by apply assemble_fixed).
  destruct (List.find _ all_opcodes) as [op'|] eqn:Hf.
  - apply List.find_some in Hf as [_ Hf]. assert (op' = op) as -> by (by eapply matches_unique).
    do 2 f_equal. apply get_put; [|done]. by destruct (format_ok_spec op).
  - pose proof (List.find_none _ _ Hf op (all_opcodes_all op)). congruence.
Qed.
