(* ===== verification/A64Ops.v ===== *)
(** Every emitter call appends exactly the instruction its layout describes.

    [Insn] has one constructor per emitter method of [Encoder] and [run] calls
    the method.  [operands] says, from the arguments, which instruction with
    which field values is to be appended, or which error is returned:
    [run_spec] proves the two equal. *)

From S2P Require Import Prelude Bytes A64 A64Fmt.

Open Scope kernel_scope.
Open Scope word_scope.

(** ** Operand checks *)

(** An unsigned offset scaled by [scale] into [w] bits. *)
Definition uimm {A} (scale w offset : Z) (k : Z -> A) : A + EncodeError :=
  if negb (offset mod scale =? 0) then inr OffsetMisaligned
  else if 2 ^ w <=? offset / scale then inr ImmediateOutOfRange
  else inl (k (offset / scale)).

(** A signed offset scaled by [scale] into [w] bits of two's complement. *)
Definition simm {A} (scale w offset : Z) (k : Z -> A) : A + EncodeError :=
  if negb (offset mod scale =? 0) then inr OffsetMisaligned
  else if (offset / scale <? -(2 ^ (w - 1))) || (2 ^ (w - 1) <=? offset / scale) then inr ImmediateOutOfRange
  else inl (k ((offset / scale) mod 2 ^ w)).

(** ** Emitter calls *)

Inductive Insn :=
| I_movz (rd : Reg) (imm16 : Z) (shift : MovShift)
| I_movn (rd : Reg) (imm16 : Z) (shift : MovShift)
| I_movk (rd : Reg) (imm16 : Z) (shift : MovShift)
| I_add (rd : Reg) (rn : Reg) (rm : Reg)
| I_sub (rd : Reg) (rn : Reg) (rm : Reg)
| I_mul (rd : Reg) (rn : Reg) (rm : Reg)
| I_sdiv (rd : Reg) (rn : Reg) (rm : Reg)
| I_add_ext_uxtw (rd : Reg) (rn : Reg) (rm : Reg)
| I_add_ext_uxtw_shifted (rd : Reg) (rn : Reg) (rm : Reg) (shift : Z)
| I_fmov_s_from_w (sd : Vreg) (wn : Reg)
| I_fmov_w_from_s (wd : Reg) (sn : Vreg)
| I_fadd_s (sd : Vreg) (sn : Vreg) (sm : Vreg)
| I_fsub_s (sd : Vreg) (sn : Vreg) (sm : Vreg)
| I_fmul_s (sd : Vreg) (sn : Vreg) (sm : Vreg)
| I_fdiv_s (sd : Vreg) (sn : Vreg) (sm : Vreg)
| I_fmov_s_s (sd : Vreg) (sn : Vreg)
| I_ldr_s_imm (sd : Vreg) (xn : Reg) (offset : Z)
| I_str_s_imm (sd : Vreg) (xn : Reg) (offset : Z)
| I_fcmp_s (sn : Vreg) (sm : Vreg)
| I_fmov_d_from_x (dd : Vreg) (xn : Reg)
| I_fmov_x_from_d (xd : Reg) (dn : Vreg)
| I_fadd_d (dd : Vreg) (dn : Vreg) (dm : Vreg)
| I_fsub_d (dd : Vreg) (dn : Vreg) (dm : Vreg)
| I_fmul_d (dd : Vreg) (dn : Vreg) (dm : Vreg)
| I_fdiv_d (dd : Vreg) (dn : Vreg) (dm : Vreg)
| I_fmov_d_d (dd : Vreg) (dn : Vreg)
| I_ldr_d_imm (dd : Vreg) (xn : Reg) (offset : Z)
| I_str_d_imm (dd : Vreg) (xn : Reg) (offset : Z)
| I_fcmp_d (dn : Vreg) (dm : Vreg)
| I_ldr_q_imm (qt : Vreg) (xn : Reg) (offset : Z)
| I_str_q_imm (qt : Vreg) (xn : Reg) (offset : Z)
| I_ldr_q_literal (qt : Vreg) (byte_offset : Z)
| I_fadd_4s (vd : Vreg) (vn : Vreg) (vm : Vreg)
| I_fmul_4s (vd : Vreg) (vn : Vreg) (vm : Vreg)
| I_dup_s_from_v_s_lane (sd : Vreg) (vn : Vreg) (lane : Z)
| I_dup_4s_from_vs_lane0 (vd : Vreg) (vn : Vreg)
| I_dup_4s_from_w (vd : Vreg) (wn : Reg)
| I_add_4s_vector (vd : Vreg) (vn : Vreg) (vm : Vreg)
| I_sub_4s_vector (vd : Vreg) (vn : Vreg) (vm : Vreg)
| I_eor_16b_vec (vd : Vreg) (vn : Vreg) (vm : Vreg)
| I_sdot_4s_16b (vd : Vreg) (vn : Vreg) (vm : Vreg)
| I_udot_4s_16b (vd : Vreg) (vn : Vreg) (vm : Vreg)
| I_mul_4s_vector (vd : Vreg) (vn : Vreg) (vm : Vreg)
| I_umov_w_from_vs_lane (wd : Reg) (vn : Vreg) (lane : Z)
| I_fmla_4s (vd : Vreg) (vn : Vreg) (vm : Vreg)
| I_fsub_4s (vd : Vreg) (vn : Vreg) (vm : Vreg)
| I_fdiv_4s (vd : Vreg) (vn : Vreg) (vm : Vreg)
| I_faddp_4s (vd : Vreg) (vn : Vreg) (vm : Vreg)
| I_faddp_s_from_2s_scalar (sd : Vreg) (vn : Vreg)
| I_fmax_4s (vd : Vreg) (vn : Vreg) (vm : Vreg)
| I_fmin_4s (vd : Vreg) (vn : Vreg) (vm : Vreg)
| I_fadd_2d (vd : Vreg) (vn : Vreg) (vm : Vreg)
| I_fsub_2d (vd : Vreg) (vn : Vreg) (vm : Vreg)
| I_fmul_2d (vd : Vreg) (vn : Vreg) (vm : Vreg)
| I_fdiv_2d (vd : Vreg) (vn : Vreg) (vm : Vreg)
| I_fmin_2d (vd : Vreg) (vn : Vreg) (vm : Vreg)
| I_fmax_2d (vd : Vreg) (vn : Vreg) (vm : Vreg)
| I_fsqrt_2d (vd : Vreg) (vn : Vreg)
| I_fabs_2d (vd : Vreg) (vn : Vreg)
| I_fneg_2d (vd : Vreg) (vn : Vreg)
| I_add_16b_vector (vd : Vreg) (vn : Vreg) (vm : Vreg)
| I_sub_16b_vector (vd : Vreg) (vn : Vreg) (vm : Vreg)
| I_dup_16b_from_w (vd : Vreg) (wn : Reg)
| I_umov_w_from_vb_lane (wd : Reg) (vn : Vreg) (lane : Z)
| I_add_8h_vector (vd : Vreg) (vn : Vreg) (vm : Vreg)
| I_sub_8h_vector (vd : Vreg) (vn : Vreg) (vm : Vreg)
| I_mul_8h_vector (vd : Vreg) (vn : Vreg) (vm : Vreg)
| I_dup_8h_from_w (vd : Vreg) (wn : Reg)
| I_umov_w_from_vh_lane (wd : Reg) (vn : Vreg) (lane : Z)
| I_dup_2d_from_x (vd : Vreg) (xn : Reg)
| I_dup_d_from_v_d_lane (dd : Vreg) (vn : Vreg) (lane : Z)
| I_fabs_4s (vd : Vreg) (vn : Vreg)
| I_fneg_4s (vd : Vreg) (vn : Vreg)
| I_fsqrt_4s (vd : Vreg) (vn : Vreg)
| I_fcmeq_4s (vd : Vreg) (vn : Vreg) (vm : Vreg)
| I_fcmgt_4s (vd : Vreg) (vn : Vreg) (vm : Vreg)
| I_bsl_16b (vd : Vreg) (vn : Vreg) (vm : Vreg)
| I_orr_16b_vec (vd : Vreg) (vn : Vreg) (vm : Vreg)
| I_sxtb_w (rd : Reg) (rn : Reg)
| I_sxth_w (rd : Reg) (rn : Reg)
| I_sxtb_x (rd : Reg) (rn : Reg)
| I_sxth_x (rd : Reg) (rn : Reg)
| I_fcvt_s_d (sd : Vreg) (dn : Vreg)
| I_fcvt_d_s (dd : Vreg) (sn : Vreg)
| I_fcvtzs_w_s (rd : Reg) (sn : Vreg)
| I_fcvtzs_w_d (rd : Reg) (dn : Vreg)
| I_fcvtzs_x_s (rd : Reg) (sn : Vreg)
| I_fcvtzs_x_d (rd : Reg) (dn : Vreg)
| I_fcvtzu_w_s (rd : Reg) (sn : Vreg)
| I_fcvtzu_w_d (rd : Reg) (dn : Vreg)
| I_fcvtzu_x_s (rd : Reg) (sn : Vreg)
| I_fcvtzu_x_d (rd : Reg) (dn : Vreg)
| I_scvtf_s_w (sd : Vreg) (rn : Reg)
| I_scvtf_d_w (dd : Vreg) (rn : Reg)
| I_scvtf_s_x (sd : Vreg) (rn : Reg)
| I_scvtf_d_x (dd : Vreg) (rn : Reg)
| I_ucvtf_s_w (sd : Vreg) (rn : Reg)
| I_ucvtf_d_w (dd : Vreg) (rn : Reg)
| I_ucvtf_s_x (sd : Vreg) (rn : Reg)
| I_ucvtf_d_x (dd : Vreg) (rn : Reg)
| I_and_w (rd : Reg) (rn : Reg) (rm : Reg)
| I_orr_w (rd : Reg) (rn : Reg) (rm : Reg)
| I_eor_w (rd : Reg) (rn : Reg) (rm : Reg)
| I_lsl_w (rd : Reg) (rn : Reg) (rm : Reg)
| I_lsr_w (rd : Reg) (rn : Reg) (rm : Reg)
| I_asr_w (rd : Reg) (rn : Reg) (rm : Reg)
| I_cmp_x (rn : Reg) (rm : Reg)
| I_sxtw (xd : Reg) (wn : Reg)
| I_and_x (rd : Reg) (rn : Reg) (rm : Reg)
| I_orr_x (rd : Reg) (rn : Reg) (rm : Reg)
| I_eor_x (rd : Reg) (rn : Reg) (rm : Reg)
| I_lsl_x (rd : Reg) (rn : Reg) (rm : Reg)
| I_lsr_x (rd : Reg) (rn : Reg) (rm : Reg)
| I_asr_x (rd : Reg) (rn : Reg) (rm : Reg)
| I_cmp_w (rn : Reg) (rm : Reg)
| I_cset (rd : Reg) (cond : Condition)
| I_csel (rd : Reg) (rn : Reg) (rm : Reg) (cond : Condition)
| I_fcsel_s (sd : Vreg) (sn : Vreg) (sm : Vreg) (cond : Condition)
| I_fcsel_d (dd : Vreg) (dn : Vreg) (dm : Vreg) (cond : Condition)
| I_udiv (rd : Reg) (rn : Reg) (rm : Reg)
| I_ldr_w_imm (rt : Reg) (rn : Reg) (offset : Z)
| I_str_w_imm (rt : Reg) (rn : Reg) (offset : Z)
| I_ldr_imm (rt : Reg) (rn : Reg) (offset : Z)
| I_str_imm (rt : Reg) (rn : Reg) (offset : Z)
| I_b (offset : Z)
| I_b_cond (cond : Condition) (offset : Z)
| I_br (rn : Reg)
| I_ret (rn : Reg)
| I_nop
| I_stp_pre_indexed_64 (rt : Reg) (rt2 : Reg) (rn : Reg) (imm : Z)
| I_stp_offset_64 (rt : Reg) (rt2 : Reg) (rn : Reg) (imm : Z)
| I_ldp_offset_64 (rt : Reg) (rt2 : Reg) (rn : Reg) (imm : Z)
| I_ldp_post_indexed_64 (rt : Reg) (rt2 : Reg) (rn : Reg) (imm : Z)
| I_bl (offset : Z)
| I_blr (rn : Reg)
| I_cbnz_w (rt : Reg) (offset : Z)
| I_cbz_w (rt : Reg) (offset : Z).

Definition run (i : Insn) : EncM unit :=
  match i with
  | I_movz rd imm16 shift => Enc.movz rd imm16 shift
  | I_movn rd imm16 shift => Enc.movn rd imm16 shift
  | I_movk rd imm16 shift => Enc.movk rd imm16 shift
  | I_add rd rn rm => Enc.add rd rn rm
  | I_sub rd rn rm => Enc.sub rd rn rm
  | I_mul rd rn rm => Enc.mul rd rn rm
  | I_sdiv rd rn rm => Enc.sdiv rd rn rm
  | I_add_ext_uxtw rd rn rm => Enc.add_ext_uxtw rd rn rm
  | I_add_ext_uxtw_shifted rd rn rm shift => Enc.add_ext_uxtw_shifted rd rn rm shift
  | I_fmov_s_from_w sd wn => Enc.fmov_s_from_w sd wn
  | I_fmov_w_from_s wd sn => Enc.fmov_w_from_s wd sn
  | I_fadd_s sd sn sm => Enc.fadd_s sd sn sm
  | I_fsub_s sd sn sm => Enc.fsub_s sd sn sm
  | I_fmul_s sd sn sm => Enc.fmul_s sd sn sm
  | I_fdiv_s sd sn sm => Enc.fdiv_s sd sn sm
  | I_fmov_s_s sd sn => Enc.fmov_s_s sd sn
  | I_ldr_s_imm sd xn offset => Enc.ldr_s_imm sd xn offset
  | I_str_s_imm sd xn offset => Enc.str_s_imm sd xn offset
  | I_fcmp_s sn sm => Enc.fcmp_s sn sm
  | I_fmov_d_from_x dd xn => Enc.fmov_d_from_x dd xn
  | I_fmov_x_from_d xd dn => Enc.fmov_x_from_d xd dn
  | I_fadd_d dd dn dm => Enc.fadd_d dd dn dm
  | I_fsub_d dd dn dm => Enc.fsub_d dd dn dm
  | I_fmul_d dd dn dm => Enc.fmul_d dd dn dm
  | I_fdiv_d dd dn dm => Enc.fdiv_d dd dn dm
  | I_fmov_d_d dd dn => Enc.fmov_d_d dd dn
  | I_ldr_d_imm dd xn offset => Enc.ldr_d_imm dd xn offset
  | I_str_d_imm dd xn offset => Enc.str_d_imm dd xn offset
  | I_fcmp_d dn dm => Enc.fcmp_d dn dm
  | I_ldr_q_imm qt xn offset => Enc.ldr_q_imm qt xn offset
  | I_str_q_imm qt xn offset => Enc.str_q_imm qt xn offset
  | I_ldr_q_literal qt byte_offset => Enc.ldr_q_literal qt byte_offset
  | I_fadd_4s vd vn vm => Enc.fadd_4s vd vn vm
  | I_fmul_4s vd vn vm => Enc.fmul_4s vd vn vm
  | I_dup_s_from_v_s_lane sd vn lane => Enc.dup_s_from_v_s_lane sd vn lane
  | I_dup_4s_from_vs_lane0 vd vn => Enc.dup_4s_from_vs_lane0 vd vn
  | I_dup_4s_from_w vd wn => Enc.dup_4s_from_w vd wn
  | I_add_4s_vector vd vn vm => Enc.add_4s_vector vd vn vm
  | I_sub_4s_vector vd vn vm => Enc.sub_4s_vector vd vn vm
  | I_eor_16b_vec vd vn vm => Enc.eor_16b_vec vd vn vm
  | I_sdot_4s_16b vd vn vm => Enc.sdot_4s_16b vd vn vm
  | I_udot_4s_16b vd vn vm => Enc.udot_4s_16b vd vn vm
  | I_mul_4s_vector vd vn vm => Enc.mul_4s_vector vd vn vm
  | I_umov_w_from_vs_lane wd vn lane => Enc.umov_w_from_vs_lane wd vn lane
  | I_fmla_4s vd vn vm => Enc.fmla_4s vd vn vm
  | I_fsub_4s vd vn vm => Enc.fsub_4s vd vn vm
  | I_fdiv_4s vd vn vm => Enc.fdiv_4s vd vn vm
  | I_faddp_4s vd vn vm => Enc.faddp_4s vd vn vm
  | I_faddp_s_from_2s_scalar sd vn => Enc.faddp_s_from_2s_scalar sd vn
  | I_fmax_4s vd vn vm => Enc.fmax_4s vd vn vm
  | I_fmin_4s vd vn vm => Enc.fmin_4s vd vn vm
  | I_fadd_2d vd vn vm => Enc.fadd_2d vd vn vm
  | I_fsub_2d vd vn vm => Enc.fsub_2d vd vn vm
  | I_fmul_2d vd vn vm => Enc.fmul_2d vd vn vm
  | I_fdiv_2d vd vn vm => Enc.fdiv_2d vd vn vm
  | I_fmin_2d vd vn vm => Enc.fmin_2d vd vn vm
  | I_fmax_2d vd vn vm => Enc.fmax_2d vd vn vm
  | I_fsqrt_2d vd vn => Enc.fsqrt_2d vd vn
  | I_fabs_2d vd vn => Enc.fabs_2d vd vn
  | I_fneg_2d vd vn => Enc.fneg_2d vd vn
  | I_add_16b_vector vd vn vm => Enc.add_16b_vector vd vn vm
  | I_sub_16b_vector vd vn vm => Enc.sub_16b_vector vd vn vm
  | I_dup_16b_from_w vd wn => Enc.dup_16b_from_w vd wn
  | I_umov_w_from_vb_lane wd vn lane => Enc.umov_w_from_vb_lane wd vn lane
  | I_add_8h_vector vd vn vm => Enc.add_8h_vector vd vn vm
  | I_sub_8h_vector vd vn vm => Enc.sub_8h_vector vd vn vm
  | I_mul_8h_vector vd vn vm => Enc.mul_8h_vector vd vn vm
  | I_dup_8h_from_w vd wn => Enc.dup_8h_from_w vd wn
  | I_umov_w_from_vh_lane wd vn lane => Enc.umov_w_from_vh_lane wd vn lane
  | I_dup_2d_from_x vd xn => Enc.dup_2d_from_x vd xn
  | I_dup_d_from_v_d_lane dd vn lane => Enc.dup_d_from_v_d_lane dd vn lane
  | I_fabs_4s vd vn => Enc.fabs_4s vd vn
  | I_fneg_4s vd vn => Enc.fneg_4s vd vn
  | I_fsqrt_4s vd vn => Enc.fsqrt_4s vd vn
  | I_fcmeq_4s vd vn vm => Enc.fcmeq_4s vd vn vm
  | I_fcmgt_4s vd vn vm => Enc.fcmgt_4s vd vn vm
  | I_bsl_16b vd vn vm => Enc.bsl_16b vd vn vm
  | I_orr_16b_vec vd vn vm => Enc.orr_16b_vec vd vn vm
  | I_sxtb_w rd rn => Enc.sxtb_w rd rn
  | I_sxth_w rd rn => Enc.sxth_w rd rn
  | I_sxtb_x rd rn => Enc.sxtb_x rd rn
  | I_sxth_x rd rn => Enc.sxth_x rd rn
  | I_fcvt_s_d sd dn => Enc.fcvt_s_d sd dn
  | I_fcvt_d_s dd sn => Enc.fcvt_d_s dd sn
  | I_fcvtzs_w_s rd sn => Enc.fcvtzs_w_s rd sn
  | I_fcvtzs_w_d rd dn => Enc.fcvtzs_w_d rd dn
  | I_fcvtzs_x_s rd sn => Enc.fcvtzs_x_s rd sn
  | I_fcvtzs_x_d rd dn => Enc.fcvtzs_x_d rd dn
  | I_fcvtzu_w_s rd sn => Enc.fcvtzu_w_s rd sn
  | I_fcvtzu_w_d rd dn => Enc.fcvtzu_w_d rd dn
  | I_fcvtzu_x_s rd sn => Enc.fcvtzu_x_s rd sn
  | I_fcvtzu_x_d rd dn => Enc.fcvtzu_x_d rd dn
  | I_scvtf_s_w sd rn => Enc.scvtf_s_w sd rn
  | I_scvtf_d_w dd rn => Enc.scvtf_d_w dd rn
  | I_scvtf_s_x sd rn => Enc.scvtf_s_x sd rn
  | I_scvtf_d_x dd rn => Enc.scvtf_d_x dd rn
  | I_ucvtf_s_w sd rn => Enc.ucvtf_s_w sd rn
  | I_ucvtf_d_w dd rn => Enc.ucvtf_d_w dd rn
  | I_ucvtf_s_x sd rn => Enc.ucvtf_s_x sd rn
  | I_ucvtf_d_x dd rn => Enc.ucvtf_d_x dd rn
  | I_and_w rd rn rm => Enc.and_w rd rn rm
  | I_orr_w rd rn rm => Enc.orr_w rd rn rm
  | I_eor_w rd rn rm => Enc.eor_w rd rn rm
  | I_lsl_w rd rn rm => Enc.lsl_w rd rn rm
  | I_lsr_w rd rn rm => Enc.lsr_w rd rn rm
  | I_asr_w rd rn rm => Enc.asr_w rd rn rm
  | I_cmp_x rn rm => Enc.cmp_x rn rm
  | I_sxtw xd wn => Enc.sxtw xd wn
  | I_and_x rd rn rm => Enc.and_x rd rn rm
  | I_orr_x rd rn rm => Enc.orr_x rd rn rm
  | I_eor_x rd rn rm => Enc.eor_x rd rn rm
  | I_lsl_x rd rn rm => Enc.lsl_x rd rn rm
  | I_lsr_x rd rn rm => Enc.lsr_x rd rn rm
  | I_asr_x rd rn rm => Enc.asr_x rd rn rm
  | I_cmp_w rn rm => Enc.cmp_w rn rm
  | I_cset rd cond => Enc.cset rd cond
  | I_csel rd rn rm cond => Enc.csel rd rn rm cond
  | I_fcsel_s sd sn sm cond => Enc.fcsel_s sd sn sm cond
  | I_fcsel_d dd dn dm cond => Enc.fcsel_d dd dn dm cond
  | I_udiv rd rn rm => Enc.udiv rd rn rm
  | I_ldr_w_imm rt rn offset => Enc.ldr_w_imm rt rn offset
  | I_str_w_imm rt rn offset => Enc.str_w_imm rt rn offset
  | I_ldr_imm rt rn offset => Enc.ldr_imm rt rn offset
  | I_str_imm rt rn offset => Enc.str_imm rt rn offset
  | I_b offset => Enc.b offset
  | I_b_cond cond offset => Enc.b_cond cond offset
  | I_br rn => Enc.br rn
  | I_ret rn => Enc.ret rn
  | I_nop => Enc.nop
  | I_stp_pre_indexed_64 rt rt2 rn imm => Enc.stp_pre_indexed_64 rt rt2 rn imm
  | I_stp_offset_64 rt rt2 rn imm => Enc.stp_offset_64 rt rt2 rn imm
  | I_ldp_offset_64 rt rt2 rn imm => Enc.ldp_offset_64 rt rt2 rn imm
  | I_ldp_post_indexed_64 rt rt2 rn imm => Enc.ldp_post_indexed_64 rt rt2 rn imm
  | I_bl offset => Enc.bl offset
  | I_blr rn => Enc.blr rn
  | I_cbnz_w rt offset => Enc.cbnz_w rt offset
  | I_cbz_w rt offset => Enc.cbz_w rt offset
  end.

Definition operands (i : Insn) : (Opcode * list Z) + EncodeError :=
  match i with
  | I_movz rd imm16 shift => inl (OP_movz, [MovShift_u32 shift; imm16; enc rd])
  | I_movn rd imm16 shift => inl (OP_movn, [MovShift_u32 shift; imm16; enc rd])
  | I_movk rd imm16 shift => inl (OP_movk, [MovShift_u32 shift; imm16; enc rd])
  | I_add rd rn rm => inl (OP_add, [enc rm; enc rn; enc rd])
  | I_sub rd rn rm => inl (OP_sub, [enc rm; enc rn; enc rd])
  | I_mul rd rn rm => inl (OP_mul, [enc rm; enc rn; enc rd])
  | I_sdiv rd rn rm => inl (OP_sdiv, [enc rm; enc rn; enc rd])
  | I_add_ext_uxtw rd rn rm => inl (OP_add_ext_uxtw_shifted, [enc rm; 0; enc rn; enc rd])
  | I_add_ext_uxtw_shifted rd rn rm shift => if 4 <? shift then inr ImmediateOutOfRange else inl (OP_add_ext_uxtw_shifted, [enc rm; shift; enc rn; enc rd])
  | I_fmov_s_from_w sd wn => inl (OP_fmov_s_from_w, [enc wn; venc sd])
  | I_fmov_w_from_s wd sn => inl (OP_fmov_w_from_s, [venc sn; enc wd])
  | I_fadd_s sd sn sm => inl (OP_fadd_s, [venc sm; venc sn; venc sd])
  | I_fsub_s sd sn sm => inl (OP_fsub_s, [venc sm; venc sn; venc sd])
  | I_fmul_s sd sn sm => inl (OP_fmul_s, [venc sm; venc sn; venc sd])
  | I_fdiv_s sd sn sm => inl (OP_fdiv_s, [venc sm; venc sn; venc sd])
  | I_fmov_s_s sd sn => inl (OP_fmov_s_s, [venc sn; venc sd])
  | I_ldr_s_imm sd xn offset => uimm 4 12 offset (fun imm12 => (OP_ldr_s_imm, [imm12; enc xn; venc sd]))
  | I_str_s_imm sd xn offset => uimm 4 12 offset (fun imm12 => (OP_str_s_imm, [imm12; enc xn; venc sd]))
  | I_fcmp_s sn sm => inl (OP_fcmp_s, [venc sm; venc sn])
  | I_fmov_d_from_x dd xn => inl (OP_fmov_d_from_x, [enc xn; venc dd])
  | I_fmov_x_from_d xd dn => inl (OP_fmov_x_from_d, [venc dn; enc xd])
  | I_fadd_d dd dn dm => inl (OP_fadd_d, [venc dm; venc dn; venc dd])
  | I_fsub_d dd dn dm => inl (OP_fsub_d, [venc dm; venc dn; venc dd])
  | I_fmul_d dd dn dm => inl (OP_fmul_d, [venc dm; venc dn; venc dd])
  | I_fdiv_d dd dn dm => inl (OP_fdiv_d, [venc dm; venc dn; venc dd])
  | I_fmov_d_d dd dn => inl (OP_fmov_d_d, [venc dn; venc dd])
  | I_ldr_d_imm dd xn offset => uimm 8 12 offset (fun imm12 => (OP_ldr_d_imm, [imm12; enc xn; venc dd]))
  | I_str_d_imm dd xn offset => uimm 8 12 offset (fun imm12 => (OP_str_d_imm, [imm12; enc xn; venc dd]))
  | I_fcmp_d dn dm => inl (OP_fcmp_d, [venc dm; venc dn])
  | I_ldr_q_imm qt xn offset => uimm 16 12 offset (fun imm12 => (OP_ldr_q_imm, [imm12; enc xn; venc qt]))
  | I_str_q_imm qt xn offset => uimm 16 12 offset (fun imm12 => (OP_str_q_imm, [imm12; enc xn; venc qt]))
  | I_ldr_q_literal qt byte_offset => simm 4 19 byte_offset (fun imm19 => (OP_ldr_q_literal, [imm19; venc qt]))
  | I_fadd_4s vd vn vm => inl (OP_fadd_4s, [venc vm; venc vn; venc vd])
  | I_fmul_4s vd vn vm => inl (OP_fmul_4s, [venc vm; venc vn; venc vd])
  | I_dup_s_from_v_s_lane sd vn lane => if 4 <=? lane then inr ImmediateOutOfRange else inl (OP_dup_s_from_v_s_lane, [lane; venc vn; venc sd])
  | I_dup_4s_from_vs_lane0 vd vn => inl (OP_dup_4s_from_vs_lane0, [venc vn; venc vd])
  | I_dup_4s_from_w vd wn => inl (OP_dup_4s_from_w, [enc wn; venc vd])
  | I_add_4s_vector vd vn vm => inl (OP_add_4s_vector, [venc vm; venc vn; venc vd])
  | I_sub_4s_vector vd vn vm => inl (OP_sub_4s_vector, [venc vm; venc vn; venc vd])
  | I_eor_16b_vec vd vn vm => inl (OP_eor_16b_vec, [venc vm; venc vn; venc vd])
  | I_sdot_4s_16b vd vn vm => inl (OP_sdot_4s_16b, [venc vm; venc vn; venc vd])
  | I_udot_4s_16b vd vn vm => inl (OP_udot_4s_16b, [venc vm; venc vn; venc vd])
  | I_mul_4s_vector vd vn vm => inl (OP_mul_4s_vector, [venc vm; venc vn; venc vd])
  | I_umov_w_from_vs_lane wd vn lane => if 4 <=? lane then inr ImmediateOutOfRange else inl (OP_umov_w_from_vs_lane, [lane; venc vn; enc wd])
  | I_fmla_4s vd vn vm => inl (OP_fmla_4s, [venc vm; venc vn; venc vd])
  | I_fsub_4s vd vn vm => inl (OP_fsub_4s, [venc vm; venc vn; venc vd])
  | I_fdiv_4s vd vn vm => inl (OP_fdiv_4s, [venc vm; venc vn; venc vd])
  | I_faddp_4s vd vn vm => inl (OP_faddp_4s, [venc vm; venc vn; venc vd])
  | I_faddp_s_from_2s_scalar sd vn => inl (OP_faddp_s_from_2s_scalar, [venc vn; venc sd])
  | I_fmax_4s vd vn vm => inl (OP_fmax_4s, [venc vm; venc vn; venc vd])
  | I_fmin_4s vd vn vm => inl (OP_fmin_4s, [venc vm; venc vn; venc vd])
  | I_fadd_2d vd vn vm => inl (OP_fadd_2d, [venc vm; venc vn; venc vd])
  | I_fsub_2d vd vn vm => inl (OP_fsub_2d, [venc vm; venc vn; venc vd])
  | I_fmul_2d vd vn vm => inl (OP_fmul_2d, [venc vm; venc vn; venc vd])
  | I_fdiv_2d vd vn vm => inl (OP_fdiv_2d, [venc vm; venc vn; venc vd])
  | I_fmin_2d vd vn vm => inl (OP_fmin_2d, [venc vm; venc vn; venc vd])
  | I_fmax_2d vd vn vm => inl (OP_fmax_2d, [venc vm; venc vn; venc vd])
  | I_fsqrt_2d vd vn => inl (OP_fsqrt_2d, [venc vn; venc vd])
  | I_fabs_2d vd vn => inl (OP_fabs_2d, [venc vn; venc vd])
  | I_fneg_2d vd vn => inl (OP_fneg_2d, [venc vn; venc vd])
  | I_add_16b_vector vd vn vm => inl (OP_add_16b_vector, [venc vm; venc vn; venc vd])
  | I_sub_16b_vector vd vn vm => inl (OP_sub_16b_vector, [venc vm; venc vn; venc vd])
  | I_dup_16b_from_w vd wn => inl (OP_dup_16b_from_w, [enc wn; venc vd])
  | I_umov_w_from_vb_lane wd vn lane => if 16 <=? lane then inr ImmediateOutOfRange else inl (OP_umov_w_from_vb_lane, [lane; venc vn; enc wd])
  | I_add_8h_vector vd vn vm => inl (OP_add_8h_vector, [venc vm; venc vn; venc vd])
  | I_sub_8h_vector vd vn vm => inl (OP_sub_8h_vector, [venc vm; venc vn; venc vd])
  | I_mul_8h_vector vd vn vm => inl (OP_mul_8h_vector, [venc vm; venc vn; venc vd])
  | I_dup_8h_from_w vd wn => inl (OP_dup_8h_from_w, [enc wn; venc vd])
  | I_umov_w_from_vh_lane wd vn lane => if 8 <=? lane then inr ImmediateOutOfRange else inl (OP_umov_w_from_vh_lane, [lane; venc vn; enc wd])
  | I_dup_2d_from_x vd xn => inl (OP_dup_2d_from_x, [enc xn; venc vd])
  | I_dup_d_from_v_d_lane dd vn lane => if 2 <=? lane then inr ImmediateOutOfRange else inl (OP_dup_d_from_v_d_lane, [lane; venc vn; venc dd])
  | I_fabs_4s vd vn => inl (OP_fabs_4s, [venc vn; venc vd])
  | I_fneg_4s vd vn => inl (OP_fneg_4s, [venc vn; venc vd])
  | I_fsqrt_4s vd vn => inl (OP_fsqrt_4s, [venc vn; venc vd])
  | I_fcmeq_4s vd vn vm => inl (OP_fcmeq_4s, [venc vm; venc vn; venc vd])
  | I_fcmgt_4s vd vn vm => inl (OP_fcmgt_4s, [venc vm; venc vn; venc vd])
  | I_bsl_16b vd vn vm => inl (OP_bsl_16b, [venc vm; venc vn; venc vd])
  | I_orr_16b_vec vd vn vm => inl (OP_orr_16b_vec, [venc vm; venc vn; venc vd])
  | I_sxtb_w rd rn => inl (OP_sxtb_w, [enc rn; enc rd])
  | I_sxth_w rd rn => inl (OP_sxth_w, [enc rn; enc rd])
  | I_sxtb_x rd rn => inl (OP_sxtb_x, [enc rn; enc rd])
  | I_sxth_x rd rn => inl (OP_sxth_x, [enc rn; enc rd])
  | I_fcvt_s_d sd dn => inl (OP_fcvt_s_d, [venc dn; venc sd])
  | I_fcvt_d_s dd sn => inl (OP_fcvt_d_s, [venc sn; venc dd])
  | I_fcvtzs_w_s rd sn => inl (OP_fcvtzs_w_s, [venc sn; enc rd])
  | I_fcvtzs_w_d rd dn => inl (OP_fcvtzs_w_d, [venc dn; enc rd])
  | I_fcvtzs_x_s rd sn => inl (OP_fcvtzs_x_s, [venc sn; enc rd])
  | I_fcvtzs_x_d rd dn => inl (OP_fcvtzs_x_d, [venc dn; enc rd])
  | I_fcvtzu_w_s rd sn => inl (OP_fcvtzu_w_s, [venc sn; enc rd])
  | I_fcvtzu_w_d rd dn => inl (OP_fcvtzu_w_d, [venc dn; enc rd])
  | I_fcvtzu_x_s rd sn => inl (OP_fcvtzu_x_s, [venc sn; enc rd])
  | I_fcvtzu_x_d rd dn => inl (OP_fcvtzu_x_d, [venc dn; enc rd])
  | I_scvtf_s_w sd rn => inl (OP_scvtf_s_w, [enc rn; venc sd])
  | I_scvtf_d_w dd rn => inl (OP_scvtf_d_w, [enc rn; venc dd])
  | I_scvtf_s_x sd rn => inl (OP_scvtf_s_x, [enc rn; venc sd])
  | I_scvtf_d_x dd rn => inl (OP_scvtf_d_x, [enc rn; venc dd])
  | I_ucvtf_s_w sd rn => inl (OP_ucvtf_s_w, [enc rn; venc sd])
  | I_ucvtf_d_w dd rn => inl (OP_ucvtf_d_w, [enc rn; venc dd])
  | I_ucvtf_s_x sd rn => inl (OP_ucvtf_s_x, [enc rn; venc sd])
  | I_ucvtf_d_x dd rn => inl (OP_ucvtf_d_x, [enc rn; venc dd])
  | I_and_w rd rn rm => inl (OP_and_w, [enc rm; enc rn; enc rd])
  | I_orr_w rd rn rm => inl (OP_orr_w, [enc rm; enc rn; enc rd])
  | I_eor_w rd rn rm => inl (OP_eor_w, [enc rm; enc rn; enc rd])
  | I_lsl_w rd rn rm => inl (OP_lsl_w, [enc rm; enc rn; enc rd])
  | I_lsr_w rd rn rm => inl (OP_lsr_w, [enc rm; enc rn; enc rd])
  | I_asr_w rd rn rm => inl (OP_asr_w, [enc rm; enc rn; enc rd])
  | I_cmp_x rn rm => inl (OP_cmp_x, [enc rm; enc rn])
  | I_sxtw xd wn => inl (OP_sxtw, [enc wn; enc xd])
  | I_and_x rd rn rm => inl (OP_and_x, [enc rm; enc rn; enc rd])
  | I_orr_x rd rn rm => inl (OP_orr_x, [enc rm; enc rn; enc rd])
  | I_eor_x rd rn rm => inl (OP_eor_x, [enc rm; enc rn; enc rd])
  | I_lsl_x rd rn rm => inl (OP_lsl_x, [enc rm; enc rn; enc rd])
  | I_lsr_x rd rn rm => inl (OP_lsr_x, [enc rm; enc rn; enc rd])
  | I_asr_x rd rn rm => inl (OP_asr_x, [enc rm; enc rn; enc rd])
  | I_cmp_w rn rm => inl (OP_cmp_w, [enc rm; enc rn])
  | I_cset rd cond => inl (OP_cset, [Condition_u32 (invert cond); enc rd])
  | I_csel rd rn rm cond => inl (OP_csel, [enc rm; Condition_u32 cond; enc rn; enc rd])
  | I_fcsel_s sd sn sm cond => inl (OP_fcsel_s, [venc sm; Condition_u32 cond; venc sn; venc sd])
  | I_fcsel_d dd dn dm cond => inl (OP_fcsel_d, [venc dm; Condition_u32 cond; venc dn; venc dd])
  | I_udiv rd rn rm => inl (OP_udiv, [enc rm; enc rn; enc rd])
  | I_ldr_w_imm rt rn offset => uimm 4 12 offset (fun imm12 => (OP_ldr_w_imm, [imm12; enc rn; enc rt]))
  | I_str_w_imm rt rn offset => uimm 4 12 offset (fun imm12 => (OP_str_w_imm, [imm12; enc rn; enc rt]))
  | I_ldr_imm rt rn offset => uimm 8 12 offset (fun imm12 => (OP_ldr_imm, [imm12; enc rn; enc rt]))
  | I_str_imm rt rn offset => uimm 8 12 offset (fun imm12 => (OP_str_imm, [imm12; enc rn; enc rt]))
  | I_b offset => simm 4 26 offset (fun imm26 => (OP_b, [imm26]))
  | I_b_cond cond offset => simm 4 19 offset (fun imm19 => (OP_b_cond, [imm19; Condition_u32 cond]))
  | I_br rn => inl (OP_br, [enc rn])
  | I_ret rn => inl (OP_ret, [enc rn])
  | I_nop => inl (OP_nop, [])
  | I_stp_pre_indexed_64 rt rt2 rn imm => simm 8 7 imm (fun imm7 => (OP_stp_pre_indexed_64, [imm7; enc rt2; enc rn; enc rt]))
  | I_stp_offset_64 rt rt2 rn imm => simm 8 7 imm (fun imm7 => (OP_stp_offset_64, [imm7; enc rt2; enc rn; enc rt]))
  | I_ldp_offset_64 rt rt2 rn imm => simm 8 7 imm (fun imm7 => (OP_ldp_offset_64, [imm7; enc rt2; enc rn; enc rt]))
  | I_ldp_post_indexed_64 rt rt2 rn imm => simm 8 7 imm (fun imm7 => (OP_ldp_post_indexed_64, [imm7; enc rt2; enc rn; enc rt]))
  | I_bl offset => simm 4 26 offset (fun imm26 => (OP_bl, [imm26]))
  | I_blr rn => inl (OP_blr, [enc rn])
  | I_cbnz_w rt offset => simm 4 19 offset (fun imm19 => (OP_cbnz_w, [imm19; enc rt]))
  | I_cbz_w rt offset => simm 4 19 offset (fun imm19 => (OP_cbz_w, [imm19; enc rt]))
  end.

Definition wf_insn (i : Insn) : Prop :=
  match i with
  | I_movz _ imm16 _ => in_width 16 imm16
  | I_movn _ imm16 _ => in_width 16 imm16
  | I_movk _ imm16 _ => in_width 16 imm16
  | I_add_ext_uxtw_shifted _ _ _ shift => in_width 32 shift
  | I_ldr_s_imm _ _ offset => in_width 32 offset
  | I_str_s_imm _ _ offset => in_width 32 offset
  | I_ldr_d_imm _ _ offset => in_width 32 offset
  | I_str_d_imm _ _ offset => in_width 32 offset
  | I_ldr_q_imm _ _ offset => in_width 32 offset
  | I_str_q_imm _ _ offset => in_width 32 offset
  | I_ldr_q_literal _ byte_offset => -(2 ^ 31) <= byte_offset < 2 ^ 31
  | I_dup_s_from_v_s_lane _ _ lane => in_width 8 lane
  | I_umov_w_from_vs_lane _ _ lane => in_width 8 lane
  | I_umov_w_from_vb_lane _ _ lane => in_width 8 lane
  | I_umov_w_from_vh_lane _ _ lane => in_width 8 lane
  | I_dup_d_from_v_d_lane _ _ lane => in_width 8 lane
  | I_ldr_w_imm _ _ offset => in_width 32 offset
  | I_str_w_imm _ _ offset => in_width 32 offset
  | I_ldr_imm _ _ offset => in_width 32 offset
  | I_str_imm _ _ offset => in_width 32 offset
  | I_b offset => -(2 ^ 31) <= offset < 2 ^ 31
  | I_b_cond _ offset => -(2 ^ 31) <= offset < 2 ^ 31
  | I_stp_pre_indexed_64 _ _ _ imm => -(2 ^ 15) <= imm < 2 ^ 15
  | I_stp_offset_64 _ _ _ imm => -(2 ^ 15) <= imm < 2 ^ 15
  | I_ldp_offset_64 _ _ _ imm => -(2 ^ 15) <= imm < 2 ^ 15
  | I_ldp_post_indexed_64 _ _ _ imm => -(2 ^ 15) <= imm < 2 ^ 15
  | I_bl offset => -(2 ^ 31) <= offset < 2 ^ 31
  | I_cbnz_w _ offset => -(2 ^ 31) <= offset < 2 ^ 31
  | I_cbz_w _ offset => -(2 ^ 31) <= offset < 2 ^ 31
  | _ => True
  end.

(** The outcome [operands] prescribes. *)
Definition append_result (e : Encoder) (r : (Opcode * list Z) + EncodeError) : Encoder * outcome EncodeError unit :=
  match r with
  | inl (op, vs) => (mkEncoder (buf e ++ le_bytes 4 (assemble op vs)), Ok tt)
  | inr err => (e, Err err)
  end.

(** ** Words *)

Lemma enc_range r : 0 <= enc r < 2 ^ 5.
Proof. unfold enc. change 0x1F with (2 ^ 5 - 1). rewrite land_ones_mod by lia. apply Z.mod_pos_bound. lia. Qed.

Lemma venc_range v : 0 <= venc v < 2 ^ 5.
Proof. unfold venc. change 0x1F with (2 ^ 5 - 1). rewrite land_ones_mod by lia. apply Z.mod_pos_bound. lia. Qed.

Lemma Condition_range c : 0 <= Condition_u32 c < 2 ^ 4.
Proof. destruct c; cbn; lia. Qed.

Lemma MovShift_range s : 0 <= MovShift_u32 s < 2 ^ 2.
Proof. destruct s; cbn; lia. Qed.

Lemma shl32_0 x : in_width 32 x -> x .<< 0 = x.
Proof. intros. unfold shl32. rewrite Z.shiftl_0_r. by apply wrap_small. Qed.

Lemma enc_shl0 r : enc r .<< 0 = enc r.
Proof. apply shl32_0. pose proof (enc_range r). unfold in_width. lia. Qed.

Lemma venc_shl0 v : venc v .<< 0 = venc v.
Proof. apply shl32_0. pose proof (venc_range v). unfold in_width. lia. Qed.

Lemma Condition_shl0 c : Condition_u32 c .<< 0 = Condition_u32 c.
Proof. by destruct c. Qed.

Lemma imm26_shl0 x : (x mod 2 ^ 26) .<< 0 = x mod 2 ^ 26.
Proof. apply shl32_0. pose proof (Z.mod_pos_bound x (2 ^ 26)). unfold in_width. lia. Qed.

Lemma lor_swap c x k : (c .| x) .| k = (c .| k) .| x.
Proof. rewrite <- !Z.lor_assoc. f_equal. apply Z.lor_comm. Qed.

(** The signed immediates of the source: [(imm as u32) & mask]. *)
Lemma signed_field x w m : 0 <= w <= 32 -> m = 2 ^ w - 1 -> u32 x .& m = x mod 2 ^ w.
Proof.
  intros Hw ->. rewrite land_ones_mod by lia. unfold wrap. apply Z.mod_mod_divide.
  exists (2 ^ (32 - w)). rewrite <- Z.pow_add_r by lia. f_equal. lia.
Qed.

Create Rewrite HintDb word.
Lemma lor_zero_field x k : x .| (0 .<< k) = x.
Proof. unfold shl32. rewrite Z.shiftl_0_l. apply Z.lor_0_r. Qed.

#[global] Hint Rewrite enc_shl0 venc_shl0 Condition_shl0 imm26_shl0 lor_zero_field : word.

(** Replace a format by its value and fill it. *)
Ltac open_format :=
  unfold assemble;
  repeat match goal with
  | |- context [format ?op] => let f := eval vm_compute in (format op) in change (format op) with f
  end;
  cbn [put base fields fst].

Ltac word_eq :=
  open_format; autorewrite with word;
  try rewrite !(signed_field _ 19) by (done || lia); try rewrite !(signed_field _ 26) by (done || lia);
  try rewrite !(signed_field _ 7) by (done || lia); autorewrite with word;
  first [reflexivity | repeat f_equal; reflexivity].

(** Constant fields written between the operands move to the base. *)
Ltac const_first k :=
  repeat match goal with |- context [(?a .| ?x) .| k] => rewrite (lor_swap a x k) end.

Lemma land_low_mod x m s : 0 <= s -> m = 2 ^ s - 1 -> x .& m = x mod 2 ^ s.
Proof. intros Hs ->. by apply land_ones_mod. Qed.

Lemma emit_eq (w w' : Z) (e : Encoder) :
  w = w' -> @emit EncodeError w e = (mkEncoder (buf e ++ le_bytes 4 w'), Ok tt).
Proof. by intros ->. Qed.

(** The two checks of an unsigned scaled offset, then the append. *)
Lemma run_uimm (s m offset x : Z) (op : Opcode) (vs : Z -> list Z) (e : Encoder) :
  0 <= s -> m = 2 ^ s - 1 -> x = assemble op (vs (offset .>> s)) ->
  (fail_if (negb ((offset .& m) =? 0)) OffsetMisaligned ;;;
   fail_if (0xFFF <? (offset .>> s)) ImmediateOutOfRange ;;; emit x) e
  = append_result e (uimm (2 ^ s) 12 offset (fun imm => (op, vs imm))).
Proof.
  intros Hs -> Hx. rewrite Z.shiftr_div_pow2 in * by done. unfold uimm. rewrite land_ones_mod by done.
  change (2 ^ 12) with (Z.succ 0xFFF).
  unfold M_bind, fail_if. destruct (offset mod 2 ^ s =? 0); cbn [negb]; [|done].
  destruct (Z.ltb_spec 0xFFF (offset / 2 ^ s)), (Z.leb_spec (Z.succ 0xFFF) (offset / 2 ^ s)); try lia; [done|].
  cbn [M_ret append_result]. by apply emit_eq.
Qed.

(** The two checks of a signed scaled offset, then the append. *)
Lemma run_simm (s m h w offset x : Z) (op : Opcode) (vs : Z -> list Z) (e : Encoder) :
  0 <= s -> m = 2 ^ s - 1 -> h = 2 ^ (w - 1) ->
  x = assemble op (vs ((offset .>> s) mod 2 ^ w)) ->
  (fail_if (negb ((offset .& m) =? 0)) OffsetMisaligned ;;;
   fail_if (negb ((- h <=? offset .>> s) && (offset .>> s <? h))) ImmediateOutOfRange ;;;
   emit x) e
  = append_result e (simm (2 ^ s) w offset (fun imm => (op, vs imm))).
Proof.
  intros Hs -> -> Hx. rewrite Z.shiftr_div_pow2 in * by done. unfold simm. rewrite land_ones_mod by done.
  unfold M_bind, fail_if. destruct (offset mod 2 ^ s =? 0); cbn [negb]; [|done].
  destruct (Z.leb_spec (- 2 ^ (w - 1)) (offset / 2 ^ s)), (Z.ltb_spec (offset / 2 ^ s) (- 2 ^ (w - 1)));
    try lia; cbn [negb andb orb]; [|done].
  destruct (Z.ltb_spec (offset / 2 ^ s) (2 ^ (w - 1))), (Z.leb_spec (2 ^ (w - 1)) (offset / 2 ^ s));
    try lia; cbn [negb]; [|done].
  cbn [M_ret append_result]. by apply emit_eq.
Qed.

(** The encoding helpers that return the word. *)
Lemma helper_simm (m h w offset x : Z) (op : Opcode) (vs : Z -> list Z) (e : Encoder) :
  m = 2 ^ 2 - 1 -> h = 2 ^ (w - 1) -> x = assemble op (vs ((offset .>> 2) mod 2 ^ w)) ->
  (w <- lift_result (if negb ((offset .& m) =? 0) then inr OffsetMisaligned else
                     if negb ((- h <=? offset .>> 2) && (offset .>> 2 <? h)) then inr ImmediateOutOfRange else
                     inl x) ;; emit w) e
  = append_result e (simm 4 w offset (fun imm => (op, vs imm))).
Proof.
  intros Hm Hh Hf. pose proof (run_simm 2 m h w offset x op vs e ltac:(lia) Hm Hh Hf) as Hr.
  change (2 ^ 2) with 4 in Hr. rewrite <- Hr.
  unfold M_bind, lift_result, fail_if, M_ret, throw.
  destruct (negb ((offset .& m) =? 0)); [done|]. by destruct (negb _).
Qed.

(** A lane index checked against its bound. *)
Lemma run_lane (n lane x : Z) (op : Opcode) (vs : list Z) (e : Encoder) :
  in_width 8 lane -> (0 <= lane -> lane < n -> x = assemble op vs) ->
  (fail_if (n <=? lane) ImmediateOutOfRange ;;; emit x) e
  = append_result e (if n <=? lane then inr ImmediateOutOfRange else inl (op, vs)).
Proof.
  intros [? _] Hx. unfold M_bind, fail_if. destruct (Z.leb_spec n lane); [done|]. apply emit_eq. auto.
Qed.

Lemma run_shift (shift x : Z) (op : Opcode) (vs : list Z) (e : Encoder) :
  in_width 32 shift -> (0 <= shift -> shift < 5 -> x = assemble op vs) ->
  (fail_if (4 <? shift) ImmediateOutOfRange ;;; emit x) e
  = append_result e (if 4 <? shift then inr ImmediateOutOfRange else inl (op, vs)).
Proof.
  intros [? _] Hx. unfold M_bind, fail_if. destruct (Z.ltb_spec 4 shift); [done|]. apply emit_eq. apply Hx; lia.
Qed.

Ltac lane_cases lane :=
  match goal with
  | H : lane < ?n, H0 : 0 <= lane |- _ =>
      let rec go k := lazymatch k with
        | n => exfalso; lia
        | _ => let k' := eval compute in (k + 1) in
               destruct (Z.eq_dec lane k) as [->|]; [|go k']
        end in go 0
  end.

Ltac run_case :=
  cbn [run operands];
  lazymatch goal with
  | |- context [uimm 4 _ _ _] => apply (run_uimm 2); [lia|done|word_eq]
  | |- context [uimm 8 _ _ _] => apply (run_uimm 3); [lia|done|word_eq]
  | |- context [uimm 16 _ _ _] => apply (run_uimm 4); [lia|done|word_eq]
  | |- context [simm 8 7 _ _] => apply (run_simm 3 _ 64); [lia|done|done|word_eq]
  | |- context [simm 4 _ _ _] =>
      first [ apply (run_simm 2); [lia|done|done|word_eq]
            | apply helper_simm; [done|done|word_eq] ]
  | |- context [_ <=? ?lane] => apply run_lane; [assumption|intros]; lane_cases lane; word_eq
  | |- context [4 <? ?shift] => apply run_shift; [assumption|intros]; lane_cases shift; word_eq
  | |- context [append_result _ (inl (_, _))] => apply emit_eq; first [word_eq | const_first (31 .<< 16); const_first (31 .<< 10); const_first (31 .<< 5); const_first 31; word_eq]
  | |- _ => idtac
  end.

Theorem run_spec i e : wf_insn i -> run i e = append_result e (operands i).
Proof.
  destruct i; intros Hwf; run_case.
Qed.

(** Every field value fits its field. *)
Lemma mod_fits x w : 0 <= w -> 0 <= x mod 2 ^ w < 2 ^ w.
Proof. intros. apply Z.mod_pos_bound. lia. Qed.

Ltac operands_ok_case :=
  unfold operands_ok;
  match goal with |- context [format ?op] => let f := eval vm_compute in (format op) in change (format op) with f end;
  cbn [fields]; repeat first [apply List.Forall2_nil | apply List.Forall2_cons];
  unfold fits; cbn [fst snd];
  try match goal with
  | |- context [enc ?r] => pose proof (enc_range r)
  | |- context [venc ?v] => pose proof (venc_range v)
  | |- context [Condition_u32 ?c] => pose proof (Condition_range c)
  | |- context [MovShift_u32 ?s] => pose proof (MovShift_range s)
  | |- context [_ mod 2 ^ ?w] => by apply mod_fits
  end; first [lia | split; [apply Z.div_pos|]; lia].

Lemma operands_fit i op vs : wf_insn i -> operands i = inl (op, vs) -> operands_ok op vs.
Proof.
  destruct i; cbn [wf_insn operands]; unfold uimm, simm, in_width; intros Hwf H;
    repeat (split_match_in H; try discriminate H); injection H as <- <-; bool_prop; operands_ok_case.
Qed.
