(* ===== verification/A64Thm.v ===== *)
(** The encoder as a whole: what its buffer holds after a call, that the words
    can be read back, and that branch offsets survive the encoding. *)

From S2P Require Import Prelude Bytes A64 A64Fmt A64Ops.

Open Scope kernel_scope.
Open Scope word_scope.

(** C23: An emitter call that succeeds appends exactly one 32-bit little-endian
    word, and reading that word back with the instruction layouts gives the
    instruction and the operand values the caller asked for; a call that fails
    returns the error its operand check prescribes and leaves the buffer as it
    was; no emitter panics. *)
Theorem emitter_roundtrip (i : Insn) (e e' : Encoder) (r : outcome EncodeError unit) :
  wf_insn i -> run i e = (e', r) ->
  match r with
  | Ok _ => exists op vs w, operands i = inl (op, vs) /\ in_width 32 w /\
              buf e' = buf e ++ le_bytes 4 w /\ disassemble w = Some (op, vs)
  | Err x => operands i = inr x /\ e' = e
  | Panic => False
  end.
Proof.
  intros Hwf H. rewrite run_spec in H by done. destruct (operands i) as [[op vs]|x] eqn:Ho; injection H as <- <-.
  - pose proof (operands_fit i op vs Hwf Ho) as Hok. exists op, vs, (assemble op vs).
    auto using assemble_range, disassemble_assemble.
  - done.
Qed.

Lemma emitter_roundtrip_witness :
  wf_insn (I_ldr_imm (MkReg 3) SP 40) /\
  exists op vs w, operands (I_ldr_imm (MkReg 3) SP 40) = inl (op, vs) /\ in_width 32 w /\
    buf (mkEncoder (le_bytes 4 0xF94017E3)) = buf new_encoder ++ le_bytes 4 w /\ disassemble w = Some (op, vs).
Proof.
  assert (wf_insn (I_ldr_imm (MkReg 3) SP 40)) as Hwf by (vm_compute; split; [discriminate|reflexivity]).
  split; [exact Hwf|].
  exact (emitter_roundtrip (I_ldr_imm (MkReg 3) SP 40) new_encoder
           (mkEncoder (le_bytes 4 0xF94017E3)) (Ok tt) Hwf ltac:(by vm_compute)).
Defined.

(** The encoding is unambiguous over the whole instruction set: two emitter
    calls that append the same bytes name the same instruction with the same
    operand fields. *)
Theorem encoder_injective (i j : Insn) (e e' : Encoder) :
  wf_insn i -> wf_insn j -> run i e = (e', Ok tt) -> run j e = (e', Ok tt) -> operands i = operands j.
Proof.
  intros Hi Hj Ri Rj. rewrite run_spec in Ri, Rj by done.
  destruct (operands i) as [[op vs]|] eqn:Oi; [|discriminate Ri].
  destruct (operands j) as [[op' vs']|] eqn:Oj; [|discriminate Rj].
  cbn [append_result] in Ri, Rj. rewrite <- Rj in Ri. injection Ri as Hb.
  apply app_inv_head in Hb. pose proof (operands_fit _ _ _ Hi Oi) as Fi. pose proof (operands_fit _ _ _ Hj Oj) as Fj.
  assert (assemble op vs = assemble op' vs') as Ha by (apply (le_bytes_inj 4); [by apply assemble_range..|done]).
  apply (f_equal disassemble) in Ha. rewrite !disassemble_assemble in Ha by done. by injection Ha as -> ->.
Qed.

Lemma encoder_injective_witness :
  operands (I_add_ext_uxtw X16 (MkReg 28) X0) = operands (I_add_ext_uxtw_shifted X16 (MkReg 28) X0 0).
Proof.
  refine (encoder_injective (I_add_ext_uxtw X16 (MkReg 28) X0) (I_add_ext_uxtw_shifted X16 (MkReg 28) X0 0)
           new_encoder (mkEncoder (le_bytes 4 0x8B204390)) _ _ _ _); [exact I| |by vm_compute|by vm_compute].
  vm_compute. split; [discriminate|reflexivity].
Defined.

(** ** Branch words *)

(** The branches the lowerer patches: the opcode, the operands after the
    offset, and the width of the offset field. *)
Inductive Branch := BrB | BrCbz (rt : Reg) | BrCbnz (rt : Reg) | BrCond (c : Condition).

Definition branch_word (b : Branch) (offset : Z) : u32_result :=
  match b with
  | BrB => encode_b offset
  | BrCbz rt => encode_cbz_w rt offset
  | BrCbnz rt => encode_cbnz_w rt offset
  | BrCond c => encode_b_cond c offset
  end.

Definition branch_insn (b : Branch) (offset : Z) : Insn :=
  match b with
  | BrB => I_b offset
  | BrCbz rt => I_cbz_w rt offset
  | BrCbnz rt => I_cbnz_w rt offset
  | BrCond c => I_b_cond c offset
  end.

(** Two's complement value of a [w]-bit field. *)
Definition sext (w v : Z) : Z := if v <? 2 ^ (w - 1) then v else v - 2 ^ w.

Definition branch_offset (op : Opcode) (vs : list Z) : option Z :=
  match op, vs with
  | OP_b, [imm] | OP_bl, [imm] => Some (4 * sext 26 imm)
  | OP_cbz_w, [imm; _] | OP_cbnz_w, [imm; _] | OP_b_cond, [imm; _] => Some (4 * sext 19 imm)
  | _, _ => None
  end.

(** The byte offset a branch word holds. *)
Definition word_offset (w : Z) : option Z :=
  match disassemble w with Some (op, vs) => branch_offset op vs | None => None end.

Lemma branch_word_spec b offset :
  branch_word b offset =
  match operands (branch_insn b offset) with inl (op, vs) => inl (assemble op vs) | inr x => inr x end.
Proof.
  destruct b; cbn [branch_word branch_insn operands]; unfold encode_b, encode_cbz_w, encode_cbnz_w, encode_b_cond, simm;
    rewrite (land_low_mod _ 0x3 2), Z.shiftr_div_pow2 by done; change (2 ^ 2) with 4; change (26 - 1) with 25; change (19 - 1) with 18; cbn zeta;
    (destruct (offset mod 4 =? 0); cbn [negb]; [|done]);
    match goal with |- context [- 2 ^ ?k <=? ?q] =>
      destruct (Z.leb_spec (- 2 ^ k) q), (Z.ltb_spec q (- 2 ^ k)), (Z.ltb_spec q (2 ^ k)), (Z.leb_spec (2 ^ k) q) end;
    try lia; cbn [negb andb orb]; try done; apply (f_equal inl); word_eq.
Qed.

Lemma sext_mod w x : 0 < w -> - 2 ^ (w - 1) <= x < 2 ^ (w - 1) -> sext w (x mod 2 ^ w) = x.
Proof.
  intros Hw Hx. unfold sext.
  assert (2 ^ w = 2 * 2 ^ (w - 1)) as Hp by (rewrite <- Z.pow_succ_r by lia; f_equal; lia).
  destruct (Z.lt_ge_cases x 0).
  - rewrite <- (Z_mod_plus_full x 1), Z.mul_1_l, Z.mod_small by lia.
    destruct (Z.ltb_spec (x + 2 ^ w) (2 ^ (w - 1))); lia.
  - rewrite Z.mod_small by lia. destruct (Z.ltb_spec x (2 ^ (w - 1))); lia.
Qed.

(** What a branch helper's word holds, or why it refuses. *)
Definition branch_result (b : Branch) (offset : Z) (r : u32_result) : Prop :=
  let h := match b with BrB => 2 ^ 27 | _ => 2 ^ 20 end in
  match r with
  | inl w => in_width 32 w /\ word_offset w = Some offset
  | inr OffsetMisaligned => offset mod 4 <> 0
  | inr ImmediateOutOfRange => offset < - h \/ h <= offset
  end.

Lemma branch_word_result (b : Branch) (offset : Z) : branch_result b offset (branch_word b offset).
Proof.
  unfold branch_result. rewrite branch_word_spec.
  destruct b; cbn [branch_insn operands]; unfold simm;
    (destruct (Z.eqb_spec (offset mod 4) 0) as [Hm|Hm]; cbn [negb]; [|done]);
    pose proof (Z.div_mod offset 4 ltac:(lia));
    match goal with |- context [?q <? - 2 ^ ?k] =>
      destruct (Z.ltb_spec q (- 2 ^ k)), (Z.leb_spec (2 ^ k) q) end; cbn [orb]; try lia;
    (split; [apply assemble_range; by operands_ok_case|]);
    unfold word_offset; rewrite disassemble_assemble by operands_ok_case; cbn [branch_offset];
    rewrite sext_mod by lia; f_equal; lia.
Qed.

(** Every branch word holds the offset it was encoded for: whenever the
    helper accepts an offset, disassembling the word and sign-extending its
    immediate gives the offset back; it refuses exactly the misaligned and the
    too distant ones. *)
Theorem branch_offset_roundtrip (b : Branch) (offset : Z) :
  let h := match b with BrB => 2 ^ 27 | _ => 2 ^ 20 end in
  match branch_word b offset with
  | inl w => in_width 32 w /\ word_offset w = Some offset
  | inr OffsetMisaligned => offset mod 4 <> 0
  | inr ImmediateOutOfRange => offset < - h \/ h <= offset
  end.
Proof. exact (branch_word_result b offset). Qed.
