(* ===== verification/WasmTypes.v ===== *)
(** Shared types of the WebAssembly compiler
    (src/tools/a64-encoder/src/wasm_lower/types.rs).

    A float constant is its bit pattern: the source only moves it through
    [from_bits] and [to_bits]. *)

From S2P Require Import Prelude A64.

(** [as i32] *)
Definition i32 (z : Z) : Z := (z + 2 ^ 31) mod 2 ^ 32 - 2 ^ 31.

Inductive ValType := I32 | I64 | F32 | F64 | V128.

#[global] Instance ValType_eq_dec : EqDecision ValType.
Proof. solve_decision. Defined.

Definition is_int (t : ValType) : bool := match t with I32 | I64 => true | _ => false end.

Inductive WasmOp :=
| I32Const (c : Z) | I32Add | I32Sub | I32Mul | I32DivS | I32DivU | I32Eq | I32Ne | I32LtS | I32GtS
| I32LeS | I32GeS | I32LtU | I32GtU | I32LeU | I32GeU | I32Eqz | I64Const (c : Z) | I64Add | I64Sub
| I64Mul | I64Eqz | I64Eq | I64Ne | I64LtS | I64GtS | I64LtU | I64GtU | I64LeS | I64LeU | I64GeS
| I64GeU | I64DivS | I64DivU | I64And | I64Or | I64Xor | I64Shl | I64ShrS | I64ShrU | I64Load (n : Z)
| I64Store (n : Z) | I32WrapI64 | I64ExtendI32S | I64ExtendI32U | I32And | I32Or | I32Xor | I32Shl
| I32ShrS | I32ShrU | F32Const (bits : Z) | F32Add | F32Sub | F32Mul | F32Div | F32Eq | F32Ne | F32Lt
| F32Gt | F32Le | F32Ge | F32Load (n : Z) | F32Store (n : Z) | F64Const (bits : Z) | F64Add | F64Sub
| F64Mul | F64Div | F64Eq | F64Ne | F64Lt | F64Gt | F64Le | F64Ge | F64Load (n : Z)
| F64Store (n : Z) | I32Extend8S | I32Extend16S | I64Extend8S | I64Extend16S | I64Extend32S
| I32TruncF32S | I32TruncF32U | I32TruncF64S | I32TruncF64U | I64TruncF32S | I64TruncF32U
| I64TruncF64S | I64TruncF64U | F32ConvertI32S | F32ConvertI32U | F32ConvertI64S | F32ConvertI64U
| F64ConvertI32S | F64ConvertI32U | F64ConvertI64S | F64ConvertI64U | F32DemoteF64 | F64PromoteF32
| I32ReinterpretF32 | I64ReinterpretF64 | F32ReinterpretI32 | F64ReinterpretI64
| V128Const (bits : Z) | V128Load (n : Z) | V128Store (n : Z) | F32x4Add | F32x4Mul
| F32x4ExtractLane (lane : Z) | F32x4Splat | I32x4Splat | I32x4Add | I32x4Sub | I32x4Mul
| I32x4ExtractLane (lane : Z) | F64x2Add | F64x2Sub | F64x2Mul | F64x2Div | F64x2Min | F64x2Max
| F64x2Sqrt | F64x2Abs | F64x2Neg | F64x2Splat | F64x2ExtractLane (lane : Z) | I8x16Add | I8x16Sub
| I8x16Splat | I8x16ExtractLaneU (lane : Z) | I32x4DotI8x16Signed | I32x4DotI8x16Unsigned | I16x8Add
| I16x8Sub | I16x8Mul | I16x8Splat | I16x8ExtractLaneU (lane : Z) | F32x4Sub | F32x4Div | F32x4Fma
| F32x4HorizontalSum | F32x4Max | F32x4Min | F32x4Abs | F32x4Neg | F32x4Sqrt | F32x4Eq | F32x4Gt
| V128Bitselect | Drop | Select | LocalGet (n : Z) | LocalSet (n : Z) | LocalTee (n : Z)
| GlobalGet (n : Z) | GlobalSet (n : Z) | Block | Loop | Br (n : Z) | BrIf (n : Z) | If | Else
| Call (n : Z) | CallIndirect (n : Z) | Return | End | I32Load (n : Z) | I32Store (n : Z).

Inductive LowerError :=
| StackOverflow | StackUnderflow | StackNotSingleton | LocalOutOfRange | TooManyLocals
| LabelOutOfRange | UnbalancedEnd | BranchOutOfRange | ElseWithoutIf | CallTargetMissing
| GlobalOutOfRange | GlobalNotMutable | TooManyGlobals | MemoryNotConfigured | TableNotConfigured
| IndirectTypeMissing | IndirectArityUnsupported | IndirectTypeUnsupported
| CallArityUnsupported | CallTypeUnsupported | V128LocalsUnsupported | V128ReturnUnsupported
| TypeMismatch (expected got : ValType)
| TypedStackOverflow (t : ValType)
| Encode (e : EncodeError).

Record FnSig := mkFnSig { params : list ValType; result : option ValType }.

(** ** Internal types of the lowerer *)

Inductive BinOp :=
| BAdd | BSub | BMul | BDivS | BDivU | BAnd | BOr | BXor | BShl | BShrS | BShrU
| BCmp (c : Condition).

Inductive FBinOp := FAdd | FSub | FMul | FDiv.

Inductive I64Op :=
| LAdd | LSub | LMul | LDivS | LDivU | LAnd | LOr | LXor | LShl | LShrS | LShrU.

Inductive ExtendWidth := B8 | B16 | B32.

Inductive LocalLoc :=
| LocI32 (r : Reg) | LocI64 (r : Reg) | LocF32 (v : Vreg) | LocF64 (v : Vreg) | LocV128 (v : Vreg).

(** What is known at compile time of an integer stack slot. *)
Inductive SymAddr :=
| SConst (c : Z)
| SBounded (max_inclusive : Z).

Definition sym_max (s : SymAddr) : Z := match s with SConst c => c | SBounded m => m end.

Record LoopBound := mkLoopBound { counter_local : Z; max_value : Z }.

Inductive LabelKind :=
| KBlock
| KLoop
| KIf (cond_branch_pos : Z)
| KIfElse (else_skip_pos : Z).

Inductive PendingPatch :=
| PatchB (pos : Z)
| PatchCbnzW (pos : Z) (rt : Reg).

Record Label := mkLabel {
  kind : LabelKind;
  loop_start : option Z;
  pending : list PendingPatch;
  entry_depth : nat
}.

(** ** Constants *)

Definition MAX_PRIMARY_INT : Z := 16.
Definition SPILL_SCRATCH_A : Reg := MkReg 14.
Definition SPILL_SCRATCH_B : Reg := MkReg 15.
Definition MAX_FRAME_SPILL : Z := 16.
Definition SPILL_SLOT_BYTES : Z := 8.
Definition SPILL_AREA_BYTES : Z := MAX_FRAME_SPILL * SPILL_SLOT_BYTES.
Definition MAX_F32_STACK : Z := 16.
Definition FP_SPILL_SCRATCH_A : Vreg := MkVreg 30.
Definition FP_SPILL_SCRATCH_B : Vreg := MkVreg 31.
Definition MAX_FP_SPILL : Z := 8.
Definition FP_SPILL_SLOT_BYTES : Z := 16.
Definition FP_SPILL_AREA_BYTES : Z := MAX_FP_SPILL * FP_SPILL_SLOT_BYTES.
Definition GLOBAL_AREA_SIZE : Z := 256.
Definition GLOBAL_SLOT_BYTES : Z := 8.
Definition MAX_GLOBALS : Z := GLOBAL_AREA_SIZE / GLOBAL_SLOT_BYTES.
Definition MAX_I32_LOCALS : Z := 9.
Definition MAX_F32_LOCALS : Z := 14.
Definition MAX_LOCALS : Z := MAX_I32_LOCALS.
Definition LOCAL_I32_BASE_REG : Z := 19.
Definition LOCAL_F32_BASE_REG : Z := 16.
Definition MEM_BASE_REG : Reg := MkReg 28.
