(* ===== verification/WasmParse.v ===== *)
(** The function-body parser (src/tools/a64-encoder/src/wasm_parse.rs).

    A reader runs over a byte slice with the position as its state.  The
    opcode [match] of [parse_ops] is the table [arms]: an arm is the body of a
    case, applied by [parse_arm].  The main loop takes fuel; [parse_ops] gives
    it one unit per byte plus one, and running out of fuel is a panic, which
    WasmParseThm.v proves never to happen. *)

From S2P Require Import Prelude Bytes A64 WasmTypes.

Open Scope kernel_scope.
Open Scope word_scope.

Inductive ParseError :=
| UnexpectedEof
| IntegerTooLarge
| UnknownOpcode (b : Z)
| ConstantOutOfRange
| ImportsUnsupported
| InvalidUtf8.

#[global] Instance ParseError_eq_dec : EqDecision ParseError.
Proof. solve_decision. Defined.

Definition I32_MIN : Z := -(2 ^ 31).
Definition I32_MAX : Z := 2 ^ 31 - 1.

Section reader.
Context (bytes : list Z).

Abbreviation Reader := (M Z ParseError).

Definition len : Z := Z.of_nat (length bytes).

Definition read_u8 : Reader Z :=
  p <- gets id ;;
  b <- ok_or (bytes !! Z.to_nat p) UnexpectedEof ;;
  modify (Z.add 1) ;;;
  M_ret b.

(** ** LEB128 *)

(** The loop runs at shifts 0, 7, .., 63: ten rounds at most. *)
Fixpoint uleb_loop (rounds : nat) (result shift : Z) : Reader Z :=
  match rounds with
  | O => panic
  | S rounds =>
      b <- read_u8 ;;
      let result := result .| u64 (Z.shiftl (b .& 0x7F) shift) in
      if (b .& 0x80) =? 0 then M_ret result else
      let shift := shift + 7 in
      if 64 <=? shift then throw IntegerTooLarge else uleb_loop rounds result shift
  end.

Definition read_uleb128 : Reader Z := uleb_loop 10 0 0.

(** Returns the value so far, the shift after the last group and the last byte. *)
Fixpoint sleb_loop (rounds : nat) (result shift : Z) : Reader (Z * Z * Z) :=
  match rounds with
  | O => panic
  | S rounds =>
      b <- read_u8 ;;
      let result := result .| i64 (Z.shiftl (b .& 0x7F) shift) in
      let shift := shift + 7 in
      if (b .& 0x80) =? 0 then M_ret (result, shift, b) else
      if 64 <=? shift then throw IntegerTooLarge else sleb_loop rounds result shift
  end.

Definition read_sleb128 : Reader Z :=
  let* (result, shift, last) := sleb_loop 10 0 0 in
  M_ret (if (shift <? 64) && negb ((last .& 0x40) =? 0) then result .| i64 (Z.shiftl (-1) shift) else result).

(** ** Opcodes *)

(** [let idx = read_uleb128(..)?; if idx > u32::MAX { .. } idx as u32] *)
Definition read_u32_index : Reader Z :=
  idx <- read_uleb128 ;;
  fail_if (U32_MAX <? idx) IntegerTooLarge ;;;
  M_ret (u32 idx).

(** A memory argument: the alignment is read and dropped. *)
Definition read_memarg : Reader Z :=
  read_uleb128 ;;;
  off <- read_uleb128 ;;
  fail_if (U32_MAX <? off) IntegerTooLarge ;;;
  M_ret (u32 off).

(** [n] raw little-endian bytes. *)
Definition read_raw (n : nat) : Reader Z :=
  p <- gets id ;;
  fail_if (len <? p + Z.of_nat n) UnexpectedEof ;;;
  modify (Z.add (Z.of_nat n)) ;;;
  M_ret (from_le_bytes (take n (drop (Z.to_nat p) bytes))).

(** A lane index: one byte. *)
Definition read_lane : Reader Z :=
  p <- gets id ;;
  fail_if (len <=? p) UnexpectedEof ;;;
  match bytes !! Z.to_nat p with
  | Some lane => modify (Z.add 1) ;;; M_ret lane
  | None => panic
  end.

Inductive Arm :=
| ABlock (op : WasmOp)
| AOp (op : WasmOp)
| AIndex (mk : Z -> WasmOp)
| AMem (mk : Z -> WasmOp)
| ACallIndirect
| AEnd
| AI32Const | AI64Const | AF32Const | AF64Const
| AMisc | ASimd.

Inductive SimdArm :=
| SOp (op : WasmOp)
| SMem (mk : Z -> WasmOp)
| SConst16
| SLane (mk : Z -> WasmOp)
| SLaneMax (max : Z) (mk : Z -> WasmOp).

Definition arms : list (Z * Arm) :=
  [(0x02, ABlock Block); (0x03, ABlock Loop); (0x04, ABlock If); (0x05, AOp Else);
   (0x10, AIndex Call); (0x11, ACallIndirect); (0x0B, AEnd); (0x0C, AIndex Br);
   (0x0D, AIndex BrIf); (0x0F, AOp Return); (0x1A, AOp Drop); (0x1B, AOp Select);
   (0x20, AIndex LocalGet); (0x21, AIndex LocalSet); (0x22, AIndex LocalTee);
   (0x23, AIndex GlobalGet); (0x24, AIndex GlobalSet); (0x41, AI32Const); (0x43, AF32Const);
   (0x44, AF64Const); (0x42, AI64Const); (0x50, AOp I64Eqz); (0x51, AOp I64Eq); (0x52, AOp I64Ne);
   (0x53, AOp I64LtS); (0x54, AOp I64LtU); (0x55, AOp I64GtS); (0x56, AOp I64GtU);
   (0x57, AOp I64LeS); (0x58, AOp I64LeU); (0x59, AOp I64GeS); (0x5A, AOp I64GeU);
   (0x7C, AOp I64Add); (0x7D, AOp I64Sub); (0x7E, AOp I64Mul); (0x7F, AOp I64DivS);
   (0x80, AOp I64DivU); (0x83, AOp I64And); (0x84, AOp I64Or); (0x85, AOp I64Xor);
   (0x86, AOp I64Shl); (0x87, AOp I64ShrS); (0x88, AOp I64ShrU); (0x29, AMem I64Load);
   (0x37, AMem I64Store); (0xA7, AOp I32WrapI64); (0xA8, AOp I32TruncF32S);
   (0xA9, AOp I32TruncF32U); (0xAA, AOp I32TruncF64S); (0xAB, AOp I32TruncF64U);
   (0xAC, AOp I64ExtendI32S); (0xAD, AOp I64ExtendI32U); (0xAE, AOp I64TruncF32S);
   (0xAF, AOp I64TruncF32U); (0xB0, AOp I64TruncF64S); (0xB1, AOp I64TruncF64U);
   (0xB2, AOp F32ConvertI32S); (0xB3, AOp F32ConvertI32U); (0xB4, AOp F32ConvertI64S);
   (0xB5, AOp F32ConvertI64U); (0xB6, AOp F32DemoteF64); (0xB7, AOp F64ConvertI32S);
   (0xB8, AOp F64ConvertI32U); (0xB9, AOp F64ConvertI64S); (0xBA, AOp F64ConvertI64U);
   (0xBB, AOp F64PromoteF32); (0xBC, AOp I32ReinterpretF32); (0xBD, AOp I64ReinterpretF64);
   (0xBE, AOp F32ReinterpretI32); (0xBF, AOp F64ReinterpretI64); (0xC0, AOp I32Extend8S);
   (0xC1, AOp I32Extend16S); (0xC2, AOp I64Extend8S); (0xC3, AOp I64Extend16S);
   (0xC4, AOp I64Extend32S); (0x28, AMem I32Load); (0x2A, AMem F32Load); (0x36, AMem I32Store);
   (0x38, AMem F32Store); (0x2B, AMem F64Load); (0x39, AMem F64Store); (0x45, AOp I32Eqz);
   (0x46, AOp I32Eq); (0x47, AOp I32Ne); (0x48, AOp I32LtS); (0x49, AOp I32LtU);
   (0x4A, AOp I32GtS); (0x4B, AOp I32GtU); (0x4C, AOp I32LeS); (0x4D, AOp I32LeU);
   (0x4E, AOp I32GeS); (0x4F, AOp I32GeU); (0x6A, AOp I32Add); (0x6B, AOp I32Sub);
   (0x6C, AOp I32Mul); (0x6D, AOp I32DivS); (0x6E, AOp I32DivU); (0x71, AOp I32And);
   (0x72, AOp I32Or); (0x73, AOp I32Xor); (0x74, AOp I32Shl); (0x75, AOp I32ShrS);
   (0x76, AOp I32ShrU); (0x5B, AOp F32Eq); (0x5C, AOp F32Ne); (0x5D, AOp F32Lt); (0x5E, AOp F32Gt);
   (0x5F, AOp F32Le); (0x60, AOp F32Ge); (0x92, AOp F32Add); (0x93, AOp F32Sub);
   (0x94, AOp F32Mul); (0x95, AOp F32Div); (0x61, AOp F64Eq); (0x62, AOp F64Ne); (0x63, AOp F64Lt);
   (0x64, AOp F64Gt); (0x65, AOp F64Le); (0x66, AOp F64Ge); (0xA0, AOp F64Add); (0xA1, AOp F64Sub);
   (0xA2, AOp F64Mul); (0xA3, AOp F64Div); (0xFC, AMisc); (0xFD, ASimd)].

Definition misc_arms : list (Z * WasmOp) :=
  [(0x00, I32TruncF32S); (0x01, I32TruncF32U); (0x02, I32TruncF64S); (0x03, I32TruncF64U);
   (0x04, I64TruncF32S); (0x05, I64TruncF32U); (0x06, I64TruncF64S); (0x07, I64TruncF64U)].

Definition simd_arms : list (Z * SimdArm) :=
  [(0x00, SMem V128Load); (0x0B, SMem V128Store); (0x0C, SConst16); (0x0F, SOp I8x16Splat);
   (0x10, SOp I16x8Splat); (0x11, SOp I32x4Splat); (0x13, SOp F32x4Splat);
   (0x15, SLane I8x16ExtractLaneU); (0x19, SLane I16x8ExtractLaneU); (0x41, SOp F32x4Eq);
   (0x44, SOp F32x4Gt); (0x52, SOp V128Bitselect); (0x1B, SLaneMax 3 I32x4ExtractLane);
   (0x1F, SLaneMax 3 F32x4ExtractLane); (0x6E, SOp I8x16Add); (0x71, SOp I8x16Sub);
   (0x8E, SOp I16x8Add); (0x91, SOp I16x8Sub); (0x95, SOp I16x8Mul); (0xAE, SOp I32x4Add);
   (0xB1, SOp I32x4Sub); (0xB5, SOp I32x4Mul); (0xE0, SOp F32x4Abs); (0xE1, SOp F32x4Neg);
   (0xE3, SOp F32x4Sqrt); (0xE4, SOp F32x4Add); (0xE5, SOp F32x4Sub); (0xE6, SOp F32x4Mul);
   (0xE7, SOp F32x4Div); (0xE8, SOp F32x4Min); (0xE9, SOp F32x4Max); (0x12, SOp F64x2Splat);
   (0x1D, SLaneMax 1 F64x2ExtractLane); (0xF0, SOp F64x2Add); (0xF1, SOp F64x2Sub);
   (0xF2, SOp F64x2Mul); (0xF3, SOp F64x2Div); (0xF4, SOp F64x2Min); (0xF5, SOp F64x2Max)].

Definition arm_of {A} (table : list (Z * A)) (code : Z) : option A :=
  snd <$> List.find (fun '(k, _) => k =? code) table.

Definition parse_misc : Reader WasmOp :=
  sub <- read_uleb128 ;;
  ok_or (arm_of misc_arms sub) (UnknownOpcode (Z.min sub 0xFF)).

Definition parse_simd : Reader WasmOp :=
  sub <- read_uleb128 ;;
  match arm_of simd_arms sub with
  | Some (SOp op) => M_ret op
  | Some (SMem mk) => off <- read_memarg ;; M_ret (mk off)
  | Some SConst16 => bits <- read_raw 16 ;; M_ret (V128Const bits)
  | Some (SLane mk) => lane <- read_lane ;; M_ret (mk lane)
  | Some (SLaneMax max mk) =>
      lane <- read_lane ;;
      fail_if (max <? lane) (UnknownOpcode lane) ;;;
      M_ret (mk lane)
  | None => throw (UnknownOpcode (Z.min sub 0xFF))
  end.

(** One arm: the operation pushed and the nesting depth after it; [None] for
    the depth when the outermost [End] was read. *)
Definition parse_arm (arm : Arm) (depth : Z) : Reader (WasmOp * option Z) :=
  match arm with
  | ABlock op => read_u8 ;;; M_ret (op, Some (u32 (depth + 1)))
  | AOp op => M_ret (op, Some depth)
  | AIndex mk => idx <- read_u32_index ;; M_ret (mk idx, Some depth)
  | AMem mk => off <- read_memarg ;; M_ret (mk off, Some depth)
  | ACallIndirect =>
      typeidx <- read_u32_index ;;
      read_uleb128 ;;;
      M_ret (CallIndirect typeidx, Some depth)
  | AEnd => M_ret (End, if depth =? 0 then None else Some (depth - 1))
  | AI32Const =>
      v <- read_sleb128 ;;
      fail_if (negb ((I32_MIN <=? v) && (v <=? I32_MAX))) ConstantOutOfRange ;;;
      M_ret (I32Const v, Some depth)
  | AI64Const => v <- read_sleb128 ;; M_ret (I64Const v, Some depth)
  | AF32Const => bits <- read_raw 4 ;; M_ret (F32Const bits, Some depth)
  | AF64Const => bits <- read_raw 8 ;; M_ret (F64Const bits, Some depth)
  | AMisc => op <- parse_misc ;; M_ret (op, Some depth)
  | ASimd => op <- parse_simd ;; M_ret (op, Some depth)
  end.

Definition parse_op (depth : Z) : Reader (WasmOp * option Z) :=
  opcode <- read_u8 ;;
  match arm_of arms opcode with
  | Some arm => parse_arm arm depth
  | None => throw (UnknownOpcode opcode)
  end.

Fixpoint parse_loop (fuel : nat) (ops : list WasmOp) (depth : Z) : Reader (list WasmOp) :=
  match fuel with
  | O => panic
  | S fuel =>
      let* (op, next) := parse_op depth in
      match next with
      | None => M_ret (ops ++ [op])
      | Some depth => parse_loop fuel (ops ++ [op]) depth
      end
  end.

Definition parse_ops : Reader (list WasmOp) := parse_loop (S (length bytes)) [] 0.

(** Parse a full function body: the position starts at 0 and has to end at the
    end of the slice. *)
Definition parse_function_body : outcome ParseError (list WasmOp) :=
  match parse_ops 0 with
  | (p, Ok ops) => if negb (p =? len) then Err UnexpectedEof else Ok ops
  | (_, Err e) => Err e
  | (_, Panic) => Panic
  end.
End reader.
