(* ===== verification/WasmParseThm.v ===== *)
(** The parsers' readers and the function-body parser: LEB128 and the reader
    calculus, then termination and the round trip of bodies. *)

From S2P Require Import Prelude Bytes A64 WasmTypes WasmParse.

(** LEB128: reading back what an encoder wrote, and the reader calculus the
    parser proofs use.

    [parses m bs a] says that a reader standing before the bytes [bs] consumes
    exactly them and returns [a], whatever follows.  [consumes n m Q] says that
    a reader standing anywhere in the slice never panics and never leaves it,
    and that a success advances by at least [n] bytes with a result in [Q]. *)

Open Scope kernel_scope.
Open Scope word_scope.

Section calculus.
Context (bytes : list Z).

Abbreviation Reader := (M Z ParseError).

Definition stands (p : Z) (l : list Z) : Prop := 0 <= p /\ drop (Z.to_nat p) bytes = l.

Definition parses {A} (m : Reader A) (bs : list Z) (a : A) : Prop :=
  forall p rest, stands p (bs ++ rest) -> m p = (p + Z.of_nat (length bs), Ok a).

Lemma stands_advance p bs rest : stands p (bs ++ rest) -> stands (p + Z.of_nat (length bs)) rest.
Proof.
  intros [Hp H]. split; [lia|].
  rewrite Z2Nat.inj_add, Nat2Z.id, <- drop_drop, H, drop_app_length by lia. done.
Qed.

Lemma parses_bind {A B} (m : Reader A) (k : A -> Reader B) bs1 bs2 a b :
  parses m bs1 a -> parses (k a) bs2 b -> parses (M_bind k m) (bs1 ++ bs2) b.
Proof.
  intros Hm Hk p rest H. rewrite <- app_assoc in H. unfold M_bind. rewrite (Hm _ _ H).
  rewrite (Hk _ _ (stands_advance _ _ _ H)). f_equal. rewrite length_app. lia.
Qed.

Lemma parses_bind_nil {A B} (m : Reader A) (k : A -> Reader B) bs a b :
  parses m bs a -> parses (k a) [] b -> parses (M_bind k m) bs b.
Proof. intros Hm Hk. rewrite <- (app_nil_r bs). by apply (parses_bind m k bs [] a). Qed.

Lemma parses_nil_bind {A B} (m : Reader A) (k : A -> Reader B) bs a b :
  parses m [] a -> parses (k a) bs b -> parses (M_bind k m) bs b.
Proof. intros Hm Hk. by apply (parses_bind m k [] bs a). Qed.

Lemma parses_ret {A} (a : A) : parses (M_ret a) [] a.
Proof. intros p rest _. unfold M_ret. f_equal. cbn. lia. Qed.

Lemma parses_fail_if b e : b = false -> parses (fail_if b e) [] tt.
Proof. intros -> p rest _. unfold fail_if, M_ret. f_equal. cbn. lia. Qed.

Lemma stands_lookup p b l : stands p (b :: l) -> bytes !! Z.to_nat p = Some b.
Proof. intros [_ H]. by rewrite <- (Nat.add_0_r (Z.to_nat p)), <- lookup_drop, H. Qed.

Lemma parses_u8 b : parses (read_u8 bytes) [b] b.
Proof.
  intros p rest H. unfold read_u8, M_bind, gets, modify, M_ret. cbn [id].
  rewrite (stands_lookup _ _ _ H). cbn [ok_or M_ret length]. f_equal. lia.
Qed.

Lemma stands_len p l : stands p l -> p <= len bytes \/ l = [] -> p + Z.of_nat (length l) <= len bytes \/ l = [].
Proof.
  intros [Hp H] _. destruct l as [|b l]; [by right|left]. apply (f_equal length) in H.
  rewrite length_drop in H. unfold len. cbn [length] in *. lia.
Qed.

Lemma parses_raw n bs :
  length bs = n -> (0 < n)%nat -> parses (read_raw bytes n) bs (from_le_bytes bs).
Proof.
  intros Hn Hpos p rest H. unfold read_raw, M_bind, gets, fail_if, modify, M_ret. cbn [id].
  destruct (stands_len _ _ H) as [Hl|Hl].
  - left. destruct H as [Hp H]. apply (f_equal length) in H. rewrite length_drop, length_app in H. unfold len. lia.
  - rewrite length_app in Hl. destruct (Z.ltb_spec (len bytes) (p + Z.of_nat n)); [lia|].
    destruct H as [_ ->]. rewrite take_app_length' by done. by rewrite Z.add_comm, Hn.
  - apply (f_equal length) in Hl. rewrite length_app in Hl. cbn in Hl. lia.
Qed.

Lemma parses_lane b : parses (read_lane bytes) [b] b.
Proof.
  intros p rest H. unfold read_lane, M_bind, gets, fail_if, modify, M_ret. cbn [id].
  rewrite (stands_lookup _ _ _ H). destruct H as [Hp H]. apply (f_equal length) in H.
  rewrite length_drop in H. unfold len. cbn [length app] in *.
  destruct (Z.leb_spec (Z.of_nat (length bytes)) p); [lia|]. by rewrite Z.add_comm.
Qed.

(** ** Byte arithmetic *)

Definition all_bytes (P : Z -> bool) : bool := forallb (fun n => P (Z.of_nat n)) (seq 0 256).

Lemma all_bytes_spec P b : all_bytes P = true -> byte b -> P b = true.
Proof.
  unfold all_bytes, byte. rewrite forallb_forall. intros H Hb.
  rewrite <- (Z2Nat.id b) by lia. apply H, in_seq. lia.
Qed.

Lemma cont_bit b : byte b -> ((b .& 0x80) =? 0) = (b <? 128).
Proof.
  intros Hb. apply eqb_prop.
  by apply (all_bytes_spec (fun b => Bool.eqb ((b .& 0x80) =? 0) (b <? 128)) b).
Qed.

Lemma sign_bit b : byte b -> ((b .& 0x40) =? 0) = (b mod 128 <? 64).
Proof.
  intros Hb. apply eqb_prop.
  by apply (all_bytes_spec (fun b => Bool.eqb ((b .& 0x40) =? 0) (b mod 128 <? 64)) b).
Qed.

Lemma low7 b : b .& 0x7F = b mod 128.
Proof. apply (land_ones_mod b 7). lia. Qed.

Lemma mod_cont n : (n mod 128 + 128) mod 128 = n mod 128.
Proof. rewrite <- Z.add_mod_idemp_r, Z_mod_same_full, Z.add_0_r by lia. apply Z.mod_mod. lia. Qed.

Lemma lor_width w a b : 0 <= w -> in_width w a -> in_width w b -> in_width w (a .| b).
Proof.
  intros Hw [Ha1 Ha2] [Hb1 Hb2]. split; [by apply Z.lor_nonneg|].
  rewrite <- (Z.mod_small a (2 ^ w)), <- (Z.mod_small b (2 ^ w)), <- !Z.land_ones, <- Z.land_lor_distr_l, Z.land_ones by lia.
  apply Z.mod_pos_bound. lia.
Qed.

Lemma lor_i64 r z : - 2 ^ 63 <= r < 2 ^ 63 -> - 2 ^ 63 <= r .| i64 z < 2 ^ 63.
Proof.
  intros Hr. assert (- 2 ^ 63 <= i64 z < 2 ^ 63) as Hz.
  { unfold i64. pose proof (Z.mod_pos_bound (z + 2 ^ 63) (2 ^ 64) ltac:(lia)). lia. }
  assert (forall x, - 2 ^ 63 <= x < 2 ^ 63 <-> Z.shiftr x 63 = 0 \/ Z.shiftr x 63 = -1) as Hchar.
  { intros x. rewrite Z.shiftr_div_pow2 by lia.
    pose proof (Z.div_mod x (2 ^ 63) ltac:(lia)). pose proof (Z.mod_pos_bound x (2 ^ 63) ltac:(lia)). lia. }
  apply Hchar in Hr, Hz. apply Hchar. rewrite Z.shiftr_lor.
  destruct Hr as [-> | ->], Hz as [-> | ->]; cbn; auto.
Qed.

(** ** Unsigned *)

Fixpoint uleb_bytes (groups : nat) (n : Z) : list Z :=
  match groups with
  | O => []
  | S groups => if n <? 128 then [n] else (n mod 128 + 128) :: uleb_bytes groups (n / 128)
  end.

Definition uleb128 (n : Z) : list Z := uleb_bytes 10 n.

Lemma uleb_step k n r s :
  s = 70 - 7 * Z.of_nat (S k) -> 0 <= s -> 0 <= n -> 0 <= r < 2 ^ s -> r + n * 2 ^ s < 2 ^ 64 ->
  r .| u64 (Z.shiftl (n mod 128) s) = r + (n mod 128) * 2 ^ s.
Proof.
  intros Hs Hs0 Hn Hr Hb. pose proof (Z.mod_pos_bound n 128 ltac:(lia)). pose proof (Z.mod_le n 128 ltac:(lia) ltac:(lia)).
  rewrite wrap_small.
  - apply lor_shiftl_add; lia.
  - rewrite Z.shiftl_mul_pow2 by lia. split; nia.
Qed.

Lemma uleb_loop_parses k n r s :
  s = 70 - 7 * Z.of_nat k -> 0 <= s < 64 -> 0 <= n < 128 ^ Z.of_nat k -> 0 <= r < 2 ^ s -> r + n * 2 ^ s < 2 ^ 64 ->
  parses (uleb_loop bytes k r s) (uleb_bytes k n) (r + n * 2 ^ s).
Proof.
  revert n r s. induction k as [|k IH]; intros n r s Hs Hs0 Hn Hr Hb.
  { lia. }
  cbn [uleb_loop uleb_bytes]. pose proof (Z.mod_pos_bound n 128 ltac:(lia)) as Hm.
  destruct (Z.ltb_spec n 128) as [Hlt|Hge].
  - eapply parses_bind_nil; [apply parses_u8|]. cbv beta zeta. rewrite cont_bit, low7, (uleb_step k) by (lia || (unfold byte; lia)).
    destruct (Z.ltb_spec n 128); [|lia]. rewrite Z.mod_small by lia. apply parses_ret.
  - change (?x :: ?l) with ([x] ++ l). eapply parses_bind; [apply parses_u8|]. cbv beta zeta.
    rewrite cont_bit, low7, mod_cont, (uleb_step k) by (lia || (unfold byte; lia)).
    destruct (Z.ltb_spec (n mod 128 + 128) 128); [lia|].
    assert (2 ^ (s + 7) = 128 * 2 ^ s) as Hp by (rewrite Z.pow_add_r by lia; lia).
    assert (s + 7 < 64) as Hlt64.
    { apply (Z.pow_lt_mono_r_iff 2); [lia|lia|]. rewrite Hp. nia. }
    destruct (Z.leb_spec 64 (s + 7)); [lia|].
    replace (r + n * 2 ^ s) with ((r + n mod 128 * 2 ^ s) + (n / 128) * 2 ^ (s + 7))
      by (rewrite Hp; pose proof (Z.div_mod n 128 ltac:(lia)); nia).
    apply IH; [lia|lia| | |].
    + split; [apply Z.div_pos; lia|]. apply Z.div_lt_upper_bound; [lia|].
      rewrite Nat2Z.inj_succ, Z.pow_succ_r in Hn by lia. lia.
    + rewrite Hp. nia.
    + rewrite Hp. pose proof (Z.div_mod n 128 ltac:(lia)). nia.
Qed.

Lemma uleb128_parses n : in_width 64 n -> parses (read_uleb128 bytes) (uleb128 n) n.
Proof.
  intros [Hn1 Hn2]. replace n with (0 + n * 2 ^ 0) at 2 by lia.
  apply uleb_loop_parses; lia.
Qed.

(** ** Signed *)

(** The encoder of the parser's tests ([encode_sleb128] in wasm_module.rs). *)
Fixpoint sleb_bytes (groups : nat) (v : Z) : list Z :=
  match groups with
  | O => []
  | S groups =>
      let b := v .& 0x7F in
      let v := v .>> 7 in
      let sign_bit := b .& 0x40 in
      let finished := ((v =? 0) && (sign_bit =? 0)) || ((v =? -1) && negb (sign_bit =? 0)) in
      if finished then [b] else (b .| 0x80) :: sleb_bytes groups v
  end.

Definition encode_sleb128 (v : Z) : list Z := sleb_bytes 10 v.

Lemma i64_small z : - 2 ^ 63 <= z < 2 ^ 63 -> i64 z = z.
Proof. intros H. unfold i64. rewrite Z.mod_small by lia. lia. Qed.

Lemma or_cont b : 0 <= b < 128 -> b .| 0x80 = b + 128.
Proof. intros H. apply (lor_shiftl_add b 1 7); lia. Qed.

(** Adding one group below bit 63 to the low bits read so far. *)
Lemma sleb_group r b s :
  0 <= s <= 56 -> 0 <= r < 2 ^ s -> 0 <= b < 128 -> r .| i64 (Z.shiftl b s) = r + b * 2 ^ s /\ 0 <= r + b * 2 ^ s < 2 ^ (s + 7).
Proof.
  intros Hs Hr Hb. assert (2 ^ (s + 7) = 128 * 2 ^ s) as Hp by (rewrite Z.pow_add_r by lia; lia).
  assert (2 ^ s <= 2 ^ 56) by (apply Z.pow_le_mono_r; lia).
  split; [|nia]. rewrite i64_small; [apply lor_shiftl_add; lia|].
  rewrite Z.shiftl_mul_pow2 by lia. change (2 ^ 63) with (128 * 2 ^ 56). nia.
Qed.

(** The last group and the sign extension. *)
Definition sleb_last (r s b : Z) : Z :=
  let result := r .| i64 (Z.shiftl (b .& 0x7F) s) in
  if (s + 7 <? 64) && negb ((b .& 0x40) =? 0) then result .| i64 (Z.shiftl (-1) (s + 7)) else result.

Lemma sleb_last_spec r s v :
  0 <= s <= 56 \/ s = 63 /\ -1 <= v <= 0 -> 0 <= r < 2 ^ s -> -64 <= v < 64 -> sleb_last r s (v mod 128) = r + v * 2 ^ s.
Proof.
  intros Hs Hr Hv. unfold sleb_last. pose proof (Z.mod_pos_bound v 128 ltac:(lia)) as Hm.
  rewrite low7, sign_bit, Z.mod_mod by (lia || (unfold byte; lia)).
  assert (v mod 128 = if v <? 0 then v + 128 else v) as Hv7.
  { destruct (Z.ltb_spec v 0); [|apply Z.mod_small; lia].
    rewrite <- (Z_mod_plus_full v 1 128). apply Z.mod_small. lia. }
  destruct Hs as [Hs|[-> Hs]].
  - destruct (sleb_group r (v mod 128) s Hs Hr Hm) as [-> Hg].
    assert (2 ^ (s + 7) = 128 * 2 ^ s) as Hp by (rewrite Z.pow_add_r by lia; lia).
    destruct (Z.ltb_spec (s + 7) 64); [|lia]. cbn [andb].
    rewrite Hv7 in *. destruct (Z.ltb_spec v 0), (Z.ltb_spec (v + 128) 64), (Z.ltb_spec v 64); try lia; cbn [negb].
    + rewrite i64_small; [rewrite lor_shiftl_add by lia; nia|].
      rewrite Z.shiftl_mul_pow2 by lia. assert (2 ^ (s + 7) <= 2 ^ 63) by (apply Z.pow_le_mono_r; lia). lia.
    + done.
  - change (63 + 7 <? 64) with false. cbn [andb]. rewrite Hv7.
    destruct (Z.ltb_spec v 0).
    + replace v with (-1) by lia. change (i64 (Z.shiftl (-1 + 128) 63)) with (Z.shiftl (-1) 63).
      apply lor_shiftl_add; lia.
    + replace v with 0 by lia. change (i64 (Z.shiftl 0 63)) with 0. rewrite Z.lor_0_r. lia.
Qed.

Lemma finished_spec v :
  let b := v .& 0x7F in
  ((v .>> 7 =? 0) && (b .& 0x40 =? 0)) || ((v .>> 7 =? -1) && negb (b .& 0x40 =? 0)) = (-64 <=? v) && (v <? 64).
Proof.
  cbv zeta. rewrite low7, Z.shiftr_div_pow2 by lia. change (2 ^ 7) with 128.
  pose proof (Z.div_mod v 128 ltac:(lia)). pose proof (Z.mod_pos_bound v 128 ltac:(lia)).
  rewrite sign_bit, Z.mod_mod by (lia || (unfold byte; lia)).
  destruct (Z.eqb_spec (v / 128) 0), (Z.eqb_spec (v / 128) (-1)), (Z.ltb_spec (v mod 128) 64),
    (Z.leb_spec (-64) v), (Z.ltb_spec v 64); cbn; lia.
Qed.

Lemma sleb_loop_parses k v r s :
  s = 70 - 7 * Z.of_nat k -> 0 <= s < 64 -> 0 <= r < 2 ^ s -> - 2 ^ 63 <= r + v * 2 ^ s < 2 ^ 63 ->
  exists res sh last, parses (sleb_loop bytes k r s) (sleb_bytes k v) (res, sh, last) /\
    (if (sh <? 64) && negb ((last .& 0x40) =? 0) then res .| i64 (Z.shiftl (-1) sh) else res) = r + v * 2 ^ s.
Proof.
  revert v r s. induction k as [|k IH]; intros v r s Hs Hs0 Hr Hb; [lia|].
  cbn [sleb_loop sleb_bytes]. cbv zeta. rewrite finished_spec, low7. pose proof (Z.mod_pos_bound v 128 ltac:(lia)) as Hm.
  assert (s <= 56 \/ s = 63) as Hcase by lia.
  assert (s = 63 -> -1 <= v <= 0) as H63 by (intros ->; nia).
  destruct ((-64 <=? v) && (v <? 64)) eqn:Hf.
  - bool_prop. exists (r .| i64 (Z.shiftl ((v mod 128) .& 0x7F) s)), (s + 7), (v mod 128). split.
    + eapply parses_bind_nil; [apply parses_u8|]. cbv beta.
      rewrite cont_bit by (unfold byte; lia). destruct (Z.ltb_spec (v mod 128) 128); [|lia]. apply parses_ret.
    + apply sleb_last_spec; lia.
  - assert (s <= 56) as Hs56.
    { destruct Hcase as [|E]; [done|]. specialize (H63 E). apply andb_false_iff in Hf as [Hf|Hf]; bool_prop; lia. }
    rewrite or_cont by lia.
    destruct (sleb_group r (v mod 128) s ltac:(lia) Hr Hm) as [Hg Hg2].
    assert (2 ^ (s + 7) = 128 * 2 ^ s) as Hp by (rewrite Z.pow_add_r by lia; lia).
    pose proof (Z.div_mod v 128 ltac:(lia)) as Hd.
    destruct (IH (v / 128) (r + v mod 128 * 2 ^ s) (s + 7)) as (res & sh & last & Hpr & Heq); [lia|lia|lia|nia|].
    exists res, sh, last. split; [|rewrite Heq, Hp; nia].
    change (?x :: ?l) with ([x] ++ l). eapply parses_bind; [apply parses_u8|]. cbv beta.
    rewrite cont_bit, low7, mod_cont, Hg by (unfold byte; lia).
    destruct (Z.ltb_spec (v mod 128 + 128) 128), (Z.leb_spec 64 (s + 7)); try lia.
    by rewrite Z.shiftr_div_pow2 by lia.
Qed.

Lemma sleb128_parses v : - 2 ^ 63 <= v < 2 ^ 63 -> parses (read_sleb128 bytes) (encode_sleb128 v) v.
Proof.
  intros Hv. destruct (sleb_loop_parses 10 v 0 0) as (res & sh & last & Hp & He); [lia..|].
  eapply parses_bind_nil; [exact Hp|]. cbv beta iota. rewrite He. replace (0 + v * 2 ^ 0) with v by lia. apply parses_ret.
Qed.
End calculus.

(** The function-body parser: it terminates on every input without leaving the
    slice, what it returns is well formed and properly nested, and it reads
    back every printed body. *)

(** Operands are in the range of their source types, and a lane index in the
    range its arm checks. *)
Definition wf_op (op : WasmOp) : Prop :=
  match op with
  | I32Const c => I32_MIN <= c <= I32_MAX
  | I64Const c => - 2 ^ 63 <= c < 2 ^ 63
  | I64Load n | I64Store n | F32Load n | F32Store n | F64Load n
  | F64Store n | V128Load n | V128Store n | LocalGet n | LocalSet n
  | LocalTee n | GlobalGet n | GlobalSet n | Br n | BrIf n
  | Call n | CallIndirect n | I32Load n | I32Store n => in_width 32 n
  | F32Const bits => in_width 32 bits
  | F64Const bits => in_width 64 bits
  | V128Const bits => in_width 128 bits
  | F32x4ExtractLane lane | I32x4ExtractLane lane => 0 <= lane <= 3
  | F64x2ExtractLane lane => 0 <= lane <= 1
  | I8x16ExtractLaneU lane | I16x8ExtractLaneU lane => byte lane
  | _ => True
  end.

Definition op_bytes (op : WasmOp) : option (list Z) :=
  match op with
  | I32Const c => Some (0x41 :: encode_sleb128 c)
  | I32Add => Some [0x6A]
  | I32Sub => Some [0x6B]
  | I32Mul => Some [0x6C]
  | I32DivS => Some [0x6D]
  | I32DivU => Some [0x6E]
  | I32Eq => Some [0x46]
  | I32Ne => Some [0x47]
  | I32LtS => Some [0x48]
  | I32GtS => Some [0x4A]
  | I32LeS => Some [0x4C]
  | I32GeS => Some [0x4E]
  | I32LtU => Some [0x49]
  | I32GtU => Some [0x4B]
  | I32LeU => Some [0x4D]
  | I32GeU => Some [0x4F]
  | I32Eqz => Some [0x45]
  | I64Const c => Some (0x42 :: encode_sleb128 c)
  | I64Add => Some [0x7C]
  | I64Sub => Some [0x7D]
  | I64Mul => Some [0x7E]
  | I64Eqz => Some [0x50]
  | I64Eq => Some [0x51]
  | I64Ne => Some [0x52]
  | I64LtS => Some [0x53]
  | I64GtS => Some [0x55]
  | I64LtU => Some [0x54]
  | I64GtU => Some [0x56]
  | I64LeS => Some [0x57]
  | I64LeU => Some [0x58]
  | I64GeS => Some [0x59]
  | I64GeU => Some [0x5A]
  | I64DivS => Some [0x7F]
  | I64DivU => Some [0x80]
  | I64And => Some [0x83]
  | I64Or => Some [0x84]
  | I64Xor => Some [0x85]
  | I64Shl => Some [0x86]
  | I64ShrS => Some [0x87]
  | I64ShrU => Some [0x88]
  | I64Load n => Some (0x29 :: uleb128 0 ++ uleb128 n)
  | I64Store n => Some (0x37 :: uleb128 0 ++ uleb128 n)
  | I32WrapI64 => Some [0xA7]
  | I64ExtendI32S => Some [0xAC]
  | I64ExtendI32U => Some [0xAD]
  | I32And => Some [0x71]
  | I32Or => Some [0x72]
  | I32Xor => Some [0x73]
  | I32Shl => Some [0x74]
  | I32ShrS => Some [0x75]
  | I32ShrU => Some [0x76]
  | F32Const bits => Some (0x43 :: le_bytes 4 bits)
  | F32Add => Some [0x92]
  | F32Sub => Some [0x93]
  | F32Mul => Some [0x94]
  | F32Div => Some [0x95]
  | F32Eq => Some [0x5B]
  | F32Ne => Some [0x5C]
  | F32Lt => Some [0x5D]
  | F32Gt => Some [0x5E]
  | F32Le => Some [0x5F]
  | F32Ge => Some [0x60]
  | F32Load n => Some (0x2A :: uleb128 0 ++ uleb128 n)
  | F32Store n => Some (0x38 :: uleb128 0 ++ uleb128 n)
  | F64Const bits => Some (0x44 :: le_bytes 8 bits)
  | F64Add => Some [0xA0]
  | F64Sub => Some [0xA1]
  | F64Mul => Some [0xA2]
  | F64Div => Some [0xA3]
  | F64Eq => Some [0x61]
  | F64Ne => Some [0x62]
  | F64Lt => Some [0x63]
  | F64Gt => Some [0x64]
  | F64Le => Some [0x65]
  | F64Ge => Some [0x66]
  | F64Load n => Some (0x2B :: uleb128 0 ++ uleb128 n)
  | F64Store n => Some (0x39 :: uleb128 0 ++ uleb128 n)
  | I32Extend8S => Some [0xC0]
  | I32Extend16S => Some [0xC1]
  | I64Extend8S => Some [0xC2]
  | I64Extend16S => Some [0xC3]
  | I64Extend32S => Some [0xC4]
  | I32TruncF32S => Some [0xA8]
  | I32TruncF32U => Some [0xA9]
  | I32TruncF64S => Some [0xAA]
  | I32TruncF64U => Some [0xAB]
  | I64TruncF32S => Some [0xAE]
  | I64TruncF32U => Some [0xAF]
  | I64TruncF64S => Some [0xB0]
  | I64TruncF64U => Some [0xB1]
  | F32ConvertI32S => Some [0xB2]
  | F32ConvertI32U => Some [0xB3]
  | F32ConvertI64S => Some [0xB4]
  | F32ConvertI64U => Some [0xB5]
  | F64ConvertI32S => Some [0xB7]
  | F64ConvertI32U => Some [0xB8]
  | F64ConvertI64S => Some [0xB9]
  | F64ConvertI64U => Some [0xBA]
  | F32DemoteF64 => Some [0xB6]
  | F64PromoteF32 => Some [0xBB]
  | I32ReinterpretF32 => Some [0xBC]
  | I64ReinterpretF64 => Some [0xBD]
  | F32ReinterpretI32 => Some [0xBE]
  | F64ReinterpretI64 => Some [0xBF]
  | V128Const bits => Some (0xFD :: uleb128 0x0C ++ le_bytes 16 bits)
  | V128Load n => Some (0xFD :: uleb128 0x00 ++ uleb128 0 ++ uleb128 n)
  | V128Store n => Some (0xFD :: uleb128 0x0B ++ uleb128 0 ++ uleb128 n)
  | F32x4Add => Some (0xFD :: uleb128 0xE4)
  | F32x4Mul => Some (0xFD :: uleb128 0xE6)
  | F32x4ExtractLane lane => Some (0xFD :: uleb128 0x1F ++ [lane])
  | F32x4Splat => Some (0xFD :: uleb128 0x13)
  | I32x4Splat => Some (0xFD :: uleb128 0x11)
  | I32x4Add => Some (0xFD :: uleb128 0xAE)
  | I32x4Sub => Some (0xFD :: uleb128 0xB1)
  | I32x4Mul => Some (0xFD :: uleb128 0xB5)
  | I32x4ExtractLane lane => Some (0xFD :: uleb128 0x1B ++ [lane])
  | F64x2Add => Some (0xFD :: uleb128 0xF0)
  | F64x2Sub => Some (0xFD :: uleb128 0xF1)
  | F64x2Mul => Some (0xFD :: uleb128 0xF2)
  | F64x2Div => Some (0xFD :: uleb128 0xF3)
  | F64x2Min => Some (0xFD :: uleb128 0xF4)
  | F64x2Max => Some (0xFD :: uleb128 0xF5)
  | F64x2Splat => Some (0xFD :: uleb128 0x12)
  | F64x2ExtractLane lane => Some (0xFD :: uleb128 0x1D ++ [lane])
  | I8x16Add => Some (0xFD :: uleb128 0x6E)
  | I8x16Sub => Some (0xFD :: uleb128 0x71)
  | I8x16Splat => Some (0xFD :: uleb128 0x0F)
  | I8x16ExtractLaneU lane => Some (0xFD :: uleb128 0x15 ++ [lane])
  | I16x8Add => Some (0xFD :: uleb128 0x8E)
  | I16x8Sub => Some (0xFD :: uleb128 0x91)
  | I16x8Mul => Some (0xFD :: uleb128 0x95)
  | I16x8Splat => Some (0xFD :: uleb128 0x10)
  | I16x8ExtractLaneU lane => Some (0xFD :: uleb128 0x19 ++ [lane])
  | F32x4Sub => Some (0xFD :: uleb128 0xE5)
  | F32x4Div => Some (0xFD :: uleb128 0xE7)
  | F32x4Max => Some (0xFD :: uleb128 0xE9)
  | F32x4Min => Some (0xFD :: uleb128 0xE8)
  | F32x4Abs => Some (0xFD :: uleb128 0xE0)
  | F32x4Neg => Some (0xFD :: uleb128 0xE1)
  | F32x4Sqrt => Some (0xFD :: uleb128 0xE3)
  | F32x4Eq => Some (0xFD :: uleb128 0x41)
  | F32x4Gt => Some (0xFD :: uleb128 0x44)
  | V128Bitselect => Some (0xFD :: uleb128 0x52)
  | Drop => Some [0x1A]
  | Select => Some [0x1B]
  | LocalGet n => Some (0x20 :: uleb128 n)
  | LocalSet n => Some (0x21 :: uleb128 n)
  | LocalTee n => Some (0x22 :: uleb128 n)
  | GlobalGet n => Some (0x23 :: uleb128 n)
  | GlobalSet n => Some (0x24 :: uleb128 n)
  | Block => Some [0x02; 0x40]
  | Loop => Some [0x03; 0x40]
  | Br n => Some (0x0C :: uleb128 n)
  | BrIf n => Some (0x0D :: uleb128 n)
  | If => Some [0x04; 0x40]
  | Else => Some [0x05]
  | Call n => Some (0x10 :: uleb128 n)
  | CallIndirect n => Some (0x11 :: uleb128 n ++ uleb128 0)
  | Return => Some [0x0F]
  | End => Some [0x0B]
  | I32Load n => Some (0x28 :: uleb128 0 ++ uleb128 n)
  | I32Store n => Some (0x36 :: uleb128 0 ++ uleb128 n)
  | F64x2Sqrt | F64x2Abs | F64x2Neg | I32x4DotI8x16Signed | I32x4DotI8x16Unsigned | F32x4Fma | F32x4HorizontalSum => None
  end.

(** ** Nesting *)

Inductive Nest := NOpen | NClose | NFlat.

Definition nest (op : WasmOp) : Nest :=
  match op with Block | Loop | If => NOpen | End => NClose | _ => NFlat end.

(** From nesting depth [d] the sequence closes the outermost scope with its
    last operation and not before. *)
Fixpoint closes (d : nat) (ops : list WasmOp) : bool :=
  match ops with
  | [] => false
  | op :: rest =>
      match nest op with
      | NOpen => closes (S d) rest
      | NFlat => closes d rest
      | NClose => match d with O => match rest with [] => true | _ => false end | S d => closes d rest end
      end
  end.

Definition next_depth (op : WasmOp) (d : Z) : option Z :=
  match nest op with
  | NOpen => Some (u32 (d + 1))
  | NFlat => Some d
  | NClose => if d =? 0 then None else Some (d - 1)
  end.

(** ** Totality *)

Section total.
Context (bytes : list Z) (Hbytes : Forall byte bytes).

Abbreviation Reader := (M Z ParseError).
Abbreviation len := (len bytes).

Definition consumes {A} (n : Z) (m : Reader A) (Q : A -> Prop) : Prop :=
  forall p, 0 <= p <= len ->
    match m p with
    | (p', Ok a) => p + n <= p' <= len /\ Q a
    | (p', Err _) => p <= p' <= len
    | (_, Panic) => False
    end.

Lemma consumes_bind {A B} n1 n2 (m : Reader A) (k : A -> Reader B) Q1 Q2 :
  0 <= n1 -> consumes n1 m Q1 -> (forall a, Q1 a -> consumes n2 (k a) Q2) -> consumes (n1 + n2) (M_bind k m) Q2.
Proof.
  intros Hn Hm Hk p Hp. unfold M_bind. specialize (Hm p Hp). destruct (m p) as [p1 [a|e|]]; [|done|done].
  destruct Hm as [Hp1 Ha]. specialize (Hk a Ha p1 ltac:(lia)). destruct (k a p1) as [p2 [b|e|]]; [|lia|done].
  destruct Hk. split; [lia|done].
Qed.

Lemma consumes_weaken {A} n n' (m : Reader A) (Q Q' : A -> Prop) :
  consumes n m Q -> n' <= n -> (forall a, Q a -> Q' a) -> consumes n' m Q'.
Proof.
  intros Hm Hn HQ p Hp. specialize (Hm p Hp). destruct (m p) as [p1 [a|e|]]; [|done|done].
  destruct Hm. split; [lia|auto].
Qed.

(** Sequencing when the second reader need not advance. *)
Lemma consumes_seq {A B} n (m : Reader A) (k : A -> Reader B) Q1 Q2 :
  0 <= n -> consumes n m Q1 -> (forall a, Q1 a -> consumes 0 (k a) Q2) -> consumes n (M_bind k m) Q2.
Proof. intros Hn Hm Hk. rewrite <- (Z.add_0_r n). by eapply consumes_bind. Qed.

Lemma consumes_ret {A} (a : A) (Q : A -> Prop) : Q a -> consumes 0 (M_ret a) Q.
Proof. intros HQ p Hp. split; [lia|done]. Qed.

Lemma consumes_throw {A} e (Q : A -> Prop) : consumes 0 (throw e) Q.
Proof. intros p Hp. cbn. lia. Qed.

Lemma consumes_fail_if b e (Q : unit -> Prop) : (b = false -> Q tt) -> consumes 0 (fail_if b e) Q.
Proof. intros HQ p Hp. destruct b; cbn; [lia|]. split; [lia|auto]. Qed.

Lemma consumes_u8 : consumes 1 (read_u8 bytes) byte.
Proof.
  intros p Hp. unfold read_u8, M_bind, gets, modify, M_ret. cbn [id].
  destruct (bytes !! Z.to_nat p) as [b|] eqn:Hb; cbn [ok_or throw M_ret]; [|lia].
  pose proof (lookup_lt_Some _ _ _ Hb). unfold WasmParse.len in *. split; [lia|]. by eapply Forall_lookup_1.
Qed.

Lemma uleb_loop_consumes k r s :
  s = 70 - 7 * Z.of_nat k -> 0 <= s < 64 -> in_width 64 r -> consumes 1 (uleb_loop bytes k r s) (in_width 64).
Proof.
  revert r s. induction k as [|k IH]; intros r s Hs Hs0 Hr; [lia|]. cbn [uleb_loop].
  eapply (consumes_seq 1); [lia|apply consumes_u8|]. intros b Hb. cbv beta zeta.
  assert (in_width 64 (r .| u64 (Z.shiftl (b .& 0x7F) s))) as Hr'.
  { apply lor_width; [lia|done|by apply wrap_range]. }
  destruct ((b .& 0x80) =? 0); [by apply consumes_ret|].
  destruct (Z.leb_spec 64 (s + 7)); [apply consumes_throw|].
  eapply consumes_weaken; [apply IH; [lia|lia|done]|lia|done].
Qed.

Lemma uleb_consumes : consumes 1 (read_uleb128 bytes) (in_width 64).
Proof. apply uleb_loop_consumes; [done|lia|]. unfold in_width. lia. Qed.

Lemma sleb_loop_consumes k r s :
  s = 70 - 7 * Z.of_nat k -> 0 <= s < 64 -> - 2 ^ 63 <= r < 2 ^ 63 ->
  consumes 1 (sleb_loop bytes k r s) (fun '(res, sh, last) => - 2 ^ 63 <= res < 2 ^ 63 /\ 0 <= sh).
Proof.
  revert r s. induction k as [|k IH]; intros r s Hs Hs0 Hr; [lia|]. cbn [sleb_loop].
  eapply (consumes_seq 1); [lia|apply consumes_u8|]. intros b Hb. cbv beta zeta.
  pose proof (lor_i64 r (Z.shiftl (b .& 0x7F) s) Hr) as Hr'.
  destruct ((b .& 0x80) =? 0); [apply consumes_ret; split; [done|lia]|].
  destruct (Z.leb_spec 64 (s + 7)); [apply consumes_throw|].
  eapply consumes_weaken; [apply IH; [lia|lia|done]|lia|done].
Qed.

Lemma sleb_consumes : consumes 1 (read_sleb128 bytes) (fun v => - 2 ^ 63 <= v < 2 ^ 63).
Proof.
  eapply (consumes_seq 1); [lia|apply sleb_loop_consumes; [done|lia|lia]|].
  intros [[res sh] last] [Hr Hsh]. apply consumes_ret. destruct (_ && _); [|done]. by apply lor_i64.
Qed.

Lemma u32_index_consumes : consumes 1 (read_u32_index bytes) (in_width 32).
Proof.
  eapply (consumes_seq 1); [lia|apply uleb_consumes|]. intros idx [Hi _].
  eapply consumes_seq; [lia|apply (consumes_fail_if _ _ (fun _ => True)); done|]. intros _ _.
  apply consumes_ret. by apply wrap_range.
Qed.

Lemma memarg_consumes : consumes 1 (read_memarg bytes) (in_width 32).
Proof.
  eapply (consumes_seq 1); [lia|apply uleb_consumes|]. intros _ _.
  eapply consumes_weaken; [apply u32_index_consumes|lia|done].
Qed.

Lemma raw_consumes n : consumes (Z.of_nat n) (read_raw bytes n) (in_width (8 * Z.of_nat n)).
Proof.
  intros p Hp. unfold read_raw, M_bind, gets, fail_if, modify, M_ret. cbn [id].
  destruct (Z.ltb_spec (WasmParse.len bytes) (p + Z.of_nat n)); cbn [throw]; [lia|]. split; [lia|].
  unfold in_width. assert (length (take n (drop (Z.to_nat p) bytes)) = n) as Hl.
  { rewrite length_take, length_drop. unfold WasmParse.len in *. lia. }
  pose proof (from_le_bytes_range (take n (drop (Z.to_nat p) bytes)) ltac:(by apply Forall_take, Forall_drop)) as Hr.
  by rewrite Hl in Hr.
Qed.

Lemma lane_consumes : consumes 1 (read_lane bytes) byte.
Proof.
  intros p Hp. unfold read_lane, M_bind, gets, fail_if, modify, M_ret. cbn [id].
  destruct (Z.leb_spec (WasmParse.len bytes) p); cbn [throw]; [lia|].
  destruct (lookup_lt_is_Some_2 bytes (Z.to_nat p)) as [b Hb]; [unfold WasmParse.len in *; lia|].
  rewrite Hb. split; [lia|]. by eapply Forall_lookup_1.
Qed.

(** ** Operations *)

(** What the tables hold: an operation with its operand range. *)
Definition arm_ok (a : Arm) : Prop :=
  match a with
  | ABlock op => wf_op op /\ nest op = NOpen
  | AOp op => wf_op op /\ nest op = NFlat
  | AIndex mk | AMem mk => forall n, in_width 32 n -> wf_op (mk n) /\ nest (mk n) = NFlat
  | _ => True
  end.

Definition simd_ok (a : SimdArm) : Prop :=
  match a with
  | SOp op => wf_op op /\ nest op = NFlat
  | SMem mk => forall n, in_width 32 n -> wf_op (mk n) /\ nest (mk n) = NFlat
  | SLane mk => forall n, byte n -> wf_op (mk n) /\ nest (mk n) = NFlat
  | SLaneMax max mk => forall n, 0 <= n <= max -> wf_op (mk n) /\ nest (mk n) = NFlat
  | SConst16 => True
  end.

Lemma arm_of_Forall {A} (P : A -> Prop) table code a :
  Forall (fun '(_, x) => P x) table -> arm_of table code = Some a -> P a.
Proof.
  intros H. unfold arm_of. destruct (List.find _ table) as [[k x]|] eqn:Hf; [|done].
  intros [= <-]. apply List.find_some in Hf as [Hf _]. rewrite List.Forall_forall in H. apply (H _ Hf).
Qed.

Lemma arms_ok : Forall (fun '(_, a) => arm_ok a) arms.
Proof. repeat (apply List.Forall_cons; [cbn; tauto|]); apply List.Forall_nil. Qed.

Lemma simd_arms_ok : Forall (fun '(_, a) => simd_ok a) simd_arms.
Proof. repeat (apply List.Forall_cons; [cbn; tauto|]); apply List.Forall_nil. Qed.

Lemma misc_arms_ok : Forall (fun '(_, op) => wf_op op /\ nest op = NFlat) misc_arms.
Proof. by repeat constructor. Qed.

Definition flat_op (op : WasmOp) : Prop := wf_op op /\ nest op = NFlat.

Lemma misc_consumes : consumes 1 (parse_misc bytes) flat_op.
Proof.
  eapply (consumes_seq 1); [lia|apply uleb_consumes|]. intros sub _.
  destruct (arm_of misc_arms sub) as [op|] eqn:Ha; cbn [ok_or]; [|apply consumes_throw].
  apply consumes_ret. by apply (arm_of_Forall _ _ _ _ misc_arms_ok Ha).
Qed.

Lemma simd_consumes : consumes 1 (parse_simd bytes) flat_op.
Proof.
  eapply (consumes_seq 1); [lia|apply uleb_consumes|]. intros sub _.
  destruct (arm_of simd_arms sub) as [a|] eqn:Ha; [|apply consumes_throw].
  pose proof (arm_of_Forall _ _ _ _ simd_arms_ok Ha) as Hok. destruct a as [op|mk| |mk|max mk]; cbn [simd_ok] in Hok.
  - by apply consumes_ret.
  - eapply consumes_weaken; [eapply (consumes_seq 1); [lia|apply memarg_consumes|]|lia|done].
    intros n Hn. apply consumes_ret. by apply Hok.
  - eapply consumes_weaken; [eapply consumes_seq; [|apply (raw_consumes 16)|]|lia|done]; [lia|].
    intros n Hn. by apply consumes_ret.
  - eapply consumes_weaken; [eapply (consumes_seq 1); [lia|apply lane_consumes|]|lia|done].
    intros n Hn. apply consumes_ret. by apply Hok.
  - eapply consumes_weaken; [eapply (consumes_seq 1); [lia|apply lane_consumes|]|lia|done].
    intros n Hn. eapply consumes_seq; [lia|apply (consumes_fail_if _ _ (fun _ => n <= max))|].
    + intros H. bool_prop. done.
    + intros [] Hmax. apply consumes_ret. apply Hok. unfold byte in Hn. lia.
Qed.

(** What an opcode with its operands gives: a well-formed operation and the
    nesting depth it leads to. *)
Definition op_result (d : Z) (r : WasmOp * option Z) : Prop := wf_op r.1 /\ r.2 = next_depth r.1 d.

Lemma flat_result d op : flat_op op -> op_result d (op, Some d).
Proof. intros [H1 H2]. split; [done|]. unfold next_depth. cbn. by rewrite H2. Qed.

Lemma arm_consumes a d : arm_ok a -> consumes 0 (parse_arm bytes a d) (op_result d).
Proof.
  intros Ha.
  assert (forall A n (m : Reader A) (f : A -> WasmOp) (Q : A -> Prop),
    0 <= n -> consumes n m Q -> (forall x, Q x -> flat_op (f x)) ->
    consumes 0 (x <- m ;; M_ret (f x, Some d)) (op_result d)) as Hflat.
  { intros A n m f Q Hn Hm Hf. eapply consumes_weaken; [eapply consumes_seq; [exact Hn|exact Hm|]|done|done].
    intros x Hx. apply consumes_ret, flat_result. auto. }
  destruct a as [op|op|mk|mk| | | | | | | |]; cbn [parse_arm arm_ok] in *.
  - eapply consumes_weaken; [eapply (consumes_seq 1); [lia|apply consumes_u8|]|lia|done].
    intros _ _. apply consumes_ret. destruct Ha as [H1 H2]. split; [done|]. unfold next_depth. cbn. by rewrite H2.
  - by apply consumes_ret, flat_result.
  - eapply Hflat; [|apply u32_index_consumes|]; [lia|]. auto.
  - eapply Hflat; [|apply memarg_consumes|]; [lia|]. auto.
  - eapply consumes_weaken; [eapply (consumes_seq 1); [lia|apply u32_index_consumes|]|lia|done].
    intros n Hn. eapply consumes_weaken; [eapply (consumes_seq 1); [lia|apply uleb_consumes|]|lia|done].
    intros _ _. by apply consumes_ret, flat_result.
  - apply consumes_ret. done.
  - eapply consumes_weaken; [eapply (consumes_seq 1); [lia|apply sleb_consumes|]|lia|done].
    intros v Hv. eapply consumes_seq; [lia|apply (consumes_fail_if _ _ (fun _ => I32_MIN <= v <= I32_MAX))|].
    + intros H. bool_prop. done.
    + intros [] H. by apply consumes_ret, flat_result.
  - eapply Hflat; [|apply sleb_consumes|]; [lia|]. done.
  - eapply Hflat; [|apply (raw_consumes 4)|]; [lia|]. done.
  - eapply Hflat; [|apply (raw_consumes 8)|]; [lia|]. done.
  - eapply (Hflat _ _ _ (fun x => x)); [|apply misc_consumes|]; [lia|]. done.
  - eapply (Hflat _ _ _ (fun x => x)); [|apply simd_consumes|]; [lia|]. done.
Qed.

Lemma op_consumes d : consumes 1 (parse_op bytes d) (op_result d).
Proof.
  eapply (consumes_seq 1); [lia|apply consumes_u8|]. intros oc _.
  destruct (arm_of arms oc) as [a|] eqn:Ha; [|apply consumes_throw].
  apply arm_consumes. by apply (arm_of_Forall _ _ _ _ arms_ok Ha).
Qed.

Lemma parse_loop_total fuel acc d p :
  0 <= p <= len -> len - p < Z.of_nat fuel -> 0 <= d -> d + (len - p) < 2 ^ 32 ->
  match parse_loop bytes fuel acc d p with
  | (p', Ok ops) => p < p' <= len /\ exists tl, ops = acc ++ tl /\ Forall wf_op tl /\ closes (Z.to_nat d) tl = true
  | (p', Err _) => p <= p' <= len
  | (_, Panic) => False
  end.
Proof.
  revert acc d p. induction fuel as [|fuel IH]; intros acc d p Hp Hf Hd Hd32; [lia|].
  cbn [parse_loop]. unfold M_bind. pose proof (op_consumes d p Hp) as Ho.
  destruct (parse_op bytes d p) as [p1 [[op next]|e|]]; [|done|done].
  destruct Ho as [Hp1 [Hwf Hnext]]. cbn [fst snd] in *. subst next. unfold next_depth.
  assert (forall d', 0 <= d' <= d + 1 ->
    (forall tl, closes (Z.to_nat d') tl = true -> closes (Z.to_nat d) (op :: tl) = true) ->
    match parse_loop bytes fuel (acc ++ [op]) d' p1 with
    | (p', Ok ops) => p < p' <= len /\ exists tl, ops = acc ++ tl /\ Forall wf_op tl /\ closes (Z.to_nat d) tl = true
    | (p', Err _) => p <= p' <= len
    | (_, Panic) => False
    end) as Hgo.
  { intros d' Hd' Hcl. specialize (IH (acc ++ [op]) d' p1 ltac:(lia) ltac:(lia) ltac:(lia) ltac:(lia)).
    destruct (parse_loop bytes fuel (acc ++ [op]) d' p1) as [p2 [ops|e|]]; [|lia|done].
    destruct IH as [Hp2 (tl & -> & Hwf' & Hc)]. split; [lia|].
    exists (op :: tl). rewrite <- app_assoc. split_and!; [done|by constructor|by apply Hcl]. }
  destruct (nest op) eqn:Hn.
  - rewrite wrap_small by (unfold in_width; lia). apply Hgo; [lia|].
    intros tl Hc. cbn [closes]. rewrite Hn. by rewrite <- Z2Nat.inj_succ by lia.
  - destruct (Z.eqb_spec d 0) as [->|Hd0].
    + split; [lia|]. exists [op]. split_and!; [done|by constructor|]. cbn. by rewrite Hn.
    + apply Hgo; [lia|]. intros tl Hc. cbn [closes]. rewrite Hn.
      by replace (Z.to_nat d) with (S (Z.to_nat (d - 1))) by lia.
  - apply Hgo; [lia|]. intros tl Hc. cbn [closes]. by rewrite Hn.
Qed.
End total.

(** Parsing terminates on every byte string below 4 GiB, from every position in
    it: [parse_ops] never reads outside the slice and never panics (its loop
    needs at most one round per byte); when it succeeds it has advanced inside
    the slice, every operation it returns is well formed (indices and offsets
    are 32-bit, constants fit their types, lanes are in range), and the
    sequence closes its outermost scope exactly with its last operation. *)
Theorem parse_ops_total (bytes : list Z) (p : Z) :
  Forall byte bytes -> 0 <= p <= len bytes -> len bytes < 2 ^ 32 ->
  match parse_ops bytes p with
  | (p', Ok ops) => p < p' <= len bytes /\ Forall wf_op ops /\ closes 0 ops = true
  | (p', Err _) => p <= p' <= len bytes
  | (_, Panic) => False
  end.
Proof.
  intros Hb Hp Hl. pose proof (parse_loop_total bytes Hb (S (length bytes)) [] 0 p Hp) as H.
  unfold parse_ops. unfold len in *.
  specialize (H ltac:(lia) ltac:(lia) ltac:(lia)).
  destruct (parse_loop bytes (S (length bytes)) [] 0 p) as [p' [ops|e|]]; [|done|done].
  destruct H as [H (tl & -> & Hw & Hc)]. done.
Qed.

Lemma parse_ops_total_witness :
  parse_ops [0x41; 0x2A; 0x0B] 0 = (3, Ok [I32Const 42; End]) /\
  0 < 3 <= len [0x41; 0x2A; 0x0B] /\ Forall wf_op [I32Const 42; End] /\ closes 0 [I32Const 42; End] = true.
Proof.
  assert (Forall byte [0x41; 0x2A; 0x0B]) as Hb by (repeat constructor; by vm_compute).
  assert (0 <= 0 <= len [0x41; 0x2A; 0x0B]) as Hp by (vm_compute; split; discriminate).
  assert (len [0x41; 0x2A; 0x0B] < 2 ^ 32) as Hl by (by vm_compute).
  split; [by vm_compute|exact (parse_ops_total [0x41; 0x2A; 0x0B] 0 Hb Hp Hl)].
Defined.

(** ** Printing and parsing back *)

Section roundtrip.
Context (bytes : list Z).

Lemma parses_index (mk : Z -> WasmOp) (n d : Z) :
  in_width 32 n -> parses bytes (idx <- read_u32_index bytes ;; M_ret (mk idx, Some d)) (uleb128 n) (mk n, Some d).
Proof.
  intros Hn. eapply parses_bind_nil; [|apply parses_ret].
  eapply parses_bind_nil; [apply uleb128_parses; unfold in_width in *; lia|].
  eapply parses_nil_bind; [apply parses_fail_if|].
  - apply Z.ltb_ge. unfold U32_MAX, in_width in *. lia.
  - rewrite wrap_small by done. apply parses_ret.
Qed.

Lemma parses_memarg n : in_width 32 n -> parses bytes (read_memarg bytes) (uleb128 0 ++ uleb128 n) n.
Proof.
  intros Hn. eapply parses_bind; [apply uleb128_parses; unfold in_width; lia|].
  eapply parses_bind_nil; [apply uleb128_parses; unfold in_width in *; lia|].
  eapply parses_nil_bind; [apply parses_fail_if|].
  - apply Z.ltb_ge. unfold U32_MAX, in_width in *. lia.
  - rewrite wrap_small by done. apply parses_ret.
Qed.

Lemma parses_bits k z :
  (0 < k)%nat -> in_width (8 * Z.of_nat k) z -> parses bytes (read_raw bytes k) (le_bytes k z) z.
Proof.
  intros Hk Hz. pose proof (parses_raw bytes k (le_bytes k z) (le_bytes_length k z) Hk) as H.
  by rewrite from_to_le_bytes, Z.mod_small in H.
Qed.

(** Resolve a table entry. *)
Ltac resolve :=
  repeat match goal with
  | |- context [arm_of ?t ?c] => let r := eval vm_compute in (arm_of t c) in change (arm_of t c) with r
  end; cbv beta iota.

Ltac parse_head :=
  match goal with |- parses _ _ (?x :: ?l) _ => change (x :: l) with ([x] ++ l) end;
  eapply parses_bind; [apply parses_u8|]; resolve; cbn [parse_arm].

Ltac parse_sub :=
  eapply parses_bind; [apply uleb128_parses; unfold in_width; lia|]; resolve.

(** What follows an opcode or a sub-opcode. *)
Ltac parse_operand Hwf :=
  lazymatch goal with
  | |- parses _ (M_ret _) _ _ => apply parses_ret
  | |- parses _ (M_bind _ (read_memarg _)) _ _ => eapply parses_bind_nil; [apply parses_memarg; exact Hwf|]
  | |- parses _ (M_bind _ (read_u32_index _)) _ _ => apply parses_index; exact Hwf
  | |- parses _ (M_bind _ (read_raw _ _)) _ _ => eapply parses_bind_nil; [apply parses_bits; [lia|exact Hwf]|]
  | |- parses _ (M_bind _ (read_lane _)) _ _ => eapply parses_bind_nil; [apply parses_lane|]
  | |- parses _ (M_bind _ (read_u8 _)) _ _ => eapply parses_bind_nil; [apply parses_u8|]
  | |- parses _ (M_bind _ (read_sleb128 _)) _ _ =>
      eapply parses_bind_nil; [apply sleb128_parses; unfold I32_MIN, I32_MAX in *; lia|]
  | |- parses _ (M_bind _ (fail_if _ _)) _ _ =>
      eapply parses_nil_bind; [apply parses_fail_if; first [apply Z.ltb_ge; lia | lia]|]
  | |- parses _ (M_bind _ (parse_simd _)) _ _ =>
      eapply parses_bind_nil; [unfold parse_simd; first [parse_sub | rewrite <- (app_nil_r (uleb128 _)); parse_sub]|]
  end.

Lemma parses_op op bs d :
  wf_op op -> op_bytes op = Some bs -> parses bytes (parse_op bytes d) bs (op, next_depth op d).
Proof.
  intros Hwf Hbs.
  destruct op; cbn [op_bytes wf_op] in *; try discriminate Hbs; apply (inj Some) in Hbs; subst bs; unfold parse_op;
    parse_head; unfold next_depth; cbn [nest];
    lazymatch goal with
    | |- parses _ _ _ (CallIndirect _, _) => idtac
    | |- _ => repeat parse_operand Hwf
    end.
  eapply parses_bind; [|eapply parses_bind_nil; [apply uleb128_parses; unfold in_width; lia|apply parses_ret]].
  eapply parses_bind_nil; [apply uleb128_parses; unfold in_width in *; lia|].
  eapply parses_nil_bind; [apply parses_fail_if; apply Z.ltb_ge; unfold U32_MAX, in_width in *; lia|].
  rewrite wrap_small by done. apply parses_ret.
Qed.

Lemma op_bytes_nonempty op bs : op_bytes op = Some bs -> (0 < length bs)%nat.
Proof. destruct op; cbn [op_bytes]; intros H; try discriminate H; apply (inj Some) in H; subst bs; cbn [length]; lia. Qed.

Lemma parses_loop ops bss fuel acc d :
  Forall2 (fun op bs => op_bytes op = Some bs) ops bss -> Forall wf_op ops ->
  closes (Z.to_nat d) ops = true -> 0 <= d -> d + Z.of_nat (length ops) < 2 ^ 32 -> (length ops <= fuel)%nat ->
  parses bytes (parse_loop bytes fuel acc d) (concat bss) (acc ++ ops).
Proof.
  intros HF. revert fuel acc d. induction HF as [|op bs ops bss Hop HF IH]; intros fuel acc d Hwf Hc Hd Hd32 Hf; [done|].
  inversion_clear Hwf. destruct fuel as [|fuel]; [cbn in Hf; lia|]. cbn [parse_loop concat length] in *.
  eapply parses_bind; [by apply parses_op|]. unfold next_depth.
  assert (acc ++ op :: ops = (acc ++ [op]) ++ ops) as -> by (by rewrite <- app_assoc).
  cbn [closes] in Hc. destruct (nest op) eqn:Hn.
  - rewrite wrap_small by (unfold in_width; lia). apply IH; [done| |lia|lia|lia].
    by rewrite <- Z2Nat.inj_succ in Hc by lia.
  - destruct (Z.eqb_spec d 0) as [->|Hd0].
    + destruct ops; [|done]. inversion HF. subst. cbn [concat]. rewrite app_nil_r. apply parses_ret.
    + replace (Z.to_nat d) with (S (Z.to_nat (d - 1))) in Hc by lia. apply IH; done || lia.
  - apply IH; done || lia.
Qed.
End roundtrip.

(** Printing and parsing are inverse: a properly nested sequence of
    well-formed operations, each written with its opcode, its canonical LEB128
    operands and an empty block type, is read back unchanged by
    [parse_function_body]. *)
Theorem parse_print_roundtrip (ops : list WasmOp) (bss : list (list Z)) :
  Forall2 (fun op bs => op_bytes op = Some bs) ops bss -> Forall wf_op ops -> closes 0 ops = true ->
  len (concat bss) < 2 ^ 32 ->
  parse_function_body (concat bss) = Ok ops.
Proof.
  intros HF Hwf Hc Hl.
  assert (length ops <= length (concat bss))%nat as Hle.
  { clear - HF. induction HF as [|op bs ops bss Hop HF IH]; [done|]. cbn [concat length]. rewrite length_app.
    apply op_bytes_nonempty in Hop. lia. }
  pose proof (parses_loop (concat bss) ops bss (S (length (concat bss))) [] 0 HF Hwf Hc ltac:(lia)) as Hp.
  unfold len in *. specialize (Hp ltac:(lia) ltac:(lia) 0 []).
  unfold parse_function_body, parse_ops. rewrite Hp; [|by rewrite app_nil_r].
  rewrite Z.add_0_l. unfold len. by rewrite Z.eqb_refl.
Qed.

Lemma parse_print_roundtrip_witness :
  parse_function_body [0x02; 0x40; 0x0C; 0x00; 0x0B; 0x41; 0x7F; 0x0B] = Ok [Block; Br 0; End; I32Const (-1); End].
Proof.
  refine (parse_print_roundtrip [Block; Br 0; End; I32Const (-1); End]
    [[0x02; 0x40]; [0x0C; 0x00]; [0x0B]; [0x41; 0x7F]; [0x0B]] _ _ _ _).
  - repeat (constructor; [by vm_compute|]). constructor.
  - repeat (constructor; [by vm_compute|]). constructor.
  - by vm_compute.
  - by vm_compute.
Defined.

Lemma parses_at {A} pre bs rest (m : list Z -> M Z ParseError A) a :
  parses (pre ++ bs ++ rest) (m (pre ++ bs ++ rest)) bs a ->
  m (pre ++ bs ++ rest) (Z.of_nat (length pre)) = (Z.of_nat (length pre) + Z.of_nat (length bs), Ok a).
Proof.
  intros H. apply (H _ rest). split; [lia|]. by rewrite Nat2Z.id, drop_app_length.
Qed.

(** LEB128 integers survive encoding wherever they stand in the input:
    every 64-bit unsigned value and every 64-bit signed value is read back
    exactly, and the reader stops behind the last byte of the encoding. *)
Theorem leb128_roundtrip (pre rest : list Z) (n v : Z) :
  in_width 64 n -> - 2 ^ 63 <= v < 2 ^ 63 ->
  read_uleb128 (pre ++ uleb128 n ++ rest) (Z.of_nat (length pre))
    = (Z.of_nat (length pre) + Z.of_nat (length (uleb128 n)), Ok n) /\
  read_sleb128 (pre ++ encode_sleb128 v ++ rest) (Z.of_nat (length pre))
    = (Z.of_nat (length pre) + Z.of_nat (length (encode_sleb128 v)), Ok v).
Proof.
  intros Hn Hv. split.
  - apply (parses_at pre (uleb128 n) rest read_uleb128). by apply uleb128_parses.
  - apply (parses_at pre (encode_sleb128 v) rest read_sleb128). by apply sleb128_parses.
Qed.

Lemma leb128_roundtrip_witness :
  read_uleb128 ([7] ++ uleb128 300 ++ [9]) (Z.of_nat (length [7])) = (1 + Z.of_nat (length (uleb128 300)), Ok 300) /\
  read_sleb128 ([7] ++ encode_sleb128 (-42) ++ [9]) (Z.of_nat (length [7]))
    = (1 + Z.of_nat (length (encode_sleb128 (-42))), Ok (-42)).
Proof.
  exact (leb128_roundtrip [7] [9] 300 (-42) ltac:(unfold in_width; lia) ltac:(lia)).
Defined.

(** A tenth byte beyond bit 63 is not refused: its high bits are dropped, and
    an encoding of 2^64 reads as 0. *)
Lemma uleb128_drops_high_bits :
  read_uleb128 [0x80; 0x80; 0x80; 0x80; 0x80; 0x80; 0x80; 0x80; 0x80; 0x02] 0 = (10, Ok 0).
Proof. by vm_compute. Qed.
