(* ===== verification/WasmModule.v ===== *)
(** The module parser (src/tools/a64-encoder/src/wasm_module.rs).

    A section parser runs over the section's slice with the position and the
    vector built so far as its state.  Where the source indexes, slices or
    reserves capacity with a number read from the input, the model keeps the
    panic that an overflowing or inverted range causes. *)

From S2P Require Import Prelude Bytes A64 WasmTypes WasmParse.

Open Scope kernel_scope.
Open Scope word_scope.

Record FunctionBody := mkFunctionBody {
  num_locals : Z;
  local_types : list Z;
  ops : list WasmOp
}.

Record FuncSig := mkFuncSig { sig_params : list Z; sig_results : list Z }.

Record GlobalDef := mkGlobalDef { valtype : Z; mutable : bool; init_bytes : list Z }.

Record Export := mkExport { export_name : list Z; export_kind : Z; export_index : Z }.

Record DataSegment := mkDataSegment { data_offset : Z; data_bytes : list Z }.

Record Module_ := mkModule {
  types : list FuncSig;
  func_types : list Z;
  globals : list GlobalDef;
  exports : list Export;
  data : list DataSegment;
  bodies : list FunctionBody
}.

(** ** Loops and standard-library operations *)

(** [for _ in 0..n { body }]: the first error or panic ends the loop. *)
Fixpoint for_pos {S E} (n : positive) (body : M S E unit) : M S E unit :=
  match n with
  | xH => body
  | xO n => for_pos n body ;;; for_pos n body
  | xI n => body ;;; for_pos n body ;;; for_pos n body
  end.

Definition for_range {S E} (n : Z) (body : M S E unit) : M S E unit :=
  match n with Zpos n => for_pos n body | _ => M_ret tt end.

(** [Vec::with_capacity(count)] panics when the bytes asked for exceed
    [isize::MAX]; an allocation below that is taken to succeed. *)
Definition with_capacity {S E} (elem_size count : Z) : M S E unit :=
  if 2 ^ 63 - 1 <? count * elem_size then panic else M_ret tt.

(** [&bytes\[lo..hi\]] *)
Definition slice (bytes : list Z) (lo hi : Z) : list Z := take (Z.to_nat (hi - lo)) (drop (Z.to_nat lo) bytes).

(** ** Section state *)

Abbreviation Sect A := (M (Z * list A) ParseError).

Definition at_pos {A B} (m : M Z ParseError B) : Sect A B :=
  fun '(p, out) => match m p with (p', r) => ((p', out), r) end.

Definition push {A} (a : A) : Sect A unit := modify (fun '(p, out) => (p, out ++ [a])).

(** Run a section parser from position 0 and return the vector. *)
Definition run_section {A} (m : Sect A unit) : outcome ParseError (list A) :=
  match m (0, []) with
  | ((_, out), Ok _) => Ok out
  | (_, Err e) => Err e
  | (_, Panic) => Panic
  end.

Section sections.
Context (bytes : list Z).

Abbreviation Reader := (M Z ParseError).
Abbreviation len := (len bytes).

(** [*pos + n > bytes.len()] then [bytes\[*pos..*pos + n\].to_vec()]; the sum is a
    [usize]. *)
Definition take_bytes (n : Z) : Reader (list Z) :=
  p <- gets id ;;
  fail_if (len <? u64 (p + n)) UnexpectedEof ;;;
  if u64 (p + n) <? p then panic else
  modify (fun _ => u64 (p + n)) ;;;
  M_ret (slice bytes p (u64 (p + n))).

Definition read_valtype_vec : Reader (list Z) :=
  n <- read_uleb128 bytes ;; take_bytes n.

(** [if pos >= bytes.len() { return Err(UnexpectedEof) } bytes\[pos\]] *)
Definition peek_byte : Reader Z :=
  p <- gets id ;; ok_or (bytes !! Z.to_nat p) UnexpectedEof.

Definition parse_type_entry : Sect FuncSig unit :=
  at_pos (tag <- peek_byte ;;
          fail_if (negb (tag =? 0x60)) (UnknownOpcode tag) ;;;
          modify (Z.add 1)) ;;;
  params <- at_pos read_valtype_vec ;;
  results <- at_pos read_valtype_vec ;;
  push (mkFuncSig params results).

Definition parse_type_section : outcome ParseError (list FuncSig) :=
  run_section (
    count <- at_pos (read_uleb128 bytes) ;;
    with_capacity 48 count ;;;
    for_range count parse_type_entry).

Definition parse_function_entry : Sect Z unit :=
  ty <- at_pos (read_uleb128 bytes) ;;
  fail_if (U32_MAX <? ty) IntegerTooLarge ;;;
  push (u32 ty).

Definition parse_function_section : outcome ParseError (list Z) :=
  run_section (
    count <- at_pos (read_uleb128 bytes) ;;
    with_capacity 4 count ;;;
    for_range count parse_function_entry).

(** The closing [end] of an initialiser. *)
Definition expect_end : Reader unit :=
  p <- gets id ;;
  match bytes !! Z.to_nat p with
  | None => throw (UnknownOpcode 0)
  | Some b => fail_if (negb (b =? 0x0B)) (UnknownOpcode b) ;;; modify (Z.add 1)
  end.

Definition read_const_init_expr (expected_valtype : Z) : Reader (list Z) :=
  opcode <- peek_byte ;;
  modify (Z.add 1) ;;;
  out <- (if (opcode =? 0x41) && (expected_valtype =? 0x7F) then
            v <- read_sleb128 bytes ;;
            fail_if (negb ((I32_MIN <=? v) && (v <=? I32_MAX))) ConstantOutOfRange ;;;
            M_ret (le_bytes 4 v ++ [0; 0; 0; 0])
          else if (opcode =? 0x42) && (expected_valtype =? 0x7E) then
            v <- read_sleb128 bytes ;; M_ret (le_bytes 8 v)
          else if (opcode =? 0x43) && (expected_valtype =? 0x7D) then
            p <- gets id ;;
            fail_if (len <? p + 4) UnexpectedEof ;;;
            modify (Z.add 4) ;;;
            M_ret (slice bytes p (p + 4) ++ [0; 0; 0; 0])
          else if (opcode =? 0x44) && (expected_valtype =? 0x7C) then
            p <- gets id ;;
            fail_if (len <? p + 8) UnexpectedEof ;;;
            modify (Z.add 8) ;;;
            M_ret (slice bytes p (p + 8))
          else throw (UnknownOpcode opcode)) ;;
  expect_end ;;;
  M_ret out.

Definition parse_global_entry : Sect GlobalDef unit :=
  let* (valtype, mut_byte) :=
    at_pos (p <- gets id ;;
            fail_if (len <? p + 2) UnexpectedEof ;;;
            match bytes !! Z.to_nat p, bytes !! Z.to_nat (p + 1) with
            | Some v, Some m => modify (Z.add 2) ;;; M_ret (v, m)
            | _, _ => panic
            end) in
  init <- at_pos (read_const_init_expr valtype) ;;
  push (mkGlobalDef valtype (mut_byte =? 0x01) init).

Definition parse_global_section : outcome ParseError (list GlobalDef) :=
  run_section (
    count <- at_pos (read_uleb128 bytes) ;;
    with_capacity 10 count ;;;
    for_range count parse_global_entry).

Definition parse_export_entry : Sect Export unit :=
  name_len <- at_pos (read_uleb128 bytes) ;;
  name <- at_pos (take_bytes name_len) ;;
  fail_if (negb (utf8_valid name)) InvalidUtf8 ;;;
  kind <- at_pos (b <- peek_byte ;; modify (Z.add 1) ;;; M_ret b) ;;
  index <- at_pos (read_uleb128 bytes) ;;
  fail_if (U32_MAX <? index) IntegerTooLarge ;;;
  push (mkExport name kind (u32 index)).

Definition parse_export_section : outcome ParseError (list Export) :=
  run_section (
    count <- at_pos (read_uleb128 bytes) ;;
    with_capacity 32 count ;;;
    for_range count parse_export_entry).

Definition parse_data_entry : Sect DataSegment unit :=
  flags <- at_pos (read_uleb128 bytes) ;;
  fail_if (negb (flags =? 0)) (UnknownOpcode (Z.min flags 0xFF)) ;;;
  init <- at_pos (read_const_init_expr 0x7F) ;;
  seg_len <- at_pos (read_uleb128 bytes) ;;
  seg_bytes <- at_pos (take_bytes seg_len) ;;
  push (mkDataSegment (from_le_bytes (take 4 init)) seg_bytes).

Definition parse_data_section : outcome ParseError (list DataSegment) :=
  run_section (
    count <- at_pos (read_uleb128 bytes) ;;
    with_capacity 32 count ;;;
    for_range count parse_data_entry).

(** One group of locals; the state holds the types so far and their count. *)
Definition parse_local_group : M (Z * (Z * list Z)) ParseError unit :=
  fun '(p, (total, tys)) =>
    match (n <- read_uleb128 bytes ;;
           fail_if (U32_MAX <? n) IntegerTooLarge ;;;
           valtype <- peek_byte ;;
           modify (Z.add 1) ;;;
           M_ret (n, valtype)) p with
    | (p', Ok (n, valtype)) =>
        ((p', (saturating_add 32 total (u32 n), tys ++ replicate (Z.to_nat n) valtype)), Ok tt)
    | (p', Err e) => ((p', (total, tys)), Err e)
    | (p', Panic) => ((p', (total, tys)), Panic)
    end.

Definition parse_code_entry : outcome ParseError FunctionBody :=
  match read_uleb128 bytes 0 with
  | (p, Ok group_count) =>
      match for_range group_count parse_local_group (p, (0, [])) with
      | ((p, (total, tys)), Ok _) =>
          match parse_ops bytes p with
          | (_, Ok ops) => Ok (mkFunctionBody total tys ops)
          | (_, Err e) => Err e
          | (_, Panic) => Panic
          end
      | (_, Err e) => Err e
      | (_, Panic) => Panic
      end
  | (_, Err e) => Err e
  | (_, Panic) => Panic
  end.
End sections.

Definition of_outcome {S E A} (r : outcome E A) : M S E A := fun s => (s, r).

Section code.
Context (bytes : list Z).

(** The body of an entry is parsed in its own slice. *)
Definition parse_code_item : Sect FunctionBody unit :=
  entry_size <- at_pos (read_uleb128 bytes) ;;
  p <- at_pos (gets id) ;;
  entry_end <- ok_or (checked_add 64 p entry_size) UnexpectedEof ;;
  fail_if (len bytes <? entry_end) UnexpectedEof ;;;
  body <- of_outcome (parse_code_entry (slice bytes p entry_end)) ;;
  push body ;;;
  at_pos (modify (fun _ => entry_end)).

Definition parse_code_section : outcome ParseError (list FunctionBody) :=
  run_section (
    count <- at_pos (read_uleb128 bytes) ;;
    with_capacity 56 count ;;;
    for_range count parse_code_item).
End code.

(** ** The module *)

Definition empty_module : Module_ := mkModule [] [] [] [] [] [].

Definition outcome_map {E A B} (f : A -> B) (r : outcome E A) : outcome E B :=
  match r with Ok a => Ok (f a) | Err e => Err e | Panic => Panic end.

(** The [match section_id] of the loop: a later section of the same kind
    replaces an earlier one. *)
Definition parse_section (id : Z) (sec : list Z) (m : Module_) : outcome ParseError Module_ :=
  let '(mkModule tys fts gs es ds bs) := m in
  if id =? 1 then outcome_map (fun x => mkModule x fts gs es ds bs) (parse_type_section sec)
  else if id =? 2 then
    match read_uleb128 sec 0 with
    | (_, Ok n) => if 0 <? n then Err ImportsUnsupported else Ok m
    | (_, Err e) => Err e
    | (_, Panic) => Panic
    end
  else if id =? 3 then outcome_map (fun x => mkModule tys x gs es ds bs) (parse_function_section sec)
  else if id =? 6 then outcome_map (fun x => mkModule tys fts x es ds bs) (parse_global_section sec)
  else if id =? 7 then outcome_map (fun x => mkModule tys fts gs x ds bs) (parse_export_section sec)
  else if id =? 10 then outcome_map (fun x => mkModule tys fts gs es ds x) (parse_code_section sec)
  else if id =? 11 then outcome_map (fun x => mkModule tys fts gs es x bs) (parse_data_section sec)
  else Ok m.

(** The section loop; a section takes at least two bytes. *)
Fixpoint section_loop (fuel : nat) (bytes : list Z) (p : Z) (m : Module_) : outcome ParseError Module_ :=
  match fuel with
  | O => Panic
  | S fuel =>
      if len bytes <=? p then Ok m else
      match bytes !! Z.to_nat p with
      | None => Panic
      | Some section_id =>
          match read_uleb128 bytes (p + 1) with
          | (p, Ok size) =>
              match checked_add 64 p size with
              | None => Err UnexpectedEof
              | Some end_ =>
                  if len bytes <? end_ then Err UnexpectedEof else
                  match parse_section section_id (slice bytes p end_) m with
                  | Ok m => section_loop fuel bytes end_ m
                  | Err e => Err e
                  | Panic => Panic
                  end
              end
          | (_, Err e) => Err e
          | (_, Panic) => Panic
          end
      end
  end.

Definition MAGIC : list Z := [0x00; 0x61; 0x73; 0x6D].
Definition VERSION : list Z := [0x01; 0x00; 0x00; 0x00].

Definition byte_at (bytes : list Z) (i : nat) : Z := default 0 (bytes !! i).

Definition parse_module_full (bytes : list Z) : outcome ParseError Module_ :=
  if len bytes <? 8 then Err UnexpectedEof
  else if negb (bool_decide (take 4 bytes = MAGIC)) then Err (UnknownOpcode (byte_at bytes 0))
  else if negb (bool_decide (take 4 (drop 4 bytes) = VERSION)) then Err (UnknownOpcode (byte_at bytes 4))
  else
    match section_loop (S (length bytes)) bytes 8 empty_module with
    | Ok m => match bodies m with [] => Err UnexpectedEof | _ => Ok m end
    | Err e => Err e
    | Panic => Panic
    end.

Definition parse_module (bytes : list Z) : outcome ParseError (list FunctionBody) :=
  outcome_map bodies (parse_module_full bytes).
