(* ===== verification/WasmModuleThm.v ===== *)
(** The module parser: printed modules are read back unchanged, the section
    loop needs no more rounds than bytes, and how a malformed count panics. *)

From S2P Require Import Prelude Bytes A64 WasmTypes WasmParse WasmParseThm WasmModule.

Open Scope kernel_scope.
Open Scope word_scope.

(** ** Printing *)

Definition print_vec {A} (print : A -> list Z) (l : list A) : list Z :=
  uleb128 (Z.of_nat (length l)) ++ concat (print <$> l).

Definition print_bytes (l : list Z) : list Z := uleb128 (Z.of_nat (length l)) ++ l.

Definition print_sig (s : FuncSig) : list Z := 0x60 :: print_bytes (sig_params s) ++ print_bytes (sig_results s).

(** An initialiser of the global's type. *)
Definition print_init (ty : Z) (init : list Z) : list Z :=
  (if ty =? 0x7F then 0x41 :: encode_sleb128 (i32 (from_le_bytes (take 4 init)))
   else if ty =? 0x7E then 0x42 :: encode_sleb128 (i64 (from_le_bytes init))
   else if ty =? 0x7D then 0x43 :: take 4 init
   else 0x44 :: init) ++ [0x0B].

Definition print_global (g : GlobalDef) : list Z :=
  [valtype g; if mutable g then 1 else 0] ++ print_init (valtype g) (init_bytes g).

Definition print_export (e : Export) : list Z :=
  print_bytes (export_name e) ++ [export_kind e] ++ uleb128 (export_index e).

Definition print_data (d : DataSegment) : list Z :=
  uleb128 0 ++ print_init 0x7F (le_bytes 4 (data_offset d) ++ [0; 0; 0; 0]) ++ print_bytes (data_bytes d).

(** Every local is a group of its own. *)
Definition print_locals (tys : list Z) : list Z := print_vec (fun ty => uleb128 1 ++ [ty]) tys.

Definition print_body (b : FunctionBody) : list Z :=
  print_locals (local_types b) ++ concat (default [] ∘ op_bytes <$> ops b).

Definition print_code (b : FunctionBody) : list Z := print_bytes (print_body b).

Definition print_section (id : Z) (sec : list Z) : list Z := id :: print_bytes sec.

Definition print_module (m : Module_) : list Z :=
  MAGIC ++ VERSION ++
  print_section 1 (print_vec print_sig (types m)) ++
  print_section 3 (print_vec uleb128 (func_types m)) ++
  print_section 6 (print_vec print_global (globals m)) ++
  print_section 7 (print_vec print_export (exports m)) ++
  print_section 10 (print_vec print_code (bodies m)) ++
  print_section 11 (print_vec print_data (data m)).

(** ** Modules that can be printed *)

Definition wf_global (g : GlobalDef) : Prop :=
  valtype g ∈ [0x7F; 0x7E; 0x7D; 0x7C] /\ length (init_bytes g) = 8%nat /\ Forall byte (init_bytes g) /\
  (valtype g ∈ [0x7F; 0x7D] -> drop 4 (init_bytes g) = [0; 0; 0; 0]).

Definition wf_export (e : Export) : Prop := utf8_valid (export_name e) = true /\ in_width 32 (export_index e).

Definition wf_data (d : DataSegment) : Prop := in_width 32 (data_offset d).

Definition wf_body (b : FunctionBody) : Prop :=
  num_locals b = Z.of_nat (length (local_types b)) /\
  Forall wf_op (ops b) /\ Forall (fun op => is_Some (op_bytes op)) (ops b) /\ closes 0 (ops b) = true.

Definition wf_module (m : Module_) : Prop :=
  Forall (in_width 32) (func_types m) /\ Forall wf_global (globals m) /\ Forall wf_export (exports m) /\
  Forall wf_data (data m) /\ Forall wf_body (bodies m) /\ bodies m <> [] /\ len (print_module m) < 2 ^ 32.

(** ** Loops *)

Fixpoint for_nat {S E} (n : nat) (body : M S E unit) : M S E unit :=
  match n with O => M_ret tt | S n => body ;;; for_nat n body end.

Lemma for_nat_add {S E} a b (body : M S E unit) s :
  for_nat (a + b) body s = (for_nat a body ;;; for_nat b body) s.
Proof.
  revert s. induction a as [|a IH]; intros s; cbn [for_nat Nat.add]; [done|].
  rewrite bind_assoc. by apply bind_ext.
Qed.

(** A counted loop runs its body that many times. *)
Lemma for_pos_nat {S E} n (body : M S E unit) s : for_pos n body s = for_nat (Pos.to_nat n) body s.
Proof.
  revert s. induction n as [n IH|n IH|]; intros s; cbn [for_pos].
  - rewrite Pos2Nat.inj_xI. replace (Datatypes.S (2 * Pos.to_nat n)) with (Datatypes.S (Pos.to_nat n + Pos.to_nat n)) by lia.
    cbn [for_nat]. apply bind_ext; [done|]. intros _ s'. rewrite for_nat_add. by apply bind_ext.
  - rewrite Pos2Nat.inj_xO. replace (2 * Pos.to_nat n)%nat with (Pos.to_nat n + Pos.to_nat n)%nat by lia.
    rewrite for_nat_add. by apply bind_ext.
  - change (Pos.to_nat 1) with 1%nat. cbn [for_nat]. unfold M_bind. by destruct (body s) as [s' [[]|e|]].
Qed.

Lemma for_range_nat {S E} n (body : M S E unit) s : for_range (Z.of_nat n) body s = for_nat n body s.
Proof.
  destruct n as [|n]; [done|]. change (Z.of_nat (Datatypes.S n)) with (Z.pos (Pos.of_succ_nat n)).
  cbn [for_range]. by rewrite for_pos_nat, SuccNat2Pos.id_succ.
Qed.

(** ** Readers of the sections *)

Section readers.
Context (bytes : list Z) (Hlen : len bytes < 2 ^ 32).

Lemma stands_bound p bs rest : stands bytes p (bs ++ rest) -> 0 <= p /\ (bs <> [] -> p + Z.of_nat (length bs) <= len bytes).
Proof.
  intros [Hp H]. split; [done|]. intros Hbs. apply (f_equal length) in H. rewrite length_drop, length_app in H.
  unfold len. destruct bs; [done|]. cbn [length] in *. lia.
Qed.

Lemma stands_slice p bs rest : stands bytes p (bs ++ rest) -> slice bytes p (p + Z.of_nat (length bs)) = bs.
Proof.
  intros [Hp H]. unfold slice. rewrite H. replace (p + Z.of_nat (length bs) - p) with (Z.of_nat (length bs)) by lia.
  by rewrite Nat2Z.id, take_app_length.
Qed.

Lemma stands_pos p l : stands bytes p l -> 0 <= p <= len bytes -> p + Z.of_nat (length l) <= len bytes.
Proof. intros [Hp H] Hpl. apply (f_equal length) in H. rewrite length_drop in H. unfold len in *. lia. Qed.

(** Within the slice; readers keep it. *)
Definition parses_in {A} (m : M Z ParseError A) (bs : list Z) (a : A) : Prop :=
  forall p rest, 0 <= p <= len bytes -> stands bytes p (bs ++ rest) -> m p = (p + Z.of_nat (length bs), Ok a).

Lemma parses_in_of {A} (m : M Z ParseError A) bs a : parses bytes m bs a -> parses_in m bs a.
Proof. intros H p rest _ Hs. by apply (H p rest). Qed.

Lemma parses_in_bind {A B} (m : M Z ParseError A) (k : A -> M Z ParseError B) bs1 bs2 a b :
  parses_in m bs1 a -> parses_in (k a) bs2 b -> parses_in (M_bind k m) (bs1 ++ bs2) b.
Proof.
  intros Hm Hk p rest Hp H. rewrite <- app_assoc in H. unfold M_bind. rewrite (Hm _ _ Hp H).
  pose proof (stands_pos _ _ H Hp) as Hb. rewrite length_app in Hb.
  rewrite (Hk (p + Z.of_nat (length bs1)) rest); [|lia|by apply stands_advance].
  f_equal. rewrite length_app. lia.
Qed.

Lemma parses_take bs : parses_in (take_bytes bytes (Z.of_nat (length bs))) bs bs.
Proof.
  intros p rest Hp H. pose proof (stands_pos _ _ H Hp) as Hb. rewrite length_app in Hb.
  unfold take_bytes, M_bind, gets, fail_if, modify, M_ret. cbn [id].
  rewrite wrap_small by (unfold in_width; lia).
  destruct (Z.ltb_spec (len bytes) (p + Z.of_nat (length bs))); [lia|].
  destruct (Z.ltb_spec (p + Z.of_nat (length bs)) p); [lia|]. by rewrite (stands_slice _ _ _ H).
Qed.

Lemma parses_bytes bs :
  Z.of_nat (length bs) < 2 ^ 32 ->
  parses_in (n <- read_uleb128 bytes ;; take_bytes bytes n) (print_bytes bs) bs.
Proof.
  intros Hl. eapply parses_in_bind; [apply parses_in_of, uleb128_parses; unfold in_width; lia|apply parses_take].
Qed.

Lemma parses_peek b : parses_in (b <- peek_byte bytes ;; modify (Z.add 1) ;;; M_ret b) [b] b.
Proof.
  intros p rest _ H. unfold peek_byte, M_bind, gets, modify, M_ret. cbn [id].
  rewrite (stands_lookup _ _ _ _ H). cbn [ok_or M_ret length]. f_equal. lia.
Qed.

Lemma parses_end : parses_in (expect_end bytes) [0x0B] tt.
Proof.
  intros p rest _ H. unfold expect_end, M_bind, gets, fail_if, modify, M_ret. cbn [id].
  rewrite (stands_lookup _ _ _ _ H). cbn [negb Z.eqb Pos.eqb length]. f_equal. lia.
Qed.

(** ** Entries of a vector *)

Definition entry_parses {A} (m : Sect A unit) (bs : list Z) (x : A) : Prop :=
  forall p rest out, 0 <= p <= len bytes -> stands bytes p (bs ++ rest) ->
    m (p, out) = ((p + Z.of_nat (length bs), out ++ [x]), Ok tt).

Lemma at_pos_bind {A B C} (m : M Z ParseError B) (k : B -> Sect A C) bs a p rest out :
  parses_in m bs a -> 0 <= p <= len bytes -> stands bytes p (bs ++ rest) ->
  M_bind k (at_pos m) (p, out) = k a (p + Z.of_nat (length bs), out).
Proof. intros Hm Hp H. unfold M_bind, at_pos. by rewrite (Hm _ _ Hp H). Qed.

Lemma entries_parse {A} (m : Sect A unit) (print : A -> list Z) l p rest out :
  (forall x, x ∈ l -> entry_parses m (print x) x) -> 0 <= p <= len bytes ->
  stands bytes p (concat (print <$> l) ++ rest) ->
  for_nat (length l) m (p, out) = ((p + Z.of_nat (length (concat (print <$> l))), out ++ l), Ok tt).
Proof.
  intros Hm. revert p out. induction l as [|x l IH]; intros p out Hp H.
  - cbn. unfold M_ret. rewrite app_nil_r. by rewrite Z.add_0_r.
  - cbn [length for_nat fmap list_fmap concat] in *. rewrite <- app_assoc in H. unfold M_bind.
    rewrite (Hm x ltac:(left) p _ out Hp H).
    pose proof (stands_pos _ _ H Hp) as Hb. rewrite length_app in Hb.
    rewrite IH; [|by intros y Hy; apply Hm; right|lia|by apply stands_advance].
    rewrite length_app, <- app_assoc. f_equal. f_equal. lia.
Qed.
End readers.

Lemma concat_length_ge {A} (print : A -> list Z) l :
  (forall x, x ∈ l -> print x <> []) -> (length l <= length (concat (print <$> l)))%nat.
Proof.
  induction l as [|x l IH]; intros H; [done|]. cbn [fmap list_fmap concat length]. rewrite length_app.
  assert (length (print x) <> 0)%nat by (intros E; apply (H x); [left|by apply length_zero_iff_nil]).
  specialize (IH ltac:(intros y Hy; apply H; by right)). lia.
Qed.

Lemma concat_length_elem {A} (print : A -> list Z) l x :
  x ∈ l -> (length (print x) <= length (concat (print <$> l)))%nat.
Proof.
  induction 1 as [x l|x y l _ IH]; cbn [fmap list_fmap concat]; rewrite length_app; lia.
Qed.

(** A section is a vector of entries: reading the count, reserving the space
    and reading the entries gives the vector back. *)
Lemma vec_section {A} (print : A -> list Z) (m : list Z -> Sect A unit) size l :
  (forall bytes x, x ∈ l -> len bytes < 2 ^ 32 -> Z.of_nat (length (print x)) < 2 ^ 32 ->
     entry_parses bytes (m bytes) (print x) x) ->
  0 <= size <= 64 -> len (print_vec print l) < 2 ^ 32 -> (forall x, x ∈ l -> print x <> []) ->
  run_section (
    count <- at_pos (read_uleb128 (print_vec print l)) ;;
    with_capacity size count ;;;
    for_range count (m (print_vec print l))) = Ok l.
Proof.
  intros Hm Hs Hl Hne. pose proof (concat_length_ge print l Hne) as Hcl.
  set (bytes := print_vec print l) in *.
  assert (length bytes = length (uleb128 (Z.of_nat (length l))) + length (concat (print <$> l)))%nat as Hb
    by (subst bytes; unfold print_vec; by rewrite length_app).
  unfold len in Hl. unfold run_section.
  rewrite (at_pos_bind bytes _ _ (uleb128 (Z.of_nat (length l))) (Z.of_nat (length l)) 0 (concat (print <$> l))).
  - unfold with_capacity, M_bind at 1. destruct (Z.ltb_spec (2 ^ 63 - 1) (Z.of_nat (length l) * size)); [nia|].
    cbn [M_ret]. rewrite for_range_nat, (entries_parse bytes _ print _ _ []); [done| | |].
    + intros x Hx. pose proof (concat_length_elem print l x Hx). apply Hm; [done|unfold len; lia|lia].
    + unfold len. lia.
    + rewrite app_nil_r. apply (stands_advance _ 0). split; [done|]. by cbn.
  - apply parses_in_of, uleb128_parses. unfold in_width. lia.
  - unfold len. lia.
  - by split.
Qed.

(** ** The entries *)

Section entries.
Context (bytes : list Z) (Hlen : len bytes < 2 ^ 32).

Lemma entry_intro {A B} (m : M Z ParseError B) (k : B -> Sect A unit) bs1 bs2 b x :
  parses_in bytes m bs1 b ->
  entry_parses bytes (k b) bs2 x -> entry_parses bytes (M_bind k (at_pos m)) (bs1 ++ bs2) x.
Proof.
  intros Hm Hk p rest out Hp H. rewrite <- app_assoc in H.
  rewrite (at_pos_bind bytes m k bs1 b p (bs2 ++ rest) out Hm Hp H).
  pose proof (stands_pos _ _ _ H Hp) as Hb. rewrite length_app in Hb.
  rewrite (Hk (p + Z.of_nat (length bs1)) rest out); [|lia|by apply stands_advance].
  rewrite length_app. f_equal. f_equal. lia.
Qed.

Lemma entry_check {A} (b : bool) e (k : Sect A unit) bs x :
  b = false -> entry_parses bytes k bs x -> entry_parses bytes (fail_if b e ;;; k) bs x.
Proof. intros -> Hk p rest out Hp H. unfold M_bind, fail_if, M_ret. by apply (Hk p rest out). Qed.

Lemma entry_push {A} (x : A) : entry_parses bytes (push x) [] x.
Proof. intros p rest out _ _. unfold push, modify. cbn [length]. by rewrite Z.add_0_r. Qed.

Lemma sig_entry s : Z.of_nat (length (print_sig s)) < 2 ^ 32 -> entry_parses bytes (parse_type_entry bytes) (print_sig s) s.
Proof.
  intros Hl. destruct s as [ps rs]. unfold print_sig, parse_type_entry in *. cbn [sig_params sig_results] in *.
  assert (Z.of_nat (length ps) < 2 ^ 32 /\ Z.of_nat (length rs) < 2 ^ 32) as [Hp Hr].
  { unfold print_bytes in Hl. cbn [length] in Hl. rewrite !length_app in Hl. lia. }
  rewrite <- (app_nil_r (0x60 :: _)). change (0x60 :: ?l) with ([0x60] ++ l). rewrite <- !app_assoc.
  eapply entry_intro; [|eapply entry_intro; [by apply parses_bytes|]; eapply entry_intro; [by apply parses_bytes|apply entry_push]].
  intros p rest _ H. unfold peek_byte, M_bind, gets, fail_if, modify, M_ret. cbn [id].
  rewrite (stands_lookup _ _ _ _ H). cbn [ok_or M_ret length]. f_equal. lia.
Qed.

Lemma function_entry t : in_width 32 t -> entry_parses bytes (parse_function_entry bytes) (uleb128 t) t.
Proof.
  intros Ht. rewrite <- (app_nil_r (uleb128 t)).
  eapply entry_intro; [apply parses_in_of, uleb128_parses; unfold in_width in *; lia|].
  apply entry_check; [apply Z.ltb_ge; unfold U32_MAX, in_width in *; lia|]. rewrite wrap_small by done. apply entry_push.
Qed.

Lemma le_bytes_mod n z : le_bytes n (z mod 2 ^ (8 * Z.of_nat n)) = le_bytes n z.
Proof.
  rewrite <- from_to_le_bytes. rewrite <- (le_bytes_length n z) at 1. apply to_from_le_bytes, le_bytes_byte.
Qed.

Lemma le_bytes_i32 l : length l = 4%nat -> Forall byte l -> le_bytes 4 (i32 (from_le_bytes l)) = l.
Proof.
  intros Hl Hb. rewrite <- (le_bytes_mod 4). unfold i32. change (8 * Z.of_nat 4) with 32.
  rewrite Zminus_mod_idemp_l, Z.add_simpl_r, Z.mod_small.
  - rewrite <- Hl at 1. by apply to_from_le_bytes.
  - pose proof (from_le_bytes_range l Hb) as H. by rewrite Hl in H.
Qed.

Lemma le_bytes_i64 l : length l = 8%nat -> Forall byte l -> le_bytes 8 (i64 (from_le_bytes l)) = l.
Proof.
  intros Hl Hb. rewrite <- (le_bytes_mod 8). unfold i64. change (8 * Z.of_nat 8) with 64.
  rewrite Zminus_mod_idemp_l, Z.add_simpl_r, Z.mod_small.
  - rewrite <- Hl at 1. by apply to_from_le_bytes.
  - pose proof (from_le_bytes_range l Hb) as H. by rewrite Hl in H.
Qed.

(** The raw bytes of a float initialiser. *)
Lemma parses_raw_slice n bs :
  length bs = n ->
  parses_in bytes (p <- gets id ;; fail_if (len bytes <? p + Z.of_nat n) UnexpectedEof ;;;
                   modify (Z.add (Z.of_nat n)) ;;; M_ret (slice bytes p (p + Z.of_nat n))) bs bs.
Proof.
  intros <- p rest Hp H. pose proof (stands_pos _ _ _ H Hp) as Hb. rewrite length_app in Hb.
  unfold M_bind, gets, fail_if, modify, M_ret. cbn [id].
  destruct (Z.ltb_spec (len bytes) (p + Z.of_nat (length bs))); [lia|].
  rewrite (stands_slice _ _ _ _ H). f_equal. lia.
Qed.

Lemma parses_in_head {A} (k : Z -> M Z ParseError A) b bs a :
  parses_in bytes (k b) bs a ->
  parses_in bytes (opcode <- peek_byte bytes ;; modify (Z.add 1) ;;; k opcode) (b :: bs) a.
Proof.
  intros Hk p rest Hp H. pose proof (stands_pos _ _ _ H Hp) as Hb. cbn [app length] in Hb.
  unfold peek_byte, M_bind, gets, modify. cbn [id]. rewrite (stands_lookup _ _ _ _ H). cbn [ok_or M_ret]. change (b :: bs) with ([b] ++ bs) in H. rewrite <- app_assoc in H.
  pose proof (stands_advance _ _ _ _ H) as Hs. cbn [length] in *. change (Z.of_nat 1) with 1 in Hs.
  rewrite Z.add_comm in Hs. rewrite (Hk (1 + p) rest ltac:(lia) Hs). f_equal. lia.
Qed.

Lemma parses_in_map {A B} (m : M Z ParseError A) (f : A -> B) bs a :
  parses_in bytes m bs a -> parses_in bytes (x <- m ;; M_ret (f x)) bs (f a).
Proof. intros H p rest Hp Hs. unfold M_bind. by rewrite (H p rest Hp Hs). Qed.

Lemma parses_in_check {A} (b : bool) e (m : M Z ParseError A) bs a :
  b = false -> parses_in bytes m bs a -> parses_in bytes (fail_if b e ;;; m) bs a.
Proof. intros -> H p rest Hp Hs. unfold M_bind, fail_if, M_ret. by apply (H p rest). Qed.

Lemma parses_in_ret {A} (a : A) : parses_in bytes (M_ret a) [] a.
Proof. apply parses_in_of, parses_ret. Qed.

Lemma i32_range z : I32_MIN <= i32 z <= I32_MAX.
Proof. unfold i32, I32_MIN, I32_MAX. pose proof (Z.mod_pos_bound (z + 2 ^ 31) (2 ^ 32) ltac:(lia)). lia. Qed.

Lemma i64_range z : - 2 ^ 63 <= i64 z < 2 ^ 63.
Proof. unfold i64. pose proof (Z.mod_pos_bound (z + 2 ^ 63) (2 ^ 64) ltac:(lia)). lia. Qed.

Lemma init_parses ty init :
  ty ∈ [0x7F; 0x7E; 0x7D; 0x7C] -> length init = 8%nat -> Forall byte init ->
  (ty ∈ [0x7F; 0x7D] -> drop 4 init = [0; 0; 0; 0]) ->
  parses_in bytes (read_const_init_expr bytes ty) (print_init ty init) init.
Proof.
  intros Hty Hl Hb Hz. unfold print_init, read_const_init_expr.
  assert (forall (oc : Z) (m : Z -> M Z ParseError (list Z)) bs,
    parses_in bytes (m oc) bs init ->
    parses_in bytes (opcode <- peek_byte bytes ;; modify (Z.add 1) ;;;
      out <- m opcode ;; expect_end bytes ;;; M_ret out) ((oc :: bs) ++ [0x0B]) init) as Hgo.
  { intros oc m bs Hm. cbn [app]. apply (parses_in_head (fun opcode => out <- m opcode ;; expect_end bytes ;;; M_ret out)).
    eapply parses_in_bind; [exact Hm|]. rewrite <- (app_nil_r [0x0B]).
    eapply parses_in_bind; [apply parses_end|apply parses_in_ret]. }
  assert (length (take 4 init) = 4%nat) as Hl4 by (rewrite length_take; lia).
  assert (Forall byte (take 4 init)) as Hb4 by (by apply Forall_take).
  assert (ty ∈ [0x7F; 0x7D] -> take 4 init ++ [0; 0; 0; 0] = init) as Hpad
    by (intros Hin; rewrite <- (Hz Hin); apply take_drop).
  rewrite !elem_of_cons, elem_of_nil in Hty. destruct Hty as [->|[->|[->|[->|[]]]]]; apply Hgo; cbn [Z.eqb Pos.eqb andb].
  - rewrite <- (app_nil_r (encode_sleb128 _)). eapply parses_in_bind.
    + apply parses_in_of, sleb128_parses. pose proof (i32_range (from_le_bytes (take 4 init))). unfold I32_MIN, I32_MAX in *. lia.
    + apply parses_in_check.
      * pose proof (i32_range (from_le_bytes (take 4 init))). lia.
      * rewrite le_bytes_i32, Hpad by (done || (left)). apply parses_in_ret.
  - rewrite <- (le_bytes_i64 init Hl Hb) at 2. apply (parses_in_map _ (le_bytes 8)), parses_in_of, sleb128_parses, i64_range.
  - rewrite <- Hpad at 2 by (right; left).
    intros p rest Hp H. rewrite <- (parses_in_map _ (fun l => l ++ [0; 0; 0; 0]) _ _ (parses_raw_slice 4 _ Hl4) p rest Hp H).
    change (Z.of_nat 4) with 4. unfold M_bind, gets, fail_if, modify, M_ret, throw. cbn [id]. by destruct (_ <? _).
  - intros p rest Hp H. rewrite <- (parses_raw_slice 8 _ Hl p rest Hp H). done.
Qed.

Lemma global_entry g : wf_global g -> entry_parses bytes (parse_global_entry bytes) (print_global g) g.
Proof.
  intros (Hty & Hl & Hb & Hz). destruct g as [ty mu init]. cbn [valtype mutable init_bytes] in *.
  unfold print_global, parse_global_entry. cbn [valtype mutable init_bytes].
  rewrite <- (app_nil_r (print_init ty init)). eapply (entry_intro _ _ _ _ (ty, if mu then 1 else 0)); [|cbv beta iota; eapply entry_intro; [by apply init_parses|]].
  - intros p rest Hp H. pose proof (stands_pos _ _ _ H Hp) as Hlb. rewrite length_app in Hlb. cbn [length] in Hlb.
    unfold M_bind, gets, fail_if, modify, M_ret. cbn [id]. destruct (Z.ltb_spec (len bytes) (p + 2)); [lia|].
    rewrite (stands_lookup _ _ _ _ H).
    change ([ty; if mu then 1 else 0] ++ rest) with ([ty] ++ (if mu then 1 else 0) :: rest) in H.
    apply stands_advance in H. change (Z.of_nat (length [ty])) with 1 in H. rewrite (stands_lookup _ _ _ _ H).
    cbn [length]. f_equal. lia.
  - assert (((if mu then 1 else 0) =? 1) = mu) as -> by (by destruct mu). apply entry_push.
Qed.

Lemma export_entry e :
  wf_export e -> Z.of_nat (length (print_export e)) < 2 ^ 32 -> entry_parses bytes (parse_export_entry bytes) (print_export e) e.
Proof.
  intros [Hu Hi] Hl. destruct e as [nm kd ix]. unfold print_export, print_bytes in *. cbn [export_name export_kind export_index] in *.
  rewrite !length_app in Hl. rewrite <- (app_nil_r (uleb128 ix)), <- app_assoc.
  eapply entry_intro; [apply parses_in_of, uleb128_parses; unfold in_width; lia|].
  eapply entry_intro; [by apply parses_take|]. apply entry_check; [by rewrite Hu|].
  eapply entry_intro; [apply parses_peek|].
  eapply entry_intro; [apply parses_in_of, uleb128_parses; unfold in_width in *; lia|].
  apply entry_check; [apply Z.ltb_ge; unfold U32_MAX, in_width in *; lia|]. rewrite wrap_small by done. apply entry_push.
Qed.

Lemma data_entry d :
  wf_data d -> Z.of_nat (length (print_data d)) < 2 ^ 32 -> entry_parses bytes (parse_data_entry bytes) (print_data d) d.
Proof.
  intros Hw Hl. destruct d as [off bs]. unfold wf_data, print_data, print_bytes in *. cbn [data_offset data_bytes] in *.
  rewrite !length_app in Hl. rewrite <- (app_nil_r bs) at 2.
  eapply entry_intro; [apply parses_in_of, uleb128_parses; unfold in_width; lia|]. apply entry_check; [done|].
  eapply entry_intro.
  { apply init_parses; [left| | |done].
    - by rewrite length_app, le_bytes_length.
    - apply Forall_app. split; [apply le_bytes_byte|]. repeat constructor; by unfold byte. }
  rewrite take_app_length' by (by rewrite le_bytes_length).
  rewrite from_to_le_bytes, Z.mod_small by done.
  eapply entry_intro; [apply parses_in_of, uleb128_parses; unfold in_width; lia|].
  eapply entry_intro; [by apply parses_take|]. apply entry_push.
Qed.
End entries.

(** ** Function bodies *)

Lemma local_groups_parse bytes tys p rest total acc :
  0 <= p <= len bytes -> stands bytes p (concat ((fun ty => uleb128 1 ++ [ty]) <$> tys) ++ rest) ->
  0 <= total -> total + Z.of_nat (length tys) < 2 ^ 32 ->
  for_nat (length tys) (parse_local_group bytes) (p, (total, acc)) =
    ((p + Z.of_nat (length (concat ((fun ty => uleb128 1 ++ [ty]) <$> tys))),
      (total + Z.of_nat (length tys), acc ++ tys)), Ok tt).
Proof.
  revert p total acc. induction tys as [|ty tys IH]; intros p total acc Hp H Ht Hb.
  - cbn. unfold M_ret. by rewrite app_nil_r, !Z.add_0_r.
  - cbn [length for_nat fmap list_fmap concat] in *. rewrite <- app_assoc in H.
    pose proof (stands_pos _ _ _ H Hp) as Hlb. rewrite length_app in Hlb.
    assert (parses_in bytes (n <- read_uleb128 bytes ;; fail_if (U32_MAX <? n) IntegerTooLarge ;;;
              valtype <- peek_byte bytes ;; modify (Z.add 1) ;;; M_ret (n, valtype)) (uleb128 1 ++ [ty]) (1, ty)) as Hg.
    { eapply parses_in_bind; [apply parses_in_of, uleb128_parses; unfold in_width; lia|].
      apply parses_in_check; [done|]. apply (parses_in_head _ (fun t => M_ret (1, t))). apply parses_in_ret. }
    unfold M_bind at 1. unfold parse_local_group at 1. rewrite (Hg p _ Hp H).
    assert (saturating_add 32 total (u32 1) = total + 1) as ->
      by (unfold saturating_add; change (u32 1) with 1; apply Z.min_r; lia).
    rewrite IH; [|lia|by apply stands_advance|lia|lia].
    rewrite length_app, <- app_assoc. change (Z.to_nat 1) with 1%nat. cbn [replicate app]. rewrite !length_app. do 2 f_equal; [lia|f_equal; lia].
Qed.

Lemma code_entry_parses b :
  wf_body b -> Z.of_nat (length (print_body b)) < 2 ^ 32 -> parse_code_entry (print_body b) = Ok b.
Proof.
  intros (Hn & Hw & Hp & Hc) Hl. destruct b as [nl tys os]. cbn [num_locals local_types ops] in *.
  set (bytes := print_body _). assert (len bytes < 2 ^ 32) as Hlen by done.
  set (obs := concat (default [] ∘ op_bytes <$> os)).
  assert (bytes = uleb128 (Z.of_nat (length tys)) ++ concat ((fun ty => uleb128 1 ++ [ty]) <$> tys) ++ obs) as Hbytes.
  { subst bytes obs. unfold print_body, print_locals, print_vec. cbn [local_types ops]. by rewrite <- app_assoc. }
  assert (length bytes = length (uleb128 (Z.of_nat (length tys))) +
            length (concat ((fun ty => uleb128 1 ++ [ty]) <$> tys)) + length obs)%nat as Hlb
    by (rewrite Hbytes, !length_app; lia).
  assert (length tys <= length (concat ((fun ty => uleb128 1 ++ [ty]) <$> tys)))%nat as Hlt.
  { apply concat_length_ge. intros ty _ E. apply app_eq_nil in E as [_ E]. discriminate E. }
  assert (stands bytes 0 (uleb128 (Z.of_nat (length tys)) ++ concat ((fun ty => uleb128 1 ++ [ty]) <$> tys) ++ obs)) as H0
    by (split; [done|]; by rewrite <- Hbytes).
  unfold parse_code_entry. unfold len in Hlen.
  rewrite (uleb128_parses bytes (Z.of_nat (length tys)) ltac:(unfold in_width; lia) 0 _ H0), Z.add_0_l.
  pose proof (stands_advance _ _ _ _ H0) as H1. rewrite Z.add_0_l in H1.
  rewrite for_range_nat, (local_groups_parse bytes tys _ obs 0 []) by (done || unfold len; lia).
  pose proof (stands_advance _ _ _ _ H1) as H2.
  assert (exists bss, Forall2 (fun op bs => op_bytes op = Some bs) os bss /\ concat bss = obs) as (bss & HF & Hbss).
  { exists (default [] ∘ op_bytes <$> os). split; [|done]. clear - Hp.
    induction Hp as [|op os [bs Hbs] _ IH]; constructor; [|done]. cbn. by rewrite Hbs. }
  assert (length os <= length obs)%nat as Hos.
  { rewrite <- Hbss. clear - HF. induction HF as [|op bs os bss Hop _ IH]; [done|]. cbn [concat length]. rewrite length_app.
    apply op_bytes_nonempty in Hop. lia. }
  pose proof (parses_loop bytes os bss (S (length bytes)) [] 0 HF Hw Hc ltac:(lia) ltac:(lia) ltac:(lia)) as Hparse.
  rewrite Hbss in Hparse. unfold parse_ops. rewrite <- (app_nil_r obs) in H2.
  rewrite (Hparse _ [] H2). cbn [app]. by rewrite Z.add_0_l, <- Hn.
Qed.

Lemma code_entry bytes b :
  wf_body b -> len bytes < 2 ^ 32 -> Z.of_nat (length (print_code b)) < 2 ^ 32 ->
  entry_parses bytes (parse_code_item bytes) (print_code b) b.
Proof.
  intros Hw Hlen Hl p rest out Hp H. unfold print_code, print_bytes in *. rewrite length_app in Hl.
  pose proof (stands_pos _ _ _ H Hp) as Hb. rewrite !length_app in Hb. rewrite <- app_assoc in H.
  unfold parse_code_item.
  rewrite (at_pos_bind bytes _ _ (uleb128 (Z.of_nat (length (print_body b)))) (Z.of_nat (length (print_body b))) p (print_body b ++ rest));
    [|apply parses_in_of, uleb128_parses; unfold in_width; lia|done|done].
  apply stands_advance in H. set (q := p + _) in *.
  unfold M_bind, at_pos, gets, ok_or, checked_add, fail_if, modify, push, of_outcome, M_ret. cbn [id].
  destruct (Z.ltb_spec (q + Z.of_nat (length (print_body b))) (2 ^ 64)); [|lia].
  destruct (Z.ltb_spec (len bytes) (q + Z.of_nat (length (print_body b)))); [lia|].
  rewrite (stands_slice _ _ _ _ H), code_entry_parses by (done || lia). unfold modify.
  rewrite length_app. f_equal. f_equal. lia.
Qed.

(** ** The section loop *)

Lemma uleb_advances bytes p p' v :
  read_uleb128 bytes p = (p', Ok v) -> p < p' /\ 0 <= v.
Proof.
  assert (forall k r s q q' w, 0 <= r -> uleb_loop bytes k r s q = (q', Ok w) -> q < q' /\ 0 <= w) as Hgo.
  { induction k as [|k IH]; intros r s q q' w Hr; [discriminate|]. cbn [uleb_loop].
    unfold M_bind, read_u8, M_bind, gets, modify, M_ret. cbn [id].
    destruct (bytes !! Z.to_nat q) as [b|]; cbn [ok_or throw M_ret]; [|discriminate]. cbv zeta.
    assert (0 <= r .| u64 (Z.shiftl (b .& 0x7F) s)) as Hr'
      by (apply Z.lor_nonneg; split; [done|]; by apply (wrap_range 64)).
    destruct ((b .& 0x80) =? 0); [intros [= <- <-]; lia|]. destruct (64 <=? s + 7); [discriminate|].
    intros H. apply IH in H; [lia|done]. }
  by apply Hgo.
Qed.

(** The section loop terminates within one round per byte: every fuel above
    the number of remaining bytes gives the same result, so
    [parse_module_full] never stops for lack of it. *)
Theorem section_loop_fuel (fuel fuel' : nat) (bytes : list Z) (p : Z) (m : Module_) :
  0 <= p -> len bytes - p < Z.of_nat fuel -> len bytes - p < Z.of_nat fuel' -> (0 < fuel)%nat -> (0 < fuel')%nat ->
  section_loop fuel bytes p m = section_loop fuel' bytes p m.
Proof.
  revert fuel' p m. induction fuel as [|fuel IH]; intros fuel' p m Hp Hf Hf' H0 H0'; [lia|].
  destruct fuel' as [|fuel']; [lia|]. cbn [section_loop]. destruct (Z.leb_spec (len bytes) p); [done|].
  destruct (bytes !! Z.to_nat p) as [id|]; [|done].
  destruct (read_uleb128 bytes (p + 1)) as [q [size|e|]] eqn:Hr; [|done|done].
  apply uleb_advances in Hr. unfold checked_add.
  destruct (Z.ltb_spec (q + size) (2 ^ 64)); [|done]. destruct (Z.ltb_spec (len bytes) (q + size)); [done|].
  destruct (parse_section id (slice bytes q (q + size)) m) as [m'|e|]; [|done|done]. apply IH; lia.
Qed.

Lemma section_loop_fuel_witness :
  section_loop 12 (MAGIC ++ VERSION ++ [0x00; 0x01; 0x05]) 8 empty_module =
  section_loop 100 (MAGIC ++ VERSION ++ [0x00; 0x01; 0x05]) 8 empty_module.
Proof.
  refine (section_loop_fuel 12 100 (MAGIC ++ VERSION ++ [0x00; 0x01; 0x05]) 8 empty_module _ _ _ _ _);
    [done|by vm_compute|by vm_compute|lia|lia].
Defined.

Lemma section_step bytes id sec rest fuel p m m' :
  0 <= p <= len bytes -> len bytes < 2 ^ 32 -> stands bytes p (print_section id sec ++ rest) ->
  parse_section id sec m = Ok m' -> 
  section_loop (S fuel) bytes p m = section_loop fuel bytes (p + Z.of_nat (length (print_section id sec))) m'.
Proof.
  intros Hp Hlen H Hs. pose proof (stands_pos _ _ _ H Hp) as Hb. rewrite length_app in Hb.
  unfold print_section, print_bytes in *. cbn [length] in Hb. rewrite length_app in Hb.
  cbn [section_loop]. destruct (Z.leb_spec (len bytes) p); [lia|]. rewrite (stands_lookup _ _ _ _ H).
  change ((id :: ?l) ++ rest) with ([id] ++ l ++ rest) in H. apply stands_advance in H.
  change (Z.of_nat (length [id])) with 1 in H. rewrite <- app_assoc in H.
  rewrite (uleb128_parses bytes (Z.of_nat (length sec)) ltac:(unfold in_width; lia) _ _ H).
  apply stands_advance in H. unfold checked_add. set (q := p + 1 + _) in *.
  destruct (Z.ltb_spec (q + Z.of_nat (length sec)) (2 ^ 64)); [|lia].
  destruct (Z.ltb_spec (len bytes) (q + Z.of_nat (length sec))); [lia|].
  rewrite (stands_slice _ _ _ _ H), Hs. cbn [length]. rewrite length_app. f_equal. lia.
Qed.

(** The sections of a module, in order. *)
Inductive sections_parse : list (Z * list Z) -> Module_ -> Module_ -> Prop :=
| sections_nil m : sections_parse [] m m
| sections_cons id sec secs m m' m'' :
    parse_section id sec m = Ok m' -> sections_parse secs m' m'' -> sections_parse ((id, sec) :: secs) m m''.

Definition print_sections (secs : list (Z * list Z)) : list Z := concat ((fun '(id, sec) => print_section id sec) <$> secs).

Lemma sections_loop bytes secs m m' fuel p :
  sections_parse secs m m' -> 0 <= p <= len bytes -> len bytes < 2 ^ 32 ->
  stands bytes p (print_sections secs) -> (length secs < fuel)%nat -> section_loop fuel bytes p m = Ok m'.
Proof.
  intros Hs. revert fuel p. induction Hs as [m|id sec secs m m' m'' Hp _ IH]; intros fuel p Hpl Hlen H Hf.
  - destruct fuel as [|fuel]; [lia|]. cbn [section_loop]. destruct H as [_ H]. apply (f_equal length) in H.
    rewrite length_drop in H. destruct (Z.leb_spec (len bytes) p) as [|Hlt]; [done|].
    unfold len in Hlt. cbn in H. lia.
  - destruct fuel as [|fuel]; [lia|]. unfold print_sections in H. rewrite fmap_cons in H. cbn [concat] in H.
    rewrite (section_step bytes id sec _ fuel p m m' Hpl Hlen H Hp).
    pose proof (stands_pos _ _ _ H Hpl) as Hb. rewrite length_app in Hb.
    apply IH; [lia|done|by apply stands_advance in H|cbn in Hf; lia].
Qed.

Definition module_sections (m : Module_) : list (Z * list Z) :=
  [(1, print_vec print_sig (types m)); (3, print_vec uleb128 (func_types m)); (6, print_vec print_global (globals m));
   (7, print_vec print_export (exports m)); (10, print_vec print_code (bodies m)); (11, print_vec print_data (data m))].

Lemma print_module_sections m : print_module m = (MAGIC ++ VERSION) ++ print_sections (module_sections m).
Proof. unfold print_module, print_sections, module_sections. cbn [fmap list_fmap concat]. by rewrite app_nil_r, <- app_assoc. Qed.

Lemma section_length id sec secs : (id, sec) ∈ secs -> (length sec <= length (print_sections secs))%nat.
Proof.
  intros H. transitivity (length (print_section id sec)).
  - unfold print_section, print_bytes. cbn [length]. rewrite length_app. lia.
  - exact (concat_length_elem (fun '(id, sec) => print_section id sec) secs (id, sec) H).
Qed.

Lemma uleb_nonempty v : uleb128 v <> [].
Proof. unfold uleb128. cbn [uleb_bytes]. by case_match. Qed.

Lemma app_nonempty_l {A} (l k : list A) : l <> [] -> l ++ k <> [].
Proof. by destruct l. Qed.

Lemma module_sections_parse m : wf_module m -> sections_parse (module_sections m) empty_module m.
Proof.
  intros (Hf & Hg & He & Hd & Hb & _ & Hl). rewrite print_module_sections in Hl. unfold len in Hl. rewrite !length_app in Hl.
  assert (forall id sec, (id, sec) ∈ module_sections m -> len sec < 2 ^ 32) as Hsec
    by (intros id sec H; apply section_length in H; unfold len; lia).
  rewrite Forall_forall in Hf; rewrite Forall_forall in Hg; rewrite Forall_forall in He; rewrite Forall_forall in Hd; rewrite Forall_forall in Hb.
  destruct m as [tys fts gs es ds bs]. unfold module_sections, empty_module in *. cbn [types func_types globals exports data bodies] in *.
  econstructor.
  { cbn [parse_section Z.eqb Pos.eqb]. unfold parse_type_section. rewrite vec_section; [done| |lia| |].
    - intros; by apply sig_entry.
    - apply (Hsec 1). set_solver.
    - done. }
  econstructor.
  { cbn [parse_section Z.eqb Pos.eqb]. unfold parse_function_section. rewrite vec_section; [done| |lia| |].
    - intros; apply function_entry; auto.
    - apply (Hsec 3). set_solver.
    - intros; apply uleb_nonempty. }
  econstructor.
  { cbn [parse_section Z.eqb Pos.eqb]. unfold parse_global_section. rewrite vec_section; [done| |lia| |].
    - intros; apply global_entry; auto.
    - apply (Hsec 6). set_solver.
    - done. }
  econstructor.
  { cbn [parse_section Z.eqb Pos.eqb]. unfold parse_export_section. rewrite vec_section; [done| |lia| |].
    - intros; apply export_entry; auto.
    - apply (Hsec 7). set_solver.
    - intros; apply app_nonempty_l, app_nonempty_l, uleb_nonempty. }
  econstructor.
  { cbn [parse_section Z.eqb Pos.eqb]. unfold parse_code_section. rewrite vec_section; [done| |lia| |].
    - intros; apply code_entry; auto.
    - apply (Hsec 10). set_solver.
    - intros; apply app_nonempty_l, uleb_nonempty. }
  econstructor; [|constructor].
  cbn [parse_section Z.eqb Pos.eqb]. unfold parse_data_section. rewrite vec_section; [done| |lia| |].
  - intros; apply data_entry; auto.
  - apply (Hsec 11). set_solver.
  - intros; apply app_nonempty_l, uleb_nonempty.
Qed.

(** C24: Printing a well-formed module and parsing the bytes gives the module
    back: every section, every signature, global initialiser, export, data
    segment and function body. *)
Theorem parse_module_roundtrip (m : Module_) :
  wf_module m -> parse_module_full (print_module m) = Ok m.
Proof.
  intros Hw. pose proof (module_sections_parse m Hw) as Hs. destruct Hw as (_ & _ & _ & _ & _ & Hne & Hl).
  rewrite print_module_sections in *. set (secs := print_sections (module_sections m)) in *.
  unfold parse_module_full. set (bytes := (MAGIC ++ VERSION) ++ secs) in *.
  assert (len bytes = 8 + Z.of_nat (length secs)) as Hb by (unfold bytes, len; rewrite length_app; cbn [length app MAGIC VERSION]; lia).
  destruct (Z.ltb_spec (len bytes) 8); [lia|].
  rewrite !bool_decide_true by done. cbn [negb].
  assert (6 <= length secs)%nat as H6
    by (unfold secs, print_sections; etransitivity; [|apply concat_length_ge]; [done|by intros [id sec] _]).
  rewrite (sections_loop bytes (module_sections m) empty_module m); [|done|lia|done| |].
  - by destruct (bodies m).
  - split; [done|]. done.
  - unfold len in Hb. cbn [module_sections length]. lia.
Qed.

Definition sample_module : Module_ :=
  mkModule [mkFuncSig [0x7F; 0x7F] [0x7F]] [0] [mkGlobalDef 0x7F true [0xF0; 0xFF; 0xFF; 0xFF; 0; 0; 0; 0]]
    [mkExport [97; 100; 100] 0 0] [mkDataSegment 1024 [104; 105]]
    [mkFunctionBody 1 [0x7E] [LocalGet 0; LocalGet 1; I32Add; End]].

Lemma parse_module_roundtrip_witness : parse_module_full (print_module sample_module) = Ok sample_module.
Proof.
  refine (parse_module_roundtrip sample_module _).
  repeat split; cbn; repeat constructor; cbn; try done; try set_solver; try (unfold byte; lia).
Defined.

(** A section that announces 2^62 types makes [Vec::with_capacity] panic: the
    count is not checked against the bytes that are left. *)
Lemma huge_count_panics :
  parse_module_full (MAGIC ++ VERSION ++ print_section 1 (uleb128 (2 ^ 62))) = Panic.
Proof. by vm_compute. Qed.

(** A parameter vector whose length wraps the position around panics on the
    inverted slice. *)
Lemma wrapping_length_panics :
  parse_module_full (MAGIC ++ VERSION ++ print_section 1 ([1; 0x60] ++ uleb128 (2 ^ 64 - 1))) = Panic.
Proof. by vm_compute. Qed.
