(* ===== verification/WasmValidate.v ===== *)
(** The validator (src/tools/a64-encoder/src/wasm_validate.rs).

    The operand stack is a list with the top at its head.  A message is a
    constructor for the source's string; an error carries the index of the
    operation that raised it. *)

From S2P Require Import Prelude A64 WasmTypes.

Open Scope kernel_scope.

Inductive message :=
| StackDepthExceeded        (* "operand stack depth exceeded (max 4096)" *)
| Underflow                 (* "stack underflow" *)
| Mismatch                  (* "type mismatch" *)
| LocalIndexOutOfRange      (* "local index out of range" *)
| GlobalIndexOutOfRange     (* "global index out of range" *)
| SelectTypesDiffer         (* "select: both values must have same type" *)
| BranchDepthExceeded       (* "br/br_if depth exceeds label stack" *)
| ReturnEmptyStack          (* "return with empty stack" *)
| CallIndexOutOfRange       (* "call target index out of range" *)
| IndirectIndexOutOfRange   (* "call_indirect type index out of range" *)
| UnclosedBlock             (* "unclosed block/loop at function end" *)
| NotSingleValue.           (* "function must leave exactly 1 value on the stack" *)

Record ValidationError := mkValidationError { op_index : Z; msg : message }.

Record Vstate := mkVstate {
  vstack : list ValType;
  label_depth : Z;
  unreachable : bool
}.

#[global] Instance Vstate_eta : Eta Vstate := fun r => mkVstate (vstack r) (label_depth r) (unreachable r).
#[global] Instance Vstate_stack_set : Setter vstack := ltac:(derive_setter).
#[global] Instance Vstate_depth_set : Setter label_depth := ltac:(derive_setter).
#[global] Instance Vstate_unreachable_set : Setter unreachable := ltac:(derive_setter).

Definition MAX_STACK_DEPTH : Z := 4096.

(** ** The operand stack *)

Abbreviation V := (M Vstate message).

Definition vpush (t : ValType) : V unit := modify (fun s => s <| vstack := t :: vstack s |>).

(** [stack.pop().ok_or(err("stack underflow"))] *)
Definition vpop : V ValType :=
  l <- gets vstack ;;
  match l with
  | [] => throw Underflow
  | t :: l => modify (fun s => s <| vstack := l |>) ;;; M_ret t
  end.

Definition pop_expect (expected : ValType) : V ValType :=
  got <- vpop ;;
  fail_if (negb (bool_decide (got = expected))) Mismatch ;;;
  M_ret got.

Definition vstack_last : V ValType := l <- gets vstack ;; ok_or (head l) Underflow.

Definition set_unreachable (b : bool) : V unit := modify (fun s => s <| unreachable := b |>).

Definition enter_label : V unit := modify (fun s => s <| label_depth := u32 (label_depth s + 1) |>).

Definition leave_label : V unit := modify (fun s => s <| label_depth := saturating_sub (label_depth s) 1 |>).

(** ** One operation *)

Section context.
Context (local_types global_types : list ValType) (call_sigs indirect_sigs : list FnSig).

Definition local_type (idx : Z) : V ValType := ok_or (local_types !! Z.to_nat idx) LocalIndexOutOfRange.

Definition global_type (idx : Z) : V ValType := ok_or (global_types !! Z.to_nat idx) GlobalIndexOutOfRange.

Definition unop (a r : ValType) : V unit := pop_expect a ;;; vpush r.

Definition binop (a r : ValType) : V unit := pop_expect a ;;; pop_expect a ;;; vpush r.

Definition ternop (a r : ValType) : V unit := pop_expect a ;;; pop_expect a ;;; pop_expect a ;;; vpush r.

Definition store (a : ValType) : V unit := pop_expect a ;;; pop_expect I32 ;;; M_ret tt.

(** [for p in sig.params.iter().rev() { pop_expect(p)? }] *)
Fixpoint pop_all (ts : list ValType) : V unit :=
  match ts with [] => M_ret tt | t :: ts => pop_expect t ;;; pop_all ts end.

Definition apply_sig (sig : FnSig) : V unit :=
  pop_all (rev (params sig)) ;;;
  match result sig with Some r => vpush r | None => M_ret tt end.

Definition check_op (op : WasmOp) : V unit :=
  match op with
  | I32Const _ => vpush I32 | I64Const _ => vpush I64 | F32Const _ => vpush F32 | F64Const _ => vpush F64
  | V128Const _ => vpush V128
  | I32Add | I32Sub | I32Mul | I32DivS | I32DivU | I32And | I32Or | I32Xor | I32Shl | I32ShrS | I32ShrU
  | I32Eq | I32Ne | I32LtS | I32GtS | I32LeS | I32GeS | I32LtU | I32GtU | I32LeU | I32GeU => binop I32 I32
  | I64Add | I64Sub | I64Mul | I64DivS | I64DivU | I64And | I64Or | I64Xor | I64Shl | I64ShrS | I64ShrU => binop I64 I64
  | I64Eq | I64Ne | I64LtS | I64GtS | I64LeS | I64GeS | I64LtU | I64GtU | I64LeU | I64GeU => binop I64 I32
  | I32Eqz => unop I32 I32
  | I64Eqz => unop I64 I32
  | F32Add | F32Sub | F32Mul | F32Div => binop F32 F32
  | F32Eq | F32Ne | F32Lt | F32Gt | F32Le | F32Ge => binop F32 I32
  | F64Add | F64Sub | F64Mul | F64Div => binop F64 F64
  | F64Eq | F64Ne | F64Lt | F64Gt | F64Le | F64Ge => binop F64 I32
  | I32Load _ => unop I32 I32 | I32Store _ => store I32
  | I64Load _ => unop I32 I64 | I64Store _ => store I64
  | F32Load _ => unop I32 F32 | F32Store _ => store F32
  | F64Load _ => unop I32 F64 | F64Store _ => store F64
  | V128Load _ => unop I32 V128 | V128Store _ => store V128
  | LocalGet idx => t <- local_type idx ;; vpush t
  | LocalSet idx => t <- local_type idx ;; pop_expect t ;;; M_ret tt
  | LocalTee idx =>
      t <- local_type idx ;;
      top <- vstack_last ;;
      fail_if (negb (bool_decide (top = t))) Mismatch
  | GlobalGet idx => t <- global_type idx ;; vpush t
  | GlobalSet idx => t <- global_type idx ;; pop_expect t ;;; M_ret tt
  | Drop => vpop ;;; M_ret tt
  | Select =>
      pop_expect I32 ;;;
      b <- vpop ;;
      a <- vpop ;;
      fail_if (negb (bool_decide (a = b))) SelectTypesDiffer ;;;
      vpush a
  | Block | Loop => enter_label
  | If => pop_expect I32 ;;; enter_label
  | Else => M_ret tt
  | Br d =>
      n <- gets label_depth ;;
      fail_if (n <=? d) BranchDepthExceeded ;;;
      set_unreachable true
  | BrIf d =>
      n <- gets label_depth ;;
      fail_if (n <=? d) BranchDepthExceeded ;;;
      pop_expect I32 ;;; M_ret tt
  | End => leave_label
  | Return =>
      l <- gets vstack ;;
      fail_if (match l with [] => true | _ => false end) ReturnEmptyStack ;;;
      set_unreachable true
  | I32WrapI64 => unop I64 I32
  | I64ExtendI32S | I64ExtendI32U => unop I32 I64
  | I32Extend8S | I32Extend16S => unop I32 I32
  | I64Extend8S | I64Extend16S | I64Extend32S => unop I64 I64
  | I32TruncF32S | I32TruncF32U => unop F32 I32
  | I32TruncF64S | I32TruncF64U => unop F64 I32
  | I64TruncF32S | I64TruncF32U => unop F32 I64
  | I64TruncF64S | I64TruncF64U => unop F64 I64
  | F32ConvertI32S | F32ConvertI32U => unop I32 F32
  | F32ConvertI64S | F32ConvertI64U => unop I64 F32
  | F64ConvertI32S | F64ConvertI32U => unop I32 F64
  | F64ConvertI64S | F64ConvertI64U => unop I64 F64
  | F32DemoteF64 => unop F64 F32
  | F64PromoteF32 => unop F32 F64
  | I32ReinterpretF32 => unop F32 I32
  | I64ReinterpretF64 => unop F64 I64
  | F32ReinterpretI32 => unop I32 F32
  | F64ReinterpretI64 => unop I64 F64
  | Call idx => sig <- ok_or (call_sigs !! Z.to_nat idx) CallIndexOutOfRange ;; apply_sig sig
  | CallIndirect type_id =>
      pop_expect I32 ;;;
      sig <- ok_or (indirect_sigs !! Z.to_nat type_id) IndirectIndexOutOfRange ;;
      apply_sig sig
  | F32x4Add | F32x4Sub | F32x4Mul | F32x4Div | F32x4Max | F32x4Min | I32x4Add | I32x4Sub | I32x4Mul
  | F32x4Eq | F32x4Gt | F64x2Add | F64x2Sub | F64x2Mul | F64x2Div | F64x2Min | F64x2Max
  | I8x16Add | I8x16Sub | I16x8Add | I16x8Sub | I16x8Mul => binop V128 V128
  | I32x4DotI8x16Signed | I32x4DotI8x16Unsigned => ternop V128 V128
  | F32x4Abs | F32x4Neg | F32x4Sqrt | F64x2Abs | F64x2Neg | F64x2Sqrt => unop V128 V128
  | F32x4Fma | V128Bitselect => ternop V128 V128
  | F32x4Splat => unop F32 V128
  | F64x2Splat => unop F64 V128
  | I32x4Splat | I8x16Splat | I16x8Splat => unop I32 V128
  | F32x4ExtractLane _ => unop V128 F32
  | F64x2ExtractLane _ => unop V128 F64
  | I32x4ExtractLane _ | I8x16ExtractLaneU _ | I16x8ExtractLaneU _ => unop V128 I32
  | F32x4HorizontalSum => unop V128 F32
  end.

(** After [br] or [return], until the next [end] or [else]. *)
Definition skip_op (op : WasmOp) : V unit :=
  match op with
  | End => set_unreachable false ;;; leave_label
  | Else => set_unreachable false
  | Block | Loop | If => enter_label
  | _ => M_ret tt
  end.

Definition validate_op (op : WasmOp) : V unit :=
  dead <- gets unreachable ;;
  if dead : bool then skip_op op else
  l <- gets vstack ;;
  fail_if (MAX_STACK_DEPTH <? Z.of_nat (length l)) StackDepthExceeded ;;;
  check_op op.

(** ** The function body *)

Fixpoint validate_loop (i : Z) (ops : list WasmOp) (s : Vstate) : outcome ValidationError Vstate :=
  match ops with
  | [] => Ok s
  | op :: ops =>
      match validate_op op s with
      | (s, Ok _) => validate_loop (i + 1) ops s
      | (_, Err m) => Err (mkValidationError i m)
      | (_, Panic) => Panic
      end
  end.

Definition validate_full (ops : list WasmOp) : outcome ValidationError unit :=
  match validate_loop 0 ops (mkVstate [] 0 false) with
  | Ok s =>
      if negb (label_depth s =? 0) then Err (mkValidationError (Z.of_nat (length ops)) UnclosedBlock)
      else if negb (Z.of_nat (length (vstack s)) =? 1) then Err (mkValidationError (Z.of_nat (length ops)) NotSingleValue)
      else Ok tt
  | Err e => Err e
  | Panic => Panic
  end.
End context.

Definition validate (local_types : list ValType) (ops : list WasmOp) (call_sigs indirect_sigs : list FnSig) : outcome ValidationError unit :=
  validate_full local_types [] call_sigs indirect_sigs ops.
