(* ===== verification/WasmValidateThm.v ===== *)
(** The validator against the typing rules of WebAssembly: on code without
    control flow it accepts exactly the well-typed bodies, and it reports the
    first operation that has no type. *)

From S2P Require Import Prelude A64 WasmTypes WasmValidate.

Open Scope kernel_scope.

#[local] Arguments bool_decide : simpl never.
#[local] Arguments apply_sig : simpl never.

(** Run the stack operations on a state given by its fields. *)
Ltac vrun :=
  cbn in *;
  unfold unop, binop, ternop, store, pop_expect, vstack_last, vpop, vpush, enter_label, leave_label, set_unreachable,
    local_type, global_type in *;
  unfold M_bind, gets, modify, throw, ok_or, fail_if, panic, M_ret in *; cbn in *.


(** ** Typing rules

    [op_type op ins outs]: [op] takes the operands [ins] (topmost first) and
    leaves [outs]. *)

Definition numeric_type (op : WasmOp) : option (list ValType * ValType) :=
  match op with
  | I32Const _ => Some ([], I32) | I64Const _ => Some ([], I64) | F32Const _ => Some ([], F32)
  | F64Const _ => Some ([], F64) | V128Const _ => Some ([], V128)
  | I32Eqz | I32Extend8S | I32Extend16S | I32Load _ => Some ([I32], I32)
  | I64ExtendI32S | I64ExtendI32U | I64Load _ => Some ([I32], I64)
  | F32ConvertI32S | F32ConvertI32U | F32ReinterpretI32 | F32Load _ => Some ([I32], F32)
  | F64ConvertI32S | F64ConvertI32U | F64Load _ => Some ([I32], F64)
  | V128Load _ | I32x4Splat | I8x16Splat | I16x8Splat => Some ([I32], V128)
  | I64Eqz | I32WrapI64 => Some ([I64], I32)
  | I64Extend8S | I64Extend16S | I64Extend32S => Some ([I64], I64)
  | F32ConvertI64S | F32ConvertI64U => Some ([I64], F32)
  | F64ConvertI64S | F64ConvertI64U | F64ReinterpretI64 => Some ([I64], F64)
  | I32TruncF32S | I32TruncF32U | I32ReinterpretF32 => Some ([F32], I32)
  | I64TruncF32S | I64TruncF32U => Some ([F32], I64)
  | F64PromoteF32 => Some ([F32], F64)
  | F32x4Splat => Some ([F32], V128)
  | I32TruncF64S | I32TruncF64U => Some ([F64], I32)
  | I64TruncF64S | I64TruncF64U | I64ReinterpretF64 => Some ([F64], I64)
  | F32DemoteF64 => Some ([F64], F32)
  | F64x2Splat => Some ([F64], V128)
  | I32Add | I32Sub | I32Mul | I32DivS | I32DivU | I32And | I32Or | I32Xor | I32Shl | I32ShrS | I32ShrU
  | I32Eq | I32Ne | I32LtS | I32GtS | I32LeS | I32GeS | I32LtU | I32GtU | I32LeU | I32GeU => Some ([I32; I32], I32)
  | I64Add | I64Sub | I64Mul | I64DivS | I64DivU | I64And | I64Or | I64Xor | I64Shl | I64ShrS | I64ShrU => Some ([I64; I64], I64)
  | I64Eq | I64Ne | I64LtS | I64GtS | I64LeS | I64GeS | I64LtU | I64GtU | I64LeU | I64GeU => Some ([I64; I64], I32)
  | F32Add | F32Sub | F32Mul | F32Div => Some ([F32; F32], F32)
  | F32Eq | F32Ne | F32Lt | F32Gt | F32Le | F32Ge => Some ([F32; F32], I32)
  | F64Add | F64Sub | F64Mul | F64Div => Some ([F64; F64], F64)
  | F64Eq | F64Ne | F64Lt | F64Gt | F64Le | F64Ge => Some ([F64; F64], I32)
  | F32x4Abs | F32x4Neg | F32x4Sqrt | F64x2Abs | F64x2Neg | F64x2Sqrt => Some ([V128], V128)
  | F32x4ExtractLane _ | F32x4HorizontalSum => Some ([V128], F32)
  | F64x2ExtractLane _ => Some ([V128], F64)
  | I32x4ExtractLane _ | I8x16ExtractLaneU _ | I16x8ExtractLaneU _ => Some ([V128], I32)
  | F32x4Add | F32x4Sub | F32x4Mul | F32x4Div | F32x4Max | F32x4Min | I32x4Add | I32x4Sub | I32x4Mul
  | F32x4Eq | F32x4Gt | F64x2Add | F64x2Sub | F64x2Mul | F64x2Div | F64x2Min | F64x2Max
  | I8x16Add | I8x16Sub | I16x8Add | I16x8Sub | I16x8Mul => Some ([V128; V128], V128)
  | F32x4Fma | V128Bitselect | I32x4DotI8x16Signed | I32x4DotI8x16Unsigned => Some ([V128; V128; V128], V128)
  | _ => None
  end.

Definition store_type (op : WasmOp) : option ValType :=
  match op with
  | I32Store _ => Some I32 | I64Store _ => Some I64 | F32Store _ => Some F32 | F64Store _ => Some F64
  | V128Store _ => Some V128
  | _ => None
  end.

(** Control flow: what is not straight-line code. *)
Definition is_control (op : WasmOp) : bool :=
  match op with Block | Loop | If | Else | Br _ | BrIf _ | End | Return => true | _ => false end.

Section typing.
Context (local_types global_types : list ValType) (call_sigs indirect_sigs : list FnSig).

Inductive op_type : WasmOp -> list ValType -> list ValType -> Prop :=
| ty_numeric op ins t : numeric_type op = Some (ins, t) -> op_type op ins [t]
| ty_store op t : store_type op = Some t -> op_type op [t; I32] []
| ty_local_get i t : local_types !! Z.to_nat i = Some t -> op_type (LocalGet i) [] [t]
| ty_local_set i t : local_types !! Z.to_nat i = Some t -> op_type (LocalSet i) [t] []
| ty_local_tee i t : local_types !! Z.to_nat i = Some t -> op_type (LocalTee i) [t] [t]
| ty_global_get i t : global_types !! Z.to_nat i = Some t -> op_type (GlobalGet i) [] [t]
| ty_global_set i t : global_types !! Z.to_nat i = Some t -> op_type (GlobalSet i) [t] []
| ty_drop t : op_type Drop [t] []
| ty_select t : op_type Select [I32; t; t] [t]
| ty_call i sig : call_sigs !! Z.to_nat i = Some sig -> op_type (Call i) (rev (params sig)) (option_list (result sig))
| ty_call_indirect i sig :
    indirect_sigs !! Z.to_nat i = Some sig -> op_type (CallIndirect i) (I32 :: rev (params sig)) (option_list (result sig)).

(** A body takes a stack to a stack; no operation starts with more than
    [MAX_STACK_DEPTH] operands. *)
Inductive body_type : list WasmOp -> list ValType -> list ValType -> Prop :=
| ty_nil s : body_type [] s s
| ty_cons op ops ins outs s t :
    op_type op ins outs -> Z.of_nat (length (ins ++ s)) <= MAX_STACK_DEPTH ->
    body_type ops (outs ++ s) t -> body_type (op :: ops) (ins ++ s) t.

(** ** The operations and the rules *)

Abbreviation check := (check_op local_types global_types call_sigs indirect_sigs).
Abbreviation vop := (validate_op local_types global_types call_sigs indirect_sigs).
Abbreviation vloop := (validate_loop local_types global_types call_sigs indirect_sigs).

Lemma pop_all_ok ts s rest : vstack s = ts ++ rest -> pop_all ts s = (s <| vstack := rest |>, Ok tt).
Proof.
  revert s. induction ts as [|t ts IH]; intros [l d u] H; cbn in H; subst; [done|].
  vrun. rewrite bool_decide_true by done. vrun. by rewrite (IH (mkVstate (ts ++ rest) d u)).
Qed.

Lemma pop_all_inv ts s s' :
  pop_all ts s = (s', Ok tt) -> exists rest, vstack s = ts ++ rest /\ s' = s <| vstack := rest |>.
Proof.
  revert s. induction ts as [|t ts IH]; intros [l d u] H; [injection H as <-; by exists l|].
  destruct l as [|t' l]; [done|]. vrun. destruct (bool_decide_reflect (t' = t)) as [->|]; [|done].
  apply IH in H as (rest & Hl & ->). cbn in *. subst. by exists rest.
Qed.

Lemma pop_all_no_panic ts s : (pop_all ts s).2 <> Panic.
Proof.
  revert s. induction ts as [|t ts IH]; intros [[|t' l] d u]; [done..|].
  vrun. case_bool_decide; [|done]. vrun. apply IH.
Qed.

(** Pop the operands, push the results. *)
Definition retype (ins outs : list ValType) : V unit :=
  pop_all ins ;;; match outs with [] => M_ret tt | t :: _ => vpush t end.

Lemma retype_ok ins outs s rest :
  (length outs <= 1)%nat -> vstack s = ins ++ rest -> retype ins outs s = (s <| vstack := outs ++ rest |>, Ok tt).
Proof. intros Ho H. unfold retype, M_bind. rewrite (pop_all_ok _ _ _ H). by destruct outs as [|t [|]]; [| |cbn in Ho; lia]. Qed.

Lemma retype_inv ins outs s s' :
  (length outs <= 1)%nat -> retype ins outs s = (s', Ok tt) ->
  exists rest, vstack s = ins ++ rest /\ s' = s <| vstack := outs ++ rest |>.
Proof.
  intros Ho. unfold retype, M_bind. destruct (pop_all ins s) as [s1 [[]|e|]] eqn:Hp; [|done..].
  apply pop_all_inv in Hp as (rest & Hs & ->). intros H. exists rest. split; [done|].
  destruct outs as [|t [|]]; [by injection H as <-..|cbn in Ho; lia].
Qed.

Lemma retype_no_panic ins outs s : (retype ins outs s).2 <> Panic.
Proof.
  unfold retype, M_bind. pose proof (pop_all_no_panic ins s) as H. destruct (pop_all ins s) as [s' [[]|e|]]; [by destruct outs|done..].
Qed.

(** A numeric operation or a store pops and pushes what its type says. *)
Lemma check_numeric op ins t s : numeric_type op = Some (ins, t) -> check op s = retype ins [t] s.
Proof.
  intros H. unfold retype. destruct op; cbn in H; try done; injection H as <- <-; destruct s as [l d u];
    vrun; try done; repeat (destruct l as [|? l]; [done|]; vrun; case_bool_decide; [|done]; vrun); done.
Qed.

Lemma check_store op t s : store_type op = Some t -> check op s = retype [t; I32] [] s.
Proof.
  intros H. unfold retype. destruct op; cbn in H; try done; injection H as <-; destruct s as [l d u];
    vrun; repeat (destruct l as [|? l]; [done|]; vrun; case_bool_decide; [|done]; vrun); done.
Qed.

Lemma check_sig sig s : apply_sig sig s = retype (rev (params sig)) (option_list (result sig)) s.
Proof. unfold apply_sig, retype. destruct sig as [ps [r|]]; done. Qed.

Lemma option_list_length {A} (o : option A) : (length (option_list o) <= 1)%nat.
Proof. destruct o; cbn; lia. Qed.

Lemma check_complete op ins outs s rest :
  op_type op ins outs -> vstack s = ins ++ rest -> check op s = (s <| vstack := outs ++ rest |>, Ok tt).
Proof.
  intros Ht Hs. destruct Ht as [op ins t H|op t H|i t H|i t H|i t H|i t H|i t H|t|t|i sig H|i sig H].
  - rewrite (check_numeric _ _ _ _ H). by apply retype_ok; [cbn; lia|].
  - rewrite (check_store _ _ _ H). by apply retype_ok; [cbn; lia|].
  - destruct s. vrun. rewrite H. vrun. by subst.
  - destruct s. vrun. rewrite H. vrun. subst. vrun. by rewrite bool_decide_true.
  - destruct s. vrun. rewrite H. vrun. subst. vrun. by rewrite bool_decide_true.
  - destruct s. vrun. rewrite H. vrun. by subst.
  - destruct s. vrun. rewrite H. vrun. subst. vrun. by rewrite bool_decide_true.
  - destruct s. vrun. by subst.
  - destruct s. vrun. subst. vrun. rewrite bool_decide_true by done. vrun. by rewrite bool_decide_true by done.
  - vrun. rewrite H. vrun. rewrite check_sig. apply retype_ok; [apply option_list_length|done].
  - destruct s. vrun. subst. vrun. rewrite bool_decide_true by done. vrun. rewrite H. vrun. rewrite check_sig.
    by rewrite retype_ok with (rest := rest) by (apply option_list_length || done).
Qed.

Lemma check_sound op s s' :
  is_control op = false -> check op s = (s', Ok tt) ->
  exists ins outs rest, op_type op ins outs /\ vstack s = ins ++ rest /\ s' = s <| vstack := outs ++ rest |>.
Proof.
  intros Hc H.
  destruct (numeric_type op) as [[ins t]|] eqn:Hn.
  { rewrite (check_numeric _ _ _ _ Hn) in H. apply retype_inv in H as (rest & ? & ?); [|cbn; lia].
    exists ins, [t], rest. split; [by apply ty_numeric|done]. }
  destruct (store_type op) as [t|] eqn:Hst.
  { rewrite (check_store _ _ _ Hst) in H. apply retype_inv in H as (rest & ? & ?); [|cbn; lia].
    exists [t; I32], [], rest. split; [by apply ty_store|done]. }
  destruct s as [l d u].
  destruct op; try discriminate; vrun.
  - destruct l as [|t l]; [done|]. injection H as <-. exists [t], [], l. split; [apply ty_drop|done].
  - destruct l as [|t [|b [|a l]]]; vrun; try done; try (case_bool_decide; vrun; done).
    destruct (bool_decide_reflect (t = I32)) as [->|]; [|done]. vrun.
    destruct (bool_decide_reflect (a = b)) as [->|]; [|done]. injection H as <-.
    exists [I32; b; b], [b], l. split; [apply ty_select|done].
  - destruct (local_types !! Z.to_nat n) as [t|] eqn:Hl; [|done]. injection H as <-. exists [], [t], l. split; [by apply ty_local_get|done].
  - destruct (local_types !! Z.to_nat n) as [t|] eqn:Hl; [|done]. destruct l as [|t' l]; [done|]. vrun.
    destruct (bool_decide_reflect (t' = t)) as [->|]; [|done]. injection H as <-. exists [t], [], l. split; [by apply ty_local_set|done].
  - destruct (local_types !! Z.to_nat n) as [t|] eqn:Hl; [|done]. destruct l as [|t' l]; [done|]. vrun.
    destruct (bool_decide_reflect (t' = t)) as [->|]; [|done]. injection H as <-. exists [t], [t], l. split; [by apply ty_local_tee|done].
  - destruct (global_types !! Z.to_nat n) as [t|] eqn:Hl; [|done]. injection H as <-. exists [], [t], l. split; [by apply ty_global_get|done].
  - destruct (global_types !! Z.to_nat n) as [t|] eqn:Hl; [|done]. destruct l as [|t' l]; [done|]. vrun.
    destruct (bool_decide_reflect (t' = t)) as [->|]; [|done]. injection H as <-. exists [t], [], l. split; [by apply ty_global_set|done].
  - destruct (call_sigs !! Z.to_nat n) as [sig|] eqn:Hl; [|done]. vrun. rewrite check_sig in H.
    apply retype_inv in H as (rest & ? & ?); [|apply option_list_length]. eexists _, _, rest. split; [by apply ty_call|done].
  - destruct l as [|t l]; [done|]. vrun. destruct (bool_decide_reflect (t = I32)) as [->|]; [|done]. vrun.
    destruct (indirect_sigs !! Z.to_nat n) as [sig|] eqn:Hl; [|done]. vrun. rewrite check_sig in H.
    apply retype_inv in H as (rest & Hv & ?); [|apply option_list_length]. cbn in Hv. subst.
    eexists _, _, rest. split; [by apply ty_call_indirect|done].
Qed.

Lemma check_no_panic op s : (check op s).2 <> Panic.
Proof.
  destruct (numeric_type op) as [[ins t]|] eqn:Hn; [rewrite (check_numeric _ _ _ _ Hn); apply retype_no_panic|].
  destruct (store_type op) as [t|] eqn:Hst; [rewrite (check_store _ _ _ Hst); apply retype_no_panic|].
  destruct s as [l d u].
  destruct op; try discriminate; vrun;
    repeat (first [done | rewrite check_sig; apply retype_no_panic | case_bool_decide; vrun | case_match; vrun; subst]).
Qed.

(** ** Bodies *)

Lemma vop_reachable op s :
  unreachable s = false ->
  vop op s = if MAX_STACK_DEPTH <? Z.of_nat (length (vstack s)) then (s, Err StackDepthExceeded) else check op s.
Proof. intros Hu. unfold validate_op, M_bind, gets, fail_if. rewrite Hu. by destruct (MAX_STACK_DEPTH <? _). Qed.

Lemma vop_ok op s s' :
  is_control op = false -> unreachable s = false -> vop op s = (s', Ok tt) ->
  exists ins outs rest, op_type op ins outs /\ vstack s = ins ++ rest /\
    Z.of_nat (length (vstack s)) <= MAX_STACK_DEPTH /\ s' = s <| vstack := outs ++ rest |>.
Proof.
  intros Hc Hu. rewrite vop_reachable by done. destruct (MAX_STACK_DEPTH <? _) eqn:Hd; [done|]. bool_prop.
  intros H. apply check_sound in H as (ins & outs & rest & ? & ? & ?); [|done]. by exists ins, outs, rest.
Qed.

Lemma vloop_sound ops i s s' :
  Forall (fun op => is_control op = false) ops -> unreachable s = false -> vloop i ops s = Ok s' ->
  body_type ops (vstack s) (vstack s') /\ s' = s <| vstack := vstack s' |>.
Proof.
  intros Hops. revert i s. induction Hops as [|op ops Hc _ IH]; intros i s Hu H.
  - injection H as <-. split; [constructor|by destruct s].
  - cbn [validate_loop] in H. destruct (vop op s) as [s1 [[]|e|]] eqn:Hop; [|done..].
    apply vop_ok in Hop as (ins & outs & rest & Ht & Hs & Hd & ->); [|done..].
    apply IH in H as [Hb Hs']; [|done]. split; [|done]. rewrite Hs in *. by eapply ty_cons.
Qed.

Lemma vloop_complete ops σ τ i s :
  body_type ops σ τ -> vstack s = σ -> unreachable s = false -> vloop i ops s = Ok (s <| vstack := τ |>).
Proof.
  intros Hb. revert i s. induction Hb as [σ|op ops ins outs rest τ Ht Hd _ IH]; intros i s Hs Hu.
  - destruct s. cbn in *. by subst.
  - cbn [validate_loop]. rewrite vop_reachable, Hs by done. destruct (Z.ltb_spec MAX_STACK_DEPTH (Z.of_nat (length (ins ++ rest)))); [lia|].
    rewrite (check_complete op ins outs s rest Ht Hs). by rewrite IH.
Qed.

Lemma vloop_app i ops ops' s :
  vloop i (ops ++ ops') s =
    match vloop i ops s with Ok s => vloop (i + Z.of_nat (length ops)) ops' s | Err e => Err e | Panic => Panic end.
Proof.
  revert i s. induction ops as [|op ops IH]; intros i s; cbn [validate_loop app length]; [by rewrite Z.add_0_r|].
  destruct (vop op s) as [s' [[]|e|]]; [|done..]. rewrite IH. by replace (i + Z.of_nat (S (length ops))) with (i + 1 + Z.of_nat (length ops)) by lia.
Qed.

Lemma vloop_error i ops s e :
  vloop i ops s = Err e ->
  exists k s', ((k < length ops)%nat /\ op_index e = i + Z.of_nat k) /\
    vloop i (take k ops) s = Ok s' /\ vloop i (take (S k) ops) s = Err e.
Proof.
  revert i s. induction ops as [|op ops IH]; intros i s H; [done|]. cbn [validate_loop] in H.
  destruct (vop op s) as [s1 [[]|m|]] eqn:Hop; [| |done].
  - apply IH in H as (k & s' & [Hk Hi] & Hok & He). exists (S k), s'. cbn [take validate_loop]. rewrite Hop.
    split; [cbn; lia|]. done.
  - injection H as <-. exists 0%nat, s. cbn [take validate_loop]. rewrite Hop. split; [cbn; lia|]. done.
Qed.

Lemma validate_straight_iff (ops : list WasmOp) :
  Forall (fun op => is_control op = false) ops ->
  validate_full local_types global_types call_sigs indirect_sigs (ops ++ [End]) = Ok tt <->
  exists t, body_type ops [] [t].
Proof.
  intros Hops. unfold validate_full. rewrite vloop_app. split.
  - destruct (vloop 0 ops _) as [s|e|] eqn:Hl; [|done..]. apply vloop_sound in Hl as [Hb Hs]; [|done..].
    cbn in Hb. rewrite Hs. cbn [validate_loop]. rewrite vop_reachable by done. cbn [vstack].
    destruct (_ <? _); [done|]. cbn -[Z.of_nat Z.eqb]. destruct (Z.eqb_spec (Z.of_nat (length (vstack s))) 1) as [Hlen|]; [|done].
    intros _. destruct (vstack s) as [|t [|]]; [done| |cbn in Hlen; lia]. by exists t.
  - intros [t Ht]. by rewrite (vloop_complete _ _ _ 0 _ Ht).
Qed.

(** C18: On a body without control flow the validator decides typing: it accepts
    the body followed by its [end] exactly when the WebAssembly typing rules
    take the empty stack to a single value. *)
Theorem validate_decides_typing (ops : list WasmOp) :
  Forall (fun op => is_control op = false) ops ->
  validate_full local_types global_types call_sigs indirect_sigs (ops ++ [End]) = Ok tt <->
  exists t, body_type ops [] [t].
Proof. apply validate_straight_iff. Qed.

(** A body without control flow that is rejected is reported at its first
    operation that has no type: the operations before it are well typed from
    the empty stack, together with it they are not; or the whole body is well
    typed and the error is at its end. *)
Theorem validate_error_position (ops : list WasmOp) (e : ValidationError) :
  Forall (fun op => is_control op = false) ops ->
  validate_full local_types global_types call_sigs indirect_sigs (ops ++ [End]) = Err e ->
  (exists k σ, op_index e = Z.of_nat k /\ (k < length ops)%nat /\
     body_type (take k ops) [] σ /\ forall τ, ~ body_type (take (S k) ops) [] τ) \/
  (exists σ, Z.of_nat (length ops) <= op_index e /\ body_type ops [] σ /\ length σ <> 1%nat).
Proof.
  intros Hops. unfold validate_full. rewrite vloop_app. destruct (vloop 0 ops _) as [s|e'|] eqn:Hl; [| |done].
  - apply vloop_sound in Hl as [Hb Hs]; [|done..]. intros H. right. exists (vstack s).
    split; [|split; [done|]]; revert H; rewrite Hs; cbn [validate_loop]; rewrite vop_reachable by done; cbn [vstack].
    + destruct (_ <? _); [intros [= <-]; cbn; lia|]. cbn -[Z.of_nat Z.eqb Z.add].
      do 2 (destruct (negb _); [intros [= <-]; cbn -[Z.of_nat]; rewrite length_app; lia|]). done.
    + intros H Hlen. destruct (vstack s) as [|t [|]]; cbn in Hlen; done.
  - intros [= <-]. left. apply vloop_error in Hl as (k & s' & [Hk Hi] & Hok & He). exists k, (vstack s').
    split; [done|]. split; [done|]. apply vloop_sound in Hok as [Hb _]; [|by apply Forall_take|done]. split; [done|].
    intros τ Hτ. by rewrite (vloop_complete _ _ _ 0 _ Hτ) in He.
Qed.
End typing.

(** ** Witnesses and control flow *)

Lemma validate_decides_typing_witness :
  validate_full [F64] [] [] [] ([LocalGet 0; F64Const 0; F64Mul] ++ [End]) = Ok tt.
Proof.
  refine (proj2 (validate_decides_typing [F64] [] [] [] [LocalGet 0; F64Const 0; F64Mul] _) _); [repeat constructor|].
  exists F64. apply (ty_cons _ _ _ _ _ _ [] [F64]); [by apply ty_local_get|done|].
  apply (ty_cons _ _ _ _ _ _ [] [F64]); [by apply ty_numeric|done|].
  apply (ty_cons _ _ _ _ _ _ [F64; F64] [F64]); [by apply ty_numeric|done|]. constructor.
Defined.

Lemma validate_error_position_witness :
  (exists k σ, op_index (mkValidationError 2 Mismatch) = Z.of_nat k /\ (k < length [I32Const 1; F32Const 2; I32Add])%nat /\
     body_type [] [] [] [] (take k [I32Const 1; F32Const 2; I32Add]) [] σ /\
     forall τ, ~ body_type [] [] [] [] (take (S k) [I32Const 1; F32Const 2; I32Add]) [] τ) \/
  (exists σ, Z.of_nat (length [I32Const 1; F32Const 2; I32Add]) <= op_index (mkValidationError 2 Mismatch) /\
     body_type [] [] [] [] [I32Const 1; F32Const 2; I32Add] [] σ /\ length σ <> 1%nat).
Proof.
  refine (validate_error_position [] [] [] [] [I32Const 1; F32Const 2; I32Add] (mkValidationError 2 Mismatch) _ _);
    [repeat constructor|by vm_compute].
Defined.

(** Blocks do not save the height of the stack: a value left inside a block
    counts as the function's result, and a block may be left open when the
    function's own [end] closes it. *)
Lemma block_leaks_value : validate [] [Block; I32Const 1; End; End] [] [] = Ok tt.
Proof. by vm_compute. Qed.

Lemma unclosed_block_accepted : validate [] [Block; I32Const 1; End] [] [] = Ok tt.
Proof. by vm_compute. Qed.

(** Values a branch leaves behind are not dropped at its label: a body
    WebAssembly accepts is rejected. *)
Lemma branch_operands_kept :
  validate [] [I32Const 7; Block; I32Const 1; Br 0; End; End] [] [] = Err (mkValidationError 6 NotSingleValue).
Proof. by vm_compute. Qed.

(** An [end] of a block inside dead code makes the code after it live again. *)
Lemma nested_end_revives : validate [] [I32Const 1; Return; Block; End; I32Add; End] [] [] = Err (mkValidationError 4 Underflow).
Proof. by vm_compute. Qed.
