(* ===== verification/Peephole.v ===== *)
(** The peephole optimizer (src/tools/a64-encoder/src/peephole.rs): the pass, the
    words of a code buffer, and what the pass does to every word. *)

From S2P Require Import Prelude Bytes A64 A64Fmt.

(** The peephole optimizer (src/tools/a64-encoder/src/peephole.rs). *)

Open Scope kernel_scope.
Open Scope word_scope.

Definition NOP : Z := 0xD503201F.

Record DataRegion := mkDataRegion { dr_start : Z; dr_end : Z }.

Definition is_self_add_x (word : Z) : bool :=
  if negb ((word .& 0xFFE0FC00) =? 0x8B000000) then false else
  let rd := word .& 0x1F in
  let rn := (word .>> 5) .& 0x1F in
  let rm := (word .>> 16) .& 0x1F in
  (rn =? 31) && (rm =? rd).

Definition is_self_and_w (word : Z) : bool :=
  if negb ((word .& 0xFFE0FC00) =? 0x0A000000) then false else
  let rd := word .& 0x1F in
  let rn := (word .>> 5) .& 0x1F in
  let rm := (word .>> 16) .& 0x1F in
  (rd =? rn) && (rn =? rm).

Definition patch_nop (buf : list Z) (off : nat) : list Z := splice buf off (le_bytes 4 NOP).

Definition in_data (regions : list DataRegion) (off : Z) : bool :=
  existsb (fun r => (dr_start r <=? off) && (off <? dr_end r)) regions.

(** [u32::from_le_bytes(\[buf\[off\], .., buf\[off + 3\]\])] *)
Definition word_at (buf : list Z) (off : nat) : Z := from_le_bytes (take 4 (drop off buf)).

(** The loop over the words from index [i] on. *)
Fixpoint optimize_loop (n i : nat) (regions : list DataRegion) (buf : list Z) (eliminated : Z) : list Z * Z :=
  match n with
  | O => (buf, eliminated)
  | S n =>
      let off := (i * 4)%nat in
      if in_data regions (Z.of_nat off) then optimize_loop n (S i) regions buf eliminated
      else
        let word := word_at buf off in
        if is_self_add_x word then optimize_loop n (S i) regions (patch_nop buf off) (eliminated + 1)
        else if is_self_and_w word then optimize_loop n (S i) regions (patch_nop buf off) (eliminated + 1)
        else optimize_loop n (S i) regions buf eliminated
  end.

Definition optimize (buf : list Z) (regions : list DataRegion) : list Z * Z :=
  if Z.of_nat (length buf) <? 4 then (buf, 0)
  else optimize_loop (length buf / 4) 0 regions buf 0.

Definition count_nops (buf : list Z) : Z :=
  Z.of_nat (length (filter (fun i => word_at buf (i * 4) = NOP) (seq 0 (length buf / 4)))).

(** Words of a code buffer: reading a word after a patch, and the fields of a
    word. *)

Lemma splice_length l n bs : (n + length bs <= length l)%nat -> length (splice l n bs) = length l.
Proof. intros H. unfold splice. rewrite !length_app, length_take, length_drop. lia. Qed.

Lemma lookup_splice l n bs i :
  (n + length bs <= length l)%nat ->
  splice l n bs !! i = if decide (n <= i < n + length bs)%nat then bs !! (i - n)%nat else l !! i.
Proof.
  intros H. unfold splice. rewrite lookup_app, length_take, lookup_app.
  destruct (decide (n <= i < n + length bs)%nat) as [Hd|Hd].
  - rewrite lookup_take_ge by lia. replace (i - n `min` length l)%nat with (i - n)%nat by lia.
    destruct (bs !! (i - n)%nat) as [x|] eqn:E; [done|]. apply lookup_ge_None in E. lia.
  - destruct (decide (i < n)%nat) as [Hi|Hi].
    + rewrite lookup_take_lt by lia. destruct (l !! i) as [x|] eqn:E; [done|]. apply lookup_ge_None in E. lia.
    + rewrite lookup_take_ge by lia. replace (i - n `min` length l)%nat with (i - n)%nat by lia.
      rewrite (lookup_ge_None_2 bs) by lia. rewrite lookup_drop. f_equal. lia.
Qed.

(** A list of four bytes by lookup. *)
Lemma take_4 (l l' : list Z) (n n' : nat) :
  (forall k, (k < 4)%nat -> l !! (n + k)%nat = l' !! (n' + k)%nat) -> take 4 (drop n l) = take 4 (drop n' l').
Proof.
  intros H. apply list_eq. intros k. destruct (decide (k < 4)%nat).
  - rewrite !lookup_take_lt, !lookup_drop by done. by apply H.
  - by rewrite !lookup_take_ge by lia.
Qed.

Lemma word_at_splice_other buf n bs i :
  (n + length bs <= length buf)%nat -> (i + 4 <= n \/ n + length bs <= i)%nat -> word_at (splice buf n bs) i = word_at buf i.
Proof.
  intros H Hi. unfold word_at. f_equal. apply take_4. intros k Hk. rewrite lookup_splice by done.
  by rewrite decide_False by lia.
Qed.

Lemma word_at_splice_same buf n w :
  (n + 4 <= length buf)%nat -> in_width 32 w -> word_at (splice buf n (le_bytes 4 w)) n = w.
Proof.
  intros H Hw. unfold word_at.
  assert (take 4 (drop n (splice buf n (le_bytes 4 w))) = take 4 (drop 0 (le_bytes 4 w))) as ->.
  { apply take_4. intros k Hk. rewrite lookup_splice by (rewrite le_bytes_length; lia).
    rewrite decide_True by (rewrite le_bytes_length; lia). f_equal. lia. }
  rewrite drop_0, take_ge by (by rewrite le_bytes_length). rewrite from_to_le_bytes. by apply Z.mod_small.
Qed.

Lemma word_at_app buf bs i : (i + 4 <= length buf)%nat -> word_at (buf ++ bs) i = word_at buf i.
Proof. intros H. unfold word_at. f_equal. apply take_4. intros k Hk. rewrite lookup_app_l by lia. done. Qed.

Lemma word_at_app_r buf bs i : word_at (buf ++ bs) (length buf + i) = word_at bs i.
Proof. unfold word_at. f_equal. apply take_4. intros k Hk. rewrite lookup_app_r by lia. f_equal. lia. Qed.

Lemma word_at_emitted buf w : in_width 32 w -> word_at (buf ++ le_bytes 4 w) (length buf) = w.
Proof.
  intros Hw. rewrite <- (Nat.add_0_r (length buf)), word_at_app_r. unfold word_at.
  rewrite drop_0, take_ge by (by rewrite le_bytes_length). rewrite from_to_le_bytes. by apply Z.mod_small.
Qed.

Lemma word_at_range buf i : Forall byte buf -> in_width 32 (word_at buf i).
Proof.
  intros H. unfold word_at, in_width. pose proof (from_le_bytes_range (take 4 (drop i buf))) as Hr.
  destruct Hr as [H0 H1]; [by apply Forall_take, Forall_drop|]. split; [done|].
  eapply Z.lt_le_trans; [exact H1|]. apply Z.pow_le_mono_r; [lia|]. rewrite length_take. lia.
Qed.

(** The peephole pass word by word. *)

(** What the pass makes of one word. *)
Definition peephole_word (data : bool) (w : Z) : Z :=
  if negb data && (is_self_add_x w || is_self_and_w w) then NOP else w.

Lemma patch_nop_length buf off : (off + 4 <= length buf)%nat -> length (patch_nop buf off) = length buf.
Proof. intros H. unfold patch_nop. by rewrite splice_length by (by rewrite le_bytes_length). Qed.

Definition replaces (regions : list DataRegion) (buf : list Z) (i : nat) : bool :=
  negb (in_data regions (Z.of_nat (i * 4))) && (is_self_add_x (word_at buf (i * 4)) || is_self_and_w (word_at buf (i * 4))).

(** How many of the [n] words from [i] on are replaced. *)
Fixpoint count_replaced (regions : list DataRegion) (buf : list Z) (n i : nat) : Z :=
  match n with O => 0 | S n => (if replaces regions buf i then 1 else 0) + count_replaced regions buf n (S i) end.

Lemma count_replaced_ext regions buf buf' n : forall i,
  (forall j, (i <= j < i + n)%nat -> word_at buf (j * 4) = word_at buf' (j * 4)) ->
  count_replaced regions buf n i = count_replaced regions buf' n i.
Proof.
  induction n as [|n IH]; intros i H; [done|]. cbn [count_replaced]. unfold replaces. rewrite H by lia.
  f_equal. apply IH. intros j Hj. apply H. lia.
Qed.

(** One round of the loop. *)
Lemma optimize_loop_step regions n i buf k :
  optimize_loop (S n) i regions buf k =
    optimize_loop n (S i) regions (if replaces regions buf i then patch_nop buf (i * 4) else buf) (if replaces regions buf i then k + 1 else k).
Proof. cbn [optimize_loop]. unfold replaces. by destruct (in_data _ _), (is_self_add_x _), (is_self_and_w _). Qed.

Lemma optimize_loop_spec regions n : forall i buf k,
  ((i + n) * 4 <= length buf)%nat ->
  length (optimize_loop n i regions buf k).1 = length buf /\
  (forall j, ~ (i * 4 <= j < (i + n) * 4)%nat -> (optimize_loop n i regions buf k).1 !! j = buf !! j) /\
  (forall j, (i <= j < i + n)%nat ->
     word_at (optimize_loop n i regions buf k).1 (j * 4) = peephole_word (in_data regions (Z.of_nat (j * 4))) (word_at buf (j * 4))) /\
  (optimize_loop n i regions buf k).2 = k + count_replaced regions buf n i.
Proof.
  induction n as [|n IH]; intros i buf k Hl.
  { cbn. repeat split; [|lia]. intros. lia. }
  rewrite optimize_loop_step. set (buf' := if replaces regions buf i then patch_nop buf (i * 4) else buf).
  assert (length buf' = length buf) as Hb' by (subst buf'; case_match; [apply patch_nop_length; lia|done]).
  assert (forall j, ~ (i * 4 <= j < i * 4 + 4)%nat -> buf' !! j = buf !! j) as Hother.
  { intros j Hd. subst buf'. case_match; [|done]. unfold patch_nop. rewrite lookup_splice by (rewrite le_bytes_length; lia).
    rewrite le_bytes_length. by rewrite decide_False. }
  assert (word_at buf' (i * 4) = peephole_word (in_data regions (Z.of_nat (i * 4))) (word_at buf (i * 4))) as Hw.
  { subst buf'. unfold peephole_word, replaces. destruct (negb _ && _); [|done]. apply word_at_splice_same; [lia|done]. }
  assert (forall j, (i < j)%nat -> word_at buf' (j * 4) = word_at buf (j * 4)) as Hlater.
  { intros j Hj. unfold word_at. f_equal. apply take_4. intros q Hq. apply Hother. lia. }
  destruct (IH (S i) buf' (if replaces regions buf i then k + 1 else k) ltac:(lia)) as (Hlen & Hout & Hin & Hcnt).
  split; [congruence|]. split; [|split].
  - intros j Hd. rewrite Hout, Hother by lia. done.
  - intros j Hj. destruct (decide (j = i)) as [->|].
    + rewrite <- Hw. unfold word_at. f_equal. apply take_4. intros q Hq. apply Hout. lia.
    + rewrite Hin, Hlater by lia. done.
  - rewrite Hcnt. cbn [count_replaced]. rewrite (count_replaced_ext regions buf' buf) by (intros j Hj; apply Hlater; lia).
    destruct (replaces regions buf i); lia.
Qed.

Lemma optimize_length buf regions : length (optimize buf regions).1 = length buf.
Proof.
  unfold optimize. destruct (_ <? _); [done|]. pose proof (Nat.div_mod_eq (length buf) 4).
  apply optimize_loop_spec. lia.
Qed.

Lemma optimize_word_at buf regions i :
  (i < length buf / 4)%nat ->
  word_at (optimize buf regions).1 (i * 4) = peephole_word (in_data regions (Z.of_nat (i * 4))) (word_at buf (i * 4)).
Proof.
  intros Hi. pose proof (Nat.div_mod_eq (length buf) 4). pose proof (Nat.mod_upper_bound (length buf) 4 ltac:(lia)).
  unfold optimize. destruct (Z.ltb_spec (Z.of_nat (length buf)) 4); [lia|]. apply optimize_loop_spec; lia.
Qed.

(** The peephole pass rewrites nothing but the redundant instructions: the
    buffer keeps its length, a word in a literal pool or with any other
    instruction stays as it is, a self-move or self-and outside the pools becomes
    a NOP, the bytes after the last whole word stay, and the result counts the
    words that were replaced. *)
Theorem optimize_words (buf : list Z) (regions : list DataRegion) :
  length (optimize buf regions).1 = length buf /\
  (forall i, (i < length buf / 4)%nat ->
     word_at (optimize buf regions).1 (i * 4) = peephole_word (in_data regions (Z.of_nat (i * 4))) (word_at buf (i * 4))) /\
  (forall j, (length buf / 4 * 4 <= j)%nat -> (optimize buf regions).1 !! j = buf !! j) /\
  (optimize buf regions).2 = count_replaced regions buf (length buf / 4) 0.
Proof.
  pose proof (Nat.div_mod_eq (length buf) 4) as Hdm. pose proof (Nat.mod_upper_bound (length buf) 4 ltac:(lia)) as Hmod.
  unfold optimize. destruct (Z.ltb_spec (Z.of_nat (length buf)) 4).
  - assert (length buf / 4 = 0)%nat as -> by lia. cbn. repeat split. intros. lia.
  - destruct (optimize_loop_spec regions (length buf / 4) 0 buf 0 ltac:(lia)) as (Hlen & Hout & Hin & Hcnt).
    split; [done|]. split; [intros i Hi; apply Hin; lia|]. split; [intros j Hj; apply Hout; lia|done].
Qed.

(** ** The patterns *)

(** The words of [ADD Xd, XZR, Xd] and [AND Wd, Wd, Wd]. *)
Definition self_add_word (rd : Z) : Z := 0x8B000000 .| rd .<< 16 .| 31 .<< 5 .| rd.
Definition self_and_word (rd : Z) : Z := 0x0A000000 .| rd .<< 16 .| rd .<< 5 .| rd.

Lemma land_shiftl w m k : 0 <= k -> Z.land w (Z.shiftl m k) = Z.shiftl (Z.land (Z.shiftr w k) m) k.
Proof.
  intros Hk. apply Z.bits_inj'. intros n Hn. rewrite Z.land_spec, !Z.shiftl_spec by lia.
  destruct (Z.ltb_spec (n - k) 0).
  - rewrite !(Z.testbit_neg_r _ (n - k)) by lia. apply andb_false_r.
  - rewrite Z.land_spec, Z.shiftr_spec by lia. by replace (n - k + k) with n by lia.
Qed.

(** A word is its opcode bits and three register fields. *)
Lemma word_split w :
  in_width 32 w ->
  w = (w .& 0xFFE0FC00) .| ((w .>> 16) .& 0x1F) .<< 16 .| ((w .>> 5) .& 0x1F) .<< 5 .| (w .& 0x1F).
Proof.
  intros Hw. assert (forall x, 0 <= Z.land x 0x1F < 32) as H31
    by (intros x; change 0x1F with (Z.ones 5); rewrite Z.land_ones by lia; apply Z.mod_pos_bound; lia).
  unfold shl32. rewrite (wrap_small 32 (Z.shiftl _ 16)), (wrap_small 32 (Z.shiftl _ 5)).
  - rewrite <- !land_shiftl, <- !Z.land_lor_distr_r by lia.
    change (Z.lor _ _) with (Z.ones 32). rewrite Z.land_ones, Z.mod_small by (done || lia). done.
  - rewrite Z.shiftl_mul_pow2 by lia. specialize (H31 (w .>> 5)). unfold in_width. lia.
  - rewrite Z.shiftl_mul_pow2 by lia. specialize (H31 (w .>> 16)). unfold in_width. lia.
Qed.

(** The patterns of the pass match exactly the two self-operations. *)
Lemma is_self_add_x_spec w : in_width 32 w -> is_self_add_x w = true -> exists rd, 0 <= rd < 32 /\ w = self_add_word rd.
Proof.
  intros Hw. unfold is_self_add_x. destruct (Z.eqb_spec (w .& 0xFFE0FC00) 0x8B000000) as [Hop|]; [|done]. cbn [negb]. cbv zeta.
  intros H. bool_prop. exists (w .& 0x1F). split.
  - change 0x1F with (Z.ones 5). rewrite Z.land_ones by lia. apply Z.mod_pos_bound. lia.
  - pose proof (word_split w Hw) as E. rewrite Hop, H, H0 in E. exact E.
Qed.

Lemma is_self_and_w_spec w : in_width 32 w -> is_self_and_w w = true -> exists rd, 0 <= rd < 32 /\ w = self_and_word rd.
Proof.
  intros Hw. unfold is_self_and_w. destruct (Z.eqb_spec (w .& 0xFFE0FC00) 0x0A000000) as [Hop|]; [|done]. cbn [negb]. cbv zeta.
  intros H. bool_prop. exists (w .& 0x1F). split.
  - change 0x1F with (Z.ones 5). rewrite Z.land_ones by lia. apply Z.mod_pos_bound. lia.
  - pose proof (word_split w Hw) as E. rewrite Hop, <- H0, <- H in E. exact E.
Qed.
