(* ===== verification/Lower.v ===== *)
(** The lowerer's state, operand stack and control flow
    (src/tools/a64-encoder/src/wasm_lower/{mod,stack,control}.rs).

    Every [Vec] used as a stack ([stack], [int_sym_stack], [label_stack],
    [active_loop_bounds], [tainted_locals]) is a list with its top at the head;
    the other vectors are lists in index order.  [usize] and [u32] fields are
    [Z]; subtractions that could wrap are written with their width.  A set of
    tainted locals is a list. *)

From S2P Require Import Prelude Bytes A64 WasmTypes Peephole.

Open Scope kernel_scope.
Open Scope word_scope.

Record Lowerer := mkLowerer {
  encoder : Encoder;
  stack : list ValType;
  int_depth : Z;
  fp_depth : Z;
  locals : list LocalLoc;
  label_stack : list Label;
  call_targets : list Z;
  call_sigs : list FnSig;
  has_frame : bool;
  has_memory : bool;
  saved_int_pairs : Z;
  frame_size_base : Z;
  mem_size : Z;
  table_base : option Z;
  indirect_sigs : list FnSig;
  data_regions : list DataRegion;
  n_int_locals : Z;
  max_reg_int : Z;
  spill_base : Z;
  has_spill : bool;
  pending_spill_depth : option Z;
  spill_pop_toggle : bool;
  fp_spill_base : Z;
  pending_fp_spill_depth : option Z;
  fp_spill_pop_toggle : bool;
  int_sym_stack : list (option SymAddr);
  global_types : list ValType;
  global_mutable : list bool;
  module_fn_count : Z;
  module_fn_sigs : list FnSig;
  pending_relocations : list (Z * Z);
  active_loop_bounds : list (option LoopBound);
  tainted_locals : list (list Z);
  elision_count : Z
}.

#[global] Instance Lowerer_eta : Eta Lowerer := fun r =>
  mkLowerer (encoder r) (stack r) (int_depth r) (fp_depth r) (locals r) (label_stack r) (call_targets r) (call_sigs r)
    (has_frame r) (has_memory r) (saved_int_pairs r) (frame_size_base r) (mem_size r) (table_base r) (indirect_sigs r)
    (data_regions r) (n_int_locals r) (max_reg_int r) (spill_base r) (has_spill r) (pending_spill_depth r)
    (spill_pop_toggle r) (fp_spill_base r) (pending_fp_spill_depth r) (fp_spill_pop_toggle r) (int_sym_stack r)
    (global_types r) (global_mutable r) (module_fn_count r) (module_fn_sigs r) (pending_relocations r)
    (active_loop_bounds r) (tainted_locals r) (elision_count r).
#[global] Instance set_encoder : Setter encoder := ltac:(derive_setter).
#[global] Instance set_stack : Setter stack := ltac:(derive_setter).
#[global] Instance set_int_depth : Setter int_depth := ltac:(derive_setter).
#[global] Instance set_fp_depth : Setter fp_depth := ltac:(derive_setter).
#[global] Instance set_label_stack : Setter label_stack := ltac:(derive_setter).
#[global] Instance set_call_sigs_ : Setter call_sigs := ltac:(derive_setter).
#[global] Instance set_mem_size_ : Setter mem_size := ltac:(derive_setter).
#[global] Instance set_table_base : Setter table_base := ltac:(derive_setter).
#[global] Instance set_indirect_sigs : Setter indirect_sigs := ltac:(derive_setter).
#[global] Instance set_data_regions : Setter data_regions := ltac:(derive_setter).
#[global] Instance set_pending_spill_depth : Setter pending_spill_depth := ltac:(derive_setter).
#[global] Instance set_spill_pop_toggle : Setter spill_pop_toggle := ltac:(derive_setter).
#[global] Instance set_pending_fp_spill_depth : Setter pending_fp_spill_depth := ltac:(derive_setter).
#[global] Instance set_fp_spill_pop_toggle : Setter fp_spill_pop_toggle := ltac:(derive_setter).
#[global] Instance set_int_sym_stack : Setter int_sym_stack := ltac:(derive_setter).
#[global] Instance set_global_types : Setter global_types := ltac:(derive_setter).
#[global] Instance set_global_mutable : Setter global_mutable := ltac:(derive_setter).
#[global] Instance set_module_fn_count : Setter module_fn_count := ltac:(derive_setter).
#[global] Instance set_module_fn_sigs_ : Setter module_fn_sigs := ltac:(derive_setter).
#[global] Instance set_pending_relocations : Setter pending_relocations := ltac:(derive_setter).
#[global] Instance set_active_loop_bounds : Setter active_loop_bounds := ltac:(derive_setter).
#[global] Instance set_tainted_locals : Setter tainted_locals := ltac:(derive_setter).
#[global] Instance set_elision_count : Setter elision_count := ltac:(derive_setter).

Abbreviation L := (M Lowerer LowerError).

(** [self.enc.f(..)?]: an encoder error becomes [LowerError::Encode]. *)
Definition asm_on {A} (m : EncM A) : M Encoder LowerError A :=
  fun e => match m e with
           | (e', Ok a) => (e', Ok a)
           | (e', Err x) => (e', Err (Encode x))
           | (e', Panic) => (e', Panic)
           end.

Definition on_encoder {A} (m : M Encoder LowerError A) : L A :=
  fun s => match m (encoder s) with (e', r) => (s <| encoder := e' |>, r) end.

Definition asm {A} (m : EncM A) : L A := on_encoder (asm_on m).

Definition enc_pos : L Z := gets (fun s => pos (encoder s)).

(** ** Registers of the operand stack (stack.rs) *)

Definition int_depth_to_reg (s : Lowerer) (depth : Z) : option Reg :=
  if depth <? MAX_PRIMARY_INT then Some (MkReg (u8 depth))
  else if depth <? max_reg_int s then
    let overflow_base := u8 (LOCAL_I32_BASE_REG + u8 (n_int_locals s)) in
    let overflow_idx := u8 (depth - MAX_PRIMARY_INT) in
    Some (MkReg (u8 (overflow_base + overflow_idx)))
  else None.

Definition spill_offset (s : Lowerer) (depth : Z) : Z :=
  let spill_idx := u64 (depth - max_reg_int s) in
  u32 (spill_base s + u32 spill_idx * SPILL_SLOT_BYTES).

Definition fp_spill_offset (s : Lowerer) (depth : Z) : Z :=
  let spill_idx := u64 (depth - MAX_F32_STACK) in
  u32 (fp_spill_base s + u32 spill_idx * FP_SPILL_SLOT_BYTES).

Definition flush_pending_spill : L unit :=
  s <- gets id ;;
  match pending_spill_depth s with
  | Some depth =>
      modify (fun s => s <| pending_spill_depth := None |>) ;;;
      asm (Enc.str_imm SPILL_SCRATCH_A SP (spill_offset s depth))
  | None => M_ret tt
  end.

Definition flush_pending_fp_spill : L unit :=
  s <- gets id ;;
  match pending_fp_spill_depth s with
  | Some depth =>
      modify (fun s => s <| pending_fp_spill_depth := None |>) ;;;
      asm (Enc.str_q_imm FP_SPILL_SCRATCH_A SP (fp_spill_offset s depth))
  | None => M_ret tt
  end.

(** ** Symbolic stack *)

Definition set_top_sym (sym : option SymAddr) : L unit :=
  modify (fun s => match int_sym_stack s with
                   | [] => s
                   | _ :: l => s <| int_sym_stack := sym :: l |>
                   end).

Definition peek_sym_at (n : nat) : L (option SymAddr) :=
  gets (fun s => mjoin (int_sym_stack s !! n)).

Definition peek_top_sym : L (option SymAddr) := gets (fun s => mjoin (head (int_sym_stack s))).

(** ** Integer slots: [push_i32_slot] and [push_i64_slot] differ in the type *)

Definition push_int (t : ValType) : L unit :=
  modify (fun s => s <| int_depth := int_depth s + 1 |> <| stack := t :: stack s |>
                     <| int_sym_stack := None :: int_sym_stack s |>).

Definition push_int_slot (t : ValType) : L Reg :=
  flush_pending_spill ;;;
  s <- gets id ;;
  let depth := int_depth s in
  match int_depth_to_reg s depth with
  | Some r => push_int t ;;; M_ret r
  | None =>
      if has_spill s && (depth <? max_reg_int s + MAX_FRAME_SPILL) then
        modify (fun s => s <| pending_spill_depth := Some depth |>) ;;;
        push_int t ;;;
        M_ret SPILL_SCRATCH_A
      else throw (TypedStackOverflow t)
  end.

(** [self.stack.last().copied().ok_or(StackUnderflow)] and the type test *)
Definition expect_top (t : ValType) : L unit :=
  l <- gets stack ;;
  ty <- ok_or (head l) StackUnderflow ;;
  fail_if (negb (bool_decide (ty = t))) (TypeMismatch t ty).

Definition pop_int_slot (t : ValType) : L Reg :=
  flush_pending_spill ;;;
  expect_top t ;;;
  modify (fun s => s <| stack := tail (stack s) |> <| int_sym_stack := tail (int_sym_stack s) |>
                     <| int_depth := u64 (int_depth s - 1) |>) ;;;
  s <- gets id ;;
  let depth := int_depth s in
  match int_depth_to_reg s depth with
  | Some r => M_ret r
  | None =>
      let scratch := if spill_pop_toggle s then SPILL_SCRATCH_B else SPILL_SCRATCH_A in
      modify (fun s => s <| spill_pop_toggle := negb (spill_pop_toggle s) |>) ;;;
      asm (Enc.ldr_imm scratch SP (spill_offset s depth)) ;;;
      M_ret scratch
  end.

Definition push_i32_slot : L Reg := push_int_slot I32.
Definition pop_i32_slot : L Reg := pop_int_slot I32.
Definition push_i64_slot : L Reg := push_int_slot I64.
Definition pop_i64_slot : L Reg := pop_int_slot I64.

(** ** Vector slots: the f32, f64 and v128 variants differ in the type *)

Definition push_fp (t : ValType) : L unit :=
  modify (fun s => s <| fp_depth := fp_depth s + 1 |> <| stack := t :: stack s |>).

Definition push_fp_slot (t : ValType) : L Vreg :=
  flush_pending_fp_spill ;;;
  s <- gets id ;;
  let depth := fp_depth s in
  if depth <? MAX_F32_STACK then
    v <- ok_or (Vreg_new (u8 depth)) (TypedStackOverflow t) ;;
    push_fp t ;;;
    M_ret v
  else if has_spill s && (depth <? MAX_F32_STACK + MAX_FP_SPILL) then
    modify (fun s => s <| pending_fp_spill_depth := Some depth |>) ;;;
    push_fp t ;;;
    M_ret FP_SPILL_SCRATCH_A
  else throw (TypedStackOverflow t).

Definition pop_fp_slot (t : ValType) : L Vreg :=
  flush_pending_fp_spill ;;;
  expect_top t ;;;
  modify (fun s => s <| stack := tail (stack s) |> <| fp_depth := u64 (fp_depth s - 1) |>) ;;;
  s <- gets id ;;
  let depth := fp_depth s in
  if depth <? MAX_F32_STACK then ok_or (Vreg_new (u8 depth)) StackUnderflow
  else
    let scratch := if fp_spill_pop_toggle s then FP_SPILL_SCRATCH_B else FP_SPILL_SCRATCH_A in
    modify (fun s => s <| fp_spill_pop_toggle := negb (fp_spill_pop_toggle s) |>) ;;;
    asm (Enc.ldr_q_imm scratch SP (fp_spill_offset s depth)) ;;;
    M_ret scratch.

Definition push_f32_slot : L Vreg := push_fp_slot F32.
Definition pop_f32_slot : L Vreg := pop_fp_slot F32.
Definition push_f64_slot : L Vreg := push_fp_slot F64.
Definition pop_f64_slot : L Vreg := pop_fp_slot F64.
Definition push_v128_slot : L Vreg := push_fp_slot V128.
Definition pop_v128_slot : L Vreg := pop_fp_slot V128.

(** ** Control flow (control.rs) *)

Definition rt_from_cbz_at (e : Encoder) (pos : Z) : Reg :=
  let word := from_le_bytes (take 4 (drop (Z.to_nat pos) (as_bytes e))) in
  default X0 (Reg_new (word .& 0x1F)).

Definition push_label (k : LabelKind) (start : option Z) : L unit :=
  modify (fun s => s <| label_stack := mkLabel k start [] (length (stack s)) :: label_stack s |>).

Definition lower_block : L unit := push_label KBlock None.

Definition lower_loop : L unit := p <- enc_pos ;; push_label KLoop (Some p).

(** The label at a branch depth; the innermost label has depth 0. *)
Definition label_at (depth : Z) : L Label :=
  l <- gets label_stack ;; ok_or (l !! Z.to_nat depth) LabelOutOfRange.

Definition add_pending (depth : Z) (p : PendingPatch) : L unit :=
  modify (fun s => s <| label_stack :=
    alter (fun l => mkLabel (kind l) (loop_start l) (pending l ++ [p]) (entry_depth l)) (Z.to_nat depth) (label_stack s) |>).

(** [target as i32 - here as i32] *)
Definition i32_offset (target here : Z) : Z := i32 (i32 target - i32 here).

Definition lower_br (depth : Z) : L unit :=
  l <- label_at depth ;;
  here <- enc_pos ;;
  match kind l with
  | KLoop =>
      match loop_start l with
      | Some target => asm (Enc.b (i32_offset target here))
      | None => panic
      end
  | _ => asm (Enc.b 0) ;;; add_pending depth (PatchB here)
  end.

Definition lower_br_if (depth : Z) : L unit :=
  cond <- pop_i32_slot ;;
  l <- label_at depth ;;
  here <- enc_pos ;;
  match kind l with
  | KLoop =>
      match loop_start l with
      | Some target => asm (Enc.cbnz_w cond (i32_offset target here))
      | None => panic
      end
  | _ => asm (Enc.cbnz_w cond 0) ;;; add_pending depth (PatchCbnzW here cond)
  end.

(** [encode(..).map_err(|_| BranchOutOfRange)?] then [patch_word] *)
Definition patch_with (at_ : Z) (word : u32_result) : L unit :=
  match word with
  | inl w => on_encoder (patch_word at_ w)
  | inr _ => throw BranchOutOfRange
  end.

Definition patch_pending (p : PendingPatch) (target : Z) : L unit :=
  match p with
  | PatchB pos => patch_with pos (encode_b (i32_offset target pos))
  | PatchCbnzW pos rt => patch_with pos (encode_cbnz_w rt (i32_offset target pos))
  end.

Fixpoint patch_all (ps : list PendingPatch) (target : Z) : L unit :=
  match ps with
  | [] => M_ret tt
  | p :: ps => patch_pending p target ;;; patch_all ps target
  end.

(** The conditional branch of an [if]; reading its word back panics when it is
    not in the buffer. *)
Definition patch_cond (cond_branch_pos target : Z) : L unit :=
  e <- gets encoder ;;
  if pos e <? cond_branch_pos + 4 then panic else
  patch_with cond_branch_pos (encode_cbz_w (rt_from_cbz_at e cond_branch_pos) (i32_offset target cond_branch_pos)).

Definition lower_block_end : L unit :=
  ls <- gets label_stack ;;
  label <- ok_or (head ls) UnbalancedEnd ;;
  modify (fun s => s <| label_stack := tail (label_stack s) |>) ;;;
  target <- enc_pos ;;
  match kind label with
  | KBlock => patch_all (pending label) target
  | KLoop => M_ret tt
  | KIf cond_branch_pos => patch_cond cond_branch_pos target ;;; patch_all (pending label) target
  | KIfElse else_skip_pos =>
      patch_with else_skip_pos (encode_b (i32_offset target else_skip_pos)) ;;;
      patch_all (pending label) target
  end.

Definition lower_if : L unit :=
  cond <- pop_i32_slot ;;
  p <- enc_pos ;;
  asm (Enc.cbz_w cond 0) ;;;
  push_label (KIf p) None.

(** The loop pops down to [target]; the operand counts follow the types. *)
Fixpoint truncate_loop (n : nat) (s : Lowerer) : Lowerer :=
  match n with
  | O => s
  | S n =>
      match stack s with
      | [] => s
      | ty :: l =>
          let s := s <| stack := l |> in
          truncate_loop n
            (if is_int ty
             then s <| int_depth := u64 (int_depth s - 1) |> <| int_sym_stack := tail (int_sym_stack s) |>
             else s <| fp_depth := u64 (fp_depth s - 1) |>)
      end
  end.

Definition truncate_stack_to (target : nat) : L unit :=
  modify (fun s => truncate_loop (length (stack s) - target) s).

Definition lower_else : L unit :=
  ls <- gets label_stack ;;
  label <- ok_or (head ls) ElseWithoutIf ;;
  match kind label with
  | KIf cond_branch_pos =>
      skip_pos <- enc_pos ;;
      asm (Enc.b 0) ;;;
      else_target <- enc_pos ;;
      patch_cond cond_branch_pos else_target ;;;
      modify (fun s => s <| label_stack :=
        mkLabel (KIfElse skip_pos) (loop_start label) (pending label) (entry_depth label) :: tail (label_stack s) |>) ;;;
      truncate_stack_to (entry_depth label)
  | _ => throw ElseWithoutIf
  end.
