(* ===== verification/LowerOps.v ===== *)
(** The lowering of every operation
    (src/tools/a64-encoder/src/wasm_lower/{scalar,memory,globals,call,convert,simd,mod}.rs). *)

From S2P Require Import Prelude Bytes A64 WasmTypes Peephole Lower.

Open Scope kernel_scope.
Open Scope word_scope.

(** ** Symbolic values (scalar.rs)

    [SConst] holds a [u32], [SBounded] a [u64]. *)

Definition U64_SHL (x s : Z) : Z := u64 (Z.shiftl x s).

Definition saturating_mul (w a b : Z) : Z := Z.min (2 ^ w - 1) (a * b).

Definition sym_add (a b : option SymAddr) : option SymAddr :=
  match a, b with
  | Some (SConst x), Some (SConst y) => Some (SConst (saturating_add 32 x y))
  | Some x, Some y => Some (SBounded (saturating_add 64 (sym_max x) (sym_max y)))
  | _, _ => None
  end.

Definition sym_mul (a b : option SymAddr) : option SymAddr :=
  match a, b with
  | Some (SConst x), Some (SConst y) => Some (SConst (saturating_mul 32 x y))
  | Some x, Some y => Some (SBounded (saturating_mul 64 (sym_max x) (sym_max y)))
  | _, _ => None
  end.

(** [checked_shl] fails only on a shift by the width or more. *)
Definition sym_shl (a b : option SymAddr) : option SymAddr :=
  match b with
  | Some (SConst s) =>
      if s <? 32 then
        match a with
        | Some (SConst x) => Some (SConst (x .<< s))
        | Some (SBounded m) => Some (SBounded (U64_SHL m s))
        | None => None
        end
      else None
  | _ => None
  end.

Definition sym_shr_u (a b : option SymAddr) : option SymAddr :=
  match b with
  | Some (SConst s) =>
      if s <? 32 then
        match a with
        | Some (SConst x) => Some (SConst (x .>> s))
        | Some (SBounded m) => Some (SBounded (m .>> s))
        | None => None
        end
      else None
  | _ => None
  end.

Definition sym_and (a b : option SymAddr) : option SymAddr :=
  match a, b with
  | Some (SConst x), Some (SConst y) => Some (SConst (x .& y))
  | Some x, Some y => Some (SBounded (Z.min (sym_max x) (sym_max y)))
  | Some x, None | None, Some x => Some (SBounded (sym_max x))
  | None, None => None
  end.

Definition sym_select (a b : option SymAddr) : option SymAddr :=
  match a, b with
  | Some (SConst x), Some (SConst y) => if x =? y then Some (SConst x) else Some (SBounded (Z.max x y))
  | Some x, Some y => Some (SBounded (Z.max (sym_max x) (sym_max y)))
  | _, _ => None
  end.

(** ** Loop bounds (mod.rs, scalar.rs) *)

(** The guard that may open the body of a loop. *)
Definition loop_guard (body : list WasmOp) : option LoopBound :=
  match body with
  | LocalGet local :: I32Const m :: (I32GeS | I32GtS) :: BrIf _ :: _ =>
      if 0 <=? m then Some (mkLoopBound local m) else None
  | _ => None
  end.

(** The map from the index of a [loop] to its bound, as a lookup in the list of
    operations. *)
Definition scan_loop_bounds (ops : list WasmOp) (i : nat) : option LoopBound :=
  match drop i ops with
  | Loop :: body => loop_guard body
  | _ => None
  end.

(** For every index from [i] on, whether an [end] there closes a loop. *)
Fixpoint loop_ends (open : list bool) (ops : list WasmOp) : list bool :=
  match ops with
  | [] => []
  | (Block | If) :: ops => false :: loop_ends (false :: open) ops
  | Loop :: ops => false :: loop_ends (true :: open) ops
  | End :: ops => match open with
                  | [] => false :: loop_ends [] ops
                  | was_loop :: open => was_loop :: loop_ends open ops
                  end
  | _ :: ops => false :: loop_ends open ops
  end.

Definition compute_loop_end_indices (ops : list WasmOp) : list bool := loop_ends [] ops.

Fixpoint bound_in (bounds : list (option LoopBound)) (taints : list (list Z)) (idx : Z) : option Z :=
  match bounds with
  | [] => None
  | b :: bounds =>
      match b with
      | Some b =>
          if counter_local b =? idx then
            match head taints with
            | Some ts => if bool_decide (idx ∈ ts) then None else Some (max_value b)
            | None => Some (max_value b)
            end
          else bound_in bounds (tail taints) idx
      | None => bound_in bounds (tail taints) idx
      end
  end.

Definition local_bound (idx : Z) : L (option Z) :=
  gets (fun s => bound_in (active_loop_bounds s) (tainted_locals s) idx).

Definition taint_local (idx : Z) : L unit :=
  modify (fun s => s <| tainted_locals := (fun ts => idx :: ts) <$> tainted_locals s |>).

(** ** Constants *)

(** [if h != 0 { movk(r, h, shift)?; }] *)
Definition movk_part (r : Reg) (h : Z) (shift : MovShift) : L unit :=
  if h =? 0 then M_ret tt else asm (Enc.movk r h shift).

Definition part (bits k : Z) : Z := (bits .>> k) .& 0xFFFF.

Definition load_u32_into_reg (r : Reg) (val : Z) : L unit :=
  asm (Enc.movz r (val .& 0xFFFF) Lsl0) ;;;
  movk_part r (part val 16) Lsl16.

Definition load_u64_into_reg (r : Reg) (val : Z) : L unit :=
  asm (Enc.movz r (val .& 0xFFFF) Lsl0) ;;;
  movk_part r (part val 16) Lsl16 ;;;
  movk_part r (part val 32) Lsl32 ;;;
  movk_part r (part val 48) Lsl48.

Definition lower_const (c : Z) : L unit :=
  r <- push_i32_slot ;;
  load_u32_into_reg r (u32 c) ;;;
  if 0 <=? c then set_top_sym (Some (SConst (u32 c))) else M_ret tt.

Definition lower_i64_const (c : Z) : L unit :=
  r <- push_i64_slot ;;
  load_u64_into_reg r (u64 c).

Definition lower_f32_const (bits : Z) : L unit :=
  load_u32_into_reg X16 bits ;;;
  dst <- push_f32_slot ;;
  asm (Enc.fmov_s_from_w dst X16).

Definition lower_f64_const (bits : Z) : L unit :=
  load_u64_into_reg X16 bits ;;;
  dst <- push_f64_slot ;;
  asm (Enc.fmov_d_from_x dst X16).

(** ** Integer arithmetic *)

Definition lower_eqz : L unit :=
  src <- pop_i32_slot ;;
  dst <- push_i32_slot ;;
  asm (Enc.cmp_w src ZR) ;;;
  asm (Enc.cset dst Eq).

Definition emit_binop (op : BinOp) (dst lhs rhs : Reg) : L unit :=
  match op with
  | BAdd => asm (Enc.add dst lhs rhs)
  | BSub => asm (Enc.sub dst lhs rhs)
  | BMul => asm (Enc.mul dst lhs rhs)
  | BDivS => asm (Enc.sdiv dst lhs rhs)
  | BDivU => asm (Enc.udiv dst lhs rhs)
  | BAnd => asm (Enc.and_w dst lhs rhs)
  | BOr => asm (Enc.orr_w dst lhs rhs)
  | BXor => asm (Enc.eor_w dst lhs rhs)
  | BShl => asm (Enc.lsl_w dst lhs rhs)
  | BShrS => asm (Enc.asr_w dst lhs rhs)
  | BShrU => asm (Enc.lsr_w dst lhs rhs)
  | BCmp cond => asm (Enc.cmp_w lhs rhs) ;;; asm (Enc.cset dst cond)
  end.

Definition binop_sym (op : BinOp) (lhs_sym rhs_sym : option SymAddr) : option SymAddr :=
  match op with
  | BAdd => sym_add lhs_sym rhs_sym
  | BMul => sym_mul lhs_sym rhs_sym
  | BShl => sym_shl lhs_sym rhs_sym
  | BShrU => sym_shr_u lhs_sym rhs_sym
  | BAnd => sym_and lhs_sym rhs_sym
  | _ => None
  end.

Definition lower_binop (op : BinOp) : L unit :=
  rhs_sym <- peek_sym_at 0 ;;
  lhs_sym <- peek_sym_at 1 ;;
  rhs <- pop_i32_slot ;;
  lhs <- pop_i32_slot ;;
  dst <- push_i32_slot ;;
  emit_binop op dst lhs rhs ;;;
  set_top_sym (binop_sym op lhs_sym rhs_sym).

Definition emit_i64_binop (op : I64Op) (dst lhs rhs : Reg) : L unit :=
  match op with
  | LAdd => asm (Enc.add dst lhs rhs)
  | LSub => asm (Enc.sub dst lhs rhs)
  | LMul => asm (Enc.mul dst lhs rhs)
  | LDivS => asm (Enc.sdiv dst lhs rhs)
  | LDivU => asm (Enc.udiv dst lhs rhs)
  | LAnd => asm (Enc.and_x dst lhs rhs)
  | LOr => asm (Enc.orr_x dst lhs rhs)
  | LXor => asm (Enc.eor_x dst lhs rhs)
  | LShl => asm (Enc.lsl_x dst lhs rhs)
  | LShrS => asm (Enc.asr_x dst lhs rhs)
  | LShrU => asm (Enc.lsr_x dst lhs rhs)
  end.

Definition lower_i64_binop (op : I64Op) : L unit :=
  rhs <- pop_i64_slot ;;
  lhs <- pop_i64_slot ;;
  dst <- push_i64_slot ;;
  emit_i64_binop op dst lhs rhs.

Definition lower_i64_eqz : L unit :=
  src <- pop_i64_slot ;;
  dst <- push_i32_slot ;;
  asm (Enc.cmp_x src ZR) ;;;
  asm (Enc.cset dst Eq).

Definition lower_i64_cmp (cond : Condition) : L unit :=
  rhs <- pop_i64_slot ;;
  lhs <- pop_i64_slot ;;
  dst <- push_i32_slot ;;
  asm (Enc.cmp_x lhs rhs) ;;;
  asm (Enc.cset dst cond).

(** ** Floating point *)

Definition lower_f32_binop (op : FBinOp) : L unit :=
  rhs <- pop_f32_slot ;;
  lhs <- pop_f32_slot ;;
  dst <- push_f32_slot ;;
  asm (match op with
       | FAdd => Enc.fadd_s dst lhs rhs | FSub => Enc.fsub_s dst lhs rhs
       | FMul => Enc.fmul_s dst lhs rhs | FDiv => Enc.fdiv_s dst lhs rhs
       end).

Definition lower_f32_cmp (cond : Condition) : L unit :=
  rhs <- pop_f32_slot ;;
  lhs <- pop_f32_slot ;;
  dst <- push_i32_slot ;;
  asm (Enc.fcmp_s lhs rhs) ;;;
  asm (Enc.cset dst cond).

Definition lower_f64_binop (op : FBinOp) : L unit :=
  rhs <- pop_f64_slot ;;
  lhs <- pop_f64_slot ;;
  dst <- push_f64_slot ;;
  asm (match op with
       | FAdd => Enc.fadd_d dst lhs rhs | FSub => Enc.fsub_d dst lhs rhs
       | FMul => Enc.fmul_d dst lhs rhs | FDiv => Enc.fdiv_d dst lhs rhs
       end).

Definition lower_f64_cmp (cond : Condition) : L unit :=
  rhs <- pop_f64_slot ;;
  lhs <- pop_f64_slot ;;
  dst <- push_i32_slot ;;
  asm (Enc.fcmp_d lhs rhs) ;;;
  asm (Enc.cset dst cond).

(** ** Locals *)

Definition local_loc (idx : Z) : L LocalLoc :=
  l <- gets locals ;; ok_or (l !! Z.to_nat idx) LocalOutOfRange.

Definition lower_local_get (idx : Z) : L unit :=
  bound <- local_bound idx ;;
  loc <- local_loc idx ;;
  match loc with
  | LocI32 local =>
      dst <- push_i32_slot ;;
      asm (Enc.add dst ZR local) ;;;
      set_top_sym (SBounded <$> bound)
  | LocI64 local => dst <- push_i64_slot ;; asm (Enc.add dst ZR local)
  | LocF32 local => dst <- push_f32_slot ;; asm (Enc.fmov_s_s dst local)
  | LocF64 local => dst <- push_f64_slot ;; asm (Enc.fmov_d_d dst local)
  | LocV128 local => dst <- push_v128_slot ;; asm (Enc.orr_16b_vec dst local local)
  end.

(** The register of the top slot as [local.tee] and [return] compute it. *)
Definition top_int : L Reg := gets (fun s => MkReg (u8 (int_depth s - 1))).
Definition top_fp : L Vreg := gets (fun s => MkVreg (u8 (fp_depth s - 1))).

Definition lower_local_tee (idx : Z) : L unit :=
  taint_local idx ;;;
  loc <- local_loc idx ;;
  match loc with
  | LocI32 local => expect_top I32 ;;; src <- top_int ;; asm (Enc.add local ZR src)
  | LocI64 local => expect_top I64 ;;; src <- top_int ;; asm (Enc.add local ZR src)
  | LocF32 local => expect_top F32 ;;; src <- top_fp ;; asm (Enc.fmov_s_s local src)
  | LocF64 local => expect_top F64 ;;; src <- top_fp ;; asm (Enc.fmov_d_d local src)
  | LocV128 local => expect_top V128 ;;; src <- top_fp ;; asm (Enc.orr_16b_vec local src src)
  end.

Definition lower_local_set (idx : Z) : L unit :=
  taint_local idx ;;;
  loc <- local_loc idx ;;
  match loc with
  | LocI32 local => src <- pop_i32_slot ;; asm (Enc.add local ZR src)
  | LocI64 local => src <- pop_i64_slot ;; asm (Enc.add local ZR src)
  | LocF32 local => src <- pop_f32_slot ;; asm (Enc.fmov_s_s local src)
  | LocF64 local => src <- pop_f64_slot ;; asm (Enc.fmov_d_d local src)
  | LocV128 local => src <- pop_v128_slot ;; asm (Enc.orr_16b_vec local src src)
  end.

Definition stack_last : L ValType := l <- gets stack ;; ok_or (head l) StackUnderflow.

Definition pop_any (t : ValType) : L unit :=
  match t with
  | I32 => pop_i32_slot ;;; M_ret tt
  | I64 => pop_i64_slot ;;; M_ret tt
  | F32 => pop_f32_slot ;;; M_ret tt
  | F64 => pop_f64_slot ;;; M_ret tt
  | V128 => pop_v128_slot ;;; M_ret tt
  end.

Definition lower_drop : L unit := ty <- stack_last ;; pop_any ty.

Definition lower_select : L unit :=
  cond <- pop_i32_slot ;;
  asm (Enc.cmp_w cond ZR) ;;;
  top_ty <- stack_last ;;
  match top_ty with
  | I32 =>
      val_false_sym <- peek_top_sym ;;
      val_false <- pop_i32_slot ;;
      val_true_sym <- peek_top_sym ;;
      val_true <- pop_i32_slot ;;
      dst <- push_i32_slot ;;
      asm (Enc.csel dst val_true val_false Ne) ;;;
      set_top_sym (sym_select val_true_sym val_false_sym)
  | I64 =>
      val_false_sym <- peek_top_sym ;;
      val_false <- pop_i64_slot ;;
      val_true_sym <- peek_top_sym ;;
      val_true <- pop_i64_slot ;;
      dst <- push_i64_slot ;;
      asm (Enc.csel dst val_true val_false Ne) ;;;
      set_top_sym (sym_select val_true_sym val_false_sym)
  | F32 =>
      val_false <- pop_f32_slot ;;
      val_true <- pop_f32_slot ;;
      dst <- push_f32_slot ;;
      asm (Enc.fcsel_s dst val_true val_false Ne)
  | F64 =>
      val_false <- pop_f64_slot ;;
      val_true <- pop_f64_slot ;;
      dst <- push_f64_slot ;;
      asm (Enc.fcsel_d dst val_true val_false Ne)
  | V128 => throw V128ReturnUnsupported
  end.

(** ** Epilogue, traps and bounds checks (memory.rs) *)

(** [for pair in 0..saved_int_pairs]: reload X19.. in pairs. *)
Fixpoint restore_pairs (n : nat) (pair n_int : Z) : L unit :=
  match n with
  | O => M_ret tt
  | S n =>
      let r1 := MkReg (u8 (LOCAL_I32_BASE_REG + u8 (pair * 2))) in
      let r2 := if pair * 2 + 1 <? n_int then MkReg (u8 (LOCAL_I32_BASE_REG + u8 (pair * 2 + 1))) else ZR in
      asm (Enc.ldp_offset_64 r1 r2 SP (16 + pair * 16)) ;;;
      restore_pairs n (pair + 1) n_int
  end.

Definition emit_epilogue : L unit :=
  s <- gets id ;;
  if negb (has_frame s) then M_ret tt else
  restore_pairs (Z.to_nat (saved_int_pairs s)) 0 (saved_int_pairs s * 2) ;;;
  (if has_memory s then asm (Enc.ldr_imm MEM_BASE_REG SP (u32 (frame_size_base s - 16))) else M_ret tt) ;;;
  asm (Enc.ldp_post_indexed_64 X29 X30 SP (frame_size_base s)).

Definition emit_trap_kind (kind : Z) : L unit :=
  asm (Enc.movn X0 kind Lsl0) ;;;
  emit_epilogue ;;;
  asm (Enc.ret X30).

Definition emit_bounds_check (addr_reg : Reg) (access_size offset : Z) (is_store : bool) : L unit :=
  let trap_kind := if is_store then 2 else 1 in
  s <- gets id ;;
  match checked_add 32 offset access_size with
  | None => emit_trap_kind trap_kind
  | Some access_end =>
      if mem_size s <? access_end then emit_trap_kind trap_kind else
      let max_valid := mem_size s - access_end in
      load_u32_into_reg X16 max_valid ;;;
      asm (Enc.cmp_w addr_reg X16) ;;;
      b_cond_pos <- enc_pos ;;
      asm (Enc.b_cond Ls 0) ;;;
      emit_trap_kind trap_kind ;;;
      after_trap <- enc_pos ;;
      let skip_offset := i32_offset after_trap b_cond_pos in
      match encode_b_cond Ls skip_offset with
      | inl patched => on_encoder (patch_word b_cond_pos patched)
      | inr e => throw (Encode e)
      end
  end.

Definition maybe_bounds_check (addr_reg : Reg) (access_size offset : Z) (is_store : bool) (addr_sym : option SymAddr) : L unit :=
  s <- gets id ;;
  let elide := match addr_sym with
               | Some a => saturating_add 64 (saturating_add 64 (sym_max a) offset) access_size <=? mem_size s
               | None => false
               end in
  if elide then modify (fun s => s <| elision_count := u32 (elision_count s + 1) |>)
  else emit_bounds_check addr_reg access_size offset is_store.

Definition full_addr_in_x16 (addr_reg : Reg) (offset : Z) : L Z :=
  asm (Enc.add_ext_uxtw X16 MEM_BASE_REG addr_reg) ;;;
  if 16380 <? offset then
    load_u32_into_reg X17 offset ;;;
    asm (Enc.add X16 X16 X17) ;;;
    M_ret 0
  else M_ret offset.

Definition need_memory : L unit :=
  m <- gets has_memory ;; fail_if (negb m) MemoryNotConfigured.

Definition lower_load (offset : Z) : L unit :=
  need_memory ;;;
  addr_sym <- peek_top_sym ;;
  addr <- pop_i32_slot ;;
  maybe_bounds_check addr 4 offset false addr_sym ;;;
  dst <- push_i32_slot ;;
  eff <- full_addr_in_x16 addr offset ;;
  asm (Enc.ldr_w_imm dst X16 eff).

Definition lower_store (offset : Z) : L unit :=
  need_memory ;;;
  addr_sym <- peek_sym_at 1 ;;
  val <- pop_i32_slot ;;
  addr <- pop_i32_slot ;;
  maybe_bounds_check addr 4 offset true addr_sym ;;;
  eff <- full_addr_in_x16 addr offset ;;
  asm (Enc.str_w_imm val X16 eff).

Definition lower_f32_load (offset : Z) : L unit :=
  need_memory ;;;
  addr_sym <- peek_top_sym ;;
  addr <- pop_i32_slot ;;
  maybe_bounds_check addr 4 offset false addr_sym ;;;
  dst <- push_f32_slot ;;
  eff <- full_addr_in_x16 addr offset ;;
  asm (Enc.ldr_s_imm dst X16 eff).

Definition lower_f32_store (offset : Z) : L unit :=
  need_memory ;;;
  addr_sym <- peek_top_sym ;;
  val <- pop_f32_slot ;;
  addr <- pop_i32_slot ;;
  maybe_bounds_check addr 4 offset true addr_sym ;;;
  eff <- full_addr_in_x16 addr offset ;;
  asm (Enc.str_s_imm val X16 eff).

Definition lower_f64_load (offset : Z) : L unit :=
  need_memory ;;;
  addr_sym <- peek_top_sym ;;
  addr <- pop_i32_slot ;;
  maybe_bounds_check addr 8 offset false addr_sym ;;;
  dst <- push_f64_slot ;;
  eff <- full_addr_in_x16 addr offset ;;
  asm (Enc.ldr_d_imm dst X16 eff).

Definition lower_f64_store (offset : Z) : L unit :=
  need_memory ;;;
  addr_sym <- peek_top_sym ;;
  val <- pop_f64_slot ;;
  addr <- pop_i32_slot ;;
  maybe_bounds_check addr 8 offset true addr_sym ;;;
  eff <- full_addr_in_x16 addr offset ;;
  asm (Enc.str_d_imm val X16 eff).

Definition lower_i64_load (offset : Z) : L unit :=
  need_memory ;;;
  addr_sym <- peek_top_sym ;;
  addr <- pop_i32_slot ;;
  maybe_bounds_check addr 8 offset false addr_sym ;;;
  dst <- push_i64_slot ;;
  eff <- full_addr_in_x16 addr offset ;;
  asm (Enc.ldr_imm dst X16 eff).

Definition lower_i64_store (offset : Z) : L unit :=
  need_memory ;;;
  addr_sym <- peek_sym_at 1 ;;
  val <- pop_i64_slot ;;
  addr <- pop_i32_slot ;;
  maybe_bounds_check addr 8 offset true addr_sym ;;;
  eff <- full_addr_in_x16 addr offset ;;
  asm (Enc.str_imm val X16 eff).

(** ** Globals (globals.rs) *)

Definition global_mem_offset (s : Lowerer) (idx : Z) : Z :=
  u32 (mem_size s - GLOBAL_AREA_SIZE + idx * GLOBAL_SLOT_BYTES).

(** [global_types\[i\]] and [global_mutable\[i\]]; [set_globals] keeps the lengths
    equal. *)
Definition global_entry (idx : Z) : L (ValType * bool * Z) :=
  s <- gets id ;;
  match global_types s !! Z.to_nat idx, global_mutable s !! Z.to_nat idx with
  | None, _ => throw GlobalOutOfRange
  | Some ty, Some mutable => M_ret (ty, mutable, global_mem_offset s idx)
  | Some _, None => panic
  end.

Definition materialize_global_addr (off : Z) : L unit :=
  load_u32_into_reg X16 off ;;;
  asm (Enc.add_ext_uxtw X16 MEM_BASE_REG X16).

Definition lower_global_get (idx : Z) : L unit :=
  need_memory ;;;
  let* (ty, _, off) := global_entry idx in
  materialize_global_addr off ;;;
  match ty with
  | I32 => dst <- push_i32_slot ;; asm (Enc.ldr_w_imm dst X16 0)
  | I64 => dst <- push_i64_slot ;; asm (Enc.ldr_imm dst X16 0)
  | F32 => dst <- push_f32_slot ;; asm (Enc.ldr_s_imm dst X16 0)
  | F64 => dst <- push_f64_slot ;; asm (Enc.ldr_d_imm dst X16 0)
  | V128 => throw V128LocalsUnsupported
  end.

Definition lower_global_set (idx : Z) : L unit :=
  need_memory ;;;
  let* (ty, mutable, off) := global_entry idx in
  fail_if (negb mutable) GlobalNotMutable ;;;
  match ty with
  | I32 => src <- pop_i32_slot ;; materialize_global_addr off ;;; asm (Enc.str_w_imm src X16 0)
  | I64 => src <- pop_i64_slot ;; materialize_global_addr off ;;; asm (Enc.str_imm src X16 0)
  | F32 => src <- pop_f32_slot ;; materialize_global_addr off ;;; asm (Enc.str_s_imm src X16 0)
  | F64 => src <- pop_f64_slot ;; materialize_global_addr off ;;; asm (Enc.str_d_imm src X16 0)
  | V128 => throw V128LocalsUnsupported
  end.

Fixpoint emit_inits (idx : Z) (types : list ValType) (init_values : list (list Z)) : L unit :=
  match types, init_values with
  | ty :: types, init :: init_values =>
      s <- gets id ;;
      let off := global_mem_offset s (u32 idx) in
      match ty with
      | I32 | F32 =>
          let raw := from_le_bytes (take 4 init) in
          let max_safe := saturating_sub (mem_size s) GLOBAL_AREA_SIZE in
          let val := if bool_decide (ty = I32) && (max_safe <? raw) then max_safe else raw in
          load_u32_into_reg X17 val ;;;
          load_u32_into_reg X16 off ;;;
          asm (Enc.add_ext_uxtw X16 MEM_BASE_REG X16) ;;;
          asm (Enc.str_w_imm X17 X16 0)
      | I64 | F64 =>
          load_u64_into_reg X17 (from_le_bytes init) ;;;
          load_u32_into_reg X16 off ;;;
          asm (Enc.add_ext_uxtw X16 MEM_BASE_REG X16) ;;;
          asm (Enc.str_imm X17 X16 0)
      | V128 => throw V128LocalsUnsupported
      end ;;;
      emit_inits (idx + 1) types init_values
  | _, _ => M_ret tt
  end.

Definition emit_global_inits (init_values : list (list Z)) : L unit :=
  s <- gets id ;;
  fail_if (negb (Z.of_nat (length init_values) =? Z.of_nat (length (global_types s)))) GlobalOutOfRange ;;;
  emit_inits 0 (global_types s) init_values.

(** ** Calls (call.rs) *)

Definition check_int_params (ts : list ValType) (e : LowerError) : L unit :=
  fail_if (negb (forallb is_int ts)) e.

(** The arguments are popped last to first; the result lists them first to
    last. *)
Fixpoint pop_args (ts : list ValType) (acc : list Reg) : L (list Reg) :=
  match ts with
  | [] => M_ret acc
  | t :: ts =>
      src <- match t with I32 => pop_i32_slot | I64 => pop_i64_slot | _ => panic end ;;
      pop_args ts (src :: acc)
  end.

(** [for (i, src) in arg_src.iter().enumerate() { add(Reg(9 + i), ZR, src) }] *)
Fixpoint move_to_scratch (i : Z) (srcs : list Reg) : L unit :=
  match srcs with
  | [] => M_ret tt
  | src :: srcs => asm (Enc.add (MkReg (u8 (9 + i))) ZR src) ;;; move_to_scratch (i + 1) srcs
  end.

(** [for i in 0..n_args { add(Reg(i), ZR, Reg(9 + i)) }] *)
Fixpoint move_to_args (i : Z) (n : nat) : L unit :=
  match n with
  | O => M_ret tt
  | S n => asm (Enc.add (MkReg (u8 i)) ZR (MkReg (u8 (9 + i)))) ;;; move_to_args (i + 1) n
  end.

Definition marshal_args (arg_src : list Reg) : L unit :=
  move_to_scratch 0 arg_src ;;;
  move_to_args 0 (length arg_src).

Definition push_call_result (result : option ValType) (e : LowerError) : L unit :=
  match result with
  | None => M_ret tt
  | Some I32 =>
      dst <- push_i32_slot ;;
      if negb (reg_idx dst =? 0) then asm (Enc.and_w dst X0 X0) else asm (Enc.and_w X0 X0 X0)
  | Some I64 =>
      dst <- push_i64_slot ;;
      if negb (reg_idx dst =? 0) then asm (Enc.add dst ZR X0) else M_ret tt
  | Some _ => throw e
  end.

Definition lower_call_internal (idx : Z) : L unit :=
  sigs <- gets module_fn_sigs ;;
  match sigs !! Z.to_nat idx with
  | None => panic
  | Some sig =>
      check_int_params (params sig) CallTypeUnsupported ;;;
      fail_if (8 <? Z.of_nat (length (params sig))) CallArityUnsupported ;;;
      arg_src <- pop_args (rev (params sig)) [] ;;
      marshal_args arg_src ;;;
      bl_site <- enc_pos ;;
      asm (Enc.bl 4) ;;;
      modify (fun s => s <| pending_relocations := pending_relocations s ++ [(u32 bl_site, idx)] |>) ;;;
      push_call_result (result sig) CallTypeUnsupported
  end.

Definition lower_call (idx : Z) : L unit :=
  s <- gets id ;;
  if idx <? module_fn_count s then lower_call_internal idx else
  target <- ok_or (call_targets s !! Z.to_nat idx) CallTargetMissing ;;
  let sig := default (mkFnSig [] (Some I32)) (call_sigs s !! Z.to_nat idx) in
  check_int_params (params sig) CallTypeUnsupported ;;;
  fail_if (8 <? Z.of_nat (length (params sig))) CallArityUnsupported ;;;
  arg_src <- pop_args (rev (params sig)) [] ;;
  load_u64_into_reg X16 target ;;;
  marshal_args arg_src ;;;
  asm (Enc.blr X16) ;;;
  push_call_result (result sig) CallTypeUnsupported.

Definition lower_call_indirect (type_id : Z) : L unit :=
  s <- gets id ;;
  table <- ok_or (table_base s) TableNotConfigured ;;
  sig <- ok_or (indirect_sigs s !! Z.to_nat type_id) IndirectTypeMissing ;;
  check_int_params (params sig) IndirectTypeUnsupported ;;;
  fail_if (8 <? Z.of_nat (length (params sig))) IndirectArityUnsupported ;;;
  idx_reg <- pop_i32_slot ;;
  load_u64_into_reg X17 table ;;;
  asm (Enc.add_ext_uxtw_shifted X17 X17 idx_reg 4) ;;;
  asm (Enc.ldr_imm X16 X17 0) ;;;
  arg_src <- pop_args (rev (params sig)) [] ;;
  marshal_args arg_src ;;;
  asm (Enc.blr X16) ;;;
  push_call_result (result sig) IndirectTypeUnsupported.

Definition lower_function_end : L unit :=
  flush_pending_spill ;;;
  flush_pending_fp_spill ;;;
  l <- gets stack ;;
  match l with
  | [] => M_ret tt
  | [I32] => pop_i32_slot ;;; M_ret tt
  | [I64] => pop_i64_slot ;;; M_ret tt
  | [F32] => s <- pop_f32_slot ;; asm (Enc.fmov_w_from_s X0 s)
  | [F64] => d <- pop_f64_slot ;; asm (Enc.fmov_x_from_d X0 d)
  | [V128] => throw V128ReturnUnsupported
  | _ => throw StackNotSingleton
  end ;;;
  emit_epilogue ;;;
  asm (Enc.ret X30).

(** [Reg::new((depth - 1) as u8).unwrap()] *)
Definition lower_explicit_return : L unit :=
  s <- gets id ;;
  match head (stack s) with
  | None => asm (Enc.ret X30)
  | Some (I32 | I64) =>
      match Reg_new (u8 (int_depth s - 1)) with
      | None => panic
      | Some top =>
          (if negb (reg_idx top =? 0) then asm (Enc.add X0 ZR top) else M_ret tt) ;;;
          asm (Enc.ret X30)
      end
  | Some F32 =>
      match Vreg_new (u8 (fp_depth s - 1)) with
      | None => panic
      | Some v => asm (Enc.fmov_w_from_s X0 v) ;;; asm (Enc.ret X30)
      end
  | Some F64 =>
      match Vreg_new (u8 (fp_depth s - 1)) with
      | None => panic
      | Some v => asm (Enc.fmov_x_from_d X0 v) ;;; asm (Enc.ret X30)
      end
  | Some V128 => throw V128ReturnUnsupported
  end.

(** ** Conversions (convert.rs) *)

Definition lower_wrap_i64 : L unit :=
  src_sym <- peek_top_sym ;;
  src <- pop_i64_slot ;;
  dst <- push_i32_slot ;;
  asm (Enc.and_w dst src src) ;;;
  set_top_sym (match src_sym with
               | Some (SConst c) => Some (SConst c)
               | Some (SBounded m) => if m <=? U32_MAX then Some (SBounded m) else None
               | None => None
               end).

Definition lower_extend_i32 (signed : bool) : L unit :=
  src_sym <- peek_top_sym ;;
  src <- pop_i32_slot ;;
  dst <- push_i64_slot ;;
  (if signed then asm (Enc.sxtw dst src) else asm (Enc.and_w dst src src)) ;;;
  set_top_sym (match src_sym with
               | Some (SConst c) => Some (SConst c)
               | Some (SBounded m) => if negb signed || (m <=? 2 ^ 31 - 1) then Some (SBounded m) else None
               | None => None
               end).

(** The conversions pop one slot, push one and emit one instruction. *)
Definition int_to_int (from to : ValType) (emit : Reg -> Reg -> EncM unit) : L unit :=
  src <- pop_int_slot from ;; dst <- push_int_slot to ;; asm (emit dst src).
Definition fp_to_int (from to : ValType) (emit : Reg -> Vreg -> EncM unit) : L unit :=
  src <- pop_fp_slot from ;; dst <- push_int_slot to ;; asm (emit dst src).
Definition int_to_fp (from to : ValType) (emit : Vreg -> Reg -> EncM unit) : L unit :=
  src <- pop_int_slot from ;; dst <- push_fp_slot to ;; asm (emit dst src).
Definition fp_to_fp (from to : ValType) (emit : Vreg -> Vreg -> EncM unit) : L unit :=
  src <- pop_fp_slot from ;; dst <- push_fp_slot to ;; asm (emit dst src).

Definition lower_i32_extend_narrow (is_8 : bool) : L unit := int_to_int I32 I32 (if is_8 then Enc.sxtb_w else Enc.sxth_w).

Definition lower_i64_extend_narrow (width : ExtendWidth) : L unit :=
  int_to_int I64 I64 (match width with B8 => Enc.sxtb_x | B16 => Enc.sxth_x | B32 => Enc.sxtw end).

Definition lower_trunc_f32_i32 (signed : bool) : L unit := fp_to_int F32 I32 (if signed then Enc.fcvtzs_w_s else Enc.fcvtzu_w_s).
Definition lower_trunc_f64_i32 (signed : bool) : L unit := fp_to_int F64 I32 (if signed then Enc.fcvtzs_w_d else Enc.fcvtzu_w_d).
Definition lower_trunc_f32_i64 (signed : bool) : L unit := fp_to_int F32 I64 (if signed then Enc.fcvtzs_x_s else Enc.fcvtzu_x_s).
Definition lower_trunc_f64_i64 (signed : bool) : L unit := fp_to_int F64 I64 (if signed then Enc.fcvtzs_x_d else Enc.fcvtzu_x_d).
Definition lower_convert_i32_f32 (signed : bool) : L unit := int_to_fp I32 F32 (if signed then Enc.scvtf_s_w else Enc.ucvtf_s_w).
Definition lower_convert_i64_f32 (signed : bool) : L unit := int_to_fp I64 F32 (if signed then Enc.scvtf_s_x else Enc.ucvtf_s_x).
Definition lower_convert_i32_f64 (signed : bool) : L unit := int_to_fp I32 F64 (if signed then Enc.scvtf_d_w else Enc.ucvtf_d_w).
Definition lower_convert_i64_f64 (signed : bool) : L unit := int_to_fp I64 F64 (if signed then Enc.scvtf_d_x else Enc.ucvtf_d_x).
Definition lower_f32_demote_f64 : L unit := fp_to_fp F64 F32 Enc.fcvt_s_d.
Definition lower_f64_promote_f32 : L unit := fp_to_fp F32 F64 Enc.fcvt_d_s.
Definition lower_i32_reinterpret_f32 : L unit := fp_to_int F32 I32 Enc.fmov_w_from_s.
Definition lower_i64_reinterpret_f64 : L unit := fp_to_int F64 I64 Enc.fmov_x_from_d.
Definition lower_f32_reinterpret_i32 : L unit := int_to_fp I32 F32 Enc.fmov_s_from_w.
Definition lower_f64_reinterpret_i64 : L unit := int_to_fp I64 F64 Enc.fmov_d_from_x.

(** ** SIMD (simd.rs) *)

Fixpoint nops (n : nat) : L unit :=
  match n with O => M_ret tt | S n => asm Enc.nop ;;; nops n end.

(** The sixteen bytes of the constant as four words. *)
Fixpoint raw_words (n : nat) (bits : Z) : L unit :=
  match n with
  | O => M_ret tt
  | S n => asm (emit_raw_word (u32 bits)) ;;; raw_words n (bits .>> 32)
  end.

Definition lower_v128_const (bits : Z) : L unit :=
  dst <- push_v128_slot ;;
  p <- enc_pos ;;
  let pos_after_b := p + 4 in
  let padding := (16 - pos_after_b mod 16) mod 16 in
  asm (Enc.b (4 + padding + 16)) ;;;
  nops (Z.to_nat (padding / 4)) ;;;
  data_start <- enc_pos ;;
  raw_words 4 bits ;;;
  data_end <- enc_pos ;;
  modify (fun s => s <| data_regions := data_regions s ++ [mkDataRegion data_start data_end] |>) ;;;
  asm (Enc.ldr_q_literal dst (-16)).

Definition lower_v128_load (offset : Z) : L unit :=
  need_memory ;;;
  addr_sym <- peek_top_sym ;;
  addr <- pop_i32_slot ;;
  maybe_bounds_check addr 16 offset false addr_sym ;;;
  dst <- push_v128_slot ;;
  asm (Enc.add_ext_uxtw X16 MEM_BASE_REG addr) ;;;
  asm (Enc.ldr_q_imm dst X16 offset).

Definition lower_v128_store (offset : Z) : L unit :=
  need_memory ;;;
  addr_sym <- peek_top_sym ;;
  val <- pop_v128_slot ;;
  addr <- pop_i32_slot ;;
  maybe_bounds_check addr 16 offset true addr_sym ;;;
  asm (Enc.add_ext_uxtw X16 MEM_BASE_REG addr) ;;;
  asm (Enc.str_q_imm val X16 offset).

Definition lower_v128_binop (emit : Vreg -> Vreg -> Vreg -> EncM unit) : L unit :=
  rhs <- pop_v128_slot ;;
  lhs <- pop_v128_slot ;;
  dst <- push_v128_slot ;;
  asm (emit dst lhs rhs).

Definition lower_f32x4_unary (emit : Vreg -> Vreg -> EncM unit) : L unit := fp_to_fp V128 V128 emit.

Definition lower_f32x4_add : L unit := lower_v128_binop Enc.fadd_4s.
Definition lower_f32x4_mul : L unit := lower_v128_binop Enc.fmul_4s.
Definition lower_f32x4_sub : L unit := lower_v128_binop Enc.fsub_4s.
Definition lower_f32x4_div : L unit := lower_v128_binop Enc.fdiv_4s.
Definition lower_f32x4_max : L unit := lower_v128_binop Enc.fmax_4s.
Definition lower_f32x4_min : L unit := lower_v128_binop Enc.fmin_4s.
Definition lower_f32x4_eq : L unit := lower_v128_binop Enc.fcmeq_4s.
Definition lower_f32x4_gt : L unit := lower_v128_binop Enc.fcmgt_4s.
Definition lower_i32x4_add : L unit := lower_v128_binop Enc.add_4s_vector.
Definition lower_i32x4_sub : L unit := lower_v128_binop Enc.sub_4s_vector.
Definition lower_i32x4_mul : L unit := lower_v128_binop Enc.mul_4s_vector.

Definition lower_f32x4_extract_lane (lane : Z) : L unit := fp_to_fp V128 F32 (fun d s => Enc.dup_s_from_v_s_lane d s lane).
Definition lower_f32x4_splat : L unit := fp_to_fp F32 V128 Enc.dup_4s_from_vs_lane0.
Definition lower_i32x4_splat : L unit := int_to_fp I32 V128 Enc.dup_4s_from_w.
Definition lower_i32x4_extract_lane (lane : Z) : L unit := fp_to_int V128 I32 (fun d s => Enc.umov_w_from_vs_lane d s lane).

Definition lower_dot (emit : Vreg -> Vreg -> Vreg -> EncM unit) : L unit :=
  b <- pop_v128_slot ;;
  a <- pop_v128_slot ;;
  acc <- pop_v128_slot ;;
  dst <- push_v128_slot ;;
  (if bool_decide (dst = acc) then M_ret tt else asm (Enc.orr_16b_vec dst acc acc)) ;;;
  asm (emit dst a b).

Definition lower_i32x4_dot_i8x16_signed : L unit := lower_dot Enc.sdot_4s_16b.
Definition lower_i32x4_dot_i8x16_unsigned : L unit := lower_dot Enc.udot_4s_16b.

Definition lower_f32x4_fma : L unit :=
  b <- pop_v128_slot ;;
  a <- pop_v128_slot ;;
  pop_v128_slot ;;;
  dst <- push_v128_slot ;;
  asm (Enc.fmla_4s dst a b).

Definition lower_f64x2_splat : L unit :=
  src <- pop_f64_slot ;;
  dst <- push_v128_slot ;;
  asm (Enc.fmov_x_from_d X17 src) ;;;
  asm (Enc.dup_2d_from_x dst X17).

Definition lower_f64x2_extract_lane (lane : Z) : L unit := fp_to_fp V128 F64 (fun d s => Enc.dup_d_from_v_d_lane d s lane).

Definition lower_v128_bitselect : L unit :=
  mask <- pop_v128_slot ;;
  v2 <- pop_v128_slot ;;
  v1 <- pop_v128_slot ;;
  dst <- push_v128_slot ;;
  asm (Enc.bsl_16b mask v1 v2) ;;;
  if bool_decide (dst = mask) then M_ret tt else asm (Enc.orr_16b_vec dst mask mask).

Definition lower_f32x4_horizontal_sum : L unit :=
  src <- pop_v128_slot ;;
  dst <- push_f32_slot ;;
  asm (Enc.faddp_4s src src src) ;;;
  asm (Enc.faddp_s_from_2s_scalar dst src).

(** ** One operation (mod.rs) *)

Definition lower_op (op : WasmOp) : L unit :=
  match op with
  | I32Const c => lower_const c
  | I32Add => lower_binop BAdd | I32Sub => lower_binop BSub | I32Mul => lower_binop BMul
  | I32DivS => lower_binop BDivS | I32DivU => lower_binop BDivU
  | I32Eq => lower_binop (BCmp Eq) | I32Ne => lower_binop (BCmp Ne)
  | I32LtS => lower_binop (BCmp Lt) | I32GtS => lower_binop (BCmp Gt)
  | I32LeS => lower_binop (BCmp Le) | I32GeS => lower_binop (BCmp Ge)
  | I32LtU => lower_binop (BCmp Lo) | I32GtU => lower_binop (BCmp Hi)
  | I32LeU => lower_binop (BCmp Ls) | I32GeU => lower_binop (BCmp Hs)
  | I32Eqz => lower_eqz
  | I64Const c => lower_i64_const c
  | I64Add => lower_i64_binop LAdd | I64Sub => lower_i64_binop LSub | I64Mul => lower_i64_binop LMul
  | I64Eqz => lower_i64_eqz
  | I64Eq => lower_i64_cmp Eq | I64Ne => lower_i64_cmp Ne
  | I64LtS => lower_i64_cmp Lt | I64GtS => lower_i64_cmp Gt
  | I64LtU => lower_i64_cmp Lo | I64GtU => lower_i64_cmp Hi
  | I64LeS => lower_i64_cmp Le | I64LeU => lower_i64_cmp Ls
  | I64GeS => lower_i64_cmp Ge | I64GeU => lower_i64_cmp Hs
  | I64DivS => lower_i64_binop LDivS | I64DivU => lower_i64_binop LDivU
  | I64And => lower_i64_binop LAnd | I64Or => lower_i64_binop LOr | I64Xor => lower_i64_binop LXor
  | I64Shl => lower_i64_binop LShl | I64ShrS => lower_i64_binop LShrS | I64ShrU => lower_i64_binop LShrU
  | I64Load off => lower_i64_load off | I64Store off => lower_i64_store off
  | I32WrapI64 => lower_wrap_i64
  | I64ExtendI32S => lower_extend_i32 true | I64ExtendI32U => lower_extend_i32 false
  | I32And => lower_binop BAnd | I32Or => lower_binop BOr | I32Xor => lower_binop BXor
  | I32Shl => lower_binop BShl | I32ShrS => lower_binop BShrS | I32ShrU => lower_binop BShrU
  | F32Const f => lower_f32_const f
  | F32Add => lower_f32_binop FAdd | F32Sub => lower_f32_binop FSub
  | F32Mul => lower_f32_binop FMul | F32Div => lower_f32_binop FDiv
  | F32Eq => lower_f32_cmp Eq | F32Ne => lower_f32_cmp Ne | F32Lt => lower_f32_cmp Lt
  | F32Gt => lower_f32_cmp Gt | F32Le => lower_f32_cmp Le | F32Ge => lower_f32_cmp Ge
  | F32Load off => lower_f32_load off | F32Store off => lower_f32_store off
  | F64Const f => lower_f64_const f
  | F64Add => lower_f64_binop FAdd | F64Sub => lower_f64_binop FSub
  | F64Mul => lower_f64_binop FMul | F64Div => lower_f64_binop FDiv
  | F64Eq => lower_f64_cmp Eq | F64Ne => lower_f64_cmp Ne | F64Lt => lower_f64_cmp Lt
  | F64Gt => lower_f64_cmp Gt | F64Le => lower_f64_cmp Le | F64Ge => lower_f64_cmp Ge
  | F64Load off => lower_f64_load off | F64Store off => lower_f64_store off
  | V128Const bits => lower_v128_const bits
  | V128Load off => lower_v128_load off | V128Store off => lower_v128_store off
  | F32x4Add => lower_f32x4_add | F32x4Mul => lower_f32x4_mul
  | F32x4ExtractLane lane => lower_f32x4_extract_lane lane
  | F32x4Splat => lower_f32x4_splat | I32x4Splat => lower_i32x4_splat
  | I32x4Add => lower_i32x4_add | I32x4Sub => lower_i32x4_sub | I32x4Mul => lower_i32x4_mul
  | I32x4DotI8x16Signed => lower_i32x4_dot_i8x16_signed
  | I32x4DotI8x16Unsigned => lower_i32x4_dot_i8x16_unsigned
  | I32x4ExtractLane lane => lower_i32x4_extract_lane lane
  | F64x2Add => lower_v128_binop Enc.fadd_2d | F64x2Sub => lower_v128_binop Enc.fsub_2d
  | F64x2Mul => lower_v128_binop Enc.fmul_2d | F64x2Div => lower_v128_binop Enc.fdiv_2d
  | F64x2Min => lower_v128_binop Enc.fmin_2d | F64x2Max => lower_v128_binop Enc.fmax_2d
  | F64x2Sqrt => lower_f32x4_unary Enc.fsqrt_2d | F64x2Abs => lower_f32x4_unary Enc.fabs_2d
  | F64x2Neg => lower_f32x4_unary Enc.fneg_2d
  | F64x2Splat => lower_f64x2_splat | F64x2ExtractLane lane => lower_f64x2_extract_lane lane
  | I8x16Add => lower_v128_binop Enc.add_16b_vector | I8x16Sub => lower_v128_binop Enc.sub_16b_vector
  | I8x16Splat => int_to_fp I32 V128 Enc.dup_16b_from_w
  | I8x16ExtractLaneU lane => fp_to_int V128 I32 (fun d s => Enc.umov_w_from_vb_lane d s lane)
  | I16x8Add => lower_v128_binop Enc.add_8h_vector | I16x8Sub => lower_v128_binop Enc.sub_8h_vector
  | I16x8Mul => lower_v128_binop Enc.mul_8h_vector
  | I16x8Splat => int_to_fp I32 V128 Enc.dup_8h_from_w
  | I16x8ExtractLaneU lane => fp_to_int V128 I32 (fun d s => Enc.umov_w_from_vh_lane d s lane)
  | F32x4Sub => lower_f32x4_sub | F32x4Div => lower_f32x4_div | F32x4Fma => lower_f32x4_fma
  | F32x4HorizontalSum => lower_f32x4_horizontal_sum
  | F32x4Max => lower_f32x4_max | F32x4Min => lower_f32x4_min
  | F32x4Abs => lower_f32x4_unary Enc.fabs_4s | F32x4Neg => lower_f32x4_unary Enc.fneg_4s
  | F32x4Sqrt => lower_f32x4_unary Enc.fsqrt_4s
  | F32x4Eq => lower_f32x4_eq | F32x4Gt => lower_f32x4_gt
  | V128Bitselect => lower_v128_bitselect
  | I32Extend8S => lower_i32_extend_narrow true | I32Extend16S => lower_i32_extend_narrow false
  | I64Extend8S => lower_i64_extend_narrow B8 | I64Extend16S => lower_i64_extend_narrow B16
  | I64Extend32S => lower_i64_extend_narrow B32
  | I32TruncF32S => lower_trunc_f32_i32 true | I32TruncF32U => lower_trunc_f32_i32 false
  | I32TruncF64S => lower_trunc_f64_i32 true | I32TruncF64U => lower_trunc_f64_i32 false
  | I64TruncF32S => lower_trunc_f32_i64 true | I64TruncF32U => lower_trunc_f32_i64 false
  | I64TruncF64S => lower_trunc_f64_i64 true | I64TruncF64U => lower_trunc_f64_i64 false
  | F32ConvertI32S => lower_convert_i32_f32 true | F32ConvertI32U => lower_convert_i32_f32 false
  | F32ConvertI64S => lower_convert_i64_f32 true | F32ConvertI64U => lower_convert_i64_f32 false
  | F64ConvertI32S => lower_convert_i32_f64 true | F64ConvertI32U => lower_convert_i32_f64 false
  | F64ConvertI64S => lower_convert_i64_f64 true | F64ConvertI64U => lower_convert_i64_f64 false
  | F32DemoteF64 => lower_f32_demote_f64 | F64PromoteF32 => lower_f64_promote_f32
  | I32ReinterpretF32 => lower_i32_reinterpret_f32 | I64ReinterpretF64 => lower_i64_reinterpret_f64
  | F32ReinterpretI32 => lower_f32_reinterpret_i32 | F64ReinterpretI64 => lower_f64_reinterpret_i64
  | Drop => lower_drop | Select => lower_select
  | LocalGet i => lower_local_get i | LocalSet i => lower_local_set i | LocalTee i => lower_local_tee i
  | GlobalGet i => lower_global_get i | GlobalSet i => lower_global_set i
  | Block => lower_block | Loop => lower_loop | Br n => lower_br n | BrIf n => lower_br_if n
  | If => lower_if | Else => lower_else
  | Call n => lower_call n | CallIndirect t => lower_call_indirect t
  | I32Load off => lower_load off | I32Store off => lower_store off
  | Return => lower_explicit_return
  | End =>
      ls <- gets label_stack ;;
      match ls with [] => lower_function_end | _ => lower_block_end end
  end.

(** The loop of [lower_all] over the operations from index [i] on; [ends] says
    which of them close a loop. *)
Fixpoint lower_loop_ops (all : list WasmOp) (i : nat) (ops : list WasmOp) (ends : list bool) : L unit :=
  match ops, ends with
  | op :: ops, closes_loop :: ends =>
      (match op with
       | Loop => modify (fun s => s <| active_loop_bounds := scan_loop_bounds all i :: active_loop_bounds s |>
                                    <| tainted_locals := [] :: tainted_locals s |>)
       | _ => M_ret tt
       end) ;;;
      lower_op op ;;;
      (if closes_loop : bool
       then modify (fun s => s <| active_loop_bounds := tail (active_loop_bounds s) |>
                               <| tainted_locals := tail (tainted_locals s) |>)
       else M_ret tt) ;;;
      lower_loop_ops all (S i) ops ends
  | _, _ => M_ret tt
  end.

Definition lower_all (ops : list WasmOp) : L unit := lower_loop_ops ops 0 ops (compute_loop_end_indices ops).
