(* ===== verification/LowerNew.v ===== *)
(** Constructors and configuration of the lowerer
    (src/tools/a64-encoder/src/wasm_lower/mod.rs). *)

From S2P Require Import Prelude Bytes A64 WasmTypes Peephole Lower LowerOps.

Open Scope kernel_scope.
Open Scope word_scope.

(** ** Locals *)

(** The loop over the types; [int_idx] and [fp_idx] are [u8] counters that stop
    at their limits. *)
Fixpoint allocate_locals (types : list ValType) (int_idx fp_idx : Z) : M Encoder LowerError (list LocalLoc) :=
  match types with
  | [] => M_ret []
  | ty :: types =>
      match ty with
      | I32 | I64 =>
          fail_if (MAX_I32_LOCALS <=? int_idx) TooManyLocals ;;;
          let r := MkReg (LOCAL_I32_BASE_REG + int_idx) in
          asm_on (Enc.movz r 0 Lsl0) ;;;
          out <- allocate_locals types (int_idx + 1) fp_idx ;;
          M_ret ((if bool_decide (ty = I32) then LocI32 r else LocI64 r) :: out)
      | F32 =>
          fail_if (MAX_F32_LOCALS <=? fp_idx) TooManyLocals ;;;
          let v := MkVreg (LOCAL_F32_BASE_REG + fp_idx) in
          asm_on (Enc.fmov_s_from_w v ZR) ;;;
          out <- allocate_locals types int_idx (fp_idx + 1) ;;
          M_ret (LocF32 v :: out)
      | F64 =>
          fail_if (MAX_F32_LOCALS <=? fp_idx) TooManyLocals ;;;
          let v := MkVreg (LOCAL_F32_BASE_REG + fp_idx) in
          asm_on (Enc.fmov_d_from_x v ZR) ;;;
          out <- allocate_locals types int_idx (fp_idx + 1) ;;
          M_ret (LocF64 v :: out)
      | V128 =>
          fail_if (MAX_F32_LOCALS <=? fp_idx) TooManyLocals ;;;
          let v := MkVreg (LOCAL_F32_BASE_REG + fp_idx) in
          asm_on (Enc.eor_16b_vec v v v) ;;;
          out <- allocate_locals types int_idx (fp_idx + 1) ;;
          M_ret (LocV128 v :: out)
      end
  end.

(** Run a constructor on a fresh encoder. *)
Definition construct (m : M Encoder LowerError Lowerer) : outcome LowerError Lowerer :=
  match m new_encoder with
  | (e, Ok lw) => Ok (lw <| encoder := e |>)
  | (_, Err e) => Err e
  | (_, Panic) => Panic
  end.

Definition bare_lowerer (locals : list LocalLoc) : Lowerer :=
  mkLowerer new_encoder [] 0 0 locals [] [] [] false false 0 0 (64 * 1024) None [] [] 0 MAX_PRIMARY_INT 0 false
    None false 0 None false [] [] [] 0 [] [] [] [] 0.

Definition new_with_typed_locals (types : list ValType) : outcome LowerError Lowerer :=
  construct (locals <- allocate_locals types 0 0 ;; M_ret (bare_lowerer locals)).

Definition new_with_locals (n : nat) : outcome LowerError Lowerer := new_with_typed_locals (replicate n I32).

(** [new_with_locals(0).expect(..)] *)
Definition new : outcome LowerError Lowerer :=
  match new_with_locals 0 with Ok lw => Ok lw | _ => Panic end.

(** ** Frames *)

Definition count_int (types : list ValType) : Z := Z.of_nat (length (filter (fun t => is_int t = true) types)).

(** [for pair in 0..save_pairs]: the second register of a pair is the zero
    register when it holds no local. *)
Fixpoint save_pairs (n : nat) (pair n_int_locals : Z) : M Encoder LowerError unit :=
  match n with
  | O => M_ret tt
  | S n =>
      let r1 := MkReg (u8 (LOCAL_I32_BASE_REG + u8 (pair * 2))) in
      let r2 := if pair * 2 + 1 <? n_int_locals then MkReg (u8 (LOCAL_I32_BASE_REG + u8 (pair * 2 + 1))) else ZR in
      asm_on (Enc.stp_offset_64 r1 r2 SP (16 + pair * 16)) ;;;
      save_pairs n (pair + 1) n_int_locals
  end.

Definition SAVE_PAIRS : Z := 5.
Definition SPILL_BASE_OFF : Z := 16 + SAVE_PAIRS * 16.
Definition FP_SPILL_BASE_OFF : Z := SPILL_BASE_OFF + SPILL_AREA_BYTES.

Definition framed_lowerer (memory : bool) (frame_size n_int_locals : Z) (call_targets : list Z) (locals : list LocalLoc) : Lowerer :=
  mkLowerer new_encoder [] 0 0 locals [] call_targets [] true memory SAVE_PAIRS frame_size (64 * 1024) None [] []
    n_int_locals (MAX_PRIMARY_INT + (9 - n_int_locals)) SPILL_BASE_OFF true None false FP_SPILL_BASE_OFF None false
    [] [] [] 0 [] [] [] [] 0.

Definition FRAME_SIZE : Z := 16 + SAVE_PAIRS * 16 + SPILL_AREA_BYTES + FP_SPILL_AREA_BYTES.

Definition new_function_typed (local_types : list ValType) (call_targets : list Z) : outcome LowerError Lowerer :=
  construct (
    asm_on (Enc.stp_pre_indexed_64 X29 X30 SP (- FRAME_SIZE)) ;;;
    save_pairs 5 0 (count_int local_types) ;;;
    locals <- allocate_locals local_types 0 0 ;;
    M_ret (framed_lowerer false FRAME_SIZE (count_int local_types) call_targets locals)).

Definition new_function (n_locals : nat) (call_targets : list Z) : outcome LowerError Lowerer :=
  new_function_typed (replicate n_locals I32) call_targets.

Definition X28_SAVE_OFF : Z := FP_SPILL_BASE_OFF + FP_SPILL_AREA_BYTES.
Definition MEM_FRAME_SIZE : Z := X28_SAVE_OFF + 16.

Definition movk_nonzero (r : Reg) (h : Z) (shift : MovShift) : M Encoder LowerError unit :=
  if h =? 0 then M_ret tt else asm_on (Enc.movk r h shift).

Definition new_function_with_memory_typed (local_types : list ValType) (call_targets : list Z) (mem_base : Z) : outcome LowerError Lowerer :=
  construct (
    asm_on (Enc.stp_pre_indexed_64 X29 X30 SP (- MEM_FRAME_SIZE)) ;;;
    save_pairs 5 0 (count_int local_types) ;;;
    asm_on (Enc.str_imm MEM_BASE_REG SP X28_SAVE_OFF) ;;;
    asm_on (Enc.movz MEM_BASE_REG (mem_base .& 0xFFFF) Lsl0) ;;;
    movk_nonzero MEM_BASE_REG (part mem_base 16) Lsl16 ;;;
    movk_nonzero MEM_BASE_REG (part mem_base 32) Lsl32 ;;;
    movk_nonzero MEM_BASE_REG (part mem_base 48) Lsl48 ;;;
    locals <- allocate_locals local_types 0 0 ;;
    M_ret (framed_lowerer true MEM_FRAME_SIZE (count_int local_types) call_targets locals)).

Definition new_function_with_memory (n_locals : nat) (call_targets : list Z) (mem_base : Z) : outcome LowerError Lowerer :=
  new_function_with_memory_typed (replicate n_locals I32) call_targets mem_base.

Definition new_function_with_table (n_locals : nat) (call_targets : list Z) (mem_base table : Z) (sigs : list FnSig) : outcome LowerError Lowerer :=
  match new_function_with_memory n_locals call_targets mem_base with
  | Ok lw => Ok (lw <| table_base := Some table |> <| indirect_sigs := sigs |>)
  | Err e => Err e
  | Panic => Panic
  end.

(** ** Configuration *)

Definition set_mem_size (size : Z) : L unit := modify (fun s => s <| mem_size := size |>).

Definition set_globals (types : list ValType) (mutable : list bool) : L unit :=
  fail_if (negb (Z.of_nat (length types) =? Z.of_nat (length mutable))) GlobalOutOfRange ;;;
  fail_if (MAX_GLOBALS <? Z.of_nat (length types)) TooManyGlobals ;;;
  modify (fun s => s <| global_types := types |> <| global_mutable := mutable |>).

Definition set_module_fn_sigs (sigs : list FnSig) : L unit :=
  modify (fun s => s <| module_fn_count := Z.of_nat (length sigs) |> <| module_fn_sigs := sigs |>).

Definition take_relocations : L (list (Z * Z)) :=
  rs <- gets pending_relocations ;;
  modify (fun s => s <| pending_relocations := [] |>) ;;;
  M_ret rs.

Definition set_call_sigs (sigs : list FnSig) : L unit := modify (fun s => s <| call_sigs := sigs |>).

Definition with_call_sigs (lw : Lowerer) (sigs : list FnSig) : Lowerer := lw <| call_sigs := sigs |>.

Fixpoint rehydrate (param_types : list ValType) (locals : list LocalLoc) (int_arg fp_arg : Z) : L unit :=
  match param_types, locals with
  | ty :: param_types, loc :: locals =>
      match ty, loc with
      | I32, LocI32 dst =>
          fail_if (7 <? int_arg) CallArityUnsupported ;;;
          asm (Enc.and_w dst (MkReg int_arg) (MkReg int_arg)) ;;;
          rehydrate param_types locals (int_arg + 1) fp_arg
      | I64, LocI64 dst =>
          fail_if (7 <? int_arg) CallArityUnsupported ;;;
          asm (Enc.add dst ZR (MkReg int_arg)) ;;;
          rehydrate param_types locals (int_arg + 1) fp_arg
      | F32, LocF32 dst =>
          fail_if (7 <? fp_arg) CallArityUnsupported ;;;
          asm (Enc.fmov_s_s dst (MkVreg fp_arg)) ;;;
          rehydrate param_types locals int_arg (fp_arg + 1)
      | F64, LocF64 dst =>
          fail_if (7 <? fp_arg) CallArityUnsupported ;;;
          asm (Enc.fmov_d_d dst (MkVreg fp_arg)) ;;;
          rehydrate param_types locals int_arg (fp_arg + 1)
      | _, _ => throw CallTypeUnsupported
      end
  | _, _ => M_ret tt
  end.

Definition emit_param_rehydration (param_types : list ValType) : L unit :=
  ls <- gets locals ;;
  fail_if (Z.of_nat (length ls) <? Z.of_nat (length param_types)) LocalOutOfRange ;;;
  rehydrate param_types ls 0 0.

(** ** Results *)

Definition finish (s : Lowerer) : list Z := (optimize (into_bytes (encoder s)) (data_regions s)).1.
Definition finish_raw (s : Lowerer) : list Z := into_bytes (encoder s).
Definition stack_depth (s : Lowerer) : nat := length (stack s).
Definition stack_top_type (s : Lowerer) : option ValType := head (stack s).
Definition open_labels (s : Lowerer) : nat := length (label_stack s).
