(* ===== verification/ModuleLower.v ===== *)
(** The two-pass module linker
    (src/tools/a64-encoder/src/wasm_lower/module_lower.rs). *)

From S2P Require Import Prelude Bytes A64 WasmTypes WasmParse WasmModule Peephole Lower LowerOps LowerNew.

Open Scope kernel_scope.
Open Scope word_scope.

Record ModuleLayout := mkModuleLayout {
  code : list Z;
  function_offsets : list Z;
  entrypoint_offset : Z
}.

Definition valtype_from_byte (b : Z) : outcome LowerError ValType :=
  if b =? 0x7F then Ok I32
  else if b =? 0x7E then Ok I64
  else if b =? 0x7D then Ok F32
  else if b =? 0x7C then Ok F64
  else Err CallTypeUnsupported.

(** [iter().map(f).collect::<Result<Vec<_>, _>>()] *)
Fixpoint collect {E A B} (f : A -> outcome E B) (l : list A) : outcome E (list B) :=
  match l with
  | [] => Ok []
  | a :: l => obind (f a) (fun b => obind (collect f l) (fun bs => Ok (b :: bs)))
  end.

Definition build_sig (m : Module_) (fn_idx : nat) : outcome LowerError FnSig :=
  match func_types m !! fn_idx with
  | None => Err CallTargetMissing
  | Some type_idx =>
      match types m !! Z.to_nat type_idx with
      | None => Err CallTargetMissing
      | Some ty =>
          obind (match sig_results ty with
                 | [] => Ok None
                 | [b] => obind (valtype_from_byte b) (fun t => Ok (Some t))
                 | _ => Err CallTypeUnsupported
                 end) (fun result =>
          obind (collect valtype_from_byte (sig_params ty)) (fun params =>
          Ok (mkFnSig params result)))
      end
  end.

Record LoweredFunction := mkLoweredFunction { lf_bytes : list Z; lf_relocations : list (Z * Z) }.

(** Run lowerer operations on a constructed lowerer. *)
Definition run_lowerer {A} (r : outcome LowerError Lowerer) (m : L A) : outcome LowerError (Lowerer * A) :=
  obind r (fun s => match m s with
                    | (s, Ok a) => Ok (s, a)
                    | (_, Err e) => Err e
                    | (_, Panic) => Panic
                    end).

Definition lower_one_function (body : FunctionBody) (own_sig : FnSig) (fn_sigs : list FnSig) (gtypes : list ValType)
    (gmutable : list bool) (global_inits : list (list Z)) (is_entrypoint : bool) (mem_base mem_sz : Z) : outcome LowerError LoweredFunction :=
  obind (collect valtype_from_byte (local_types body)) (fun declared =>
  obind (run_lowerer (new_function_with_memory_typed (params own_sig ++ declared) [] mem_base) (
    set_mem_size mem_sz ;;;
    set_globals gtypes gmutable ;;;
    set_module_fn_sigs fn_sigs ;;;
    (if is_entrypoint && negb (Z.of_nat (length global_inits) =? 0) then emit_global_inits global_inits else M_ret tt) ;;;
    (match params own_sig with [] => M_ret tt | ps => emit_param_rehydration ps end) ;;;
    lower_all (ops body) ;;;
    take_relocations)) (fun '(lw, relocations) =>
  Ok (mkLoweredFunction (finish lw) relocations))).

(** ** Stitching and patching *)

Definition layout_order (n entry : nat) : list nat := entry :: filter (fun i => i <> entry) (seq 0 n).

Record Linked := mkLinked { blob : list Z; offsets : list Z; relocations : list (Z * Z) }.

(** Pass 2: append the functions in layout order. *)
Fixpoint stitch (order : list nat) (fns : list LoweredFunction) (acc : Linked) : Linked :=
  match order, fns with
  | orig :: order, f :: fns =>
      let fn_start := u32 (Z.of_nat (length (blob acc))) in
      stitch order fns (mkLinked (blob acc ++ lf_bytes f) (<[orig := fn_start]> (offsets acc))
        (relocations acc ++ ((fun '(site, target) => (u32 (fn_start + site), target)) <$> lf_relocations f)))
  | _, _ => acc
  end.

(** Pass 3: the branch word of one relocation. *)
Definition reloc_word (target_off site : Z) : outcome LowerError Z :=
  let delta := target_off - site in
  if negb (delta mod 4 =? 0) then Err BranchOutOfRange else
  let imm26 := delta .>> 2 in
  if negb ((- 2 ^ 25 <=? imm26) && (imm26 <? 2 ^ 25)) then Err BranchOutOfRange else
  Ok (0x94000000 .| (u32 imm26) .& 0x03FFFFFF).

Fixpoint patch_relocations (rs : list (Z * Z)) (offs : list Z) (blob : list Z) : outcome LowerError (list Z) :=
  match rs with
  | [] => Ok blob
  | (site, target_idx) :: rs =>
      match offs !! Z.to_nat target_idx with
      | None => Panic
      | Some target_off =>
          obind (reloc_word target_off site) (fun word =>
            if Z.of_nat (length blob) <? site + 4 then Panic
            else patch_relocations rs offs (splice blob (Z.to_nat site) (le_bytes 4 word)))
      end
  end.

Definition compile_module (m : Module_) (mem_base mem_sz entrypoint_fn_idx : Z) : outcome LowerError ModuleLayout :=
  let n := length (bodies m) in
  let entry := Z.to_nat entrypoint_fn_idx in
  if Z.of_nat n <=? entrypoint_fn_idx then Err CallTargetMissing else
  obind (collect (build_sig m) (seq 0 n)) (fun fn_sigs =>
  let order := layout_order n entry in
  obind (collect (fun g => valtype_from_byte (valtype g)) (globals m)) (fun gtypes =>
  let gmutable := mutable <$> globals m in
  let global_inits := init_bytes <$> globals m in
  obind (collect (fun orig =>
           match bodies m !! orig, fn_sigs !! orig with
           | Some body, Some sig =>
               lower_one_function body sig fn_sigs gtypes gmutable global_inits (bool_decide (orig = entry)) mem_base mem_sz
           | _, _ => Panic
           end) order) (fun fns =>
  let linked := stitch order fns (mkLinked [] (replicate n 0) []) in
  obind (patch_relocations (relocations linked) (offsets linked) (blob linked)) (fun code =>
  Ok (mkModuleLayout code (offsets linked) 0))))).
