(* ===== verification/JitCache.v ===== *)
(** The on-disk cache of compiled modules (src/tools/a64-encoder/src/jit_cache.rs).

    The hash and the file system are parameters: [sha256] maps the hashed
    bytes to a digest, and the cache directory is a map from file names to
    contents.  Timing and path handling are left out. *)

From S2P Require Import Prelude Bytes A64 WasmTypes WasmParse WasmModule Peephole Lower LowerOps LowerNew ModuleLower.

Open Scope kernel_scope.

Definition JIT_VERSION : Z := 1.
Definition FJC1_MAGIC : Z := 0x31434A46.

Inductive CacheError := Io | BadMagic | BadVersion (v : Z) | Truncated | CacheLower (e : LowerError).

Inductive CacheOutcome := Hit | Miss | Disabled.

(** ** The FJC1 format *)

Definition encode_fjc1 (layout : ModuleLayout) : list Z :=
  le_bytes 4 FJC1_MAGIC ++ le_bytes 4 1 ++ le_bytes 4 (entrypoint_offset layout) ++
  le_bytes 4 (Z.of_nat (length (function_offsets layout))) ++
  concat (le_bytes 4 <$> function_offsets layout) ++
  le_bytes 4 (Z.of_nat (length (code layout))) ++ code layout.

Section decode.
Context (buf : list Z).

Definition read_u32 : M Z CacheError Z :=
  p <- gets id ;;
  fail_if (Z.of_nat (length buf) <? p + 4) Truncated ;;;
  modify (Z.add 4) ;;;
  M_ret (from_le_bytes (take 4 (drop (Z.to_nat p) buf))).

Fixpoint read_u32s (n : nat) : M Z CacheError (list Z) :=
  match n with
  | O => M_ret []
  | S n => v <- read_u32 ;; vs <- read_u32s n ;; M_ret (v :: vs)
  end.

(** [Vec::with_capacity(n_funcs)] of a [u32] count never exceeds [isize::MAX]
    bytes. *)
Definition decode_fjc1 : outcome CacheError ModuleLayout :=
  match (magic <- read_u32 ;;
         fail_if (negb (magic =? FJC1_MAGIC)) BadMagic ;;;
         ver <- read_u32 ;;
         fail_if (negb (ver =? 1)) (BadVersion ver) ;;;
         entrypoint_offset <- read_u32 ;;
         n_funcs <- read_u32 ;;
         function_offsets <- read_u32s (Z.to_nat n_funcs) ;;
         code_len <- read_u32 ;;
         p <- gets id ;;
         fail_if (Z.of_nat (length buf) <? p + code_len) Truncated ;;;
         M_ret (mkModuleLayout (slice buf p (p + code_len)) function_offsets entrypoint_offset)) 0 with
  | (_, r) => r
  end.
End decode.

(** ** The cache *)

Section cache.
Context (sha256 : list Z -> list Z).

Definition hex_digit (n : Z) : Z := if n <? 10 then 48 + n else 87 + n.

(** [format!("{b:02x}")] over the first sixteen bytes of the digest. *)
Definition compute_cache_key (wasm_bytes : list Z) (mem_base mem_sz entrypoint_fn_idx : Z) : list Z :=
  let digest := sha256 (le_bytes 4 JIT_VERSION ++ wasm_bytes ++ le_bytes 8 mem_base ++ le_bytes 4 mem_sz ++ le_bytes 4 entrypoint_fn_idx) in
  concat ((fun b => [hex_digit (b / 16); hex_digit (b mod 16)]) <$> take 16 digest).

(** The directory: file contents by key.  A write that fails is an [Io] error
    and leaves the directory as it was. *)
Definition cached_compile_module (writable : bool) (wasm_bytes : list Z) (m : Module_) (mem_base mem_sz entrypoint_fn_idx : Z)
    (dir : option (gmap (list Z) (list Z))) : option (gmap (list Z) (list Z)) * outcome CacheError (ModuleLayout * CacheOutcome) :=
  let compiled := match compile_module m mem_base mem_sz entrypoint_fn_idx with
                  | Ok l => Ok l | Err e => Err (CacheLower e) | Panic => Panic
                  end in
  match dir with
  | None => (None, obind compiled (fun layout => Ok (layout, Disabled)))
  | Some files =>
      let key := compute_cache_key wasm_bytes mem_base mem_sz entrypoint_fn_idx in
      match obind (from_option Ok (Err Io) (files !! key)) decode_fjc1 with
      | Ok layout => (dir, Ok (layout, Hit))
      | Panic => (dir, Panic)
      | Err _ =>
          match compiled with
          | Ok layout =>
              if writable then (Some (<[key := encode_fjc1 layout]> files), Ok (layout, Miss)) else (dir, Err Io)
          | Err e => (dir, Err e)
          | Panic => (dir, Panic)
          end
      end
  end.
End cache.

(** The code cache: the file format is read back exactly, a cut-off file is
    always detected, and a second compile of the same inputs is a hit with the
    same code. *)

Definition wf_layout (l : ModuleLayout) : Prop :=
  in_width 32 (entrypoint_offset l) /\ Forall (in_width 32) (function_offsets l) /\
  in_width 32 (Z.of_nat (length (function_offsets l))) /\ in_width 32 (Z.of_nat (length (code l))) /\ Forall byte (code l).

#[global] Instance in_width_dec w z : Decision (in_width w z).
Proof. unfold in_width. apply _. Defined.
#[global] Instance byte_dec z : Decision (byte z).
Proof. unfold byte. apply _. Defined.
#[global] Instance wf_layout_dec l : Decision (wf_layout l).
Proof. unfold wf_layout. apply _. Defined.

(** ** Reading *)

Section reading.
Context (buf : list Z).

(** [bs] stands in the buffer at [p]. *)
Definition at_ (p : Z) (bs : list Z) : Prop := 0 <= p /\ exists rest, drop (Z.to_nat p) buf = bs ++ rest.

Lemma at_split p bs bs' : at_ p (bs ++ bs') -> at_ p bs /\ at_ (p + Z.of_nat (length bs)) bs'.
Proof.
  intros [Hp [rest H]]. rewrite <- app_assoc in H. split; [split; [done|by eexists]|]. split; [lia|].
  exists rest. rewrite Z2Nat.inj_add, Nat2Z.id, <- drop_drop, H, drop_app_length by lia. done.
Qed.

Lemma at_bound p bs : at_ p bs -> bs <> [] -> p + Z.of_nat (length bs) <= Z.of_nat (length buf).
Proof.
  intros [Hp [rest H]] Hne. apply (f_equal length) in H. rewrite length_drop, length_app in H. destruct bs; [done|cbn [length] in *; lia].
Qed.

Lemma read_u32_at p v : in_width 32 v -> at_ p (le_bytes 4 v) -> read_u32 buf p = (4 + p, Ok v).
Proof.
  intros Hv H. pose proof (at_bound _ _ H ltac:(done)) as Hb. rewrite le_bytes_length in Hb. destruct H as [Hp [rest H]].
  unfold read_u32, M_bind, gets, fail_if, modify, M_ret. cbn [id].
  destruct (Z.ltb_spec (Z.of_nat (length buf)) (p + 4)); [lia|].
  rewrite H, take_app_length' by (by rewrite le_bytes_length). rewrite from_to_le_bytes, Z.mod_small by done. done.
Qed.

(** A read past the end is reported. *)
Lemma read_u32_short p : Z.of_nat (length buf) < p + 4 -> read_u32 buf p = (p, Err Truncated).
Proof.
  intros H. unfold read_u32, M_bind, gets, fail_if, throw. cbn [id].
  by destruct (Z.ltb_spec (Z.of_nat (length buf)) (p + 4)); [|lia].
Qed.

Lemma read_u32s_at vs : forall p,
  Forall (in_width 32) vs -> at_ p (concat (le_bytes 4 <$> vs)) ->
  read_u32s buf (length vs) p = (4 * Z.of_nat (length vs) + p, Ok vs).
Proof.
  induction vs as [|v vs IH]; intros p Hvs H; [done|]. apply Forall_cons in Hvs as [Hv Hvs].
  rewrite fmap_cons in H. cbn [concat] in H. apply at_split in H as [H1 H2]. rewrite le_bytes_length in H2.
  cbn [read_u32s length]. unfold M_bind. rewrite (read_u32_at p v) by done.
  rewrite IH; [|done|by replace (4 + p) with (p + Z.of_nat 4) by lia]. unfold M_ret. f_equal. lia.
Qed.
End reading.

Lemma concat_words_length vs : length (concat (le_bytes 4 <$> vs)) = (4 * length vs)%nat.
Proof. induction vs as [|v vs IH]; [done|]. rewrite fmap_cons. cbn [concat length]. rewrite length_app, le_bytes_length, IH. lia. Qed.

Lemma decode_encode l : wf_layout l -> decode_fjc1 (encode_fjc1 l) = Ok l.
Proof.
  intros (He & Hf & Hn & Hc & _). destruct l as [cd fs ep]. cbn [entrypoint_offset function_offsets code] in *.
  set (buf := encode_fjc1 _).
  assert (at_ buf 0 (le_bytes 4 FJC1_MAGIC ++ le_bytes 4 1 ++ le_bytes 4 ep ++ le_bytes 4 (Z.of_nat (length fs)) ++
            concat (le_bytes 4 <$> fs) ++ le_bytes 4 (Z.of_nat (length cd)) ++ cd)) as H
    by (split; [done|]; exists []; by rewrite app_nil_r).
  assert (length buf = 20 + 4 * length fs + length cd)%nat as Hl
    by (subst buf; unfold encode_fjc1; rewrite !length_app, !le_bytes_length, concat_words_length; cbn [code function_offsets]; lia).
  apply at_split in H as [H1 H]. apply at_split in H as [H2 H]. apply at_split in H as [H3 H]. apply at_split in H as [H4 H].
  apply at_split in H as [H5 H]. apply at_split in H as [H6 H]. rewrite ?le_bytes_length, ?concat_words_length in *.
  unfold decode_fjc1, M_bind.
  rewrite (read_u32_at buf 0 FJC1_MAGIC) by done. cbn [fail_if negb]. rewrite Z.eqb_refl. cbn [negb fail_if M_ret].
  rewrite (read_u32_at buf _ 1) by done. cbn [fail_if negb Z.eqb Pos.eqb M_ret].
  rewrite (read_u32_at buf _ ep) by done. rewrite (read_u32_at buf _ (Z.of_nat (length fs))) by done.
  rewrite Nat2Z.id, (read_u32s_at buf fs) by done.
  match goal with |- context [read_u32 buf ?q] => replace q with (0 + Z.of_nat 4 + Z.of_nat 4 + Z.of_nat 4 + Z.of_nat 4 + Z.of_nat (4 * length fs)) by lia end.
  rewrite (read_u32_at buf _ (Z.of_nat (length cd))) by done. unfold gets, fail_if. cbn [id].
  match goal with |- context [?q + Z.of_nat (length cd)] => set (p := q) in * end.
  destruct (Z.ltb_spec (Z.of_nat (length buf)) (p + Z.of_nat (length cd))); [lia|]. cbn [M_ret].
  unfold M_ret. do 2 f_equal. unfold slice. replace (p + Z.of_nat (length cd) - p) with (Z.of_nat (length cd)) by lia.
  destruct H as [_ [rest H]]. replace (Z.to_nat p) with (Z.to_nat (0 + Z.of_nat 4 + Z.of_nat 4 + Z.of_nat 4 + Z.of_nat 4 + Z.of_nat (4 * length fs) + Z.of_nat 4)) by lia.
  by rewrite H, Nat2Z.id, take_app_length.
Qed.

(** A layout written to the cache file is read back unchanged: code, every
    function offset and the entry point. *)
Theorem fjc1_roundtrip (l : ModuleLayout) : wf_layout l -> decode_fjc1 (encode_fjc1 l) = Ok l.
Proof. apply decode_encode. Qed.

Lemma fjc1_roundtrip_witness :
  decode_fjc1 (encode_fjc1 (mkModuleLayout [0x1F; 0x20; 0x03; 0xD5] [0; 4] 0)) = Ok (mkModuleLayout [0x1F; 0x20; 0x03; 0xD5] [0; 4] 0).
Proof.
  refine (fjc1_roundtrip (mkModuleLayout [0x1F; 0x20; 0x03; 0xD5] [0; 4] 0) _).
  apply (bool_decide_unpack _). by vm_compute.
Defined.

(** ** Cut-off files *)

Section truncated.
Context (buf : list Z) (k : nat) (Hk : (k <= length buf)%nat).

Abbreviation cut := (take k buf).

Lemma cut_u32 p : 0 <= p -> read_u32 cut p = (p, Err Truncated) \/ read_u32 cut p = read_u32 buf p.
Proof.
  intros Hp. destruct (Z.ltb_spec (Z.of_nat k) (p + 4)); [left; apply read_u32_short; rewrite length_take; lia|right].
  unfold read_u32, M_bind, gets, fail_if, modify, M_ret. cbn [id]. rewrite length_take.
  assert (take 4 (drop (Z.to_nat p) cut) = take 4 (drop (Z.to_nat p) buf)) as ->
    by (rewrite skipn_firstn_comm, take_take; f_equal; lia).
  destruct (Z.ltb_spec (Z.of_nat (k `min` length buf)) (p + 4)), (Z.ltb_spec (Z.of_nat (length buf)) (p + 4)); try lia; done.
Qed.

Lemma cut_u32s n : forall p,
  0 <= p -> (exists p', read_u32s cut n p = (p', Err Truncated)) \/ read_u32s cut n p = read_u32s buf n p.
Proof.
  induction n as [|n IH]; intros p Hp; [by right|]. cbn [read_u32s]. unfold M_bind.
  destruct (cut_u32 p Hp) as [-> | E]; [left; by eexists|]. rewrite E. destruct (read_u32 buf p) as [p1 [v|e|]] eqn:Hr; [|by right..].
  assert (0 <= p1) as Hp1.
  { unfold read_u32, M_bind, gets, fail_if, modify, M_ret, throw in Hr. cbn [id] in Hr. destruct (_ <? _); [done|]. injection Hr as <- _. lia. }
  destruct (IH p1 Hp1) as [[p' ->] | ->]; [left; by eexists|by right].
Qed.
End truncated.

Lemma read_u32_pos buf p p' v : 0 <= p -> read_u32 buf p = (p', Ok v) -> p' = 4 + p.
Proof. intros Hp. unfold read_u32, M_bind, gets, fail_if, modify, M_ret, throw. cbn [id]. destruct (_ <? _); [done|]. by intros [= <- _]. Qed.

Lemma read_u32s_pos buf n : forall p p' vs, 0 <= p -> read_u32s buf n p = (p', Ok vs) -> p' = p + 4 * Z.of_nat (length vs).
Proof.
  induction n as [|n IH]; intros p p' vs Hp; cbn [read_u32s]; [intros [= <- <-]; cbn; lia|]. unfold M_bind.
  destruct (read_u32 buf p) as [p1 [v|e|]] eqn:H1; [|done..]. apply read_u32_pos in H1; [|done].
  destruct (read_u32s buf n p1) as [p2 [ws|e|]] eqn:H2; [|done..]. apply IH in H2; [|lia]. intros [= <- <-]. cbn [length]. lia.
Qed.

Lemma read_u32_nonneg buf p p' v : Forall byte buf -> read_u32 buf p = (p', Ok v) -> 0 <= v.
Proof.
  intros Hb. unfold read_u32, M_bind, gets, fail_if, modify, M_ret, throw. cbn [id]. destruct (_ <? _); [done|].
  intros [= _ <-]. apply from_le_bytes_range, Forall_take, Forall_drop, Hb.
Qed.

Lemma encode_byte l : wf_layout l -> Forall byte (encode_fjc1 l).
Proof.
  intros (_ & _ & _ & _ & Hc). unfold encode_fjc1. rewrite !Forall_app. repeat split; try apply le_bytes_byte; [|done].
  induction (function_offsets l) as [|v vs IH]; [constructor|]. rewrite fmap_cons. apply Forall_app. split; [apply le_bytes_byte|done].
Qed.

Lemma fail_if_pos (b : bool) e (p q : Z) : fail_if b e p = (q, Ok tt : outcome CacheError unit) -> q = p.
Proof. unfold fail_if. destruct b; [done|]. by intros [= <-]. Qed.

Lemma encode_length l : length (encode_fjc1 l) = (20 + 4 * length (function_offsets l) + length (code l))%nat.
Proof. unfold encode_fjc1. rewrite !length_app, !le_bytes_length, concat_words_length. lia. Qed.

(** Follow the decoder on the cut buffer: the first short read ends it. *)
Ltac cut_read b k Hk :=
  match goal with |- context [read_u32 (take k b) ?p] =>
    destruct (cut_u32 b k Hk p ltac:(lia)) as [-> | ->]; [done|];
    let H := fresh "Hr" in destruct (read_u32 b p) as [? [?|?|]] eqn:H; [|done..];
    pose proof (read_u32_nonneg b _ _ _ ltac:(assumption) H); apply read_u32_pos in H; [|lia]
  end.
Ltac cut_check :=
  match goal with |- context [fail_if ?c ?e ?p] =>
    let H := fresh "Hf" in destruct (fail_if c e p) as [? [[]|?|]] eqn:H; [|done..]; apply fail_if_pos in H
  end.

(** No proper prefix of a cache file decodes: it is reported as truncated,
    so a file cut off at any byte leads to a recompile. *)
Theorem fjc1_prefix_truncated (l : ModuleLayout) (k : nat) :
  wf_layout l -> (k < length (encode_fjc1 l))%nat -> decode_fjc1 (take k (encode_fjc1 l)) = Err Truncated.
Proof.
  intros Hwf Hk. pose proof (decode_encode l Hwf) as Hd. pose proof (encode_length l) as Hlen. pose proof (encode_byte l Hwf) as Hby. set (b := encode_fjc1 l) in *.
  assert (k <= length b)%nat as Hk' by lia. revert Hd. unfold decode_fjc1, M_bind.
  cut_read b k Hk'. cut_check. cut_read b k Hk'. cut_check. cut_read b k Hk'. cut_read b k Hk'.
  match goal with |- context [read_u32s (take k b) ?n ?p] =>
    destruct (cut_u32s b k Hk' n p ltac:(lia)) as [[? ->] | ->]; [done|];
    destruct (read_u32s b n p) as [? [vs|?|]] eqn:Hs; [|done..]; apply read_u32s_pos in Hs; [|lia]
  end.
  cut_read b k Hk'. unfold gets, fail_if, throw, M_ret. cbn [id]. rewrite length_take.
  match goal with |- context [Z.of_nat (length b) <? ?x] => destruct (Z.ltb_spec (Z.of_nat (length b)) x) as [|Hge]; [done|];
    destruct (Z.ltb_spec (Z.of_nat (k `min` length b)) x); [done|] end.
  intros [= Hl]. exfalso. rewrite <- Hl in Hlen. cbn [code function_offsets] in Hlen. unfold slice in Hlen. rewrite length_take, length_drop in Hlen. lia.
Qed.

Lemma fjc1_prefix_truncated_witness :
  decode_fjc1 (take 23 (encode_fjc1 (mkModuleLayout [0x1F; 0x20; 0x03; 0xD5] [0] 0))) = Err Truncated.
Proof.
  refine (fjc1_prefix_truncated (mkModuleLayout [0x1F; 0x20; 0x03; 0xD5] [0] 0) 23 _ _); [|by vm_compute; lia].
  apply (bool_decide_unpack _). by vm_compute.
Defined.

(** ** Hits *)

Section hits.
Context (sha256 : list Z -> list Z).

(** Once a module has been compiled into a cache directory, compiling it
    again with the same inputs is a hit that returns the same layout and leaves
    the directory alone, whatever the hash function. *)
Theorem second_compile_hits (wasm_bytes : list Z) (m : Module_) (mem_base mem_sz entry : Z)
    (files files' : gmap (list Z) (list Z)) (layout : ModuleLayout) (o : CacheOutcome) (writable : bool) :
  cached_compile_module sha256 true wasm_bytes m mem_base mem_sz entry (Some files) = (Some files', Ok (layout, o)) ->
  wf_layout layout ->
  cached_compile_module sha256 writable wasm_bytes m mem_base mem_sz entry (Some files') = (Some files', Ok (layout, Hit)).
Proof.
  unfold cached_compile_module. set (key := compute_cache_key _ _ _ _ _). intros H Hwf.
  destruct (obind (from_option Ok (Err Io) (files !! key)) decode_fjc1) as [l|e|] eqn:Hd.
  - injection H as <- <- <-. by rewrite Hd.
  - destruct (compile_module m mem_base mem_sz entry) as [l|e'|]; [|done|done].
    injection H as <- <- <-. rewrite lookup_insert_eq. cbn [from_option obind]. by rewrite decode_encode.
  - done.
Qed.

(** A file that was changed after it was written is still looked up and served:
    the name is a hash of the inputs, not of the contents. *)
Lemma tampered_file_is_served wasm_bytes m mem_base mem_sz entry files layout writable :
  wf_layout layout ->
  cached_compile_module sha256 writable wasm_bytes m mem_base mem_sz entry
    (Some (<[compute_cache_key sha256 wasm_bytes mem_base mem_sz entry := encode_fjc1 layout]> files)) =
  (Some (<[compute_cache_key sha256 wasm_bytes mem_base mem_sz entry := encode_fjc1 layout]> files), Ok (layout, Hit)).
Proof. intros Hwf. unfold cached_compile_module. rewrite lookup_insert_eq. cbn [from_option obind]. by rewrite decode_encode. Qed.
End hits.

(** A module of one function that returns 42. *)
Definition answer_module : Module_ :=
  mkModule [mkFuncSig [] [0x7F]] [0] [] [] [] [mkFunctionBody 0 [] [I32Const 42; End]].

Definition answer_layout : ModuleLayout :=
  match compile_module answer_module 0x10000 65536 0 with Ok l => l | _ => mkModuleLayout [] [] 0 end.

Lemma second_compile_hits_witness :
  cached_compile_module (fun _ => []) false [1; 2; 3] answer_module 0x10000 65536 0
    (Some (<[compute_cache_key (fun _ => []) [1; 2; 3] 0x10000 65536 0 := encode_fjc1 answer_layout]> ∅)) =
  (Some (<[compute_cache_key (fun _ => []) [1; 2; 3] 0x10000 65536 0 := encode_fjc1 answer_layout]> ∅), Ok (answer_layout, Hit)).
Proof.
  refine (second_compile_hits (fun _ => []) [1; 2; 3] answer_module 0x10000 65536 0 ∅ _ answer_layout Miss false _ _).
  - vm_compute. reflexivity.
  - apply (bool_decide_unpack _). by vm_compute.
Defined.
