(* ===== verification/LowerInv.v ===== *)
(** The lowerer's invariant and its Hoare logic, and the lowering steps that leave
    the operand types alone. *)

From S2P Require Import Prelude Bytes A64 WasmTypes WasmValidate WasmValidateThm Peephole Lower LowerOps.

(** The lowerer's invariant and the operand types it accepts.

    A Hoare triple over [L] that excludes panics; the invariant [linv] ties the
    depth counters, the symbolic stack and the label positions to the operand
    stack and the buffer; every lowering is verified against the typing rules
    of WasmValidateThm. *)

Open Scope kernel_scope.

(** ** Triples *)

Definition hoare {A} (P : Lowerer -> Prop) (m : L A) (Q : A -> Lowerer -> Prop) (R : LowerError -> Prop) : Prop :=
  forall s, P s ->
    match m s with
    | (s', Ok a) => Q a s'
    | (_, Err e) => R e
    | (_, Panic) => False
    end.

Section rules.
Context (R : LowerError -> Prop).

Lemma hoare_ret {A} (P : Lowerer -> Prop) (a : A) (Q : A -> Lowerer -> Prop) :
  (forall s, P s -> Q a s) -> hoare P (M_ret a) Q R.
Proof. intros H s Hs. by apply H. Qed.

Lemma hoare_bind {A B} (P : Lowerer -> Prop) (m : L A) (Q' : A -> Lowerer -> Prop) (k : A -> L B) Q :
  hoare P m Q' R -> (forall a, hoare (Q' a) (k a) Q R) -> hoare P (M_bind k m) Q R.
Proof.
  intros Hm Hk s Hs. unfold M_bind. specialize (Hm s Hs). destruct (m s) as [s' [a|e|]]; [|done|done]. by apply Hk.
Qed.

Lemma hoare_seq {A B} (P P' : Lowerer -> Prop) (m : L A) (k : L B) Q :
  hoare P m (fun _ => P') R -> hoare P' k Q R -> hoare P (m ;;; k) Q R.
Proof. intros Hm Hk. by eapply hoare_bind. Qed.

Lemma hoare_gets {A B} (P : Lowerer -> Prop) (f : Lowerer -> A) (k : A -> L B) Q :
  (forall s0, P s0 -> hoare (fun s => s = s0 /\ P s) (k (f s0)) Q R) -> hoare P (M_bind k (gets f)) Q R.
Proof. intros H s Hs. unfold M_bind, gets. by apply (H s Hs s). Qed.

Lemma hoare_throw {A} (P : Lowerer -> Prop) e (Q : A -> Lowerer -> Prop) : (forall s, P s -> R e) -> hoare P (throw e) Q R.
Proof. intros H s Hs. by apply (H s). Qed.

Lemma hoare_modify (P : Lowerer -> Prop) (f : Lowerer -> Lowerer) (Q : unit -> Lowerer -> Prop) :
  (forall s, P s -> Q tt (f s)) -> hoare P (modify f) Q R.
Proof. intros H s Hs. by apply H. Qed.

Lemma hoare_fail_if (P : Lowerer -> Prop) b e (Q : unit -> Lowerer -> Prop) :
  (forall s, P s -> b = true -> R e) -> (forall s, P s -> b = false -> Q tt s) -> hoare P (fail_if b e) Q R.
Proof. intros HR HQ s Hs. destruct b; cbn; eauto. Qed.

Lemma hoare_ok_or {A} (P : Lowerer -> Prop) (o : option A) e (Q : A -> Lowerer -> Prop) :
  (forall s, P s -> o = None -> R e) -> (forall s a, P s -> o = Some a -> Q a s) -> hoare P (ok_or o e) Q R.
Proof. intros HR HQ s Hs. destruct o; cbn; eauto. Qed.
End rules.

Lemma hoare_weaken {A} (P P' : Lowerer -> Prop) (m : L A) (Q Q' : A -> Lowerer -> Prop) (R R' : LowerError -> Prop) :
  hoare P' m Q' R' -> (forall s, P s -> P' s) -> (forall a s, Q' a s -> Q a s) -> (forall e, R' e -> R e) -> hoare P m Q R.
Proof.
  intros H HP HQ HR s Hs. specialize (H s (HP s Hs)). destruct (m s) as [s' [a|e|]]; auto.
Qed.

Lemma hoare_imp {A} (P P' : Lowerer -> Prop) (m : L A) Q R : (forall s, P s -> P' s) -> hoare P' m Q R -> hoare P m Q R.
Proof. intros HP H s Hs. by apply H, HP. Qed.

Lemma hoare_pre {A} (P : Lowerer -> Prop) (m : L A) Q R : (forall s, P s -> hoare (fun s' => s' = s) m Q R) -> hoare P m Q R.
Proof. intros H s Hs. by apply (H s Hs s). Qed.

(** ** The invariant *)

(** The fields that are fixed once lowering starts. *)
Definition cfg (s : Lowerer) : Lowerer :=
  mkLowerer new_encoder [] 0 0 (locals s) [] (call_targets s) (call_sigs s) (has_frame s) (has_memory s)
    (saved_int_pairs s) (frame_size_base s) (mem_size s) (table_base s) (indirect_sigs s) [] (n_int_locals s)
    (max_reg_int s) (spill_base s) (has_spill s) None false (fp_spill_base s) None false [] (global_types s)
    (global_mutable s) (module_fn_count s) (module_fn_sigs s) [] [] [] 0.

Definition count_ints (l : list ValType) : Z := Z.of_nat (length (filter (fun t => is_int t = true) l)).
Definition count_fps (l : list ValType) : Z := Z.of_nat (length (filter (fun t => is_int t = false) l)).

Definition int_capacity (s : Lowerer) : Z := max_reg_int s + (if has_spill s then MAX_FRAME_SPILL else 0).
Definition fp_capacity (s : Lowerer) : Z := MAX_F32_STACK + (if has_spill s then MAX_FP_SPILL else 0).

(** A four-byte slot of the buffer. *)
Definition slot_ok (p q : Z) : Prop := 0 <= q /\ q mod 4 = 0 /\ q + 4 <= p.

Definition patch_ok (p : Z) (x : PendingPatch) : Prop :=
  match x with PatchB q => slot_ok p q | PatchCbnzW q _ => slot_ok p q end.

Definition label_ok (p : Z) (l : Label) : Prop :=
  match kind l with
  | KBlock => True
  | KLoop => exists q, loop_start l = Some q /\ 0 <= q <= p /\ q mod 4 = 0
  | KIf q | KIfElse q => slot_ok p q
  end /\ Forall (patch_ok p) (pending l).

Record wf_cfg (c : Lowerer) : Prop := {
  wf_n_int : 0 <= n_int_locals c <= 9;
  wf_max_reg : 16 <= max_reg_int c <= 25 - n_int_locals c;
  wf_globals : length (global_mutable c) = length (global_types c);
  wf_sigs : module_fn_count c = Z.of_nat (length (module_fn_sigs c));
  wf_mem : 0 <= mem_size c < 2 ^ 32
}.

Record linv (s : Lowerer) : Prop := {
  inv_cfg : wf_cfg (cfg s);
  inv_int : int_depth s = count_ints (stack s);
  inv_int_max : int_depth s <= int_capacity s;
  inv_fp : fp_depth s = count_fps (stack s);
  inv_fp_max : fp_depth s <= fp_capacity s;
  inv_sym : Z.of_nat (length (int_sym_stack s)) = int_depth s;
  inv_spill : forall d, pending_spill_depth s = Some d -> max_reg_int s <= d < int_capacity s;
  inv_fp_spill : forall d, pending_fp_spill_depth s = Some d -> MAX_F32_STACK <= d < fp_capacity s;
  inv_aligned : pos (encoder s) mod 4 = 0;
  inv_bytes : Forall byte (buf (encoder s));
  inv_labels : Forall (label_ok (pos (encoder s))) (label_stack s)
}.

(** The state between two steps of a lowering: its configuration, its open
    labels and its operand types. *)
Definition st (c : Lowerer) (ls : list Label) (σ : list ValType) (s : Lowerer) : Prop :=
  cfg s = c /\ label_stack s = ls /\ stack s = σ /\ linv s.

(** ** Emission *)

(** [m] appends one word or fails and leaves the buffer alone. *)
Definition emits (m : EncM unit) : Prop :=
  forall e, (exists w, m e = (mkEncoder (buf e ++ le_bytes 4 w), Ok tt)) \/ (exists x, m e = (e, Err x)).

Ltac term_head t := lazymatch t with ?f _ => term_head f | _ => t end.

(** Unfold the emitter and follow its operand checks. *)
Ltac solve_emits :=
  lazymatch goal with |- emits ?m => let h := term_head m in unfold h end;
  let en := fresh "en" in intros en; unfold M_bind, lift_result, fail_if, throw, M_ret, emit_raw_word, emit, modify;
  repeat (lazymatch goal with |- context [if ?b then _ else _] => destruct b | |- context [match ?x with inl _ => _ | inr _ => _ end] => destruct x end; cbn beta iota zeta);
  first [left; eexists; reflexivity | right; eexists; reflexivity].

#[global] Hint Extern 0 (emits _) => solve_emits : kernel.

Lemma slot_ok_mono p p' q : slot_ok p q -> p <= p' -> slot_ok p' q.
Proof. unfold slot_ok. lia. Qed.

Lemma label_ok_mono p p' l : label_ok p l -> p <= p' -> label_ok p' l.
Proof.
  intros [Hk Hp] Hle. split.
  - destruct (kind l); try done; [destruct Hk as (q & ? & ? & ?); exists q; split; [done|]; lia|by eapply slot_ok_mono..].
  - eapply Forall_impl; [exact Hp|]. intros [q|q r] Hq; cbn in *; by eapply slot_ok_mono.
Qed.

(** The encoder may grow by whole words. *)
Definition grows (e e' : Encoder) : Prop :=
  pos e <= pos e' /\ (pos e mod 4 = 0 -> pos e' mod 4 = 0) /\ (Forall byte (buf e) -> Forall byte (buf e')).

Lemma grows_refl e : grows e e.
Proof. by unfold grows. Qed.

Lemma grows_emit e w : grows e (mkEncoder (buf e ++ le_bytes 4 w)).
Proof.
  unfold grows, pos. cbn [buf]. rewrite length_app, le_bytes_length, Nat2Z.inj_add. change (Z.of_nat 4) with 4.
  split; [lia|]. split; [|by intros; apply Forall_app; split; [|apply le_bytes_byte]].
  intros H. rewrite <- Z.add_mod_idemp_l by lia. by rewrite H.
Qed.

Lemma linv_encoder s e : linv s -> grows (encoder s) e -> linv (s <| encoder := e |>).
Proof.
  intros [] (Hp & Ha & Hb). split; try assumption; [by apply Ha|by apply Hb|].
  eapply Forall_impl; [eassumption|]. intros l Hl. by eapply label_ok_mono.
Qed.

Lemma hoare_asm c ls σ m :
  emits m -> hoare (st c ls σ) (asm m) (fun _ => st c ls σ) (fun e => exists x, e = Encode x).
Proof.
  intros Hm s (Hc & Hl & Hs & Hi). unfold asm, on_encoder, asm_on.
  destruct (Hm (encoder s)) as [[w ->]|[x ->]]; [|by exists x].
  split; [done|]. split; [done|]. split; [done|]. apply linv_encoder; [done|apply grows_emit].
Qed.

(** ** Slots *)

Definition type_error (e : LowerError) : bool :=
  match e with
  | StackUnderflow | StackNotSingleton | TypeMismatch _ _ | LocalOutOfRange | GlobalOutOfRange | CallTargetMissing | IndirectTypeMissing => true
  | _ => false
  end.

(** Errors that do not come from the operand types. *)
Definition untyped (e : LowerError) : Prop := type_error e = false.

Lemma st_asm c ls σ m : emits m -> hoare (st c ls σ) (asm m) (fun _ => st c ls σ) untyped.
Proof. intros Hm. eapply hoare_weaken; [by apply hoare_asm|done|done|]. by intros e [x ->]. Qed.

Lemma st_flush c ls σ : hoare (st c ls σ) flush_pending_spill (fun _ => st c ls σ) untyped.
Proof.
  apply hoare_gets. intros s0 (Hc & Hl & Hs & Hi). cbn [id]. destruct (pending_spill_depth s0) as [d|] eqn:Hd.
  - eapply hoare_seq; [|apply st_asm; auto with kernel].
    apply hoare_modify. intros s [-> _]. split; [done|]. split; [done|]. split; [done|]. destruct Hi. split; by try assumption.
  - apply hoare_ret. by intros s [-> H].
Qed.

Lemma st_flush_fp c ls σ : hoare (st c ls σ) flush_pending_fp_spill (fun _ => st c ls σ) untyped.
Proof.
  apply hoare_gets. intros s0 (Hc & Hl & Hs & Hi). cbn [id]. destruct (pending_fp_spill_depth s0) as [d|] eqn:Hd.
  - eapply hoare_seq; [|apply st_asm; auto with kernel].
    apply hoare_modify. intros s [-> _]. split; [done|]. split; [done|]. split; [done|]. destruct Hi. split; by try assumption.
  - apply hoare_ret. by intros s [-> H].
Qed.

Lemma count_ints_cons t σ : count_ints (t :: σ) = (if is_int t then 1 else 0) + count_ints σ.
Proof. unfold count_ints. rewrite filter_cons. destruct (is_int t); case_decide; try done; cbn [length]; lia. Qed.

Lemma count_fps_cons t σ : count_fps (t :: σ) = (if is_int t then 0 else 1) + count_fps σ.
Proof. unfold count_fps. rewrite filter_cons. destruct (is_int t); case_decide; try done; cbn [length]; lia. Qed.

Lemma count_ints_nonneg σ : 0 <= count_ints σ.
Proof. unfold count_ints. lia. Qed.

Lemma count_fps_nonneg σ : 0 <= count_fps σ.
Proof. unfold count_fps. lia. Qed.

Lemma wf_capacity s : wf_cfg (cfg s) -> int_capacity s <= 41 /\ fp_capacity s <= 24.
Proof. intros []. unfold int_capacity, fp_capacity, MAX_FRAME_SPILL, MAX_F32_STACK, MAX_FP_SPILL. cbn in *. destruct (has_spill s); lia. Qed.

(** [s'] has the operand types and counters [σ], [di], [df] of an operation on
    [s] that leaves the buffer and the labels alone. *)
Lemma linv_restack s s' :
  linv s -> cfg s' = cfg s -> encoder s' = encoder s -> label_stack s' = label_stack s ->
  int_depth s' = count_ints (stack s') -> int_depth s' <= int_capacity s ->
  fp_depth s' = count_fps (stack s') -> fp_depth s' <= fp_capacity s ->
  Z.of_nat (length (int_sym_stack s')) = int_depth s' ->
  (forall d, pending_spill_depth s' = Some d -> max_reg_int s <= d < int_capacity s) ->
  (forall d, pending_fp_spill_depth s' = Some d -> MAX_F32_STACK <= d < fp_capacity s) -> linv s'.
Proof.
  intros Hi Hc He Hl. assert (int_capacity s' = int_capacity s) as E1
    by (change (int_capacity (cfg s') = int_capacity (cfg s)); by rewrite Hc).
  assert (fp_capacity s' = fp_capacity s) as E2 by (change (fp_capacity (cfg s') = fp_capacity (cfg s)); by rewrite Hc).
  assert (max_reg_int s' = max_reg_int s) as E3 by (change (max_reg_int (cfg s') = max_reg_int (cfg s)); by rewrite Hc).
  intros. split; rewrite ?E1, ?E2, ?E3, ?He, ?Hl, ?Hc; by try apply Hi.
Qed.

Lemma int_reg_spec s d :
  wf_cfg (cfg s) -> is_Some (int_depth_to_reg s d) <-> d < max_reg_int s.
Proof.
  intros H. pose proof (wf_max_reg _ H) as Hmr. cbn in Hmr. unfold int_depth_to_reg, MAX_PRIMARY_INT.
  destruct (Z.ltb_spec d 16), (Z.ltb_spec d (max_reg_int s)); split; intros Hx; try lia; try done; by destruct Hx.
Qed.

Lemma st_push_int c ls σ t :
  is_int t = true -> hoare (st c ls σ) (push_int_slot t) (fun _ => st c ls (t :: σ)) untyped.
Proof.
  intros Ht. unfold push_int_slot. eapply hoare_seq; [apply st_flush|].
  apply hoare_gets. intros s0 (Hc & Hl & Hs & Hi). cbn [id].
  pose proof (int_reg_spec s0 (int_depth s0) (inv_cfg _ Hi)) as Hreg.
  pose proof (count_ints_cons t (stack s0)) as Hci. pose proof (count_fps_cons t (stack s0)) as Hcf. rewrite Ht in Hci, Hcf.
  assert (forall p, int_depth s0 < int_capacity s0 ->
            (forall d, p = Some d -> max_reg_int s0 <= d < int_capacity s0) ->
            forall s, stack s = t :: stack s0 -> cfg s = cfg s0 -> encoder s = encoder s0 -> label_stack s = label_stack s0 ->
            int_depth s = int_depth s0 + 1 -> fp_depth s = fp_depth s0 -> int_sym_stack s = None :: int_sym_stack s0 ->
            pending_spill_depth s = p -> pending_fp_spill_depth s = pending_fp_spill_depth s0 -> st c ls (t :: σ) s) as Hpush.
  { intros p Hcap Hp s E1 E2 E3 E4 E5 E6 E7 E8 E9. unfold st. rewrite E2, E4, E1, Hs. do 3 (split; [done|]).
    apply (linv_restack s0 s Hi E2 E3 E4); rewrite ?E1, ?E5, ?E6, ?E7, ?E8, ?E9; try apply Hi; try done; cbn [length];
      pose proof (inv_int _ Hi); pose proof (inv_fp _ Hi); pose proof (inv_sym _ Hi); lia. }
  destruct (int_depth_to_reg s0 (int_depth s0)) as [r|] eqn:Hr.
  - assert (int_depth s0 < max_reg_int s0) by (by apply Hreg).
    eapply hoare_seq; [|apply hoare_ret; intros s H'; exact H'].
    apply hoare_modify. intros s [-> _]. apply (Hpush (pending_spill_depth s0)); try done; [|apply Hi].
    unfold int_capacity, MAX_FRAME_SPILL. destruct (has_spill s0); lia.
  - assert (~ int_depth s0 < max_reg_int s0) by (intros H'; apply Hreg in H'; by destruct H').
    destruct (has_spill s0 && _) eqn:Hsp; [|by apply hoare_throw]. bool_prop.
    assert (int_capacity s0 = max_reg_int s0 + MAX_FRAME_SPILL) as Hcap by (unfold int_capacity; by rewrite H0).
    eapply (hoare_seq _ _ (fun s => s = s0 <| pending_spill_depth := Some (int_depth s0) |>)); [apply hoare_modify; by intros s [-> _]|].
    eapply hoare_seq; [|apply hoare_ret; intros s H'; exact H'].
    apply hoare_modify. intros s ->. apply (Hpush (Some (int_depth s0))); try done; [lia|]. intros d [= <-]. lia.
Qed.

(** A pop that finds its type, or a type error on any other stack. *)
Definition pops (σ : list ValType) (t : ValType) (e : LowerError) : Prop := type_error e = true -> forall σ', σ <> t :: σ'.

Lemma untyped_pops σ t e : untyped e -> pops σ t e.
Proof. unfold untyped, pops. by intros ->. Qed.

Lemma st_expect_top c ls σ t :
  hoare (st c ls σ) (expect_top t) (fun _ s => exists σ', σ = t :: σ' /\ st c ls σ s) (pops σ t).
Proof.
  apply hoare_gets. intros s0 (Hc & Hl & <- & Hi). destruct (stack s0) as [|ty σ'] eqn:Hs.
  - cbn. intros s _. by intros _ σ'.
  - cbn. intros s [-> Hst]. unfold fail_if, M_bind, M_ret. destruct (bool_decide_reflect (ty = t)) as [->|Hne]; cbn.
    + exists σ'. done.
    + intros _ σ'' [= -> ->]. done.
Qed.

Lemma st_pop_int c ls σ t :
  is_int t = true ->
  hoare (st c ls σ) (pop_int_slot t) (fun _ s => exists σ', σ = t :: σ' /\ st c ls σ' s) (pops σ t).
Proof.
  intros Ht. unfold pop_int_slot. eapply hoare_seq; [eapply hoare_weaken; [apply st_flush|done|done|apply untyped_pops]|].
  eapply hoare_seq; [apply st_expect_top|]. intros s (σ' & -> & Hc & Hl & Hs & Hi).
  pose proof (count_ints_cons t σ') as Hci. pose proof (count_fps_cons t σ') as Hcf. rewrite Ht in Hci, Hcf.
  pose proof (count_ints_nonneg σ'). pose proof (inv_int _ Hi) as Hint. rewrite Hs in Hint.
  pose proof (inv_int_max _ Hi). pose proof (wf_capacity _ (inv_cfg _ Hi)).
  assert (u64 (int_depth s - 1) = count_ints σ') as Hd by (rewrite wrap_small; [lia|unfold in_width; lia]).
  set (s1 := s <| stack := tail (stack s) |> <| int_sym_stack := tail (int_sym_stack s) |> <| int_depth := u64 (int_depth s - 1) |>).
  assert (st c ls σ' s1) as Hst.
  { split; [done|]. split; [done|]. split; [cbn; by rewrite Hs|].
    pose proof (inv_sym _ Hi) as Hsym. pose proof (inv_fp _ Hi) as Hfp. pose proof (inv_fp_max _ Hi). rewrite Hs in Hfp.
    apply (linv_restack s s1 Hi); try done; cbn [s1 stack int_depth fp_depth int_sym_stack update_field set_stack set_int_depth set_int_sym_stack];
      rewrite ?Hd, ?Hs; cbn [tail]; try apply Hi; try lia.
    destruct (int_sym_stack s); cbn [tail length] in *; lia. }
  unfold M_bind at 1, modify. fold s1. unfold M_bind at 1, gets. cbn [id].
  destruct (int_depth_to_reg s1 (int_depth s1)) as [r|]; [by exists σ'|].
  revert s1 Hst. intros s1 Hst.
  eapply (hoare_seq _ (st c ls σ') (st c ls σ')); [|eapply (hoare_seq _ _ (st c ls σ')); [|apply hoare_ret; intros s2 H'; by exists σ']|exact Hst].
  - apply hoare_modify. intros s2 (? & ? & ? & Hi2). do 3 (split; [done|]). by apply (linv_restack s2 _ Hi2); try done; apply Hi2.
  - eapply hoare_weaken; [apply st_asm; auto with kernel|done|done|apply untyped_pops].
Qed.

Lemma st_push_fp c ls σ t :
  is_int t = false -> hoare (st c ls σ) (push_fp_slot t) (fun _ => st c ls (t :: σ)) untyped.
Proof.
  intros Ht. unfold push_fp_slot. eapply hoare_seq; [apply st_flush_fp|].
  apply hoare_gets. intros s0 (Hc & Hl & Hs & Hi). cbn [id].
  pose proof (count_ints_cons t (stack s0)) as Hci. pose proof (count_fps_cons t (stack s0)) as Hcf. rewrite Ht in Hci, Hcf.
  assert (forall p, fp_depth s0 < fp_capacity s0 ->
            (forall d, p = Some d -> MAX_F32_STACK <= d < fp_capacity s0) ->
            forall s, stack s = t :: stack s0 -> cfg s = cfg s0 -> encoder s = encoder s0 -> label_stack s = label_stack s0 ->
            int_depth s = int_depth s0 -> fp_depth s = fp_depth s0 + 1 -> int_sym_stack s = int_sym_stack s0 ->
            pending_spill_depth s = pending_spill_depth s0 -> pending_fp_spill_depth s = p -> st c ls (t :: σ) s) as Hpush.
  { intros p Hcap Hp s E1 E2 E3 E4 E5 E6 E7 E8 E9. unfold st. rewrite E2, E4, E1, Hs. do 3 (split; [done|]).
    apply (linv_restack s0 s Hi E2 E3 E4); rewrite ?E1, ?E5, ?E6, ?E7, ?E8, ?E9; try apply Hi; try done;
      pose proof (inv_int _ Hi); pose proof (inv_fp _ Hi); lia. }
  destruct (Z.ltb_spec (fp_depth s0) MAX_F32_STACK) as [Hlt|Hge].
  - apply (hoare_bind _ _ _ (fun _ s => s = s0)); [apply hoare_ok_or; [done|]; by intros s a [-> _]|intros v].
    eapply hoare_seq; [|apply hoare_ret; intros s H'; exact H'].
    apply hoare_modify. intros s ->. apply (Hpush (pending_fp_spill_depth s0)); try done; [|apply Hi].
    unfold fp_capacity, MAX_FP_SPILL. destruct (has_spill s0); lia.
  - destruct (has_spill s0 && _) eqn:Hsp; [|by apply hoare_throw]. bool_prop.
    assert (fp_capacity s0 = MAX_F32_STACK + MAX_FP_SPILL) as Hcap by (unfold fp_capacity; by rewrite H).
    eapply (hoare_seq _ _ (fun s => s = s0 <| pending_fp_spill_depth := Some (fp_depth s0) |>)); [apply hoare_modify; by intros s [-> _]|].
    eapply hoare_seq; [|apply hoare_ret; intros s H'; exact H'].
    apply hoare_modify. intros s ->. apply (Hpush (Some (fp_depth s0))); try done; [lia|]. intros d [= <-]. lia.
Qed.

Lemma st_pop_fp c ls σ t :
  is_int t = false ->
  hoare (st c ls σ) (pop_fp_slot t) (fun _ s => exists σ', σ = t :: σ' /\ st c ls σ' s) (pops σ t).
Proof.
  intros Ht. unfold pop_fp_slot. eapply hoare_seq; [eapply hoare_weaken; [apply st_flush_fp|done|done|apply untyped_pops]|].
  eapply hoare_seq; [apply st_expect_top|]. intros s (σ' & -> & Hc & Hl & Hs & Hi).
  pose proof (count_ints_cons t σ') as Hci. pose proof (count_fps_cons t σ') as Hcf. rewrite Ht in Hci, Hcf.
  pose proof (count_fps_nonneg σ'). pose proof (inv_fp _ Hi) as Hint. rewrite Hs in Hint.
  pose proof (inv_fp_max _ Hi). pose proof (wf_capacity _ (inv_cfg _ Hi)).
  assert (u64 (fp_depth s - 1) = count_fps σ') as Hd by (rewrite wrap_small; [lia|unfold in_width; lia]).
  set (s1 := s <| stack := tail (stack s) |> <| fp_depth := u64 (fp_depth s - 1) |>).
  assert (st c ls σ' s1) as Hst.
  { split; [done|]. split; [done|]. split; [cbn; by rewrite Hs|].
    pose proof (inv_int _ Hi) as Hin. pose proof (inv_int_max _ Hi). rewrite Hs in Hin.
    apply (linv_restack s s1 Hi); try done; cbn [s1 stack int_depth fp_depth int_sym_stack update_field set_stack set_fp_depth];
      rewrite ?Hd, ?Hs; cbn [tail]; try apply Hi; try lia. }
  unfold M_bind at 1, modify. fold s1. unfold M_bind at 1, gets. cbn [id].
  destruct (Z.ltb_spec (fp_depth s1) MAX_F32_STACK) as [Hlt|].
  - unfold Vreg_new. assert ((u8 (fp_depth s1) <=? 31) = true) as ->; [|cbn; by exists σ'].
    cbn in Hlt |- *. rewrite Hd in *. unfold MAX_F32_STACK in Hlt. rewrite wrap_small; [|unfold in_width; lia]. apply Z.leb_le. lia.
  - revert s1 Hst H2. intros s1 Hst Hge.
    eapply (hoare_seq _ (st c ls σ') (st c ls σ')); [|eapply (hoare_seq _ _ (st c ls σ')); [|apply hoare_ret; intros s2 H'; by exists σ']|exact Hst].
    + apply hoare_modify. intros s2 (? & ? & ? & Hi2). do 3 (split; [done|]). by apply (linv_restack s2 _ Hi2); try done; apply Hi2.
    + eapply hoare_weaken; [apply st_asm; auto with kernel|done|done|apply untyped_pops].
Qed.

(** Lowering steps that leave the operand types alone: constants into scratch
    registers, bounds checks, traps, epilogues, argument moves.  The derived
    rules run a lowering one slot at a time. *)

Definition loc_type (l : LocalLoc) : ValType :=
  match l with LocI32 _ => I32 | LocI64 _ => I64 | LocF32 _ => F32 | LocF64 _ => F64 | LocV128 _ => V128 end.

(** The types of an operation in a lowerer's configuration. *)
Definition typing (c : Lowerer) : WasmOp -> list ValType -> list ValType -> Prop :=
  op_type (loc_type <$> locals c) (global_types c) (module_fn_sigs c) (indirect_sigs c).

(** ** Derived rules *)

Section derived.
Context (c : Lowerer) (ls : list Label) (Q : unit -> Lowerer -> Prop) (R : LowerError -> Prop).
Context (HR : forall e, untyped e -> R e).

Lemma lw_pop_int σ t (k : Reg -> L unit) :
  is_int t = true -> (forall e, pops σ t e -> R e) ->
  (forall r σ', σ = t :: σ' -> hoare (st c ls σ') (k r) Q R) -> hoare (st c ls σ) (M_bind k (pop_int_slot t)) Q R.
Proof.
  intros Ht He Hk. eapply hoare_bind; [eapply hoare_weaken; [by apply st_pop_int|done|done|done]|].
  intros r s (σ' & Hσ & Hs). by apply (Hk r σ' Hσ s).
Qed.

Lemma lw_pop_fp σ t (k : Vreg -> L unit) :
  is_int t = false -> (forall e, pops σ t e -> R e) ->
  (forall r σ', σ = t :: σ' -> hoare (st c ls σ') (k r) Q R) -> hoare (st c ls σ) (M_bind k (pop_fp_slot t)) Q R.
Proof.
  intros Ht He Hk. eapply hoare_bind; [eapply hoare_weaken; [by apply st_pop_fp|done|done|done]|].
  intros r s (σ' & Hσ & Hs). by apply (Hk r σ' Hσ s).
Qed.

Lemma lw_push_int σ t (k : Reg -> L unit) :
  is_int t = true -> (forall r, hoare (st c ls (t :: σ)) (k r) Q R) -> hoare (st c ls σ) (M_bind k (push_int_slot t)) Q R.
Proof. intros Ht Hk. eapply hoare_bind; [eapply hoare_weaken; [by apply st_push_int|done|done|done]|]. exact Hk. Qed.

Lemma lw_push_fp σ t (k : Vreg -> L unit) :
  is_int t = false -> (forall r, hoare (st c ls (t :: σ)) (k r) Q R) -> hoare (st c ls σ) (M_bind k (push_fp_slot t)) Q R.
Proof. intros Ht Hk. eapply hoare_bind; [eapply hoare_weaken; [by apply st_push_fp|done|done|done]|]. exact Hk. Qed.

(** Operations that leave the operand types alone. *)
Definition keeps {A} (m : L A) : Prop := forall ls σ, hoare (st c ls σ) m (fun _ => st c ls σ) untyped.

Lemma lw_keeps {A} σ (m : L A) (k : A -> L unit) :
  keeps m -> (forall a, hoare (st c ls σ) (k a) Q R) -> hoare (st c ls σ) (M_bind k m) Q R.
Proof. intros Hm Hk. eapply hoare_bind; [eapply hoare_weaken; [apply Hm|done|done|done]|]. exact Hk. Qed.

Lemma lw_last σ (m : L unit) : keeps m -> (forall s, st c ls σ s -> Q tt s) -> hoare (st c ls σ) m Q R.
Proof. intros Hm HQ. eapply hoare_weaken; [apply Hm|done| |done]. intros []. apply HQ. Qed.
End derived.

Lemma keeps_asm c m : emits m -> keeps c (asm m).
Proof. intros Hm ls σ. by apply st_asm. Qed.

Lemma keeps_op_gets {A} c (f : Lowerer -> A) : keeps c (gets f).
Proof. by intros ls σ s. Qed.

Lemma keeps_op_ret {A} c (a : A) : keeps c (M_ret a).
Proof. by intros ls σ s. Qed.

Lemma keeps_op_bind {A B} c (m : L A) (k : A -> L B) : keeps c m -> (forall a, keeps c (k a)) -> keeps c (M_bind k m).
Proof. intros Hm Hk ls σ. eapply hoare_bind; [apply Hm|]. intros a. apply Hk. Qed.

Lemma keeps_op_throw {A} c e : untyped e -> keeps c (throw e : L A).
Proof. by intros He ls σ s. Qed.

Lemma keeps_op_fail_if c (b : bool) e : untyped e -> keeps c (fail_if b e).
Proof. by intros He ls σ s; destruct b. Qed.

Lemma keeps_if {A} c (b : bool) (m m' : L A) : keeps c m -> keeps c m' -> keeps c (if b then m else m').
Proof. by destruct b. Qed.

(** A change of a field that [linv] does not mention. *)
Lemma keeps_op_modify c (f : Lowerer -> Lowerer) :
  (forall s, cfg (f s) = cfg s /\ label_stack (f s) = label_stack s /\ stack (f s) = stack s /\ (linv s -> linv (f s))) ->
  keeps c (modify f).
Proof.
  intros Hf ls σ s (Hc & Hl & Hs & Hi). destruct (Hf s) as (Ec & El & Es & Ei). cbn.
  unfold st. rewrite Ec, El, Es. auto.
Qed.

Lemma keeps_set_top_sym c sym : keeps c (set_top_sym sym).
Proof.
  apply keeps_op_modify. intros s. destruct (int_sym_stack s) as [|x l] eqn:Hsym; [done|].
  do 3 (split; [done|]). intros Hi. apply (linv_restack s _ Hi); try done; try apply Hi.
  pose proof (inv_sym _ Hi) as H. rewrite Hsym in H. exact H.
Qed.

#[global] Hint Resolve keeps_asm keeps_op_gets keeps_op_ret keeps_op_throw keeps_op_fail_if keeps_set_top_sym : kernel.
#[global] Hint Extern 1 (keeps _ (M_bind _ _)) => apply keeps_op_bind; [|intros] : kernel.
#[global] Hint Extern 1 (keeps _ (if _ then _ else _)) => apply keeps_if : kernel.
#[global] Hint Extern 0 (untyped _) => reflexivity : kernel.

Lemma keeps_movk_part c r h sh : keeps c (movk_part r h sh).
Proof. unfold movk_part. auto with kernel. Qed.
#[global] Hint Resolve keeps_movk_part : kernel.

Lemma keeps_load_u32 c r v : keeps c (load_u32_into_reg r v).
Proof. unfold load_u32_into_reg. auto with kernel. Qed.

Lemma keeps_load_u64 c r v : keeps c (load_u64_into_reg r v).
Proof. unfold load_u64_into_reg. auto 8 with kernel. Qed.
#[global] Hint Resolve keeps_load_u32 keeps_load_u64 : kernel.

Lemma keeps_restore c n : forall pair n_int, keeps c (restore_pairs n pair n_int).
Proof. induction n as [|n IH]; intros pair n_int; cbn [restore_pairs]; auto with kernel. Qed.
#[global] Hint Resolve keeps_restore : kernel.

Lemma keeps_epilogue c : keeps c emit_epilogue.
Proof. unfold emit_epilogue. auto 8 with kernel. Qed.
#[global] Hint Resolve keeps_epilogue : kernel.

Lemma keeps_trap c k : keeps c (emit_trap_kind k).
Proof. unfold emit_trap_kind. auto 8 with kernel. Qed.
#[global] Hint Resolve keeps_trap : kernel.

(** ** Patching *)

Lemma grows_splice e p w :
  0 <= p -> p + 4 <= pos e -> grows e (mkEncoder (splice (buf e) (Z.to_nat p) (le_bytes 4 w))).
Proof.
  intros Hp Hb. unfold pos in Hb. unfold grows, pos. cbn [buf].
  rewrite splice_length by (rewrite le_bytes_length; lia). split; [done|]. split; [done|].
  intros Hf. unfold splice. apply Forall_app; split; [by apply Forall_take|].
  apply Forall_app; split; [apply le_bytes_byte|by apply Forall_drop].
Qed.

Lemma st_patch_word c ls σ p w :
  0 <= p ->
  hoare (fun s => st c ls σ s /\ p + 4 <= pos (encoder s)) (on_encoder (patch_word p w))
    (fun _ s => st c ls σ s /\ p + 4 <= pos (encoder s)) untyped.
Proof.
  intros Hp s [(Hc & Hl & Hs & Hi) Hb]. unfold on_encoder, patch_word.
  destruct (Z.leb_spec 0 p), (Z.leb_spec (p + 4) (pos (encoder s))); try lia. cbn [andb].
  pose proof (grows_splice (encoder s) p w Hp Hb) as Hg. split; [|etransitivity; [exact Hb|apply Hg]].
  do 3 (split; [done|]). by apply linv_encoder.
Qed.

(** Operations that only append to the buffer. *)
Definition appends {A} (m : L A) : Prop :=
  forall s, match m s with (s', Ok _) => pos (encoder s) <= pos (encoder s') | _ => True end.

Lemma appends_bind {A B} (m : L A) (k : A -> L B) : appends m -> (forall a, appends (k a)) -> appends (M_bind k m).
Proof.
  intros Hm Hk s. unfold M_bind. specialize (Hm s). destruct (m s) as [s' [a|e|]]; [|done|done].
  specialize (Hk a s'). destruct (k a s') as [s'' [b|e|]]; [lia|done|done].
Qed.

Lemma appends_asm m : emits m -> appends (asm m).
Proof.
  intros Hm s. unfold asm, on_encoder, asm_on. destruct (Hm (encoder s)) as [[w ->]|[x ->]]; [|done].
  cbn -[pos le_bytes]. apply grows_emit.
Qed.

Lemma appends_same {A} (m : L A) : (forall s, encoder (m s).1 = encoder s) -> appends m.
Proof. intros H s. specialize (H s). destruct (m s) as [s' [a|e|]]; cbn in *; by rewrite ?H. Qed.

Lemma appends_gets {A} (f : Lowerer -> A) : appends (gets f).
Proof. by apply appends_same. Qed.
Lemma appends_ret {A} (a : A) : appends (M_ret a).
Proof. by apply appends_same. Qed.
Lemma appends_if {A} (b : bool) (m m' : L A) : appends m -> appends m' -> appends (if b then m else m').
Proof. by destruct b. Qed.

#[global] Hint Resolve appends_asm appends_gets appends_ret : kernel.
#[global] Hint Extern 1 (appends (M_bind _ _)) => apply appends_bind; [|intros] : kernel.
#[global] Hint Extern 1 (appends (if _ then _ else _)) => apply appends_if : kernel.

Lemma appends_restore n : forall pair n_int, appends (restore_pairs n pair n_int).
Proof. induction n as [|n IH]; intros pair n_int; cbn [restore_pairs]; auto with kernel. Qed.
#[global] Hint Resolve appends_restore : kernel.

Lemma appends_trap k : appends (emit_trap_kind k).
Proof. unfold emit_trap_kind, emit_epilogue. auto 12 with kernel. Qed.

(** A succeeding [asm] appends four bytes. *)
Lemma st_asm_pos c ls σ m p :
  emits m ->
  hoare (fun s => st c ls σ s /\ p <= pos (encoder s)) (asm m) (fun _ s => st c ls σ s /\ p + 4 <= pos (encoder s)) untyped.
Proof.
  intros Hm s [Hst Hp]. pose proof (st_asm c ls σ m Hm s Hst) as H. unfold asm, on_encoder, asm_on in *.
  destruct (Hm (encoder s)) as [[w E]|[x E]]; rewrite E in H |- *; [|done]. split; [exact H|].
  cbn -[pos le_bytes]. unfold pos in *. cbn [buf]. rewrite length_app, le_bytes_length. lia.
Qed.

Lemma st_keeps_pos {A} c ls σ (m : L A) p :
  keeps c m -> appends m ->
  hoare (fun s => st c ls σ s /\ p <= pos (encoder s)) m (fun _ s => st c ls σ s /\ p <= pos (encoder s)) untyped.
Proof.
  intros Hk Ha s [Hst Hp]. specialize (Hk ls σ s Hst). specialize (Ha s). destruct (m s) as [s' [a|e|]]; [|done|done].
  split; [done|lia].
Qed.

Lemma enc_pos_intro {B} c ls σ (k : Z -> L B) Q R :
  (forall p, 0 <= p -> p mod 4 = 0 -> hoare (fun s => st c ls σ s /\ p <= pos (encoder s)) (k p) Q R) ->
  hoare (st c ls σ) (M_bind k enc_pos) Q R.
Proof.
  intros Hk s Hst. unfold M_bind, enc_pos, gets. apply Hk; [unfold pos; lia|apply Hst|]. split; [done|lia].
Qed.

Lemma keeps_bounds_check c r size off b : keeps c (emit_bounds_check r size off b).
Proof.
  unfold emit_bounds_check. apply keeps_op_bind; [auto with kernel|intros s0].
  destruct (checked_add 32 off size) as [access_end|]; [|auto with kernel]. apply keeps_if; [auto with kernel|].
  apply keeps_op_bind; [auto with kernel|intros _]. apply keeps_op_bind; [auto with kernel|intros _].
  intros ls σ. apply enc_pos_intro. intros p Hp Ha.
  eapply hoare_seq; [apply st_asm_pos; auto with kernel|].
  eapply hoare_seq; [apply st_keeps_pos; [auto with kernel|apply appends_trap]|].
  apply hoare_gets. intros s1 Hs1. destruct (encode_b_cond _ _) as [w|x].
  - eapply hoare_weaken; [apply (st_patch_word c ls σ p w Hp)| | |done]; [by intros s [_ H]|by intros _ s [H _]].
  - by apply hoare_throw.
Qed.
#[global] Hint Resolve keeps_bounds_check : kernel.

Lemma keeps_maybe_bounds_check c r size off b sym : keeps c (maybe_bounds_check r size off b sym).
Proof.
  unfold maybe_bounds_check. apply keeps_op_bind; [auto with kernel|intros s0]. apply keeps_if; [|auto with kernel].
  apply keeps_op_modify. intros s. do 3 (split; [done|]). intros Hi. apply (linv_restack s _ Hi); try done; apply Hi.
Qed.

Lemma keeps_full_addr c r off : keeps c (full_addr_in_x16 r off).
Proof. unfold full_addr_in_x16. auto 8 with kernel. Qed.

Lemma keeps_need_memory c : keeps c need_memory.
Proof. unfold need_memory. auto 8 with kernel. Qed.

Lemma keeps_materialize c off : keeps c (materialize_global_addr off).
Proof. unfold materialize_global_addr. auto 8 with kernel. Qed.

Lemma keeps_nops c n : keeps c (nops n).
Proof. induction n as [|n IH]; cbn [nops]; auto with kernel. Qed.

Lemma keeps_raw c n : forall bits, keeps c (raw_words n bits).
Proof. induction n as [|n IH]; intros bits; cbn [raw_words]; auto with kernel. Qed.

Lemma keeps_taint c i : keeps c (taint_local i).
Proof. apply keeps_op_modify. intros s. do 3 (split; [done|]). intros Hi. apply (linv_restack s _ Hi); try done; apply Hi. Qed.

Lemma keeps_regions c x : keeps c (modify (fun s => s <| data_regions := data_regions s ++ [x] |>)).
Proof. apply keeps_op_modify. intros s. do 3 (split; [done|]). intros Hi. apply (linv_restack s _ Hi); try done; apply Hi. Qed.

Lemma keeps_to_scratch c srcs : forall i, keeps c (move_to_scratch i srcs).
Proof. induction srcs as [|src srcs IH]; intros i; cbn [move_to_scratch]; auto with kernel. Qed.

Lemma keeps_to_args c n : forall i, keeps c (move_to_args i n).
Proof. induction n as [|n IH]; intros i; cbn [move_to_args]; auto with kernel. Qed.

Lemma keeps_marshal c srcs : keeps c (marshal_args srcs).
Proof. unfold marshal_args. apply keeps_op_bind; [apply keeps_to_scratch|intros; apply keeps_to_args]. Qed.

Lemma keeps_reloc c x : keeps c (modify (fun s => s <| pending_relocations := pending_relocations s ++ [x] |>)).
Proof. apply keeps_op_modify. intros s. do 3 (split; [done|]). intros Hi. apply (linv_restack s _ Hi); try done; apply Hi. Qed.

#[global] Hint Resolve keeps_maybe_bounds_check keeps_full_addr keeps_need_memory keeps_materialize keeps_nops keeps_raw
  keeps_taint keeps_regions keeps_marshal keeps_reloc : kernel.
