(* ===== verification/LowerTyped.v ===== *)
(** Every straight-line lowering, against the typing rules: on success the
    operand stack changes as the operation's type says, and a stack on which
    the operation has a type is never refused for its types.  With the
    validator's theorems this composes to whole bodies. *)

From S2P Require Import Prelude Bytes A64 WasmTypes WasmValidate WasmValidateThm Peephole Lower LowerOps LowerInv.

Open Scope kernel_scope.

(** ** One operation *)

Definition accepts (c : Lowerer) (op : WasmOp) (σ : list ValType) : Prop :=
  exists ins outs rest, typing c op ins outs /\ σ = ins ++ rest.

Definition lowers (c : Lowerer) (op : WasmOp) (m : L unit) : Prop :=
  forall ls σ, hoare (st c ls σ) m
    (fun _ s => exists ins outs rest, typing c op ins outs /\ σ = ins ++ rest /\ st c ls (outs ++ rest) s)
    (fun e => type_error e = true -> ~ accepts c op σ).

(** An operation whose operands and results are fixed. *)
Definition fixed (c : Lowerer) (op : WasmOp) (ins outs : list ValType) : Prop :=
  typing c op ins outs /\ forall ins' outs', typing c op ins' outs' -> ins' = ins.

Lemma fixed_numeric c op ins t : numeric_type op = Some (ins, t) -> fixed c op ins [t].
Proof.
  intros H. split; [by apply ty_numeric|]. intros ins' outs' Ht.
  destruct Ht as [op ins' t' H'|op t' H'| | | | | | | | | ]; try discriminate H; [by rewrite H in H'; injection H' as <- <-|].
  by destruct op.
Qed.

Lemma fixed_store c op t : store_type op = Some t -> fixed c op [t; I32] [].
Proof.
  intros H. split; [by apply ty_store|]. intros ins' outs' Ht.
  destruct Ht as [op ins' t' H'|op t' H'| | | | | | | | | ]; try discriminate H; [by destruct op|].
  by rewrite H in H'; injection H' as <-.
Qed.

Lemma fixed_local_get c i t : (loc_type <$> locals c) !! Z.to_nat i = Some t -> fixed c (LocalGet i) [] [t].
Proof. intros H. split; [by constructor|]. intros ins outs Ht. inversion Ht; subst; [done..|]. done. Qed.

Ltac no_type Hfix :=
  intros ? Hpop Herr (? & ? & ? & Ht & Hσ); apply Hfix in Ht; rewrite Ht in Hσ; cbn in Hσ; simplify_eq; by eapply (Hpop Herr).

Ltac no_type_error := intros ? He Herr; unfold untyped in He; congruence.

Ltac lower_prepare :=
  intros ls σ;
  unfold push_i32_slot, pop_i32_slot, push_i64_slot, pop_i64_slot, push_f32_slot, pop_f32_slot,
    push_f64_slot, pop_f64_slot, push_v128_slot, pop_v128_slot.

(** One step of a lowering; the stack is split as the pops reveal it. *)
Ltac lower_step Hfix :=
  lazymatch goal with
  | |- hoare _ (M_bind _ (pop_int_slot _)) _ _ =>
      apply lw_pop_int; [solve [reflexivity | assumption]|no_type Hfix|intros ? ? ->]
  | |- hoare _ (M_bind _ (pop_fp_slot _)) _ _ =>
      apply lw_pop_fp; [solve [reflexivity | assumption]|no_type Hfix|intros ? ? ->]
  | |- hoare _ (M_bind _ (push_int_slot _)) _ _ =>
      apply lw_push_int; [no_type_error|solve [reflexivity | assumption]|intros ?]
  | |- hoare _ (M_bind _ (push_fp_slot _)) _ _ =>
      apply lw_push_fp; [no_type_error|solve [reflexivity | assumption]|intros ?]
  | |- hoare _ (M_bind _ _) _ _ =>
      apply lw_keeps; [no_type_error|solve [auto 10 with kernel]|intros ?]
  | |- hoare _ _ _ _ =>
      apply lw_last; [no_type_error|solve [auto 10 with kernel]|
        intros ? ?; do 3 eexists; split; [eassumption|split; [reflexivity|eassumption]]]
  end.

Section shapes.
Context (c : Lowerer).

Lemma keeps_emit_binop b d l r : keeps c (emit_binop b d l r).
Proof. destruct b; cbn [emit_binop]; auto with kernel. Qed.

Lemma keeps_emit_i64_binop b d l r : keeps c (emit_i64_binop b d l r).
Proof. destruct b; cbn [emit_i64_binop]; auto with kernel. Qed.

Lemma keeps_peek n : keeps c (peek_sym_at n).
Proof. apply keeps_op_gets. Qed.

Lemma keeps_peek_top : keeps c peek_top_sym.
Proof. apply keeps_op_gets. Qed.
Hint Resolve keeps_emit_binop keeps_emit_i64_binop keeps_peek keeps_peek_top : kernel.

Lemma lowers_const n : lowers c (I32Const n) (lower_const n).
Proof.
  pose proof (fixed_numeric c (I32Const n) _ _ eq_refl) as [Hop Hfix]. unfold lower_const. lower_prepare.
  do 2 lower_step Hfix. apply lw_last; [no_type_error|destruct (0 <=? n); auto with kernel|].
  intros s Hs. exists [], [I32], σ. auto.
Qed.

Lemma lowers_binop op b : fixed c op [I32; I32] [I32] -> lowers c op (lower_binop b).
Proof. intros [Hop Hfix]. unfold lower_binop. lower_prepare. repeat lower_step Hfix. Qed.

Lemma lowers_i64_binop op b : fixed c op [I64; I64] [I64] -> lowers c op (lower_i64_binop b).
Proof. intros [Hop Hfix]. unfold lower_i64_binop. lower_prepare. repeat lower_step Hfix. Qed.

Lemma lowers_i64_cmp op cc : fixed c op [I64; I64] [I32] -> lowers c op (lower_i64_cmp cc).
Proof. intros [Hop Hfix]. unfold lower_i64_cmp. lower_prepare. repeat lower_step Hfix. Qed.

Lemma keeps_asm_fbin (op : FBinOp) (f g h k : EncM unit) :
  emits f -> emits g -> emits h -> emits k -> keeps c (asm (match op with FAdd => f | FSub => g | FMul => h | FDiv => k end)).
Proof. intros. apply keeps_asm. by destruct op. Qed.
Hint Resolve keeps_asm_fbin : kernel.

Lemma lowers_f32_binop op b : fixed c op [F32; F32] [F32] -> lowers c op (lower_f32_binop b).
Proof. intros [Hop Hfix]. unfold lower_f32_binop. lower_prepare. repeat lower_step Hfix. Qed.

Lemma lowers_f64_binop op b : fixed c op [F64; F64] [F64] -> lowers c op (lower_f64_binop b).
Proof. intros [Hop Hfix]. unfold lower_f64_binop. lower_prepare. repeat lower_step Hfix. Qed.

Lemma lowers_f32_cmp op cc : fixed c op [F32; F32] [I32] -> lowers c op (lower_f32_cmp cc).
Proof. intros [Hop Hfix]. unfold lower_f32_cmp. lower_prepare. repeat lower_step Hfix. Qed.

Lemma lowers_f64_cmp op cc : fixed c op [F64; F64] [I32] -> lowers c op (lower_f64_cmp cc).
Proof. intros [Hop Hfix]. unfold lower_f64_cmp. lower_prepare. repeat lower_step Hfix. Qed.

Lemma lowers_int_to_int op a b f :
  fixed c op [a] [b] -> is_int a = true -> is_int b = true -> (forall d s, emits (f d s)) -> lowers c op (int_to_int a b f).
Proof. intros [Hop Hfix] Ha Hb Hf. unfold int_to_int. lower_prepare. repeat lower_step Hfix. Qed.

Lemma lowers_int_to_fp op a b f :
  fixed c op [a] [b] -> is_int a = true -> is_int b = false -> (forall d s, emits (f d s)) -> lowers c op (int_to_fp a b f).
Proof. intros [Hop Hfix] Ha Hb Hf. unfold int_to_fp. lower_prepare. repeat lower_step Hfix. Qed.

Lemma lowers_fp_to_int op a b f :
  fixed c op [a] [b] -> is_int a = false -> is_int b = true -> (forall d s, emits (f d s)) -> lowers c op (fp_to_int a b f).
Proof. intros [Hop Hfix] Ha Hb Hf. unfold fp_to_int. lower_prepare. repeat lower_step Hfix. Qed.

Lemma lowers_fp_to_fp op a b f :
  fixed c op [a] [b] -> is_int a = false -> is_int b = false -> (forall d s, emits (f d s)) -> lowers c op (fp_to_fp a b f).
Proof. intros [Hop Hfix] Ha Hb Hf. unfold fp_to_fp. lower_prepare. repeat lower_step Hfix. Qed.

Lemma lowers_v128_binop op f :
  fixed c op [V128; V128] [V128] -> (forall d l r, emits (f d l r)) -> lowers c op (lower_v128_binop f).
Proof. intros [Hop Hfix] Hf. unfold lower_v128_binop. lower_prepare. repeat lower_step Hfix. Qed.

(** ** The remaining lowerings with a fixed type *)

Ltac fixed_op := first [exact (fixed_numeric _ _ _ _ eq_refl) | exact (fixed_store _ _ _ eq_refl)].

Ltac lower_fixed op :=
  let H := fresh in
  first [pose proof (fixed_numeric c op _ _ eq_refl) as H | pose proof (fixed_store c op _ eq_refl) as H];
  destruct H as [Hop Hfix]; lower_prepare; repeat lower_step Hfix.

Lemma lowers_eqz : lowers c I32Eqz lower_eqz.
Proof. unfold lower_eqz. lower_fixed I32Eqz. Qed.
Lemma lowers_i64_eqz : lowers c I64Eqz lower_i64_eqz.
Proof. unfold lower_i64_eqz. lower_fixed I64Eqz. Qed.
Lemma lowers_i64_const n : lowers c (I64Const n) (lower_i64_const n).
Proof. unfold lower_i64_const. lower_fixed (I64Const n). Qed.
Lemma lowers_f32_const n : lowers c (F32Const n) (lower_f32_const n).
Proof. unfold lower_f32_const. lower_fixed (F32Const n). Qed.
Lemma lowers_f64_const n : lowers c (F64Const n) (lower_f64_const n).
Proof. unfold lower_f64_const. lower_fixed (F64Const n). Qed.
Lemma lowers_load n : lowers c (I32Load n) (lower_load n).
Proof. unfold lower_load. lower_fixed (I32Load n). Qed.
Lemma lowers_store n : lowers c (I32Store n) (lower_store n).
Proof. unfold lower_store. lower_fixed (I32Store n). Qed.
Lemma lowers_f32_load n : lowers c (F32Load n) (lower_f32_load n).
Proof. unfold lower_f32_load. lower_fixed (F32Load n). Qed.
Lemma lowers_f32_store n : lowers c (F32Store n) (lower_f32_store n).
Proof. unfold lower_f32_store. lower_fixed (F32Store n). Qed.
Lemma lowers_f64_load n : lowers c (F64Load n) (lower_f64_load n).
Proof. unfold lower_f64_load. lower_fixed (F64Load n). Qed.
Lemma lowers_f64_store n : lowers c (F64Store n) (lower_f64_store n).
Proof. unfold lower_f64_store. lower_fixed (F64Store n). Qed.
Lemma lowers_i64_load n : lowers c (I64Load n) (lower_i64_load n).
Proof. unfold lower_i64_load. lower_fixed (I64Load n). Qed.
Lemma lowers_i64_store n : lowers c (I64Store n) (lower_i64_store n).
Proof. unfold lower_i64_store. lower_fixed (I64Store n). Qed.
Lemma lowers_wrap : lowers c I32WrapI64 lower_wrap_i64.
Proof. unfold lower_wrap_i64. lower_fixed I32WrapI64. Qed.
Lemma lowers_extend_s : lowers c I64ExtendI32S (lower_extend_i32 true).
Proof. unfold lower_extend_i32. lower_fixed I64ExtendI32S. Qed.
Lemma lowers_extend_u : lowers c I64ExtendI32U (lower_extend_i32 false).
Proof. unfold lower_extend_i32. lower_fixed I64ExtendI32U. Qed.
Lemma keeps_enc_pos : keeps c enc_pos.
Proof. apply keeps_op_gets. Qed.
Hint Resolve keeps_enc_pos : kernel.
Lemma lowers_v128_const n : lowers c (V128Const n) (lower_v128_const n).
Proof. unfold lower_v128_const. lower_fixed (V128Const n). Qed.
Lemma lowers_v128_load n : lowers c (V128Load n) (lower_v128_load n).
Proof. unfold lower_v128_load. lower_fixed (V128Load n). Qed.
Lemma lowers_v128_store n : lowers c (V128Store n) (lower_v128_store n).
Proof. unfold lower_v128_store. lower_fixed (V128Store n). Qed.
Lemma lowers_dot op f :
  fixed c op [V128; V128; V128] [V128] -> (forall d a b, emits (f d a b)) -> lowers c op (lower_dot f).
Proof. intros [Hop Hfix] Hf. unfold lower_dot. lower_prepare. repeat lower_step Hfix. Qed.
Lemma lowers_fma : lowers c F32x4Fma lower_f32x4_fma.
Proof. unfold lower_f32x4_fma. lower_fixed F32x4Fma. Qed.
Lemma lowers_f64x2_splat : lowers c F64x2Splat lower_f64x2_splat.
Proof. unfold lower_f64x2_splat. lower_fixed F64x2Splat. Qed.
Lemma lowers_bitselect : lowers c V128Bitselect lower_v128_bitselect.
Proof. unfold lower_v128_bitselect. lower_fixed V128Bitselect. Qed.
Lemma lowers_hsum : lowers c F32x4HorizontalSum lower_f32x4_horizontal_sum.
Proof. unfold lower_f32x4_horizontal_sum. lower_fixed F32x4HorizontalSum. Qed.
End shapes.

(** ** Locals, globals, calls and the polymorphic operations *)

Section context.
Context (c : Lowerer).

Lemma lw_gets {A} ls σ (f : Lowerer -> A) (k : A -> L unit) Q R :
  (forall s, f s = f (cfg s)) -> hoare (st c ls σ) (k (f c)) Q R -> hoare (st c ls σ) (M_bind k (gets f)) Q R.
Proof.
  intros Hf Hk s Hst. unfold M_bind, gets. rewrite Hf. destruct Hst as (<- & ? & ? & ?). by apply Hk.
Qed.

Lemma lw_ok_or {A} ls σ (o : option A) e (k : A -> L unit) Q (R : LowerError -> Prop) :
  (o = None -> R e) -> (forall a, o = Some a -> hoare (st c ls σ) (k a) Q R) -> hoare (st c ls σ) (M_bind k (ok_or o e)) Q R.
Proof. intros HR Hk. destruct o as [a|]; [by apply Hk|]. intros s _. cbn. by apply HR. Qed.

Lemma local_type_at i : (loc_type <$> locals c) !! Z.to_nat i = loc_type <$> locals c !! Z.to_nat i.
Proof. apply list_lookup_fmap. Qed.

Lemma lw_local i ls σ (k : LocalLoc -> L unit) Q (R : LowerError -> Prop) :
  (locals c !! Z.to_nat i = None -> R LocalOutOfRange) ->
  (forall l, locals c !! Z.to_nat i = Some l -> hoare (st c ls σ) (k l) Q R) ->
  hoare (st c ls σ) (M_bind k (local_loc i)) Q R.
Proof.
  intros HR Hk s Hst. unfold local_loc.
  pose proof (lw_gets ls σ locals (fun l => M_bind k (ok_or (l !! Z.to_nat i) LocalOutOfRange)) Q R (fun _ => eq_refl)) as H.
  specialize (H (lw_ok_or ls σ _ _ k Q R HR Hk) s Hst). revert H. unfold M_bind, gets.
  by destruct (ok_or _ _ s) as [s' [l|e|]].
Qed.

Ltac no_local Hl := intros _ (ins & outs & rest & Ht & Hσ); inversion Ht; subst; try discriminate;
  match goal with H : (loc_type <$> _) !! _ = Some _ |- _ => rewrite local_type_at, Hl in H; discriminate H end.

Ltac local_fixed Hl Hop Hfix op :=
  match type of Hl with locals c !! _ = Some ?l =>
    assert (typing c op (match op with LocalGet _ => [] | _ => [loc_type l] end)
                        (match op with LocalSet _ => [] | _ => [loc_type l] end)) as Hop
      by (constructor; by rewrite local_type_at, Hl);
    assert (forall ins' outs', typing c op ins' outs' -> ins' = match op with LocalGet _ => [] | _ => [loc_type l] end) as Hfix
      by (intros ins' outs' Ht; inversion Ht; subst; try discriminate; try done;
          match goal with H : (loc_type <$> _) !! _ = Some _ |- _ => rewrite local_type_at, Hl in H; by injection H as <- end);
    cbn iota in Hop, Hfix
  end.

Lemma keeps_local_bound i : keeps c (local_bound i).
Proof. apply keeps_op_gets. Qed.
Hint Resolve keeps_local_bound : kernel.

Lemma lowers_local_get i : lowers c (LocalGet i) (lower_local_get i).
Proof.
  unfold lower_local_get. lower_prepare. apply lw_keeps; [no_type_error|auto with kernel|intros b].
  apply lw_local; [intros Hl; no_local Hl|intros l Hl]. local_fixed Hl Hop Hfix (LocalGet i).
  destruct l; cbn [loc_type] in Hop, Hfix; repeat lower_step Hfix.
Qed.

Lemma lowers_local_set i : lowers c (LocalSet i) (lower_local_set i).
Proof.
  unfold lower_local_set. lower_prepare. apply lw_keeps; [no_type_error|auto with kernel|intros b].
  apply lw_local; [intros Hl; no_local Hl|intros l Hl]. local_fixed Hl Hop Hfix (LocalSet i).
  destruct l; cbn [loc_type] in Hop, Hfix; repeat lower_step Hfix.
Qed.

Lemma lw_expect ls σ t (k : L unit) Q (R : LowerError -> Prop) :
  (forall e, pops σ t e -> R e) -> (forall σ', σ = t :: σ' -> hoare (st c ls σ) k Q R) ->
  hoare (st c ls σ) (expect_top t ;;; k) Q R.
Proof.
  intros HR Hk. eapply hoare_seq; [eapply hoare_weaken; [apply st_expect_top|done|done|done]|].
  intros s (σ' & Hσ & Hs). by apply (Hk σ' Hσ s).
Qed.

Lemma keeps_top_int : keeps c top_int.
Proof. apply keeps_op_gets. Qed.
Lemma keeps_top_fp : keeps c top_fp.
Proof. apply keeps_op_gets. Qed.
Hint Resolve keeps_top_int keeps_top_fp : kernel.

Lemma lowers_local_tee i : lowers c (LocalTee i) (lower_local_tee i).
Proof.
  unfold lower_local_tee. lower_prepare. apply lw_keeps; [no_type_error|auto with kernel|intros b].
  apply lw_local; [intros Hl; no_local Hl|intros l Hl]. local_fixed Hl Hop Hfix (LocalTee i).
  destruct l; cbn [loc_type] in Hop, Hfix; (apply lw_expect; [no_type Hfix|intros σ' ->]); repeat lower_step Hfix.
Qed.

(** The entry of a global: its type is the declared one. *)
Lemma lw_global i ls σ (k : ValType * bool * Z -> L unit) Q (R : LowerError -> Prop) :
  wf_cfg c -> (global_types c !! Z.to_nat i = None -> R GlobalOutOfRange) ->
  (forall t mu off, global_types c !! Z.to_nat i = Some t -> hoare (st c ls σ) (k (t, mu, off)) Q R) ->
  hoare (st c ls σ) (M_bind k (global_entry i)) Q R.
Proof.
  intros Hwf HR Hk s Hst. pose proof Hst as (Hc & _). unfold global_entry, M_bind, gets. cbn [id].
  assert (global_types s = global_types c) as -> by (by rewrite <- Hc).
  assert (global_mutable s = global_mutable c) as -> by (by rewrite <- Hc).
  destruct (global_types c !! Z.to_nat i) as [t|] eqn:Ht; [|by apply HR].
  destruct (global_mutable c !! Z.to_nat i) as [mu|] eqn:Hm; [by apply (Hk t)|].
  apply lookup_lt_Some in Ht. apply lookup_ge_None in Hm. pose proof (wf_globals _ Hwf). lia.
Qed.

Ltac no_global Hl := intros _ (ins & outs & rest & Ht & Hσ); inversion Ht; subst; try discriminate;
  match goal with H : global_types c !! _ = Some _ |- _ => rewrite Hl in H; discriminate H end.

Lemma lowers_global_get i : wf_cfg c -> lowers c (GlobalGet i) (lower_global_get i).
Proof.
  intros Hwf. unfold lower_global_get. lower_prepare. apply lw_keeps; [no_type_error|auto with kernel|intros _].
  apply lw_global; [done|intros Hl; no_global Hl|intros t mu off Hl]. cbv beta iota.
  apply lw_keeps; [no_type_error|auto with kernel|intros _].
  assert (fixed c (GlobalGet i) [] [t]) as [Hop Hfix]
    by (split; [by constructor|]; intros ins' outs' Ht; by inversion Ht; subst).
  destruct t; try (repeat lower_step Hfix). by apply hoare_throw.
Qed.

Lemma lowers_global_set i : wf_cfg c -> lowers c (GlobalSet i) (lower_global_set i).
Proof.
  intros Hwf. unfold lower_global_set. lower_prepare. apply lw_keeps; [no_type_error|auto with kernel|intros _].
  apply lw_global; [done|intros Hl; no_global Hl|intros t mu off Hl]. cbv beta iota.
  apply lw_keeps; [no_type_error|auto with kernel|intros _].
  assert (fixed c (GlobalSet i) [t] []) as [Hop Hfix]
    by (split; [by constructor|]; intros ins' outs' Ht; inversion Ht; subst; try discriminate; congruence).
  destruct t; try (repeat lower_step Hfix). by apply hoare_throw.
Qed.

Lemma lw_last_type ls σ (k : ValType -> L unit) Q (R : LowerError -> Prop) :
  (σ = [] -> R StackUnderflow) -> (forall t σ', σ = t :: σ' -> hoare (st c ls σ) (k t) Q R) ->
  hoare (st c ls σ) (M_bind k stack_last) Q R.
Proof.
  intros HR Hk s Hst. pose proof Hst as (_ & _ & Hs & _). unfold stack_last, M_bind, gets. rewrite Hs.
  destruct σ as [|t σ']; cbn; [by apply HR|]. by apply (Hk t σ').
Qed.

Lemma lowers_drop : lowers c Drop lower_drop.
Proof.
  unfold lower_drop. lower_prepare. apply lw_last_type.
  { intros -> _ (ins & outs & rest & Ht & Hσ). inversion Ht; subst; discriminate. }
  intros t σ' ->.
  assert (typing c Drop [t] []) as Hop by constructor.
  assert (forall e, pops (t :: σ') t e -> type_error e = true -> ~ accepts c Drop (t :: σ')) as Hno
    by (intros e Hpop Herr; by destruct (Hpop Herr σ')).
  destruct t; cbn [pop_any];
    unfold pop_i32_slot, pop_i64_slot, pop_f32_slot, pop_f64_slot, pop_v128_slot;
    (apply lw_pop_int || apply lw_pop_fp); try done; intros r σ'' [= <-];
    (apply lw_last; [no_type_error|auto with kernel|intros s Hs; do 3 eexists; split; [exact Hop|]; by split]).
Qed.

Ltac no_select :=
  intros ? Hpop Herr (ins & outs & rest & Ht & Hσ); inversion Ht; subst; try discriminate; try (cbn in Hσ; simplify_eq); by eapply (Hpop Herr).

Ltac select_done t :=
  intros s Hs; match type of Hs with st _ _ (_ :: ?x) _ => exists [I32; t; t], [t], x end; split; [apply ty_select|by split].

Lemma lowers_select : lowers c Select lower_select.
Proof.
  unfold lower_select. lower_prepare. apply lw_pop_int; [done|no_select|intros r σ1 ->].
  apply lw_keeps; [no_type_error|auto with kernel|intros _]. apply lw_last_type.
  { intros -> _ (ins & outs & rest & Ht & Hσ). inversion Ht; subst; discriminate. }
  intros t σ' ->. destruct t; cbn iota; [| | | |by apply hoare_throw];
    repeat first
      [ apply lw_pop_int; [reflexivity|no_select|intros ? ? [=]; subst]
      | apply lw_pop_fp; [reflexivity|no_select|intros ? ? [=]; subst]
      | apply lw_push_int; [no_type_error|reflexivity|intros ?]
      | apply lw_push_fp; [no_type_error|reflexivity|intros ?]
      | apply lw_keeps; [no_type_error|solve [auto using keeps_peek_top with kernel]|intros ?]
      | apply lw_last; [no_type_error|solve [auto with kernel]|]];
    [select_done I32|select_done I64|select_done F32|select_done F64].
Qed.

(** Arguments are popped from the last to the first. *)
Lemma st_pop_args ts : forall acc ls σ,
  Forall (fun t => is_int t = true) ts ->
  hoare (st c ls σ) (pop_args ts acc) (fun _ s => exists σ', σ = ts ++ σ' /\ st c ls σ' s)
    (fun e => type_error e = true -> forall σ', σ <> ts ++ σ').
Proof.
  induction ts as [|t ts IH]; intros acc ls σ Hts; cbn [pop_args].
  { apply hoare_ret. intros s Hs. by exists σ. }
  inversion Hts as [|? ? Ht Hts']; subst.
  assert (match t with I32 => pop_i32_slot | I64 => pop_i64_slot | _ => panic end = pop_int_slot t) as -> by (by destruct t).
  intros s Hs. unfold M_bind at 1. pose proof (st_pop_int c ls σ t Ht s Hs) as H.
  destruct (pop_int_slot t s) as [s' [r|e|]]; [| |done].
  - destruct H as (σ' & -> & Hs'). specialize (IH (r :: acc) ls σ' Hts' s' Hs').
    destruct (pop_args ts (r :: acc) s') as [s'' [a|e|]]; [| |done].
    + destruct IH as (σ'' & -> & ?). by exists σ''.
    + intros He σ'' [= ->]. by eapply IH.
  - intros He σ' ->. by eapply (H He).
Qed.

Lemma lw_pop_args ts acc ls σ (k : list Reg -> L unit) Q (R : LowerError -> Prop) :
  Forall (fun t => is_int t = true) ts ->
  (forall e, (type_error e = true -> forall σ', σ <> ts ++ σ') -> R e) ->
  (forall a σ', σ = ts ++ σ' -> hoare (st c ls σ') (k a) Q R) -> hoare (st c ls σ) (M_bind k (pop_args ts acc)) Q R.
Proof.
  intros Hts HR Hk. eapply hoare_bind; [eapply hoare_weaken; [by apply st_pop_args|done|done|done]|].
  intros a s (σ' & Hσ & Hs). by apply (Hk a σ' Hσ s).
Qed.

Lemma lw_check_params ts e ls σ (k : L unit) Q (R : LowerError -> Prop) :
  R e -> (Forall (fun t => is_int t = true) ts -> hoare (st c ls σ) k Q R) ->
  hoare (st c ls σ) (check_int_params ts e ;;; k) Q R.
Proof.
  intros HR Hk. unfold check_int_params. destruct (forallb is_int ts) eqn:H; [|by intros s _].
  apply Hk. apply List.Forall_forall. by apply forallb_forall.
Qed.

Lemma lw_call_result o e ls σ Q (R : LowerError -> Prop) :
  (forall e, untyped e -> R e) -> untyped e -> (forall s, st c ls (option_list o ++ σ) s -> Q tt s) ->
  hoare (st c ls σ) (push_call_result o e) Q R.
Proof.
  intros HR He HQ. destruct o as [[]|]; cbn [push_call_result]; unfold push_i32_slot, push_i64_slot;
    try (intros s _; by apply HR);
    try (apply lw_push_int; [exact HR|done|intros r]; apply lw_last; [exact HR|auto with kernel|exact HQ]).
  apply hoare_ret. exact HQ.
Qed.

Ltac no_call := intros ? Hpop Herr (ins & outs & rest & Ht & Hσ); inversion Ht; subst; try discriminate; simplify_eq;
  by eapply (Hpop Herr).

Lemma lowers_call i : wf_cfg c -> call_targets c = [] -> 0 <= i -> lowers c (Call i) (lower_call i).
Proof.
  intros Hwf Hnone Hi. unfold lower_call. lower_prepare. apply hoare_gets. intros s0 (Hc & _). cbn [id].
  assert (module_fn_count s0 = Z.of_nat (length (module_fn_sigs c))) as -> by (rewrite <- (wf_sigs _ Hwf); by rewrite <- Hc).
  assert (call_targets s0 = []) as -> by (rewrite <- Hnone; by rewrite <- Hc).
  apply (hoare_imp _ (st c ls σ)); [by intros s [_ H]|].
  destruct (Z.ltb_spec i (Z.of_nat (length (module_fn_sigs c)))) as [Hlt|Hge].
  - unfold lower_call_internal. apply lw_gets; [done|].
    destruct (module_fn_sigs c !! Z.to_nat i) as [sig|] eqn:Hsig; [|apply lookup_ge_None in Hsig; lia].
    apply lw_check_params; [done|intros Hint]. apply lw_keeps; [no_type_error|auto with kernel|intros _].
    assert (forall ins outs, typing c (Call i) ins outs -> ins = rev (params sig) /\ outs = option_list (result sig)) as Hinv
      by (intros ins outs Ht; inversion Ht; subst; try discriminate; simplify_eq; done).
    apply lw_pop_args; [by apply Forall_rev| |].
    { intros e Hpop Herr (ins & outs & rest & Ht & Hσ). apply Hinv in Ht as [-> ->]. by eapply (Hpop Herr). }
    intros a σ' ->. do 2 (apply lw_keeps; [no_type_error|auto using keeps_enc_pos with kernel|intros ?]).
    do 2 (apply lw_keeps; [no_type_error|auto with kernel|intros ?]).
    apply lw_call_result; [no_type_error|done|]. intros s Hs. do 3 eexists. split; [by apply ty_call|by split].
  - rewrite lookup_nil. apply lw_ok_or; [|done]. intros _ _ (ins & outs & rest & Ht & Hσ).
    inversion Ht as [| | | | | | | | |? sig Hsig|]; subst; try discriminate. apply lookup_lt_Some in Hsig. lia.
Qed.

Lemma lowers_call_indirect i : lowers c (CallIndirect i) (lower_call_indirect i).
Proof.
  unfold lower_call_indirect. lower_prepare. apply hoare_gets. intros s0 (Hc & _). cbn [id].
  assert (indirect_sigs s0 = indirect_sigs c) as -> by (by rewrite <- Hc).
  apply (hoare_imp _ (st c ls σ)); [by intros s [_ H]|].
  apply lw_ok_or; [done|intros table _].
  apply lw_ok_or.
  { intros Hn _ (ins & outs & rest & Ht & Hσ). inversion Ht; subst; try discriminate. congruence. }
  intros sig Hsig. apply lw_check_params; [done|intros Hint]. apply lw_keeps; [no_type_error|auto with kernel|intros _].
  assert (forall ins outs, typing c (CallIndirect i) ins outs -> ins = I32 :: rev (params sig) /\ outs = option_list (result sig)) as Hinv
    by (intros ins outs Ht; inversion Ht; subst; try discriminate; simplify_eq; done).
  apply lw_pop_int; [done| |intros r σ' ->].
  { intros e Hpop Herr (ins & outs & rest & Ht & Hσ). apply Hinv in Ht as [-> ->]. by eapply (Hpop Herr). }
  do 3 (apply lw_keeps; [no_type_error|auto with kernel|intros ?]).
  apply lw_pop_args; [by apply Forall_rev| |].
  { intros e Hpop Herr (ins & outs & rest & Ht & Hσ). apply Hinv in Ht as [-> ->]. cbn in Hσ. simplify_eq. by eapply (Hpop Herr). }
  intros b σ'' ->. do 2 (apply lw_keeps; [no_type_error|auto with kernel|intros ?]).
  apply lw_call_result; [no_type_error|done|]. intros s Hs. do 3 eexists. split; [by apply ty_call_indirect|by split].
Qed.
End context.

(** ** Every operation *)

Definition call_index_ok (op : WasmOp) : Prop := match op with Call n => 0 <= n | _ => True end.

Ltac fixed_type := apply fixed_numeric; reflexivity.
Ltac emitter := intros; cbv beta iota; solve_emits.

(** The lemma for the head of the lowering. *)
Ltac lower_dispatch :=
  unfold lower_i32_extend_narrow, lower_i64_extend_narrow, lower_trunc_f32_i32, lower_trunc_f64_i32,
    lower_trunc_f32_i64, lower_trunc_f64_i64, lower_convert_i32_f32, lower_convert_i64_f32, lower_convert_i32_f64,
    lower_convert_i64_f64, lower_i32_reinterpret_f32, lower_i64_reinterpret_f64, lower_f32_reinterpret_i32,
    lower_f64_reinterpret_i64, lower_i32x4_splat, lower_f32_demote_f64, lower_f64_promote_f32, lower_f32x4_splat,
    lower_f32x4_extract_lane, lower_f64x2_extract_lane, lower_i32x4_extract_lane, lower_f32x4_add, lower_f32x4_mul,
    lower_f32x4_sub, lower_f32x4_div, lower_f32x4_max, lower_f32x4_min, lower_f32x4_eq, lower_f32x4_gt,
    lower_i32x4_add, lower_i32x4_sub, lower_i32x4_mul, lower_f32x4_unary, lower_i32x4_dot_i8x16_signed,
    lower_i32x4_dot_i8x16_unsigned;
  lazymatch goal with
  | |- lowers _ _ (lower_binop _) => apply lowers_binop; fixed_type
  | |- lowers _ _ (lower_i64_binop _) => apply lowers_i64_binop; fixed_type
  | |- lowers _ _ (lower_i64_cmp _) => apply lowers_i64_cmp; fixed_type
  | |- lowers _ _ (lower_f32_binop _) => apply lowers_f32_binop; fixed_type
  | |- lowers _ _ (lower_f64_binop _) => apply lowers_f64_binop; fixed_type
  | |- lowers _ _ (lower_f32_cmp _) => apply lowers_f32_cmp; fixed_type
  | |- lowers _ _ (lower_f64_cmp _) => apply lowers_f64_cmp; fixed_type
  | |- lowers _ _ (lower_v128_binop _) => apply lowers_v128_binop; [fixed_type|emitter]
  | |- lowers _ _ (lower_dot _) => apply lowers_dot; [fixed_type|emitter]
  | |- lowers _ _ (int_to_int _ _ _) => apply lowers_int_to_int; [fixed_type|done|done|emitter]
  | |- lowers _ _ (int_to_fp _ _ _) => apply lowers_int_to_fp; [fixed_type|done|done|emitter]
  | |- lowers _ _ (fp_to_int _ _ _) => apply lowers_fp_to_int; [fixed_type|done|done|emitter]
  | |- lowers _ _ (fp_to_fp _ _ _) => apply lowers_fp_to_fp; [fixed_type|done|done|emitter]
  | |- lowers _ _ (lower_const _) => apply lowers_const
  | |- lowers _ _ (lower_i64_const _) => apply lowers_i64_const
  | |- lowers _ _ (lower_f32_const _) => apply lowers_f32_const
  | |- lowers _ _ (lower_f64_const _) => apply lowers_f64_const
  | |- lowers _ _ (lower_v128_const _) => apply lowers_v128_const
  | |- lowers _ _ lower_eqz => apply lowers_eqz
  | |- lowers _ _ lower_i64_eqz => apply lowers_i64_eqz
  | |- lowers _ _ (lower_load _) => apply lowers_load
  | |- lowers _ _ (lower_store _) => apply lowers_store
  | |- lowers _ _ (lower_i64_load _) => apply lowers_i64_load
  | |- lowers _ _ (lower_i64_store _) => apply lowers_i64_store
  | |- lowers _ _ (lower_f32_load _) => apply lowers_f32_load
  | |- lowers _ _ (lower_f32_store _) => apply lowers_f32_store
  | |- lowers _ _ (lower_f64_load _) => apply lowers_f64_load
  | |- lowers _ _ (lower_f64_store _) => apply lowers_f64_store
  | |- lowers _ _ (lower_v128_load _) => apply lowers_v128_load
  | |- lowers _ _ (lower_v128_store _) => apply lowers_v128_store
  | |- lowers _ _ lower_wrap_i64 => apply lowers_wrap
  | |- lowers _ _ (lower_extend_i32 true) => apply lowers_extend_s
  | |- lowers _ _ (lower_extend_i32 false) => apply lowers_extend_u
  | |- lowers _ _ lower_f32x4_fma => apply lowers_fma
  | |- lowers _ _ lower_f64x2_splat => apply lowers_f64x2_splat
  | |- lowers _ _ lower_v128_bitselect => apply lowers_bitselect
  | |- lowers _ _ lower_f32x4_horizontal_sum => apply lowers_hsum
  | |- lowers _ _ lower_drop => apply lowers_drop
  | |- lowers _ _ lower_select => apply lowers_select
  | |- lowers _ _ (lower_local_get _) => apply lowers_local_get
  | |- lowers _ _ (lower_local_set _) => apply lowers_local_set
  | |- lowers _ _ (lower_local_tee _) => apply lowers_local_tee
  | |- lowers _ _ (lower_global_get _) => by apply lowers_global_get
  | |- lowers _ _ (lower_global_set _) => by apply lowers_global_set
  | |- lowers _ _ (lower_call _) => by apply lowers_call
  | |- lowers _ _ (lower_call_indirect _) => apply lowers_call_indirect
  end.

Lemma lower_op_lowers c op :
  wf_cfg c -> call_targets c = [] -> is_control op = false -> call_index_ok op -> lowers c op (lower_op op).
Proof.
  intros Hwf Hnone Hctl Hcall. destruct op; try discriminate Hctl; cbn [lower_op]; lower_dispatch.
Qed.

(** ** Bodies *)

Section bodies.
Context (c : Lowerer) (Hwf : wf_cfg c) (Hnone : call_targets c = []).

Abbreviation body := (body_type (loc_type <$> locals c) (global_types c) (module_fn_sigs c) (indirect_sigs c)).

(** The types determine the stack after an operation. *)
Lemma typing_det op ins outs rest ins' outs' rest' :
  typing c op ins outs -> typing c op ins' outs' -> ins ++ rest = ins' ++ rest' -> outs ++ rest = outs' ++ rest'.
Proof.
  intros H H' E. pose proof (check_complete _ _ _ _ _ _ _ (mkVstate (ins ++ rest) 0 false) rest H eq_refl) as Hc.
  rewrite (check_complete _ _ _ _ _ _ _ (mkVstate (ins ++ rest) 0 false) rest' H' E) in Hc. by injection Hc.
Qed.

Lemma body_cons op ops ins outs rest τ :
  typing c op ins outs -> body (op :: ops) (ins ++ rest) τ -> body ops (outs ++ rest) τ.
Proof.
  intros H Hb. inversion Hb as [|? ? ins' outs' rest' ? H' _ Hb' E1 E2]; subst.
  by rewrite (typing_det _ _ _ _ _ _ _ H H' (eq_sym E2)).
Qed.

Lemma count_length σ : count_ints σ + count_fps σ = Z.of_nat (length σ).
Proof. induction σ as [|t σ IH]; [done|]. rewrite count_ints_cons, count_fps_cons. cbn [length]. destruct (is_int t); lia. Qed.

Lemma st_length ls σ s : st c ls σ s -> Z.of_nat (length σ) <= MAX_STACK_DEPTH.
Proof.
  intros (_ & _ & <- & Hi). pose proof (wf_capacity _ (inv_cfg _ Hi)). pose proof (count_length (stack s)).
  pose proof (inv_int _ Hi). pose proof (inv_int_max _ Hi). pose proof (inv_fp _ Hi). pose proof (inv_fp_max _ Hi).
  unfold MAX_STACK_DEPTH. lia.
Qed.

Definition straight (op : WasmOp) : Prop := is_control op = false /\ call_index_ok op.

Lemma lower_ops_app all i ops ops' ends ends' s :
  length ops = length ends ->
  lower_loop_ops all i (ops ++ ops') (ends ++ ends') s =
    (lower_loop_ops all i ops ends ;;; lower_loop_ops all (i + length ops) ops' ends') s.
Proof.
  revert i ends s. induction ops as [|op ops IH]; intros i [|b ends] s Hl; try discriminate Hl.
  - cbn. by rewrite Nat.add_0_r.
  - cbn [lower_loop_ops app length]. injection Hl as Hl. rewrite bind_assoc. apply bind_ext; [done|intros _ s1].
    rewrite bind_assoc. apply bind_ext; [done|intros _ s2]. rewrite bind_assoc. apply bind_ext; [done|intros _ s3].
    rewrite IH by done. by replace (i + S (length ops))%nat with (S i + length ops)%nat by lia.
Qed.

(** The loop of [lower_all] over straight-line code. *)
Lemma lower_ops_lowers all ops : forall i ls σ,
  Forall straight ops ->
  hoare (st c ls σ) (lower_loop_ops all i ops (replicate (length ops) false))
    (fun _ s => exists τ, body ops σ τ /\ st c ls τ s)
    (fun e => type_error e = true -> forall τ, ~ body ops σ τ).
Proof.
  induction ops as [|op ops IH]; intros i ls σ Hops.
  { apply hoare_ret. intros s Hs. exists σ. split; [constructor|done]. }
  inversion Hops as [|? ? [Hctl Hcall] Hops']; subst. cbn [lower_loop_ops length replicate].
  apply hoare_seq with (P' := st c ls σ); [destruct op; try discriminate Hctl; by apply hoare_ret|].
  intros s Hs. unfold M_bind at 1. pose proof (lower_op_lowers c op Hwf Hnone Hctl Hcall ls σ s Hs) as Hop.
  destruct (lower_op op s) as [s1 [[]|e|]]; [| |done].
  - destruct Hop as (ins & outs & rest & Ht & -> & Hs1). unfold M_bind at 1, M_ret at 1.
    specialize (IH (S i) ls (outs ++ rest) Hops' s1 Hs1).
    destruct (lower_loop_ops all (S i) ops (replicate (length ops) false) s1) as [s2 [[]|e|]]; [| |done].
    + destruct IH as (τ & Hb & Hs2). exists τ. split; [|done]. eapply ty_cons; [exact Ht|by eapply st_length|done].
    + intros He τ Hb. eapply IH; [done|]. by eapply body_cons.
  - intros He τ Hb. apply Hop in He. apply He. inversion Hb as [|? ? ins outs rest ? H]; subst. by exists ins, outs, rest.
Qed.

Lemma loop_ends_straight ops open : Forall (fun op => is_control op = false) ops -> loop_ends open (ops ++ [End]) = replicate (length ops) false ++ loop_ends open [End].
Proof. induction 1 as [|op ops Hctl _ IH]; [done|]. cbn [app length replicate]. destruct op; try discriminate Hctl; cbn [loop_ends app]; by rewrite IH. Qed.

(** The function's [end] takes an empty stack or a single value. *)
Lemma st_function_end σ :
  hoare (st c [] σ) lower_function_end (fun _ s => (length σ <= 1)%nat /\ st c [] [] s) (fun e => type_error e = true -> (1 < length σ)%nat).
Proof.
  assert (forall e, untyped e -> type_error e = true -> (1 < length σ)%nat) as HR by no_type_error.
  unfold lower_function_end. apply lw_keeps; [done|intros ls τ; apply st_flush|intros _].
  apply lw_keeps; [done|intros ls τ; apply st_flush_fp|intros _].
  apply hoare_gets. intros s0 (_ & _ & -> & _). apply (hoare_imp _ (st c [] σ)); [by intros s [_ H]|].
  assert ((length σ <= 1)%nat ->
    hoare (st c [] []) (emit_epilogue ;;; asm (Enc.ret X30)) (fun _ s => (length σ <= 1)%nat /\ st c [] [] s) (fun e => type_error e = true -> (1 < length σ)%nat)) as Hret.
  { intros Hlen. apply lw_keeps; [done|auto with kernel|intros _]. apply lw_last; [done|auto with kernel|done]. }
  assert (forall t e, pops [t] t e -> type_error e = true -> (1 < length [t])%nat) as Hpop
    by (intros t e Hp He; by destruct (Hp He [])).
  destruct σ as [|t [|t' σ]]; [apply (hoare_seq _ _ (st c [] [])); [by apply hoare_ret|apply Hret; cbn; lia]| |].
  - destruct t; unfold pop_i32_slot, pop_i64_slot, pop_f32_slot, pop_f64_slot.
    all: try (by intros s _).
    1,2: apply (hoare_seq _ _ (st c [] [])); [|apply Hret; cbn; lia].
    1,2: apply lw_pop_int; [done|exact (Hpop _)|intros r τ [= <-]; apply lw_last; [done|auto with kernel|done]].
    all: apply (hoare_seq _ _ (st c [] [])); [|apply Hret; cbn; lia].
    all: apply lw_pop_fp; [done|exact (Hpop _)|intros r τ [= <-]; apply lw_last; [done|auto with kernel|done]].
  - apply (hoare_seq _ _ (fun _ => False)); [|by intros s []].
    destruct t; intros s _; cbn; lia.
Qed.
End bodies.

(** The validator and the lowerer agree on straight-line code: a body the
    validator accepts is never refused for its types (an error that remains is
    a lack of registers or an unsupported feature, and there is no panic), and a
    body the lowerer compiles is well typed from the empty stack to at most one
    value. *)
Lemma validated_body_lowers (c s : Lowerer) (ops : list WasmOp) :
  wf_cfg c -> call_targets c = [] -> Forall straight ops -> st c [] [] s ->
  match lower_all (ops ++ [End]) s with
  | (_, Ok _) => exists τ, (length τ <= 1)%nat /\
      body_type (loc_type <$> locals c) (global_types c) (module_fn_sigs c) (indirect_sigs c) ops [] τ
  | (_, Err e) => type_error e = true ->
      validate_full (loc_type <$> locals c) (global_types c) (module_fn_sigs c) (indirect_sigs c) (ops ++ [End]) <> Ok tt
  | (_, Panic) => False
  end.
Proof.
  intros Hwf Hnone Hops Hs. unfold lower_all, compute_loop_end_indices.
  assert (Forall (fun op => is_control op = false) ops) as Hctl by (eapply Forall_impl; [exact Hops|]; by intros op []).
  rewrite loop_ends_straight, lower_ops_app by (done || by rewrite length_replicate).
  pose proof (validate_straight_iff (loc_type <$> locals c) (global_types c) (module_fn_sigs c) (indirect_sigs c) ops Hctl) as Hv.
  unfold M_bind at 1. pose proof (lower_ops_lowers c Hwf Hnone (ops ++ [End]) ops 0 [] [] Hops s Hs) as H.
  destruct (lower_loop_ops (ops ++ [End]) 0 ops _ s) as [s1 [[]|e|]]; [| |done].
  - destruct H as (τ & Hb & Hs1). pose proof Hs1 as (_ & Hl & _).
    assert (lower_op End s1 = lower_function_end s1) as E by (cbn [lower_op]; unfold M_bind, gets; by rewrite Hl).
    pose proof (st_function_end c τ s1 Hs1) as H. rewrite <- E in H.
    cbn [lower_loop_ops loop_ends]. unfold M_bind at 1, M_ret at 1. unfold M_bind at 1.
    destruct (lower_op End s1) as [s2 [[]|e|]]; [| |done].
    + cbn. exists τ. split; [apply H|done].
    + intros He Hok. apply Hv in Hok as [t Ht].
      pose proof (vloop_complete _ _ _ _ _ _ _ 0 (mkVstate [] 0 false) Hb eq_refl eq_refl) as E2.
      rewrite (vloop_complete _ _ _ _ _ _ _ 0 (mkVstate [] 0 false) Ht eq_refl eq_refl) in E2. injection E2 as <-.
      specialize (H He). cbn in H. lia.
  - intros He Hok. apply Hv in Hok as [t Ht]. by eapply H.
Qed.
