(* ===== verification/Semantics.v ===== *)
(** Reference semantics: the A64 instructions the lowerer emits, then
    WebAssembly's integer operations. *)

From S2P Require Import Prelude Bytes A64 A64Fmt A64Ops WasmTypes Peephole.

(** A reference semantics of the integer instructions the lowerer emits.

    The machine has 31 general registers of 64 bits and the four condition
    flags; index 31 reads as zero and ignores writes.  [exec] follows the
    architecture's description of each instruction (the W forms use the low 32
    bits and clear the upper half; a division by zero gives zero; shift counts
    are taken modulo the width).  [run_code] decodes the words of a code buffer
    with A64Fmt.disassemble and executes them until a RET.  Branches, memory and
    floating point are not part of it: an instruction outside gets stuck. *)

Open Scope kernel_scope.
Open Scope word_scope.

Record Flags := mkFlags { fN : bool; fZ : bool; fC : bool; fV : bool }.

Record Machine := mkMachine { xregs : list Z; flags : Flags }.

Definition xr (m : Machine) (r : Z) : Z := default 0 (xregs m !! Z.to_nat r).
Definition wr (m : Machine) (r : Z) : Z := xr m r mod 2 ^ 32.

Definition set_x (m : Machine) (r v : Z) : Machine := mkMachine (<[Z.to_nat r := v mod 2 ^ 64]> (xregs m)) (flags m).
Definition set_w (m : Machine) (r v : Z) : Machine := set_x m r (v mod 2 ^ 32).

Definition wf_machine (m : Machine) : Prop := length (xregs m) = 31%nat /\ Forall (in_width 64) (xregs m).

(** Two's complement value of a [w]-bit pattern. *)
Definition signed (w v : Z) : Z := if v <? 2 ^ (w - 1) then v else v - 2 ^ w.

(** The flags of [a - b] on [w] bits. *)
Definition sub_flags (w a b : Z) : Flags :=
  let r := (a - b) mod 2 ^ w in
  mkFlags (signed w r <? 0) (r =? 0) (b <=? a) (negb (signed w r =? signed w a - signed w b)).

Definition cond_holds (c : Z) (f : Flags) : bool :=
  match c with
  | 0 => fZ f
  | 1 => negb (fZ f)
  | 2 => fC f
  | 3 => negb (fC f)
  | 8 => fC f && negb (fZ f)
  | 9 => negb (fC f && negb (fZ f))
  | 10 => Bool.eqb (fN f) (fV f)
  | 11 => negb (Bool.eqb (fN f) (fV f))
  | 12 => Bool.eqb (fN f) (fV f) && negb (fZ f)
  | 13 => negb (Bool.eqb (fN f) (fV f) && negb (fZ f))
  | _ => false
  end.

(** Division that rounds towards zero and gives zero for a zero divisor. *)
Definition sdiv64 (a b : Z) : Z := if b =? 0 then 0 else Z.quot (signed 64 a) (signed 64 b).
Definition udiv64 (a b : Z) : Z := if b =? 0 then 0 else a / b.

Definition exec (op : Opcode) (vs : list Z) (m : Machine) : option Machine :=
  match op, vs with
  | OP_nop, [] => Some m
  | OP_movz, [hw; imm; rd] => Some (set_x m rd (imm * 2 ^ (16 * hw)))
  | OP_movn, [hw; imm; rd] => Some (set_x m rd (- 1 - imm * 2 ^ (16 * hw)))
  | OP_movk, [hw; imm; rd] =>
      Some (set_x m rd (xr m rd - ((xr m rd / 2 ^ (16 * hw)) mod 2 ^ 16) * 2 ^ (16 * hw) + imm * 2 ^ (16 * hw)))
  | OP_add, [rm; rn; rd] => Some (set_x m rd (xr m rn + xr m rm))
  | OP_sub, [rm; rn; rd] => Some (set_x m rd (xr m rn - xr m rm))
  | OP_mul, [rm; rn; rd] => Some (set_x m rd (xr m rn * xr m rm))
  | OP_sdiv, [rm; rn; rd] => Some (set_x m rd (sdiv64 (xr m rn) (xr m rm)))
  | OP_udiv, [rm; rn; rd] => Some (set_x m rd (udiv64 (xr m rn) (xr m rm)))
  | OP_and_w, [rm; rn; rd] => Some (set_w m rd (Z.land (wr m rn) (wr m rm)))
  | OP_orr_w, [rm; rn; rd] => Some (set_w m rd (Z.lor (wr m rn) (wr m rm)))
  | OP_eor_w, [rm; rn; rd] => Some (set_w m rd (Z.lxor (wr m rn) (wr m rm)))
  | OP_and_x, [rm; rn; rd] => Some (set_x m rd (Z.land (xr m rn) (xr m rm)))
  | OP_orr_x, [rm; rn; rd] => Some (set_x m rd (Z.lor (xr m rn) (xr m rm)))
  | OP_eor_x, [rm; rn; rd] => Some (set_x m rd (Z.lxor (xr m rn) (xr m rm)))
  | OP_lsl_w, [rm; rn; rd] => Some (set_w m rd (wr m rn * 2 ^ (wr m rm mod 32)))
  | OP_lsr_w, [rm; rn; rd] => Some (set_w m rd (wr m rn / 2 ^ (wr m rm mod 32)))
  | OP_asr_w, [rm; rn; rd] => Some (set_w m rd (signed 32 (wr m rn) / 2 ^ (wr m rm mod 32)))
  | OP_lsl_x, [rm; rn; rd] => Some (set_x m rd (xr m rn * 2 ^ (xr m rm mod 64)))
  | OP_lsr_x, [rm; rn; rd] => Some (set_x m rd (xr m rn / 2 ^ (xr m rm mod 64)))
  | OP_asr_x, [rm; rn; rd] => Some (set_x m rd (signed 64 (xr m rn) / 2 ^ (xr m rm mod 64)))
  | OP_cmp_w, [rm; rn] => Some (mkMachine (xregs m) (sub_flags 32 (wr m rn) (wr m rm)))
  | OP_cmp_x, [rm; rn] => Some (mkMachine (xregs m) (sub_flags 64 (xr m rn) (xr m rm)))
  | OP_cset, [inv; rd] => Some (set_x m rd (if cond_holds inv (flags m) then 0 else 1))
  | OP_csel, [rm; c; rn; rd] => Some (set_x m rd (if cond_holds c (flags m) then xr m rn else xr m rm))
  | OP_sxtw, [rn; rd] => Some (set_x m rd (signed 32 (wr m rn)))
  | OP_sxtb_w, [rn; rd] => Some (set_w m rd (signed 8 (wr m rn mod 2 ^ 8)))
  | OP_sxth_w, [rn; rd] => Some (set_w m rd (signed 16 (wr m rn mod 2 ^ 16)))
  | OP_sxtb_x, [rn; rd] => Some (set_x m rd (signed 8 (xr m rn mod 2 ^ 8)))
  | OP_sxth_x, [rn; rd] => Some (set_x m rd (signed 16 (xr m rn mod 2 ^ 16)))
  | _, _ => None
  end.

Definition exec_word (w : Z) (m : Machine) : option Machine :=
  match disassemble w with Some (op, vs) => exec op vs m | None => None end.

Fixpoint exec_words (ws : list Z) (m : Machine) : option Machine :=
  match ws with
  | [] => Some m
  | w :: ws => m' ← exec_word w m; exec_words ws m'
  end.

(** Run from the first word until [RET X30]. *)
Fixpoint run_words (ws : list Z) (m : Machine) : option Machine :=
  match ws with
  | [] => None
  | w :: ws =>
      match disassemble w with
      | Some (OP_ret, [30]) => Some m
      | _ => m' ← exec_word w m; run_words ws m'
      end
  end.

Definition code_words (bytes : list Z) : list Z := (fun i => word_at bytes (i * 4)) <$> seq 0 (length bytes / 4).

Definition run_code (bytes : list Z) (m : Machine) : option Machine := run_words (code_words bytes) m.

(** ** Registers *)

Lemma xr_set m r r' v :
  wf_machine m -> 0 <= r < 31 -> 0 <= r' -> xr (set_x m r v) r' = if r' =? r then v mod 2 ^ 64 else xr m r'.
Proof.
  intros [Hl _] Hr Hr'. unfold xr, set_x. cbn. destruct (Z.eqb_spec r' r) as [->|Hne].
  - by rewrite list_lookup_insert_eq by lia.
  - by rewrite list_lookup_insert_ne by lia.
Qed.

Lemma xr_range m r : wf_machine m -> in_width 64 (xr m r).
Proof.
  intros [_ Hf]. unfold xr. destruct (xregs m !! Z.to_nat r) as [v|] eqn:E; cbn; [|done].
  by apply (Forall_lookup_1 _ _ _ _ Hf E).
Qed.

Lemma xr_zr m : wf_machine m -> xr m 31 = 0.
Proof. intros [Hl _]. unfold xr. by rewrite lookup_ge_None_2 by (rewrite Hl; done). Qed.

Lemma wf_set m r v : wf_machine m -> wf_machine (set_x m r v).
Proof.
  intros [Hl Hf]. split; cbn; [by rewrite length_insert|]. apply Forall_insert; [done|]. apply Z.mod_pos_bound. lia.
Qed.

Lemma wf_flags m f : wf_machine m -> wf_machine (mkMachine (xregs m) f).
Proof. done. Qed.

Lemma set_x_same m r : wf_machine m -> set_x m r (xr m r) = m.
Proof.
  intros Hm. unfold set_x. rewrite (Z.mod_small (xr m r)) by (by apply xr_range). destruct m as [rs f]. cbn. f_equal.
  unfold xr. cbn. destruct (rs !! Z.to_nat r) as [v|] eqn:E; cbn; [by apply list_insert_id|].
  apply list_insert_ge. by apply lookup_ge_None.
Qed.

(** ** Conditions *)

Lemma signed_range w v : 0 < w -> in_width w v -> - 2 ^ (w - 1) <= signed w v < 2 ^ (w - 1).
Proof.
  intros Hw Hv. unfold in_width, signed in *. assert (2 ^ w = 2 * 2 ^ (w - 1)) by (rewrite <- Z.pow_succ_r by lia; f_equal; lia).
  destruct (Z.ltb_spec v (2 ^ (w - 1))); lia.
Qed.

Lemma signed_mod w v : 0 < w -> in_width w v -> signed w v mod 2 ^ w = v.
Proof.
  intros Hw Hv. unfold signed, in_width in *. destruct (v <? 2 ^ (w - 1)); [by apply Z.mod_small|].
  rewrite <- (Z_mod_plus_full _ 1), Z.mul_1_l. rewrite Z.sub_add. by apply Z.mod_small.
Qed.

(** The comparison a condition stands for. *)
Definition cond_meaning (c : Condition) (w a b : Z) : bool :=
  match c with
  | Eq => a =? b | Ne => negb (a =? b)
  | Hs => b <=? a | Lo => a <? b | Hi => b <? a | Ls => a <=? b
  | Ge => signed w b <=? signed w a | Lt => signed w a <? signed w b
  | Gt => signed w b <? signed w a | Le => signed w a <=? signed w b
  end.

Lemma sub_flags_ge w a b :
  0 < w -> in_width w a -> in_width w b ->
  Bool.eqb (fN (sub_flags w a b)) (fV (sub_flags w a b)) = (signed w b <=? signed w a).
Proof.
  intros Hw Ha Hb. cbn. pose proof (signed_range w a Hw Ha). pose proof (signed_range w b Hw Hb).
  assert (in_width w ((a - b) mod 2 ^ w)) as Hr by (apply (wrap_range w); lia).
  assert (2 ^ w = 2 * 2 ^ (w - 1)) as H2 by (rewrite <- Z.pow_succ_r by lia; f_equal; lia).
  assert (exists k, signed w ((a - b) mod 2 ^ w) = signed w a - signed w b + k * 2 ^ w) as [k Hk].
  { assert (forall x, exists k, signed w x = x + k * 2 ^ w) as Hs
      by (intros x; unfold signed; destruct (x <? 2 ^ (w - 1)); [exists 0|exists (-1)]; lia).
    destruct (Hs a) as [ka ->], (Hs b) as [kb ->], (Hs ((a - b) mod 2 ^ w)) as [kr ->].
    exists (kr - ka + kb - (a - b) / 2 ^ w). rewrite (Z.mod_eq (a - b)) by lia. lia. }
  pose proof (signed_range w _ Hw Hr) as Hsr. rewrite Hk in *.
  assert (k = 0 \/ k = 1 \/ k = -1) as [->|[->| ->]] by nia;
    repeat (match goal with |- context [?x <? 0] => destruct (Z.ltb_spec x 0) | |- context [?x =? ?y] => destruct (Z.eqb_spec x y)
      | |- context [?x <=? ?y] => destruct (Z.leb_spec x y) end); cbn; try reflexivity; lia.
Qed.

Lemma cond_sub w a b c :
  0 < w -> in_width w a -> in_width w b ->
  cond_holds (Condition_u32 c) (sub_flags w a b) = cond_meaning c w a b.
Proof.
  intros Hw Ha Hb. pose proof (sub_flags_ge w a b Hw Ha Hb) as Hge.
  assert (fZ (sub_flags w a b) = (a =? b)) as Hz.
  { cbn. unfold in_width in *. destruct (Z.eqb_spec a b) as [->|Hne]; [by rewrite Z.sub_diag, Z.mod_0_l by lia|].
    apply Z.eqb_neq. intros H0. destruct (Z.lt_ge_cases a b).
    - rewrite <- (Z_mod_plus_full _ 1), Z.mod_small in H0 by lia. lia.
    - rewrite Z.mod_small in H0 by lia. lia. }
  assert (signed w a = signed w b <-> a = b) as Hinj.
  { split; [|by intros ->]. intros H. by rewrite <- (signed_mod w a), <- (signed_mod w b), H by done. }
  assert (fC (sub_flags w a b) = (b <=? a)) as Hc by done.
  unfold cond_holds. destruct c; cbn [Condition_u32 cond_meaning]; rewrite ?Hge, ?Hz, ?Hc;
    repeat (match goal with |- context [?x <? ?y] => destruct (Z.ltb_spec x y) | |- context [?x =? ?y] => destruct (Z.eqb_spec x y)
      | |- context [?x <=? ?y] => destruct (Z.leb_spec x y) end); cbn; try reflexivity; lia.
Qed.

Lemma cond_invert c f : cond_holds (Condition_u32 (invert c)) f = negb (cond_holds (Condition_u32 c) f).
Proof. destruct c; cbn; by rewrite ?negb_involutive. Qed.

(** ** Words and the peephole pass *)

Lemma exec_assemble op vs m : operands_ok op vs -> exec_word (assemble op vs) m = exec op vs m.
Proof. intros H. unfold exec_word. by rewrite disassemble_assemble. Qed.

(** A word before or after the pass. *)
Definition opt_word (opt : bool) (w : Z) : Z := if opt then peephole_word false w else w.

Lemma disassemble_self_add rd : 0 <= rd < 32 -> disassemble (self_add_word rd) = Some (OP_add, [rd; 31; rd]).
Proof.
  intros H. assert (self_add_word rd = assemble OP_add [rd; 31; rd]) as ->.
  { open_format. unfold self_add_word, shl32. by rewrite Z.shiftl_0_r, (wrap_small 32 rd) by (unfold in_width; lia). }
  apply disassemble_assemble. operands_ok_case.
Qed.

Lemma disassemble_self_and rd : 0 <= rd < 32 -> disassemble (self_and_word rd) = Some (OP_and_w, [rd; rd; rd]).
Proof.
  intros H. assert (self_and_word rd = assemble OP_and_w [rd; rd; rd]) as ->.
  { open_format. unfold self_and_word, shl32. by rewrite Z.shiftl_0_r, (wrap_small 32 rd) by (unfold in_width; lia). }
  apply disassemble_assemble. operands_ok_case.
Qed.

(** The pass replaces a word only by a NOP, and only self-moves and self-ands. *)
Lemma opt_word_cases opt op vs :
  operands_ok op vs ->
  opt_word opt (assemble op vs) = assemble op vs \/
  opt = true /\ opt_word opt (assemble op vs) = NOP /\ exists rd, (op, vs) = (OP_add, [rd; 31; rd]) \/ (op, vs) = (OP_and_w, [rd; rd; rd]).
Proof.
  intros Hok. destruct opt; [|by left]. unfold opt_word, peephole_word. cbn [negb andb].
  pose proof (assemble_range op vs Hok) as Hr. pose proof (disassemble_assemble op vs Hok) as Hd.
  destruct (is_self_add_x _) eqn:Ha; [|destruct (is_self_and_w _) eqn:Hb; [|by left]]; right; (split; [done|]); (split; [done|]).
  - apply is_self_add_x_spec in Ha as (rd & Hrd & E); [|done]. exists rd. left. rewrite E, disassemble_self_add in Hd by done. congruence.
  - apply is_self_and_w_spec in Hb as (rd & Hrd & E); [|done]. exists rd. right. rewrite E, disassemble_self_and in Hd by done. congruence.
Qed.

Lemma exec_nop m : exec_word NOP m = Some m.
Proof. reflexivity. Qed.

(** The pass preserves every instruction but a self-and. *)
Lemma exec_opt opt op vs m :
  wf_machine m -> operands_ok op vs -> (opt = true -> forall rd, (op, vs) <> (OP_and_w, [rd; rd; rd])) ->
  exec_word (opt_word opt (assemble op vs)) m = exec op vs m.
Proof.
  intros Hm Hok Hand. destruct (opt_word_cases opt op vs Hok) as [->|(-> & -> & rd & [[= -> ->]|E])].
  - by apply exec_assemble.
  - rewrite exec_nop. cbn. by rewrite xr_zr, Z.add_0_l, set_x_same.
  - by destruct (Hand eq_refl rd).
Qed.

(** A self-and may be left out when only the low half matters. *)
Lemma exec_opt_and opt rd m :
  wf_machine m -> 0 <= rd < 32 ->
  exec_word (opt_word opt (assemble OP_and_w [rd; rd; rd])) m = Some m \/
  exec_word (opt_word opt (assemble OP_and_w [rd; rd; rd])) m = Some (set_w m rd (wr m rd)).
Proof.
  intros Hm Hr. assert (operands_ok OP_and_w [rd; rd; rd]) as Hok by operands_ok_case.
  destruct (opt_word_cases opt _ _ Hok) as [->|(_ & -> & _)]; [right|by left].
  rewrite exec_assemble by done. cbn. by rewrite Z.land_diag.
Qed.

Lemma exec_words_app ws ws' m m' : exec_words ws m = Some m' -> exec_words (ws ++ ws') m = exec_words ws' m'.
Proof.
  revert m. induction ws as [|w ws IH]; intros m H; cbn in *; [by injection H as <-|].
  destruct (exec_word w m) as [m1|]; [|done]. cbn in *. by apply IH.
Qed.

(** [RET] is not executed by [exec]. *)
Lemma run_exec ws w ws' m m' :
  exec_words ws m = Some m' -> disassemble w = Some (OP_ret, [30]) -> run_words (ws ++ w :: ws') m = Some m'.
Proof.
  intros H Hw. revert m H. induction ws as [|v ws IH]; intros m H; cbn in *; [by rewrite Hw, H|].
  destruct (exec_word v m) as [m1|] eqn:E; [|done]. cbn in *. rewrite (IH m1 H).
  unfold exec_word in E. destruct (disassemble v) as [[op vs]|]; [|done].
  by destruct op.
Qed.

(** A reference semantics of WebAssembly's integer instructions: the values
    the specification gives the operations, on a stack of typed values and the
    locals.  An integer is its unsigned value; a trap and an operation outside
    the subset have no result. *)

(** A typed value. *)
Abbreviation WVal := (ValType * Z)%type.

Definition b2z (b : bool) : Z := if b then 1 else 0.

(** Binary operations on [w]-bit values. *)
Definition wadd (w a b : Z) : Z := (a + b) mod 2 ^ w.
Definition wsub (w a b : Z) : Z := (a - b) mod 2 ^ w.
Definition wmul (w a b : Z) : Z := (a * b) mod 2 ^ w.
Definition wshl (w a b : Z) : Z := (a * 2 ^ (b mod w)) mod 2 ^ w.
Definition wshr_u (w a b : Z) : Z := a / 2 ^ (b mod w).
Definition wshr_s (w a b : Z) : Z := (signed w a / 2 ^ (b mod w)) mod 2 ^ w.

(** Division traps on a zero divisor and on an overflowing quotient. *)
Definition wdiv_u (w a b : Z) : option Z := if b =? 0 then None else Some (a / b).
Definition wdiv_s (w a b : Z) : option Z :=
  if b =? 0 then None else
  let q := Z.quot (signed w a) (signed w b) in
  if q =? 2 ^ (w - 1) then None else Some (q mod 2 ^ w).

(** The operand type, the result type and the function of a binary operation;
    a comparison is the one its condition means. *)
Definition wasm_binop (op : WasmOp) : option (ValType * ValType * (Z -> Z -> option Z)) :=
  let i32 (f : Z -> Z -> Z) := Some (I32, I32, fun a b => Some (f a b)) in
  let i64 (f : Z -> Z -> Z) := Some (I64, I64, fun a b => Some (f a b)) in
  let cmp32 (f : Z -> Z -> bool) := Some (I32, I32, fun a b => Some (b2z (f a b))) in
  let cmp64 (f : Z -> Z -> bool) := Some (I64, I32, fun a b => Some (b2z (f a b))) in
  match op with
  | I32Add => i32 (wadd 32) | I32Sub => i32 (wsub 32) | I32Mul => i32 (wmul 32)
  | I32DivS => Some (I32, I32, wdiv_s 32) | I32DivU => Some (I32, I32, wdiv_u 32)
  | I32And => i32 Z.land | I32Or => i32 Z.lor | I32Xor => i32 Z.lxor
  | I32Shl => i32 (wshl 32) | I32ShrS => i32 (wshr_s 32) | I32ShrU => i32 (wshr_u 32)
  | I32Eq => cmp32 Z.eqb | I32Ne => cmp32 (fun a b => negb (a =? b))
  | I32LtS => cmp32 (fun a b => signed 32 a <? signed 32 b) | I32GtS => cmp32 (fun a b => signed 32 b <? signed 32 a)
  | I32LeS => cmp32 (fun a b => signed 32 a <=? signed 32 b) | I32GeS => cmp32 (fun a b => signed 32 b <=? signed 32 a)
  | I32LtU => cmp32 Z.ltb | I32GtU => cmp32 (fun a b => b <? a) | I32LeU => cmp32 Z.leb | I32GeU => cmp32 (fun a b => b <=? a)
  | I64Add => i64 (wadd 64) | I64Sub => i64 (wsub 64) | I64Mul => i64 (wmul 64)
  | I64DivS => Some (I64, I64, wdiv_s 64) | I64DivU => Some (I64, I64, wdiv_u 64)
  | I64And => i64 Z.land | I64Or => i64 Z.lor | I64Xor => i64 Z.lxor
  | I64Shl => i64 (wshl 64) | I64ShrS => i64 (wshr_s 64) | I64ShrU => i64 (wshr_u 64)
  | I64Eq => cmp64 Z.eqb | I64Ne => cmp64 (fun a b => negb (a =? b))
  | I64LtS => cmp64 (fun a b => signed 64 a <? signed 64 b) | I64GtS => cmp64 (fun a b => signed 64 b <? signed 64 a)
  | I64LeS => cmp64 (fun a b => signed 64 a <=? signed 64 b) | I64GeS => cmp64 (fun a b => signed 64 b <=? signed 64 a)
  | I64LtU => cmp64 Z.ltb | I64GtU => cmp64 (fun a b => b <? a) | I64LeU => cmp64 Z.leb | I64GeU => cmp64 (fun a b => b <=? a)
  | _ => None
  end.

Definition wasm_unop (op : WasmOp) : option (ValType * ValType * (Z -> Z)) :=
  match op with
  | I32Eqz => Some (I32, I32, fun a => b2z (a =? 0))
  | I64Eqz => Some (I64, I32, fun a => b2z (a =? 0))
  | I32WrapI64 => Some (I64, I32, fun a => a mod 2 ^ 32)
  | I64ExtendI32S => Some (I32, I64, fun a => signed 32 a mod 2 ^ 64)
  | I64ExtendI32U => Some (I32, I64, fun a => a)
  | I32Extend8S => Some (I32, I32, fun a => signed 8 (a mod 2 ^ 8) mod 2 ^ 32)
  | I32Extend16S => Some (I32, I32, fun a => signed 16 (a mod 2 ^ 16) mod 2 ^ 32)
  | I64Extend8S => Some (I64, I64, fun a => signed 8 (a mod 2 ^ 8) mod 2 ^ 64)
  | I64Extend16S => Some (I64, I64, fun a => signed 16 (a mod 2 ^ 16) mod 2 ^ 64)
  | I64Extend32S => Some (I64, I64, fun a => signed 32 (a mod 2 ^ 32) mod 2 ^ 64)
  | _ => None
  end.

Record WState := mkWState { wlocals : list WVal; wstack : list WVal }.

(** Assign a local; the types agree. *)
Definition wset_local (n : Z) (t : ValType) (v : Z) (ls : list WVal) : option (list WVal) :=
  match ls !! Z.to_nat n with
  | Some (t', _) => if bool_decide (t' = t) then Some (<[Z.to_nat n := (t, v)]> ls) else None
  | None => None
  end.

Definition wstep (op : WasmOp) (st : WState) : option WState :=
  match op, wstack st with
  | I32Const c, σ => Some (mkWState (wlocals st) ((I32, c mod 2 ^ 32) :: σ))
  | I64Const c, σ => Some (mkWState (wlocals st) ((I64, c mod 2 ^ 64) :: σ))
  | Drop, _ :: σ => Some (mkWState (wlocals st) σ)
  | Select, (I32, c) :: (t2, b) :: (t1, a) :: σ =>
      if bool_decide (t1 = t2) then Some (mkWState (wlocals st) ((t1, if c =? 0 then b else a) :: σ)) else None
  | LocalGet n, σ => x ← wlocals st !! Z.to_nat n; Some (mkWState (wlocals st) (x :: σ))
  | LocalSet n, (t, v) :: σ => ls ← wset_local n t v (wlocals st); Some (mkWState ls σ)
  | LocalTee n, (t, v) :: σ => ls ← wset_local n t v (wlocals st); Some (mkWState ls ((t, v) :: σ))
  | op, (t, a) :: σ =>
      match wasm_unop op, wasm_binop op, σ with
      | Some (t1, tr, f), _, _ => if bool_decide (t = t1) then Some (mkWState (wlocals st) ((tr, f a) :: σ)) else None
      | _, Some (t1, tr, f), (t', a') :: σ' =>
          if bool_decide (t = t1 /\ t' = t1) then v ← f a' a; Some (mkWState (wlocals st) ((tr, v) :: σ')) else None
      | _, _, _ => None
      end
  | _, _ => None
  end.

Fixpoint wrun (ops : list WasmOp) (st : WState) : option WState :=
  match ops with
  | [] => Some st
  | op :: ops => st' ← wstep op st; wrun ops st'
  end.

