(* ===== verification/LowerSem.v ===== *)
(** Simulation: the instructions the lowerer emits for an integer operation do
    on the machine of Semantics.v what the operation does there.

    The operand at depth [d] is in register [Xd], the integer local [i] in
    [X(19 + i)].  A 32-bit value is the low half of its register; the upper half
    is arbitrary.  [opt] chooses between the words as emitted and the words
    after the peephole pass. *)

From S2P Require Import Prelude Bytes A64 A64Fmt A64Ops WasmTypes Peephole Lower LowerOps LowerNew Semantics.

Open Scope kernel_scope.
Open Scope word_scope.

(** [x] holds the value [v] of type [t]. *)
Definition repr (t : ValType) (v x : Z) : Prop :=
  match t with I32 => x mod 2 ^ 32 = v | I64 => x = v | _ => False end.

(** The registers hold the operands, the topmost in the register of its depth. *)
Fixpoint slots (m : Machine) (σ : list WVal) : Prop :=
  match σ with
  | [] => True
  | (t, v) :: σ => repr t v (xr m (Z.of_nat (length σ))) /\ slots m σ
  end.

Definition local_reg (i : nat) : Z := 19 + Z.of_nat i.

Definition local_slots (m : Machine) (ls : list WVal) : Prop :=
  (length ls <= 9)%nat /\ forall i t v, ls !! i = Some (t, v) -> repr t v (xr m (local_reg i)).

Definition related (st : WState) (m : Machine) : Prop := slots m (wstack st) /\ local_slots m (wlocals st).

(** The location of local [i] of an integer type. *)
Definition int_loc (i : nat) (t : ValType) : LocalLoc :=
  if bool_decide (t = I32) then LocI32 (MkReg (local_reg i)) else LocI64 (MkReg (local_reg i)).

(** What the simulation knows of the lowerer. *)
Record view (ts τ : list ValType) (s : Lowerer) : Prop := {
  v_stack : stack s = τ;
  v_depth : int_depth s = Z.of_nat (length τ);
  v_bound : (length τ <= 16)%nat;
  v_ints : Forall (fun t => is_int t = true) τ;
  v_spill : pending_spill_depth s = None;
  v_fp_spill : pending_fp_spill_depth s = None;
  v_locals : locals s = imap int_loc ts;
  v_regs : 16 <= max_reg_int s;
  v_labels : label_stack s = [];
  v_regions : data_regions s = []
}.

Definition words (ws : list Z) : list Z := concat (le_bytes 4 <$> ws).

Section sim.
Context (opt : bool) (ts : list ValType).

(** The lowering succeeds, and from the machine [mm] the emitted words reach a
    machine in [ψ]. *)
Definition sim {A} (τ : list ValType) (mm : Machine) (m : L A) (τ' : list ValType) (ψ : Machine -> Prop) : Prop :=
  forall s, view ts τ s ->
    match m s with
    | (s', Ok _) => exists ws mm', buf (encoder s') = buf (encoder s) ++ words ws /\ Forall (in_width 32) ws /\
        exec_words (opt_word opt <$> ws) mm = Some mm' /\ wf_machine mm' /\ has_frame s' = has_frame s /\ view ts τ' s' /\ ψ mm'
    | _ => False
    end.

Lemma sim_ret {A} τ mm (a : A) ψ : wf_machine mm -> ψ mm -> sim τ mm (M_ret a) τ ψ.
Proof.
  intros Hm H s Hs. exists [], mm. unfold words. cbn. by rewrite app_nil_r.
Qed.

(** A step that emits nothing. *)
Lemma sim_silent {A B} τ τ1 mm (m : L A) (k : A -> L B) τ' ψ :
  (forall s, view ts τ s -> match m s with
     | (s', Ok a) => encoder s' = encoder s /\ has_frame s' = has_frame s /\ view ts τ1 s' /\ sim τ1 mm (k a) τ' ψ | _ => False end) ->
  sim τ mm (M_bind k m) τ' ψ.
Proof.
  intros H s Hs. specialize (H s Hs). unfold M_bind. destruct (m s) as [s' [a|e|]]; [|done|done].
  destruct H as (He & Hf & Hv & Hk). specialize (Hk s' Hv). destruct (k a s') as [s2 [b|e|]]; [|done|done]. by rewrite He, Hf in Hk.
Qed.

Lemma sim_gets {A B} τ mm (f : Lowerer -> A) (k : A -> L B) τ' ψ :
  (forall s, view ts τ s -> sim τ mm (k (f s)) τ' ψ) -> sim τ mm (M_bind k (gets f)) τ' ψ.
Proof. intros H. apply (sim_silent τ τ). intros s Hs. by repeat split; try apply Hs; try apply H. Qed.

Lemma sim_bind {A B} τ mm (m : L A) τ1 (χ : Machine -> Prop) (k : A -> L B) τ' ψ :
  sim τ mm m τ1 χ -> (forall a mm1, wf_machine mm1 -> χ mm1 -> sim τ1 mm1 (k a) τ' ψ) -> sim τ mm (M_bind k m) τ' ψ.
Proof.
  intros Hm Hk s Hs. specialize (Hm s Hs). unfold M_bind. destruct (m s) as [s1 [a|e|]]; [|done|done].
  destruct Hm as (ws & mm1 & Hb & Hr & Hx & Hw & Hf & Hv & Hc). specialize (Hk a mm1 Hw Hc s1 Hv).
  destruct (k a s1) as [s2 [b|e|]]; [|done|done]. destruct Hk as (ws' & mm2 & Hb' & Hr' & Hx' & Hw' & Hf' & Hv' & Hp).
  exists (ws ++ ws'), mm2. split; [rewrite Hb', Hb; unfold words; by rewrite fmap_app, concat_app, app_assoc|].
  split; [by apply Forall_app|]. split; [rewrite fmap_app; by rewrite (exec_words_app _ _ _ _ Hx)|]. by rewrite Hf', Hf.
Qed.

Lemma view_encoder τ s e : view ts τ s -> view ts τ (s <| encoder := e |>).
Proof. by intros []. Qed.

(** One instruction. *)
Lemma sim_insn (i : Insn) τ mm (m : EncM unit) op vs mm' ψ :
  (forall e, m e = run i e) -> wf_insn i -> operands i = inl (op, vs) ->
  exec_word (opt_word opt (assemble op vs)) mm = Some mm' -> wf_machine mm' -> ψ mm' -> sim τ mm (asm m) τ ψ.
Proof.
  intros Hm Hi Ho Hx Hw Hp s Hs. unfold asm, on_encoder, asm_on. rewrite Hm, run_spec, Ho by done. cbn [append_result].
  exists [assemble op vs], mm'. unfold words. cbn -[exec_word le_bytes]. rewrite app_nil_r, Hx. cbn.
  pose proof (operands_fit i op vs Hi Ho) as Hok. split; [done|]. split; [constructor; [by apply assemble_range|done]|].
  do 3 (split; [done|]). split; [by apply view_encoder|done].
Qed.

(** An instruction the pass keeps. *)
Lemma sim_asm (i : Insn) τ mm (m : EncM unit) op vs mm' ψ :
  (forall e, m e = run i e) -> wf_insn i -> operands i = inl (op, vs) -> wf_machine mm ->
  (opt = true -> forall rd, (op, vs) <> (OP_and_w, [rd; rd; rd])) ->
  exec op vs mm = Some mm' -> wf_machine mm' -> ψ mm' -> sim τ mm (asm m) τ ψ.
Proof.
  intros Hm Hi Ho Hw Hself Hx. eapply sim_insn; [done|done|done|]. rewrite exec_opt; [done|done|by eapply operands_fit|done].
Qed.

(** ** Slots *)

Lemma sim_pop {B} t τ mm (k : Reg -> L B) τ' ψ :
  is_int t = true -> sim τ mm (k (MkReg (Z.of_nat (length τ)))) τ' ψ -> sim (t :: τ) mm (M_bind k (pop_int_slot t)) τ' ψ.
Proof.
  intros Ht Hk. apply (sim_silent _ τ). intros s Hs. destruct Hs.
  unfold pop_int_slot, flush_pending_spill, M_bind, gets, expect_top, modify, ok_or, fail_if. cbn [id].
  rewrite v_spill0. cbn. rewrite v_stack0. cbn. rewrite bool_decide_true by done. cbn.
  cbn in v_depth0, v_bound0. rewrite v_depth0. apply Forall_cons in v_ints0 as [_ Hi].
  rewrite wrap_small by (unfold in_width; lia). replace (Z.of_nat (S (length τ)) - 1) with (Z.of_nat (length τ)) by lia.
  unfold int_depth_to_reg. cbn. destruct (Z.ltb_spec (Z.of_nat (length τ)) MAX_PRIMARY_INT); [|unfold MAX_PRIMARY_INT in *; lia].
  cbn. rewrite wrap_small by (unfold in_width; lia). split; [done|]. split; [done|]. split; [|done].
  split; cbn; try done; [by rewrite v_stack0|lia].
Qed.

Lemma sim_push {B} t τ mm (k : Reg -> L B) τ' ψ :
  is_int t = true -> (length τ < 16)%nat ->
  sim (t :: τ) mm (k (MkReg (Z.of_nat (length τ)))) τ' ψ -> sim τ mm (M_bind k (push_int_slot t)) τ' ψ.
Proof.
  intros Ht Hl Hk. apply (sim_silent _ (t :: τ)). intros s Hs. destruct Hs.
  unfold push_int_slot, flush_pending_spill, M_bind, gets, modify. cbn [id]. rewrite v_spill0. cbn. rewrite v_depth0.
  unfold int_depth_to_reg. destruct (Z.ltb_spec (Z.of_nat (length τ)) MAX_PRIMARY_INT); [|unfold MAX_PRIMARY_INT in *; lia].
  cbn. rewrite wrap_small by (unfold in_width; lia). split; [done|]. split; [done|]. split; [|done].
  split; cbn; try done; [by rewrite v_stack0|lia|by constructor].
Qed.

(** A change of a field the simulation does not look at. *)
Lemma sim_modify τ mm (f : Lowerer -> Lowerer) ψ :
  (forall s, encoder (f s) = encoder s /\ has_frame (f s) = has_frame s /\ (view ts τ s -> view ts τ (f s))) ->
  wf_machine mm -> ψ mm -> sim τ mm (modify f) τ ψ.
Proof.
  intros Hf Hw Hp s Hs. destruct (Hf s) as (He & Hh & Hv). exists [], mm. cbn. unfold words. cbn.
  rewrite He, app_nil_r. do 4 (split; [done|]). split; [done|]. by split; [apply Hv|].
Qed.

Lemma sim_set_top_sym τ mm y ψ : wf_machine mm -> ψ mm -> sim τ mm (set_top_sym y) τ ψ.
Proof. apply sim_modify. intros s. destruct (int_sym_stack s); [done|]. do 2 (split; [done|]). by intros []. Qed.

Lemma sim_taint τ mm i ψ : wf_machine mm -> ψ mm -> sim τ mm (taint_local i) τ ψ.
Proof. apply sim_modify. intros s. do 2 (split; [done|]). by intros []. Qed.
End sim.

(** The simulation for each integer operation. *)

(** ** Widths *)

Lemma mod_64_32 x : (x mod 2 ^ 64) mod 2 ^ 32 = x mod 2 ^ 32.
Proof. apply Z.mod_mod_divide. by exists (2 ^ 32). Qed.

Lemma mod_32_64 x : (x mod 2 ^ 32) mod 2 ^ 64 = x mod 2 ^ 32.
Proof. apply Z.mod_small. pose proof (Z.mod_pos_bound x (2 ^ 32) ltac:(lia)). lia. Qed.

Lemma enc_small n : 0 <= n < 32 -> enc (MkReg n) = n.
Proof. intros H. unfold enc. cbn. change 0x1F with (Z.ones 5). rewrite Z.land_ones by lia. by apply Z.mod_small. Qed.

(** A bit operation keeps a width. *)
Lemma bitop_mod (f : Z -> Z -> Z) (g : bool -> bool -> bool) w a b :
  (forall a b n, 0 <= n -> Z.testbit (f a b) n = g (Z.testbit a n) (Z.testbit b n)) -> g false false = false ->
  0 <= w -> in_width w a -> in_width w b -> f a b mod 2 ^ w = f a b.
Proof.
  intros Hf Hg Hw Ha Hb. apply Z.bits_inj'. intros n Hn. destruct (Z.lt_ge_cases n w).
  - by rewrite Z.mod_pow2_bits_low.
  - rewrite Z.mod_pow2_bits_high by lia. rewrite Hf by done.
    rewrite <- (Z.mod_small a (2 ^ w)), <- (Z.mod_small b (2 ^ w)) by done. by rewrite !Z.mod_pow2_bits_high by lia.
Qed.

Lemma land_mod w a b : 0 <= w -> in_width w a -> in_width w b -> Z.land a b mod 2 ^ w = Z.land a b.
Proof. intros. apply (bitop_mod Z.land andb); try done. intros. by apply Z.land_spec. Qed.
Lemma lor_mod w a b : 0 <= w -> in_width w a -> in_width w b -> Z.lor a b mod 2 ^ w = Z.lor a b.
Proof. intros. apply (bitop_mod Z.lor orb); try done. intros. by apply Z.lor_spec. Qed.
Lemma lxor_mod w a b : 0 <= w -> in_width w a -> in_width w b -> Z.lxor a b mod 2 ^ w = Z.lxor a b.
Proof. intros. apply (bitop_mod Z.lxor xorb); try done. intros. by apply Z.lxor_spec. Qed.

Lemma div_width w a k : 0 <= w -> in_width w a -> 0 < k -> (a / k) mod 2 ^ w = a / k.
Proof.
  intros Hw [H0 H1] Hk. apply Z.mod_small. split; [apply Z.div_pos; lia|].
  apply Z.le_lt_trans with a; [|done]. apply Z.div_le_upper_bound; [done|]. nia.
Qed.

(** ** Registers *)

Lemma slots_set m r v σ : wf_machine m -> slots m σ -> Z.of_nat (length σ) <= r < 31 -> slots (set_x m r v) σ.
Proof.
  intros Hm. induction σ as [|[t x] σ IH]; [done|]. cbn [slots length]. intros [Ht Hs] Hr. split; [|apply IH; [done|lia]].
  rewrite xr_set by (done || lia). destruct (Z.eqb_spec (Z.of_nat (length σ)) r); [lia|done].
Qed.

Lemma locals_set m r v ls : wf_machine m -> local_slots m ls -> 0 <= r < 19 -> local_slots (set_x m r v) ls.
Proof.
  intros Hm [Hl H] Hr. split; [done|]. intros i t x Hi. rewrite xr_set by (unfold local_reg; done || lia).
  destruct (Z.eqb_spec (local_reg i) r); [unfold local_reg in *; lia|by apply H].
Qed.

Lemma slots_flags m f σ : slots m σ -> slots (mkMachine (xregs m) f) σ.
Proof. induction σ as [|[t v] σ IH]; [done|]. intros [H Hs]. split; [done|by apply IH]. Qed.

(** Writing the register of the next slot pushes a value. *)
Lemma related_push m ls σ t v x :
  wf_machine m -> slots m σ -> local_slots m ls -> (length σ < 16)%nat -> repr t v (x mod 2 ^ 64) ->
  related (mkWState ls ((t, v) :: σ)) (set_x m (Z.of_nat (length σ)) x).
Proof.
  intros Hm Hs Hl Hn Hr. split; cbn [wstack wlocals slots].
  - split; [|apply slots_set; [done|done|lia]]. rewrite xr_set by (done || lia). by rewrite Z.eqb_refl.
  - apply locals_set; [done|done|lia].
Qed.

Section ops.
Context (opt : bool) (ts : list ValType).

(** An instruction that writes the slot of the result. *)
Lemma sim_result (i : Insn) τ mm ls σ (m : EncM unit) op vs t v x r :
  (forall e, m e = run i e) -> wf_insn i -> operands i = inl (op, vs) -> wf_machine mm ->
  (opt = true -> forall rd, (op, vs) <> (OP_and_w, [rd; rd; rd])) ->
  exec op vs mm = Some (set_x mm r x) -> r = Z.of_nat (length σ) ->
  slots mm σ -> local_slots mm ls -> (length σ < 16)%nat -> repr t v (x mod 2 ^ 64) ->
  sim opt ts τ mm (asm m) τ (related (mkWState ls ((t, v) :: σ))).
Proof.
  intros Hm Hi Ho Hw Hself Hx -> Hs Hl Hn Hr. eapply sim_asm; [done|done|done|done|done|done|by apply wf_set|by apply related_push].
Qed.

(** What the emitted instructions compute from the operands' registers. *)
Definition binop_value (op : BinOp) (x y : Z) : Z :=
  let a := x mod 2 ^ 32 in
  let b := y mod 2 ^ 32 in
  match op with
  | BAdd => x + y | BSub => x - y | BMul => x * y
  | BDivS => sdiv64 x y | BDivU => udiv64 x y
  | BAnd => Z.land a b mod 2 ^ 32 | BOr => Z.lor a b mod 2 ^ 32 | BXor => Z.lxor a b mod 2 ^ 32
  | BShl => (a * 2 ^ (b mod 32)) mod 2 ^ 32
  | BShrS => (signed 32 a / 2 ^ (b mod 32)) mod 2 ^ 32
  | BShrU => (a / 2 ^ (b mod 32)) mod 2 ^ 32
  | BCmp c => b2z (cond_meaning c 32 a b)
  end.

Definition i64_value (op : I64Op) (x y : Z) : Z :=
  match op with
  | LAdd => x + y | LSub => x - y | LMul => x * y
  | LDivS => sdiv64 x y | LDivU => udiv64 x y
  | LAnd => Z.land x y | LOr => Z.lor x y | LXor => Z.lxor x y
  | LShl => x * 2 ^ (y mod 64) | LShrS => signed 64 x / 2 ^ (y mod 64) | LShrU => x / 2 ^ (y mod 64)
  end.

Lemma cset_value c w a b :
  0 < w -> in_width w a -> in_width w b ->
  (if cond_holds (Condition_u32 (invert c)) (sub_flags w a b) then 0 else 1) = b2z (cond_meaning c w a b).
Proof. intros. rewrite cond_invert, cond_sub by done. by destruct (cond_meaning c w a b). Qed.

Lemma wr_range m r : in_width 32 (wr m r).
Proof. unfold in_width, wr. apply Z.mod_pos_bound. lia. Qed.

(** A comparison, then CSET into the slot. *)
Lemma sim_cmp_cset (i : Insn) τ mm ls σ (m : EncM unit) op vs w a b c v r :
  (forall e, m e = run i e) -> wf_insn i -> operands i = inl (op, vs) -> op <> OP_and_w -> wf_machine mm ->
  exec op vs mm = Some (mkMachine (xregs mm) (sub_flags w a b)) -> 0 < w -> in_width w a -> in_width w b ->
  r = Z.of_nat (length σ) -> slots mm σ -> local_slots mm ls -> (length σ < 16)%nat -> v = b2z (cond_meaning c w a b) ->
  sim opt ts τ mm (asm m ;;; asm (Enc.cset (MkReg r) c)) τ (related (mkWState ls ((I32, v) :: σ))).
Proof.
  intros Hm Hi Ho Hop Hw Hx H0 Ha Hb -> Hs Hl Hn ->.
  apply (sim_bind opt ts _ _ _ τ (fun mm1 => mm1 = mkMachine (xregs mm) (sub_flags w a b))).
  - eapply sim_asm; [done|done|done|done| |exact Hx|done|done]. intros _ rd [= E _]. by apply Hop.
  - intros _ mm1 Hw1 ->. eapply (sim_result (I_cset (MkReg (Z.of_nat (length σ))) c)); [done|done|done|done|done| | |by apply slots_flags|exact Hl|done|].
    + cbn [exec]. rewrite enc_small by lia. cbn [flags]. rewrite cset_value by done. done.
    + done.
    + destruct (cond_meaning c w a b); done.
Qed.

(** The instruction of an emitter, for [sim_result]. *)
Ltac sim_instr i :=
  eapply (sim_result i);
    [done|done|done|done
    | intros _ ? [=]; rewrite !enc_small in * by lia; lia
    | cbn [exec]; rewrite ?enc_small by lia; reflexivity
    | done|done|done|lia|].

Lemma sim_emit_binop op τ mm ls σ v n :
  wf_machine mm -> slots mm σ -> local_slots mm ls -> n = Z.of_nat (length σ) -> (length σ < 16)%nat ->
  repr I32 v (binop_value op (xr mm n) (xr mm (n + 1)) mod 2 ^ 64) ->
  sim opt ts τ mm (emit_binop op (MkReg n) (MkReg n) (MkReg (n + 1))) τ (related (mkWState ls ((I32, v) :: σ))).
Proof.
  intros Hw Hs Hl Hn Hlt Hr.
  destruct op; cbn [emit_binop].
  - by sim_instr (I_add (MkReg n) (MkReg n) (MkReg (n + 1))).
  - by sim_instr (I_sub (MkReg n) (MkReg n) (MkReg (n + 1))).
  - by sim_instr (I_mul (MkReg n) (MkReg n) (MkReg (n + 1))).
  - by sim_instr (I_sdiv (MkReg n) (MkReg n) (MkReg (n + 1))).
  - by sim_instr (I_udiv (MkReg n) (MkReg n) (MkReg (n + 1))).
  - by sim_instr (I_and_w (MkReg n) (MkReg n) (MkReg (n + 1))).
  - by sim_instr (I_orr_w (MkReg n) (MkReg n) (MkReg (n + 1))).
  - by sim_instr (I_eor_w (MkReg n) (MkReg n) (MkReg (n + 1))).
  - by sim_instr (I_lsl_w (MkReg n) (MkReg n) (MkReg (n + 1))).
  - by sim_instr (I_asr_w (MkReg n) (MkReg n) (MkReg (n + 1))).
  - by sim_instr (I_lsr_w (MkReg n) (MkReg n) (MkReg (n + 1))).
  - eapply (sim_cmp_cset (I_cmp_w (MkReg n) (MkReg (n + 1)))); [done|done|done|done|done| | |apply wr_range|apply wr_range|done|done|done|done|].
    + cbn [exec]. rewrite !enc_small by lia. reflexivity.
    + done.
    + cbn [binop_value] in Hr. rewrite <- Hr. by destruct (cond_meaning _ _ _ _).
Qed.

Lemma sim_binop op mm ls σ a b v :
  wf_machine mm -> related (mkWState ls ((I32, b) :: (I32, a) :: σ)) mm -> (S (length σ) < 16)%nat ->
  (forall x y, repr I32 a x -> repr I32 b y -> repr I32 v (binop_value op x y mod 2 ^ 64)) ->
  sim opt ts (I32 :: I32 :: σ.*1) mm (lower_binop op) (I32 :: σ.*1) (related (mkWState ls ((I32, v) :: σ))).
Proof.
  intros Hw [(Hb & Ha & Hs) Hl] Hn Hv. cbn [wlocals] in Hl. unfold lower_binop, pop_i32_slot, push_i32_slot, peek_sym_at.
  do 2 (apply sim_gets; intros ? _). apply sim_pop; [done|]. apply sim_pop; [done|].
  apply sim_push; [done|rewrite length_fmap; lia|]. cbn [length]. rewrite length_fmap.
  apply (sim_bind _ _ _ _ _ (I32 :: σ.*1) (related (mkWState ls ((I32, v) :: σ)))); [|intros _ mm1 Hw1 H1; by apply sim_set_top_sym].
  replace (Z.of_nat (S (length σ))) with (Z.of_nat (length σ) + 1) by lia.
  apply sim_emit_binop; try done; [lia|]. apply Hv; [done|]. cbn [length] in Hb. by replace (Z.of_nat (length σ) + 1) with (Z.of_nat (S (length σ))) by lia.
Qed.

Lemma sim_emit_i64 op τ mm ls σ v n :
  wf_machine mm -> slots mm σ -> local_slots mm ls -> n = Z.of_nat (length σ) -> (length σ < 16)%nat ->
  repr I64 v (i64_value op (xr mm n) (xr mm (n + 1)) mod 2 ^ 64) ->
  sim opt ts τ mm (emit_i64_binop op (MkReg n) (MkReg n) (MkReg (n + 1))) τ (related (mkWState ls ((I64, v) :: σ))).
Proof.
  intros Hw Hs Hl Hn Hlt Hr. destruct op; cbn [emit_i64_binop].
  - by sim_instr (I_add (MkReg n) (MkReg n) (MkReg (n + 1))).
  - by sim_instr (I_sub (MkReg n) (MkReg n) (MkReg (n + 1))).
  - by sim_instr (I_mul (MkReg n) (MkReg n) (MkReg (n + 1))).
  - by sim_instr (I_sdiv (MkReg n) (MkReg n) (MkReg (n + 1))).
  - by sim_instr (I_udiv (MkReg n) (MkReg n) (MkReg (n + 1))).
  - by sim_instr (I_and_x (MkReg n) (MkReg n) (MkReg (n + 1))).
  - by sim_instr (I_orr_x (MkReg n) (MkReg n) (MkReg (n + 1))).
  - by sim_instr (I_eor_x (MkReg n) (MkReg n) (MkReg (n + 1))).
  - by sim_instr (I_lsl_x (MkReg n) (MkReg n) (MkReg (n + 1))).
  - by sim_instr (I_asr_x (MkReg n) (MkReg n) (MkReg (n + 1))).
  - by sim_instr (I_lsr_x (MkReg n) (MkReg n) (MkReg (n + 1))).
Qed.

(** Two 64-bit operands in the registers of their slots. *)
Lemma slots_two mm ls σ a b :
  related (mkWState ls ((I64, b) :: (I64, a) :: σ)) mm ->
  xr mm (Z.of_nat (length σ)) = a /\ xr mm (Z.of_nat (length σ) + 1) = b /\ slots mm σ /\ local_slots mm ls.
Proof.
  intros [(Hb & Ha & Hs) Hl]. cbn [length] in Hb. replace (Z.of_nat (length σ) + 1) with (Z.of_nat (S (length σ))) by lia. done.
Qed.

Lemma sim_i64_binop op mm ls σ a b v :
  wf_machine mm -> related (mkWState ls ((I64, b) :: (I64, a) :: σ)) mm -> (S (length σ) < 16)%nat ->
  (in_width 64 a -> in_width 64 b -> i64_value op a b mod 2 ^ 64 = v) ->
  sim opt ts (I64 :: I64 :: σ.*1) mm (lower_i64_binop op) (I64 :: σ.*1) (related (mkWState ls ((I64, v) :: σ))).
Proof.
  intros Hw Hr Hn Hv. apply slots_two in Hr as (<- & <- & Hs & Hl). unfold lower_i64_binop, pop_i64_slot, push_i64_slot.
  apply sim_pop; [done|]. apply sim_pop; [done|]. apply sim_push; [done|rewrite length_fmap; lia|]. cbn [length]. rewrite length_fmap.
  replace (Z.of_nat (S (length σ))) with (Z.of_nat (length σ) + 1) by lia.
  apply sim_emit_i64; try done; [lia|]. by apply Hv; apply xr_range.
Qed.

Lemma sim_i64_cmp c mm ls σ a b :
  wf_machine mm -> related (mkWState ls ((I64, b) :: (I64, a) :: σ)) mm -> (S (length σ) < 16)%nat ->
  sim opt ts (I64 :: I64 :: σ.*1) mm (lower_i64_cmp c) (I32 :: σ.*1) (related (mkWState ls ((I32, b2z (cond_meaning c 64 a b)) :: σ))).
Proof.
  intros Hw Hr Hn. apply slots_two in Hr as (<- & <- & Hs & Hl). unfold lower_i64_cmp, pop_i64_slot, push_i32_slot.
  apply sim_pop; [done|]. apply sim_pop; [done|]. apply sim_push; [done|rewrite length_fmap; lia|]. cbn [length]. rewrite length_fmap.
  replace (Z.of_nat (S (length σ))) with (Z.of_nat (length σ) + 1) by lia.
  eapply (sim_cmp_cset (I_cmp_x (MkReg (Z.of_nat (length σ))) (MkReg (Z.of_nat (length σ) + 1))));
    [done|done|done|done|done| | |apply xr_range; done|apply xr_range; done|done|done|done|lia|done].
  - cbn [exec]. rewrite !enc_small by lia. reflexivity.
  - done.
Qed.

(** ** Unary operations *)

Lemma related_top mm ls σ t a :
  related (mkWState ls ((t, a) :: σ)) mm -> repr t a (xr mm (Z.of_nat (length σ))) /\ slots mm σ /\ local_slots mm ls.
Proof. by intros [(Ha & Hs) Hl]. Qed.

Lemma sim_eqz mm ls σ a :
  wf_machine mm -> related (mkWState ls ((I32, a) :: σ)) mm -> (length σ < 16)%nat ->
  sim opt ts (I32 :: σ.*1) mm lower_eqz (I32 :: σ.*1) (related (mkWState ls ((I32, b2z (a =? 0)) :: σ))).
Proof.
  intros Hw Hr Hn. apply related_top in Hr as (Ha & Hs & Hl). unfold lower_eqz, pop_i32_slot, push_i32_slot.
  apply sim_pop; [done|]. apply sim_push; [done|rewrite length_fmap; lia|]. rewrite length_fmap.
  eapply (sim_cmp_cset (I_cmp_w (MkReg (Z.of_nat (length σ))) ZR)); [done|done|done|done|done| | |apply wr_range|apply wr_range|done|done|done|lia|].
  - cbn [exec]. rewrite enc_small by lia. change (enc ZR) with 31. reflexivity.
  - done.
  - cbn [cond_meaning]. unfold wr. rewrite (xr_zr mm Hw), <- Ha. done.
Qed.

Lemma sim_i64_eqz mm ls σ a :
  wf_machine mm -> related (mkWState ls ((I64, a) :: σ)) mm -> (length σ < 16)%nat ->
  sim opt ts (I64 :: σ.*1) mm lower_i64_eqz (I32 :: σ.*1) (related (mkWState ls ((I32, b2z (a =? 0)) :: σ))).
Proof.
  intros Hw Hr Hn. apply related_top in Hr as (Ha & Hs & Hl). unfold lower_i64_eqz, pop_i64_slot, push_i32_slot.
  apply sim_pop; [done|]. apply sim_push; [done|rewrite length_fmap; lia|]. rewrite length_fmap.
  eapply (sim_cmp_cset (I_cmp_x (MkReg (Z.of_nat (length σ))) ZR));
    [done|done|done|done|done| | |by apply xr_range|by apply xr_range|done|done|done|lia|].
  - cbn [exec]. rewrite enc_small by lia. change (enc ZR) with 31. reflexivity.
  - done.
  - cbn [cond_meaning]. rewrite (xr_zr mm Hw), <- Ha. done.
Qed.

(** One instruction from a slot to the same slot. *)
Lemma sim_int_to_int (i : Insn) (m : Reg -> Reg -> EncM unit) t tr mm ls σ a v op vs x :
  let r := MkReg (Z.of_nat (length σ)) in
  wf_machine mm -> related (mkWState ls ((t, a) :: σ)) mm -> (length σ < 16)%nat -> is_int t = true -> is_int tr = true ->
  (forall e, m r r e = run i e) -> wf_insn i -> operands i = inl (op, vs) ->
  (opt = true -> forall rd, (op, vs) <> (OP_and_w, [rd; rd; rd])) ->
  exec op vs mm = Some (set_x mm (Z.of_nat (length σ)) x) -> repr tr v (x mod 2 ^ 64) ->
  sim opt ts (t :: σ.*1) mm (int_to_int t tr m) (tr :: σ.*1) (related (mkWState ls ((tr, v) :: σ))).
Proof.
  intros r Hw Hr Hn Ht Htr Hm Hi Ho Hself Hx Hv. apply related_top in Hr as (Ha & Hs & Hl). unfold int_to_int.
  apply sim_pop; [done|]. apply sim_push; [done|rewrite length_fmap; lia|]. rewrite length_fmap. fold r.
  by eapply (sim_result i).
Qed.

Lemma sim_wrap mm ls σ a :
  wf_machine mm -> related (mkWState ls ((I64, a) :: σ)) mm -> (length σ < 16)%nat ->
  sim opt ts (I64 :: σ.*1) mm lower_wrap_i64 (I32 :: σ.*1) (related (mkWState ls ((I32, a mod 2 ^ 32) :: σ))).
Proof.
  intros Hw Hr Hn. apply related_top in Hr as (Ha & Hs & Hl). unfold lower_wrap_i64, peek_top_sym, pop_i64_slot, push_i32_slot.
  apply sim_gets. intros s _. apply sim_pop; [done|]. apply sim_push; [done|rewrite length_fmap; lia|]. rewrite length_fmap.
  apply (sim_bind _ _ _ _ _ (I32 :: σ.*1) (related (mkWState ls ((I32, a mod 2 ^ 32) :: σ)))); [|intros _ mm1 Hw1 H1; by apply sim_set_top_sym].
  set (n := Z.of_nat (length σ)) in *.
  assert (exists mm', exec_word (opt_word opt (assemble OP_and_w [n; n; n])) mm = Some mm' /\ wf_machine mm' /\
    related (mkWState ls ((I32, a mod 2 ^ 32) :: σ)) mm') as (mm' & Hx & Hw' & Hp).
  { destruct (exec_opt_and opt n mm Hw ltac:(lia)) as [->| ->]; eexists; (split; [reflexivity|]).
    - split; [done|]. split; [|done]. cbn in Ha |- *. by rewrite <- Ha.
    - split; [by apply wf_set|]. apply related_push; try done. cbn in Ha |- *. unfold wr. fold n in Ha. rewrite mod_64_32, Ha, !Z.mod_mod by lia. done. }
  apply (sim_insn opt ts (I_and_w (MkReg n) (MkReg n) (MkReg n)) _ _ _ OP_and_w [n; n; n] mm'); try done.
  cbn [operands]. by rewrite enc_small by lia.
Qed.

Lemma sim_extend (signd : bool) mm ls σ a :
  (signd || negb opt) = true ->
  wf_machine mm -> related (mkWState ls ((I32, a) :: σ)) mm -> (length σ < 16)%nat ->
  sim opt ts (I32 :: σ.*1) mm (lower_extend_i32 signd) (I64 :: σ.*1)
    (related (mkWState ls ((I64, if signd then signed 32 a mod 2 ^ 64 else a) :: σ))).
Proof.
  intros Hopt Hw Hr Hn. apply related_top in Hr as (Ha & Hs & Hl). unfold lower_extend_i32, peek_top_sym, pop_i32_slot, push_i64_slot.
  apply sim_gets. intros s _. apply sim_pop; [done|]. apply sim_push; [done|rewrite length_fmap; lia|]. rewrite length_fmap.
  apply (sim_bind _ _ _ _ _ (I64 :: σ.*1) (related (mkWState ls ((I64, if signd then signed 32 a mod 2 ^ 64 else a) :: σ))));
    [|intros _ mm1 Hw1 H1; by apply sim_set_top_sym].
  set (n := Z.of_nat (length σ)) in *. cbn in Ha. destruct signd.
  - sim_instr (I_sxtw (MkReg n) (MkReg n)). cbn. unfold wr. by rewrite Ha.
  - eapply (sim_result (I_and_w (MkReg n) (MkReg n) (MkReg n))); [done|done|done|done| | |done|done|done|lia|].
    + destruct opt; done.
    + cbn [exec]. rewrite enc_small by lia. rewrite Z.land_diag. reflexivity.
    + cbn. unfold wr. by rewrite Ha, Z.mod_small, Z.mod_small by (rewrite ?Z.mod_small; pose proof (Z.mod_pos_bound (xr mm n) (2 ^ 32) ltac:(lia)); lia).
Qed.

(** ** Constants *)

Lemma set_x_twice m r x y : set_x (set_x m r x) r y = set_x m r y.
Proof. unfold set_x. cbn. by rewrite list_insert_insert_eq. Qed.

Lemma part_value v k : 0 <= k -> part v k = (v / 2 ^ k) mod 2 ^ 16.
Proof. intros Hk. unfold part. rewrite Z.shiftr_div_pow2 by done. by apply (Z.land_ones _ 16). Qed.

Lemma sim_movk_part τ mm r v sh k :
  wf_machine mm -> 0 <= r < 31 -> k = 16 * MovShift_u32 sh -> 0 < k ->
  sim opt ts τ (set_x mm r (v mod 2 ^ k)) (movk_part (MkReg r) (part v k) sh) τ (fun mm' => mm' = set_x mm r (v mod 2 ^ (k + 16))).
Proof.
  intros Hw Hr Hk Hpos. assert (k <= 48) as Hk48 by (destruct sh; cbn in Hk; lia).
  assert (v mod 2 ^ (k + 16) = v mod 2 ^ k + 2 ^ k * part v k) as Hsplit
    by (rewrite part_value, Z.pow_add_r, Z.rem_mul_r by lia; done).
  unfold movk_part. destruct (Z.eqb_spec (part v k) 0) as [H0|H0].
  - apply sim_ret; [by apply wf_set|]. rewrite Hsplit, H0. by rewrite Z.mul_0_r, Z.add_0_r.
  - assert (0 <= v mod 2 ^ k < 2 ^ k) as Hv by (apply Z.mod_pos_bound; lia).
    assert (2 ^ k <= 2 ^ 48) by (apply Z.pow_le_mono_r; lia).
    eapply (sim_asm opt ts (I_movk (MkReg r) (part v k) sh)); [done| |done|by apply wf_set|done| |by do 2 apply wf_set|].
    + cbn. rewrite part_value by lia. apply Z.mod_pos_bound. lia.
    + cbn [exec]. rewrite enc_small by lia. reflexivity.
    + rewrite set_x_twice. cbn beta. f_equal. rewrite xr_set, Z.eqb_refl, (Z.mod_small (v mod 2 ^ k) (2 ^ 64)) by (done || lia).
      rewrite <- Hk, (Z.div_small (v mod 2 ^ k)), Z.mod_0_l by lia. lia.
Qed.

Lemma sim_movz_low τ mm r v :
  wf_machine mm -> 0 <= r < 31 ->
  sim opt ts τ mm (asm (Enc.movz (MkReg r) (Z.land v 0xFFFF) Lsl0)) τ (fun mm' => mm' = set_x mm r (v mod 2 ^ 16)).
Proof.
  intros Hw Hr. change 0xFFFF with (Z.ones 16). rewrite Z.land_ones by lia.
  eapply (sim_asm opt ts (I_movz (MkReg r) (v mod 2 ^ 16) Lsl0)); [done| |done|done|done| |by apply wf_set|].
  - cbn. apply Z.mod_pos_bound. lia.
  - cbn [exec]. rewrite enc_small by lia. reflexivity.
  - cbn [MovShift_u32]. by rewrite Z.mul_0_r, Z.pow_0_r, Z.mul_1_r.
Qed.

Lemma sim_load_u32 τ mm r v :
  wf_machine mm -> 0 <= r < 31 -> in_width 32 v ->
  sim opt ts τ mm (load_u32_into_reg (MkReg r) v) τ (fun mm' => mm' = set_x mm r v).
Proof.
  intros Hw Hr Hv. unfold load_u32_into_reg. eapply sim_bind; [by apply sim_movz_low|].
  intros _ mm1 _ ->. pose proof (sim_movk_part τ mm r v Lsl16 16 Hw Hr eq_refl ltac:(lia)) as H.
  change (16 + 16) with 32 in H. by rewrite (Z.mod_small v (2 ^ 32)) in H.
Qed.

Lemma sim_load_u64 τ mm r v :
  wf_machine mm -> 0 <= r < 31 -> in_width 64 v ->
  sim opt ts τ mm (load_u64_into_reg (MkReg r) v) τ (fun mm' => mm' = set_x mm r v).
Proof.
  intros Hw Hr Hv. unfold load_u64_into_reg. eapply sim_bind; [by apply sim_movz_low|].
  intros _ mm1 _ ->. eapply sim_bind; [apply (sim_movk_part τ mm r v Lsl16 16 Hw Hr eq_refl); lia|]. intros _ mm1 _ ->.
    eapply sim_bind; [apply (sim_movk_part τ mm r v Lsl32 32 Hw Hr eq_refl); lia|]. intros _ mm1 _ ->.
    pose proof (sim_movk_part τ mm r v Lsl48 48 Hw Hr eq_refl ltac:(lia)) as H.
    change (48 + 16) with 64 in H. by rewrite (Z.mod_small v (2 ^ 64)) in H.
Qed.

Lemma sim_weaken {A} τ mm (m : L A) τ' (ψ ψ' : Machine -> Prop) :
  sim opt ts τ mm m τ' ψ -> (forall mm', ψ mm' -> ψ' mm') -> sim opt ts τ mm m τ' ψ'.
Proof.
  intros H Hp s Hs. specialize (H s Hs). destruct (m s) as [s' [a|e|]]; [|done|done].
  destruct H as (ws & mm' & ? & ? & ? & ? & ? & ? & Hψ). exists ws, mm'. auto 10.
Qed.

Lemma sim_const mm ls σ c :
  wf_machine mm -> related (mkWState ls σ) mm -> (length σ < 16)%nat ->
  sim opt ts (σ.*1) mm (lower_const c) (I32 :: σ.*1) (related (mkWState ls ((I32, c mod 2 ^ 32) :: σ))).
Proof.
  intros Hw [Hs Hl] Hn. unfold lower_const, push_i32_slot. apply sim_push; [done|rewrite length_fmap; lia|]. rewrite length_fmap.
  apply (sim_bind _ _ _ _ _ (I32 :: σ.*1) (related (mkWState ls ((I32, c mod 2 ^ 32) :: σ)))).
  - eapply sim_weaken; [apply sim_load_u32; [done|lia|apply wrap_range; lia]|]. intros mm' ->. apply related_push; try done.
    cbn. rewrite mod_64_32. by apply Z.mod_mod.
  - intros _ mm1 Hw1 H1. destruct (0 <=? c); [by apply sim_set_top_sym|by apply sim_ret].
Qed.

Lemma sim_i64_const mm ls σ c :
  wf_machine mm -> related (mkWState ls σ) mm -> (length σ < 16)%nat ->
  sim opt ts (σ.*1) mm (lower_i64_const c) (I64 :: σ.*1) (related (mkWState ls ((I64, c mod 2 ^ 64) :: σ))).
Proof.
  intros Hw [Hs Hl] Hn. unfold lower_i64_const, push_i64_slot. apply sim_push; [done|rewrite length_fmap; lia|]. rewrite length_fmap.
  eapply sim_weaken; [apply sim_load_u64; [done|lia|apply wrap_range; lia]|]. intros mm' ->. apply related_push; try done.
  cbn. by apply Z.mod_mod.
Qed.

(** ** Locals *)

(** The register of a local of type [t]. *)
Definition loc_reg (t : ValType) (i : nat) : LocalLoc :=
  match t with I32 => LocI32 (MkReg (local_reg i)) | _ => LocI64 (MkReg (local_reg i)) end.

Lemma sim_local_loc {B} n τ mm (ls : list WVal) t v (k : LocalLoc -> L B) τ' ψ :
  ls.*1 = ts -> ls !! Z.to_nat n = Some (t, v) -> is_int t = true ->
  sim opt ts τ mm (k (loc_reg t (Z.to_nat n))) τ' ψ -> sim opt ts τ mm (M_bind k (local_loc n)) τ' ψ.
Proof.
  intros Hts Hl Ht Hk. apply (sim_silent _ _ _ τ). intros s Hs. unfold local_loc, M_bind, gets, ok_or.
  rewrite (v_locals _ _ _ Hs), list_lookup_imap.
  assert (ts !! Z.to_nat n = Some t) as -> by (by rewrite <- Hts, list_lookup_fmap, Hl). cbn [fmap option_fmap option_map fst].
  split; [reflexivity|]. split; [reflexivity|]. split; [exact Hs|]. unfold int_loc. by destruct t.
Qed.

Lemma local_reg_range (ls : list WVal) i x : (length ls <= 9)%nat -> ls !! i = Some x -> 19 <= local_reg i < 28.
Proof. intros Hl Hi. apply lookup_lt_Some in Hi. unfold local_reg. lia. Qed.

Lemma repr_self t v x : is_int t = true -> in_width 64 x -> repr t v x -> repr t v (x mod 2 ^ 64).
Proof. intros Ht Hx Hr. by rewrite Z.mod_small. Qed.

Lemma sim_local_get n mm ls σ t v :
  wf_machine mm -> related (mkWState ls σ) mm -> ls.*1 = ts -> (length σ < 16)%nat -> ls !! Z.to_nat n = Some (t, v) -> is_int t = true ->
  sim opt ts (σ.*1) mm (lower_local_get n) (t :: σ.*1) (related (mkWState ls ((t, v) :: σ))).
Proof.
  intros Hw [Hs Hl] Hts Hn Hx Ht. cbn [wlocals wstack] in Hs, Hl. pose proof (local_reg_range _ _ _ (proj1 Hl) Hx) as Hreg.
  unfold lower_local_get, local_bound. apply sim_gets. intros s _. eapply sim_local_loc; [done|done|done|].
  assert (repr t v ((0 + xr mm (local_reg (Z.to_nat n))) mod 2 ^ 64)) as Hv by (apply repr_self; [done|by apply xr_range|by apply Hl]).
  assert (forall τ, sim opt ts τ mm (asm (Enc.add (MkReg (Z.of_nat (length σ))) ZR (MkReg (local_reg (Z.to_nat n))))) τ
    (related (mkWState ls ((t, v) :: σ)))) as Hadd.
  { intros τ. eapply (sim_result (I_add _ ZR _)); [done|done|done|done|done| |done|done|done|done|exact Hv].
    cbn [exec]. change (enc ZR) with 31. rewrite !enc_small, (xr_zr mm Hw) by lia. done. }
  destruct t; try discriminate Ht; cbn [loc_reg]; unfold push_i32_slot, push_i64_slot;
    (apply sim_push; [done|rewrite length_fmap; lia|]); rewrite length_fmap.
  - eapply sim_bind; [apply Hadd|]. intros _ mm1 Hw1 H1. by apply sim_set_top_sym.
  - apply Hadd.
Qed.

(** Writing a local's register assigns the local. *)
Lemma related_local mm ls σ i t v w x :
  wf_machine mm -> related (mkWState ls σ) mm -> (length σ <= 16)%nat -> ls !! i = Some (t, w) -> repr t v (x mod 2 ^ 64) ->
  related (mkWState (<[i := (t, v)]> ls) σ) (set_x mm (local_reg i) x).
Proof.
  intros Hw [Hs [Hl9 Hl]] Hn Hi Hr. cbn [wlocals wstack] in *. pose proof (local_reg_range _ _ _ Hl9 Hi) as Hreg. split; cbn [wlocals wstack].
  - apply slots_set; [done|done|lia].
  - split; [by rewrite length_insert|]. intros j t' v' Hj. rewrite xr_set by (done || lia || (unfold local_reg; lia)).
    destruct (decide (i = j)) as [->|Hne].
    + rewrite list_lookup_insert_eq in Hj by (by eapply lookup_lt_Some). injection Hj as <- <-. by rewrite Z.eqb_refl.
    + rewrite list_lookup_insert_ne in Hj by done. destruct (Z.eqb_spec (local_reg j) (local_reg i)); [unfold local_reg in *; lia|by apply Hl].
Qed.

Lemma sim_set_local_reg mm ls σ τ i t v w r :
  wf_machine mm -> related (mkWState ls σ) mm -> (length σ <= 16)%nat -> ls !! i = Some (t, w) -> is_int t = true ->
  0 <= r < 31 -> repr t v (xr mm r) ->
  sim opt ts τ mm (asm (Enc.add (MkReg (local_reg i)) ZR (MkReg r))) τ (related (mkWState (<[i := (t, v)]> ls) σ)).
Proof.
  intros Hw Hrel Hn Hi Ht Hr Hv. pose proof (local_reg_range _ _ _ (proj1 (proj2 Hrel)) Hi) as Hreg.
  eapply (sim_asm opt ts (I_add (MkReg (local_reg i)) ZR (MkReg r))); [done|done|done|done|done| |by apply wf_set|].
  - cbn [exec]. change (enc ZR) with 31. rewrite !enc_small, (xr_zr mm Hw) by lia. reflexivity.
  - eapply related_local; [done|done|done|done|]. apply repr_self; [done|by apply xr_range|done].
Qed.

Lemma wset_local_spec n t v (ls ls' : list WVal) :
  wset_local n t v ls = Some ls' -> exists w, ls !! Z.to_nat n = Some (t, w) /\ ls' = <[Z.to_nat n := (t, v)]> ls.
Proof.
  unfold wset_local. destruct (ls !! Z.to_nat n) as [[t' w]|]; [|done]. case_bool_decide as E; [|done]. subst t'.
  intros [= <-]. by exists w.
Qed.

Lemma sim_local_set n mm ls ls' σ t v :
  wf_machine mm -> related (mkWState ls ((t, v) :: σ)) mm -> ls.*1 = ts -> (length σ < 16)%nat -> is_int t = true ->
  wset_local n t v ls = Some ls' ->
  sim opt ts (t :: σ.*1) mm (lower_local_set n) (σ.*1) (related (mkWState ls' σ)).
Proof.
  intros Hw Hrel Hts Hn Ht Hset. apply wset_local_spec in Hset as (w & Hx & ->). pose proof Hrel as [[Hv Hs] Hl].
  unfold lower_local_set. eapply sim_bind; [apply (sim_taint opt ts (t :: σ.*1) mm n (fun mm1 => mm1 = mm)); done|].
  intros _ mm1 _ ->. eapply sim_local_loc; [done|done|done|].
  destruct t; try discriminate Ht; cbn [loc_reg]; unfold pop_i32_slot, pop_i64_slot;
    (apply sim_pop; [done|]); rewrite length_fmap; (eapply sim_set_local_reg; [done|done|lia|done|done|lia|done]).
Qed.

Lemma sim_expect_top {B} t τ mm (k : L B) τ' ψ : sim opt ts (t :: τ) mm k τ' ψ -> sim opt ts (t :: τ) mm (expect_top t ;;; k) τ' ψ.
Proof.
  intros Hk. apply (sim_silent _ _ _ (t :: τ)). intros s Hs. unfold expect_top, M_bind, gets, ok_or.
  rewrite (v_stack _ _ _ Hs). cbn. rewrite bool_decide_true by done. cbn. by do 3 (split; [done|]).
Qed.

Lemma sim_local_tee n mm ls ls' σ t v :
  wf_machine mm -> related (mkWState ls ((t, v) :: σ)) mm -> ls.*1 = ts -> (length σ < 16)%nat -> is_int t = true ->
  wset_local n t v ls = Some ls' ->
  sim opt ts (t :: σ.*1) mm (lower_local_tee n) (t :: σ.*1) (related (mkWState ls' ((t, v) :: σ))).
Proof.
  intros Hw Hrel Hts Hn Ht Hset. apply wset_local_spec in Hset as (w & Hx & ->). pose proof Hrel as [[Hv Hs] Hl].
  unfold lower_local_tee. eapply sim_bind; [apply (sim_taint opt ts (t :: σ.*1) mm n (fun mm1 => mm1 = mm)); done|].
  intros _ mm1 _ ->. eapply sim_local_loc; [done|done|done|].
  assert (sim opt ts (t :: σ.*1) mm
    (expect_top t ;;; src <- top_int ;; asm (Enc.add (MkReg (local_reg (Z.to_nat n))) ZR src)) (t :: σ.*1)
    (related (mkWState (<[Z.to_nat n := (t, v)]> ls) ((t, v) :: σ)))) as H.
  { apply sim_expect_top.
    unfold top_int. apply sim_gets. intros s1 Hs1. rewrite (v_depth _ _ _ Hs1). cbn [length]. rewrite length_fmap.
    rewrite wrap_small by (unfold in_width; lia). replace (Z.of_nat (S (length σ)) - 1) with (Z.of_nat (length σ)) by lia.
    eapply sim_set_local_reg; [done|done|cbn; lia|done|done|lia|done]. }
  destruct t; try discriminate Ht; cbn [loc_reg]; apply H.
Qed.

(** ** Drop and select *)

Lemma sim_drop mm ls σ t v :
  wf_machine mm -> related (mkWState ls ((t, v) :: σ)) mm -> is_int t = true ->
  sim opt ts (t :: σ.*1) mm lower_drop (σ.*1) (related (mkWState ls σ)).
Proof.
  intros Hw Hrel Ht. apply related_top in Hrel as (_ & Hs & Hl). unfold lower_drop, stack_last.
  apply (sim_silent _ _ _ (t :: σ.*1)). intros s Hv. unfold M_bind at 1, gets, ok_or. rewrite (v_stack _ _ _ Hv). cbn.
  do 3 (split; [done|]). destruct t; try discriminate Ht; cbn [pop_any]; unfold pop_i32_slot, pop_i64_slot;
    (apply sim_pop; [done|]); by apply sim_ret.
Qed.

Lemma sim_select mm ls σ t c a b :
  wf_machine mm -> related (mkWState ls ((I32, c) :: (t, b) :: (t, a) :: σ)) mm -> (S (length σ) < 16)%nat -> is_int t = true ->
  sim opt ts (I32 :: t :: t :: σ.*1) mm lower_select (t :: σ.*1) (related (mkWState ls ((t, if c =? 0 then b else a) :: σ))).
Proof.
  intros Hw [(Hc & Hb & Ha & Hs) Hl] Hn Ht. cbn [wlocals wstack length] in *. unfold lower_select, pop_i32_slot.
  apply sim_pop; [done|]. cbn [length]. rewrite length_fmap.
  set (n := Z.of_nat (length σ)) in *. replace (Z.of_nat (S (S (length σ)))) with (n + 2) in * by lia.
  replace (Z.of_nat (S (length σ))) with (n + 1) in * by lia.
  set (mf := mkMachine (xregs mm) (sub_flags 32 (wr mm (n + 2)) (wr mm 31))).
  apply (sim_bind _ _ _ _ _ (t :: t :: σ.*1) (fun mm1 => mm1 = mf)).
  { eapply (sim_asm opt ts (I_cmp_w (MkReg (n + 2)) ZR) _ _ _ _ _ mf); [done|done|done|done|done| |done|done].
    cbn [exec]. change (enc ZR) with 31. by rewrite enc_small by lia. }
  intros _ mm1 _ ->. assert (wf_machine mf) as Hwf by done.
  assert (cond_holds (Condition_u32 Ne) (flags mf) = negb (c =? 0)) as Hcond.
  { cbn [flags mf]. rewrite cond_sub by (try apply wr_range; lia). cbn [cond_meaning]. unfold wr. rewrite (xr_zr mm Hw), Hc. done. }
  assert (forall τ, sim opt ts τ mf (asm (Enc.csel (MkReg n) (MkReg n) (MkReg (n + 1)) Ne)) τ
    (related (mkWState ls ((t, if c =? 0 then b else a) :: σ)))) as Hsel.
  { intros τ. eapply (sim_result (I_csel (MkReg n) (MkReg n) (MkReg (n + 1)) Ne));
      [done|done|done|done|done| |done|by apply slots_flags|exact Hl|lia|].
    - cbn [exec]. rewrite !enc_small by lia. rewrite Hcond. reflexivity.
    - destruct (c =? 0); cbn [negb]; (apply repr_self; [done|by apply xr_range|done]). }
  unfold stack_last. apply (sim_silent _ _ _ (t :: t :: σ.*1)). intros s Hv. unfold M_bind at 1, gets, ok_or. rewrite (v_stack _ _ _ Hv). cbn [head].
  do 3 (split; [done|]). destruct t; try discriminate Ht; unfold pop_i32_slot, pop_i64_slot, push_i32_slot, push_i64_slot, peek_top_sym.
  all: apply sim_gets; intros ? _; apply sim_pop; [done|]; apply sim_gets; intros ? _; apply sim_pop; [done|].
  all: apply sim_push; [done|rewrite length_fmap; lia|]; cbn [length]; rewrite length_fmap; fold n.
  all: replace (Z.of_nat (S (length σ))) with (n + 1) by lia.
  all: eapply sim_bind; [apply Hsel|intros _ mm1 Hw1 H1; by apply sim_set_top_sym].
Qed.
End ops.
