(* ===== verification/LowerSemThm.v ===== *)
(** The compiled code computes what the WebAssembly code computes; call arguments
    reach their registers. *)

From S2P Require Import Prelude Bytes A64 A64Fmt A64Ops WasmTypes WasmValidate WasmValidateThm Peephole Lower LowerOps LowerNew LowerInv LowerTyped Semantics LowerSem.

Open Scope kernel_scope.

(** ** Values *)

Lemma repr_i32_mod v x : x mod 2 ^ 32 = v -> repr I32 v (x mod 2 ^ 64).
Proof. intros <-. cbn. apply mod_64_32. Qed.

Lemma shr_width w a b : 0 < w -> in_width w a -> (a / 2 ^ (b mod w)) mod 2 ^ w = a / 2 ^ (b mod w).
Proof.
  intros Hw Ha. apply div_width; [lia|done|]. apply Z.pow_pos_nonneg; [lia|]. apply Z.mod_pos_bound. lia.
Qed.

Lemma i32_width x : in_width 32 (x mod 2 ^ 32).
Proof. apply Z.mod_pos_bound. lia. Qed.

(** The operations whose lowering is correct for every operand. *)
Definition supported (opt : bool) (op : WasmOp) : bool :=
  match op with
  | I32DivS | I32DivU => false
  | I64ExtendI32U => negb opt
  | _ => true
  end.

(** Solve a case of [binop_value]. *)
Ltac binop_case :=
  intros x y <- <-; apply repr_i32_mod; cbn [binop_value cond_meaning]; unfold wadd, wsub, wmul, wshl, wshr_s, wshr_u; rewrite ?Z.mod_mod by lia;
  first [ by rewrite land_mod by (apply i32_width || lia) | by rewrite lor_mod by (apply i32_width || lia)
        | by rewrite lxor_mod by (apply i32_width || lia)
        | by rewrite shr_width by (apply i32_width || lia)
        | apply Zplus_mod | apply Zminus_mod | apply Zmult_mod
        | done
        | match goal with |- b2z ?c mod _ = _ => by destruct c end ].

Section steps.
Context (opt : bool) (ts : list ValType).

(** The simulation of one operation. *)
Definition step_ok (op : WasmOp) : Prop :=
  forall st st' mm, wf_machine mm -> related st mm -> (wlocals st).*1 = ts -> Forall (fun x => is_int x.1 = true) (wlocals st) ->
    wstep op st = Some st' -> (length (wstack st) <= 16)%nat -> (length (wstack st') <= 16)%nat ->
    sim opt ts ((wstack st).*1) mm (lower_op op) ((wstack st').*1) (related st').

Lemma step_binop op bop f :
  lower_op op = lower_binop bop -> wasm_binop op = Some (I32, I32, fun a b => Some (f a b)) ->
  (forall st, wstep op st = match wstack st with
     | (t, b) :: (t', a) :: σ => if bool_decide (t = I32 /\ t' = I32) then Some (mkWState (wlocals st) ((I32, f a b) :: σ)) else None
     | _ => None end) ->
  (forall a b x y, repr I32 a x -> repr I32 b y -> repr I32 (f a b) (binop_value bop x y mod 2 ^ 64)) -> step_ok op.
Proof.
  intros Hop Hf Hstep Hv [ls σ0] st' mm Hw Hrel Hts Hint Hst Hn Hn'. rewrite Hstep in Hst. cbn [wstack wlocals] in *.
  destruct σ0 as [|[t b] [|[t' a] σ]]; try discriminate Hst. case_bool_decide as E; [|done]. destruct E as [-> ->].
  injection Hst as <-. rewrite Hop. cbn. eapply sim_binop; [done|exact Hrel|cbn in Hn; lia|]. intros x y. apply Hv.
Qed.

Lemma step_i64 op lop (f : Z -> Z -> option Z) :
  lower_op op = lower_i64_binop lop ->
  (forall st, wstep op st = match wstack st with
     | (t, b) :: (t', a) :: σ => if bool_decide (t = I64 /\ t' = I64) then v ← f a b; Some (mkWState (wlocals st) ((I64, v) :: σ)) else None
     | _ => None end) ->
  (forall a b v, in_width 64 a -> in_width 64 b -> f a b = Some v -> i64_value lop a b mod 2 ^ 64 = v) -> step_ok op.
Proof.
  intros Hop Hstep Hv [ls σ0] st' mm Hw Hrel Hts Hint Hst Hn Hn'. rewrite Hstep in Hst. cbn [wstack wlocals] in *.
  destruct σ0 as [|[t b] [|[t' a] σ]]; try discriminate Hst. case_bool_decide as E; [|done]. destruct E as [-> ->].
  destruct (f a b) as [v|] eqn:Ef; [|done]. injection Hst as <-. rewrite Hop. cbn.
  eapply sim_i64_binop; [done|exact Hrel|cbn in Hn; lia|]. intros Ha Hb. by apply Hv.
Qed.

Lemma step_i64_cmp op c :
  lower_op op = lower_i64_cmp c ->
  (forall st, wstep op st = match wstack st with
     | (t, b) :: (t', a) :: σ => if bool_decide (t = I64 /\ t' = I64) then Some (mkWState (wlocals st) ((I32, b2z (cond_meaning c 64 a b)) :: σ)) else None
     | _ => None end) -> step_ok op.
Proof.
  intros Hop Hstep [ls σ0] st' mm Hw Hrel Hts Hint Hst Hn Hn'. rewrite Hstep in Hst. cbn [wstack wlocals] in *.
  destruct σ0 as [|[t b] [|[t' a] σ]]; try discriminate Hst. case_bool_decide as E; [|done]. destruct E as [-> ->].
  injection Hst as <-. rewrite Hop. cbn. apply sim_i64_cmp; [done|exact Hrel|cbn in Hn; lia].
Qed.

(** [wstep] on a binary operation. *)
Ltac wstep_binop := intros [ls [|[t b] [|[t' a] σ]]]; reflexivity.

Ltac binop32 bop f := apply (step_binop _ bop f); [done|done|wstep_binop|intros a b; binop_case].

Lemma step_i32 op : supported opt op = true -> (exists f, wasm_binop op = Some (I32, I32, f)) -> step_ok op.
Proof.
  intros Hsup [g Hop]. destruct op; try discriminate Hop; try discriminate Hsup.
  - binop32 BAdd (wadd 32).
  - binop32 BSub (wsub 32).
  - binop32 BMul (wmul 32).
  - binop32 (BCmp Eq) (fun a b => b2z (a =? b)).
  - binop32 (BCmp Ne) (fun a b => b2z (negb (a =? b))).
  - binop32 (BCmp Lt) (fun a b => b2z (signed 32 a <? signed 32 b)).
  - binop32 (BCmp Gt) (fun a b => b2z (signed 32 b <? signed 32 a)).
  - binop32 (BCmp Le) (fun a b => b2z (signed 32 a <=? signed 32 b)).
  - binop32 (BCmp Ge) (fun a b => b2z (signed 32 b <=? signed 32 a)).
  - binop32 (BCmp Lo) (fun a b => b2z (a <? b)).
  - binop32 (BCmp Hi) (fun a b => b2z (b <? a)).
  - binop32 (BCmp Ls) (fun a b => b2z (a <=? b)).
  - binop32 (BCmp Hs) (fun a b => b2z (b <=? a)).
  - binop32 BAnd Z.land.
  - binop32 BOr Z.lor.
  - binop32 BXor Z.lxor.
  - binop32 BShl (wshl 32).
  - binop32 BShrS (wshr_s 32).
  - binop32 BShrU (wshr_u 32).
Qed.

Ltac i64_case := cbn [i64_value]; first
  [ by intros a b v _ _ [= <-]
  | intros a b v Ha Hb [= <-]; first [by rewrite land_mod | by rewrite lor_mod | by rewrite lxor_mod | by apply shr_width; [lia|done]] ].
Ltac binop64 lop f := apply (step_i64 _ lop f); [done|wstep_binop|i64_case].
Ltac cmp64 c := apply (step_i64_cmp _ c); [done|wstep_binop].

Lemma step_i64_all op : (exists t f, wasm_binop op = Some (I64, t, f)) -> step_ok op.
Proof.
  intros (tr & g & Hop). destruct op; try discriminate Hop.
  - binop64 LAdd (fun a b => Some (wadd 64 a b)).
  - binop64 LSub (fun a b => Some (wsub 64 a b)).
  - binop64 LMul (fun a b => Some (wmul 64 a b)).
  - cmp64 Eq.
  - cmp64 Ne.
  - cmp64 Lt.
  - cmp64 Gt.
  - cmp64 Lo.
  - cmp64 Hi.
  - cmp64 Le.
  - cmp64 Ls.
  - cmp64 Ge.
  - cmp64 Hs.
  - apply (step_i64 _ LDivS (wdiv_s 64)); [done|wstep_binop|]. cbn [i64_value]. unfold wdiv_s, sdiv64. intros a b v Ha Hb H.
    destruct (b =? 0); [done|]. cbv zeta in H. destruct (_ =? _); [done|]. by injection H as <-.
  - apply (step_i64 _ LDivU (wdiv_u 64)); [done|wstep_binop|]. cbn [i64_value]. unfold wdiv_u, udiv64. intros a b v Ha Hb H.
    destruct (Z.eqb_spec b 0); [done|]. injection H as <-. unfold in_width in *. apply div_width; [lia|done|lia].
  - binop64 LAnd (fun a b => Some (Z.land a b)).
  - binop64 LOr (fun a b => Some (Z.lor a b)).
  - binop64 LXor (fun a b => Some (Z.lxor a b)).
  - binop64 LShl (fun a b => Some (wshl 64 a b)).
  - binop64 LShrS (fun a b => Some (wshr_s 64 a b)).
  - binop64 LShrU (fun a b => Some (wshr_u 64 a b)).
Qed.

(** [wstep] on a unary operation. *)
Lemma wstep_unop op t1 tr f st st' :
  wasm_unop op = Some (t1, tr, f) -> wstep op st = Some st' ->
  exists a σ, wstack st = (t1, a) :: σ /\ st' = mkWState (wlocals st) ((tr, f a) :: σ).
Proof.
  intros Hop H. destruct st as [ls [|[t a] σ]]; destruct op; try discriminate Hop; try discriminate H; cbn in Hop, H; injection Hop as <- <- <-;
    (case_bool_decide; [|done]; subst; injection H as <-; by exists a, σ).
Qed.

Ltac sxt_case i := eapply (sim_int_to_int opt ts i); [done|eassumption|lia|done|done|done|done|done|done
  |cbn [exec]; rewrite (enc_small (Z.of_nat _)) by lia; reflexivity|].

Lemma step_unop op : supported opt op = true -> (exists x, wasm_unop op = Some x) -> step_ok op.
Proof.
  intros Hsup [[[t1 tr] f] Hop] st st' mm Hw Hrel Hts Hint Hst Hn Hn'. destruct (wstep_unop _ _ _ _ _ _ Hop Hst) as (a & σ & Hσ & ->).
  destruct st as [ls σ0]. cbn [wstack wlocals] in *. subst σ0. cbn [length fmap list_fmap fst] in *.
  pose proof (related_top _ _ _ _ _ Hrel) as (Ha & _ & _).
  destruct op; try discriminate Hop; injection Hop as <- <- <-; cbn [lower_op].
  - by apply sim_eqz.
  - by apply sim_i64_eqz.
  - by apply sim_wrap.
  - by apply (sim_extend opt ts true).
  - by apply (sim_extend opt ts false).
  - unfold lower_i32_extend_narrow. sxt_case (I_sxtb_w (MkReg (Z.of_nat (length σ))) (MkReg (Z.of_nat (length σ)))). apply repr_i32_mod. unfold wr. cbn in Ha. rewrite Ha. by apply Z.mod_mod.
  - unfold lower_i32_extend_narrow. sxt_case (I_sxth_w (MkReg (Z.of_nat (length σ))) (MkReg (Z.of_nat (length σ)))). apply repr_i32_mod. unfold wr. cbn in Ha. rewrite Ha. by apply Z.mod_mod.
  - unfold lower_i64_extend_narrow. sxt_case (I_sxtb_x (MkReg (Z.of_nat (length σ))) (MkReg (Z.of_nat (length σ)))). cbn in Ha |- *. by rewrite Ha.
  - unfold lower_i64_extend_narrow. sxt_case (I_sxth_x (MkReg (Z.of_nat (length σ))) (MkReg (Z.of_nat (length σ)))). cbn in Ha |- *. by rewrite Ha.
  - unfold lower_i64_extend_narrow. sxt_case (I_sxtw (MkReg (Z.of_nat (length σ))) (MkReg (Z.of_nat (length σ)))). cbn in Ha |- *. unfold wr. by rewrite Ha.
Qed.

(** Every supported operation is simulated. *)
Lemma step_sim op : supported opt op = true -> step_ok op.
Proof.
  intros Hsup. destruct (wasm_binop op) as [[[[] t] f]|] eqn:Hb; [|by apply step_i64_all; eauto|destruct op; discriminate Hb..|].
  { assert (t = I32) as -> by (destruct op; try discriminate Hb; by injection Hb). apply step_i32; eauto. }
  destruct (wasm_unop op) as [x|] eqn:Hu; [by apply step_unop; eauto|].
  intros [ls σ0] st' mm Hw Hrel Hts Hint Hst Hn Hn'. cbn [wstack wlocals] in *.
  destruct op; try discriminate Hb; try discriminate Hu; try (destruct σ0 as [|[? ?] ?]; discriminate Hst); cbn [lower_op].
  - injection Hst as <-. cbn in Hn' |- *. apply sim_const; [done|done|lia].
  - injection Hst as <-. cbn in Hn' |- *. apply sim_i64_const; [done|done|lia].
  - destruct σ0 as [|[t v] σ]; [done|]. injection Hst as <-. cbn. apply sim_drop with (v := v); [done|done|].
    destruct Hrel as [[Hv _] _]. by destruct t.
  - destruct σ0 as [|[[] c] [|[t2 b] [|[t1 a] σ]]]; try discriminate Hst. cbn [wstep wstack] in Hst. case_bool_decide; [|done]. subst t2. injection Hst as <-.
    cbn in Hn |- *. apply sim_select; [done|done|lia|]. destruct Hrel as [(_ & Hv & _) _]. by destruct t1.
  - cbn [wstep wlocals] in Hst. destruct (ls !! Z.to_nat n) as [[t v]|] eqn:Hl; [|done]. injection Hst as <-. cbn in Hn' |- *.
    apply sim_local_get; [done|done|done|lia|done|]. by apply (Forall_lookup_1 _ _ _ _ Hint Hl).
  - destruct σ0 as [|[t v] σ]; [done|]. cbn [wstep wstack wlocals] in Hst. destruct (wset_local n t v ls) as [ls'|] eqn:Hl; [|done].
    injection Hst as <-. cbn in Hn |- *. eapply sim_local_set; [done|done|done|lia| |done]. destruct Hrel as [[Hv _] _]. by destruct t.
  - destruct σ0 as [|[t v] σ]; [done|]. cbn [wstep wstack wlocals] in Hst. destruct (wset_local n t v ls) as [ls'|] eqn:Hl; [|done].
    injection Hst as <-. cbn in Hn |- *. eapply sim_local_tee; [done|done|done|lia| |done]. destruct Hrel as [[Hv _] _]. by destruct t.
Qed.
End steps.

(** ** Bodies *)

(** A run in which at most [limit] operands are on the stack after every
    operation. *)
Fixpoint wrun_within (limit : nat) (ops : list WasmOp) (st : WState) : option WState :=
  match ops with
  | [] => Some st
  | op :: ops => st' ← wstep op st; if decide (length (wstack st') <= limit)%nat then wrun_within limit ops st' else None
  end.

Lemma wstep_locals op st st' :
  wstep op st = Some st' ->
  (wlocals st').*1 = (wlocals st).*1 /\
  (Forall (fun x => is_int x.1 = true) (wlocals st) -> Forall (fun x => is_int x.1 = true) (wlocals st')).
Proof.
  assert (forall n t v ls ls', wset_local n t v ls = Some ls' ->
    ls'.*1 = ls.*1 /\ (Forall (fun x => is_int x.1 = true) ls -> Forall (fun x => is_int x.1 = true) ls')) as Hset.
  { intros n t v ls ls' H. apply wset_local_spec in H as (w & Hl & ->). split.
    - rewrite list_fmap_insert. apply list_insert_id. by rewrite list_lookup_fmap, Hl.
    - intros Hf. apply Forall_insert; [done|]. exact (Forall_lookup_1 _ _ _ _ Hf Hl). }
  destruct st as [ls σ]. cbn [wlocals].
  destruct (wasm_unop op) as [[[t1 tr] f]|] eqn:Hu; [intros H; by destruct (wstep_unop _ _ _ _ _ _ Hu H) as (? & ? & _ & ->)|].
  intros H. destruct op; try discriminate Hu; cbn [wstep wstack wlocals wasm_unop wasm_binop] in H;
    repeat first [ discriminate H | (injection H as <-; done)
      | match type of H with context [wset_local ?n ?t ?v ?l] => destruct (wset_local n t v l) eqn:E; [|done]; injection H as <-; by eapply Hset end
      | match type of H with ?x ≫= _ = _ => destruct x end; cbn [mbind option_bind] in H
      | match type of H with context [match ?x with _ => _ end] => destruct x end; cbn [mbind option_bind] in H ].
Qed.

Section bodies.
Context (opt : bool) (ts : list ValType).

Lemma body_sim all ops : forall i st st' mm,
  Forall (fun op => supported opt op = true /\ is_control op = false) ops ->
  wf_machine mm -> related st mm -> (wlocals st).*1 = ts -> Forall (fun x => is_int x.1 = true) (wlocals st) ->
  (length (wstack st) <= 16)%nat -> wrun_within 16 ops st = Some st' ->
  sim opt ts ((wstack st).*1) mm (lower_loop_ops all i ops (replicate (length ops) false)) ((wstack st').*1) (related st').
Proof.
  induction ops as [|op ops IH]; intros i st st' mm Hops Hw Hrel Hts Hint Hn Hrun; cbn [wrun_within] in Hrun.
  - injection Hrun as <-. by apply sim_ret.
  - apply Forall_cons in Hops as [[Hsup Hctl] Hops]. destruct (wstep op st) as [st1|] eqn:Hst; [|done]. cbn in Hrun.
    case_decide as Hn1; [|done]. destruct (wstep_locals op st st1 Hst) as [Hts1 Hint1].
    cbn [length replicate lower_loop_ops].
    apply (sim_bind _ _ _ _ _ ((wstack st).*1) (fun mm1 => mm1 = mm)); [by destruct op; try discriminate Hctl; apply sim_ret|].
    intros _ mm1 _ ->. eapply sim_bind; [by apply (step_sim opt ts op Hsup st st1 mm)|]. intros _ mm1 Hw1 Hrel1.
    apply (sim_bind _ _ _ _ _ ((wstack st1).*1) (fun mm2 => mm2 = mm1)); [by apply sim_ret|]. intros _ mm2 _ ->.
    apply IH; try done; [by rewrite Hts1|by apply Hint1].
Qed.
End bodies.

(** ** Functions without a frame *)

Definition zero_local (t : ValType) : WVal := (t, 0).

Lemma words_app a b : words (a ++ b) = words a ++ words b.
Proof. unfold words. by rewrite fmap_app, concat_app. Qed.

(** The prologue clears the registers of the locals. *)
Lemma allocate_sim opt types : forall i f e mm,
  Forall (fun t => is_int t = true) types -> (i + length types <= 9)%nat -> wf_machine mm ->
  exists ws mm', allocate_locals types (Z.of_nat i) f e = (mkEncoder (buf e ++ words ws), Ok (imap (fun k => int_loc (i + k)) types)) /\
    Forall (in_width 32) ws /\ exec_words (opt_word opt <$> ws) mm = Some mm' /\ wf_machine mm' /\
    (forall k, (i <= k < i + length types)%nat -> xr mm' (local_reg k) = 0) /\
    (forall k, (k < i)%nat -> xr mm' (local_reg k) = xr mm (local_reg k)).
Proof.
  induction types as [|t types IH]; intros i f e mm Hint Hl Hw; cbn [allocate_locals length] in *.
  - exists [], mm. unfold words. cbn. rewrite app_nil_r. split; [by destruct e|]. repeat split; try done; try apply Hw; lia.
  - apply Forall_cons in Hint as [Ht Hint]. set (r := MkReg (LOCAL_I32_BASE_REG + Z.of_nat i)).
    assert (r = MkReg (local_reg i)) as Hr by done. assert (0 <= local_reg i < 31) as Hreg by (unfold local_reg; lia).
    set (w := assemble OP_movz [0; 0; local_reg i]). assert (operands_ok OP_movz [0; 0; local_reg i]) as Hok by operands_ok_case.
    assert (Enc.movz r 0 Lsl0 e = (mkEncoder (buf e ++ le_bytes 4 w), Ok tt)) as He.
    { change (Enc.movz r 0 Lsl0 e) with (run (I_movz r 0 Lsl0) e). rewrite run_spec by (by cbn). cbn [operands append_result MovShift_u32].
      by rewrite Hr, enc_small by lia. }
    assert (exec_word (opt_word opt w) mm = Some (set_x mm (local_reg i) 0)) as Hx by (by apply (exec_opt opt OP_movz [0; 0; local_reg i])).
    destruct (IH (S i) f (mkEncoder (buf e ++ le_bytes 4 w)) (set_x mm (local_reg i) 0)) as (ws & mm' & Ha & Hws & Hrun & Hw' & Hz & Hk);
      [done|lia|by apply wf_set|].
    exists (w :: ws), mm'.
    split; [|split; [|split; [|split; [done|split]]]].
    + replace (Z.of_nat i + 1) with (Z.of_nat (S i)) by lia.
      assert (imap (fun k => int_loc (i + k)) (t :: types) = int_loc i t :: imap (fun k => int_loc (S i + k)) types) as ->.
      { cbn. rewrite Nat.add_0_r. f_equal. apply imap_ext. intros k x _. cbn. by replace (i + S k)%nat with (S (i + k)) by lia. }
      destruct t; try discriminate Ht; cbn [bool_decide]; cbv zeta; fold r; unfold M_bind, asm_on, fail_if;
        (destruct (Z.leb_spec MAX_I32_LOCALS (Z.of_nat i)); [unfold MAX_I32_LOCALS in *; lia|]); unfold M_ret; cbn beta iota; rewrite He, Ha;
        cbn [buf]; unfold words; cbn; by rewrite <- app_assoc.
    + constructor; [by apply assemble_range|done].
    + cbn [fmap list_fmap exec_words]. by rewrite Hx.
    + intros k Hki. destruct (decide (k = i)) as [->|]; [rewrite Hk by lia; rewrite xr_set by (done || lia); by rewrite Z.eqb_refl|apply Hz; lia].
    + intros k Hki. rewrite Hk by lia. rewrite xr_set by (done || (unfold local_reg in *; lia)).
      destruct (Z.eqb_spec (local_reg k) (local_reg i)); [unfold local_reg in *; lia|done].
Qed.

Lemma new_sim opt types mm :
  Forall (fun t => is_int t = true) types -> (length types <= 9)%nat -> wf_machine mm ->
  exists lw ws mm', new_with_typed_locals types = Ok lw /\ buf (encoder lw) = words ws /\ Forall (in_width 32) ws /\
    exec_words (opt_word opt <$> ws) mm = Some mm' /\ wf_machine mm' /\ has_frame lw = false /\ view types [] lw /\
    related (mkWState (zero_local <$> types) []) mm'.
Proof.
  intros Hint Hl Hw. destruct (allocate_sim opt types 0 0 new_encoder mm Hint Hl Hw) as (ws & mm' & Ha & Hws & Hx & Hw' & Hz & _).
  change (Z.of_nat 0) with 0 in Ha. unfold new_with_typed_locals, construct, M_bind. rewrite Ha. eexists _, ws, mm'. split; [reflexivity|].
  do 5 (split; [done|]). split.
  - split; cbn; try done. lia.
  - split; [done|]. split; cbn [wlocals]; [by rewrite length_fmap|]. intros i t v Hi. rewrite list_lookup_fmap in Hi.
    destruct (types !! i) as [t'|] eqn:Ht; [|done]. injection Hi as <- <-. pose proof (lookup_lt_Some _ _ _ Ht).
    rewrite Hz by lia. pose proof (Forall_lookup_1 _ _ _ _ Hint Ht) as Hti. by destruct t'.
Qed.

(** The code before the epilogue of a function with the result type [t]. *)
Definition take_result (t : ValType) : L unit :=
  match t with I32 => pop_i32_slot ;;; M_ret tt | I64 => pop_i64_slot ;;; M_ret tt | _ => throw StackNotSingleton end.

Lemma sim_take_result opt types t mm : wf_machine mm -> is_int t = true -> sim opt types [t] mm (take_result t) [] (fun mm' => mm' = mm).
Proof.
  intros Hw Ht. destruct t; try discriminate Ht; unfold take_result, pop_i32_slot, pop_i64_slot; (apply sim_pop; [done|]); by apply sim_ret.
Qed.

(** The function's [end] of a function without a frame: the result stays in
    X0; RET. *)
Lemma end_sim opt types t mm s :
  wf_machine mm -> is_int t = true -> view types [t] s -> has_frame s = false ->
  exists s' ws, lower_op End s = (s', Ok tt) /\ buf (encoder s') = buf (encoder s) ++ words (ws ++ [assemble OP_ret [30]]) /\
    Forall (in_width 32) ws /\ exec_words (opt_word opt <$> ws) mm = Some mm /\ data_regions s' = [].
Proof.
  intros Hw Ht Hs Hf. pose proof (sim_take_result opt types t mm Hw Ht s Hs) as Hpop.
  assert (lower_op End s = (take_result t ;;; (emit_epilogue ;;; asm (Enc.ret X30))) s) as ->.
  { cbn [lower_op]. unfold M_bind at 1, gets. rewrite (v_labels _ _ _ Hs). unfold lower_function_end, flush_pending_spill, flush_pending_fp_spill.
    unfold M_bind at 1. unfold M_bind at 1, gets. cbn [id]. rewrite (v_spill _ _ _ Hs). unfold M_ret at 1.
    unfold M_bind at 1. unfold M_bind at 1. cbn [id]. rewrite (v_fp_spill _ _ _ Hs). unfold M_ret at 1. unfold M_bind at 1.
    rewrite (v_stack _ _ _ Hs). by destruct t. }
  unfold M_bind at 1. destruct (take_result t s) as [s1 [[]|e|]]; [|done|done].
  destruct Hpop as (ws & mm' & Hb & Hws & Hx & _ & Hf1 & Hv1 & ->).
  assert ((emit_epilogue ;;; asm (Enc.ret X30)) s1 = (s1 <| encoder := mkEncoder (buf (encoder s1) ++ le_bytes 4 (assemble OP_ret [30])) |>, Ok tt)) as ->.
  { unfold M_bind at 1, emit_epilogue. unfold M_bind at 1, gets. cbn [id]. rewrite Hf1, Hf. by vm_compute. }
  eexists _, ws. split; [reflexivity|]. cbn [encoder buf update_field set_encoder]. split; [|split; [done|split; [done|apply Hv1]]].
  by rewrite Hb, words_app, app_assoc.
Qed.

(** ** Words of the image *)

Lemma words_length ws : length (words ws) = (length ws * 4)%nat.
Proof. induction ws as [|w ws IH]; [done|]. unfold words in *. cbn -[le_bytes]. rewrite length_app, IH, le_bytes_length. lia. Qed.

Lemma word_at_words ws : forall i w, Forall (in_width 32) ws -> ws !! i = Some w -> word_at (words ws) (i * 4) = w.
Proof.
  induction ws as [|v ws IH]; intros i w Hf Hi; [done|]. apply Forall_cons in Hf as [Hv Hf]. unfold words. cbn [fmap list_fmap concat].
  fold (words ws). destruct i as [|i]; cbn in Hi.
  - injection Hi as ->. rewrite word_at_app by (by rewrite le_bytes_length). apply (word_at_emitted []). done.
  - replace (S i * 4)%nat with (length (le_bytes 4 v) + i * 4)%nat by (rewrite le_bytes_length; lia). rewrite word_at_app_r. by apply IH.
Qed.

Lemma code_words_lookup bytes (f : Z -> Z) (ws : list Z) :
  length bytes = (length ws * 4)%nat -> (forall i w, ws !! i = Some w -> word_at bytes (i * 4) = f w) -> code_words bytes = f <$> ws.
Proof.
  intros Hl Hw. unfold code_words. rewrite Hl, Nat.div_mul by lia. apply list_eq. intros i. rewrite !list_lookup_fmap.
  destruct (ws !! i) as [w|] eqn:E.
  - rewrite lookup_seq_lt by (by eapply lookup_lt_Some). cbn [fmap option_fmap option_map]. by rewrite Nat.add_0_l, (Hw i w).
  - by rewrite lookup_seq_ge by (by apply lookup_ge_None).
Qed.

(** The words of the returned code, with and without the pass. *)
Definition finish_code (opt : bool) (s : Lowerer) : list Z := if opt then finish s else finish_raw s.

Lemma finish_words opt s ws :
  Forall (in_width 32) ws -> buf (encoder s) = words ws -> data_regions s = [] -> code_words (finish_code opt s) = opt_word opt <$> ws.
Proof.
  intros Hf Hb Hd. destruct opt; unfold finish_code, finish, finish_raw, into_bytes; rewrite Hb; [rewrite Hd|]; apply code_words_lookup.
  - by rewrite optimize_length, words_length.
  - intros i w Hi. rewrite optimize_word_at by (rewrite words_length, Nat.div_mul by lia; by eapply lookup_lt_Some).
    by rewrite (word_at_words ws i w).
  - apply words_length.
  - intros i w Hi. by apply word_at_words.
Qed.

(** C2: The compiled code computes what the WebAssembly code computes.  For a
    function of integer locals and a straight-line body of constants, integer
    arithmetic, comparisons, shifts, width changes, selects and locals whose run
    never holds more than 16 operands: the compiler succeeds, and running the
    returned code until its RET, from any register contents, leaves the result
    in X0 (an i32 in its low half).  This holds for the raw code and for the code
    after the peephole pass; left out are i32 division and, after the pass, the
    unsigned extension of an i32, which the compiler gets wrong. *)
Theorem compiled_code_computes (opt : bool) (types : list ValType) (ops : list WasmOp) (st : WState) (t : ValType) (v : Z) (m : Machine) :
  Forall (fun t => is_int t = true) types -> (length types <= 9)%nat ->
  Forall (fun op => supported opt op = true /\ is_control op = false) ops ->
  wrun_within 16 ops (mkWState (zero_local <$> types) []) = Some st -> wstack st = [(t, v)] -> wf_machine m ->
  exists lw s m', new_with_typed_locals types = Ok lw /\ lower_all (ops ++ [End]) lw = (s, Ok tt) /\
    run_code (finish_code opt s) m = Some m' /\ repr t v (xr m' 0).
Proof.
  intros Hint Hl Hops Hrun Hst Hw.
  destruct (new_sim opt types m Hint Hl Hw) as (lw & ws0 & m0 & Hnew & Hb0 & Hws0 & Hx0 & Hw0 & Hf0 & Hv0 & Hrel0).
  assert (Forall (fun op => is_control op = false) ops) as Hctl by (eapply Forall_impl; [exact Hops|]; by intros op []).
  assert ((wlocals (mkWState (zero_local <$> types) [])).*1 = types) as Hts.
  { cbn. rewrite <- list_fmap_compose. by apply list_fmap_id. }
  assert (Forall (fun x => is_int x.1 = true) (wlocals (mkWState (zero_local <$> types) []))) as Hli by (by apply Forall_fmap).
  pose proof (body_sim opt types (ops ++ [End]) ops 0 _ st m0 Hops Hw0 Hrel0 Hts Hli ltac:(cbn; lia) Hrun lw Hv0) as Hbody.
  unfold lower_all, compute_loop_end_indices. setoid_rewrite loop_ends_straight; [|done].
  assert (is_int t = true) as Ht.
  { destruct (lower_loop_ops _ _ _ _ lw) as [s1 [[]|e|]]; [|done|done]. destruct Hbody as (? & ? & _ & _ & _ & _ & _ & Hv1 & _).
    pose proof (v_ints _ _ _ Hv1) as H. rewrite Hst in H. by apply Forall_cons in H as [H _]. }
  exists lw. setoid_rewrite lower_ops_app; [|by rewrite length_replicate]. unfold M_bind at 1.
  destruct (lower_loop_ops (ops ++ [End]) 0 ops (replicate (length ops) false) lw) as [s1 [[]|e|]]; [|done|done].
  destruct Hbody as (ws1 & m1 & Hb1 & Hws1 & Hx1 & Hw1 & Hf1 & Hv1 & Hrel1). rewrite Hst in Hv1.
  destruct (end_sim opt types t m1 s1 Hw1 Ht Hv1) as (s2 & ws2 & Hend & Hb2 & Hws2 & Hx2 & Hd2); [by rewrite Hf1|].
  exists s2, m1. split; [done|]. split.
  - cbn [lower_loop_ops loop_ends]. unfold M_bind at 1, M_ret at 1. unfold M_bind at 1. by rewrite Hend.
  - assert (operands_ok OP_ret [30]) as Hok by operands_ok_case.
    split; [|destruct Hrel1 as [Hs1 _]; rewrite Hst in Hs1; apply Hs1].
    unfold run_code. rewrite (finish_words opt s2 (ws0 ++ ws1 ++ ws2 ++ [assemble OP_ret [30]])); [|by repeat (apply Forall_app; split); repeat constructor; try apply assemble_range|by rewrite Hb2, Hb1, Hb0, !words_app, !app_assoc|done].
    rewrite !app_assoc, fmap_app. apply run_exec; [rewrite !fmap_app, (exec_words_app _ _ _ m1); [done|by rewrite (exec_words_app _ _ _ m0)]|].
    destruct (opt_word_cases opt OP_ret [30] Hok) as [->|(_ & _ & rd & [[=]|[=]])]. by apply disassemble_assemble.
Qed.

(** A local, a tee, a widening and a 64-bit comparison. *)
Lemma compiled_code_computes_witness :
  exists lw s m', new_with_typed_locals [I32] = Ok lw /\
    lower_all ([I32Const 41; LocalSet 0; LocalGet 0; I32Const (-1); I32Sub; LocalTee 0; I64ExtendI32S; I64Const 5; I64LtS] ++ [End]) lw = (s, Ok tt) /\
    run_code (finish_code true s) (mkMachine (replicate 31 7) (mkFlags false false false false)) = Some m' /\ repr I32 0 (xr m' 0).
Proof.
  refine (compiled_code_computes true [I32] [I32Const 41; LocalSet 0; LocalGet 0; I32Const (-1); I32Sub; LocalTee 0; I64ExtendI32S; I64Const 5; I64LtS]
    (mkWState [(I32, 42)] [(I32, 0)]) I32 0 _ _ _ _ _ _ _); [by repeat constructor|cbn; lia|by repeat constructor|by vm_compute|reflexivity|].
  split; [reflexivity|]. by apply (bool_decide_unpack _); vm_compute.
Defined.

(** ** Where the compiled code differs *)

(** What the WebAssembly code and the compiled code give, the latter as the
    contents of X0. *)
Definition outcomes (opt : bool) (ops : list WasmOp) (m : Machine) : option (list WVal * Z) :=
  match wrun_within 16 ops (mkWState [] []), new with
  | Some st, Ok lw =>
      match lower_all (ops ++ [End]) lw with
      | (s, Ok _) => m' ← run_code (finish_code opt s) m; Some (wstack st, xr m' 0)
      | _ => None
      end
  | _, _ => None
  end.

Definition idle_machine : Machine := mkMachine (replicate 31 0) (mkFlags false false false false).

(** [i32.div_s] is a 64-bit SDIV of zero-extended operands: -6 / 2 gives
    0x7FFFFFFD. *)
Lemma i32_div_s_of_negative : outcomes false [I32Const (-6); I32Const 2; I32DivS] idle_machine = Some ([(I32, 0xFFFFFFFD)], 0x7FFFFFFD).
Proof. by vm_compute. Qed.

(** [i32.div_u] sees the carry of a preceding addition: (-1 + 3) / 2 gives
    0x80000001. *)
Lemma i32_div_u_after_carry :
  outcomes false [I32Const (-1); I32Const 3; I32Add; I32Const 2; I32DivU] idle_machine = Some ([(I32, 1)], 0x80000001).
Proof. by vm_compute. Qed.

(** The pass removes the AND that zero-extends an i32: the sum -1 + 1 extends
    to 0 without the pass and to 2^32 with it. *)
Lemma peephole_drops_zero_extension :
  outcomes false [I32Const (-1); I32Const 1; I32Add; I64ExtendI32U] idle_machine = Some ([(I64, 0)], 0) /\
  outcomes true [I32Const (-1); I32Const 1; I32Add; I64ExtendI32U] idle_machine = Some ([(I64, 0)], 2 ^ 32).
Proof. by vm_compute. Qed.

(** Marshalling call arguments (call.rs): the operands' registers are copied to
    X9.. and from there to X0... *)

Section marshal.
Context (opt : bool) (ts : list ValType).

(** [ADD Xd, XZR, Xn] *)
Lemma sim_move τ mm d r :
  wf_machine mm -> 0 <= d < 31 -> 0 <= r < 31 ->
  sim opt ts τ mm (asm (Enc.add (MkReg d) ZR (MkReg r))) τ (fun mm' => mm' = set_x mm d (xr mm r)).
Proof.
  intros Hw Hd Hr. eapply (sim_asm opt ts (I_add (MkReg d) ZR (MkReg r))); [done|done|done|done|done| |by apply wf_set|done].
  cbn [exec]. change (enc ZR) with 31. by rewrite !enc_small, (xr_zr mm Hw), Z.add_0_l by lia.
Qed.

(** No source is overwritten before it is read. *)
Definition scratch_free (i : Z) (srcs : list Reg) : Prop :=
  forall k r, srcs !! k = Some r -> 0 <= reg_idx r < 31 /\ ~ (9 + i <= reg_idx r < 9 + i + Z.of_nat k).

(** Machine [mm'] has [mm]'s registers [src + k] in [dst + k], the others
    unchanged. *)
Definition copied (mm mm' : Machine) (dst : Z) (srcs : list Z) : Prop :=
  (forall k r, srcs !! k = Some r -> xr mm' (dst + Z.of_nat k) = xr mm r) /\
  (forall r, 0 <= r -> ~ (dst <= r < dst + Z.of_nat (length srcs)) -> xr mm' r = xr mm r).

Lemma xr_set_mod mm d r x : wf_machine mm -> 0 <= d < 31 -> 0 <= r -> xr (set_x mm d (xr mm x)) r = if r =? d then xr mm x else xr mm r.
Proof. intros Hw Hd Hr. rewrite xr_set by done. by rewrite (Z.mod_small (xr mm x)) by (by apply xr_range). Qed.

Lemma sim_to_scratch srcs : forall i τ mm,
  wf_machine mm -> 0 <= i -> i + Z.of_nat (length srcs) <= 8 -> scratch_free i srcs ->
  sim opt ts τ mm (move_to_scratch i srcs) τ (fun mm' => copied mm mm' (9 + i) (reg_idx <$> srcs)).
Proof.
  induction srcs as [|[x] srcs IH]; intros i τ mm Hw H0 Hn Hf; cbn [move_to_scratch length] in *.
  - apply sim_ret; [done|]. split; [done|]. intros r Hr _. done.
  - destruct (Hf 0%nat (MkReg x) eq_refl) as [Hsrc _]. eapply sim_bind.
    { rewrite wrap_small by (unfold in_width; lia). apply sim_move; [done|lia|exact Hsrc]. }
    intros _ mm1 Hw1 ->. eapply sim_weaken; [apply IH; [done|lia|lia|]|].
    { intros k r Hk. destruct (Hf (S k) r Hk) as [Hr Hnot]. split; [done|]. lia. }
    intros mm' [Hin Hout]. split.
    + intros [|k] r Hk.
      * injection Hk as <-. rewrite Hout by lia. rewrite xr_set_mod by (done || lia). destruct (Z.eqb_spec (9 + i + Z.of_nat 0) (9 + i)); [done|lia].
      * change ((reg_idx <$> srcs) !! k = Some r) in Hk. replace (9 + i + Z.of_nat (S k)) with (9 + (i + 1) + Z.of_nat k) by lia. rewrite (Hin k r Hk).
        rewrite list_lookup_fmap in Hk. destruct (srcs !! k) as [r'|] eqn:Ek; [|done]. injection Hk as <-.
        destruct (Hf (S k) r' Ek) as [Hr Hnot]. rewrite xr_set_mod by (done || lia). destruct (Z.eqb_spec (reg_idx r') (9 + i)); [lia|done].
    + intros r Hr Hnot. cbn [length fmap list_fmap] in Hnot. rewrite Hout by (done || lia). rewrite xr_set_mod by (done || lia).
      destruct (Z.eqb_spec r (9 + i)); [lia|done].
Qed.

Lemma sim_to_args n : forall i τ mm,
  wf_machine mm -> 0 <= i -> i + Z.of_nat n <= 8 ->
  sim opt ts τ mm (move_to_args i n) τ (fun mm' => copied mm mm' i (seqZ (9 + i) (Z.of_nat n))).
Proof.
  induction n as [|n IH]; intros i τ mm Hw H0 Hn; cbn [move_to_args].
  - apply sim_ret; [done|]. split; [done|]. intros r Hr _. done.
  - eapply sim_bind.
    { rewrite !wrap_small by (unfold in_width; lia). apply sim_move; [done|lia|lia]. }
    intros _ mm1 Hw1 ->. eapply sim_weaken; [apply IH; [done|lia|lia]|]. intros mm' [Hin Hout].
    replace (Z.of_nat (S n)) with (Z.of_nat n + 1) by lia. rewrite seqZ_cons by lia. replace (Z.pred (Z.of_nat n + 1)) with (Z.of_nat n) by lia.
    replace (Z.succ (9 + i)) with (9 + (i + 1)) by lia. split.
    + intros [|k] r Hk; cbn in Hk.
      * injection Hk as <-. rewrite Hout by lia. rewrite xr_set_mod by (done || lia). destruct (Z.eqb_spec (i + Z.of_nat 0) i); [done|lia].
      * replace (i + Z.of_nat (S k)) with (i + 1 + Z.of_nat k) by lia. rewrite (Hin k r Hk). apply lookup_seqZ in Hk as [-> Hk].
        rewrite xr_set_mod by (done || lia). destruct (Z.eqb_spec (9 + (i + 1) + Z.of_nat k) i); [lia|done].
    + intros r Hr Hnot. cbn [length] in Hnot. rewrite length_seqZ in Hnot. rewrite Hout by (rewrite ?length_seqZ; lia).
      rewrite xr_set_mod by (done || lia). destruct (Z.eqb_spec r i); [lia|done].
Qed.

Lemma sim_marshal srcs τ mm :
  wf_machine mm -> Z.of_nat (length srcs) <= 8 -> scratch_free 0 srcs ->
  sim opt ts τ mm (marshal_args srcs) τ (fun mm' => forall k r, srcs !! k = Some r -> xr mm' (Z.of_nat k) = xr mm (reg_idx r)).
Proof.
  intros Hw Hn Hf. unfold marshal_args. eapply sim_bind; [by apply sim_to_scratch|]. intros _ mm1 Hw1 [Hin Hout].
  eapply sim_weaken; [apply sim_to_args; [done|lia|lia]|]. intros mm' [Hin' _] k r Hk.
  rewrite <- (Z.add_0_l (Z.of_nat k)), (Hin' k (9 + 0 + Z.of_nat k)); [apply Hin; by rewrite list_lookup_fmap, Hk|].
  apply lookup_seqZ. split; [done|]. apply lookup_lt_Some in Hk. lia.
Qed.
End marshal.

(** The registers of [n] operands above [d] others. *)
Definition operand_regs (d n : nat) : list Reg := (fun i => MkReg (Z.of_nat i)) <$> seq d n.

(** Whether the copies to X9.. read every operand before it is overwritten. *)
Definition marshals (d n : nat) : bool := (d + n <=? 9)%nat || (9 <=? d)%nat || (n <=? 1)%nat.

Lemma operands_scratch_free d n : (d + n <= 16)%nat -> (n <= 8)%nat -> marshals d n = true -> scratch_free 0 (operand_regs d n).
Proof.
  intros Hd Hn Hm k r Hk. unfold operand_regs in Hk. rewrite list_lookup_fmap in Hk.
  destruct (seq d n !! k) as [x|] eqn:E; [|done]. apply lookup_seq in E as [-> Hlt]. injection Hk as <-. cbn [reg_idx]. split; [lia|].
  unfold marshals in Hm. repeat (apply orb_true_iff in Hm as [Hm|Hm]);
    apply Nat.leb_le in Hm; lia.
Qed.

(** The code that passes call arguments delivers them: with [n <= 8]
    arguments in the registers of the operands above [d] others, the emitted
    moves leave argument [k] in [Xk], if the arguments end at X8 at the latest or
    start at X9 at the earliest, or there is only one. *)
Theorem call_arguments_delivered (opt : bool) (ts τ : list ValType) (s : Lowerer) (mm : Machine) (d n : nat) :
  view ts τ s -> wf_machine mm -> (d + n <= 16)%nat -> (n <= 8)%nat -> marshals d n = true ->
  exists s' ws mm', marshal_args (operand_regs d n) s = (s', Ok tt) /\ buf (encoder s') = buf (encoder s) ++ words ws /\
    exec_words (opt_word opt <$> ws) mm = Some mm' /\ forall k, (k < n)%nat -> xr mm' (Z.of_nat k) = xr mm (Z.of_nat (d + k)).
Proof.
  intros Hs Hw Hd Hn Hm. assert (length (operand_regs d n) = n) as Hlen by (unfold operand_regs; by rewrite length_fmap, length_seq).
  pose proof (sim_marshal opt ts (operand_regs d n) τ mm Hw ltac:(lia) (operands_scratch_free d n Hd Hn Hm) s Hs) as H.
  destruct (marshal_args (operand_regs d n) s) as [s1 [[]|e|]]; [|done|done].
  destruct H as (ws & mm' & Hb & _ & Hx & _ & _ & _ & Hk). exists s1, ws, mm'. do 3 (split; [done|]). intros k Hlt.
  rewrite (Hk k (MkReg (Z.of_nat (d + k)))); [done|]. unfold operand_regs. rewrite list_lookup_fmap.
  by rewrite lookup_seq_lt by done.
Qed.

Definition bare : Lowerer := bare_lowerer [].

Lemma call_arguments_delivered_witness :
  exists s' ws mm', marshal_args (operand_regs 5 3) bare = (s', Ok tt) /\ buf (encoder s') = buf (encoder bare) ++ words ws /\
    exec_words (opt_word true <$> ws) idle_machine = Some mm' /\ forall k, (k < 3)%nat -> xr mm' (Z.of_nat k) = xr idle_machine (Z.of_nat (5 + k)).
Proof.
  refine (call_arguments_delivered true [] [] bare idle_machine 5 3 _ _ _ _ _); [by split; cbn; lia || done| |lia|lia|reflexivity].
  split; [reflexivity|]. by apply (bool_decide_unpack _); vm_compute.
Defined.

(** Registers X0.. holding their own number. *)
Definition numbered_machine : Machine := mkMachine (seqZ 0 31) (mkFlags false false false false).

(** What the argument registers hold after the moves. *)
Definition arguments_received (d n : nat) : option (list Z) :=
  match marshal_args (operand_regs d n) bare with
  | (s, Ok _) => (fun m => xr m <$> seqZ 0 (Z.of_nat n)) <$> exec_words (code_words (finish s)) numbered_machine
  | _ => None
  end.

(** With eight operands below, two arguments (in X8 and X9) arrive as two copies
    of the first. *)
Lemma call_arguments_overwritten : arguments_received 8 2 = Some [8; 8].
Proof. by vm_compute. Qed.

(** Exactly the cases outside [marshals] lose an argument. *)
Lemma marshals_exact :
  forallb (fun d => forallb (fun n => Bool.eqb (marshals d n) (bool_decide (arguments_received d n = Some (seqZ (Z.of_nat d) (Z.of_nat n)))))
    (seq 0 (S (8 `min` (16 - d))))) (seq 0 17) = true.
Proof. by vm_compute. Qed.
