(* ===== verification/LowerSym.v ===== *)
(** Compile-time bounds of integer operands and the checks they leave out, then
    concrete compilations. *)

From S2P Require Import Prelude Bytes A64 A64Fmt A64Ops WasmTypes Peephole Lower LowerOps LowerNew LowerInv Semantics LowerSem LowerSemThm.

(** The compile-time bounds of integer operands and the bounds-check elision
    they justify (scalar.rs, memory.rs). *)

Open Scope kernel_scope.
Open Scope word_scope.

(** A symbol describes the run-time value [v]. *)
Definition tracks (y : option SymAddr) (v : Z) : Prop :=
  match y with
  | Some (SConst c) => v = c
  | Some (SBounded m) => v <= m
  | None => True
  end.

(** The value of a tracked binary operation on i32 operands. *)
Definition tracked_value (op : BinOp) (a b : Z) : option Z :=
  match op with
  | BAdd => Some (wadd 32 a b)
  | BMul => Some (wmul 32 a b)
  | BShl => Some (wshl 32 a b)
  | BShrU => Some (wshr_u 32 a b)
  | BAnd => Some (Z.land a b)
  | _ => None
  end.

(** The combination stays within the width it is computed in: two constants do
    not saturate, a shifted bound loses no bit. *)
Definition no_saturation (op : BinOp) (x y : option SymAddr) : Prop :=
  match op, x, y with
  | BAdd, Some (SConst a), Some (SConst b) => a + b < 2 ^ 32
  | BMul, Some (SConst a), Some (SConst b) => a * b < 2 ^ 32
  | BShl, Some (SBounded m), Some (SConst s) => m * 2 ^ s < 2 ^ 64
  | _, _, _ => True
  end.

Lemma tracks_max y v : tracks (Some y) v -> v <= sym_max y.
Proof. destruct y; cbn; lia. Qed.

Lemma land_le_r a b : 0 <= b -> Z.land a b <= b.
Proof.
  intros Hb. apply Z.ldiff_le; [done|]. apply Z.bits_inj'. intros n Hn. rewrite Z.ldiff_spec, Z.land_spec, Z.bits_0.
  by destruct (Z.testbit a n), (Z.testbit b n).
Qed.

Lemma land_le_l a b : 0 <= a -> Z.land a b <= a.
Proof. intros Ha. rewrite Z.land_comm. by apply land_le_r. Qed.

(** A bound computed with 64-bit saturation. *)
Lemma bounded_add a b x y v : 0 <= a < 2 ^ 32 -> 0 <= b < 2 ^ 32 -> a <= x -> b <= y -> v = wadd 32 a b -> v <= saturating_add 64 x y.
Proof.
  intros Ha Hb Hx Hy ->. unfold wadd, saturating_add. pose proof (Z.mod_le (a + b) (2 ^ 32) ltac:(lia) ltac:(lia)). lia.
Qed.

Lemma bounded_mul a b x y v : 0 <= a < 2 ^ 32 -> 0 <= b < 2 ^ 32 -> a <= x -> b <= y -> v = wmul 32 a b -> v <= saturating_mul 64 x y.
Proof.
  intros Ha Hb Hx Hy ->. unfold wmul, saturating_mul. pose proof (Z.mod_pos_bound (a * b) (2 ^ 32) ltac:(lia)).
  pose proof (Z.mod_le (a * b) (2 ^ 32) ltac:(nia) ltac:(lia)). assert (a * b <= x * y) by nia. lia.
Qed.

(** Each combination of symbols describes the result. *)
Lemma tracks_add x y a b :
  in_width 32 a -> in_width 32 b -> tracks x a -> tracks y b -> no_saturation BAdd x y -> tracks (sym_add x y) (wadd 32 a b).
Proof.
  unfold in_width. intros Ha Hb Hx Hy Hs. destruct x as [[c|m]|], y as [[c'|m']|]; try exact I; cbn in *; subst;
    [unfold wadd, saturating_add; rewrite Z.mod_small by lia; lia|..]; (eapply bounded_add; [exact Ha|exact Hb|..|reflexivity]; cbn; lia).
Qed.

Lemma tracks_mul x y a b :
  in_width 32 a -> in_width 32 b -> tracks x a -> tracks y b -> no_saturation BMul x y -> tracks (sym_mul x y) (wmul 32 a b).
Proof.
  unfold in_width. intros Ha Hb Hx Hy Hs. destruct x as [[c|m]|], y as [[c'|m']|]; try exact I; cbn in *; subst;
    [unfold wmul, saturating_mul; rewrite Z.mod_small by nia; lia|..]; (eapply bounded_mul; [exact Ha|exact Hb|..|reflexivity]; cbn; lia).
Qed.

Lemma tracks_shl x y a b :
  in_width 32 a -> in_width 32 b -> tracks x a -> tracks y b -> no_saturation BShl x y -> tracks (sym_shl x y) (wshl 32 a b).
Proof.
  unfold in_width. intros Ha Hb Hx Hy Hs. destruct y as [[s|]|]; try (by destruct x as [[]|]). cbn in Hy. subst b.
  unfold sym_shl. destruct (Z.ltb_spec s 32); [|by destruct x as [[]|]]. unfold wshl. rewrite (Z.mod_small s 32) by lia.
  destruct x as [[c|m]|]; [..|done]; cbn in Hx |- *.
  - subst a. unfold shl32. rewrite Z.shiftl_mul_pow2 by lia. done.
  - cbn in Hs. unfold U64_SHL. rewrite Z.shiftl_mul_pow2 by lia. assert (0 < 2 ^ s) by (apply Z.pow_pos_nonneg; lia).
    rewrite wrap_small by (unfold in_width; nia). pose proof (Z.mod_le (a * 2 ^ s) (2 ^ 32) ltac:(nia) ltac:(lia)). nia.
Qed.

Lemma tracks_shr x y a b : in_width 32 b -> tracks x a -> tracks y b -> tracks (sym_shr_u x y) (wshr_u 32 a b).
Proof.
  unfold in_width. intros Hb Hx Hy. destruct y as [[s|]|]; try (by destruct x as [[]|]). cbn in Hy. subst b.
  unfold sym_shr_u. destruct (Z.ltb_spec s 32); [|by destruct x as [[]|]]. unfold wshr_u. rewrite (Z.mod_small s 32) by lia.
  destruct x as [[c|m]|]; [..|done]; cbn in Hx |- *; rewrite Z.shiftr_div_pow2 by lia; [by subst|].
  apply Z.div_le_mono; [apply Z.pow_pos_nonneg; lia|done].
Qed.

Lemma tracks_and x y a b : in_width 32 a -> in_width 32 b -> tracks x a -> tracks y b -> tracks (sym_and x y) (Z.land a b).
Proof.
  unfold in_width. intros Ha Hb Hx Hy. pose proof (land_le_l a b ltac:(lia)). pose proof (land_le_r a b ltac:(lia)).
  destruct x as [[c|m]|], y as [[c'|m']|]; cbn in *; subst; try done; lia.
Qed.

Lemma tracks_select x y a b (c : Z) : tracks x a -> tracks y b -> tracks (sym_select x y) (if c =? 0 then b else a).
Proof.
  intros Hx Hy. destruct x as [[u|m]|], y as [[u'|m']|]; cbn in *; subst; try done;
    [destruct (Z.eqb_spec u u')|..]; cbn; destruct (c =? 0); lia.
Qed.

(** ** The check *)

(** A lowering that starts with an instruction grows the buffer. *)
Lemma first_appends {A} (m : EncM unit) (k : L A) s s' a :
  emits m -> appends k -> (asm m ;;; k) s = (s', Ok a) -> pos (encoder s) < pos (encoder s').
Proof.
  intros Hm Hk. unfold M_bind, asm, on_encoder, asm_on. destruct (Hm (encoder s)) as [[w ->]|[x ->]]; [|done]. intros H.
  match type of H with k ?s1 = _ => specialize (Hk s1); rewrite H in Hk end. cbn [encoder update_field set_encoder] in Hk.
  unfold pos in *. cbn [buf] in Hk. rewrite length_app, le_bytes_length in Hk. lia.
Qed.

Lemma appends_patch p w : appends (on_encoder (patch_word p w)).
Proof.
  intros s. unfold on_encoder, patch_word. destruct ((0 <=? p) && (p + 4 <=? pos (encoder s))) eqn:Hb; [|done]. bool_prop.
  by apply (grows_splice (encoder s) p w).
Qed.

Lemma appends_movk_part r h sh : appends (movk_part r h sh).
Proof. unfold movk_part. auto with kernel. Qed.

Lemma trap_grows k s s' : emit_trap_kind k s = (s', Ok tt) -> pos (encoder s) < pos (encoder s').
Proof. apply first_appends; [auto with kernel|]. unfold emit_epilogue. auto 12 with kernel. Qed.

(** An emitted check is never empty. *)
Lemma bounds_check_grows r size off b s s' : emit_bounds_check r size off b s = (s', Ok tt) -> pos (encoder s) < pos (encoder s').
Proof.
  unfold emit_bounds_check. unfold M_bind at 1, gets. cbn [id]. destruct (checked_add 32 off size) as [n|]; [|apply trap_grows].
  destruct (mem_size s <? n); [apply trap_grows|]. unfold load_u32_into_reg. rewrite bind_assoc. apply first_appends; [auto with kernel|].
  apply appends_bind; [apply appends_movk_part|intros _]. apply appends_bind; [auto with kernel|intros _].
  apply appends_bind; [by apply appends_same|intros p]. apply appends_bind; [auto with kernel|intros _].
  apply appends_bind; [apply appends_trap|intros _]. apply appends_bind; [by apply appends_same|intros q].
  destruct (encode_b_cond _ _); [apply appends_patch|by apply appends_same].
Qed.

(** C35: An access whose bounds check is left out is in bounds.  The symbol of a
    sum, product, shift or mask of tracked i32 operands describes the value the
    operation computes, as long as two constants do not saturate and a shifted
    bound keeps its bits; and when [maybe_bounds_check] emits no code for an
    address with that symbol, the address plus the offset and the access size
    fits the memory. *)
Theorem elided_access_in_bounds (op : BinOp) (x y : option SymAddr) (a b v offset access_size : Z) (r : SymAddr) (reg : Reg)
    (is_store : bool) (s s' : Lowerer) :
  in_width 32 a -> in_width 32 b -> tracks x a -> tracks y b -> no_saturation op x y -> tracked_value op a b = Some v ->
  binop_sym op x y = Some r -> 0 <= offset -> 0 <= access_size -> in_width 32 (mem_size s) ->
  maybe_bounds_check reg access_size offset is_store (Some r) s = (s', Ok tt) -> encoder s' = encoder s ->
  v + offset + access_size <= mem_size s.
Proof.
  intros Ha Hb Hx Hy Hs Hv Hr Ho Hz Hm He Hs'. enough (tracks (Some r) v) as Ht.
  { apply tracks_max in Ht. unfold maybe_bounds_check, M_bind, gets in He. cbn [id] in He. unfold in_width in Hm.
    destruct (Z.leb_spec (saturating_add 64 (saturating_add 64 (sym_max r) offset) access_size) (mem_size s)) as [Hle|].
    - unfold saturating_add in Hle. lia.
    - apply bounds_check_grows in He. rewrite Hs' in He. lia. }
  rewrite <- Hr. destruct op; try discriminate Hv; cbn [tracked_value binop_sym] in *; injection Hv as <-.
  - by apply tracks_add.
  - by apply tracks_mul.
  - by apply tracks_and.
  - by apply tracks_shl.
  - by apply tracks_shr.
Qed.

(** [arr[k]]: a counter of at most 255 times four, plus an offset of 64. *)
Lemma elided_access_in_bounds_witness : wmul 32 200 4 + 64 + 4 <= mem_size (bare_lowerer []).
Proof.
  refine (elided_access_in_bounds BMul (Some (SBounded 255)) (Some (SConst 4)) 200 4 _ 64 4 (SBounded 1020) X0 false (bare_lowerer [])
    ((bare_lowerer []) <| elision_count := 1 |>) _ _ _ _ _ eq_refl eq_refl _ _ _ eq_refl eq_refl);
    cbn; unfold in_width; lia || exact I.
Defined.

(** ** Where a bound is wrong *)

(** Compile a body with one i32 local and 64 KiB of memory. *)
Definition elisions (ops : list WasmOp) : option Z :=
  match new_function_with_memory 1 [] 0 with
  | Ok lw => match lower_all ops lw with (s, Ok _) => Some (elision_count s) | _ => None end
  | _ => None
  end.

(** A bound above 2^32 shifted by 31 loses its top bit: the address
    [((x & 1) + 2^32 - 2 + 2^32 - 2 + 3) << 31] is 0x80000000 for an even [x],
    and the load is not checked. *)
Definition wrapping_bound : list WasmOp :=
  [LocalGet 0; I32Const 1; I32And; I32Const 0x7FFFFFFF; I32Const 0x7FFFFFFF; I32Add; I32Add;
   I32Const 0x7FFFFFFF; I32Const 0x7FFFFFFF; I32Add; I32Add; I32Const 3; I32Add; I32Const 31; I32Shl].

Lemma shifted_bound_wraps :
  elisions (wrapping_bound ++ [I32Load 0; End]) = Some 1 /\
  wrun_within 16 wrapping_bound (mkWState [(I32, 0)] []) = Some (mkWState [(I32, 0)] [(I32, 0x80000000)]).
Proof. by vm_compute. Qed.

(** A signed loop guard does not bound a negative counter: with the counter at
    -1 the guard [counter >= 16] fails, and the load at the counter is not
    checked. *)
Definition signed_guard : list WasmOp := [LocalGet 0; I32Const 16; I32GeS].

Lemma negative_counter_unchecked :
  elisions ([I32Const (-1); LocalSet 0; Block; Loop] ++ signed_guard ++ [BrIf 1; LocalGet 0; I32Load 0; Drop; Br 0; End; End; I32Const 0; End]) = Some 1 /\
  wrun_within 16 signed_guard (mkWState [(I32, 0xFFFFFFFF)] []) = Some (mkWState [(I32, 0xFFFFFFFF)] [(I32, 0)]).
Proof. by vm_compute. Qed.

(** Concrete compilations: cases of the repository's own tests
    (src/tools/a64-encoder/src/wasm_lower/tests.rs), and code that departs from
    what its comments say. *)

(** Lower [ops] and return the words, after the peephole pass or raw. *)
Definition compiled (raw : bool) (r : outcome LowerError Lowerer) (ops : list WasmOp) : option (list Z) :=
  match r with
  | Ok lw => match lower_all ops lw with (s, Ok _) => Some (code_words (if raw then finish_raw s else finish s)) | _ => None end
  | _ => None
  end.

Definition decoded (raw : bool) (r : outcome LowerError Lowerer) (ops : list WasmOp) : option (list (option (Opcode * list Z))) :=
  (fun ws : list Z => disassemble <$> ws) <$> compiled raw r ops.

(** ** The repository's tests *)

Example const_add_const :
  compiled false new [I32Const 10; I32Const 20; I32Add; End] = Some [0xD2800140; 0xD2800281; 0x8B010000; 0xD65F03C0].
Proof. by vm_compute. Qed.

Example br_from_block_emits_patched_forward_branch :
  compiled false new [I32Const 5; Block; Br 0; End; End] = Some [0xD28000A0; 0x14000001; 0xD65F03C0].
Proof. by vm_compute. Qed.

Example br_from_loop_is_backward_branch :
  compiled false new [Loop; Br 0; End; I32Const 0; End] = Some [0x14000000; 0xD2800000; 0xD65F03C0].
Proof. by vm_compute. Qed.

Example br_if_from_block_patches_cbnz :
  compiled false (new_with_locals 1) [Block; LocalGet 0; BrIf 0; End; I32Const 42; End]
  = Some [0xD2800013; 0x8B1303E0; 0x35000020; 0xD2800540; 0xD65F03C0].
Proof. by vm_compute. Qed.

Example if_without_else :
  compiled false (new_with_locals 1) [LocalGet 0; If; I32Const 1; LocalSet 0; End; LocalGet 0; End]
  = Some [0xD2800013; 0x8B1303E0; 0x34000060; 0xD2800020; 0x8B0003F3; 0x8B1303E0; 0xD65F03C0].
Proof. by vm_compute. Qed.

Example if_else_two_branches :
  compiled false new [I32Const 1; If; I32Const 10; Else; I32Const 20; End; End]
  = Some [0xD2800020; 0x34000060; 0xD2800140; 0x14000002; 0xD2800280; 0xD65F03C0].
Proof. by vm_compute. Qed.

(** ** Frames *)

(** With one local the prologue stores X19 with the zero register, the epilogue
    loads X19 with X20: the caller's X20 is lost. *)
Lemma frame_loses_callee_saved :
  match decoded true (new_function 1 []) [I32Const 0; End] with
  | Some ws => ws !! 1%nat = Some (Some (OP_stp_offset_64, [2; 31; 31; 19])) /\ ws !! 8%nat = Some (Some (OP_ldp_offset_64, [2; 20; 31; 19]))
  | None => False
  end.
Proof. by vm_compute. Qed.

(** An explicit [return] of a function with a frame leaves the frame on the
    stack: RET follows the constant at once. *)
Lemma return_skips_epilogue :
  match decoded true (new_function 0 []) [I32Const 7; Return; End] with
  | Some ws => ws !! 6%nat = Some (Some (OP_movz, [0; 7; 0])) /\ ws !! 7%nat = Some (Some (OP_ret, [30]))
  | None => False
  end.
Proof. by vm_compute. Qed.

(** A call of an external function with eight arguments copies the last one into
    X16, which held the address, and branches there. *)
Lemma eight_arguments_overwrite_target :
  match new_function 0 [0x1234] with
  | Ok lw =>
      match decoded true (Ok (with_call_sigs lw [mkFnSig (replicate 8 I32) None])) (replicate 8 (I32Const 0) ++ [Call 0; End]) with
      | Some ws => ws !! 14%nat = Some (Some (OP_movz, [0; 0x1234; 16])) /\ ws !! 22%nat = Some (Some (OP_add, [7; 31; 16])) /\
          ws !! 31%nat = Some (Some (OP_blr, [16]))
      | None => False
      end
  | _ => False
  end.
Proof. by vm_compute. Qed.

(** [local.tee] above the sixteen primary registers copies from the register
    number of the depth: at depth 17 the top operand is in X19, the copy reads
    X16. *)
Lemma tee_reads_wrong_register :
  match decoded true (new_function 0 []) (replicate 17 (I32Const 3)) with
  | Some ws => ws !! 22%nat = Some (Some (OP_movz, [0; 3; 19]))
  | None => False
  end /\
  match decoded true (new_function 1 []) (replicate 17 (I32Const 3) ++ [LocalTee 0]) with
  | Some ws => ws !! 23%nat = Some (Some (OP_movz, [0; 3; 20])) /\ ws !! 24%nat = Some (Some (OP_add, [16; 31; 19]))
  | None => False
  end.
Proof. by vm_compute. Qed.
