(* ===== verification/LowerControl.v ===== *)
(** The start of a lowering and structured control flow: the states the
    constructors return, then blocks, loops, conditionals and branches. *)

From S2P Require Import Prelude Bytes A64 A64Fmt A64Ops A64Thm WasmTypes WasmValidate WasmValidateThm Peephole Lower LowerOps LowerNew LowerInv LowerTyped.

(** The states the constructors of LowerNew return: empty stacks, whole words,
    and the locals' registers in the order of their types. *)

Open Scope kernel_scope.

Abbreviation EL := (M Encoder LowerError).

(** [m] appends whole words and does not panic. *)
Definition egrows {A} (m : EL A) (Q : A -> Prop) : Prop :=
  forall e, grows e (m e).1 /\ match m e with (_, Ok a) => Q a | (_, Err x) => untyped x | (_, Panic) => False end.

Lemma grows_trans e1 e2 e3 : grows e1 e2 -> grows e2 e3 -> grows e1 e3.
Proof. intros (H1 & H2 & H3) (H4 & H5 & H6). split; [lia|]. split; auto. Qed.

Lemma egrows_bind {A B} (m : EL A) (k : A -> EL B) Q Q' :
  egrows m Q' -> (forall a, Q' a -> egrows (k a) Q) -> egrows (M_bind k m) Q.
Proof.
  intros Hm Hk e. destruct (Hm e) as [Hg Hq]. unfold M_bind. destruct (m e) as [e1 [a|x|]]; [|done|done].
  destruct (Hk a Hq e1) as [Hg' Hq']. split; [by eapply grows_trans|done].
Qed.

Lemma egrows_ret {A} (a : A) (Q : A -> Prop) : Q a -> egrows (M_ret a) Q.
Proof. intros H e. split; [apply grows_refl|exact H]. Qed.

Lemma egrows_asm m : emits m -> egrows (asm_on m) (fun _ => True).
Proof.
  intros Hm e. unfold asm_on. destruct (Hm e) as [[w ->]|[x ->]]; cbn -[le_bytes]; (split; [|done]); [apply grows_emit|apply grows_refl].
Qed.

Lemma egrows_fail_if (b : bool) x : untyped x -> egrows (fail_if b x) (fun _ => b = false).
Proof. intros Hx e. destruct b; cbn; (split; [apply grows_refl|done]). Qed.

Lemma egrows_seq {A B} (m : EL A) (k : EL B) Q : egrows m (fun _ => True) -> egrows k Q -> egrows (m ;;; k) Q.
Proof. intros Hm Hk. by eapply egrows_bind. Qed.

(** What the allocator returns for the types [ts] from the counters [i], [f]. *)
Definition allocated (ts : list ValType) (i : Z) (ls : list LocalLoc) : Prop :=
  loc_type <$> ls = ts /\ (i <= MAX_I32_LOCALS -> i + count_int ts <= MAX_I32_LOCALS).

Lemma count_int_cons t ts : count_int (t :: ts) = (if is_int t then 1 else 0) + count_int ts.
Proof. exact (count_ints_cons t ts). Qed.

Lemma egrows_allocate ts : forall i f, egrows (allocate_locals ts i f) (allocated ts i).
Proof.
  induction ts as [|t ts IH]; intros i f; cbn [allocate_locals].
  - apply egrows_ret. split; [done|]. unfold count_int. cbn. lia.
  - destruct t; (eapply egrows_bind; [by apply egrows_fail_if|intros [] Hb]);
      (apply egrows_seq; [apply egrows_asm; auto with kernel|]);
      (eapply egrows_bind; [apply IH|intros out [Ho Hc]]); apply egrows_ret; cbn -[count_int];
      (split; [cbn; by rewrite Ho|]); rewrite count_int_cons; cbn [is_int]; apply Z.leb_gt in Hb; lia.
Qed.

Lemma egrows_save n : forall pair k, egrows (save_pairs n pair k) (fun _ => True).
Proof.
  induction n as [|n IH]; intros pair k; cbn [save_pairs]; [by apply egrows_ret|].
  apply egrows_seq; [apply egrows_asm; auto with kernel|apply IH].
Qed.

Lemma egrows_movk r h sh : egrows (movk_nonzero r h sh) (fun _ => True).
Proof. unfold movk_nonzero. destruct (h =? 0); [by apply egrows_ret|apply egrows_asm; auto with kernel]. Qed.

(** A framed lowerer with the locals [ts] before its first operation. *)
Definition fresh (memory : bool) (frame : Z) (ts : list ValType) (targets : list Z) (lw : Lowerer) : Prop :=
  exists e ls, lw = (framed_lowerer memory frame (count_int ts) targets ls) <| encoder := e |> /\
    grows new_encoder e /\ loc_type <$> ls = ts /\ count_int ts <= MAX_I32_LOCALS.

Lemma construct_fresh memory frame ts targets (m : EL Lowerer) :
  egrows m (fun lw => exists ls, allocated ts 0 ls /\ lw = framed_lowerer memory frame (count_int ts) targets ls) ->
  match construct m with Ok lw => fresh memory frame ts targets lw | Err x => untyped x | Panic => False end.
Proof.
  intros H. unfold construct. destruct (H new_encoder) as [Hg Hq]. destruct (m new_encoder) as [e [lw|x|]]; [|done|done].
  destruct Hq as (ls & [Hl Hc] & ->). exists e, ls. do 3 (split; [done|]). unfold MAX_I32_LOCALS in *. lia.
Qed.

Lemma new_function_fresh ts targets :
  match new_function_typed ts targets with Ok lw => fresh false FRAME_SIZE ts targets lw | Err x => untyped x | Panic => False end.
Proof.
  apply construct_fresh. apply egrows_seq; [apply egrows_asm; auto with kernel|].
  apply egrows_seq; [apply egrows_save|]. eapply egrows_bind; [apply egrows_allocate|intros ls Hls]. apply egrows_ret. by exists ls.
Qed.

Lemma new_function_with_memory_fresh ts targets mem_base :
  match new_function_with_memory_typed ts targets mem_base with
  | Ok lw => fresh true MEM_FRAME_SIZE ts targets lw | Err x => untyped x | Panic => False end.
Proof.
  apply construct_fresh. apply egrows_seq; [apply egrows_asm; auto with kernel|].
  apply egrows_seq; [apply egrows_save|]. do 2 (apply egrows_seq; [apply egrows_asm; auto with kernel|]).
  do 3 (apply egrows_seq; [apply egrows_movk|]).
  eapply egrows_bind; [apply egrows_allocate|intros ls Hls]. apply egrows_ret. by exists ls.
Qed.

(** A fresh lowerer satisfies the invariant. *)
Lemma fresh_linv memory frame ts targets lw : fresh memory frame ts targets lw -> linv lw.
Proof.
  intros (e & ls & -> & (Hp & Ha & Hb) & _ & Hc). assert (0 <= count_int ts) by (unfold count_int; lia).
  unfold MAX_I32_LOCALS in Hc. assert (pos e mod 4 = 0) by (by apply Ha).
  split; cbn -[Z.modulo count_int]; try done; try (unfold int_capacity, fp_capacity, MAX_FRAME_SPILL, MAX_F32_STACK, MAX_FP_SPILL; cbn -[count_int]; unfold MAX_PRIMARY_INT; lia).
  - split; cbn -[count_int]; unfold MAX_PRIMARY_INT; lia.
  - apply Hb. constructor.
Qed.

(** Structured control flow: blocks, loops, conditionals and branches keep the
    lowerer's invariant, and the end of a construct resolves its branches. *)

(** ** The invariant *)

Definition anything (e : LowerError) : Prop := True.

(** The state after an operation, whatever its labels and operand types. *)
Definition ok_state (c : Lowerer) (s : Lowerer) : Prop := cfg s = c /\ linv s.

(** [m] does not panic and keeps the invariant. *)
Definition safe {A} (c : Lowerer) (m : L A) : Prop :=
  forall ls σ, hoare (st c ls σ) m (fun _ => ok_state c) anything.

Lemma st_ok c ls σ s : st c ls σ s -> ok_state c s.
Proof. by intros (? & ? & ? & ?). Qed.

Lemma linv_labels s ls : linv s -> Forall (label_ok (pos (encoder s))) ls -> linv (s <| label_stack := ls |>).
Proof. intros [] H. by split. Qed.

Lemma st_labels c ls σ ls' (f : Lowerer -> Lowerer) (P : Lowerer -> Prop) :
  (forall s, P s -> st c ls σ s) -> (forall s, P s -> f s = s <| label_stack := ls' |>) ->
  (forall s, P s -> Forall (label_ok (pos (encoder s))) ls') ->
  hoare P (modify f) (fun _ => st c ls' σ) anything.
Proof.
  intros HP Hf Hl. apply hoare_modify. intros s Hs. rewrite Hf by done. destruct (HP s Hs) as (Hc & _ & Hσ & Hi).
  split; [done|]. split; [done|]. split; [done|]. apply linv_labels; [done|by apply Hl].
Qed.

Lemma label_ok_new p k start d :
  match k with KBlock => True | KLoop => exists q, start = Some q /\ 0 <= q <= p /\ q mod 4 = 0 | KIf q | KIfElse q => slot_ok p q end ->
  label_ok p (mkLabel k start [] d).
Proof. intros H. split; [exact H|constructor]. Qed.

Lemma safe_push_label c ls σ k start (P : Lowerer -> Prop) :
  (forall s, P s -> st c ls σ s /\ forall d, label_ok (pos (encoder s)) (mkLabel k start [] d)) ->
  hoare P (push_label k start) (fun _ => ok_state c) anything.
Proof.
  intros HP. apply hoare_modify. intros s Hs. destruct (HP s Hs) as [(Hc & Hl & Hσ & Hi) Hok]. split; [done|].
  apply linv_labels; [done|]. constructor; [apply Hok|apply Hi].
Qed.

Lemma safe_block c : safe c lower_block.
Proof. intros ls σ. apply (safe_push_label c ls σ). intros s Hs. split; [done|]. intros d. by apply label_ok_new. Qed.

Lemma safe_loop c : safe c lower_loop.
Proof.
  intros ls σ. unfold lower_loop. apply enc_pos_intro. intros p Hp Ha. apply (safe_push_label c ls σ).
  intros s [Hs Hle]. split; [done|]. intros d. apply label_ok_new. by exists p.
Qed.

Lemma safe_pop_i32 c {B} (k : Reg -> L B) Q :
  (forall r ls σ, hoare (st c ls σ) (k r) Q anything) -> forall ls σ, hoare (st c ls σ) (M_bind k pop_i32_slot) Q anything.
Proof.
  intros Hk ls σ. eapply hoare_bind; [eapply hoare_weaken; [by apply (st_pop_int c ls σ I32)|done|done|done]|].
  intros r s (σ' & _ & Hs). by apply (Hk r ls σ' s).
Qed.

(** The label a branch names. *)
Lemma label_at_intro {B} c ls σ d (k : Label -> L B) Q :
  (forall l, ls !! Z.to_nat d = Some l -> hoare (st c ls σ) (k l) Q anything) -> hoare (st c ls σ) (M_bind k (label_at d)) Q anything.
Proof.
  intros Hk s Hs. pose proof Hs as (_ & Hl & _). unfold M_bind, label_at, M_bind, gets, ok_or. rewrite Hl.
  destruct (ls !! Z.to_nat d) as [l|] eqn:E; [|done]. by apply (Hk l).
Qed.

(** A pending branch joins its label. *)
Lemma safe_add_pending c ls σ d x q :
  (match x with PatchB p => p = q | PatchCbnzW p _ => p = q end) -> 0 <= q -> q mod 4 = 0 ->
  hoare (fun s => st c ls σ s /\ q + 4 <= pos (encoder s)) (add_pending d x) (fun _ => ok_state c) anything.
Proof.
  intros Hx H0 H4. apply hoare_modify. intros s [(Hc & Hl & Hσ & Hi) Hpos]. split; [done|]. apply linv_labels; [done|].
  apply Forall_alter; [apply Hi|]. intros l _ [Hk Hp]. split; [exact Hk|]. apply Forall_app. split; [done|].
  constructor; [|constructor]. destruct x; cbn; subst; by split.
Qed.

Lemma safe_branch c ls σ d l (loop_insn : Z -> Z -> EncM unit) (fwd : EncM unit) (x : Z -> PendingPatch) :
  ls !! Z.to_nat d = Some l -> (forall t h, emits (loop_insn t h)) -> emits fwd ->
  (forall h, match x h with PatchB p => p = h | PatchCbnzW p _ => p = h end) ->
  hoare (st c ls σ)
    (here <- enc_pos ;;
     match kind l with
     | KLoop => match loop_start l with Some target => asm (loop_insn target here) | None => panic end
     | _ => asm fwd ;;; add_pending d (x here)
     end) (fun _ => ok_state c) anything.
Proof.
  intros Hl Hloop Hfwd Hx. apply enc_pos_intro. intros p Hp Ha.
  assert (hoare (fun s => st c ls σ s /\ p <= pos (encoder s)) (asm fwd ;;; add_pending d (x p)) (fun _ => ok_state c) anything) as H.
  { eapply hoare_seq; [eapply hoare_weaken; [by apply (st_asm_pos c ls σ fwd p)|done|done|done]|]. apply (safe_add_pending c ls σ d (x p) p); [apply Hx|done|done]. }
  destruct (kind l) eqn:Hk; try exact H.
  intros s [Hs Hle]. pose proof Hs as (_ & Hls & _ & Hi). pose proof (inv_labels _ Hi) as Hlab. rewrite Hls in Hlab.
  destruct (Forall_lookup_1 _ _ _ _ Hlab Hl) as [Hkind _]. rewrite Hk in Hkind. destruct Hkind as (q & -> & _).
  pose proof (st_asm c ls σ (loop_insn q p) (Hloop q p) s Hs) as Hasm. destruct (asm (loop_insn q p) s) as [s' [[]|e|]]; [by eapply st_ok|done|done].
Qed.

Lemma safe_br c d : safe c (lower_br d).
Proof.
  intros ls σ. unfold lower_br. apply label_at_intro. intros l Hl.
  apply (safe_branch c ls σ d l (fun t h => Enc.b (i32_offset t h)) (Enc.b 0) PatchB); [done|auto with kernel|auto with kernel|done].
Qed.

Lemma safe_br_if c d : safe c (lower_br_if d).
Proof.
  intros ls0 σ0. unfold lower_br_if. apply safe_pop_i32. clear ls0 σ0. intros r ls σ. apply label_at_intro. intros l Hl.
  apply (safe_branch c ls σ d l (fun t h => Enc.cbnz_w r (i32_offset t h)) (Enc.cbnz_w r 0) (fun h => PatchCbnzW h r)); [done|auto with kernel|auto with kernel|done].
Qed.

Lemma safe_if c : safe c lower_if.
Proof.
  intros ls0 σ0. unfold lower_if. apply safe_pop_i32. clear ls0 σ0. intros r ls σ. apply enc_pos_intro. intros p Hp Ha.
  eapply hoare_seq; [eapply hoare_weaken; [apply (st_asm_pos c ls σ (Enc.cbz_w r 0) p); auto with kernel|done|done|done]|].
  apply (safe_push_label c ls σ). intros s [Hs Hle]. split; [done|]. intros d. by apply label_ok_new.
Qed.

(** ** Patching *)

(** The word of a branch helper at a slot of the buffer. *)
Lemma st_patch_with c ls σ q w :
  0 <= q -> hoare (fun s => st c ls σ s /\ q + 4 <= pos (encoder s)) (patch_with q w) (fun _ => st c ls σ) anything.
Proof.
  intros Hq. unfold patch_with. destruct w as [w|e]; [|by apply hoare_throw].
  eapply hoare_weaken; [by apply (st_patch_word c ls σ q w)|done| |done]. by intros [] s [H _].
Qed.

(** The position does not move. *)
Lemma patch_with_pos q w s s' : patch_with q w s = (s', Ok tt) -> pos (encoder s') = pos (encoder s).
Proof.
  unfold patch_with. destruct w as [w|e]; [|done]. unfold on_encoder, patch_word.
  destruct ((0 <=? q) && (q + 4 <=? pos (encoder s))) eqn:Hb; [|done]. intros [= <-]. bool_prop. unfold pos in *. cbn [encoder buf update_field set_encoder].
  rewrite splice_length; [done|]. cbn. lia.
Qed.

Definition patch_pos (x : PendingPatch) : Z := match x with PatchB q => q | PatchCbnzW q _ => q end.

Lemma st_patch_all c ls σ ps t p :
  Forall (patch_ok p) ps ->
  hoare (fun s => st c ls σ s /\ p <= pos (encoder s)) (patch_all ps t) (fun _ => st c ls σ) anything.
Proof.
  intros Hps. induction Hps as [|x ps Hx Hps IH]; cbn [patch_all]; [by apply hoare_ret; intros s [Hs _]|].
  apply (hoare_seq _ _ (fun s => st c ls σ s /\ p <= pos (encoder s))); [|exact IH].
  destruct x as [q|q r]; destruct Hx as (H0 & H4 & Hq); cbn [patch_pending]; intros s [Hs Hle];
    (match goal with |- context [patch_with ?q ?w s] =>
      pose proof (st_patch_with c ls σ q w H0 s ltac:(split; [done|lia])) as H; destruct (patch_with q w s) as [s' [[]|e|]] eqn:E; [|done|done] end);
    apply patch_with_pos in E; (split; [done|lia]).
Qed.

Lemma st_patch_cond c ls σ q t :
  0 <= q -> hoare (fun s => st c ls σ s /\ q + 4 <= pos (encoder s)) (patch_cond q t)
    (fun _ s => st c ls σ s) anything.
Proof.
  intros H0. unfold patch_cond. apply hoare_gets. intros s0 [Hs Hq].
  destruct (Z.ltb_spec (pos (encoder s0)) (q + 4)); [lia|].
  eapply hoare_imp; [|by apply st_patch_with]. intros s [-> H']. exact H'.
Qed.

Lemma patch_cond_pos q t s s' : patch_cond q t s = (s', Ok tt) -> pos (encoder s') = pos (encoder s).
Proof. unfold patch_cond, M_bind, gets. destruct (_ <? _); [done|]. apply patch_with_pos. Qed.

(** The labels without the innermost one. *)
Lemma st_pop_label c l ls σ s : st c (l :: ls) σ s -> st c ls σ (s <| label_stack := tail (label_stack s) |>).
Proof.
  intros (Hc & Hl & Hσ & Hi). split; [done|]. split; [cbn; by rewrite Hl|]. split; [done|]. apply linv_labels; [done|].
  rewrite Hl. pose proof (inv_labels _ Hi) as H. rewrite Hl in H. by apply Forall_cons in H as [_ H].
Qed.

Lemma st_block_end c l ls σ : hoare (st c (l :: ls) σ) lower_block_end (fun _ => st c ls σ) anything.
Proof.
  intros s Hs. pose proof Hs as (_ & Hl & _ & Hi). unfold lower_block_end, M_bind at 1, gets. rewrite Hl.
  cbn [head ok_or]. unfold M_bind at 1, M_ret at 1. unfold M_bind at 1, modify.
  pose proof (inv_labels _ Hi) as Hlab. rewrite Hl in Hlab. apply Forall_cons in Hlab as [[Hk Hp] _].
  pose proof (st_pop_label _ _ _ _ _ Hs) as Hs1. set (s1 := s <| label_stack := _ |>) in *. set (p := pos (encoder s)) in *.
  unfold M_bind at 1, enc_pos, gets. change (pos (encoder s1)) with p.
  assert (hoare (fun s' => st c ls σ s' /\ p <= pos (encoder s')) (patch_all (pending l) p) (fun _ => st c ls σ) anything) as Hall
    by (by apply (st_patch_all c ls σ (pending l) p p)).
  enough (hoare (fun s' => st c ls σ s' /\ p <= pos (encoder s'))
    (match kind l with
     | KBlock => patch_all (pending l) p | KLoop => M_ret tt
     | KIf q => patch_cond q p ;;; patch_all (pending l) p
     | KIfElse q => patch_with q (encode_b (i32_offset p q)) ;;; patch_all (pending l) p end) (fun _ => st c ls σ) anything) as H
    by (by apply H).
  destruct (kind l) as [| |q|q].
  - exact Hall.
  - apply hoare_ret. by intros s' [Hs' _].
  - destruct Hk as (H0 & _ & Hq). eapply hoare_seq; [|exact Hall]. intros s' [Hs' Hle].
    pose proof (st_patch_cond c ls σ q p H0 s' ltac:(split; [done|lia])) as H. destruct (patch_cond q p s') as [s2 [[]|e|]] eqn:E; [|done|done].
    apply patch_cond_pos in E. split; [done|lia].
  - destruct Hk as (H0 & _ & Hq). eapply hoare_seq; [|exact Hall]. intros s' [Hs' Hle].
    pose proof (st_patch_with c ls σ q (encode_b (i32_offset p q)) H0 s' ltac:(split; [done|lia])) as H.
    destruct (patch_with _ _ s') as [s2 [[]|e|]] eqn:E; [|done|done]. apply patch_with_pos in E. split; [done|lia].
Qed.

Lemma safe_block_end c : safe c lower_block_end.
Proof.
  intros [|l ls] σ; [|eapply hoare_weaken; [apply st_block_end|done|intros []; apply st_ok|done]].
  intros s (_ & Hl & _). unfold lower_block_end, M_bind at 1, gets. by rewrite Hl.
Qed.

(** ** Else, return and end *)

Lemma truncate_linv n : forall s, linv s ->
  linv (truncate_loop n s) /\ cfg (truncate_loop n s) = cfg s /\ label_stack (truncate_loop n s) = label_stack s.
Proof.
  induction n as [|n IH]; intros s Hi; [done|]. cbn [truncate_loop]. destruct (stack s) as [|t σ] eqn:Hσ; [done|].
  pose proof (count_ints_cons t σ) as Hci. pose proof (count_fps_cons t σ) as Hcf.
  pose proof (count_ints_nonneg σ). pose proof (count_fps_nonneg σ).
  pose proof (inv_int _ Hi) as Hin. pose proof (inv_fp _ Hi) as Hfp. rewrite Hσ in Hin, Hfp.
  pose proof (inv_int_max _ Hi). pose proof (inv_fp_max _ Hi). pose proof (wf_capacity _ (inv_cfg _ Hi)). pose proof (inv_sym _ Hi) as Hsym.
  match goal with |- linv (truncate_loop n ?s1) /\ _ => assert (linv s1 /\ cfg s1 = cfg s /\ label_stack s1 = label_stack s) as (Hi1 & Hc1 & Hl1);
    [|destruct (IH s1 Hi1) as (? & -> & ->); done] end.
  destruct (is_int t); (split; [|done]); (apply (linv_restack s); [done|done|done|done|..]); cbn -[u64 count_ints count_fps];
    rewrite ?(wrap_small 64) by (unfold in_width; lia); try lia; try apply Hi.
  destruct (int_sym_stack s) as [|y l]; cbn in *; lia.
Qed.

Lemma safe_else c : safe c lower_else.
Proof.
  intros ls σ s Hs. pose proof Hs as (_ & Hl & _ & Hi). unfold lower_else, M_bind at 1, gets. rewrite Hl.
  destruct ls as [|l ls]; [done|]. cbn [head ok_or]. unfold M_bind at 1, M_ret at 1.
  pose proof (inv_labels _ Hi) as Hlab. rewrite Hl in Hlab. apply Forall_cons in Hlab as [[Hk Hp] Hls].
  destruct (kind l) as [| |q|q] eqn:Ek; try done. destruct Hk as (H0 & H4 & Hq).
  revert s Hs Hl Hi Hp Hls Hq. intros s Hs Hl Hi Hp Hls Hq. set (p := pos (encoder s)) in *.
  assert (p mod 4 = 0) as Ha by apply Hi. assert (0 <= p) as Hp0 by (unfold p, pos; lia).
  unfold M_bind at 1, enc_pos, gets. fold p.
  enough (hoare (fun s' => st c (l :: ls) σ s' /\ p <= pos (encoder s'))
    (asm (Enc.b 0) ;;; else_target <- enc_pos ;; patch_cond q else_target ;;;
     modify (fun s => s <| label_stack := mkLabel (KIfElse p) (loop_start l) (pending l) (entry_depth l) :: tail (label_stack s) |>) ;;;
     truncate_stack_to (entry_depth l)) (fun _ => ok_state c) anything) as H by (by apply (H s)).
  eapply hoare_seq; [eapply hoare_weaken; [apply (st_asm_pos c (l :: ls) σ (Enc.b 0) p); auto with kernel|done|done|done]|].
  apply hoare_gets. intros s1 [Hs1 Hp1].
  apply (hoare_seq _ _ (fun s' => st c (l :: ls) σ s' /\ p + 4 <= pos (encoder s'))).
  { intros s' [-> _]. pose proof (st_patch_cond c (l :: ls) σ q (pos (encoder s1)) H0 s1 ltac:(split; [done|lia])) as H.
    destruct (patch_cond q _ s1) as [s2 [[]|e|]] eqn:E; [|done|done]. apply patch_cond_pos in E. split; [done|lia]. }
  apply (hoare_seq _ _ (fun s' => ok_state c s')).
  { apply hoare_modify. intros s' [(Hc' & Hl' & Hσ' & Hi') Hle]. split; [done|]. apply linv_labels; [done|]. rewrite Hl'. cbn [tail].
    pose proof (inv_labels _ Hi') as Hlab. rewrite Hl' in Hlab. apply Forall_cons in Hlab as [[_ Hpend] Hrest].
    constructor; [|done]. split; [by split|done]. }
  apply hoare_modify. intros s' [Hc' Hi']. destruct (truncate_linv (length (stack s') - entry_depth l) s' Hi') as (H1 & H2 & _).
  split; [by rewrite H2|done].
Qed.

(** [return] reads the register of the top slot, which exists up to depth 31. *)
Lemma safe_return c ls σ : (count_ints σ <= 31) -> hoare (st c ls σ) lower_explicit_return (fun _ => ok_state c) anything.
Proof.
  intros Hn s Hs. pose proof Hs as (_ & _ & Hσ & Hi). unfold lower_explicit_return, M_bind at 1, gets. cbn [id]. rewrite Hσ.
  pose proof (inv_int _ Hi) as Hin. pose proof (inv_fp _ Hi) as Hfp. rewrite Hσ in Hin, Hfp.
  pose proof (inv_fp_max _ Hi). pose proof (wf_capacity _ (inv_cfg _ Hi)) as [_ Hcap].
  assert (forall m : L unit, keeps c m -> match m s with (s', Ok a) => ok_state c s' | (_, Err e) => anything e | (_, Panic) => False end) as Hkeep.
  { intros m Hm. specialize (Hm ls σ s Hs). destruct (m s) as [s' [[]|e|]]; [by eapply st_ok|done|done]. }
  destruct σ as [|t σ]; cbn [head]; [apply Hkeep; auto with kernel|].
  pose proof (count_ints_cons t σ) as Hci. pose proof (count_fps_cons t σ) as Hcf.
  pose proof (count_ints_nonneg σ). pose proof (count_fps_nonneg σ). rewrite Hin, Hfp.
  assert (is_int t = true -> Reg_new (u8 (count_ints (t :: σ) - 1)) = Some (MkReg (count_ints (t :: σ) - 1))) as Hreg.
  { intros Ht. rewrite Ht in Hci. rewrite wrap_small by (unfold in_width; lia). unfold Reg_new. destruct (Z.leb_spec (count_ints (t :: σ) - 1) 30); [done|lia]. }
  assert (is_int t = false -> Vreg_new (u8 (count_fps (t :: σ) - 1)) = Some (MkVreg (count_fps (t :: σ) - 1))) as Hvreg.
  { intros Ht. rewrite Ht in Hcf. rewrite wrap_small by (unfold in_width; lia). unfold Vreg_new. destruct (Z.leb_spec (count_fps (t :: σ) - 1) 31); [done|lia]. }
  destruct t; try done; rewrite ?Hreg, ?Hvreg by done; apply Hkeep; auto 8 with kernel.
Qed.

(** ** All operations *)

(** The operations that cannot panic at this depth. *)
Definition no_deep_return (op : WasmOp) (σ : list ValType) : Prop := op = Return -> count_ints σ <= 31.

Lemma safe_op c op ls σ :
  wf_cfg c -> call_targets c = [] -> call_index_ok op -> no_deep_return op σ -> hoare (st c ls σ) (lower_op op) (fun _ => ok_state c) anything.
Proof.
  intros Hwf Hnone Hcall Hret. destruct (is_control op) eqn:Hctl.
  - destruct op; try discriminate Hctl; cbn [lower_op].
    + apply safe_block.
    + apply safe_loop.
    + apply safe_br.
    + apply safe_br_if.
    + apply safe_if.
    + apply safe_else.
    + apply safe_return. by apply Hret.
    + apply hoare_gets. intros s0 (_ & -> & _). apply (hoare_imp _ (st c ls σ)); [by intros s [_ H]|].
      destruct ls as [|l ls]; [|apply safe_block_end].
      eapply hoare_weaken; [apply (st_function_end c σ)|done| |done]. intros [] s [_ H]. by eapply st_ok.
  - eapply hoare_weaken; [by apply (lower_op_lowers c op Hwf Hnone Hctl Hcall ls σ)|done| |done].
    intros [] s (? & ? & ? & _ & _ & H). by eapply st_ok.
Qed.

(** A change of the loop bounds keeps the invariant. *)
Lemma ok_bounds c (f : Lowerer -> Lowerer) :
  (forall s, cfg (f s) = cfg s /\ (linv s -> linv (f s))) -> hoare (ok_state c) (modify f) (fun _ => ok_state c) anything.
Proof. intros Hf. apply hoare_modify. intros s [Hc Hi]. destruct (Hf s) as [Hc' Hi']. split; [by rewrite Hc'|by apply Hi']. Qed.

Lemma safe_ops c all ops : forall i ends,
  wf_cfg c -> call_targets c = [] -> Forall (fun op => call_index_ok op /\ op <> Return) ops ->
  hoare (ok_state c) (lower_loop_ops all i ops ends) (fun _ => ok_state c) anything.
Proof.
  induction ops as [|op ops IH]; intros i ends Hwf Hnone Hops; destruct ends as [|b ends]; try (by apply hoare_ret).
  apply Forall_cons in Hops as [[Hcall Hret] Hops]. cbn [lower_loop_ops].
  assert (forall f, (forall s, cfg (f s) = cfg s /\ (linv s -> linv (f s))) -> hoare (ok_state c) (modify f) (fun _ => ok_state c) anything) as Hmod
    by (apply ok_bounds).
  eapply (hoare_seq _ _ (ok_state c)).
  { destruct op; try (by apply hoare_ret). apply Hmod. intros s. split; [done|]. by intros []. }
  eapply (hoare_seq _ _ (ok_state c)).
  { intros s [Hc Hi]. apply (safe_op c op (label_stack s) (stack s)); [done|done|done|by intros ->|by repeat split; try apply Hi]. }
  eapply (hoare_seq _ _ (ok_state c)); [|by apply IH].
  destruct b; [|by apply hoare_ret]. apply Hmod. intros s. split; [done|]. by intros [].
Qed.

(** ** Resolving branches *)

(** [buf'] is [buf] with the branches at [sites] directed to [t]. *)
Definition directed (t : Z) (sites : list Z) (b b' : list Z) : Prop :=
  length b' = length b /\
  (forall q, q ∈ sites -> word_offset (word_at b' (Z.to_nat q)) = Some (t - q)) /\
  (forall i, 0 <= i -> i mod 4 = 0 -> i ∉ sites -> word_at b' (Z.to_nat i) = word_at b (Z.to_nat i)).

Lemma directed_nil t b : directed t [] b b.
Proof. split; [done|]. split; [|done]. intros q Hq. by apply elem_of_nil in Hq. Qed.

Lemma directed_app t sites sites' b b' b'' :
  Forall (fun q => 0 <= q /\ q mod 4 = 0) sites -> directed t sites b b' -> directed t sites' b' b'' -> directed t (sites ++ sites') b b''.
Proof.
  intros Hs (Hl & Hin & Hout) (Hl' & Hin' & Hout'). split; [congruence|]. rewrite Forall_forall in Hs. split.
  - intros q Hq. destruct (decide (q ∈ sites')) as [|Hn]; [by apply Hin'|]. apply elem_of_app in Hq as [Hq|]; [|done].
    destruct (Hs q Hq). rewrite Hout' by done. by apply Hin.
  - intros i H0 H4 Hn. apply not_elem_of_app in Hn as [H1 H2]. rewrite Hout', Hout by done. done.
Qed.

(** The offset as the source computes it. *)
Lemma i32_offset_small t q : 0 <= t < 2 ^ 31 -> 0 <= q < 2 ^ 31 -> i32_offset t q = t - q.
Proof. intros Ht Hq. unfold i32_offset, i32. rewrite !Z.mod_small; rewrite ?Z.mod_small; lia. Qed.

Lemma patch_with_directed b t q s s' :
  slot_ok (pos (encoder s)) q -> 0 <= t < 2 ^ 31 -> pos (encoder s) < 2 ^ 31 ->
  patch_with q (branch_word b (i32_offset t q)) s = (s', Ok tt) ->
  directed t [q] (buf (encoder s)) (buf (encoder s')) /\ pos (encoder s') = pos (encoder s).
Proof.
  intros (H0 & H4 & Hq) Ht Hp H. split; [|by eapply patch_with_pos]. rewrite i32_offset_small in H by lia.
  pose proof (branch_word_result b (t - q)) as Hw. unfold patch_with in H. destruct (branch_word b (t - q)) as [w|e]; [|done].
  destruct Hw as [Hw Ho]. unfold on_encoder, patch_word in H.
  destruct (Z.leb_spec 0 q), (Z.leb_spec (q + 4) (pos (encoder s))); try lia. cbn [andb] in H.
  assert (s' = s <| encoder := mkEncoder (splice (buf (encoder s)) (Z.to_nat q) (le_bytes 4 w)) |>) as -> by congruence.
  cbn [encoder buf update_field set_encoder]. unfold pos in *.
  assert (Z.to_nat q + length (le_bytes 4 w) <= length (buf (encoder s)))%nat as Hroom by (rewrite le_bytes_length; lia).
  split; [by apply splice_length|]. split.
  - intros x Hx. apply list_elem_of_singleton in Hx as ->. by rewrite word_at_splice_same by (done || lia).
  - intros i Hi Hi4 Hn. apply not_elem_of_cons in Hn as [Hne _]. apply word_at_splice_other; [done|]. rewrite le_bytes_length.
    pose proof (Z.div_mod i 4 ltac:(lia)). pose proof (Z.div_mod q 4 ltac:(lia)). lia.
Qed.

Lemma patch_all_directed t p ps : forall s s',
  Forall (patch_ok p) ps -> pos (encoder s) = p -> 0 <= t < 2 ^ 31 -> p < 2 ^ 31 -> patch_all ps t s = (s', Ok tt) ->
  directed t (patch_pos <$> ps) (buf (encoder s)) (buf (encoder s')) /\ pos (encoder s') = p.
Proof.
  induction ps as [|x ps IH]; intros s s' Hps Hpos Ht Hp H; cbn [patch_all] in H.
  - injection H as <-. split; [apply directed_nil|done].
  - apply Forall_cons in Hps as [Hx Hps]. unfold M_bind in H. destruct (patch_pending x t s) as [s1 [[]|e|]] eqn:E; [|done|done].
    assert (slot_ok p (patch_pos x)) as Hslot by (by destruct x). rewrite <- Hpos in Hslot, Hp.
    assert (directed t [patch_pos x] (buf (encoder s)) (buf (encoder s1)) /\ pos (encoder s1) = pos (encoder s)) as [Hd Hp1].
    { destruct x as [q|q r]; cbn [patch_pending] in E; [by apply (patch_with_directed BrB) in E|by apply (patch_with_directed (BrCbnz r)) in E]. }
    destruct (IH s1 s' Hps) as [Hd' Hp']; [congruence|done|lia|done|]. split; [|done].
    change (patch_pos <$> x :: ps) with ([patch_pos x] ++ (patch_pos <$> ps)).
    apply (directed_app t _ _ _ (buf (encoder s1))); [|done|done]. by repeat constructor; apply Hslot.
Qed.

Lemma patch_cond_directed t q s s' :
  slot_ok (pos (encoder s)) q -> 0 <= t < 2 ^ 31 -> pos (encoder s) < 2 ^ 31 -> patch_cond q t s = (s', Ok tt) ->
  directed t [q] (buf (encoder s)) (buf (encoder s')) /\ pos (encoder s') = pos (encoder s).
Proof.
  intros Hq Ht Hp H. unfold patch_cond, M_bind, gets in H. destruct (_ <? _); [done|].
  by apply (patch_with_directed (BrCbz (rt_from_cbz_at (encoder s) q))) in H.
Qed.

(** The branches that the end of a construct resolves: the pending ones and the
    conditional or the jump over the else branch. *)
Definition end_sites (l : Label) : list Z :=
  match kind l with
  | KBlock => patch_pos <$> pending l
  | KLoop => []
  | KIf q | KIfElse q => q :: (patch_pos <$> pending l)
  end.

(** The [end] of a construct directs every branch out of it to the code
    that follows: each pending [br] and [br_if], the conditional of an [if] and
    the jump over an [else] then hold the distance to the end of the buffer, and
    no other word changes.  A loop has none (its branches go back to its
    start). *)
Theorem end_resolves_branches (s s' : Lowerer) (l : Label) (ls : list Label) :
  linv s -> label_stack s = l :: ls -> pos (encoder s) < 2 ^ 31 -> lower_op End s = (s', Ok tt) ->
  directed (pos (encoder s)) (end_sites l) (buf (encoder s)) (buf (encoder s')) /\ label_stack s' = ls.
Proof.
  intros Hi Hl Hp H. cbn [lower_op] in H. unfold M_bind at 1, gets in H. rewrite Hl in H.
  split; [|pose proof (st_block_end (cfg s) l ls (stack s) s ltac:(by repeat split; try apply Hi)) as Hst; rewrite H in Hst; apply Hst].
  unfold lower_block_end, M_bind at 1, gets in H. rewrite Hl in H. cbn [head ok_or] in H. unfold M_bind at 1, M_ret at 1 in H.
  unfold M_bind at 1, modify in H. unfold M_bind at 1, enc_pos, gets in H.
  set (s1 := s <| label_stack := _ |>) in H. change (pos (encoder s1)) with (pos (encoder s)) in H.
  change (buf (encoder s)) with (buf (encoder s1)). set (p := pos (encoder s)) in *. assert (pos (encoder s1) = p) as Hp1 by done.
  pose proof (inv_labels _ Hi) as Hlab. rewrite Hl in Hlab. apply Forall_cons in Hlab as [[Hk Hps] _].
  assert (0 <= p) as H0 by (unfold p, pos; lia). unfold end_sites. destruct (kind l) as [| |q|q].
  - by apply (patch_all_directed p p (pending l)) in H as [].
  - injection H as <-. apply directed_nil.
  - unfold M_bind in H. destruct (patch_cond q p s1) as [s2 [[]|e|]] eqn:E; [|done|done].
    apply patch_cond_directed in E as [Hd Hp2]; [|done|done|by rewrite Hp1]. apply (patch_all_directed p p (pending l)) in H as [Hd' _]; [|done|congruence|done|done].
    apply (directed_app p [q] _ _ (buf (encoder s2))); [|done|done]. destruct Hk as (? & ? & _). by repeat constructor.
  - unfold M_bind in H. destruct (patch_with q _ s1) as [s2 [[]|e|]] eqn:E; [|done|done].
    apply (patch_with_directed BrB) in E as [Hd Hp2]; [|done|done|by rewrite Hp1]. apply (patch_all_directed p p (pending l)) in H as [Hd' _]; [|done|congruence|done|done].
    apply (directed_app p [q] _ _ (buf (encoder s2))); [|done|done]. destruct Hk as (? & ? & _). by repeat constructor.
Qed.

Lemma end_resolves_branches_witness :
  match new_function_typed [I32] [] with
  | Ok lw =>
      match lower_all [Block; LocalGet 0; BrIf 0; Br 0] lw with
      | (s, Ok _) => exists s', lower_op End s = (s', Ok tt) /\
          directed (pos (encoder s)) [32; 36] (buf (encoder s)) (buf (encoder s')) /\ label_stack s' = []
      | _ => False
      end
  | _ => False
  end.
Proof.
  pose proof (new_function_fresh [I32] []) as Hf. destruct (new_function_typed [I32] []) as [lw|e|] eqn:E; [|by vm_compute in E..].
  pose proof (fresh_linv _ _ _ _ _ Hf) as Hi. pose proof (inv_cfg _ Hi) as Hwf.
  assert (call_targets (cfg lw) = []) as Hct by (destruct Hf as (e & ls & -> & _); reflexivity).
  assert (Forall (fun op => call_index_ok op /\ op <> Return) [Block; LocalGet 0; BrIf 0; Br 0]) as Hops by (by repeat constructor).
  pose proof (safe_ops (cfg lw) [Block; LocalGet 0; BrIf 0; Br 0] [Block; LocalGet 0; BrIf 0; Br 0] 0
    (compute_loop_end_indices [Block; LocalGet 0; BrIf 0; Br 0]) Hwf Hct Hops lw (conj eq_refl Hi)) as Hsafe.
  unfold lower_all. destruct (lower_loop_ops _ _ _ _ lw) as [s [[]|e|]] eqn:E2; vm_compute in E; injection E as <-; vm_compute in E2; [|done|done].
  injection E2 as E2. destruct Hsafe as [_ Hs]. revert Hs. rewrite <- E2. intros Hs.
  eexists. split; [vm_compute; reflexivity|].
  refine (end_resolves_branches _ _ (mkLabel KBlock None [PatchCbnzW 32 (MkReg 0); PatchB 36] 0) [] Hs _ _ _); [reflexivity|by vm_compute|by vm_compute].
Defined.
