(* ===== verification/LowerFunction.v ===== *)
(** Lowering a whole function: the constructor, the configuration, the global
    initialisers, the parameters and the body. *)

From S2P Require Import Prelude Bytes A64 WasmTypes WasmParse WasmModule WasmValidate WasmValidateThm Peephole Lower LowerOps LowerNew ModuleLower LowerInv LowerTyped LowerControl.

Open Scope kernel_scope.

Lemma keeps_inits c tys : forall i inits, keeps c (emit_inits i tys inits).
Proof.
  induction tys as [|t tys IH]; intros i inits; cbn [emit_inits]; [auto with kernel|]. destruct inits as [|x inits]; [auto with kernel|].
  apply keeps_op_bind; [auto with kernel|intros s0]. apply keeps_op_bind; [|intros; apply IH].
  destruct t; auto 8 with kernel.
Qed.

Lemma keeps_global_inits c inits :
  length inits = length (global_types c) -> keeps c (emit_global_inits inits).
Proof.
  intros Hl ls σ. unfold emit_global_inits. apply hoare_gets. intros s0 (Hc & Hrest). cbn [id].
  assert (global_types s0 = global_types c) as -> by (by rewrite <- Hc).
  rewrite Hl, Z.eqb_refl. cbn [negb fail_if]. apply (hoare_seq _ _ (st c ls σ)); [by apply hoare_ret; intros s [_ H]|].
  apply keeps_inits.
Qed.

Lemma keeps_rehydrate c ps : forall ls i f, keeps c (rehydrate ps ls i f).
Proof.
  induction ps as [|p ps IH]; intros ls i f; cbn [rehydrate]; [auto with kernel|]. destruct ls as [|l ls]; [auto with kernel|].
  destruct p, l; auto 8 with kernel.
Qed.

Lemma keeps_param_rehydration c ps :
  (length ps <= length (locals c))%nat -> keeps c (emit_param_rehydration ps).
Proof.
  intros Hl ls σ. unfold emit_param_rehydration. apply hoare_gets. intros s0 (Hc & Hrest).
  assert (locals s0 = locals c) as -> by (by rewrite <- Hc).
  destruct (Z.ltb_spec (Z.of_nat (length (locals c))) (Z.of_nat (length ps))); [lia|]. cbn [fail_if].
  apply (hoare_seq _ _ (st c ls σ)); [by apply hoare_ret; intros s [_ H']|]. apply keeps_rehydrate.
Qed.

(** The code of [lower_one_function] before the body. *)
Definition function_entry (sig : FnSig) (fn_sigs : list FnSig) (gtypes : list ValType) (gmutable : list bool)
    (inits : list (list Z)) (is_entry : bool) (mem_sz : Z) : L unit :=
  set_mem_size mem_sz ;;;
  set_globals gtypes gmutable ;;;
  set_module_fn_sigs fn_sigs ;;;
  (if is_entry && negb (Z.of_nat (length inits) =? 0) then emit_global_inits inits else M_ret tt) ;;;
  match params sig with [] => M_ret tt | ps => emit_param_rehydration ps end.

Lemma lower_one_function_eq body sig fn_sigs gtypes gmutable inits is_entry mem_base mem_sz :
  lower_one_function body sig fn_sigs gtypes gmutable inits is_entry mem_base mem_sz =
  obind (collect valtype_from_byte (local_types body)) (fun declared =>
  obind (run_lowerer (new_function_with_memory_typed (params sig ++ declared) [] mem_base)
    (function_entry sig fn_sigs gtypes gmutable inits is_entry mem_sz ;;; lower_all (ops body) ;;; take_relocations)) (fun '(lw, rs) =>
  Ok (mkLoweredFunction (finish lw) rs))).
Proof.
  unfold lower_one_function. destruct (collect _ _) as [declared|e|]; [|done|done]. cbn [obind].
  destruct (new_function_with_memory_typed _ _ _) as [lw|e|]; [|done|done]. cbn [run_lowerer obind].
  match goal with |- obind match ?x with _ => _ end _ = obind match ?y with _ => _ end _ => enough (x = y) as -> by done end.
  unfold function_entry. rewrite bind_assoc. apply bind_ext; [done|intros _ s1]. rewrite bind_assoc. apply bind_ext; [done|intros _ s2].
  rewrite bind_assoc. apply bind_ext; [done|intros _ s3]. rewrite bind_assoc. by apply bind_ext.
Qed.

Lemma function_entry_st sig fn_sigs gtypes gmutable inits is_entry mem_sz declared lw :
  0 <= mem_sz < 2 ^ 32 -> length gmutable = length gtypes -> length inits = length gtypes ->
  fresh true MEM_FRAME_SIZE (params sig ++ declared) [] lw ->
  match function_entry sig fn_sigs gtypes gmutable inits is_entry mem_sz lw with
  | (s, Ok _) => exists c, wf_cfg c /\ st c [] [] s /\ call_targets c = [] /\ indirect_sigs c = [] /\
      loc_type <$> locals c = params sig ++ declared /\ global_types c = gtypes /\ module_fn_sigs c = fn_sigs
  | (_, Err e) => untyped e
  | (_, Panic) => False
  end.
Proof.
  intros Hm Hg Hin Hf. pose proof (fresh_linv _ _ _ _ _ Hf) as Hi. destruct Hf as (e & ls & -> & _ & Hl & Hc).
  unfold function_entry. unfold M_bind at 1. cbn [set_mem_size modify]. unfold M_bind at 1, set_globals.
  rewrite Hg, Z.eqb_refl. cbn [negb fail_if]. unfold M_bind at 1, M_ret at 1.
  destruct (MAX_GLOBALS <? Z.of_nat (length gtypes)); [done|]. cbn [fail_if]. unfold M_bind at 1, M_ret at 1.
  cbn [modify]. unfold M_bind at 1. cbn [set_module_fn_sigs modify].
  match goal with |- context [M_bind _ _ ?x] => set (s := x) end. set (c := cfg s).
  assert (wf_cfg c) as Hwf by (destruct Hi as [[] _ _ _ _ _ _ _ _ _ _]; split; cbn in *; done || lia).
  assert (st c [] [] s) as Hs by (do 3 (split; [done|]); by destruct Hi).
  assert (length (locals c) = length (params sig ++ declared)) as Hlen by (rewrite <- Hl; cbn; by rewrite length_fmap).
  rewrite length_app in Hlen.
  assert (hoare (st c [] []) ((if is_entry && negb (Z.of_nat (length inits) =? 0) then emit_global_inits inits else M_ret tt) ;;;
    match params sig with [] => M_ret tt | ps => emit_param_rehydration ps end) (fun _ => st c [] []) untyped) as H.
  { eapply hoare_seq; [apply keeps_if; [apply keeps_global_inits; done|auto with kernel]|].
    destruct (params sig) as [|p ps] eqn:E; [by apply hoare_ret|]. apply keeps_param_rehydration. lia. }
  specialize (H s Hs). destruct (M_bind _ _ s) as [s' [[]|x|]]; [|done|done]. exists c. split; [exact Hwf|]. by split.
Qed.

(** C21: Compiling a straight-line function and validating it agree: the
    compiler never panics; a function it compiles is well typed, from the empty
    stack to at most one value; and it refuses a function for its types (rather
    than for a lack of registers or an unsupported feature) only when the
    validator does. *)
Theorem validated_function_lowers (body : FunctionBody) (sig : FnSig) (fn_sigs : list FnSig) (gtypes declared : list ValType)
    (gmutable : list bool) (inits : list (list Z)) (is_entry : bool) (mem_base mem_sz : Z) (code : list WasmOp) :
  ops body = code ++ [End] -> Forall straight code -> collect valtype_from_byte (local_types body) = Ok declared ->
  0 <= mem_sz < 2 ^ 32 -> length gmutable = length gtypes -> length inits = length gtypes ->
  match lower_one_function body sig fn_sigs gtypes gmutable inits is_entry mem_base mem_sz with
  | Ok _ => exists τ, (length τ <= 1)%nat /\ body_type (params sig ++ declared) gtypes fn_sigs [] code [] τ
  | Err e => type_error e = true -> validate_full (params sig ++ declared) gtypes fn_sigs [] (ops body) <> Ok tt
  | Panic => False
  end.
Proof.
  intros Hops Hs Hd Hm Hg Hin. rewrite lower_one_function_eq, Hd, Hops. cbn [obind].
  pose proof (new_function_with_memory_fresh (params sig ++ declared) [] mem_base) as Hnew.
  assert (forall e, untyped e -> type_error e = true -> validate_full (params sig ++ declared) gtypes fn_sigs [] (code ++ [End]) <> Ok tt) as HR
    by (intros e He Ht; unfold untyped in He; congruence).
  destruct (new_function_with_memory_typed _ _ _) as [lw|e|]; cbn [run_lowerer obind]; [|by apply HR|done].
  pose proof (function_entry_st sig fn_sigs gtypes gmutable inits is_entry mem_sz declared lw Hm Hg Hin Hnew) as H.
  unfold M_bind at 1. destruct (function_entry _ _ _ _ _ _ _ lw) as [s [[]|e|]]; cbn [obind]; [|by apply HR|done].
  destruct H as (c & Hwf & Hst & Hct & Hind & <- & <- & <-).
  pose proof (validated_body_lowers c s code Hwf Hct Hs Hst) as H. rewrite Hind in H.
  unfold M_bind at 1. destruct (lower_all (code ++ [End]) s) as [s' [[]|e|]]; [|exact H|exact H]. exact H.
Qed.

(** (i32) -> i32, a local and a global: [get 0; const 7; add; tee 1; global.set 0; get 1]. *)
Lemma validated_function_lowers_witness :
  let body := mkFunctionBody 1 [0x7F] [LocalGet 0; I32Const 7; I32Add; LocalTee 1; GlobalSet 0; LocalGet 1; End] in
  match lower_one_function body (mkFnSig [I32] (Some I32)) [mkFnSig [I32] (Some I32)] [I32] [true] [le_bytes 8 5] true 0x40000000 65536 with
  | Ok _ => exists τ, (length τ <= 1)%nat /\ body_type [I32; I32] [I32] [mkFnSig [I32] (Some I32)] [] [LocalGet 0; I32Const 7; I32Add; LocalTee 1; GlobalSet 0; LocalGet 1] [] τ
  | _ => False
  end.
Proof.
  intros body.
  assert (H := validated_function_lowers body (mkFnSig [I32] (Some I32)) [mkFnSig [I32] (Some I32)] [I32] [I32] [true]
    [le_bytes 8 5] true 0x40000000 65536 [LocalGet 0; I32Const 7; I32Add; LocalTee 1; GlobalSet 0; LocalGet 1] eq_refl).
  destruct (lower_one_function _ _ _ _ _ _ _ _ _) as [f|e|] eqn:E; [|by vm_compute in E..].
  refine (H _ _ _ _ _); [|by vm_compute|lia|reflexivity|reflexivity].
  repeat (apply Forall_cons; split; [by split|]). constructor.
Defined.
