(* ===== verification/LowerReloc.v ===== *)
(** The relocations a lowering records: every one names a whole word of the
    buffer, which holds the placeholder call that was emitted for it; they are in
    increasing order and their targets are functions of the module.  The branches
    that are patched later are other words. *)

From S2P Require Import Prelude Bytes A64 WasmTypes Peephole Lower LowerOps LowerNew LowerInv LowerTyped.

Open Scope kernel_scope.

(** Call sites in a buffer of [p] bytes of a module of [n] functions. *)
Definition sites_in (p n : Z) (rs : list (Z * Z)) : Prop :=
  Forall (fun r => 0 <= r.1 /\ r.1 mod 4 = 0 /\ r.1 + 4 <= p /\ 0 <= r.2 < n) rs.

Definition sites_sorted (rs : list (Z * Z)) : Prop := StronglySorted (fun a b => a.1 + 4 <= b.1) rs.

Definition relocs_ok (p n : Z) (rs : list (Z * Z)) : Prop := sites_sorted rs /\ sites_in p n rs.

(** [bl #4], the word emitted for a call that the linker resolves. *)
Definition BL_PLACEHOLDER : Z := 0x94000001.

Definition placeholders (bytes : list Z) (rs : list (Z * Z)) : Prop :=
  Forall (fun r => word_at bytes (Z.to_nat r.1) = BL_PLACEHOLDER) rs.

(** The words of a label that are patched when its block ends. *)
Definition patch_pos (p : PendingPatch) : Z := match p with PatchB q => q | PatchCbnzW q _ => q end.

Definition label_sites (l : Label) : list Z :=
  (match kind l with KIf q | KIfElse q => [q] | _ => [] end) ++ (patch_pos <$> pending l).

(** A word of the buffer that no relocation names. *)
Definition free_word (p : Z) (rs : list (Z * Z)) (q : Z) : Prop :=
  0 <= q /\ q + 4 <= p /\ Forall (fun r => r.1 + 4 <= q \/ q + 4 <= r.1) rs.

Section reloc.
Context (fns : Z).

(** The recorded calls have the targets [ts]; unless the buffer outgrows the
    32-bit offsets, their sites are in order and hold the placeholder, and the
    words to patch, those of [Q] and those of the open labels, are others. *)
Definition rinv (Q ts : list Z) (s : Lowerer) : Prop :=
  pos (encoder s) mod 4 = 0 /\ module_fn_count s = fns /\ (pending_relocations s).*2 = ts /\
  sites_in (pos (encoder s)) fns (pending_relocations s) /\
  (pos (encoder s) < 2 ^ 32 ->
    sites_sorted (pending_relocations s) /\ placeholders (buf (encoder s)) (pending_relocations s) /\
    forall q, q ∈ Q \/ (exists l, l ∈ label_stack s /\ q ∈ label_sites l) -> free_word (pos (encoder s)) (pending_relocations s) q).

Definition run_keeps {A} (Q Q' : list Z) (m : L A) : Prop :=
  forall ts s, rinv Q ts s -> match m s with (s', Ok _) => rinv Q' ts s' | _ => True end.

(** [m] may patch the words [P], and records no call. *)
Definition rk {A} (P : list Z) (m : L A) : Prop := forall Q, P ⊆ Q -> run_keeps Q Q m.

Abbreviation rkeeps := (rk []).

Lemma sites_in_mono p p' n rs : sites_in p n rs -> p <= p' -> sites_in p' n rs.
Proof. intros Hf Hp. eapply Forall_impl; [exact Hf|]. intros r (? & ? & ? & ?). split; [done|]. split; [done|]. split; [lia|done]. Qed.

Lemma free_word_mono p p' rs q : free_word p rs q -> p <= p' -> free_word p' rs q.
Proof. intros (? & ? & ?) Hp. split; [done|]. split; [lia|done]. Qed.

Lemma rinv_less Q Q' ts s : Q' ⊆ Q -> rinv Q ts s -> rinv Q' ts s.
Proof.
  intros HQ (Ha & Hn & Ht & Hi & Hr). do 4 (split; [done|]). intros Hlt. destruct (Hr Hlt) as (H1 & H2 & H3).
  do 2 (split; [done|]). intros q [Hq|Hq]; apply H3; [left; by apply HQ|by right].
Qed.

Lemma placeholders_app bs n rs p bytes :
  sites_in p n rs -> p <= Z.of_nat (length bytes) -> placeholders bytes rs -> placeholders (bytes ++ bs) rs.
Proof.
  intros Hi Hp H. unfold placeholders, sites_in in *. rewrite Forall_forall in *. intros r Hr. destruct (Hi r Hr) as (? & _ & ? & _).
  rewrite word_at_app by lia. by apply H.
Qed.

(** Appending words keeps everything. *)
Lemma rinv_append Q ts s w : rinv Q ts s -> rinv Q ts (s <| encoder := mkEncoder (buf (encoder s) ++ le_bytes 4 w) |>).
Proof.
  intros (Ha & Hn & Ht & Hi & Hr). destruct (grows_emit (encoder s) w) as (Hp & Ha' & _).
  split; [by apply Ha'|]. do 2 (split; [done|]). split; [by apply (sites_in_mono (pos (encoder s)))|].
  intros Hlt. cbn [encoder pending_relocations label_stack update_field set_encoder] in *. destruct (Hr ltac:(lia)) as (H1 & H2 & H3). split; [done|].
  split; [by eapply placeholders_app; [exact Hi|unfold pos; lia|]|]. intros q Hq. by eapply free_word_mono; [apply H3|].
Qed.

(** ... and the word appended is free until it is recorded. *)
Lemma rinv_append_free Q ts s w :
  rinv Q ts s -> rinv (pos (encoder s) :: Q) ts (s <| encoder := mkEncoder (buf (encoder s) ++ le_bytes 4 w) |>).
Proof.
  intros Hs. assert (H := rinv_append _ _ _ w Hs). destruct Hs as (_ & _ & _ & Hi & _), H as (Ha & Hn & Ht & Hi' & Hr).
  do 4 (split; [done|]). intros Hlt. destruct (Hr Hlt) as (H1 & H2 & H3). do 2 (split; [done|]).
  intros q [[->|Hq]%elem_of_cons|Hq]; [|by apply H3; left|by apply H3; right].
  split; [unfold pos; lia|]. split; [unfold pos; cbn -[le_bytes]; rewrite length_app, le_bytes_length; lia|].
  eapply Forall_impl; [exact Hi|]. intros r (_ & _ & ? & _). by left.
Qed.

(** The fields [rinv] depends on. *)
Lemma rinv_same Q ts s s' :
  rinv Q ts s -> encoder s' = encoder s -> module_fn_count s' = module_fn_count s -> pending_relocations s' = pending_relocations s ->
  label_stack s' = label_stack s -> rinv Q ts s'.
Proof. intros H E1 E2 E3 E4. unfold rinv in *. by rewrite E1, E2, E3, E4. Qed.

(** Labels may change as long as their words are labels' or in [Q]. *)
Lemma rinv_labels Q ts s ls :
  rinv Q ts s -> (forall l q, l ∈ ls -> q ∈ label_sites l -> q ∈ Q \/ exists l', l' ∈ label_stack s /\ q ∈ label_sites l') ->
  rinv Q ts (s <| label_stack := ls |>).
Proof.
  intros (Ha & Hn & Ht & Hi & Hr) Hl. do 4 (split; [done|]). intros Hlt. destruct (Hr Hlt) as (H1 & H2 & H3).
  do 2 (split; [done|]). intros q [Hq|(l & Hin & Hq)]; apply H3; [by left|by eapply Hl].
Qed.

(** The words of an open label can be held while it is closed. *)
Lemma rinv_hold Q ts s l : rinv Q ts s -> l ∈ label_stack s -> rinv (label_sites l ++ Q) ts s.
Proof.
  intros (Ha & Hn & Ht & Hi & Hr) Hl. do 4 (split; [done|]). intros Hlt. destruct (Hr Hlt) as (H1 & H2 & H3).
  do 2 (split; [done|]). intros q [[Hq|Hq]%elem_of_app|Hq]; apply H3; [right; by exists l|by left|by right].
Qed.

Lemma rk_more {A} P P' (m : L A) : P ⊆ P' -> rk P m -> rk P' m.
Proof. intros HP Hm Q HQ. apply Hm. by etrans. Qed.

Lemma rk_nil {A} P (m : L A) : rkeeps m -> rk P m.
Proof. apply rk_more. apply list_subseteq_nil. Qed.

Lemma rk_bind {A B} P (m : L A) (k : A -> L B) : rk P m -> (forall a, rk P (k a)) -> rk P (M_bind k m).
Proof.
  intros Hm Hk Q HQ ts s Hs. specialize (Hm Q HQ ts s Hs). unfold M_bind. destruct (m s) as [s' [a|e|]]; [|done|done]. by apply Hk.
Qed.

Lemma rk_ret {A} P (a : A) : rk P (M_ret a : L A).
Proof. by intros Q _ ts s. Qed.
Lemma rk_throw {A} P e : rk P (throw e : L A).
Proof. by intros Q _ ts s. Qed.
Lemma rk_panic {A} P : rk P (panic : L A).
Proof. by intros Q _ ts s. Qed.
Lemma rk_gets {A} P (f : Lowerer -> A) : rk P (gets f).
Proof. by intros Q _ ts s. Qed.
Lemma rk_fail_if P b e : rk P (fail_if b e : L unit).
Proof. by intros Q _ ts s; destruct b. Qed.
Lemma rk_ok_or {A} P (o : option A) e : rk P (ok_or o e : L A).
Proof. by intros Q _ ts s; destruct o. Qed.

Lemma rk_modify P f :
  (forall s, encoder (f s) = encoder s /\ module_fn_count (f s) = module_fn_count s /\ pending_relocations (f s) = pending_relocations s /\
    label_stack (f s) = label_stack s) ->
  rk P (modify f).
Proof. intros Hf Q _ ts s Hs. destruct (Hf s) as (? & ? & ? & ?). by eapply rinv_same. Qed.

Lemma rk_asm P m : emits m -> rk P (asm m).
Proof.
  intros Hm Q _ ts s Hs. unfold asm, on_encoder, asm_on. destruct (Hm (encoder s)) as [[w ->]|[x ->]]; [|done].
  by apply rinv_append.
Qed.

(** Patching a word that is held. *)
Lemma rk_patch P p w : p ∈ P -> rk P (on_encoder (patch_word p w)).
Proof.
  intros HP Q HQ ts s (Ha & Hn & Ht & Hi & Hr). unfold on_encoder, patch_word.
  destruct ((0 <=? p) && (p + 4 <=? pos (encoder s))) eqn:Hb; [|done]. bool_prop. cbn [fst].
  assert (Hlen : length (splice (buf (encoder s)) (Z.to_nat p) (le_bytes 4 w)) = length (buf (encoder s))).
  { apply splice_length. unfold pos in *. rewrite le_bytes_length. lia. }
  unfold rinv. cbn [encoder pending_relocations label_stack module_fn_count update_field set_encoder].
  assert (pos (mkEncoder (splice (buf (encoder s)) (Z.to_nat p) (le_bytes 4 w))) = pos (encoder s)) as -> by (unfold pos; cbn [buf]; by rewrite Hlen).
  do 4 (split; [done|]). intros Hlt. destruct (Hr Hlt) as (H1 & H2 & H3). split; [done|]. split; [|exact H3].
  destruct (H3 p ltac:(left; by apply HQ)) as (Hp0 & _ & Hfree). unfold placeholders, sites_in in *. rewrite Forall_forall in *.
  intros r Hin. destruct (Hi r Hin) as (? & _ & ? & _). specialize (Hfree r Hin). cbn [buf].
  rewrite word_at_splice_other; [by apply H2|unfold pos in *; rewrite le_bytes_length; lia|rewrite le_bytes_length; lia].
Qed.

(** A branch to patch later: its position is read, then it is emitted. *)
Definition rk_at {A} (p : Z) (P : list Z) (m : L A) : Prop :=
  forall Q, P ⊆ Q -> forall ts s, pos (encoder s) = p -> rinv Q ts s -> match m s with (s', Ok _) => rinv Q ts s' | _ => True end.

Lemma rk_enc_pos {A} P (k : Z -> L A) : (forall p, rk_at p P (k p)) -> rk P (p <- enc_pos ;; k p).
Proof. intros Hk Q HQ ts s Hs. unfold M_bind, enc_pos, gets. by apply Hk. Qed.

Lemma rk_at_any {A} p P (m : L A) : rk P m -> rk_at p P m.
Proof. intros Hm Q HQ ts s _. by apply Hm. Qed.

Lemma rk_at_emit {A} p P m (k : L A) : emits m -> rk (p :: P) k -> rk_at p P (asm m ;;; k).
Proof.
  intros Hm Hk Q HQ ts s Hp Hs. unfold M_bind, asm, on_encoder, asm_on. destruct (Hm (encoder s)) as [[w ->]|[x ->]]; [|done].
  cbn beta iota. apply (rinv_append_free _ _ _ w) in Hs. rewrite Hp in Hs.
  assert (HQ' : p :: P ⊆ p :: Q) by set_solver. specialize (Hk _ HQ' _ _ Hs).
  destruct (k _) as [s' [a|e|]]; [|done|done]. eapply rinv_less; [|exact Hk]. set_solver.
Qed.

Lemma rk_push_label P k start : (match k with KIf q | KIfElse q => q ∈ P | _ => True end) -> rk P (push_label k start).
Proof.
  intros Hk Q HQ ts s Hs. unfold push_label, modify. apply rinv_labels; [done|].
  intros l q [->|Hl]%elem_of_cons Hq; [left|right; by exists l]. apply HQ. unfold label_sites in Hq. cbn in Hq. rewrite app_nil_r in Hq.
  destruct k; set_solver.
Qed.

Lemma rk_add_pending P depth x : patch_pos x ∈ P -> rk P (add_pending depth x).
Proof.
  intros Hx Q HQ ts s Hs. unfold add_pending, modify. apply rinv_labels; [done|].
  intros l q (i & Hi)%list_elem_of_lookup Hq. destruct (decide (i = Z.to_nat depth)) as [->|Hne].
  - rewrite list_lookup_alter, decide_True in Hi by done. apply fmap_Some in Hi as (l0 & Hl0 & ->). unfold label_sites in *. cbn [kind pending] in Hq.
    rewrite fmap_app, app_assoc in Hq. apply elem_of_app in Hq as [Hq|Hq].
    + right. exists l0. split; [by eapply list_elem_of_lookup_2|done].
    + left. apply HQ. cbn in Hq. by apply list_elem_of_singleton in Hq as ->.
  - rewrite list_lookup_alter, decide_False in Hi by congruence. right. exists l. split; [by eapply list_elem_of_lookup_2|done].
Qed.

Create HintDb reloc.
#[local] Hint Resolve rk_ret rk_throw rk_panic rk_gets rk_fail_if rk_ok_or : reloc.

(** Walk through a lowering: sequencing, case analysis and the leaves. *)
Ltac rstep :=
  lazymatch goal with
  | |- rk _ (M_bind _ _) => apply rk_bind; [|intros]
  | |- rk _ (match ?x with _ => _ end) => destruct x
  | |- rk _ (asm (match ?x with _ => _ end)) => destruct x
  | |- rk _ (asm _) => apply rk_asm; solve [assumption | auto | solve_emits]
  | |- rk _ (modify _) => apply rk_modify; intros; repeat case_match; done
  | |- rk [] _ => solve [auto with reloc]
  | |- rk _ _ => solve [auto with reloc | apply rk_nil; auto with reloc]
  end.
Ltac rwalk := repeat rstep.

Lemma rkeeps_flush : rkeeps flush_pending_spill.
Proof. unfold flush_pending_spill. rwalk. Qed.
Lemma rkeeps_flush_fp : rkeeps flush_pending_fp_spill.
Proof. unfold flush_pending_fp_spill. rwalk. Qed.
#[local] Hint Resolve rkeeps_flush rkeeps_flush_fp : reloc.

Lemma rkeeps_push_int t : rkeeps (push_int_slot t).
Proof. unfold push_int_slot, push_int. rwalk. Qed.
Lemma rkeeps_expect t : rkeeps (expect_top t).
Proof. unfold expect_top. rwalk. Qed.
#[local] Hint Resolve rkeeps_push_int rkeeps_expect : reloc.
Lemma rkeeps_pop_int t : rkeeps (pop_int_slot t).
Proof. unfold pop_int_slot. rwalk. Qed.
Lemma rkeeps_push_fp t : rkeeps (push_fp_slot t).
Proof. unfold push_fp_slot, push_fp. rwalk. Qed.
Lemma rkeeps_pop_fp t : rkeeps (pop_fp_slot t).
Proof. unfold pop_fp_slot. rwalk. Qed.
#[local] Hint Resolve rkeeps_pop_int rkeeps_push_fp rkeeps_pop_fp : reloc.

Lemma rkeeps_movk r h sh : rkeeps (movk_part r h sh).
Proof. unfold movk_part. rwalk. Qed.
#[local] Hint Resolve rkeeps_movk : reloc.
Lemma rkeeps_load_u32 r v : rkeeps (load_u32_into_reg r v).
Proof. unfold load_u32_into_reg. rwalk. Qed.
Lemma rkeeps_load_u64 r v : rkeeps (load_u64_into_reg r v).
Proof. unfold load_u64_into_reg. rwalk. Qed.
Lemma rkeeps_restore n : forall p k, rkeeps (restore_pairs n p k).
Proof. induction n as [|n IH]; intros p k; cbn [restore_pairs]; rwalk. Qed.
#[local] Hint Resolve rkeeps_load_u32 rkeeps_load_u64 rkeeps_restore : reloc.
Lemma rkeeps_epilogue : rkeeps emit_epilogue.
Proof. unfold emit_epilogue. rwalk. Qed.
#[local] Hint Resolve rkeeps_epilogue : reloc.
Lemma rkeeps_trap k : rkeeps (emit_trap_kind k).
Proof. unfold emit_trap_kind. rwalk. Qed.
#[local] Hint Resolve rkeeps_trap : reloc.
Lemma rkeeps_bounds r n o b : rkeeps (emit_bounds_check r n o b).
Proof.
  unfold emit_bounds_check. rstep; [rstep|]. rstep; [|rstep]. rstep; [rstep|]. cbv zeta. do 2 (rstep; [rstep|]).
  apply rk_enc_pos. intros p. apply rk_at_emit; [solve_emits|]. unfold enc_pos. do 2 (rstep; [rstep|]). rstep; [|rstep].
  apply rk_patch. by left.
Qed.
#[local] Hint Resolve rkeeps_bounds : reloc.
Lemma rkeeps_maybe_bounds r n o b y : rkeeps (maybe_bounds_check r n o b y).
Proof. unfold maybe_bounds_check. rwalk. Qed.
Lemma rkeeps_full_addr r o : rkeeps (full_addr_in_x16 r o).
Proof. unfold full_addr_in_x16. rwalk. Qed.
Lemma rkeeps_need_memory : rkeeps need_memory.
Proof. unfold need_memory. rwalk. Qed.
Lemma rkeeps_global_entry i : rkeeps (global_entry i).
Proof. unfold global_entry. rwalk. Qed.
Lemma rkeeps_materialize o : rkeeps (materialize_global_addr o).
Proof. unfold materialize_global_addr. rwalk. Qed.
Lemma rkeeps_set_top y : rkeeps (set_top_sym y).
Proof. apply rk_modify. intros s. by destruct (int_sym_stack s). Qed.
Lemma rkeeps_nops n : rkeeps (nops n).
Proof. induction n as [|n IH]; cbn [nops]; rwalk. Qed.
Lemma rkeeps_raw n : forall b, rkeeps (raw_words n b).
Proof. induction n as [|n IH]; intros b; cbn [raw_words]; rwalk. Qed.
Lemma rkeeps_scratch srcs : forall i, rkeeps (move_to_scratch i srcs).
Proof. induction srcs as [|r srcs IH]; intros i; cbn [move_to_scratch]; rwalk. Qed.
Lemma rkeeps_args n : forall i, rkeeps (move_to_args i n).
Proof. induction n as [|n IH]; intros i; cbn [move_to_args]; rwalk. Qed.
Lemma rkeeps_pop_args ts : forall acc, rkeeps (pop_args ts acc).
Proof. induction ts as [|t ts IH]; intros acc; cbn [pop_args]; unfold pop_i32_slot, pop_i64_slot; rwalk. Qed.
Lemma rkeeps_call_result o e : rkeeps (push_call_result o e).
Proof. unfold push_call_result, push_i32_slot, push_i64_slot. rwalk. Qed.
#[local] Hint Resolve rkeeps_maybe_bounds rkeeps_full_addr rkeeps_need_memory rkeeps_global_entry rkeeps_materialize
  rkeeps_set_top rkeeps_nops rkeeps_raw rkeeps_scratch rkeeps_args rkeeps_pop_args rkeeps_call_result : reloc.


(** The one place that records a call: the site is the word appended next. *)
Lemma rinv_record Q ts s i :
  rinv Q ts s -> 0 <= i < fns ->
  rinv Q (ts ++ [i]) (s <| encoder := mkEncoder (buf (encoder s) ++ le_bytes 4 BL_PLACEHOLDER) |>
    <| pending_relocations := pending_relocations s ++ [(u32 (pos (encoder s)), i)] |>).
Proof.
  intros Hs Hi. set (p := pos (encoder s)). assert (H := rinv_append _ _ _ BL_PLACEHOLDER Hs).
  destruct Hs as (Hp4 & _ & _ & Hin & Hr), H as (Ha & Hn & Ht & _ & _). fold p in Hp4, Hin, Hr.
  assert (Hp0 : 0 <= p) by (unfold p, pos; lia).
  assert (Hp : pos (mkEncoder (buf (encoder s) ++ le_bytes 4 BL_PLACEHOLDER)) = p + 4)
    by (unfold p, pos; cbn [buf]; rewrite length_app, le_bytes_length; lia).
  split; [exact Ha|]. split; [exact Hn|]. unfold rinv. cbn [encoder pending_relocations label_stack update_field set_pending_relocations set_encoder].
  split; [rewrite fmap_app; cbn; by f_equal|]. rewrite Hp. split.
  - apply Forall_app. split; [by apply (sites_in_mono p); [|lia]|]. constructor; [|constructor]. cbn.
    pose proof (wrap_range 32 p ltac:(lia)) as [Hr0 _]. split; [done|]. split; [unfold wrap; rewrite Z.mod_mod_divide by (by exists (2 ^ 30)); done|].
    split; [|done]. enough (u32 p <= p) by lia. apply Z.mod_le; lia.
  - intros Hlt. rewrite wrap_small by (unfold in_width; lia). destruct (Hr ltac:(lia)) as (Hs & Hw & Hf). split; [|split].
    + clear - Hs Hin. induction Hs as [|a rs Hs IH Ha]; cbn; [repeat constructor|].
      apply Forall_cons in Hin as [H1 Hin]. constructor; [by apply IH|]. apply Forall_app. split; [done|].
      constructor; [cbn; lia|constructor].
    + apply Forall_app. split; [by eapply placeholders_app; [exact Hin|unfold p, pos; lia|]|]. constructor; [|constructor].
      cbn [fst buf]. unfold p, pos. rewrite Nat2Z.id. by apply word_at_emitted.
    + intros q Hq. destruct (Hf q Hq) as (? & ? & ?). split; [done|]. split; [lia|]. apply Forall_app. split; [done|].
      constructor; [|constructor]. cbn. right. lia.
Qed.

(** [m] records the calls [new]. *)
Definition records {A} (new : list Z) (m : L A) : Prop :=
  forall ts s, rinv [] ts s -> match m s with (s', Ok _) => rinv [] (ts ++ new) s' | _ => True end.

Lemma records_keeps {A} (m : L A) : rkeeps m -> records [] m.
Proof.
  intros Hm ts s Hs. specialize (Hm [] ltac:(done) ts s Hs). destruct (m s) as [s' [a|e|]]; [|done|done]. by rewrite app_nil_r.
Qed.

Lemma records_bind {A B} a b (m : L A) (k : A -> L B) : records a m -> (forall x, records b (k x)) -> records (a ++ b) (M_bind k m).
Proof.
  intros Hm Hk ts s Hs. specialize (Hm ts s Hs). unfold M_bind. destruct (m s) as [s' [x|e|]]; [|done|done].
  specialize (Hk x _ _ Hm). destruct (k x s') as [s'' [y|e|]]; [|done|done]. by rewrite app_assoc.
Qed.

Lemma records_after {A B} new (m : L A) (k : A -> L B) : rkeeps m -> (forall x, records new (k x)) -> records new (M_bind k m).
Proof. intros Hm. apply (records_bind []). by apply records_keeps. Qed.

Lemma records_call_internal i : 0 <= i < fns -> records [i] (lower_call_internal i).
Proof.
  intros Hi. unfold lower_call_internal. apply records_after; [auto with reloc|intros sigs].
  destruct (sigs !! Z.to_nat i) as [sig|]; [|by intros ts s]. unfold check_int_params.
  do 4 (apply records_after; [unfold marshal_args; rwalk|intros]).
  intros ts s Hs. unfold M_bind at 1, enc_pos, gets. cbn beta iota.
  assert (asm (Enc.bl 4) s = (s <| encoder := mkEncoder (buf (encoder s) ++ le_bytes 4 BL_PLACEHOLDER) |>, Ok tt)) as E by done.
  unfold M_bind at 1. rewrite E. unfold M_bind at 1, modify. cbn beta iota.
  assert (Hrec := rinv_record [] ts s i Hs Hi).
  pose proof (rkeeps_call_result (result sig) CallTypeUnsupported [] ltac:(done) _ _ Hrec) as H.
  exact H.
Qed.

Definition call_target (op : WasmOp) : option Z :=
  match op with Call i => if i <? fns then Some i else None | _ => None end.

Lemma records_call i : 0 <= i -> records (option_list (call_target (Call i))) (lower_call i).
Proof.
  intros Hi ts s Hs. unfold lower_call, M_bind at 1, gets. cbn [id call_target].
  assert (module_fn_count s = fns) as -> by apply Hs. destruct (Z.ltb_spec i fns) as [Hlt|].
  - by apply records_call_internal.
  - match goal with |- match ?m s with _ => _ end => enough (records [] m) as H' by by apply H' end.
    apply records_keeps. unfold check_int_params, marshal_args. rwalk.
Qed.

Lemma rk_patch_with P p w : p ∈ P -> rk P (patch_with p w).
Proof. intros HP. unfold patch_with. rstep; [by apply rk_patch|rstep]. Qed.

Lemma rk_patch_all P ps t : patch_pos <$> ps ⊆ P -> rk P (patch_all ps t).
Proof.
  induction ps as [|x ps IH]; intros HP; cbn [patch_all]; [rstep|]. cbn in HP. rstep; [|apply IH; set_solver].
  unfold patch_pending. destruct x; apply rk_patch_with; cbn in HP; set_solver.
Qed.

Lemma rk_patch_cond P p t : p ∈ P -> rk P (patch_cond p t).
Proof. intros HP. unfold patch_cond. rstep; [rstep|]. rstep; [rstep|]. by apply rk_patch_with. Qed.

Lemma truncate_loop_same n : forall s,
  encoder (truncate_loop n s) = encoder s /\ module_fn_count (truncate_loop n s) = module_fn_count s /\
  pending_relocations (truncate_loop n s) = pending_relocations s /\ label_stack (truncate_loop n s) = label_stack s.
Proof.
  induction n as [|n IH]; intros s; [done|]. cbn [truncate_loop]. destruct (stack s) as [|t l]; [done|].
  destruct (is_int t); [exact (IH _)|exact (IH _)].
Qed.
Lemma rkeeps_truncate n : rkeeps (truncate_stack_to n).
Proof. apply rk_modify. intros s. apply truncate_loop_same. Qed.
#[local] Hint Resolve rkeeps_truncate : reloc.

(** ** Blocks *)

Lemma rkeeps_push_block : rkeeps (push_label KBlock None).
Proof. by apply rk_push_label. Qed.
Lemma rkeeps_push_loop start : rkeeps (push_label KLoop start).
Proof. by apply rk_push_label. Qed.
#[local] Hint Resolve rkeeps_push_block rkeeps_push_loop : reloc.

Lemma rkeeps_br n : rkeeps (lower_br n).
Proof.
  unfold lower_br, label_at. rstep; [rwalk|]. apply rk_enc_pos. intros p.
  destruct (kind _); try (apply rk_at_emit; [solve_emits|]; apply rk_add_pending; by left).
  apply rk_at_any. rwalk.
Qed.

Lemma rkeeps_br_if n : rkeeps (lower_br_if n).
Proof.
  unfold lower_br_if, label_at, pop_i32_slot. rstep; [rwalk|]. rstep; [rwalk|]. apply rk_enc_pos. intros p.
  destruct (kind _); try (apply rk_at_emit; [solve_emits|]; apply rk_add_pending; by left).
  apply rk_at_any. rwalk.
Qed.

Lemma rkeeps_if : rkeeps lower_if.
Proof.
  unfold lower_if, pop_i32_slot. rstep; [rwalk|]. apply rk_enc_pos. intros p. apply rk_at_emit; [solve_emits|].
  apply rk_push_label. by left.
Qed.

(** Closing a block: its label leaves the stack, its words are held. *)
Lemma rkeeps_block_end : rkeeps lower_block_end.
Proof.
  intros Q HQ ts s Hs. unfold lower_block_end. unfold M_bind at 1, gets. unfold M_bind at 1.
  destruct (label_stack s) as [|l ls] eqn:Hls; [done|]. cbn [head ok_or M_ret]. unfold M_bind at 1, modify at 1. rewrite Hls. cbn [tail].
  assert (H1 : rinv (label_sites l ++ Q) ts (s <| label_stack := ls |>)).
  { apply rinv_labels; [apply rinv_hold; [done|rewrite Hls; by left]|]. intros l' q Hl' Hq. right. exists l'. rewrite Hls. split; [by right|done]. }
  match goal with |- match ?m _ with _ => _ end => assert (Hm : rk (label_sites l) m) end.
  { rstep; [unfold enc_pos; rstep|]. unfold label_sites. destruct (kind l); repeat (rstep; []).
    - apply rk_patch_all. set_solver.
    - rstep.
    - rstep; [apply rk_patch_cond|apply rk_patch_all]; set_solver.
    - rstep; [apply rk_patch_with|apply rk_patch_all]; set_solver. }
  specialize (Hm (label_sites l ++ Q) ltac:(set_solver) ts _ H1).
  destruct (M_bind _ _ _) as [s' [a|e|]]; [|done|done]. eapply rinv_less; [|exact Hm]. set_solver.
Qed.

Lemma rkeeps_else : rkeeps lower_else.
Proof.
  intros Q HQ ts s Hs. unfold lower_else. unfold M_bind at 1, gets. unfold M_bind at 1.
  destruct (label_stack s) as [|l ls] eqn:Hls; [done|]. cbn [head ok_or M_ret].
  assert (H1 : rinv (label_sites l ++ Q) ts s) by (apply rinv_hold; [done|rewrite Hls; by left]).
  match goal with |- match ?m _ with _ => _ end => assert (Hm : rk (label_sites l) m) end.
  { destruct (kind l) as [| |c|] eqn:Hk; [rstep|rstep| |rstep]. apply rk_enc_pos. intros p. apply rk_at_emit; [solve_emits|].
    rstep; [unfold enc_pos; rstep|]. rstep; [apply rk_patch_cond; unfold label_sites; rewrite Hk; set_solver|].
    rstep; [|rstep]. intros Q' HQ' ts' s' Hs'. apply rinv_labels; [done|].
    intros l' q [->|Hl']%elem_of_cons Hq.
    - left. apply HQ'. unfold label_sites in *. cbn [kind pending] in Hq. rewrite Hk. set_solver.
    - right. exists l'. split; [|done]. destruct (label_stack s') as [|l0 ls0]; [by apply elem_of_nil in Hl'|by right]. }
  specialize (Hm (label_sites l ++ Q) ltac:(set_solver) ts _ H1).
  match type of Hm with match ?r with _ => _ end => destruct r as [s' [a|e|]]; [|done|done] end.
  eapply rinv_less; [|exact Hm]. set_solver.
Qed.
#[local] Hint Resolve rkeeps_br rkeeps_br_if rkeeps_if rkeeps_block_end rkeeps_else : reloc.

(** Every operation keeps the recorded calls. *)
Lemma rkeeps_op op : (match op with Call n => False | _ => True end) -> rkeeps (lower_op op).
Proof.
  intros Hc. destruct op; cbn [lower_op]; try (by auto with reloc); try done;
  unfold lower_binop, lower_i64_binop, lower_i64_cmp, lower_f32_binop, lower_f64_binop, lower_f32_cmp, lower_f64_cmp,
    lower_const, lower_i64_const, lower_f32_const, lower_f64_const, lower_eqz, lower_i64_eqz, lower_load, lower_store,
    lower_i64_load, lower_i64_store, lower_f32_load, lower_f32_store, lower_f64_load, lower_f64_store, lower_v128_load,
    lower_v128_store, lower_v128_const, lower_wrap_i64, lower_extend_i32, lower_i32_extend_narrow, lower_i64_extend_narrow,
    lower_trunc_f32_i32, lower_trunc_f64_i32, lower_trunc_f32_i64, lower_trunc_f64_i64, lower_convert_i32_f32,
    lower_convert_i64_f32, lower_convert_i32_f64, lower_convert_i64_f64, lower_f32_demote_f64, lower_f64_promote_f32,
    lower_i32_reinterpret_f32, lower_i64_reinterpret_f64, lower_f32_reinterpret_i32, lower_f64_reinterpret_i64,
    lower_f32x4_add, lower_f32x4_mul, lower_f32x4_sub, lower_f32x4_div, lower_f32x4_max, lower_f32x4_min, lower_f32x4_eq,
    lower_f32x4_gt, lower_i32x4_add, lower_i32x4_sub, lower_i32x4_mul, lower_f32x4_extract_lane, lower_f32x4_splat,
    lower_i32x4_splat, lower_i32x4_extract_lane, lower_i32x4_dot_i8x16_signed, lower_i32x4_dot_i8x16_unsigned, lower_dot,
    lower_f32x4_fma, lower_f64x2_splat, lower_f64x2_extract_lane, lower_v128_bitselect, lower_f32x4_horizontal_sum,
    lower_f32x4_unary, lower_v128_binop, int_to_int, int_to_fp, fp_to_int, fp_to_fp, lower_drop, lower_select, pop_any,
    lower_local_get, lower_local_set, lower_local_tee, lower_global_get, lower_global_set, lower_block, lower_loop,
    lower_call_indirect, lower_explicit_return, lower_function_end,
    stack_last, local_loc, local_bound, taint_local, top_int, top_fp,
    peek_sym_at, peek_top_sym, enc_pos, check_int_params, marshal_args, emit_binop, emit_i64_binop,
    push_i32_slot, pop_i32_slot, push_i64_slot, pop_i64_slot, push_f32_slot, pop_f32_slot, push_f64_slot, pop_f64_slot,
    push_v128_slot, pop_v128_slot;
  rwalk.
Qed.

Lemma records_op op : call_index_ok op -> records (option_list (call_target op)) (lower_op op).
Proof.
  intros Hc. destruct op; try (apply (records_keeps (lower_op _)), rkeeps_op; exact I). by apply records_call.
Qed.

Lemma loop_ends_length ops : forall open, length (loop_ends open ops) = length ops.
Proof. induction ops as [|[] ops IH]; intros open; cbn; try destruct open; cbn; by rewrite ?IH. Qed.

Lemma records_loop_ops all ops : forall i ends,
  Forall call_index_ok ops -> length ends = length ops -> records (omap call_target ops) (lower_loop_ops all i ops ends).
Proof.
  induction ops as [|op ops IH]; intros i ends Hc Hl; destruct ends as [|closes ends]; try done.
  - cbn. intros ts s Hs. cbn. by rewrite app_nil_r.
  - apply Forall_cons in Hc as [H1 Hc]. cbn [lower_loop_ops].
    replace (omap call_target (op :: ops)) with (option_list (call_target op) ++ omap call_target ops)
      by (cbn; by destruct (call_target op)).
    apply records_after; [destruct op; rwalk|intros _].
    apply records_bind; [by apply records_op|intros _]. apply records_after; [rwalk|intros _]. apply IH; [done|]. by injection Hl.
Qed.

Lemma records_all ops : Forall call_index_ok ops -> records (omap call_target ops) (lower_all ops).
Proof. intros Hc. apply records_loop_ops; [done|]. apply loop_ends_length. Qed.

Lemma rkeeps_rehydrate ps : forall ls i f, rkeeps (rehydrate ps ls i f).
Proof. induction ps as [|p ps IH]; intros ls i f; cbn [rehydrate]; rwalk. Qed.

Lemma rkeeps_param_rehydration ps : rkeeps (emit_param_rehydration ps).
Proof. unfold emit_param_rehydration. apply rk_bind; [rwalk|intros]. apply rk_bind; [rwalk|intros; apply rkeeps_rehydrate]. Qed.

Lemma rkeeps_inits tys : forall i inits, rkeeps (emit_inits i tys inits).
Proof. induction tys as [|t tys IH]; intros i inits; cbn [emit_inits]; rwalk. Qed.

Lemma rkeeps_global_inits inits : rkeeps (emit_global_inits inits).
Proof. unfold emit_global_inits. rwalk. apply rkeeps_inits. Qed.
End reloc.
