(* ===== verification/ModuleLowerThm.v ===== *)
(** The linker: every function's code is placed at its offset and every
    internal call reaches its target (ModuleLower). *)

From S2P Require Import Prelude Bytes A64 A64Fmt A64Ops A64Thm WasmTypes WasmParse WasmModule WasmValidate Peephole Lower LowerOps LowerNew ModuleLower LowerInv LowerControl LowerReloc LowerTyped LowerFunction.

Open Scope kernel_scope.
Open Scope word_scope.

(** ** One function *)

Lemma collect_ok {E A B} (f : A -> outcome E B) l : forall bs,
  collect f l = Ok bs -> length bs = length l /\ forall i a, l !! i = Some a -> exists b, bs !! i = Some b /\ f a = Ok b.
Proof.
  induction l as [|a l IH]; cbn [collect]; intros bs H; [injection H as <-; done|].
  apply obind_ok in H as (b & Hb & H). apply obind_ok in H as (bs' & Hbs & [= <-]).
  destruct (IH _ Hbs) as [Hl Hi]. split; [cbn; by rewrite Hl|]. intros [|i] a' Ha; cbn in *; [|by apply Hi].
  injection Ha as <-. by exists b.
Qed.

Lemma function_entry_records sig fn_sigs gtypes gmutable inits is_entry mem_sz ts lw :
  fresh true MEM_FRAME_SIZE ts [] lw ->
  match function_entry sig fn_sigs gtypes gmutable inits is_entry mem_sz lw with
  | (s, Ok _) => rinv (Z.of_nat (length fn_sigs)) [] [] s
  | _ => True
  end.
Proof.
  intros (e & ls & -> & (_ & Ha & _) & _). unfold function_entry. unfold M_bind at 1. cbn [set_mem_size modify].
  unfold M_bind at 1, set_globals. destruct (negb _); [done|]. cbn [fail_if]. unfold M_bind at 1, M_ret at 1.
  destruct (_ <? _); [done|]. cbn [fail_if]. unfold M_bind at 1, M_ret at 1. cbn [modify].
  unfold M_bind at 1. cbn [set_module_fn_sigs modify].
  match goal with |- context [M_bind _ _ ?x] => set (s := x) end.
  assert (rinv (Z.of_nat (length fn_sigs)) [] [] s) as Hs.
  { split; [by apply Ha|]. split; [done|]. split; [done|]. split; [constructor|]. intros _. split; [constructor|]. split; [constructor|].
    intros q [Hq|(l & Hl & _)]; [by apply elem_of_nil in Hq|by apply elem_of_nil in Hl]. }
  assert (rk (Z.of_nat (length fn_sigs)) [] ((if is_entry && negb (Z.of_nat (length inits) =? 0) then emit_global_inits inits else M_ret tt) ;;;
    match params sig with [] => M_ret tt | ps => emit_param_rehydration ps end)) as H.
  { apply rk_bind; [destruct (_ && _); [apply rkeeps_global_inits|apply rk_ret]|intros _].
    destruct (params sig); [apply rk_ret|apply rkeeps_param_rehydration]. }
  specialize (H [] ltac:(done) [] s Hs). destruct (M_bind _ _ s) as [s' [[]|x|]]; done.
Qed.

Lemma finish_length s : length (finish s) = length (buf (encoder s)).
Proof. unfold finish. by rewrite optimize_length. Qed.

(** The peephole pass leaves the placeholders alone. *)
Lemma finish_placeholders n s :
  pos (encoder s) mod 4 = 0 -> sites_in (pos (encoder s)) n (pending_relocations s) ->
  placeholders (buf (encoder s)) (pending_relocations s) -> placeholders (finish s) (pending_relocations s).
Proof.
  unfold placeholders, sites_in. intros Ha Hi H. rewrite Forall_forall in *. intros r Hr. specialize (H r Hr). destruct (Hi r Hr) as (H0 & H4 & Hp & _).
  unfold pos in *. pose proof (Z.div_mod r.1 4 ltac:(lia)) as Hd.
  assert (Hq : Z.to_nat r.1 = (Z.to_nat (r.1 / 4) * 4)%nat) by lia. rewrite Hq in H |- *. unfold finish, into_bytes.
  assert (Z.to_nat (r.1 / 4) < length (buf (encoder s)) / 4)%nat by (apply Nat.div_le_lower_bound; [done|]; zify; lia).
  rewrite optimize_word_at by done. rewrite H. by destruct (in_data _ _).
Qed.

(** The lowered function's code is whole words, and its relocations are the
    body's calls to module functions, in order. *)
Lemma lower_one_function_relocs body sig fn_sigs gtypes gmutable inits is_entry mem_base mem_sz f :
  Forall call_index_ok (ops body) ->
  lower_one_function body sig fn_sigs gtypes gmutable inits is_entry mem_base mem_sz = Ok f ->
  Z.of_nat (length (lf_bytes f)) mod 4 = 0 /\ (lf_relocations f).*2 = omap (call_target (Z.of_nat (length fn_sigs))) (ops body) /\
  sites_in (Z.of_nat (length (lf_bytes f))) (Z.of_nat (length fn_sigs)) (lf_relocations f) /\
  (Z.of_nat (length (lf_bytes f)) < 2 ^ 32 -> sites_sorted (lf_relocations f) /\ placeholders (lf_bytes f) (lf_relocations f)).
Proof.
  intros Hc. rewrite lower_one_function_eq. intros H. apply obind_ok in H as (declared & _ & H).
  apply obind_ok in H as ([lw rs] & H & [= <-]).
  pose proof (new_function_with_memory_fresh (params sig ++ declared) [] mem_base) as Hnew.
  destruct (new_function_with_memory_typed _ _ _) as [lw0|e|]; cbn [run_lowerer obind] in H; [|done|done].
  pose proof (function_entry_records sig fn_sigs gtypes gmutable inits is_entry mem_sz _ _ Hnew) as Hr.
  unfold M_bind at 1 in H. destruct (function_entry _ _ _ _ _ _ _ lw0) as [s [[]|e|]]; [|done|done].
  pose proof (records_all (Z.of_nat (length fn_sigs)) (ops body) Hc _ _ Hr) as Hb.
  unfold M_bind at 1 in H. destruct (lower_all (ops body) s) as [s' [[]|e|]]; [|done|done].
  cbn in H. injection H as <- <-. destruct Hb as (Ha & _ & Ht & Hi & Ho). cbn [lf_bytes lf_relocations]. rewrite finish_length.
  split; [exact Ha|]. split; [exact Ht|]. split; [exact Hi|]. intros Hlt. destruct (Ho Hlt) as (Hs & Hw & _).
  split; [exact Hs|].
  exact (finish_placeholders _ (s' <| pending_relocations := pending_relocations s' |>) Ha Hi Hw).
Qed.

(** ** Stitching *)

(** Where each function starts when the first one starts at [base]. *)
Fixpoint starts (base : Z) (fns : list LoweredFunction) : list Z :=
  match fns with
  | [] => []
  | f :: fns => base :: starts (base + Z.of_nat (length (lf_bytes f))) fns
  end.

Definition rebase (base : Z) (f : LoweredFunction) : list (Z * Z) := prod_map (Z.add base) id <$> lf_relocations f.

(** The relocations of all functions, from the start of the blob. *)
Fixpoint blob_relocs (base : Z) (fns : list LoweredFunction) : list (Z * Z) :=
  match fns with
  | [] => []
  | f :: fns => rebase base f ++ blob_relocs (base + Z.of_nat (length (lf_bytes f))) fns
  end.

Lemma starts_length fns : forall base, length (starts base fns) = length fns.
Proof. induction fns as [|f fns IH]; intros base; cbn; by rewrite ?IH. Qed.

Definition code_of (fns : list LoweredFunction) : list Z := concat (lf_bytes <$> fns).

(** A function whose sites are words of its code, with the placeholders that the
    linker is to overwrite. *)
Definition sites_ok (n : Z) (f : LoweredFunction) : Prop :=
  Z.of_nat (length (lf_bytes f)) mod 4 = 0 /\ relocs_ok (Z.of_nat (length (lf_bytes f))) n (lf_relocations f) /\
  placeholders (lf_bytes f) (lf_relocations f).

Lemma rebase_u32 base n f :
  sites_ok n f -> 0 <= base -> base + Z.of_nat (length (lf_bytes f)) < 2 ^ 32 ->
  (fun '(site, target) => (u32 (base + site), target)) <$> lf_relocations f = rebase base f.
Proof.
  intros (_ & [_ Hf] & _) Hb Hlt. unfold rebase. apply list_fmap_ext. intros i [site t] Hi.
  unfold sites_in in Hf; rewrite Forall_lookup in Hf. destruct (Hf i (site, t) Hi) as (? & _ & ? & _). cbn in *.
  unfold prod_map. cbn. rewrite wrap_small; [done|unfold in_width; lia].
Qed.

Lemma stitch_spec n fns : forall order acc,
  length order = length fns -> NoDup order -> Forall (sites_ok n) fns ->
  Z.of_nat (length (blob acc ++ code_of fns)) < 2 ^ 32 ->
  let r := stitch order fns acc in
  let base := Z.of_nat (length (blob acc)) in
  blob r = blob acc ++ code_of fns /\ relocations r = relocations acc ++ blob_relocs base fns /\
  length (offsets r) = length (offsets acc) /\
  (forall k i, order !! k = Some i -> (i < length (offsets acc))%nat -> offsets r !! i = starts base fns !! k) /\
  (forall i, i ∉ order -> offsets r !! i = offsets acc !! i).
Proof.
  induction fns as [|f fns IH]; intros order acc Hl Hnd Hok Hlt; destruct order as [|o order]; try discriminate Hl.
  - cbn. unfold code_of. cbn. rewrite !app_nil_r. do 4 (split; [done|]). done.
  - cbn [stitch]. unfold code_of in Hlt. cbn in Hlt. fold (code_of fns) in Hlt. rewrite !length_app in Hlt.
    injection Hl as Hl. apply NoDup_cons in Hnd as [Hno Hnd]. apply Forall_cons in Hok as [Hf Hok].
    rewrite wrap_small by (unfold in_width; lia). rewrite (rebase_u32 _ n) by (done || lia).
    match goal with |- context [stitch order fns ?a] => set (acc' := a) end.
    destruct (IH order acc' Hl Hnd Hok) as (Hb & Hr & Hlen & Hoff & Hout).
    { cbn. rewrite !length_app. lia. }
    cbn [acc' blob relocations offsets] in *. rewrite length_app, Nat2Z.inj_add in *. rewrite length_insert in *.
    split; [rewrite Hb; unfold code_of; cbn; by rewrite app_assoc|].
    split; [rewrite Hr; cbn [blob_relocs]; by rewrite app_assoc|]. split; [done|]. split.
    + intros [|k] i Hk Hi; cbn [lookup list_lookup starts] in Hk |- *; [|by apply Hoff].
      injection Hk as <-. rewrite Hout by done. by apply list_lookup_insert_eq.
    + intros i Hi. apply not_elem_of_cons in Hi as [Hi1 Hi2]. rewrite Hout by done. by apply list_lookup_insert_ne.
Qed.

Lemma stitch_blob fns : forall order acc, length order = length fns -> blob (stitch order fns acc) = blob acc ++ code_of fns.
Proof.
  induction fns as [|f fns IH]; intros [|o order] acc Hl; try discriminate Hl; [by rewrite app_nil_r|].
  injection Hl as Hl. cbn [stitch]. rewrite IH by done. unfold code_of. cbn. by rewrite app_assoc.
Qed.

Lemma stitch_sites fns : forall order acc,
  Forall (fun r => 0 <= r.1) (relocations acc) -> Forall (fun r => 0 <= r.1) (relocations (stitch order fns acc)).
Proof.
  induction fns as [|f fns IH]; intros [|o order] acc H; cbn [stitch]; try done. apply IH. cbn [relocations].
  apply Forall_app. split; [done|]. apply Forall_fmap, Forall_forall. intros [site t] _. cbn. apply (wrap_range 32). lia.
Qed.

(** ** Patching *)

Lemma patch_length offs rs : forall blob code,
  Forall (fun r => 0 <= r.1) rs -> patch_relocations rs offs blob = Ok code -> length code = length blob.
Proof.
  induction rs as [|[site t] rs IH]; intros blob code Hr H; cbn [patch_relocations] in H; [by injection H as <-|].
  apply Forall_cons in Hr as [H0 Hr]. cbn in H0.
  destruct (offs !! Z.to_nat t) as [target|]; [|done]. apply obind_ok in H as (w & _ & H).
  destruct (Z.ltb_spec (Z.of_nat (length blob)) (site + 4)); [done|]. apply IH in H as ->; [|done].
  rewrite splice_length; [done|]. rewrite le_bytes_length. lia.
Qed.

(** [w] is a call to the address [delta] bytes from it. *)
Definition is_call (w delta : Z) : Prop :=
  exists imm, disassemble w = Some (OP_bl, [imm]) /\ 4 * sext 26 imm = delta.

Lemma reloc_word_call target site w : reloc_word target site = Ok w -> in_width 32 w /\ is_call w (target - site).
Proof.
  unfold reloc_word. destruct (Z.eqb_spec ((target - site) mod 4) 0) as [Hm|]; cbn [negb]; [|done]. cbv zeta.
  rewrite Z.shiftr_div_pow2 by lia. change (2 ^ 2) with 4. pose proof (Z.div_mod (target - site) 4 ltac:(lia)) as Hd.
  destruct (Z.leb_spec (- 2 ^ 25) ((target - site) / 4)), (Z.ltb_spec ((target - site) / 4) (2 ^ 25)); cbn [negb andb]; try done.
  intros [= <-]. set (q := (target - site) / 4) in *.
  assert (Z.lor 0x94000000 (Z.land (u32 q) 0x03FFFFFF) = assemble OP_bl [q mod 2 ^ 26]) as -> by word_eq.
  assert (operands_ok OP_bl [q mod 2 ^ 26]) as Hok by operands_ok_case.
  split; [by apply assemble_range|]. exists (q mod 2 ^ 26). rewrite disassemble_assemble by done. split; [done|].
  rewrite sext_mod by lia. lia.
Qed.

Lemma patch_spec offs rs : forall blob code,
  patch_relocations rs offs blob = Ok code -> StronglySorted (fun a b => a.1 + 4 <= b.1) rs ->
  Forall (fun r => 0 <= r.1 /\ r.1 mod 4 = 0) rs ->
  length code = length blob /\
  (forall site t, (site, t) ∈ rs -> exists target, offs !! Z.to_nat t = Some target /\ is_call (word_at code (Z.to_nat site)) (target - site)) /\
  (forall i, 0 <= i -> i mod 4 = 0 -> i ∉ rs.*1 -> word_at code (Z.to_nat i) = word_at blob (Z.to_nat i)).
Proof.
  induction rs as [|[site t] rs IH]; intros blob code H Hs Hf; cbn [patch_relocations] in H.
  - injection H as <-. split; [done|]. split; [|done]. intros site t Hin. by apply elem_of_nil in Hin.
  - destruct (offs !! Z.to_nat t) as [target|] eqn:Ht; [|done]. apply obind_ok in H as (w & Hw & H).
    destruct (Z.ltb_spec (Z.of_nat (length blob)) (site + 4)) as [|Hlen]; [done|].
    apply reloc_word_call in Hw as [Hw Hcall]. apply Forall_cons in Hf as [[H0 H4] Hf]. cbn [fst snd] in H0, H4.
    apply StronglySorted_inv in Hs as [Hs Hhd]. cbn [fst] in Hhd. rewrite Forall_forall in Hhd.
    assert (Z.to_nat site + length (le_bytes 4 w) <= length blob)%nat as Hroom by (rewrite le_bytes_length; lia).
    destruct (IH _ _ H Hs Hf) as (Hl & Hin & Hout). rewrite splice_length in Hl by done. split; [done|]. split.
    + intros site' t' He. apply elem_of_cons in He as [[= -> ->]|He]; [|by apply Hin]. exists target. split; [done|].
      rewrite Hout; [|done|done|]; [rewrite word_at_splice_same by (done || lia); done|].
      intros He. apply list_elem_of_fmap in He as ([s' t'] & -> & He). specialize (Hhd _ He). cbn in *. lia.
    + intros i Hi Hi4 Hni. cbn in Hni. apply not_elem_of_cons in Hni as [Hne Hni]. rewrite Hout by done.
      apply word_at_splice_other; [done|]. rewrite le_bytes_length.
      pose proof (Z.div_mod i 4 ltac:(lia)). pose proof (Z.div_mod site 4 ltac:(lia)). lia.
Qed.

(** The rebased relocations of well-formed functions are in order. *)
Lemma StronglySorted_app' {A} (R : A -> A -> Prop) l1 l2 :
  StronglySorted R l1 -> StronglySorted R l2 -> (forall a b, a ∈ l1 -> b ∈ l2 -> R a b) -> StronglySorted R (l1 ++ l2).
Proof.
  intros H1 H2 H. induction H1 as [|a l1 H1 IH Ha]; [done|]. cbn. constructor.
  - apply IH. intros x y Hx. apply H. by apply elem_of_cons; right.
  - apply Forall_app. split; [done|]. apply Forall_forall. intros b Hb. apply H; [|done]. by apply elem_of_cons; left.
Qed.

Lemma rebase_ok n base f :
  sites_ok n f -> base mod 4 = 0 -> 0 <= base ->
  StronglySorted (fun a b => a.1 + 4 <= b.1) (rebase base f) /\
  Forall (fun r => base <= r.1 /\ r.1 mod 4 = 0 /\ r.1 + 4 <= base + Z.of_nat (length (lf_bytes f))) (rebase base f).
Proof.
  intros (_ & [Hs Hf] & _) Hb H0. unfold rebase. split.
  - induction Hs as [|a rs Hs IH Ha]; cbn; constructor; [apply IH; by apply Forall_cons in Hf as [_ Hf]|].
    apply Forall_fmap. eapply Forall_impl; [exact Ha|]. intros r Hr. destruct a, r; cbn in *; lia.
  - apply Forall_fmap. eapply Forall_impl; [exact Hf|]. intros [s t] (? & ? & ? & _). cbn in *.
    split; [lia|]. split; [|lia]. rewrite <- Z.add_mod_idemp_l by lia. by rewrite Hb.
Qed.

Lemma code_of_length f fns : Z.of_nat (length (code_of (f :: fns))) = Z.of_nat (length (lf_bytes f)) + Z.of_nat (length (code_of fns)).
Proof. unfold code_of. cbn. rewrite length_app. lia. Qed.

Lemma blob_relocs_ok n fns : forall base,
  Forall (sites_ok n) fns -> base mod 4 = 0 -> 0 <= base ->
  StronglySorted (fun a b => a.1 + 4 <= b.1) (blob_relocs base fns) /\
  Forall (fun r => base <= r.1 /\ r.1 mod 4 = 0 /\ r.1 + 4 <= base + Z.of_nat (length (code_of fns))) (blob_relocs base fns).
Proof.
  induction fns as [|f fns IH]; intros base Hok Hb H0; cbn [blob_relocs]; [split; constructor|].
  apply Forall_cons in Hok as [Hf Hok]. destruct (rebase_ok n base f Hf Hb H0) as [Hs Hr].
  destruct (IH (base + Z.of_nat (length (lf_bytes f))) Hok) as [Hs' Hr']; [|lia|].
  { rewrite <- Z.add_mod_idemp_l, Hb by lia. apply Hf. }
  rewrite code_of_length. split.
  - apply StronglySorted_app'; [done|done|]. intros a b Ha Hb'. rewrite Forall_forall in Hr, Hr'.
    specialize (Hr a Ha). specialize (Hr' b Hb'). lia.
  - apply Forall_app. split; (eapply Forall_impl; [eassumption|]); intros r (? & ? & ?); (split; [lia|]); (split; [done|lia]).
Qed.

(** A function in the blob: its start, its bytes and its relocations. *)
Lemma starts_split fns : forall base k off,
  starts base fns !! k = Some off ->
  exists f, fns !! k = Some f /\ off = base + Z.of_nat (length (code_of (take k fns))) /\
    code_of fns = code_of (take k fns) ++ lf_bytes f ++ code_of (drop (S k) fns) /\
    blob_relocs base fns = blob_relocs base (take k fns) ++ rebase off f ++ blob_relocs (off + Z.of_nat (length (lf_bytes f))) (drop (S k) fns).
Proof.
  induction fns as [|g fns IH]; intros base k off H; [done|]. destruct k as [|k]; cbn [starts lookup list_lookup] in H.
  - injection H as <-. exists g. split; [done|]. cbn. split; [unfold code_of; cbn; lia|]. done.
  - destruct (IH _ _ _ H) as (f & Hf & -> & Hc & Hr). exists f. split; [done|]. cbn [take drop]. rewrite code_of_length.
    split; [lia|]. split; [|cbn [blob_relocs]; rewrite Hr, <- app_assoc; do 2 f_equal; f_equal; f_equal; lia].
    unfold code_of in *. cbn. rewrite Hc at 1. by rewrite <- app_assoc.
Qed.

Lemma elem_of_rebase base f site t : (base + site, t) ∈ rebase base f <-> (site, t) ∈ lf_relocations f.
Proof.
  unfold rebase. rewrite list_elem_of_fmap. split.
  - intros ([s' t'] & E & H). cbn in E. injection E as E ->. by replace site with s' by lia.
  - intros H. by exists (site, t).
Qed.

(** ** Layout *)

Lemma layout_order_spec n entry :
  (entry < n)%nat -> NoDup (layout_order n entry) /\ (forall i, i ∈ layout_order n entry <-> (i < n)%nat) /\ layout_order n entry !! 0%nat = Some entry.
Proof.
  intros H. unfold layout_order. split; [|split; [|done]].
  - constructor; [intros Hi; by apply list_elem_of_filter in Hi as [? _]|]. apply NoDup_filter, NoDup_seq.
  - intros i. rewrite elem_of_cons, list_elem_of_filter, elem_of_seq. destruct (decide (i = entry)); intuition lia.
Qed.

(** The function laid out at the place of [i]. *)
Definition placed (order : list nat) (fns : list LoweredFunction) (i : nat) : LoweredFunction :=
  match list_find (fun x => x = i) order with
  | Some (k, _) => default (mkLoweredFunction [] []) (fns !! k)
  | None => mkLoweredFunction [] []
  end.

Lemma placed_at order fns k i f : NoDup order -> order !! k = Some i -> fns !! k = Some f -> placed order fns i = f.
Proof.
  intros Hnd Hk Hf. unfold placed. assert (list_find (fun x => x = i) order = Some (k, i)) as ->; [|by rewrite Hf].
  apply list_find_Some. split; [done|]. split; [done|]. intros j y Hj Hlt ->. pose proof (NoDup_lookup _ _ _ _ Hnd Hk Hj). lia.
Qed.

(** A function starts after the end of the ones before it. *)
Lemma starts_disjoint fns : forall base k k' off off' f,
  starts base fns !! k = Some off -> starts base fns !! k' = Some off' -> fns !! k = Some f -> (k < k')%nat ->
  off + Z.of_nat (length (lf_bytes f)) <= off'.
Proof.
  induction fns as [|g fns IH]; intros base k k' off off' f H H' Hf Hlt; [done|]. destruct k' as [|k']; [lia|].
  destruct k as [|k]; cbn [starts lookup list_lookup] in H, H', Hf; [|by apply (IH _ _ _ _ _ f H H' Hf); lia].
  injection H as <-. injection Hf as <-. destruct (starts_split _ _ _ _ H') as (_ & _ & -> & _). lia.
Qed.

(** The functions the linker places: what [lower_one_function] returned for
    every body. *)
Definition lowered (m : Module_) (mem_base mem_sz entry : Z) (fn : nat -> LoweredFunction) : Prop :=
  exists fn_sigs gtypes,
    collect (build_sig m) (seq 0 (length (bodies m))) = Ok fn_sigs /\
    collect (fun g => valtype_from_byte (valtype g)) (globals m) = Ok gtypes /\
    forall i body sig, bodies m !! i = Some body -> fn_sigs !! i = Some sig ->
      lower_one_function body sig fn_sigs gtypes (mutable <$> globals m) (init_bytes <$> globals m)
        (bool_decide (i = Z.to_nat entry)) mem_base mem_sz = Ok (fn i).

(** [f] is linked at [off] of the image [code]. *)
Definition linked_at (code offs : list Z) (off : Z) (f : LoweredFunction) : Prop :=
  0 <= off /\ off + Z.of_nat (length (lf_bytes f)) <= Z.of_nat (length code) /\
  (forall site t, (site, t) ∈ lf_relocations f ->
     word_at (lf_bytes f) (Z.to_nat site) = BL_PLACEHOLDER /\
     exists target, offs !! Z.to_nat t = Some target /\ is_call (word_at code (Z.to_nat (off + site))) (target - (off + site))) /\
  (forall j, 0 <= j -> j mod 4 = 0 -> j + 4 <= Z.of_nat (length (lf_bytes f)) -> j ∉ (lf_relocations f).*1 ->
     word_at code (Z.to_nat (off + j)) = word_at (lf_bytes f) (Z.to_nat j)).

Lemma patched_linked n fns offs code k off f :
  Forall (sites_ok n) fns -> patch_relocations (blob_relocs 0 fns) offs (code_of fns) = Ok code ->
  starts 0 fns !! k = Some off -> fns !! k = Some f -> linked_at code offs off f.
Proof.
  intros Hok Hp Hk Hf. destruct (starts_split _ _ _ _ Hk) as (g & Hg & Hoff & Hcode & Hrel). rewrite Hf in Hg. injection Hg as <-.
  destruct (blob_relocs_ok n fns 0 Hok eq_refl ltac:(lia)) as [Hs Hr].
  destruct (patch_spec _ _ _ _ Hp Hs) as (Hl & Hin & Hout).
  { eapply Forall_impl; [exact Hr|]. by intros r (? & ? & _). }
  assert (length (code_of fns) = length (code_of (take k fns)) + (length (lf_bytes f) + length (code_of (drop (S k) fns))))%nat as Hlen
    by (rewrite Hcode at 1; by rewrite !length_app).
  assert (Forall (sites_ok n) (take k fns)) as Hbefore by (by apply Forall_take).
  assert (Forall (sites_ok n) (drop (S k) fns)) as Hafter by (by apply Forall_drop).
  assert (sites_ok n f) as Hsf by (by apply (Forall_lookup_1 _ _ k f Hok)).
  assert (off mod 4 = 0) as Hal.
  { rewrite Hoff. clear - Hbefore. induction Hbefore as [|g l [Hg _] _ IH]; [done|].
    rewrite code_of_length, Z.add_0_l, <- Z.add_mod_idemp_l, Hg by lia. exact IH. }
  assert ((off + Z.of_nat (length (lf_bytes f))) mod 4 = 0) as Hal' by (rewrite <- Z.add_mod_idemp_l, Hal by lia; apply Hsf).
  split; [lia|]. split; [lia|]. split.
  - intros site t Hst. split.
    { destruct Hsf as (_ & _ & Hph). unfold placeholders in Hph. rewrite Forall_forall in Hph. exact (Hph _ Hst). }
    apply Hin. rewrite Hrel, !elem_of_app. right; left. by apply elem_of_rebase.
  - intros j H0 H4 Hj Hn. rewrite Hout; [|lia|by rewrite <- Z.add_mod_idemp_l, Hal by lia|].
    + rewrite Hcode, Hoff. rewrite Z.add_0_l, Z2Nat.inj_add, Nat2Z.id by lia. rewrite word_at_app_r.
      apply word_at_app. lia.
    + rewrite Hrel, !fmap_app, !elem_of_app. destruct (blob_relocs_ok n _ 0 Hbefore eq_refl ltac:(lia)) as [_ Hb].
      destruct (blob_relocs_ok n _ _ Hafter Hal') as [_ Ha]; [lia|].
      intros [H|[H|H]]; apply list_elem_of_fmap in H as ([s t] & E & H); cbn in E; subst s.
      * rewrite Forall_forall in Hb. specialize (Hb _ H). cbn in Hb. lia.
      * apply elem_of_rebase in H. apply Hn, list_elem_of_fmap. by exists (j, t).
      * rewrite Forall_forall in Ha. specialize (Ha _ H). cbn in Ha. lia.
Qed.

Lemma lowered_sites_ok m mem_base mem_sz entry fn_sigs gtypes order fns :
  Forall (fun b => Forall call_index_ok (ops b)) (bodies m) -> length fn_sigs = length (bodies m) ->
  collect (fun orig =>
    match bodies m !! orig, fn_sigs !! orig with
    | Some body, Some sig =>
        lower_one_function body sig fn_sigs gtypes (mutable <$> globals m) (init_bytes <$> globals m) (bool_decide (orig = entry)) mem_base mem_sz
    | _, _ => Panic
    end) order = Ok fns ->
  Z.of_nat (length (code_of fns)) < 2 ^ 32 -> Forall (sites_ok (Z.of_nat (length (bodies m)))) fns.
Proof.
  intros Hcalls Hsigs Hfns Hlt. apply collect_ok in Hfns as [Hl Hf]. apply Forall_lookup. intros k f Hk.
  assert (is_Some (order !! k)) as [i Hi] by (apply lookup_lt_is_Some; rewrite <- Hl; by eapply lookup_lt_Some).
  destruct (Hf k i Hi) as (g & Hg & Hlow). rewrite Hk in Hg. injection Hg as <-.
  destruct (bodies m !! i) as [body|] eqn:Hb; [|done]. destruct (fn_sigs !! i) as [sig|]; [|done].
  apply lower_one_function_relocs in Hlow as (Ha & _ & Hin & Hr); [|by apply (Forall_lookup_1 _ _ i body Hcalls)].
  rewrite <- Hsigs. assert (Hlen : Z.of_nat (length (lf_bytes f)) < 2 ^ 32); [|destruct (Hr Hlen); by repeat split].
  apply take_drop_middle in Hk. rewrite <- Hk in Hlt.
  unfold code_of in Hlt. rewrite fmap_app, concat_app, length_app in Hlt. cbn in Hlt. rewrite length_app in Hlt. lia.
Qed.

(** C17: Every call inside a compiled module goes to the start of its target:
    the entry function starts at offset 0, the functions do not overlap, a
    function has one relocation for every call of its body to a function of the
    module, in their order, whose site is the placeholder BL that was emitted
    for the call and in the image a BL to the offset of the target function, and
    every other word of the image is the word the function was lowered to.  The
    call indices are the module's, and the image is shorter than 4 GiB. *)
Theorem linked_calls_reach_targets (m : Module_) (mem_base mem_sz entry : Z) (lay : ModuleLayout) :
  0 <= entry -> Forall (fun b => Forall call_index_ok (ops b)) (bodies m) ->
  compile_module m mem_base mem_sz entry = Ok lay -> Z.of_nat (length (code lay)) < 2 ^ 32 ->
  exists fn, lowered m mem_base mem_sz entry fn /\
  length (function_offsets lay) = length (bodies m) /\ function_offsets lay !! Z.to_nat entry = Some (entrypoint_offset lay) /\
  (forall i body, bodies m !! i = Some body -> exists off, function_offsets lay !! i = Some off /\
     (lf_relocations (fn i)).*2 = omap (call_target (Z.of_nat (length (bodies m)))) (ops body) /\
     linked_at (code lay) (function_offsets lay) off (fn i)) /\
  (forall i j off off', i <> j -> function_offsets lay !! i = Some off -> function_offsets lay !! j = Some off' ->
     off + Z.of_nat (length (lf_bytes (fn i))) <= off' \/ off' + Z.of_nat (length (lf_bytes (fn j))) <= off).
Proof.
  intros H0 Hcalls H Hlt. unfold compile_module in H. set (n := length (bodies m)) in *.
  destruct (Z.leb_spec (Z.of_nat n) entry) as [|Hn]; [done|].
  apply obind_ok in H as (fn_sigs & Hsigs & H). apply obind_ok in H as (gtypes & Hg & H).
  apply obind_ok in H as (fns & Hfns & H). apply obind_ok in H as (out & Hp & [= <-]). cbn [code function_offsets entrypoint_offset] in *.
  destruct (layout_order_spec n (Z.to_nat entry)) as (Hnd & Hmem & Hfirst); [lia|].
  set (order := layout_order n (Z.to_nat entry)) in *. pose proof Hfns as Hcol. apply collect_ok in Hcol as [Hlen Hfn].
  assert (length fn_sigs = n) as Hls by (apply collect_ok in Hsigs as [-> _]; apply length_seq).
  assert (length order = length fns) as Hlo by done.
  pose proof (patch_length _ _ _ _ (stitch_sites fns order (mkLinked [] (replicate n 0) []) (Forall_nil_2 _)) Hp) as Hcl. rewrite stitch_blob in Hcl by done. cbn [blob] in Hcl. rewrite app_nil_l in Hcl.
  rewrite Hcl in Hlt.
  pose proof (lowered_sites_ok m mem_base mem_sz (Z.to_nat entry) fn_sigs gtypes order fns Hcalls Hls Hfns Hlt) as Hok.
  destruct (stitch_spec (Z.of_nat n) fns order (mkLinked [] (replicate n 0) []) Hlo Hnd Hok Hlt) as (Hb & Hr & Hol & Hoff & _).
  cbn [blob relocations offsets] in Hb, Hr, Hol, Hoff. rewrite app_nil_l in Hb, Hr. rewrite Hb, Hr in Hp.
  rewrite length_replicate in Hol, Hoff. change (Z.of_nat (length [])) with 0 in *.
  set (offs := offsets (stitch order fns (mkLinked [] (replicate n 0) []))) in *.
  assert (forall i, (i < n)%nat -> exists k, order !! k = Some i /\ offs !! i = starts 0 fns !! k) as Hpos.
  { intros i Hi. destruct (proj1 (list_elem_of_lookup order i)) as [k Hk]; [by apply Hmem|]. exists k. split; [done|]. by apply Hoff. }
  assert (forall i k, order !! k = Some i -> fns !! k = Some (placed order fns i)) as Hplaced.
  { intros i k Hk. destruct (Hfn k i Hk) as (f & Hf & _). by rewrite (placed_at order fns k i f). }
  exists (placed order fns). split; [|split; [done|split; [|split]]].
  - exists fn_sigs, gtypes. split; [done|]. split; [done|]. intros i body sig Hbody Hsig.
    destruct (Hpos i) as (k & Hk & _); [by eapply lookup_lt_Some|]. destruct (Hfn k i Hk) as (f & Hf & Hlow).
    rewrite Hbody, Hsig in Hlow. by rewrite (placed_at order fns k i f).
  - rewrite (Hoff 0%nat) by (done || lia). pose proof (Hplaced _ _ Hfirst) as Hf. by destruct fns.
  - intros i body Hbody. destruct (Hpos i) as (k & Hk & Ho); [by eapply lookup_lt_Some|].
    destruct (Hfn k i Hk) as (f & Hf & Hlow). rewrite (placed_at order fns k i f) by done.
    rewrite Hbody in Hlow. destruct (fn_sigs !! i) as [sig|]; [|done].
    apply lower_one_function_relocs in Hlow as (_ & Ht & _); [|by apply (Forall_lookup_1 _ _ i body Hcalls)].
    destruct (starts 0 fns !! k) as [off|] eqn:Hs; [|apply lookup_ge_None in Hs; rewrite starts_length in Hs; apply lookup_lt_Some in Hf; lia].
    exists off. split; [done|]. split; [by rewrite Ht, Hls|]. by apply (patched_linked (Z.of_nat n) fns offs out k).
  - intros i j off off' Hij Hi Hj. change (offs !! i = Some off) in Hi. change (offs !! j = Some off') in Hj. destruct (Hpos i) as (k & Hk & Hoi); [rewrite <- Hol; by eapply lookup_lt_Some|].
    destruct (Hpos j) as (k' & Hk' & Hoj); [rewrite <- Hol; by eapply lookup_lt_Some|].
    rewrite Hi in Hoi. rewrite Hj in Hoj. symmetry in Hoi, Hoj. destruct (Nat.lt_trichotomy k k') as [Hkk|[->|Hkk]].
    + left. by apply (starts_disjoint fns 0 k k' off off' _ Hoi Hoj (Hplaced _ _ Hk)).
    + congruence.
    + right. by apply (starts_disjoint fns 0 k' k off' off _ Hoj Hoi (Hplaced _ _ Hk')).
Qed.

(** Two functions; the entry, function 1, calls function 0 twice. *)
Definition caller_module : Module_ :=
  mkModule [mkFuncSig [] [0x7F]] [0; 0] [] [] []
    [mkFunctionBody 0 [] [I32Const 20; End]; mkFunctionBody 0 [] [Call 0; Call 0; I32Add; End]].

Lemma linked_calls_reach_targets_witness :
  match compile_module caller_module 0x40000000 65536 1 with
  | Ok lay => exists fn, lowered caller_module 0x40000000 65536 1 fn /\ (lf_relocations (fn 1%nat)).*2 = [0; 0] /\
      linked_at (code lay) (function_offsets lay) 0 (fn 1%nat)
  | _ => False
  end.
Proof.
  assert (H := linked_calls_reach_targets caller_module 0x40000000 65536 1).
  destruct (compile_module caller_module 0x40000000 65536 1) as [lay|e|] eqn:E; [|by vm_compute in E..].
  assert (function_offsets lay = [88; 0] /\ Z.of_nat (length (code lay)) < 2 ^ 32) as [Hoff Hlen]
    by (vm_compute in E; injection E as <-; by vm_compute).
  assert (Forall (fun b => Forall call_index_ok (ops b)) (bodies caller_module)) as Hcalls
    by (repeat first [apply Forall_nil_2 | apply Forall_cons_2]; cbn; first [exact I | lia]).
  destruct (H lay ltac:(lia) Hcalls eq_refl Hlen) as (fn & Hlow & _ & _ & Hfn & _).
  destruct (Hfn 1%nat _ eq_refl) as (off & Ho & Ht & Hl). rewrite Hoff in Ho. injection Ho as <-.
  exists fn. split; [exact Hlow|]. split; [exact Ht|exact Hl].
Defined.

(** ** No panic *)

Lemma collect_no_panic {E A B} (f : A -> outcome E B) l : (forall a, a ∈ l -> f a <> Panic) -> collect f l <> Panic.
Proof.
  induction l as [|a l IH]; intros Hf; [done|]. cbn [collect].
  destruct (f a) as [b|e|] eqn:E1; [|done|by destruct (Hf a ltac:(by left))]. cbn [obind].
  assert (collect f l <> Panic) as Hl by (apply IH; intros x Hx; apply Hf; by right). by destruct (collect f l).
Qed.

Lemma valtype_no_panic b : valtype_from_byte b <> Panic.
Proof. unfold valtype_from_byte. by repeat case_match. Qed.

Lemma build_sig_no_panic m i : build_sig m i <> Panic.
Proof.
  unfold build_sig. destruct (func_types m !! i); [|done]. destruct (types m !! _) as [ty|]; [|done].
  pose proof (collect_no_panic valtype_from_byte (sig_params ty) (fun b _ => valtype_no_panic b)) as Hc.
  destruct (sig_results ty) as [|b [|]]; cbn [obind]; try done; [by destruct (collect _ _)|].
  pose proof (valtype_no_panic b). destruct (valtype_from_byte b); [|done|done]. cbn [obind]. by destruct (collect _ _).
Qed.

(** An operation of a function the compiler cannot panic on. *)
Definition no_return (op : WasmOp) : Prop := call_index_ok op /\ op <> Return.

Lemma lower_one_function_no_panic body sig fn_sigs gtypes gmutable inits is_entry mem_base mem_sz :
  Forall no_return (ops body) -> 0 <= mem_sz < 2 ^ 32 -> length gmutable = length gtypes -> length inits = length gtypes ->
  lower_one_function body sig fn_sigs gtypes gmutable inits is_entry mem_base mem_sz <> Panic.
Proof.
  intros Hops Hm Hg Hin. rewrite lower_one_function_eq.
  pose proof (collect_no_panic valtype_from_byte (local_types body) (fun b _ => valtype_no_panic b)) as Hc.
  destruct (collect _ _) as [declared|e|]; [|done|done]. cbn [obind].
  pose proof (new_function_with_memory_fresh (params sig ++ declared) [] mem_base) as Hnew.
  destruct (new_function_with_memory_typed _ _ _) as [lw|e|]; cbn [run_lowerer obind]; [|done|done].
  pose proof (function_entry_st sig fn_sigs gtypes gmutable inits is_entry mem_sz declared lw Hm Hg Hin Hnew) as H.
  unfold M_bind at 1. destruct (function_entry _ _ _ _ _ _ _ lw) as [s [[]|e|]]; cbn [obind]; [|done|done].
  destruct H as (c & Hwf & Hst & Hct & _). unfold M_bind at 1, lower_all.
  pose proof (safe_ops c (ops body) (ops body) 0 (compute_loop_end_indices (ops body)) Hwf Hct Hops s (st_ok _ _ _ _ Hst)) as Hsafe.
  by destruct (lower_loop_ops _ _ _ _ s) as [s' [[]|e|]].
Qed.

(** The relocations of the stitched functions name words of the blob and
    functions of the module. *)
Lemma stitch_sites_in n fns : forall order acc,
  length order = length fns -> Forall (fun f => sites_in (Z.of_nat (length (lf_bytes f))) n (lf_relocations f)) fns ->
  Forall (fun r => 0 <= r.1 /\ r.1 + 4 <= Z.of_nat (length (blob acc)) /\ 0 <= r.2 < n) (relocations acc) ->
  let r := stitch order fns acc in
  Forall (fun x => 0 <= x.1 /\ x.1 + 4 <= Z.of_nat (length (blob r)) /\ 0 <= x.2 < n) (relocations r) /\ length (offsets r) = length (offsets acc).
Proof.
  induction fns as [|f fns IH]; intros [|o order] acc Hl Hf Hacc; try discriminate Hl; [done|].
  injection Hl as Hl. apply Forall_cons in Hf as [Hf Hfs]. cbn [stitch].
  match goal with |- context [stitch order fns ?a] => destruct (IH order a Hl Hfs) as [H1 H2] end.
  - cbn [relocations blob]. apply Forall_app. rewrite length_app. split.
    + eapply Forall_impl; [exact Hacc|]. intros r (? & ? & ?). split; [done|]. split; [lia|done].
    + apply Forall_fmap. eapply Forall_impl; [exact Hf|]. intros [site t] (? & ? & ? & ?). cbn in *.
      set (b := Z.of_nat (length (blob acc))) in *. pose proof (wrap_range 32 b ltac:(lia)) as [? _].
      pose proof (wrap_range 32 (u32 b + site) ltac:(lia)) as [? _].
      assert (u32 b <= b) by (apply Z.mod_le; lia). assert (u32 (u32 b + site) <= u32 b + site) by (apply Z.mod_le; lia).
      split; [done|]. split; [lia|done].
  - split; [exact H1|]. rewrite H2. cbn [offsets]. apply length_insert.
Qed.

Lemma patch_no_panic offs rs : forall blob,
  Forall (fun r => 0 <= r.1 /\ r.1 + 4 <= Z.of_nat (length blob) /\ 0 <= r.2 < Z.of_nat (length offs)) rs -> patch_relocations rs offs blob <> Panic.
Proof.
  induction rs as [|[site t] rs IH]; intros blob Hr; [done|]. apply Forall_cons in Hr as [(H0 & H1 & H2) Hr]. cbn [fst snd] in *. cbn [patch_relocations].
  destruct (offs !! Z.to_nat t) as [target|] eqn:E; [|apply lookup_ge_None in E; lia].
  destruct (reloc_word target site) as [w|e|] eqn:Ew; cbn [obind]; [|done|unfold reloc_word in Ew; by repeat case_match].
  destruct (Z.ltb_spec (Z.of_nat (length blob)) (site + 4)); [lia|]. apply IH.
  rewrite splice_length; [done|]. rewrite le_bytes_length. lia.
Qed.

(** C34: Compiling a module never panics when no body has an explicit [return]:
    every failure (a bad type index, an unsupported type, too many locals or
    operands, an unbalanced [end], a branch out of range, a missing call target)
    is an error value. *)
Theorem compile_module_never_panics (m : Module_) (mem_base mem_sz entry : Z) :
  0 <= entry -> 0 <= mem_sz < 2 ^ 32 -> Forall (fun b => Forall no_return (ops b)) (bodies m) ->
  compile_module m mem_base mem_sz entry <> Panic.
Proof.
  intros H0 Hm Hops. unfold compile_module. set (n := length (bodies m)). destruct (Z.leb_spec (Z.of_nat n) entry) as [|Hn]; [done|].
  pose proof (collect_no_panic (build_sig m) (seq 0 n) (fun i _ => build_sig_no_panic m i)) as Hs.
  destruct (collect (build_sig m) (seq 0 n)) as [fn_sigs|e|] eqn:Hsigs; cbn [obind]; [|done|done].
  assert (length fn_sigs = n) as Hls by (apply collect_ok in Hsigs as [-> _]; apply length_seq).
  pose proof (collect_no_panic (fun g => valtype_from_byte (valtype g)) (globals m) (fun g _ => valtype_no_panic _)) as Hg.
  destruct (collect _ (globals m)) as [gtypes|e|] eqn:Hgt; cbn [obind]; [|done|done]. apply collect_ok in Hgt as [Hgl _].
  destruct (layout_order_spec n (Z.to_nat entry)) as (_ & Hmem & _); [lia|].
  set (order := layout_order n (Z.to_nat entry)) in *.
  match goal with |- obind ?r _ <> _ => assert (r <> Panic) as Hnp; [|destruct r as [fns|e|] eqn:Hfns; cbn [obind]; [|done|done]] end.
  { apply collect_no_panic. intros i Hi. apply Hmem in Hi. destruct (lookup_lt_is_Some_2 (bodies m) i Hi) as [body Hb].
    destruct (lookup_lt_is_Some_2 fn_sigs i ltac:(by rewrite Hls)) as [sig Hsig]. rewrite Hb, Hsig.
    apply lower_one_function_no_panic; [by apply (Forall_lookup_1 _ _ i body Hops)|done|by rewrite length_fmap|by rewrite length_fmap]. }
  apply collect_ok in Hfns as [Hlen Hf].
  destruct (stitch_sites_in (Z.of_nat n) fns order (mkLinked [] (replicate n 0) [])) as [Hsites Hoffs]; [done| |constructor|].
  { apply Forall_lookup. intros k f Hk. destruct (lookup_lt_is_Some_2 order k ltac:(rewrite <- Hlen; by eapply lookup_lt_Some)) as [i Hi].
    destruct (Hf k i Hi) as (g & Hgk & Hlow). rewrite Hk in Hgk. injection Hgk as <-.
    destruct (bodies m !! i) as [body|] eqn:Hb; [|done]. destruct (fn_sigs !! i) as [sig|]; [|done].
    apply lower_one_function_relocs in Hlow as (_ & _ & Hin & _); [by rewrite Hls in Hin|].
    eapply Forall_impl; [exact (Forall_lookup_1 _ _ i body Hops Hb)|]. by intros op []. }
  cbn [offsets] in Hoffs. rewrite length_replicate in Hoffs.
  set (linked := stitch order fns _) in *.
  pose proof (patch_no_panic (offsets linked) (relocations linked) (blob linked) ltac:(by rewrite Hoffs)) as Hp.
  by destruct (patch_relocations _ _ _).
Qed.

Lemma compile_module_never_panics_witness :
  compile_module caller_module 0x40000000 65536 1 <> Panic.
Proof.
  refine (compile_module_never_panics caller_module 0x40000000 65536 1 _ _ _); [lia|lia|].
  repeat first [apply Forall_nil_2 | apply Forall_cons_2]; split; cbn; try done; lia.
Defined.

(** [return] with 32 operands in registers and spill slots panics. *)
Lemma deep_return_panics :
  compile_module (mkModule [mkFuncSig [] [0x7F]] [0] [] [] [] [mkFunctionBody 0 [] (replicate 32 (I32Const 1) ++ [Return; End])])
    0x40000000 65536 0 = Panic.
Proof. by vm_compute. Qed.
