(* ===== verification/Slice.v ===== *)
(** Byte arrays, slices of them and big-endian words.

    A byte array is a function from offsets to bytes; a slice [&data\[a..b\]]
    is the array with an offset and a length, so that the distance of two
    pointers into one array is the difference of their offsets.  Indexing and
    slicing out of range panic. *)

From S2P Require Import Prelude Bytes.

Open Scope kernel_scope.

Definition mem : Type := Z -> Z.

Record slice := mkSlice { sl_mem : mem; sl_off : Z; sl_len : Z }.

(** The bytes at [off, off + n). *)
Definition range (m : mem) (off n : Z) : list Z := m <$> seqZ off n.

Definition bytes_of (s : slice) : list Z := range (sl_mem s) (sl_off s) (sl_len s).

Definition mem_of_list (l : list Z) : mem := fun i => if i <? 0 then 0 else nth (Z.to_nat i) l 0.

Definition slice_of_list (l : list Z) : slice := mkSlice (mem_of_list l) 0 (Z.of_nat (length l)).

(** [data\[off..off + src.len()\].copy_from_slice(src)] on the array *)
Definition blit (m : mem) (off : Z) (src : list Z) : mem :=
  fun i => if (off <=? i) && (i <? off + Z.of_nat (length src)) then nth (Z.to_nat (i - off)) src 0 else m i.

(** Big-endian words. *)
Definition be_bytes (n : nat) (z : Z) : list Z := rev (le_bytes n z).
Definition from_be_bytes (l : list Z) : Z := from_le_bytes (rev l).

Section access.
Context {E : Type}.

(** [s\[i\]] *)
Definition index (s : slice) (i : Z) : outcome E Z :=
  if (0 <=? i) && (i <? sl_len s) then Ok (sl_mem s (sl_off s + i)) else Panic.

(** [&s\[a..b\]], [&s\[a..\]] *)
Definition sub (s : slice) (a b : Z) : outcome E slice :=
  if (0 <=? a) && (a <=? b) && (b <=? sl_len s) then Ok (mkSlice (sl_mem s) (sl_off s + a) (b - a)) else Panic.

Definition from (s : slice) (a : Z) : outcome E slice := sub s a (sl_len s).

(** [uN::from_be_bytes(\[s\[i\], s\[i + 1\], ..\])] *)
Definition be_at (n : nat) (s : slice) (i : Z) : outcome E Z :=
  let? t := sub s i (i + Z.of_nat n) in Ok (from_be_bytes (bytes_of t)).
End access.

(** ** Ranges *)

Lemma range_length m off n : length (range m off n) = Z.to_nat n.
Proof. unfold range. by rewrite length_fmap, length_seqZ. Qed.

Lemma range_lookup m off n (i : nat) : Z.of_nat i < n -> range m off n !! i = Some (m (off + Z.of_nat i)).
Proof. intros Hi. unfold range. rewrite list_lookup_fmap, lookup_seqZ_lt by lia. done. Qed.

Lemma range_app m off a b : 0 <= a -> 0 <= b -> range m off (a + b) = range m off a ++ range m (off + a) b.
Proof. intros Ha Hb. unfold range. by rewrite seqZ_app, fmap_app. Qed.

Lemma range_ext m m' off n : (forall i, off <= i < off + n -> m i = m' i) -> range m off n = range m' off n.
Proof.
  intros H. unfold range. apply list_fmap_ext. intros i x Hx. apply lookup_seqZ in Hx as [-> Hx]. apply H. lia.
Qed.

Lemma range_nil m off : range m off 0 = [].
Proof. done. Qed.

Lemma range_cons m off n : 0 < n -> range m off n = m off :: range m (off + 1) (n - 1).
Proof. intros H. replace n with (1 + (n - 1)) at 1 by lia. rewrite range_app by lia. done. Qed.

Lemma bytes_of_list l : bytes_of (slice_of_list l) = l.
Proof.
  apply list_eq. intros i. unfold bytes_of, slice_of_list. cbn [sl_mem sl_off sl_len].
  destruct (decide (i < length l)%nat) as [Hi|Hi].
  - rewrite range_lookup by lia. unfold mem_of_list. rewrite (proj2 (Z.ltb_ge _ _)) by lia.
    replace (Z.to_nat (0 + Z.of_nat i)) with i by lia.
    destruct (lookup_lt_is_Some_2 l i Hi) as [x Hx]. rewrite Hx. by apply nth_lookup_Some with (d := 0) in Hx as <-.
  - rewrite !lookup_ge_None_2; [done|lia|]. rewrite range_length. lia.
Qed.

Lemma blit_inside m off src i : off <= i < off + Z.of_nat (length src) -> blit m off src i = nth (Z.to_nat (i - off)) src 0.
Proof. intros H. unfold blit. by rewrite (proj2 (Z.leb_le _ _)), (proj2 (Z.ltb_lt _ _)) by lia. Qed.

Lemma blit_outside m off src i : i < off \/ off + Z.of_nat (length src) <= i -> blit m off src i = m i.
Proof.
  intros H. unfold blit. destruct (off <=? i) eqn:H1; [|done]. destruct (i <? off + _) eqn:H2; [|done]. bool_prop. lia.
Qed.

Lemma range_blit_same m off src n : n = Z.of_nat (length src) -> range (blit m off src) off n = src.
Proof.
  intros ->. apply list_eq. intros i. destruct (decide (i < length src)%nat) as [Hi|Hi].
  - rewrite range_lookup by lia. rewrite blit_inside by lia.
    replace (Z.to_nat (off + Z.of_nat i - off)) with i by lia.
    destruct (lookup_lt_is_Some_2 src i Hi) as [x Hx]. rewrite Hx. by apply nth_lookup_Some with (d := 0) in Hx as <-.
  - rewrite !lookup_ge_None_2; [done|lia|]. rewrite range_length. lia.
Qed.

Lemma range_blit_other m off src o n :
  o + n <= off \/ off + Z.of_nat (length src) <= o -> range (blit m off src) o n = range m o n.
Proof. intros H. apply range_ext. intros i Hi. apply blit_outside. lia. Qed.

(** ** Big-endian words *)

Lemma be_bytes_length n z : length (be_bytes n z) = n.
Proof. unfold be_bytes. by rewrite length_rev, le_bytes_length. Qed.

Lemma be_bytes_byte n z : Forall byte (be_bytes n z).
Proof. apply Forall_rev, le_bytes_byte. Qed.

Lemma from_to_be_bytes n z : from_be_bytes (be_bytes n z) = z mod 2 ^ (8 * Z.of_nat n).
Proof. unfold from_be_bytes, be_bytes. by rewrite rev_involutive, from_to_le_bytes. Qed.

Lemma from_be_bytes_range l : Forall byte l -> 0 <= from_be_bytes l < 2 ^ (8 * Z.of_nat (length l)).
Proof. intros H. unfold from_be_bytes. rewrite <- length_rev. by apply from_le_bytes_range, Forall_rev. Qed.

(** ** Access *)

Section accesslemmas.
Context {E : Type}.

Lemma index_ok (s : slice) i : 0 <= i < sl_len s -> index (E := E) s i = Ok (sl_mem s (sl_off s + i)).
Proof. intros H. unfold index. by rewrite (proj2 (Z.leb_le _ _)), (proj2 (Z.ltb_lt _ _)) by lia. Qed.

Lemma sub_ok (s : slice) a b :
  0 <= a <= b -> b <= sl_len s -> sub (E := E) s a b = Ok (mkSlice (sl_mem s) (sl_off s + a) (b - a)).
Proof. intros H1 H2. unfold sub. rewrite !(proj2 (Z.leb_le _ _)) by lia. done. Qed.

Lemma from_ok (s : slice) a :
  0 <= a <= sl_len s -> from (E := E) s a = Ok (mkSlice (sl_mem s) (sl_off s + a) (sl_len s - a)).
Proof. intros H. unfold from. apply sub_ok; lia. Qed.

Lemma be_at_ok n (s : slice) i :
  0 <= i -> i + Z.of_nat n <= sl_len s -> be_at (E := E) n s i = Ok (from_be_bytes (range (sl_mem s) (sl_off s + i) (Z.of_nat n))).
Proof.
  intros H1 H2. unfold be_at. rewrite sub_ok by lia. unfold bytes_of. cbn. by rewrite Z.add_simpl_l.
Qed.
End accesslemmas.

Lemma mem_of_list_byte l a : Forall byte l -> byte (mem_of_list l a).
Proof.
  intros Hl. unfold mem_of_list. destruct (_ <? _); [unfold byte; lia|]. destruct (nth_in_or_default (Z.to_nat a) l 0) as [Hin| ->].
  - rewrite Forall_forall in Hl. by apply Hl, list_elem_of_In.
  - unfold byte. lia.
Qed.
