(* ===== verification/SqliteDb.v ===== *)
(** The SQLite reader (src/userspace/libsqlite/src): variable-length integers and
    their round trip, then headers, records and the table scanner. *)

From Stdlib Require Import String Ascii.
From S2P Require Import Prelude Bytes Slice.

(** Variable-length integers of the SQLite format
    (src/userspace/libsqlite/src/varint.rs, the error type of
    src/userspace/libsqlite/src/lib.rs). *)

Open Scope kernel_scope.

Inductive Error :=
| TooSmall | InvalidMagic | InvalidPageSize | PageOutOfBounds | InvalidPageType
| InvalidVarint | InvalidRecord | TableNotFound | ColumnNotFound | InvalidEmbedding.

(** [bytes.iter().take(n)] *)
Definition prefix (s : slice) (n : Z) : list Z := range (sl_mem s) (sl_off s) (Z.min n (sl_len s)).

(** The loop over the first eight bytes: the value and length it returns, or
    the value after all of them. *)
Fixpoint varint_loop (l : list Z) (i value : Z) : Z * Z + Z :=
  match l with
  | [] => inr value
  | byte :: l =>
      if byte <? 0x80 then inl (Z.lor (u64 (Z.shiftl value 7)) byte, i + 1)
      else varint_loop l (i + 1) (Z.lor (u64 (Z.shiftl value 7)) (Z.land byte 0x7F))
  end.

Definition decode_varint (bytes : slice) : outcome Error (Z * Z) :=
  if sl_len bytes =? 0 then Err InvalidVarint else
  match varint_loop (prefix bytes 8) 0 0 with
  | inl (value, n) => Ok (i64 value, n)
  | inr value =>
      if 9 <=? sl_len bytes then
        let? b := index bytes 8 in Ok (i64 (Z.lor (u64 (Z.shiftl value 8)) b), 9)
      else Err InvalidVarint
  end.

Fixpoint size_loop (l : list Z) (i : Z) : option Z :=
  match l with
  | [] => None
  | byte :: l => if byte <? 0x80 then Some (i + 1) else size_loop l (i + 1)
  end.

Definition varint_size (bytes : slice) : outcome Error Z :=
  match size_loop (prefix bytes 9) 0 with
  | Some n => Ok n
  | None => if 9 <=? sl_len bytes then Ok 9 else Err InvalidVarint
  end.

(** [n] bytes with the continuation bit, lowest group last, before [acc]. *)
Fixpoint encode_high (n : nat) (v : Z) (acc : list Z) : list Z :=
  match n with
  | O => acc
  | S n => encode_high n (Z.shiftr v 7) (Z.lor 0x80 (Z.land v 0x7F) :: acc)
  end.

Definition bytes_needed (value : Z) : nat :=
  if value <=? 0x3FFF then 2
  else if value <=? 0x1FFFFF then 3
  else if value <=? 0xFFFFFFF then 4
  else if value <=? 0x7FFFFFFFF then 5
  else if value <=? 0x3FFFFFFFFFF then 6
  else if value <=? 0x1FFFFFFFFFFFF then 7
  else if value <=? 0xFFFFFFFFFFFFFF then 8
  else 9.

Definition varint_bytes (value : Z) : list Z :=
  if value <=? 127 then [value]
  else if (bytes_needed value =? 9)%nat then encode_high 8 (Z.shiftr value 8) [Z.land value 0xFF]
  else encode_high (bytes_needed value - 1) (Z.shiftr value 7) [Z.land value 0x7F].

(** The bytes written to the front of a buffer of [cap] bytes; a buffer that is
    too short is indexed out of range. *)
Definition encode_varint {E} (value cap : Z) : outcome E (list Z) :=
  if cap <? Z.of_nat (length (varint_bytes value)) then Panic else Ok (varint_bytes value).

(** ** Groups of seven bits *)

Fixpoint highs (n : nat) (v : Z) : list Z :=
  match n with O => [] | S n => highs n (v / 128) ++ [128 + v mod 128] end.

Lemma highs_length n v : length (highs n v) = n.
Proof. revert v. induction n as [|n IH]; intros v; cbn; [done|]. rewrite length_app, IH. cbn. lia. Qed.

Lemma highs_byte n v : Forall byte (highs n v).
Proof.
  revert v. induction n as [|n IH]; intros v; cbn; [done|]. apply Forall_app. split; [done|].
  constructor; [|done]. unfold byte. pose proof (Z.mod_pos_bound v 128). lia.
Qed.

Lemma group_low v : Z.land v 0x7F = v mod 128.
Proof. apply (land_ones_mod v 7). lia. Qed.

Lemma group_cont v : Z.lor 0x80 (Z.land v 0x7F) = 128 + v mod 128.
Proof.
  rewrite group_low, Z.lor_comm. pose proof (Z.mod_pos_bound v 128).
  transitivity (v mod 128 + 1 * 2 ^ 7); [|lia]. apply (lor_shiftl_add (v mod 128) 1 7); lia.
Qed.

Lemma group_push value x : 0 <= value < 2 ^ 57 -> 0 <= x < 128 -> Z.lor (u64 (Z.shiftl value 7)) x = value * 128 + x.
Proof.
  intros Hv Hx. rewrite wrap_small.
  - rewrite Z.lor_comm, lor_shiftl_add by lia. change (2 ^ 7) with 128. lia.
  - rewrite Z.shiftl_mul_pow2 by lia. unfold in_width. change (2 ^ 64) with (2 ^ 57 * 2 ^ 7). nia.
Qed.

Lemma encode_high_spec n v acc : encode_high n v acc = highs n v ++ acc.
Proof.
  revert v acc. induction n as [|n IH]; intros v acc; cbn [encode_high highs]; [done|].
  rewrite IH, group_cont, Z.shiftr_div_pow2 by lia. change (2 ^ 7) with 128. by rewrite <- app_assoc.
Qed.

Lemma pow128_S n : 128 ^ Z.of_nat (S n) = 128 ^ Z.of_nat n * 128.
Proof. rewrite Nat2Z.inj_succ, Z.pow_succ_r by lia. lia. Qed.

Lemma loop_highs n v w l i :
  0 <= v -> 0 <= w -> (w + 1) * 128 ^ Z.of_nat n <= 2 ^ 57 ->
  varint_loop (highs n v ++ l) i w = varint_loop l (i + Z.of_nat n) (w * 128 ^ Z.of_nat n + v mod 128 ^ Z.of_nat n).
Proof.
  revert v w l i. induction n as [|n IH]; intros v w l i Hv Hw Hb.
  - cbn [highs app]. change (128 ^ Z.of_nat 0) with 1. rewrite Z.mod_1_r. f_equal; lia.
  - rewrite pow128_S in Hb |- *. cbn [highs]. rewrite <- app_assoc.
    pose proof (Z.pow_pos_nonneg 128 (Z.of_nat n) ltac:(lia) ltac:(lia)) as Hp.
    pose proof (Z.div_pos v 128 ltac:(lia) ltac:(lia)).
    rewrite IH by nia. cbn [app varint_loop].
    pose proof (Z.mod_pos_bound v 128 ltac:(lia)). pose proof (Z.mod_pos_bound (v / 128) (128 ^ Z.of_nat n) Hp).
    rewrite (proj2 (Z.ltb_ge _ _)) by lia.
    rewrite group_low, <- Zplus_mod_idemp_l. change (128 mod 128) with 0. rewrite Z.add_0_l, Z.mod_mod by lia.
    rewrite group_push by nia. f_equal; [lia|].
    rewrite (Z.mul_comm (128 ^ _) 128), Z.rem_mul_r by lia. lia.
Qed.

Lemma bytes_needed_spec v :
  127 < v < 2 ^ 64 ->
  (2 <= bytes_needed v <= 9)%nat /\ (bytes_needed v <> 9%nat -> v < 128 ^ Z.of_nat (bytes_needed v)).
Proof.
  intros Hv. unfold bytes_needed. repeat case_match; bool_prop; (split; [lia|intros ?; try lia]); cbn; lia.
Qed.

Lemma varint_bytes_spec v :
  0 <= v < 2 ^ 64 ->
  varint_bytes v = [v] /\ v < 128
  \/ (exists n, (1 <= n <= 7)%nat /\ varint_bytes v = highs n (v / 128) ++ [v mod 128] /\ v < 128 ^ Z.of_nat (S n))
  \/ varint_bytes v = highs 8 (v / 256) ++ [v mod 256].
Proof.
  intros Hv. unfold varint_bytes. case_match eqn:H1; bool_prop; [left; split; [done|lia]|right].
  destruct (bytes_needed_spec v) as [Hn Hlt]; [lia|]. rewrite !encode_high_spec, group_low.
  rewrite !Z.shiftr_div_pow2 by lia. change (2 ^ 7) with 128. change (2 ^ 8) with 256.
  destruct (bytes_needed v =? 9)%nat eqn:H9.
  - right. do 2 f_equal. apply (land_ones_mod v 8). lia.
  - left. apply Nat.eqb_neq in H9. exists (bytes_needed v - 1)%nat. split; [lia|]. split; [done|].
    replace (S (bytes_needed v - 1)) with (bytes_needed v) by lia. by apply Hlt.
Qed.

Lemma varint_bytes_length v : 0 <= v < 2 ^ 64 -> (1 <= length (varint_bytes v) <= 9)%nat.
Proof.
  intros Hv. destruct (varint_bytes_spec v Hv) as [[-> _]|[(n & Hn & -> & _)| ->]]; [cbn; lia| |];
    rewrite length_app, highs_length; cbn; lia.
Qed.

Lemma varint_bytes_byte v : 0 <= v < 2 ^ 64 -> Forall byte (varint_bytes v).
Proof.
  intros Hv. destruct (varint_bytes_spec v Hv) as [[-> ?]|[(n & Hn & -> & ?)| ->]].
  - constructor; [unfold byte; lia|done].
  - apply Forall_app. split; [apply highs_byte|]. constructor; [|done]. unfold byte. pose proof (Z.mod_pos_bound v 128). lia.
  - apply Forall_app. split; [apply highs_byte|]. constructor; [|done]. apply Z.mod_pos_bound. lia.
Qed.

(** ** Decoding what was encoded *)

(** The slice starts with the bytes [l]. *)
Definition starts_with (s : slice) (l : list Z) : Prop :=
  Z.of_nat (length l) <= sl_len s /\ range (sl_mem s) (sl_off s) (Z.of_nat (length l)) = l.

Lemma starts_with_app s l1 l2 :
  starts_with s (l1 ++ l2) <->
  starts_with s l1 /\ starts_with (mkSlice (sl_mem s) (sl_off s + Z.of_nat (length l1)) (sl_len s - Z.of_nat (length l1))) l2.
Proof.
  unfold starts_with. cbn [sl_mem sl_off sl_len]. rewrite length_app, Nat2Z.inj_add. split.
  - intros [Hl Hr]. rewrite range_app in Hr by lia. apply app_inj_1 in Hr as [H1 H2]; [|rewrite range_length; lia].
    repeat split; [lia|done|lia|done].
  - intros [[? H1] [? H2]]. split; [lia|]. by rewrite range_app, H1, H2 by lia.
Qed.

Lemma starts_with_list l1 l2 : starts_with (slice_of_list (l1 ++ l2)) l1.
Proof.
  assert (starts_with (slice_of_list (l1 ++ l2)) (l1 ++ l2)) as H.
  { split; [done|]. apply bytes_of_list. }
  by apply starts_with_app in H as [H _].
Qed.

Lemma prefix_short s l n : starts_with s l -> Z.of_nat (length l) <= n -> exists t, prefix s n = l ++ t.
Proof.
  intros [Hl Hr] Hn. unfold prefix. exists (range (sl_mem s) (sl_off s + Z.of_nat (length l)) (Z.min n (sl_len s) - Z.of_nat (length l))).
  rewrite <- Hr at 1. rewrite <- range_app by lia. f_equal. lia.
Qed.

Lemma prefix_exact s l n : starts_with s l -> Z.of_nat (length l) = n -> prefix s n = l.
Proof. intros [Hl Hr] Hn. unfold prefix. rewrite Z.min_l by lia. by rewrite <- Hn. Qed.

Lemma decode_varint_bytes s v :
  0 <= v < 2 ^ 64 -> starts_with s (varint_bytes v) -> decode_varint s = Ok (i64 v, Z.of_nat (length (varint_bytes v))).
Proof.
  intros Hv Hs. pose proof (varint_bytes_length v Hv) as Hlen.
  unfold decode_varint. rewrite (proj2 (Z.eqb_neq _ _)) by (destruct Hs; lia).
  destruct (varint_bytes_spec v Hv) as [[E H1]|[(n & Hn & E & H1)|E]]; rewrite E in Hs, Hlen |- *.
  - destruct (prefix_short s [v] 8 Hs) as [t ->]; [cbn; lia|]. cbn [app varint_loop].
    rewrite (proj2 (Z.ltb_lt _ _)) by lia. by rewrite group_push by lia.
  - destruct (prefix_short s _ 8 Hs) as [t ->]; [rewrite length_app, highs_length; cbn; lia|].
    pose proof (Z.div_pos v 128 ltac:(lia) ltac:(lia)). pose proof (Z.mod_pos_bound v 128 ltac:(lia)).
    assert (1 * 128 ^ Z.of_nat n <= 2 ^ 57).
    { transitivity (128 ^ 7); [|done]. rewrite Z.mul_1_l. apply Z.pow_le_mono_r; lia. }
    rewrite <- app_assoc, loop_highs by lia.
    rewrite Z.mul_0_l, Z.add_0_l, (Z.mod_small (v / 128)).
    2: { split; [lia|]. apply Z.div_lt_upper_bound; [lia|]. rewrite pow128_S in H1. lia. }
    cbn [app varint_loop]. rewrite (proj2 (Z.ltb_lt (v mod 128) 128)) by lia.
    assert (v / 128 < 2 ^ 57) by (apply Z.div_lt_upper_bound; lia). rewrite group_push by lia.
    rewrite length_app, highs_length. cbn [length]. f_equal. f_equal; [|lia]. f_equal.
    rewrite (Z.div_mod v 128) at 3 by lia. lia.
  - pose proof (proj1 (starts_with_app s _ _) Hs) as [Hh Hl]. rewrite highs_length in Hl.
    rewrite (prefix_exact s _ 8 Hh) by (by rewrite highs_length).
    pose proof (Z.div_pos v 256 ltac:(lia) ltac:(lia)).
    assert (v / 256 < 2 ^ 56) by (apply Z.div_lt_upper_bound; lia).
    pose proof (loop_highs 8 (v / 256) 0 [] 0 ltac:(lia) ltac:(lia) ltac:(cbn; lia)) as Hloop.
    rewrite app_nil_r in Hloop. rewrite Hloop. clear Hloop. cbn [varint_loop]. rewrite Z.mul_0_l, Z.add_0_l, (Z.mod_small (v / 256)) by (split; [done|]; cbn; lia).
    destruct Hl as [Hl8 Hr]. cbn [length sl_len sl_mem sl_off] in Hl8, Hr.
    rewrite (proj2 (Z.leb_le _ _)) by lia. rewrite index_ok by lia. cbn [obind].
    rewrite range_cons in Hr by lia. injection Hr as Hb. change (Z.of_nat 8) with 8 in Hb. rewrite Hb.
    rewrite length_app, highs_length. cbn [length]. do 3 f_equal.
    pose proof (Z.mod_pos_bound v 256 ltac:(lia)).
    rewrite wrap_small, Z.lor_comm, lor_shiftl_add by (try done; try lia; rewrite Z.shiftl_mul_pow2 by lia; split; lia).
    rewrite (Z.div_mod v 256) at 3 by lia. lia.
Qed.

(** [decode_varint] inverts [encode_varint] on every [u64], whatever bytes
    follow, and reports the number of bytes written. *)
Theorem varint_roundtrip (v cap : Z) (rest : list Z) :
  0 <= v < 2 ^ 64 -> 9 <= cap ->
  match encode_varint (E := Error) v cap with
  | Ok l => decode_varint (slice_of_list (l ++ rest)) = Ok (i64 v, Z.of_nat (length l))
  | _ => False
  end.
Proof.
  intros Hv Hc. unfold encode_varint. pose proof (varint_bytes_length v Hv).
  rewrite (proj2 (Z.ltb_ge _ _)) by lia. apply decode_varint_bytes; [done|]. apply starts_with_list.
Qed.

Lemma varint_roundtrip_witness : decode_varint (slice_of_list ([0x81; 0x80; 0x00] ++ [7])) = Ok (16384, 3).
Proof. exact (varint_roundtrip 16384 9 [7] ltac:(lia) ltac:(lia)). Defined.

(** The SQLite reader (src/userspace/libsqlite/src/{header,page,record,btree,lib}.rs).

    A database is a slice with its parsed header.  The scanner's array of
    (page, cell index) pairs and its depth are a list with the top first.  A
    row the iterator yields is a record or an error; the [for] loops over a
    scanner run on binary fuel, [SCAN_FUEL], which is more than the rows any
    bytes can yield (SqliteScanThm.v). *)

(** ** Database header (header.rs) *)

Definition SQLITE_MAGIC : list Z := str "SQLite format 3" ++ [0].

Record DbHeader := mkDbHeader {
  page_size : Z; write_version : Z; read_version : Z; reserved_bytes : Z;
  max_payload_frac : Z; min_payload_frac : Z; leaf_payload_frac : Z;
  change_counter : Z; db_size_pages : Z; first_freelist_trunk : Z; total_freelist_pages : Z;
  schema_cookie : Z; schema_format : Z; default_cache_size : Z; largest_root_btree : Z;
  text_encoding : Z; user_version : Z; incremental_vacuum : Z; application_id : Z;
  version_valid_for : Z; sqlite_version : Z
}.

Definition parse_db_header (data : slice) : outcome Error DbHeader :=
  if sl_len data <? 100 then Err TooSmall else
  let? magic := sub data 0 16 in
  if negb (bool_decide (bytes_of magic = SQLITE_MAGIC)) then Err InvalidMagic else
  let? raw_page_size := be_at 2 data 16 in
  let page_size := if raw_page_size =? 1 then 65536 else raw_page_size in
  if (page_size <? 512) || negb (Z.land page_size (page_size - 1) =? 0) then Err InvalidPageSize else
  let? pages := be_at 4 data 28 in
  let db_size_pages := if pages =? 0 then u32 (sl_len data / page_size) else pages in
  let? write_version := index data 18 in
  let? read_version := index data 19 in
  let? reserved_bytes := index data 20 in
  let? max_payload_frac := index data 21 in
  let? min_payload_frac := index data 22 in
  let? leaf_payload_frac := index data 23 in
  let? change_counter := be_at 4 data 24 in
  let? first_freelist_trunk := be_at 4 data 32 in
  let? total_freelist_pages := be_at 4 data 36 in
  let? schema_cookie := be_at 4 data 40 in
  let? schema_format := be_at 4 data 44 in
  let? default_cache_size := be_at 4 data 48 in
  let? largest_root_btree := be_at 4 data 52 in
  let? text_encoding := be_at 4 data 56 in
  let? user_version := be_at 4 data 60 in
  let? incremental_vacuum := be_at 4 data 64 in
  let? application_id := be_at 4 data 68 in
  let? version_valid_for := be_at 4 data 92 in
  let? sqlite_version := be_at 4 data 96 in
  Ok (mkDbHeader page_size write_version read_version reserved_bytes max_payload_frac min_payload_frac
        leaf_payload_frac change_counter db_size_pages first_freelist_trunk total_freelist_pages schema_cookie
        schema_format default_cache_size largest_root_btree text_encoding user_version incremental_vacuum
        application_id version_valid_for sqlite_version).

(** ** Page header (page.rs) *)

Inductive PageType := InteriorIndex | InteriorTable | LeafIndex | LeafTable.

Definition page_type_from_byte (b : Z) : outcome Error PageType :=
  if b =? 0x02 then Ok InteriorIndex
  else if b =? 0x05 then Ok InteriorTable
  else if b =? 0x0a then Ok LeafIndex
  else if b =? 0x0d then Ok LeafTable
  else Err InvalidPageType.

Definition is_leaf (t : PageType) : bool := match t with LeafIndex | LeafTable => true | _ => false end.
Definition is_table (t : PageType) : bool := match t with InteriorTable | LeafTable => true | _ => false end.

Record BTreePageHeader := mkPageHeader {
  page_type : PageType; first_freeblock : Z; cell_count : Z; cell_content_start : Z;
  fragmented_bytes : Z; right_pointer : option Z
}.

Definition parse_page_header (page : slice) (header_offset : Z) : outcome Error BTreePageHeader :=
  if sl_len page <? header_offset + 8 then Err TooSmall else
  let? data := from page header_offset in
  let? b := index data 0 in
  let? page_type := page_type_from_byte b in
  let? first_freeblock := be_at 2 data 1 in
  let? cell_count := be_at 2 data 3 in
  let? cell_content_start := be_at 2 data 5 in
  let? fragmented_bytes := index data 7 in
  let? right_pointer :=
    (if negb (is_leaf page_type) then
       if sl_len data <? 12 then Err TooSmall else let? p := be_at 4 data 8 in Ok (Some p)
     else Ok None) in
  Ok (mkPageHeader page_type first_freeblock cell_count cell_content_start fragmented_bytes right_pointer).

Definition header_size (h : BTreePageHeader) : Z := if is_leaf (page_type h) then 8 else 12.

(** [get_cell_pointers(page, header, header_offset).nth(n)]: the iterator reads
    every pointer up to the one it returns. *)
Definition cell_pointer (page : slice) (h : BTreePageHeader) (header_offset n : Z) : outcome Error (option Z) :=
  let array_start := header_offset + header_size h in
  if n <? cell_count h then let? o := be_at 2 page (array_start + n * 2) in Ok (Some o)
  else if cell_count h =? 0 then Ok None
  else let? _ := be_at 2 page (array_start + (cell_count h - 1) * 2) in Ok None.

(** ** Records (record.rs) *)

(** A float is its bit pattern. *)
Inductive Value :=
| Null
| Integer (v : Z)
| Float (bits : Z)
| Blob (b : slice)
| Text (s : slice).

Definition as_int (v : Value) : option Z := match v with Integer v => Some v | _ => None end.
Definition as_text (v : Value) : option slice := match v with Text s => Some s | _ => None end.
Definition as_blob (v : Value) : option slice := match v with Blob b => Some b | _ => None end.

Record Record_ := mkRecord { rowid : Z; values : slice; types : slice; column_count : Z }.

(** The column count; each round reads one type code of at least one byte. *)
Fixpoint count_columns (fuel : nat) (types : slice) (pos count : Z) : outcome Error Z :=
  if pos <? sl_len types then
    match fuel with
    | O => Panic
    | S fuel =>
        let? t := from types pos in
        let? (_, len) := decode_varint t in
        count_columns fuel types (pos + len) (count + 1)
    end
  else Ok count.

Definition parse_record (rowid : Z) (payload : slice) : outcome Error Record_ :=
  if sl_len payload =? 0 then Err InvalidRecord else
  let? (header_size, header_size_len) := decode_varint payload in
  let header_size := u64 header_size in
  if (sl_len payload <? header_size) || (header_size <? header_size_len) then Err InvalidRecord else
  let? types := sub payload header_size_len header_size in
  let? values := from payload header_size in
  let? count := count_columns (Z.to_nat (sl_len types)) types 0 0 in
  Ok (mkRecord rowid values types count).

Definition value_size (type_code : Z) : Z :=
  match type_code with
  | 0 | 8 | 9 => 0
  | 1 => 1 | 2 => 2 | 3 => 3 | 4 => 4 | 5 => 6 | 6 | 7 => 8
  | n => if (12 <=? n) && (n mod 2 =? 0) then (n - 12) / 2
         else if (13 <=? n) && (n mod 2 =? 1) then (n - 13) / 2
         else 0
  end.

(** An integer of [n] big-endian bytes, when there are that many. *)
Definition int_at (n : nat) (data : slice) (extend : Z -> Z) : outcome Error (option Value) :=
  if sl_len data <? Z.of_nat n then Ok None else
  let? v := be_at n data 0 in Ok (Some (Integer (extend v))).

(** [val as i8], [i16::from_be_bytes] and so on: the value of a [w]-bit word. *)
Definition signed_word (w z : Z) : Z := (z + 2 ^ (w - 1)) mod 2 ^ w - 2 ^ (w - 1).

(** [if val & sign != 0 { val | !mask } else { val }] *)
Definition extend_sign (sign mask v : Z) : Z := if Z.land v sign =? 0 then v else Z.lor v (Z.lnot mask).

(** The arms for blobs and texts. *)
Definition decode_bytes (data : slice) (n : Z) : outcome Error (option Value) :=
  if (12 <=? n) && (n mod 2 =? 0) then
    let len := (n - 12) / 2 in
    if sl_len data <? len then Ok None else let? b := sub data 0 len in Ok (Some (Blob b))
  else if (13 <=? n) && (n mod 2 =? 1) then
    let len := (n - 13) / 2 in
    if sl_len data <? len then Ok None else
    let? t := sub data 0 len in
    Ok (if utf8_valid (bytes_of t) then Some (Text t) else None)
  else Ok None.

Definition decode_value (values : slice) (type_code pos : Z) : outcome Error (option Value) :=
  let? data := from values pos in
  match type_code with
  | 0 => Ok (Some Null)
  | 1 => int_at 1 data (signed_word 8)
  | 2 => int_at 2 data (signed_word 16)
  | 3 => int_at 3 data (extend_sign 0x800000 0xFFFFFF)
  | 4 => int_at 4 data (signed_word 32)
  | 5 => int_at 6 data (extend_sign 0x800000000000 0xFFFFFFFFFFFF)
  | 6 => int_at 8 data (signed_word 64)
  | 7 => if sl_len data <? 8 then Ok None else let? bits := be_at 8 data 0 in Ok (Some (Float bits))
  | 8 => Ok (Some (Integer 0))
  | 9 => Ok (Some (Integer 1))
  | n => decode_bytes data n
  end.

(** The loop of [get]: [n] columns to skip. *)
Fixpoint get_loop (r : Record_) (n : nat) (type_pos value_pos : Z) : outcome Error (option Value) :=
  let? t := from (types r) type_pos in
  match decode_varint t with
  | Err _ => Ok None
  | Panic => Panic
  | Ok (type_code, type_len) =>
      let type_code := u64 type_code in
      match n with
      | O => decode_value (values r) type_code value_pos
      | S n => get_loop r n (type_pos + type_len) (u64 (value_pos + value_size type_code))
      end
  end.

Definition get (r : Record_) (index : Z) : outcome Error (option Value) :=
  if column_count r <=? index then Ok None else get_loop r (Z.to_nat index) 0 0.

(** ** The database (lib.rs) *)

Record SqliteDb := mkDb { db_data : slice; db_header : DbHeader }.

Definition open (data : slice) : outcome Error SqliteDb :=
  let? header := parse_db_header data in Ok (mkDb data header).

Definition db_page (db : SqliteDb) (page_num : Z) : outcome Error slice :=
  if (page_num =? 0) || (db_size_pages (db_header db) <? page_num) then Err PageOutOfBounds else
  let start := (page_num - 1) * page_size (db_header db) in
  let end_ := start + page_size (db_header db) in
  if sl_len (db_data db) <? end_ then Err PageOutOfBounds else sub (db_data db) start end_.

(** ** The table scanner (btree.rs) *)

Definition MAX_DEPTH : Z := 64.

Record TableScanner := mkScanner { sc_stack : list (Z * Z); finished : bool }.

Definition header_offset (page_num : Z) : Z := if page_num =? 1 then 100 else 0.

(** The page and its parsed header. *)
Definition page_at (db : SqliteDb) (page_num : Z) : outcome Error (slice * BTreePageHeader) :=
  let? page := db_page db page_num in
  let? h := parse_page_header page (header_offset page_num) in
  Ok (page, h).

(** The child pointer at the start of an interior cell. *)
Definition left_child (page : slice) (cell_offset : Z) : outcome Error Z :=
  let? cell := from page cell_offset in
  if sl_len cell <? 4 then Err InvalidRecord else be_at 4 cell 0.

Definition get_first_child (page : slice) (h : BTreePageHeader) (header_offset : Z) : outcome Error Z :=
  if cell_count h =? 0 then
    match right_pointer h with Some p => Ok p | None => Err InvalidPageType end
  else
    let? first := cell_pointer page h header_offset 0 in
    match first with
    | Some first_cell_offset => left_child page first_cell_offset
    | None => Err InvalidRecord
    end.

(** Each round pushes a page, so 65 rounds reach the depth test. *)
Fixpoint descend (fuel : nat) (db : SqliteDb) (stack : list (Z * Z)) (page_num : Z) : outcome Error (list (Z * Z)) :=
  match fuel with
  | O => Panic
  | S fuel =>
      if MAX_DEPTH <=? Z.of_nat (length stack) then Err PageOutOfBounds else
      let? (page, h) := page_at db page_num in
      let stack := (page_num, 0) :: stack in
      if is_leaf (page_type h) then Ok stack else
      let? child_page := get_first_child page h (header_offset page_num) in
      descend fuel db stack child_page
  end.

Definition descend_to_leaf (db : SqliteDb) (stack : list (Z * Z)) (page_num : Z) : outcome Error (list (Z * Z)) :=
  descend 65 db stack page_num.

Definition new_scanner (db : SqliteDb) (root_page : Z) : outcome Error TableScanner :=
  let? stack := descend_to_leaf db [] root_page in Ok (mkScanner stack false).

Definition parse_leaf_cell (page : slice) (cell_offset : Z) : outcome Error Record_ :=
  let? cell := from page cell_offset in
  let? (payload_size, ps_len) := decode_varint cell in
  let? after := from cell ps_len in
  let? (rowid, rowid_len) := decode_varint after in
  let payload_start := ps_len + rowid_len in
  let payload_end := u64 (payload_start + u64 payload_size) in
  if sl_len cell <? payload_end then
    if sl_len cell - payload_start =? 0 then Err InvalidRecord else
    let? payload := from cell payload_start in parse_record rowid payload
  else
    let? payload := sub cell payload_start payload_end in parse_record rowid payload.

(** The position after the current one: the stack, or [None] when it is empty. *)
Fixpoint advance (db : SqliteDb) (stack : list (Z * Z)) : outcome Error (option (list (Z * Z))) :=
  match stack with
  | [] => Ok None
  | (page_num, cell_idx) :: rest =>
      let? (page, h) := page_at db page_num in
      let next_cell := u16 (cell_idx + 1) in
      if is_leaf (page_type h) then
        if next_cell <? cell_count h then Ok (Some ((page_num, next_cell) :: rest)) else advance db rest
      else if next_cell <? cell_count h then
        let? o := cell_pointer page h (header_offset page_num) next_cell in
        match o with
        | None => Err InvalidRecord
        | Some cell_offset =>
            let? child := left_child page cell_offset in
            let? stack := descend_to_leaf db ((page_num, next_cell) :: rest) child in
            Ok (Some stack)
        end
      else if next_cell =? cell_count h then
        match right_pointer h with
        | Some right_ptr => let? stack := descend_to_leaf db ((page_num, next_cell) :: rest) right_ptr in Ok (Some stack)
        | None => advance db rest
        end
      else advance db rest
  end.

(** The record at the top of the stack, [None] past the last cell. *)
Definition current_row (db : SqliteDb) (page_num cell_idx : Z) : outcome Error (option Record_) :=
  let? (page, h) := page_at db page_num in
  if negb (is_leaf (page_type h)) || negb (is_table (page_type h)) then Err InvalidPageType else
  let? o := cell_pointer page h (header_offset page_num) cell_idx in
  match o with
  | None => Ok None
  | Some cell_offset => let? r := parse_leaf_cell page cell_offset in Ok (Some r)
  end.

Definition next (db : SqliteDb) (sc : TableScanner) : outcome Error (TableScanner * option (Record_ + Error)) :=
  let done_ := mkScanner (sc_stack sc) true in
  if finished sc then Ok (sc, None) else
  match sc_stack sc with
  | [] => Ok (done_, None)
  | (page_num, cell_idx) :: _ =>
      match current_row db page_num cell_idx with
      | Panic => Panic
      | Err e => Ok (done_, Some (inr e))
      | Ok None => Ok (done_, None)
      | Ok (Some record) =>
          match advance db (sc_stack sc) with
          | Panic => Panic
          | Err e => Ok (done_, Some (inr e))
          | Ok None => Ok (mkScanner [] true, Some (inl record))
          | Ok (Some stack) => Ok (mkScanner stack false, Some (inl record))
          end
      end
  end.

(** ** Loops over a scanner *)

(** Run a step until it breaks with a result, at most [n] times. *)
Fixpoint iter_pos {S R E} (n : positive) (step : S -> outcome E (S + R)) (s : S) : outcome E (S + R) :=
  match n with
  | xH => step s
  | xO n =>
      let? r := iter_pos n step s in
      match r with inl s => iter_pos n step s | inr r => Ok (inr r) end
  | xI n =>
      let? r := step s in
      match r with
      | inr r => Ok (inr r)
      | inl s =>
          let? r := iter_pos n step s in
          match r with inl s => iter_pos n step s | inr r => Ok (inr r) end
      end
  end.

Definition SCAN_FUEL : positive := Pos.pow 2 1200.

Section rows.
Context (db : SqliteDb) {A R : Type} (body : A -> Record_ + Error -> outcome Error (A + R)).

Definition row_step (st : TableScanner * A) : outcome Error (TableScanner * A + (A + R)) :=
  let '(sc, a) := st in
  let? (sc, item) := next db sc in
  match item with
  | None => Ok (inr (inl a))
  | Some item =>
      let? r := body a item in
      Ok (match r with inl a => inl (sc, a) | inr r => inr (inr r) end)
  end.

(** [for result in scanner { body }]: [inl] when the rows are used up, [inr]
    when the body breaks or returns. *)
Definition for_rows (sc : TableScanner) (a : A) : outcome Error (A + R) :=
  let? r := iter_pos SCAN_FUEL row_step (sc, a) in
  match r with inr r => Ok r | inl _ => Panic end.
End rows.

(** [matches!(v, Some(Value::Text(s)) if s == name)] *)
Definition is_text (v : option Value) (name : list Z) : bool :=
  match v with Some (Text s) => bool_decide (bytes_of s = name) | _ => false end.

Definition find_table_root (db : SqliteDb) (table_name : list Z) : outcome Error Z :=
  let? sc := new_scanner db 1 in
  let? r := for_rows db (fun _ item =>
    match item with
    | inr e => Err e
    | inl record =>
        if 4 <=? column_count record then
          let? type_val := get record 0 in
          let? name := get record 1 in
          let? root := get record 3 in
          match root with
          | Some (Integer root) =>
              Ok (if is_text type_val (str "table") && is_text name table_name then inr (u32 root) else inl tt)
          | _ => Ok (inl tt)
          end
        else Ok (inl tt)
    end) sc tt in
  match r with inr root => Ok root | inl _ => Err TableNotFound end.

Definition table_scan (db : SqliteDb) (table_name : list Z) : outcome Error TableScanner :=
  let? root_page := find_table_root db table_name in new_scanner db root_page.

Definition query_by_name (db : SqliteDb) (table_name name : list Z) : outcome Error (option Record_) :=
  let? sc := table_scan db table_name in
  let? r := for_rows db (fun _ item =>
    match item with
    | inr e => Err e
    | inl record =>
        let? v := get record 1 in
        Ok (if is_text v name then inr record else inl tt)
    end) sc tt in
  match r with inr record => Ok (Some record) | inl _ => Ok None end.
