(* ===== verification/SqlWrite.v ===== *)
(** The database buffer of the synapse service
    (src/userspace/synapse-service/src/state.rs) and its page-level writes
    (src/userspace/synapse-service/src/btree.rs, first half). *)

From S2P Require Import Prelude Bytes Slice SqliteDb.

(** The database buffer of the synapse service
    (src/userspace/synapse-service/src/state.rs).

    The 4 MiB array and the dirty bitmap are byte arrays.  A function that
    mutates the buffer is a computation with the buffer as its state; inside a
    function body the error channel carries an early [return]. *)

Open Scope kernel_scope.

Definition MAX_DB_SIZE : Z := 4 * 1024 * 1024.
Definition MAX_PAGES : Z := MAX_DB_SIZE / 4096.

Inductive SqliteBufferError :=
| OutOfBounds (offset len max : Z)
| NotValid.

Record SafeSqliteBuffer := mkBuffer { data : mem; size : Z; valid : bool; dirty : mem }.

#[global] Instance SafeSqliteBuffer_eta : Eta SafeSqliteBuffer := fun b => mkBuffer (data b) (size b) (valid b) (dirty b).
#[global] Instance buffer_data_set : Setter data := ltac:(derive_setter).
#[global] Instance buffer_size_set : Setter size := ltac:(derive_setter).
#[global] Instance buffer_valid_set : Setter valid := ltac:(derive_setter).
#[global] Instance buffer_dirty_set : Setter dirty := ltac:(derive_setter).

Definition new_buffer : SafeSqliteBuffer := mkBuffer (fun _ => 0) 0 false (fun _ => 0).

Definition set_valid (v : bool) (b : SafeSqliteBuffer) : SafeSqliteBuffer := b <| valid := v |>.

Definition set_size (n : Z) (b : SafeSqliteBuffer) : SafeSqliteBuffer := b <| size := Z.min n MAX_DB_SIZE |>.

Definition loaded (b : SafeSqliteBuffer) : slice := mkSlice (data b) 0 (size b).

(** ** Reads *)

Definition read_byte (b : SafeSqliteBuffer) (offset : Z) : outcome SqliteBufferError Z :=
  if size b <=? offset then Err (OutOfBounds offset 1 (size b)) else Ok (data b offset).

Definition read_slice (b : SafeSqliteBuffer) (offset len : Z) : outcome SqliteBufferError slice :=
  match checked_add 64 offset len with
  | None => Err (OutOfBounds offset len (size b))
  | Some end_ =>
      if size b <? end_ then Err (OutOfBounds offset len (size b)) else Ok (mkSlice (data b) offset len)
  end.

Definition read_be (n : nat) (b : SafeSqliteBuffer) (offset : Z) : outcome SqliteBufferError Z :=
  let? s := read_slice b offset (Z.of_nat n) in Ok (from_be_bytes (bytes_of s)).

Definition read_be_u16 : SafeSqliteBuffer -> Z -> outcome SqliteBufferError Z := read_be 2.
Definition read_be_u32 : SafeSqliteBuffer -> Z -> outcome SqliteBufferError Z := read_be 4.

(** ** Dirty pages *)

Definition set_dirty_bit (m : mem) (p : Z) : mem :=
  fun i => if i =? p / 8 then Z.lor (m i) (u8 (Z.shiftl 1 (p mod 8))) else m i.

Definition mark_page_dirty (page_num : Z) (b : SafeSqliteBuffer) : SafeSqliteBuffer :=
  if page_num <? MAX_PAGES then b <| dirty := set_dirty_bit (dirty b) page_num |> else b.

Definition mark_range_dirty (offset len : Z) (b : SafeSqliteBuffer) : SafeSqliteBuffer :=
  let start_page := offset / 4096 in
  let end_page := (offset + len + 4095) / 4096 in
  b <| dirty := foldl set_dirty_bit (dirty b) (seqZ start_page (Z.min end_page MAX_PAGES - start_page)) |>.

Definition is_page_dirty (b : SafeSqliteBuffer) (page_num : Z) : bool :=
  if MAX_PAGES <=? page_num then false
  else negb (Z.land (dirty b (page_num / 8)) (u8 (Z.shiftl 1 (page_num mod 8))) =? 0).

Definition clear_dirty (b : SafeSqliteBuffer) : SafeSqliteBuffer := b <| dirty := fun _ => 0 |>.

(** ** Writes *)

Definition write_byte (offset byte : Z) : M SafeSqliteBuffer SqliteBufferError unit :=
  fail_if (MAX_DB_SIZE <=? offset) (OutOfBounds offset 1 MAX_DB_SIZE) ;;;
  modify (fun b => mark_page_dirty (offset / 4096) (b <| data := blit (data b) offset [byte] |>)).

Definition write_slice (offset : Z) (src : list Z) : M SafeSqliteBuffer SqliteBufferError unit :=
  let len := Z.of_nat (length src) in
  end_ <- ok_or (checked_add 64 offset len) (OutOfBounds offset len MAX_DB_SIZE) ;;
  fail_if (MAX_DB_SIZE <? end_) (OutOfBounds offset len MAX_DB_SIZE) ;;;
  modify (fun b => mark_range_dirty offset len (b <| data := blit (data b) offset src |>)).

Definition write_be_u16 (offset val : Z) : M SafeSqliteBuffer SqliteBufferError unit := write_slice offset (be_bytes 2 val).
Definition write_be_u32 (offset val : Z) : M SafeSqliteBuffer SqliteBufferError unit := write_slice offset (be_bytes 4 val).

(** The header words at offsets 24 and 28 are read and written without bounds. *)
Definition increment_change_counter (b : SafeSqliteBuffer) : SafeSqliteBuffer :=
  let cc := from_be_bytes (range (data b) 24 4) in
  mark_page_dirty 0 (b <| data := blit (data b) 24 (be_bytes 4 (u32 (cc + 1))) |>).

Definition page_count (b : SafeSqliteBuffer) : Z := from_be_bytes (range (data b) 28 4).

Definition set_page_count (count : Z) (b : SafeSqliteBuffer) : SafeSqliteBuffer :=
  mark_page_dirty 0 (b <| data := blit (data b) 28 (be_bytes 4 count) |>).

(** ** Function bodies *)

Section body.
Context {R : Type}.

(** [match r { Ok(a) => a, Err(_) => return r }] *)
Definition or_return {E A} (f : SafeSqliteBuffer -> outcome E A) (r : R) : M SafeSqliteBuffer R A :=
  fun b => match f b with Ok a => (b, Ok a) | Err _ => (b, Err r) | Panic => (b, Panic) end.

(** [let _ = write(..);] *)
Definition ignore_err (m : M SafeSqliteBuffer SqliteBufferError unit) : M SafeSqliteBuffer R unit :=
  fun b => match m b with (b, Panic) => (b, Panic) | (b, _) => (b, Ok tt) end.

(** [if write(..).is_err() { return r; }] *)
Definition or_fail (m : M SafeSqliteBuffer SqliteBufferError unit) (r : R) : M SafeSqliteBuffer R unit :=
  fun b => match m b with (b, Ok _) => (b, Ok tt) | (b, Err _) => (b, Err r) | (b, Panic) => (b, Panic) end.

(** The value of a body, returned early or at its end. *)
Definition returned {E} (m : M SafeSqliteBuffer R R) : M SafeSqliteBuffer E R :=
  fun b => match m b with (b, Ok r) | (b, Err r) => (b, Ok r) | (b, Panic) => (b, Panic) end.
End body.

(** [r.unwrap_or(d)] *)
Definition unwrap_or {E A} (r : outcome E A) (d : A) : A := match r with Ok a => a | _ => d end.

(** ** Laws of bodies *)

Lemma bind_gets {S E A B} (f : S -> A) (k : A -> M S E B) s : M_bind k (gets f) s = k (f s) s.
Proof. done. Qed.

Lemma bind_fail_if {S E B} (c : bool) (e : E) (k : unit -> M S E B) s : M_bind k (fail_if c e) s = if c then (s, Err e) else k tt s.
Proof. by destruct c. Qed.

Lemma bind_Ok {S E A B} (m : M S E A) (k : A -> M S E B) s s' r :
  M_bind k m s = (s', Ok r) -> exists s1 a, m s = (s1, Ok a) /\ k a s1 = (s', Ok r).
Proof. unfold M_bind. destruct (m s) as [s1 [a|e|]]; [|done|done]. intros H. by exists s1, a. Qed.

Lemma bind_or_return {E R A B} (f : SafeSqliteBuffer -> outcome E A) (r : R) (k : A -> M SafeSqliteBuffer R B) b :
  M_bind k (or_return f r) b = match f b with Ok a => k a b | Err _ => (b, Err r) | Panic => (b, Panic) end.
Proof. unfold M_bind, or_return. by destruct (f b). Qed.

(** Page-level writes of the synapse service
    (src/userspace/synapse-service/src/btree.rs, first half): integer encoding,
    overflow pages, leaf search, new leaves, cell removal. *)

(** ** Overflow pages *)

Definition compute_overflow_split {E} (payload_size usable_size : Z) : outcome E (Z * Z) :=
  let max_local := saturating_sub usable_size 35 in
  if payload_size <=? max_local then Ok (payload_size, 0) else
  let min_local := saturating_sub (saturating_sub usable_size 12 * 32 / 255) 23 in
  let ring := saturating_sub usable_size 4 in
  let excess := saturating_sub payload_size min_local in
  if ring =? 0 then Panic else
  let n := min_local + excess mod ring in
  let local := if n <=? max_local then n else min_local in
  Ok (local, payload_size - local).

(** [for off in start..start + n { let _ = buf.write_byte(off, 0); }] *)
Fixpoint zero_bytes {R} (n : nat) (off : Z) : M SafeSqliteBuffer R unit :=
  match n with
  | O => M_ret tt
  | S n => ignore_err (write_byte off 0) ;;; zero_bytes n (off + 1)
  end.

(** The loop over the pages of a chain: [n] pages are left, [data] is what they
    hold, [page_num] the first of them. *)
Fixpoint write_chain (n : nat) (page_num page_size usable_size : Z) (data : list Z) : M SafeSqliteBuffer (option Z) unit :=
  match n with
  | O => M_ret tt
  | S n =>
      let chunk_size := saturating_sub usable_size 4 in
      let page_off := (page_num - 1) * page_size in
      let next_page := match n with O => 0 | S _ => u32 (page_num + 1) end in
      or_fail (write_be_u32 page_off next_page) None ;;;
      let chunk := take (Z.to_nat chunk_size) data in
      let chunk_len := Z.of_nat (length chunk) in
      or_fail (write_slice (page_off + 4) chunk) None ;;;
      (if chunk_len <? chunk_size then zero_bytes (Z.to_nat (usable_size - 4 - chunk_len)) (page_off + 4 + chunk_len)
       else M_ret tt) ;;;
      modify (mark_page_dirty (page_num - 1)) ;;;
      write_chain n (page_num + 1) page_size usable_size (drop (Z.to_nat chunk_size) data)
  end.

(** [usize::div_ceil] *)
Definition div_ceil (a b : Z) : Z := (a + b - 1) / b.

Definition allocate_overflow_chain {E} (data : list Z) (page_size usable_size : Z) : M SafeSqliteBuffer E (option Z) :=
  returned (
    fail_if (Z.of_nat (length data) =? 0) None ;;;
    let chunk_size := saturating_sub usable_size 4 in
    fail_if (chunk_size =? 0) None ;;;
    let pages_needed := div_ceil (Z.of_nat (length data)) chunk_size in
    count <- gets page_count ;;
    let start_page := count + 1 in
    let end_page := start_page + pages_needed - 1 in
    fail_if (MAX_DB_SIZE <? end_page * page_size) None ;;;
    write_chain (Z.to_nat pages_needed) start_page page_size usable_size data ;;;
    modify (set_page_count (u32 end_page)) ;;;
    modify (set_size (end_page * page_size)) ;;;
    modify increment_change_counter ;;;
    M_ret (Some (u32 start_page))).

(** ** Integers *)

Definition pick_integer_type (val : Z) : Z :=
  if val =? 0 then 8
  else if val =? 1 then 9
  else if val <=? 0xFF then 1
  else if val <=? 0xFFFF then 2
  else if val <=? 0xFFFFFF then 3
  else if val <=? 0xFFFFFFFF then 4
  else if val <=? 0xFFFFFFFFFF then 5
  else 6.

Definition integer_type_size (type_code : Z) : Z :=
  match type_code with
  | 1 => 1 | 2 => 2 | 3 => 3 | 4 => 4 | 5 => 6 | 6 => 8
  | _ => 0
  end.

(** The bytes written to the caller's eight-byte buffer. *)
Definition encode_integer_value (val type_code : Z) : list Z :=
  match integer_type_size type_code with
  | 1 => [u8 val]
  | 2 => be_bytes 2 (u16 val)
  | 3 => drop 1 (be_bytes 4 (u32 val))
  | 4 => be_bytes 4 (u32 val)
  | 6 => drop 2 (be_bytes 8 val)
  | 8 => be_bytes 8 val
  | _ => []
  end.

(** ** Finding the leaf *)

Definition page_start (page page_sz : Z) : Z := u64 ((page - 1) * page_sz).

Fixpoint rightmost_loop (n : nat) (b : SafeSqliteBuffer) (current_page page_sz : Z) : Z :=
  match n with
  | O => 0
  | S n =>
      if (current_page =? 0) || (page_count b <? current_page) then 0 else
      let off := page_start current_page page_sz + header_offset current_page in
      match read_byte b off with
      | Ok page_type =>
          if page_type =? 0x0d then current_page
          else if page_type =? 0x05 then
            match read_be_u32 b (off + 8) with
            | Ok rp => rightmost_loop n b rp page_sz
            | _ => 0
            end
          else 0
      | _ => 0
      end
  end.

Definition find_rightmost_leaf (b : SafeSqliteBuffer) (root_page page_sz : Z) : Z := rightmost_loop 10 b root_page page_sz.

Fixpoint parent_loop (n : nat) (parent_page old_leaf new_leaf page_sz : Z) (b : SafeSqliteBuffer) : SafeSqliteBuffer :=
  match n with
  | O => b
  | S n =>
      let off := u64 (page_start parent_page page_sz + header_offset parent_page) in
      match read_byte b off with
      | Ok ptype =>
          if ptype =? 0x05 then
            let rp_off := u64 (off + 8) in
            match read_be_u32 b rp_off with
            | Ok right_child =>
                if right_child =? old_leaf then
                  mark_page_dirty (u64 (parent_page - 1)) (fst (write_be_u32 rp_off new_leaf b))
                else parent_loop n right_child old_leaf new_leaf page_sz (mark_page_dirty (u64 (parent_page - 1)) b)
            | _ => b
            end
          else b
      | _ => b
      end
  end.

Definition update_parent_right_pointer (root_page old_leaf new_leaf page_sz : Z) : SafeSqliteBuffer -> SafeSqliteBuffer :=
  parent_loop 10 root_page old_leaf new_leaf page_sz.

(** ** A new leaf *)

Definition allocate_new_leaf_page {E} (root_page leaf_page : Z) (cell_buf : list Z) (page_sz : Z) : M SafeSqliteBuffer E bool :=
  returned (
    count <- gets page_count ;;
    let new_page_num := count + 1 in
    let np := count * page_sz in
    fail_if (MAX_DB_SIZE <? np + page_sz) false ;;;
    let new_cell_start := u64 (page_sz - Z.of_nat (length cell_buf)) in
    ignore_err (write_byte np 0x0d) ;;;
    ignore_err (write_byte (np + 1) 0) ;;;
    ignore_err (write_byte (np + 2) 0) ;;;
    ignore_err (write_be_u16 (np + 3) 1) ;;;
    ignore_err (write_be_u16 (np + 5) (u16 new_cell_start)) ;;;
    ignore_err (write_byte (np + 7) 0) ;;;
    ignore_err (write_slice (u64 (np + new_cell_start)) cell_buf) ;;;
    ignore_err (write_be_u16 (np + 8) (u16 new_cell_start)) ;;;
    modify (set_page_count (u32 new_page_num)) ;;;
    modify increment_change_counter ;;;
    modify (update_parent_right_pointer root_page leaf_page (u32 new_page_num) page_sz) ;;;
    modify (set_size (new_page_num * page_sz)) ;;;
    modify (mark_page_dirty (new_page_num - 1)) ;;;
    M_ret true).

(** ** The leaves of a tree *)

(** The children pushed for an interior page, in the order they are pushed. *)
Definition interior_children (b : SafeSqliteBuffer) (page_off hdr_off : Z) : list Z :=
  let cell_count := unwrap_or (read_be_u16 b (page_off + hdr_off + 3)) 0 in
  let right_ptr := unwrap_or (read_be_u32 b (page_off + hdr_off + 8)) 0 in
  (if right_ptr =? 0 then [] else [right_ptr]) ++
  omap (fun i =>
    match read_be_u16 b (page_off + hdr_off + 12 + i * 2) with
    | Ok cell_offset =>
        match read_be_u32 b (page_off + cell_offset) with
        | Ok child => if child =? 0 then None else Some child
        | _ => None
        end
    | _ => None
    end) (seqZ 0 (Z.min cell_count 64)).

(** The depth-first loop; [n] is the number of visits left before the cap. *)
Fixpoint collect_loop (n : nat) (b : SafeSqliteBuffer) (page_sz : Z) (stack out : list Z) : list Z :=
  match stack, n with
  | [], _ | _, O => out
  | page :: stack, S n =>
      if (page =? 0) || (page_count b <? page) then collect_loop n b page_sz stack out else
      let page_off := (page - 1) * page_sz in
      let hdr_off := header_offset page in
      match read_byte b (page_off + hdr_off) with
      | Ok ptype =>
          if ptype =? 0x0d then collect_loop n b page_sz stack (out ++ [page])
          else if ptype =? 0x05 then collect_loop n b page_sz (rev (interior_children b page_off hdr_off) ++ stack) out
          else collect_loop n b page_sz stack out
      | _ => collect_loop n b page_sz stack out
      end
  end.

Definition collect_leaf_pages (b : SafeSqliteBuffer) (root_page page_sz : Z) : list Z :=
  collect_loop 256 b page_sz [root_page] [].

(** ** Removing a cell *)

(** [decode_varint] of btree.rs: bytes beyond the database read as zero. *)
Fixpoint buf_varint_loop (n : nat) (i : Z) (b : SafeSqliteBuffer) (start value : Z) : Z * Z :=
  match n with
  | O => (value, 9)
  | S n =>
      let byte := unwrap_or (read_byte b (start + i)) 0 in
      if i =? 8 then (Z.lor (u64 (Z.shiftl value 8)) byte, 9) else
      let value := Z.lor (u64 (Z.shiftl value 7)) (Z.land byte 0x7f) in
      if Z.land byte 0x80 =? 0 then (value, i + 1) else buf_varint_loop n (i + 1) b start value
  end.

Definition buf_decode_varint (b : SafeSqliteBuffer) (start : Z) : Z * Z := buf_varint_loop 9 0 b start 0.

(** The pointers at indices [i ..] move one slot to the left; [n] moves. *)
Fixpoint shift_pointers (n : nat) (i ptr_array : Z) : M SafeSqliteBuffer bool unit :=
  match n with
  | O => M_ret tt
  | S n =>
      next_ptr <- or_return (fun b => read_be_u16 b (ptr_array + (i + 1) * 2)) false ;;
      or_fail (write_be_u16 (ptr_array + i * 2) next_ptr) false ;;;
      shift_pointers n (i + 1) ptr_array
  end.

Definition remove_cell_pointer {E} (leaf_page page_sz cell_idx : Z) : M SafeSqliteBuffer E bool :=
  let page_off := (leaf_page - 1) * page_sz in
  let hdr := page_off + header_offset leaf_page in
  returned (
    cell_count <- gets (fun b => unwrap_or (read_be_u16 b (hdr + 3)) 0) ;;
    fail_if (cell_count <=? cell_idx) false ;;;
    let ptr_array := hdr + 8 in
    shift_pointers (Z.to_nat (cell_count - 1 - cell_idx)) cell_idx ptr_array ;;;
    ignore_err (write_be_u16 (ptr_array + (cell_count - 1) * 2) 0) ;;;
    or_fail (write_be_u16 (hdr + 3) (u16 (cell_count - 1))) false ;;;
    modify increment_change_counter ;;;
    modify (mark_page_dirty (leaf_page - 1)) ;;;
    M_ret true).

(** The first of [n] cells from index [i] on with the given rowid. *)
Fixpoint find_cell (n : nat) (i : Z) (b : SafeSqliteBuffer) (page_off hdr_off target_rowid : Z) : option Z :=
  match n with
  | O => None
  | S n =>
      let cell_offset := unwrap_or (read_be_u16 b (page_off + hdr_off + 8 + i * 2)) 0 in
      if cell_offset =? 0 then find_cell n (i + 1) b page_off hdr_off target_rowid else
      let cell_start := page_off + cell_offset in
      let '(_, ps_len) := buf_decode_varint b cell_start in
      let '(cell_rowid, _) := buf_decode_varint b (cell_start + ps_len) in
      if cell_rowid =? target_rowid then Some i else find_cell n (i + 1) b page_off hdr_off target_rowid
  end.

Fixpoint delete_in {E} (leaves : list Z) (page_sz target_rowid : Z) : M SafeSqliteBuffer E bool :=
  match leaves with
  | [] => M_ret false
  | leaf_page :: leaves =>
      let page_off := (leaf_page - 1) * page_sz in
      let hdr_off := header_offset leaf_page in
      found <- gets (fun b =>
        let cell_count := unwrap_or (read_be_u16 b (page_off + hdr_off + 3)) 0 in
        find_cell (Z.to_nat cell_count) 0 b page_off hdr_off target_rowid) ;;
      match found with
      | Some cell_idx => remove_cell_pointer leaf_page page_sz cell_idx
      | None => delete_in leaves page_sz target_rowid
      end
  end.
