(* ===== verification/SqlTables.v ===== *)
(** Table operations of the synapse service
    (src/userspace/synapse-service/src/btree.rs, second half, and
    src/userspace/synapse-service/src/cache.rs): inserts, deletes, in-place
    updates, lookups, the directory cache and the graph walk. *)

From Stdlib Require Import String.
From S2P Require Import Prelude Bytes Slice SqliteDb SqlWrite.

Open Scope kernel_scope.

(** ** Views of the buffer *)

Definition open_db (b : SafeSqliteBuffer) : outcome Error (option SqliteDb) :=
  if negb (valid b) then Ok None else
  match open (loaded b) with Ok db => Ok (Some db) | Err _ => Ok None | Panic => Panic end.

(** A scan of a table of the loaded database. *)
Definition scan_table (b : SafeSqliteBuffer) (table : list Z) : outcome Error (option (SqliteDb * TableScanner)) :=
  let? o := open_db b in
  match o with
  | None => Ok None
  | Some db =>
      match table_scan db table with
      | Ok sc => Ok (Some (db, sc))
      | Err _ => Ok None
      | Panic => Panic
      end
  end.

(** ** The directory cache (cache.rs) *)

Record DirEntry := mkDirEntry { de_id : Z; de_type : Z; de_name : list Z; de_size : Z }.
Record DirCacheState := mkDirCache { dc_count : Z; dc_valid : bool; dc_entries : list DirEntry }.

Definition KIND_ELF : Z := 0.

(** The first 32 bytes of a name, padded with zeros. *)
Definition name32 (name : list Z) : list Z :=
  let l := take 32 name in l ++ replicate (32 - length l) 0.

Definition count_sqlite_files (b : SafeSqliteBuffer) : outcome Error Z :=
  let? s := scan_table b (str "files") in
  match s with
  | None => Ok 0
  | Some (db, sc) =>
      let? r := for_rows db (fun count item =>
        match item with
        | inr _ => Ok (inr count)
        | inl _ => Ok (if 1000 <? count + 1 then inr (count + 1) else inl (count + 1))
        end) sc 0 in
      Ok (match r with inl n => n | inr n => n end)
  end.

Definition int_or (v : option Value) (d : Z) : Z := default d (v ≫= as_int).

Definition entry_of_record (record : Record_) : outcome Error (option DirEntry) :=
  let? name := get record 1 in
  match name with
  | Some (Text s) =>
      let? id := get record 0 in
      let? size := get record 3 in
      let? kind := get record 2 in
      Ok (Some (mkDirEntry (u16 (int_or id 0)) (if int_or kind 1 =? KIND_ELF then 0 else 1) (name32 (bytes_of s)) (u64 (int_or size 0))))
  | _ => Ok None
  end.

Definition refresh_sqlite_cache (b : SafeSqliteBuffer) (cache : DirCacheState) : outcome Error DirCacheState :=
  let? s := scan_table b (str "files") in
  match s with
  | None => Ok cache
  | Some (db, sc) =>
      let? r := for_rows (R := Empty_set) db (fun entries item =>
        match item with
        | inr _ => Ok (inl entries)
        | inl record => let? e := entry_of_record record in Ok (inl (entries ++ match e with Some e => [e] | None => [] end))
        end) sc [] in
      match r with
      | inl entries => Ok (mkDirCache (Z.of_nat (length entries)) true entries)
      | inr r => match r with end
      end
  end.

Definition update_dir_cache (cache : DirCacheState) (rowid : Z) (name_bytes : list Z) (size : Z) : DirCacheState :=
  let entries := dc_entries cache ++ [mkDirEntry (u16 rowid) 1 (name32 name_bytes) (u64 size)] in
  mkDirCache (Z.of_nat (length entries)) (dc_valid cache) entries.

Definition get_file_size (b : SafeSqliteBuffer) (file_id : Z) : outcome Error Z :=
  let? s := scan_table b (str "files") in
  match s with
  | None => Ok 0
  | Some (db, sc) =>
      let? r := for_rows db (fun _ item =>
        match item with
        | inl record =>
            if rowid record =? file_id then
              let? v := get record 3 in
              Ok (match v with Some (Integer size) => inr (u32 size) | _ => inl tt end)
            else Ok (inl tt)
        | inr _ => Ok (inl tt)
        end) sc tt in
      Ok (match r with inr n => n | inl _ => 0 end)
  end.

(** The largest rowid of a table, 0 when it is empty. *)
Definition max_rowid (b : SafeSqliteBuffer) (table : list Z) : outcome Error (option Z) :=
  let? s := scan_table b table in
  match s with
  | None => Ok None
  | Some (db, sc) =>
      let? r := for_rows (R := Empty_set) db (fun m item =>
        Ok (inl (match item with inl record => if m <? rowid record then rowid record else m | inr _ => m end))) sc 0 in
      match r with inl m => Ok (Some m) | inr r => match r with end end
  end.

Definition find_max_rowid (b : SafeSqliteBuffer) : outcome Error Z :=
  let? m := max_rowid b (str "files") in Ok (default 0 m).

Definition next_rowid_for (b : SafeSqliteBuffer) (table : list Z) : outcome Error Z :=
  let? m := max_rowid b table in Ok (match m with Some m => i64 (m + 1) | None => 1 end).

(** ** Inserts (btree.rs) *)

(** Where a row of a table goes: the root, the page size, the usable size, and
    of the rightmost leaf its number, cell count and content start. *)
Record Target := mkTarget {
  t_root : Z; t_page_size : Z; t_usable : Z; t_leaf : Z; t_count : Z; t_content : Z
}.

Definition leaf_hdr (t : Target) : Z := (t_leaf t - 1) * t_page_size t + header_offset (t_leaf t).

Definition find_target {R} (table : list Z) (r : R) : M SafeSqliteBuffer R Target :=
  ok <- gets valid ;;
  fail_if (negb ok) r ;;;
  db <- or_return (fun b => open (loaded b)) r ;;
  root_page <- or_return (fun _ => find_table_root db table) r ;;
  let page_sz := page_size (db_header db) in
  let usable := page_sz - reserved_bytes (db_header db) in
  leaf_page <- gets (fun b => find_rightmost_leaf b root_page page_sz) ;;
  fail_if (leaf_page =? 0) r ;;;
  let hdr := (leaf_page - 1) * page_sz + header_offset leaf_page in
  b <- gets id ;;
  fail_if (negb (unwrap_or (read_byte b hdr) 0 =? 0x0d)) r ;;;
  let count := unwrap_or (read_be_u16 b (hdr + 3)) 0 in
  let raw := unwrap_or (read_be_u16 b (hdr + 5)) 0 in
  M_ret (mkTarget root_page page_sz usable leaf_page count (if raw =? 0 then page_sz else raw)).

(** The record header: its own size in one byte, then the type codes; [cap] is
    the size of the scratch array. *)
Fixpoint put_varints {E} (cap : Z) (types : list Z) (acc : list Z) : outcome E (list Z) :=
  match types with
  | [] => Ok acc
  | t :: types =>
      let? l := encode_varint t (cap - Z.of_nat (length acc)) in put_varints cap types (acc ++ l)
  end.

Definition record_header {E} (cap : Z) (types : list Z) : outcome E (list Z) :=
  let? l := put_varints cap types [0] in
  Ok (u8 (Z.of_nat (length l)) :: tail l).

(** [encode_varint(v, &mut scratch)] with a nine-byte scratch array *)
Definition scratch_varint {E} (v : Z) : outcome E (list Z) := encode_varint v 9.

(** Write the cell into the leaf, or into a new leaf when it does not fit. *)
Definition append_cell {R} (t : Target) (cell_buf : list Z) (free_space : Z) : M SafeSqliteBuffer R bool :=
  let page_offset := (t_leaf t - 1) * t_page_size t in
  let cell_len := Z.of_nat (length cell_buf) in
  if free_space <? cell_len + 2 then allocate_new_leaf_page (t_root t) (t_leaf t) cell_buf (t_page_size t) else
  let new_cell_offset := u64 (t_content t - cell_len) in
  ignore_err (write_slice (u64 (page_offset + new_cell_offset)) cell_buf) ;;;
  ignore_err (write_be_u16 (leaf_hdr t + 8 + t_count t * 2) (u16 new_cell_offset)) ;;;
  ignore_err (write_be_u16 (leaf_hdr t + 3) (u16 (t_count t + 1))) ;;;
  ignore_err (write_be_u16 (leaf_hdr t + 5) (u16 new_cell_offset)) ;;;
  modify increment_change_counter ;;;
  modify (mark_page_dirty (t_leaf t - 1)) ;;;
  M_ret true.

Definition pointer_array_end (t : Target) : Z := header_offset (t_leaf t) + 8 + t_count t * 2.

(** The free space of [sqlite_insert_file] and [sqlite_insert_intent], and that
    of [sqlite_insert_entity] and [sqlite_insert_edge]. *)
Definition free_wrapping (t : Target) : Z := u64 (t_content t - pointer_array_end t).
Definition free_saturating (t : Target) : Z := saturating_sub (t_content t) (pointer_array_end t).

Definition text_type (l : list Z) : Z := 13 + Z.of_nat (length l) * 2.

Definition file_types (name content : list Z) : list Z :=
  [0; text_type name; 9; pick_integer_type (Z.of_nat (length content)); 12 + Z.of_nat (length content) * 2; 0].

Definition file_payload {E} (name content : list Z) : outcome E (list Z) :=
  let? hdr := record_header 32 (file_types name content) in
  Ok (hdr ++ name ++ encode_integer_value (Z.of_nat (length content)) (pick_integer_type (Z.of_nat (length content))) ++ content).

Definition sqlite_insert_file {E} (rowid : Z) (name content : list Z) : M SafeSqliteBuffer E bool :=
  returned (
    t <- find_target (str "files") false ;;
    payload <- or_return (E := Empty_set) (fun _ => file_payload name content) false ;;
    let payload_total := Z.of_nat (length payload) in
    split <- or_return (E := Empty_set) (fun _ => compute_overflow_split payload_total (t_usable t)) false ;;
    let '(local_size, overflow_size) := split in
    overflow_ptr <-
      (if 0 <? overflow_size then
         o <- allocate_overflow_chain (drop (Z.to_nat local_size) payload) (t_page_size t) (t_usable t) ;;
         p <- ok_or o false ;;
         M_ret (be_bytes 4 p)
       else M_ret []) ;;
    ps <- or_return (E := Empty_set) (fun _ => scratch_varint payload_total) false ;;
    rid <- or_return (E := Empty_set) (fun _ => scratch_varint (u64 rowid)) false ;;
    append_cell t (ps ++ rid ++ take (Z.to_nat local_size) payload ++ overflow_ptr) (free_wrapping t)).

(** The 2048-byte cell buffer of [sqlite_insert_intent] is written piece by
    piece. *)
Fixpoint put_pieces {E} (cap : Z) (pieces : list (list Z)) (acc : list Z) : outcome E (list Z) :=
  match pieces with
  | [] => Ok acc
  | p :: pieces =>
      if cap <? Z.of_nat (length acc + length p) then Panic else put_pieces cap pieces (acc ++ p)
  end.

Definition intent_cell {E} (file_id : Z) (mime json : list Z) : outcome E (list Z) :=
  let json_type := match json with [] => 0 | _ => text_type json end in
  let? hdr := record_header 16 [0; text_type mime; json_type; 9] in
  let? ps := encode_varint (Z.of_nat (length hdr + length mime + length json)) 2048 in
  let? rid := encode_varint (u64 file_id) (2048 - Z.of_nat (length ps)) in
  put_pieces 2048 [ps; rid; hdr; mime; json] [].

Definition sqlite_insert_intent {E} (file_id : Z) (mime json : list Z) : M SafeSqliteBuffer E bool :=
  returned (
    t <- find_target (str "file_intents") false ;;
    cell <- or_return (E := Empty_set) (fun _ => intent_cell file_id mime json) false ;;
    append_cell t cell (free_wrapping t)).

(** A cell with a record of the given types and column bytes. *)
Definition row_cell {E} (rowid : Z) (types : list Z) (columns : list Z) : outcome E (list Z) :=
  let? hdr := record_header 32 types in
  let? ps := scratch_varint (Z.of_nat (length hdr + length columns)) in
  let? rid := scratch_varint (u64 rowid) in
  Ok (ps ++ rid ++ hdr ++ columns).

Definition entity_types (entity_id name entity_type : list Z) : list Z :=
  [text_type entity_id; text_type name; text_type entity_type; 0; 6].

Definition edge_types (edge_id subject_id predicate object_id : list Z) : list Z :=
  [text_type edge_id; text_type subject_id; text_type predicate; text_type object_id; 6; 6; 7; 0].

(** [sqlite_insert_entity] and [sqlite_insert_edge]: the new rowid, or [None]. *)
Definition insert_row {E} (table : list Z) (types columns : list Z) : M SafeSqliteBuffer E (option Z) :=
  returned (
    t <- find_target table None ;;
    rowid <- or_return (fun b => next_rowid_for b table) None ;;
    cell <- or_return (E := Empty_set) (fun _ => row_cell rowid types columns) None ;;
    ok <- append_cell t cell (free_saturating t) ;;
    M_ret (if ok : bool then Some rowid else None)).

Definition sqlite_insert_entity {E} (entity_id name entity_type : list Z) (created_at : Z) : M SafeSqliteBuffer E (option Z) :=
  insert_row (str "entities") (entity_types entity_id name entity_type)
    (entity_id ++ name ++ entity_type ++ be_bytes 8 (u64 created_at)).

Definition sqlite_insert_edge {E} (edge_id subject_id predicate object_id : list Z) (valid_from valid_to confidence : Z)
    : M SafeSqliteBuffer E (option Z) :=
  insert_row (str "edges") (edge_types edge_id subject_id predicate object_id)
    (edge_id ++ subject_id ++ predicate ++ object_id ++ be_bytes 8 (u64 valid_from) ++ be_bytes 8 (u64 valid_to) ++ be_bytes 8 confidence).

(** ** Deletes and in-place updates *)

Definition sqlite_delete_file_by_rowid {E} (rowid : Z) : M SafeSqliteBuffer E bool :=
  returned (
    ok <- gets valid ;;
    fail_if (negb ok) false ;;;
    db <- or_return (fun b => open (loaded b)) false ;;
    root_page <- or_return (fun _ => find_table_root db (str "files")) false ;;
    leaves <- gets (fun b => collect_leaf_pages b root_page (page_size (db_header db))) ;;
    delete_in leaves (page_size (db_header db)) (u64 rowid)).

(** The blob to overwrite: [Some None] when it is too short for the data. *)
Definition locate_blob (db : SqliteDb) (sc : TableScanner) (name : list Z) (new_len : Z) : outcome Error (option (option slice)) :=
  let? r := for_rows db (fun _ item =>
    match item with
    | inr _ => Ok (inl tt)
    | inl record =>
        let? n := get record 1 in
        if is_text n name then
          let? v := get record 4 in
          Ok (match v with
              | Some (Blob old) => if sl_len old <? new_len then inr None else inr (Some old)
              | _ => inl tt
              end)
        else Ok (inl tt)
    end) sc tt in
  Ok (match r with inr r => Some r | inl _ => None end).

Definition overwrite_blob_inplace {E} (name new_data : list Z) : M SafeSqliteBuffer E bool :=
  returned (
    ok <- gets valid ;;
    fail_if (negb ok) false ;;;
    db <- or_return (fun b => open (loaded b)) false ;;
    sc <- or_return (fun _ => table_scan db (str "files")) false ;;
    let new_len := Z.of_nat (length new_data) in
    found <- or_return (fun _ => locate_blob db sc name new_len) false ;;
    match found with
    | Some (Some old) =>
        or_fail (write_slice (sl_off old) new_data) false ;;;
        zero_bytes (Z.to_nat (sl_len old - new_len)) (sl_off old + new_len) ;;;
        modify increment_change_counter ;;;
        M_ret true
    | _ => M_ret false
    end).

(** The offset of [valid_to] in the first active edge with the subject and
    predicate: eight bytes after the end of the object id. *)
Definition locate_edge (db : SqliteDb) (sc : TableScanner) (subject_id predicate : list Z) : outcome Error (option Z) :=
  let? r := for_rows db (fun _ item =>
    match item with
    | inr _ => Ok (inl tt)
    | inl record =>
        let? subj := get record 1 in
        let? pred := get record 2 in
        let? vt := get record 5 in
        let active := match vt with Some (Integer 0) => true | _ => false end in
        if is_text subj subject_id && is_text pred predicate && active then
          let? obj := get record 3 in
          Ok (match obj with Some (Text s) => inr (sl_off s + sl_len s + 8) | _ => inl tt end)
        else Ok (inl tt)
    end) sc tt in
  Ok (match r with inr off => Some off | inl _ => None end).

Definition sqlite_expire_edge {E} (subject_id predicate : list Z) (expire_at : Z) : M SafeSqliteBuffer E Z :=
  returned (
    ok <- gets valid ;;
    fail_if (negb ok) 0 ;;;
    db <- or_return (fun b => open (loaded b)) 0 ;;
    sc <- or_return (fun _ => table_scan db (str "edges")) 0 ;;
    target <- or_return (fun _ => locate_edge db sc subject_id predicate) 0 ;;
    match target with
    | Some off =>
        or_fail (write_slice off (be_bytes 8 (u64 expire_at))) 0 ;;;
        modify increment_change_counter ;;;
        M_ret 1
    | None => M_ret 0
    end).

(** ** Reading an intent *)

(** [n = min(b.len(), out.len() - pos)]; [out\[pos..pos + n\]] takes [b\[..n\]]. *)
Definition copy_text (v : option Value) (pos : Z) (out : list Z) : Z * list Z :=
  match v with
  | Some (Text s) =>
      let b := bytes_of s in
      let n := Z.min (Z.of_nat (length b)) (Z.of_nat (length out) - pos) in
      (n, take (Z.to_nat pos) out ++ take (Z.to_nat n) b ++ drop (Z.to_nat (pos + n)) out)
  | _ => (0, out)
  end.

Definition sqlite_read_intent (b : SafeSqliteBuffer) (file_id : Z) (out : list Z) : outcome Error (list Z * option (Z * Z)) :=
  let? s := scan_table b (str "file_intents") in
  match s with
  | None => Ok (out, None)
  | Some (db, sc) =>
      let? r := for_rows db (fun _ item =>
        match item with
        | inl record =>
            if rowid record =? file_id then
              let? mime := get record 1 in
              let '(mime_len, out) := copy_text mime 0 out in
              let? json := get record 2 in
              let '(json_len, out) := copy_text json mime_len out in
              Ok (inr (out, Some (mime_len, json_len)))
            else Ok (inl tt)
        | inr _ => Ok (inl tt)
        end) sc tt in
      Ok (match r with inr r => r | inl _ => (out, None) end)
  end.

(** ** The graph walk *)

Record GraphWalkHop := mkHop { hop_entity : list Z; hop_depth : Z }.

(** Visited names, hops found and the frontier, its top first. *)
Record Walk := mkWalk { visited : list (list Z); result : list GraphWalkHop; frontier : list (list Z * Z) }.

(** The other end of an active edge at [current]. *)
Definition neighbour (record : Record_) (current : list Z) : outcome Error (option (list Z)) :=
  let? subj := get record 1 in
  match subj with
  | Some (Text subj) =>
      let? obj := get record 3 in
      match obj with
      | Some (Text obj) =>
          let? vt := get record 5 in
          match vt with
          | Some (Integer 0) =>
              Ok (if bool_decide (bytes_of subj = current) then Some (bytes_of obj)
                  else if bool_decide (bytes_of obj = current) then Some (bytes_of subj)
                  else None)
          | _ => Ok None
          end
      | _ => Ok None
      end
  | _ => Ok None
  end.

Definition visit (depth : Z) (nb : list Z) (w : Walk) : Walk :=
  if bool_decide (nb ∈ visited w) then w
  else mkWalk (visited w ++ [nb]) (result w ++ [mkHop nb (depth + 1)]) ((nb, depth + 1) :: frontier w).

Definition expand (db : SqliteDb) (sc : TableScanner) (current : list Z) (depth : Z) (w : Walk) : outcome Error Walk :=
  let? r := for_rows (R := Empty_set) db (fun w item =>
    match item with
    | inr _ => Ok (inl w)
    | inl record =>
        let? nb := neighbour record current in
        Ok (inl (match nb with Some nb => visit depth nb w | None => w end))
    end) sc w in
  match r with inl w => Ok w | inr r => match r with end end.

Definition walk_step (db : SqliteDb) (max_depth : Z) (w : Walk) : outcome Error (Walk + Walk) :=
  match frontier w with
  | [] => Ok (inr w)
  | (current, depth) :: rest =>
      let w := mkWalk (visited w) (result w) rest in
      if max_depth <=? depth then Ok (inl w) else
      match table_scan db (str "edges") with
      | Err _ => Ok (inr w)
      | Panic => Panic
      | Ok sc => let? w := expand db sc current depth w in Ok (inl w)
      end
  end.

(** Every name enters the frontier once, so the fuel is not used up. *)
Definition sqlite_graph_walk (b : SafeSqliteBuffer) (start : list Z) (max_depth : Z) : outcome Error (list GraphWalkHop) :=
  if max_depth =? 0 then Ok [] else
  let? o := open_db b in
  match o with
  | None => Ok []
  | Some db =>
      let? r := iter_pos SCAN_FUEL (walk_step db max_depth) (mkWalk [start] [] [(start, 0)]) in
      match r with inr w => Ok (result w) | inl _ => Panic end
  end.
