(* ===== verification/SqlIo.v ===== *)
(** Loading, flushing and blob reads of the synapse service
    (src/userspace/synapse-service/src/sqlite_io.rs, the sector calls of
    src/userspace/libfolk/src/sys/block.rs, [read_file] of
    src/userspace/libfolk/src/sys/fs.rs).

    The kernel's side of the block and ramdisk system calls is an interface:
    a read stores bytes at the front of the caller's buffer and reports
    success, a write returns the device after it and reports success. *)

From Stdlib Require Import String.
From S2P Require Import Prelude Bytes Slice SqliteDb SqlWrite SqlTables.

Open Scope kernel_scope.

Definition SECTOR_SIZE : Z := 512.
Definition DB_FILENAME : list Z := str "files.db".
Definition FOLKDISK : list Z := str "FOLKDISK".

(** [SYS_BLOCK_READ] and [SYS_BLOCK_WRITE] on a device of type [D]. *)
Class BlockDevice (D : Type) := {
  sys_block_read : Z -> Z -> D -> list Z * bool;
  sys_block_write : Z -> list Z -> D -> D * bool;
}.

Inductive BlockError := NoDevice | IoError | InvalidArgs.

(** The first [n] bytes of [src] over the front of [dst]. *)
Definition copy_front (n : nat) (src dst : list Z) : list Z := take n src ++ drop (length (take n src)) dst.

Section device.
Context {D : Type} `{BlockDevice D}.

(** The buffer after the call, and the result. *)
Definition block_read (d : D) (sector : Z) (buf : list Z) (sector_count : Z) : list Z * (unit + BlockError) :=
  if (Z.of_nat (length buf) <? sector_count * SECTOR_SIZE) || (sector_count =? 0) then (buf, inr InvalidArgs) else
  let '(l, ok) := sys_block_read sector sector_count d in
  (copy_front (length buf) l buf, if ok : bool then inl tt else inr IoError).

Definition block_write (sector : Z) (buf : list Z) (sector_count : Z) (d : D) : D * (unit + BlockError) :=
  if (Z.of_nat (length buf) <? sector_count * SECTOR_SIZE) || (sector_count =? 0) then (d, inr InvalidArgs) else
  let '(d, ok) := sys_block_write sector (take (Z.to_nat (sector_count * SECTOR_SIZE)) buf) d in
  (d, if ok : bool then inl tt else inr IoError).

Definition read_sector (d : D) (sector : Z) (buf : list Z) : list Z * (unit + BlockError) := block_read d sector buf 1.
Definition write_sector (sector : Z) (buf : list Z) (d : D) : D * (unit + BlockError) := block_write sector buf 1 d.

(** ** Loading *)

(** [u64::from_le_bytes] of eight bytes of the disk header *)
Definition header_word (header_buf : list Z) (off : nat) : Z := from_le_bytes (take 8 (drop off header_buf)).

(** The disk header, when sector 0 reads and has the magic. *)
Definition disk_header (d : D) : option (list Z) :=
  match read_sector d 0 (replicate 512 0) with
  | (header_buf, inl _) => if bool_decide (take 8 header_buf = FOLKDISK) then Some header_buf else None
  | _ => None
  end.

(** The chunk loop: the array after it and whether every read succeeded; each
    round takes at least one of the [n] sectors left. *)
Fixpoint load_chunks (fuel : nat) (d : D) (raw : mem) (current_sector buf_offset sectors_remaining : Z) : mem * bool :=
  if sectors_remaining <=? 0 then (raw, true) else
  match fuel with
  | O => (raw, false)
  | S fuel =>
      let this_chunk := Z.min sectors_remaining 64 in
      let chunk_bytes := this_chunk * SECTOR_SIZE in
      match block_read d current_sector (range raw buf_offset chunk_bytes) this_chunk with
      | (chunk_buf, inr _) => (blit raw buf_offset chunk_buf, false)
      | (chunk_buf, inl _) =>
          load_chunks fuel d (blit raw buf_offset chunk_buf) (u64 (current_sector + this_chunk))
            (buf_offset + chunk_bytes) (sectors_remaining - this_chunk)
      end
  end.

Definition try_load_sqlite_from_disk (d : D) (b : SafeSqliteBuffer) : SafeSqliteBuffer * bool :=
  match disk_header d with
  | None => (b, false)
  | Some header_buf =>
      let db_sector := header_word header_buf 48 in
      let db_sectors := header_word header_buf 56 in
      if (db_sector =? 0) || (db_sectors =? 0) then (b, false) else
      let db_bytes := u64 (db_sectors * SECTOR_SIZE) in
      if MAX_DB_SIZE <? db_bytes then (b, false) else
      let '(raw, ok) := load_chunks (Z.to_nat db_sectors) d (data b) db_sector 0 db_sectors in
      let b := b <| data := raw |> in
      if negb ok then (b, false)
      else if (db_bytes <? 100) || negb (bool_decide (range raw 0 16 = SQLITE_MAGIC)) then (b, false)
      else (set_valid true (set_size db_bytes b), true)
  end.

(** ** Flushing *)

(** One sector of a dirty page. *)
Definition flush_sector (b : SafeSqliteBuffer) (db_sector byte_offset : Z) (d : D) : D :=
  match read_slice b byte_offset 512 with
  | Ok s => fst (write_sector (u64 (db_sector + byte_offset / 512)) (bytes_of s) d)
  | _ => d
  end.

Definition flush_page (b : SafeSqliteBuffer) (db_sector : Z) (d : D) (page : Z) : D :=
  if negb (is_page_dirty b page) then d else
  let page_offset := page * 4096 in
  let sectors_in_page := if page_offset + 4096 <=? size b then 8 else (size b - page_offset + 511) / 512 in
  foldl (fun d s => flush_sector b db_sector (page_offset + s * 512) d) d (seqZ 0 sectors_in_page).

(** The buffer, the device and the result. *)
Definition flush_sqlite_to_disk (b : SafeSqliteBuffer) (d : D) : SafeSqliteBuffer * D * bool :=
  match disk_header d with
  | None => (b, d, false)
  | Some header_buf =>
      let db_sector := header_word header_buf 48 in
      if db_sector =? 0 then (b, d, false) else
      let db_size := size b in
      let total_sectors := (db_size + SECTOR_SIZE - 1) / SECTOR_SIZE in
      let total_pages := (db_size + 4095) / 4096 in
      let d := foldl (flush_page b db_sector) d (seqZ 0 total_pages) in
      let d :=
        if total_sectors =? header_word header_buf 56 then d
        else fst (write_sector 0 (take 56 header_buf ++ le_bytes 8 total_sectors ++ drop 64 header_buf) d) in
      (clear_dirty b, d, true)
  end.
End device.

(** ** Loading from the ramdisk *)

(** [SYS_FS_READ_FILE] on the zero-padded name: the bytes stored at the front
    of a buffer of the given length, or a failure. *)
Class Ramdisk (D : Type) := sys_fs_read_file : list Z -> Z -> D -> option (list Z).

Definition read_file {D} `{Ramdisk D} (d : D) (name : list Z) (len : Z) : list Z :=
  let l := take 31 name in
  default [] (sys_fs_read_file (l ++ replicate (32 - length l) 0) len d).

Definition try_load_sqlite {D} `{Ramdisk D} (d : D) (b : SafeSqliteBuffer) : SafeSqliteBuffer * bool :=
  let l := read_file d DB_FILENAME MAX_DB_SIZE in
  let b := b <| data := blit (data b) 0 l |> in
  let bytes_read := Z.of_nat (length l) in
  if bytes_read =? 0 then (b, false) else
  let b := set_size bytes_read b in
  if bytes_read <? 100 then (b, false) else
  match read_slice b 0 16 with
  | Ok magic => if bool_decide (bytes_of magic = SQLITE_MAGIC) then (set_valid true b, true) else (b, false)
  | _ => (b, false)
  end.

(** ** Integrity *)

Fixpoint crc_bits (n : nat) (crc : Z) : Z :=
  match n with
  | O => crc
  | S n => crc_bits n (if Z.land crc 1 =? 0 then Z.shiftr crc 1 else Z.lxor (Z.shiftr crc 1) 0xEDB88320)
  end.

Definition crc32 (l : list Z) : Z :=
  Z.lxor (foldl (fun crc byte => crc_bits 8 (Z.lxor crc byte)) 0xFFFFFFFF l) 0xFFFFFFFF.

(** The change counters and the checksum are only logged. *)
Definition validate_sqlite_integrity (b : SafeSqliteBuffer) : bool :=
  if size b <? 100 then false else
  match read_slice b 0 16 with
  | Ok magic => bool_decide (bytes_of magic = SQLITE_MAGIC)
  | _ => true
  end.

(** ** Blobs *)

(** [out] after the call, and the bytes copied. *)
Definition read_sqlite_blob (b : SafeSqliteBuffer) (name out : list Z) : outcome Error (list Z * Z) :=
  let? s := scan_table b (str "files") in
  match s with
  | None => Ok (out, 0)
  | Some (db, sc) =>
      let? r := for_rows db (fun _ item =>
        match item with
        | inr _ => Ok (inl tt)
        | inl record =>
            let? n := get record 1 in
            if is_text n name then
              let? v := get record 4 in
              Ok (match v with
                  | Some (Blob data) => let l := take (length out) (bytes_of data) in inr (copy_front (length l) l out, Z.of_nat (length l))
                  | _ => inl tt
                  end)
            else Ok (inl tt)
        end) sc tt in
      Ok (match r with inr r => r | inl _ => (out, 0) end)
  end.

Definition dv (bytes : slice) : outcome Error (option (Z * Z)) :=
  match decode_varint bytes with
  | Ok (v, n) => Ok (Some (u64 v, n))
  | Err _ => Ok None
  | Panic => Panic
  end.

(** [let x = match r { Some(x) => x, None => continue };] in the loop over cells *)
Definition or_continue {A B} (r : outcome Error (option A)) (k : A -> outcome Error (option B)) : outcome Error (option B) :=
  let? o := r in match o with Some a => k a | None => Ok None end.

(** The page size is at least 512 and at most 255 bytes of it are reserved, so
    the subtractions do not wrap. *)
Definition local_size_of (payload_size usable_size : Z) : Z :=
  let max_local := usable_size - 35 in
  if payload_size <=? max_local then payload_size else
  let min_local := (usable_size - 12) * 32 / 255 - 23 in
  let m := min_local + (payload_size - min_local) mod (usable_size - 4) in
  if m <=? max_local then m else min_local.

(** The type codes from [pos] to [hdr_size], at most [n]. *)
Fixpoint read_types (n : nat) (record_data : slice) (pos hdr_size : Z) : outcome Error (list Z) :=
  match n with
  | O => Ok []
  | S n =>
      if hdr_size <=? pos then Ok [] else
      let? t := from record_data pos in
      let? o := dv t in
      match o with
      | None => Ok []
      | Some (st, st_len) => let? l := read_types n record_data (pos + st_len) hdr_size in Ok (st :: l)
      end
  end.

Definition col_size (st : Z) : Z :=
  match st with
  | 0 => 0 | 1 => 1 | 2 => 2 | 3 => 3 | 4 => 4 | 5 => 6 | 6 => 8 | 7 => 8
  | 8 | 9 => 0
  | _ => u64 (st - 12) / 2
  end.

(** The loop over overflow pages. *)
Record Overflow := mkOverflow { ov_page : Z; ov_remaining : Z; ov_skip : Z; ov_out : list Z; ov_total : Z }.

(** [out\[total..total + copy\]] takes the first [copy] bytes of [src]. *)
Definition copy_at (total : Z) (src : list Z) (out : list Z) : list Z :=
  take (Z.to_nat total) out ++ src ++ drop (Z.to_nat total + length src) out.

Definition overflow_step (db : SqliteDb) (usable_size : Z) (o : Overflow) : outcome Error (Overflow + Overflow) :=
  if (ov_page o =? 0) || (ov_remaining o <=? 0) || (Z.of_nat (length (ov_out o)) <=? ov_total o) then Ok (inr o) else
  match db_page db (ov_page o) with
  | Panic => Panic
  | Err _ => Ok (inr o)
  | Ok ovfl_data =>
      if sl_len ovfl_data <? 4 then Ok (inr o) else
      let? next_page := be_at 4 ovfl_data 0 in
      let? content := sub ovfl_data 4 (Z.min usable_size (sl_len ovfl_data)) in
      let skip_here := Z.min (ov_skip o) (sl_len content) in
      let? usable := from content skip_here in
      let copy := Z.min (Z.min (sl_len usable) (ov_remaining o)) (Z.of_nat (length (ov_out o)) - ov_total o) in
      let? src := sub usable 0 copy in
      Ok (inl (mkOverflow next_page (ov_remaining o - copy) (ov_skip o - skip_here)
                 (copy_at (ov_total o) (bytes_of src) (ov_out o)) (ov_total o + copy)))
  end.

(** Each round lowers [ov_skip + ov_remaining], two 64-bit words. *)
Definition follow_overflow (db : SqliteDb) (usable_size : Z) (o : Overflow) : outcome Error Overflow :=
  let? r := iter_pos (Pos.pow 2 65) (overflow_step db usable_size) o in
  match r with inr o => Ok o | inl _ => Panic end.

(** The body of the loop over cells after the name has matched. *)
Definition copy_blob (db : SqliteDb) (usable_size : Z) (cell : slice) (hdr_start local_size payload_size data_start blob_size : Z)
    (out : list Z) : outcome Error (list Z * Z) :=
  let inline_blob_start := u64 (hdr_start + data_start) in
  let inline_copy := Z.min (Z.min (saturating_sub local_size data_start) blob_size) (Z.of_nat (length out)) in
  let? (out, total_written) :=
    (if u64 (inline_blob_start + inline_copy) <=? sl_len cell then
       let? src := sub cell inline_blob_start (u64 (inline_blob_start + inline_copy)) in
       Ok (copy_at 0 (bytes_of src) out, inline_copy)
     else Ok (out, 0)) in
  if (local_size <? payload_size) && (hdr_start + local_size + 4 <=? sl_len cell) then
    let? ovfl_page := be_at 4 cell (hdr_start + local_size) in
    let? o := follow_overflow db usable_size
      (mkOverflow ovfl_page (saturating_sub blob_size inline_copy) (saturating_sub data_start local_size) out total_written) in
    Ok (ov_out o, ov_total o)
  else Ok (out, total_written).

(** One cell: what the function returns when the cell's name matches. *)
Definition blob_cell (db : SqliteDb) (usable_size : Z) (name out : list Z) (cell : slice) : outcome Error (option (list Z * Z)) :=
  or_continue (dv cell) (fun '(payload_size, ps_len) =>
  let? after := from cell ps_len in
  or_continue (dv after) (fun '(_, rowid_len) =>
  let hdr_start := ps_len + rowid_len in
  let local_size := local_size_of payload_size usable_size in
  if sl_len cell <? hdr_start + 10 then Ok None else
  let? record_data := sub cell hdr_start (hdr_start + Z.min local_size (sl_len cell - hdr_start)) in
  or_continue (dv record_data) (fun '(hdr_size, hdr_size_len) =>
  if sl_len record_data <? hdr_size then Ok None else
  let? types := read_types 6 record_data hdr_size_len hdr_size in
  let col_type i := nth i types 0 in
  let name_st := col_type 1%nat in
  if (name_st <? 13) || (name_st mod 2 =? 0) then Ok None else
  let name_len := (name_st - 13) / 2 in
  let id_size := col_size (col_type 0%nat) in
  let name_offset := hdr_size + id_size in
  if sl_len record_data <? u64 (name_offset + name_len) then Ok None else
  let? rec_name := sub record_data name_offset (u64 (name_offset + name_len)) in
  if negb (bool_decide (bytes_of rec_name = name)) then Ok None else
  let data_start := u64 (hdr_size + id_size + name_len + col_size (col_type 2%nat) + col_size (col_type 3%nat)) in
  let blob_st := col_type 4%nat in
  if (12 <=? blob_st) && (blob_st mod 2 =? 0) then
    let? r := copy_blob db usable_size cell hdr_start local_size payload_size data_start ((blob_st - 12) / 2) out in
    Ok (Some r)
  else Ok (Some (out, 0))))).

(** The cells of a leaf from index [i] on. *)
Fixpoint blob_cells (n : nat) (i : Z) (db : SqliteDb) (usable_size : Z) (name out : list Z) (page_data : slice) (hdr_offset : Z)
    : outcome Error (option (list Z * Z)) :=
  match n with
  | O => Ok None
  | S n =>
      let ptr_off := hdr_offset + 8 + i * 2 in
      if sl_len page_data <? ptr_off + 2 then Ok None else
      let? cell_off := be_at 2 page_data ptr_off in
      let? r :=
        (if sl_len page_data <=? cell_off then Ok None
         else let? cell := from page_data cell_off in blob_cell db usable_size name out cell) in
      match r with
      | Some r => Ok (Some r)
      | None => blob_cells n (i + 1) db usable_size name out page_data hdr_offset
      end
  end.

(** [if scan_count < 63 { push }] on the list of pages, its top first *)
Definition push_page (p : Z) (pages : list Z) : list Z := if Z.of_nat (length pages) <? 63 then p :: pages else pages.

Fixpoint push_children (n : nat) (i : Z) (page_data : slice) (hdr_offset : Z) (pages : list Z) : outcome Error (list Z) :=
  match n with
  | O => Ok pages
  | S n =>
      let ptr_off := hdr_offset + 12 + i * 2 in
      if sl_len page_data <? ptr_off + 2 then Ok pages else
      let? cell_off := be_at 2 page_data ptr_off in
      if sl_len page_data <? cell_off + 4 then push_children n (i + 1) page_data hdr_offset pages else
      let? left_child := be_at 4 page_data cell_off in
      push_children n (i + 1) page_data hdr_offset (push_page left_child pages)
  end.

(** One round of the [while] loop over pages. *)
Definition blob_step (db : SqliteDb) (name out : list Z) (pages : list Z) : outcome Error (list Z + list Z * Z) :=
  let usable_size := page_size (db_header db) - reserved_bytes (db_header db) in
  match pages with
  | [] => Ok (inr (out, 0))
  | page_num :: pages =>
      match db_page db page_num with
      | Panic => Panic
      | Err _ => Ok (inl pages)
      | Ok page_data =>
          let hdr_offset := header_offset page_num in
          if sl_len page_data <? hdr_offset + 8 then Ok (inl pages) else
          let? page_type := index page_data hdr_offset in
          let? cell_count := be_at 2 page_data (hdr_offset + 3) in
          if page_type =? 0x05 then
            let? right_child := be_at 4 page_data (hdr_offset + 8) in
            let? pages := push_children (Z.to_nat cell_count) 0 page_data hdr_offset (push_page right_child pages) in
            Ok (inl pages)
          else if page_type =? 0x0D then
            let? r := blob_cells (Z.to_nat cell_count) 0 db usable_size name out page_data hdr_offset in
            Ok (match r with Some r => inr r | None => inl pages end)
          else Ok (inl pages)
      end
  end.

(** The first [fuel] rounds of the search from page 2: [None] while it runs. *)
Definition read_sqlite_blob_large (fuel : positive) (b : SafeSqliteBuffer) (name out : list Z) : outcome Error (option (list Z * Z)) :=
  let? o := open_db b in
  match o with
  | None => Ok (Some (out, 0))
  | Some db =>
      let? r := iter_pos fuel (blob_step db name out) [2] in
      Ok (match r with inr r => Some r | inl _ => None end)
  end.

Example crc32_check : crc32 (str "123456789") = 0xCBF43926.
Proof. vm_compute. reflexivity. Qed.
