(* ===== verification/SqliteRow.v ===== *)
(** Records by their bytes.

    Two slices are equivalent when they hold the same bytes; what the reader
    returns for equivalent slices is equivalent, so a record is determined by
    its row: the rowid, the number of columns, the type codes and the column
    bytes.  The second part reads back a record built from typed columns. *)

From Stdlib Require Import String.
From S2P Require Import Prelude Bytes Slice SqliteDb.

Open Scope kernel_scope.

(** ** Equivalence of outcomes *)

Inductive outcome_rel {E A B} (R : A -> B -> Prop) : outcome E A -> outcome E B -> Prop :=
| rel_Ok a b : R a b -> outcome_rel R (Ok a) (Ok b)
| rel_Err e : outcome_rel R (Err e) (Err e)
| rel_Panic : outcome_rel R Panic Panic.

Lemma obind_rel {E A B A' B'} (R : A -> B -> Prop) (R' : A' -> B' -> Prop) (r : outcome E A) r' f f' :
  outcome_rel R r r' -> (forall a b, R a b -> outcome_rel R' (f a) (f' b)) -> outcome_rel R' (obind r f) (obind r' f').
Proof. intros [a b H|e|] Hf; cbn; [auto|constructor|constructor]. Qed.

Lemma outcome_rel_eq {E A} (r r' : outcome E A) : r = r' -> outcome_rel eq r r'.
Proof. intros <-. destruct r; by constructor. Qed.

(** ** Equivalence of slices *)

#[global] Instance slice_equiv : Equiv slice := fun s s' => bytes_of s = bytes_of s' /\ sl_len s = sl_len s'.

#[global] Instance slice_equivalence : Equivalence (≡@{slice}).
Proof.
  split; [done|intros s s' [H1 H2]; done|]. intros s1 s2 s3 [H1 H2] [H3 H4]. split; congruence.
Qed.

Lemma slice_equiv_byte (s s' : slice) i :
  s ≡ s' -> 0 <= i < sl_len s -> sl_mem s (sl_off s + i) = sl_mem s' (sl_off s' + i).
Proof.
  intros [Hb Hl] Hi. pose proof (range_lookup (sl_mem s) (sl_off s) (sl_len s) (Z.to_nat i) ltac:(lia)) as H1.
  pose proof (range_lookup (sl_mem s') (sl_off s') (sl_len s') (Z.to_nat i) ltac:(lia)) as H2.
  unfold bytes_of in Hb. rewrite Hb, H2 in H1. rewrite Z2Nat.id in H1 by lia. congruence.
Qed.

Lemma range_equiv (s s' : slice) a n :
  s ≡ s' -> 0 <= a -> a + n <= sl_len s -> range (sl_mem s) (sl_off s + a) n = range (sl_mem s') (sl_off s' + a) n.
Proof.
  intros H Ha Hn. unfold range. apply list_eq. intros i. rewrite !list_lookup_fmap.
  destruct (decide (Z.of_nat i < n)) as [Hi|Hi]; [|by rewrite !lookup_seqZ_ge by lia].
  rewrite !lookup_seqZ_lt by lia. cbn. f_equal. rewrite <- !Z.add_assoc. apply slice_equiv_byte; [done|lia].
Qed.

#[global] Instance index_proper {E} : Proper ((≡) ==> (=) ==> (=)) (index (E := E)).
Proof.
  intros s s' H i _ <-. unfold index. rewrite <- (proj2 H). case_match eqn:Hi; [|done]. bool_prop.
  f_equal. apply slice_equiv_byte; [done|lia].
Qed.

Lemma sub_rel {E} s s' a b : s ≡ s' -> outcome_rel (≡) (sub (E := E) s a b) (sub s' a b).
Proof.
  intros H. unfold sub. rewrite <- (proj2 H). case_match eqn:Hi; [|constructor]. bool_prop.
  constructor. split; [|done]. unfold bytes_of. cbn. apply range_equiv; [done|lia..].
Qed.

Lemma from_rel {E} s s' a : s ≡ s' -> outcome_rel (≡) (from (E := E) s a) (from s' a).
Proof. intros H. unfold from. rewrite <- (proj2 H). by apply sub_rel. Qed.

#[global] Instance be_at_proper {E} n : Proper ((≡) ==> (=) ==> (=)) (be_at (E := E) n).
Proof.
  intros s s' H i _ <-. unfold be_at. destruct (sub_rel (E := E) s s' i (i + Z.of_nat n) H) as [t t' [Ht _]|e|]; cbn; [by rewrite Ht|done..].
Qed.

#[global] Instance prefix_proper : Proper ((≡) ==> (=) ==> (=)) prefix.
Proof.
  intros s s' H n _ <-. unfold prefix. rewrite <- (proj2 H).
  rewrite <- (Z.add_0_r (sl_off s)), <- (Z.add_0_r (sl_off s')). apply range_equiv; [done|lia..].
Qed.

#[global] Instance decode_varint_proper : Proper ((≡) ==> (=)) decode_varint.
Proof.
  intros s s' H. unfold decode_varint. rewrite (proj2 H). rewrite H. destruct (varint_loop _ _ _) as [[v n]|v]; [done|].
  by rewrite H.
Qed.

(** ** Rows *)

Record Row := mkRow { row_id : Z; row_count : Z; row_types : list Z; row_values : list Z }.

Definition row_of (r : Record_) : Row := mkRow (rowid r) (column_count r) (bytes_of (types r)) (bytes_of (values r)).

(** A value by its bytes. *)
Inductive Datum := DNull | DInteger (v : Z) | DFloat (bits : Z) | DBlob (l : list Z) | DText (l : list Z).

Definition datum (v : Value) : Datum :=
  match v with
  | Null => DNull | Integer v => DInteger v | Float bits => DFloat bits
  | Blob b => DBlob (bytes_of b) | Text s => DText (bytes_of s)
  end.

Definition same_value (v v' : option Value) : Prop := datum <$> v = datum <$> v'.

Lemma int_at_rel n s s' f : s ≡ s' -> outcome_rel same_value (int_at n s f) (int_at n s' f).
Proof.
  intros H. unfold int_at. rewrite <- (proj2 H). case_match; [by constructor|].
  rewrite H. destruct (be_at n s' 0); by constructor.
Qed.

Lemma decode_bytes_rel s s' n : s ≡ s' -> outcome_rel same_value (decode_bytes s n) (decode_bytes s' n).
Proof.
  intros H. unfold decode_bytes. rewrite <- (proj2 H).
  destruct ((12 <=? n) && _); [|destruct ((13 <=? n) && _); [|by constructor]]; (case_match; [by constructor|]);
    (eapply obind_rel; [by apply sub_rel|]); intros d d' [Hd _]; constructor; unfold same_value.
  - cbn. by rewrite Hd.
  - rewrite Hd. destruct (utf8_valid _); cbn; [by rewrite Hd|done].
Qed.

Lemma decode_value_rel s s' t pos : s ≡ s' -> outcome_rel same_value (decode_value s t pos) (decode_value s' t pos).
Proof.
  intros H. unfold decode_value. eapply obind_rel; [by apply from_rel|]. clear s s' H. intros s s' H.
  assert (outcome_rel (E := Error) same_value (if sl_len s <? 8 then Ok None else let? bits := be_at 8 s 0 in Ok (Some (Float bits)))
    (if sl_len s' <? 8 then Ok None else let? bits := be_at 8 s' 0 in Ok (Some (Float bits)))) as Hfloat.
  { rewrite <- (proj2 H). case_match; [by constructor|]. rewrite H. destruct (be_at 8 s' 0); by constructor. }
  destruct t as [|t|t]; [by constructor| |by apply decode_bytes_rel].
  do 4 (try destruct t as [t|t|]); first [by apply decode_bytes_rel|exact Hfloat|by apply int_at_rel|by constructor].
Qed.

Lemma get_loop_rel r r' n tp vp :
  types r ≡ types r' -> values r ≡ values r' -> outcome_rel same_value (get_loop r n tp vp) (get_loop r' n tp vp).
Proof.
  intros Ht Hv. revert tp vp. induction n as [|n IH]; intros tp vp; cbn [get_loop];
    (eapply obind_rel; [by apply from_rel|]; intros s s' Hs; rewrite Hs;
     destruct (decode_varint s') as [[t len]|e|]; [|by constructor|by constructor]); [by apply decode_value_rel|apply IH].
Qed.

Lemma sl_len_bytes s s' : 0 <= sl_len s -> 0 <= sl_len s' -> bytes_of s = bytes_of s' -> s ≡ s'.
Proof.
  intros H1 H2 H. split; [done|]. assert (length (bytes_of s) = length (bytes_of s')) as Hl by by rewrite H.
  unfold bytes_of in Hl. rewrite !range_length in Hl. lia.
Qed.

(** The column of a row, read from a record that holds it. *)
Definition get_row (row : Row) (index : Z) : outcome Error (option Datum) :=
  let? v := get (mkRecord (row_id row) (slice_of_list (row_values row)) (slice_of_list (row_types row)) (row_count row)) index in
  Ok (datum <$> v).

Definition proper_record (r : Record_) : Prop := 0 <= sl_len (types r) /\ 0 <= sl_len (values r).

Lemma get_row_of r i : proper_record r -> (let? v := get r i in Ok (datum <$> v)) = get_row (row_of r) i.
Proof.
  intros [Ht Hv]. unfold get_row, get. cbn [row_of column_count row_count row_values row_types row_id]. case_match; [done|].
  assert (outcome_rel same_value (get_loop r (Z.to_nat i) 0 0)
    (get_loop (mkRecord (rowid r) (slice_of_list (bytes_of (values r))) (slice_of_list (bytes_of (types r))) (column_count r)) (Z.to_nat i) 0 0)) as H0.
  { apply get_loop_rel; (apply sl_len_bytes; [done|cbn; lia|]); cbn [types values]; by rewrite bytes_of_list. }
  destruct H0 as [v v' H0|e|]; cbn; [by rewrite H0|done..].
Qed.

(** ** Records of typed columns *)

(** A type code and as many bytes as it says. *)
Definition column : Type := Z * list Z.

Definition column_ok (c : column) : Prop := 0 <= fst c < 2 ^ 62 /\ Z.of_nat (length (snd c)) = value_size (fst c).

Definition types_of (cols : list column) : list Z := concat (map (fun c => varint_bytes (fst c)) cols).
Definition values_of (cols : list column) : list Z := concat (map snd cols).

Lemma starts_with_drop s l1 l2 :
  0 <= sl_len s -> bytes_of s = l1 ++ l2 ->
  exists t, from (E := Error) s (Z.of_nat (length l1)) = Ok t /\ bytes_of t = l2 /\ sl_len t = Z.of_nat (length l2).
Proof.
  intros Hn Hb. assert (sl_len s = Z.of_nat (length l1) + Z.of_nat (length l2)) as Hl.
  { assert (length (bytes_of s) = length (l1 ++ l2)) as H by by rewrite Hb. unfold bytes_of in H. rewrite range_length, length_app in H. lia. }
  eexists. split; [apply from_ok; lia|]. cbn. split; [|lia]. unfold bytes_of in *. cbn.
  rewrite Hl, range_app in Hb by lia. apply app_inj_1 in Hb as [_ H2]; [|rewrite range_length; lia].
  rewrite <- H2. f_equal. lia.
Qed.

Lemma starts_with_bytes s l1 l2 : 0 <= sl_len s -> bytes_of s = l1 ++ l2 -> starts_with s l1.
Proof.
  intros Hn Hb. assert (starts_with s (l1 ++ l2)) as H.
  { unfold starts_with. assert (length (bytes_of s) = length (l1 ++ l2)) as H by by rewrite Hb.
    unfold bytes_of in H at 1. rewrite range_length in H. rewrite <- H, Z2Nat.id by lia. by split. }
  by apply starts_with_app in H as [H _].
Qed.

Lemma i64_below v : 0 <= v < 2 ^ 63 -> i64 v = v.
Proof. intros H. unfold i64. rewrite Z.mod_small by lia. lia. Qed.

Lemma decode_type s t l :
  0 <= t < 2 ^ 62 -> 0 <= sl_len s -> bytes_of s = varint_bytes t ++ l -> decode_varint s = Ok (t, Z.of_nat (length (varint_bytes t))).
Proof.
  intros Ht Hn Hb. rewrite (decode_varint_bytes s t); [by rewrite i64_below by lia|lia|]. by eapply starts_with_bytes.
Qed.

Lemma value_size_bound t : 0 <= t < 2 ^ 62 -> 0 <= value_size t < 2 ^ 61.
Proof.
  intros Ht. unfold value_size. pose proof (Z.div_pos (t - 12) 2). pose proof (Z.div_pos (t - 13) 2).
  assert ((t - 12) / 2 < 2 ^ 61 /\ (t - 13) / 2 < 2 ^ 61) by (split; apply Z.div_lt_upper_bound; lia).
  repeat case_match; bool_prop; lia.
Qed.

Lemma varint_type_length t : 0 <= t < 2 ^ 62 -> 0 < Z.of_nat (length (varint_bytes t)).
Proof. intros Ht. pose proof (varint_bytes_length t). lia. Qed.

Lemma count_columns_types cols s : Forall column_ok cols -> forall l pos n fuel,
  0 <= sl_len s -> bytes_of s = l ++ types_of cols -> pos = Z.of_nat (length l) ->
  (length (types_of cols) <= fuel)%nat -> count_columns fuel s pos n = Ok (n + Z.of_nat (length cols)).
Proof.
  induction 1 as [|[t b] cols [Ht Hb] _ IH]; intros l pos n fuel Hn Hs -> Hf;
    assert (sl_len s = Z.of_nat (length (bytes_of s))) as Hl by (unfold bytes_of; rewrite range_length; lia);
    rewrite Hs, length_app in Hl; unfold types_of in *; cbn [map concat fst] in *.
  - cbn in Hl. destruct fuel; cbn [count_columns]; rewrite (proj2 (Z.ltb_ge _ _)) by lia; f_equal; cbn; lia.
  - cbn [fst] in Ht. pose proof (varint_type_length t Ht) as Hv. rewrite length_app in Hl, Hf. destruct fuel as [|fuel]; [lia|].
    cbn [count_columns]. rewrite (proj2 (Z.ltb_lt _ _)) by lia.
    destruct (starts_with_drop s l _ Hn Hs) as (s' & -> & Hb' & Hl'). cbn [obind].
    rewrite (decode_type s' t _ Ht ltac:(lia) Hb'). cbn [obind].
    rewrite (IH (l ++ varint_bytes t)); [f_equal; cbn; lia|done|by rewrite <- app_assoc|rewrite length_app; lia|lia].
Qed.

(** Column [i] of a record of typed columns is decoded from its own bytes. *)
Lemma get_loop_columns r pre_t pre_v cols : Forall column_ok cols -> forall n c,
  0 <= sl_len (types r) -> 0 <= sl_len (values r) -> sl_len (values r) < 2 ^ 62 ->
  bytes_of (types r) = pre_t ++ types_of cols -> bytes_of (values r) = pre_v ++ values_of cols -> cols !! n = Some c ->
  get_loop r n (Z.of_nat (length pre_t)) (Z.of_nat (length pre_v)) =
  decode_value (values r) (fst c) (Z.of_nat (length pre_v) + Z.of_nat (length (values_of (take n cols)))).
Proof.
  intros Hcols. revert pre_t pre_v. induction Hcols as [|[t b] cols [Ht Hb] _ IH]; intros pre_t pre_v n c Hn Hm Hm2 Hts Hvs Hc; [done|].
  unfold types_of, values_of in Hts, Hvs. cbn [map concat fst snd] in Hts, Hvs. cbn [fst snd] in Ht, Hb.
  assert (sl_len (values r) = Z.of_nat (length (bytes_of (values r)))) as Hlv by (unfold bytes_of; rewrite range_length; lia).
  rewrite Hvs, !length_app in Hlv.
  destruct (starts_with_drop _ _ _ Hn Hts) as (s & Hs & Hbs & Hls).
  destruct n as [|n]; cbn [get_loop]; rewrite Hs; cbn [obind]; rewrite (decode_type s t _ Ht ltac:(lia) Hbs);
    unfold u64; rewrite !(Z.mod_small t) by lia.
  - injection Hc as <-. cbn. f_equal. lia.
  - specialize (IH (pre_t ++ varint_bytes t) (pre_v ++ b) n c Hn Hm Hm2).
    rewrite !length_app, !Nat2Z.inj_add in IH. rewrite <- Hb, Z.mod_small by lia. rewrite IH; [|by rewrite <- app_assoc..|done].
    f_equal. cbn [take]. unfold values_of. cbn [map concat snd]. rewrite length_app. lia.
Qed.

Definition bytes_datum (t : Z) (b : list Z) : option Datum :=
  if (12 <=? t) && (t mod 2 =? 0) then Some (DBlob b)
  else if (13 <=? t) && (t mod 2 =? 1) then (if utf8_valid b then Some (DText b) else None)
  else None.

Definition column_datum (c : column) : option Datum :=
  let '(t, b) := c in
  let word := from_be_bytes b in
  match t with
  | 0 => Some DNull
  | 1 => Some (DInteger (signed_word 8 word))
  | 2 => Some (DInteger (signed_word 16 word))
  | 3 => Some (DInteger (extend_sign 0x800000 0xFFFFFF word))
  | 4 => Some (DInteger (signed_word 32 word))
  | 5 => Some (DInteger (extend_sign 0x800000000000 0xFFFFFFFFFFFF word))
  | 6 => Some (DInteger (signed_word 64 word))
  | 7 => Some (DFloat word)
  | 8 => Some (DInteger 0)
  | 9 => Some (DInteger 1)
  | t => bytes_datum t b
  end.

Lemma be_at_start n s l b : 0 <= sl_len s -> bytes_of s = b ++ l -> length b = n -> be_at (E := Error) n s 0 = Ok (from_be_bytes b).
Proof.
  intros Hn Hb Hl. destruct (starts_with_bytes s b l Hn Hb) as [Hlen Hr]. rewrite be_at_ok by lia.
  rewrite Z.add_0_r. by rewrite <- Hl, Hr.
Qed.

Lemma sub_start n s l b :
  0 <= sl_len s -> bytes_of s = b ++ l -> Z.of_nat (length b) = n ->
  exists t, sub (E := Error) s 0 n = Ok t /\ bytes_of t = b.
Proof.
  intros Hn Hb Hl. destruct (starts_with_bytes s b l Hn Hb) as [Hlen Hr]. eexists. split; [apply sub_ok; lia|].
  unfold bytes_of. cbn. by rewrite Z.add_0_r, Z.sub_0_r, <- Hl.
Qed.

Lemma int_at_start n s l b f :
  0 <= sl_len s -> bytes_of s = b ++ l -> Z.of_nat (length b) = Z.of_nat n -> int_at n s f = Ok (Some (Integer (f (from_be_bytes b)))).
Proof.
  intros Hn Hb Hl. destruct (starts_with_bytes s b l Hn Hb) as [Hlen _]. unfold int_at.
  rewrite (proj2 (Z.ltb_ge _ _)) by lia. by rewrite (be_at_start n s l b Hn Hb) by lia.
Qed.

Lemma decode_bytes_start s t l b :
  0 <= sl_len s -> bytes_of s = b ++ l -> Z.of_nat (length b) = value_size t -> 10 <= t ->
  (let? v := decode_bytes s t in Ok (datum <$> v)) = Ok (bytes_datum t b).
Proof.
  intros Hn Hs Hb Ht. destruct (starts_with_bytes s b l Hn Hs) as [Hlen _].
  assert (value_size t = if (12 <=? t) && (t mod 2 =? 0) then (t - 12) / 2 else if (13 <=? t) && (t mod 2 =? 1) then (t - 13) / 2 else 0) as Hv.
  { unfold value_size. repeat (case_match; try done; try lia). }
  unfold decode_bytes, bytes_datum. rewrite Hv in Hb.
  destruct ((12 <=? t) && _); [|destruct ((13 <=? t) && _); [|done]]; rewrite (proj2 (Z.ltb_ge _ _)) by lia;
    destruct (sub_start _ s l b Hn Hs Hb) as (d & -> & Hd); cbn [obind].
  - cbn. by rewrite Hd.
  - rewrite Hd. destruct (utf8_valid b); cbn; by rewrite ?Hd.
Qed.

Lemma decode_column s c p l :
  column_ok c -> 0 <= sl_len s -> bytes_of s = p ++ snd c ++ l ->
  (let? v := decode_value s (fst c) (Z.of_nat (length p)) in Ok (datum <$> v)) = Ok (column_datum c).
Proof.
  destruct c as [t b]. intros [Ht Hb] Hn Hs. cbn [fst snd] in *. unfold decode_value.
  destruct (starts_with_drop s p _ Hn Hs) as (d & -> & Hd & Hld). cbn [obind].
  assert (0 <= sl_len d) as Hn' by lia. destruct (starts_with_bytes d b l Hn' Hd) as [Hlen _].
  destruct t as [|t|t]; [done| |lia].
  do 4 (try destruct t as [t|t|]); cbn [column_datum]; first
    [ apply (decode_bytes_start _ _ _ _ Hn' Hd Hb); lia
    | cbn [value_size] in Hb; first [by (erewrite int_at_start; [|exact Hn'|exact Hd|exact Hb])|done|
             rewrite (proj2 (Z.ltb_ge _ _)) by lia; by rewrite (be_at_start 8 _ _ _ Hn' Hd) by lia] ].
Qed.

(** ** The payload of a record *)

(** The header with its size in one byte, then the columns. *)
Definition payload_of (cols : list column) : list Z :=
  (1 + Z.of_nat (length (types_of cols))) :: types_of cols ++ values_of cols.

Definition row_with (id : Z) (cols : list column) : Row := mkRow id (Z.of_nat (length cols)) (types_of cols) (values_of cols).

Definition columns_ok (cols : list column) : Prop :=
  Forall column_ok cols /\ 1 + Z.of_nat (length (types_of cols)) < 128 /\ Z.of_nat (length (values_of cols)) < 2 ^ 62.

Lemma decode_small s v l : 0 <= v < 128 -> 0 <= sl_len s -> bytes_of s = v :: l -> decode_varint s = Ok (v, 1).
Proof.
  intros Hv Hn Hs. assert (varint_bytes v = [v]) as E by (unfold varint_bytes; by rewrite (proj2 (Z.leb_le _ _)) by lia).
  rewrite (decode_type s v l); rewrite ?E; [done|lia|done|done].
Qed.

Lemma parse_payload id cols s :
  columns_ok cols -> 0 <= sl_len s -> bytes_of s = payload_of cols ->
  exists r, parse_record id s = Ok r /\ proper_record r /\ row_of r = row_with id cols.
Proof.
  intros (Hc & Hh & Hv) Hn Hs. unfold payload_of in Hs. set (n := 1 + _) in *.
  assert (sl_len s = n + Z.of_nat (length (values_of cols))) as Hl.
  { assert (sl_len s = Z.of_nat (length (bytes_of s))) as -> by (unfold bytes_of; rewrite range_length; lia).
    rewrite Hs. cbn [length]. rewrite length_app. lia. }
  unfold parse_record. rewrite (proj2 (Z.eqb_neq _ _)) by lia. rewrite (decode_small s n _ ltac:(lia) Hn Hs). cbn [obind].
  unfold u64. rewrite (Z.mod_small n) by lia. rewrite !(proj2 (Z.ltb_ge _ _)) by lia. cbn [orb].
  rewrite sub_ok, from_ok by lia. cbn [obind]. set (t := mkSlice _ (_ + 1) _). set (v := mkSlice _ (_ + n) _).
  assert (bytes_of t = types_of cols /\ bytes_of v = values_of cols) as [Ht Hvs].
  { unfold bytes_of in *. cbn. rewrite Hl, range_cons in Hs by lia. injection Hs as Hs0 Hs1.
    replace (n + Z.of_nat (length (values_of cols)) - 1) with ((n - 1) + Z.of_nat (length (values_of cols))) in Hs1 by lia.
    rewrite range_app in Hs1 by lia. apply app_inj_1 in Hs1 as [H1 H2]; [|rewrite range_length; lia]. split; [done|].
    rewrite <- H2. f_equal; lia. }
  rewrite (count_columns_types cols t Hc [] 0 0); [|cbn; lia|done|done|cbn; lia]. cbn [obind]. eexists. split; [done|].
  split; [split; cbn; lia|]. unfold row_of, row_with. cbn. by rewrite Ht, Hvs.
Qed.

Lemma get_column r id cols i c :
  columns_ok cols -> proper_record r -> row_of r = row_with id cols -> cols !! i = Some c ->
  (let? v := get r (Z.of_nat i) in Ok (datum <$> v)) = Ok (column_datum c).
Proof.
  intros (Hc & _ & Hv) [Ht Hvs] Hr Hi. unfold row_of, row_with in Hr. injection Hr as _ Hn Htypes Hvalues.
  assert (sl_len (values r) = Z.of_nat (length (bytes_of (values r)))) as Hl by (unfold bytes_of; rewrite range_length; lia).
  rewrite Hvalues in Hl. unfold get. rewrite Hn, (proj2 (Z.leb_gt _ _)) by (apply lookup_lt_Some in Hi; lia).
  rewrite Nat2Z.id. change (get_loop r i 0 0) with (get_loop r i (Z.of_nat (length (@nil Z))) (Z.of_nat (length (@nil Z)))).
  rewrite (get_loop_columns r [] [] cols Hc i c Ht Hvs ltac:(lia) Htypes Hvalues Hi).
  replace (Z.of_nat (length (@nil Z)) + Z.of_nat (length (values_of (take i cols)))) with (Z.of_nat (length (values_of (take i cols)))) by (cbn; lia).
  apply (decode_column _ _ _ (values_of (drop (S i) cols))); [by eapply Forall_lookup_1|done|].
  rewrite Hvalues. rewrite <- (take_drop_middle cols i c Hi) at 1. unfold values_of. by rewrite map_app, concat_app.
Qed.

(** C22: A record of typed columns reads back: parsing the payload gives a
    record with the rowid and the number of columns, and each column decodes
    from its own bytes, whatever the others hold. *)
Theorem record_roundtrip (id : Z) (cols : list column) :
  columns_ok cols ->
  exists r, parse_record id (slice_of_list (payload_of cols)) = Ok r /\ rowid r = id /\
    column_count r = Z.of_nat (length cols) /\
    forall i c, cols !! i = Some c -> (let? v := get r (Z.of_nat i) in Ok (datum <$> v)) = Ok (column_datum c).
Proof.
  intros Hc. destruct (parse_payload id cols (slice_of_list (payload_of cols)) Hc) as (r & Hr & Hp & Hrow); [cbn; lia|apply bytes_of_list|].
  exists r. pose proof Hrow as Hrow'. unfold row_of, row_with in Hrow'. injection Hrow' as Hid Hn _ _.
  repeat split; [done..|]. intros i c. by apply (get_column r id).
Qed.

Definition record_roundtrip_columns : list column := [(0, []); (19, [102; 111; 111]); (2, [255; 254]); (16, [1; 2]); (9, [])].

Lemma record_roundtrip_witness :
  columns_ok record_roundtrip_columns /\
  exists r, parse_record 7 (slice_of_list (payload_of record_roundtrip_columns)) = Ok r /\ rowid r = 7 /\ column_count r = 5 /\
    forall i c, record_roundtrip_columns !! i = Some c -> (let? v := get r (Z.of_nat i) in Ok (datum <$> v)) = Ok (column_datum c).
Proof.
  assert (columns_ok record_roundtrip_columns) as H by (split; [repeat constructor; cbn; lia|vm_compute; done]).
  split; [exact H|]. exact (record_roundtrip 7 record_roundtrip_columns H).
Defined.
