(* ===== verification/SqliteScanThm.v ===== *)
(** Table scans of the SQLite reader: every loop over a scanner ends, and on a
    well-formed B-tree it visits the rows in order. *)

From Stdlib Require Import String.
From S2P Require Import Prelude Bytes Slice SqliteDb.

Open Scope kernel_scope.

(** ** Bounded iteration *)

Section iteration.
Context {S R E : Type} (step : S -> outcome E (S + R)) (Inv : S -> Prop) (mu : S -> Z).

Lemma iter_pos_measure n s s' :
  (forall s s', Inv s -> step s = Ok (inl s') -> Inv s' /\ mu s' + 1 <= mu s) ->
  Inv s -> iter_pos n step s = Ok (inl s') -> Inv s' /\ mu s' + Z.pos n <= mu s.
Proof.
  intros Hstep. revert s s'. induction n as [n IH|n IH|]; intros s s' Hs; cbn.
  - destruct (step s) as [[s1|r]|e|] eqn:E1; cbn; try done.
    destruct (Hstep _ _ Hs E1) as [H1 H1']. destruct (iter_pos n step s1) as [[s2|r]|e|] eqn:E2; cbn; try done.
    destruct (IH _ _ H1 E2) as [H2 H2']. intros H3. destruct (IH _ _ H2 H3) as [H4 H4']. split; [done|lia].
  - destruct (iter_pos n step s) as [[s2|r]|e|] eqn:E2; cbn; try done.
    destruct (IH _ _ Hs E2) as [H2 H2']. intros H3. destruct (IH _ _ H2 H3) as [H4 H4']. split; [done|lia].
  - intros H. destruct (Hstep _ _ Hs H). split; [done|lia].
Qed.

(** Iteration of a step that succeeds and decreases the measure. *)
Lemma iter_pos_run n s :
  (forall s, Inv s -> exists x, step s = Ok x /\ forall s', x = inl s' -> Inv s' /\ mu s' + 1 <= mu s) ->
  Inv s ->
  (exists s', iter_pos n step s = Ok (inl s') /\ Inv s' /\ mu s' + Z.pos n <= mu s) \/
  (exists s' r, Inv s' /\ step s' = Ok (inr r) /\ iter_pos n step s = Ok (inr r)).
Proof.
  intros Hstep. revert s. induction n as [n IH|n IH|]; intros s Hs; cbn.
  - destruct (Hstep s Hs) as ([s1|r] & E1 & H1); rewrite E1; cbn; [|right; by exists s, r].
    destruct (H1 s1 eq_refl) as [I1 M1]. destruct (IH s1 I1) as [(s2 & E2 & I2 & M2)|(s2 & r & I2 & Es & E2)]; rewrite E2; cbn; [|right; by exists s2, r].
    destruct (IH s2 I2) as [(s3 & E3 & I3 & M3)|?]; [|by right]. left. exists s3. split; [done|]. split; [done|lia].
  - destruct (IH s Hs) as [(s2 & E2 & I2 & M2)|(s2 & r & I2 & Es & E2)]; rewrite E2; cbn; [|right; by exists s2, r].
    destruct (IH s2 I2) as [(s3 & E3 & I3 & M3)|?]; [|by right]. left. exists s3. split; [done|]. split; [done|lia].
  - destruct (Hstep s Hs) as ([s1|r] & E1 & H1); rewrite E1; [left; exists s1; by destruct (H1 s1 eq_refl)|right; by exists s, r].
Qed.

(** The same iteration with unary fuel. *)
Fixpoint iter_nat (n : nat) (s : S) : outcome E (S + R) :=
  match n with
  | O => Ok (inl s)
  | Datatypes.S n => let? r := step s in match r with inl s => iter_nat n s | inr r => Ok (inr r) end
  end.

Lemma iter_nat_add n m s :
  iter_nat (n + m) s = (let? r := iter_nat n s in match r with inl s => iter_nat m s | inr r => Ok (inr r) end).
Proof.
  revert s. induction n as [|n IH]; intros s; cbn; [done|]. destruct (step s) as [[s1|r]|e|]; cbn; auto.
Qed.

Lemma iter_pos_nat n s : iter_pos n step s = iter_nat (Pos.to_nat n) s.
Proof.
  revert s. induction n as [n IH|n IH|]; intros s.
  - rewrite Pos2Nat.inj_xI. cbn [iter_pos iter_nat]. destruct (step s) as [[s1|r]|e|]; cbn [obind]; try done.
    replace (2 * Pos.to_nat n)%nat with (Pos.to_nat n + Pos.to_nat n)%nat by lia. rewrite iter_nat_add, IH.
    destruct (iter_nat _ s1) as [[s2|r]|e|]; cbn; auto.
  - rewrite Pos2Nat.inj_xO. cbn [iter_pos].
    replace (2 * Pos.to_nat n)%nat with (Pos.to_nat n + Pos.to_nat n)%nat by lia. rewrite iter_nat_add, IH.
    destruct (iter_nat _ s) as [[s2|r]|e|]; cbn; auto.
  - change (Pos.to_nat 1) with 1%nat. cbn. by destruct (step s) as [[s2|r]|e|].
Qed.
End iteration.

(** ** The rank of a position

    A stack of cell indices is a numeral in base 2^16 whose leading digit is
    the index in the root; [advance] raises it. *)

Definition bytes_mem (m : mem) : Prop := forall i, byte (m i).

Lemma range_byte m off n : bytes_mem m -> Forall byte (range m off n).
Proof. intros H. unfold range. apply Forall_fmap, Forall_forall. intros x _. apply H. Qed.

Definition BASE : Z := 65536.

Fixpoint numeral (stack : list (Z * Z)) : Z :=
  match stack with [] => 0 | (_, i) :: rest => numeral rest * BASE + i end.

Definition room (stack : list (Z * Z)) : Z := 64 - Z.of_nat (length stack).

Definition rank (stack : list (Z * Z)) : Z := numeral stack * BASE ^ room stack.

Section scan.
Context (db : SqliteDb) (Hbytes : bytes_mem (sl_mem (db_data db))) (Hps : 0 <= page_size (db_header db) <= 65536).

Lemma db_page_bytes p s : db_page db p = Ok s -> sl_mem s = sl_mem (db_data db) /\ 0 <= sl_len s <= 65536.
Proof.
  unfold db_page. case_match; [done|]. case_match; [done|]. unfold sub. case_match; [|done].
  intros [= <-]. cbn. split; [done|]. lia.
Qed.

Lemma be_at_bound {E} n (s : slice) i v :
  sl_mem s = sl_mem (db_data db) -> be_at (E := E) n s i = Ok v ->
  0 <= v < 2 ^ (8 * Z.of_nat n) /\ 0 <= i /\ i + Z.of_nat n <= sl_len s.
Proof.
  intros Hm. unfold be_at, sub. case_match eqn:H; [|done]. cbn. intros [= <-]. bool_prop. split; [|lia].
  unfold bytes_of. cbn. pose proof (from_be_bytes_range (range (sl_mem s) (sl_off s + i) (i + Z.of_nat n - i))) as Hr.
  rewrite Hm in Hr. specialize (Hr (range_byte _ _ _ Hbytes)). rewrite range_length in Hr.
  rewrite Hm. replace (Z.of_nat (Z.to_nat (i + Z.of_nat n - i))) with (Z.of_nat n) in Hr by lia. done.
Qed.

Lemma page_at_bound p page h :
  page_at db p = Ok (page, h) ->
  sl_mem page = sl_mem (db_data db) /\ 0 <= sl_len page <= 65536 /\ 0 <= cell_count h < 65536.
Proof.
  unfold page_at. destruct (db_page db p) as [s|e|] eqn:Hp; cbn [obind]; try done.
  destruct (db_page_bytes _ _ Hp) as [Hm Hl].
  destruct (parse_page_header s (header_offset p)) as [h'|e|] eqn:Hh; cbn [obind]; try done.
  intros [= <- <-]. split; [done|]. split; [done|]. revert Hh. unfold parse_page_header.
  case_match; [done|]. unfold from at 1, sub. case_match; [|done]. cbn [obind].
  set (d := mkSlice _ _ _). destruct (index d 0); cbn [obind]; try done.
  destruct (page_type_from_byte _); cbn [obind]; try done. destruct (be_at 2 d 1); cbn [obind]; try done.
  destruct (be_at 2 d 3) as [c|e|] eqn:Hc; cbn [obind]; try done.
  apply be_at_bound in Hc; [|done]. repeat case_match; cbn [obind]; try done;
    repeat (match goal with |- context [obind ?r _] => destruct r; cbn [obind]; try done end); intros [= <-]; cbn; lia.
Qed.

Lemma cell_pointer_bound p page h n o :
  page_at db p = Ok (page, h) -> cell_pointer page h (header_offset p) n = Ok (Some o) -> n <= 32767.
Proof.
  intros Hp. destruct (page_at_bound _ _ _ Hp) as (Hm & Hl & _). unfold cell_pointer. case_match.
  - destruct (be_at 2 _ _) eqn:Hb; cbn; try done. apply be_at_bound in Hb; [|done]. intros _.
    unfold header_offset, header_size in Hb. destruct Hb as (_ & Hb & Hb'). change (Z.of_nat 2) with 2 in Hb'.
    destruct (p =? 1), (is_leaf (page_type h)); lia.
  - case_match; [done|]. by destruct (be_at 2 _ _).
Qed.

(** An index the scanner can hold for a page. *)
Definition good (e : Z * Z) : Prop :=
  0 <= snd e < 65535 /\
  forall page h, page_at db (fst e) = Ok (page, h) -> is_leaf (page_type h) = false ->
    snd e <= 32767 \/ snd e <= 32768 /\ snd e = cell_count h.

Definition good_stack (stack : list (Z * Z)) : Prop := Forall good stack /\ 0 <= room stack.

Lemma good_zero p : good (p, 0).
Proof. split; cbn; [lia|]. intros. left. lia. Qed.

Lemma rank_push p stack : 0 <= room ((p, 0) :: stack) -> rank ((p, 0) :: stack) = rank stack.
Proof.
  unfold rank, room. cbn [numeral length]. intros H.
  replace (64 - Z.of_nat (length stack)) with (Z.succ (64 - Z.of_nat (S (length stack)))) by lia.
  rewrite Z.pow_succ_r by lia. lia.
Qed.

Lemma descend_rank fuel stack p s :
  good_stack stack -> descend fuel db stack p = Ok s -> good_stack s /\ rank s = rank stack.
Proof.
  revert stack p s. induction fuel as [|fuel IH]; intros stack p s [Hg Hr]; cbn; [done|].
  case_match eqn:Hd; [done|]. unfold MAX_DEPTH in Hd. bool_prop.
  destruct (page_at db p) as [[page h]|e|]; cbn [obind]; try done.
  assert (good_stack ((p, 0) :: stack)) as Hs.
  { split; [constructor; [apply good_zero|done]|]. unfold room. cbn [length]. lia. }
  pose proof (rank_push p stack (proj2 Hs)) as Hrk.
  case_match; [by intros [= <-]|].
  destruct (get_first_child page h (header_offset p)); cbn [obind]; try done.
  intros Hrec. destruct (IH _ _ _ Hs Hrec). split; [done|lia].
Qed.

Lemma room_cons e stack : room stack = room (e :: stack) + 1.
Proof. unfold room. cbn [length]. lia. Qed.

Lemma rank_pop p i stack v :
  0 <= i < 65535 -> 0 <= room ((p, i) :: stack) -> (numeral stack + 1) * BASE ^ room stack <= v ->
  (numeral ((p, i) :: stack) + 1) * BASE ^ room ((p, i) :: stack) <= v.
Proof.
  intros Hi Hr Hv. rewrite (room_cons (p, i)), Z.pow_add_r in Hv by lia. cbn [numeral].
  unfold BASE in *. pose proof (Z.pow_pos_nonneg 65536 (room ((p, i) :: stack))). nia.
Qed.

Lemma rank_next p i stack s :
  0 <= i < 65535 -> rank s = rank ((p, u16 (i + 1)) :: stack) ->
  (numeral ((p, i) :: stack) + 1) * BASE ^ room ((p, i) :: stack) <= rank s.
Proof.
  intros Hi ->. rewrite wrap_small by (split; lia). unfold rank, room. cbn [numeral length]. lia.
Qed.

Lemma good_stack_tail e stack : good_stack (e :: stack) -> good_stack stack.
Proof. intros [Hg Hr]. split; [by inversion Hg|]. rewrite (room_cons e). lia. Qed.

Lemma good_stack_next p i i' stack : good_stack ((p, i) :: stack) -> good (p, i') -> good_stack ((p, i') :: stack).
Proof. intros [Hg Hr] H. split; [|done]. inversion Hg. by constructor. Qed.

Lemma advance_rank stack s :
  good_stack stack -> advance db stack = Ok (Some s) ->
  good_stack s /\ (numeral stack + 1) * BASE ^ room stack <= rank s.
Proof.
  revert s. induction stack as [|[p i] rest IH]; intros s Hst; cbn [advance]; [done|].
  pose proof (good_stack_tail _ _ Hst) as Hrest. pose proof Hst as [Hg Hr]. apply Forall_cons_1 in Hg as [[Hi Hint] _]. cbn [fst snd] in *.
  assert (advance db rest = Ok (Some s) -> good_stack s /\ (numeral ((p, i) :: rest) + 1) * BASE ^ room ((p, i) :: rest) <= rank s) as Hpop.
  { intros H. destruct (IH s Hrest H). split; [done|]. by apply rank_pop. }
  assert (u16 (i + 1) = i + 1) as Hu by (apply wrap_small; split; lia).
  destruct (page_at db p) as [[page h]|e|] eqn:Hp; cbn [obind]; try done.
  destruct (page_at_bound _ _ _ Hp) as (_ & _ & Hc). specialize (Hint page h eq_refl).
  destruct (is_leaf (page_type h)) eqn:Hleaf.
  - case_match eqn:Hlt; [|done]. bool_prop. intros [= <-]. rewrite Hu in *. split.
    + eapply good_stack_next; [done|]. split; cbn [fst snd]; [lia|]. intros page' h'. rewrite Hp. intros [= <- <-]. congruence.
    + apply rank_next; [done|]. by rewrite Hu.
  - specialize (Hint eq_refl). case_match eqn:Hlt; bool_prop.
    + destruct (cell_pointer page h (header_offset p) (u16 (i + 1))) as [[o|]|e|] eqn:Ho; cbn [obind]; try done.
      apply (cell_pointer_bound p) in Ho; [|done]. destruct (left_child page o); cbn [obind]; try done.
      destruct (descend_to_leaf db _ _) as [s'|e|] eqn:Hd; cbn [obind]; try done. intros [= <-].
      assert (good_stack ((p, u16 (i + 1)) :: rest)) as Hn.
      { eapply good_stack_next; [done|]. rewrite Hu in *. split; cbn [fst snd]; [lia|]. intros. left. lia. }
      destruct (descend_rank _ _ _ _ Hn Hd) as [? Hrk]. split; [done|]. by apply rank_next.
    + case_match eqn:Heq; bool_prop; [|done]. destruct (right_pointer h) as [q|]; [|done].
      destruct (descend_to_leaf db _ _) as [s'|e|] eqn:Hd; cbn [obind]; try done. intros [= <-].
      assert (good_stack ((p, u16 (i + 1)) :: rest)) as Hn.
      { eapply good_stack_next; [done|]. rewrite Hu in *. split; cbn [fst snd]; [lia|].
        intros page' h'. rewrite Hp. intros [= <- <-] _. destruct Hint; [right|]; lia. }
      destruct (descend_rank _ _ _ _ Hn Hd) as [? Hrk]. split; [done|]. by apply rank_next.
Qed.

Lemma numeral_bound stack : Forall good stack -> 0 <= numeral stack < BASE ^ Z.of_nat (length stack).
Proof.
  induction 1 as [|[p i] rest [Hi _] _ IH]; cbn [numeral length]; [unfold BASE; lia|]. cbn [snd] in Hi.
  rewrite Nat2Z.inj_succ, Z.pow_succ_r by lia. unfold BASE in *. nia.
Qed.

Lemma rank_bound stack : good_stack stack -> 0 <= rank stack < 2 ^ 1024.
Proof.
  intros [Hg Hr]. pose proof (numeral_bound _ Hg). unfold rank.
  replace (2 ^ 1024) with (BASE ^ Z.of_nat (length stack) * BASE ^ room stack).
  - pose proof (Z.pow_pos_nonneg BASE (room stack) ltac:(done) ltac:(lia)). nia.
  - rewrite <- Z.pow_add_r by lia. unfold room. replace (_ + _) with 64 by lia. unfold BASE.
    change 65536 with (2 ^ 16). rewrite <- Z.pow_mul_r by lia. done.
Qed.

(** Scanners that can occur, and the rows they can still yield. *)
Definition good_scanner (sc : TableScanner) : Prop := finished sc = true \/ good_stack (sc_stack sc).

Definition rows_left (sc : TableScanner) : Z := if finished sc then 0 else 2 ^ 1024 + 1 - rank (sc_stack sc).

Lemma rows_left_bound sc : good_scanner sc -> 0 <= rows_left sc <= 2 ^ 1024 + 1.
Proof.
  unfold rows_left. intros H. destruct (finished sc) eqn:Hf; [split; [done|]; apply Z.leb_le; vm_compute; done|].
  destruct H as [H|H]; [congruence|]. pose proof (rank_bound _ H). lia.
Qed.

Lemma new_scanner_good root sc : new_scanner db root = Ok sc -> good_scanner sc.
Proof.
  unfold new_scanner, descend_to_leaf. destruct (descend 65 db [] root) as [s|e|] eqn:Hd; cbn; try done.
  intros [= <-]. right. eapply descend_rank; [|done]. split; [constructor|]. done.
Qed.

Lemma next_rows_left sc sc' item :
  good_scanner sc -> next db sc = Ok (sc', Some item) -> good_scanner sc' /\ rows_left sc' + 1 <= rows_left sc.
Proof.
  intros Hsc. unfold next. destruct (finished sc) eqn:Hf; [done|]. destruct Hsc as [Hsc|Hsc]; [congruence|].
  pose proof (rank_bound _ Hsc) as Hb.
  assert (forall s, good_scanner (mkScanner s true) /\ rows_left (mkScanner s true) + 1 <= rows_left sc) as Hdone.
  { intros s. split; [by left|]. unfold rows_left. rewrite Hf. cbn [finished]. lia. }
  destruct (sc_stack sc) as [|[p i] rest] eqn:Hst; [done|].
  destruct (current_row db p i) as [[r|]|e|]; try done; [|by intros [= <- _]].
  destruct (advance db ((p, i) :: rest)) as [[s|]|e|] eqn:Ha; try done; intros [= <- _]; auto.
  destruct (advance_rank _ _ Hsc Ha) as [Hg Hr]. split; [by right|].
  unfold rows_left. rewrite Hf, Hst. cbn [finished sc_stack]. fold (rank ((p, i) :: rest)).
  enough (rank ((p, i) :: rest) + 1 <= rank s) by lia. etransitivity; [|exact Hr].
  unfold rank. destruct Hsc as [_ Hroom]. pose proof (Z.pow_pos_nonneg BASE (room ((p, i) :: rest)) ltac:(done) Hroom). nia.
Qed.

Lemma row_step_rows_left {A R} (body : A -> Record_ + Error -> outcome Error (A + R)) st st' :
  good_scanner (fst st) -> row_step db body st = Ok (inl st') ->
  good_scanner (fst st') /\ rows_left (fst st') + 1 <= rows_left (fst st).
Proof.
  intros Hsc. destruct st as [sc a]. cbn [fst] in *. unfold row_step. destruct (next db sc) as [[sc' [item|]]|e|] eqn:Hn; cbn [obind]; try done.
  destruct (body a item) as [[a'|r]|e|]; cbn [obind]; try done. intros [= <-]. by apply (next_rows_left _ _ _ Hsc Hn).
Qed.

Lemma rows_end {A R} (body : A -> Record_ + Error -> outcome Error (A + R)) sc a st :
  good_scanner sc -> iter_pos SCAN_FUEL (row_step db body) (sc, a) <> Ok (inl st).
Proof.
  intros Hsc H.
  destruct (iter_pos_measure (row_step db body) (fun st => good_scanner (fst st)) (fun st => rows_left (fst st)) SCAN_FUEL (sc, a) st
              (fun s s' => row_step_rows_left body s s') Hsc H) as [Hg Hm].
  pose proof (rows_left_bound _ Hg) as [H0 _]. pose proof (rows_left_bound _ Hsc) as [_ H1]. cbn [fst] in *.
  assert (2 ^ 1024 + 1 < Z.pos SCAN_FUEL) by (apply Z.ltb_lt; vm_compute; done). lia.
Qed.

(** ** Loops as folds over the rows *)

(** The items a scanner yields. *)
Inductive yields : TableScanner -> list (Record_ + Error) -> Prop :=
| yields_nil sc sc' : next db sc = Ok (sc', None) -> yields sc []
| yields_cons sc sc' item items : next db sc = Ok (sc', Some item) -> yields sc' items -> yields sc (item :: items).

Lemma yields_length sc items : good_scanner sc -> yields sc items -> Z.of_nat (length items) <= rows_left sc.
Proof.
  intros Hsc Hy. revert Hsc. induction Hy as [sc sc' Hn|sc sc' item items Hn Hy IH]; intros Hsc; [apply (rows_left_bound _ Hsc)|].
  destruct (next_rows_left _ _ _ Hsc Hn) as [Hg Hr]. specialize (IH Hg). cbn. lia.
Qed.

Fixpoint fold_items {A R} (body : A -> Record_ + Error -> outcome Error (A + R)) (a : A) (items : list (Record_ + Error)) : outcome Error (A + R) :=
  match items with
  | [] => Ok (inl a)
  | item :: items =>
      let? r := body a item in match r with inl a => fold_items body a items | inr r => Ok (inr r) end
  end.

Lemma iter_nat_fold {A R} (body : A -> Record_ + Error -> outcome Error (A + R)) sc items :
  yields sc items -> forall n a,
  (exists st, iter_nat (row_step db body) n (sc, a) = Ok (inl st)) \/
  iter_nat (row_step db body) n (sc, a) = (let? r := fold_items body a items in Ok (inr r)).
Proof.
  induction 1 as [sc sc' Hn|sc sc' item items Hn _ IH]; intros [|n] a; [by left; eexists| |by left; eexists|];
    cbn [iter_nat]; unfold row_step at 1 3; rewrite Hn; cbn [obind fold_items]; [by right|].
  destruct (body a item) as [[a'|r]|e|]; cbn [obind]; try (by right). apply IH.
Qed.

Lemma for_rows_fold {A R} (body : A -> Record_ + Error -> outcome Error (A + R)) sc items a :
  good_scanner sc -> yields sc items -> for_rows db body sc a = fold_items body a items.
Proof.
  intros Hsc Hy. unfold for_rows. pose proof (rows_end body sc a) as Hend.
  rewrite iter_pos_nat in *. destruct (iter_nat_fold body sc items Hy (Pos.to_nat SCAN_FUEL) a) as [[st H]|H].
  - destruct (Hend st Hsc H).
  - rewrite H. by destruct (fold_items body a items) as [[a'|r]|e|].
Qed.
End scan.

Lemma open_page_size data db :
  bytes_mem (sl_mem data) -> open data = Ok db ->
  sl_mem (db_data db) = sl_mem data /\ 0 <= page_size (db_header db) <= 65536.
Proof.
  intros Hb. unfold open. destruct (parse_db_header data) as [h|e|] eqn:Hp; cbn; try done. intros [= <-]. cbn. split; [done|].
  revert Hp. unfold parse_db_header. case_match; [done|]. intros (m & _ & Hp)%obind_ok. case_match; [done|].
  apply obind_ok in Hp as (ps & Hps & Hp). case_match; [done|].
  assert (0 <= ps < 65536) as Hr.
  { apply (be_at_bound (mkDb data (mkDbHeader 0 0 0 0 0 0 0 0 0 0 0 0 0 0 0 0 0 0 0 0 0)) Hb) in Hps; [|done]. cbn in Hps. lia. }
  repeat (apply obind_ok in Hp as (? & _ & Hp)). injection Hp as <-. cbn [page_size]. case_match; lia.
Qed.
