(* ===== verification/SqliteTree.v ===== *)
(** Tables as B-trees: the abstract tree a root page stands for, and the scan
    of it. *)

From Stdlib Require Import String.
From S2P Require Import Prelude Bytes Slice SqliteDb SqliteRow SqliteScanThm.

Open Scope kernel_scope.

(** A leaf has rows; an interior page has the children of its cells and the
    child of its right pointer. *)
Inductive tree :=
| Leaf (page : Z) (rows : list Row)
| Node (page : Z) (cells : list tree) (last : tree).

Definition page_of (t : tree) : Z := match t with Leaf p _ | Node p _ _ => p end.

Fixpoint leaves (t : tree) : list (list Row) :=
  match t with
  | Leaf _ rows => [rows]
  | Node _ cells last => concat (map leaves cells) ++ leaves last
  end.

Fixpoint depth (t : tree) : nat :=
  match t with
  | Leaf _ _ => 1
  | Node _ cells last => S (Nat.max (list_max (map depth cells)) (depth last))
  end.

Definition rows (t : tree) : list Row := concat (leaves t).

(** The rows of the leaves before the first empty one. *)
Fixpoint visible (ls : list (list Row)) : list Row :=
  match ls with [] | [] :: _ => [] | l :: ls => l ++ visible ls end.

Lemma visible_all ls : Forall (fun l => l <> []) ls -> visible ls = concat ls.
Proof. induction 1 as [|[|x l] ls Hl _ IH]; cbn; [done|done|]. by rewrite IH. Qed.

Section tree_ind.
Context (P : tree -> Prop) (HL : forall p rows, P (Leaf p rows))
  (HN : forall p cells last, Forall P cells -> P last -> P (Node p cells last)).

Fixpoint tree_rect' (t : tree) : P t :=
  match t with
  | Leaf p rows => HL p rows
  | Node p cells last =>
      HN p cells last
        ((fix go (cs : list tree) : Forall P cs :=
            match cs with [] => Forall_nil_2 P | c :: cs => Forall_cons_2 P c cs (tree_rect' c) (go cs) end) cells)
        (tree_rect' last)
  end.
End tree_ind.

(** ** The tree at a page *)

Definition leaf_page (db : SqliteDb) (p : Z) (rows : list Row) : Prop :=
  exists page h,
    page_at db p = Ok (page, h) /\ page_type h = LeafTable /\ cell_count h = Z.of_nat (length rows) /\
    Z.of_nat (length rows) <= 65535 /\
    forall i row, rows !! i = Some row -> exists r, current_row db p (Z.of_nat i) = Ok (Some r) /\ row_of r = row.

Definition node_page (db : SqliteDb) (p : Z) (children : list Z) (right : Z) : Prop :=
  exists page h,
    page_at db p = Ok (page, h) /\ page_type h = InteriorTable /\ cell_count h = Z.of_nat (length children) /\
    Z.of_nat (length children) < 65535 /\ right_pointer h = Some right /\
    forall i c, children !! i = Some c ->
      exists o, cell_pointer page h (header_offset p) (Z.of_nat i) = Ok (Some o) /\ left_child page o = Ok c.

Fixpoint tree_at (db : SqliteDb) (t : tree) : Prop :=
  match t with
  | Leaf p rows => leaf_page db p rows
  | Node p cells last =>
      node_page db p (map page_of cells) (page_of last) /\
      foldr (fun c P => tree_at db c /\ P) True cells /\ tree_at db last
  end.

(** ** Deciding it *)

#[global] Instance Row_eq_dec : EqDecision Row.
Proof. solve_decision. Defined.

#[global] Instance PageType_eq_dec : EqDecision PageType.
Proof. solve_decision. Defined.

Definition check_all {A} (f : nat -> A -> bool) (l : list A) : bool := forallb (fun '(i, x) => f i x) (imap pair l).

Definition check_leaf (db : SqliteDb) (p : Z) (rows : list Row) : bool :=
  match page_at db p with
  | Ok (page, h) =>
      bool_decide (page_type h = LeafTable) && (cell_count h =? Z.of_nat (length rows)) && (Z.of_nat (length rows) <=? 65535) &&
      check_all (fun i row => match current_row db p (Z.of_nat i) with Ok (Some r) => bool_decide (row_of r = row) | _ => false end) rows
  | _ => false
  end.

Definition check_node (db : SqliteDb) (p : Z) (children : list Z) (right : Z) : bool :=
  match page_at db p with
  | Ok (page, h) =>
      bool_decide (page_type h = InteriorTable) && (cell_count h =? Z.of_nat (length children)) && (Z.of_nat (length children) <? 65535) &&
      bool_decide (right_pointer h = Some right) &&
      check_all (fun i c => match cell_pointer page h (header_offset p) (Z.of_nat i) with
                            | Ok (Some o) => match left_child page o with Ok c' => c' =? c | _ => false end
                            | _ => false
                            end) children
  | _ => false
  end.

Fixpoint check_tree (db : SqliteDb) (t : tree) : bool :=
  match t with
  | Leaf p rows => check_leaf db p rows
  | Node p cells last =>
      check_node db p (map page_of cells) (page_of last) && foldr (fun c b => check_tree db c && b) true cells && check_tree db last
  end.

Lemma check_all_spec {A} (f : nat -> A -> bool) l i x : check_all f l = true -> l !! i = Some x -> f i x = true.
Proof.
  intros H Hx. unfold check_all in H. rewrite forallb_forall in H. apply (H (i, x)).
  apply list_elem_of_In, list_elem_of_lookup_2 with i. by rewrite list_lookup_imap, Hx.
Qed.

Lemma check_leaf_sound db p rows : check_leaf db p rows = true -> leaf_page db p rows.
Proof.
  unfold check_leaf. destruct (page_at db p) as [[page h]|e|] eqn:Hp; try done. intros H. exists page, h.
  rewrite !andb_true_iff in H. destruct H as [[[H1 H2] H3] H4]. bool_prop. repeat split; [done|by apply bool_decide_eq_true in H1|lia|lia|].
  intros i row Hi. pose proof (check_all_spec _ _ _ _ H4 Hi) as H5. cbn in H5.
  destruct (current_row db p (Z.of_nat i)) as [[r|]|e|]; try done. exists r. split; [done|]. by apply bool_decide_eq_true in H5.
Qed.

Lemma check_node_sound db p children right : check_node db p children right = true -> node_page db p children right.
Proof.
  unfold check_node. destruct (page_at db p) as [[page h]|e|] eqn:Hp; try done. intros H. exists page, h.
  rewrite !andb_true_iff in H. destruct H as [[[[H1 H2] H3] H4] H5]. bool_prop. apply bool_decide_eq_true in H1, H4.
  repeat split; [done..|lia|lia|done|].
  intros i c Hi. pose proof (check_all_spec _ _ _ _ H5 Hi) as H6. cbn in H6.
  destruct (cell_pointer page h (header_offset p) (Z.of_nat i)) as [[o|]|e|]; try done. exists o. split; [done|].
  destruct (left_child page o) as [c'|e|]; try done. bool_prop. by subst.
Qed.

Lemma check_tree_sound db t : check_tree db t = true -> tree_at db t.
Proof.
  induction t as [p rows|p cells last IHc IHl] using tree_rect'; cbn [check_tree tree_at]; [apply check_leaf_sound|].
  rewrite !andb_true_iff. intros [[H1 H2] H3]. split; [by apply check_node_sound|]. split; [|auto].
  clear H1 H3. induction IHc as [|c cells Hc _ IH]; cbn in *; [done|]. apply andb_true_iff in H2 as [H2 H4]. auto.
Qed.

Lemma children_at db cells i c : foldr (fun c P => tree_at db c /\ P) True cells -> cells !! i = Some c -> tree_at db c.
Proof.
  revert i. induction cells as [|x cells IH]; intros [|i]; cbn; intros H; try done; [intros [= <-]; by destruct H|].
  apply IH. by destruct H.
Qed.

(** ** The scan *)

Lemma sub_len {E} (s t : slice) a b : sub (E := E) s a b = Ok t -> 0 <= sl_len t.
Proof. unfold sub. case_match; [|done]. intros [= <-]. cbn. bool_prop. lia. Qed.

Lemma parse_record_proper id s r : parse_record id s = Ok r -> proper_record r.
Proof.
  unfold parse_record. case_match; [done|]. intros ([h n] & _ & H')%obind_ok. case_match; [done|].
  apply obind_ok in H' as (t & Ht & H'). apply obind_ok in H' as (v & Hv & H'). apply obind_ok in H' as (c & _ & [= <-]).
  split; by eapply sub_len.
Qed.

Lemma current_row_proper db p i r : current_row db p i = Ok (Some r) -> proper_record r.
Proof.
  unfold current_row. intros ([page h] & _ & H)%obind_ok. case_match; [done|]. apply obind_ok in H as ([o|] & _ & H); [|done].
  apply obind_ok in H as (r' & H & [= <-]). revert H. unfold parse_leaf_cell. intros (cell & _ & H)%obind_ok.
  apply obind_ok in H as ([a b] & _ & H). apply obind_ok in H as (s & _ & H). apply obind_ok in H as ([c d] & _ & H).
  repeat case_match; try done; apply obind_ok in H as (q & _ & H); by eapply parse_record_proper.
Qed.

Section scan.
Context (db : SqliteDb).

(** The scanner's items are these rows. *)
Definition yields_rows (stack : list (Z * Z)) (l : list Row) : Prop :=
  exists recs, yields db (mkScanner stack false) (inl <$> recs) /\ row_of <$> recs = l /\ Forall proper_record recs.

(** What the scanner yields once it has left the top of the stack. *)
Definition after (stack : list (Z * Z)) (l : list Row) : Prop :=
  advance db stack = Ok None /\ l = [] \/
  exists s, advance db stack = Ok (Some s) /\ yields_rows s l.

Lemma after_ext s s' l : advance db s = advance db s' -> after s' l -> after s l.
Proof. unfold after. intros ->. done. Qed.

Lemma yields_cons_rows p i rest r l :
  current_row db p i = Ok (Some r) -> after ((p, i) :: rest) l -> yields_rows ((p, i) :: rest) (row_of r :: l).
Proof.
  intros Hr. pose proof (current_row_proper _ _ _ _ Hr) as Hp. intros [[Ha ->]|(s & Ha & recs & Hy & <- & Hps)].
  - exists [r]. split; [|split; [done|by apply Forall_singleton]]. cbn. eapply yields_cons; [unfold next; cbn [finished sc_stack]; by rewrite Hr, Ha|].
    by eapply yields_nil.
  - exists (r :: recs). split; [|split; [done|by constructor]]. cbn. eapply yields_cons; [unfold next; cbn [finished sc_stack]; by rewrite Hr, Ha|]. done.
Qed.

Lemma descend_fuel f f' stack p :
  (65 <= f + length stack)%nat -> (65 <= f' + length stack)%nat -> (length stack <= 64)%nat ->
  descend f db stack p = descend f' db stack p.
Proof.
  revert f' stack p. induction f as [|f IH]; intros [|f'] stack p H1 H2 H3; try lia. cbn [descend].
  case_match eqn:Hd; [done|]. unfold MAX_DEPTH in Hd. bool_prop.
  destruct (page_at db p) as [[page h]|e|]; cbn [obind]; try done. case_match; [done|].
  destruct (get_first_child page h (header_offset p)); cbn [obind]; try done. apply IH; cbn [length]; lia.
Qed.

Lemma descend_leaf stack p page h :
  (length stack < 64)%nat -> page_at db p = Ok (page, h) -> page_type h = LeafTable ->
  descend_to_leaf db stack p = Ok ((p, 0) :: stack).
Proof.
  intros Hl Hp Ht. unfold descend_to_leaf. cbn [descend]. unfold MAX_DEPTH. rewrite (proj2 (Z.leb_gt _ _)) by lia.
  rewrite Hp. cbn. by rewrite Ht.
Qed.

Lemma descend_node stack p page h child :
  (length stack < 64)%nat -> page_at db p = Ok (page, h) -> page_type h = InteriorTable ->
  get_first_child page h (header_offset p) = Ok child ->
  descend_to_leaf db stack p = descend_to_leaf db ((p, 0) :: stack) child.
Proof.
  intros Hl Hp Ht Hc. transitivity (descend 64 db ((p, 0) :: stack) child).
  - unfold descend_to_leaf. remember 64%nat as n. cbn [descend]. unfold MAX_DEPTH. rewrite (proj2 (Z.leb_gt _ _)) by lia.
    rewrite Hp. cbn [obind]. rewrite Ht. cbn [is_leaf]. by rewrite Hc.
  - apply descend_fuel; cbn [length]; lia.
Qed.

(** From cell [i] of a leaf on. *)
Lemma leaf_page_rows p rows rest l :
  leaf_page db p rows -> after rest l ->
  forall n i, (i + n = length rows)%nat -> (0 < n)%nat -> yields_rows ((p, Z.of_nat i) :: rest) (drop i rows ++ l).
Proof.
  intros (page & h & Hp & Ht & Hc & Hmax & Hrows) Ha. induction n as [|n IH]; intros i Hi Hn; [lia|].
  destruct (lookup_lt_is_Some_2 rows i) as [row Hrow]; [lia|]. destruct (Hrows i row Hrow) as (r & Hr & <-).
  rewrite (drop_S _ _ _ Hrow). cbn [app]. apply yields_cons_rows; [done|].
  assert (u16 (Z.of_nat i + 1) = Z.of_nat (S i)) as Hu by (rewrite wrap_small; [lia|split; lia]).
  assert (advance db ((p, Z.of_nat i) :: rest) = if Z.of_nat (S i) <? cell_count h then Ok (Some ((p, Z.of_nat (S i)) :: rest)) else advance db rest) as Hadv.
  { cbn [advance]. rewrite Hp. cbn [obind]. by rewrite Ht, Hu. }
  destruct n as [|n].
  - rewrite (proj2 (Z.ltb_ge _ _)) in Hadv by lia. rewrite drop_ge by lia. by eapply after_ext.
  - rewrite (proj2 (Z.ltb_lt _ _)) in Hadv by lia. right. exists ((p, Z.of_nat (S i)) :: rest). split; [done|]. apply IH; lia.
Qed.

(** Once cell [i] of an interior page is done the scan goes on with the cells
    after it, if [visit] describes the scan of a child. *)
Fixpoint scan_leaves (ls : list (list Row)) (l : list Row) : list Row :=
  match ls with [] => l | [] :: _ => [] | x :: ls => x ++ scan_leaves ls l end.

Lemma scan_leaves_app ls1 ls2 l : scan_leaves (ls1 ++ ls2) l = scan_leaves ls1 (scan_leaves ls2 l).
Proof. induction ls1 as [|[|x y] ls1 IH]; cbn; [done|done|]. by rewrite IH. Qed.

Lemma scan_leaves_nil ls : scan_leaves ls [] = visible ls.
Proof. induction ls as [|[|x y] ls IH]; cbn; [done|done|]. by rewrite IH. Qed.

(** The scan of the tree [t] below the stack [rest]. *)
Definition scans (t : tree) : Prop :=
  forall rest l, (length rest + depth t <= 64)%nat -> after rest l ->
    exists s, descend_to_leaf db rest (page_of t) = Ok s /\ yields_rows s (scan_leaves (leaves t) l).

Lemma scans_leaf p rows : leaf_page db p rows -> scans (Leaf p rows).
Proof.
  intros H rest l Hd Ha. cbn [depth] in Hd. pose proof H as (page & h & Hp & Ht & Hc & Hmax & Hrows).
  exists ((p, 0) :: rest). split; [eapply descend_leaf; [lia|done..]|]. cbn [leaves].
  destruct rows as [|row rows']; cbn [scan_leaves].
  - exists []. split; [|done]. cbn. eapply yields_nil. unfold next. cbn [finished sc_stack]. unfold current_row.
    rewrite Hp. cbn [obind]. rewrite Ht. cbn [is_leaf is_table negb orb]. unfold cell_pointer. rewrite Hc. cbn. done.
  - apply (leaf_page_rows p _ rest l H Ha (length (row :: rows')) 0); cbn; lia.
Qed.

Section node.
Context (p : Z) (cells : list tree) (last : tree) (page : slice) (h : BTreePageHeader) (rest : list (Z * Z)) (l : list Row).
Context (Hp : page_at db p = Ok (page, h)) (Ht : page_type h = InteriorTable)
  (Hc : cell_count h = Z.of_nat (length cells)) (Hmax : Z.of_nat (length cells) < 65535)
  (Hright : right_pointer h = Some (page_of last))
  (Hcells : forall i c, cells !! i = Some c -> exists o,
     cell_pointer page h (header_offset p) (Z.of_nat i) = Ok (Some o) /\ left_child page o = Ok (page_of c))
  (Hscan : Forall scans cells) (Hlast : scans last) (Hd : (length rest + depth (Node p cells last) <= 64)%nat)
  (Ha : after rest l).

Lemma advance_node i : 0 <= i < 65535 ->
  advance db ((p, i) :: rest) =
  if i + 1 <? cell_count h then
    let? o := cell_pointer page h (header_offset p) (i + 1) in
    match o with
    | None => Err InvalidRecord
    | Some o =>
        let? child := left_child page o in
        let? s := descend_to_leaf db ((p, i + 1) :: rest) child in Ok (Some s)
    end
  else if i + 1 =? cell_count h then let? s := descend_to_leaf db ((p, i + 1) :: rest) (page_of last) in Ok (Some s)
  else advance db rest.
Proof.
  intros Hi. cbn [advance]. rewrite Hp. cbn [obind]. rewrite Ht. cbn [is_leaf].
  rewrite (wrap_small 16 (i + 1)) by (split; lia). by rewrite Hright.
Qed.

Lemma after_last i : (length cells <= i)%nat -> Z.of_nat i < 65535 -> after ((p, Z.of_nat i) :: rest) l.
Proof.
  intros Hi Hb. eapply after_ext; [|exact Ha]. rewrite advance_node by lia.
  rewrite (proj2 (Z.ltb_ge _ _)), (proj2 (Z.eqb_neq _ _)) by lia. done.
Qed.

Lemma scans_last i : (length cells <= i)%nat -> Z.of_nat i < 65535 ->
  exists s, descend_to_leaf db ((p, Z.of_nat i) :: rest) (page_of last) = Ok s /\ yields_rows s (scan_leaves (leaves last) l).
Proof. intros Hi Hb. apply Hlast; [cbn [length depth] in *; lia|]. by apply after_last. Qed.

Lemma scans_cell i c k :
  cells !! i = Some c -> after ((p, Z.of_nat i) :: rest) k ->
  exists s, descend_to_leaf db ((p, Z.of_nat i) :: rest) (page_of c) = Ok s /\ yields_rows s (scan_leaves (leaves c) k).
Proof.
  intros Hi Hk. assert (depth c <= list_max (map depth cells))%nat as Hdc.
  { pose proof (proj1 (list_max_le (map depth cells) _) (le_n _)) as Hm. rewrite List.Forall_forall in Hm.
    apply Hm. apply in_map. by apply list_elem_of_In, list_elem_of_lookup_2 with i. }
  eapply Forall_lookup_1 in Hscan; [|exact Hi]. apply Hscan; [cbn [length depth] in *; lia|done].
Qed.

Definition rest_leaves (i : nat) : list (list Row) := concat (map leaves (drop i cells)) ++ leaves last.

Lemma after_cell n : forall i, (S i + n = length cells)%nat -> after ((p, Z.of_nat i) :: rest) (scan_leaves (rest_leaves (S i)) l).
Proof.
  induction n as [|n IH]; intros i Hi; right; rewrite advance_node by lia; unfold rest_leaves.
  - rewrite drop_ge by lia. cbn [map concat app].
    rewrite (proj2 (Z.ltb_ge _ _)), (proj2 (Z.eqb_eq _ _)) by lia. replace (Z.of_nat i + 1) with (Z.of_nat (S i)) by lia.
    destruct (scans_last (S i)) as (s & -> & Hs); [lia|lia|]. by exists s.
  - destruct (lookup_lt_is_Some_2 cells (S i)) as [c Hci]; [lia|]. rewrite (drop_S _ _ _ Hci). cbn [map concat].
    rewrite (proj2 (Z.ltb_lt _ _)) by lia. replace (Z.of_nat i + 1) with (Z.of_nat (S i)) by lia.
    destruct (Hcells _ _ Hci) as (o & -> & Hchild). cbn [obind]. rewrite Hchild. cbn [obind].
    rewrite <- app_assoc, scan_leaves_app. destruct (scans_cell (S i) c _ Hci (IH (S i) ltac:(lia))) as (s & -> & Hs). by exists s.
Qed.

Lemma scans_node : exists s, descend_to_leaf db rest p = Ok s /\ yields_rows s (scan_leaves (leaves (Node p cells last)) l).
Proof.
  assert (length rest < 64)%nat as Hr by (cbn [depth] in Hd; lia). cbn [leaves].
  destruct (decide (cells = [])) as [E|E].
  - rewrite (descend_node rest p page h (page_of last) Hr Hp Ht).
    + rewrite E. apply (scans_last 0); [by rewrite E|lia].
    + unfold get_first_child. rewrite Hc, E. cbn. by rewrite Hright.
  - destruct (lookup_lt_is_Some_2 cells 0) as [c Hc0]; [destruct cells; [done|cbn; lia]|].
    assert (0 < length cells)%nat by (by eapply lookup_lt_Some).
    destruct (Hcells 0%nat c Hc0) as (o & Ho & Hchild). rewrite (descend_node rest p page h (page_of c) Hr Hp Ht).
    + pose proof (after_cell (length cells - 1) 0 ltac:(lia)) as Hac. unfold rest_leaves in Hac.
      destruct (scans_cell 0 c _ Hc0 Hac) as (s & Hs & Hy). exists s. split; [done|].
      rewrite <- scan_leaves_app, app_assoc in Hy. rewrite <- (drop_0 cells), (drop_S _ _ _ Hc0). done.
    + unfold get_first_child. rewrite Hc, (proj2 (Z.eqb_neq _ _)) by lia. change 0 with (Z.of_nat 0). by rewrite Ho.
Qed.
End node.

Lemma scans_tree t : tree_at db t -> scans t.
Proof.
  induction t as [p rows|p cells last IHc IHl] using tree_rect'; cbn [tree_at]; [by apply scans_leaf|].
  intros ((page & h & Hp & Ht & Hc & Hmax & Hright & Hcells) & Hch & Hlast) rest l Hd Ha. rewrite length_map in Hc, Hmax.
  eapply scans_node; try done; [| |auto].
  - intros i c Hi. apply Hcells. by rewrite list_lookup_fmap, Hi.
  - apply Forall_lookup_2. intros i c Hi. eapply Forall_lookup_1 in IHc; [|exact Hi]. apply IHc. by eapply children_at.
Qed.
End scan.

(** ** Scans of a table *)

(** Any bytes the reader has opened. *)
Definition db_ok (db : SqliteDb) : Prop := bytes_mem (sl_mem (db_data db)) /\ 0 <= page_size (db_header db) <= 65536.

Lemma open_db_ok data db : bytes_mem (sl_mem data) -> open data = Ok db -> db_ok db.
Proof. intros Hb Ho. destruct (open_page_size _ _ Hb Ho) as [Hm Hps]. unfold db_ok. by rewrite Hm. Qed.

Lemma new_scanner_tree db t :
  tree_at db t -> (depth t <= 64)%nat ->
  exists sc recs, new_scanner db (page_of t) = Ok sc /\ yields db sc (inl <$> recs) /\
    row_of <$> recs = visible (leaves t) /\ Forall proper_record recs.
Proof.
  intros Ht Hd. destruct (scans_tree db t Ht [] []) as (s & Hs & recs & Hy & Hr & Hp); [cbn; lia|by left|].
  exists (mkScanner s false), recs. unfold new_scanner. rewrite Hs. cbn. by rewrite Hr, scan_leaves_nil.
Qed.

(** No more rows than the scanner can yield. *)
Lemma visible_length db t : db_ok db -> tree_at db t -> (depth t <= 64)%nat -> Z.of_nat (length (visible (leaves t))) <= 2 ^ 1024 + 1.
Proof.
  intros [Hb Hps] Ht Hd. destruct (new_scanner_tree db t Ht Hd) as (sc & recs & Hsc & Hy & <- & _).
  pose proof (new_scanner_good db _ _ Hsc) as Hg. pose proof (yields_length db Hb Hps sc _ Hg Hy) as Hl.
  pose proof (rows_left_bound db Hps sc Hg). rewrite !length_fmap in *. lia.
Qed.

(** A loop whose body looks at a record's row only is a fold over the rows. *)
Fixpoint fold_rows {A R} (f : A -> Row -> outcome Error (A + R)) (a : A) (l : list Row) : outcome Error (A + R) :=
  match l with
  | [] => Ok (inl a)
  | row :: l => let? r := f a row in match r with inl a => fold_rows f a l | inr r => Ok (inr r) end
  end.

Definition map_inr {A R R'} (g : R -> R') (x : A + R) : A + R' := match x with inl a => inl a | inr r => inr (g r) end.

Lemma for_rows_tree_map {A R R'} (g : R -> R') db t sc (body : A -> Record_ + Error -> outcome Error (A + R)) f a :
  db_ok db -> tree_at db t -> (depth t <= 64)%nat -> new_scanner db (page_of t) = Ok sc ->
  (forall a r, proper_record r -> (let? x := body a (inl r) in Ok (map_inr g x)) = f a (row_of r)) ->
  (let? x := for_rows db body sc a in Ok (map_inr g x)) = fold_rows f a (visible (leaves t)).
Proof.
  intros [Hb Hps] Ht Hd Hsc Hf. destruct (new_scanner_tree db t Ht Hd) as (sc' & recs & Hsc' & Hy & <- & Hp).
  assert (sc' = sc) as -> by congruence.
  rewrite (for_rows_fold db Hb Hps body sc _ a (new_scanner_good db _ _ Hsc) Hy). clear -Hf Hp.
  revert a. induction Hp as [|r recs Hr _ IH]; intros a; cbn; [done|]. rewrite <- Hf by done.
  destruct (body a (inl r)) as [[a'|x]|e|]; cbn; auto.
Qed.

Lemma for_rows_tree {A R} db t sc (body : A -> Record_ + Error -> outcome Error (A + R)) f a :
  db_ok db -> tree_at db t -> (depth t <= 64)%nat -> new_scanner db (page_of t) = Ok sc ->
  (forall a r, proper_record r -> body a (inl r) = f a (row_of r)) ->
  for_rows db body sc a = fold_rows f a (visible (leaves t)).
Proof.
  intros Hdb Ht Hd Hsc Hf. rewrite <- (for_rows_tree_map id db t sc body f a Hdb Ht Hd Hsc).
  - by destruct (for_rows db body sc a) as [[]|e|].
  - intros a' r Hr. rewrite <- Hf by done. by destruct (body a' (inl r)) as [[]|e|].
Qed.

(** ** Tables by name *)

Definition datum_is (v : option Datum) (name : list Z) : bool :=
  match v with Some (DText l) => bool_decide (l = name) | _ => false end.

Lemma is_text_datum v name : is_text v name = datum_is (datum <$> v) name.
Proof. by destruct v as [[]|]. Qed.

(** The first row for which [f] answers. *)
Fixpoint find_first {R} (f : Row -> outcome Error (option R)) (l : list Row) : outcome Error (option R) :=
  match l with
  | [] => Ok None
  | row :: l => let? o := f row in match o with Some r => Ok (Some r) | None => find_first f l end
  end.

(** The root page a row of the schema gives for a table of the name. *)
Definition schema_root (table_name : list Z) (row : Row) : outcome Error (option Z) :=
  if 4 <=? row_count row then
    let? type_val := get_row row 0 in
    let? name := get_row row 1 in
    let? root := get_row row 3 in
    Ok (match root with
        | Some (DInteger root) => if datum_is type_val (str "table") && datum_is name table_name then Some (u32 root) else None
        | _ => None
        end)
  else Ok None.

(** A loop that returns at the first row [f] answers for. *)
Lemma fold_rows_first {R} (f : Row -> outcome Error (option R)) l :
  fold_rows (fun _ row => let? o := f row in Ok (match o with Some r => inr r | None => inl tt end)) tt l =
  (let? o := find_first f l in Ok (match o with Some r => inr r | None => inl tt end)).
Proof.
  induction l as [|row l IH]; cbn; [done|]. destruct (f row) as [[r|]|e|]; cbn; [done|apply IH|done..].
Qed.

Lemma find_table_root_schema db schema table_name :
  db_ok db -> tree_at db schema -> (depth schema <= 64)%nat -> page_of schema = 1 ->
  find_table_root db table_name =
    (let? r := find_first (schema_root table_name) (visible (leaves schema)) in
     match r with Some root => Ok root | None => Err TableNotFound end).
Proof.
  intros Hdb Ht Hd Hp. unfold find_table_root. destruct (new_scanner_tree db schema Ht Hd) as (sc & _ & Hsc & _).
  rewrite Hp in Hsc. rewrite Hsc. cbn [obind]. rewrite <- Hp in Hsc.
  rewrite (for_rows_tree db schema sc _
    (fun _ row => let? r := schema_root table_name row in Ok (match r with Some root => inr root | None => inl tt end)) tt Hdb Ht Hd Hsc).
  - rewrite fold_rows_first. by destruct (find_first _ _) as [[]|e|].
  - intros [] r Hr. unfold schema_root. cbn [row_of row_count]. case_match; [|done].
    rewrite <- !get_row_of by done. destruct (get r 0) as [t|e|]; cbn [obind]; [|done..].
    destruct (get r 1) as [n|e|]; cbn [obind]; [|done..]. destruct (get r 3) as [root|e|]; cbn [obind]; [|done..].
    rewrite !is_text_datum. by destruct root as [[]|]; cbn; repeat case_match.
Qed.

(** The table of a name, as a tree. *)
Definition table_tree (db : SqliteDb) (schema : tree) (table_name : list Z) (t : tree) : Prop :=
  tree_at db schema /\ (depth schema <= 64)%nat /\ page_of schema = 1 /\ tree_at db t /\ (depth t <= 64)%nat /\
  find_first (schema_root table_name) (visible (leaves schema)) = Ok (Some (page_of t)).

Definition name_matches (name : list Z) (row : Row) : outcome Error (option Row) :=
  let? v := get_row row 1 in Ok (if datum_is v name then Some row else None).

Lemma table_scan_tree db schema name t :
  db_ok db -> table_tree db schema name t -> table_scan db name = new_scanner db (page_of t).
Proof.
  intros Hdb (Hs & Hds & Hp & _ & _ & Hf). unfold table_scan.
  assert (find_table_root db name = Ok (page_of t)) as ->; [|done].
  rewrite (find_table_root_schema db schema name Hdb Hs Hds Hp), Hf. done.
Qed.
