(* ===== verification/SqliteThm.v ===== *)
(** What the SQLite reader promises, and the example databases the theorems are
    applied to. *)

From Stdlib Require Import String.
From S2P Require Import Prelude Bytes Slice SqliteDb SqlWrite SqliteRow SqliteScanThm SqliteTree.

(** A small database: five pages, of 512 or of 4096 bytes, with the schema, a
    table of files of two levels and a table of edges.  The theorems about
    databases are applied to it. *)

Open Scope kernel_scope.

(** ** Page images *)

Definition row_cell_image (id : Z) (cols : list column) : list Z :=
  varint_bytes (Z.of_nat (length (payload_of cols))) ++ varint_bytes id ++ payload_of cols.

Definition zeros (n : Z) : list Z := replicate (Z.to_nat n) 0.

Section image.
Context (PAGE : Z).

(** The offset of each cell, the first one at the end of the page. *)
Fixpoint cell_offsets (cells : list (list Z)) (end_ : Z) : list Z :=
  match cells with
  | [] => []
  | c :: cells => let o := end_ - Z.of_nat (length c) in o :: cell_offsets cells o
  end.

(** The first bytes of a page and its last bytes. *)
Definition image : Type := list Z * list Z.

(** A page whose B-tree header follows the bytes [pre]. *)
Definition page_image (pre header : list Z) (cells : list (list Z)) : image :=
  (pre ++ header ++ concat (map (be_bytes 2) (cell_offsets cells PAGE)), concat (rev cells)).

Definition mem_of_images (l : list image) : mem := fun i =>
  match l !! Z.to_nat (i / PAGE) with
  | Some (head, body) =>
      let o := i mod PAGE in
      let start := PAGE - Z.of_nat (length body) in
      if i <? 0 then 0 else if o <? start then nth (Z.to_nat o) head 0 else nth (Z.to_nat (o - start)) body 0
  | None => 0
  end.

Definition page_header (t : Z) (cells : list (list Z)) : list Z :=
  [t; 0; 0] ++ be_bytes 2 (Z.of_nat (length cells)) ++ be_bytes 2 (List.last (cell_offsets cells PAGE) PAGE) ++ [0].

Definition leaf_image (pre : list Z) (cells : list (list Z)) : image := page_image pre (page_header 0x0d cells) cells.

Definition node_image (children : list (Z * Z)) (right : Z) : image :=
  let cells := map (fun '(child, key) => be_bytes 4 child ++ varint_bytes key) children in
  page_image [] (page_header 0x05 cells ++ be_bytes 4 right) cells.

Definition db_header_image (pages : Z) : list Z :=
  SQLITE_MAGIC ++ be_bytes 2 PAGE ++ [1; 1; 0; 64; 32; 32] ++ be_bytes 4 1 ++ be_bytes 4 pages ++ zeros 68.

End image.

(** ** The database *)

Definition text (s : string) : column := (13 + 2 * Z.of_nat (length (str s)), str s).
Definition blob (l : list Z) : column := (12 + 2 * Z.of_nat (length l), l).
Definition int1 (v : Z) : column := (1, [v]).
Definition null : column := (0, []).

Definition schema_row (name : string) (root : Z) : list column := [text "table"; text name; text name; int1 root; text "sql"].
Definition file_row (name : string) (data : list Z) : list column :=
  [null; text name; (9, []); int1 (Z.of_nat (length data)); blob data; null].
Definition edge_row (id subj pred obj : string) (valid_to : Z) : list column :=
  [text id; text subj; text pred; text obj; (6, be_bytes 8 5); (6, be_bytes 8 valid_to); (7, be_bytes 8 0); null].

Definition table_rows (l : list (list column)) : list (Z * list column) := imap (fun i c => (Z.of_nat i + 1, c)) l.

Definition schema_rows := table_rows [schema_row "files" 2; schema_row "edges" 5].
Definition files_left := [(1, file_row "a.txt" [1; 2; 3]); (2, file_row "b.txt" [4; 5])].
Definition files_right := [(5, file_row "c.txt" [6; 7; 8; 9])].
Definition edge_rows := table_rows [edge_row "e1" "ada" "knows" "bob" 0; edge_row "e2" "bob" "knows" "cyd" 0; edge_row "e3" "cyd" "knows" "dan" 7].

Definition cells_of (l : list (Z * list column)) : list (list Z) := map (fun '(id, cols) => row_cell_image id cols) l.
Definition rows_of (l : list (Z * list column)) : list Row := map (fun '(id, cols) => row_with id cols) l.

Definition database (page : Z) : list image :=
  [ leaf_image page (db_header_image page 5) (cells_of schema_rows); node_image page [(3, 2)] 4;
    leaf_image page [] (cells_of files_left); leaf_image page [] (cells_of files_right); leaf_image page [] (cells_of edge_rows) ].

Definition example_images : list image := Eval vm_compute in database 512.
Definition example_mem : mem := mem_of_images 512 example_images.
Definition example_slice : slice := mkSlice example_mem 0 (5 * 512).
Definition example_header : DbHeader :=
  Eval vm_compute in match parse_db_header example_slice with Ok h => h | _ => mkDbHeader 0 0 0 0 0 0 0 0 0 0 0 0 0 0 0 0 0 0 0 0 0 end.
Definition example_db : SqliteDb := mkDb example_slice example_header.

Definition schema_tree : tree := Leaf 1 (rows_of schema_rows).
Definition files_tree : tree := Node 2 [Leaf 3 (rows_of files_left)] (Leaf 4 (rows_of files_right)).
Definition edges_tree : tree := Leaf 5 (rows_of edge_rows).

Definition bytes_ok (l : list Z) : bool := forallb (fun b => (0 <=? b) && (b <? 256)) l.

Lemma nth_byte l i : bytes_ok l = true -> byte (nth i l 0).
Proof.
  intros H. unfold bytes_ok in H. rewrite forallb_forall in H.
  destruct (nth_in_or_default i l 0) as [Hi| ->]; [|done]. specialize (H _ Hi). bool_prop. unfold byte. lia.
Qed.

Lemma mem_of_images_byte page (l : list image) : forallb (fun '(h, b) => bytes_ok h && bytes_ok b) l = true -> bytes_mem (mem_of_images page l).
Proof.
  intros H i. unfold mem_of_images. destruct (l !! Z.to_nat (i / page)) as [[h b]|] eqn:Hl; [|unfold byte; lia]. rewrite forallb_forall in H.
  assert (In (h, b) l) as Hin by (apply list_elem_of_In, list_elem_of_lookup; by eexists). specialize (H _ Hin). cbn in H. apply andb_true_iff in H as [Hh Hb].
  repeat case_match; [unfold byte; lia| |]; by apply nth_byte.
Qed.

Lemma example_bytes_mem : bytes_mem example_mem.
Proof. apply mem_of_images_byte. vm_compute. reflexivity. Qed.

Lemma example_open : open example_slice = Ok example_db.
Proof. vm_compute. reflexivity. Qed.

Lemma example_ok : db_ok example_db.
Proof. split; [exact example_bytes_mem|]. vm_compute. split; discriminate. Qed.

Lemma example_schema : tree_at example_db schema_tree.
Proof. apply check_tree_sound. vm_compute. reflexivity. Qed.

Lemma example_files : tree_at example_db files_tree.
Proof. apply check_tree_sound. vm_compute. reflexivity. Qed.

Lemma example_edges : tree_at example_db edges_tree.
Proof. apply check_tree_sound. vm_compute. reflexivity. Qed.

Lemma example_files_table : table_tree example_db schema_tree (str "files") files_tree.
Proof.
  refine (conj example_schema (conj _ (conj eq_refl (conj example_files (conj _ _))))); [cbn; lia|cbn; lia|].
  vm_compute. reflexivity.
Qed.

Lemma example_edges_table : table_tree example_db schema_tree (str "edges") edges_tree.
Proof.
  refine (conj example_schema (conj _ (conj eq_refl (conj example_edges (conj _ _))))); [cbn; lia|cbn; lia|].
  vm_compute. reflexivity.
Qed.

(** The same tables on 4096-byte pages, in the buffer of the service. *)
Definition example4k_images : list image := Eval vm_compute in database 4096.
Definition example_buffer : SafeSqliteBuffer := mkBuffer (mem_of_images 4096 example4k_images) (5 * 4096) true (fun _ => 0).

Lemma example_buffer_bytes : bytes_mem (data example_buffer).
Proof. apply mem_of_images_byte. vm_compute. reflexivity. Qed.

(** What the SQLite reader promises: scans end, a scan of a well-formed table is
    its rows, tables and rows are found by name. *)

(** C36: Every [for] loop over a table scanner ends, whatever bytes the database
    holds, cyclic child pointers included: within [SCAN_FUEL] rounds the rows
    are used up, the body breaks, or the code panics. *)
Theorem scan_terminates {A R} (data : slice) (db : SqliteDb) (root : Z) (sc : TableScanner)
    (body : A -> Record_ + Error -> outcome Error (A + R)) (a : A) :
  bytes_mem (sl_mem data) -> open data = Ok db -> new_scanner db root = Ok sc ->
  forall st, iter_pos SCAN_FUEL (row_step db body) (sc, a) <> Ok (inl st).
Proof.
  intros Hb Ho Hn st. destruct (open_page_size _ _ Hb Ho) as [Hm Hps]. rewrite <- Hm in Hb.
  apply rows_end; [done..|]. by eapply new_scanner_good.
Qed.

Definition witness_body (n : Z) (item : Record_ + Error) : outcome Error (Z + unit) := Ok (inl (n + 1)).

Lemma scan_terminates_witness :
  exists sc, new_scanner example_db 2 = Ok sc /\
  forall st, iter_pos SCAN_FUEL (row_step example_db witness_body) (sc, 0) <> Ok (inl st).
Proof.
  eexists. split; [vm_compute; reflexivity|].
  refine (scan_terminates example_slice example_db 2 _ witness_body 0 example_bytes_mem example_open _). vm_compute. reflexivity.
Defined.

(** C4: On a well-formed B-tree of at most 64 levels a new scanner yields the
    records of the leaves from left to right, up to the first leaf that has no
    rows. *)
Theorem scan_refines_tree (db : SqliteDb) (t : tree) :
  tree_at db t -> (depth t <= 64)%nat ->
  exists sc recs, new_scanner db (page_of t) = Ok sc /\ yields db sc (inl <$> recs) /\ row_of <$> recs = visible (leaves t).
Proof. intros Ht Hd. destruct (new_scanner_tree db t Ht Hd) as (sc & recs & H1 & H2 & H3 & _). by exists sc, recs. Qed.

Lemma scan_refines_tree_witness :
  exists sc recs, new_scanner example_db 2 = Ok sc /\ yields example_db sc (inl <$> recs) /\
    row_of <$> recs = rows_of (files_left ++ files_right).
Proof. exact (scan_refines_tree example_db files_tree example_files ltac:(cbn; lia)). Defined.

(** [find_table_root] is the root page of the first visible row of the
    schema tree that describes a table of that name, and [TableNotFound] when
    there is none. *)
Theorem find_table_root_spec (db : SqliteDb) (schema : tree) (table_name : list Z) :
  db_ok db -> tree_at db schema -> (depth schema <= 64)%nat -> page_of schema = 1 ->
  find_table_root db table_name =
    (let? r := find_first (schema_root table_name) (visible (leaves schema)) in
     match r with Some root => Ok root | None => Err TableNotFound end).
Proof. apply find_table_root_schema. Qed.

Lemma find_table_root_spec_witness :
  find_table_root example_db (str "edges") = Ok 5 /\ find_table_root example_db (str "nodes") = Err TableNotFound.
Proof.
  split; (rewrite (find_table_root_spec example_db schema_tree _ example_ok example_schema ltac:(cbn; lia) eq_refl); vm_compute; reflexivity).
Defined.

(** [query_by_name] is the first visible row of the table whose second
    column is the text [name]. *)
Theorem query_by_name_spec (db : SqliteDb) (schema t : tree) (table_name name : list Z) :
  db_ok db -> table_tree db schema table_name t ->
  (let? o := query_by_name db table_name name in Ok (row_of <$> o)) = find_first (name_matches name) (visible (leaves t)).
Proof.
  intros Hdb Htt. unfold query_by_name. rewrite (table_scan_tree db schema table_name t Hdb Htt).
  destruct Htt as (_ & _ & _ & Ht & Hd & _). destruct (new_scanner_tree db t Ht Hd) as (sc & _ & Hsc & _).
  rewrite Hsc. cbn [obind].
  pose proof (for_rows_tree_map row_of db t sc (fun _ item => match item with
    | inr e => Err e
    | inl record => let? v := get record 1 in Ok (if is_text v name then inr record else inl tt) end)
    (fun _ row => let? o := name_matches name row in Ok (match o with Some r => inr r | None => inl tt end)) tt Hdb Ht Hd Hsc) as Hf.
  rewrite fold_rows_first in Hf. apply (f_equal (fun r => let? x := r in Ok (match x with inr r => Some r | inl _ => None end))) in Hf.
  - revert Hf. destruct (for_rows _ _ _ _) as [[[]|r]|e|], (find_first _ _) as [[]|e'|]; cbn; congruence.
  - intros [] r Hr. unfold name_matches. rewrite <- get_row_of by done. destruct (get r 1) as [v|e|]; cbn [obind]; [|done..].
    rewrite is_text_datum. by case_match.
Qed.

Lemma query_by_name_spec_witness :
  (let? o := query_by_name example_db (str "files") (str "c.txt") in Ok (row_of <$> o)) = Ok (Some (row_with 5 (file_row "c.txt" [6; 7; 8; 9]))).
Proof. rewrite (query_by_name_spec example_db schema_tree files_tree _ _ example_ok example_files_table). vm_compute. reflexivity. Defined.
