(* ===== verification/SqlTrack.v ===== *)
(** Dirty pages: every operation of the synapse service leaves the pages it has
    not marked as they were, so a flush of the marked pages is enough. *)

From Stdlib Require Import String.
From S2P Require Import Prelude Bytes Slice SqliteDb SqliteScanThm SqlWrite SqlTables.

Open Scope kernel_scope.

(** ** The bitmap *)

Lemma land_lor_zero x y m : Z.land (Z.lor x y) m = 0 -> Z.land x m = 0 /\ Z.land y m = 0.
Proof.
  intros H. split; apply Z.bits_inj'; intros n Hn; rewrite Z.land_spec, Z.bits_0;
    pose proof (f_equal (fun z => Z.testbit z n) H) as Hb; cbn beta in Hb; rewrite Z.land_spec, Z.lor_spec, Z.bits_0 in Hb;
    destruct (Z.testbit x n), (Z.testbit y n), (Z.testbit m n); done.
Qed.

Lemma dirty_bit_nonzero p : u8 (Z.shiftl 1 (p mod 8)) <> 0.
Proof.
  pose proof (Z.mod_pos_bound p 8 ltac:(lia)) as Hp. rewrite Z.shiftl_1_l, wrap_small.
  - pose proof (Z.pow_pos_nonneg 2 (p mod 8)). lia.
  - split; [apply Z.pow_nonneg; lia|]. apply Z.pow_lt_mono_r; lia.
Qed.

(** The bit of page [p] in a bitmap. *)
Definition dirty_in (m : mem) (p : Z) : Prop := Z.land (m (p / 8)) (u8 (Z.shiftl 1 (p mod 8))) <> 0.

Lemma set_dirty_bit_mono m p q : dirty_in m q -> dirty_in (set_dirty_bit m p) q.
Proof. unfold dirty_in, set_dirty_bit. intros H. case_match; [|done]. intros Hz. by apply land_lor_zero in Hz as [? _]. Qed.

Lemma set_dirty_bit_same m p : dirty_in (set_dirty_bit m p) p.
Proof.
  unfold dirty_in, set_dirty_bit. rewrite Z.eqb_refl. intros Hz. apply land_lor_zero in Hz as [_ Hz].
  rewrite Z.land_diag in Hz. by apply dirty_bit_nonzero in Hz.
Qed.

Lemma foldl_dirty_mono l m q : dirty_in m q -> dirty_in (foldl set_dirty_bit m l) q.
Proof. revert m. induction l as [|p l IH]; intros m H; cbn; [done|]. by apply IH, set_dirty_bit_mono. Qed.

Lemma foldl_dirty_in l m q : q ∈ l -> dirty_in (foldl set_dirty_bit m l) q.
Proof.
  revert m. induction l as [|p l IH]; intros m; [by intros ?%elem_of_nil|]. intros [->|H]%elem_of_cons; cbn; [|auto].
  apply foldl_dirty_mono, set_dirty_bit_same.
Qed.

Lemma is_page_dirty_in b p : is_page_dirty b p = true <-> p < MAX_PAGES /\ dirty_in (dirty b) p.
Proof.
  unfold is_page_dirty, dirty_in. case_match; bool_prop; [split; [done|lia]|]. rewrite negb_true_iff, Z.eqb_neq. intuition lia.
Qed.

(** ** Tracked changes *)

(** From [b] to [b'] every byte of the database is unchanged or on a dirty
    page; dirty pages stay dirty. *)
Definition tracked (b b' : SafeSqliteBuffer) : Prop :=
  (forall p, is_page_dirty b p = true -> is_page_dirty b' p = true) /\
  forall i, 0 <= i < size b' -> is_page_dirty b' (i / 4096) = true \/ i < size b /\ data b' i = data b i.

#[global] Instance tracked_preorder : PreOrder tracked.
Proof.
  split.
  - intros b. split; [done|]. intros i Hi. right. split; [lia|done].
  - intros b1 b2 b3 [H1 H2] [H3 H4]. split; [auto|]. intros i Hi. destruct (H4 i Hi) as [?|[Hi2 E]]; [by left|].
    destruct (H2 i) as [?|[? E']]; [lia|left; auto|]. right. split; [done|congruence].
Qed.

(** The size does not change either. *)
Definition tracked_fixed (b b' : SafeSqliteBuffer) : Prop := tracked b b' /\ size b' = size b.

#[global] Instance tracked_fixed_preorder : PreOrder tracked_fixed.
Proof. split; [by split|]. intros b1 b2 b3 [H1 H2] [H3 H4]. split; [by etransitivity|congruence]. Qed.

Lemma mark_page_tracked p b : tracked_fixed b (mark_page_dirty p b).
Proof.
  unfold mark_page_dirty. destruct (p <? MAX_PAGES); [|reflexivity]. split; [|done]. split.
  - intros q. rewrite !is_page_dirty_in. intros [? ?]. split; [done|]. by apply set_dirty_bit_mono.
  - intros i Hi. right. cbn in *. split; [lia|done].
Qed.

Lemma mark_page_same p b : p < MAX_PAGES -> is_page_dirty (mark_page_dirty p b) p = true.
Proof.
  intros Hp. unfold mark_page_dirty. rewrite (proj2 (Z.ltb_lt _ _)) by done. apply is_page_dirty_in. split; [done|].
  apply set_dirty_bit_same.
Qed.

Lemma mark_page_data p b : data (mark_page_dirty p b) = data b /\ size (mark_page_dirty p b) = size b.
Proof. unfold mark_page_dirty. by case_match. Qed.

Lemma page_lt_max i n : i < n -> n <= MAX_DB_SIZE -> i / 4096 < MAX_PAGES.
Proof. intros H1 H2. apply Z.div_lt_upper_bound; [lia|]. change MAX_PAGES with 1024. unfold MAX_DB_SIZE in *. lia. Qed.

(** A write of the bytes [l] at [off] and a marking that covers it. *)
Lemma write_tracked (off : Z) (l : list Z) (b b' : SafeSqliteBuffer) :
  data b' = blit (data b) off l -> size b' = size b ->
  (forall p, is_page_dirty b p = true -> is_page_dirty b' p = true) ->
  (forall i, off <= i < off + Z.of_nat (length l) -> is_page_dirty b' (i / 4096) = true) ->
  tracked_fixed b b'.
Proof.
  intros Hd Hs Hm Hc. split; [|done]. split; [done|]. intros i Hi.
  destruct (decide (off <= i < off + Z.of_nat (length l))) as [Hin|Hout]; [left; by apply Hc|].
  right. rewrite Hd. split; [lia|]. apply blit_outside. lia.
Qed.

Definition keeps {E A} (m : M SafeSqliteBuffer E A) : Prop := forall b, tracked_fixed b (fst (m b)).

Lemma write_marked_page off l p b :
  (forall i, off <= i < off + Z.of_nat (length l) -> i / 4096 = p) -> p < MAX_PAGES ->
  tracked_fixed b (mark_page_dirty p (b <| data := blit (data b) off l |>)).
Proof.
  intros Hi Hp. set (b1 := b <| data := _ |>). destruct (mark_page_data p b1) as [Hd Hs]. apply (write_tracked off l).
  - by rewrite Hd.
  - by rewrite Hs.
  - intros q Hq. by apply mark_page_tracked.
  - intros i H. rewrite (Hi i H). by apply mark_page_same.
Qed.

Lemma write_byte_tracked off v : keeps (write_byte off v).
Proof.
  intros b. unfold write_byte, fail_if. destruct (MAX_DB_SIZE <=? off) eqn:Ho; [reflexivity|]. bool_prop. cbn.
  apply write_marked_page; [|apply (page_lt_max off (off + 1)); lia]. intros i Hi. cbn in Hi. f_equal. lia.
Qed.

Lemma write_slice_tracked off l : keeps (write_slice off l).
Proof.
  intros b. unfold write_slice, checked_add. set (len := Z.of_nat (length l)).
  destruct (off + len <? 2 ^ 64); cbn; [|reflexivity]. destruct (MAX_DB_SIZE <? off + len) eqn:Hm; cbn; [reflexivity|]. bool_prop.
  apply (write_tracked off l); [done..| |].
  - intros p. rewrite !is_page_dirty_in. intros [? ?]. split; [done|]. by apply foldl_dirty_mono.
  - intros i Hi. apply is_page_dirty_in. fold len in Hi. pose proof (page_lt_max i (off + len) ltac:(lia) Hm) as Hp. split; [done|].
    apply foldl_dirty_in, elem_of_seqZ. assert (off / 4096 <= i / 4096) by (apply Z.div_le_mono; lia).
    assert (i / 4096 + 1 <= (off + len + 4095) / 4096).
    { apply Z.div_le_lower_bound; [lia|]. pose proof (Z.div_mod i 4096). pose proof (Z.mod_pos_bound i 4096). lia. }
    lia.
Qed.

Lemma increment_tracked b : tracked_fixed b (increment_change_counter b).
Proof.
  apply write_marked_page; [|done]. rewrite be_bytes_length. intros i Hi. apply Z.div_small. lia.
Qed.

Lemma set_page_count_tracked n b : tracked_fixed b (set_page_count n b).
Proof.
  apply write_marked_page; [|done]. rewrite be_bytes_length. intros i Hi. apply Z.div_small. lia.
Qed.

(** ** Computations *)

Create HintDb tracked.

Section keeps.
Context {E : Type}.

Lemma tracks_bind {A B} (m : M SafeSqliteBuffer E A) (k : A -> M SafeSqliteBuffer E B) :
  keeps m -> (forall a, keeps (k a)) -> keeps (M_bind k m).
Proof.
  intros Hm Hk b. unfold M_bind. specialize (Hm b). destruct (m b) as [b' [a|e|]]; cbn in *; [|done..].
  etransitivity; [done|apply Hk].
Qed.

Lemma tracks_ret {A} (a : A) : keeps (E := E) (M_ret a).
Proof. intros b. reflexivity. Qed.

Lemma tracks_gets {A} (f : SafeSqliteBuffer -> A) : keeps (E := E) (gets f).
Proof. intros b. reflexivity. Qed.

Lemma tracks_fail_if c e : keeps (E := E) (fail_if c e).
Proof. intros b. destruct c; reflexivity. Qed.

Lemma tracks_ok_or {A} (o : option A) e : keeps (E := E) (ok_or o e).
Proof. intros b. destruct o; reflexivity. Qed.

Lemma tracks_or_return {E' A} (f : SafeSqliteBuffer -> outcome E' A) e : keeps (E := E) (or_return f e).
Proof. intros b. unfold or_return. destruct (f b); reflexivity. Qed.

Lemma tracks_ignore m : keeps m -> keeps (E := E) (ignore_err m).
Proof. intros H b. unfold ignore_err. specialize (H b). by destruct (m b) as [b' [[]|e|]]. Qed.

Lemma tracks_or_fail m e : keeps m -> keeps (E := E) (or_fail m e).
Proof. intros H b. unfold or_fail. specialize (H b). by destruct (m b) as [b' [[]|e'|]]. Qed.

Lemma tracks_returned {R} (m : M SafeSqliteBuffer R R) : keeps m -> keeps (E := E) (returned m).
Proof. intros H b. unfold returned. specialize (H b). by destruct (m b) as [b' [r|r|]]. Qed.

Lemma tracks_modify f : (forall b, tracked_fixed b (f b)) -> keeps (E := E) (modify f).
Proof. intros H b. apply H. Qed.

Lemma tracks_if {A} (c : bool) (m m' : M SafeSqliteBuffer E A) : keeps m -> keeps m' -> keeps (if c then m else m').
Proof. by destruct c. Qed.
End keeps.

#[export] Hint Resolve tracks_ret tracks_gets tracks_fail_if tracks_ok_or tracks_or_return tracks_ignore tracks_or_fail
  tracks_modify write_byte_tracked write_slice_tracked increment_tracked set_page_count_tracked mark_page_tracked : tracked.

(** Walk through a computation. *)
Ltac track :=
  repeat first
    [ progress intros
    | apply tracks_bind
    | apply tracks_returned
    | solve [auto with tracked nocore]
    | match goal with |- keeps (match ?x with _ => _ end) => destruct x end ].

Lemma write_be_u16_tracked off v : keeps (write_be_u16 off v).
Proof. apply write_slice_tracked. Qed.

Lemma write_be_u32_tracked off v : keeps (write_be_u32 off v).
Proof. apply write_slice_tracked. Qed.

#[export] Hint Resolve write_be_u16_tracked write_be_u32_tracked : tracked.

Lemma zero_bytes_tracked {R} n off : keeps (zero_bytes (R := R) n off).
Proof. revert off. induction n as [|n IH]; intros off; cbn [zero_bytes]; track. Qed.

Lemma shift_pointers_tracked n i p : keeps (shift_pointers n i p).
Proof. revert i. induction n as [|n IH]; intros i; cbn [shift_pointers]; track. Qed.

#[export] Hint Resolve zero_bytes_tracked shift_pointers_tracked : tracked.

Lemma remove_cell_tracked {E} leaf ps i : keeps (remove_cell_pointer (E := E) leaf ps i).
Proof. unfold remove_cell_pointer. track. Qed.

#[export] Hint Resolve remove_cell_tracked : tracked.

Lemma delete_in_tracked {E} leaves ps rowid : keeps (delete_in (E := E) leaves ps rowid).
Proof. induction leaves as [|leaf leaves IH]; cbn [delete_in]; track. Qed.

#[export] Hint Resolve delete_in_tracked : tracked.

Lemma delete_file_tracked {E} rowid : keeps (sqlite_delete_file_by_rowid (E := E) rowid).
Proof. unfold sqlite_delete_file_by_rowid. track. Qed.

Lemma overwrite_tracked {E} name l : keeps (overwrite_blob_inplace (E := E) name l).
Proof. unfold overwrite_blob_inplace. track. Qed.

Lemma expire_edge_tracked {E} s p t : keeps (sqlite_expire_edge (E := E) s p t).
Proof. unfold sqlite_expire_edge. track. Qed.

Lemma find_target_tracked {R} table (r : R) : keeps (find_target table r).
Proof. unfold find_target. track. Qed.

#[export] Hint Resolve delete_file_tracked overwrite_tracked expire_edge_tracked find_target_tracked : tracked.

Lemma parent_loop_tracked n p o l ps b : tracked_fixed b (parent_loop n p o l ps b).
Proof.
  revert p b. induction n as [|n IH]; intros p b; cbn [parent_loop]; [reflexivity|]. repeat (case_match; try reflexivity).
  - etransitivity; [apply write_slice_tracked|apply mark_page_tracked].
  - etransitivity; [apply mark_page_tracked|apply IH].
Qed.

(** ** Growth *)

(** The page count covers no more than the loaded bytes, on 4096-byte pages. *)
Definition sized (b : SafeSqliteBuffer) : Prop := page_count b * 4096 <= size b.

(** From a state reached from [b0] at the same size, the computation stays
    tracked from [b0]. *)
Definition reach {E A} (b0 : SafeSqliteBuffer) (m : M SafeSqliteBuffer E A) : Prop :=
  forall b, tracked_fixed b0 b -> tracked b0 (fst (m b)).

Lemma reach_bind {E A B} b0 (m : M SafeSqliteBuffer E A) (k : A -> M SafeSqliteBuffer E B) :
  keeps m -> (forall a, reach b0 (k a)) -> reach b0 (M_bind k m).
Proof.
  intros Hm Hk b Hb. unfold M_bind. specialize (Hm b). destruct (m b) as [b' [a|e|]]; cbn in *;
    [apply Hk; by etransitivity|by apply (transitivity Hb)..].
Qed.

Lemma reach_keeps {E A} b0 (m : M SafeSqliteBuffer E A) : keeps m -> reach b0 m.
Proof. intros Hm b Hb. apply (transitivity Hb), Hm. Qed.

(** The database grows over marked pages. *)
Lemma grow_dirty b0 b n :
  tracked_fixed b0 b -> n <= MAX_DB_SIZE -> (forall i, size b0 <= i < n -> is_page_dirty b (i / 4096) = true) ->
  tracked b0 (set_size n b).
Proof.
  intros [[H1 H2] Hs] Hn Hd. split; [done|]. intros i Hi. cbn in Hi. rewrite Z.min_l in Hi by done.
  destruct (decide (size b0 <= i)) as [Hge|Hlt]; [left; apply Hd; lia|]. apply H2. lia.
Qed.

(** The page of an offset at or after page [p]. *)
Lemma page_at_offset p i n : p * 4096 <= i -> i < (p + n) * 4096 -> p <= i / 4096 < p + n.
Proof. intros H1 H2. split; [apply Z.div_le_lower_bound; lia|apply Z.div_lt_upper_bound; lia]. Qed.

Lemma grow_tracked b0 b p :
  tracked_fixed b0 b -> p * 4096 <= size b0 -> (p + 1) * 4096 <= MAX_DB_SIZE ->
  tracked b0 (mark_page_dirty p (set_size ((p + 1) * 4096) b)).
Proof.
  intros Hb Hp Hmax. assert (p < MAX_PAGES) as Hpm by (change MAX_PAGES with 1024; unfold MAX_DB_SIZE in *; lia).
  assert (mark_page_dirty p (set_size ((p + 1) * 4096) b) = set_size ((p + 1) * 4096) (mark_page_dirty p b)) as ->.
  { unfold mark_page_dirty. by case_match. }
  apply grow_dirty; [etransitivity; [exact Hb|apply mark_page_tracked]|done|].
  intros i Hi. pose proof (page_at_offset p i 1 ltac:(lia) ltac:(lia)). replace (i / 4096) with p by lia. by apply mark_page_same.
Qed.

Lemma fst_returned {E R} (m : M SafeSqliteBuffer R R) b : fst (returned (E := E) m b) = fst (m b).
Proof. unfold returned. by destruct (m b) as [b' [r|r|]]. Qed.

Lemma update_parent_tracked root leaf new ps b : tracked_fixed b (update_parent_right_pointer root leaf new ps b).
Proof. apply parent_loop_tracked. Qed.

#[export] Hint Resolve update_parent_tracked : tracked.

Lemma new_leaf_tracked {E} root leaf cell b :
  sized b -> tracked b (fst (allocate_new_leaf_page (E := E) root leaf cell 4096 b)).
Proof.
  intros Hsized. unfold allocate_new_leaf_page. rewrite fst_returned, bind_gets. cbv zeta. rewrite bind_fail_if.
  case_match eqn:Hmax; [reflexivity|]. bool_prop. set (count := page_count b) in *.
  match goal with |- tracked b (fst (?m b)) => enough (reach b m) as Hr by (apply Hr; reflexivity) end.
  do 11 (apply reach_bind; [track|intros _]). intros b1 Hb1. cbn. replace (count + 1 - 1) with count by lia. apply grow_tracked; [done|exact Hsized|lia].
Qed.

(** ** Overflow chains *)

Lemma ok_mark_mono {E} p (m : M SafeSqliteBuffer E unit) b : keeps m -> is_page_dirty b p = true -> is_page_dirty (fst (m b)) p = true.
Proof. intros H. apply H. Qed.

Lemma write_chain_tracked n p us l : keeps (write_chain n p 4096 us l).
Proof. revert p l. induction n as [|n IH]; intros p l; cbn [write_chain]; track. Qed.

#[export] Hint Resolve write_chain_tracked : tracked.

Lemma write_chain_marks n : forall p us l b b',
  write_chain n p 4096 us l b = (b', Ok tt) -> p - 1 + Z.of_nat n <= MAX_PAGES ->
  forall q, p - 1 <= q < p - 1 + Z.of_nat n -> is_page_dirty b' q = true.
Proof.
  induction n as [|n IH]; intros p us l b b' H Hmax q Hq; [lia|]. cbn [write_chain] in H.
  apply bind_Ok in H as (b1 & _ & _ & H). apply bind_Ok in H as (b2 & _ & _ & H). apply bind_Ok in H as (b3 & _ & _ & H).
  apply bind_Ok in H as (b4 & [] & Hb4 & H). injection Hb4 as <-.
  destruct (decide (q = p - 1)) as [->|Hne]; [|apply (IH _ _ _ _ _ H); lia].
  pose proof (write_chain_tracked n (p + 1) us (drop (Z.to_nat (saturating_sub us 4)) l) (mark_page_dirty (p - 1) b3)) as [[Hm _] _].
  rewrite H in Hm. apply Hm, mark_page_same. lia.
Qed.

Lemma data_update b m : data (b <| data := m |>) = m.
Proof. done. Qed.

Lemma page_count_set n b : page_count (set_page_count n b) = u32 n.
Proof.
  unfold page_count, set_page_count. rewrite (proj1 (mark_page_data _ _)), data_update.
  rewrite range_blit_same by (by rewrite be_bytes_length). apply (from_to_be_bytes 4).
Qed.

Lemma page_count_increment b : page_count (increment_change_counter b) = page_count b.
Proof.
  unfold page_count, increment_change_counter. rewrite (proj1 (mark_page_data _ _)), data_update.
  rewrite range_blit_other; [done|]. rewrite be_bytes_length. lia.
Qed.

Lemma page_count_nonneg b : bytes_mem (data b) -> 0 <= page_count b.
Proof.
  intros H. unfold page_count. pose proof (from_be_bytes_range (range (data b) 28 4)) as Hr. rewrite range_length in Hr.
  apply Hr. by apply range_byte.
Qed.

(** A computation whose early returns all satisfy [P]. *)
Definition returns_early {E A} (P : E -> Prop) (m : M SafeSqliteBuffer E A) : Prop :=
  forall b e, snd (m b) = Err e -> P e.

Lemma early_bind {E A B} (P : E -> Prop) (m : M SafeSqliteBuffer E A) (k : A -> M SafeSqliteBuffer E B) :
  returns_early P m -> (forall a, returns_early P (k a)) -> returns_early P (M_bind k m).
Proof.
  intros Hm Hk b e. unfold M_bind. specialize (Hm b). destruct (m b) as [b' [a|e'|]]; cbn in *; [apply Hk| |done]. intros [= ->]. by apply Hm.
Qed.

Lemma early_ret {E A} (P : E -> Prop) (a : A) : returns_early P (M_ret a).
Proof. done. Qed.

Lemma early_modify {E} (P : E -> Prop) f : returns_early P (modify f).
Proof. done. Qed.

Lemma early_ignore {E} (P : E -> Prop) m : returns_early P (ignore_err m).
Proof. intros b e. unfold ignore_err. by destruct (m b) as [b' [[]|e'|]]. Qed.

Lemma early_or_fail {E} (P : E -> Prop) m e : P e -> returns_early P (or_fail m e).
Proof. intros He b e'. unfold or_fail. destruct (m b) as [b' [[]|e''|]]; cbn; congruence. Qed.

Lemma zero_bytes_early {E} (P : E -> Prop) n off : returns_early P (zero_bytes n off).
Proof. revert off. induction n as [|n IH]; intros off; cbn [zero_bytes]; [apply early_ret|]. apply early_bind; [apply early_ignore|auto]. Qed.

Lemma write_chain_early n p ps us l : returns_early (fun e => e = None) (write_chain n p ps us l).
Proof.
  revert p l. induction n as [|n IH]; intros p l; cbn [write_chain]; [apply early_ret|].
  do 2 (apply early_bind; [by apply early_or_fail|intros _]). apply early_bind; [case_match; [apply zero_bytes_early|apply early_ret]|intros _].
  apply early_bind; [apply early_modify|auto].
Qed.

(** After a chain has been allocated the page count still covers loaded bytes. *)
Lemma chain_tracked {E} l us b :
  0 <= page_count b -> sized b ->
  let r := allocate_overflow_chain (E := E) l 4096 us b in
  tracked b (fst r) /\ forall p, snd r = Ok (Some p) -> sized (fst r).
Proof.
  intros Hc Hsized. cbv zeta. unfold allocate_overflow_chain.
  match goal with |- context [returned ?m] => set (body := m) end.
  assert (forall b' r, body b = (b', r) -> tracked b b' /\ forall p, r = Ok (Some p) \/ r = Err (Some p) -> sized b') as Hbody.
  { subst body. intros b' r. rewrite bind_fail_if. case_match; [intros [= <- <-]; split; [done|by intros p [Hx|Hx]]|]. cbv zeta. rewrite bind_fail_if.
    case_match; [intros [= <- <-]; split; [done|by intros p [Hx|Hx]]|]. rewrite bind_gets. set (count := page_count b) in *.
    set (n := div_ceil _ _). rewrite bind_fail_if. case_match eqn:Hmax; [intros [= <- <-]; split; [done|by intros p [Hx|Hx]]|]. bool_prop.
    assert (forall e, snd (write_chain (Z.to_nat n) (count + 1) 4096 us l b) = Err e -> e = None) as Hearly by apply write_chain_early. unfold M_bind at 1. destruct (write_chain _ _ _ _ _ b) as [b1 [[]|e|]] eqn:Hw;
      pose proof (write_chain_tracked (Z.to_nat n) (count + 1) us l b) as Hb1; rewrite Hw in Hb1; cbn [fst] in Hb1;
      [| |intros [= <- <-]; split; [apply Hb1|by intros p [Hx|Hx]]].
    2: { intros [= <- <-]. split; [apply Hb1|]. rewrite (Hearly e eq_refl). by intros p [Hx|Hx]. }
    intros [= <- <-]. set (end_ := count + 1 + n - 1) in *.
    assert (0 <= n) as Hn by (unfold n, div_ceil, saturating_sub; apply Z.div_pos; unfold saturating_sub in *; bool_prop; lia).
    assert (0 <= end_) as Hend0 by (unfold end_; lia).
    assert (end_ <= MAX_PAGES) as Hend by (change MAX_PAGES with 1024; unfold MAX_DB_SIZE in *; lia). change MAX_PAGES with 1024 in Hend.
    pose proof (set_page_count_tracked (u32 end_) b1) as Hb2. set (b2 := set_page_count _ b1) in *.
    assert (forall i, size b <= i < end_ * 4096 -> is_page_dirty b2 (i / 4096) = true) as Hdirty.
    { intros i Hi. apply Hb2. apply (write_chain_marks _ _ _ _ _ _ Hw); [change MAX_PAGES with 1024; lia|].
      unfold sized in Hsized. pose proof (page_at_offset count i n ltac:(lia) ltac:(lia)). lia. }
    assert (tracked b (set_size (end_ * 4096) b2)) as Hgrow by (apply grow_dirty; [by etransitivity|done|done]).
    split; [etransitivity; [exact Hgrow|apply increment_tracked]|]. intros p _. unfold sized.
    rewrite page_count_increment, (proj2 (increment_tracked _)). change (page_count (set_size (end_ * 4096) b2)) with (page_count b2).
    change (size (set_size (end_ * 4096) b2)) with (Z.min (end_ * 4096) MAX_DB_SIZE). unfold b2. rewrite page_count_set.
    rewrite !(wrap_small _ end_) by (split; [exact Hend0|lia]). unfold MAX_DB_SIZE in *. lia. }
  unfold returned. destruct (body b) as [b' [o|o|]]; destruct (Hbody _ _ eq_refl) as [H1 H2]; (split; [done|]); intros p; cbn;
    [intros [= ->]; apply (H2 p); by auto..|done].
Qed.

(** ** Inserts *)

Lemma append_cell_tracked {R} (t : Target) cell free b :
  t_page_size t = 4096 -> sized b -> tracked b (fst (append_cell (R := R) t cell free b)).
Proof.
  intros Hps Hs. unfold append_cell. rewrite Hps. destruct (free <? _); [by apply new_leaf_tracked|].
  match goal with |- tracked b (fst (?m b)) => assert (keeps m) as Hk by track end. apply Hk.
Qed.

(** Databases with 4096-byte pages. *)
Definition pages4k (b : SafeSqliteBuffer) : Prop := forall db, open (loaded b) = Ok db -> page_size (db_header db) = 4096.

(** [find_target] changes nothing and returns the page size of the header. *)
Lemma find_target_state {R} table (r : R) b :
  pages4k b -> fst (find_target table r b) = b /\ forall t, snd (find_target table r b) = Ok t -> t_page_size t = 4096.
Proof.
  intros H4. unfold find_target. rewrite bind_gets, bind_fail_if. case_match; [done|]. rewrite bind_or_return.
  destruct (open (loaded b)) as [db|e|] eqn:Ho; [|done..]. specialize (H4 db Ho). rewrite bind_or_return.
  destruct (find_table_root db table); [|done..]. cbv zeta. rewrite bind_gets, bind_fail_if. case_match; [done|].
  rewrite bind_gets, bind_fail_if. case_match; [done|]. split; [done|]. intros t [= <-]. done.
Qed.

(** What follows [find_target] starts in the same state. *)
Lemma tracked_target {R A} table (r : R) (k : Target -> M SafeSqliteBuffer R A) b :
  pages4k b -> (forall t, t_page_size t = 4096 -> tracked b (fst (k t b))) -> tracked b (fst (M_bind k (find_target table r) b)).
Proof.
  intros H4 Hk. destruct (find_target_state table r b H4) as [Hs Ht]. unfold M_bind.
  destruct (find_target table r b) as [b' [t|e|]]; cbn in *; subst b'; [by apply Hk, Ht|done..].
Qed.

Lemma tracked_or_return {E R A B} (f : SafeSqliteBuffer -> outcome E A) (r : R) (k : A -> M SafeSqliteBuffer R B) b :
  (forall a, tracked b (fst (k a b))) -> tracked b (fst (M_bind k (or_return f r) b)).
Proof. intros Hk. rewrite bind_or_return. by destruct (f b). Qed.

Lemma insert_row_tracked {E} table types cols b : pages4k b -> sized b -> tracked b (fst (insert_row (E := E) table types cols b)).
Proof.
  intros H4 Hs. unfold insert_row. rewrite fst_returned. apply tracked_target; [done|]. intros t Ht.
  do 2 (apply tracked_or_return; intros ?). unfold M_bind. pose proof (append_cell_tracked (R := option Z) t a0 (free_saturating t) b Ht Hs) as Ha.
  by destruct (append_cell _ _ _ b) as [b' [x|e|]].
Qed.

Lemma insert_intent_tracked {E} id mime json b : pages4k b -> sized b -> tracked b (fst (sqlite_insert_intent (E := E) id mime json b)).
Proof.
  intros H4 Hs. unfold sqlite_insert_intent. rewrite fst_returned. apply tracked_target; [done|]. intros t Ht.
  apply tracked_or_return. intros cell. by apply append_cell_tracked.
Qed.

Lemma insert_file_tracked {E} rowid name content b :
  bytes_mem (data b) -> pages4k b -> sized b -> tracked b (fst (sqlite_insert_file (E := E) rowid name content b)).
Proof.
  intros Hb H4 Hs. pose proof (page_count_nonneg b Hb) as Hc. unfold sqlite_insert_file. rewrite fst_returned. apply tracked_target; [done|]. intros t Ht.
  apply tracked_or_return. intros payload. apply tracked_or_return. intros [local_size overflow_size]. rewrite Ht.
  destruct (0 <? overflow_size).
  - rewrite bind_assoc. unfold M_bind at 1.
    destruct (chain_tracked (E := bool) (drop (Z.to_nat local_size) payload) (t_usable t) b Hc Hs) as [H1 H2].
    destruct (allocate_overflow_chain _ _ _ b) as [b' [o|e|]]; cbn [fst snd] in *; [|done..].
    destruct o as [p|]; [|done]. specialize (H2 p eq_refl). etransitivity; [exact H1|].
    do 2 (apply tracked_or_return; intros ?). by apply append_cell_tracked.
  - do 2 (apply tracked_or_return; intros ?). by apply append_cell_tracked.
Qed.

(** ** Operations *)

Inductive operation :=
| InsertFile (rowid : Z) (name content : list Z)
| InsertIntent (file_id : Z) (mime json : list Z)
| InsertEntity (entity_id name entity_type : list Z) (created_at : Z)
| InsertEdge (edge_id subject_id predicate object_id : list Z) (valid_from valid_to confidence : Z)
| DeleteFile (rowid : Z)
| OverwriteBlob (name new_data : list Z)
| ExpireEdge (subject_id predicate : list Z) (expire_at : Z).

(** The buffer after an operation, whatever it returned. *)
Definition run_operation (op : operation) (b : SafeSqliteBuffer) : SafeSqliteBuffer :=
  match op with
  | InsertFile r n c => fst (sqlite_insert_file (E := Empty_set) r n c b)
  | InsertIntent f m j => fst (sqlite_insert_intent (E := Empty_set) f m j b)
  | InsertEntity i n t c => fst (sqlite_insert_entity (E := Empty_set) i n t c b)
  | InsertEdge i s p o f t c => fst (sqlite_insert_edge (E := Empty_set) i s p o f t c b)
  | DeleteFile r => fst (sqlite_delete_file_by_rowid (E := Empty_set) r b)
  | OverwriteBlob n l => fst (overwrite_blob_inplace (E := Empty_set) n l b)
  | ExpireEdge s p t => fst (sqlite_expire_edge (E := Empty_set) s p t b)
  end.

Lemma operation_tracked op b : bytes_mem (data b) -> pages4k b -> sized b -> tracked b (run_operation op b).
Proof.
  intros Hb H4 Hs. destruct op; cbn [run_operation];
    [by apply insert_file_tracked|by apply insert_intent_tracked|by apply insert_row_tracked..|apply delete_file_tracked|apply overwrite_tracked|apply expire_edge_tracked].
Qed.
