(* ===== verification/SqlIoThm.v ===== *)
(** Flushing and loading the database: what is flushed is what is loaded. *)

From Stdlib Require Import String.
From S2P Require Import Prelude Bytes Slice SqliteDb SqliteScanThm SqliteThm SqlWrite SqlTables SqlIo SqlTrack.

Open Scope kernel_scope.

(** ** A device that works *)

(** Sectors below [dev_size] are read and written, byte [i] of sector [s] at
    [512 * s + i]. *)
Class DeviceLaws (D : Type) `{BlockDevice D} := {
  dev_bytes : D -> mem;
  dev_size : D -> Z;
  law_read d s n : 0 <= s -> 0 < n -> s + n <= dev_size d ->
    sys_block_read s n d = (range (dev_bytes d) (s * 512) (n * 512), true);
  law_write d s l : 0 <= s -> s < dev_size d -> length l = 512%nat ->
    exists d', sys_block_write s l d = (d', true) /\ dev_size d' = dev_size d /\
      forall i, dev_bytes d' i = blit (dev_bytes d) (s * 512) l i;
}.

(** A disk of a fixed size in memory. *)
Record MemDisk := mkDisk { disk_bytes : mem; disk_size : Z }.

#[global] Instance mem_disk : BlockDevice MemDisk := {
  sys_block_read s n d := if s + n <=? disk_size d then (range (disk_bytes d) (s * 512) (n * 512), true) else ([], false);
  sys_block_write s l d := if s <? disk_size d then (mkDisk (blit (disk_bytes d) (s * 512) l) (disk_size d), true) else (d, false);
}.

#[global] Program Instance mem_disk_laws : DeviceLaws MemDisk := { dev_bytes := disk_bytes; dev_size := disk_size }.
Next Obligation. intros d s n Hs Hn Hd. cbn. by rewrite (proj2 (Z.leb_le _ _)) by lia. Qed.
Next Obligation. intros d s l Hs Hd Hl. cbn. rewrite (proj2 (Z.ltb_lt _ _)) by lia. by eexists. Qed.

(** ** Folds that only improve the state *)

Section improve.
Context {D A : Type} (R : D -> D -> Prop) `{!PreOrder R} (f : D -> A -> D) (P : A -> Prop) (Inv : D -> Prop).
Context (Hf : forall d x, Inv d -> P x -> R d (f d x)) (Hinv : forall d d', R d d' -> Inv d -> Inv d').

Lemma foldl_improves l : Forall P l -> forall d, Inv d -> R d (foldl f d l).
Proof.
  induction 1 as [|x l Hx _ IH]; intros d Hd; cbn; [done|].
  pose proof (Hf d x Hd Hx). etransitivity; [done|]. apply IH. by eapply Hinv.
Qed.

Lemma foldl_establishes (Q : D -> Prop) l x d :
  Forall P l -> Inv d -> x ∈ l -> (forall d, Inv d -> Q (f d x)) -> (forall d d', R d d' -> Q d -> Q d') -> Q (foldl f d l).
Proof.
  intros Hl Hd (i & j & ->)%list_elem_of_split HQ HR. rewrite foldl_app. cbn. apply Forall_app in Hl as [H1 H2].
  apply Forall_cons in H2 as [Hx H2]. assert (Inv (foldl f d i)) as Hi by (eapply Hinv; [by apply foldl_improves|done]).
  eapply HR; [apply foldl_improves; [done|]|by apply HQ]. eapply Hinv; [by apply Hf|done].
Qed.
End improve.

(** ** The device during a flush *)

Section device.
Context {D : Type} `{DeviceLaws D}.

Lemma block_read_ok d s n buf :
  0 <= s -> 0 < n -> s + n <= dev_size d -> Z.of_nat (length buf) = n * 512 ->
  block_read d s buf n = (range (dev_bytes d) (s * 512) (n * 512), inl tt).
Proof.
  intros Hs Hn Hd Hl. unfold block_read, SECTOR_SIZE. rewrite (proj2 (Z.ltb_ge _ _)), (proj2 (Z.eqb_neq _ _)) by lia. cbn [orb].
  rewrite law_read by lia. f_equal. unfold copy_front. rewrite take_ge by (rewrite range_length; lia).
  rewrite drop_ge by (rewrite range_length; lia). by rewrite app_nil_r.
Qed.

Lemma write_sector_ok d s l :
  0 <= s < dev_size d -> length l = 512%nat ->
  exists d', write_sector s l d = (d', inl tt) /\ dev_size d' = dev_size d /\ forall i, dev_bytes d' i = blit (dev_bytes d) (s * 512) l i.
Proof.
  intros Hs Hl. unfold write_sector, block_write, SECTOR_SIZE. rewrite Hl. cbn [Z.of_nat].
  change ((Z.pos _ <? 1 * 512) || (1 =? 0)) with false. cbv beta iota.
  destruct (law_write d s l) as (d' & Hd' & H1 & H2); [lia..|]. rewrite take_ge by (rewrite Hl; lia). rewrite Hd'. by exists d'.
Qed.

Section flush.
Context (b : SafeSqliteBuffer) (db : Z).
Context (Hdb : 0 < db) (Hsize : 0 <= size b <= MAX_DB_SIZE) (Hmul : size b mod 512 = 0).

(** The device and the buffer agree on byte [i] of the database. *)
Definition agree (d : D) (i : Z) : Prop := dev_bytes d (db * 512 + i) = data b i.

Definition fits (d : D) : Prop := db + size b / 512 <= dev_size d /\ dev_size d < 2 ^ 63.

Definition improves (d d' : D) : Prop :=
  dev_size d' = dev_size d /\ (forall i, i < 512 -> dev_bytes d' i = dev_bytes d i) /\
  (forall i, 0 <= i < size b -> agree d i -> agree d' i).

#[local] Instance improves_preorder : PreOrder improves.
Proof.
  split; [done|]. intros d1 d2 d3 (H1 & H2 & H3) (H4 & H5 & H6). repeat split; [congruence| |auto].
  intros i Hi. by rewrite H5, H2.
Qed.

Lemma improves_fits d d' : improves d d' -> fits d -> fits d'.
Proof. intros (H1 & _ & _). unfold fits. by rewrite H1. Qed.

Lemma flush_sector_ok d off :
  fits d -> 0 <= off -> off + 512 <= size b -> off mod 512 = 0 ->
  improves d (flush_sector b db off d) /\ forall i, off <= i < off + 512 -> agree (flush_sector b db off d) i.
Proof.
  intros [Hfit Hdev] Ho0 Ho1 Ho2. unfold flush_sector, read_slice.
  assert (db + off / 512 < db + size b / 512) as Hlt.
  { apply Z.add_lt_mono_l. apply Z.div_lt_upper_bound; [lia|]. pose proof (Z.div_mod (size b) 512). lia. }
  unfold checked_add. rewrite (proj2 (Z.ltb_lt _ _)) by (unfold MAX_DB_SIZE in *; lia).
  rewrite (proj2 (Z.ltb_ge _ _)) by lia.
  assert (0 <= off / 512) by (apply Z.div_pos; lia). rewrite wrap_small by (split; lia).
  destruct (write_sector_ok d (db + off / 512) (bytes_of (mkSlice (data b) off 512))) as (d' & -> & Hs & Hb);
    [lia|unfold bytes_of; by rewrite range_length|]. cbn [fst].
  assert ((db + off / 512) * 512 = db * 512 + off) as Eo by (pose proof (Z.div_mod off 512); lia).
  assert (forall i, off <= i < off + 512 -> agree d' i) as Hin.
  { intros i Hi. unfold agree. rewrite Hb, blit_inside by (unfold bytes_of; rewrite range_length; cbn [sl_len]; lia).
    unfold bytes_of. cbn [sl_mem sl_off sl_len]. rewrite Eo. apply nth_lookup_Some. rewrite range_lookup by lia. do 2 f_equal. lia. }
  split; [|done]. repeat split; [done| |].
  - intros i Hi. rewrite Hb, blit_outside; [done|]. lia.
  - intros i Hi Ha. destruct (decide (off <= i < off + 512)) as [?|Ho]; [by apply Hin|].
    unfold agree. rewrite Hb, blit_outside; [done|]. unfold bytes_of. rewrite range_length. cbn [sl_len]. lia.
Qed.

Definition sectors_in_page (page : Z) : Z := if page * 4096 + 4096 <=? size b then 8 else (size b - page * 4096 + 511) / 512.

Lemma sectors_in_page_bound page s :
  0 <= s < sectors_in_page page -> page * 4096 + s * 512 + 512 <= size b.
Proof.
  unfold sectors_in_page. pose proof (Z.div_mod (size b) 512). pose proof (Z.div_mod (size b - page * 4096 + 511) 512).
  pose proof (Z.mod_pos_bound (size b - page * 4096 + 511) 512). intros Hs. case_match; bool_prop; [lia|].
  assert (size b - page * 4096 + 511 = (size b / 512 - page * 8) * 512 + 511) as E by lia.
  rewrite E, Z.div_add_l in * by lia. change (511 / 512) with 0 in *. lia.
Qed.

Lemma sectors_in_page_cover page i :
  0 <= i < size b -> i / 4096 = page -> 0 <= (i - page * 4096) / 512 < sectors_in_page page.
Proof.
  intros Hi Hp. pose proof (Z.div_mod i 4096). pose proof (Z.mod_pos_bound i 4096). unfold sectors_in_page.
  split; [apply Z.div_pos; lia|]. case_match; bool_prop; [apply Z.div_lt_upper_bound; lia|].
  apply Z.div_lt_upper_bound; [lia|]. pose proof (Z.div_mod (size b - page * 4096 + 511) 512). pose proof (Z.mod_pos_bound (size b - page * 4096 + 511) 512). lia.
Qed.

Lemma flush_page_ok d page :
  fits d -> 0 <= page ->
  improves d (flush_page b db d page) /\
  (is_page_dirty b page = true -> forall i, 0 <= i < size b -> i / 4096 = page -> agree (flush_page b db d page) i).
Proof.
  intros Hfit Hp. unfold flush_page. destruct (is_page_dirty b page); cbn [negb]; [|done].
  fold (sectors_in_page page). set (f := fun d s => flush_sector b db (page * 4096 + s * 512) d).
  set (P := fun s => 0 <= s < sectors_in_page page).
  assert (Forall P (seqZ 0 (sectors_in_page page))) as Hall.
  { apply Forall_forall. intros s Hs. apply elem_of_seqZ in Hs. unfold P. lia. }
  assert (forall d s, fits d -> P s -> improves d (f d s) /\
    forall i, page * 4096 + s * 512 <= i < page * 4096 + s * 512 + 512 -> agree (f d s) i) as Hf.
  { intros d' s Hd' Hs. pose proof (sectors_in_page_bound _ _ Hs). unfold P in Hs. apply flush_sector_ok; [done|lia|lia|].
    replace (page * 4096 + s * 512) with ((page * 8 + s) * 512) by lia. by rewrite Z.mod_mul. }
  assert (forall d s, fits d -> P s -> improves d (f d s)) as Hf1 by (intros; by apply Hf).
  split; [by apply (foldl_improves improves f P fits Hf1 improves_fits)|].
  intros _ i Hi Hip. pose proof (sectors_in_page_cover page i Hi Hip) as Hs.
  apply (foldl_establishes improves f P fits Hf1 improves_fits (fun d => agree d i) _ ((i - page * 4096) / 512)); [done|done| | |].
  - apply elem_of_seqZ. lia.
  - intros d' Hd'. apply Hf; [done|done|]. pose proof (Z.div_mod (i - page * 4096) 512). pose proof (Z.mod_pos_bound (i - page * 4096) 512). lia.
  - intros d1 d2 (_ & _ & Hr). auto.
Qed.

(** Clean pages are on the device. *)
Definition synced (d : D) : Prop := forall i, 0 <= i < size b -> is_page_dirty b (i / 4096) = false -> agree d i.

Lemma flush_pages_ok d :
  fits d -> synced d ->
  let d' := foldl (flush_page b db) d (seqZ 0 ((size b + 4095) / 4096)) in
  improves d d' /\ forall i, 0 <= i < size b -> agree d' i.
Proof.
  intros Hfit Hsync d'. set (P := fun p => 0 <= p).
  assert (Forall P (seqZ 0 ((size b + 4095) / 4096))) as Hall.
  { apply Forall_forall. intros s Hs. apply elem_of_seqZ in Hs. unfold P. lia. }
  assert (forall d p, fits d -> P p -> improves d (flush_page b db d p)) as Hf1 by (intros; by apply flush_page_ok).
  assert (improves d d') as Himp by (by apply (foldl_improves improves _ P fits Hf1 improves_fits)).
  split; [done|]. intros i Hi. destruct (is_page_dirty b (i / 4096)) eqn:Hdirty.
  - pose proof (proj1 Hi) as Hi0. apply (Z.div_pos i 4096) in Hi0; [|done].
    apply (foldl_establishes improves _ P fits Hf1 improves_fits (fun d => agree d i) _ (i / 4096)); [done|done| | |].
    + apply elem_of_seqZ. split; [done|].
      enough (i / 4096 + 1 <= (size b + 4095) / 4096) by lia. apply Z.div_le_lower_bound; [lia|]. destruct Hi as [_ Hi]. pose proof (Z.div_mod i 4096). pose proof (Z.mod_pos_bound i 4096). lia.
    + intros d1 Hd1. by apply flush_page_ok.
    + intros d1 d2 (_ & _ & Hr). auto.
  - destruct Himp as (_ & _ & Hr). auto.
Qed.
End flush.

(** ** Loading *)

Lemma load_chunks_ok fuel : forall d raw cur off rem,
  rem <= Z.of_nat fuel -> 0 <= rem -> 0 <= cur -> cur + rem <= dev_size d -> dev_size d < 2 ^ 63 ->
  exists raw', load_chunks fuel d raw cur off rem = (raw', true) /\
    forall i, raw' i = if (off <=? i) && (i <? off + rem * 512) then dev_bytes d (cur * 512 + (i - off)) else raw i.
Proof.
  induction fuel as [|fuel IH]; intros d raw cur off rem Hf Hrem Hcur Hfit Hdev; cbn [load_chunks].
  - rewrite (proj2 (Z.leb_le _ _)) by lia. exists raw. split; [done|]. intros i. case_match; [bool_prop; lia|done].
  - case_match eqn:Hr; bool_prop.
    { exists raw. split; [done|]. intros i. case_match; [bool_prop; lia|done]. }
    unfold SECTOR_SIZE. set (n := Z.min rem 64). rewrite block_read_ok by (rewrite ?range_length; lia).
    rewrite wrap_small by (split; lia).
    destruct (IH d (blit raw off (range (dev_bytes d) (cur * 512) (n * 512))) (cur + n) (off + n * 512) (rem - n)) as (raw' & -> & Hraw); [lia..|].
    exists raw'. split; [done|]. intros i. rewrite Hraw.
    destruct (decide (off <= i < off + n * 512)) as [Hi|Hi].
    + rewrite (proj2 (Z.leb_gt _ _)), (proj2 (Z.leb_le off i)), !(proj2 (Z.ltb_lt i _)) by lia. cbn [andb].
      rewrite blit_inside by (rewrite range_length; lia). apply nth_lookup_Some. rewrite range_lookup by lia. do 2 f_equal. lia.
    + rewrite blit_outside by (rewrite range_length; lia).
      destruct (decide (off + n * 512 <= i < off + rem * 512)) as [Hi'|Hi'].
      * rewrite !(proj2 (Z.leb_le _ i)) by lia. rewrite !(proj2 (Z.ltb_lt i _)) by lia. cbn [andb]. f_equal. lia.
      * repeat (case_match; bool_prop; try lia); done.
Qed.

(** ** Flush, then load *)

(** The disk header at sector 0: the magic, and the first sector of the
    database. *)
Definition has_header (d : D) (db_sector : Z) : Prop :=
  range (dev_bytes d) 0 8 = FOLKDISK /\ from_le_bytes (range (dev_bytes d) 48 8) = db_sector.

Lemma range_drop_take m off n (k j : nat) :
  Z.of_nat k + Z.of_nat j <= n -> take j (drop k (range m off n)) = range m (off + Z.of_nat k) (Z.of_nat j).
Proof.
  intros Hn. replace n with (Z.of_nat k + (Z.of_nat j + (n - Z.of_nat k - Z.of_nat j))) by lia.
  rewrite range_app by lia. rewrite drop_app_length' by (rewrite range_length; lia).
  rewrite range_app by lia. by rewrite take_app_length' by (rewrite range_length; lia).
Qed.

Lemma disk_header_ok d db_sector :
  0 < dev_size d -> has_header d db_sector ->
  disk_header d = Some (range (dev_bytes d) 0 512) /\ header_word (range (dev_bytes d) 0 512) 48 = db_sector.
Proof.
  intros Hd [Hm Hs]. split.
  - unfold disk_header, read_sector. rewrite block_read_ok by (rewrite ?length_replicate; lia). change (0 * 512) with 0. change (1 * 512) with 512.
    pose proof (range_drop_take (dev_bytes d) 0 512 0 8 ltac:(lia)) as Ht. rewrite drop_0 in Ht. rewrite Ht.
    by rewrite bool_decide_true.
  - unfold header_word. by rewrite range_drop_take by lia.
Qed.

(** The header with the word at 56 replaced. *)
Lemma header_update m l :
  length l = 8%nat ->
  let hb := take 56 (range m 0 512) ++ l ++ drop 64 (range m 0 512) in
  length hb = 512%nat /\ (forall m' i, 0 <= i < 56 -> blit m' (0 * 512) hb i = m i) /\ forall m', range (blit m' (0 * 512) hb) 56 8 = l.
Proof.
  intros Hl hb. assert (length (take 56 (range m 0 512)) = 56%nat) as H56 by (rewrite length_take, range_length; lia).
  assert (length hb = 512%nat) as Hlen by (unfold hb; rewrite !length_app, H56, Hl, length_drop, range_length; lia).
  split; [done|]. split.
  - intros m' i Hi. rewrite blit_inside by (rewrite Hlen; lia). apply nth_lookup_Some. unfold hb. rewrite lookup_app_l by (rewrite H56; lia).
    rewrite lookup_take_lt, range_lookup by lia. do 2 f_equal. lia.
  - intros m'. apply list_eq. intros i. destruct (decide (i < 8)%nat) as [Hi|Hi].
    + rewrite range_lookup, blit_inside by (rewrite ?Hlen; lia). symmetry.
      destruct (lookup_lt_is_Some_2 l i) as [x Hx]; [lia|]. rewrite Hx. f_equal. symmetry. apply nth_lookup_Some. unfold hb.
      rewrite lookup_app_r by (rewrite H56; lia). rewrite lookup_app_l by (rewrite H56; lia). rewrite <- Hx. f_equal. rewrite H56. lia.
    + rewrite !lookup_ge_None_2; [done|lia|]. rewrite range_length. lia.
Qed.

(** The buffer as the loader leaves it. *)
Lemma load_ok d b0 db_sector n :
  has_header d db_sector -> from_le_bytes (range (dev_bytes d) 56 8) = n ->
  0 < db_sector -> 0 < n -> n * 512 <= MAX_DB_SIZE -> db_sector + n <= dev_size d -> dev_size d < 2 ^ 63 ->
  range (dev_bytes d) (db_sector * 512) 16 = SQLITE_MAGIC ->
  exists b1, try_load_sqlite_from_disk d b0 = (b1, true) /\ valid b1 = true /\ size b1 = n * 512 /\ dirty b1 = dirty b0 /\
    forall i, 0 <= i < n * 512 -> data b1 i = dev_bytes d (db_sector * 512 + i).
Proof.
  intros Hh Hn Hdb Hn0 Hmax Hfit Hdev Hmagic. destruct (disk_header_ok d db_sector ltac:(lia) Hh) as [Hdh Hw].
  assert (header_word (range (dev_bytes d) 0 512) 56 = n) as Hw' by (unfold header_word; by rewrite range_drop_take by lia).
  unfold try_load_sqlite_from_disk. rewrite Hdh, Hw, Hw'. rewrite !(proj2 (Z.eqb_neq _ _)) by lia. cbn [orb].
  unfold SECTOR_SIZE. rewrite (wrap_small 64 (n * 512)) by (split; [lia|unfold MAX_DB_SIZE in *; lia]).
  rewrite (proj2 (Z.ltb_ge _ _)) by lia.
  destruct (load_chunks_ok (Z.to_nat n) d (data b0) db_sector 0 n) as (raw & -> & Hraw); [lia..|]. cbn [negb].
  rewrite (proj2 (Z.ltb_ge _ _)) by lia. cbn [orb].
  assert (forall i, 0 <= i < n * 512 -> raw i = dev_bytes d (db_sector * 512 + i)) as Hin.
  { intros i Hi. rewrite Hraw, (proj2 (Z.leb_le _ _)), (proj2 (Z.ltb_lt _ _)) by lia. cbn [andb]. f_equal. lia. }
  assert (range raw 0 16 = SQLITE_MAGIC) as ->.
  { rewrite <- Hmagic. unfold range. rewrite <- (Z.add_0_r (db_sector * 512)). apply list_eq. intros i. rewrite !list_lookup_fmap.
    destruct (decide (Z.of_nat i < 16)); [rewrite !lookup_seqZ_lt by lia|by rewrite !lookup_seqZ_ge by lia].
    cbn. f_equal. rewrite Hin by lia. f_equal. lia. }
  rewrite bool_decide_true by done. cbn [negb]. eexists. split; [done|]. cbn. rewrite Z.min_l by lia. done.
Qed.
End device.

(** C19: What is flushed is what is loaded.  When the clean pages of the buffer
    are already on the device and the device works, flushing succeeds, leaves
    no page dirty, and a later load into any buffer gives back the database
    byte for byte, with its size. *)
Theorem flush_load_roundtrip {D} `{DeviceLaws D} (b b0 : SafeSqliteBuffer) (d : D) (db_sector : Z) :
  has_header d db_sector -> 0 < db_sector -> size b mod 512 = 0 -> 0 < size b <= MAX_DB_SIZE ->
  db_sector + size b / 512 <= dev_size d -> dev_size d < 2 ^ 63 ->
  range (data b) 0 16 = SQLITE_MAGIC -> synced b db_sector d ->
  exists b' d' b1,
    flush_sqlite_to_disk b d = (b', d', true) /\ (forall p, is_page_dirty b' p = false) /\
    try_load_sqlite_from_disk d' b0 = (b1, true) /\ valid b1 = true /\ size b1 = size b /\
    forall i, 0 <= i < size b -> data b1 i = data b i.
Proof.
  intros Hh Hdb Hmul Hsize Hfit Hdev Hmagic Hsync. set (total := size b / 512) in *.
  assert (total * 512 = size b /\ 0 < total) as [Ht Ht0].
  { pose proof (Z.div_mod (size b) 512). unfold total. lia. }
  destruct (disk_header_ok d db_sector) as [Hdh Hw]; [lia|done|].
  unfold flush_sqlite_to_disk. rewrite Hdh, Hw, (proj2 (Z.eqb_neq _ _)) by lia.
  destruct (flush_pages_ok b db_sector Hdb ltac:(lia) Hmul d ltac:(by split) Hsync) as [(Hs & Hlow & _) Hall].
  set (d1 := foldl _ d _) in *. unfold SECTOR_SIZE.
  assert ((size b + 512 - 1) / 512 = total) as ->.
  { rewrite <- Ht. replace (total * 512 + 512 - 1) with (total * 512 + 511) by lia. rewrite Z.div_add_l by lia. change (511 / 512) with 0. lia. }
  assert (forall d', dev_size d' = dev_size d -> (forall i, 512 <= i -> dev_bytes d' i = dev_bytes d1 i) ->
    has_header d' db_sector -> from_le_bytes (range (dev_bytes d') 56 8) = total ->
    exists b1, try_load_sqlite_from_disk d' b0 = (b1, true) /\ valid b1 = true /\ size b1 = size b /\
      forall i, 0 <= i < size b -> data b1 i = data b i) as Hload.
  { intros d' Hs' Hhigh Hh' Hn. assert (forall i, 0 <= i < size b -> dev_bytes d' (db_sector * 512 + i) = data b i) as Hd'.
    { intros i Hi. rewrite Hhigh by lia. by apply Hall. }
    destruct (load_ok d' b0 db_sector total) as (b1 & Hl & Hv & Hsz & _ & Hb1); [done|done|lia..| |].
    - rewrite <- Hmagic. apply list_eq. intros i. unfold range. rewrite !list_lookup_fmap.
      destruct (decide (Z.of_nat i < 16)); [rewrite !lookup_seqZ_lt by lia|by rewrite !lookup_seqZ_ge by lia].
      cbn. f_equal. rewrite Hd'; [f_equal; lia|]. destruct (decide (16 <= size b)); lia.
    - exists b1. rewrite Hl. repeat split; [done|lia|]. intros i Hi. rewrite Hb1 by lia. by apply Hd'. }
  assert (has_header d1 db_sector) as Hh1.
  { destruct Hh as [Hm Hsec]. split; [rewrite <- Hm|rewrite <- Hsec; f_equal]; apply range_ext; intros; apply Hlow; lia. }
  assert (forall p, is_page_dirty (clear_dirty b) p = false) as Hclean.
  { intros p. unfold is_page_dirty. case_match; [done|]. cbn. by rewrite Z.land_0_l. }
  destruct (total =? header_word (range (dev_bytes d) 0 512) 56) eqn:Hsame.
  - bool_prop. unfold header_word in Hsame. rewrite range_drop_take in Hsame by lia. change (0 + Z.of_nat 56) with 56 in Hsame. change (Z.of_nat 8) with 8 in Hsame.
    destruct (Hload d1) as (b1 & H1 & H2 & H3 & H4); [done|done|done| |].
    + rewrite Hsame. f_equal. apply range_ext. intros; apply Hlow; lia.
    + exists (clear_dirty b), d1, b1. done.
  - set (hb := take 56 _ ++ _ ++ _).
    destruct (header_update (dev_bytes d) (le_bytes 8 total) (le_bytes_length _ _)) as (Hlen & Hkeep & Hnew). fold hb in Hlen, Hkeep, Hnew.
    destruct (write_sector_ok d1 0 hb) as (d2 & -> & Hs2 & Hb2); [lia|done|]. cbn [fst].
    destruct (Hload d2) as (b1 & H1 & H2 & H3 & H4); [congruence| | | |].
    + intros i Hi. rewrite Hb2, blit_outside; [done|]. rewrite Hlen. lia.
    + destruct Hh as [Hm Hsec]. split; [rewrite <- Hm|rewrite <- Hsec; f_equal]; apply range_ext; intros; rewrite Hb2; apply Hkeep; lia.
    + transitivity (from_le_bytes (le_bytes 8 total)); [|rewrite from_to_le_bytes; apply Z.mod_small; unfold MAX_DB_SIZE in *; lia].
      f_equal. rewrite <- (Hnew (dev_bytes d1)). apply range_ext. intros. apply Hb2.
    + exists (clear_dirty b), d2, b1. done.
Qed.

(** A disk with the header at sector 0 and the bytes of a buffer from sector 1
    on. *)
Definition example_disk (b : SafeSqliteBuffer) : MemDisk :=
  mkDisk (fun i => if i <? 512 then mem_of_list (FOLKDISK ++ zeros 40 ++ le_bytes 8 1 ++ le_bytes 8 (size b / 512)) i else data b (i - 512)) 100.

Lemma example_disk_synced b b' : data b' = data b -> synced b' 1 (example_disk b).
Proof.
  intros E i Hi _. unfold agree, example_disk. cbn -[Z.mul]. rewrite (proj2 (Z.ltb_ge _ _)) by lia. rewrite E. f_equal. lia.
Qed.

Lemma flush_load_roundtrip_witness :
  exists b' d' b1,
    flush_sqlite_to_disk example_buffer (example_disk example_buffer) = (b', d', true) /\ (forall p, is_page_dirty b' p = false) /\
    try_load_sqlite_from_disk d' new_buffer = (b1, true) /\ valid b1 = true /\ size b1 = 20480 /\
    forall i, 0 <= i < 20480 -> data b1 i = data example_buffer i.
Proof.
  refine (flush_load_roundtrip example_buffer new_buffer (example_disk example_buffer) 1 _ eq_refl eq_refl _ _ eq_refl _ _).
  - split; vm_compute; reflexivity.
  - split; [reflexivity|]. unfold MAX_DB_SIZE. vm_compute. discriminate.
  - vm_compute. discriminate.
  - vm_compute. reflexivity.
  - by apply example_disk_synced.
Defined.

(** C14: Every operation keeps the clean pages of the buffer equal to the device:
    the bytes it changes and the pages it adds are on dirty pages. *)
Theorem operations_stay_synced {D} `{DeviceLaws D} (op : operation) (b : SafeSqliteBuffer) (d : D) (db_sector : Z) :
  bytes_mem (data b) -> pages4k b -> sized b -> synced b db_sector d -> synced (run_operation op b) db_sector d.
Proof.
  intros Hb H4 Hs Hsync i Hi Hclean. destruct (operation_tracked op b Hb H4 Hs) as [Hm Ht].
  destruct (Ht i Hi) as [Hd|[Hlt E]]; [congruence|]. unfold agree. rewrite E. apply Hsync; [lia|].
  destruct (is_page_dirty b (i / 4096)) eqn:Hd; [|done]. by rewrite (Hm _ Hd) in Hclean.
Qed.

Lemma operations_stay_synced_witness :
  synced (run_operation (InsertFile 9 (str "n.txt") [1; 2; 3]) example_buffer) 1 (example_disk example_buffer).
Proof.
  apply (operations_stay_synced (InsertFile 9 (str "n.txt") [1; 2; 3]) example_buffer (example_disk example_buffer) 1).
  - exact example_buffer_bytes.
  - assert (match open (loaded example_buffer) with Ok db => page_size (db_header db) = 4096 | _ => True end) as H by (vm_compute; reflexivity).
    intros db Hdb. by rewrite Hdb in H.
  - vm_compute. discriminate.
  - by apply example_disk_synced.
Defined.
