(* ===== verification/GraphWalkThm.v ===== *)
(** The graph walk of the synapse service: on a well-formed table of edges it
    ends, what it reports is reached by active edges, and it reports everything
    when the depth limit does not bind. *)

From Stdlib Require Import String.
From S2P Require Import Prelude Bytes Slice SqliteDb SqliteRow SqliteScanThm SqliteTree SqliteThm SqlWrite SqlTables.

Open Scope kernel_scope.

(** ** Edges *)

(** The ends of a row of the table of edges when it is active. *)
Definition edge_of (row : Row) : outcome Error (option (list Z * list Z)) :=
  let? subj := get_row row 1 in
  match subj with
  | Some (DText s) =>
      let? obj := get_row row 3 in
      match obj with
      | Some (DText o) =>
          let? vt := get_row row 5 in
          Ok (match vt with Some (DInteger 0) => Some (s, o) | _ => None end)
      | _ => Ok None
      end
  | _ => Ok None
  end.

(** The active edges of a table, if no row of it makes a column read panic. *)
Fixpoint edges_of (l : list Row) : outcome Error (list (list Z * list Z)) :=
  match l with
  | [] => Ok []
  | row :: l =>
      let? e := edge_of row in
      let? es := edges_of l in
      Ok (match e with Some e => e :: es | None => es end)
  end.

Definition other (e : list Z * list Z) (current : list Z) : option (list Z) :=
  if bool_decide (e.1 = current) then Some e.2 else if bool_decide (e.2 = current) then Some e.1 else None.

(** Two names are linked by an active edge, in either direction. *)
Definition linked (es : list (list Z * list Z)) (a b : list Z) : Prop := (a, b) ∈ es \/ (b, a) ∈ es.

(** A walk of [n] active edges. *)
Inductive path (es : list (list Z * list Z)) (a : list Z) : Z -> list Z -> Prop :=
| path_nil : path es a 0 a
| path_snoc n b c : path es a n b -> linked es b c -> path es a (n + 1) c.

Lemma other_linked es e a b : e ∈ es -> other e a = Some b -> linked es a b.
Proof.
  destruct e as [s o]. unfold other, linked. cbn. intros He H.
  destruct (bool_decide (s = a)) eqn:Hs; [apply bool_decide_eq_true in Hs; injection H as <-; left; by subst|].
  destruct (bool_decide (o = a)) eqn:Ho; [|done]. apply bool_decide_eq_true in Ho. injection H as <-. right. by subst.
Qed.

Lemma linked_other es a b : linked es a b -> exists e, e ∈ es /\ other e a = Some b.
Proof.
  intros [H|H]; eexists; (split; [exact H|]); unfold other; cbn; [by rewrite bool_decide_true|].
  case_bool_decide; [by subst|]. by rewrite bool_decide_true.
Qed.

(** ** The walk over a list of edges *)

Section walk.
Context (es : list (list Z * list Z)) (start : list Z) (max_depth : Z).

Definition expand_edges (current : list Z) (depth : Z) (w : Walk) : Walk :=
  foldl (fun w e => match other e current with Some nb => visit depth nb w | None => w end) w es.

Definition walk_round (w : Walk) : Walk + Walk :=
  match frontier w with
  | [] => inr w
  | (current, depth) :: rest =>
      let w := mkWalk (visited w) (result w) rest in
      if max_depth <=? depth then inl w else inl (expand_edges current depth w)
  end.

(** What holds between rounds. *)
Record walk_ok (w : Walk) : Prop := {
  ok_visited : visited w = start :: (hop_entity <$> result w);
  ok_nodup : NoDup (visited w);
  ok_frontier : forall n d, (n, d) ∈ frontier w -> n ∈ visited w /\ path es start d n /\ 0 <= d <= max_depth /\ d + 1 <= Z.of_nat (length (visited w));
  ok_result : forall h, h ∈ result w -> path es start (hop_depth h) (hop_entity h) /\ 1 <= hop_depth h <= max_depth;
  ok_nodes : forall n, n ∈ visited w -> n = start \/ exists m, linked es m n;
}.

Lemma visit_visited d nb w : nb ∈ visited (visit d nb w) /\ forall n, n ∈ visited w -> n ∈ visited (visit d nb w).
Proof.
  unfold visit. case_bool_decide; [done|]. cbn. split; [by apply elem_of_app; right; left|]. intros n Hn. apply elem_of_app. by left.
Qed.

Lemma visit_ok current d nb w :
  walk_ok w -> path es start d current -> 0 <= d < max_depth -> d + 1 <= Z.of_nat (length (visited w)) -> linked es current nb ->
  walk_ok (visit d nb w) /\ d + 1 <= Z.of_nat (length (visited (visit d nb w))).
Proof.
  intros [H1 H2 H3 H4 H5] Hp Hd Hlen Hl. unfold visit. case_bool_decide as Hnb; [done|].
  assert (path es start (d + 1) nb) as Hp' by by eapply path_snoc.
  assert (length (visited w ++ [nb]) = S (length (visited w))) as Hl' by (rewrite length_app; cbn; lia).
  split; [|cbn; rewrite Hl'; lia]. split; cbn.
  - rewrite H1, fmap_app. done.
  - apply NoDup_app. split; [done|]. split; [|apply NoDup_singleton]. intros x Hx ->%list_elem_of_singleton. done.
  - intros n k [[= -> ->]|Hin]%elem_of_cons; rewrite Hl'.
    + split; [apply elem_of_app; right; by left|]. split; [done|]. lia.
    + destruct (H3 n k Hin) as (? & ? & ? & ?). split; [apply elem_of_app; by left|]. split; [done|]. lia.
  - intros h [Hin| ->%list_elem_of_singleton]%elem_of_app; [auto|]. cbn. split; [done|lia].
  - intros n [Hin| ->%list_elem_of_singleton]%elem_of_app; [auto|]. right. by exists current.
Qed.

Lemma expand_ok current d w :
  walk_ok w -> path es start d current -> 0 <= d < max_depth -> d + 1 <= Z.of_nat (length (visited w)) -> walk_ok (expand_edges current d w).
Proof.
  intros Hw Hp Hd Hlen. unfold expand_edges. assert (forall e, e ∈ es -> e ∈ es) as Hsub by done. revert Hsub.
  generalize es at 1 3 as l. intros l. revert w Hw Hlen. induction l as [|e l IH]; intros w Hw Hlen Hsub; cbn; [done|].
  destruct (other e current) as [nb|] eqn:Ho.
  - destruct (visit_ok current d nb w) as [Hv Hlv]; [done..|eapply other_linked; [|done]; apply Hsub; by left|].
    apply IH; [done|done|]. intros; apply Hsub; by right.
  - apply IH; [done|done|]. intros; apply Hsub; by right.
Qed.

(** The fold visits every neighbour and forgets nothing. *)
Lemma expand_visits current d l : forall w,
  let w' := foldl (fun w e => match other e current with Some nb => visit d nb w | None => w end) w l in
  (forall n, n ∈ visited w -> n ∈ visited w') /\
  (forall x, x ∈ frontier w -> x ∈ frontier w') /\
  (forall e nb, e ∈ l -> other e current = Some nb -> nb ∈ visited w') /\
  (forall n, n ∈ visited w' -> n ∈ visited w \/ exists k, (n, k) ∈ frontier w') /\
  Z.of_nat (length (frontier w')) - Z.of_nat (length (frontier w)) = Z.of_nat (length (visited w')) - Z.of_nat (length (visited w)).
Proof.
  induction l as [|e l IH]; intros w; cbn.
  - split_and!; [done|done|by intros e nb ?%elem_of_nil|by left|lia].
  - set (w1 := match other e current with Some nb => visit d nb w | None => w end).
    destruct (IH w1) as (A & B & C & D & F). set (w' := foldl _ w1 l) in *.
    assert ((forall n, n ∈ visited w -> n ∈ visited w1) /\ (forall x, x ∈ frontier w -> x ∈ frontier w1) /\
      (forall n, n ∈ visited w1 -> n ∈ visited w \/ exists k, (n, k) ∈ frontier w1) /\
      Z.of_nat (length (frontier w1)) - Z.of_nat (length (frontier w)) = Z.of_nat (length (visited w1)) - Z.of_nat (length (visited w)))
      as (A1 & B1 & D1 & F1).
    { unfold w1. destruct (other e current) as [nb|]; [|split_and!; [done|done|by left|lia]]. unfold visit. case_bool_decide; [split_and!; [done|done|by left|lia]|].
      cbn. rewrite length_app. cbn. split_and!; [intros; apply elem_of_app; by left|intros; by right| |lia].
      intros n [?| ->%list_elem_of_singleton]%elem_of_app; [by left|]. right. exists (d + 1). by left. }
    split_and!; [auto|auto| | |lia].
    + intros e' nb [->|He]%elem_of_cons Ho; [|by eapply C]. apply A. unfold w1. rewrite Ho. apply (proj1 (visit_visited d nb w)).
    + intros n Hn. destruct (D n Hn) as [H1|H1]; [|by right]. destruct (D1 n H1) as [H2|[k H2]]; [by left|]. right. exists k. auto.
Qed.

(** ** Rounds *)

Lemma round_ok w w' : walk_ok w -> walk_round w = inl w' -> walk_ok w'.
Proof.
  intros Hw. unfold walk_round. destruct (frontier w) as [|[current d] rest] eqn:Hf; [done|].
  destruct (ok_frontier _ Hw current d) as (Hc & Hp & Hd & Hl); [rewrite Hf; by left|].
  assert (walk_ok (mkWalk (visited w) (result w) rest)) as Hw'.
  { destruct Hw as [H1 H2 H3 H4 H5]. split; cbn; try done. intros n k Hin. apply H3. rewrite Hf. by right. }
  case_match eqn:Hmax; intros [= <-]; [done|]. bool_prop. apply expand_ok; [done|done|lia|done].
Qed.

(** Names that can be visited. *)
Definition nodes : list (list Z) := start :: (es.*1 ++ es.*2).

Lemma visited_nodes w : walk_ok w -> visited w ⊆ nodes.
Proof.
  intros Hw n Hn. unfold nodes. destruct (ok_nodes _ Hw n Hn) as [->|[m [H|H]]]; [by left|right; apply elem_of_app..].
  - right. apply (list_elem_of_fmap_2 snd _ _ H).
  - left. apply (list_elem_of_fmap_2 fst _ _ H).
Qed.

Lemma visited_bound w : walk_ok w -> Z.of_nat (length (visited w)) <= 1 + 2 * Z.of_nat (length es).
Proof.
  intros Hw. pose proof (NoDup_submseteq _ _ (ok_nodup _ Hw) (visited_nodes w Hw)) as Hs. apply submseteq_length in Hs.
  unfold nodes in Hs. cbn in Hs. rewrite length_app, !length_fmap in Hs. lia.
Qed.

Definition rounds_left (w : Walk) : Z :=
  2 * (1 + 2 * Z.of_nat (length es) - Z.of_nat (length (visited w))) + Z.of_nat (length (frontier w)).

Lemma round_decreases w w' : walk_ok w -> walk_round w = inl w' -> rounds_left w' + 1 <= rounds_left w.
Proof.
  intros Hw. unfold walk_round, rounds_left. destruct (frontier w) as [|[current d] rest]; [done|].
  case_match; intros [= <-]; cbn [visited frontier length]; [lia|].
  pose proof (expand_visits current d es (mkWalk (visited w) (result w) rest)) as (A & _ & _ & _ & F). fold (expand_edges current d (mkWalk (visited w) (result w) rest)) in A, F.
  cbn [visited frontier] in *. assert (length (visited w) <= length (visited (expand_edges current d (mkWalk (visited w) (result w) rest))))%nat; [|lia].
  apply submseteq_length, NoDup_submseteq; [apply Hw|done].
Qed.

(** Below the limit nothing visited is left unexpanded but the frontier. *)
Definition closed (w : Walk) : Prop :=
  forall n, n ∈ visited w -> (exists k, (n, k) ∈ frontier w) \/ forall m, linked es n m -> m ∈ visited w.

Lemma round_closed w w' :
  2 * Z.of_nat (length es) < max_depth -> walk_ok w -> closed w -> walk_round w = inl w' -> closed w'.
Proof.
  intros Hmax Hw Hc. unfold walk_round. destruct (frontier w) as [|[current d] rest] eqn:Hf; [done|].
  destruct (ok_frontier _ Hw current d) as (Hcv & Hp & Hd & Hl); [rewrite Hf; by left|]. pose proof (visited_bound w Hw).
  rewrite (proj2 (Z.leb_gt _ _)) by lia. intros [= <-].
  destruct (expand_visits current d es (mkWalk (visited w) (result w) rest)) as (A & B & C & D & _).
  fold (expand_edges current d (mkWalk (visited w) (result w) rest)) in A, B, C, D. set (w' := expand_edges current d _) in *. cbn [visited frontier] in *.
  intros n Hn. destruct (D n Hn) as [Hv|Hin]; [|by left].
  destruct (decide (n = current)) as [->|Hne].
  - right. intros m Hm. destruct (linked_other es current m Hm) as (e & He & Ho). by eapply C.
  - destruct (Hc n Hv) as [[k Hk]|Hall]; [|right; auto]. left. exists k. apply B. rewrite Hf in Hk. apply elem_of_cons in Hk as [[= ? ?]|Hk]; done.
Qed.

Lemma closed_reaches w : closed w -> frontier w = [] -> start ∈ visited w -> forall n x, path es start n x -> x ∈ visited w.
Proof.
  intros Hc Hf Hs n x Hp. induction Hp as [|n b c Hp IH Hl]; [done|].
  destruct (Hc b IH) as [[k Hk]|Hall]; [|auto]. rewrite Hf in Hk. by apply elem_of_nil in Hk.
Qed.
End walk.

(** ** The walk over the table *)

Section table.
Context (db : SqliteDb) (schema t : tree) (es : list (list Z * list Z)).
Context (Hdb : db_ok db) (Htable : table_tree db schema (str "edges") t) (Hes : edges_of (visible (leaves t)) = Ok es).

Lemma neighbour_edge r current : proper_record r ->
  neighbour r current = (let? e := edge_of (row_of r) in Ok (e ≫= fun e => other e current)).
Proof.
  intros Hr. unfold neighbour, edge_of. rewrite <- !get_row_of by done.
  destruct (get r 1) as [[[]|]|e|]; cbn; try done. destruct (get r 3) as [[[]|]|e|]; cbn; try done.
  destruct (get r 5) as [[[|v| | |]|]|e|]; cbn; try done. by destruct v.
Qed.

Lemma fold_edges current d l : forall es' w, edges_of l = Ok es' ->
  fold_rows (R := Empty_set) (fun w row =>
    let? e := edge_of row in Ok (inl (match e ≫= fun e => other e current with Some nb => visit d nb w | None => w end))) w l =
  Ok (inl (expand_edges es' current d w)).
Proof.
  induction l as [|row l IH]; intros es' w; cbn; [by intros [= <-]|]. intros (e & He & (es1 & Hes1 & [= <-])%obind_ok)%obind_ok.
  rewrite He. cbn. rewrite (IH es1) by done. by destruct e as [e|].
Qed.

Lemma expand_table sc current d w : new_scanner db (page_of t) = Ok sc -> expand db sc current d w = Ok (expand_edges es current d w).
Proof.
  intros Hsc. destruct Htable as (_ & _ & _ & Ht & Hd & _). unfold expand.
  rewrite (for_rows_tree db t sc _ (fun w row =>
    let? e := edge_of row in Ok (inl (match e ≫= fun e => other e current with Some nb => visit d nb w | None => w end))) w Hdb Ht Hd Hsc).
  - by rewrite (fold_edges current d _ es).
  - intros w' r Hr. rewrite neighbour_edge by done. by destruct (edge_of (row_of r)).
Qed.

Lemma step_round max_depth w : walk_step db max_depth w = Ok (walk_round es max_depth w).
Proof.
  unfold walk_step, walk_round. destruct (frontier w) as [|[current d] rest]; [done|]. case_match; [done|].
  rewrite (table_scan_tree db schema (str "edges") t Hdb Htable). destruct Htable as (_ & _ & _ & Ht & Hd & _).
  destruct (new_scanner_tree db t Ht Hd) as (sc & _ & Hsc & _). rewrite Hsc. by rewrite expand_table.
Qed.

Lemma edges_length : Z.of_nat (length es) <= 2 ^ 1024 + 1.
Proof.
  destruct Htable as (_ & _ & _ & Ht & Hd & _). etransitivity; [|by apply (visible_length db t)].
  clear -Hes. revert es Hes. induction (visible (leaves t)) as [|row l IH]; intros es; cbn; [by intros [= <-]|].
  intros (e & _ & (es1 & Hes1 & [= <-])%obind_ok)%obind_ok. specialize (IH _ Hes1). destruct e; cbn; lia.
Qed.

(** What the walk reports. *)
Definition walk_reports (start : list Z) (max_depth : Z) (hops : list GraphWalkHop) : Prop :=
  NoDup (start :: (hop_entity <$> hops)) /\
  (forall h, h ∈ hops -> path es start (hop_depth h) (hop_entity h) /\ 1 <= hop_depth h <= max_depth) /\
  (2 * Z.of_nat (length es) < max_depth -> forall n x, path es start n x -> x ∈ start :: (hop_entity <$> hops)).

Lemma walk_table start max_depth :
  0 < max_depth ->
  exists w, iter_pos SCAN_FUEL (walk_step db max_depth) (mkWalk [start] [] [(start, 0)]) = Ok (inr w) /\ walk_reports start max_depth (result w).
Proof.
  intros Hmax. set (Inv := fun w => walk_ok es start max_depth w /\ (2 * Z.of_nat (length es) < max_depth -> closed es w)).
  destruct (iter_pos_run (E := Error) (walk_step db max_depth) Inv (rounds_left es) SCAN_FUEL (mkWalk [start] [] [(start, 0)]))
    as [(w & _ & [Hw _] & Hm)|(w & r & [Hw Hcl] & Hr & ->)].
  - intros w [Hw Hcl]. exists (walk_round es max_depth w). split; [apply step_round|]. intros w' Hr.
    split; [split|]; [by eapply round_ok|intros Hb; eapply round_closed; eauto|by eapply round_decreases].
  - split; [split; cbn|].
    + done.
    + apply NoDup_singleton.
    + intros n d [= -> ->]%list_elem_of_singleton. split; [by left|]. split; [constructor|lia].
    + by intros h ?%elem_of_nil.
    + intros n ->%list_elem_of_singleton. by left.
    + intros _ n ->%list_elem_of_singleton. left. exists 0. by left.
  - exfalso. pose proof (visited_bound es start max_depth w Hw) as Hv. pose proof edges_length as He. unfold rounds_left in Hm. cbn in Hm.
    assert (4 * (2 ^ 1024 + 1) + 1 < Z.pos SCAN_FUEL) by (apply Z.ltb_lt; vm_compute; done). lia.
  - rewrite step_round in Hr. injection Hr as Hr. unfold walk_round in Hr. destruct (frontier w) as [|[c d] rest] eqn:Hf.
    2: { by case_match. }
    injection Hr as <-. exists w. split; [done|]. pose proof (ok_visited _ _ _ _ Hw) as Hv. split; [rewrite <- Hv; apply Hw|]. split; [apply Hw|].
    intros Hb n x Hp. rewrite <- Hv. apply (closed_reaches es start w (Hcl Hb) Hf) with n; [rewrite Hv; by left|done].
Qed.
End table.

(** C32: The graph walk over a well-formed table of edges ends.  It reports no
    entity twice and not the start; each entity it reports is reached by as many
    active edges as its depth, at most [max_depth]; and when [max_depth] exceeds
    twice the number of active edges, it reports every entity that is
    connected to the start. *)
Theorem graph_walk_spec (b : SafeSqliteBuffer) (db : SqliteDb) (schema t : tree) (es : list (list Z * list Z)) (start : list Z) (max_depth : Z) :
  valid b = true -> bytes_mem (data b) -> open (loaded b) = Ok db -> table_tree db schema (str "edges") t ->
  edges_of (visible (leaves t)) = Ok es -> 0 < max_depth ->
  exists hops, sqlite_graph_walk b start max_depth = Ok hops /\ walk_reports es start max_depth hops.
Proof.
  intros Hv Hb Ho Ht Hes Hmax. pose proof (open_db_ok (loaded b) db Hb Ho) as Hdb.
  destruct (walk_table db schema t es Hdb Ht Hes start max_depth Hmax) as (w & Hw & Hr). exists (result w). split; [|done].
  unfold sqlite_graph_walk. rewrite (proj2 (Z.eqb_neq _ _)) by lia. unfold open_db. rewrite Hv. cbn [negb]. rewrite Ho. cbn [obind].
  by rewrite Hw.
Qed.

Definition example_edges : list (list Z * list Z) := [(str "ada", str "bob"); (str "bob", str "cyd")].

Lemma graph_walk_spec_witness :
  exists hops, sqlite_graph_walk (mkBuffer example_mem 2560 true (fun _ => 0)) (str "ada") 8 = Ok hops /\
    walk_reports example_edges (str "ada") 8 hops.
Proof.
  refine (graph_walk_spec (mkBuffer example_mem 2560 true (fun _ => 0)) example_db schema_tree edges_tree example_edges (str "ada") 8
    eq_refl example_bytes_mem example_open example_edges_table _ _).
  - vm_compute. reflexivity.
  - reflexivity.
Defined.
