(* ===== verification/SqlAppend.v ===== *)
(** Changing a leaf: what the reader finds on a page whose bytes change, then the
    effect of appending a cell in place. *)

From Stdlib Require Import String.
From S2P Require Import Prelude Bytes Slice SqliteDb SqlWrite SqlTables SqliteRow SqliteScanThm SqliteTree.

(** Pages of a database that changes: what the reader finds on a page depends on
    its header, its pointer array and the bytes of its cells only. *)

Open Scope kernel_scope.

(** ** Slices that agree on a range *)

Definition same_on (s s' : slice) (lo hi : Z) : Prop :=
  sl_len s = sl_len s' /\ forall i, lo <= i < hi -> 0 <= i < sl_len s -> sl_mem s (sl_off s + i) = sl_mem s' (sl_off s' + i).

Lemma same_on_weaken s s' lo hi lo' hi' : same_on s s' lo hi -> lo <= lo' -> hi' <= hi -> same_on s s' lo' hi'.
Proof. intros [Hl Hs] H1 H2. split; [done|]. intros i Hi. apply Hs. lia. Qed.

Lemma same_on_equiv s s' : same_on s s' 0 (sl_len s) -> s ≡ s'.
Proof.
  intros [Hl Hs]. split; [|done]. unfold bytes_of. rewrite <- Hl. unfold range. apply list_eq. intros i. rewrite !list_lookup_fmap.
  destruct (decide (Z.of_nat i < sl_len s)) as [Hi|Hi]; [|by rewrite !lookup_seqZ_ge by lia].
  rewrite !lookup_seqZ_lt by lia. cbn. f_equal. apply Hs; lia.
Qed.

(** [s\[a..\]] of both. *)
Lemma from_same {E} s s' a lo hi t :
  same_on s s' lo hi -> from (E := E) s a = Ok t -> exists t', from (E := E) s' a = Ok t' /\ same_on t t' (lo - a) (hi - a).
Proof.
  intros [Hl Hs]. unfold from, sub. rewrite <- Hl. case_match eqn:Hc; [|done]. intros [= <-]. bool_prop. eexists. split; [done|].
  split; [done|]. cbn. intros i Hi Hi'. rewrite <- !Z.add_assoc. apply Hs; lia.
Qed.

Lemma from_same_panic {E} s s' a lo hi : same_on s s' lo hi -> from (E := E) s a = Panic -> from (E := E) s' a = Panic.
Proof. intros [Hl _]. unfold from, sub. rewrite <- Hl. by case_match. Qed.

(** A cell whose bytes agree. *)
Lemma from_same_equiv {E} s s' a t lo hi :
  same_on s s' lo hi -> lo <= a -> sl_len s <= hi -> from (E := E) s a = Ok t -> exists t', from (E := E) s' a = Ok t' /\ t ≡ t'.
Proof.
  intros Hs Ha Hh Ht. destruct (from_same s s' a lo hi t Hs Ht) as (t' & Ht' & Hst). exists t'. split; [done|].
  apply same_on_equiv. apply (same_on_weaken _ _ _ _ 0 (sl_len t) Hst); [lia|].
  unfold from, sub in Ht. case_match; [|done]. injection Ht as <-. cbn. lia.
Qed.

Lemma index_same {E} s s' i lo hi : same_on s s' lo hi -> lo <= i < hi -> index (E := E) s i = index s' i.
Proof. intros [Hl Hs] Hi. unfold index. rewrite <- Hl. case_match eqn:Hc; [|done]. bool_prop. f_equal. apply Hs; lia. Qed.

Lemma be_at_same {E} n s s' i lo hi : same_on s s' lo hi -> lo <= i -> i + Z.of_nat n <= hi -> be_at (E := E) n s i = be_at n s' i.
Proof.
  intros [Hl Hs] H1 H2. unfold be_at, sub. rewrite <- Hl. case_match eqn:Hc; [|done]. bool_prop. cbn. do 2 f_equal.
  unfold bytes_of. cbn. unfold range. apply list_eq. intros k. rewrite !list_lookup_fmap.
  destruct (decide (Z.of_nat k < i + Z.of_nat n - i)) as [Hk|Hk]; [|by rewrite !lookup_seqZ_ge by lia].
  rewrite !lookup_seqZ_lt by lia. cbn. f_equal. rewrite <- !Z.add_assoc. apply Hs; lia.
Qed.

(** ** Headers and pointers *)

Lemma parse_page_header_same s s' off : same_on s s' off (off + 12) -> parse_page_header s off = parse_page_header s' off.
Proof.
  intros Hs. unfold parse_page_header. rewrite <- (proj1 Hs). case_match; [done|].
  destruct (from (E := Error) s off) as [t|e|] eqn:Ht.
  - destruct (from_same s s' off _ _ t Hs Ht) as (t' & Ht' & Hst). rewrite Ht'. cbn [obind].
    rewrite Z.sub_diag, Z.add_simpl_l in Hst.
    rewrite (index_same t t' 0 0 12 Hst), (index_same t t' 7 0 12 Hst), !(be_at_same 2 t t' _ 0 12 Hst), (be_at_same 4 t t' 8 0 12 Hst) by lia.
    by rewrite <- (proj1 Hst).
  - unfold from, sub in Ht. by case_match.
  - by rewrite (from_same_panic s s' off _ _ Hs Ht).
Qed.

Lemma cell_pointer_same s s' h h' off n hi :
  header_size h = header_size h' -> n < cell_count h -> n < cell_count h' -> 0 <= n ->
  same_on s s' (off + header_size h) hi -> off + header_size h + 2 * n + 2 <= hi ->
  cell_pointer s h off n = cell_pointer s' h' off n.
Proof.
  intros Hh Hn Hn' H0 Hs Hhi. unfold cell_pointer. rewrite <- Hh, !(proj2 (Z.ltb_lt _ _)) by done.
  by rewrite (be_at_same 2 s s' _ _ _ Hs) by (change (Z.of_nat 2) with 2; lia).
Qed.

Lemma left_child_rel s s' o lo hi c :
  same_on s s' lo hi -> lo <= o -> sl_len s <= hi -> left_child s o = Ok c -> left_child s' o = Ok c.
Proof.
  intros Hs Ho Hh. unfold left_child. destruct (from (E := Error) s o) as [t|e|] eqn:Ht; cbn [obind]; [|done..].
  destruct (from_same_equiv s s' o t lo hi Hs Ho Hh Ht) as (t' & -> & Heq). cbn [obind]. rewrite <- (proj2 Heq). case_match; [done|]. by rewrite Heq.
Qed.

(** ** Cells *)

Definition same_record (r r' : Record_) : Prop := row_of r = row_of r'.

Lemma count_columns_rel fuel s s' pos n : s ≡ s' -> count_columns fuel s pos n = count_columns fuel s' pos n.
Proof.
  intros Hs. revert pos n. induction fuel as [|fuel IH]; intros pos n; cbn [count_columns]; rewrite <- (proj2 Hs); [done|]. case_match; [|done].
  destruct (from_rel (E := Error) s s' pos Hs) as [t t' Ht|e|]; cbn [obind]; [|done..]. rewrite Ht. destruct (decode_varint t') as [[]|e|]; cbn; auto.
Qed.

Lemma parse_record_rel id s s' : s ≡ s' -> outcome_rel same_record (parse_record id s) (parse_record id s').
Proof.
  intros Hs. unfold parse_record. rewrite <- (proj2 Hs). case_match; [constructor|]. rewrite Hs.
  destruct (decode_varint s') as [[h n]|e|]; cbn [obind]; [|constructor..]. case_match; [constructor|].
  eapply obind_rel; [by apply sub_rel|]. intros t t' Ht. eapply obind_rel; [by apply from_rel|]. intros v v' Hv.
  rewrite <- (proj2 Ht), (count_columns_rel _ t t' _ _ Ht). destruct (count_columns _ t' 0 0); cbn; constructor.
  unfold same_record, row_of. cbn. by rewrite (proj1 Ht), (proj1 Hv).
Qed.

Lemma parse_leaf_cell_rel s s' o t t' :
  from (E := Error) s o = Ok t -> from (E := Error) s' o = Ok t' -> t ≡ t' ->
  outcome_rel same_record (parse_leaf_cell s o) (parse_leaf_cell s' o).
Proof.
  intros Ht Ht' Heq. unfold parse_leaf_cell. rewrite Ht, Ht'. cbn [obind]. rewrite Heq.
  destruct (decode_varint t') as [[p n]|e|]; cbn [obind]; [|constructor..].
  eapply obind_rel; [by apply from_rel|]. intros a a' Ha. rewrite Ha. destruct (decode_varint a') as [[id m]|e|]; cbn [obind]; [|constructor..].
  rewrite <- (proj2 Heq). case_match; [case_match; [constructor|]|]; (eapply obind_rel; [first [by apply from_rel|by apply sub_rel]|]);
    intros x x' Hx; by apply parse_record_rel.
Qed.

(** ** Databases of the same shape *)

Definition alike (db db' : SqliteDb) : Prop :=
  page_size (db_header db) = page_size (db_header db') /\ db_size_pages (db_header db) = db_size_pages (db_header db') /\
  sl_len (db_data db) = sl_len (db_data db') /\ sl_off (db_data db) = sl_off (db_data db').

(** The pages [q] of both agree on a range of offsets. *)
Definition page_same (db db' : SqliteDb) (q lo hi : Z) : Prop :=
  forall i, lo <= i < hi -> let a := sl_off (db_data db) + (q - 1) * page_size (db_header db) + i in
    sl_mem (db_data db) a = sl_mem (db_data db') a.

Section alike.
Context (db db' : SqliteDb) (Halike : alike db db').

Lemma db_page_same q s lo hi :
  page_same db db' q lo hi -> db_page db q = Ok s -> exists s', db_page db' q = Ok s' /\ same_on s s' lo hi.
Proof.
  intros Hq. destruct Halike as (H1 & H2 & H3 & H4). unfold db_page. rewrite <- H1, <- H2, <- H3. repeat case_match; try done.
  unfold sub. rewrite <- H3. case_match; [|done]. intros [= <-]. eexists. split; [done|]. split; [done|]. cbn. intros i Hi _.
  rewrite <- H4. by apply Hq.
Qed.

Lemma page_at_same q s h lo hi :
  page_same db db' q lo hi -> page_at db q = Ok (s, h) -> lo <= header_offset q -> header_offset q + 12 <= hi ->
  exists s', page_at db' q = Ok (s', h) /\ same_on s s' lo hi.
Proof.
  intros Hq Hp Hlo Hhi. unfold page_at in *. destruct (db_page db q) as [p|e|] eqn:Hdb; [|done..]. cbn [obind] in Hp.
  destruct (db_page_same q p lo hi Hq Hdb) as (p' & -> & Hs). cbn [obind].
  rewrite <- (parse_page_header_same p p') by (eapply same_on_weaken; [done|lia..]).
  destruct (parse_page_header p (header_offset q)); cbn in Hp |- *; [|done..]. injection Hp as <- <-. by exists p'.
Qed.
End alike.

(** ** Trees *)

Fixpoint pages (t : tree) : list Z :=
  match t with
  | Leaf p _ => [p]
  | Node p cells last => p :: concat (map pages cells) ++ pages last
  end.

Lemma db_page_len db q s : db_page db q = Ok s -> sl_len s = page_size (db_header db).
Proof. unfold db_page. repeat case_match; try done. unfold sub. case_match; [|done]. intros [= <-]. cbn. lia. Qed.

Lemma page_at_len db q s h : page_at db q = Ok (s, h) -> sl_len s = page_size (db_header db).
Proof.
  unfold page_at. intros (p & Hp & H)%obind_ok. apply obind_ok in H as (h' & _ & [= <- <-]). by eapply db_page_len.
Qed.

(** Every cell of the page starts at [lo] or later. *)
Definition cells_from (db : SqliteDb) (q lo : Z) : Prop :=
  forall s h i o, page_at db q = Ok (s, h) -> 0 <= i < cell_count h -> cell_pointer s h (header_offset q) i = Ok (Some o) -> lo <= o.

Section frame.
Context (db db' : SqliteDb) (Halike : alike db db') (Hps : 112 <= page_size (db_header db)).

Lemma header_offset_bound q : 0 <= header_offset q <= 100.
Proof. unfold header_offset. case_match; lia. Qed.

(** Cell [i] of a leaf, when its pointer and its bytes are unchanged. *)
Lemma current_row_same q i s h s' h' o lo r :
  page_at db q = Ok (s, h) -> page_at db' q = Ok (s', h') -> page_type h' = page_type h ->
  cell_pointer s h (header_offset q) i = Ok (Some o) -> cell_pointer s' h' (header_offset q) i = Ok (Some o) ->
  same_on s s' lo (sl_len s) -> lo <= o -> current_row db q i = Ok (Some r) ->
  exists r', current_row db' q i = Ok (Some r') /\ row_of r' = row_of r.
Proof.
  intros Hp Hp' Ht Hc Hc' Hs Ho. unfold current_row. rewrite Hp, Hp'. cbn [obind]. rewrite Ht. case_match; [done|].
  rewrite Hc, Hc'. cbn [obind]. destruct (from (E := Error) s o) as [t|e|] eqn:Hf.
  - destruct (from_same_equiv s s' o t lo (sl_len s) Hs Ho ltac:(lia) Hf) as (t' & Hf' & Heq).
    destruct (parse_leaf_cell_rel s s' o t t' Hf Hf' Heq) as [a b Hab|e|]; cbn; intros [= <-]. by exists b.
  - unfold parse_leaf_cell. rewrite Hf. done.
  - unfold parse_leaf_cell. rewrite Hf. done.
Qed.

(** The page is unchanged from [lo] on, its header and its cells included. *)
Definition page_kept (q : Z) : Prop :=
  exists lo, 0 <= lo <= header_offset q /\ page_same db db' q lo (page_size (db_header db)) /\ cells_from db q lo.

Lemma page_kept_at q s h :
  page_kept q -> page_at db q = Ok (s, h) ->
  exists s' lo, page_at db' q = Ok (s', h) /\ same_on s s' lo (sl_len s) /\ 0 <= lo <= header_offset q /\ cells_from db q lo.
Proof.
  intros (lo & Hlo & Hq & Hc) Hp. pose proof (header_offset_bound q).
  destruct (page_at_same db db' Halike q s h lo _ Hq Hp) as (s' & Hp' & Hs); [lia..|].
  exists s', lo. rewrite (page_at_len _ _ _ _ Hp). done.
Qed.

Lemma cell_pointer_kept s s' h q i lo o :
  page_at db q = Ok (s, h) -> same_on s s' lo (sl_len s) -> 0 <= lo <= header_offset q -> 0 <= i < cell_count h ->
  cell_pointer s h (header_offset q) i = Ok (Some o) -> cell_pointer s' h (header_offset q) i = Ok (Some o).
Proof.
  intros Hp Hs Hlo Hi Hc. rewrite <- Hc. symmetry. pose proof (header_offset_bound q).
  assert (0 <= header_size h) by (unfold header_size; case_match; lia).
  apply (cell_pointer_same s s' h h (header_offset q) i (sl_len s)); [done|lia..|by eapply same_on_weaken; [done|lia..]|].
  unfold cell_pointer in Hc. rewrite (proj2 (Z.ltb_lt _ _)) in Hc by lia. apply obind_ok in Hc as (x & Hx & _).
  unfold be_at, sub in Hx. case_match eqn:Hb; [|done]. bool_prop. lia.
Qed.

Lemma leaf_page_kept q rows : page_kept q -> leaf_page db q rows -> leaf_page db' q rows.
Proof.
  intros Hk (s & h & Hp & Ht & Hc & Hmax & Hrows). destruct (page_kept_at q s h Hk Hp) as (s' & lo & Hp' & Hs & Hlo & Hcf).
  exists s', h. repeat split; [done..|]. intros i row Hi. destruct (Hrows i row Hi) as (r & Hr & <-).
  assert (0 <= Z.of_nat i < cell_count h) as Hb by (apply lookup_lt_Some in Hi; lia).
  assert (exists o, cell_pointer s h (header_offset q) (Z.of_nat i) = Ok (Some o)) as [o Ho].
  { unfold current_row in Hr. rewrite Hp in Hr. cbn [obind] in Hr. case_match; [done|]. apply obind_ok in Hr as ([o|] & Ho & Hr); [by exists o|done]. }
  pose proof (cell_pointer_kept s s' h q (Z.of_nat i) lo o Hp Hs Hlo Hb Ho) as Ho'.
  destruct (current_row_same q (Z.of_nat i) s h s' h o lo r Hp Hp' eq_refl Ho Ho' Hs (Hcf _ _ _ _ Hp Hb Ho) Hr) as (r' & Hr' & E). by exists r'.
Qed.

Lemma node_page_kept q cs right : page_kept q -> node_page db q cs right -> node_page db' q cs right.
Proof.
  intros Hk (s & h & Hp & Ht & Hc & Hmax & Hright & Hcs). destruct (page_kept_at q s h Hk Hp) as (s' & lo & Hp' & Hs & Hlo & Hcf).
  exists s', h. repeat split; [done..|]. intros i c Hi. destruct (Hcs i c Hi) as (o & Ho & Hl).
  assert (0 <= Z.of_nat i < cell_count h) as Hb by (apply lookup_lt_Some in Hi; lia).
  exists o. split; [by eapply cell_pointer_kept|]. eapply left_child_rel; [exact Hs|exact (Hcf _ _ _ _ Hp Hb Ho)|lia|done].
Qed.

Lemma tree_at_kept t : Forall page_kept (pages t) -> tree_at db t -> tree_at db' t.
Proof.
  induction t as [p rows|p cells last IHc IHl] using tree_rect'; cbn [pages tree_at].
  - intros [Hk _]%Forall_cons_1 Hl. exact (leaf_page_kept p rows Hk Hl).
  - intros [Hp [Hcs Hl]%Forall_app]%Forall_cons (Hn & Hch & Ht). split; [exact (node_page_kept p _ _ Hp Hn)|]. split; [|auto].
    clear Hn Hl IHl Ht. induction IHc as [|c cells Hc _ IH]; cbn in *; [done|]. apply Forall_app in Hcs as [H1 H2].
    destruct Hch as [H3 H4]. split; auto.
Qed.
End frame.

(** Appending a cell to a leaf in place: the bytes of the buffer afterwards, and
    the page the reader finds. *)

(** ** The database of a buffer *)

Lemma open_inv s db : open s = Ok db -> db_data db = s /\ parse_db_header s = Ok (db_header db).
Proof. unfold open. intros (h & Hh & [= <-])%obind_ok. done. Qed.

(** The header fields the reader of tables uses. *)
Lemma parse_db_header_fields s h :
  parse_db_header s = Ok h ->
  100 <= sl_len s /\ 512 <= page_size h /\ index (E := Error) s 20 = Ok (reserved_bytes h) /\
  exists n, be_at (E := Error) 4 s 28 = Ok n /\ (n <> 0 -> db_size_pages h = n).
Proof.
  unfold parse_db_header. case_match eqn:Hlen; [done|]. bool_prop. intros (m & _ & H0)%obind_ok. case_match; [done|].
  apply obind_ok in H0 as (ps & _ & H0). case_match eqn:Hps; [done|].
  apply obind_ok in H0 as (n & Hn & H0). do 2 apply obind_ok in H0 as (? & _ & H0). apply obind_ok in H0 as (res & Hres & H0).
  repeat (apply obind_ok in H0 as (? & _ & H0)). injection H0 as <-. cbn [page_size reserved_bytes db_size_pages].
  apply orb_false_iff in Hps as [Hps _]. bool_prop. split; [done|]. split; [done|]. split; [done|]. exists n. split; [done|].
  intros Hn0. by rewrite (proj2 (Z.eqb_neq _ _)).
Qed.

(** Bytes 24 to 27, the change counter, do not matter to it. *)
Lemma parse_db_header_same s s' h :
  same_on s s' 0 24 -> same_on s s' 28 100 -> parse_db_header s = Ok h ->
  exists h', parse_db_header s' = Ok h' /\ page_size h' = page_size h /\ db_size_pages h' = db_size_pages h /\ reserved_bytes h' = reserved_bytes h.
Proof.
  intros H1 H2. pose proof (proj1 H1) as Hl. unfold parse_db_header. rewrite <- Hl. case_match eqn:Hlen; [done|]. bool_prop.
  assert (sub (E := Error) s 0 16 = Ok (mkSlice (sl_mem s) (sl_off s + 0) (16 - 0))) as -> by (apply sub_ok; lia).
  assert (sub (E := Error) s' 0 16 = Ok (mkSlice (sl_mem s') (sl_off s' + 0) (16 - 0))) as -> by (apply sub_ok; lia). cbn [obind].
  assert (bytes_of (mkSlice (sl_mem s) (sl_off s + 0) (16 - 0)) = bytes_of (mkSlice (sl_mem s') (sl_off s' + 0) (16 - 0))) as ->.
  { apply (same_on_equiv (mkSlice _ _ _) (mkSlice _ _ _)). split; [done|]. cbn. intros i Hi _. rewrite !Z.add_0_r. apply H1; lia. }
  case_match; [done|].
  assert (be_at (E := Error) 4 s' 24 = Ok (from_be_bytes (range (sl_mem s') (sl_off s' + 24) 4))) as -> by (apply be_at_ok; lia).
  rewrite (be_at_same 2 s s' 16 _ _ H1) by lia.
  rewrite (be_at_same 4 s s' 28 _ _ H2), (be_at_same 4 s s' 32 _ _ H2), (be_at_same 4 s s' 36 _ _ H2), (be_at_same 4 s s' 40 _ _ H2), (be_at_same 4 s s' 44 _ _ H2), (be_at_same 4 s s' 48 _ _ H2), (be_at_same 4 s s' 52 _ _ H2), 
    (be_at_same 4 s s' 56 _ _ H2), (be_at_same 4 s s' 60 _ _ H2), (be_at_same 4 s s' 64 _ _ H2), (be_at_same 4 s s' 68 _ _ H2), (be_at_same 4 s s' 92 _ _ H2), (be_at_same 4 s s' 96 _ _ H2) by lia.
  rewrite (index_same s s' 18 _ _ H1), (index_same s s' 19 _ _ H1), (index_same s s' 20 _ _ H1), (index_same s s' 21 _ _ H1), (index_same s s' 22 _ _ H1), (index_same s s' 23 _ _ H1) by lia.
  intros (ps & -> & H3)%obind_ok. cbn [obind]. case_match; [done|].
  apply obind_ok in H3 as (n & -> & H3). cbn [obind].
  do 6 (apply obind_ok in H3 as (? & -> & H3); cbn [obind]). apply obind_ok in H3 as (? & _ & H3).
  repeat (apply obind_ok in H3 as (? & -> & H3); cbn [obind]). injection H3 as <-. eexists. split; [done|]. cbn. done.
Qed.

(** ** Writes in bounds *)

Lemma write_slice_ok {R} off l b :
  off + Z.of_nat (length l) <= MAX_DB_SIZE ->
  exists b', ignore_err (R := R) (write_slice off l) b = (b', Ok tt) /\ data b' = blit (data b) off l /\ size b' = size b /\ valid b' = valid b.
Proof.
  intros Hm. unfold ignore_err, write_slice, checked_add. rewrite (proj2 (Z.ltb_lt _ _)) by (unfold MAX_DB_SIZE in *; lia). cbn.
  rewrite (proj2 (Z.ltb_ge _ _)) by done. by eexists.
Qed.

Lemma increment_data b :
  data (increment_change_counter b) = blit (data b) 24 (be_bytes 4 (u32 (from_be_bytes (range (data b) 24 4) + 1))) /\
  size (increment_change_counter b) = size b /\ valid (increment_change_counter b) = valid b.
Proof. unfold increment_change_counter, mark_page_dirty. by case_match. Qed.

Lemma mark_data p b : data (mark_page_dirty p b) = data b /\ size (mark_page_dirty p b) = size b /\ valid (mark_page_dirty p b) = valid b.
Proof. unfold mark_page_dirty. by case_match. Qed.

(** ** The append *)

(** The bytes after a cell has been put in front of the content of the leaf. *)
Definition appended (base count new : Z) (cell : list Z) (cc : Z) (m : mem) : mem :=
  blit (blit (blit (blit (blit m (base + new) cell) (base + 8 + count * 2) (be_bytes 2 new)) (base + 3) (be_bytes 2 (count + 1)))
    (base + 5) (be_bytes 2 new)) 24 (be_bytes 4 cc).

Lemma append_cell_inplace {R} (t : Target) (cell : list Z) (free : Z) (b : SafeSqliteBuffer) :
  let base := (t_leaf t - 1) * t_page_size t in
  let new := t_content t - Z.of_nat (length cell) in
  t_leaf t <> 1 -> 0 <= base -> 0 < t_page_size t <= 65536 -> 0 <= t_count t < 65535 -> 8 + t_count t * 2 + 2 <= new -> new < 65536 ->
  t_content t <= t_page_size t -> base + t_page_size t <= MAX_DB_SIZE -> Z.of_nat (length cell) + 2 <= free ->
  exists b' cc, append_cell (R := R) t cell free b = (b', Ok true) /\ data b' = appended base (t_count t) new cell cc (data b) /\
    size b' = size b /\ valid b' = valid b.
Proof.
  intros base new Hp Hb Hps Hc Hnew Hnew' Hcont Hmax Hfree. unfold append_cell, leaf_hdr, header_offset.
  rewrite (proj2 (Z.eqb_neq (t_leaf t) 1)) by done. rewrite !Z.add_0_r. fold base. rewrite (proj2 (Z.ltb_ge _ _)) by lia.
  assert (u64 (t_content t - Z.of_nat (length cell)) = new) as -> by (apply wrap_small; split; unfold MAX_DB_SIZE in *; lia).
  assert (u64 (base + new) = base + new) as -> by (apply wrap_small; split; unfold MAX_DB_SIZE in *; lia).
  assert (u16 new = new) as -> by (apply wrap_small; split; lia).
  assert (u16 (t_count t + 1) = t_count t + 1) as -> by (apply wrap_small; split; lia).
  unfold write_be_u16, M_bind.
  destruct (write_slice_ok (R := R) (base + new) cell b) as (b1 & -> & D1 & S1 & V1); [lia|].
  destruct (write_slice_ok (R := R) (base + 8 + t_count t * 2) (be_bytes 2 new) b1) as (b2 & -> & D2 & S2 & V2); [rewrite be_bytes_length; lia|].
  destruct (write_slice_ok (R := R) (base + 3) (be_bytes 2 (t_count t + 1)) b2) as (b3 & -> & D3 & S3 & V3); [rewrite be_bytes_length; lia|].
  destruct (write_slice_ok (R := R) (base + 5) (be_bytes 2 new) b3) as (b4 & -> & D4 & S4 & V4); [rewrite be_bytes_length; lia|].
  cbn. destruct (increment_data b4) as (D5 & S5 & V5). destruct (mark_data (t_leaf t - 1) (increment_change_counter b4)) as (D6 & S6 & V6).
  eexists _, _. split; [done|]. split; [|split; congruence]. rewrite D6, D5, D4, D3, D2, D1. done.
Qed.

(** ** The bytes afterwards *)

Section bytes.
Context (base count new cc : Z) (cell : list Z) (m : mem).
Context (Hbase : 28 <= base) (Hcount : 0 <= count) (Hnew : 8 + count * 2 + 2 <= new).

Lemma appended_other i :
  (i < 24 \/ 28 <= i) -> (i < base + 3 \/ base + 7 <= i) -> (i < base + 8 + count * 2 \/ base + 8 + count * 2 + 2 <= i) ->
  (i < base + new \/ base + new + Z.of_nat (length cell) <= i) -> appended base count new cell cc m i = m i.
Proof. intros H1 H2 H3 H4. unfold appended. by rewrite !blit_outside by (rewrite ?be_bytes_length; lia). Qed.

Lemma appended_cell : range (appended base count new cell cc m) (base + new) (Z.of_nat (length cell)) = cell.
Proof.
  unfold appended. rewrite !(range_blit_other _ _ (be_bytes _ _)) by (rewrite be_bytes_length; lia). by apply range_blit_same.
Qed.

Lemma appended_pointer : range (appended base count new cell cc m) (base + 8 + count * 2) 2 = be_bytes 2 new.
Proof.
  unfold appended. rewrite 3!(range_blit_other _ _ (be_bytes _ _)) by (rewrite be_bytes_length; lia). apply range_blit_same. by rewrite be_bytes_length.
Qed.

Lemma appended_count : range (appended base count new cell cc m) (base + 3) 2 = be_bytes 2 (count + 1).
Proof.
  unfold appended. rewrite 2!(range_blit_other _ _ (be_bytes _ _)) by (rewrite be_bytes_length; lia). apply range_blit_same. by rewrite be_bytes_length.
Qed.

Lemma appended_content : range (appended base count new cell cc m) (base + 5) 2 = be_bytes 2 new.
Proof.
  unfold appended. rewrite (range_blit_other _ _ (be_bytes _ _)) by (rewrite be_bytes_length; lia). apply range_blit_same. by rewrite be_bytes_length.
Qed.
End bytes.

(** The header of a leaf whose cell count and content start have changed. *)
Lemma parse_leaf_header_changed s s' h c k :
  12 <= sl_len s -> parse_page_header s 0 = Ok h -> page_type h = LeafTable -> same_on s s' 0 3 -> same_on s s' 7 8 ->
  be_at (E := Error) 2 s' 3 = Ok c -> be_at (E := Error) 2 s' 5 = Ok k ->
  parse_page_header s' 0 = Ok (mkPageHeader LeafTable (first_freeblock h) c k (fragmented_bytes h) None).
Proof.
  intros Hlen Hh Ht H1 H2 Hc Hk. pose proof (proj1 H1) as Hl. unfold parse_page_header in *. rewrite <- Hl.
  assert (forall s, 12 <= sl_len s -> from (E := Error) s 0 = Ok (mkSlice (sl_mem s) (sl_off s + 0) (sl_len s - 0))) as Hfrom by (intros; apply from_ok; lia).
  assert (forall s, mkSlice (sl_mem s) (sl_off s + 0) (sl_len s - 0) = s) as Heta by (intros []; cbn; f_equal; lia).
  rewrite Hfrom, Heta in Hh |- * by lia. cbn [obind] in *. case_match; [done|].
  rewrite <- (index_same s s' 0 _ _ H1), <- (be_at_same 2 s s' 1 _ _ H1), <- (index_same s s' 7 _ _ H2) by lia. rewrite Hc, Hk.
  apply obind_ok in Hh as (b & -> & Hh). apply obind_ok in Hh as (t & Hb & Hh). cbn [obind]. rewrite Hb. cbn [obind].
  apply obind_ok in Hh as (f & -> & Hh). apply obind_ok in Hh as (c0 & _ & Hh). apply obind_ok in Hh as (k0 & _ & Hh).
  apply obind_ok in Hh as (g & -> & Hh). apply obind_ok in Hh as (r & _ & [= <-]). cbn in Ht |- *. by subst t.
Qed.

(** ** The page afterwards *)

(** The cell of a row: sizes in front of the record. *)
Definition cell_of (id : Z) (cols : list column) : list Z :=
  varint_bytes (Z.of_nat (length (payload_of cols))) ++ varint_bytes (u64 id) ++ payload_of cols.

Definition is_i64 (id : Z) : Prop := - 2 ^ 63 <= id < 2 ^ 63.

Lemma i64_u64 id : is_i64 id -> i64 (u64 id) = id.
Proof.
  intros H. unfold i64, u64, is_i64 in *. rewrite Zplus_mod_idemp_l. rewrite Z.mod_small by lia. lia.
Qed.

Lemma payload_length cols : length (payload_of cols) = S (length (types_of cols) + length (values_of cols)).
Proof. unfold payload_of. cbn. by rewrite length_app. Qed.

Lemma parse_cell s o id cols l :
  columns_ok cols -> is_i64 id -> 0 <= o ->
  (exists t, from (E := Error) s o = Ok t /\ bytes_of t = cell_of id cols ++ l) ->
  exists r, parse_leaf_cell s o = Ok r /\ row_of r = row_with id cols.
Proof.
  intros Hc Hid Ho (t & Ht & Hb). pose proof (payload_length cols) as Hpl. destruct Hc as (Hok & Hh & Hv).
  remember (Z.of_nat (length (payload_of cols))) as n eqn:Hneq. assert (0 < n < 2 ^ 62 + 128) as Hn by lia.
  assert (0 <= sl_len t) as Hl0 by (unfold from, sub in Ht; case_match; [|done]; bool_prop; injection Ht as <-; cbn; lia).
  unfold parse_leaf_cell. rewrite Ht. cbn [obind]. unfold cell_of in Hb. rewrite <- Hneq in Hb. rewrite <- !app_assoc in Hb.
  pose proof (starts_with_bytes t _ _ Hl0 Hb) as Hs1. rewrite (decode_varint_bytes t n ltac:(lia) Hs1). cbn [obind]. rewrite i64_below by lia.
  destruct (starts_with_drop t _ _ Hl0 Hb) as (t1 & Ht1 & Hb1 & Hl1). rewrite Ht1. cbn [obind].
  assert (0 <= sl_len t1) as Hl1' by lia. pose proof (starts_with_bytes t1 _ _ Hl1' Hb1) as Hs2.
  assert (0 <= u64 id < 2 ^ 64) as Hu by (apply (wrap_range 64); lia).
  rewrite (decode_varint_bytes t1 (u64 id) Hu Hs2). cbn [obind]. rewrite i64_u64 by done.
  pose proof (varint_bytes_length n ltac:(lia)) as L1. pose proof (varint_bytes_length (u64 id) Hu) as L2.
  set (v1 := varint_bytes n) in *. set (v2 := varint_bytes (u64 id)) in *.
  assert (sl_len t = Z.of_nat (length v1 + length v2) + n + Z.of_nat (length l)) as Hlt.
  { destruct Hs1 as [Hs1 _]. rewrite !length_app in Hl1. unfold from, sub in Ht1. case_match; [|done]. injection Ht1 as <-. cbn [sl_len] in Hl1. lia. }
  rewrite (wrap_small 64 n) by (split; lia). rewrite (wrap_small 64) by (split; lia).
  rewrite (proj2 (Z.ltb_ge _ _)) by lia.
  rewrite sub_ok by lia. cbn [obind]. set (q := mkSlice _ _ _).
  destruct (parse_payload id cols q) as (r & Hr & _ & Hrow); [done|cbn [sl_len q]; lia| |by exists r].
  rewrite app_assoc in Hb. destruct (starts_with_drop t (v1 ++ v2) _ Hl0 Hb) as (t2 & Ht2 & Hb2 & Hl2).
  assert (starts_with t2 (payload_of cols)) as [_ Hpay] by (apply (starts_with_bytes t2 _ l); [lia|done]).
  etransitivity; [|exact Hpay]. unfold from, sub in Ht2. case_match; [|done]. injection Ht2 as <-. unfold bytes_of, q. cbn [sl_mem sl_off sl_len]. rewrite length_app, <- Hneq.
  f_equal; lia.
Qed.

Lemma db_page_loaded b db q s :
  db_data db = loaded b -> db_page db q = Ok s ->
  let ps := page_size (db_header db) in
  s = mkSlice (data b) ((q - 1) * ps) ps /\ 0 <= (q - 1) * ps /\ (q - 1) * ps + ps <= size b /\ q <> 0 /\ q <= db_size_pages (db_header db).
Proof.
  intros Hd. unfold db_page. case_match eqn:Hq; [done|]. apply orb_false_iff in Hq as [Hq1 Hq2]. rewrite Hd. cbn [loaded sl_len].
  case_match eqn:Hend; [done|]. unfold sub. cbn [loaded sl_len sl_mem sl_off]. case_match eqn:Hs; [|done]. intros [= <-]. bool_prop.
  split; [f_equal; lia|]. lia.
Qed.

Lemma db_page_read b db q :
  db_data db = loaded b -> let ps := page_size (db_header db) in
  0 <= ps -> 0 <= (q - 1) * ps -> (q - 1) * ps + ps <= size b -> q <> 0 -> q <= db_size_pages (db_header db) ->
  db_page db q = Ok (mkSlice (data b) ((q - 1) * ps) ps).
Proof.
  intros Hd ps H0 H1 H2 H3 H4. unfold db_page. rewrite (proj2 (Z.eqb_neq _ _)), (proj2 (Z.ltb_ge _ _)) by done. cbn [orb].
  rewrite Hd. cbn [loaded sl_len]. rewrite (proj2 (Z.ltb_ge _ _)) by done. rewrite sub_ok; cbn [loaded sl_len sl_mem sl_off]; [|fold ps; lia..].
  fold ps. do 2 f_equal; lia.
Qed.

Section append.
Context (b b' : SafeSqliteBuffer) (db db' : SqliteDb) (p ps content cc id : Z) (rows : list Row) (cols : list column).
Context (Hd : db_data db = loaded b) (Hd' : db_data db' = loaded b') (Halike : alike db db')
  (Hpsz : page_size (db_header db) = ps) (Hps : 512 <= ps <= 65536) (Hp1 : p <> 1)
  (Hleaf : leaf_page db p rows) (Hcells : cells_from db p content) (Hcontent : content <= ps)
  (Hcols : columns_ok cols) (Hid : is_i64 id).

Let cell := cell_of id cols.
Let count := Z.of_nat (length rows).
Let new := content - Z.of_nat (length cell).
Let base := (p - 1) * ps.

Context (Hroom : 8 + count * 2 + 2 <= new) (Hcount : count < 65535) (Hdata : data b' = appended base count new cell cc (data b)).

Let s := mkSlice (data b) base ps.
Let s' := mkSlice (data b') base ps.

Lemma append_same lo hi : 0 <= lo -> (hi <= 3 \/ 7 <= lo) -> (hi <= 8 + count * 2 \/ content <= lo) -> 28 <= base -> same_on s s' lo hi.
Proof.
  intros Hlo H1 H2 Hb. split; [done|]. intros i Hi _. cbn [s s' sl_mem sl_off]. rewrite Hdata. symmetry.
  apply appended_other; [lia|destruct H1; lia|unfold new in *; destruct H2; lia|unfold new in *; destruct H2; lia].
Qed.

Lemma leaf_appended : leaf_page db' p (rows ++ [row_with id cols]).
Proof.
  destruct Hleaf as (s0 & h & Hp & Ht & Hc & Hmax & Hrows). pose proof Hp as Hpage. unfold page_at in Hpage.
  apply obind_ok in Hpage as (s1 & Hs1 & Hpage). apply obind_ok in Hpage as (h1 & Hh & [= -> ->]).
  destruct (db_page_loaded b db p s0 Hd Hs1) as (E & Hb0 & Hsize & Hp0 & Hpages). rewrite Hpsz in *. fold base in E, Hb0, Hsize. fold s in E. subst s0.
  assert (28 <= base) as Hb28 by (unfold base in *; nia).
  assert (0 <= count) as Hc0 by (unfold count; lia).
  destruct Halike as (A1 & A2 & A3 & A4). rewrite Hd, Hd' in A3. cbn in A3.
  assert (db_page db' p = Ok s') as Hs'.
  { rewrite (db_page_read b' db' p Hd'); rewrite <- ?A1, ?Hpsz, <- ?A2; try done; try (unfold base in *; lia). }
  unfold header_offset in Hh. rewrite (proj2 (Z.eqb_neq p 1)) in Hh by done.
  assert (forall o v, 0 <= o -> o + 2 <= ps -> 0 <= v < 65536 -> range (data b') (base + o) 2 = be_bytes 2 v -> be_at (E := Error) 2 s' o = Ok v) as Hbe.
  { intros o v H1 H2 H3 H4. rewrite be_at_ok by (cbn [s' sl_len]; lia). cbn [s' sl_mem sl_off]. change (Z.of_nat 2) with 2.
    rewrite H4, from_to_be_bytes, Z.mod_small by (change (8 * Z.of_nat 2) with 16; lia). done. }
  assert (new <= ps) as Hnew by (unfold new; lia).
  assert (0 <= new < 65536) as Hnew2 by (unfold new in *; unfold cell, cell_of in *; rewrite !length_app, payload_length in *; lia).
  pose proof (parse_leaf_header_changed s s' h (count + 1) new) as Hh'.
  specialize (Hh' ltac:(cbn [s sl_len]; lia) Hh Ht (append_same 0 3 ltac:(lia) ltac:(lia) ltac:(lia) Hb28) (append_same 7 8 ltac:(lia) ltac:(lia) ltac:(lia) Hb28)).
  specialize (Hh' ltac:(apply Hbe; [lia|lia|lia|rewrite Hdata; by apply appended_count])).
  specialize (Hh' ltac:(apply Hbe; [lia|lia|lia|rewrite Hdata; by apply appended_content])).
  set (h' := mkPageHeader _ _ _ _ _ _) in Hh'.
  assert (page_at db' p = Ok (s', h')) as Hp'.
  { unfold page_at. rewrite Hs'. cbn [obind]. unfold header_offset. rewrite (proj2 (Z.eqb_neq p 1)) by done. by rewrite Hh'. }
  exists s', h'. split; [done|]. split; [done|]. split; [rewrite length_app; cbn; unfold count; lia|].
  split; [rewrite length_app; unfold count in Hcount; cbn; lia|]. intros i row Hi.
  assert (header_offset p = 0) as Hho by (unfold header_offset; by rewrite (proj2 (Z.eqb_neq p 1))).
  apply lookup_app_Some in Hi as [Hi|[Hge Hi]].
  - destruct (Hrows i row Hi) as (r & Hr & <-). assert (Z.of_nat i < count) as Hic by (apply lookup_lt_Some in Hi; unfold count; lia).
    assert (exists o, cell_pointer s h (header_offset p) (Z.of_nat i) = Ok (Some o)) as [o Ho].
    { unfold current_row in Hr. rewrite Hp in Hr. cbn [obind] in Hr. case_match; [done|]. apply obind_ok in Hr as ([o|] & Ho & Hr); [by exists o|done]. }
    apply (current_row_same db db' p (Z.of_nat i) s h s' h' o content r Hp Hp'); [by rewrite Ht|done| |apply append_same; [|right|right|]; unfold new in *; lia| |done].
    + rewrite <- Ho, Hho. symmetry. apply (cell_pointer_same s s' h h' 0 _ (8 + count * 2)); unfold header_size; rewrite ?Ht; cbn [is_leaf h' page_type cell_count];
        [done|lia|unfold h'; cbn; lia|lia|apply append_same; lia|lia].
    + apply (Hcells s h (Z.of_nat i) o Hp); [lia|done].
  - apply list_lookup_singleton_Some in Hi as [Hi <-]. assert (i = length rows) as -> by lia. fold count.
    assert (exists r, parse_leaf_cell s' new = Ok r /\ row_of r = row_with id cols) as (r & Hr & Hrow).
    { apply (parse_cell s' new id cols (range (data b') (base + content) (ps - content))); [done|done|lia|].
      eexists. split; [apply from_ok; cbn [s' sl_len]; lia|]. unfold bytes_of. cbn [s' sl_mem sl_off sl_len].
      replace (ps - new) with (Z.of_nat (length cell) + (ps - content)) by (unfold new; lia). rewrite range_app by lia.
      f_equal; [rewrite Hdata; by apply appended_cell|]. f_equal. unfold new. lia. }
    exists r. split; [|done]. unfold current_row. rewrite Hp'. cbn [obind]. cbn [h' page_type is_leaf is_table negb orb].
    rewrite Hho. unfold cell_pointer. cbn [h' cell_count]. rewrite (proj2 (Z.ltb_lt _ _)) by (unfold h'; cbn; lia).
    assert (be_at (E := Error) 2 s' (0 + 8 + count * 2) = Ok new) as Hptr.
    { apply Hbe; [lia|lia|lia|]. rewrite Hdata. replace (base + (0 + 8 + count * 2)) with (base + 8 + count * 2) by lia. by apply appended_pointer. }
    unfold header_size. cbn [h' page_type is_leaf]. rewrite Hptr. cbn [obind]. by rewrite Hr.
Qed.
End append.
