(* ===== verification/SqlInsertThm.v ===== *)
(** Inserting a file: the row is appended to the table the reader sees. *)

From Stdlib Require Import String.
From S2P Require Import Prelude Bytes Slice SqliteDb SqliteRow SqliteScanThm SqliteTree SqliteThm SqlAppend SqlWrite SqlTables.

Open Scope kernel_scope.

(** ** The last leaf *)

Fixpoint last_page (t : tree) : Z := match t with Leaf p _ => p | Node _ _ last => last_page last end.
Fixpoint last_rows (t : tree) : list Row := match t with Leaf _ rows => rows | Node _ _ last => last_rows last end.
Fixpoint right_depth (t : tree) : nat := match t with Leaf _ _ => 1 | Node _ _ last => S (right_depth last) end.
Fixpoint other_pages (t : tree) : list Z :=
  match t with Leaf _ _ => [] | Node p cells last => p :: concat (map pages cells) ++ other_pages last end.

(** The tree with a row more in its last leaf. *)
Fixpoint append_row (t : tree) (row : Row) : tree :=
  match t with Leaf p rows => Leaf p (rows ++ [row]) | Node p cells last => Node p cells (append_row last row) end.

Lemma pages_last t : pages t = other_pages t ++ [last_page t].
Proof. induction t as [p rows|p cells last _ IH] using tree_rect'; cbn; [done|]. by rewrite IH, app_assoc. Qed.

Lemma page_of_append t row : page_of (append_row t row) = page_of t.
Proof. by destruct t. Qed.

Lemma depth_append t row : depth (append_row t row) = depth t.
Proof. induction t as [p rows|p cells last _ IH] using tree_rect'; cbn; [done|]. by rewrite IH. Qed.

Lemma last_leaf_at db t : tree_at db t -> leaf_page db (last_page t) (last_rows t).
Proof. induction t as [p rows|p cells last _ IH] using tree_rect'; cbn; [done|]. intros (_ & _ & H). auto. Qed.

Lemma tree_at_append db db' t row :
  alike db db' -> 112 <= page_size (db_header db) -> tree_at db t -> Forall (page_kept db db') (other_pages t) ->
  leaf_page db' (last_page t) (last_rows t ++ [row]) -> tree_at db' (append_row t row).
Proof.
  intros Ha Hps. induction t as [p rows|p cells last _ IH] using tree_rect'; cbn; [done|].
  intros (Hn & Hch & Hl) [Hp [Hcs Hlast]%Forall_app]%Forall_cons Hleaf. split; [|split; [|by apply IH]].
  - rewrite page_of_append. by apply (node_page_kept db).
  - clear Hn Hl IH Hlast Hleaf. induction cells as [|c cells IH]; cbn in *; [done|]. apply Forall_app in Hcs as [H1 H2].
    destruct Hch as [H3 H4]. split; [by apply (tree_at_kept db)|auto].
Qed.

(** The rows with one more, when no leaf hides the last one. *)
Lemma visible_append t row : Forall (fun l => l <> []) (removelast (leaves t)) ->
  visible (leaves (append_row t row)) = visible (leaves t) ++ [row].
Proof.
  assert (forall ls l, Forall (fun l => l <> []) ls -> visible (ls ++ [l ++ [row]]) = visible (ls ++ [l]) ++ [row]) as Hv.
  { intros ls l. induction 1 as [|[|x y] ls Hx _ IH]; cbn; [|done|].
    - destruct l; cbn; by rewrite ?app_nil_r.
    - by rewrite IH, app_assoc. }
  assert (exists ls, leaves t = ls ++ [last_rows t] /\ leaves (append_row t row) = ls ++ [last_rows t ++ [row]]) as (ls & -> & ->).
  { induction t as [p rows|p cells last _ IH] using tree_rect'; cbn; [by exists []|].
    destruct IH as (ls & -> & ->). exists (concat (map leaves cells) ++ ls). by rewrite !app_assoc. }
  rewrite removelast_last. apply Hv.
Qed.

(** ** What the service reads from the buffer *)

Section reads.
Context (b : SafeSqliteBuffer) (db : SqliteDb) (Hd : db_data db = loaded b) (Hsize : size b <= MAX_DB_SIZE)
  (Hps : 512 <= page_size (db_header db) <= 65536) (Hpc : page_count b = db_size_pages (db_header db)).

Lemma read_be_page q s n o v :
  db_page db q = Ok s -> 0 <= o -> be_at (E := Error) n s o = Ok v -> read_be n b ((q - 1) * page_size (db_header db) + o) = Ok v.
Proof.
  intros Hp Ho Hv. destruct (db_page_loaded b db q s Hd Hp) as (-> & H0 & H1 & _). unfold be_at, sub in Hv.
  case_match eqn:Hc; [|done]. bool_prop. cbn [sl_len sl_mem sl_off obind] in *. injection Hv as <-. unfold read_be, read_slice, checked_add.
  unfold MAX_DB_SIZE in *. cbn [sl_len] in *.
  rewrite (proj2 (Z.ltb_lt _ _)) by lia. rewrite (proj2 (Z.ltb_ge _ _)) by lia. cbn. do 2 f_equal. unfold bytes_of. cbn. f_equal. lia.
Qed.

Lemma read_byte_page q s o v :
  db_page db q = Ok s -> 0 <= o -> index (E := Error) s o = Ok v -> read_byte b ((q - 1) * page_size (db_header db) + o) = Ok v.
Proof.
  intros Hp Ho Hv. destruct (db_page_loaded b db q s Hd Hp) as (-> & H0 & H1 & _). unfold index in Hv. case_match eqn:Hc; [|done].
  bool_prop. cbn [sl_len sl_mem sl_off] in *. injection Hv as <-. unfold read_byte. by rewrite (proj2 (Z.leb_gt _ _)) by lia.
Qed.

(** The header fields of a page other than the first. *)
Lemma header_reads q s h :
  q <> 1 -> page_at db q = Ok (s, h) ->
  read_byte b ((q - 1) * page_size (db_header db)) = Ok (match page_type h with InteriorIndex => 0x02 | InteriorTable => 0x05 | LeafIndex => 0x0a | LeafTable => 0x0d end) /\
  read_be_u16 b ((q - 1) * page_size (db_header db) + 3) = Ok (cell_count h) /\ read_be_u16 b ((q - 1) * page_size (db_header db) + 5) = Ok (cell_content_start h) /\
  forall r, right_pointer h = Some r -> read_be_u32 b ((q - 1) * page_size (db_header db) + 8) = Ok r.
Proof.
  intros Hq. unfold page_at. intros (s0 & Hp & H)%obind_ok. apply obind_ok in H as (h0 & Hh & [= -> ->]).
  unfold header_offset in Hh. rewrite (proj2 (Z.eqb_neq q 1)) in Hh by done. unfold parse_page_header in Hh. case_match; [done|].
  assert (from (E := Error) s 0 = Ok s) as Hf.
  { destruct (db_page_loaded b db q s Hd Hp) as (-> & _). rewrite from_ok; cbn [sl_len sl_mem sl_off]; [|lia]. do 2 f_equal; lia. }
  rewrite Hf in Hh. cbn [obind] in Hh. apply obind_ok in Hh as (t0 & H0 & Hh). apply obind_ok in Hh as (t & Ht & Hh).
  apply obind_ok in Hh as (ff & _ & Hh). apply obind_ok in Hh as (c & Hc & Hh). apply obind_ok in Hh as (k & Hk & Hh).
  apply obind_ok in Hh as (f & _ & Hh). apply obind_ok in Hh as (r & Hr & [= <-]). cbn [page_type cell_count cell_content_start right_pointer].
  split.
  - rewrite <- (Z.add_0_r ((q - 1) * page_size (db_header db))). rewrite (read_byte_page q s 0 t0 Hp ltac:(lia) H0). f_equal.
    unfold page_type_from_byte in Ht.
    do 4 (match type of Ht with (if ?c then _ else _) = _ => destruct c eqn:E end; [bool_prop; by injection Ht as <-|clear E]). done.
  - split; [by apply (read_be_page q s 2)|]. split; [by apply (read_be_page q s 2)|]. intros r' ->.
    case_match; [|done]. case_match; [done|]. apply obind_ok in Hr as (x & Hx & [= <-]). by apply (read_be_page q s 4).
Qed.

Lemma page_start_page q s : db_page db q = Ok s -> page_start q (page_size (db_header db)) = (q - 1) * page_size (db_header db).
Proof.
  intros Hp. destruct (db_page_loaded b db q s Hd Hp) as (_ & H0 & H1 & _). unfold page_start. apply wrap_small.
  unfold MAX_DB_SIZE in *. split; [done|lia].
Qed.

Lemma page_at_page q s h : page_at db q = Ok (s, h) -> db_page db q = Ok s.
Proof. unfold page_at. intros (s0 & Hp & H)%obind_ok. by apply obind_ok in H as (h0 & Hh & [= -> ->]). Qed.

Lemma rightmost_tree t : tree_at db t -> 1 ∉ pages t -> forall n, (right_depth t <= n)%nat -> rightmost_loop n b (page_of t) (page_size (db_header db)) = last_page t.
Proof.
  induction t as [p rows|p cells last _ IH] using tree_rect'; cbn [tree_at pages right_depth page_of last_page].
  - intros (s & h & Hp & Ht & _) Hn1 n Hn. destruct n as [|n]; [lia|]. cbn [rightmost_loop].
    assert (p <> 1) as Hne by (intros ->; apply Hn1; by left). pose proof (page_at_page _ _ _ Hp) as Hpg.
    destruct (db_page_loaded b db p s Hd Hpg) as (_ & _ & _ & Hp0 & Hpp).
    rewrite (proj2 (Z.eqb_neq _ _)), (proj2 (Z.ltb_ge _ _)) by lia. cbn [orb]. rewrite (page_start_page p s Hpg). unfold header_offset.
    rewrite (proj2 (Z.eqb_neq p 1)) by done. rewrite Z.add_0_r. destruct (header_reads p s h Hne Hp) as (-> & _). by rewrite Ht.
  - intros ((s & h & Hp & Ht & _ & _ & Hr & _) & _ & Hl) Hn1 n Hn. destruct n as [|n]; [lia|]. cbn [rightmost_loop].
    assert (p <> 1) as Hne by (intros ->; apply Hn1; by left). pose proof (page_at_page _ _ _ Hp) as Hpg.
    destruct (db_page_loaded b db p s Hd Hpg) as (_ & _ & _ & Hp0 & Hpp).
    rewrite (proj2 (Z.eqb_neq _ _)), (proj2 (Z.ltb_ge _ _)) by lia. cbn [orb]. rewrite (page_start_page p s Hpg). unfold header_offset.
    rewrite (proj2 (Z.eqb_neq p 1)) by done. rewrite Z.add_0_r. destruct (header_reads p s h Hne Hp) as (-> & _ & _ & Hrp). rewrite Ht.
    cbn [Z.eqb Pos.eqb]. rewrite (Hrp _ Hr). apply IH; [done| |lia]. intros Hin. apply Hn1. right. apply elem_of_app. by right.
Qed.
End reads.

(** ** The row of a file *)

Definition file_columns (name content : list Z) : list column :=
  let n := Z.of_nat (length content) in
  [(0, []); (text_type name, name); (9, []); (pick_integer_type n, encode_integer_value n (pick_integer_type n)); (12 + n * 2, content); (0, [])].

Lemma encode_integer_length v : Z.of_nat (length (encode_integer_value v (pick_integer_type v))) = value_size (pick_integer_type v).
Proof. unfold pick_integer_type. by repeat case_match. Qed.

Lemma pick_integer_range v : 1 <= pick_integer_type v <= 9.
Proof. unfold pick_integer_type. repeat case_match; lia. Qed.

Lemma text_size n : 0 <= n -> value_size (13 + n * 2) = n.
Proof.
  intros Hn. assert (value_size (13 + n * 2) = if (12 <=? 13 + n * 2) && ((13 + n * 2) mod 2 =? 0) then (13 + n * 2 - 12) / 2
    else if (13 <=? 13 + n * 2) && ((13 + n * 2) mod 2 =? 1) then (13 + n * 2 - 13) / 2 else 0) as ->.
  { unfold value_size. repeat (case_match; try done; try lia). }
  rewrite Z.mod_add by lia. change (13 mod 2) with 1. rewrite !(proj2 (Z.leb_le _ _)) by lia. cbn [andb Z.eqb Pos.eqb].
  replace (13 + n * 2 - 13) with (n * 2) by lia. apply Z.div_mul. lia.
Qed.

Lemma blob_size n : 0 <= n -> value_size (12 + n * 2) = n.
Proof.
  intros Hn. assert (value_size (12 + n * 2) = if (12 <=? 12 + n * 2) && ((12 + n * 2) mod 2 =? 0) then (12 + n * 2 - 12) / 2
    else if (13 <=? 12 + n * 2) && ((12 + n * 2) mod 2 =? 1) then (12 + n * 2 - 13) / 2 else 0) as ->.
  { unfold value_size. repeat (case_match; try done; try lia). }
  rewrite Z.mod_add by lia. change (12 mod 2) with 0. rewrite !(proj2 (Z.leb_le _ _)) by lia. cbn [andb Z.eqb].
  replace (12 + n * 2 - 12) with (n * 2) by lia. apply Z.div_mul. lia.
Qed.

Definition short (l : list Z) : Prop := Z.of_nat (length l) < 2 ^ 32.

Lemma varint_type_bound t : 0 <= t < 2 ^ 62 -> (length (varint_bytes t) <= 9)%nat.
Proof. intros Ht. apply varint_bytes_length. lia. Qed.

Lemma varint_small_length t : 0 <= t <= 127 -> length (varint_bytes t) = 1%nat.
Proof. intros Ht. unfold varint_bytes. by rewrite (proj2 (Z.leb_le _ _)) by lia. Qed.

Lemma file_columns_ok name content : short name -> short content -> columns_ok (file_columns name content) /\
  (length (types_of (file_columns name content)) <= 22)%nat.
Proof.
  intros Hn Hc. unfold short in *. set (n := Z.of_nat (length content)). pose proof (pick_integer_range n) as Hp.
  assert (length (types_of (file_columns name content)) <= 22)%nat as Hlen.
  { unfold types_of, file_columns. cbn [map concat fst]. fold n. rewrite !length_app. rewrite (varint_small_length 0), (varint_small_length 9), (varint_small_length (pick_integer_type n)) by lia.
    pose proof (varint_type_bound (text_type name) ltac:(unfold text_type; lia)). pose proof (varint_type_bound (12 + n * 2) ltac:(unfold n; lia)). cbn; lia. }
  split; [|done]. split; [|split; [lia|]].
  - repeat constructor; cbn [fst snd]; try done; try (unfold text_type; lia); try (unfold n; lia).
    + symmetry. apply text_size. lia.
    + fold n. lia.
    + fold n. lia.
    + apply encode_integer_length.
    + symmetry. apply blob_size. lia.
  - unfold values_of, file_columns. cbn [map concat snd app]. rewrite !length_app. fold n.
    pose proof (encode_integer_length n) as He. assert (value_size (pick_integer_type n) <= 8) by (unfold pick_integer_type; repeat case_match; cbn; lia).
    cbn. lia.
Qed.

Lemma put_varints_ok {E} types : forall cap acc,
  Forall (fun t => 0 <= t < 2 ^ 62) types -> Z.of_nat (length acc + length (concat (map varint_bytes types))) <= cap ->
  put_varints (E := E) cap types acc = Ok (acc ++ concat (map varint_bytes types)).
Proof.
  induction types as [|t types IH]; intros cap acc Ht Hcap; cbn [put_varints map concat]; [by rewrite app_nil_r|].
  apply Forall_cons in Ht as [Ht Hts]. cbn [map concat] in Hcap. rewrite length_app in Hcap.
  unfold encode_varint. rewrite (proj2 (Z.ltb_ge _ _)) by lia. cbn [obind]. rewrite IH; [by rewrite <- app_assoc|done|rewrite length_app; lia].
Qed.

(** The payload the service writes is the record of the columns. *)
Lemma record_header_ok {E} cap cols :
  Forall column_ok cols -> 1 + Z.of_nat (length (types_of cols)) < 128 -> 1 + Z.of_nat (length (types_of cols)) <= cap ->
  record_header (E := E) cap (map fst cols) = Ok ((1 + Z.of_nat (length (types_of cols))) :: types_of cols).
Proof.
  intros Hok Hh Hcap. unfold record_header. assert (concat (map varint_bytes (map fst cols)) = types_of cols) as Et by (unfold types_of; by rewrite map_map).
  rewrite put_varints_ok; rewrite ?Et; [|apply Forall_map; eapply Forall_impl; [exact Hok|by intros c [? _]]|cbn; lia]. cbn [obind app tail].
  do 2 f_equal. cbn [length]. rewrite wrap_small by (split; lia). lia.
Qed.

Lemma file_payload_ok {E} name content : short name -> short content -> file_payload (E := E) name content = Ok (payload_of (file_columns name content)).
Proof.
  intros Hn Hc. destruct (file_columns_ok name content Hn Hc) as [(Hok & Hh & _) Hlen]. unfold file_payload.
  change (file_types name content) with (map fst (file_columns name content)). rewrite record_header_ok by (done || lia). cbn [obind].
  unfold payload_of. cbn [app]. do 2 f_equal. f_equal. unfold values_of, file_columns. cbn [map concat snd app]. by rewrite app_nil_r.
Qed.

(** ** The insert *)

(** Where the cell content of a leaf starts. *)
Definition leaf_content (b : SafeSqliteBuffer) (ps p : Z) : Z :=
  let raw := unwrap_or (read_be_u16 b ((p - 1) * ps + 5)) 0 in if raw =? 0 then ps else raw.

(** A buffer that holds a well-formed database with a table: the schema and the
    table are trees on distinct pages, the page count of the header is used, the
    cells of page 1 leave the database header alone, and the cells of the last
    leaf of the table start at its content offset. *)
Record holds (b : SafeSqliteBuffer) (db : SqliteDb) (schema : tree) (table : list Z) (t : tree) : Prop := {
  h_valid : valid b = true;
  h_size : size b <= MAX_DB_SIZE;
  h_bytes : bytes_mem (data b);
  h_open : open (loaded b) = Ok db;
  h_count : page_count b <> 0;
  h_table : table_tree db schema table t;
  h_nodup : NoDup (pages schema ++ pages t);
  h_first : cells_from db 1 100;
  h_content : leaf_content b (page_size (db_header db)) (last_page t) <= page_size (db_header db);
  h_cells : cells_from db (last_page t) (leaf_content b (page_size (db_header db)) (last_page t));
  h_depth : (right_depth t <= 10)%nat;
}.

Section insert.
Context (b : SafeSqliteBuffer) (db : SqliteDb) (schema t : tree) (table : list Z) (H : holds b db schema table t).

Let ps := page_size (db_header db).

Lemma holds_db : db_data db = loaded b /\ 512 <= ps <= 65536 /\ page_count b = db_size_pages (db_header db) /\ db_ok db.
Proof.
  pose proof (h_open _ _ _ _ _ H) as Ho. destruct (open_inv _ _ Ho) as [Hd Hh]. split; [done|].
  destruct (parse_db_header_fields _ _ Hh) as (Hlen & Hps & _ & n & Hn & Hpages).
  pose proof (open_db_ok (loaded b) db (h_bytes _ _ _ _ _ H) Ho) as Hok. split; [unfold ps; destruct Hok; lia|]. split; [|done].
  rewrite be_at_ok in Hn by (cbn in *; lia). injection Hn as Hn. cbn in Hn. change (page_count b = n) in Hn.
  rewrite Hpages; [done|]. rewrite <- Hn. apply H.
Qed.

Lemma last_page_facts :
  last_page t <> 1 /\ last_page t ∈ pages t /\ 1 ∈ pages schema /\
  (forall q, q ∈ pages schema ++ other_pages t -> q <> last_page t) /\ (forall q, q ∈ other_pages t -> q <> 1).
Proof.
  pose proof (h_nodup _ _ _ _ _ H) as Hn. destruct (h_table _ _ _ _ _ H) as (_ & _ & Hp1 & _).
  assert (1 ∈ pages schema) as H1 by (rewrite <- Hp1; destruct schema; by left).
  assert (last_page t ∈ pages t) as Hl by (rewrite pages_last; apply elem_of_app; right; by left).
  rewrite (pages_last t), app_assoc in Hn. apply NoDup_app in Hn as (Hn & Hd & _).
  assert (forall q, q ∈ pages schema ++ other_pages t -> q <> last_page t) as Hne.
  { intros q Hq ->. apply (Hd _ Hq). by left. }
  split; [intros E; apply (Hne 1); [apply elem_of_app; by left|done]|]. split; [done|]. split; [done|]. split; [done|].
  intros q Hq ->. apply NoDup_app in Hn as (_ & Hd2 & _). by apply (Hd2 1).
Qed.

(** [find_target] is the last leaf. *)
Lemma find_target_holds {R} (r : R) :
  find_target table r b = (b, Ok (mkTarget (page_of t) ps (ps - reserved_bytes (db_header db)) (last_page t)
    (Z.of_nat (length (last_rows t))) (leaf_content b ps (last_page t)))).
Proof.
  destruct holds_db as (Hd & Hps & Hpc & Hok). destruct last_page_facts as (Hl1 & Hlin & H1 & _).
  pose proof (h_table _ _ _ _ _ H) as Ht. pose proof Ht as (Hs & Hds & Hp1 & Htree & _ & Hroot).
  unfold find_target. rewrite bind_gets, bind_fail_if, (h_valid _ _ _ _ _ H). cbn [negb]. rewrite bind_or_return, (h_open _ _ _ _ _ H).
  rewrite bind_or_return, (find_table_root_schema db schema table Hok Hs Hds Hp1), Hroot. cbn [obind]. cbv zeta. fold ps.
  rewrite bind_gets, bind_fail_if. unfold find_rightmost_leaf, ps.
  assert (1 ∉ pages t) as Hn1.
  { intros Hin. pose proof (h_nodup _ _ _ _ _ H) as Hn. apply NoDup_app in Hn as (_ & Hdis & _). by apply (Hdis 1). }
  rewrite (rightmost_tree b db Hd (h_size _ _ _ _ _ H) Hps Hpc t Htree Hn1) by apply H. fold ps.
  destruct (last_leaf_at db t Htree) as (s & h & Hp & Hty & Hcc & _).
  destruct (db_page_loaded b db _ s Hd (page_at_page db _ _ _ Hp)) as (_ & _ & _ & Hp0 & _).
  rewrite (proj2 (Z.eqb_neq _ _)) by done. rewrite bind_gets, bind_fail_if. unfold header_offset, id. rewrite (proj2 (Z.eqb_neq (last_page t) 1)) by done.
  rewrite Z.add_0_r. destruct (header_reads b db Hd (h_size _ _ _ _ _ H) Hps _ s h Hl1 Hp) as (Hb0 & Hb3 & Hb5 & _). fold ps in Hb0, Hb3, Hb5.
  rewrite Hb0, Hty. cbn [unwrap_or Z.eqb Pos.eqb negb]. rewrite Hb3. cbn [unwrap_or]. unfold M_ret, leaf_content. by rewrite Hcc.
Qed.

Lemma last_base : 512 <= (last_page t - 1) * ps.
Proof.
  destruct holds_db as (Hd & Hps & _). destruct last_page_facts as (Hl1 & _). pose proof (h_table _ _ _ _ _ H) as (_ & _ & _ & Htree & _).
  destruct (last_leaf_at db t Htree) as (s & h & Hp & _). destruct (db_page_loaded b db _ s Hd (page_at_page db _ _ _ Hp)) as (_ & H0 & _ & Hp0 & _).
  fold ps in H0. nia.
Qed.

(** The row appended in place. *)
Section row.
Context (b' : SafeSqliteBuffer) (id cc : Z) (cols : list column) (Hcols : columns_ok cols) (Hid : is_i64 id).

Let count := Z.of_nat (length (last_rows t)).
Let content := leaf_content b ps (last_page t).
Let new := content - Z.of_nat (length (cell_of id cols)).

Context (Hroom : 8 + count * 2 + 2 <= new)
  (Hdata : data b' = appended ((last_page t - 1) * ps) count new (cell_of id cols) cc (data b))
  (Hsize : size b' = size b).

Lemma insert_unchanged i : i < 24 \/ 28 <= i -> i < (last_page t - 1) * ps \/ (last_page t - 1) * ps + ps <= i -> data b' i = data b i.
Proof.
  intros H1 H2. pose proof (h_content _ _ _ _ _ H) as Hcont. fold ps in Hcont. fold content in Hcont. rewrite Hdata. subst count new.
  apply appended_other; [done| | |]; lia.
Qed.

Lemma insert_open : exists db', open (loaded b') = Ok db' /\ alike db db' /\ reserved_bytes (db_header db') = reserved_bytes (db_header db).
Proof.
  destruct (open_inv _ _ (h_open _ _ _ _ _ H)) as [Hd Hh]. pose proof last_base as Hbase.
  destruct (parse_db_header_same (loaded b) (loaded b') (db_header db)) as (h' & Hh' & E1 & E2 & E3); [| |done|].
  - split; [cbn; by rewrite Hsize|]. intros i Hi _. cbn. symmetry. apply insert_unchanged; lia.
  - split; [cbn; by rewrite Hsize|]. intros i Hi _. cbn. symmetry. apply insert_unchanged; lia.
  - exists (mkDb (loaded b') h'). unfold open. rewrite Hh'. split; [done|]. split; [|done]. unfold alike. cbn. rewrite Hd, E1, E2. cbn. by rewrite Hsize.
Qed.

Lemma insert_kept db' q : db_data db' = loaded b' -> q <> last_page t -> (q = 1 -> q ∈ pages schema) -> page_kept db db' q.
Proof.
  intros Hd' Hq Hq1. destruct holds_db as (Hd & Hps & _ & Hb & _). pose proof last_base as Hbase.
  exists (if decide (q = 1) then 100 else 0). split; [unfold header_offset; case_decide; case_match; bool_prop; lia|]. split.
  - intros i Hi. cbv zeta. rewrite Hd, Hd'. cbn [loaded sl_off sl_mem]. fold ps in Hi |- *. symmetry. apply insert_unchanged; case_decide; nia.
  - case_decide as E; [rewrite E; apply H|]. intros s h i o Hp Hi Hc. unfold cell_pointer in Hc. rewrite (proj2 (Z.ltb_lt _ _)) in Hc by lia.
    apply obind_ok in Hc as (v & Hv & [= ->]). apply (be_at_bound db Hb) in Hv; [lia|].
    destruct (db_page_loaded b db q s Hd (page_at_page db _ _ _ Hp)) as (-> & _). by rewrite Hd.
Qed.

Lemma insert_table : exists db', open (loaded b') = Ok db' /\ table_tree db' schema table (append_row t (row_with id cols)).
Proof.
  destruct insert_open as (db' & Ho' & Ha & _). exists db'. split; [done|]. destruct (open_inv _ _ Ho') as [Hd' _].
  destruct holds_db as (Hd & Hps & _ & _). destruct last_page_facts as (Hl1 & Hlin & H1 & Hne & Hno1).
  pose proof (h_table _ _ _ _ _ H) as (Hs & Hds & Hp1 & Htree & Hdt & Hroot).
  assert (forall q, q ∈ pages schema -> page_kept db db' q) as Hks.
  { intros q Hq. apply insert_kept; [done|apply Hne; apply elem_of_app; by left|done]. }
  split; [apply (tree_at_kept db db' Ha ltac:(fold ps; lia) schema); [by apply Forall_forall|done]|]. split; [done|]. split; [done|].
  rewrite page_of_append, depth_append. split; [|done].
  apply (tree_at_append db db'); [done|fold ps; lia|done| |].
  - apply Forall_forall. intros q Hq. apply insert_kept; [done|apply Hne; apply elem_of_app; by right|]. intros ->. by apply Hno1 in Hq.
  - pose proof last_base. pose proof (last_leaf_at db t Htree) as Hleaf. destruct Hleaf as (? & ? & _ & _ & _ & Hmax & _).
    apply (leaf_appended b b' db db' (last_page t) ps content cc id (last_rows t) cols Hd Hd' Ha eq_refl Hps Hl1 (last_leaf_at db t Htree));
      [apply H|apply H|done|done|exact Hroom| |exact Hdata].
    pose proof (h_content _ _ _ _ _ H) as Hcont. fold ps in Hcont. fold content in Hcont. subst new count. lia.
Qed.
End row.
End insert.

Lemma overflow_split_inline {E} n usable : n + 35 <= usable -> compute_overflow_split (E := E) n usable = Ok (n, 0).
Proof. intros Hn. unfold compute_overflow_split, saturating_sub. by rewrite (proj2 (Z.leb_le _ _)) by lia. Qed.

Lemma scratch_varint_ok {E} v : 0 <= v < 2 ^ 64 -> scratch_varint (E := E) v = Ok (varint_bytes v).
Proof. intros Hv. unfold scratch_varint, encode_varint. by rewrite (proj2 (Z.ltb_ge _ _)) by (pose proof (varint_bytes_length v Hv); lia). Qed.

Lemma bind_run {S E A B} (m : M S E A) (k : A -> M S E B) s s' a : m s = (s', Ok a) -> M_bind k m s = k a s'.
Proof. unfold M_bind. by intros ->. Qed.

(** The last step of every insert. *)
Lemma append_holds {R} b db schema t table (free : Target -> Z) id cols (r : R) :
  holds b db schema table t -> columns_ok cols -> is_i64 id ->
  let ps := page_size (db_header db) in
  let count := Z.of_nat (length (last_rows t)) in
  let content := leaf_content b ps (last_page t) in
  let target := mkTarget (page_of t) ps (ps - reserved_bytes (db_header db)) (last_page t) count content in
  8 + count * 2 + 2 <= content - Z.of_nat (length (cell_of id cols)) -> free target = content - (8 + count * 2) ->
  exists b' db', append_cell (R := R) target (cell_of id cols) (free target) b = (b', Ok true) /\ open (loaded b') = Ok db' /\
    table_tree db' schema table (append_row t (row_with id cols)).
Proof.
  intros H Hcols Hid ps count content target Hroom Hfree. destruct (holds_db b db schema t table H) as (Hd & Hps & _).
  destruct (last_page_facts b db schema t table H) as (Hl1 & _). pose proof (last_base b db schema t table H) as Hbase. cbv zeta in Hbase, Hps.
  pose proof (h_content _ _ _ _ _ H) as Hcont. fold ps in Hcont, Hps, Hbase. fold content in Hcont.
  pose proof (h_table _ _ _ _ _ H) as (_ & _ & _ & Htree & _). destruct (last_leaf_at db t Htree) as (s & h & Hp & _ & _ & Hmax & _).
  destruct (db_page_loaded b db _ s Hd (page_at_page db _ _ _ Hp)) as (_ & _ & Hin & _). fold ps in Hin. pose proof (h_size _ _ _ _ _ H) as Hsz.
  assert (0 < Z.of_nat (length (cell_of id cols))) as Hlen by (unfold cell_of; rewrite !length_app, payload_length; lia).
  destruct (append_cell_inplace (R := R) target (cell_of id cols) (free target) b) as (b' & cc & Ha & Hdata & Hs' & Hv');
    cbn [target t_leaf t_page_size t_count t_content]; [done|lia|lia|subst count; lia|exact Hroom|lia|done|lia|rewrite Hfree; subst count; lia|].
  destruct (insert_table b db schema t table H b' id cc cols Hcols Hid) as (db' & Ho' & Ht'); [exact Hroom|exact Hdata|done|].
  by exists b', db'.
Qed.

(** C11: Inserting a file whose row fits on the last leaf appends the row to the
    table: the file is written, and the reader afterwards finds the same tables
    with the columns of the file in one more row at the end. *)
Theorem insert_file_appends {E} (b : SafeSqliteBuffer) (db : SqliteDb) (schema t : tree) (rowid : Z) (name content : list Z) :
  let cols := file_columns name content in
  let row := row_with rowid cols in
  let count := Z.of_nat (length (last_rows t)) in
  let cell := cell_of rowid cols in
  holds b db schema (str "files") t -> short name -> short content -> is_i64 rowid ->
  Z.of_nat (length (payload_of cols)) + 35 <= page_size (db_header db) - reserved_bytes (db_header db) ->
  8 + count * 2 + 2 <= leaf_content b (page_size (db_header db)) (last_page t) - Z.of_nat (length cell) ->
  exists b' db',
    sqlite_insert_file (E := E) rowid name content b = (b', Ok true) /\ open (loaded b') = Ok db' /\
    table_tree db' schema (str "files") (append_row t row) /\
    (Forall (fun l => l <> []) (removelast (leaves t)) -> visible (leaves (append_row t row)) = visible (leaves t) ++ [row]).
Proof.
  intros cols row count cell H Hname Hcontent Hid Hinline Hroom. destruct (file_columns_ok name content Hname Hcontent) as [Hcols _]. fold cols in Hcols.
  destruct (last_page_facts b db schema t _ H) as (Hl1 & _). destruct (holds_db b db schema t _ H) as (_ & Hps & _).
  pose proof (h_content _ _ _ _ _ H) as Hcont. pose proof Hcols as (Hok & Hh & Hv).
  set (ps := page_size (db_header db)) in *. set (raw := leaf_content b ps (last_page t)) in *.
  destruct (append_holds (R := bool) b db schema t (str "files") free_wrapping rowid cols true H Hcols Hid) as (b' & db' & Ha & Ho & Ht).
  { exact Hroom. }
  { fold ps. fold raw. unfold free_wrapping, pointer_array_end, header_offset. cbn [t_leaf t_content t_count].
    rewrite (proj2 (Z.eqb_neq (last_page t) 1)) by done. rewrite wrap_small; [lia|]. split; fold count; lia. }
  exists b', db'. split; [|split; [done|split; [done|apply visible_append]]].
  unfold sqlite_insert_file, returned.
  rewrite (bind_run _ _ _ _ _ (find_target_holds b db schema t (str "files") H false)).
  cbn [t_usable t_page_size]. rewrite bind_or_return, file_payload_ok by done. fold cols. cbv zeta.
  rewrite bind_or_return, overflow_split_inline by exact Hinline. change (0 <? 0) with false. cbv iota.
  unfold M_bind at 1. cbn [M_ret]. rewrite bind_or_return, scratch_varint_ok by (rewrite payload_length; lia).
  rewrite bind_or_return, scratch_varint_ok by (apply (wrap_range 64); lia).
  rewrite take_ge by lia. rewrite app_nil_r. cbv zeta in Ha. unfold cell_of in Ha. by rewrite Ha.
Qed.

(** The database the theorem is applied to. *)
Definition small_buffer : SafeSqliteBuffer := mkBuffer example_mem (5 * 512) true (fun _ => 0).

Definition check_cells (db : SqliteDb) (q lo : Z) : bool :=
  match page_at db q with
  | Ok (s, h) =>
      forallb (fun i => match cell_pointer s h (header_offset q) i with Ok (Some o) => lo <=? o | _ => true end) (seqZ 0 (cell_count h))
  | _ => true
  end.

Lemma check_cells_sound db q lo : check_cells db q lo = true -> cells_from db q lo.
Proof.
  intros H s h i o Hp Hi Hc. unfold check_cells in H. rewrite Hp, forallb_forall in H.
  specialize (H i ltac:(apply list_elem_of_In, elem_of_seqZ; lia)). rewrite Hc in H. by apply Z.leb_le.
Qed.

Lemma small_holds : holds small_buffer example_db schema_tree (str "files") files_tree.
Proof.
  split; [reflexivity|vm_compute; discriminate|exact example_bytes_mem|exact example_open|vm_compute; discriminate|exact example_files_table| | | | |].
  - apply (bool_decide_unpack _). vm_compute. exact I.
  - apply check_cells_sound. vm_compute. reflexivity.
  - vm_compute. discriminate.
  - apply check_cells_sound. vm_compute. reflexivity.
  - cbn. lia.
Qed.

Lemma insert_file_appends_witness :
  exists b' db',
    sqlite_insert_file (E := Empty_set) 9 (str "new.txt") [1; 2; 3] small_buffer = (b', Ok true) /\ open (loaded b') = Ok db' /\
    table_tree db' schema_tree (str "files") (append_row files_tree (row_with 9 (file_columns (str "new.txt") [1; 2; 3]))) /\
    visible (leaves (append_row files_tree (row_with 9 (file_columns (str "new.txt") [1; 2; 3])))) =
      rows_of (files_left ++ files_right) ++ [row_with 9 (file_columns (str "new.txt") [1; 2; 3])].
Proof.
  destruct (insert_file_appends (E := Empty_set) small_buffer example_db schema_tree files_tree 9 (str "new.txt") [1; 2; 3] small_holds)
    as (b' & db' & H1 & H2 & H3 & H4).
  - vm_compute. reflexivity.
  - vm_compute. reflexivity.
  - unfold is_i64. lia.
  - vm_compute. discriminate.
  - vm_compute. discriminate.
  - exists b', db'. split; [exact H1|]. split; [exact H2|]. split; [exact H3|]. apply H4. repeat constructor; discriminate.
Defined.
