(* ===== verification/SqlLimits.v ===== *)
(** Where the storage code reaches its limits: which sizes read back, and runs
    in which a row is lost, a column read panics, a search does not end and a
    walk misses an entity. *)

From Stdlib Require Import String.
From S2P Require Import Prelude Bytes Slice SqliteDb SqliteRow SqliteScanThm SqliteTree SqliteThm SqlWrite SqlTables SqlIo SqlInsertThm GraphWalkThm.

Open Scope kernel_scope.

(** ** Sizes *)

(** The width in bits at which the reader takes the sign of a stored integer. *)
Definition stored_width (n : Z) : Z :=
  if n <=? 0xFF then 8 else if n <=? 0xFFFF then 16 else if n <=? 0xFFFFFF then 24
  else if n <=? 0xFFFFFFFF then 32 else if n <=? 0xFFFFFFFFFF then 48 else 64.

Lemma take_le_bytes m k v : take m (le_bytes (m + k) v) = le_bytes m v.
Proof. revert v. induction m as [|m IH]; intros v; cbn; [done|]. by rewrite IH. Qed.

Lemma drop_be_bytes m k v : drop k (be_bytes (m + k) v) = be_bytes m v.
Proof. unfold be_bytes. rewrite skipn_rev, le_bytes_length, Nat.add_sub, take_le_bytes. done. Qed.

Lemma word_back n v : 0 <= v < 2 ^ (8 * Z.of_nat n) -> from_be_bytes (be_bytes n v) = v.
Proof. intros Hv. rewrite from_to_be_bytes. by apply Z.mod_small. Qed.

Lemma land_top k v : 0 <= k -> 0 <= v < 2 ^ (k + 1) -> (Z.land v (2 ^ k) =? 0) = (v <? 2 ^ k).
Proof.
  intros Hk Hv. assert (Z.testbit v k = negb (v <? 2 ^ k)) as Hb.
  { rewrite Z.pow_add_r in Hv by lia. destruct (v <? 2 ^ k) eqn:E; bool_prop; cbn.
    - destruct (decide (v = 0)) as [->|Hv0]; [apply Z.bits_0|]. apply Z.bits_above_log2; [lia|]. apply Z.log2_lt_pow2; lia.
    - apply Z.testbit_true; [lia|]. assert (v / 2 ^ k = 1) as ->; [|done]. symmetry. apply (Z.div_unique v (2 ^ k) 1 (v - 2 ^ k)); [left; lia|lia]. }
  destruct (v <? 2 ^ k) eqn:E; cbn in Hb.
  - apply Z.eqb_eq. apply Z.bits_inj'. intros n Hn. rewrite Z.land_spec, Z.bits_0, Z.pow2_bits_eqb by lia.
    destruct (k =? n) eqn:En; bool_prop; [subst; by rewrite Hb|apply andb_false_r].
  - apply Z.eqb_neq. intros H0. apply (f_equal (fun z => Z.testbit z k)) in H0. cbn beta in H0. rewrite Z.land_spec, Hb, Z.pow2_bits_true, Z.bits_0 in H0 by lia. done.
Qed.

Lemma signed_word_small w v : 0 < w -> 0 <= v < 2 ^ w -> signed_word w v = if v <? 2 ^ (w - 1) then v else v - 2 ^ w.
Proof.
  intros Hw Hv. unfold signed_word. assert (2 ^ w = 2 ^ (w - 1) * 2) as E by (replace w with (w - 1 + 1) at 1 by lia; rewrite Z.pow_add_r by lia; done).
  case_match; bool_prop.
  - rewrite Z.mod_small by lia. lia.
  - replace (v + 2 ^ (w - 1)) with (v - 2 ^ (w - 1) + 1 * 2 ^ w) by lia. rewrite Z.mod_add by lia. rewrite Z.mod_small by lia. lia.
Qed.

Lemma extend_signed w v : 0 < w -> 0 <= v < 2 ^ w -> extend_sign (2 ^ (w - 1)) (2 ^ w - 1) v = signed_word w v.
Proof.
  intros Hw Hv. rewrite signed_word_small by done. unfold extend_sign.
  rewrite land_top by (replace (w - 1 + 1) with w by lia; lia). case_match; [done|].
  replace (Z.lnot (2 ^ w - 1)) with (Z.shiftl (-1) w) by (rewrite Z.shiftl_mul_pow2 by lia; unfold Z.lnot; lia).
  rewrite lor_shiftl_add by lia. lia.
Qed.

(** The size column of a file of [n] bytes reads back as [n] taken as a signed
    integer of the width it was stored in. *)
Definition size_column (n : Z) : column := (pick_integer_type n, encode_integer_value n (pick_integer_type n)).

Lemma size_column_datum n : 0 <= n < 2 ^ 64 -> column_datum (size_column n) = Some (DInteger (signed_word (stored_width n) n)).
Proof.
  intros Hn. unfold size_column, pick_integer_type, stored_width.
  destruct (n =? 0) eqn:E0; bool_prop; [by subst|]. destruct (n =? 1) eqn:E1; bool_prop; [by subst|].
  assert (forall m k, encode_integer_value n m = drop k (be_bytes (Z.to_nat (integer_type_size m) + k) n) ->
    n < 2 ^ (8 * integer_type_size m) -> 0 <= integer_type_size m -> from_be_bytes (encode_integer_value n m) = n) as Hback.
  { intros m k -> Hlt H0. rewrite drop_be_bytes. apply word_back. rewrite Z2Nat.id by done. lia. }
  destruct (n <=? 0xFF) eqn:E2; [|destruct (n <=? 0xFFFF) eqn:E3; [|destruct (n <=? 0xFFFFFF) eqn:E4; [|destruct (n <=? 0xFFFFFFFF) eqn:E5; [|destruct (n <=? 0xFFFFFFFFFF) eqn:E6]]]];
    bool_prop; cbn [column_datum].
  - rewrite (Hback 1 0%nat); [|reflexivity|cbn; lia|done]. done.
  - rewrite (Hback 2 0%nat); [|unfold encode_integer_value; cbn [integer_type_size]; rewrite (wrap_small 16 n) by (split; lia); reflexivity|cbn; lia|done]. done.
  - rewrite (Hback 3 1%nat); [|unfold encode_integer_value; cbn [integer_type_size]; rewrite (wrap_small 32 n) by (split; lia); reflexivity|cbn; lia|done]. do 2 f_equal. apply (extend_signed 24); lia.
  - rewrite (Hback 4 0%nat); [|unfold encode_integer_value; cbn [integer_type_size]; rewrite (wrap_small 32 n) by (split; lia); reflexivity|cbn; lia|done]. done.
  - rewrite (Hback 5 2%nat); [|reflexivity|cbn; lia|done]. do 2 f_equal. apply (extend_signed 48); lia.
  - rewrite (Hback 6 0%nat); [|reflexivity|cbn; lia|done]. done.
Qed.

(** The size column of a row reads back as the size taken as a signed
    integer of the width chosen for it, so as the size exactly when that word's
    top bit is clear: sizes from 128 to 255, from 32768 to 65535, from 2^23 to
    2^24 - 1 and from 2^31 to 2^32 - 1 read back negative. *)
Theorem size_column_reads_back (n : Z) :
  0 <= n < 2 ^ 64 ->
  column_datum (size_column n) = Some (DInteger (signed_word (stored_width n) n)) /\
  (column_datum (size_column n) = Some (DInteger n) <-> n < 2 ^ (stored_width n - 1)).
Proof.
  intros Hn. rewrite size_column_datum by done. split; [done|].
  assert (0 < stored_width n /\ n < 2 ^ stored_width n) as [Hw Hlt] by (unfold stored_width; repeat case_match; bool_prop; lia).
  rewrite signed_word_small by lia. split.
  - intros [= E]. case_match; bool_prop; [done|]. lia.
  - intros Hs. by rewrite (proj2 (Z.ltb_lt _ _)).
Qed.

Lemma size_column_reads_back_witness :
  column_datum (size_column 200) = Some (DInteger (-56)) /\ column_datum (size_column 70000) = Some (DInteger 70000).
Proof.
  split; [exact (proj1 (size_column_reads_back 200 ltac:(lia)))|].
  apply (proj2 (proj2 (size_column_reads_back 70000 ltac:(lia)))). vm_compute. reflexivity.
Defined.

(** ** Rows that are lost *)

(** An edge that does not fit on the only leaf of its table: the service reports
    rowid 4, a sixth page holds the row, and the table still has three rows. *)
Definition long_id : list Z := replicate 400 65.

Definition count_rows (b : SafeSqliteBuffer) (table : list Z) : outcome Error (option Z) :=
  let? s := scan_table b table in
  match s with
  | None => Ok None
  | Some (db, sc) =>
      let? r := for_rows (R := Empty_set) db (fun n item => Ok (inl (match item with inl _ => n + 1 | inr _ => n end))) sc 0 in
      match r with inl n => Ok (Some n) | inr r => match r with end end
  end.

Lemma edge_is_lost :
  let r := sqlite_insert_edge (E := Empty_set) long_id (str "ada") (str "knows") (str "eve") 1 0 0 small_buffer in
  snd r = Ok (Some 4) /\ page_count (fst r) = 6 /\ count_rows small_buffer (str "edges") = Ok (Some 3) /\
  count_rows (fst r) (str "edges") = Ok (Some 3).
Proof. vm_compute. done. Qed.

(** A row of which only a part is on the page: reading a column after the part
    that is missing panics. *)
Lemma get_panics :
  exists r, parse_record 1 (slice_of_list [4; 0; 40; 1; 7; 7]) = Ok r /\ get r 2 = Panic.
Proof. eexists. split; [vm_compute; reflexivity|]. vm_compute. reflexivity. Qed.

(** ** A search that does not end *)

(** Page 2 is an interior page without cells whose right child is page 2. *)
Definition cyclic_buffer : SafeSqliteBuffer :=
  mkBuffer (mem_of_images 512 [leaf_image 512 (db_header_image 512 2) (cells_of schema_rows); node_image 512 [] 2]) 1024 true (fun _ => 0).

Lemma blob_search_runs_on fuel name : read_sqlite_blob_large fuel cyclic_buffer name [] = Ok None.
Proof.
  unfold read_sqlite_blob_large. destruct (open_db cyclic_buffer) as [[db|]|e|] eqn:Ho; [|vm_compute in Ho; discriminate..].
  cbn [obind]. assert (forall n : positive, iter_pos n (blob_step db name []) [2] = Ok (inl [2])) as Hloop; [|by rewrite Hloop].
  assert (blob_step db name [] [2] = Ok (inl [2])) as Hstep.
  { vm_compute in Ho. injection Ho as <-. vm_compute. reflexivity. }
  induction n as [n IH|n IH|]; cbn [iter_pos]; rewrite ?Hstep; cbn [obind]; rewrite ?IH; cbn [obind]; rewrite ?IH; done.
Qed.

(** ** An entity the walk misses *)

(** The frontier is a stack, so [d], at distance 2, is first reached at depth 3
    and [e], at distance 3, is not reported under the limit 3. *)
Definition miss_edges : list (list Z * list Z) :=
  [(str "s", str "a"); (str "s", str "b"); (str "b", str "c"); (str "c", str "d"); (str "a", str "d"); (str "d", str "e")].

Fixpoint walk_rounds (n : nat) (max_depth : Z) (w : Walk) : Walk :=
  match n with O => w | S n => match walk_round miss_edges max_depth w with inl w => walk_rounds n max_depth w | inr w => w end end.

Lemma walk_misses :
  let w := walk_rounds 20 3 (mkWalk [str "s"] [] [(str "s", 0)]) in
  frontier w = [] /\ path miss_edges (str "s") 3 (str "e") /\ ~ In (str "e") (visited w).
Proof.
  split; [vm_compute; done|]. split.
  - change 3 with (0 + 1 + 1 + 1). apply path_snoc with (str "d"); [apply path_snoc with (str "a"); [apply path_snoc with (str "s"); [constructor|]|]|];
      left; apply (bool_decide_unpack _); vm_compute; exact I.
  - vm_compute. intuition discriminate.
Qed.
