(* ===== verification/Mvfs.v ===== *)
(** The mutable VFS of the kernel (src/kernel/src/fs/mvfs.rs).

    The statics are one record: the file table, the word of dirty bits, the
    selected backend and the two block drivers.  The drivers are an interface
    ([BlockDriver]) with one instance type for both.  A function that fails
    inside is a computation with [unit] as its error; what the caller does on
    the error is written at the call.  The two locks appear in [step]: a
    mutation of the table is one step, and one thread at a time flushes. *)

From S2P Require Import Prelude Bytes.

#[local] Open Scope kernel_scope.

(** ** Constants and data *)

Definition MVFS_MAX_FILES : Z := 16.
Definition MVFS_MAX_NAME : Z := 32.
Definition MVFS_MAX_FILE_SIZE : Z := 4096.
Definition MVFS_MAGIC : list Z := [70; 79; 76; 75; 77; 86; 70; 83].
Definition MVFS_VERSION : Z := 1.
Definition MVFS_SECTORS : Z := 132.
Definition MVFS_SLOT_SECTORS : Z := 8.
Definition MVFS_TABLE_RECORD : Z := 64.
Definition SECTOR : Z := 512.
Definition DIRTY_HEADER : Z := Z.shiftl 1 31.

Inductive Backend := VirtioBlk | Nvme.

Inductive MvfsError := InvalidName | DataTooLarge | NotFound | TableFull.

Record MvfsEntry := mkEntry { name_len : Z; name : list Z; data : list Z }.

Definition name_bytes (e : MvfsEntry) : list Z := take (Z.to_nat (name_len e)) (name e).

(** The calls the file makes to drivers/virtio_blk.rs and drivers/nvme.rs. *)
Class BlockDriver (D : Type) := {
  is_initialized : D -> bool;
  capacity : D -> Z;
  block_read : Z -> D -> D * option (list Z);
  block_write : Z -> list Z -> D -> D * bool;
  read_sectors : Z -> Z -> D -> D * option (list Z);
  write_sectors : Z -> list Z -> Z -> D -> D * bool
}.

Record Fs (D : Type) := mkFs { table : list MvfsEntry; dirty : Z; active : Backend; virtio_blk : D; nvme : D }.
Arguments mkFs {D}. Arguments table {D}. Arguments dirty {D}. Arguments active {D}. Arguments virtio_blk {D}. Arguments nvme {D}.

#[global] Instance Fs_eta {D} : Eta (Fs D) := fun s => mkFs (table s) (dirty s) (active s) (virtio_blk s) (nvme s).
#[global] Instance fs_table_set {D} : Setter (@table D) := ltac:(derive_setter).
#[global] Instance fs_dirty_set {D} : Setter (@dirty D) := ltac:(derive_setter).
#[global] Instance fs_active_set {D} : Setter (@active D) := ltac:(derive_setter).
#[global] Instance fs_virtio_set {D} : Setter (@virtio_blk D) := ltac:(derive_setter).
#[global] Instance fs_nvme_set {D} : Setter (@nvme D) := ltac:(derive_setter).

(** [buf[off..off + src.len()].copy_from_slice(src)] *)
Definition put (off : Z) (src buf : list Z) : list Z :=
  take (Z.to_nat off) buf ++ src ++ drop (Z.to_nat off + length src) buf.

(** [buf[off..off + n]] *)
Definition get (off n : Z) (buf : list Z) : list Z := take (Z.to_nat n) (drop (Z.to_nat off) buf).

Definition zeros (n : Z) : list Z := replicate (Z.to_nat n) 0.

(** ** The table *)

Definition validate_name (name : list Z) : outcome MvfsError Z :=
  let n := Z.of_nat (length name) in
  if (n =? 0) || (MVFS_MAX_NAME <? n) then Err InvalidName else Ok (u8 n).

(** The overwrite path: the table with the entry's data replaced, and its index. *)
Fixpoint overwrite (nm content : list Z) (t : list MvfsEntry) (i : Z) : option (list MvfsEntry * Z) :=
  match t with
  | [] => None
  | e :: t =>
      if decide (name_bytes e = nm) then Some (mkEntry (name_len e) (name e) content :: t, i)
      else match overwrite nm content t (i + 1) with Some (t', j) => Some (e :: t', j) | None => None end
  end.

(** [write] under the table lock: the new table and the slot to mark. *)
Definition write_table (nm : list Z) (len : Z) (content : list Z) (t : list MvfsEntry) : outcome MvfsError (list MvfsEntry * Z) :=
  match overwrite nm content t 0 with
  | Some r => Ok r
  | None =>
      let idx := Z.of_nat (length t) in
      if MVFS_MAX_FILES <=? idx then Err TableFull
      else Ok (t ++ [mkEntry len (put 0 nm (zeros MVFS_MAX_NAME)) content], idx)
  end.

Definition write_bits (slot : Z) : Z := Z.lor (u32 (Z.shiftl 1 slot)) DIRTY_HEADER.

Fixpoint position (nm : list Z) (t : list MvfsEntry) (i : Z) : option Z :=
  match t with
  | [] => None
  | e :: t => if decide (name_bytes e = nm) then Some i else position nm t (i + 1)
  end.

(** [delete] under the table lock: the new table and the bits to mark. *)
Definition delete_table (nm : list Z) (t : list MvfsEntry) : option (list MvfsEntry * Z) :=
  match position nm t 0 with
  | Some i =>
      let old_len := Z.of_nat (length t) in
      let mask_lo := u32 (Z.shiftl 1 i) - 1 in
      let mask_hi := if 32 <=? old_len then U32_MAX else u32 (Z.shiftl 1 old_len) - 1 in
      Some (take (Z.to_nat i) t ++ drop (S (Z.to_nat i)) t, Z.lor (Z.ldiff mask_hi mask_lo) DIRTY_HEADER)
  | None => None
  end.

(** The bytes copied to the front of [out] and their number. *)
Definition read (nm out : list Z) (t : list MvfsEntry) : outcome MvfsError (list Z * Z) :=
  let? _ := validate_name nm in
  match list_find (fun e => name_bytes e = nm) t with
  | Some (_, e) =>
      let n := Z.min (Z.of_nat (length (data e))) (Z.of_nat (length out)) in
      Ok (put 0 (take (Z.to_nat n) (data e)) out, n)
  | None => Err NotFound
  end.

Fixpoint starts_with (l p : list Z) : bool :=
  match p, l with
  | [], _ => true
  | b :: p, c :: l => (b =? c) && starts_with l p
  | _, [] => false
  end.

(** The loop of [list]: [written] is what stands at the front of [out]. *)
Fixpoint list_loop (prefix : list Z) (cap : Z) (t : list MvfsEntry) (written : list Z) : list Z :=
  match t with
  | [] => written
  | e :: t =>
      let nm := name_bytes e in
      if negb (bool_decide (prefix = [])) && negb (starts_with nm prefix) then list_loop prefix cap t written else
      let needed := 1 + Z.of_nat (length nm) in
      if cap <? Z.of_nat (length written) + needed then written
      else list_loop prefix cap t (written ++ name_len e :: nm)
  end.

Definition list_files (prefix out : list Z) (t : list MvfsEntry) : list Z * Z :=
  let written := list_loop prefix (Z.of_nat (length out)) t [] in
  (put 0 written out, Z.of_nat (length written)).

(** ** The backend *)

Section fs.
Context {D : Type} `{BlockDriver D}.

Definition active_disk (s : Fs D) : D := match active s with VirtioBlk => virtio_blk s | Nvme => nvme s end.

Definition set_active_disk (d : D) (s : Fs D) : Fs D :=
  match active s with VirtioBlk => s <| virtio_blk := d |> | Nvme => s <| nvme := d |> end.

Definition use_nvme_backend (s : Fs D) : Fs D := s <| active := Nvme |>.
Definition use_virtio_backend (s : Fs D) : Fs D := s <| active := VirtioBlk |>.

Definition on_backend {E A} (f : D -> D * A) : M (Fs D) E A :=
  fun s => let (d, a) := f (active_disk s) in (set_active_disk d s, Ok a).

Definition be_is_initialized (s : Fs D) : bool := is_initialized (active_disk s).
Definition be_capacity (s : Fs D) : Z := capacity (active_disk s).

Definition be_block_read (sector : Z) : M (Fs D) unit (list Z) := r <- on_backend (block_read sector) ;; ok_or r tt.
Definition be_block_write (sector : Z) (buf : list Z) : M (Fs D) unit unit :=
  ok <- on_backend (block_write sector buf) ;; fail_if (negb ok) tt.
Definition be_read_sectors (start count : Z) : M (Fs D) unit (list Z) := r <- on_backend (read_sectors start count) ;; ok_or r tt.
Definition be_write_sectors (start : Z) (buf : list Z) (count : Z) : M (Fs D) unit unit :=
  ok <- on_backend (write_sectors start buf count) ;; fail_if (negb ok) tt.

Definition mvfs_start (s : Fs D) : option Z :=
  if negb (be_is_initialized s) then None
  else if be_capacity s <? MVFS_SECTORS then None
  else Some (be_capacity s - MVFS_SECTORS).

(** ** Flushing *)

Definition mark_dirty (bits : Z) (s : Fs D) : Fs D := s <| dirty := Z.lor (dirty s) bits |>.

Definition take_dirty {E} : M (Fs D) E Z := fun s => (s <| dirty := 0 |>, Ok (dirty s)).

Definition header_bytes (n : Z) : list Z :=
  put 10 (le_bytes 2 (u16 n)) (put 8 (le_bytes 2 MVFS_VERSION) (put 0 MVFS_MAGIC (zeros SECTOR))).

Definition record_bytes (e : MvfsEntry) : list Z := name_len e :: name e ++ le_bytes 4 (u32 (Z.of_nat (length (data e)))).

Fixpoint table_bytes (t : list MvfsEntry) (base : Z) (buf : list Z) : list Z :=
  match t with
  | [] => buf
  | e :: t => table_bytes t (base + MVFS_TABLE_RECORD) (put base (record_bytes e) buf)
  end.

Definition flush_header (start : Z) (snapshot : list MvfsEntry) : M (Fs D) unit unit :=
  let n := Z.of_nat (length snapshot) in
  be_block_write start (header_bytes n) ;;;
  if SECTOR * 2 <? n * MVFS_TABLE_RECORD then panic else
  be_write_sectors (start + 1) (table_bytes snapshot 0 (zeros (SECTOR * 2))) 2.

Fixpoint flush_slots (start bits i : Z) (snapshot : list MvfsEntry) : M (Fs D) unit unit :=
  match snapshot with
  | [] => M_ret tt
  | e :: rest =>
      (if Z.land bits (u32 (Z.shiftl 1 i)) =? 0 then M_ret tt
       else if MVFS_MAX_FILE_SIZE <? Z.of_nat (length (data e)) then panic
       else be_write_sectors (start + 4 + i * MVFS_SLOT_SECTORS) (put 0 (data e) (zeros MVFS_MAX_FILE_SIZE)) MVFS_SLOT_SECTORS) ;;;
      flush_slots start bits (i + 1) rest
  end.

(** The writes of a flush. *)
Definition flush_snapshot (start bits : Z) (snapshot : list MvfsEntry) : M (Fs D) unit unit :=
  (if Z.land bits DIRTY_HEADER =? 0 then M_ret tt else flush_header start snapshot) ;;;
  flush_slots start bits 0 snapshot.

(** The writes, and the bits marked again when one fails. *)
Definition commit {E} (start bits : Z) (snapshot : list MvfsEntry) : M (Fs D) E unit :=
  fun s => match flush_snapshot start bits snapshot s with
           | (s, Ok _) => (s, Ok tt)
           | (s, Err _) => (mark_dirty bits s, Ok tt)
           | (s, Panic) => (s, Panic)
           end.

Definition flush_to_disk {E} : M (Fs D) E unit :=
  start <- gets mvfs_start ;;
  match start with
  | None => M_ret tt
  | Some start =>
      bits <- take_dirty ;;
      if bits =? 0 then M_ret tt else
      snapshot <- gets table ;;
      commit start bits snapshot
  end.

(** ** The public functions *)

Definition lift {E A} (r : outcome E A) : M (Fs D) E A := fun s => (s, r).

(** A change of the table under its lock. *)
Definition with_table {E A} (f : list MvfsEntry -> outcome E (list MvfsEntry * A)) : M (Fs D) E A :=
  fun s => match f (table s) with
           | Ok (t, a) => (s <| table := t |>, Ok a)
           | Err e => (s, Err e)
           | Panic => (s, Panic)
           end.

Definition write (nm content : list Z) : M (Fs D) MvfsError unit :=
  len <- lift (validate_name nm) ;;
  fail_if (MVFS_MAX_FILE_SIZE <? Z.of_nat (length content)) DataTooLarge ;;;
  slot <- with_table (write_table nm len content) ;;
  modify (mark_dirty (write_bits slot)) ;;;
  flush_to_disk.

Definition delete {E} (nm : list Z) : M (Fs D) E bool :=
  match validate_name nm with
  | Ok _ =>
      bits <- with_table (fun t => match delete_table nm t with Some (t, bits) => Ok (t, Some bits) | None => Ok (t, None) end) ;;
      match bits with
      | Some bits => modify (mark_dirty bits) ;;; flush_to_disk ;;; M_ret true
      | None => M_ret false
      end
  | _ => M_ret false
  end.

(** ** Loading *)

(** A record of the entry table: name length, name, size. *)
Definition read_record (table_bytes : list Z) (i : Z) : Z * list Z * Z :=
  let base := i * MVFS_TABLE_RECORD in
  (from_le_bytes (get base 1 table_bytes), get (base + 1) MVFS_MAX_NAME table_bytes, from_le_bytes (get (base + 33) 4 table_bytes)).

Fixpoint load_entries (n : nat) (i start : Z) (table_bytes : list Z) : M (Fs D) unit (list MvfsEntry) :=
  match n with
  | O => M_ret []
  | S n =>
      let '(len, nm, size) := read_record table_bytes i in
      fail_if ((len =? 0) || (MVFS_MAX_NAME <? len)) tt ;;;
      fail_if (MVFS_MAX_FILE_SIZE <? size) tt ;;;
      slot_buf <- be_read_sectors (start + 4 + i * MVFS_SLOT_SECTORS) MVFS_SLOT_SECTORS ;;
      rest <- load_entries n (i + 1) start table_bytes ;;
      M_ret (mkEntry len nm (get 0 size slot_buf) :: rest)
  end.

(** What is read, an error wherever the source returns early. *)
Definition read_region (start : Z) : M (Fs D) unit (list MvfsEntry) :=
  header <- be_block_read start ;;
  fail_if (negb (bool_decide (get 0 8 header = MVFS_MAGIC))) tt ;;;
  fail_if (negb (from_le_bytes (get 8 2 header) =? MVFS_VERSION)) tt ;;;
  let entry_count := from_le_bytes (get 10 2 header) in
  fail_if (MVFS_MAX_FILES <? entry_count) tt ;;;
  table_bytes <- be_read_sectors (start + 1) 2 ;;
  load_entries (Z.to_nat entry_count) 0 start table_bytes.

Definition load_from_disk {E} : M (Fs D) E unit :=
  fun s => match mvfs_start s with
           | None => (s, Ok tt)
           | Some start =>
               match read_region start s with
               | (s, Ok entries) => (s <| table := entries |>, Ok tt)
               | (s, Err _) => (s, Ok tt)
               | (s, Panic) => (s, Panic)
               end
           end.

(** ** Interleaved calls

    A call changes the table under its lock, then marks its bits, then flushes:
    it waits for the flush lock, takes the dirty bits, copies the table and
    writes.  Other calls run between these steps. *)

Inductive call := CWrite (nm content : list Z) | CDelete (nm : list Z).

(** The change a call makes under the table lock, [None] when it changes
    nothing and returns. *)
Definition mutate (c : call) (t : list MvfsEntry) : option (list MvfsEntry * Z) :=
  match c with
  | CWrite nm content =>
      match validate_name nm with
      | Ok len =>
          if MVFS_MAX_FILE_SIZE <? Z.of_nat (length content) then None else
          match write_table nm len content t with Ok (t, slot) => Some (t, write_bits slot) | _ => None end
      | _ => None
      end
  | CDelete nm => match validate_name nm with Ok _ => delete_table nm t | _ => None end
  end.

Inductive pc :=
| Called (c : call)
| Mutated (bits : Z)
| Marked
| Taken (start bits : Z)
| Copied (start bits : Z) (snapshot : list MvfsEntry)
| Returned.

Record World := mkWorld { fs : Fs D; threads : gmap nat pc; flush_lock : option nat }.

Inductive step : World -> World -> Prop :=
| SCall s ts l tid c : ts !! tid = None -> step (mkWorld s ts l) (mkWorld s (<[tid := Called c]> ts) l)
| SMutate s ts l tid c t bits : ts !! tid = Some (Called c) -> mutate c (table s) = Some (t, bits) ->
    step (mkWorld s ts l) (mkWorld (s <| table := t |>) (<[tid := Mutated bits]> ts) l)
| SReject s ts l tid c : ts !! tid = Some (Called c) -> mutate c (table s) = None ->
    step (mkWorld s ts l) (mkWorld s (<[tid := Returned]> ts) l)
| SMark s ts l tid bits : ts !! tid = Some (Mutated bits) ->
    step (mkWorld s ts l) (mkWorld (mark_dirty bits s) (<[tid := Marked]> ts) l)
| SNoDisk s ts l tid : ts !! tid = Some Marked -> mvfs_start s = None ->
    step (mkWorld s ts l) (mkWorld s (<[tid := Returned]> ts) l)
| SClean s ts tid start : ts !! tid = Some Marked -> mvfs_start s = Some start -> dirty s = 0 ->
    step (mkWorld s ts None) (mkWorld s (<[tid := Returned]> ts) None)
| STake s ts tid start : ts !! tid = Some Marked -> mvfs_start s = Some start -> dirty s <> 0 ->
    step (mkWorld s ts None) (mkWorld (s <| dirty := 0 |>) (<[tid := Taken start (dirty s)]> ts) (Some tid))
| SCopy s ts tid start bits : ts !! tid = Some (Taken start bits) ->
    step (mkWorld s ts (Some tid)) (mkWorld s (<[tid := Copied start bits (table s)]> ts) (Some tid))
| SCommit s s' ts tid start bits snapshot : ts !! tid = Some (Copied start bits snapshot) ->
    commit (E := unit) start bits snapshot s = (s', Ok tt) ->
    step (mkWorld s ts (Some tid)) (mkWorld s' (<[tid := Returned]> ts) None).
End fs.

Arguments World D : clear implicits.
Arguments mkWorld {D}. Arguments fs {D}. Arguments threads {D}. Arguments flush_lock {D}.
