(* ===== verification/MvfsThm.v ===== *)
(** The mutable VFS: it is a bounded map from names to contents, and what its
    flushes leave on the disk is what the next boot loads. *)

From S2P Require Import Prelude Bytes Mvfs.

#[local] Open Scope kernel_scope.

(** ** Buffers *)

Lemma put_length off src buf : 0 <= off -> (Z.to_nat off + length src <= length buf)%nat -> length (put off src buf) = length buf.
Proof. intros Ho Hl. unfold put. rewrite !length_app, length_take, length_drop. lia. Qed.

Lemma get_put_same off src buf :
  0 <= off -> (Z.to_nat off + length src <= length buf)%nat -> get off (Z.of_nat (length src)) (put off src buf) = src.
Proof.
  intros Ho Hl. unfold get, put. rewrite Nat2Z.id, drop_app_length'; [|rewrite length_take; lia].
  by rewrite take_app_length.
Qed.

(** Reading a part of what was put. *)
Lemma get_put_in off src buf o n :
  0 <= off <= o -> 0 <= n -> o + n <= off + Z.of_nat (length src) -> (Z.to_nat off + length src <= length buf)%nat ->
  get o n (put off src buf) = get (o - off) n src.
Proof.
  intros Ho Hn Hi Hl. unfold get, put.
  replace (Z.to_nat o) with (length (take (Z.to_nat off) buf) + Z.to_nat (o - off))%nat by (rewrite length_take; lia).
  rewrite drop_app_add, drop_app_le by lia. rewrite take_app_le; [done|rewrite length_drop; lia].
Qed.

Lemma get_put_before off src buf o n :
  0 <= o -> 0 <= n -> o + n <= off -> (Z.to_nat off <= length buf)%nat -> get o n (put off src buf) = get o n buf.
Proof.
  intros Ho Hn Hi Hl. unfold get, put.
  rewrite drop_app_le by (rewrite length_take; lia). rewrite take_app_le by (rewrite length_drop, length_take; lia).
  rewrite skipn_firstn_comm, take_take. f_equal. lia.
Qed.

Lemma zeros_length n : length (zeros n) = Z.to_nat n.
Proof. apply length_replicate. Qed.

(** ** What a sector holds after an encoding *)

Definition entry_ok (e : MvfsEntry) : Prop :=
  0 < name_len e <= MVFS_MAX_NAME /\ length (name e) = 32%nat /\ Z.of_nat (length (data e)) <= MVFS_MAX_FILE_SIZE.

Definition table_ok (t : list MvfsEntry) : Prop := Z.of_nat (length t) <= MVFS_MAX_FILES /\ Forall entry_ok t.

Definition meta (e : MvfsEntry) : Z * list Z * Z := (name_len e, name e, Z.of_nat (length (data e))).

Lemma header_bytes_length n : length (header_bytes n) = 512%nat.
Proof.
  unfold header_bytes. assert (H0 : length (zeros SECTOR) = 512%nat) by apply zeros_length.
  assert (H1 : length (put 0 MVFS_MAGIC (zeros SECTOR)) = 512%nat) by (rewrite put_length; rewrite ?H0; cbn; lia).
  assert (H2 : length (put 8 (le_bytes 2 MVFS_VERSION) (put 0 MVFS_MAGIC (zeros SECTOR))) = 512%nat)
    by (rewrite put_length; rewrite ?H1; cbn; lia).
  rewrite put_length; rewrite ?H2; cbn; lia.
Qed.

Lemma header_bytes_ok n :
  0 <= n <= MVFS_MAX_FILES ->
  get 0 8 (header_bytes n) = MVFS_MAGIC /\ from_le_bytes (get 8 2 (header_bytes n)) = MVFS_VERSION /\
  from_le_bytes (get 10 2 (header_bytes n)) = n.
Proof.
  intros Hn.
  assert (Hall : forallb (fun n => bool_decide (get 0 8 (header_bytes n) = MVFS_MAGIC) &&
    (from_le_bytes (get 8 2 (header_bytes n)) =? MVFS_VERSION) && (from_le_bytes (get 10 2 (header_bytes n)) =? n))
    (seqZ 0 17) = true) by (vm_compute; reflexivity).
  rewrite forallb_forall in Hall. specialize (Hall n). rewrite <- list_elem_of_In, elem_of_seqZ in Hall.
  unfold MVFS_MAX_FILES in Hn. specialize (Hall ltac:(lia)). bool_prop. apply bool_decide_eq_true in H. by repeat split.
Qed.

Lemma record_bytes_length e : entry_ok e -> length (record_bytes e) = 37%nat.
Proof. intros (_ & Hn & _). unfold record_bytes. cbn [length]. rewrite length_app, Hn, le_bytes_length. lia. Qed.

Lemma record_bytes_read e :
  entry_ok e -> get 0 1 (record_bytes e) = [name_len e] /\ get 1 32 (record_bytes e) = name e /\
  get 33 4 (record_bytes e) = le_bytes 4 (u32 (Z.of_nat (length (data e)))).
Proof.
  intros (_ & Hn & _). unfold get, record_bytes. repeat split.
  - change (Z.to_nat 1) with 1%nat. change (Z.to_nat 32) with 32%nat.
    rewrite skipn_cons, drop_0. by rewrite take_app_length'.
  - change (Z.to_nat 33) with 33%nat. rewrite skipn_cons, drop_app_length' by done.
    apply take_ge. by rewrite le_bytes_length.
Qed.

Lemma read_record_put buf i e :
  0 <= i -> (Z.to_nat (i * 64) + 37 <= length buf)%nat -> entry_ok e ->
  read_record (put (i * MVFS_TABLE_RECORD) (record_bytes e) buf) i = meta e.
Proof.
  intros Hi Hl He. pose proof (record_bytes_length e He) as Hlen. destruct (record_bytes_read e He) as (H1 & H2 & H3).
  unfold read_record, MVFS_TABLE_RECORD, MVFS_MAX_NAME. cbv zeta.
  rewrite !get_put_in; rewrite ?Hlen; try lia.
  replace (i * 64 - i * 64) with 0 by lia. replace (i * 64 + 1 - i * 64) with 1 by lia. replace (i * 64 + 33 - i * 64) with 33 by lia.
  rewrite H1, H2, H3, from_to_le_bytes. destruct He as (Hn & _ & Hd). unfold MVFS_MAX_NAME, MVFS_MAX_FILE_SIZE in *.
  unfold meta, wrap. rewrite Z.mod_mod, Z.mod_small by lia. cbn [from_le_bytes]. do 2 f_equal. lia.
Qed.

Lemma table_bytes_spec t base buf :
  0 <= base -> Forall entry_ok t -> (Z.to_nat base + 64 * length t <= length buf)%nat ->
  length (table_bytes t base buf) = length buf /\
  forall o n, 0 <= o -> 0 <= n -> o + n <= base -> get o n (table_bytes t base buf) = get o n buf.
Proof.
  revert base buf. induction t as [|e t IH]; intros base buf Hb Ht Hl; [done|].
  inversion_clear Ht as [|? ? He Ht']. pose proof (record_bytes_length e He) as Hr. cbn [length] in Hl.
  unfold MVFS_TABLE_RECORD. cbn [table_bytes].
  assert (Hp : length (put base (record_bytes e) buf) = length buf) by (apply put_length; lia).
  destruct (IH (base + MVFS_TABLE_RECORD) (put base (record_bytes e) buf)) as [IHl IHg];
    [unfold MVFS_TABLE_RECORD; lia|done|unfold MVFS_TABLE_RECORD; lia|].
  rewrite IHl. split; [done|]. intros o n Ho Hn Hon. rewrite IHg by (unfold MVFS_TABLE_RECORD; lia).
  apply get_put_before; lia.
Qed.

Lemma table_bytes_record t k buf i e :
  0 <= k -> Forall entry_ok t -> (Z.to_nat (k * 64) + 64 * length t <= length buf)%nat -> t !! i = Some e ->
  read_record (table_bytes t (k * MVFS_TABLE_RECORD) buf) (k + Z.of_nat i) = meta e.
Proof.
  revert k buf i. induction t as [|e0 t IH]; intros k buf i Hk Ht Hl Hi; [done|].
  inversion_clear Ht as [|? ? He Ht']. cbn [length] in Hl. cbn [table_bytes].
  pose proof (record_bytes_length e0 He) as Hr.
  assert (Hp : length (put (k * MVFS_TABLE_RECORD) (record_bytes e0) buf) = length buf)
    by (apply put_length; unfold MVFS_TABLE_RECORD; lia).
  replace (k * MVFS_TABLE_RECORD + MVFS_TABLE_RECORD) with ((k + 1) * MVFS_TABLE_RECORD) by lia.
  destruct i as [|i]; cbn in Hi.
  - injection Hi as ->. rewrite Z.add_0_r.
    destruct (table_bytes_spec t ((k + 1) * MVFS_TABLE_RECORD) (put (k * MVFS_TABLE_RECORD) (record_bytes e) buf)) as [_ Hg];
      [unfold MVFS_TABLE_RECORD; lia|done|rewrite Hp; unfold MVFS_TABLE_RECORD; lia|].
    rewrite <- (read_record_put buf k e) by first [lia|done].
    unfold read_record. cbv zeta. unfold MVFS_MAX_NAME. rewrite !Hg by (unfold MVFS_TABLE_RECORD; lia). done.
  - replace (k + Z.of_nat (S i)) with ((k + 1) + Z.of_nat i) by lia. apply IH; [lia|done| |done].
    rewrite Hp. lia.
Qed.

(** ** Drivers *)

(** [n] sectors from [start] on. *)
Definition region (f : Z -> list Z) (start n : Z) : list Z := concat (f <$> seqZ start n).

(** What a block driver promises: operations keep the size of the disk, reads
    return what is there, a write that succeeds puts its data there, and a write
    touches no sector outside its range, failed or not. *)
Class DriverLaws (D : Type) `{BlockDriver D} := {
  sector : D -> Z -> list Z;
  sector_length d i : length (sector d i) = 512%nat;
  read_sectors_ok start n d d' r : read_sectors start n d = (d', r) ->
    is_initialized d' = is_initialized d /\ capacity d' = capacity d /\ (forall i, sector d' i = sector d i) /\
    (forall l, r = Some l -> l = region (sector d) start n);
  block_read_one start d : block_read start d = read_sectors start 1 d;
  write_sectors_ok start buf n d d' ok : write_sectors start buf n d = (d', ok) ->
    is_initialized d' = is_initialized d /\ capacity d' = capacity d /\
    (forall i, ~ start <= i < start + n -> sector d' i = sector d i) /\
    (ok = true -> Z.of_nat (length buf) = SECTOR * n -> region (sector d') start n = buf);
  block_write_one start buf d : block_write start buf d = write_sectors start buf 1 d
}.

(** A disk on which no access fails. *)
Class Reliable (D : Type) `{BlockDriver D} := {
  reads_succeed start n d : is_Some (read_sectors start n d).2;
  writes_succeed start buf n d : (write_sectors start buf n d).2 = true
}.

Lemma region_one f s : region f s 1 = f s.
Proof. unfold region. change (seqZ s 1) with [Z.of_nat 0 + s]. cbn. by rewrite app_nil_r. Qed.

Lemma region_ext f g s n : (forall i, s <= i < s + n -> f i = g i) -> region f s n = region g s n.
Proof. intros Hfg. unfold region. f_equal. apply list_fmap_ext. intros k i Hi. apply lookup_seqZ in Hi. apply Hfg. lia. Qed.

Section disk.
Context {D : Type} `{DriverLaws D}.

Definition base (s : Fs D) : Z := be_capacity s - MVFS_SECTORS.
Definition at_disk (s : Fs D) : Z -> list Z := sector (active_disk s).

(** The parts of the region: the header and the table, and each data slot. *)
Definition header_ok (f : Z -> list Z) (start : Z) (t : list MvfsEntry) : Prop :=
  get 0 8 (f start) = MVFS_MAGIC /\ from_le_bytes (get 8 2 (f start)) = MVFS_VERSION /\
  from_le_bytes (get 10 2 (f start)) = Z.of_nat (length t) /\
  forall i e, t !! i = Some e -> read_record (region f (start + 1) 2) (Z.of_nat i) = meta e.

Definition slot_ok (f : Z -> list Z) (start i : Z) (e : MvfsEntry) : Prop :=
  get 0 (Z.of_nat (length (data e))) (region f (start + 4 + i * MVFS_SLOT_SECTORS) MVFS_SLOT_SECTORS) = data e.

(** The disk agrees with the table but for the bits in [P]. *)
Definition covers (P : Z -> Prop) (t : list MvfsEntry) (f : Z -> list Z) (start : Z) : Prop :=
  (P 31 \/ header_ok f start t) /\ forall i e, t !! i = Some e -> P (Z.of_nat i) \/ slot_ok f start (Z.of_nat i) e.

(** [s'] differs from [s] on the disk only. *)
Definition same_but_disk (s s' : Fs D) : Prop :=
  table s' = table s /\ dirty s' = dirty s /\ active s' = active s /\
  be_is_initialized s' = be_is_initialized s /\ be_capacity s' = be_capacity s.

(** And there only in the parts [P]. *)
Definition disk_step (P : Z -> Prop) (start : Z) (s s' : Fs D) : Prop :=
  same_but_disk s s' /\
  (P 31 \/ forall i, start <= i < start + 3 -> at_disk s' i = at_disk s i) /\
  (forall k, 0 <= k -> P k \/ forall i, start + 4 + k * 8 <= i < start + 4 + k * 8 + 8 -> at_disk s' i = at_disk s i).

Lemma same_but_disk_refl s : same_but_disk s s.
Proof. done. Qed.

Lemma same_but_disk_trans s1 s2 s3 : same_but_disk s1 s2 -> same_but_disk s2 s3 -> same_but_disk s1 s3.
Proof. intros (?&?&?&?&?) (?&?&?&?&?). repeat split; congruence. Qed.

Lemma disk_step_refl P start s : disk_step P start s s.
Proof. by repeat split; intros; right. Qed.

Lemma disk_step_trans P start s1 s2 s3 : disk_step P start s1 s2 -> disk_step P start s2 s3 -> disk_step P start s1 s3.
Proof.
  intros (A1 & A6 & A7) (B1 & B6 & B7). split; [by eapply same_but_disk_trans|]. split.
  - destruct A6 as [?|A6]; [by left|]. destruct B6 as [?|B6]; [by left|]. right. intros i Hi. rewrite B6, A6; done.
  - intros k Hk. destruct (A7 k Hk) as [?|A]; [by left|]. destruct (B7 k Hk) as [?|B]; [by left|].
    right. intros i Hi. rewrite B, A; done.
Qed.

Lemma disk_step_weaken (P Q : Z -> Prop) start s s' : (forall k, P k -> Q k) -> disk_step P start s s' -> disk_step Q start s s'.
Proof.
  intros HPQ (A1 & A6 & A7). split; [done|]. split; [destruct A6; auto|].
  intros k Hk. destruct (A7 k Hk); auto.
Qed.

Lemma active_disk_set d (s : Fs D) : active_disk (set_active_disk d s) = d.
Proof. unfold active_disk, set_active_disk. by destruct (active s) eqn:Ha; cbn; rewrite Ha. Qed.

Lemma set_active_disk_same d (s : Fs D) :
  is_initialized d = be_is_initialized s -> capacity d = be_capacity s -> same_but_disk s (set_active_disk d s).
Proof.
  intros Hi Hc. unfold same_but_disk, be_is_initialized, be_capacity. rewrite active_disk_set.
  unfold set_active_disk. destruct (active s) eqn:Ha; cbn; by rewrite ?Ha.
Qed.

(** A read changes nothing that matters and returns what is there. *)
Lemma be_read_sectors_ok (s : Fs D) start n :
  exists s' r, be_read_sectors start n s = (s', r) /\ same_but_disk s s' /\ (forall i, at_disk s' i = at_disk s i) /\
    match r with Ok l => l = region (at_disk s) start n | Err _ => True | Panic => False end /\
    read_sectors start n (active_disk s) = (active_disk s', match r with Ok l => Some l | _ => None end).
Proof.
  unfold be_read_sectors, on_backend, M_bind. destruct (read_sectors start n (active_disk s)) as [d' r] eqn:Hr.
  destruct (read_sectors_ok _ _ _ _ _ Hr) as (Hi & Hc & Hs & Hl).
  exists (set_active_disk d' s), (match r with Some l => Ok l | None => Err tt end).
  split; [by destruct r|]. split; [by apply set_active_disk_same|]. unfold at_disk. rewrite active_disk_set.
  split; [done|]. split; [destruct r; [by apply Hl|done]|]. by destruct r.
Qed.

Lemma be_block_read_one start (s : Fs D) : be_block_read start s = be_read_sectors start 1 s.
Proof. unfold be_block_read, be_read_sectors, on_backend, M_bind. by rewrite block_read_one. Qed.

Lemma be_write_sectors_ok (s : Fs D) start buf n :
  exists s' r, be_write_sectors start buf n s = (s', r) /\ same_but_disk s s' /\
    (forall i, ~ start <= i < start + n -> at_disk s' i = at_disk s i) /\
    match r with
    | Ok _ => Z.of_nat (length buf) = SECTOR * n -> region (at_disk s') start n = buf
    | Err _ => True
    | Panic => False
    end /\ (Reliable D -> r = Ok tt).
Proof.
  unfold be_write_sectors, on_backend, M_bind. destruct (write_sectors start buf n (active_disk s)) as [d' ok] eqn:Hw.
  destruct (write_sectors_ok _ _ _ _ _ _ Hw) as (Hi & Hc & Hs & Hl).
  exists (set_active_disk d' s), (if ok then Ok tt else Err tt).
  split; [by destruct ok|]. split; [by apply set_active_disk_same|]. unfold at_disk. rewrite active_disk_set.
  split; [done|]. split; [destruct ok; [by apply Hl|done]|].
  intros HR. pose proof (writes_succeed start buf n (active_disk s)) as Hok. rewrite Hw in Hok. cbn in Hok. by rewrite Hok.
Qed.

Lemma be_block_write_one start buf (s : Fs D) : be_block_write start buf s = be_write_sectors start buf 1 s.
Proof. unfold be_block_write, be_write_sectors, on_backend, M_bind. by rewrite block_write_one. Qed.

(** ** Flushing *)

Lemma header_ok_ext f g start t : (forall i, start <= i < start + 3 -> f i = g i) -> header_ok f start t -> header_ok g start t.
Proof.
  intros Hfg (H1 & H2 & H3 & H4). unfold header_ok. rewrite <- (Hfg start) by lia.
  rewrite <- (region_ext f g (start + 1) 2) by (intros; apply Hfg; lia). done.
Qed.

Lemma slot_ok_ext f g start k e :
  (forall i, start + 4 + k * 8 <= i < start + 4 + k * 8 + 8 -> f i = g i) -> slot_ok f start k e -> slot_ok g start k e.
Proof. intros Hfg. unfold slot_ok, MVFS_SLOT_SECTORS. by rewrite (region_ext f g) by done. Qed.

Lemma flush_header_ok (s : Fs D) start t :
  table_ok t ->
  exists s' r, flush_header start t s = (s', r) /\ r <> Panic /\ disk_step (eq 31) start s s' /\
    (r = Ok tt -> header_ok (at_disk s') start t) /\ (Reliable D -> r = Ok tt).
Proof.
  intros [Hn Ht]. unfold flush_header, M_bind. rewrite be_block_write_one.
  destruct (be_write_sectors_ok s start (header_bytes (Z.of_nat (length t))) 1) as (s1 & r1 & -> & Hs1 & Ho1 & Hr1 & HR1).
  destruct r1 as [[]|[]|]; [|exists s1, (Err tt)|done].
  2:{ split; [done|]. split; [done|]. split; [|split; [done|intros HR; by specialize (HR1 HR)]].
      split; [done|]. split; [by left|]. intros k Hk. right. intros i Hi. apply Ho1. lia. }
  destruct (SECTOR * 2 <? Z.of_nat (length t) * MVFS_TABLE_RECORD) eqn:Hlt.
  { bool_prop. unfold SECTOR, MVFS_TABLE_RECORD, MVFS_MAX_FILES in *. lia. }
  destruct (be_write_sectors_ok s1 (start + 1) (table_bytes t 0 (zeros (SECTOR * 2))) 2) as (s2 & r2 & -> & Hs2 & Ho2 & Hr2 & HR2).
  exists s2, r2. split; [done|]. split; [by destruct r2|]. split; [|split; [|done]].
  { split; [by eapply same_but_disk_trans|]. split; [by left|]. intros k Hk. right. intros i Hi. rewrite Ho2, Ho1; [done|lia|lia]. }
  intros ->. assert (Hl : (Z.to_nat 0 + 64 * length t <= length (zeros (SECTOR * 2)))%nat).
  { rewrite zeros_length. change (Z.to_nat (SECTOR * 2)) with 1024%nat. unfold MVFS_MAX_FILES in Hn. lia. }
  destruct (table_bytes_spec t 0 (zeros (SECTOR * 2))) as [Hlen _]; [lia|done|done|].
  unfold header_ok. rewrite Ho2 by lia. rewrite <- (region_one (at_disk s1) start).
  rewrite Hr1 by (rewrite header_bytes_length; done).
  destruct (header_bytes_ok (Z.of_nat (length t))) as (E1 & E2 & E3); [lia|]. split; [done|]. split; [done|]. split; [done|].
  intros i e Hi. rewrite Hr2 by (rewrite Hlen, zeros_length; done).
  by apply (table_bytes_record t 0 (zeros (SECTOR * 2)) i e).
Qed.

Lemma land_pow2 a i : 0 <= i -> (Z.land a (2 ^ i) =? 0) = negb (Z.testbit a i).
Proof.
  intros Hi. destruct (Z.testbit a i) eqn:Hb; cbn; [apply Z.eqb_neq|apply Z.eqb_eq].
  - intros Hzero. assert (Hf : Z.testbit (Z.land a (2 ^ i)) i = false) by (rewrite Hzero; apply Z.bits_0).
    by rewrite Z.land_spec, Hb, Z.pow2_bits_true in Hf.
  - apply Z.bits_inj'. intros n Hn. rewrite Z.land_spec, Z.pow2_bits_eqb, Z.bits_0 by done.
    destruct (Z.eqb_spec i n) as [<-|]; [by rewrite Hb|apply andb_false_r].
Qed.

Lemma slot_mask i : 0 <= i < 32 -> u32 (Z.shiftl 1 i) = 2 ^ i.
Proof.
  intros Hi. rewrite Z.shiftl_1_l. apply wrap_small. split; [lia|]. apply Z.pow_lt_mono_r; lia.
Qed.

Lemma flush_slots_ok start bits t i (s : Fs D) :
  0 <= i -> i + Z.of_nat (length t) <= MVFS_MAX_FILES -> Forall entry_ok t ->
  exists s' r, flush_slots start bits i t s = (s', r) /\ r <> Panic /\
    disk_step (fun k => i <= k < i + Z.of_nat (length t) /\ Z.testbit bits k = true) start s s' /\
    (r = Ok tt -> forall k e, t !! k = Some e -> Z.testbit bits (i + Z.of_nat k) = true -> slot_ok (at_disk s') start (i + Z.of_nat k) e) /\
    (Reliable D -> r = Ok tt).
Proof.
  revert i s. induction t as [|e t IH]; intros i s Hi Hn Ht.
  { exists s, (Ok tt). repeat split; try done; intros; by right. }
  inversion_clear Ht as [|? ? He Ht']. cbn [length] in Hn. unfold MVFS_MAX_FILES in Hn. cbn [flush_slots]. unfold M_bind at 1.
  rewrite slot_mask, land_pow2 by lia.
  destruct (Z.testbit bits i) eqn:Hb; cbn [negb].
  2:{ unfold M_ret at 1. cbv beta iota. destruct (IH (i + 1) s) as (s' & r & -> & Hp & Hd & Ho & HR); [lia|unfold MVFS_MAX_FILES; lia|done|].
      exists s', r. split; [done|]. split; [done|]. split; [eapply disk_step_weaken, Hd; intros k [? ?]; split; [cbn [length]; lia|done]|]. split; [|done].
      intros Hr [|k] e' Hk Hbk; cbn in Hk; [rewrite Z.add_0_r, Hb in Hbk; done|].
      replace (i + Z.of_nat (S k)) with (i + 1 + Z.of_nat k) in * by lia. by apply Ho. }
  pose proof He as (_ & _ & Hdata). destruct (MVFS_MAX_FILE_SIZE <? Z.of_nat (length (data e))) eqn:Hlt; [bool_prop; lia|].
  set (buf := put 0 (data e) (zeros MVFS_MAX_FILE_SIZE)).
  assert (Hbuf : (Z.to_nat 0 + length (data e) <= length (zeros MVFS_MAX_FILE_SIZE))%nat).
  { rewrite zeros_length. unfold MVFS_MAX_FILE_SIZE in *. lia. }
  destruct (be_write_sectors_ok s (start + 4 + i * MVFS_SLOT_SECTORS) buf MVFS_SLOT_SECTORS) as (s1 & r1 & -> & Hs1 & Ho1 & Hr1 & HR1).
  unfold MVFS_SLOT_SECTORS in Ho1, Hr1.
  assert (Hd1 : disk_step (fun k => i <= k < i + Z.of_nat (S (length t)) /\ Z.testbit bits k = true) start s s1).
  { split; [done|]. split; [right; intros j Hj; apply Ho1; lia|]. intros k Hk.
    destruct (decide (k = i)) as [->|Hki]; [left; split; [lia|done]|right; intros j Hj; apply Ho1; lia]. }
  destruct r1 as [[]|[]|]; [|exists s1, (Err tt)|done].
  2:{ split; [done|]. split; [done|]. split; [done|]. split; [done|]. intros HR. by specialize (HR1 HR). }
  destruct (IH (i + 1) s1) as (s2 & r2 & -> & Hp2 & Hd2 & Hok2 & HR2); [lia|unfold MVFS_MAX_FILES; lia|done|].
  exists s2, r2. split; [done|]. split; [done|].
  split; [eapply disk_step_trans; [done|eapply disk_step_weaken, Hd2; intros k [? ?]; split; [cbn [length]; lia|done]]|]. split; [|done].
  intros Hr [|k] e' Hk Hbk; cbn in Hk.
  - injection Hk as <-. rewrite Z.add_0_r. destruct Hd2 as (_ & _ & Hk2). destruct (Hk2 i Hi) as [[? _]|Hsame]; [lia|].
    apply (slot_ok_ext (at_disk s1)); [intros; symmetry; by apply Hsame|]. unfold slot_ok, MVFS_SLOT_SECTORS.
    rewrite Hr1; [apply get_put_same; [lia|done]|]. unfold buf. rewrite put_length by (lia || done). by rewrite zeros_length.
  - replace (i + Z.of_nat (S k)) with (i + 1 + Z.of_nat k) in * by lia. by apply Hok2.
Qed.

(** The writes of a flush: the parts named by the bits hold the snapshot when
    every write succeeds, the other parts are not touched. *)
Lemma flush_snapshot_ok start bits t (s : Fs D) :
  table_ok t ->
  exists s' r, flush_snapshot start bits t s = (s', r) /\ r <> Panic /\
    disk_step (fun k => Z.testbit bits k = true) start s s' /\
    (r = Ok tt -> (Z.testbit bits 31 = true -> header_ok (at_disk s') start t) /\
       forall k e, t !! k = Some e -> Z.testbit bits (Z.of_nat k) = true -> slot_ok (at_disk s') start (Z.of_nat k) e) /\
    (Reliable D -> r = Ok tt).
Proof.
  intros Htab. pose proof Htab as [Hn Ht]. unfold flush_snapshot, M_bind at 1.
  unfold DIRTY_HEADER. rewrite Z.shiftl_1_l, land_pow2 by lia.
  assert (Hslots : forall s1, exists s' r, flush_slots start bits 0 t s1 = (s', r) /\ r <> Panic /\
    disk_step (fun k => k <> 31 /\ Z.testbit bits k = true) start s1 s' /\
    (r = Ok tt -> forall k e, t !! k = Some e -> Z.testbit bits (Z.of_nat k) = true -> slot_ok (at_disk s') start (Z.of_nat k) e) /\
    (Reliable D -> r = Ok tt)).
  { intros s1. destruct (flush_slots_ok start bits t 0 s1) as (s' & r & Hf & Hp & Hd & Hok & HR); [lia|lia|done|].
    exists s', r. repeat split; try done. all: destruct Hd as (Hd & Hh & Hk); try apply Hd.
    - destruct Hh as [[? _]|Hh]; [unfold MVFS_MAX_FILES in Hn; lia|by right].
    - intros k Hk0. destruct (Hk k Hk0) as [[? ?]|]; [left; unfold MVFS_MAX_FILES in Hn; split; [lia|done]|by right]. }
  destruct (Z.testbit bits 31) eqn:Hb; cbn [negb].
  - destruct (flush_header_ok s start t Htab) as (s1 & r1 & -> & Hp1 & Hd1 & Hok1 & HR1).
    assert (Hd1' : disk_step (fun k => Z.testbit bits k = true) start s s1) by (eapply disk_step_weaken, Hd1; intros k <-; done).
    destruct r1 as [[]|[]|]; [|exists s1, (Err tt)|done].
    2:{ repeat split; try done; apply Hd1'. }
    destruct (Hslots s1) as (s2 & r2 & -> & Hp2 & Hd2 & Hok2 & HR2). exists s2, r2. split; [done|]. split; [done|].
    split; [eapply disk_step_trans; [done|eapply disk_step_weaken, Hd2; by intros k []]|]. split; [|done].
    intros Hr. split; [intros _|by apply Hok2]. destruct Hd2 as (_ & [[? _]|Hh] & _); [done|].
    apply (header_ok_ext (at_disk s1)); [intros; symmetry; by apply Hh|by apply Hok1].
  - unfold M_ret at 1. cbv beta iota. destruct (Hslots s) as (s2 & r2 & -> & Hp2 & Hd2 & Hok2 & HR2). exists s2, r2. split; [done|]. split; [done|].
    split; [eapply disk_step_weaken, Hd2; by intros k []|]. split; [|done]. intros Hr. split; [done|by apply Hok2].
Qed.

(** A flush never panics, writes the parts named by the bits, and either they
    hold the snapshot or their bits are marked again. *)
Lemma commit_ok {E} start bits t (s s' : Fs D) r :
  table_ok t -> commit (E := E) start bits t s = (s', r) ->
  r = Ok tt /\ disk_step (fun k => Z.testbit bits k = true) start (s <| dirty := dirty s' |>) s' /\
  ((dirty s' = dirty s /\ (Z.testbit bits 31 = true -> header_ok (at_disk s') start t) /\
    (forall k e, t !! k = Some e -> Z.testbit bits (Z.of_nat k) = true -> slot_ok (at_disk s') start (Z.of_nat k) e)) \/
   dirty s' = Z.lor (dirty s) bits /\ ~ inhabited (Reliable D)).
Proof.
  intros Ht. unfold commit. destruct (flush_snapshot_ok start bits t s Ht) as (s1 & r1 & -> & Hp & Hd & Hok & HR).
  pose proof Hd as ((E1 & E2 & E3 & E4 & E5) & Hh & Hk).
  destruct r1 as [[]|[]|]; [| |done]; intros [= <- <-]; (split; [done|]).
  - split; [|left; split; [done|by apply Hok]]. split; [|split; [apply Hh|apply Hk]]. by repeat split.
  - split; [|right; cbn; rewrite E2; split; [done|]; intros [HR1]; by specialize (HR HR1)].
    split; [|split; [apply Hh|apply Hk]]. by repeat split.
Qed.
End disk.

(** ** The changes of the table *)

Lemma overwrite_spec nm content t i :
  match overwrite nm content t i with
  | Some (t', j) => exists k e, j = i + Z.of_nat k /\ t !! k = Some e /\ name_bytes e = nm /\
      t' = <[k := mkEntry (name_len e) (name e) content]> t
  | None => Forall (fun e => name_bytes e <> nm) t
  end.
Proof.
  revert i. induction t as [|e t IH]; intros i; cbn [overwrite]; [by constructor|].
  destruct (decide (name_bytes e = nm)) as [He|He]; [exists 0%nat, e; split; [lia|done]|].
  specialize (IH (i + 1)). destruct (overwrite nm content t (i + 1)) as [[t' j]|]; [|by constructor].
  destruct IH as (k & e' & -> & Hk & Hn & ->). exists (S k), e'. split; [lia|done].
Qed.

Lemma position_spec nm t i :
  match position nm t i with
  | Some j => exists k e, j = i + Z.of_nat k /\ t !! k = Some e /\ name_bytes e = nm /\ Forall (fun e => name_bytes e <> nm) (take k t)
  | None => Forall (fun e => name_bytes e <> nm) t
  end.
Proof.
  revert i. induction t as [|e t IH]; intros i; cbn [position]; [by constructor|].
  destruct (decide (name_bytes e = nm)) as [He|He]; [exists 0%nat, e; split; [lia|done]|].
  specialize (IH (i + 1)). destruct (position nm t (i + 1)) as [j|]; [|by constructor].
  destruct IH as (k & e' & -> & Hk & Hn & Hf). exists (S k), e'. split; [lia|]. split; [done|]. split; [done|]. by constructor.
Qed.

Lemma validate_name_ok nm n : validate_name nm = Ok n <-> 0 < Z.of_nat (length nm) <= MVFS_MAX_NAME /\ n = Z.of_nat (length nm).
Proof.
  unfold validate_name, MVFS_MAX_NAME. destruct (_ || _) eqn:Hb; bool_prop.
  - split; [done|]. lia.
  - rewrite wrap_small by (unfold in_width; lia). split; [intros [= <-]; lia|]. intros [_ ->]. done.
Qed.

Lemma new_entry_ok nm n content :
  validate_name nm = Ok n -> Z.of_nat (length content) <= MVFS_MAX_FILE_SIZE ->
  entry_ok (mkEntry n (put 0 nm (zeros MVFS_MAX_NAME)) content) /\
  name_bytes (mkEntry n (put 0 nm (zeros MVFS_MAX_NAME)) content) = nm.
Proof.
  intros [Hn ->]%validate_name_ok Hc. unfold MVFS_MAX_NAME in *.
  assert (Hl : (Z.to_nat 0 + length nm <= length (zeros 32))%nat) by (rewrite zeros_length; lia).
  split.
  - split; [cbn; unfold MVFS_MAX_NAME; lia|]. split; [|done]. cbn [name]. rewrite put_length by first [lia|done]. apply zeros_length.
  - unfold name_bytes. cbn [name_len name]. apply (get_put_same 0 nm _ ltac:(lia) Hl).
Qed.

Lemma bit_of_write slot k : 0 <= slot < 16 -> 0 <= k -> Z.testbit (write_bits slot) k = (k =? slot) || (k =? 31).
Proof.
  intros Hs Hk. unfold write_bits, DIRTY_HEADER. rewrite slot_mask, Z.shiftl_1_l by lia.
  rewrite Z.lor_spec, !Z.pow2_bits_eqb by lia. by rewrite (Z.eqb_sym slot), (Z.eqb_sym 31).
Qed.

Lemma bit_of_delete t t' nm bits :
  Z.of_nat (length t) <= MVFS_MAX_FILES -> delete_table nm t = Some (t', bits) ->
  exists i e, t !! i = Some e /\ name_bytes e = nm /\ Forall (fun e => name_bytes e <> nm) (take i t) /\ t' = base.delete i t /\
    forall k, 0 <= k -> Z.testbit bits k = (Z.of_nat i <=? k) && (k <? Z.of_nat (length t)) || (k =? 31).
Proof.
  intros Hl. unfold delete_table. pose proof (position_spec nm t 0) as Hp. destruct (position nm t 0) as [j|]; [|done].
  destruct Hp as (i & e & -> & Hi & Hn & Hf). pose proof (lookup_lt_Some _ _ _ Hi) as Hlt. unfold MVFS_MAX_FILES in Hl.
  destruct (32 <=? Z.of_nat (length t)) eqn:H32; [bool_prop; lia|]. cbv zeta. intros [= <- <-].
  exists i, e. split; [done|]. split; [done|]. split; [done|]. split.
  { rewrite delete_take_drop. by rewrite Z.add_0_l, Nat2Z.id. }
  intros k Hk. unfold DIRTY_HEADER. rewrite Z.add_0_l, !slot_mask, Z.shiftl_1_l by lia.
  rewrite Z.lor_spec, Z.ldiff_spec, !Z.pow2_bits_eqb, (Z.eqb_sym 31) by lia. f_equal.
  rewrite !Z.sub_1_r, <- !Z.ones_equiv, !Z.testbit_ones_nonneg by lia.
  destruct (Z.leb_spec (Z.of_nat i) k), (Z.ltb_spec k (Z.of_nat (length t))), (Z.ltb_spec k (Z.of_nat i)); cbn; lia.
Qed.

Lemma write_table_spec nm n content t r :
  validate_name nm = Ok n -> write_table nm n content t = r ->
  match r with
  | Ok (t', slot) => exists k e, slot = Z.of_nat k /\ name_bytes e = nm /\ data e = content /\ t' !! k = Some e /\
      ((k < length t)%nat /\ (exists e0, t !! k = Some e0 /\ name_bytes e0 = nm /\ name_len e = name_len e0 /\ name e = name e0) /\
       t' = <[k := e]> t \/
       k = length t /\ Z.of_nat k < MVFS_MAX_FILES /\ Forall (fun e => name_bytes e <> nm) t /\
       e = mkEntry n (put 0 nm (zeros MVFS_MAX_NAME)) content /\ t' = t ++ [e])
  | Err e => e = TableFull /\ MVFS_MAX_FILES <= Z.of_nat (length t) /\ Forall (fun e => name_bytes e <> nm) t
  | Panic => False
  end.
Proof.
  intros Hv <-. unfold write_table. pose proof (overwrite_spec nm content t 0) as Ho.
  destruct (overwrite nm content t 0) as [[t' j]|].
  - destruct Ho as (k & e & -> & Hk & Hn & ->). pose proof (lookup_lt_Some _ _ _ Hk) as Hlt.
    exists k, (mkEntry (name_len e) (name e) content). split; [lia|]. split; [done|]. split; [done|].
    split; [by apply list_lookup_insert_eq|]. left. split; [done|]. split; [by exists e|done].
  - cbv zeta. destruct (MVFS_MAX_FILES <=? Z.of_nat (length t)) eqn:Hb; bool_prop; [done|].
    exists (length t), (mkEntry n (put 0 nm (zeros MVFS_MAX_NAME)) content). split; [done|].
    split.
    { apply validate_name_ok in Hv as [Hn ->]. unfold MVFS_MAX_NAME in *. unfold name_bytes. cbn [name_len name].
      apply (get_put_same 0 nm); [lia|rewrite zeros_length; lia]. }
    split; [done|]. split; [by rewrite list_lookup_middle|]. right. split; [done|]. split; [lia|]. done.
Qed.

(** A call that changes the table marks the header and every slot it changes. *)
Lemma mutate_marks c t t' bits :
  table_ok t -> mutate c t = Some (t', bits) ->
  table_ok t' /\ Z.testbit bits 31 = true /\
  forall k e, t' !! k = Some e -> t !! k = Some e \/ Z.testbit bits (Z.of_nat k) = true.
Proof.
  intros [Hl Ht]. destruct c as [nm content|nm]; cbn [mutate].
  - destruct (validate_name nm) as [n| |] eqn:Hv; [|done|done].
    destruct (MVFS_MAX_FILE_SIZE <? Z.of_nat (length content)) eqn:Hc; bool_prop; [done|].
    pose proof (write_table_spec nm n content t _ Hv eq_refl) as Hw.
    destruct (write_table nm n content t) as [[t1 slot]| |]; [|done|done]. intros [= <- <-].
    destruct Hw as (k & e & -> & Hn & Hd & Hk & Hw).
    assert (Hk16 : 0 <= Z.of_nat k < 16).
    { destruct Hw as [(Hlt & _)|(_ & Hlt & _)]; unfold MVFS_MAX_FILES in *; lia. }
    assert (He : entry_ok e).
    { destruct Hw as [(_ & (e0 & He0 & _ & E1 & E2) & _)|(_ & _ & _ & -> & _)]; [|by apply (new_entry_ok nm)].
      destruct (Forall_lookup_1 _ _ _ _ Ht He0) as (A & B & _). unfold entry_ok. rewrite E1, E2, Hd. done. }
    split; [|split; [rewrite bit_of_write by lia; by rewrite orb_true_r|]].
    + destruct Hw as [(_ & _ & ->)|(E & Hlt & _ & _ & ->)]; (split; [|]).
      * by rewrite length_insert.
      * by apply Forall_insert.
      * rewrite length_app. cbn. lia.
      * apply Forall_app. split; [done|by apply Forall_singleton].
    + intros j e' Hj. destruct (decide (j = k)) as [->|Hjk]; [right; rewrite bit_of_write by lia; by rewrite Z.eqb_refl|left].
      destruct Hw as [(_ & _ & ->)|(E & Hlt & _ & _ & ->)]; [by rewrite list_lookup_insert_ne in Hj|].
      apply lookup_app_Some in Hj as [?|[? Hj]]; [done|]. apply list_lookup_singleton_Some in Hj as [? _]. lia.
  - destruct (validate_name nm) as [n| |] eqn:Hv; [|done|done]. intros Hd.
    destruct (bit_of_delete _ _ _ _ Hl Hd) as (i & e & Hi & _ & _ & -> & Hbits).
    pose proof (lookup_lt_Some _ _ _ Hi) as Hlt. split; [|split; [rewrite Hbits by lia; by rewrite orb_true_r|]].
    + split; [rewrite length_delete by eauto; lia|]. by apply Forall_delete.
    + intros k e' Hk. destruct (decide (k < i)%nat); [left; by rewrite list_lookup_delete_lt in Hk|right].
      rewrite list_lookup_delete_ge in Hk by lia. apply lookup_lt_Some in Hk. rewrite Hbits by lia.
      apply orb_true_iff. left. apply andb_true_iff. lia.
Qed.

(** ** Loading *)

Section load.
Context {D : Type} `{DriverLaws D}.

Definition same_disk (s s' : Fs D) : Prop := same_but_disk s s' /\ forall i, at_disk s' i = at_disk s i.

Lemma same_disk_trans s1 s2 s3 : same_disk s1 s2 -> same_disk s2 s3 -> same_disk s1 s3.
Proof. intros [? A] [? B]. split; [by eapply same_but_disk_trans|]. intros i. by rewrite B, A. Qed.

Lemma slot_ok_same s s' start k e : same_disk s s' -> slot_ok (at_disk s) start k e -> slot_ok (at_disk s') start k e.
Proof. intros [_ Hs]. apply slot_ok_ext. intros. symmetry. apply Hs. Qed.

(** A request for sectors of the file region at [b] that the driver answered, and
    one that it refused after answering others. *)
Definition reads (b : Z) : D -> D -> Prop :=
  rtc (fun d d' => exists start n, b <= start /\ 0 < n /\ start + n <= b + MVFS_SECTORS /\ (read_sectors start n d).1 = d').

Definition read_refused (b : Z) (d d'' : D) : Prop :=
  exists d' start n, reads b d d' /\ b <= start /\ 0 < n /\ start + n <= b + MVFS_SECTORS /\ read_sectors start n d' = (d'', None).

(** What a load did to the disk, by its outcome: it read, or a read was refused. *)
Definition outcome_of {A} (b : Z) (r : outcome unit A) (d d'' : D) : Prop :=
  match r with Ok _ => reads b d d'' | _ => read_refused b d d'' end.

Lemma reads_one b start n d d' r : b <= start -> 0 < n -> start + n <= b + MVFS_SECTORS ->
  read_sectors start n d = (d', r) -> reads b d d'.
Proof. intros ? ? ? Hr. apply rtc_once. exists start, n. by rewrite Hr. Qed.

Lemma outcome_after {A} b (r : outcome unit A) d d' d'' : reads b d d' -> outcome_of b r d' d'' -> outcome_of b r d d''.
Proof.
  intros Hd. destruct r; cbn; [by etrans|..];
    intros (d1 & start & n & Hd1 & Hrest); exists d1, start, n; (split; [by etrans|done]).
Qed.

Lemma refused_now b start n d d' : b <= start -> 0 < n -> start + n <= b + MVFS_SECTORS ->
  read_sectors start n d = (d', None) -> read_refused b d d'.
Proof. intros. exists d, start, n. split; [apply rtc_refl|done]. Qed.

Lemma reliable_never_refuses b d d' : Reliable D -> ~ read_refused b d d'.
Proof. intros HR (d1 & start & n & _ & _ & _ & _ & Hr). destruct (reads_succeed start n d1) as [l Hl]. by rewrite Hr in Hl. Qed.

Lemma load_entries_ok start tb t k (s : Fs D) :
  Forall entry_ok t -> 0 <= k -> k + Z.of_nat (length t) <= MVFS_MAX_FILES ->
  (forall i e, t !! i = Some e -> read_record tb (k + Z.of_nat i) = meta e /\ slot_ok (at_disk s) start (k + Z.of_nat i) e) ->
  exists s' r, load_entries (length t) k start tb s = (s', r) /\ same_disk s s' /\ (r = Ok t \/ r = Err tt) /\
    outcome_of start r (active_disk s) (active_disk s').
Proof.
  revert k s. induction t as [|e t IH]; intros k s Ht Hk Hlen Hall.
  { exists s, (Ok []). repeat split; auto. apply rtc_refl. }
  cbn [length] in Hlen. unfold MVFS_MAX_FILES in Hlen. inversion_clear Ht as [|? ? He Ht']. destruct (Hall 0%nat e eq_refl) as [Hr Hs]. rewrite Z.add_0_r in Hr, Hs.
  cbn [load_entries length]. rewrite Hr. cbv beta iota delta [meta]. pose proof He as (Hn & Hl & Hd).
  replace ((name_len e =? 0) || (MVFS_MAX_NAME <? name_len e)) with false by lia.
  replace (MVFS_MAX_FILE_SIZE <? Z.of_nat (length (data e))) with false by lia.
  unfold M_bind, fail_if, M_ret. cbv beta iota zeta.
  destruct (be_read_sectors_ok s (start + 4 + k * MVFS_SLOT_SECTORS) MVFS_SLOT_SECTORS) as (s1 & r1 & -> & Hb1 & Hs1 & Hl1 & HR1).
  assert (Hsd : same_disk s s1) by done.
  assert (start <= start + 4 + k * MVFS_SLOT_SECTORS /\ 0 < MVFS_SLOT_SECTORS /\ start + 4 + k * MVFS_SLOT_SECTORS + MVFS_SLOT_SECTORS <= start + MVFS_SECTORS)
    as (Hlo & Hpos & Hhi) by (unfold MVFS_SLOT_SECTORS, MVFS_SECTORS; lia).
  destruct r1 as [l|[]|]; [|exists s1, (Err tt)|done].
  2:{ split; [done|]. split; [done|]. split; [by right|]. by eapply refused_now, HR1. }
  apply reads_one with (b := start) in HR1; [|done..].
  subst l. destruct (IH (k + 1) s1) as (s2 & r2 & -> & Hs2 & Hr2 & HR2); [done|lia|unfold MVFS_MAX_FILES; lia| |].
  { intros i e' Hi. replace (k + 1 + Z.of_nat i) with (k + Z.of_nat (S i)) by lia.
    destruct (Hall (S i) e' Hi). split; [done|]. by eapply slot_ok_same. }
  assert (He' : mkEntry (name_len e) (name e) (get 0 (Z.of_nat (length (data e)))
    (region (at_disk s) (start + 4 + k * MVFS_SLOT_SECTORS) MVFS_SLOT_SECTORS)) = e) by (rewrite Hs; by destruct e).
  destruct Hr2 as [-> | ->].
  - exists s2, (Ok (e :: t)). rewrite He'. split; [done|]. split; [by eapply same_disk_trans|]. split; [by left|cbn in HR2 |- *; unfold reads in *; by etrans].
  - exists s2, (Err tt). split; [done|]. split; [by eapply same_disk_trans|]. split; [by right|by eapply outcome_after].
Qed.

(** Loading a region that holds [t] gives [t] or fails, and fails only when a read fails. *)
Lemma read_region_ok start t (s : Fs D) :
  table_ok t -> covers (fun _ => False) t (at_disk s) start ->
  exists s' r, read_region start s = (s', r) /\ same_disk s s' /\ (r = Ok t \/ r = Err tt) /\
    outcome_of start r (active_disk s) (active_disk s').
Proof.
  intros [Hn Ht] [[[]|(E1 & E2 & E3 & E4)] Hslots]. unfold read_region, M_bind, fail_if, M_ret. rewrite be_block_read_one.
  destruct (be_read_sectors_ok s start 1) as (s1 & r1 & -> & Hb1 & Hs1 & Hl1 & HR1).
  destruct r1 as [l|[]|]; [|exists s1, (Err tt)|done].
  2:{ split; [done|]. split; [done|]. split; [by right|]. eapply refused_now, HR1; unfold MVFS_SECTORS; lia. }
  apply reads_one with (b := start) in HR1; [|unfold MVFS_SECTORS; lia..].
  subst l. rewrite region_one. rewrite bool_decide_eq_true_2 by done. rewrite E2, Z.eqb_refl, E3. cbn [negb]. cbv beta iota zeta.
  replace (MVFS_MAX_FILES <? Z.of_nat (length t)) with false by lia. rewrite Nat2Z.id.
  destruct (be_read_sectors_ok s1 (start + 1) 2) as (s2 & r2 & -> & Hb2 & Hs2 & Hl2 & HR2).
  assert (Hsd : same_disk s s2) by (eapply same_disk_trans; [by split|by split]).
  destruct r2 as [l|[]|]; [|exists s2, (Err tt)|done].
  2:{ split; [done|]. split; [done|]. split; [by right|]. eapply (outcome_after _ (Err tt : outcome unit (list MvfsEntry))), refused_now, HR2; [done|unfold MVFS_SECTORS; lia..]. }
  apply reads_one with (b := start) in HR2; [|unfold MVFS_SECTORS; lia..].
  subst l. destruct (load_entries_ok start (region (at_disk s1) (start + 1) 2) t 0 s2) as (s3 & r3 & -> & Hs3 & Hr3 & HR3); [done|done|by rewrite Z.add_0_l| |].
  { intros i e Hi. rewrite Z.add_0_l. split.
    - rewrite (region_ext _ (at_disk s)) by (intros; apply Hs1). by apply E4.
    - destruct (Hslots i e Hi) as [[]|Hok]. by eapply slot_ok_same. }
  exists s3, r3. split; [done|]. split; [by eapply same_disk_trans|]. split; [done|]. eapply outcome_after, outcome_after; done.
Qed.

Lemma mvfs_start_base (s : Fs D) start : mvfs_start s = Some start -> start = base s.
Proof.
  unfold mvfs_start, base. destruct (be_is_initialized s); [|done]. cbn. destruct (_ <? _); [done|]. by intros [= <-].
Qed.

(** There is no file region: the disk is not there or is too small for one. *)
Definition no_region (s : Fs D) : Prop := is_initialized (active_disk s) = false \/ capacity (active_disk s) < MVFS_SECTORS.

Lemma mvfs_start_none (s : Fs D) : mvfs_start s = None <-> no_region s.
Proof.
  unfold mvfs_start, no_region, be_is_initialized, be_capacity. destruct (is_initialized _); cbn; [|naive_solver].
  destruct (Z.ltb_spec (capacity (active_disk s)) MVFS_SECTORS); split; try naive_solver. intros [?|?]; [done|lia].
Qed.

Lemma load_from_disk_ok {E} t (s : Fs D) :
  table_ok t -> covers (fun _ => False) t (at_disk s) (base s) ->
  exists s', load_from_disk (E := E) s = (s', Ok tt) /\
    (table s' = t \/ table s' = table s /\
      (no_region s \/ read_refused (base s) (active_disk s) (active_disk s'))) /\
    dirty s' = dirty s /\ (forall i, at_disk s' i = at_disk s i) /\ base s' = base s.
Proof.
  intros Ht Hc. unfold load_from_disk. destruct (mvfs_start s) as [start|] eqn:Hst; [|exists s; apply mvfs_start_none in Hst; repeat split; auto; done].
  apply mvfs_start_base in Hst as ->.
  destruct (read_region_ok (base s) t s Ht Hc) as (s1 & r & -> & [(Htab & Hd & _ & _ & Hcap) Hdisk] & Hr & HR).
  assert (Hb : base s1 = base s) by (unfold base; by rewrite Hcap).
  destruct Hr as [-> | ->]; [exists (s1 <| table := t |>)|exists s1]; repeat split; auto.
Qed.
End load.

(** ** Interleavings *)

Section worlds.
Context {D : Type} `{DriverLaws D}.

Definition pc_bits (p : pc) : Z := match p with Mutated b | Taken _ b | Copied _ b _ => b | _ => 0 end.

Definition bits_at (ts : gmap nat pc) (tid : nat) : Z := match ts !! tid with Some p => pc_bits p | None => 0 end.

(** A part is pending when its bit is in the dirty word or held by a thread other than [x]. *)
Definition pend (x : option nat) (s : Fs D) (ts : gmap nat pc) (k : Z) : Prop :=
  Z.testbit (dirty s) k = true \/ exists tid, Some tid <> x /\ Z.testbit (bits_at ts tid) k = true.

Definition snap_ok (s : Fs D) (ts : gmap nat pc) (tid : nat) (snap : list MvfsEntry) : Prop :=
  table_ok snap /\ (pend (Some tid) s ts 31 \/ snap = table s) /\
  forall i e, table s !! i = Some e -> pend (Some tid) s ts (Z.of_nat i) \/ snap !! i = Some e.

Definition lock_ok (s : Fs D) (tid : nat) (l : option nat) (p : pc) : Prop :=
  match p with Taken st _ | Copied st _ _ => l = Some tid /\ st = base s | _ => True end.

Record good (W : World D) : Prop := {
  g_table : table_ok (table (fs W));
  g_lock tid p : threads W !! tid = Some p -> lock_ok (fs W) tid (flush_lock W) p;
  g_snap tid st bits snap : threads W !! tid = Some (Copied st bits snap) -> snap_ok (fs W) (threads W) tid snap;
  g_cov : covers (pend None (fs W) (threads W)) (table (fs W)) (at_disk (fs W)) (base (fs W))
}.

Lemma bits_insert ts tid p tid' : bits_at (<[tid := p]> ts) tid' = if decide (tid = tid') then pc_bits p else bits_at ts tid'.
Proof. unfold bits_at. rewrite lookup_insert. by destruct (decide (tid = tid')). Qed.

(** A step of [tid] loses no bit when it keeps those it holds in the word or in its new state. *)
Lemma pend_step x (s s' : Fs D) ts tid p k :
  (Z.testbit (dirty s) k = true -> Z.testbit (dirty s') k = true \/ Some tid <> x /\ Z.testbit (pc_bits p) k = true) ->
  (Some tid <> x -> Z.testbit (bits_at ts tid) k = true -> Z.testbit (dirty s') k = true \/ Z.testbit (pc_bits p) k = true) ->
  pend x s ts k -> pend x s' (<[tid := p]> ts) k.
Proof.
  intros Hd Hb [Hk|(tid' & Hx & Hk)].
  - destruct (Hd Hk) as [?|[? ?]]; [by left|]. right. exists tid. by rewrite bits_insert, decide_True.
  - destruct (decide (tid = tid')) as [<-|Hne].
    + destruct (Hb Hx Hk); [by left|]. right. exists tid. by rewrite bits_insert, decide_True.
    + right. exists tid'. by rewrite bits_insert, decide_False.
Qed.

Lemma covers_weaken (P Q : Z -> Prop) t f start : (forall k, 0 <= k -> P k -> Q k) -> covers P t f start -> covers Q t f start.
Proof.
  intros HPQ [Hh Hs]. split.
  - destruct Hh as [?|?]; [left; apply HPQ; [lia|done]|by right].
  - intros i e Hi. destruct (Hs i e Hi) as [?|?]; [left; apply HPQ; [lia|done]|by right].
Qed.

Lemma snap_weaken s s' ts ts' tid snap :
  table s' = table s -> (forall k, pend (Some tid) s ts k -> pend (Some tid) s' ts' k) -> snap_ok s ts tid snap -> snap_ok s' ts' tid snap.
Proof.
  intros Ht Hp (A & B & C). split; [done|]. rewrite Ht. split; [destruct B; auto|]. intros i e Hi. destruct (C i e Hi); auto.
Qed.

(** The steps that leave the table and the disk alone. *)
Lemma good_quiet s s' ts tid p l l' :
  table s' = table s -> at_disk s' = at_disk s -> base s' = base s ->
  (forall k, Z.testbit (dirty s) k = true -> Z.testbit (dirty s') k = true \/ Z.testbit (pc_bits p) k = true) ->
  (forall k, Z.testbit (bits_at ts tid) k = true -> Z.testbit (dirty s') k = true \/ Z.testbit (pc_bits p) k = true) ->
  (l' = l /\ (forall k, Z.testbit (dirty s) k = true -> Z.testbit (dirty s') k = true) \/ l = None) ->
  lock_ok s' tid l' p -> (forall st bits snap, p = Copied st bits snap -> snap = table s') ->
  good (mkWorld s ts l) -> good (mkWorld s' (<[tid := p]> ts) l').
Proof.
  intros Ht Hf Hb Hd Hbits Hl Hlock Hcopy [G1 G2 G3 G4]. cbn in *. split; cbn.
  - by rewrite Ht.
  - intros tid' p' Hp. rewrite lookup_insert in Hp. destruct (decide (tid = tid')) as [<-|Hne]; [by injection Hp as <-|].
    specialize (G2 tid' p' Hp). unfold lock_ok in *. rewrite Hb. destruct Hl as [[-> _]| ->]; [done|]. destruct p'; naive_solver.
  - intros tid' st bits snap Hp. rewrite lookup_insert in Hp. destruct (decide (tid = tid')) as [<-|Hne].
    + injection Hp as ->. rewrite (Hcopy _ _ _ eq_refl). split; [by rewrite Ht|]. split; [by right|]. intros; by right.
    + destruct Hl as [[-> Hdd]| ->]; [|by destruct (G2 _ _ Hp)]. eapply snap_weaken; [done| |by eapply G3].
      intros k. apply pend_step; [by auto|]. intros _. apply Hbits.
  - rewrite Ht, Hf, Hb. eapply covers_weaken; [|done]. intros k _. apply pend_step; [|intros _; apply Hbits].
    intros Hk. destruct (Hd k Hk); auto.
Qed.

(** A change of the table, on a disk that agrees with it but for [P]. *)
Lemma covers_mutate (P : Z -> Prop) c t t' bits f start :
  table_ok t -> mutate c t = Some (t', bits) -> (forall k, Z.testbit bits k = true -> P k) ->
  (forall i e, t !! i = Some e -> P (Z.of_nat i) \/ slot_ok f start (Z.of_nat i) e) -> covers P t' f start.
Proof.
  intros Ht Hm HP Hs. destruct (mutate_marks c t t' bits Ht Hm) as (_ & H31 & Hk). split; [left; by apply HP|].
  intros i e Hi. destruct (Hk i e Hi) as [Hi'|Hi']; [by apply Hs|left; by apply HP].
Qed.

Lemma good_mutate s ts l tid c t bits :
  ts !! tid = Some (Called c) -> mutate c (table s) = Some (t, bits) ->
  good (mkWorld s ts l) -> good (mkWorld (s <| table := t |>) (<[tid := Mutated bits]> ts) l).
Proof.
  intros Htid Hm [G1 G2 G3 G4]. cbn in *. destruct (mutate_marks c _ t bits G1 Hm) as (Ht & H31 & Hk).
  assert (Hold : bits_at ts tid = 0) by (unfold bits_at; by rewrite Htid).
  assert (Hpend : forall x k, pend x s ts k -> pend x (s <| table := t |>) (<[tid := Mutated bits]> ts) k).
  { intros x k. apply pend_step; [by left|]. rewrite Hold, Z.bits_0. done. }
  assert (Hnew : forall x k, Some tid <> x -> Z.testbit bits k = true -> pend x (s <| table := t |>) (<[tid := Mutated bits]> ts) k).
  { intros x k Hx Hb. right. exists tid. by rewrite bits_insert, decide_True. }
  split; cbn.
  - done.
  - intros tid' p Hp. rewrite lookup_insert in Hp. destruct (decide (tid = tid')); [by injection Hp as <-|].
    specialize (G2 tid' p Hp). by destruct p.
  - intros tid' st b snap Hp. rewrite lookup_insert in Hp. destruct (decide (tid = tid')) as [|Hne]; [done|].
    destruct (G3 _ _ _ _ Hp) as (A & B & C). split; [done|]. split; [left; apply Hnew; congruence|].
    intros i e Hi. cbn in Hi. destruct (Hk i e Hi) as [Hi'|Hb]; [|left; apply Hnew; congruence]. destruct (C i e Hi'); auto.
  - eapply (covers_mutate _ c (table s)); [done|done|intros; by apply Hnew|]. intros i e Hi. destruct G4 as [_ G4].
    destruct (G4 i e Hi); auto.
Qed.

Lemma good_commit s s' ts tid start bits snap :
  ts !! tid = Some (Copied start bits snap) -> commit (E := unit) start bits snap s = (s', Ok tt) ->
  good (mkWorld s ts (Some tid)) -> good (mkWorld s' (<[tid := Returned]> ts) None).
Proof.
  intros Htid Hc [G1 G2 G3 G4]. cbn in *. destruct (G3 _ _ _ _ Htid) as (Hsnap & Sh & Ss).
  destruct (G2 _ _ Htid) as [_ ->]. destruct (commit_ok _ _ _ _ _ _ Hsnap Hc) as (_ & (Hsame & Dh & Ds) & Hcase).
  destruct Hsame as (Et & _ & _ & _ & Ec). cbn in Et. assert (Eb : base s' = base s) by (unfold base; by rewrite Ec).
  assert (Hold : bits_at ts tid = bits) by (unfold bits_at; by rewrite Htid).
  assert (Hdd : forall k, Z.testbit (dirty s) k = true -> Z.testbit (dirty s') k = true).
  { intros k Hk. destruct Hcase as [(-> & _)|[-> _]]; [done|]. by rewrite Z.lor_spec, Hk. }
  assert (Hother : forall k, pend (Some tid) s ts k -> pend None s' (<[tid := Returned]> ts) k).
  { intros k [Hk|(t' & Hx & Hk)]; [left; auto|]. right. exists t'. split; [done|]. rewrite bits_insert, decide_False by congruence. done. }
  assert (Hpend : forall k, pend None s ts k -> Z.testbit bits k = false -> pend None s' (<[tid := Returned]> ts) k).
  { intros k Hk Hb. revert Hk. apply pend_step; [by auto|]. intros _. rewrite Hold, Hb. done. }
  split; cbn.
  - by rewrite Et.
  - intros tid' p Hp. rewrite lookup_insert in Hp. destruct (decide (tid = tid')) as [<-|Hne]; [by injection Hp as <-|].
    specialize (G2 tid' p Hp). destruct p; naive_solver.
  - intros tid' st b sn Hp. rewrite lookup_insert in Hp. destruct (decide (tid = tid')) as [<-|Hne]; [done|].
    destruct (G2 _ _ Hp). congruence.
  - rewrite Et, Eb. destruct Hcase as [(_ & Hh & Hs)|[Hd _]].
    + destruct G4 as [G4h G4s]. split.
      * destruct (Z.testbit bits 31) eqn:Hb.
        -- destruct Sh as [Sh| <-]; [left; by apply Hother|]. right. by apply Hh.
        -- destruct G4h as [?|G4h]; [left; by apply Hpend|]. destruct Dh as [?|Dh]; [congruence|]. right.
           eapply header_ok_ext, G4h. intros i Hi. symmetry. by apply Dh.
      * intros i e Hi. destruct (Z.testbit bits (Z.of_nat i)) eqn:Hb.
        -- destruct (Ss i e Hi) as [?|Hsn]; [left; by apply Hother|]. right. by apply Hs.
        -- destruct (G4s i e Hi) as [?|Hok]; [left; by apply Hpend|]. destruct (Ds (Z.of_nat i)) as [?|Dk]; [lia|congruence|]. right.
           eapply slot_ok_ext, Hok. intros j Hj. symmetry. by apply Dk.
    + destruct G4 as [G4h G4s]. assert (Hbits : forall k, Z.testbit bits k = true -> pend None s' (<[tid := Returned]> ts) k).
      { intros k Hb. left. rewrite Hd, Z.lor_spec, Hb. apply orb_true_r. }
      split.
      * destruct Dh as [?|Dh]; [left; by apply Hbits|]. destruct (Z.testbit bits 31) eqn:Hb; [left; by apply Hbits|].
        destruct G4h as [?|G4h]; [left; by apply Hpend|right]. eapply header_ok_ext, G4h. intros i Hi. symmetry. by apply Dh.
      * intros i e Hi. destruct (Ds (Z.of_nat i)) as [?|Dk]; [lia|left; by apply Hbits|].
        destruct (Z.testbit bits (Z.of_nat i)) eqn:Hb; [left; by apply Hbits|].
        destruct (G4s i e Hi) as [?|Hok]; [left; by apply Hpend|right]. eapply slot_ok_ext, Hok. intros j Hj. symmetry. by apply Dk.
Qed.

(** From boot until the first change nothing has been touched. *)
Definition untouched (s0 : Fs D) (W : World D) : Prop :=
  fs W = s0 /\ flush_lock W = None /\ forall tid p, threads W !! tid = Some p -> p = Returned \/ exists c, p = Called c.

(** A booted kernel: nothing is marked, and the data of every entry, if any was
    loaded, is on the disk. *)
Definition booted (s : Fs D) : Prop :=
  table_ok (table s) /\ dirty s = 0 /\
  forall i e, table s !! i = Some e -> slot_ok (at_disk s) (base s) (Z.of_nat i) e.

Definition at_boot (s : Fs D) : World D := mkWorld s empty None.

Lemma untouched_step s0 W W' : booted s0 -> untouched s0 W -> step W W' -> untouched s0 W' \/ good W'.
Proof.
  intros (Ht & Hd & Hs) (Hf & Hl & Hp) Hstep.
  assert (Hbits : forall tid, bits_at (threads W) tid = 0).
  { intros tid. unfold bits_at. destruct (threads W !! tid) as [p|] eqn:E; [|done]. by destruct (Hp tid p E) as [->|[c ->]]. }
  assert (Hquiet : forall tid p, p = Returned \/ (exists c, p = Called c) ->
    untouched s0 (mkWorld (fs W) (<[tid := p]> (threads W)) None)).
  { intros tid p Hpp. split; [done|]. split; [done|]. intros tid' p'. cbn. rewrite lookup_insert.
    destruct (decide (tid = tid')); [intros [= <-]; done|]. apply Hp. }
  inversion Hstep; subst W W'; cbn in *; subst;
    try (left; apply Hquiet; eauto; fail); try by (destruct (Hp _ _ H1) as [?|[? ?]]).
  right. match goal with Hm : mutate _ _ = _ |- _ => destruct (mutate_marks _ _ _ _ Ht Hm) as (Ht' & _ & _); pose proof Hm as Hmut end.
  split; cbn.
  - done.
  - intros tid' p Hpp. rewrite lookup_insert in Hpp. destruct (decide (tid = tid')); [by injection Hpp as <-|].
    by destruct (Hp _ _ Hpp) as [->|[? ->]].
  - intros tid' st b sn Hpp. rewrite lookup_insert in Hpp. destruct (decide (tid = tid')); [done|].
    by destruct (Hp _ _ Hpp) as [?|[? ?]].
  - eapply (covers_mutate _ c (table s0)); [done|done| |].
    + intros k Hb. right. exists tid. rewrite bits_insert, decide_True by done. done.
    + intros i e Hi. right. by apply Hs.
Qed.

Lemma good_step W W' : good W -> step W W' -> good W'.
Proof.
  intros HG Hstep. inversion Hstep; subst W W'.
  - eapply good_quiet, HG; try done; [by left|intros k; unfold bits_at; rewrite H1, Z.bits_0; done|by left; split].
  - by eapply good_mutate.
  - eapply good_quiet, HG; try done; [by left|intros k; unfold bits_at; rewrite H1; cbn; rewrite Z.bits_0; done|by left; split].
  - assert (Hm : forall k, Z.testbit (dirty s) k = true \/ Z.testbit bits k = true -> Z.testbit (dirty (mark_dirty bits s)) k = true).
    { intros k Hk. cbn. rewrite Z.lor_spec. apply orb_true_iff. done. }
    eapply good_quiet, HG; try done; [by auto|intros k; unfold bits_at; rewrite H1; by auto|left; split; by auto].
  - eapply good_quiet, HG; try done; [by left|intros k; unfold bits_at; rewrite H1; cbn; rewrite Z.bits_0; done|by left; split].
  - eapply good_quiet, HG; try done; [by left|intros k; unfold bits_at; rewrite H1; cbn; rewrite Z.bits_0; done|by left; split].
  - eapply good_quiet, HG; try done; [by right|intros k; unfold bits_at; rewrite H1; cbn; rewrite Z.bits_0; done|by right|].
    split; [done|]. by apply mvfs_start_base.
  - assert (Hlk := g_lock _ HG _ _ H1). eapply good_quiet, HG; try done; cbn.
    + by left.
    + intros k. unfold bits_at. rewrite H1. by right.
    + by left.
    + by intros ? ? ? [= _ _ <-].
  - by eapply good_commit.
Qed.

Lemma reachable_ok s0 W : booted s0 -> rtc step (at_boot s0) W -> untouched s0 W \/ good W.
Proof.
  intros Hb Hsteps. assert (H0' : untouched s0 (at_boot s0) \/ good (at_boot s0)).
  { left. split; [done|]. split; [done|]. intros tid p Hp. unfold at_boot in Hp. cbn in Hp. by rewrite lookup_empty in Hp. }
  revert H0'. induction Hsteps as [W|W1 W2 W3 Hstep _ IH]; [done|].
  intros [Hu|Hg]; apply IH; [by eapply untouched_step|right; by eapply good_step].
Qed.

(** No call is running. *)
Definition quiescent (W : World D) : Prop := forall tid p, threads W !! tid = Some p -> p = Returned.

(** The kernel after a restart on the disk of [s]: the table is empty. *)
Definition restarted (s s' : Fs D) : Prop :=
  table s' = [] /\ dirty s' = 0 /\ (forall i, at_disk s' i = at_disk s i) /\ base s' = base s.

(** A disk that is there and does not fail: some thread is about to flush
    whenever something is marked. *)
Definition someone_flushes (W : World D) : Prop :=
  mvfs_start (fs W) <> None /\ (dirty (fs W) <> 0 -> exists tid, threads W !! tid = Some Marked).

Lemma same_start (s s' : Fs D) : same_but_disk s s' -> mvfs_start s' = mvfs_start s.
Proof. intros (_ & _ & _ & Hi & Hc). unfold mvfs_start. by rewrite Hi, Hc. Qed.

Lemma marked_kept (ts : gmap nat pc) tid p q :
  ts !! tid = q -> q <> Some Marked -> (exists t, ts !! t = Some Marked) -> exists t, <[tid := p]> ts !! t = Some Marked.
Proof. intros Hq Hn [t Ht]. exists t. rewrite lookup_insert_ne; [done|]. intros ->. congruence. Qed.

Lemma flushes_step `{!Reliable D} W W' : good W -> someone_flushes W -> step W W' -> someone_flushes W'.
Proof.
  intros HG [Hst Hd] Hstep. inversion Hstep; subst W W'; cbn in Hst, Hd; (split; cbn; [try done|]).
  - intros Hdz. eapply marked_kept; [done|done|by apply Hd].
  - intros Hdz. eapply marked_kept; [done|done|by apply Hd].
  - intros Hdz. eapply marked_kept; [done|done|by apply Hd].
  - intros _. exists tid. by rewrite lookup_insert, decide_True.
  - done.
  - done.
  - done.
  - intros Hdz. eapply marked_kept; [done|done|by apply Hd].
  - destruct (g_snap _ HG _ _ _ _ H1) as (Ht & _). destruct (commit_ok _ _ _ _ _ _ Ht H2) as (_ & (Hs & _) & _).
    rewrite (same_start _ _ Hs). done.
  - destruct (g_snap _ HG _ _ _ _ H1) as (Ht & _). destruct (commit_ok _ _ _ _ _ _ Ht H2) as (_ & _ & [(-> & _)|[_ Hn]]).
    + intros Hdz. eapply marked_kept; [done|done|by apply Hd].
    + destruct Hn. by constructor.
Qed.

Lemma untouched_flushes s0 W : booted s0 -> mvfs_start s0 <> None -> untouched s0 W -> someone_flushes W.
Proof. intros (_ & Hd & _) Hst (Hf & _). unfold someone_flushes. rewrite Hf. done. Qed.

Lemma reachable_flushes `{!Reliable D} s0 W :
  booted s0 -> mvfs_start s0 <> None -> rtc step (at_boot s0) W -> someone_flushes W.
Proof.
  intros Hb Hst Hsteps. assert (HP : (untouched s0 W \/ good W) /\ someone_flushes W); [|apply HP].
  assert (H0' : (untouched s0 (at_boot s0) \/ good (at_boot s0)) /\ someone_flushes (at_boot s0)).
  { assert (Hu : untouched s0 (at_boot s0)).
    { split; [done|]. split; [done|]. intros tid p Hp. unfold at_boot in Hp. cbn in Hp. by rewrite lookup_empty in Hp. }
    split; [by left|by eapply untouched_flushes]. }
  revert H0'. induction Hsteps as [W|W1 W2 W3 Hstep _ IH]; [done|].
  intros [[Hu|Hg] Hf]; apply IH.
  - destruct (untouched_step _ _ _ Hb Hu Hstep) as [Hu'|Hg']; (split; [by auto|]); [by eapply untouched_flushes|].
    inversion Hstep; subst W1 W2; destruct Hu as (Hfs & Hl & Hpc); cbn in *; subst; try (by destruct (Hpc _ _ H1) as [?|[? ?]]).
    + split; [done|]. destruct Hb as (_ & Hd0 & _). done.
    + split; [done|]. destruct Hb as (_ & Hd0 & _). done.
    + split; [done|]. destruct Hb as (_ & Hd0 & _). done.
  - split; [right; by eapply good_step|by eapply flushes_step].
Qed.

Lemma quiescent_covers W :
  good W -> quiescent W -> dirty (fs W) = 0 -> covers (fun _ => False) (table (fs W)) (at_disk (fs W)) (base (fs W)).
Proof.
  intros HG Hq Hd. eapply covers_weaken, g_cov, HG. intros k _ [Hk|(tid & _ & Hk)].
  - by rewrite Hd, Z.bits_0 in Hk.
  - unfold bits_at in Hk. destruct (threads W !! tid) as [p|] eqn:Hp; [rewrite (Hq _ _ Hp) in Hk|]; by rewrite Z.bits_0 in Hk.
Qed.

Lemma covers_disk (s s' : Fs D) P t :
  (forall i, at_disk s' i = at_disk s i) -> base s' = base s -> covers P t (at_disk s) (base s) -> covers P t (at_disk s') (base s').
Proof.
  intros Hd -> [Hh Hs]. split.
  - destruct Hh as [?|Hh]; [by left|right]. eapply header_ok_ext, Hh. intros. by rewrite Hd.
  - intros i e Hi. destruct (Hs i e Hi) as [?|Hok]; [by left|right]. eapply slot_ok_ext, Hok. intros. by rewrite Hd.
Qed.

(** C3: However calls interleave, once all of them have returned and nothing is
    marked dirty, the kernel is as it booted or the next boot on this disk loads
    exactly the table the calls left. It loads nothing instead only when the boot
    finds no disk large enough for the file region, or when the driver refused a
    read of sectors of that region and the load stopped there. *)
Theorem mvfs_interleaving_persists s0 W s' :
  booted s0 -> rtc step (at_boot s0) W -> quiescent W -> dirty (fs W) = 0 -> restarted (fs W) s' ->
  fs W = s0 \/
  exists s'', load_from_disk (E := unit) s' = (s'', Ok tt) /\
    (table s'' = table (fs W) \/
     table s'' = [] /\ (no_region s' \/ read_refused (base s') (active_disk s') (active_disk s''))).
Proof.
  intros Hb Hsteps Hq Hd (Ht & _ & Hdisk & Hbase).
  destruct (reachable_ok _ _ Hb Hsteps) as [(Hu & _)|HG]; [by left|right].
  destruct (load_from_disk_ok (E := unit) (table (fs W)) s') as (s'' & Hl & Hor & _); [apply HG| |].
  - by eapply covers_disk, quiescent_covers.
  - exists s''. split; [done|]. rewrite Ht in Hor. done.
Qed.

(** C40: On a disk that is there and never fails, no mark is left once all calls have
    returned, and the kernel is as it booted or the next boot loads the table. *)
Theorem mvfs_reliable_persists `{!Reliable D} s0 W s' :
  booted s0 -> mvfs_start s0 <> None -> rtc step (at_boot s0) W -> quiescent W ->
  restarted (fs W) s' -> mvfs_start s' = mvfs_start (fs W) ->
  dirty (fs W) = 0 /\
  (fs W = s0 \/ exists s'', load_from_disk (E := unit) s' = (s'', Ok tt) /\ table s'' = table (fs W) /\ booted s'').
Proof.
  intros Hb Hst Hsteps Hq (Ht & Hd' & Hdisk & Hbase) Hst'.
  destruct (reachable_flushes _ _ Hb Hst Hsteps) as [Hst1 Hfl].
  assert (Hd : dirty (fs W) = 0).
  { destruct (decide (dirty (fs W) = 0)) as [|Hn]; [done|]. destruct (Hfl Hn) as [tid Htid]. by specialize (Hq _ _ Htid). }
  split; [done|]. destruct (reachable_ok _ _ Hb Hsteps) as [(Hu & _)|HG]; [by left|right].
  destruct (load_from_disk_ok (E := unit) (table (fs W)) s') as (s'' & Hl & Hor & Hdd & Hdisk' & Hbase'); [apply HG| |].
  - by eapply covers_disk, quiescent_covers.
  - assert (Ht'' : table s'' = table (fs W)).
    { destruct Hor as [?|[_ [Hno|Href]]]; [done|..]; [|by apply reliable_never_refuses in Href].
      by apply mvfs_start_none in Hno; rewrite Hst' in Hno. }
    exists s''. split; [done|]. split; [done|].
    split; [rewrite Ht''; apply HG|]. split; [congruence|]. intros i e. rewrite Ht'', Hbase', Hbase. intros Hi.
    destruct (quiescent_covers _ HG Hq Hd) as [_ Hs]. destruct (Hs i e Hi) as [[]|Hok].
    eapply slot_ok_ext, Hok. intros j _. by rewrite Hdisk', Hdisk.
Qed.
End worlds.

(** ** A bounded map *)

Section map.
Context {D : Type} `{DriverLaws D}.

Lemma flush_to_disk_table {E} (s : Fs D) :
  table_ok (table s) -> exists s', flush_to_disk (E := E) s = (s', Ok tt) /\ table s' = table s.
Proof.
  intros Ht. unfold flush_to_disk, gets, take_dirty, M_bind, M_ret. destruct (mvfs_start s) as [start|]; [|by exists s].
  cbn. destruct (dirty s =? 0); [eexists; by split|].
  match goal with |- context [commit ?a ?b ?c ?d] => destruct (commit (E := E) a b c d) as [s' r] eqn:Hc end.
  destruct (commit_ok _ _ _ _ _ _ Ht Hc) as (-> & ((Hs & _) & _) & _). exists s'. split; [done|]. by rewrite Hs.
Qed.

Lemma flush_after {E} t bits (s : Fs D) :
  table_ok t -> exists s', flush_to_disk (E := E) (mark_dirty bits (s <| table := t |>)) = (s', Ok tt) /\ table s' = t.
Proof.
  intros Ht. destruct (flush_to_disk_table (E := E) (mark_dirty bits (s <| table := t |>))) as (s' & Hf & Hs); [by cbn|].
  cbn in Hs. by exists s'.
Qed.

Definition abs (t : list MvfsEntry) : gmap (list Z) (list Z) := list_to_map ((fun e => (name_bytes e, data e)) <$> t).

Definition names_ok (t : list MvfsEntry) : Prop := NoDup (name_bytes <$> t).

Inductive op := OWrite (nm content : list Z) | ODelete (nm : list Z) | ORead (nm out : list Z).

Inductive answer := AWrite (r : outcome MvfsError unit) | ADelete (r : outcome MvfsError bool) | ARead (r : outcome MvfsError (list Z * Z)).

(** The calls of the file, one after the other. *)
Definition exec (o : op) (s : Fs D) : Fs D * answer :=
  match o with
  | OWrite nm content => let (s, r) := write nm content s in (s, AWrite r)
  | ODelete nm => let (s, r) := delete nm s in (s, ADelete r)
  | ORead nm out => (s, ARead (read nm out (table s)))
  end.

(** What they promise: a map of at most sixteen files. *)
Definition spec (o : op) (m : gmap (list Z) (list Z)) : gmap (list Z) (list Z) * answer :=
  let valid nm := bool_decide (0 < length nm <= 32)%nat in
  match o with
  | OWrite nm content =>
      if negb (valid nm) then (m, AWrite (Err InvalidName))
      else if bool_decide (4096 < Z.of_nat (length content)) then (m, AWrite (Err DataTooLarge))
      else if bool_decide (m !! nm = None /\ 16 <= size m)%nat then (m, AWrite (Err TableFull))
      else (<[nm := content]> m, AWrite (Ok tt))
  | ODelete nm => if valid nm then (base.delete nm m, ADelete (Ok (bool_decide (is_Some (m !! nm))))) else (m, ADelete (Ok false))
  | ORead nm out =>
      (m, ARead (if negb (valid nm) then Err InvalidName
                 else match m !! nm with
                      | Some c => let n := Nat.min (length c) (length out) in Ok (take n c ++ drop n out, Z.of_nat n)
                      | None => Err NotFound
                      end))
  end.

Fixpoint run {S A} (f : op -> S -> S * A) (os : list op) (s : S) : S * list A :=
  match os with
  | [] => (s, [])
  | o :: os => let (s, a) := f o s in let (s, l) := run f os s in (s, a :: l)
  end.

Lemma abs_lookup t nm c : names_ok t -> abs t !! nm = Some c <-> exists k e, t !! k = Some e /\ name_bytes e = nm /\ data e = c.
Proof.
  intros Hn. unfold abs. rewrite <- elem_of_list_to_map.
  - rewrite list_elem_of_fmap. split.
    + intros (e & [= -> ->] & (k & Hk)%list_elem_of_lookup). by exists k, e.
    + intros (k & e & Hk & <- & <-). exists e. split; [done|]. by eapply list_elem_of_lookup_2.
  - rewrite <- list_fmap_compose. done.
Qed.

Lemma abs_none t nm : abs t !! nm = None <-> Forall (fun e => name_bytes e <> nm) t.
Proof.
  unfold abs. rewrite <- not_elem_of_list_to_map, <- list_fmap_compose, list_elem_of_fmap, Forall_forall. naive_solver.
Qed.

Lemma names_unique t i j e e' : names_ok t -> t !! i = Some e -> t !! j = Some e' -> name_bytes e = name_bytes e' -> i = j.
Proof.
  intros Hn Hi Hj He. eapply NoDup_lookup; [apply Hn| |]; rewrite list_lookup_fmap; [by rewrite Hi|by rewrite Hj, He].
Qed.

Lemma abs_size t : names_ok t -> size (abs t) = length t.
Proof.
  intros Hn. unfold abs. rewrite map_size_list_to_map; [by rewrite length_fmap|]. by rewrite <- list_fmap_compose.
Qed.

Lemma abs_insert t k e :
  names_ok t -> (exists e0, t !! k = Some e0 /\ name_bytes e0 = name_bytes e) ->
  names_ok (<[k := e]> t) /\ abs (<[k := e]> t) = <[name_bytes e := data e]> (abs t).
Proof.
  intros Hn (e0 & Hk & He). assert (Hn' : names_ok (<[k := e]> t)).
  { unfold names_ok. rewrite list_fmap_insert, list_insert_id; [done|]. by rewrite list_lookup_fmap, Hk, <- He. }
  split; [done|]. pose proof (lookup_lt_Some _ _ _ Hk) as Hlt. apply map_eq. intros nm. apply option_eq. intros c. rewrite abs_lookup by done.
  destruct (decide (name_bytes e = nm)) as [<-|Hne].
  - rewrite lookup_insert, decide_True by done. split.
    + intros (j & e' & Hj & Hee & <-). f_equal. assert (j = k) as ->.
      { eapply (names_unique (<[k := e]> t)); [done|done|by apply list_lookup_insert_eq|done]. }
      rewrite list_lookup_insert_eq in Hj by done. by injection Hj as ->.
    + intros [= <-]. exists k, e. split; [by apply list_lookup_insert_eq|done].
  - rewrite lookup_insert_ne, abs_lookup by done. split; intros (j & e' & Hj & Hee & Hc); exists j, e'; (split; [|done]).
    + destruct (decide (k = j)) as [<-|Hkj]; [rewrite list_lookup_insert_eq in Hj by done; congruence|by rewrite list_lookup_insert_ne in Hj].
    + destruct (decide (k = j)) as [<-|Hkj]; [congruence|by rewrite list_lookup_insert_ne].
Qed.

Lemma abs_snoc t e :
  names_ok t -> Forall (fun e' => name_bytes e' <> name_bytes e) t ->
  names_ok (t ++ [e]) /\ abs (t ++ [e]) = <[name_bytes e := data e]> (abs t).
Proof.
  intros Hn Hf. assert (Hn' : names_ok (t ++ [e])).
  { unfold names_ok. rewrite fmap_app, NoDup_app. split; [done|]. split; [|apply NoDup_singleton].
    intros x (e' & -> & He')%list_elem_of_fmap. cbn. rewrite list_elem_of_singleton. rewrite Forall_forall in Hf. by apply Hf. }
  split; [done|]. unfold abs. rewrite fmap_app. cbn. rewrite list_to_map_snoc; [done|].
  apply not_elem_of_list_to_map. by apply abs_none.
Qed.

Lemma abs_delete t i e :
  names_ok t -> t !! i = Some e ->
  names_ok (base.delete i t) /\ abs (base.delete i t) = base.delete (name_bytes e) (abs t).
Proof.
  intros Hn Hi. rewrite delete_take_drop. pose proof (take_drop_middle _ _ _ Hi) as Ht. unfold names_ok in *.
  rewrite <- Ht, fmap_app in Hn. cbn in Hn. rewrite fmap_app. apply NoDup_app in Hn as (A & B & C).
  apply NoDup_cons in C as [C1 C2]. split.
  - apply NoDup_app. split; [done|]. split; [|done]. intros x Hx Hx'. apply (B x Hx). by right.
  - replace (abs t) with (abs (take i t ++ e :: drop (S i) t)) by by rewrite Ht.
    unfold abs. rewrite !fmap_app, !list_to_map_app. cbn. rewrite delete_union, delete_insert_id.
    + f_equal. symmetry. apply delete_id. apply not_elem_of_list_to_map. rewrite <- list_fmap_compose. intros Hx.
      by apply (B _ Hx); left.
    + apply not_elem_of_list_to_map. by rewrite <- list_fmap_compose.
Qed.

Lemma validate_name_cases nm :
  (exists n, validate_name nm = Ok n) /\ bool_decide (0 < length nm <= 32)%nat = true \/
  validate_name nm = Err InvalidName /\ bool_decide (0 < length nm <= 32)%nat = false.
Proof.
  destruct (decide (0 < length nm <= 32)%nat) as [Hl|Hl]; [left|right].
  - split; [|by apply bool_decide_eq_true]. exists (Z.of_nat (length nm)). apply validate_name_ok. unfold MVFS_MAX_NAME. lia.
  - split; [|by apply bool_decide_eq_false]. unfold validate_name, MVFS_MAX_NAME.
    by replace ((Z.of_nat (length nm) =? 0) || (32 <? Z.of_nat (length nm))) with true by lia.
Qed.

Lemma read_refines nm out t :
  names_ok t -> spec (ORead nm out) (abs t) = (abs t, ARead (read nm out t)).
Proof.
  intros Hn. cbn [spec]. do 2 f_equal. unfold read, M_bind. destruct (validate_name_cases nm) as [[[n ->] ->]|[-> ->]]; [|done]. cbn.
  destruct (list_find (fun e => name_bytes e = nm) t) as [[i e]|] eqn:Hf.
  - apply list_find_Some in Hf as (Hi & He & _). assert (Habs : abs t !! nm = Some (data e)) by (apply abs_lookup; eauto).
    rewrite Habs, <- Nat2Z.inj_min, Nat2Z.id. cbv zeta. unfold put. rewrite length_take.
    replace (Z.to_nat 0 + _)%nat with (length (data e) `min` length out)%nat by lia. done.
  - apply list_find_None in Hf. by rewrite (proj2 (abs_none t nm) Hf).
Qed.

Lemma delete_refines nm (s : Fs D) :
  table_ok (table s) -> names_ok (table s) ->
  exists s' b, delete (E := MvfsError) nm s = (s', Ok b) /\ table_ok (table s') /\ names_ok (table s') /\
    spec (ODelete nm) (abs (table s)) = (abs (table s'), ADelete (Ok b)).
Proof.
  intros Ht Hn. unfold delete, with_table, modify, M_bind, M_ret. cbn [spec].
  destruct (validate_name_cases nm) as [[[n Hv] Hb]|[Hv Hb]]; rewrite Hv, Hb; [|by exists s, false].
  pose proof Ht as [Hl _]. destruct (delete_table nm (table s)) as [[t' bits]|] eqn:Hd.
  - pose proof (bit_of_delete _ _ _ _ Hl Hd) as (i & e & Hi & He & _ & Ht' & _).
    destruct (mutate_marks (CDelete nm) (table s) t' bits Ht) as (Hok & _); [cbn; by rewrite Hv|].
    destruct (flush_after (E := MvfsError) t' bits s Hok) as (s' & -> & Hs').
    destruct (abs_delete _ _ _ Hn Hi) as [Hn' Ha]. exists s', true. rewrite Hs', Ht'. rewrite <- Ht' at 1. split; [done|].
    split; [done|]. split; [done|]. rewrite Ha, He. rewrite bool_decide_eq_true_2; [done|]. exists (data e). apply abs_lookup; eauto.
  - exists s, false. destruct s as [tb dt ac vb nv]; cbn [table] in *. split; [done|]. split; [done|]. split; [done|].
    unfold delete_table in Hd. pose proof (position_spec nm tb 0) as Hp. destruct (position nm tb 0); [done|].
    apply abs_none in Hp. rewrite delete_id by done. rewrite bool_decide_eq_false_2; [done|]. rewrite Hp. by intros [? ?].
Qed.

Lemma write_refines nm content (s : Fs D) :
  table_ok (table s) -> names_ok (table s) ->
  exists s' r, write nm content s = (s', r) /\ table_ok (table s') /\ names_ok (table s') /\
    spec (OWrite nm content) (abs (table s)) = (abs (table s'), AWrite r).
Proof.
  intros Ht Hn. unfold write, with_table, modify, lift, fail_if, M_bind, M_ret. cbn [spec].
  destruct (validate_name_cases nm) as [[[n Hv] Hb]|[Hv Hb]]; rewrite Hv, Hb; cbn [negb]; [|by exists s, (Err InvalidName)].
  change MVFS_MAX_FILE_SIZE with 4096. destruct (Z.ltb_spec 4096 (Z.of_nat (length content))) as [Hc|Hc].
  { rewrite bool_decide_eq_true_2 by done. by exists s, (Err DataTooLarge). }
  rewrite bool_decide_eq_false_2 by lia. pose proof (write_table_spec nm n content (table s) _ Hv eq_refl) as Hw.
  assert (Hm : mutate (CWrite nm content) (table s) =
    match write_table nm n content (table s) with Ok (t, slot) => Some (t, write_bits slot) | _ => None end).
  { cbn [mutate]. rewrite Hv. unfold MVFS_MAX_FILE_SIZE. by replace (4096 <? Z.of_nat (length content)) with false by lia. }
  destruct (write_table nm n content (table s)) as [[t' slot]|e|]; [| |done].
  - destruct (mutate_marks _ _ _ _ Ht Hm) as (Hok & _). destruct Hw as (k & e & Hslot & He & Hd & Hk & Hw).
    assert (Habs : names_ok t' /\ abs t' = <[nm := content]> (abs (table s))).
    { destruct Hw as [(Hlt & (e0 & He0 & Hnm & _) & ->)|(-> & Hlt & Hf & He' & ->)]; rewrite <- He, <- Hd.
      - apply abs_insert; [done|]. exists e0. split; [done|congruence].
      - apply abs_snoc; [done|]. by rewrite He. }
    destruct Habs as [Hn' Ha].
    destruct (flush_after (E := MvfsError) t' (write_bits slot) s Hok) as (s' & -> & Hs'). exists s', (Ok tt). rewrite Hs', Ha. split; [done|]. split; [done|]. split; [done|].
    rewrite bool_decide_eq_false_2; [done|]. rewrite abs_size by done. intros [Hnone Hfull].
    destruct Hw as [(Hlt & (e0 & He0 & Hnm & _) & ->)|(-> & Hlt & _)].
    + rewrite abs_none, Forall_forall in Hnone. apply (Hnone e0); [by eapply list_elem_of_lookup_2|done].
    + unfold MVFS_MAX_FILES in Hlt. lia.
  - destruct Hw as (-> & Hfull & Hf). exists s, (Err TableFull). destruct s as [tb dt ac vb nv]; cbn [table] in *. split; [done|]. split; [done|]. split; [done|].
    apply abs_none in Hf. rewrite bool_decide_eq_true_2; [done|]. rewrite abs_size by done. split; [done|].
    unfold MVFS_MAX_FILES in Hfull. lia.
Qed.

(** C16: Any sequence of writes, deletions and reads answers as a map of at most
    sixteen files does, errors included, whether or not the disk takes the
    flushes, and leaves that map in the table. *)
Theorem mvfs_refines_map os (s s' : Fs D) answers :
  table_ok (table s) -> names_ok (table s) -> run exec os s = (s', answers) ->
  run spec os (abs (table s)) = (abs (table s'), answers) /\ table_ok (table s') /\ names_ok (table s').
Proof.
  revert s s' answers. induction os as [|o os IH]; intros s s' answers Ht Hn; cbn [run]; [by intros [= <- <-]|].
  assert (Ho : exists s1 a, exec o s = (s1, a) /\ table_ok (table s1) /\ names_ok (table s1) /\ spec o (abs (table s)) = (abs (table s1), a)).
  { destruct o as [nm c|nm|nm out]; cbn [exec].
    - destruct (write_refines nm c s Ht Hn) as (s1 & r & -> & ?). by exists s1, (AWrite r).
    - destruct (delete_refines nm s Ht Hn) as (s1 & b & -> & ?). by exists s1, (ADelete (Ok b)).
    - exists s, (ARead (read nm out (table s))). split; [done|]. split; [done|]. split; [done|]. by apply read_refines. }
  destruct Ho as (s1 & a & -> & Ht1 & Hn1 & ->). destruct (run exec os s1) as [s2 l] eqn:Hr. intros [= <- <-].
  destruct (IH _ _ _ Ht1 Hn1 Hr) as [-> ?]. done.
Qed.
End map.

(** ** Listing *)

Definition listed (prefix : list Z) (t : list MvfsEntry) : list (list Z) :=
  filter (fun nm => prefix `prefix_of` nm) (name_bytes <$> t).

Definition listing (names : list (list Z)) : list Z := mjoin ((fun nm => Z.of_nat (length nm) :: nm) <$> names).

Lemma starts_with_spec l p : starts_with l p = bool_decide (p `prefix_of` l).
Proof.
  revert l. induction p as [|b p IH]; intros l.
  { rewrite bool_decide_eq_true_2 by apply prefix_nil. by destruct l. }
  destruct l as [|c l]; [by rewrite bool_decide_eq_false_2 by apply prefix_nil_not|]. cbn [starts_with]. rewrite IH.
  destruct (Z.eqb_spec b c) as [->|Hne]; cbn [andb].
  - apply bool_decide_ext. split; [apply prefix_cons|]. intros Hp. by apply prefix_cons_inv_2 in Hp.
  - symmetry. apply bool_decide_eq_false. intros Hp%prefix_cons_inv_1. done.
Qed.

(** Every record starts with its length, as [name_bytes] computes it. *)
Definition lens_ok (t : list MvfsEntry) : Prop := Forall (fun e => name_len e = Z.of_nat (length (name_bytes e))) t.

Lemma table_lens t : table_ok t -> lens_ok t.
Proof.
  intros [_ Ht]. unfold lens_ok. eapply Forall_impl; [exact Ht|]. intros e (Hn & Hl & _). unfold name_bytes, MVFS_MAX_NAME in *.
  rewrite length_take. lia.
Qed.

Lemma list_loop_spec prefix cap t written :
  lens_ok t -> exists k, list_loop prefix cap t written = written ++ listing (take k (listed prefix t)) /\
    (k <= length (listed prefix t))%nat /\
    (forall nm, listed prefix t !! k = Some nm -> cap < Z.of_nat (length (list_loop prefix cap t written)) + 1 + Z.of_nat (length nm)) /\
    (Z.of_nat (length written) <= cap -> Z.of_nat (length (list_loop prefix cap t written)) <= cap).
Proof.
  revert written. induction t as [|e t IH]; intros written Hl; cbn [list_loop].
  { exists 0%nat. cbn. rewrite app_nil_r. by repeat split. }
  inversion_clear Hl as [|? ? He Hl']. unfold listed. cbn [fmap list_fmap]. rewrite filter_cons.
  assert (Hskip : negb (bool_decide (prefix = [])) && negb (starts_with (name_bytes e) prefix) =
    negb (bool_decide (prefix `prefix_of` name_bytes e))).
  { rewrite starts_with_spec. destruct (bool_decide_reflect (prefix = [])) as [->|]; [|done].
    by rewrite bool_decide_eq_true_2 by apply prefix_nil. }
  rewrite Hskip. destruct (decide (prefix `prefix_of` name_bytes e)) as [Hp|Hp].
  2:{ rewrite bool_decide_eq_false_2 by done. apply (IH written Hl'). }
  rewrite bool_decide_eq_true_2 by done. cbn [negb]. cbv zeta. destruct (Z.ltb_spec cap (Z.of_nat (length written) + (1 + Z.of_nat (length (name_bytes e))))) as [Hc|Hc].
  { exists 0%nat. cbn. rewrite app_nil_r. split; [done|]. split; [lia|]. split; [|done]. intros nm [= <-]. lia. }
  destruct (IH (written ++ name_len e :: name_bytes e) Hl') as (k & Hk & Hle & Hstop & Hcap). exists (S k).
  rewrite Hk at 1. cbn [take listing fmap list_fmap mjoin list_join]. unfold listing. rewrite <- app_assoc. cbn.
  rewrite He. split; [done|]. split; [unfold listed in Hle; lia|]. rewrite He in Hstop, Hcap. split; [exact Hstop|].
  intros _. apply Hcap. rewrite length_app. cbn. lia.
Qed.

(** [list] writes, in table order, the length and the name of each file whose name
    begins with the prefix, stopping at the first that does not fit. *)
Theorem list_files_spec prefix out t out' n :
  table_ok t -> list_files prefix out t = (out', n) ->
  exists k, let names := listed prefix t in
    n = Z.of_nat (length (listing (take k names))) /\ (k <= length names)%nat /\ n <= Z.of_nat (length out) /\
    out' = listing (take k names) ++ drop (Z.to_nat n) out /\ length out' = length out /\
    forall nm, names !! k = Some nm -> Z.of_nat (length out) < n + 1 + Z.of_nat (length nm).
Proof.
  intros Ht%table_lens. unfold list_files. destruct (list_loop_spec prefix (Z.of_nat (length out)) t [] Ht) as (k & Hk & Hle & Hstop & Hcap).
  cbn in Hk. rewrite Hk in *. cbv zeta. intros [= <- <-]. exists k. cbn in Hcap. specialize (Hcap ltac:(lia)).
  split; [done|]. split; [done|]. split; [done|]. unfold put. cbn. rewrite Nat2Z.id.
  split; [done|]. split; [|done]. rewrite !length_app, length_take, length_drop. lia.
Qed.

(** ** A disk in memory *)

(** The sectors that were written; the others are zero. *)
Notation MemDisk := (gmap Z (list Z)).

Definition mem_sector (d : MemDisk) (i : Z) : list Z := resize 512 0 (default [] (d !! i)).

Fixpoint mem_write (n : nat) (start : Z) (buf : list Z) (d : MemDisk) : MemDisk :=
  match n with
  | O => d
  | S n => mem_write n (start + 1) (drop 512 buf) (<[start := take 512 buf]> d)
  end.

#[export] Instance mem_driver : BlockDriver MemDisk := {
  is_initialized _ := true;
  capacity _ := 4096;
  block_read start d := (d, Some (region (mem_sector d) start 1));
  block_write start buf d := (mem_write 1 start buf d, true);
  read_sectors start n d := (d, Some (region (mem_sector d) start n));
  write_sectors start buf n d := (mem_write (Z.to_nat n) start buf d, true)
}.

Lemma mem_write_outside n start buf d i : ~ start <= i < start + Z.of_nat n -> mem_write n start buf d !! i = d !! i.
Proof.
  revert start buf d. induction n as [|n IH]; intros start buf d Hi; cbn [mem_write]; [done|].
  rewrite IH by lia. apply lookup_insert_ne. lia.
Qed.

Lemma mem_write_region n start buf d :
  length buf = (512 * n)%nat -> region (mem_sector (mem_write n start buf d)) start (Z.of_nat n) = buf.
Proof.
  revert start buf d. induction n as [|n IH]; intros start buf d Hl.
  { unfold region. cbn. symmetry. apply length_zero_iff_nil. lia. }
  cbn [mem_write]. unfold region. rewrite seqZ_cons by lia. cbn [fmap list_fmap concat].
  replace (Z.pred (Z.of_nat (S n))) with (Z.of_nat n) by lia.
  pose proof (IH (start + 1) (drop 512 buf) (<[start := take 512 buf]> d)) as IH1. unfold region in IH1.
  rewrite <- Z.add_1_r, IH1 by (rewrite length_drop; lia).
  unfold mem_sector at 1. rewrite mem_write_outside, lookup_insert, decide_True by lia.
  change (default [] (Some (take 512 buf))) with (take 512 buf).
  rewrite resize_all_alt by (rewrite length_take; lia). apply take_drop.
Qed.

#[export] Instance mem_laws : DriverLaws MemDisk.
Proof.
  refine {| sector := mem_sector |}.
  - intros d i. apply length_resize.
  - intros start n d d' r [= <- <-]. repeat split; try done. by intros l [= <-].
  - done.
  - intros start buf n d d' ok [= <- <-]. split; [done|]. split; [done|]. split.
    + intros i Hi. unfold mem_sector. rewrite mem_write_outside; [done|]. lia.
    + intros _ Hl. unfold SECTOR in Hl. rewrite <- (Z2Nat.id n) at 2 by lia. apply mem_write_region. lia.
  - done.
Qed.

#[export] Instance mem_reliable : Reliable MemDisk.
Proof. split; [by eexists|done]. Qed.

(** ** Two writers *)

Definition blank : Fs MemDisk := mkFs [] 0 VirtioBlk empty empty.

Definition file_a : MvfsEntry := mkEntry 1 (97 :: zeros 31) [1; 2; 3].
Definition file_b : MvfsEntry := mkEntry 1 (98 :: zeros 31) [4].

Lemma commit_fst start bits t (s : Fs MemDisk) :
  (commit (E := unit) start bits t s).2 = Ok tt -> commit (E := unit) start bits t s = ((commit (E := unit) start bits t s).1, Ok tt).
Proof. intros <-. apply surjective_pairing. Qed.

Tactic Notation "run_step" uconstr(st) := eapply rtc_l; [eapply st; first [reflexivity | vm_compute; reflexivity | discriminate | idtac]|].

(** The second writer changes the table after the first has copied it, and marks
    its bits before the first has written its copy. *)
Lemma two_writers :
  exists W, rtc step (at_boot blank) W /\ quiescent W /\ dirty (fs W) = 0 /\ table (fs W) = [file_a; file_b] /\
    active (fs W) = VirtioBlk.
Proof.
  eexists. split.
  { run_step (SCall blank empty None 1%nat (CWrite [97] [1; 2; 3])). run_step (SCall (D := MemDisk) _ _ _ 2%nat (CWrite [98] [4])).
    run_step (SMutate (D := MemDisk) _ _ _ 1%nat). run_step (SMark (D := MemDisk) _ _ _ 1%nat).
    run_step (STake (D := MemDisk) _ _ 1%nat). run_step (SCopy (D := MemDisk) _ _ 1%nat).
    run_step (SMutate (D := MemDisk) _ _ _ 2%nat). run_step (SMark (D := MemDisk) _ _ _ 2%nat).
    eapply rtc_l; [eapply (SCommit (D := MemDisk) _ _ _ 1%nat); [reflexivity|apply commit_fst; vm_compute; reflexivity]|].
    run_step (STake (D := MemDisk) _ _ 2%nat). run_step (SCopy (D := MemDisk) _ _ 2%nat).
    eapply rtc_l; [eapply (SCommit (D := MemDisk) _ _ _ 2%nat); [reflexivity|apply commit_fst; vm_compute; reflexivity]|].
    apply rtc_refl. }
  split; [|split; [vm_compute; reflexivity|split; vm_compute; reflexivity]].
  intros tid p. cbn [threads]. rewrite !lookup_insert. repeat case_decide; naive_solver.
Qed.

(** ** A call on its own *)

Section alone.
Context {D : Type} `{DriverLaws D}.

Lemma quiescent_one (s : Fs D) tid : quiescent (mkWorld s {[tid := Returned]} None).
Proof. intros tid' p. cbn. rewrite lookup_singleton. case_decide; [by intros [= <-]|done]. Qed.

Lemma flush_run (s s' : Fs D) tid :
  table_ok (table s) -> flush_to_disk (E := unit) s = (s', Ok tt) ->
  rtc step (mkWorld s {[tid := Marked]} None) (mkWorld s' {[tid := Returned]} None).
Proof.
  intros Ht. unfold flush_to_disk, gets, take_dirty, M_bind, M_ret.
  assert (Htid : forall p, ({[tid := p]} : gmap nat pc) !! tid = Some p) by (intros; by rewrite lookup_singleton, decide_True).
  destruct (mvfs_start s) as [start|] eqn:Hst.
  2:{ intros [= <-]. eapply rtc_l; [apply (SNoDisk _ _ _ tid); [apply Htid|done]|]. rewrite insert_singleton_eq. apply rtc_refl. }
  cbv beta iota zeta. destruct (dirty s =? 0) eqn:Hd; bool_prop.
  - intros [= <-]. eapply rtc_l; [apply (SClean _ _ tid start); [apply Htid|done|done]|]. rewrite insert_singleton_eq, <- Hd. destruct s. apply rtc_refl.
  - intros Hc. eapply rtc_l; [apply (STake _ _ tid start); [apply Htid|done|done]|]. rewrite insert_singleton_eq.
    eapply rtc_l; [apply (SCopy _ _ tid start (dirty s)), Htid|]. rewrite insert_singleton_eq.
    eapply rtc_l; [eapply (SCommit _ _ _ tid); [apply Htid|exact Hc]|]. rewrite insert_singleton_eq. apply rtc_refl.
Qed.

(** What a call does when no other runs. *)
Definition call_alone (c : call) (s : Fs D) : Fs D :=
  match c with
  | CWrite nm content => (write nm content s).1
  | CDelete nm => (delete (E := MvfsError) nm s).1
  end.

Lemma flush_unit {E} (s : Fs D) : (flush_to_disk (E := E) s).1 = (flush_to_disk (E := unit) s).1.
Proof.
  unfold flush_to_disk, gets, take_dirty, M_bind, M_ret. destruct (mvfs_start s); [|done]. cbv beta iota zeta.
  destruct (dirty s =? 0); [done|]. unfold commit. by destruct (flush_snapshot _ _ _ _) as [s' [| |]].
Qed.

Lemma call_alone_mutate c s :
  call_alone c s = match mutate c (table s) with
                   | Some (t, bits) => (flush_to_disk (E := unit) (mark_dirty bits (s <| table := t |>))).1
                   | None => s
                   end.
Proof.
  destruct c as [nm content|nm]; cbn [call_alone mutate].
  - unfold write, with_table, modify, lift, fail_if, M_bind, M_ret. destruct (validate_name nm) as [n| |]; [|done|done].
    destruct (_ <? _); [done|]. destruct (write_table nm n content (table s)) as [[t slot]| |]; [|done|done].
    apply flush_unit.
  - unfold delete, with_table, modify, M_bind, M_ret. destruct (validate_name nm) as [n| |]; [|done|done].
    destruct (delete_table nm (table s)) as [[t bits]|]; [|by destruct s].
    rewrite <- (flush_unit (E := MvfsError)). by destruct (flush_to_disk (E := MvfsError) _) as [s' [[]| |]].
Qed.

Lemma alone_is_a_run c (s : Fs D) :
  table_ok (table s) -> exists W, rtc step (at_boot s) W /\ quiescent W /\ fs W = call_alone c s.
Proof.
  intros Ht. exists (mkWorld (call_alone c s) {[0%nat := Returned]} None). split; [|split; [apply quiescent_one|done]].
  eapply rtc_l; [apply (SCall s empty None 0%nat c); by rewrite lookup_empty|]. rewrite insert_empty, call_alone_mutate.
  assert (Htid : forall p, ({[0%nat := p]} : gmap nat pc) !! 0%nat = Some p) by (intros; by rewrite lookup_singleton, decide_True).
  destruct (mutate c (table s)) as [[t bits]|] eqn:Hm.
  - eapply rtc_l; [eapply (SMutate _ _ _ 0%nat c); [apply Htid|exact Hm]|]. rewrite insert_singleton_eq.
    eapply rtc_l; [apply (SMark _ _ _ 0%nat), Htid|]. rewrite insert_singleton_eq.
    destruct (mutate_marks _ _ _ _ Ht Hm) as [Ht' _]. destruct (flush_after (E := unit) t bits s Ht') as (s' & Hf & _).
    apply flush_run; [by cbn|]. by rewrite Hf.
  - eapply rtc_l; [apply (SReject _ _ _ 0%nat c); [apply Htid|done]|]. rewrite insert_singleton_eq. apply rtc_refl.
Qed.
End alone.

(** ** Witnesses *)

Lemma blank_booted : booted blank.
Proof. by split; [split; [done|constructor]|split; [done|]]. Qed.

Definition rebooted (s : Fs MemDisk) : Fs MemDisk := mkFs [] 0 VirtioBlk (virtio_blk s) empty.

Lemma rebooted_ok s : active s = VirtioBlk -> restarted s (rebooted s) /\ mvfs_start (rebooted s) = mvfs_start s.
Proof. intros Ha. destruct s as [t d a v n]. cbn in Ha. subst a. done. Qed.

Lemma mvfs_interleaving_persists_witness :
  exists (W : World MemDisk) s'', table (fs W) = [file_a; file_b] /\
    load_from_disk (E := unit) (rebooted (fs W)) = (s'', Ok tt) /\
    table s'' = [file_a; file_b].
Proof.
  destruct two_writers as (W & Hsteps & Hq & Hd & Ht & Ha). exists W.
  destruct (mvfs_interleaving_persists blank W (rebooted (fs W)) blank_booted Hsteps Hq Hd (proj1 (rebooted_ok _ Ha)))
    as [Hs|(s'' & Hl & Hor)]; [rewrite Hs in Ht; discriminate Ht|]. exists s''. rewrite Ht in Hor.
  split; [done|]. split; [done|]. destruct Hor as [?|[_ [Hno|Href]]]; [done|..].
  - apply mvfs_start_none in Hno. rewrite (proj2 (rebooted_ok _ Ha)) in Hno.
    by destruct (reachable_flushes _ _ blank_booted ltac:(vm_compute; discriminate) Hsteps).
  - by apply (reliable_never_refuses _ _ _ mem_reliable) in Href.
Defined.

Lemma mvfs_reliable_persists_witness :
  exists (W : World MemDisk) s'', table (fs W) = [file_a; file_b] /\
    load_from_disk (E := unit) (rebooted (fs W)) = (s'', Ok tt) /\ table s'' = [file_a; file_b].
Proof.
  destruct two_writers as (W & Hsteps & Hq & Hd & Ht & Ha). exists W. destruct (rebooted_ok _ Ha) as [Hr Hst].
  destruct (mvfs_reliable_persists blank W (rebooted (fs W)) blank_booted ltac:(vm_compute; discriminate) Hsteps Hq Hr Hst)
    as [_ [Hs|(s'' & Hl & Ht' & _)]]; [rewrite Hs in Ht; discriminate Ht|]. exists s''. rewrite Ht in Ht'. by repeat split.
Defined.

Lemma mvfs_refines_map_witness :
  exists s', run exec [OWrite [97] [1; 2; 3]; ORead [97] [0; 0]; ODelete [97]; ODelete [97]; ORead [97] []; OWrite [] []] blank =
      (s', [AWrite (Ok tt); ARead (Ok ([1; 2], 2)); ADelete (Ok true); ADelete (Ok false); ARead (Err NotFound); AWrite (Err InvalidName)]) /\
    abs (table s') = empty.
Proof.
  eexists. split; [vm_compute; reflexivity|]. cbn [table].
  destruct (mvfs_refines_map [OWrite [97] [1; 2; 3]; ORead [97] [0; 0]; ODelete [97]; ODelete [97]; ORead [97] []; OWrite [] []] blank _ _
    (proj1 blank_booted) ltac:(constructor) ltac:(vm_compute; reflexivity)) as [_ _]. done.
Defined.

Lemma list_files_spec_witness :
  table_ok [file_a; file_b] /\ list_files [] (zeros 3) [file_a; file_b] = ([1; 97; 0], 2) /\ length [1; 97; 0] = length (zeros 3).
Proof.
  assert (Ht : table_ok [file_a; file_b]) by (split; [done|]; by repeat constructor).
  split; [done|]. split; [vm_compute; reflexivity|].
  destruct (list_files_spec [] (zeros 3) [file_a; file_b] [1; 97; 0] 2 Ht ltac:(vm_compute; reflexivity)) as (k & _ & _ & _ & _ & Hl & _).
  exact Hl.
Defined.
