(* ===== verification/Elf.v ===== *)
(** The ELF parser of the kernel (src/kernel/src/task/elf.rs).

    A binary is a slice of the address space: its header and its program
    headers are read through pointers, so a header is what stands at its
    address, inside the slice or not. *)

From S2P Require Import Prelude Bytes Slice.

#[local] Open Scope kernel_scope.

Module Elf.

Definition ELF_MAGIC : list Z := [0x7F; 69; 76; 70].
Definition ELFCLASS64 : Z := 2.
Definition ELFDATA2LSB : Z := 1.
Definition ET_EXEC : Z := 2.
Definition EM_X86_64 : Z := 62.
Definition PT_LOAD : Z := 1.

Definition pf_X : Z := 0x1.
Definition pf_W : Z := 0x2.
Definition pf_R : Z := 0x4.

Record Elf64Header : Type := mkHeader {
  e_ident : list Z; e_type : Z; e_machine : Z; e_version : Z; e_entry : Z; e_phoff : Z; e_shoff : Z; e_flags : Z;
  e_ehsize : Z; e_phentsize : Z; e_phnum : Z; e_shentsize : Z; e_shnum : Z; e_shstrndx : Z;
}.

Record Elf64ProgramHeader : Type := mkPhdr {
  p_type : Z; p_flags : Z; p_offset : Z; p_vaddr : Z; p_paddr : Z; p_filesz : Z; p_memsz : Z; p_align : Z;
}.

Definition HEADER_SIZE : Z := 64.
Definition PHDR_SIZE : Z := 56.

Inductive ElfError : Type :=
| TooSmall | InvalidMagic | Not64Bit | WrongEndianness | NotExecutable | WrongArch | InvalidPhoff | KernelVaddr.

(** The word of [n] bytes at [off] of the structure at address [p]. *)
Definition field (m : mem) (p off n : Z) : Z := from_le_bytes (range m (p + off) n).

Definition header_at (m : mem) (p : Z) : Elf64Header :=
  mkHeader (range m p 16) (field m p 16 2) (field m p 18 2) (field m p 20 4) (field m p 24 8) (field m p 32 8)
    (field m p 40 8) (field m p 48 4) (field m p 52 2) (field m p 54 2) (field m p 56 2) (field m p 58 2) (field m p 60 2)
    (field m p 62 2).

Definition phdr_at (m : mem) (p : Z) : Elf64ProgramHeader :=
  mkPhdr (field m p 0 4) (field m p 4 4) (field m p 8 8) (field m p 16 8) (field m p 24 8) (field m p 32 8) (field m p 40 8)
    (field m p 48 8).

Record ElfBinary : Type := mkElf { header : Elf64Header; binary : slice }.

Definition parse (binary : slice) : outcome ElfError ElfBinary :=
  if sl_len binary <? HEADER_SIZE then Err TooSmall else
  let header := header_at (sl_mem binary) (sl_off binary) in
  if negb (bool_decide (take 4 (e_ident header) = ELF_MAGIC)) then Err InvalidMagic else
  if negb (nth 4 (e_ident header) 0 =? ELFCLASS64) then Err Not64Bit else
  if negb (nth 5 (e_ident header) 0 =? ELFDATA2LSB) then Err WrongEndianness else
  if negb (e_type header =? ET_EXEC) then Err NotExecutable else
  if negb (e_machine header =? EM_X86_64) then Err WrongArch else
  Ok (mkElf header binary).

Definition entry_point (e : ElfBinary) : Z := e_entry (header e).

(** [ProgramHeaderIter] *)
Record Iter : Type := mkIter { it_binary : slice; offset : Z; count : Z; entsize : Z; current : Z }.

Definition program_headers (e : ElfBinary) : Iter :=
  mkIter (binary e) (e_phoff (header e)) (e_phnum (header e)) (e_phentsize (header e)) 0.

(** The offset of the header [next] looks at. *)
Definition ph_offset (it : Iter) : Z := u64 (offset it + u64 (current it * entsize it)).

(** The address [next] reads a header from. *)
Definition ph_address (it : Iter) : Z := u64 (sl_off (it_binary it) + ph_offset it).

Definition next (it : Iter) : Iter * option Elf64ProgramHeader :=
  if count it <=? current it then (it, None) else
  if sl_len (it_binary it) <? u64 (ph_offset it + PHDR_SIZE) then (it, None) else
  (mkIter (it_binary it) (offset it) (count it) (entsize it) (current it + 1),
   Some (phdr_at (sl_mem (it_binary it)) (ph_address it))).

(** What a loop over the iterator sees. *)
Fixpoint collect (fuel : nat) (it : Iter) : list Elf64ProgramHeader :=
  match fuel with
  | O => []
  | S fuel => match next it with (it, Some ph) => ph :: collect fuel it | (_, None) => [] end
  end.

Definition loadable_segments (e : ElfBinary) : list Elf64ProgramHeader :=
  filter (fun ph => p_type ph = PT_LOAD) (collect (Z.to_nat (e_phnum (header e))) (program_headers e)).

(** ** The iterator *)

(** A loop that has run dry stays dry: more rounds than [count] see nothing. *)
Lemma collect_enough it n m :
  0 <= current it -> (Z.to_nat (count it - current it) <= n <= m)%nat -> collect n it = collect m it.
Proof.
  revert it m. induction n as [|n IH]; intros it m Hc Hn.
  - destruct m as [|m]; [done|]. cbn [collect]. unfold next. by rewrite (proj2 (Z.leb_le _ _)) by lia.
  - destruct m as [|m]; [lia|]. cbn [collect]. unfold next. destruct (Z.leb_spec (count it) (current it)); [done|].
    destruct (_ <? _); [done|]. f_equal. apply IH; cbn; lia.
Qed.

(** The header of index [i] of a table that does not wrap. *)
Definition phdr_of (e : ElfBinary) (i : Z) : Elf64ProgramHeader :=
  phdr_at (sl_mem (binary e)) (sl_off (binary e) + e_phoff (header e) + i * e_phentsize (header e)).

Definition table_fits (e : ElfBinary) : Prop :=
  0 <= e_phoff (header e) /\ 0 <= e_phentsize (header e) /\ 0 <= e_phnum (header e) /\ 0 <= sl_off (binary e) /\
  sl_off (binary e) + sl_len (binary e) < 2 ^ 64 /\
  e_phoff (header e) + e_phnum (header e) * e_phentsize (header e) + PHDR_SIZE < 2 ^ 64.

Lemma collect_table e i n :
  table_fits e -> 0 <= i -> i + Z.of_nat n = e_phnum (header e) ->
  exists k, (k <= n)%nat /\
    collect n (mkIter (binary e) (e_phoff (header e)) (e_phnum (header e)) (e_phentsize (header e)) i) =
      phdr_of e <$> seqZ i (Z.of_nat k) /\
    (forall j, i <= j < i + Z.of_nat k -> e_phoff (header e) + j * e_phentsize (header e) + PHDR_SIZE <= sl_len (binary e)) /\
    ((k < n)%nat -> sl_len (binary e) < e_phoff (header e) + (i + Z.of_nat k) * e_phentsize (header e) + PHDR_SIZE).
Proof.
  intros (H1 & H2 & H3 & H4 & H5 & H6). unfold PHDR_SIZE in *. revert i. induction n as [|n IH]; intros i Hi Hn.
  { exists 0%nat. repeat split; try done; lia. }
  cbn [collect]. unfold next. cbn [count current it_binary offset entsize]. rewrite (proj2 (Z.leb_gt _ _)) by lia.
  unfold ph_address, ph_offset, PHDR_SIZE. cbn [count current it_binary offset entsize].
  assert (Hie : i * e_phentsize (header e) <= e_phnum (header e) * e_phentsize (header e)) by nia.
  assert (0 <= i * e_phentsize (header e)) by nia. set (w := i * e_phentsize (header e)) in *.
  rewrite (wrap_small 64 w) by (unfold in_width; lia). rewrite (wrap_small 64 (e_phoff (header e) + w)) by (unfold in_width; lia).
  rewrite (wrap_small 64 (e_phoff (header e) + w + 56)) by (unfold in_width; lia).
  destruct (Z.ltb_spec (sl_len (binary e)) (e_phoff (header e) + w + 56)) as [Hout|Hin].
  { exists 0%nat. split; [lia|]. split; [done|]. split; [lia|]. intros _. by rewrite Z.add_0_r. }
  destruct (IH (i + 1)) as (k & Hk & Hc & Hfit & Hstop); [lia|lia|]. exists (S k). rewrite Hc.
  split; [lia|]. split; [|split].
  - rewrite (seqZ_cons i) by lia. cbn. replace (Z.succ i) with (i + 1) by lia. replace (Z.pred (Z.of_nat (S k))) with (Z.of_nat k) by lia.
    f_equal. unfold phdr_of. fold w. rewrite wrap_small by (unfold in_width; lia). f_equal. lia.
  - intros j Hj. destruct (decide (j = i)) as [->|]; [subst w; lia|]. apply Hfit. lia.
  - intros Hlt. replace (i + Z.of_nat (S k)) with (i + 1 + Z.of_nat k) by lia. apply Hstop. lia.
Qed.

(** When the table's end does not overflow, the loop sees the headers the file
    header announces, in order and each inside the file, up to the first that
    does not fit; it then stops. *)
Theorem program_headers_in_bounds (e : ElfBinary) :
  table_fits e ->
  exists k, 0 <= k <= e_phnum (header e) /\
    collect (Z.to_nat (e_phnum (header e))) (program_headers e) = phdr_of e <$> seqZ 0 k /\
    (forall i, 0 <= i < k -> 0 <= e_phoff (header e) + i * e_phentsize (header e) /\
       e_phoff (header e) + i * e_phentsize (header e) + PHDR_SIZE <= sl_len (binary e)) /\
    (k < e_phnum (header e) -> sl_len (binary e) < e_phoff (header e) + k * e_phentsize (header e) + PHDR_SIZE).
Proof.
  intros Hf. pose proof Hf as (H1 & H2 & H3 & _).
  destruct (collect_table e 0 (Z.to_nat (e_phnum (header e))) Hf) as (k & Hk & Hc & Hfit & Hstop); [lia|lia|].
  exists (Z.of_nat k). split; [lia|]. split; [done|]. split.
  - intros i Hi. split; [nia|]. apply Hfit. lia.
  - intros Hlt. apply Hstop. lia.
Qed.

(** An ELF file of 64 bytes, with its program-header table at [phoff]. *)
Definition tiny (phoff : Z) : list Z :=
  ELF_MAGIC ++ [2; 1] ++ replicate 10 0 ++ le_bytes 2 2 ++ le_bytes 2 62 ++ replicate 12 0 ++ le_bytes 8 phoff ++
  replicate 14 0 ++ le_bytes 2 56 ++ le_bytes 2 1 ++ replicate 6 0.

Definition file_at (p : Z) (l : list Z) : slice := mkSlice (fun a => mem_of_list l (a - p)) p (Z.of_nat (length l)).

Lemma program_headers_in_bounds_witness :
  let e := mkElf (header_at (mem_of_list (tiny 8)) 0) (file_at 0 (tiny 8)) in
  parse (file_at 0 (tiny 8)) = Ok e /\
  exists k, 0 <= k <= 1 /\ collect 1 (program_headers e) = phdr_of e <$> seqZ 0 k /\ (k < 1 -> 64 < 8 + k * 56 + 56).
Proof.
  intros e. assert (Hp : parse (file_at 0 (tiny 8)) = Ok e) by (vm_compute; reflexivity).
  split; [done|]. assert (Hf : table_fits e) by (vm_compute; repeat split; congruence).
  destruct (program_headers_in_bounds e Hf) as (k & H1 & H2 & _ & H3). by exists k.
Defined.

(** ** Parsing *)

(** A file is accepted when it has room for the header and each field checked has
    the value required; the entry point is the field of the header. *)
Lemma parse_ok_iff s e :
  parse s = Ok e <->
  e = mkElf (header_at (sl_mem s) (sl_off s)) s /\ 64 <= sl_len s /\
  range (sl_mem s) (sl_off s) 4 = ELF_MAGIC /\ sl_mem s (sl_off s + 4) = 2 /\ sl_mem s (sl_off s + 5) = 1 /\
  field (sl_mem s) (sl_off s) 16 2 = 2 /\ field (sl_mem s) (sl_off s) 18 2 = 62.
Proof.
  unfold parse, HEADER_SIZE. cbn [e_ident e_type e_machine header_at].
  assert (Ht : take 4 (range (sl_mem s) (sl_off s) 16) = range (sl_mem s) (sl_off s) 4) by done.
  assert (H4 : nth 4 (range (sl_mem s) (sl_off s) 16) 0 = sl_mem s (sl_off s + 4)) by (apply nth_lookup_Some, range_lookup; lia).
  assert (H5 : nth 5 (range (sl_mem s) (sl_off s) 16) 0 = sl_mem s (sl_off s + 5)) by (apply nth_lookup_Some, range_lookup; lia).
  rewrite Ht, H4, H5. unfold ELFCLASS64, ELFDATA2LSB, ET_EXEC, EM_X86_64.
  destruct (Z.ltb_spec (sl_len s) 64); [split; [done|lia]|].
  destruct (bool_decide_reflect (range (sl_mem s) (sl_off s) 4 = ELF_MAGIC)) as [Hm|Hm]; cbn [negb]; [|split; [done|intuition congruence]].
  repeat match goal with |- context [negb (?a =? ?b)] => destruct (Z.eqb_spec a b); cbn [negb]; [|split; [done|intuition congruence]] end.
  split; [intros [= <-]; done|]. by intros (-> & _).
Qed.

(** An offset near 2^64 wraps past the check: the first header is read from
    before the file. *)
Theorem phoff_wraps_below_the_file :
  let s := file_at 0x1000 (tiny (2 ^ 64 - 56)) in
  let e := mkElf (header_at (sl_mem s) (sl_off s)) s in
  parse s = Ok e /\ ph_address (program_headers e) = 0x1000 - 56 /\
  (next (program_headers e)).2 = Some (phdr_at (sl_mem s) (0x1000 - 56)).
Proof.
  intros s e. assert (Ha : ph_address (program_headers e) = 0x1000 - 56) by (vm_compute; reflexivity).
  split; [|split; [exact Ha|]].
  - apply parse_ok_iff. split; [done|]. split; [vm_compute; congruence|]. repeat split; vm_compute; reflexivity.
  - unfold next. rewrite Ha.
    assert (H1 : (count (program_headers e) <=? current (program_headers e)) = false) by (vm_compute; reflexivity).
    assert (H2 : (sl_len (it_binary (program_headers e)) <? u64 (ph_offset (program_headers e) + PHDR_SIZE)) = false)
      by (vm_compute; reflexivity).
    by rewrite H1, H2.
Qed.

End Elf.
