(* ===== verification/Spawn.v ===== *)
(** Task spawning (src/kernel/src/task/spawn.rs), with the loaders of raw code
    and of its stack in src/kernel/src/arch/x86_64/usermode.rs and the spawn
    system call in src/kernel/src/arch/x86_64/syscall/handlers/task.rs.

    A loader runs on the kernel and on the bytes of the physical frames it
    hands to the new task.  The binary is a slice of the address space; the
    frames it lies in are in use, so writing a fresh frame does not change it. *)

From S2P Require Import Prelude Bytes Slice Message Buddy Pmm Task Kernel Scheduler Paging Elf.
Import Elf Task.

#[local] Open Scope kernel_scope.

Module Spawn.

Inductive SpawnError : Type :=
| InvalidElf (err : ElfError)
| OutOfMemory
| PermissionDenied
| NotFound.

Record Loader : Type := mkLoader { kernel : Kernel; frames : mem }.

#[export] Instance eta_Loader : Eta Loader := fun r => mkLoader (kernel r) (frames r).
#[export] Instance set_kernel : Setter kernel := ltac:(derive_setter).
#[export] Instance set_frames : Setter frames := ltac:(derive_setter).

Abbreviation L := (M Loader).

(** Entry flags of the [x86_64] crate. *)
Definition PRESENT : Z := 1.
Definition WRITABLE : Z := 2.
Definition USER_ACCESSIBLE : Z := 4.
Definition NO_EXECUTE : Z := Z.shiftl 1 63.

Definition USER_CODE : Z := Z.lor PRESENT USER_ACCESSIBLE.
Definition USER_DATA : Z := Z.lor (Z.lor (Z.lor PRESENT WRITABLE) USER_ACCESSIBLE) NO_EXECUTE.
Definition USER_STACK : Z := USER_DATA.

Definition USERSPACE_TOP : Z := 0x0000800000000000.

(** Run a kernel operation, with another error when it fails. *)
Definition on_kernel {E E' A} (f : K E A) (err : E') : L E' A := fun s =>
  match f (kernel s) with
  | (k, Ok a) => (s <| kernel := k |>, Ok a)
  | (k, Err _) => (s <| kernel := k |>, Err err)
  | (k, Panic) => (s <| kernel := k |>, Panic)
  end.

Definition alloc_frame {E} : L E (option Z) := fun s =>
  match Pmm.alloc_page (pmm (kernel s)) with
  | (p, Ok r) => (s <| kernel := (kernel s) <| pmm := p |> |>, Ok r)
  | (p, Err e) => match e with end
  | (p, Panic) => (s <| kernel := (kernel s) <| pmm := p |> |>, Panic)
  end.

(** [core::ptr::write_bytes(hhdm as *mut u8, 0, 4096)] *)
Definition zero_page (phys : Z) (s : Loader) : Loader := s <| frames := blit (frames s) phys (replicate 4096 0) |>.

(** [page & !0xFFF] *)
Definition page_of (a : Z) : Z := Z.land a (U64_MAX - 0xFFF).

Section ops.
Context `{Mapper}.

(** ** The segments of an ELF file *)

(** The part of the file that goes into a page, and the offset in the page it
    goes to. *)
Definition page_data (binary : slice) (vaddr filesz offset page_vaddr : Z) : list Z * Z :=
  let page_start_in_segment := if page_vaddr <? vaddr then 0 else page_vaddr - vaddr in
  let copy_offset_in_page := if page_vaddr <? vaddr then vaddr - page_vaddr else 0 in
  let remaining_in_file := if page_start_in_segment <? filesz then filesz - page_start_in_segment else 0 in
  let copy_len := Z.min remaining_in_file (4096 - copy_offset_in_page) in
  let src_offset := u64 (offset + page_start_in_segment) in
  if (0 <? copy_len) && (src_offset <? sl_len binary) then
    let src_end := Z.min (u64 (src_offset + copy_len)) (sl_len binary) in
    (range (sl_mem binary) (sl_off binary + src_offset) (u64 (src_end - src_offset)), copy_offset_in_page)
  else ([], copy_offset_in_page).

Definition load_page (binary : slice) (pml4 vaddr filesz offset page_flags page_vaddr : Z) : L SpawnError unit :=
  phys <- alloc_frame ;;
  phys_page <- ok_or phys OutOfMemory ;;
  modify (zero_page phys_page) ;;;
  on_kernel (Paging.map_page_in_table pml4 page_vaddr phys_page page_flags) OutOfMemory ;;;
  let (src, copy_offset_in_page) := page_data binary vaddr filesz offset page_vaddr in
  modify (fun s => s <| frames := blit (frames s) (phys_page + copy_offset_in_page) src |>).

Fixpoint for_each {A E} (f : A -> L E unit) (l : list A) : L E unit :=
  match l with
  | [] => M_ret tt
  | a :: l => f a ;;; for_each f l
  end.

Definition seg_pages (segment : Elf64ProgramHeader) : list Z :=
  let start_page := page_of (p_vaddr segment) in
  let end_addr := u64 (p_vaddr segment + p_memsz segment) in
  let end_page := page_of (u64 (end_addr + 0xFFF)) in
  (fun i => start_page + i * 4096) <$> seqZ 0 ((end_page - start_page) / 4096).

Definition page_flags (segment : Elf64ProgramHeader) : Z :=
  if negb (Z.land (p_flags segment) pf_W =? 0) then USER_DATA else USER_CODE.

Definition load_segment (binary : slice) (pml4 : Z) (segment : Elf64ProgramHeader) : L SpawnError unit :=
  if p_memsz segment =? 0 then M_ret tt else
  let seg_end := saturating_add 64 (p_vaddr segment) (p_memsz segment) in
  if (USERSPACE_TOP <=? p_vaddr segment) || (USERSPACE_TOP <? seg_end) then throw (InvalidElf KernelVaddr) else
  for_each (load_page binary pml4 (p_vaddr segment) (p_filesz segment) (p_offset segment) (page_flags segment)) (seg_pages segment).

(** ** The stack *)

Definition stack_top_addr : Z := 0x7FFFFFFF0000.
Definition stack_base : Z := stack_top_addr - 64 * 4096.
Definition user_stack_top : Z := stack_top_addr - 8.

Definition load_stack_page (pml4 i : Z) : L SpawnError unit :=
  phys <- alloc_frame ;;
  page_phys <- ok_or phys OutOfMemory ;;
  modify (zero_page page_phys) ;;;
  on_kernel (Paging.map_page_in_table pml4 (stack_base + i * 4096) page_phys USER_STACK) OutOfMemory.

(** ** [spawn] *)

(** The task table and the run queue get the new task.  [ptbox] and [stack] are
    the addresses of the placeholder page table and of the kernel stack on the
    heap. *)
Definition start_task (task_id ptbox stack page_table_phys entry user_stack : Z) (s : Loader) : Loader :=
  let t := Task.new task_id ptbox entry stack (uptime (kernel s)) in
  let t := t <| Task.page_table_phys := page_table_phys |>
             <| Task.context := (Task.context t) <| Task.rsp := user_stack |> <| Task.rbp := user_stack |> |> in
  s <| kernel := Sched.enqueue task_id (insert_task t (kernel s)) |>.

Definition new_task_id {E} : L E TaskId := fun s =>
  let (k, tid) := allocate_task_id (kernel s) in (s <| kernel := k |>, Ok tid).

(** What goes into the task's address space. *)
Definition load_image (elf : ElfBinary) (pml4 : Z) : L SpawnError unit :=
  for_each (load_segment (binary elf) pml4) (loadable_segments elf) ;;;
  for_each (load_stack_page pml4) (seqZ 0 64).

Definition spawn (ptbox stack : Z) (bin : slice) : L SpawnError TaskId :=
  match parse bin with
  | Ok elf =>
      task_id <- new_task_id ;;
      pml4 <- on_kernel Paging.create_task_page_table OutOfMemory ;;
      load_image elf pml4 ;;;
      modify (start_task task_id ptbox stack pml4 (entry_point elf) user_stack_top) ;;;
      M_ret task_id
  | Err err => throw (InvalidElf err)
  | Panic => panic
  end.

(** [vm] is the address space the system call runs in. *)
Definition syscall_spawn (ptbox stack : Z) (vm : mem) (binary_ptr binary_len : Z) (s : Loader) : Loader * outcome Empty_set Z :=
  if (binary_ptr =? 0) || (binary_len =? 0) || (100 * 1024 * 1024 <? binary_len) then (s, Ok U64_MAX) else
  match spawn ptbox stack (mkSlice vm binary_ptr binary_len) s with
  | (s, Ok task_id) => (s, Ok task_id)
  | (s, Err _) => (s, Ok U64_MAX)
  | (s, Panic) => (s, Panic)
  end.

(** ** Raw code *)

(** [.expect]: failing is a panic. *)
Definition expect {E E' A} (f : L E A) : L E' A := fun s =>
  match f s with
  | (s, Ok a) => (s, Ok a)
  | (s, _) => (s, Panic)
  end.

(** [VirtAddr::new] panics on an address that is not canonical. *)
Definition virt_addr {E} (a : Z) : L E unit :=
  if (a <? 2 ^ 47) || (2 ^ 64 - 2 ^ 47 <=? a) then M_ret tt else panic.

Definition frame_or_panic {E} : L E Z := expect (phys <- alloc_frame ;; ok_or phys OutOfMemory).

Definition map_or_panic {E} (pml4 virt phys flags : Z) : L E unit :=
  expect (on_kernel (Paging.map_page_in_table pml4 virt phys flags) OutOfMemory).

(** The frame is not zeroed, and all of the code goes to it. *)
Definition map_and_load_user_code_in_table {E} (pml4 : Z) (code : list Z) (base_addr : Z) : L E Z :=
  code_page_addr <- frame_or_panic ;;
  map_or_panic pml4 base_addr code_page_addr USER_CODE ;;;
  modify (fun s => s <| frames := blit (frames s) code_page_addr code |>) ;;;
  virt_addr base_addr ;;;
  M_ret base_addr.

Definition allocate_user_stack_in_table {E} (pml4 stack_base : Z) : L E Z :=
  for_each (fun i =>
    stack_page_addr <- frame_or_panic ;;
    map_or_panic pml4 (u64 (stack_base + i * 4096)) stack_page_addr USER_STACK ;;;
    modify (zero_page stack_page_addr)) (seqZ 0 4) ;;;
  let stack_top := u64 (stack_base + (4 * 4096 - 8)) in
  virt_addr stack_top ;;;
  M_ret stack_top.

Definition spawn_raw (ptbox stack : Z) (code : list Z) (entry_offset : Z) : L SpawnError TaskId :=
  task_id <- new_task_id ;;
  pml4 <- on_kernel Paging.create_task_page_table OutOfMemory ;;
  let code_base := u64 (0x400000 + u64 (u32 (task_id - 1) * 0x40000000)) in
  entry <- map_and_load_user_code_in_table pml4 code code_base ;;
  let entry_addr := u64 (entry + entry_offset) in
  user_stack <- allocate_user_stack_in_table pml4 (u64 (code_base + 0x40000000 - 4096)) ;;
  modify (start_task task_id ptbox stack pml4 entry_addr user_stack) ;;;
  M_ret task_id.
End ops.

End Spawn.
