(* ===== verification/SpawnThm.v ===== *)
(** Task spawning: the new task sees the image its ELF file describes and a
    zeroed stack, nothing outside its lower half is mapped, no page is both
    writable and executable, and a failed spawn starts no task. *)

From S2P Require Import Prelude Bytes Slice Message Buddy BuddySpec BuddyThm Pmm PmmThm Task Kernel Scheduler Paging ShmemSpec Elf Spawn.
Import Elf Spawn Task.

#[local] Open Scope kernel_scope.

(** ** The pages of a segment *)

(** The byte at address [a] of a segment's pages: from the file, zero past it. *)
Definition image (bin : slice) (seg : Elf64ProgramHeader) (a : Z) : Z :=
  let i := a - p_vaddr seg in
  if (0 <=? i) && (i <? p_filesz seg) && (p_offset seg + i <? sl_len bin) then sl_mem bin (sl_off bin + (p_offset seg + i)) else 0.

(** The byte that the loader puts at address [a]: it starts each page at an
    offset in the file that it adds up in 64 bits, so that a huge file offset
    comes out small. *)
Definition loaded_byte (bin : slice) (seg : Elf64ProgramHeader) (a : Z) : Z :=
  let i := a - p_vaddr seg in
  let page_start := Z.max 0 (a / 4096 * 4096 - p_vaddr seg) in
  let src := u64 (p_offset seg + page_start) + (i - page_start) in
  if (0 <=? i) && (i <? p_filesz seg) && (src <? sl_len bin) then sl_mem bin (sl_off bin + src) else 0.

(** The two agree when no offset of the segment reaches 2^64. *)
Definition offsets_fit (seg : Elf64ProgramHeader) : Prop := p_offset seg + p_memsz seg + 4096 < 2 ^ 64.

Lemma loaded_byte_image bin seg a :
  0 <= p_offset seg -> offsets_fit seg -> 0 <= p_memsz seg -> a < p_vaddr seg + p_memsz seg -> loaded_byte bin seg a = image bin seg a.
Proof.
  unfold offsets_fit. intros Ho Hf Hm Ha. unfold loaded_byte, image. cbv zeta.
  set (ps := Z.max 0 (a / 4096 * 4096 - p_vaddr seg)).
  assert (0 <= ps <= p_memsz seg) by (subst ps; Z.div_mod_to_equations; lia).
  rewrite (wrap_small 64 (p_offset seg + ps)) by (unfold in_width; lia).
  by replace (p_offset seg + ps + (a - p_vaddr seg - ps)) with (p_offset seg + (a - p_vaddr seg)) by lia.
Qed.

Definition seg_fits (seg : Elf64ProgramHeader) : Prop :=
  0 <= p_vaddr seg /\ 0 < p_memsz seg /\ p_vaddr seg + p_memsz seg <= USERSPACE_TOP.

Lemma page_of_floor a : 0 <= a < 2 ^ 64 -> page_of a = a / 4096 * 4096.
Proof.
  intros Ha. unfold page_of. change (U64_MAX - 0xFFF) with (2 ^ 64 - 2 ^ 12). rewrite land_high_mask by lia. done.
Qed.

Lemma seg_pages_in seg v : seg_fits seg -> v ∈ seg_pages seg <-> (4096 | v) /\ p_vaddr seg - 4096 < v < p_vaddr seg + p_memsz seg.
Proof.
  intros (Hv & Hm & Ht). unfold USERSPACE_TOP in Ht. unfold seg_pages. cbv zeta.
  rewrite (wrap_small 64 (p_vaddr seg + p_memsz seg)), (wrap_small 64 (_ + 0xFFF)) by (unfold in_width; lia).
  rewrite !page_of_floor by lia. rewrite list_elem_of_fmap.
  set (q := p_vaddr seg / 4096). set (r := (p_vaddr seg + p_memsz seg + 0xFFF) / 4096).
  assert (Hq : q * 4096 <= p_vaddr seg < q * 4096 + 4096) by (subst q; Z.div_mod_to_equations; lia).
  assert (Hr : p_vaddr seg + p_memsz seg <= r * 4096 < p_vaddr seg + p_memsz seg + 4096) by (subst r; Z.div_mod_to_equations; lia).
  rewrite <- Z.mul_sub_distr_r, Z.div_mul by lia. split.
  - intros (i & -> & Hi). rewrite elem_of_seqZ in Hi. split; [exists (q + i); lia|lia].
  - intros ([c ->] & Hlo & Hhi). exists (c - q). split; [lia|]. apply elem_of_seqZ. lia.
Qed.

Lemma page_data_ok bin seg v :
  seg_fits seg -> v ∈ seg_pages seg -> 0 <= sl_len bin < 2 ^ 63 ->
  let '(src, off) := page_data bin (p_vaddr seg) (p_filesz seg) (p_offset seg) v in
  0 <= off /\ off + Z.of_nat (length src) <= 4096 /\
  forall f p o, 0 <= o < 4096 -> (forall i, 0 <= i < 4096 -> f (p + i) = 0) ->
    blit f (p + off) src (p + o) = loaded_byte bin seg (v + o).
Proof.
  intros Hfit Hin Hlen. apply (seg_pages_in seg v Hfit) in Hin as [Hal Hv]. destruct Hfit as (H1 & H2 & H3).
  unfold USERSPACE_TOP in H3. unfold page_data.
  set (ps := if v <? p_vaddr seg then 0 else v - p_vaddr seg).
  set (co := if v <? p_vaddr seg then p_vaddr seg - v else 0).
  assert (Hps : 0 <= ps <= p_memsz seg /\ 0 <= co < 4096 /\ (ps = 0 \/ co = 0) /\ v - p_vaddr seg = ps - co /\ ps = Z.max 0 (v - p_vaddr seg))
    by (subst ps co; destruct (Z.ltb_spec v (p_vaddr seg)); lia).
  clearbody ps co. destruct Hps as (Hps & Hco & Hor & Hd & Hmax).
  set (rem := if ps <? p_filesz seg then p_filesz seg - ps else 0).
  assert (Hrem : rem = Z.max 0 (p_filesz seg - ps)) by (subst rem; destruct (Z.ltb_spec ps (p_filesz seg)); lia).
  clearbody rem. set (cl := Z.min rem (4096 - co)). assert (Hsrc := wrap_range 64 (p_offset seg + ps) ltac:(lia)).
  assert (Hout : forall o, 0 <= o < 4096 -> loaded_byte bin seg (v + o) =
    if (0 <=? o - co + ps) && (o - co + ps <? p_filesz seg) && (u64 (p_offset seg + ps) + (o - co) <? sl_len bin)
    then sl_mem bin (sl_off bin + (u64 (p_offset seg + ps) + (o - co))) else 0).
  { intros o Hr. unfold loaded_byte. cbv zeta. replace ((v + o) / 4096 * 4096) with v by (destruct Hal as [c ->]; Z.div_mod_to_equations; lia).
    rewrite <- Hmax. replace (v + o - p_vaddr seg) with (o - co + ps) by lia.
    by replace (o - co + ps - ps) with (o - co) by lia. }
  set (src := u64 (p_offset seg + ps)) in *. clearbody src. unfold in_width in Hsrc.
  destruct ((0 <? cl) && (src <? sl_len bin)) eqn:Hc.
  - apply andb_true_iff in Hc as [Hc1 Hc2]. apply Z.ltb_lt in Hc1, Hc2.
    rewrite (wrap_small 64 (src + cl)) by (unfold in_width; lia). set (en := Z.min (src + cl) (sl_len bin)).
    rewrite (wrap_small 64 (en - src)) by (unfold in_width; lia).
    rewrite range_length. split; [lia|]. split; [lia|]. intros f p o Hor2 Hz. rewrite Hout by done.
    destruct (decide (co <= o < co + (en - src))) as [Hi|Hi].
    + rewrite blit_inside by (rewrite range_length; lia). replace (p + o - (p + co)) with (o - co) by lia.
      assert (Hl := range_lookup (sl_mem bin) (sl_off bin + src) (en - src) (Z.to_nat (o - co)) ltac:(lia)).
      apply nth_lookup_Some with (d := 0) in Hl. rewrite Hl.
      assert ((0 <=? o - co + ps) && (o - co + ps <? p_filesz seg) && (src + (o - co) <? sl_len bin) = true) as -> by lia.
      f_equal. lia.
    + rewrite blit_outside by (rewrite range_length; lia). rewrite Hz by done.
      assert ((0 <=? o - co + ps) && (o - co + ps <? p_filesz seg) && (src + (o - co) <? sl_len bin) = false) as -> by lia.
      done.
  - cbn [length]. split; [lia|]. split; [lia|]. intros f p o Hor2 Hz. rewrite Hout, blit_outside by (cbn [length]; lia). rewrite Hz by done.
    assert ((0 <=? o - co + ps) && (o - co + ps <? p_filesz seg) && (src + (o - co) <? sl_len bin) = false) as -> by lia.
    done.
Qed.

(** ** What has been loaded *)

Record Page : Type := mkPage { pg_virt : Z; pg_phys : Z; pg_flags : Z; pg_bytes : Z -> Z }.

Definition page_good (p : Page) : Prop :=
  0 <= pg_virt p < USERSPACE_TOP /\ (4096 | pg_virt p) /\ (pg_flags p = USER_CODE \/ pg_flags p = USER_DATA).

Lemma page_good_bytes v a flags b b' : page_good (mkPage v a flags b) -> page_good (mkPage v a flags b').
Proof. done. Qed.

Lemma held_disjoint lim p a b held x :
  pmm_inv lim p ((a, 0%nat) :: held) -> (b, 0%nat) ∈ held -> a <= x < a + 4096 -> b <= x < b + 4096 -> False.
Proof.
  intros [_ (L & _ & _ & Hx) _] Hb Ha Hbx. destruct (Hx x) as [Hle _]. rewrite owners_cons in Hle.
  assert (Hin : in_block a 0 x) by (unfold in_block; change (Buddy.block_size 0) with 4096; lia).
  rewrite decide_True in Hle by done. apply elem_of_Permutation in Hb as (l & Hl).
  rewrite (owners_perm x _ _ Hl), owners_cons in Hle. rewrite decide_True in Hle; [lia|].
  unfold in_block. change (Buddy.block_size 0) with 4096. lia.
Qed.

(** A triple that excludes panics. *)
Definition safe {S E A} (P : S -> Prop) (m : M S E A) (Q : A -> S -> Prop) (R : E -> S -> Prop) : Prop :=
  forall s, P s -> match m s with (s', Ok a) => Q a s' | (s', Err e) => R e s' | (_, Panic) => False end.

Lemma safe_bind {S E A B} P (m : M S E A) Q' (f : A -> M S E B) Q R :
  safe P m Q' R -> (forall a, safe (Q' a) (f a) Q R) -> safe P (M_bind f m) Q R.
Proof.
  intros Hm Hf s Hs. unfold M_bind. specialize (Hm s Hs). destruct (m s) as [s' [a|e|]]; [|done|done]. by apply Hf.
Qed.

Section loading.
Context `{MapperLaws} (lim : Z) (Hlim : walkable lim) (held : Held) (k0 : Kernel) (pml4 : Z).

Definition page_ok (s : Loader) (p : Page) : Prop :=
  mapped (pt_mem (kernel s)) pml4 Size4KiB (pg_virt p) = Some (pg_phys p, pg_flags p) /\
  forall o, 0 <= o < 4096 -> frames s (pg_phys p + o) = pg_bytes p o.

(** Nothing but the allocator and the page tables has changed since [k0]. *)
Definition other_fields (k : Kernel) : Prop := k = k0 <| pmm := pmm k |> <| pt_mem := pt_mem k |>.

Definition confined (m : PtMem) (pages : list Page) : Prop := forall pml4' size virt, beside pml4 pml4' ->
  mapped m pml4' size virt <> mapped (pt_mem k0) pml4' size virt ->
  pml4' = pml4 /\ size = Size4KiB /\ virt ∈ pg_virt <$> pages.

Record loaded (got : Held) (pages : list Page) (s : Loader) : Prop := {
  ld_pmm : exists extra, pmm_inv lim (pmm (kernel s)) (got ++ blocks_of 0 (pg_phys <$> pages) ++ extra ++ held);
  ld_pages : Forall (page_ok s) pages;
  ld_good : Forall page_good pages;
  ld_nodup : NoDup (pg_virt <$> pages);
  ld_rest : other_fields (kernel s);
  ld_confined : confined (pt_mem (kernel s)) pages;
}.

Abbreviation inv := (loaded []).

Lemma other_pmm p k : other_fields k -> other_fields (k <| pmm := p |>).
Proof. unfold other_fields. intros E. rewrite E. reflexivity. Qed.

Lemma other_both p m k : other_fields k -> other_fields (k <| pt_mem := m |> <| pmm := p |>).
Proof. unfold other_fields. intros E. rewrite E. reflexivity. Qed.

(** A failed step leaves the pages loaded so far. *)
Definition gave_up (e : SpawnError) (s : Loader) : Prop := exists pages, inv pages s.

Lemma loaded_drop got pages s : loaded got pages s -> inv pages s.
Proof.
  intros [[extra H1] H2 H3 Hnd H4 H5]. split; try done. exists (got ++ extra). eapply pmm_inv_perm, H1. solve_Permutation.
Qed.

Lemma alloc_frame_ok pages :
  safe (inv pages) (a <- alloc_frame ;; ok_or a Spawn.OutOfMemory) (fun a s => loaded [(a, 0%nat)] pages s) gave_up.
Proof.
  intros s [[extra H1] H2 H3 Hnd H4 H5]. unfold M_bind, alloc_frame.
  destruct (alloc_page_inv lim Hlim _ _ H1) as (p1 & r & Hrun & Hp1). rewrite Hrun.
  pose proof (other_pmm p1 _ H4) as Hrest.
  destruct r as [a|]; cbn.
  - split; try done. exists extra. by cbn.
  - exists pages. split; try done. exists extra. by cbn.
Qed.

Lemma frames_kept a rest pages s f :
  pmm_inv lim (pmm (kernel s)) ((a, 0%nat) :: blocks_of 0 (pg_phys <$> pages) ++ rest) -> Forall (page_ok s) pages ->
  (forall x, ~ a <= x < a + 4096 -> f x = frames s x) -> Forall (page_ok (s <| frames := f |>)) pages.
Proof.
  intros H1 H2 Hf. rewrite Forall_forall in H2 |- *. intros p Hp. destruct (H2 p Hp) as [Hm Hb].
  split; [done|]. intros o Ho. cbn. rewrite Hf; [by apply Hb|]. intros Hin.
  eapply (held_disjoint lim _ a (pg_phys p) _ (pg_phys p + o) H1); [|done|lia].
  apply elem_of_app. left. unfold blocks_of. rewrite <- list_fmap_compose. apply list_elem_of_fmap. by exists p.
Qed.

Lemma zero_page_frames a (s : Loader) i : 0 <= i < 4096 -> frames (zero_page a s) (a + i) = 0.
Proof.
  intros Hi. unfold zero_page. cbn [frames]. change (frames (s <| frames := ?f |>)) with f.
  rewrite blit_inside by (rewrite length_replicate; lia). apply nth_lookup_Some. apply lookup_replicate. lia.
Qed.

Lemma zero_page_ok a pages s : loaded [(a, 0%nat)] pages s -> loaded [(a, 0%nat)] pages (zero_page a s).
Proof.
  intros [[extra H1] H2 H3 Hnd H4 H5]. split; try done; [by exists extra|]. eapply frames_kept; [exact H1|done|].
  intros x Hx. apply blit_outside. rewrite length_replicate. lia.
Qed.

(** Mapping a zeroed frame adds a page. *)
Lemma map_page_ok a v flags pages :
  0 <= v < USERSPACE_TOP -> (4096 | v) -> flags = USER_CODE \/ flags = USER_DATA ->
  safe (fun s => loaded [(a, 0%nat)] pages s /\ forall o, 0 <= o < 4096 -> frames s (a + o) = 0)
    (on_kernel (Paging.map_page_in_table pml4 v a flags) Spawn.OutOfMemory)
    (fun _ s => inv (pages ++ [mkPage v a flags (fun _ => 0)]) s) gave_up.
Proof.
  intros Hv Hal Hfl s [Hl Hz]. pose proof Hl as [[extra H1] H2 H3 Hnd H4 H5].
  unfold on_kernel, Paging.map_page_in_table, Paging.run_map_to, M_bind.
  destruct (pmm_blocks _ _ _ H1 a 0%nat (list_elem_of_here _ _)) as [(Ha0 & Halim & Had) _].
  rewrite virt_addr_user by (unfold USER_END, USERSPACE_TOP in *; lia).
  rewrite phys_addr_ok by (unfold walkable in Hlim; change Buddy.WALK_LIMIT with 1000000 in Hlim; change Buddy.PAGE_SIZE with 4096 in Hlim; change (Buddy.block_size 0) with 4096 in Halim; lia).
  rewrite !containing_start by done.
  destruct (map_to Size4KiB pml4 v a flags (pt_mem (kernel s), pmm (kernel s))) as [[m' p'] ok] eqn:Hm.
  assert (Htk : takes (pmm (kernel s)) p') by (eapply map_to_frames; exact Hm).
  destruct (takes_inv lim Hlim _ _ _ Htk H1) as [extra' Hp'].
  pose proof (other_both p' m' _ H4) as Hrest.
  destruct ok; cbn.
  - destruct (map_to_ok Size4KiB _ _ _ _ _ _ _ _ Hal Hm) as [Hnone Hsome].
    assert (Hne : forall p, p ∈ pages -> pg_virt p <> v).
    { intros p Hp Heq. rewrite Forall_forall in H2. destruct (H2 p Hp) as [Hmp _]. congruence. }
    split; cbn.
    + exists (extra ++ extra'). eapply pmm_inv_perm, Hp'. rewrite fmap_app. unfold blocks_of. rewrite fmap_app. cbn. solve_Permutation.
    + apply Forall_app. split; [|apply Forall_singleton; split; [exact Hsome|exact Hz]].
      rewrite Forall_forall in H2 |- *. intros p Hp. destruct (H2 p Hp) as [Hmp Hbp]. split; [|exact Hbp]. cbn.
      erewrite map_to_other; [exact Hmp|exact Hm|by left|]. right. left. intros [= E]. by apply (Hne p Hp).
    + apply Forall_app. split; [done|]. by apply Forall_singleton.
    + rewrite fmap_app. apply NoDup_app. split; [done|]. split; [|apply NoDup_singleton].
      intros x (p & -> & Hp)%list_elem_of_fmap. cbn. rewrite list_elem_of_singleton. by apply Hne.
    + done.
    + intros pml4' size virt Hbe Hch. destruct (decide ((pml4', size, virt) = (pml4, Size4KiB, v))) as [[= -> -> ->]|Hne'].
      * split; [done|]. split; [done|]. rewrite fmap_app. apply elem_of_app. right. cbn. by apply list_elem_of_singleton.
      * erewrite map_to_other in Hch; [|exact Hm|exact Hbe|].
        2:{ right. destruct (decide ((size, virt) = (Size4KiB, v))) as [[= -> ->]|]; [right|by left].
            unfold USER_END, USERSPACE_TOP in *. split; [lia|intros ->; by apply Hne']. }
        destruct (H5 _ _ _ Hbe Hch) as (-> & -> & Hin). split; [done|]. split; [done|].
        rewrite fmap_app. apply elem_of_app. by left.
  - exists pages. split; cbn; try done.
    + exists ((a, 0%nat) :: extra ++ extra'). eapply pmm_inv_perm, Hp'. solve_Permutation.
    + rewrite Forall_forall in H2 |- *. intros p Hp. destruct (H2 p Hp) as [Hmp Hbp]. split; [|exact Hbp]. cbn.
      erewrite map_to_other; [exact Hmp|exact Hm|by left|by left].
    + intros pml4' size virt Hbe Hch. erewrite map_to_other in Hch; [|exact Hm|exact Hbe|by left]. by apply H5.
Qed.

(** The bytes of the last page can be written. *)
Lemma write_page_ok a v flags pages off src bytes s :
  0 <= off -> off + Z.of_nat (length src) <= 4096 ->
  (forall o, 0 <= o < 4096 -> blit (frames s) (a + off) src (a + o) = bytes o) ->
  inv (pages ++ [mkPage v a flags (fun _ => 0)]) s ->
  inv (pages ++ [mkPage v a flags bytes]) (s <| frames := blit (frames s) (a + off) src |>).
Proof.
  intros Hoff Hlen Hb [[extra H1] H2 H3 Hnd H4 H5]. apply Forall_app in H2 as [H2 H2a]. apply Forall_app in H3 as [H3 H3a].
  apply Forall_singleton in H2a as [Hm _]. rewrite Forall_singleton in H3a.
  assert (H1' : pmm_inv lim (pmm (kernel s)) ((a, 0%nat) :: blocks_of 0 (pg_phys <$> pages) ++ extra ++ held)).
  { eapply pmm_inv_perm, H1. rewrite fmap_app. unfold blocks_of. rewrite fmap_app. cbn. solve_Permutation. }
  split.
  - exists extra. cbn. rewrite fmap_app in *. exact H1.
  - apply Forall_app. split; [|apply Forall_singleton; split; [exact Hm|exact Hb]].
    eapply frames_kept; [exact H1'|done|]. intros x Hx. apply blit_outside. lia.
  - apply Forall_app. split; [done|]. apply Forall_singleton. exact (page_good_bytes _ _ _ _ _ H3a).
  - rewrite fmap_app in *. exact Hnd.
  - done.
  - intros pml4' size virt Hbe Hch. destruct (H5 _ _ _ Hbe Hch) as (-> & -> & Hin). split; [done|]. split; [done|].
    rewrite fmap_app in *. exact Hin.
Qed.

(** ** Loops *)

Definition shows (flags : Z) (bytes : Z -> Z) (v : Z) (p : Page) : Prop :=
  pg_virt p = v /\ pg_flags p = flags /\ forall o, 0 <= o < 4096 -> pg_bytes p o = bytes (v + o).

Lemma for_each_ok {A} (f : A -> L SpawnError unit) (Q : A -> list Page -> Prop) l :
  (forall a pages, a ∈ l -> safe (inv pages) (f a) (fun _ s => exists ps, Q a ps /\ inv (pages ++ ps) s) gave_up) ->
  forall pages, safe (inv pages) (for_each f l) (fun _ s => exists pss, Forall2 Q l pss /\ inv (pages ++ concat pss) s) gave_up.
Proof.
  induction l as [|a l IH]; intros Hf pages; cbn [for_each].
  { intros s Hs. exists []. split; [constructor|]. cbn. by rewrite app_nil_r. }
  eapply safe_bind; [apply (Hf a); by left|]. intros [] s (ps & HQ & Hs).
  assert (HIH := IH (fun a pages Ha => Hf a pages (list_elem_of_further _ _ _ Ha)) (pages ++ ps) s Hs).
  destruct (for_each f l s) as [s' [[]|e|]]; [|done|done]. destruct HIH as (pss & HF & Hs').
  exists (ps :: pss). split; [by constructor|]. cbn. by rewrite app_assoc.
Qed.

Lemma load_page_ok bin seg v pages :
  seg_fits seg -> v ∈ seg_pages seg -> 0 <= sl_len bin < 2 ^ 63 ->
  safe (inv pages) (load_page bin pml4 (p_vaddr seg) (p_filesz seg) (p_offset seg) (page_flags seg) v)
    (fun _ s => exists ps, (exists p, ps = [p] /\ shows (page_flags seg) (loaded_byte bin seg) v p) /\ inv (pages ++ ps) s) gave_up.
Proof.
  intros Hfit Hv Hlen s Hs. pose proof (page_data_ok bin seg v Hfit Hv Hlen) as Hdata.
  apply (seg_pages_in seg v Hfit) in Hv as [Hal Hv]. pose proof Hfit as (F1 & F2 & F3).
  assert (Hv0 : 0 <= v < USERSPACE_TOP) by (destruct Hal as [c ->]; lia).
  assert (Hfl : page_flags seg = USER_CODE \/ page_flags seg = USER_DATA) by (unfold page_flags; destruct (negb _); auto).
  unfold load_page. rewrite <- bind_assoc. pose proof (alloc_frame_ok pages s Hs) as Ha. unfold M_bind at 1.
  destruct ((a <- alloc_frame ;; ok_or a Spawn.OutOfMemory) s) as [s1 [a|e|]]; [|done|done].
  unfold modify, M_bind. cbv beta iota.
  pose proof (map_page_ok a v (page_flags seg) pages Hv0 Hal Hfl (zero_page a s1)
    (conj (zero_page_ok _ _ _ Ha) (fun o Ho => zero_page_frames a s1 o Ho))) as Hmap.
  destruct (on_kernel (Paging.map_page_in_table pml4 v a (page_flags seg)) Spawn.OutOfMemory (zero_page a s1)) as [s2 [[]|e|]]; [|done|done].
  destruct (page_data _ _ _ _ v) as [src off]. destruct Hdata as (D1 & D2 & D3).
  exists [mkPage v a (page_flags seg) (fun o => loaded_byte bin seg (v + o))]. split; [eexists; split; [done|by split]|].
  apply write_page_ok; try done. intros o Hor. apply D3; [done|]. intros i Hi.
  destruct Hmap as [_ Hps _ _ _ _]. apply Forall_app in Hps as [_ Hps]. apply Forall_singleton in Hps as [_ Hz]. by apply Hz.
Qed.

Lemma load_stack_page_ok i pages :
  0 <= i < 64 ->
  safe (inv pages) (load_stack_page pml4 i)
    (fun _ s => exists ps, (exists p, ps = [p] /\ shows USER_DATA (fun _ => 0) (stack_base + i * 4096) p) /\ inv (pages ++ ps) s) gave_up.
Proof.
  intros Hi s Hs. unfold load_stack_page. rewrite <- bind_assoc. pose proof (alloc_frame_ok pages s Hs) as Ha. unfold M_bind at 1.
  destruct ((a <- alloc_frame ;; ok_or a Spawn.OutOfMemory) s) as [s1 [a|e|]]; [|done|done].
  unfold modify, M_bind. cbv beta iota. change USER_STACK with USER_DATA. set (v := stack_base + i * 4096).
  assert (Hv : 0 <= v < USERSPACE_TOP) by (subst v; unfold stack_base, stack_top_addr, USERSPACE_TOP; lia).
  assert (Hal : (4096 | v)) by (exists (0x7FFFFFFF0 - 64 + i); subst v; unfold stack_base, stack_top_addr; lia).
  pose proof (map_page_ok a v USER_DATA pages Hv Hal (or_intror eq_refl) (zero_page a s1)
    (conj (zero_page_ok _ _ _ Ha) (fun o Ho => zero_page_frames a s1 o Ho))) as Hmap.
  destruct (on_kernel (Paging.map_page_in_table pml4 v a USER_DATA) Spawn.OutOfMemory (zero_page a s1)) as [s2 [[]|e|]]; [|done|done].
  exists [mkPage v a USER_DATA (fun _ => 0)]. split; [eexists; split; [done|by split]|done].
Qed.

Definition seg_words (bin : slice) (seg : Elf64ProgramHeader) : Prop :=
  0 <= p_vaddr seg < 2 ^ 64 /\ 0 <= p_memsz seg < 2 ^ 64 /\ 0 <= p_offset seg.

(** What loading a segment leaves: nothing when it is empty, else its pages. *)
Definition seg_shown (bin : slice) (seg : Elf64ProgramHeader) (ps : list Page) : Prop :=
  p_memsz seg = 0 /\ ps = [] \/ seg_fits seg /\ Forall2 (shows (page_flags seg) (loaded_byte bin seg)) (seg_pages seg) ps.

Lemma concat_singles {A B} (R : A -> B -> Prop) l pss :
  Forall2 (fun a ps => exists p, ps = [p] /\ R a p) l pss -> Forall2 R l (concat pss).
Proof. induction 1 as [|a ps l pss (p & -> & HR) _ IH]; cbn; by constructor. Qed.

Lemma load_segment_ok bin seg pages :
  seg_words bin seg -> 0 <= sl_len bin < 2 ^ 63 ->
  safe (inv pages) (load_segment bin pml4 seg) (fun _ s => exists ps, seg_shown bin seg ps /\ inv (pages ++ ps) s) gave_up.
Proof.
  intros (Hv & Hm & Ho) Hlen. unfold load_segment. destruct (Z.eqb_spec (p_memsz seg) 0) as [Hz|Hz].
  { intros s Hs. cbn. exists []. split; [by left|]. by rewrite app_nil_r. }
  cbv zeta. destruct (_ || _) eqn:Hb; [intros s Hs; by exists pages|]. apply orb_false_iff in Hb as [Hb1 Hb2].
  unfold saturating_add, USERSPACE_TOP in *. assert (Hfit : seg_fits seg).
  { unfold seg_fits, USERSPACE_TOP. destruct (_ <? _) eqn:E in Hb2; lia. }
  intros s Hs. pose proof (for_each_ok (load_page bin pml4 (p_vaddr seg) (p_filesz seg) (p_offset seg) (page_flags seg)) _ (seg_pages seg)
    (fun v pages Hin => load_page_ok bin seg v pages Hfit Hin Hlen) pages s Hs) as Hf.
  destruct (for_each _ (seg_pages seg) s) as [s' [[]|e|]]; [|done|done]. destruct Hf as (pss & HF & Hs').
  exists (concat pss). split; [|done]. right. split; [done|]. by apply concat_singles.
Qed.

Lemma load_image_ok (e : ElfBinary) pages :
  (forall seg, seg ∈ loadable_segments e -> seg_words (binary e) seg) -> 0 <= sl_len (binary e) < 2 ^ 63 ->
  safe (inv pages) (load_image e pml4)
    (fun _ s => exists pss stack, Forall2 (seg_shown (binary e)) (loadable_segments e) pss /\
       Forall2 (shows USER_DATA (fun _ => 0)) ((fun i => stack_base + i * 4096) <$> seqZ 0 64) stack /\
       inv (pages ++ concat pss ++ stack) s) gave_up.
Proof.
  intros Hseg Hlen. unfold load_image. eapply safe_bind.
  - apply (for_each_ok _ _ _ (fun seg pages Hin => load_segment_ok (binary e) seg pages (Hseg seg Hin) Hlen)).
  - intros [] s (pss & HF & Hs).
    assert (Hst : forall i pages, i ∈ seqZ 0 64 -> safe (inv pages) (load_stack_page pml4 i) _ gave_up)
      by (intros i ps Hi; apply elem_of_seqZ in Hi; apply (load_stack_page_ok i ps); lia).
    pose proof (for_each_ok (load_stack_page pml4) _ (seqZ 0 64) Hst (pages ++ concat pss) s Hs) as Hf.
    destruct (for_each (load_stack_page pml4) (seqZ 0 64) s) as [s' [[]|err|]]; [|done|done]. destruct Hf as (qss & HF2 & Hs').
    exists pss, (concat qss). split; [done|]. split; [|by rewrite app_assoc].
    apply Forall2_fmap_l. by apply concat_singles.
Qed.
End loading.

(** ** [spawn] *)

Definition bytes_in (bin : slice) : Prop := forall a, byte (sl_mem bin a).

Lemma field_range m p off n : (forall a, byte (m a)) -> 0 <= n -> 0 <= field m p off n < 2 ^ (8 * n).
Proof.
  intros Hm Hn. unfold field. assert (Hl : Z.of_nat (length (range m (p + off) n)) = n) by (rewrite range_length; lia).
  rewrite <- Hl at 3. apply from_le_bytes_range. unfold range. apply Forall_fmap, Forall_forall. intros x _. apply Hm.
Qed.

Lemma collect_from n it ph : ph ∈ collect n it -> exists p, ph = phdr_at (sl_mem (it_binary it)) p.
Proof.
  revert it. induction n as [|n IH]; intros it; cbn [collect]; [by intros ?%not_elem_of_nil|].
  unfold next. destruct (_ <=? _); [by intros ?%not_elem_of_nil|]. destruct (_ <? _); [by intros ?%not_elem_of_nil|].
  intros [->|Hin]%elem_of_cons; [by eexists|]. by apply IH in Hin.
Qed.

Lemma loadable_words e seg :
  bytes_in (binary e) -> seg ∈ loadable_segments e -> seg_words (binary e) seg.
Proof.
  intros Hb [_ [p ->]%collect_from]%list_elem_of_filter. cbn [it_binary program_headers] in *.
  unfold seg_words. cbn [p_vaddr p_memsz p_filesz p_offset phdr_at] in *.
  pose proof (field_range _ p 16 8 Hb). pose proof (field_range _ p 40 8 Hb).
  pose proof (field_range _ p 8 8 Hb). split_and!; lia.
Qed.

(** A file that [spawn] accepts for loading: bytes, fewer than half the address
    space as for every slice of Rust, that parse. *)
Definition file_ok (bin : slice) (e : ElfBinary) : Prop := parse bin = Ok e /\ bytes_in bin /\ 0 <= sl_len bin < 2 ^ 63.

Lemma other_self k : other_fields k k.
Proof. by destruct k. Qed.

Lemma other_new p m k : other_fields k (k <| pmm := p |> <| pt_mem := m |>).
Proof. by destruct k. Qed.

Section spawning.
Context `{MapperLaws} (lim : Z) (Hlim : walkable lim).

Lemma spawn_cases held ptbox stack bin e (s s' : Loader) r :
  file_ok bin e -> pmm_inv lim (pmm (kernel s)) held -> spawn ptbox stack bin s = (s', r) ->
  let k := (allocate_task_id (kernel s)).1 in
  r = Err Spawn.OutOfMemory /\ (exists p, kernel s' = k <| pmm := p |> /\ pmm_inv lim p held) \/
  exists k1 pml4, Paging.create_task_page_table k = (k1, Ok pml4) /\ other_fields k k1 /\ pmm_inv lim (pmm k1) ((pml4, 0%nat) :: held) /\
    ((exists err, r = Err err /\ gave_up lim ((pml4, 0%nat) :: held) k1 pml4 err s') \/
     r = Ok (next_task_id (kernel s)) /\ exists s1 pss st,
       s' = start_task (next_task_id (kernel s)) ptbox stack pml4 (entry_point e) user_stack_top s1 /\
       Forall2 (seg_shown bin) (loadable_segments e) pss /\
       Forall2 (shows USER_DATA (fun _ => 0)) ((fun i => stack_base + i * 4096) <$> seqZ 0 64) st /\
       loaded lim ((pml4, 0%nat) :: held) k1 pml4 [] (concat pss ++ st) s1).
Proof using All.
  intros (Hp & Hb & Hlen) Hinv. unfold spawn. rewrite Hp. unfold new_task_id, on_kernel, modify, M_bind, M_ret.
  cbn [allocate_task_id]. set (k := (kernel s) <| next_task_id := u32 (next_task_id (kernel s) + 1) |>). cbn [fst].
  assert (Hbin : binary e = bin) by (apply parse_ok_iff in Hp as [-> _]; done).
  change (allocate_task_id (kernel s)).1 with k. change (kernel (s <| kernel := k |>)) with k. unfold Paging.create_task_page_table.
  destruct (alloc_page_inv lim Hlim (pmm k) held Hinv) as (p1 & a & Hal & Hp1). rewrite Hal.
  destruct a as [pml4|]; cbn [hold] in Hp1.
  2:{ intros [= <- <-]. left. split; [done|]. by exists p1. }
  set (k1 := k <| pmm := p1 |> <| pt_mem := Paging.copy_upper_half (cr3 k) pml4 (Paging.zero_frame pml4 (pt_mem k)) |>).
  intros Hrun. right. exists k1, pml4. split; [done|]. split; [apply other_new|]. split; [exact Hp1|].
  assert (H0' : loaded lim ((pml4, 0%nat) :: held) k1 pml4 [] [] (s <| kernel := k |> <| kernel := k1 |>)).
  { split; [by exists []|constructor|constructor|constructor|apply other_self|]. intros pm sz v _ Hne. destruct Hne. reflexivity. }
  pose proof (load_image_ok lim Hlim ((pml4, 0%nat) :: held) k1 pml4 e [] ltac:(intros seg Hin; rewrite Hbin; rewrite <- Hbin in *; apply loadable_words; auto) ltac:(by rewrite Hbin) _ H0') as Hl.
  destruct (load_image e pml4 (s <| kernel := k |> <| kernel := k1 |>)) as [s1 [[]|err|]]; [|left|done].
  - destruct Hl as (pss & st & F1 & F2 & Hl). rewrite Hbin in F1. right.
    injection Hrun as <- <-. split; [done|]. by exists s1, pss, st.
  - injection Hrun as <- <-. by exists err.
Qed.

(** The byte a task sees at an address, and the flags of its page. *)
Definition user_byte (s : Loader) (pml4 a : Z) : option (Z * Z) :=
  match mapped (pt_mem (kernel s)) pml4 Size4KiB (a / 4096 * 4096) with
  | Some (phys, flags) => Some (frames s (phys + a mod 4096), flags)
  | None => None
  end.

Lemma shown_byte pages s pml4 p flags bytes a :
  Forall (page_ok pml4 s) pages -> p ∈ pages -> shows flags bytes (a / 4096 * 4096) p -> user_byte s pml4 a = Some (bytes a, flags).
Proof.
  intros Hall Hp (Hv & Hf & Hb). rewrite Forall_forall in Hall. destruct (Hall p Hp) as [Hm Hby].
  assert (Ha : 0 <= a mod 4096 < 4096) by (apply Z.mod_pos_bound; lia).
  unfold user_byte. rewrite <- Hv, Hm, Hf, Hby, Hb by done. do 3 f_equal. rewrite Z.mul_comm. symmetry. apply Z.div_mod. lia.
Qed.

Lemma shown_in {A} (R : A -> Page -> Prop) l ps a : Forall2 R l ps -> a ∈ l -> exists p, p ∈ ps /\ R a p.
Proof.
  intros HF (i & Hi)%list_elem_of_lookup. destruct (Forall2_lookup_l _ _ _ _ _ HF Hi) as (p & Hp & HR).
  exists p. split; [by eapply list_elem_of_lookup_2|done].
Qed.

(** C7: A successful spawn puts a runnable task in the table whose program counter is
    the entry point and whose pages have the flags the segments ask for.  In its
    address space every byte of a loadable segment whose file range ends a page
    below 2^64 (p_offset + p_memsz + 4096 < 2^64) is the byte of the file, zero
    past the file's part; of other segments it is the byte at the offset the
    loader's 64-bit sum wraps to.  The stack is zero. *)
Theorem spawn_loads_image held ptbox stack bin e (s s' : Loader) tid :
  file_ok bin e -> pmm_inv lim (pmm (kernel s)) held -> spawn ptbox stack bin s = (s', Ok tid) ->
  exists t, tid = next_task_id (kernel s) /\ get_task (kernel s') tid = Some t /\ state t = Runnable /\
    rip (context t) = entry_point e /\ rsp (context t) = user_stack_top /\
    (forall seg a, seg ∈ loadable_segments e -> p_vaddr seg <= a < p_vaddr seg + p_memsz seg ->
       user_byte s' (page_table_phys t) a = Some (loaded_byte bin seg a, page_flags seg) /\
       (offsets_fit seg -> loaded_byte bin seg a = image bin seg a)) /\
    (forall a, stack_base <= a < stack_top_addr -> user_byte s' (page_table_phys t) a = Some (0, USER_DATA)) /\
    exists got, pmm_inv lim (pmm (kernel s')) (got ++ held).
Proof using All.
  intros Hf Hinv Hrun. destruct (spawn_cases _ _ _ _ _ _ _ _ Hf Hinv Hrun) as [[? _]|(k1 & pml4 & _ & _ & _ & [(? & ? & _)|Hok])]; try done.
  destruct Hok as ([= ->] & s1 & pss & st & -> & F1 & F2 & [[extra G1] G2 _ _ _ _]).
  eexists. split; [done|]. split; [unfold start_task, get_task; cbn; by rewrite lookup_insert_eq|].
  split; [done|]. split; [done|]. split; [done|]. cbn [page_table_phys].
  assert (Hub : forall a, user_byte (start_task (next_task_id (kernel s)) ptbox stack pml4 (entry_point e) user_stack_top s1) pml4 a =
    user_byte s1 pml4 a) by done.
  split; [|split].
  - intros seg a Hseg Ha. change (page_table_phys _) with pml4. rewrite Hub.
    assert (Hw : seg_words (binary e) seg).
    { apply loadable_words; [|done]. destruct Hf as (Hp & Hb & _). apply parse_ok_iff in Hp as [-> _]. exact Hb. }
    split; [|by intros Hfit; apply loaded_byte_image; [apply Hw|..|apply Ha]; [done|destruct Hw; lia]].
    apply list_elem_of_lookup in Hseg as [i Hi]. destruct (Forall2_lookup_l _ _ _ _ _ F1 Hi) as (ps & Hps & [[Hz _]|[Hfit HF]]); [lia|].
    destruct (shown_in _ _ _ (a / 4096 * 4096) HF) as (p & Hp & Hsh).
    { apply seg_pages_in; [done|]. split; [by exists (a / 4096)|]. Z.div_mod_to_equations. lia. }
    eapply shown_byte; [exact G2| |exact Hsh]. apply elem_of_app. left. apply list_elem_of_In, in_concat. exists ps.
    split; apply list_elem_of_In; [by eapply list_elem_of_lookup_2|done].
  - intros a Ha. change (page_table_phys _) with pml4. rewrite Hub.
    destruct (shown_in _ _ _ (a / 4096 * 4096) F2) as (p & Hp & Hsh).
    { apply list_elem_of_fmap. unfold stack_base, stack_top_addr in *. exists (a / 4096 - 0x7FFFFFFF0 + 64).
      rewrite elem_of_seqZ. Z.div_mod_to_equations. lia. }
    change 0 with ((fun _ : Z => 0) a). eapply shown_byte; [exact G2| |exact Hsh]. apply elem_of_app. by right.
  - exists (blocks_of 0 (pg_phys <$> concat pss ++ st) ++ extra ++ [(pml4, 0%nat)]). eapply pmm_inv_perm, G1. solve_Permutation.
Qed.

(** C8: Whatever its segments ask for, every mapping a spawn adds is a page of the new
    task's own table below the kernel half, and no such page is both writable and
    executable; no table changes whose lower half shares no frame with the new
    one's, be the upper half shared or not.  When the spawn fails no task is
    added or queued; it never panics, and the allocator still owns what it does
    not know to be in use.  The file is one that parses; the new table is what
    the copy of the kernel half left, before anything is mapped. *)
Theorem spawn_confined held ptbox stack bin e (s s' : Loader) r :
  file_ok bin e -> pmm_inv lim (pmm (kernel s)) held -> spawn ptbox stack bin s = (s', r) ->
  r <> Panic /\ (exists got, pmm_inv lim (pmm (kernel s')) (got ++ held)) /\
  (forall err, r = Err err -> task_table (kernel s') = task_table (kernel s) /\ scheduler (kernel s') = scheduler (kernel s)) /\
  (forall tid, tid <> next_task_id (kernel s) -> get_task (kernel s') tid = get_task (kernel s) tid) /\
  (r = Err Spawn.OutOfMemory /\ pt_mem (kernel s') = pt_mem (kernel s) \/
   exists k1 pml4, Paging.create_task_page_table (allocate_task_id (kernel s)).1 = (k1, Ok pml4) /\
  forall pml4' size virt, beside pml4 pml4' ->
       mapped (pt_mem (kernel s')) pml4' size virt <> mapped (pt_mem k1) pml4' size virt ->
       pml4' = pml4 /\ size = Size4KiB /\ 0 <= virt < USERSPACE_TOP /\
  exists phys flags, mapped (pt_mem (kernel s')) pml4' size virt = Some (phys, flags) /\
  Z.testbit flags 2 = true /\ (Z.testbit flags 1 = true -> Z.testbit flags 63 = true)).
Proof using All.
  intros Hf Hinv Hrun.
  destruct (spawn_cases _ _ _ _ _ _ _ _ Hf Hinv Hrun) as [[-> (p & Hk & Hp)]|(k1 & pml4 & Hcr & Ho & Hp & Hcase)].
  { rewrite Hk. split; [done|]. split; [by exists []|]. split; [done|]. split; [done|]. by left. }
  assert (Hconf : forall pages s1, loaded lim ((pml4, 0%nat) :: held) k1 pml4 [] pages s1 ->
    forall pml4' size virt, beside pml4 pml4' -> mapped (pt_mem (kernel s1)) pml4' size virt <> mapped (pt_mem k1) pml4' size virt ->
      pml4' = pml4 /\ size = Size4KiB /\ 0 <= virt < USERSPACE_TOP /\
      exists phys flags, mapped (pt_mem (kernel s1)) pml4' size virt = Some (phys, flags) /\
        Z.testbit flags 2 = true /\ (Z.testbit flags 1 = true -> Z.testbit flags 63 = true)).
  { intros pages s1 [_ G2 G3 _ _ G5] pml4' size virt Hbe Hne. destruct (G5 _ _ _ Hbe Hne) as (-> & -> & Hin).
    apply list_elem_of_fmap in Hin as (pg & -> & Hin). rewrite Forall_forall in G2, G3.
    destruct (G2 pg Hin) as [Hm _]. destruct (G3 pg Hin) as (Hv & _ & Hfl). split; [done|]. split; [done|]. split; [done|].
    exists (pg_phys pg), (pg_flags pg). split; [done|]. by destruct Hfl as [-> | ->]. }
  assert (Hpmm : forall pages s1, loaded lim ((pml4, 0%nat) :: held) k1 pml4 [] pages s1 ->
    exists got, pmm_inv lim (pmm (kernel s1)) (got ++ held)).
  { intros pages s1 [[extra G1] _ _ _ _ _]. exists (blocks_of 0 (pg_phys <$> pages) ++ extra ++ [(pml4, 0%nat)]).
    eapply pmm_inv_perm, G1. solve_Permutation. }
  assert (Hrest : forall pages s1, loaded lim ((pml4, 0%nat) :: held) k1 pml4 [] pages s1 ->
    task_table (kernel s1) = task_table (kernel s) /\ scheduler (kernel s1) = scheduler (kernel s)).
  { intros pages s1 [_ _ _ _ G4 _]. unfold other_fields in G4, Ho. rewrite G4, Ho. done. }
  destruct Hcase as [(err & -> & pages & Hl)|(-> & s1 & pss & st & -> & _ & _ & Hl)].
  - destruct (Hrest _ _ Hl) as [Ht Hs]. split; [done|]. split; [by eapply Hpmm|]. split; [done|].
    split; [intros; unfold get_task; by rewrite Ht|]. right. exists k1, pml4. split; [done|]. by eapply Hconf.
  - destruct (Hrest _ _ Hl) as [Ht Hs]. split; [done|]. split; [by apply (Hpmm _ _ Hl)|]. split; [done|].
    split; [intros tid Htid; unfold get_task, start_task; cbn; rewrite lookup_insert_ne by congruence; by rewrite Ht|].
    right. exists k1, pml4. split; [done|]. by apply (Hconf _ _ Hl).
Qed.

(** A file in which two segments share a page is refused: the second mapping of
    the page fails. *)
Theorem spawn_shared_page_fails held ptbox stack bin e (s : Loader) i j si sj a b :
  file_ok bin e -> pmm_inv lim (pmm (kernel s)) held ->
  loadable_segments e !! i = Some si -> loadable_segments e !! j = Some sj -> (i < j)%nat ->
  p_vaddr si <= a < p_vaddr si + p_memsz si -> p_vaddr sj <= b < p_vaddr sj + p_memsz sj -> a / 4096 = b / 4096 ->
  exists err, (spawn ptbox stack bin s).2 = Err err.
Proof using All.
  intros Hf Hinv Hi Hj Hij Ha Hb Hab. destruct (spawn ptbox stack bin s) as [s1 r] eqn:Hrun.
  destruct (spawn_cases _ _ _ _ _ _ _ _ Hf Hinv Hrun) as [[-> _]|(k1 & pml4 & _ & _ & _ & [(err & -> & _)|Hok])]; [by eexists|by eexists|].
  destruct Hok as (_ & s2 & pss & st & _ & F1 & _ & [_ _ _ Hnd _ _]). exfalso.
  assert (Hpage : forall k sk c, loadable_segments e !! k = Some sk -> p_vaddr sk <= c < p_vaddr sk + p_memsz sk ->
    exists ps p, pss !! k = Some ps /\ p ∈ ps /\ pg_virt p = c / 4096 * 4096).
  { intros k sk c Hk Hc. destruct (Forall2_lookup_l _ _ _ _ _ F1 Hk) as (ps & Hps & [[Hz _]|[Hfit HF]]); [lia|].
    destruct (shown_in _ _ _ (c / 4096 * 4096) HF) as (p & Hp & Hv & _).
    { apply seg_pages_in; [done|]. split; [by exists (c / 4096)|]. Z.div_mod_to_equations. lia. }
    by exists ps, p. }
  destruct (Hpage i si a Hi Ha) as (pi & p & Hpi & Hp & Hvp). destruct (Hpage j sj b Hj Hb) as (pj & q & Hpj & Hq & Hvq).
  rewrite fmap_app in Hnd. apply NoDup_app in Hnd as (Hnd & _ & _).
  rewrite <- (take_drop_middle _ _ _ Hpi) in Hnd. rewrite concat_app, fmap_app in Hnd. apply NoDup_app in Hnd as (_ & _ & Hnd).
  cbn in Hnd. rewrite fmap_app in Hnd. apply NoDup_app in Hnd as (_ & Hnd & _). apply (Hnd (pg_virt p)); [by apply list_elem_of_fmap_2|].
  rewrite Hvp, Hab, <- Hvq. apply list_elem_of_fmap_2, list_elem_of_In, in_concat. exists pj. split; apply list_elem_of_In; [|done].
  apply list_elem_of_lookup. exists (j - S i)%nat. rewrite lookup_drop. by replace (S i + (j - S i))%nat with j by lia.
Qed.
End spawning.

(** ** A file on a small machine *)

Definition phdr_bytes (flags vaddr filesz memsz : Z) : list Z :=
  le_bytes 4 1 ++ le_bytes 4 flags ++ le_bytes 8 232 ++ le_bytes 8 vaddr ++ le_bytes 8 0 ++ le_bytes 8 filesz ++
  le_bytes 8 memsz ++ le_bytes 8 4096.

(** Two loadable segments that take their bytes from the last four of the file. *)
Definition elf_file (v1 v2 : Z) : list Z :=
  ELF_MAGIC ++ [2; 1] ++ replicate 10 0 ++ le_bytes 2 2 ++ le_bytes 2 62 ++ le_bytes 4 1 ++ le_bytes 8 0x400ffe ++ le_bytes 8 64 ++
  le_bytes 8 0 ++ le_bytes 4 0 ++ le_bytes 2 64 ++ le_bytes 2 56 ++ le_bytes 2 3 ++ replicate 6 0 ++
  phdr_bytes 5 v1 4 4 ++ phdr_bytes 6 v2 2 8 ++ replicate 56 0 ++ [0xAA; 0xBB; 0xCC; 0xDD].

Definition elf_at (v1 v2 : Z) : slice := file_at 0x10000 (elf_file v1 v2).
Definition elf_of (v1 v2 : Z) : ElfBinary := mkElf (header_at (sl_mem (elf_at v1 v2)) 0x10000) (elf_at v1 v2).
Definition seg_at (flags vaddr filesz memsz : Z) : Elf64ProgramHeader := mkPhdr 1 flags 232 vaddr 0 filesz memsz 4096.

Definition machine : Loader := mkLoader paging_demo (fun _ => 0xEE).

Lemma elf_ok v1 v2 :
  forallb (fun b => (0 <=? b) && (b <? 256)) (elf_file v1 v2) = true ->
  sl_len (elf_at v1 v2) = 236 -> parse (elf_at v1 v2) = Ok (elf_of v1 v2) -> file_ok (elf_at v1 v2) (elf_of v1 v2).
Proof.
  intros Hb Hlen Hp. split; [done|]. split; [|rewrite Hlen; lia].
  - intros a. apply mem_of_list_byte, Forall_forall. intros b Hin. rewrite forallb_forall in Hb.
    apply list_elem_of_In in Hin. specialize (Hb b Hin). unfold byte. lia.
Qed.

Ltac elf_file_ok := eapply elf_ok; [vm_compute; reflexivity|vm_compute; reflexivity|apply parse_ok_iff; repeat split; vm_compute; congruence].

Lemma good_file : file_ok (elf_at 0x400ffe 0x600000) (elf_of 0x400ffe 0x600000).
Proof. elf_file_ok. Qed.

Lemma machine_pmm : pmm_inv 0x1000000 (pmm (kernel machine)) [].
Proof. apply sample_pmm_inv. Qed.

Abbreviation run_file v1 v2 := (spawn 0 0x8000 (elf_at v1 v2) machine).

Lemma pair_of {A B} (x : A * B) b : x.2 = b -> x = (x.1, b).
Proof. intros <-. apply surjective_pairing. Qed.

Lemma spawn_loads_image_witness :
  (run_file 0x400ffe 0x600000).2 = Ok 1 /\
  exists t, get_task (kernel (run_file 0x400ffe 0x600000).1) 1 = Some t /\ rip (context t) = 0x400ffe /\
    user_byte (run_file 0x400ffe 0x600000).1 (page_table_phys t) 0x401001 = Some (0xDD, USER_CODE) /\
    user_byte (run_file 0x400ffe 0x600000).1 (page_table_phys t) 0x600002 = Some (0, USER_DATA).
Proof.
  assert (Hr : (run_file 0x400ffe 0x600000).2 = Ok 1) by (vm_compute; reflexivity). split; [done|].
  destruct (spawn_loads_image 0x1000000 ltac:(by vm_compute) [] 0 0x8000 _ _ machine _ 1 good_file machine_pmm (pair_of _ _ Hr))
    as (t & _ & Ht & _ & Hrip & _ & Himg & _).
  exists t. split; [done|]. split; [rewrite Hrip; vm_compute; reflexivity|].
  assert (Hs : loadable_segments (elf_of 0x400ffe 0x600000) = [seg_at 5 0x400ffe 4 4; seg_at 6 0x600000 2 8]) by (vm_compute; reflexivity).
  split.
  - destruct (Himg (seg_at 5 0x400ffe 4 4) 0x401001) as [-> Hi]; [rewrite Hs; by left|cbn; lia|].
    rewrite Hi by (by vm_compute). vm_compute. reflexivity.
  - destruct (Himg (seg_at 6 0x600000 2 8) 0x600002) as [-> Hi]; [rewrite Hs; right; by left|cbn; lia|].
    rewrite Hi by (by vm_compute). vm_compute. reflexivity.
Defined.

(** The first segment reaches into the kernel half. *)
Lemma kernel_file : file_ok (elf_at 0x7FFFFFFFFFFE 0x600000) (elf_of 0x7FFFFFFFFFFE 0x600000).
Proof. elf_file_ok. Qed.

Lemma spawn_confined_witness :
  (run_file 0x7FFFFFFFFFFE 0x600000).2 = Err (InvalidElf KernelVaddr) /\
  task_table (kernel (run_file 0x7FFFFFFFFFFE 0x600000).1) = task_table (kernel machine).
Proof.
  assert (Hr : (run_file 0x7FFFFFFFFFFE 0x600000).2 = Err (InvalidElf KernelVaddr)) by (vm_compute; reflexivity). split; [done|].
  destruct (spawn_confined 0x1000000 ltac:(by vm_compute) [] 0 0x8000 _ _ machine _ _ kernel_file machine_pmm (surjective_pairing _))
    as (_ & _ & Herr & _).
  apply (Herr _ Hr).
Defined.

(** The rejected file's page table is not given back: the next page handed out is
    another one. *)
Theorem failed_spawn_leaks :
  (Pmm.alloc_page (pmm (kernel machine))).2 = Ok (Some 0x100000) /\
  (run_file 0x7FFFFFFFFFFE 0x600000).2 = Err (InvalidElf KernelVaddr) /\
  (Pmm.alloc_page (pmm (kernel (run_file 0x7FFFFFFFFFFE 0x600000).1))).2 = Ok (Some 0x101000).
Proof. split_and!; vm_compute; reflexivity. Qed.

(** The second segment starts in the last page of the first. *)
Lemma shared_file : file_ok (elf_at 0x400ffe 0x401800) (elf_of 0x400ffe 0x401800).
Proof. elf_file_ok. Qed.

Lemma spawn_shared_page_fails_witness :
  file_ok (elf_at 0x400ffe 0x401800) (elf_of 0x400ffe 0x401800) /\ exists err, (run_file 0x400ffe 0x401800).2 = Err err.
Proof.
  split; [apply shared_file|].
  assert (Hs : loadable_segments (elf_of 0x400ffe 0x401800) = [seg_at 5 0x400ffe 4 4; seg_at 6 0x401800 2 8]) by (vm_compute; reflexivity).
  apply (spawn_shared_page_fails 0x1000000 ltac:(by vm_compute) [] 0 0x8000 (elf_at 0x400ffe 0x401800) (elf_of 0x400ffe 0x401800) machine 0 1
    (seg_at 5 0x400ffe 4 4) (seg_at 6 0x401800 2 8) 0x401001 0x401800 shared_file machine_pmm);
    [by rewrite Hs|by rewrite Hs|lia|cbn; lia|cbn; lia|by vm_compute].
Defined.

(** The offset of the second page of this segment wraps: the page gets the first
    bytes of the file, where the file has none. *)
Theorem huge_offset_wraps :
  let seg := mkPhdr 1 5 (2 ^ 64 - 4096) 0x400000 0 8192 8192 4096 in
  page_data (elf_at 0 0) (p_vaddr seg) (p_filesz seg) (p_offset seg) 0x401000 = (range (sl_mem (elf_at 0 0)) 0x10000 236, 0) /\
  loaded_byte (elf_at 0 0) seg 0x401000 = 127 /\ image (elf_at 0 0) seg 0x401000 = 0.
Proof. split_and!; by vm_compute. Qed.

(** ** Raw code *)

(** Code longer than a page runs over the frame after the one it was given. *)
Theorem raw_code_overruns_its_frame :
  let s' := (map_and_load_user_code_in_table (E := SpawnError) 0 (replicate 4097 0x90) 0x400000 machine).1 in
  (map_and_load_user_code_in_table (E := SpawnError) 0 (replicate 4097 0x90) 0x400000 machine).2 = Ok 0x400000 /\
  mapped (pt_mem (kernel s')) 0 Size4KiB 0x400000 = Some (0x100000, USER_CODE) /\
  frames machine (0x100000 + 4096) = 0xEE /\ frames s' (0x100000 + 4096) = 0x90.
Proof. split_and!; vm_compute; reflexivity. Qed.
