(* ===== verification/Frame.v ===== *)
(** Framing of the MCP link (src/userspace/libfolk/src/mcp/frame.rs): CRC-16,
    COBS, the frame encoder and decoder and the byte accumulator.

    Serialization of a message is done by the postcard crate, an interface here
    ([Postcard]). *)

From S2P Require Import Prelude Bytes.

#[local] Open Scope kernel_scope.

Module Frame.

Definition MAX_FRAME_SIZE : nat := 4096.
Definition CRC16_POLY : Z := 0x1021.

(** ** The checksum *)

(** One round of the inner loop. *)
Definition crc_bit (crc : Z) : Z :=
  if negb (Z.land crc 0x8000 =? 0) then Z.lxor (u16 (Z.shiftl crc 1)) CRC16_POLY else u16 (Z.shiftl crc 1).

Definition crc_byte (crc byte : Z) : Z := Nat.iter 8 crc_bit (Z.lxor crc (Z.shiftl byte 8)).

Definition crc16 (data : list Z) : Z := fold_left crc_byte data 0xFFFF.

(** ** COBS *)

(** The buffer, the next position, the position of the open block's code and
    the code. *)
Fixpoint cobs_encode_loop (input out : list Z) (write_idx code_idx : nat) (code : Z) : option (list Z * nat) :=
  match input with
  | [] => if (length out <=? write_idx)%nat then None else Some (<[code_idx := code]> out, write_idx)
  | b :: input =>
      if (length out <=? write_idx)%nat then None
      else if b =? 0 then cobs_encode_loop input (<[code_idx := code]> out) (S write_idx) write_idx 1
      else
        let out := <[write_idx := b]> out in
        let code := u8 (code + 1) in
        if code =? 0xFF then cobs_encode_loop input (<[code_idx := code]> out) (S (S write_idx)) (S write_idx) 1
        else cobs_encode_loop input out (S write_idx) code_idx code
  end.

(** The buffer and the number of bytes written. *)
Definition cobs_encode (input out : list Z) : option (list Z * nat) :=
  match input with [] => Some (out, 0%nat) | _ => cobs_encode_loop input out 1 0 1 end.

(** [n] bytes of a block; [out] is what has been written to a buffer of [cap] bytes. *)
Fixpoint copy_block (n : nat) (input out : list Z) (cap : nat) : option (list Z * list Z) :=
  match n with
  | O => Some (input, out)
  | S n =>
      match input with
      | [] => None
      | b :: input => if (cap <=? length out)%nat then None else copy_block n input (out ++ [b]) cap
      end
  end.

Fixpoint cobs_decode_loop (fuel : nat) (input out : list Z) (cap : nat) : option (list Z) :=
  match input, fuel with
  | [], _ => Some out
  | _, O => None
  | code :: input, S fuel =>
      if code =? 0 then None else
      match copy_block (Z.to_nat (code - 1)) input out cap with
      | None => None
      | Some (input, out) =>
          if (code <? 0xFF) && negb (bool_decide (input = [])) then
            if (cap <=? length out)%nat then None else cobs_decode_loop fuel input (out ++ [0]) cap
          else cobs_decode_loop fuel input out cap
      end
  end.

(** Every round takes a code byte: as many rounds as bytes are enough. *)
Definition cobs_decode (input : list Z) (cap : nat) : option (list Z) := cobs_decode_loop (length input) input [] cap.

(** ** Frames *)

Record FrameHeader : Type := mkHeader { session_id : Z; seq_id : Z }.

(** [postcard::to_slice] into a buffer of a size, [postcard::from_bytes]. *)
Class Postcard (T : Type) := {
  to_slice : T -> nat -> option (list Z);
  from_bytes : list Z -> option T;
}.

Section frames.
Context {T : Type} `{Postcard T}.

(** The header, the message and their checksum, in a buffer of [size] bytes. *)
Definition raw_frame (header : FrameHeader) (msg : T) (size : nat) : option (list Z) :=
  let head := le_bytes 4 (session_id header) ++ le_bytes 4 (seq_id header) in
  match to_slice msg (size - 8) with
  | None => None
  | Some payload =>
      let body := head ++ payload in
      let crc := crc16 body in
      if (size <? length body + 2)%nat then None
      else Some (body ++ [Z.land crc 0xFF; Z.shiftr crc 8])
  end.

(** The encoded frame and its sentinel at the front of [out_buf]. *)
Definition finish (raw out_buf : list Z) : option (list Z * nat) :=
  match cobs_encode raw out_buf with
  | None => None
  | Some (out, cobs_len) =>
      if (length out <=? cobs_len)%nat then None else Some (<[cobs_len := 0]> out, S cobs_len)
  end.

Definition encode (header : FrameHeader) (msg : T) (out_buf : list Z) : option (list Z * nat) :=
  match raw_frame header msg 3840 with
  | None => None
  | Some raw => finish raw out_buf
  end.

Definition decode (frame : list Z) : option (FrameHeader * T) :=
  if (8192 <? Z.of_nat (length frame)) then None else
  match cobs_decode frame (Z.to_nat 8192) with
  | None => None
  | Some decoded =>
      if (length decoded <? 11)%nat then None else
      let payload_len := (length decoded - 2)%nat in
      let received_crc := Z.lor (nth payload_len decoded 0) (Z.shiftl (nth (payload_len + 1) decoded 0) 8) in
      if negb (crc16 (take payload_len decoded) =? received_crc) then None else
      let header := mkHeader (from_le_bytes (take 4 decoded)) (from_le_bytes (take 4 (drop 4 decoded))) in
      match from_bytes (drop 8 (take payload_len decoded)) with
      | None => None
      | Some msg => Some (header, msg)
      end
  end.

(** [ack] is [McpResponse::Ack].  The checksum is written without a check: an
    acknowledgment of more than six bytes would be out of range. *)
Definition encode_ack (ack : T) (header : FrameHeader) (out_buf : list Z) : outcome Empty_set (option (list Z * nat)) :=
  match to_slice ack 8 with
  | None => Ok None
  | Some payload =>
      if (6 <? length payload)%nat then Panic else
      let body := le_bytes 4 (session_id header) ++ le_bytes 4 (seq_id header) ++ payload in
      let crc := crc16 body in
      Ok (finish (body ++ [Z.land crc 0xFF; Z.shiftr crc 8]) out_buf)
  end.
End frames.

(** ** The accumulator *)

(** [FrameAccumulator<N>]: [buf\[..pos\]]. *)
Record FrameAccumulator : Type := mkAcc { acc_cap : nat; acc_buf : list Z }.

Definition acc_new (cap : nat) : FrameAccumulator := mkAcc cap [].

Definition push (byte : Z) (a : FrameAccumulator) : FrameAccumulator * option (list Z) :=
  if byte =? 0 then (a, match acc_buf a with [] => None | buf => Some buf end)
  else if (length (acc_buf a) <? acc_cap a)%nat then (mkAcc (acc_cap a) (acc_buf a ++ [byte]), None)
  else (a, None).

Definition reset (a : FrameAccumulator) : FrameAccumulator := mkAcc (acc_cap a) [].

End Frame.
