(* ===== verification/FrameThm.v ===== *)
(** Framing: what is encoded decodes to itself, holds no zero byte before its
    sentinel, comes out of the accumulator whole, and a frame with one wrong
    byte is rejected. *)

From S2P Require Import Prelude Bytes Frame.
Import Frame.

#[local] Open Scope kernel_scope.

(** ** COBS as a sequence of blocks *)

(** The code of [input] when [cur] stands in the open block. *)
Fixpoint blocks (cur input : list Z) : list Z :=
  match input with
  | [] => (Z.of_nat (length cur) + 1) :: cur
  | b :: r =>
      if b =? 0 then (Z.of_nat (length cur) + 1) :: cur ++ blocks [] r
      else if (length cur =? 253)%nat then 0xFF :: (cur ++ [b]) ++ blocks [] r
      else blocks (cur ++ [b]) r
  end.

Lemma blocks_length cur input : (254 * length (blocks cur input) <= 255 * (length cur + length input) + 254)%nat.
Proof.
  revert cur. induction input as [|b r IH]; intros cur; cbn [blocks length]; [lia|].
  destruct (b =? 0); [|destruct (Nat.eqb_spec (length cur) 253)].
  - cbn [length]. rewrite length_app. specialize (IH []). cbn [length] in IH. lia.
  - cbn [length]. rewrite !length_app. specialize (IH []). cbn [length] in *. lia.
  - specialize (IH (cur ++ [b])). rewrite length_app in IH. cbn [length] in IH. lia.
Qed.

Lemma blocks_longer cur input : (1 + length cur <= length (blocks cur input))%nat.
Proof.
  revert cur. induction input as [|b r IH]; intros cur; cbn [blocks length]; [lia|].
  destruct (b =? 0); [|destruct (Nat.eqb_spec (length cur) 253)].
  - cbn [length]. rewrite length_app. lia.
  - cbn [length]. rewrite !length_app. cbn. lia.
  - specialize (IH (cur ++ [b])). rewrite length_app in IH. cbn [length] in IH. lia.
Qed.

Lemma blocks_nonzero cur input :
  Forall (fun b => b <> 0) cur -> Forall (fun b => b <> 0) (blocks cur input).
Proof.
  revert cur. induction input as [|b r IH]; intros cur Hc; cbn [blocks]; [constructor; [lia|done]|].
  destruct (Z.eqb_spec b 0); [|destruct (Nat.eqb_spec (length cur) 253)].
  - constructor; [lia|]. apply Forall_app. split; [done|]. by apply IH.
  - constructor; [lia|]. rewrite !Forall_app. split; [split; [done|by repeat constructor]|by apply IH].
  - apply IH, Forall_app. split; [done|by repeat constructor].
Qed.

Lemma loop_full input out w ci code : (length out <= w)%nat -> cobs_encode_loop input out w ci code = None.
Proof. intros Hw. destruct input; cbn [cobs_encode_loop]; by rewrite (proj2 (Nat.leb_le _ _)) by done. Qed.

Lemma insert_mid (done rest : list Z) x y n : n = length done -> <[n := y]> (done ++ x :: rest) = done ++ y :: rest.
Proof. intros ->. by rewrite insert_app_r_alt, Nat.sub_diag by lia. Qed.

Lemma cobs_encode_loop_spec input done x cur rest :
  (length cur < 254)%nat ->
  cobs_encode_loop input (done ++ x :: cur ++ rest) (length done + 1 + length cur) (length done) (Z.of_nat (length cur) + 1) =
  let r := blocks cur input in
  if (length r <? 1 + length cur + length rest)%nat
  then Some (done ++ r ++ drop (length r - 1 - length cur) rest, (length done + length r)%nat) else None.
Proof.
  revert done x cur rest. induction input as [|b input IH]; intros done x cur rest Hc; cbv zeta.
  - cbn [cobs_encode_loop blocks length]. rewrite length_app. cbn [length]. rewrite length_app.
    destruct rest as [|r0 rest].
    { rewrite (proj2 (Nat.leb_le _ _)), (proj2 (Nat.ltb_ge _ _)) by (cbn; lia). done. }
    rewrite (proj2 (Nat.leb_gt _ _)), (proj2 (Nat.ltb_lt _ _)) by (cbn; lia).
    rewrite insert_mid by done. replace (S (length cur) - 1 - length cur)%nat with 0%nat by lia. cbn. do 2 f_equal. lia.
  - pose proof (blocks_longer [] input) as Hlong. cbn [length] in Hlong.
    destruct rest as [|r0 rest].
    { rewrite loop_full by (rewrite length_app; cbn [length]; rewrite length_app; cbn; lia).
      pose proof (blocks_longer cur (b :: input)). cbn [length]. rewrite (proj2 (Nat.ltb_ge _ _)) by lia. done. }
    cbn [cobs_encode_loop]. rewrite (proj2 (Nat.leb_gt _ _)) by (rewrite length_app; cbn [length]; rewrite length_app; cbn; lia).
    cbn [blocks]. destruct (b =? 0).
    + rewrite insert_mid by done. set (done' := done ++ (Z.of_nat (length cur) + 1) :: cur).
      replace (done ++ (Z.of_nat (length cur) + 1) :: cur ++ r0 :: rest) with (done' ++ r0 :: rest)
        by (unfold done'; by rewrite <- app_assoc).
      assert (Hd : length done' = (length done + 1 + length cur)%nat) by (unfold done'; rewrite length_app; cbn; lia).
      replace (S (length done + 1 + length cur)) with (length done' + 1 + length (@nil Z))%nat by (cbn; lia).
      rewrite <- Hd. pose proof (IH done' r0 [] rest ltac:(cbn; lia)) as IH0. cbv zeta in IH0. change (Z.of_nat (length (@nil Z)) + 1) with 1 in IH0.
      cbn [app] in IH0. rewrite IH0. cbn [length app]. rewrite length_app.
      destruct (Nat.ltb_spec (length (blocks [] input)) (1 + 0 + length rest)).
      * rewrite (proj2 (Nat.ltb_lt _ _)) by lia. f_equal. f_equal; [|lia]. unfold done'.
        replace (S (length cur + length (blocks [] input)) - 1 - length cur)%nat with (S (length (blocks [] input) - 1))%nat by lia.
        cbn [drop]. rewrite Nat.sub_0_r. by simplify_list_eq.
      * by rewrite (proj2 (Nat.ltb_ge _ _)) by lia.
    + replace (done ++ x :: cur ++ r0 :: rest) with ((done ++ x :: cur) ++ r0 :: rest) by by rewrite <- app_assoc.
      rewrite (insert_mid (done ++ x :: cur)) by (rewrite length_app; cbn; lia).
      replace ((done ++ x :: cur) ++ b :: rest) with (done ++ x :: (cur ++ [b]) ++ rest) by by simplify_list_eq.
      assert (Hl : length (cur ++ [b]) = S (length cur)) by (rewrite length_app; cbn; lia).
      rewrite (wrap_small 8) by (unfold in_width; lia).
      destruct (Nat.eqb_spec (length cur) 253) as [Hf|Hf].
      * rewrite (proj2 (Z.eqb_eq _ _)) by lia. rewrite insert_mid by done. cbn [length]. rewrite length_app, Hl.
        destruct rest as [|r1 rest].
        { rewrite loop_full by (rewrite length_app; cbn [length]; rewrite length_app, Hl; cbn [length]; lia).
          by rewrite (proj2 (Nat.ltb_ge _ _)) by (cbn [length]; lia). }
        set (done' := done ++ 255 :: cur ++ [b]).
        replace (done ++ (Z.of_nat (length cur) + 1 + 1) :: (cur ++ [b]) ++ r1 :: rest) with (done' ++ r1 :: rest)
          by (unfold done'; replace 255 with (Z.of_nat (length cur) + 1 + 1) by lia; by simplify_list_eq).
        assert (Hd : length done' = S (length done + 1 + length cur)) by (unfold done'; rewrite length_app; cbn [length]; lia).
        replace (S (S (length done + 1 + length cur))) with (length done' + 1 + length (@nil Z))%nat by (cbn; lia).
        rewrite <- Hd. pose proof (IH done' r1 [] rest ltac:(cbn; lia)) as IH0. cbv zeta in IH0. change (Z.of_nat (length (@nil Z)) + 1) with 1 in IH0.
      cbn [app] in IH0. rewrite IH0. cbn [length app].
        destruct (Nat.ltb_spec (length (blocks [] input)) (1 + 0 + length rest)).
        -- rewrite (proj2 (Nat.ltb_lt _ _)) by lia. f_equal. f_equal; [|lia]. unfold done'.
           replace (S (S (length cur) + length (blocks [] input)) - 1 - length cur)%nat with (S (S (length (blocks [] input) - 1))) by lia.
           cbn [drop]. rewrite Nat.sub_0_r. by simplify_list_eq.
        -- by rewrite (proj2 (Nat.ltb_ge _ _)) by lia.
      * rewrite (proj2 (Z.eqb_neq _ _)) by lia.
        replace (S (length done + 1 + length cur)) with (length done + 1 + length (cur ++ [b]))%nat by lia.
        replace (Z.of_nat (length cur) + 1 + 1) with (Z.of_nat (length (cur ++ [b])) + 1) by lia.
        rewrite IH by lia. cbv zeta. rewrite Hl. pose proof (blocks_longer (cur ++ [b]) input) as Hlong2.
        cbn [length]. destruct (Nat.ltb_spec (length (blocks (cur ++ [b]) input)) (1 + S (length cur) + length rest)).
        -- rewrite (proj2 (Nat.ltb_lt _ _)) by lia. do 4 f_equal.
           replace (length (blocks (cur ++ [b]) input) - 1 - length cur)%nat with (S (length (blocks (cur ++ [b]) input) - 1 - S (length cur))) by lia.
           done.
        -- by rewrite (proj2 (Nat.ltb_ge _ _)) by lia.
Qed.

Lemma copy_block_app cur input out cap :
  (length out + length cur <= cap)%nat -> copy_block (length cur) (cur ++ input) out cap = Some (input, out ++ cur).
Proof.
  revert out. induction cur as [|b cur IH]; intros out Hc; cbn [copy_block length app]; [by rewrite app_nil_r|].
  cbn [length] in Hc. rewrite (proj2 (Nat.leb_gt _ _)) by lia. rewrite IH by (rewrite length_app; cbn; lia).
  by rewrite <- app_assoc.
Qed.

Lemma cobs_decode_loop_blocks input cur out fuel cap :
  (length cur < 254)%nat -> (length (blocks cur input) <= fuel)%nat -> (length out + length cur + length input <= cap)%nat ->
  cobs_decode_loop fuel (blocks cur input) out cap = Some (out ++ cur ++ input).
Proof.
  revert cur out fuel. induction input as [|b input IH]; intros cur out fuel Hc Hf Hcap; cbn [blocks] in *.
  - destruct fuel as [|fuel]; [cbn [length] in Hf; lia|]. cbn [cobs_decode_loop]. rewrite (proj2 (Z.eqb_neq _ _)) by lia.
    replace (Z.to_nat (Z.of_nat (length cur) + 1 - 1)) with (length cur) by lia.
    rewrite <- (app_nil_r cur) at 2. rewrite copy_block_app by (cbn in Hcap; lia).
    rewrite andb_false_r. rewrite app_nil_r. by destruct fuel.
  - cbn [length] in Hcap. destruct (Z.eqb_spec b 0) as [->|Hb]; [|destruct (Nat.eqb_spec (length cur) 253) as [Hful|Hful]].
    + destruct fuel as [|fuel]; [cbn [length] in Hf; lia|]. cbn [length] in Hf. rewrite length_app in Hf.
      cbn [cobs_decode_loop]. rewrite (proj2 (Z.eqb_neq _ _)) by lia.
      replace (Z.to_nat (Z.of_nat (length cur) + 1 - 1)) with (length cur) by lia. rewrite copy_block_app by lia.
      rewrite (proj2 (Z.ltb_lt _ _)) by lia. pose proof (blocks_longer [] input) as Hl. cbn [length] in Hl.
      rewrite bool_decide_eq_false_2 by (intros E; rewrite E in Hl; cbn in Hl; lia). cbn [andb negb].
      rewrite (proj2 (Nat.leb_gt _ _)) by (rewrite length_app; lia). rewrite IH by (rewrite ?length_app; cbn [length]; lia).
      by simplify_list_eq.
    + destruct fuel as [|fuel]; [cbn [length] in Hf; lia|]. cbn [length] in Hf. rewrite !length_app in Hf. cbn [length] in Hf.
      cbn [cobs_decode_loop]. rewrite (proj2 (Z.eqb_neq _ _)) by lia.
      replace (Z.to_nat (0xFF - 1)) with (length (cur ++ [b])) by (rewrite length_app; cbn [length]; lia).
      rewrite copy_block_app by (rewrite length_app; cbn [length]; lia). cbn [andb Z.ltb]. rewrite Z.ltb_irrefl. cbn [andb].
      rewrite IH by (rewrite ?length_app; cbn [length]; lia). by simplify_list_eq.
    + rewrite IH by (rewrite ?length_app; cbn [length]; lia). by simplify_list_eq.
Qed.

Lemma cobs_encode_eq input out :
  input <> [] ->
  cobs_encode input out =
    let r := blocks [] input in
    if (length r <? length out)%nat then Some (r ++ drop (length r) out, length r) else None.
Proof.
  intros Hi. destruct input as [|b input]; [done|]. unfold cobs_encode. pose proof (blocks_longer [] (b :: input)) as Hlong.
  change (length (@nil Z)) with 0%nat in Hlong. destruct out as [|x rest].
  { rewrite loop_full by (cbn; lia). cbv zeta. by rewrite (proj2 (Nat.ltb_ge _ _)) by (cbn [length]; lia). }
  pose proof (cobs_encode_loop_spec (b :: input) [] x [] rest ltac:(cbn; lia)) as H. cbv zeta in H. cbn [length app Nat.add] in H.
  change (Z.of_nat 0 + 1) with 1 in H. rewrite H. cbv zeta. generalize dependent (blocks [] (b :: input)). intros r Hlong _.
  change (length (x :: rest)) with (S (length rest)). destruct (Nat.ltb_spec (length r) (S (length rest))); [|done].
  destruct (length r) as [|k] eqn:Hr; [exfalso; cbn in Hlong; lia|]. cbn [drop]. by replace (S k - 1 - 0)%nat with k by (cbn; lia).
Qed.

Lemma cobs_encode_spec input out out' n :
  input <> [] -> cobs_encode input out = Some (out', n) ->
  n = length (blocks [] input) /\ take n out' = blocks [] input /\ length out' = length out /\ (n < length out)%nat.
Proof.
  intros Hi. rewrite cobs_encode_eq by done. cbv zeta. generalize (blocks [] input). intros r.
  destruct (Nat.ltb_spec (length r) (length out)) as [Hl|]; [|done]. intros [= <- <-].
  split; [done|]. split; [by rewrite take_app_length|]. rewrite length_app, length_drop. lia.
Qed.

(** The encoder, which patches the code of a block once the block is full, writes
    the sequence of blocks when that leaves a byte of the buffer free and fails
    otherwise; the blocks hold no zero, take at most one byte in 254 more than the
    input, and decode to it. *)
Theorem cobs_encode_reference input out cap :
  input <> [] -> (length input <= cap)%nat ->
  let r := blocks [] input in
  cobs_encode input out = (if (length r <? length out)%nat then Some (r ++ drop (length r) out, length r) else None) /\
  Forall (fun b => b <> 0) r /\ (254 * length r <= 255 * length input + 254)%nat /\ cobs_decode r cap = Some input.
Proof.
  intros Hi Hc r. split; [by apply cobs_encode_eq|]. split; [by apply blocks_nonzero|].
  split; [pose proof (blocks_length [] input) as Hl; cbn [length] in Hl; exact Hl|].
  unfold r, cobs_decode. apply (cobs_decode_loop_blocks input [] [] _ cap); cbn [length]; lia.
Qed.

Lemma cobs_encode_reference_witness :
  cobs_encode [7; 0; 9] (replicate 8 1) = Some ([2; 7; 2; 9; 1; 1; 1; 1], 4%nat) /\ cobs_decode [2; 7; 2; 9] 3 = Some [7; 0; 9].
Proof.
  destruct (cobs_encode_reference [7; 0; 9] (replicate 8 1) 3 ltac:(done) ltac:(cbn; lia)) as (H & _ & _ & Hd).
  split; [exact H|exact Hd].
Defined.

(** ** The checksum *)

Definition crc_inv (crc : Z) : Z :=
  if Z.testbit crc 0 then Z.lor (Z.shiftr (Z.lxor crc CRC16_POLY) 1) 0x8000 else Z.shiftr crc 1.

Lemma crc_bit_ok crc : 0 <= crc < 65536 -> 0 <= crc_bit crc < 65536 /\ crc_inv (crc_bit crc) = crc.
Proof.
  intros Hc. assert (Hall : forallb (fun h => forallb (fun l => let c := 256 * h + l in
      (0 <=? crc_bit c) && (crc_bit c <? 65536) && (crc_inv (crc_bit c) =? c)) (seqZ 0 256)) (seqZ 0 256) = true)
    by (vm_compute; reflexivity).
  assert (Hin : forall x, 0 <= x < 256 -> In x (seqZ 0 256)) by (intros x Hx; apply list_elem_of_In, elem_of_seqZ; lia).
  rewrite forallb_forall in Hall. specialize (Hall (crc / 256) (Hin (crc / 256) ltac:(Z.div_mod_to_equations; lia))). rewrite forallb_forall in Hall.
  specialize (Hall (crc mod 256) (Hin (crc mod 256) ltac:(Z.div_mod_to_equations; lia))). cbv zeta in Hall.
  rewrite <- (Z.div_mod crc 256) in Hall by lia. bool_prop. lia.
Qed.

Lemma lxor_range a b n : 0 <= n -> 0 <= a < 2 ^ n -> 0 <= b < 2 ^ n -> 0 <= Z.lxor a b < 2 ^ n.
Proof.
  intros Hn Ha Hb. assert (H0 : 0 <= Z.lxor a b) by (apply Z.lxor_nonneg; lia). split; [done|].
  destruct (Z.eq_dec (Z.lxor a b) 0) as [->|Hne]; [apply Z.pow_pos_nonneg; lia|].
  apply Z.log2_lt_pow2; [lia|]. destruct (Z.eq_dec n 0) as [->|]; [replace a with 0 in Hne by lia; replace b with 0 in Hne by lia; done|].
  eapply Z.le_lt_trans; [apply Z.log2_lxor; lia|]. apply Z.max_lub_lt.
  - destruct (Z.eq_dec a 0) as [->|]; [cbn; lia|]. apply Z.log2_lt_pow2; lia.
  - destruct (Z.eq_dec b 0) as [->|]; [cbn; lia|]. apply Z.log2_lt_pow2; lia.
Qed.

Lemma iter_crc n c : 0 <= c < 65536 -> 0 <= Nat.iter n crc_bit c < 65536.
Proof. intros Hc. induction n as [|n IH]; [done|]. cbn. by apply crc_bit_ok. Qed.

Lemma iter_crc_inj n c c' : 0 <= c < 65536 -> 0 <= c' < 65536 -> Nat.iter n crc_bit c = Nat.iter n crc_bit c' -> c = c'.
Proof.
  intros Hc Hc'. induction n as [|n IH]; [done|]. cbn. intros E. apply IH.
  etransitivity; [symmetry; apply crc_bit_ok, iter_crc, Hc|]. etransitivity; [exact (f_equal crc_inv E)|].
  apply crc_bit_ok, iter_crc, Hc'.
Qed.

Lemma byte_high b : byte b -> 0 <= Z.shiftl b 8 < 65536.
Proof. unfold byte. rewrite Z.shiftl_mul_pow2 by lia. lia. Qed.

Lemma crc_byte_range c b : 0 <= c < 65536 -> byte b -> 0 <= crc_byte c b < 65536.
Proof. intros Hc Hb. apply iter_crc. apply (lxor_range _ _ 16); [lia|done|by apply byte_high]. Qed.

Lemma crc_byte_inj c b c' b' :
  0 <= c < 65536 -> 0 <= c' < 65536 -> byte b -> byte b' -> crc_byte c b = crc_byte c' b' -> (b = b' <-> c = c').
Proof.
  intros Hc Hc' Hb Hb' E. apply iter_crc_inj in E; [|by apply (lxor_range _ _ 16); [lia|done|apply byte_high]..].
  assert (Hs : forall x, Z.shiftl x 8 = x * 256) by (intros; by rewrite Z.shiftl_mul_pow2 by lia). split; intros ->.
  - rewrite <- (lxor_cancel c (Z.shiftl b' 8)), E. apply lxor_cancel.
  - assert (Z.shiftl b 8 = Z.shiftl b' 8) as H0.
    { rewrite !(Z.lxor_comm c') in E. rewrite <- (lxor_cancel (Z.shiftl b 8) c'), E. apply lxor_cancel. }
    rewrite !Hs in H0. lia.
Qed.

Lemma crc_fold_range l c : 0 <= c < 65536 -> Forall byte l -> 0 <= fold_left crc_byte l c < 65536.
Proof. intros Hc Hl. revert c Hc. induction Hl as [|b l Hb _ IH]; intros c Hc; [done|]. cbn. apply IH. by apply crc_byte_range. Qed.

Lemma crc_fold_inj l c c' :
  0 <= c < 65536 -> 0 <= c' < 65536 -> Forall byte l -> fold_left crc_byte l c = fold_left crc_byte l c' -> c = c'.
Proof.
  intros Hc Hc' Hl. revert c c' Hc Hc'. induction Hl as [|b l Hb _ IH]; intros c c' Hc Hc'; [done|]. cbn. intros E.
  apply IH in E; [|by apply crc_byte_range..]. by apply (crc_byte_inj c b c' b).
Qed.

Lemma crc16_range l : Forall byte l -> 0 <= crc16 l < 65536.
Proof. apply crc_fold_range. lia. Qed.

(** One wrong byte changes the checksum. *)
Lemma crc16_split l1 l2 b x : Forall byte l1 -> Forall byte l2 -> byte b -> byte x -> x <> b -> crc16 (l1 ++ b :: l2) <> crc16 (l1 ++ x :: l2).
Proof.
  intros H1 H2 Hb Hx Hne E. unfold crc16 in E. rewrite !fold_left_app in E. cbn [fold_left] in E.
  assert (Hc : 0 <= fold_left crc_byte l1 0xFFFF < 65536) by (apply crc_fold_range; [lia|done]).
  apply crc_fold_inj in E; [|by apply crc_byte_range..|done]. apply (crc_byte_inj _ _ _ _ Hc Hc Hb Hx) in E as [_ E]. by destruct Hne, E.
Qed.

Lemma crc16_one l i b x : Forall byte l -> byte b -> l !! i = Some x -> x <> b -> crc16 (<[i := b]> l) <> crc16 l.
Proof.
  intros Hl Hb Hi Hne. pose proof (take_drop_middle _ _ _ Hi) as Ht. pose proof (lookup_lt_Some _ _ _ Hi).
  rewrite insert_take_drop by done. rewrite <- Ht at 3. apply crc16_split; try done; [by apply Forall_take|by apply Forall_drop|].
  rewrite Forall_lookup in Hl. by eapply Hl.
Qed.

(** ** Frames *)

Class PostcardLaws (T : Type) `{Postcard T} := {
  to_slice_ok m k p : to_slice m k = Some p -> from_bytes p = Some m /\ Forall byte p /\ (0 < length p <= k)%nat;
}.

Section frames.
Context {T : Type} `{PostcardLaws T}.

Definition header_ok (h : FrameHeader) : Prop := 0 <= session_id h < 2 ^ 32 /\ 0 <= seq_id h < 2 ^ 32.

Lemma raw_frame_ok h (m : T) size raw :
  raw_frame h m size = Some raw -> exists payload,
    let body := (le_bytes 4 (session_id h) ++ le_bytes 4 (seq_id h)) ++ payload in
    raw = body ++ [Z.land (crc16 body) 0xFF; Z.shiftr (crc16 body) 8] /\ from_bytes payload = Some m /\
    Forall byte body /\ (9 <= length body)%nat /\ (length raw <= size)%nat.
Proof.
  unfold raw_frame. destruct (to_slice m (size - 8)) as [p|] eqn:Hp; [|done]. destruct (to_slice_ok _ _ _ Hp) as (Hf & Hb & Hl).
  destruct (Nat.ltb_spec size (length ((le_bytes 4 (session_id h) ++ le_bytes 4 (seq_id h)) ++ p) + 2)) as [|Hlen]; [done|].
  intros Hr. apply (inj Some) in Hr as <-. exists p. cbv zeta. split; [done|]. split; [done|]. split; [|split].
  - rewrite !Forall_app. split; [split; apply le_bytes_byte|done].
  - rewrite !length_app, !le_bytes_length. lia.
  - rewrite length_app. cbn [length]. lia.
Qed.

Lemma crc_bytes c : 0 <= c < 65536 -> Z.lor (Z.land c 0xFF) (Z.shiftl (Z.shiftr c 8) 8) = c /\ byte (Z.land c 0xFF) /\ byte (Z.shiftr c 8).
Proof.
  intros Hc. change 0xFF with (Z.ones 8). rewrite Z.land_ones, Z.shiftr_div_pow2 by lia. unfold byte.
  assert (Hm : 0 <= c mod 2 ^ 8 < 2 ^ 8) by (apply Z.mod_pos_bound; lia). rewrite lor_shiftl_add by lia.
  change (2 ^ 8) with 256 in *. split; Z.div_mod_to_equations; lia.
Qed.

(** What the decoder makes of the bytes of a frame. *)
Lemma decode_body f body lo hi :
  (length f <= Z.to_nat 8192)%nat -> cobs_decode f (Z.to_nat 8192) = Some (body ++ [lo; hi]) -> (9 <= length body)%nat ->
  decode f = if crc16 body =? Z.lor lo (Z.shiftl hi 8)
             then (match from_bytes (drop 8 body) with
                   | Some m => Some (mkHeader (from_le_bytes (take 4 body)) (from_le_bytes (take 4 (drop 4 body))), m)
                   | None => None end)
             else None.
Proof.
  intros Hf Hc Hb. unfold decode. rewrite (proj2 (Z.ltb_ge _ _)) by lia. rewrite Hc. rewrite length_app. cbn [length].
  rewrite (proj2 (Nat.ltb_ge _ _)) by lia. replace (length body + 2 - 2)%nat with (length body) by lia. cbv zeta.
  rewrite take_app_length. rewrite !app_nth2 by lia. replace (length body - length body)%nat with 0%nat by lia.
  replace (length body + 1 - length body)%nat with 1%nat by lia. cbn [nth].
  destruct (_ =? _); cbn [negb]; [|done]. rewrite take_app_le by lia.
  rewrite (drop_app_le _ _ 4), take_app_le by (rewrite ?length_drop; lia). done.
Qed.

Definition is_raw (h : FrameHeader) (m : T) (raw : list Z) : Prop := exists size, raw_frame h m size = Some raw.

(** A frame of what was sent decodes to it. *)
Lemma decode_raw h m raw f :
  header_ok h -> is_raw h m raw -> (length f <= Z.to_nat 8192)%nat -> cobs_decode f (Z.to_nat 8192) = Some raw -> decode f = Some (h, m).
Proof.
  intros [Hs Hq] [size Hr] Hf Hc. destruct (raw_frame_ok _ _ _ _ Hr) as (p & -> & Hfb & Hb & Hl & _).
  rewrite (decode_body f _ _ _ Hf Hc Hl). destruct (crc_bytes _ (crc16_range _ Hb)) as (-> & _). rewrite Z.eqb_refl.
  rewrite drop_app_length' by (by rewrite length_app, !le_bytes_length). rewrite Hfb, <- app_assoc.
  rewrite take_app_length', drop_app_length', take_app_length', !from_to_le_bytes, !Z.mod_small by (done || by rewrite le_bytes_length).
  by destruct h.
Qed.

(** C25: A frame written to a buffer ends in its only zero byte and decodes to the
    header and the message it was made of. *)
Theorem frame_roundtrip h (m : T) buf buf' n :
  header_ok h -> encode h m buf = Some (buf', n) ->
  exists f, take n buf' = f ++ [0] /\ Forall (fun b => b <> 0) f /\ length buf' = length buf /\ decode f = Some (h, m).
Proof.
  intros Hh. unfold encode, finish. destruct (raw_frame h m 3840) as [raw|] eqn:Hr; [|done].
  destruct (raw_frame_ok _ _ _ _ Hr) as (p & Hraw & _ & _ & Hl & Hsz).
  assert (Hne : raw <> []) by (rewrite Hraw; by destruct (le_bytes 4 _)).
  destruct (cobs_encode raw buf) as [[out k]|] eqn:Hc; [|done]. destruct (cobs_encode_spec _ _ _ _ Hne Hc) as (-> & Ht & Hlo & Hlt).
  destruct (Nat.leb_spec (length out) (length (blocks [] raw))); [done|]. intros [= <- <-]. exists (blocks [] raw).
  split; [|split; [by apply blocks_nonzero|split; [by rewrite length_insert|]]].
  - rewrite insert_take_drop by lia. rewrite Ht. rewrite <- Nat.add_1_r. by rewrite take_app_add.
  - pose proof (blocks_length [] raw) as Hbl. cbn [length] in Hbl. pose proof (blocks_nonzero [] raw) as _.
    apply (decode_raw h m raw); [done|by exists 3840%nat|lia|].
    unfold cobs_decode. rewrite cobs_decode_loop_blocks; [done|cbn; lia|lia|cbn [length]; lia].
Qed.

(** A frame is written whenever the message fits its buffer: the wire buffers of
    4096 bytes are large enough. *)
Lemma encode_fits h (m : T) p buf :
  to_slice m 3832 = Some p -> (length p <= 3830)%nat -> (4096 <= length buf)%nat -> is_Some (encode h m buf).
Proof.
  intros Hp Hl Hbuf. unfold encode, raw_frame. change (3840 - 8)%nat with 3832%nat. rewrite Hp. cbv zeta.
  set (body := (le_bytes 4 (session_id h) ++ le_bytes 4 (seq_id h)) ++ p).
  assert (Hb : length body = (8 + length p)%nat) by (unfold body; rewrite !length_app, !le_bytes_length; lia).
  rewrite (proj2 (Nat.ltb_ge _ _)) by lia. set (raw := body ++ _).
  assert (Hr : (length raw <= 3840)%nat) by (unfold raw; rewrite length_app; cbn [length]; lia).
  assert (Hne : raw <> []) by (unfold raw; by destruct body). clearbody raw. unfold finish. rewrite cobs_encode_eq by done. cbv zeta.
  pose proof (blocks_length [] raw) as Hbl. cbn [length] in Hbl. generalize dependent (blocks [] raw). intros r Hr0.
  rewrite (proj2 (Nat.ltb_lt _ _)) by lia. rewrite (proj2 (Nat.leb_gt _ _)); [by eexists|]. rewrite length_app, length_drop. lia.
Qed.

(** C26: A frame whose bytes differ from what was sent in exactly one place, header,
    message or checksum, is rejected. *)
Theorem corrupted_byte_rejected h (m : T) raw f i b x :
  is_raw h m raw -> raw !! i = Some x -> byte b -> b <> x -> (length f <= Z.to_nat 8192)%nat ->
  cobs_decode f (Z.to_nat 8192) = Some (<[i := b]> raw) -> decode f = None.
Proof.
  intros [size Hr] Hi Hb Hne Hf Hc. destruct (raw_frame_ok _ _ _ _ Hr) as (p & Hraw & _ & Hby & Hl & _).
  cbv zeta in *. set (body := (le_bytes 4 (session_id h) ++ le_bytes 4 (seq_id h)) ++ p) in *.
  destruct (crc_bytes _ (crc16_range _ Hby)) as (Hcrc & Hlo & Hhi). set (c := crc16 body) in *.
  assert (Hcc : forall lo hi, byte lo -> byte hi -> Z.lor lo (Z.shiftl hi 8) = lo + hi * 256).
  { intros lo hi Hlo' _. unfold byte in Hlo'. rewrite lor_shiftl_add by lia. done. }
  subst raw. destruct (decide (i < length body)%nat) as [Hin|Hout].
  - rewrite lookup_app_l in Hi by done. rewrite insert_app_l in Hc by done.
    rewrite (decode_body f _ _ _ Hf Hc) by (by rewrite length_insert). rewrite Hcrc.
    rewrite (proj2 (Z.eqb_neq _ _)); [done|]. apply (crc16_one body i b x); [done|done|done|congruence].
  - rewrite lookup_app_r in Hi by lia. rewrite insert_app_r_alt in Hc by lia.
    destruct (i - length body)%nat as [|[|?]]; cbn [lookup list_lookup insert list_insert] in Hi, Hc; [| |done];
      apply (inj Some) in Hi; rewrite <- Hi in Hne;
      rewrite (decode_body f _ _ _ Hf Hc Hl), (proj2 (Z.eqb_neq _ _)); try done; fold c; rewrite <- Hcrc at 1; rewrite !Hcc by done; lia.
Qed.
End frames.

(** ** The accumulator *)

(** Bytes arriving one by one; the caller resets after each frame. *)
Fixpoint feed (bytes : list Z) (a : FrameAccumulator) : FrameAccumulator * list (list Z) :=
  match bytes with
  | [] => (a, [])
  | b :: bytes =>
      match push b a with
      | (a, Some frame) => let (a, frames) := feed bytes (reset a) in (a, frame :: frames)
      | (a, None) => feed bytes a
      end
  end.

Lemma feed_frame f rest cap got :
  Forall (fun b => b <> 0) f -> (length got + length f <= cap)%nat -> got ++ f <> [] ->
  feed (f ++ 0 :: rest) (mkAcc cap got) = let (a, frames) := feed rest (acc_new cap) in (a, (got ++ f) :: frames).
Proof.
  revert got. induction f as [|b f IH]; intros got Hf Hl Hne; cbn [feed app].
  - rewrite app_nil_r in *. unfold push. rewrite Z.eqb_refl. cbn [acc_buf]. destruct got; [done|]. done.
  - apply Forall_cons in Hf as [Hb Hf]. unfold push. rewrite (proj2 (Z.eqb_neq _ _)) by done. cbn [acc_buf acc_cap length] in *.
    rewrite (proj2 (Nat.ltb_lt _ _)) by lia. rewrite IH; [by rewrite <- app_assoc|done|rewrite length_app; cbn; lia|].
    rewrite <- app_assoc. done.
Qed.

(** A stream of frames, each followed by its sentinel, comes out frame by frame
    when none is longer than the buffer. *)
Theorem accumulator_stream cap fs :
  Forall (fun f => f <> [] /\ Forall (fun b => b <> 0) f /\ (length f <= cap)%nat) fs ->
  feed (concat ((fun f => f ++ [0]) <$> fs)) (acc_new cap) = (acc_new cap, fs).
Proof.
  induction 1 as [|f fs (Hne & Hz & Hl) _ IH]; [done|]. cbn [fmap list_fmap concat]. rewrite <- app_assoc. cbn [app].
  unfold acc_new at 1. rewrite feed_frame; [by rewrite IH|done|cbn [length]; lia|done].
Qed.

(** ** A message type *)

(** A message is a byte, serialized as itself. *)
#[export] Instance byte_postcard : Postcard (fin 256) := {
  to_slice m size := if (size =? 0)%nat then None else Some [Z.of_nat (fin_to_nat m)];
  from_bytes l := match l with [b] => if decide (Z.to_nat b < 256)%nat is left H then Some (nat_to_fin H) else None | _ => None end;
}.

#[export] Instance byte_postcard_laws : PostcardLaws (fin 256).
Proof.
  split. intros m k p. cbn. destruct (Nat.eqb_spec k 0); [done|]. intros [= <-]. pose proof (fin_to_nat_lt m) as Hm. split; [|split; [|cbn; lia]].
  - rewrite Nat2Z.id. case_decide as Hd; [|done]. f_equal. apply fin_to_nat_inj. by rewrite fin_to_nat_to_fin.
  - repeat constructor; lia.
Qed.

Definition msg7 : fin 256 := 7%fin.

Lemma frame_roundtrip_witness :
  encode (mkHeader 0x01000000 9) msg7 (replicate 64 0xEE) = Some ([1; 1; 1; 3; 1; 9; 1; 1; 4; 7; 73; 133] ++ 0 :: replicate 51 0xEE, 13%nat) /\
  exists f, [1; 1; 1; 3; 1; 9; 1; 1; 4; 7; 73; 133; 0] = f ++ [0] /\ decode f = Some (mkHeader 0x01000000 9, msg7).
Proof.
  assert (He : encode (mkHeader 0x01000000 9) msg7 (replicate 64 0xEE) =
    Some ([1; 1; 1; 3; 1; 9; 1; 1; 4; 7; 73; 133] ++ 0 :: replicate 51 0xEE, 13%nat)) by (vm_compute; reflexivity).
  split; [exact He|]. destruct (frame_roundtrip (mkHeader 0x01000000 9) msg7 _ _ _ ltac:(split; cbn; lia) He) as (f & Hf & _ & _ & Hd).
  exists f. split; [exact Hf|exact Hd].
Defined.

Lemma corrupted_byte_rejected_witness :
  let raw := [0; 0; 0; 1; 9; 0; 0; 0; 7; 73; 133] in
  is_raw (mkHeader 0x01000000 9) msg7 raw /\ decode (T := fin 256) [1; 1; 1; 3; 1; 9; 1; 1; 4; 6; 73; 133] = None.
Proof.
  intros raw. assert (Hr : is_raw (mkHeader 0x01000000 9) msg7 raw) by (exists 16%nat; vm_compute; reflexivity). split; [exact Hr|].
  apply (corrupted_byte_rejected (mkHeader 0x01000000 9) msg7 raw _ 8 6 7 Hr); try (vm_compute; reflexivity); [unfold byte; lia|lia|cbn; lia].
Defined.

Lemma accumulator_stream_witness : feed [3; 7; 0; 5; 0] (acc_new 8) = (acc_new 8, [[3; 7]; [5]]).
Proof. apply (accumulator_stream 8 [[3; 7]; [5]]). repeat constructor; cbn; (done || lia). Defined.
