(* ===== verification/Mcp.v ===== *)
(** The MCP client (src/userspace/libfolk/src/mcp/client.rs, types.rs): session
    and sequence numbers, acknowledgments and the reassembly of WASM binaries
    sent in chunks.

    Its statics are one record.  A poll is given what the two COM2 system calls
    return: the length of a complete frame, if any, and the bytes read. *)

From S2P Require Import Prelude Bytes Frame FrameThm.
Import Frame.

#[local] Open Scope kernel_scope.

Module Mcp.

Inductive NotificationKind : Type := Cancel | Shutdown.

Inductive McpRequest : Type :=
| Initialize (protocol_version : Z)
| ListTools
| CallTool (name args : list Z)
| ChatResponse (text : list Z)
| TimeSync (year month day hour minute second utc_offset_minutes : Z)
| WasmChunk (total_chunks chunk_index : Z) (data : list Z)
| Ping (seq : Z)
| ReqAck
| ReqNack (reason : Z)
| Notification (kind : NotificationKind).

Record ToolDescriptor : Type := mkTool { tool_name : list Z; description : list Z; param_count : Z }.

Inductive McpResponse : Type :=
| InitResult (os_version tool_count : Z)
| ToolsList (tools : list ToolDescriptor)
| ToolResult (success : bool) (data : list Z)
| ChatRequest (prompt : list Z)
| TimeSyncRequest
| WasmGenRequest (description : list Z)
| SamplingRequest (prompt : list Z) (max_tokens : Z)
| Pong (seq : Z)
| Ack
| Nack (reason : Z)
| Error (code : Z) (message : list Z).

Definition PARSE_ERROR : Z := 2.
Definition SESSION_MISMATCH : Z := 3.
Definition MAX_PROMPT_LEN : nat := Z.to_nat 16384.
Definition ASSEMBLY_SIZE : Z := 65536.
Definition POLL_SIZE : Z := 16384.

(** The statics: the first [WASM_ASSEMBLY_LEN] bytes of the assembly buffer, and
    what has been written to the wire, oldest first. *)
Record Client : Type := mkClient {
  SESSION_ID : Z; SEQ_COUNTER : Z; WASM_CHUNKS_RECEIVED : Z; WASM_CHUNKS_TOTAL : Z; WASM_ASSEMBLY : list Z; wire : list (list Z);
}.

#[export] Instance eta_Client : Eta Client := fun c =>
  mkClient (SESSION_ID c) (SEQ_COUNTER c) (WASM_CHUNKS_RECEIVED c) (WASM_CHUNKS_TOTAL c) (WASM_ASSEMBLY c) (wire c).
#[export] Instance set_session : Setter SESSION_ID := ltac:(derive_setter).
#[export] Instance set_seq : Setter SEQ_COUNTER := ltac:(derive_setter).
#[export] Instance set_received : Setter WASM_CHUNKS_RECEIVED := ltac:(derive_setter).
#[export] Instance set_total : Setter WASM_CHUNKS_TOTAL := ltac:(derive_setter).
#[export] Instance set_assembly : Setter WASM_ASSEMBLY := ltac:(derive_setter).
#[export] Instance set_wire : Setter wire := ltac:(derive_setter).

Definition initial : Client := mkClient 0 0 0 0 [] [].

(** [rtc] and [uptime] are the clock readings. *)
Definition init_session (rtc uptime : Z) (c : Client) : Client :=
  c <| SESSION_ID := Z.lxor (u32 rtc) (u32 (u32 uptime * 2654435761)) |>.

Definition next_seq (c : Client) : Client * Z :=
  let seq := u32 (SEQ_COUNTER c + 1) in (c <| SEQ_COUNTER := seq |>, seq).

Definition header (c : Client) (seq : Z) : FrameHeader := mkHeader (SESSION_ID c) seq.

Definition write_raw (bytes : list Z) (c : Client) : Client := c <| wire := wire c ++ [bytes] |>.

Section client.
Context `{Postcard McpRequest} `{Postcard McpResponse}.

Definition send (msg : McpResponse) (c : Client) : Client * option Z :=
  let (c, seq) := next_seq c in
  match encode (header c seq) msg (replicate MAX_FRAME_SIZE 0) with
  | None => (c, None)
  | Some (buf, len) => (write_raw (take len buf) c, Some seq)
  end.

Definition send_reply (msg : McpResponse) (seq : Z) (c : Client) : Client :=
  match encode (header c seq) msg (replicate 64 0) with
  | None => c
  | Some (buf, len) => write_raw (take len buf) c
  end.

Definition send_ack : Z -> Client -> Client := send_reply Ack.
Definition send_nack (received_seq reason : Z) : Client -> Client := send_reply (Nack reason) received_seq.

Definition send_chat (prompt : list Z) : Client -> Client * option Z := send (ChatRequest (take MAX_PROMPT_LEN prompt)).

Definition send_time_sync (c : Client) : Client * bool :=
  let (c, r) := send TimeSyncRequest c in (c, bool_decide (r <> None)).

(** [&s\[..n\]] of a string slice panics inside a character. *)
Definition char_boundary (s : list Z) (n : nat) : bool :=
  match s !! n with Some b => negb (utf8_tail b) | None => (n =? length s)%nat end.

Definition send_wasm_gen (description : list Z) (c : Client) : Client * outcome Empty_set bool :=
  let n := Nat.min (length description) 255 in
  if char_boundary description n then
    let (c, r) := send (WasmGenRequest (take n description)) c in (c, Ok (bool_decide (r <> None)))
  else (c, Panic).

(** A chunk: the state after it, and whether it completes the binary. *)
Definition take_chunk (total_chunks chunk_index : Z) (data : list Z) (c : Client) : Client * bool :=
  let c := if chunk_index =? 0 then c <| WASM_CHUNKS_TOTAL := total_chunks |> <| WASM_CHUNKS_RECEIVED := 0 |> <| WASM_ASSEMBLY := [] |> else c in
  let offset := Z.of_nat (length (WASM_ASSEMBLY c)) in
  let copy_len := Z.min (Z.of_nat (length data)) (ASSEMBLY_SIZE - offset) in
  let c := c <| WASM_ASSEMBLY := WASM_ASSEMBLY c ++ take (Z.to_nat copy_len) data |>
             <| WASM_CHUNKS_RECEIVED := u16 (WASM_CHUNKS_RECEIVED c + 1) |> in
  (c, WASM_CHUNKS_TOTAL c <=? WASM_CHUNKS_RECEIVED c).

(** A frame that decoded. *)
Definition receive (hdr : FrameHeader) (msg : McpRequest) (c : Client) : Client * option McpRequest :=
  let my_sid := SESSION_ID c in
  if negb (my_sid =? 0) && negb (session_id hdr =? 0) && negb (session_id hdr =? my_sid)
  then (send_nack (seq_id hdr) SESSION_MISMATCH c, None)
  else
    let c := match msg with ReqAck | ReqNack _ => c | _ => send_ack (seq_id hdr) c end in
    match msg with
    | WasmChunk total_chunks chunk_index data =>
        let (c, complete) := take_chunk total_chunks chunk_index data c in
        (c, if complete then Some msg else None)
    | _ => (c, Some msg)
    end.

(** [frame_len] is what the poll returns, [data] the bytes the read fills. *)
Definition poll (frame_len : option Z) (data : list Z) (c : Client) : Client * option McpRequest :=
  match frame_len with
  | None => (c, None)
  | Some frame_len =>
      let read_len := Z.of_nat (length data) in
      if (read_len =? 0) || (frame_len =? 0) then (c, None) else
      let safe_len := Z.min (Z.min frame_len read_len) POLL_SIZE in
      match decode (take (Z.to_nat safe_len) data) with
      | Some (hdr, msg) => receive hdr msg c
      | None => (send_nack 0 PARSE_ERROR c, None)
      end
  end.
End client.

Definition wasm_assembly_complete (c : Client) : bool :=
  (0 <? WASM_CHUNKS_TOTAL c) && (WASM_CHUNKS_TOTAL c <=? WASM_CHUNKS_RECEIVED c).

Definition wasm_assembly_data (c : Client) : list Z := WASM_ASSEMBLY c.

Definition wasm_assembly_reset (c : Client) : Client :=
  c <| WASM_CHUNKS_TOTAL := 0 |> <| WASM_CHUNKS_RECEIVED := 0 |> <| WASM_ASSEMBLY := [] |>.

(** ** Theorems *)

Section client_thm.
Context `{PostcardLaws McpRequest} `{PostcardLaws McpResponse}.

(** The chunks of a binary, delivered one after the other in frames of the
    session; what each poll returns. *)
Fixpoint deliver (frames : list (list Z)) (c : Client) : Client * list (option McpRequest) :=
  match frames with
  | [] => (c, [])
  | f :: frames =>
      let (c, r) := poll (Some (Z.of_nat (length f))) f c in
      let (c, rs) := deliver frames c in (c, r :: rs)
  end.

(** [f] is the frame of a chunk. *)
Definition chunk_frame (sid total i : Z) (data f : list Z) : Prop :=
  exists seq, f <> [] /\ Z.of_nat (length f) <= 8192 /\ decode f = Some (mkHeader sid seq, WasmChunk total i data).

Lemma poll_frame f hdr msg c :
  f <> [] -> Z.of_nat (length f) <= 8192 -> decode f = Some (hdr, msg) ->
  poll (Some (Z.of_nat (length f))) f c = receive hdr msg c.
Proof.
  intros Hne Hl Hd. unfold poll. destruct f as [|b f]; [done|]. rewrite (proj2 (Z.eqb_neq _ _)) by (cbn [length]; lia). cbn [orb].
  unfold POLL_SIZE. rewrite Z.min_id, Z.min_l by lia. by rewrite Nat2Z.id, take_ge, Hd.
Qed.

Lemma send_reply_other msg seq c :
  SESSION_ID (send_reply msg seq c) = SESSION_ID c /\ WASM_CHUNKS_RECEIVED (send_reply msg seq c) = WASM_CHUNKS_RECEIVED c /\
  WASM_CHUNKS_TOTAL (send_reply msg seq c) = WASM_CHUNKS_TOTAL c /\ WASM_ASSEMBLY (send_reply msg seq c) = WASM_ASSEMBLY c.
Proof. unfold send_reply. by destruct (encode _ _ _) as [[buf len]|]. Qed.

Lemma deliver_rest sid total i datas fs c :
  0 < i -> SESSION_ID c = sid -> WASM_CHUNKS_TOTAL c = total -> WASM_CHUNKS_RECEIVED c = i ->
  i + Z.of_nat (length datas) = total -> total < 65536 ->
  Z.of_nat (length (WASM_ASSEMBLY c)) + Z.of_nat (length (concat datas)) <= ASSEMBLY_SIZE ->
  Forall2 (fun '(j, d) f => chunk_frame sid total j d f) (zip (seqZ i (Z.of_nat (length datas))) datas) fs ->
  let '(c', rs) := deliver fs c in
  WASM_ASSEMBLY c' = WASM_ASSEMBLY c ++ concat datas /\ WASM_CHUNKS_TOTAL c' = total /\ WASM_CHUNKS_RECEIVED c' = total /\
  length rs = length datas /\ forall j, (j < length datas)%nat ->
    rs !! j = Some (if (S j =? length datas)%nat then WasmChunk total (i + Z.of_nat j) <$> datas !! j else None).
Proof.
  revert i fs c. induction datas as [|d datas IH]; intros i fs c Hi Hsid Htot Hrec Hn Hmax Hlen HF.
  - inversion HF; subst. cbn. rewrite app_nil_r. cbn in Hn. split; [done|]. split; [done|]. split; [lia|]. split; [done|lia].
  - cbn [length] in *. rewrite seqZ_cons in HF by lia. cbn [zip zip_with] in HF.
    apply Forall2_cons_inv_l in HF as (f & fs' & (seq & Hne & Hl & Hd) & HF & ->). cbn [deliver].
    rewrite (poll_frame _ _ _ _ Hne Hl Hd). unfold receive. cbn [session_id seq_id]. rewrite Hsid, Z.eqb_refl. cbn [negb].
    rewrite andb_false_r. destruct (send_reply_other Ack seq c) as (S1 & S2 & S3 & S4). fold (send_ack seq c) in S1, S2, S3, S4.
    set (c1 := send_ack seq c) in *. unfold take_chunk. rewrite (proj2 (Z.eqb_neq i 0)) by lia. cbv zeta.
    rewrite S4. cbn [concat] in Hlen. rewrite length_app in Hlen. unfold ASSEMBLY_SIZE in *. rewrite Z.min_l by lia. rewrite Nat2Z.id, firstn_all.
    rewrite S2, Hrec. rewrite (wrap_small 16) by (unfold in_width; lia).
    set (c2 := c1 <| WASM_ASSEMBLY := WASM_ASSEMBLY c ++ d |> <| WASM_CHUNKS_RECEIVED := i + 1 |>).
    assert (Hc2 : SESSION_ID c2 = sid /\ WASM_CHUNKS_TOTAL c2 = total /\ WASM_CHUNKS_RECEIVED c2 = i + 1 /\ WASM_ASSEMBLY c2 = WASM_ASSEMBLY c ++ d).
    { unfold c2. cbn. by rewrite S1, S3, Hsid, Htot. }
    destruct Hc2 as (C1 & C2 & C3 & C4). rewrite C2, C3.
    specialize (IH (i + 1) fs' c2 ltac:(lia) C1 C2 C3 ltac:(lia) Hmax). rewrite C4, length_app in IH. specialize (IH ltac:(lia)).
    replace (Z.pred (Z.of_nat (S (length datas)))) with (Z.of_nat (length datas)) in HF by lia.
    rewrite <- Z.add_1_r in HF. specialize (IH HF). destruct (deliver fs' c2) as [c3 rs].
    destruct IH as (I1 & I2 & I3 & I4 & I5). cbn [concat]. rewrite I1, app_assoc. split; [done|]. split; [done|]. split; [done|].
    split; [cbn; by rewrite I4|]. intros [|j] Hj; cbn [lookup list_lookup].
    + rewrite Z.add_0_r. destruct datas as [|d2 datas]; cbn [length] in *.
      * by rewrite (proj2 (Z.leb_le _ _)) by lia.
      * by rewrite (proj2 (Z.leb_gt _ _)) by lia.
    + rewrite I5 by lia. replace (i + 1 + Z.of_nat j) with (i + Z.of_nat (S j)) by lia. done.
Qed.

(** C30: A binary of at most 64 KiB, sent in at most 65535 chunks of the session, in
    order, is put together: every poll but the last returns nothing, the last returns its chunk, and the assembly is
    then complete and holds the bytes of the chunks. *)
Theorem wasm_reassembly sid datas fs c :
  SESSION_ID c = sid -> datas <> [] -> Z.of_nat (length datas) < 65536 -> Z.of_nat (length (concat datas)) <= ASSEMBLY_SIZE ->
  let total := Z.of_nat (length datas) in
  Forall2 (fun '(j, d) f => chunk_frame sid total j d f) (zip (seqZ 0 total) datas) fs ->
  let '(c', rs) := deliver fs c in
  wasm_assembly_data c' = concat datas /\ wasm_assembly_complete c' = true /\ length rs = length datas /\
  forall j, (j < length datas)%nat ->
    rs !! j = Some (if (S j =? length datas)%nat then WasmChunk total (Z.of_nat j) <$> datas !! j else None).
Proof.
  intros Hsid Hne Hmax Hlen total HF. destruct datas as [|d datas]; [done|]. subst total. cbn [length] in *.
  rewrite seqZ_cons in HF by lia. cbn [zip zip_with] in HF. apply Forall2_cons_inv_l in HF as (f & fs' & (seq & Hnf & Hl & Hd) & HF & ->).
  cbn [deliver]. rewrite (poll_frame _ _ _ _ Hnf Hl Hd). unfold receive. cbn [session_id seq_id]. rewrite Hsid, Z.eqb_refl. cbn [negb].
  rewrite andb_false_r. destruct (send_reply_other Ack seq c) as (S1 & _ & _ & _). fold (send_ack seq c) in S1. unfold take_chunk.
  rewrite Z.eqb_refl. set (c1 := (send_ack seq c) <| WASM_CHUNKS_TOTAL := Z.of_nat (S (length datas)) |> <| WASM_CHUNKS_RECEIVED := 0 |> <| WASM_ASSEMBLY := [] |>).
  cbv zeta. change (WASM_ASSEMBLY c1) with (@nil Z). change (WASM_CHUNKS_RECEIVED c1) with 0. cbn [length concat app] in *. rewrite length_app in Hlen.
  unfold ASSEMBLY_SIZE in *. rewrite Z.min_l by lia. rewrite Nat2Z.id, firstn_all. change (u16 (0 + 1)) with 1.
  set (c2 := c1 <| WASM_ASSEMBLY := d |> <| WASM_CHUNKS_RECEIVED := 1 |>).
  change (WASM_CHUNKS_TOTAL c2) with (Z.of_nat (S (length datas))). change (WASM_CHUNKS_RECEIVED c2) with 1.
  replace (Z.pred (Z.of_nat (S (length datas)))) with (Z.of_nat (length datas)) in HF by lia. change (Z.succ 0) with 1 in HF.
  pose proof (deliver_rest sid (Z.of_nat (S (length datas))) 1 datas fs' c2 ltac:(lia) ltac:(unfold c2, c1; cbn; by rewrite S1, Hsid)
    eq_refl eq_refl ltac:(lia) ltac:(lia)) as IH. change (WASM_ASSEMBLY c2) with d in IH. unfold ASSEMBLY_SIZE in IH.
  specialize (IH ltac:(lia) HF). destruct (deliver fs' c2) as [c3 rs]. destruct IH as (I1 & I2 & I3 & I4 & I5).
  split; [done|]. split; [unfold wasm_assembly_complete; rewrite I2, I3; apply andb_true_intro; split; [apply Z.ltb_lt; lia|apply Z.leb_refl]|]. split; [cbn; by rewrite I4|].
  intros [|j] Hj; cbn [lookup list_lookup].
  - destruct datas as [|d2 datas]; cbn [length] in *; [done|]. by rewrite (proj2 (Z.leb_gt _ _)) by lia.
  - rewrite I5 by lia. by replace (1 + Z.of_nat j) with (Z.of_nat (S j)) by lia.
Qed.

(** A frame of another session reaches nobody: it is answered by a refusal at most
    and the assembly is as it was. *)
Theorem foreign_session_ignored f hdr (msg : McpRequest) c :
  f <> [] -> Z.of_nat (length f) <= 8192 -> decode f = Some (hdr, msg) ->
  SESSION_ID c <> 0 -> session_id hdr <> 0 -> session_id hdr <> SESSION_ID c ->
  poll (Some (Z.of_nat (length f))) f c = (send_nack (seq_id hdr) SESSION_MISMATCH c, None) /\
  WASM_ASSEMBLY (send_nack (seq_id hdr) SESSION_MISMATCH c) = WASM_ASSEMBLY c /\
  WASM_CHUNKS_RECEIVED (send_nack (seq_id hdr) SESSION_MISMATCH c) = WASM_CHUNKS_RECEIVED c.
Proof.
  intros Hne Hl Hd Hs1 Hs2 Hs3. destruct (send_reply_other (Nack SESSION_MISMATCH) (seq_id hdr) c) as (_ & S2 & _ & S4).
  split; [|done]. rewrite (poll_frame _ _ _ _ Hne Hl Hd). unfold receive.
  by rewrite !(proj2 (Z.eqb_neq _ _)) by done.
Qed.

(** A frame whose session is 0 is taken in any session. *)
Theorem session_zero_accepted seq kind c :
  (receive (mkHeader 0 seq) (Notification kind) c).2 = Some (Notification kind).
Proof. unfold receive. cbn [session_id]. rewrite Z.eqb_refl. cbn [negb]. by rewrite andb_false_r. Qed.
End client_thm.

(** A chunk sent again after its acknowledgment was lost is appended again, and
    the binary is taken for complete with its last chunk missing. *)
Theorem repeated_chunk_corrupts :
  let c := (take_chunk 3 1 [2] (take_chunk 3 1 [2] (take_chunk 3 0 [1] initial).1).1).1 in
  wasm_assembly_complete c = true /\ wasm_assembly_data c = [1; 2; 2].
Proof. done. Qed.

(** ** A serializer for chunks and answers *)

Definition byte_ok (b : Z) : bool := (0 <=? b) && (b <? 256).
Definition word_ok (w : Z) : bool := (0 <=? w) && (w <? 65536).

#[export] Instance chunk_postcard : Postcard McpRequest := {
  to_slice msg size :=
    match msg with
    | WasmChunk t i d =>
        if word_ok t && word_ok i && forallb byte_ok d && (length d + 5 <=? size)%nat then Some (5 :: le_bytes 2 t ++ le_bytes 2 i ++ d) else None
    | _ => None
    end;
  from_bytes l :=
    match l with 5 :: a :: b :: c :: e :: d => Some (WasmChunk (from_le_bytes [a; b]) (from_le_bytes [c; e]) d) | _ => None end;
}.

#[export] Instance chunk_postcard_laws : PostcardLaws McpRequest.
Proof.
  split. intros m k p. destruct m as [| | | | |t i d| | | |]; try done. cbn [to_slice chunk_postcard].
  destruct (word_ok t && word_ok i && forallb byte_ok d && (length d + 5 <=? k)%nat) eqn:Hok; [|done]. intros Hp. apply (inj Some) in Hp as <-.
  rewrite !andb_true_iff, Nat.leb_le in Hok. unfold word_ok in Hok. rewrite !andb_true_iff, !Z.leb_le, !Z.ltb_lt in Hok.
  destruct Hok as [[[Ht Hi] Hd] Hlen]. split; [|split].
  - change (from_bytes (5 :: le_bytes 2 t ++ le_bytes 2 i ++ d)) with (Some (WasmChunk (from_le_bytes (le_bytes 2 t)) (from_le_bytes (le_bytes 2 i)) d)).
    rewrite !from_to_le_bytes, !Z.mod_small by lia. done.
  - constructor; [unfold byte; lia|]. rewrite !Forall_app. split; [apply le_bytes_byte|]. split; [apply le_bytes_byte|].
    apply Forall_forall. intros b Hb. rewrite forallb_forall in Hd. apply list_elem_of_In, Hd in Hb. unfold byte_ok in Hb.
    rewrite andb_true_iff, Z.leb_le, Z.ltb_lt in Hb. exact Hb.
  - cbn [length]. rewrite !length_app, !le_bytes_length. lia.
Qed.

#[export] Instance answer_postcard : Postcard McpResponse := {
  to_slice msg size :=
    match msg with
    | Ack => if (0 <? size)%nat then Some [8] else None
    | Nack r => if byte_ok r && (1 <? size)%nat then Some [9; r] else None
    | _ => None
    end;
  from_bytes l := match l with [8] => Some Ack | [9; r] => Some (Nack r) | _ => None end;
}.

#[export] Instance answer_postcard_laws : PostcardLaws McpResponse.
Proof.
  split. intros m k p. destruct m; try done; cbn [to_slice answer_postcard].
  - destruct (Nat.ltb_spec 0 k); [|done]. intros [= <-]. split; [done|]. split; [repeat constructor; unfold byte; lia|cbn; lia].
  - destruct (byte_ok reason && (1 <? k)%nat) eqn:Hok; [|done]. unfold byte_ok in Hok. rewrite !andb_true_iff, Z.leb_le, Z.ltb_lt, Nat.ltb_lt in Hok.
    intros Hp. apply (inj Some) in Hp as <-. split; [done|]. split; [|cbn; lia].
    rewrite !Forall_cons. unfold byte. split; [lia|]. split; [lia|apply Forall_nil; exact I].
Qed.

(** The frame of a message, without its sentinel. *)
Definition frame_bytes (h : FrameHeader) (msg : McpRequest) : list Z :=
  match encode h msg (replicate 256 0) with Some (buf, n) => take (n - 1) buf | None => [] end.

Lemma wasm_reassembly_witness :
  let c := initial <| SESSION_ID := 77 |> in
  let '(c', rs) := deliver [frame_bytes (mkHeader 77 1) (WasmChunk 2 0 [0; 97]); frame_bytes (mkHeader 77 2) (WasmChunk 2 1 [115; 109])] c in
  wasm_assembly_data c' = [0; 97; 115; 109] /\ wasm_assembly_complete c' = true /\ length rs = 2%nat.
Proof.
  intros c.
  assert (F1 : chunk_frame 77 2 0 [0; 97] (frame_bytes (mkHeader 77 1) (WasmChunk 2 0 [0; 97]))).
  { exists 1. split; [vm_compute; congruence|]. split; [vm_compute; congruence|vm_compute; reflexivity]. }
  assert (F2 : chunk_frame 77 2 1 [115; 109] (frame_bytes (mkHeader 77 2) (WasmChunk 2 1 [115; 109]))).
  { exists 2. split; [vm_compute; congruence|]. split; [vm_compute; congruence|vm_compute; reflexivity]. }
  revert F1 F2. generalize (frame_bytes (mkHeader 77 1) (WasmChunk 2 0 [0; 97])) (frame_bytes (mkHeader 77 2) (WasmChunk 2 1 [115; 109])).
  intros f1 f2 F1 F2.
  pose proof (wasm_reassembly 77 [[0; 97]; [115; 109]] [f1; f2] c eq_refl ltac:(done) ltac:(cbn; lia) ltac:(vm_compute; congruence)
    (List.Forall2_cons (0, [0; 97]) f1 F1 (List.Forall2_cons (1, [115; 109]) f2 F2 (List.Forall2_nil _)))) as Hw.
  destruct (deliver [f1; f2] c) as [c' rs]. destruct Hw as (H1 & H2 & H3 & _). exact (conj H1 (conj H2 H3)).
Defined.

Lemma foreign_session_ignored_witness :
  (poll (Some (Z.of_nat (length (frame_bytes (mkHeader 5 1) (WasmChunk 1 0 [1]))))) (frame_bytes (mkHeader 5 1) (WasmChunk 1 0 [1])) (initial <| SESSION_ID := 77 |>)).2 = None.
Proof.
  destruct (foreign_session_ignored (frame_bytes (mkHeader 5 1) (WasmChunk 1 0 [1])) (mkHeader 5 1) (WasmChunk 1 0 [1]) (initial <| SESSION_ID := 77 |>)
    ltac:(vm_compute; congruence) ltac:(vm_compute; congruence) ltac:(vm_compute; reflexivity) ltac:(done) ltac:(done) ltac:(done)) as [E _].
  rewrite E. reflexivity.
Defined.

(** A description whose 255th byte is inside a character stops the caller. *)
Theorem wasm_gen_description_panics :
  (send_wasm_gen (replicate 254 97 ++ [0xC3; 0xA9]) initial).2 = Panic.
Proof. reflexivity. Qed.

End Mcp.
