(* ===== verification/Ring.v ===== *)
(** The byte ring between a producer and a consumer
    (src/userspace/libfolk/src/gfx/ring.rs).

    First the operations as functions of the ring, then the two sides running
    at the same time: a copy is one step per byte, and the counters are what
    the other side reads.  A counter is stored after the copy it covers (the
    source's Release and Acquire), so steps interleave as they are written. *)

From S2P Require Import Prelude.

#[local] Open Scope kernel_scope.

Module Ring.

Definition RING_CAPACITY_BYTES : Z := 64 * 1024.

Inductive PushError : Type := Full | TooLarge.

Record IpcGraphicsRing : Type := mkRing { head : Z; tail : Z; buffer : list Z }.

(** [copy_nonoverlapping] of [src] to [off]. *)
Definition copy_to (off : Z) (src buf : list Z) : list Z :=
  take (Z.to_nat off) buf ++ src ++ drop (Z.to_nat off + length src) buf.

Definition len (l : list Z) : Z := Z.of_nat (length l).

Section ring.
(** The capacity, a parameter of the type. *)
Context (N : Z).

Definition new : IpcGraphicsRing := mkRing 0 0 (replicate (Z.to_nat N) 0).

Definition occupied (r : IpcGraphicsRing) : Z := u64 (head r - tail r).

Definition capacity_remaining (r : IpcGraphicsRing) : Z := u64 (N - occupied r).

Definition push (data : list Z) (r : IpcGraphicsRing) : IpcGraphicsRing * outcome PushError unit :=
  if N <? len data then (r, Err TooLarge) else
  if N <? u64 (occupied r + len data) then (r, Err Full) else
  let write_off := head r mod N in
  let first := Z.min (len data) (N - write_off) in
  let buf := copy_to write_off (take (Z.to_nat first) data) (buffer r) in
  let buf := if first <? len data then copy_to 0 (drop (Z.to_nat first) data) buf else buf in
  (mkRing (u64 (head r + len data)) (tail r) buf, Ok tt).

(** [n] bytes from [tail] on.  More than the buffer holds is a read past its end. *)
Definition read_at (n : Z) (r : IpcGraphicsRing) : outcome Empty_set (list Z) :=
  if N <? n then Panic else
  let read_off := tail r mod N in
  let first := Z.min n (N - read_off) in
  Ok (take (Z.to_nat first) (drop (Z.to_nat read_off) (buffer r)) ++
      (if first <? n then take (Z.to_nat (n - first)) (buffer r) else [])).

(** What is in [out] afterwards, and the number of bytes copied. *)
Definition peek (out : list Z) (r : IpcGraphicsRing) : outcome Empty_set (list Z * Z) :=
  let n := Z.min (occupied r) (len out) in
  if n =? 0 then Ok (out, 0) else
  let? bytes := read_at n r in Ok (bytes ++ drop (Z.to_nat n) out, n).

Definition drop_n (n : Z) (r : IpcGraphicsRing) : IpcGraphicsRing := mkRing (head r) (u64 (tail r + n)) (buffer r).

Definition pop_into (out : list Z) (r : IpcGraphicsRing) : IpcGraphicsRing * outcome Empty_set (list Z * Z) :=
  let n := Z.min (occupied r) (len out) in
  if n =? 0 then (r, Ok (out, 0)) else
  match read_at n r with
  | Ok bytes => (drop_n n r, Ok (bytes ++ drop (Z.to_nat n) out, n))
  | Err e => match e with end
  | Panic => (r, Panic)
  end.

(** ** Both sides at once *)

(** Where byte [i] of a copy goes that starts at counter [c]: the first part up
    to the end of the buffer, the rest from its start. *)
Definition cell (c i : Z) : nat :=
  let off := c mod N in
  Z.to_nat (if i <? N - off then off + i else i - (N - off)).

Inductive producer : Type :=
| PIdle
| PCopy (data : list Z) (head : Z) (i : nat).

(** [commit]: a [pop_into]; otherwise a [peek], whose bytes may be dropped. *)
Inductive consumer : Type :=
| CIdle
| CCopy (commit : bool) (tail n : Z) (out : list Z)
| CPeeked (out : list Z).

(** [pushed] is what was pushed since the ring was made, [popped] what was taken. *)
Record World : Type := mkWorld { ring : IpcGraphicsRing; prod : producer; cons : consumer; pushed : list Z; popped : list Z }.

Definition initial : World := mkWorld new PIdle CIdle [] [].

Inductive step : World -> World -> Prop :=
| SPush r c ps qs data : len data <= N -> u64 (occupied r + len data) <= N ->
    step (mkWorld r PIdle c ps qs) (mkWorld r (PCopy data (head r) 0) c ps qs)
| SPushByte r c ps qs data h i b : data !! i = Some b ->
    step (mkWorld r (PCopy data h i) c ps qs)
         (mkWorld (mkRing (head r) (tail r) (<[cell h (Z.of_nat i) := b]> (buffer r))) (PCopy data h (S i)) c ps qs)
| SPushDone r c ps qs data h :
    step (mkWorld r (PCopy data h (length data)) c ps qs)
         (mkWorld (mkRing (u64 (h + len data)) (tail r) (buffer r)) PIdle c (ps ++ data) qs)
| SRead r p ps qs commit size n : n = Z.min (occupied r) size -> n <> 0 -> 0 <= size ->
    step (mkWorld r p CIdle ps qs) (mkWorld r p (CCopy commit (tail r) n []) ps qs)
| SReadByte r p ps qs commit t n out b : len out < n -> buffer r !! cell t (len out) = Some b ->
    step (mkWorld r p (CCopy commit t n out) ps qs) (mkWorld r p (CCopy commit t n (out ++ [b])) ps qs)
| SPopDone r p ps qs t n out : len out = n ->
    step (mkWorld r p (CCopy true t n out) ps qs)
         (mkWorld (mkRing (head r) (u64 (t + n)) (buffer r)) p CIdle ps (qs ++ out))
| SPeekDone r p ps qs t n out : len out = n ->
    step (mkWorld r p (CCopy false t n out) ps qs) (mkWorld r p (CPeeked out) ps qs)
| SDrop r p ps qs out k : 0 <= k <= len out ->
    step (mkWorld r p (CPeeked out) ps qs) (mkWorld (drop_n k r) p CIdle ps (qs ++ take (Z.to_nat k) out)).

(** ** Theorems *)

Lemma cell_mod (Hp : 0 < N) (Hd : (N | 2 ^ 64)) c i :
  0 <= i < N -> cell (u64 c) i = Z.to_nat ((c + i) mod N).
Proof.
  intros Hi. unfold cell. f_equal. unfold wrap. rewrite Z.mod_mod_divide by done.
  pose proof (Z.mod_pos_bound c N Hp) as Hc. rewrite Zplus_mod, (Z.mod_small i) by lia.
  destruct (Z.ltb_spec i (N - c mod N)); [by rewrite (Z.mod_small (_ + _)) by lia|].
  replace (c mod N + i) with (i - (N - c mod N) + 1 * N) by lia. rewrite Z_mod_plus_full, (Z.mod_small (_ - _)) by lia. done.
Qed.

(** Places less than a buffer apart are different cells. *)
Lemma cells_differ (Hp : 0 < N) a b : 0 < a - b < N -> Z.to_nat (a mod N) <> Z.to_nat (b mod N).
Proof.
  intros Hab E. apply Z2Nat.inj in E; [|by apply Z.mod_pos_bound..].
  rewrite !Z.mod_eq in E by lia. assert (Hq : a - b = N * (a / N - b / N)) by (rewrite Z.mul_sub_distr_l; lia). generalize dependent (a / N - b / N). intros q Hq. destruct (Z.le_gt_cases q 0); nia.
Qed.

(** [buf] holds the bytes of [l] from counter [c] on. *)
Definition holds (buf : list Z) (c : Z) (l : list Z) : Prop :=
  forall i b, l !! i = Some b -> buf !! Z.to_nat ((c + Z.of_nat i) mod N) = Some b.

Definition prod_ok (W : World) : Prop :=
  match prod W with
  | PIdle => True
  | PCopy data h i =>
      h = u64 (len (pushed W)) /\ (i <= length data)%nat /\ len (pushed W) + len data <= len (popped W) + N /\
      holds (buffer (ring W)) (len (pushed W)) (take i data)
  end.

(** [out] is what comes next in the stream. *)
Definition upcoming (W : World) (out : list Z) : Prop := popped W ++ out `prefix_of` pushed W.

Definition cons_ok (W : World) : Prop :=
  match cons W with
  | CIdle => True
  | CCopy _ t n out => t = u64 (len (popped W)) /\ len (popped W) + n <= len (pushed W) /\ len out <= n /\ upcoming W out
  | CPeeked out => upcoming W out
  end.

Record ring_ok (W : World) : Prop := mkOk {
  ok_head : head (ring W) = u64 (len (pushed W));
  ok_tail : tail (ring W) = u64 (len (popped W));
  ok_size : len (buffer (ring W)) = N;
  ok_room : len (pushed W) <= len (popped W) + N;
  ok_prefix : upcoming W [];
  ok_bytes : forall k, len (popped W) <= Z.of_nat k < len (pushed W) ->
    buffer (ring W) !! Z.to_nat (Z.of_nat k mod N) = pushed W !! k;
  ok_prod : prod_ok W;
  ok_cons : cons_ok W;
}.

Lemma upcoming_take W out k : upcoming W out -> popped W ++ take k out `prefix_of` pushed W.
Proof. intros H. etrans; [|exact H]. apply prefix_app. exists (drop k out). by rewrite take_drop. Qed.

Lemma prefix_snoc (l p : list Z) b : l `prefix_of` p -> p !! length l = Some b -> l ++ [b] `prefix_of` p.
Proof.
  intros [r ->] Hb. rewrite lookup_app_r, Nat.sub_diag in Hb by lia. destruct r as [|c r]; [done|]. injection Hb as ->.
  exists r. by rewrite <- app_assoc.
Qed.

Lemma upcoming_len W out : upcoming W out -> len (popped W) + len out <= len (pushed W).
Proof. intros H%prefix_length. rewrite length_app in H. unfold len. lia. Qed.

Lemma occupied_ok W : N < 2 ^ 63 -> ring_ok W -> occupied (ring W) = len (pushed W) - len (popped W).
Proof.
  intros HN [Hh Ht _ Hr Hp _ _ _]. apply upcoming_len in Hp. unfold occupied. rewrite Hh, Ht. unfold wrap.
  rewrite Zminus_mod_idemp_l, Zminus_mod_idemp_r. change (len []) with 0 in Hp. apply Z.mod_small. lia.
Qed.

Lemma initial_ok : 0 < N -> ring_ok initial.
Proof.
  intros HN. constructor; try done.
  - unfold len. cbn. rewrite length_replicate. lia.
  - cbn. lia.
  - by exists [].
  - intros k Hk. cbn in Hk. lia.
Qed.

Section steps.
Context (Hpos : 0 < N) (Hdiv : (N | 2 ^ 64)) (Hlt : N < 2 ^ 63).

Lemma cell_in buf c : len buf = N -> (Z.to_nat (c mod N) < length buf)%nat.
Proof. unfold len. intros Hl. pose proof (Z.mod_pos_bound c N Hpos). lia. Qed.

(** A byte written ahead of the stream leaves what is before it. *)
Lemma holds_insert buf c l b :
  len buf = N -> len l < N -> holds buf c l -> holds (<[Z.to_nat ((c + len l) mod N) := b]> buf) c (l ++ [b]).
Proof.
  intros Hb Hl H i x Hi. destruct (decide (i = length l)) as [->|Hne].
  - rewrite lookup_app_r, Nat.sub_diag in Hi by lia. injection Hi as <-. apply list_lookup_insert_eq. by apply cell_in.
  - assert (i < length l)%nat by (apply lookup_lt_Some in Hi; rewrite length_app in Hi; cbn in Hi; lia).
    rewrite lookup_app_l in Hi by lia. rewrite list_lookup_insert_ne; [by apply H|]. apply cells_differ; [done|]. unfold len in *. lia.
Qed.

Lemma push_step_ok W W' : step W W' -> ring_ok W -> cons W = cons W' -> ring_ok W'.
Proof.
  intros Hst Hok Hc. pose proof (occupied_ok W Hlt Hok) as Hocc. destruct Hok as [Hh Ht Hs Hr Hp Hb Hpr Hco].
  pose proof (upcoming_len _ _ Hp) as HTH. change (len []) with 0 in HTH.
  destruct Hst as [r c ps qs data Hld Hroom|r c ps qs data h i b Hi|r c ps qs data h| | | | |]; cbn in Hc; try done;
    cbn [ring prod cons pushed popped] in *.
  - rewrite Hocc, wrap_small in Hroom by (unfold in_width, len in *; lia). constructor; try done. cbn. rewrite Hh.
    split; [done|]. split; [lia|]. split; [lia|]. by intros [|].
  - destruct Hpr as (-> & Hil & Hcap & Hold). cbn [ring prod cons pushed popped] in *. apply lookup_lt_Some in Hi as Hlt'.
    assert (Hi' : 0 <= Z.of_nat i < N) by (unfold len in *; lia). rewrite cell_mod by done.
    constructor; try done; cbn [ring prod cons pushed popped head tail buffer].
    + unfold len in *. by rewrite length_insert.
    + intros k Hk. rewrite list_lookup_insert_ne; [by apply Hb|]. apply cells_differ; [done|]. unfold len in *. lia.
    + split; [done|]. split; [lia|]. split; [done|]. cbn [ring buffer]. rewrite (take_S_r _ _ _ Hi).
      replace (Z.of_nat i) with (len (take i data)) by (unfold len; rewrite length_take; lia).
      apply holds_insert; [done|unfold len; rewrite length_take; lia|done].
  - destruct Hpr as (-> & _ & Hcap & Hnew). cbn [ring prod cons pushed popped] in *. rewrite firstn_all in Hnew.
    assert (Hl : len (ps ++ data) = len ps + len data) by (unfold len; rewrite length_app; lia).
    assert (Hup : forall out, upcoming (mkWorld r (PCopy data (u64 (len ps)) (length data)) c ps qs) out ->
        upcoming (mkWorld (mkRing (u64 (u64 (len ps) + len data)) (tail r) (buffer r)) PIdle c (ps ++ data) qs) out).
    { intros out Ho. unfold upcoming in *. cbn [popped pushed] in *. by apply prefix_app_r. }
    constructor; try done; cbn [ring prod cons pushed popped head tail buffer].
    + rewrite Hl. apply Zplus_mod_idemp_l.
    + rewrite Hl. lia.
    + by apply Hup.
    + intros k Hk. rewrite Hl in Hk. destruct (Z.lt_ge_cases (Z.of_nat k) (len ps)) as [Hlo|Hhi].
      * rewrite lookup_app_l by (unfold len in Hlo; lia). apply Hb; lia.
      * unfold len in *. rewrite lookup_app_r by lia. destruct (lookup_lt_is_Some_2 data (k - length ps)) as [x Hx]; [lia|].
        rewrite Hx. specialize (Hnew _ _ Hx). by replace (Z.of_nat k) with (Z.of_nat (length ps) + Z.of_nat (k - length ps)) by lia.
    + unfold cons_ok in *. cbn [cons pushed popped] in *. destruct c as [|cm t n out|out]; [done| |by apply Hup].
      destruct Hco as (? & ? & ? & ?). rewrite Hl. split; [done|]. split; [unfold len in *; lia|]. split; [done|by apply Hup].
  - injection Hc as Hc. apply (f_equal length) in Hc. rewrite length_app in Hc. cbn in Hc. lia.
Qed.

Lemma read_step_ok W W' : step W W' -> ring_ok W -> prod W = prod W' -> ring_ok W'.
Proof.
  intros Hst Hok Hc. pose proof (occupied_ok W Hlt Hok) as Hocc. destruct Hok as [Hh Ht Hs Hr Hp Hb Hpr Hco].
  pose proof (upcoming_len _ _ Hp) as HTH. change (len []) with 0 in HTH.
  (* The counter moves over bytes that were upcoming. *)
  assert (Hmove : forall p out, prod W = p -> upcoming W out ->
    ring_ok (mkWorld (mkRing (head (ring W)) (u64 (tail (ring W) + len out)) (buffer (ring W))) p CIdle (pushed W) (popped W ++ out))).
  { intros p out <- Ho. assert (Hl : len (popped W ++ out) = len (popped W) + len out) by (unfold len; rewrite length_app; lia).
    pose proof (upcoming_len _ _ Ho) as Hle.
    constructor; cbn [ring prod cons pushed popped head tail buffer]; try done.
    - rewrite Ht, Hl. apply Zplus_mod_idemp_l.
    - rewrite Hl. unfold len in *. lia.
    - unfold upcoming. cbn [popped pushed]. by rewrite app_nil_r.
    - intros k Hk. apply Hb. rewrite Hl in Hk. unfold len in *. lia.
    - unfold prod_ok in *. cbn [ring prod pushed popped buffer]. destruct (prod W) as [|data h i]; [done|].
      destruct Hpr as (? & ? & ? & ?). rewrite Hl. split; [done|]. split; [done|]. split; [unfold len in *; lia|done]. }
  destruct Hst as [| | |r p ps qs commit size n -> Hn Hsz|r p ps qs commit t n out b Hlo Hcell|r p ps qs t n out <-|r p ps qs t n out <-|r p ps qs out k Hk];
    cbn in Hc; try done; unfold cons_ok in Hco; cbn [ring prod cons pushed popped] in *.
  - injection Hc as Hc. lia.
  - constructor; try done. cbn. rewrite Ht. split; [done|]. split; [lia|]. split; [unfold len; cbn; lia|done].
  - destruct Hco as (-> & Hle & Hlo' & Hup). cbn [pushed popped] in *. rewrite cell_mod in Hcell by (done || unfold len in *; lia).
    constructor; try done. cbn. split; [done|]. split; [done|]. split; [unfold len in *; rewrite length_app; cbn; lia|].
    unfold upcoming in *. cbn [popped pushed] in *. rewrite app_assoc. apply prefix_snoc; [done|]. rewrite <- Hcell, <- Hb.
    + by replace (Z.of_nat (length (qs ++ out))) with (len qs + len out) by (unfold len; rewrite length_app; lia).
    + unfold len in *. rewrite length_app. lia.
  - destruct Hco as (-> & Hle & _ & Hup). cbn [pushed popped] in *. rewrite <- Ht. by apply Hmove.
  - destruct Hco as (_ & _ & _ & Hup). by constructor.
  - unfold drop_n. replace k with (len (take (Z.to_nat k) out)) at 1 by (unfold len in *; rewrite length_take; lia).
    apply Hmove; [done|]. by apply (upcoming_take _ out).
Qed.

Lemma ring_reachable_ok W : rtc step initial W -> ring_ok W.
Proof.
  intros H. revert W H. apply rtc_ind_r; [by apply initial_ok|]. intros W1 W2 _ Hst Hok.
  assert (cons W1 = cons W2 \/ prod W1 = prod W2) as [|] by (destruct Hst; auto); [by eapply push_step_ok|by eapply read_step_ok].
Qed.

(** ** The operations are runs of the steps *)

Lemma copy_to_cons off b src buf :
  0 <= off -> off + 1 + len src <= len buf -> copy_to off (b :: src) buf = copy_to (off + 1) src (<[Z.to_nat off := b]> buf).
Proof.
  unfold copy_to, len. intros Ho Hl. replace (Z.to_nat (off + 1)) with (S (Z.to_nat off)) by lia.
  rewrite (take_S_r _ _ b) by (apply list_lookup_insert_eq; lia). rewrite take_insert_ge, drop_insert_lt by lia.
  rewrite <- app_assoc. cbn [app length]. by replace (Z.to_nat off + S (length src))%nat with (S (Z.to_nat off) + length src)%nat by lia.
Qed.

Lemma copy_to_len off src buf : 0 <= off -> off + len src <= len buf -> len (copy_to off src buf) = len buf.
Proof. unfold copy_to, len. intros. rewrite !length_app, length_take, length_drop. lia. Qed.

(** The bytes of [l] in the cells from [i] on, one after the other. *)
Fixpoint write_cells (c i : Z) (l buf : list Z) : list Z :=
  match l with
  | [] => buf
  | b :: l => write_cells c (i + 1) l (<[cell c i := b]> buf)
  end.

Lemma write_cells_app c i l l' buf : write_cells c i (l ++ l') buf = write_cells c (i + len l) l' (write_cells c i l buf).
Proof.
  revert i buf. induction l as [|b l IH]; intros i buf; cbn [app write_cells]; [by rewrite Z.add_0_r|].
  rewrite IH. f_equal. unfold len. cbn [length]. lia.
Qed.

Lemma write_cells_copy c i l buf :
  len buf = N -> 0 <= i -> i + len l <= N - c mod N -> write_cells c i l buf = copy_to (c mod N + i) l buf.
Proof.
  pose proof (Z.mod_pos_bound c N Hpos) as Hc. revert i buf. induction l as [|b l IH]; intros i buf Hb Hi Hl; cbn [write_cells].
  - unfold copy_to. cbn. by rewrite Nat.add_0_r, take_drop.
  - unfold len in *. cbn [length] in Hl. rewrite copy_to_cons by (unfold len; lia). unfold cell.
    rewrite (proj2 (Z.ltb_lt _ _)) by lia. rewrite IH by (rewrite ?length_insert; lia). by rewrite Z.add_assoc.
Qed.

Lemma write_cells_wrapped c i l buf :
  len buf = N -> N - c mod N <= i -> i - (N - c mod N) + len l <= N -> write_cells c i l buf = copy_to (i - (N - c mod N)) l buf.
Proof.
  pose proof (Z.mod_pos_bound c N Hpos) as Hc. revert i buf. induction l as [|b l IH]; intros i buf Hb Hi Hl; cbn [write_cells].
  - unfold copy_to. cbn. by rewrite Nat.add_0_r, take_drop.
  - unfold len in *. cbn [length] in Hl. rewrite copy_to_cons by (unfold len; lia). unfold cell.
    rewrite (proj2 (Z.ltb_ge _ _)) by lia. rewrite IH by (rewrite ?length_insert; lia). f_equal. lia.
Qed.

Lemma write_cells_run ps qs data h hd tl done todo cons buf :
  data = done ++ todo ->
  rtc step (mkWorld (mkRing hd tl buf) (PCopy data h (length done)) cons ps qs)
           (mkWorld (mkRing hd tl (write_cells h (len done) todo buf)) (PCopy data h (length data)) cons ps qs).
Proof.
  intros ->. revert done buf. induction todo as [|b todo IH]; intros done buf; cbn [write_cells].
  { by rewrite app_nil_r. }
  eapply rtc_l.
  - apply (SPushByte _ _ _ _ _ _ _ b). by rewrite lookup_app_r, Nat.sub_diag by lia.
  - specialize (IH (done ++ [b])). rewrite <- app_assoc in IH. cbn [app] in IH. unfold len in *. rewrite length_app in IH. cbn [length] in IH.
    rewrite Nat.add_1_r in IH. cbn [head tail buffer]. replace (Z.of_nat (length done) + 1) with (Z.of_nat (S (length done))) by lia. apply IH.
Qed.

Lemma push_run data r r' c ps qs :
  len (buffer r) = N -> push data r = (r', Ok tt) -> rtc step (mkWorld r PIdle c ps qs) (mkWorld r' PIdle c (ps ++ data) qs).
Proof.
  intros Hs. unfold push. destruct (Z.ltb_spec N (len data)) as [|Hd]; [done|].
  destruct (Z.ltb_spec N (u64 (occupied r + len data))) as [|Hr]; [done|]. intros [= <-].
  pose proof (Z.mod_pos_bound (head r) N Hpos) as Hc. set (first := Z.min (len data) (N - head r mod N)).
  assert (Hf : 0 <= first <= len data) by (unfold first, len in *; lia).
  eapply rtc_l; [by apply SPush|]. destruct r as [hd tl buf]. cbn [head tail buffer] in *.
  eapply rtc_r; [apply (write_cells_run ps qs data hd hd tl [] data c buf); done|].
  assert (E : write_cells hd (len []) data buf =
    (let b := copy_to (hd mod N) (take (Z.to_nat first) data) buf in
     if first <? len data then copy_to 0 (drop (Z.to_nat first) data) b else b)).
  { rewrite <- (take_drop (Z.to_nat first) data) at 1. rewrite write_cells_app. change (len []) with 0.
    assert (Hl1 : len (take (Z.to_nat first) data) = first) by (unfold len in *; rewrite length_take; lia).
    rewrite (write_cells_copy hd 0 (take (Z.to_nat first) data)) by (rewrite ?Hl1; unfold first in *; lia).
    rewrite Z.add_0_r, Z.add_0_l, Hl1. cbv zeta. destruct (Z.ltb_spec first (len data)) as [Hlt'|Hge].
    - assert (Hl2 : len (drop (Z.to_nat first) data) = len data - first) by (unfold len in *; rewrite length_drop; lia).
      rewrite write_cells_wrapped.
      + f_equal. unfold first in *. lia.
      + rewrite copy_to_len; [done|lia|rewrite Hl1; unfold first in *; lia].
      + unfold first in *. lia.
      + rewrite Hl2. unfold first in *. lia.
    - rewrite (drop_ge data) by (unfold len in *; lia). done. }
  rewrite E. apply (SPushDone (mkRing hd tl _)).
Qed.

Lemma read_at_cells n r :
  len (buffer r) = N -> 0 <= n <= N ->
  exists bytes, read_at n r = Ok bytes /\ len bytes = n /\
    forall i b, bytes !! i = Some b -> buffer r !! cell (tail r) (Z.of_nat i) = Some b.
Proof.
  unfold len. intros Hb Hn. pose proof (Z.mod_pos_bound (tail r) N Hpos) as Hc. unfold read_at. rewrite (proj2 (Z.ltb_ge _ _)) by lia.
  set (first := Z.min n (N - tail r mod N)). set (second := if first <? n then take (Z.to_nat (n - first)) (buffer r) else []).
  assert (Hl1 : length (take (Z.to_nat first) (drop (Z.to_nat (tail r mod N)) (buffer r))) = Z.to_nat first)
    by (unfold first; rewrite length_take, length_drop; lia).
  assert (Hl2 : Z.of_nat (length second) = n - first).
  { unfold second, first. destruct (Z.ltb_spec (Z.min n (N - tail r mod N)) n); [rewrite length_take; lia|cbn; lia]. }
  eexists. split; [done|]. split; [rewrite length_app, Hl1; unfold first in *; lia|]. intros i b Hi. unfold cell.
  destruct (decide (i < Z.to_nat first)%nat) as [Hlo|Hhi].
  - rewrite lookup_app_l, lookup_take_lt, lookup_drop in Hi by (rewrite ?Hl1; lia). rewrite <- Hi.
    rewrite (proj2 (Z.ltb_lt _ _)) by (unfold first in *; lia). f_equal. lia.
  - rewrite lookup_app_r, Hl1 in Hi by lia. apply lookup_lt_Some in Hi as Hlt'. unfold second in Hi, Hlt'.
    destruct (Z.ltb_spec first n); [|cbn in Hlt'; lia]. rewrite length_take in Hlt'. rewrite lookup_take_lt in Hi by lia.
    rewrite <- Hi. rewrite (proj2 (Z.ltb_ge _ _)) by (unfold first in *; lia). f_equal. unfold first in *. lia.
Qed.

Lemma read_run r p ps qs commit t n done todo :
  len done + len todo <= n ->
  (forall i b, todo !! i = Some b -> buffer r !! cell t (len done + Z.of_nat i) = Some b) ->
  rtc step (mkWorld r p (CCopy commit t n done) ps qs) (mkWorld r p (CCopy commit t n (done ++ todo)) ps qs).
Proof.
  revert done. unfold len. induction todo as [|b todo IH]; intros done Hn Hc; [by rewrite app_nil_r|]. cbn [length] in Hn. eapply rtc_l.
  - apply (SReadByte _ _ _ _ _ _ _ _ b); [unfold len; lia|]. specialize (Hc 0%nat b eq_refl). by rewrite Z.add_0_r in Hc.
  - replace (done ++ b :: todo) with ((done ++ [b]) ++ todo) by (by rewrite <- app_assoc). apply IH.
    + rewrite length_app. cbn. lia.
    + intros i x Hx. rewrite length_app. cbn [length].
      replace (Z.of_nat (length done + 1) + Z.of_nat i) with (Z.of_nat (length done) + Z.of_nat (S i)) by lia. by apply Hc.
Qed.

(** A [pop_into] or a [peek] up to the store of the counter. *)
Lemma copy_run r p ps qs commit size n :
  len (buffer r) = N -> n = Z.min (occupied r) size -> 0 <= size -> n <> 0 -> 0 <= n <= N ->
  exists bytes, read_at n r = Ok bytes /\ len bytes = n /\
    rtc step (mkWorld r p CIdle ps qs) (mkWorld r p (CCopy commit (tail r) n bytes) ps qs).
Proof.
  intros Hb Hn Hs H0 Hr. destruct (read_at_cells n r Hb Hr) as (bytes & E & Hl & Hc). exists bytes. split; [done|]. split; [done|].
  eapply rtc_l; [by apply (SRead _ _ _ _ commit size n)|]. apply (read_run r p ps qs commit (tail r) n [] bytes); [unfold len in *; cbn; lia|done].
Qed.

Lemma prefix_next (ps qs bytes : list Z) : qs ++ bytes `prefix_of` ps -> bytes = take (length bytes) (drop (length qs) ps).
Proof. intros [r ->]. by rewrite <- app_assoc, drop_app_length, take_app_length. Qed.

Lemma push_idle W :
  rtc step initial W -> prod W = PIdle -> forall data,
  if N <? len data then push data (ring W) = (ring W, Err TooLarge)
  else if N <? len (pushed W) - len (popped W) + len data then push data (ring W) = (ring W, Err Full)
  else exists r', push data (ring W) = (r', Ok tt) /\ rtc step W (mkWorld r' PIdle (cons W) (pushed W ++ data) (popped W)).
Proof.
  intros Hreach Hp data. pose proof (ring_reachable_ok W Hreach) as Hok. pose proof (occupied_ok W Hlt Hok) as Hocc.
  pose proof (upcoming_len _ _ (ok_prefix _ Hok)) as HTH. change (len []) with 0 in HTH. pose proof (ok_room _ Hok) as Hroom.
  pose proof (ok_size _ Hok) as Hs. destruct W as [r p c ps qs]. cbn [ring prod cons pushed popped] in *. subst p.
  destruct (Z.ltb_spec N (len data)) as [Hbig|Hd].
  { unfold push. by rewrite (proj2 (Z.ltb_lt _ _)) by lia. }
  assert (Hw : u64 (occupied r + len data) = len ps - len qs + len data)
    by (rewrite Hocc; apply wrap_small; unfold in_width, len in *; lia).
  destruct (Z.ltb_spec N (len ps - len qs + len data)) as [Hfull|Hfit].
  - unfold push. rewrite (proj2 (Z.ltb_ge _ (len data))) by lia. rewrite Hw. by rewrite (proj2 (Z.ltb_lt _ _)) by lia.
  - assert (exists r', push data r = (r', Ok tt)) as [r' E].
    { unfold push. rewrite (proj2 (Z.ltb_ge _ (len data))) by lia. rewrite Hw. rewrite (proj2 (Z.ltb_ge _ _)) by lia. by eexists. }
    exists r'. split; [done|]. by apply push_run.
Qed.

Lemma read_idle W :
  rtc step initial W -> cons W = CIdle -> forall out,
  let n := Z.min (len (pushed W) - len (popped W)) (len out) in
  let bytes := take (Z.to_nat n) (drop (length (popped W)) (pushed W)) in
  peek out (ring W) = Ok (bytes ++ drop (Z.to_nat n) out, n) /\
  (n <> 0 -> rtc step W (mkWorld (ring W) (prod W) (CPeeked bytes) (pushed W) (popped W))) /\
  exists r', pop_into out (ring W) = (r', Ok (bytes ++ drop (Z.to_nat n) out, n)) /\
    rtc step W (mkWorld r' (prod W) CIdle (pushed W) (popped W ++ bytes)).
Proof.
  intros Hreach Hc out n bytes. pose proof (ring_reachable_ok W Hreach) as Hok. pose proof (occupied_ok W Hlt Hok) as Hocc.
  pose proof (upcoming_len _ _ (ok_prefix _ Hok)) as HTH. change (len []) with 0 in HTH. pose proof (ok_room _ Hok) as Hroom.
  pose proof (ok_size _ Hok) as Hs. destruct W as [r p c ps qs]. cbn [ring prod cons pushed popped] in *. subst c.
  assert (Hn : 0 <= n <= N) by (unfold n, len in *; lia). unfold peek, pop_into. rewrite Hocc. fold n.
  destruct (Z.eqb_spec n 0) as [Hz|Hz].
  { unfold bytes. rewrite Hz. cbn [Z.to_nat take app]. split; [done|]. split; [done|]. exists r. split; [done|]. by rewrite app_nil_r. }
  assert (Hn' : n = Z.min (occupied r) (len out)) by (by rewrite Hocc).
  assert (Hrun : forall commit, read_at n r = Ok bytes /\ len bytes = n /\
    rtc step (mkWorld r p CIdle ps qs) (mkWorld r p (CCopy commit (tail r) n bytes) ps qs)).
  { intros commit. destruct (copy_run r p ps qs commit (len out) n Hs Hn') as (bs & Hrd & Hl & Hrun); [unfold len; lia|done|done|].
    assert (bs = bytes) as ->; [|done]. assert (Hr2 : rtc step initial (mkWorld r p (CCopy commit (tail r) n bs) ps qs)) by (by etrans).
    pose proof (ring_reachable_ok _ Hr2) as [_ _ _ _ _ _ _ (_ & _ & _ & Hup)].
    rewrite (prefix_next _ _ _ Hup). unfold bytes. f_equal. unfold len in *. lia. }
  destruct (Hrun false) as (Hrd & Hl & Hpk). destruct (Hrun true) as (_ & _ & Hpop). rewrite Hrd. cbn [obind]. split; [done|]. split.
  - intros _. eapply rtc_r; [exact Hpk|]. by apply SPeekDone.
  - eexists. split; [done|]. eapply rtc_r; [exact Hpop|]. unfold drop_n. by apply SPopDone.
Qed.

(** C6: Whatever the two sides do at the same time, the bytes taken from the ring,
    with the bytes a peek has shown, are a prefix of the bytes pushed, in order;
    at most a buffer of them is on the way. *)
Theorem spsc_fifo W :
  rtc step initial W ->
  popped W `prefix_of` pushed W /\ len (pushed W) <= len (popped W) + N /\
  (forall out, cons W = CPeeked out -> popped W ++ out `prefix_of` pushed W).
Proof.
  intros [_ _ _ Hr Hp _ _ Hco]%ring_reachable_ok. split; [by unfold upcoming in Hp; rewrite app_nil_r in Hp|]. split; [done|].
  intros out E. unfold cons_ok in Hco. by rewrite E in Hco.
Qed.

(** C39: In every state the two sides reach: a push by the idle producer fails exactly
    when the data does not fit, and otherwise is a run of the producer's steps;
    a pop and a peek by the idle consumer are runs of its steps, give the next
    bytes of the stream, as many as there are and the buffer takes, and leave
    the rest of the buffer alone. *)
Theorem ring_operations W :
  rtc step initial W ->
  let used := len (pushed W) - len (popped W) in
  (prod W = PIdle -> forall data,
     if N <? len data then push data (ring W) = (ring W, Err TooLarge)
     else if N <? used + len data then push data (ring W) = (ring W, Err Full)
     else exists r', push data (ring W) = (r', Ok tt) /\ rtc step W (mkWorld r' PIdle (cons W) (pushed W ++ data) (popped W))) /\
  (cons W = CIdle -> forall out,
     let n := Z.min used (len out) in
     let bytes := take (Z.to_nat n) (drop (length (popped W)) (pushed W)) in
     peek out (ring W) = Ok (bytes ++ drop (Z.to_nat n) out, n) /\
     (n <> 0 -> rtc step W (mkWorld (ring W) (prod W) (CPeeked bytes) (pushed W) (popped W))) /\
     exists r', pop_into out (ring W) = (r', Ok (bytes ++ drop (Z.to_nat n) out, n)) /\
       rtc step W (mkWorld r' (prod W) CIdle (pushed W) (popped W ++ bytes))).
Proof. intros Hreach used. split; [by apply push_idle|by apply read_idle]. Qed.

End steps.
End ring.

(** ** A concrete run *)

Lemma divides_8 : (8 | 2 ^ 64).
Proof. by exists (2 ^ 61). Qed.

(** Three bytes are pushed, two popped. *)
Definition after_pop : World :=
  mkWorld (mkRing 3 2 [1; 2; 3; 0; 0; 0; 0; 0]) PIdle CIdle [1; 2; 3] [1; 2].

Lemma after_pop_reachable : rtc (step 8) (initial 8) after_pop.
Proof.
  eapply rtc_l; [apply (SPush 8 (new 8) CIdle [] [] [1; 2; 3]); vm_compute; congruence|].
  eapply rtc_l; [apply (SPushByte 8 (new 8) CIdle [] [] [1; 2; 3] 0 0 1); reflexivity|].
  eapply rtc_l; [apply (SPushByte 8 _ CIdle [] [] [1; 2; 3] 0 1 2); reflexivity|].
  eapply rtc_l; [apply (SPushByte 8 _ CIdle [] [] [1; 2; 3] 0 2 3); reflexivity|].
  eapply rtc_l; [apply (SPushDone 8 _ CIdle [] [] [1; 2; 3] 0)|].
  eapply rtc_l; [apply (SRead 8 _ PIdle [1; 2; 3] [] true 2 2); [vm_compute; reflexivity|lia|lia]|].
  eapply rtc_l; [apply (SReadByte 8 _ PIdle [1; 2; 3] [] true 0 2 [] 1); [vm_compute; reflexivity|vm_compute; reflexivity]|].
  eapply rtc_l; [apply (SReadByte 8 _ PIdle [1; 2; 3] [] true 0 2 [1] 2); [vm_compute; reflexivity|vm_compute; reflexivity]|].
  eapply rtc_l; [apply (SPopDone 8 _ PIdle [1; 2; 3] [] 0 2 [1; 2]); reflexivity|]. vm_compute. apply rtc_refl.
Qed.

Lemma spsc_fifo_witness : popped after_pop `prefix_of` pushed after_pop /\ len (pushed after_pop) <= len (popped after_pop) + 8.
Proof.
  destruct (spsc_fifo 8 ltac:(lia) divides_8 ltac:(lia) after_pop after_pop_reachable) as (H1 & H2 & _). exact (conj H1 H2).
Defined.

Lemma ring_operations_witness :
  peek 8 [0; 0; 0] (ring after_pop) = Ok ([3; 0; 0], 1) /\ push 8 [4; 5; 6; 7; 8; 9; 1; 2] (ring after_pop) = (ring after_pop, Err Full).
Proof.
  destruct (ring_operations 8 ltac:(lia) divides_8 ltac:(lia) after_pop after_pop_reachable) as [H1 H2]. split.
  - exact (proj1 (H2 eq_refl [0; 0; 0])).
  - exact (H1 eq_refl [4; 5; 6; 7; 8; 9; 1; 2]).
Defined.

End Ring.
