(* ===== verification/DisplayList.v ===== *)
(** Display lists: the builder of the producer
    (src/userspace/libfolk/src/gfx/display_list.rs), the walker of the
    compositor (src/userspace/compositor/src/gfx_consumer.rs), the input events
    (src/userspace/libfolk/src/gfx/input.rs), and the draining of a ring
    (src/userspace/compositor/src/gfx_rings.rs, gfx_dispatch.rs).

    A packed structure is the little-endian bytes of its fields.  What a command
    paints is not modelled: [dispatch] returns the commands it executes. *)

From S2P Require Import Prelude Bytes Ring.
Import Ring.

#[local] Open Scope kernel_scope.

Module DisplayList.

(** [as i32] *)
Definition i32 (z : Z) : Z := (z + 2 ^ 31) mod 2 ^ 32 - 2 ^ 31.

Inductive CommandOpCode : Type := OpSync | OpSetClipRect | OpDrawRect | OpDrawText | OpDrawTexture.

(** [opcode as u8] *)
Definition as_u8 (o : CommandOpCode) : Z :=
  match o with OpSync => 0x00 | OpSetClipRect => 0x01 | OpDrawRect => 0x02 | OpDrawText => 0x03 | OpDrawTexture => 0x04 end.

Definition from_u8 (b : Z) : option CommandOpCode :=
  match b with
  | 0x00 => Some OpSync
  | 0x01 => Some OpSetClipRect
  | 0x02 => Some OpDrawRect
  | 0x03 => Some OpDrawText
  | 0x04 => Some OpDrawTexture
  | _ => None
  end.

Record DrawRectCmd : Type := mkRect { r_x : Z; r_y : Z; r_width : Z; r_height : Z; r_color : Z; r_radius : Z }.
Record DrawTextureCmd : Type :=
  mkTexture { t_id : Z; t_dest_x : Z; t_dest_y : Z; t_dest_width : Z; t_dest_height : Z; t_src_x : Z; t_src_y : Z; t_opacity : Z }.
Record SetClipRectCmd : Type := mkClip { c_x : Z; c_y : Z; c_width : Z; c_height : Z }.
Record DrawTextHeader : Type := mkText { h_x : Z; h_y : Z; h_color : Z; h_font_size : Z; h_bytes_len : Z }.

(** ** The builder *)

Definition rect_bytes (c : DrawRectCmd) : list Z :=
  le_bytes 4 (r_x c) ++ le_bytes 4 (r_y c) ++ le_bytes 4 (r_width c) ++ le_bytes 4 (r_height c) ++ le_bytes 4 (r_color c) ++
  le_bytes 2 (r_radius c).

Definition texture_bytes (c : DrawTextureCmd) : list Z :=
  le_bytes 4 (t_id c) ++ le_bytes 4 (t_dest_x c) ++ le_bytes 4 (t_dest_y c) ++ le_bytes 4 (t_dest_width c) ++
  le_bytes 4 (t_dest_height c) ++ le_bytes 4 (t_src_x c) ++ le_bytes 4 (t_src_y c) ++ le_bytes 1 (t_opacity c).

Definition clip_bytes (c : SetClipRectCmd) : list Z :=
  le_bytes 4 (c_x c) ++ le_bytes 4 (c_y c) ++ le_bytes 4 (c_width c) ++ le_bytes 4 (c_height c).

Definition text_bytes (h : DrawTextHeader) : list Z :=
  le_bytes 4 (h_x h) ++ le_bytes 4 (h_y h) ++ le_bytes 4 (h_color h) ++ le_bytes 2 (h_font_size h) ++ le_bytes 2 (h_bytes_len h).

Definition write_header (opcode : CommandOpCode) (payload_len : Z) (buf : list Z) : list Z :=
  buf ++ as_u8 opcode :: le_bytes 2 payload_len.

Definition draw_rect (cmd : DrawRectCmd) (buf : list Z) : list Z := write_header OpDrawRect 22 buf ++ rect_bytes cmd.

Definition set_clip_rect (cmd : SetClipRectCmd) (buf : list Z) : list Z := write_header OpSetClipRect 16 buf ++ clip_bytes cmd.

Definition draw_texture (cmd : DrawTextureCmd) (buf : list Z) : list Z := write_header OpDrawTexture 29 buf ++ texture_bytes cmd.

Definition draw_text (x y color_rgba font_size : Z) (text : list Z) (buf : list Z) : list Z :=
  let header := mkText x y color_rgba font_size (u16 (len text)) in
  let payload := 16 + len text in
  write_header OpDrawText (u16 payload) buf ++ text_bytes header ++ text.

Definition end_frame (buf : list Z) : list Z := write_header OpSync 0 buf.

(** ** The walker *)

Inductive Command : Type :=
| Sync
| SetClipRect (c : SetClipRectCmd)
| DrawRect (c : DrawRectCmd)
| DrawText (x y color_rgba font_size : Z) (text : list Z)
| DrawTexture (c : DrawTextureCmd)
| Unknown (opcode payload_len : Z).

Inductive ParseError : Type :=
| ShortHeader (offset : Z)
| TruncatedPayload (offset claimed available : Z)
| BadDrawTextHeader (offset : Z)
| PayloadSizeMismatch (offset opcode expected got : Z).

(** The word of [n] bytes at [off] of a payload. *)
Definition word (off n : nat) (p : list Z) : Z := from_le_bytes (take n (drop off p)).

Definition read_clip (p : list Z) : SetClipRectCmd := mkClip (i32 (word 0 4 p)) (i32 (word 4 4 p)) (word 8 4 p) (word 12 4 p).

Definition read_rect (p : list Z) : DrawRectCmd :=
  mkRect (i32 (word 0 4 p)) (i32 (word 4 4 p)) (word 8 4 p) (word 12 4 p) (word 16 4 p) (word 20 2 p).

Definition read_texture (p : list Z) : DrawTextureCmd :=
  mkTexture (word 0 4 p) (i32 (word 4 4 p)) (i32 (word 8 4 p)) (word 12 4 p) (word 16 4 p) (word 20 4 p) (word 24 4 p) (word 28 1 p).

Definition read_text_prefix (p : list Z) : DrawTextHeader :=
  mkText (i32 (word 0 4 p)) (i32 (word 4 4 p)) (word 8 4 p) (word 12 2 p) (word 14 2 p).

(** What a payload is decoded to; [here] is the offset of its header. *)
Definition decode_payload (here opcode : Z) (payload : list Z) : outcome ParseError Command :=
  let sized s (c : Command) := if negb (len payload =? s) then Err (PayloadSizeMismatch here opcode s (len payload)) else Ok c in
  match from_u8 opcode with
  | Some OpSync => Ok Sync
  | Some OpSetClipRect => sized 16 (SetClipRect (read_clip payload))
  | Some OpDrawRect => sized 22 (DrawRect (read_rect payload))
  | Some OpDrawText =>
      if len payload <? 16 then Err (BadDrawTextHeader here) else
      let prefix := read_text_prefix payload in
      if len payload <? 16 + h_bytes_len prefix then Err (BadDrawTextHeader here)
      else Ok (DrawText (h_x prefix) (h_y prefix) (h_color prefix) (h_font_size prefix)
             (take (Z.to_nat (h_bytes_len prefix)) (drop 16 payload)))
  | Some OpDrawTexture => sized 29 (DrawTexture (read_texture payload))
  | None => Ok (Unknown opcode (len payload))
  end.

(** [Walker::next_command] at [pos]: the command and the position after it. *)
Definition next_command (bytes : list Z) (pos : Z) : outcome ParseError (option (Command * Z)) :=
  if len bytes <=? pos then Ok None else
  match drop (Z.to_nat pos) bytes with
  | opcode :: l0 :: l1 :: rest =>
      let payload_len := from_le_bytes [l0; l1] in
      if len bytes <? pos + 3 + payload_len then Err (TruncatedPayload pos payload_len (len bytes - (pos + 3))) else
      let? cmd := decode_payload pos opcode (take (Z.to_nat payload_len) rest) in
      Ok (Some (cmd, pos + 3 + payload_len))
  | _ => Err (ShortHeader pos)
  end.

(** The loop up to the first [Sync]: the commands seen, and the bytes consumed
    or the error. *)
Fixpoint walk (fuel : nat) (bytes : list Z) (pos : Z) : list Command * outcome ParseError Z :=
  match fuel with
  | O => ([], Panic)
  | S fuel =>
      match next_command bytes pos with
      | Ok None => ([], Ok pos)
      | Ok (Some (Sync, pos)) => ([Sync], Ok pos)
      | Ok (Some (cmd, pos)) => let (cmds, r) := walk fuel bytes pos in (cmd :: cmds, r)
      | Err e => ([], Err e)
      | Panic => ([], Panic)
      end
  end.

(** Every command takes three bytes at least. *)
Definition rounds (bytes : list Z) : nat := S (length bytes).

Definition parse_display_list (bytes : list Z) : outcome ParseError (list Command * Z) :=
  let (cmds, r) := walk (rounds bytes) bytes 0 in
  let? consumed := r in Ok (cmds, consumed).

(** [dispatch_display_list]: the commands it executes before it returns.  Reaching
    [Sync] executes nothing. *)
Definition dispatch (bytes : list Z) : list Command * outcome ParseError Z :=
  let (cmds, r) := walk (rounds bytes) bytes 0 in
  (List.filter (fun c => match c with Sync => false | _ => true end) cmds, r).

(** One ring of [drain_all]: all that is in it is popped, and dispatched if there
    is anything. *)
Definition drain (N : Z) (scratch : list Z) (r : IpcGraphicsRing) : IpcGraphicsRing * outcome Empty_set (option (list Command * outcome ParseError Z)) :=
  match pop_into N scratch r with
  | (r, Ok (scratch, n)) => if n =? 0 then (r, Ok None) else (r, Ok (Some (dispatch (take (Z.to_nat n) scratch))))
  | (r, Err e) => (r, Err e)
  | (r, Panic) => (r, Panic)
  end.

(** ** Input events *)

Record InputEvent : Type := mkEvent { kind : Z; ev_x : Z; ev_y : Z; button : Z; key : Z; down : Z; reserved : Z }.

Definition mouse (x y button : Z) (down : bool) : InputEvent := mkEvent 1 x y button 0 (if down then 1 else 0) 0.
Definition key_event (scancode : Z) (down : bool) : InputEvent := mkEvent 2 0 0 0 scancode (if down then 1 else 0) 0.

Definition to_bytes (e : InputEvent) : list Z :=
  le_bytes 4 (kind e) ++ le_bytes 4 (ev_x e) ++ le_bytes 4 (ev_y e) ++ le_bytes 4 (button e) ++ le_bytes 4 (key e) ++
  le_bytes 4 (down e) ++ le_bytes 8 (reserved e).

Definition from_bytes (l : list Z) : option InputEvent :=
  if negb (len l =? 32) then None else
  Some (mkEvent (word 0 4 l) (i32 (word 4 4 l)) (i32 (word 8 4 l)) (word 12 4 l) (word 16 4 l) (word 20 4 l) (word 24 8 l)).

Definition INPUT_RING_BYTES : Z := 4 * 1024.

(** [MountedInputRing::push] and [InputRingHandle::pop_event]. *)
Definition push_event (e : InputEvent) (r : IpcGraphicsRing) : IpcGraphicsRing * bool :=
  match push INPUT_RING_BYTES (to_bytes e) r with (r, Ok _) => (r, true) | (r, _) => (r, false) end.

Definition pop_event (r : IpcGraphicsRing) : IpcGraphicsRing * outcome Empty_set (option InputEvent) :=
  match pop_into INPUT_RING_BYTES (replicate 32 0) r with
  | (r, Ok (buf, n)) => if n =? 32 then (r, Ok (from_bytes buf)) else (r, Ok None)
  | (r, Err e) => (r, Err e)
  | (r, Panic) => (r, Panic)
  end.

(** ** Round trips *)

Definition signed32 (z : Z) : Prop := - 2 ^ 31 <= z < 2 ^ 31.

Lemma i32_of_word z : signed32 z -> i32 (z mod 2 ^ 32) = z.
Proof.
  intros Hz. unfold signed32 in Hz. unfold i32. rewrite Zplus_mod_idemp_l, Z.mod_small by lia. lia.
Qed.

Lemma u_word n z : in_width (8 * Z.of_nat n) z -> z mod 2 ^ (8 * Z.of_nat n) = z.
Proof. apply Z.mod_small. Qed.

(** The word of a field is the field's bytes. *)
Ltac field_word bytes off n v := change (word off n bytes) with (from_le_bytes (le_bytes n v)).

Definition rect_ok (c : DrawRectCmd) : Prop :=
  signed32 (r_x c) /\ signed32 (r_y c) /\ in_width 32 (r_width c) /\ in_width 32 (r_height c) /\ in_width 32 (r_color c) /\ in_width 16 (r_radius c).

Definition clip_ok (c : SetClipRectCmd) : Prop :=
  signed32 (c_x c) /\ signed32 (c_y c) /\ in_width 32 (c_width c) /\ in_width 32 (c_height c).

Definition texture_ok (c : DrawTextureCmd) : Prop :=
  in_width 32 (t_id c) /\ signed32 (t_dest_x c) /\ signed32 (t_dest_y c) /\ in_width 32 (t_dest_width c) /\
  in_width 32 (t_dest_height c) /\ in_width 32 (t_src_x c) /\ in_width 32 (t_src_y c) /\ in_width 8 (t_opacity c).

Lemma read_rect_bytes c : rect_ok c -> read_rect (rect_bytes c) = c.
Proof.
  destruct c as [x y w h col rad]. intros (Hx & Hy & Hw & Hh & Hc & Hr). cbn [r_x r_y r_width r_height r_color r_radius] in *.
  unfold read_rect. set (p := rect_bytes _).
  field_word p 0%nat 4%nat x. field_word p 4%nat 4%nat y. field_word p 8%nat 4%nat w. field_word p 12%nat 4%nat h.
  field_word p 16%nat 4%nat col. field_word p 20%nat 2%nat rad.
  rewrite !from_to_le_bytes, (u_word 4 w), (u_word 4 h), (u_word 4 col), (u_word 2 rad), !i32_of_word by done. done.
Qed.

Lemma read_clip_bytes c : clip_ok c -> read_clip (clip_bytes c) = c.
Proof.
  destruct c as [x y w h]. intros (Hx & Hy & Hw & Hh). cbn [c_x c_y c_width c_height] in *.
  unfold read_clip. set (p := clip_bytes _).
  field_word p 0%nat 4%nat x. field_word p 4%nat 4%nat y. field_word p 8%nat 4%nat w. field_word p 12%nat 4%nat h.
  rewrite !from_to_le_bytes, (u_word 4 w), (u_word 4 h), !i32_of_word by done. done.
Qed.

Lemma read_texture_bytes c : texture_ok c -> read_texture (texture_bytes c) = c.
Proof.
  destruct c as [id x y w h sx sy o]. intros (Hid & Hx & Hy & Hw & Hh & Hsx & Hsy & Ho).
  cbn [t_id t_dest_x t_dest_y t_dest_width t_dest_height t_src_x t_src_y t_opacity] in *.
  unfold read_texture. set (p := texture_bytes _).
  field_word p 0%nat 4%nat id. field_word p 4%nat 4%nat x. field_word p 8%nat 4%nat y. field_word p 12%nat 4%nat w.
  field_word p 16%nat 4%nat h. field_word p 20%nat 4%nat sx. field_word p 24%nat 4%nat sy. field_word p 28%nat 1%nat o.
  rewrite !from_to_le_bytes, (u_word 4 id), (u_word 4 w), (u_word 4 h), (u_word 4 sx), (u_word 4 sy), (u_word 1 o), !i32_of_word by done.
  done.
Qed.

Lemma read_text_bytes x y col fs n text :
  signed32 x -> signed32 y -> in_width 32 col -> in_width 16 fs -> in_width 16 n ->
  read_text_prefix (text_bytes (mkText x y col fs n) ++ text) = mkText x y col fs n.
Proof.
  intros Hx Hy Hc Hf Hn. unfold read_text_prefix. set (p := _ ++ text).
  field_word p 0%nat 4%nat x. field_word p 4%nat 4%nat y. field_word p 8%nat 4%nat col. field_word p 12%nat 2%nat fs. field_word p 14%nat 2%nat n.
  rewrite !from_to_le_bytes, (u_word 4 col), (u_word 2 fs), (u_word 2 n), !i32_of_word by done. done.
Qed.

(** What the builder appends for a command. *)
Definition emit (c : Command) (buf : list Z) : list Z :=
  match c with
  | Sync => end_frame buf
  | SetClipRect c => set_clip_rect c buf
  | DrawRect c => draw_rect c buf
  | DrawText x y col fs text => draw_text x y col fs text buf
  | DrawTexture c => draw_texture c buf
  | Unknown _ _ => buf
  end.

(** A command of the builder, its fields in their types and its text short
    enough for the length field. *)
Definition command_ok (c : Command) : Prop :=
  match c with
  | Sync | Unknown _ _ => False
  | SetClipRect c => clip_ok c
  | DrawRect c => rect_ok c
  | DrawText x y col fs text => signed32 x /\ signed32 y /\ in_width 32 col /\ in_width 16 fs /\ len text <= 65519
  | DrawTexture c => texture_ok c
  end.

Definition build (cmds : list Command) : list Z := fold_left (fun b c => emit c b) cmds [].

Lemma emit_app c buf : emit c buf = buf ++ emit c [].
Proof.
  destruct c; cbn [emit]; unfold end_frame, set_clip_rect, draw_rect, draw_text, draw_texture, write_header; cbn [app];
    rewrite <- ?app_assoc, ?app_nil_r; done.
Qed.

(** A record in the middle of a list: its header is read and its payload decoded. *)
Lemma next_record pre op payload post :
  in_width 16 (len payload) ->
  next_command (pre ++ (op :: le_bytes 2 (len payload) ++ payload) ++ post) (len pre) =
    (let? cmd := decode_payload (len pre) op payload in Ok (Some (cmd, len pre + 3 + len payload))).
Proof.
  intros Hw. unfold next_command.
  assert (Hlen : len (pre ++ (op :: le_bytes 2 (len payload) ++ payload) ++ post) = len pre + 3 + len payload + len post).
  { unfold len. rewrite !length_app. cbn [length]. rewrite length_app, le_bytes_length. lia. }
  rewrite Hlen. rewrite (proj2 (Z.leb_gt _ _)) by (unfold len; lia).
  replace (Z.to_nat (len pre)) with (length pre) by (unfold len; lia). rewrite drop_app_length. cbn [app le_bytes].
  change (from_le_bytes [len payload mod 256; len payload / 256 mod 256]) with (from_le_bytes (le_bytes 2 (len payload))).
  rewrite from_to_le_bytes, u_word by done. rewrite (proj2 (Z.ltb_ge _ _)) by (unfold len; lia).
  replace (Z.to_nat (len payload)) with (length payload) by (unfold len; lia). by rewrite take_app_length.
Qed.

Lemma next_emit c pre post :
  command_ok c \/ c = Sync ->
  next_command (pre ++ emit c [] ++ post) (len pre) = Ok (Some (c, len pre + len (emit c []))).
Proof.
  intros Hc.
  assert (H : exists op payload, emit c [] = as_u8 op :: le_bytes 2 (len payload) ++ payload /\ in_width 16 (len payload) /\
    decode_payload (len pre) (as_u8 op) payload = Ok c).
  { destruct c as [|c|c|x y col fs text|c|o n]; cbn [emit command_ok] in *; try (destruct Hc as [[]|]; done).
    - exists OpSync, []. done.
    - destruct Hc as [Hc|]; [|done]. exists OpSetClipRect, (clip_bytes c). split; [done|]. split; [done|].
      cbn. f_equal. f_equal. by apply read_clip_bytes.
    - destruct Hc as [Hc|]; [|done]. exists OpDrawRect, (rect_bytes c). split; [done|]. split; [done|].
      cbn. f_equal. f_equal. by apply read_rect_bytes.
    - destruct Hc as [(Hx & Hy & Hcol & Hfs & Ht)|]; [|done]. exists OpDrawText, (text_bytes (mkText x y col fs (len text)) ++ text).
      assert (Hl : len (text_bytes (mkText x y col fs (len text)) ++ text) = 16 + len text) by (unfold len; rewrite length_app; cbn; lia).
      assert (Hw : in_width 16 (16 + len text) /\ in_width 16 (len text)) by (unfold in_width, len in *; lia). destruct Hw as [Hw1 Hw2].
      unfold draw_text. rewrite !(wrap_small 16) by done. rewrite Hl. split; [done|]. split; [done|].
      unfold decode_payload. cbn [as_u8 from_u8]. rewrite Hl, read_text_bytes by done. cbn [h_bytes_len h_x h_y h_color h_font_size].
      rewrite !(proj2 (Z.ltb_ge _ _)) by (unfold len; lia). change (drop 16 (text_bytes (mkText x y col fs (len text)) ++ text)) with text.
      do 2 f_equal. rewrite take_ge; [done|unfold len; lia].
    - destruct Hc as [Hc|]; [|done]. exists OpDrawTexture, (texture_bytes c). split; [done|]. split; [done|].
      cbn. f_equal. f_equal. by apply read_texture_bytes. }
  destruct H as (op & payload & -> & Hw & Hd). rewrite next_record by done. rewrite Hd. cbn [obind]. do 3 f_equal.
  unfold len. cbn [length]. rewrite length_app, le_bytes_length. lia.
Qed.

Lemma build_app cmds buf : fold_left (fun b c => emit c b) cmds buf = buf ++ build cmds.
Proof.
  unfold build. revert buf. induction cmds as [|c cmds IH]; intros buf; cbn [fold_left]; [by rewrite app_nil_r|].
  rewrite IH, (IH (emit c [])), (emit_app c buf). by rewrite app_assoc.
Qed.

Lemma build_cons c cmds : build (c :: cmds) = emit c [] ++ build cmds.
Proof. unfold build at 1. cbn [fold_left]. apply build_app. Qed.

(** The walker goes through well-formed commands and on with what follows. *)
Lemma walk_app cmds pre rest fuel :
  Forall command_ok cmds ->
  walk (length cmds + fuel) (pre ++ build cmds ++ rest) (len pre) =
    let (cs, r) := walk fuel (pre ++ build cmds ++ rest) (len pre + len (build cmds)) in (cmds ++ cs, r).
Proof.
  intros Hc. revert pre. induction Hc as [|c cmds Hc _ IH]; intros pre.
  - change (len (build [])) with 0. rewrite Z.add_0_r. cbn [length app Nat.add]. by destruct (walk fuel _ _).
  - cbn [length Nat.add walk]. rewrite build_cons, <- app_assoc, next_emit by (by left). specialize (IH (pre ++ emit c [])).
    rewrite <- app_assoc in IH. replace (len (pre ++ emit c [])) with (len pre + len (emit c [])) in IH by (unfold len; rewrite length_app; lia).
    rewrite IH. replace (len (emit c [] ++ build cmds)) with (len (emit c []) + len (build cmds)) by (unfold len; rewrite length_app; lia).
    rewrite Z.add_assoc. destruct (walk fuel _ _) as [cs r]. by destruct c; try (by destruct Hc).
Qed.

Lemma emit_longer c : command_ok c -> (1 <= length (emit c []))%nat.
Proof. by destruct c; intros Hc; try (by destruct Hc); cbn; lia. Qed.

Lemma build_longer cmds : Forall command_ok cmds -> (length cmds <= length (build cmds))%nat.
Proof.
  induction 1 as [|c cmds Hc _ IH]; [cbn; lia|]. rewrite build_cons, length_app. pose proof (emit_longer c Hc). cbn [length]. lia.
Qed.

Lemma walk_rounds cmds rest :
  Forall command_ok cmds ->
  exists fuel, walk (rounds (build cmds ++ rest)) (build cmds ++ rest) 0 =
    (let (cs, r) := walk (S fuel) (build cmds ++ rest) (len (build cmds)) in (cmds ++ cs, r)).
Proof.
  intros Hc. pose proof (build_longer cmds Hc). exists (length (build cmds ++ rest) - length cmds)%nat.
  pose proof (walk_app cmds [] rest (S (length (build cmds ++ rest) - length cmds)) Hc) as Hw. cbn [app] in Hw. change (len []) with 0 in Hw.
  rewrite Z.add_0_l in Hw. rewrite <- Hw. f_equal. unfold rounds. rewrite length_app. lia.
Qed.

Lemma walk_frame cmds rest :
  Forall command_ok cmds ->
  walk (rounds (end_frame (build cmds) ++ rest)) (end_frame (build cmds) ++ rest) 0 = (cmds ++ [Sync], Ok (len (end_frame (build cmds)))).
Proof.
  intros Hc. assert (E : end_frame (build cmds) ++ rest = build cmds ++ emit Sync [] ++ rest) by (cbn [emit]; unfold end_frame, write_header; cbn [app]; by rewrite <- app_assoc).
  rewrite E. destruct (walk_rounds cmds (emit Sync [] ++ rest) Hc) as [fuel ->]. cbn [walk]. rewrite next_emit by (by right).
  do 2 f_equal. unfold end_frame, write_header, len. rewrite !length_app. cbn [length emit end_frame write_header app]. lia.
Qed.

(** A frame the builder makes of any commands is parsed back to them, whatever
    follows the frame in the buffer, and exactly its bytes are consumed. *)
Theorem display_list_roundtrip cmds rest :
  Forall command_ok cmds ->
  parse_display_list (end_frame (build cmds) ++ rest) = Ok (cmds ++ [Sync], len (end_frame (build cmds))).
Proof. intros Hc. unfold parse_display_list. by rewrite walk_frame. Qed.

(** The commands of a frame without its end. *)
Lemma dispatch_frame cmds rest :
  Forall command_ok cmds -> dispatch (end_frame (build cmds) ++ rest) = (cmds, Ok (len (end_frame (build cmds)))).
Proof.
  intros Hc. unfold dispatch. rewrite walk_frame by done. f_equal.
  induction Hc as [|c cmds Hc _ IH]; [done|]. cbn [app List.filter]. destruct c; try (by destruct Hc); by rewrite IH.
Qed.

(** A text of 65520 to 65535 bytes wraps the length in its header: the walker
    stops there with an error, the rest of the frame is not drawn. *)
Theorem long_text_breaks_frame cmds x y col fs text rest :
  Forall command_ok cmds -> 65520 <= len text <= 65535 ->
  (walk (rounds (draw_text x y col fs text (build cmds) ++ rest)) (draw_text x y col fs text (build cmds) ++ rest) 0) =
    (cmds, Err (BadDrawTextHeader (len (build cmds)))).
Proof.
  intros Hc Ht. set (h := mkText x y col fs (u16 (len text))).
  assert (Hw : u16 (16 + len text) = len text - 65520).
  { unfold wrap. replace (16 + len text) with (len text - 65520 + 1 * 2 ^ 16) by lia. rewrite Z_mod_plus_full. apply Z.mod_small. lia. }
  set (short := take (Z.to_nat (len text - 65520)) (text_bytes h ++ text)).
  assert (Hs : len short = len text - 65520) by (unfold short, len in *; rewrite length_take, length_app; cbn [length]; lia).
  assert (E : draw_text x y col fs text (build cmds) ++ rest =
    build cmds ++ (as_u8 OpDrawText :: le_bytes 2 (len short) ++ short) ++ drop (Z.to_nat (len text - 65520)) (text_bytes h ++ text) ++ rest).
  { unfold draw_text, write_header. fold h. rewrite Hw, Hs. unfold short. rewrite <- !app_assoc. cbn [app]. f_equal. f_equal. rewrite <- app_assoc.
    f_equal. by rewrite app_assoc, <- (app_assoc _ _ rest), (app_assoc (take _ _)), take_drop, <- app_assoc. }
  rewrite E. destruct (walk_rounds cmds ((as_u8 OpDrawText :: le_bytes 2 (len short) ++ short) ++ drop (Z.to_nat (len text - 65520)) (text_bytes h ++ text) ++ rest) Hc)
    as [fuel ->]. cbn [walk]. rewrite next_record by (unfold in_width; lia).
  unfold decode_payload. cbn [as_u8 from_u8]. rewrite (proj2 (Z.ltb_lt _ _)) by lia. cbn [obind]. by rewrite app_nil_r.
Qed.

(** The loop ends on every input: as many rounds as bytes are enough. *)
Theorem walk_total bytes : Forall byte bytes -> (walk (rounds bytes) bytes 0).2 <> Panic.
Proof.
  intros Hb. assert (H : forall fuel pos, 0 <= pos <= len bytes -> len bytes - pos < Z.of_nat fuel -> (walk fuel bytes pos).2 <> Panic).
  { induction fuel as [|fuel IH]; intros pos Hp Hf; [lia|].
    cbn [walk]. unfold next_command. destruct (Z.leb_spec (len bytes) pos); [done|].
    destruct (drop (Z.to_nat pos) bytes) as [|op [|l0 [|l1 rest]]] eqn:Hd; try done.
    assert (Hl : 0 <= from_le_bytes [l0; l1]).
    { apply from_le_bytes_range. apply (Forall_drop _ (Z.to_nat pos)) in Hb. rewrite Hd in Hb.
      apply Forall_cons in Hb as [_ Hb]. apply Forall_cons in Hb as [H0 Hb]. apply Forall_cons in Hb as [H1 _]. constructor; [exact H0|constructor; [exact H1|constructor]]. }
    destruct (Z.ltb_spec (len bytes) (pos + 3 + from_le_bytes [l0; l1])); [done|].
    destruct (decode_payload _ _ _) as [cmd|e|] eqn:Hdec; cbn [obind]; [|done|].
    - specialize (IH (pos + 3 + from_le_bytes [l0; l1]) ltac:(lia) ltac:(lia)).
      destruct (walk fuel bytes (pos + 3 + from_le_bytes [l0; l1])) as [cmds r]. by destruct cmd.
    - exfalso. revert Hdec. unfold decode_payload. destruct (from_u8 op) as [[]|]; repeat case_match; done. }
  apply H; unfold rounds, len; lia.
Qed.

(** ** Through the ring *)

Definition event_ok (e : InputEvent) : Prop :=
  in_width 32 (kind e) /\ signed32 (ev_x e) /\ signed32 (ev_y e) /\ in_width 32 (button e) /\ in_width 32 (key e) /\
  in_width 32 (down e) /\ in_width 64 (reserved e).

Lemma event_bytes e : event_ok e -> from_bytes (to_bytes e) = Some e.
Proof.
  destruct e as [k x y b ky d r]. intros (Hk & Hx & Hy & Hb & Hky & Hd & Hr). cbn [kind ev_x ev_y button key down reserved] in *.
  unfold from_bytes. change (len (to_bytes (mkEvent k x y b ky d r)) =? 32) with true. cbn [negb]. set (p := to_bytes _).
  field_word p 0%nat 4%nat k. field_word p 4%nat 4%nat x. field_word p 8%nat 4%nat y. field_word p 12%nat 4%nat b.
  field_word p 16%nat 4%nat ky. field_word p 20%nat 4%nat d. field_word p 24%nat 8%nat r.
  rewrite !from_to_le_bytes, (u_word 4 k), (u_word 4 b), (u_word 4 ky), (u_word 4 d), (u_word 8 r), !i32_of_word by done. done.
Qed.

(** What the consumer reads when [bytes] are next in the stream. *)
Lemma pop_next N W bytes out rest :
  0 < N -> (N | 2 ^ 64) -> N < 2 ^ 63 -> rtc (step N) (Ring.initial N) W -> cons W = CIdle ->
  pushed W = popped W ++ bytes ++ rest -> len out = len bytes \/ rest = [] /\ len bytes <= len out ->
  exists r', pop_into N out (ring W) = (r', Ok (bytes ++ drop (length bytes) out, len bytes)) /\
    rtc (step N) W (mkWorld r' (prod W) CIdle (pushed W) (popped W ++ bytes)).
Proof.
  intros H1 H2 H3 Hr Hc Hp Hl. destruct (read_idle N H1 H2 H3 W Hr Hc out) as (_ & _ & r' & Hpop & Hrun). exists r'.
  assert (Hn : Z.min (len (pushed W) - len (popped W)) (len out) = len bytes).
  { rewrite Hp. destruct Hl as [Hl|[-> Hl]]; unfold len in *; rewrite !length_app; cbn [length]; lia. }
  rewrite Hn in Hpop, Hrun. replace (Z.to_nat (len bytes)) with (length bytes) in Hpop, Hrun by (unfold len; lia).
  rewrite Hp, drop_app_length, take_app_length in Hpop, Hrun. rewrite Hp. done.
Qed.

(** An event the compositor pushed arrives as it was sent: when it is next in the
    ring, [pop_event] returns it and takes its 32 bytes. *)
Theorem event_delivered W e rest :
  rtc (step INPUT_RING_BYTES) (Ring.initial INPUT_RING_BYTES) W -> cons W = CIdle -> event_ok e ->
  pushed W = popped W ++ to_bytes e ++ rest ->
  exists r', pop_event (ring W) = (r', Ok (Some e)) /\
    rtc (step INPUT_RING_BYTES) W (mkWorld r' (prod W) CIdle (pushed W) (popped W ++ to_bytes e)).
Proof.
  intros Hr Hc He Hp. assert (Hd : (INPUT_RING_BYTES | 2 ^ 64)) by (by exists (2 ^ 52)).
  destruct (pop_next INPUT_RING_BYTES W (to_bytes e) (replicate 32 0) rest ltac:(done) Hd ltac:(done) Hr Hc Hp ltac:(by left)) as (r' & Hpop & Hrun).
  exists r'. split; [|done]. unfold pop_event. rewrite Hpop. change (len (to_bytes e) =? 32) with true. cbn iota.
  change (drop (length (to_bytes e)) (replicate 32 0)) with (@nil Z). by rewrite app_nil_r, event_bytes.
Qed.

Lemma drain_first_frame N W scratch cmds rest :
  0 < N -> (N | 2 ^ 64) -> N < 2 ^ 63 -> rtc (step N) (Ring.initial N) W -> cons W = CIdle -> len scratch = N ->
  Forall command_ok cmds -> pushed W = popped W ++ end_frame (build cmds) ++ rest ->
  exists r', drain N scratch (ring W) = (r', Ok (Some (cmds, Ok (len (end_frame (build cmds)))))) /\
    rtc (step N) W (mkWorld r' (prod W) CIdle (pushed W) (pushed W)).
Proof.
  intros H1 H2 H3 Hr Hc Hs Hcmds Hp.
  pose proof (ok_room _ _ (ring_reachable_ok N H1 H2 H3 W Hr)) as Hroom. set (all := end_frame (build cmds) ++ rest) in *.
  assert (Hp' : pushed W = popped W ++ all ++ []) by (by rewrite app_nil_r).
  assert (Hlen : len (pushed W) = len (popped W) + len all) by (rewrite Hp; unfold len; rewrite length_app; lia).
  destruct (pop_next N W all scratch [] H1 H2 H3 Hr Hc Hp') as (r' & Hpop & Hrun); [right; split; [done|lia]|]. exists r'. split.
  - unfold drain. rewrite Hpop. rewrite (proj2 (Z.eqb_neq _ _)).
    + replace (Z.to_nat (len all)) with (length all) by (unfold len; lia). rewrite take_app_length. unfold all. by rewrite dispatch_frame.
    + unfold all, end_frame, write_header, len. rewrite !length_app. cbn [length]. lia.
  - by rewrite Hp at 2.
Qed.

(** Draining a ring that holds a frame executes the frame's commands in order and
    takes everything that is in the ring: what follows the frame is dropped. *)
Theorem drain_executes_first_frame N W scratch cmds rest :
  0 < N -> (N | 2 ^ 64) -> N < 2 ^ 63 -> rtc (step N) (Ring.initial N) W -> cons W = CIdle -> len scratch = N ->
  Forall command_ok cmds -> pushed W = popped W ++ end_frame (build cmds) ++ rest ->
  exists r', drain N scratch (ring W) = (r', Ok (Some (cmds, Ok (len (end_frame (build cmds)))))) /\
    rtc (step N) W (mkWorld r' (prod W) CIdle (pushed W) (pushed W)).
Proof. apply drain_first_frame. Qed.

(** ** Concrete frames *)

Definition red_square : list Command := [SetClipRect (mkClip 0 0 64 64); DrawRect (mkRect (-4) 8 16 16 0xFF0000FF 0)].

Lemma red_square_ok : Forall command_ok red_square.
Proof. constructor; [|constructor; [|constructor]]; vm_compute; intuition congruence. Qed.

Lemma display_list_roundtrip_witness :
  parse_display_list (end_frame (build red_square) ++ [1; 2]) = Ok (red_square ++ [Sync], 47).
Proof. exact (display_list_roundtrip red_square [1; 2] red_square_ok). Defined.

Lemma walk_total_witness : (walk (rounds [3; 255]) [3; 255] 0).2 <> Panic /\ parse_display_list [3; 255] = Err (ShortHeader 0).
Proof.
  split; [|reflexivity]. apply (walk_total [3; 255]). constructor; [|constructor; [|constructor]]; (split; [vm_compute; congruence|reflexivity]).
Defined.

Lemma long_text_breaks_frame_witness :
  exists cs, (walk (rounds (draw_text 0 0 0 14 (replicate (Z.to_nat 65520) 65) [])) (draw_text 0 0 0 14 (replicate (Z.to_nat 65520) 65) []) 0) =
    (cs, Err (BadDrawTextHeader 0)).
Proof.
  exists []. assert (Hl : len (replicate (Z.to_nat 65520) 65) = 65520) by (unfold len; rewrite length_replicate; lia). revert Hl.
  generalize (replicate (Z.to_nat 65520) 65). intros text Hl.
  pose proof (long_text_breaks_frame [] 0 0 0 14 text [] (List.Forall_nil _) ltac:(lia)) as H. rewrite !app_nil_r in H. exact H.
Defined.

(** A push by the idle producer to a new ring. *)
Lemma pushed_to_new N data r' :
  0 < N -> (N | 2 ^ 64) -> N < 2 ^ 63 -> push N data (new N) = (r', Ok tt) ->
  rtc (step N) (Ring.initial N) (mkWorld r' PIdle CIdle data []).
Proof. intros H1 H2 H3 H. apply (push_run N H1 data (new N) r' CIdle [] []); [unfold len; cbn; rewrite length_replicate; lia|done]. Qed.

Definition click : InputEvent := mouse 120 80 1 true.

Lemma event_delivered_witness : exists r r', push_event click (new INPUT_RING_BYTES) = (r, true) /\ pop_event r = (r', Ok (Some click)).
Proof.
  destruct (push INPUT_RING_BYTES (to_bytes click) (new INPUT_RING_BYTES)) as [r o] eqn:Hpush.
  assert (Ho : o = Ok tt) by (change o with ((r, o).2); rewrite <- Hpush; vm_compute; reflexivity). subst o.
  exists r. pose proof (pushed_to_new INPUT_RING_BYTES _ r ltac:(done) ltac:(by exists (2 ^ 52)) ltac:(done) Hpush) as Hr.
  destruct (event_delivered (mkWorld r PIdle CIdle (to_bytes click) []) click [] Hr eq_refl ltac:(vm_compute; intuition congruence) eq_refl) as (r' & Hpop & _).
  exists r'. split; [unfold push_event; rewrite Hpush; reflexivity|exact Hpop].
Defined.

Lemma drain_executes_first_frame_witness :
  let frames := end_frame (build red_square) ++ end_frame (build [DrawRect (mkRect 0 0 8 8 0 0)]) in
  exists r r', push 256 frames (new 256) = (r, Ok tt) /\ drain 256 (replicate 256 0) r = (r', Ok (Some (red_square, Ok 47))).
Proof.
  intros frames. destruct (push 256 frames (new 256)) as [r o] eqn:Hpush.
  assert (Ho : o = Ok tt) by (change o with ((r, o).2); rewrite <- Hpush; vm_compute; reflexivity). subst o.
  exists r. assert (Hd : (256 | 2 ^ 64)) by (by exists (2 ^ 56)). pose proof (pushed_to_new 256 frames r ltac:(done) Hd ltac:(done) Hpush) as Hr.
  destruct (drain_executes_first_frame 256 (mkWorld r PIdle CIdle frames []) (replicate 256 0) red_square (end_frame (build [DrawRect (mkRect 0 0 8 8 0 0)]))
    ltac:(done) Hd ltac:(done) Hr eq_refl eq_refl red_square_ok eq_refl) as (r' & Hdr & _).
  exists r'. split; [reflexivity|exact Hdr].
Defined.

End DisplayList.
