(* ===== verification/Fbp.v ===== *)
(** The Folkering Binary Protocol (src/tools/fbp-rs/src/lib.rs): the zero-copy
    parser of state updates and interaction events and the encoder of the
    [alloc] feature, with its string interner.

    A buffer is its bytes and its address, which the parser checks for
    alignment.  Node structures are read from the buffer, so a parsed update
    holds their list. *)

From S2P Require Import Prelude Bytes.

#[local] Open Scope kernel_scope.

Module Fbp.

Definition FBP_MAGIC : Z := 0x4B4C4F46.
Definition MSG_DOM_STATE_UPDATE : Z := 0x01.
Definition MSG_INTERACTION_EVENT : Z := 0x02.
Definition HEADER_SIZE : Z := 32.
Definition NODE_SIZE : Z := 48.

(** [NodeFlags::contains] *)
Definition contains (flags other : Z) : bool := Z.land flags other =? other.

Record SemanticNode : Type := mkNode {
  tag_offset : Z; tag_len : Z; flags : Z; text_offset : Z; text_len : Z; parent_id : Z; first_child_id : Z; last_child_id : Z;
  next_sibling_id : Z; bounds_x : Z; bounds_y : Z; bounds_w : Z; bounds_h : Z;
}.

Inductive ParseError : Type :=
| TooShort (have need : Z)
| BadMagic (got : Z)
| WrongMsgType (got : Z)
| StringPoolOverflow
| NodeSliceMisaligned
| NodeSliceOverflow.

Record StateUpdate : Type := mkUpdate { page_id : Z; viewport_w : Z; viewport_h : Z; string_pool : list Z; nodes : list SemanticNode }.

Definition len (l : list Z) : Z := Z.of_nat (length l).

(** [buf[off..off + n]] *)
Definition slice (off n : Z) (buf : list Z) : list Z := take (Z.to_nat n) (drop (Z.to_nat off) buf).

Definition read_le (n off : Z) (buf : list Z) : Z := from_le_bytes (slice off n buf).

(** [as i32] of a 32-bit word. *)
Definition i32 (z : Z) : Z := (z + 2 ^ 31) mod 2 ^ 32 - 2 ^ 31.

(** ** The parser *)

(** [tag] and [text]: a range of the pool, empty when it is not inside. *)
Definition pool_string (pool : list Z) (off n : Z) : list Z :=
  match checked_add 64 off n with
  | Some stop => if stop <=? len pool then slice off n pool else []
  | None => []
  end.

Definition tag (u : StateUpdate) (node : SemanticNode) : list Z := pool_string (string_pool u) (tag_offset node) (tag_len node).
Definition text (u : StateUpdate) (node : SemanticNode) : list Z := pool_string (string_pool u) (text_offset node) (text_len node).

(** The structure at offset [at_] of the buffer. *)
Definition node_at (buf : list Z) (at_ : Z) : SemanticNode :=
  mkNode (read_le 4 at_ buf) (read_le 2 (at_ + 4) buf) (read_le 2 (at_ + 6) buf) (read_le 4 (at_ + 8) buf) (read_le 4 (at_ + 12) buf)
    (read_le 4 (at_ + 16) buf) (read_le 4 (at_ + 20) buf) (read_le 4 (at_ + 24) buf) (read_le 4 (at_ + 28) buf)
    (i32 (read_le 4 (at_ + 32) buf)) (i32 (read_le 4 (at_ + 36) buf)) (read_le 4 (at_ + 40) buf) (read_le 4 (at_ + 44) buf).

(** [len.wrapping_neg() & 7] *)
Definition pad_to_8 (n : Z) : Z := Z.land (u64 (- n)) 7.

Definition checked_mul (w a b : Z) : option Z := if a * b <? 2 ^ w then Some (a * b) else None.

Definition ok_or {A} (o : option A) (e : ParseError) : outcome ParseError A := match o with Some a => Ok a | None => Err e end.

(** [ptr] is the address of the buffer. *)
Definition parse_state_update (ptr : Z) (buf : list Z) : outcome ParseError StateUpdate :=
  if len buf <? HEADER_SIZE then Err (TooShort (len buf) HEADER_SIZE) else
  let magic := read_le 4 0 buf in
  if negb (magic =? FBP_MAGIC) then Err (BadMagic magic) else
  let msg_type := read_le 1 4 buf in
  if negb (msg_type =? MSG_DOM_STATE_UPDATE) then Err (WrongMsgType msg_type) else
  let pool_len := read_le 4 16 buf in
  let node_count := read_le 4 20 buf in
  let? pool_end := ok_or (checked_add 64 HEADER_SIZE pool_len) StringPoolOverflow in
  if len buf <? pool_end then Err (TooShort (len buf) pool_end) else
  let nodes_offset := u64 (pool_end + pad_to_8 pool_end) in
  let? nodes_byte_len := ok_or (checked_mul 64 node_count NODE_SIZE) NodeSliceOverflow in
  let? nodes_end := ok_or (checked_add 64 nodes_offset nodes_byte_len) NodeSliceOverflow in
  if len buf <? nodes_end then Err (TooShort (len buf) nodes_end) else
  if negb (Z.land (u64 (ptr + nodes_offset)) 3 =? 0) then Err NodeSliceMisaligned else
  Ok (mkUpdate (read_le 8 8 buf) (read_le 4 24 buf) (read_le 4 28 buf) (slice HEADER_SIZE pool_len buf)
        ((fun i => node_at buf (nodes_offset + i * NODE_SIZE)) <$> seqZ 0 node_count)).

Record InteractionEvent : Type := mkInteraction { action : Z; node_id : Z; data : list Z }.

Definition parse_interaction_event (buf : list Z) : outcome ParseError InteractionEvent :=
  if len buf <? 12 then Err (TooShort (len buf) 12) else
  let msg_type := read_le 1 0 buf in
  if negb (msg_type =? MSG_INTERACTION_EVENT) then Err (WrongMsgType msg_type) else
  let data_len := read_le 4 8 buf in
  let? stop := ok_or (checked_add 64 12 data_len) NodeSliceOverflow in
  if len buf <? stop then Err (TooShort (len buf) stop) else
  Ok (mkInteraction (read_le 1 1 buf) (read_le 4 4 buf) (slice 12 data_len buf)).

(** ** The encoder *)

Record OwnedNode : Type := mkOwned {
  o_tag : list Z; o_text : list Z; o_flags : Z; o_parent : Z; o_first_child : Z; o_last_child : Z; o_next_sibling : Z;
  o_bounds_x : Z; o_bounds_y : Z; o_bounds_w : Z; o_bounds_h : Z;
}.

(** An entry is a hash, an offset and a length. *)
Record StringInterner : Type := mkInterner { buf : list Z; entries : list (Z * Z * Z) }.

Definition interner_new : StringInterner := mkInterner [] [].

Definition fnv1a (bytes : list Z) : Z := fold_left (fun h b => u64 (Z.lxor h b * 0x100000001b3)) bytes 0xcbf29ce484222325.

(** The first entry with these bytes. *)
Definition interned (s : list Z) (it : StringInterner) : option (Z * Z * Z) :=
  List.find (fun '(h, off, n) => (h =? fnv1a s) && (n =? len s) && bool_decide (slice off n (buf it) = s)) (entries it).

Definition intern (s : list Z) (it : StringInterner) : StringInterner * (Z * Z) :=
  match s with
  | [] => (it, (0, 0))
  | _ =>
      match interned s it with
      | Some (_, off, n) => (it, (off, n))
      | None =>
          let off := u32 (len (buf it)) in
          let n := Z.min (len s) U16_MAX in
          (mkInterner (buf it ++ take (Z.to_nat n) s) (entries it ++ [(fnv1a s, off, n)]), (off, n))
      end
  end.

Fixpoint intern_all (ns : list OwnedNode) (it : StringInterner) : StringInterner * list ((Z * Z) * (Z * Z)) :=
  match ns with
  | [] => (it, [])
  | n :: ns =>
      let (it, t) := intern (o_tag n) it in
      let (it, x) := intern (o_text n) it in
      let (it, refs) := intern_all ns it in (it, (t, x) :: refs)
  end.

Definition node_bytes (n : OwnedNode) (r : (Z * Z) * (Z * Z)) : list Z :=
  let '((tag_off, tag_len), (text_off, text_len)) := r in
  le_bytes 4 tag_off ++ le_bytes 2 (u16 tag_len) ++ le_bytes 2 (o_flags n) ++ le_bytes 4 text_off ++ le_bytes 4 text_len ++
  le_bytes 4 (o_parent n) ++ le_bytes 4 (o_first_child n) ++ le_bytes 4 (o_last_child n) ++ le_bytes 4 (o_next_sibling n) ++
  le_bytes 4 (o_bounds_x n) ++ le_bytes 4 (o_bounds_y n) ++ le_bytes 4 (o_bounds_w n) ++ le_bytes 4 (o_bounds_h n).

Definition header_bytes (page_id pool_len node_count viewport_w viewport_h : Z) : list Z :=
  le_bytes 4 FBP_MAGIC ++ [MSG_DOM_STATE_UPDATE; 0; 0; 0] ++ le_bytes 8 page_id ++ le_bytes 4 (u32 pool_len) ++
  le_bytes 4 (u32 node_count) ++ le_bytes 4 viewport_w ++ le_bytes 4 viewport_h.

Definition serialize_state_update (ns : list OwnedNode) (viewport_w viewport_h page_id : Z) : list Z :=
  let (it, refs) := intern_all ns interner_new in
  let pool := buf it in
  let pad := pad_to_8 (HEADER_SIZE + len pool) in
  header_bytes page_id (len pool) (Z.of_nat (length ns)) viewport_w viewport_h ++ pool ++ replicate (Z.to_nat pad) 0 ++
  concat (zip_with node_bytes ns refs).

Definition serialize_interaction_event (action node_id : Z) (data : list Z) : list Z :=
  [MSG_INTERACTION_EVENT; action; 0; 0] ++ le_bytes 4 node_id ++ le_bytes 4 (u32 (len data)) ++ data.

(** ** Slices *)

Lemma slice_app_l off n l r : 0 <= off -> 0 <= n -> off + n <= len l -> slice off n (l ++ r) = slice off n l.
Proof. unfold slice, len. intros. rewrite drop_app_le by lia. by rewrite take_app_le by (rewrite length_drop; lia). Qed.

Lemma slice_prefix off n l l' : 0 <= off -> 0 <= n -> off + n <= len l -> l `prefix_of` l' -> slice off n l' = slice off n l.
Proof. intros ? ? ? [r ->]. by apply slice_app_l. Qed.

Lemma slice_app_r l off n r : len l <= off -> slice off n (l ++ r) = slice (off - len l) n r.
Proof. unfold slice, len. intros. rewrite drop_app_ge by lia. do 2 f_equal. lia. Qed.

Lemma slice_slice off n off' n' l : 0 <= off -> 0 <= off' -> 0 <= n' -> off' + n' <= n -> slice off' n' (slice off n l) = slice (off + off') n' l.
Proof.
  unfold slice. intros. rewrite skipn_firstn_comm, take_take, drop_drop. f_equal; [lia|]. f_equal. lia.
Qed.

Lemma len_app l r : len (l ++ r) = len l + len r.
Proof. unfold len. rewrite length_app. lia. Qed.

(** ** The interner *)

Definition entry_ok (it : StringInterner) (e : Z * Z * Z) : Prop :=
  let '(_, off, n) := e in 0 <= off /\ 0 <= n /\ off + n <= len (buf it).

Definition interner_ok (it : StringInterner) : Prop := Forall (entry_ok it) (entries it).

(** [off] and [n] are where the pool holds [s]. *)
Definition stored (pool s : list Z) (r : Z * Z) : Prop :=
  0 <= r.1 /\ r.2 = len s /\ r.1 + r.2 <= len pool /\ slice r.1 r.2 pool = s.

Lemma stored_prefix pool pool' s r : stored pool s r -> pool `prefix_of` pool' -> stored pool' s r.
Proof.
  intros (H1 & H2 & H3 & H4) Hp. pose proof (prefix_length _ _ Hp) as Hl. split; [done|]. split; [done|]. split; [unfold len in *; lia|].
  rewrite (slice_prefix _ _ pool) by (done || unfold len in *; lia). done.
Qed.

Lemma intern_ok s it it' r :
  interner_ok it -> len s <= U16_MAX -> len (buf it) + len s < 2 ^ 32 -> intern s it = (it', r) ->
  interner_ok it' /\ buf it `prefix_of` buf it' /\ len (buf it') <= len (buf it) + len s /\ stored (buf it') s r.
Proof.
  intros Hok Hs Hb. unfold intern. destruct s as [|b s0].
  { intros [= <- <-]. split; [done|]. split; [done|]. split; [unfold len; cbn; lia|]. unfold stored, len; cbn. split; [done|]. split; [done|]. split; [lia|done]. }
  set (s := b :: s0) in *. destruct (interned s it) as [[[h off] n]|] eqn:Hf.
  - intros [= <- <-]. unfold interned in Hf. apply List.find_some in Hf as [Hin Ht].
    apply andb_true_iff in Ht as [Ht Hsl]. apply andb_true_iff in Ht as [_ Hn]. apply bool_decide_eq_true in Hsl. apply Z.eqb_eq in Hn.
    unfold interner_ok in Hok. rewrite List.Forall_forall in Hok. destruct (Hok _ Hin) as (H1 & H2 & H3).
    split; [by apply List.Forall_forall|]. split; [done|]. split; [unfold len; lia|]. done.
  - intros [= <- <-]. cbn [buf entries]. rewrite Z.min_l by done. rewrite take_ge by (unfold len; lia).
    rewrite wrap_small by (unfold in_width, len in *; lia). split.
    + unfold interner_ok. cbn [entries]. rewrite Forall_app. split.
      * eapply Forall_impl; [exact Hok|]. intros [[h off] n] (H1 & H2 & H3). cbn [buf]. split; [done|]. split; [done|]. cbn [buf].
        rewrite len_app. unfold len in *. lia.
      * apply Forall_cons. split; [|by apply Forall_nil]. cbn [buf]. unfold entry_ok. cbn [buf]. rewrite len_app. unfold len. lia.
    + split; [by eexists|]. split; [rewrite len_app; lia|]. split; [cbn; unfold len; lia|]. split; [done|]. cbn [fst snd]. rewrite len_app. split; [lia|].
      rewrite slice_app_r by lia. rewrite Z.sub_diag. unfold slice. cbn [drop Z.to_nat]. apply take_ge. unfold len. lia.
Qed.

(** A node whose strings the encoder does not cut and whose fields are in their
    types. *)
Definition owned_ok (n : OwnedNode) : Prop :=
  len (o_tag n) <= U16_MAX /\ len (o_text n) <= U16_MAX /\ in_width 16 (o_flags n) /\
  in_width 32 (o_parent n) /\ in_width 32 (o_first_child n) /\ in_width 32 (o_last_child n) /\ in_width 32 (o_next_sibling n) /\
  - 2 ^ 31 <= o_bounds_x n < 2 ^ 31 /\ - 2 ^ 31 <= o_bounds_y n < 2 ^ 31 /\ in_width 32 (o_bounds_w n) /\ in_width 32 (o_bounds_h n).

Definition strings_len (ns : list OwnedNode) : Z := fold_right (fun n t => len (o_tag n) + len (o_text n) + t) 0 ns.

Definition refs_ok (pool : list Z) (n : OwnedNode) (r : (Z * Z) * (Z * Z)) : Prop := stored pool (o_tag n) r.1 /\ stored pool (o_text n) r.2.

Lemma strings_len_cons n ns : strings_len (n :: ns) = len (o_tag n) + len (o_text n) + strings_len ns.
Proof. done. Qed.

Lemma strings_len_nonneg ns : 0 <= strings_len ns.
Proof. induction ns as [|n ns IH]; [done|]. rewrite strings_len_cons. unfold len. lia. Qed.

Lemma intern_all_ok ns it it' refs :
  Forall owned_ok ns -> interner_ok it -> len (buf it) + strings_len ns < 2 ^ 32 -> intern_all ns it = (it', refs) ->
  buf it `prefix_of` buf it' /\ len (buf it') <= len (buf it) + strings_len ns /\ Forall2 (refs_ok (buf it')) ns refs.
Proof.
  intros Hns. revert it it' refs. induction Hns as [|n ns Hn _ IH]; intros it it' refs Hok Hb; cbn [intern_all].
  { intros [= <- <-]. split; [done|]. split; [cbn; lia|constructor]. }
  rewrite strings_len_cons in Hb |- *.
  destruct (intern (o_tag n) it) as [it1 t] eqn:H1. destruct (intern (o_text n) it1) as [it2 x] eqn:H2.
  destruct (intern_all ns it2) as [it3 rs] eqn:H3. intros [= <- <-]. destruct Hn as (Htag & Htext & _).
  pose proof (strings_len_nonneg ns) as Hsl. assert (0 <= len (o_text n)) by (unfold len; lia).
  destruct (intern_ok _ _ _ _ Hok Htag ltac:(lia) H1) as (Hok1 & Hp1 & Hl1 & Hs1).
  destruct (intern_ok _ _ _ _ Hok1 Htext ltac:(lia) H2) as (Hok2 & Hp2 & Hl2 & Hs2).
  destruct (IH _ _ _ Hok2 ltac:(lia) H3) as (Hp3 & Hl3 & HF).
  split; [by etrans; [|etrans]|]. split; [lia|]. constructor; [|done]. split; cbn [fst snd].
  - eapply stored_prefix; [exact Hs1|by etrans].
  - by eapply stored_prefix.
Qed.

(** ** Nodes in the buffer *)

Lemma read_le_slice n off o k l : 0 <= o -> 0 <= off -> 0 <= n -> off + n <= k -> read_le n (o + off) l = read_le n off (slice o k l).
Proof. intros. unfold read_le. by rewrite slice_slice. Qed.

(** A node is what the 48 bytes at its offset hold. *)
Lemma node_at_slice l o : 0 <= o -> node_at l o = node_at (slice o 48 l) 0.
Proof. intros Ho. unfold node_at. rewrite <- (Z.add_0_r o) at 1. by rewrite !(read_le_slice _ _ o 48) by lia. Qed.

Lemma word_as_i32 z : - 2 ^ 31 <= z < 2 ^ 31 -> i32 (z mod 2 ^ 32) = z.
Proof. intros Hz. unfold i32. rewrite Zplus_mod_idemp_l, Z.mod_small by lia. lia. Qed.

Ltac field_word p n off v := change (read_le n off p) with (from_le_bytes (le_bytes (Z.to_nat n) v)).

(** A node of the encoder, read back. *)
Definition node_of (n : OwnedNode) (r : (Z * Z) * (Z * Z)) : SemanticNode :=
  mkNode r.1.1 r.1.2 (o_flags n) r.2.1 r.2.2 (o_parent n) (o_first_child n) (o_last_child n) (o_next_sibling n)
    (o_bounds_x n) (o_bounds_y n) (o_bounds_w n) (o_bounds_h n).

Lemma node_bytes_len n r : len (node_bytes n r) = 48.
Proof. by destruct r as [[? ?] [? ?]]. Qed.

Lemma read_node_bytes n r pool :
  owned_ok n -> refs_ok pool n r -> len pool < 2 ^ 32 -> node_at (node_bytes n r) 0 = node_of n r.
Proof.
  destruct n as [tg tx fl pa fc lc ns bx by_ bw bh]. destruct r as [[t tl] [x xl]].
  intros (Htg & Htx & Hfl & Hpa & Hfc & Hlc & Hns & Hbx & Hby & Hbw & Hbh) [(T1 & T2 & T3 & _) (X1 & X2 & X3 & _)] Hp.
  cbn [o_tag o_text o_flags o_parent o_first_child o_last_child o_next_sibling o_bounds_x o_bounds_y o_bounds_w o_bounds_h fst snd] in *.
  assert (Ht : in_width 32 t /\ in_width 16 tl /\ in_width 32 x /\ in_width 32 xl) by (unfold in_width, U16_MAX, len in *; lia).
  destruct Ht as (Wt & Wtl & Wx & Wxl). unfold node_at. rewrite !Z.add_0_l. set (p := node_bytes _ _).
  field_word p 4 0 t. field_word p 2 4 (u16 tl). field_word p 2 6 fl. field_word p 4 8 x. field_word p 4 12 xl. field_word p 4 16 pa.
  field_word p 4 20 fc. field_word p 4 24 lc. field_word p 4 28 ns. field_word p 4 32 bx. field_word p 4 36 by_. field_word p 4 40 bw.
  field_word p 4 44 bh. rewrite !from_to_le_bytes.
  change (8 * Z.of_nat (Z.to_nat 4)) with 32. change (8 * Z.of_nat (Z.to_nat 2)) with 16. rewrite (wrap_small 16) by done.
  rewrite !word_as_i32 by done. rewrite !Z.mod_small by done. done.
Qed.

(** A block of a concatenation of blocks of the same length. *)
Lemma concat_block (ls : list (list Z)) k i b :
  0 <= k -> Forall (fun l => len l = k) ls -> ls !! i = Some b -> slice (Z.of_nat i * k) k (concat ls) = b.
Proof.
  intros Hk HF. revert i. induction HF as [|l ls Hl _ IH]; intros [|i] Hi; try done; cbn [lookup list_lookup concat] in *.
  - injection Hi as ->. rewrite slice_app_l by lia. unfold slice. cbn [drop Z.to_nat Z.of_nat Z.mul]. apply take_ge. unfold len in *. lia.
  - rewrite slice_app_r by lia. rewrite Hl. replace (Z.of_nat (S i) * k - k) with (Z.of_nat i * k) by lia. by apply IH.
Qed.

Lemma concat_len (ls : list (list Z)) k : Forall (fun l => len l = k) ls -> len (concat ls) = Z.of_nat (length ls) * k.
Proof. induction 1 as [|l ls Hl _ IH]; [done|]. cbn [concat length]. rewrite len_app. lia. Qed.

(** Padding takes an offset to the next multiple of eight. *)
Lemma pad_spec n : 0 <= n -> 0 <= pad_to_8 n < 8 /\ (n + pad_to_8 n) mod 8 = 0.
Proof.
  intros Hn. unfold pad_to_8. change 7 with (2 ^ 3 - 1). rewrite land_ones_mod by lia. unfold wrap.
  rewrite Z.mod_mod_divide by (by exists (2 ^ 61)). change (2 ^ 3) with 8. split; [by apply Z.mod_pos_bound|].
  rewrite Zplus_mod_idemp_r. by rewrite Z.add_opp_diag_r.
Qed.

Lemma pool_string_stored pool s r : stored pool s r -> len pool < 2 ^ 32 -> pool_string pool r.1 r.2 = s.
Proof.
  intros (H1 & H2 & H3 & H4) Hp. unfold pool_string, checked_add. assert (0 <= r.2) by (rewrite H2; unfold len; lia).
  rewrite (proj2 (Z.ltb_lt _ _)) by lia. by rewrite (proj2 (Z.leb_le _ _)).
Qed.

(** The node [s] of the update [u] is the node [n] of the encoder. *)
Definition same_node (u : StateUpdate) (n : OwnedNode) (s : SemanticNode) : Prop :=
  tag u s = o_tag n /\ text u s = o_text n /\ flags s = o_flags n /\ parent_id s = o_parent n /\ first_child_id s = o_first_child n /\
  last_child_id s = o_last_child n /\ next_sibling_id s = o_next_sibling n /\ bounds_x s = o_bounds_x n /\ bounds_y s = o_bounds_y n /\
  bounds_w s = o_bounds_w n /\ bounds_h s = o_bounds_h n.

(** Parsing a buffer laid out as the encoder lays it out. *)
Lemma parse_layout ptr pid vw vh pool pad (blocks : list (list Z)) :
  in_width 64 pid -> in_width 32 vw -> in_width 32 vh -> len pool < 2 ^ 32 -> Z.of_nat (length blocks) < 2 ^ 32 ->
  pad = pad_to_8 (HEADER_SIZE + len pool) -> Forall (fun l => len l = 48) blocks -> 0 <= ptr -> ptr mod 4 = 0 ->
  parse_state_update ptr (header_bytes pid (len pool) (Z.of_nat (length blocks)) vw vh ++ pool ++ replicate (Z.to_nat pad) 0 ++ concat blocks) =
    Ok (mkUpdate pid vw vh pool ((fun b => node_at b 0) <$> blocks)).
Proof.
  intros Hpid Hvw Hvh Hp Hk -> Hbl Hptr Hal. set (P := len pool) in *. set (k := Z.of_nat (length blocks)) in *.
  assert (HP : 0 <= P) by (unfold P, len; lia). destruct (pad_spec (HEADER_SIZE + P)) as [Hpad Hmul]; [unfold HEADER_SIZE; lia|].
  set (pad := pad_to_8 (HEADER_SIZE + P)) in *. set (hd := header_bytes pid P k vw vh). set (body := concat blocks).
  assert (Hhd : len hd = 32) by done. assert (Hbody : len body = k * 48) by (by apply concat_len).
  assert (Hz : len (replicate (Z.to_nat pad) 0) = pad) by (unfold len; rewrite length_replicate; lia).
  assert (Hlen : len (hd ++ pool ++ replicate (Z.to_nat pad) 0 ++ body) = 32 + P + pad + k * 48) by (rewrite !len_app; lia).
  unfold parse_state_update. rewrite Hlen. unfold HEADER_SIZE, NODE_SIZE in *. rewrite (proj2 (Z.ltb_ge _ _)) by lia.
  set (out := hd ++ _) in *.
  field_word out 4 0 FBP_MAGIC. change (read_le 1 4 out) with 1. field_word out 4 16 (u32 P). field_word out 4 20 (u32 k).
  field_word out 8 8 pid. field_word out 4 24 vw. field_word out 4 28 vh.
  rewrite !from_to_le_bytes. change (8 * Z.of_nat (Z.to_nat 4)) with 32. change (8 * Z.of_nat (Z.to_nat 8)) with 64.
  rewrite (Z.mod_small pid), (Z.mod_small vw), (Z.mod_small vh) by done. rewrite !(wrap_small 32) by (unfold in_width; lia).
  rewrite (Z.mod_small P), (Z.mod_small k) by (unfold k; lia). change (negb (FBP_MAGIC mod 2 ^ 32 =? FBP_MAGIC)) with false.
  change (negb (1 =? MSG_DOM_STATE_UPDATE)) with false. cbv iota.
  unfold checked_add at 1. rewrite (proj2 (Z.ltb_lt (32 + P) _)) by lia. cbn [ok_or obind].
  rewrite (proj2 (Z.ltb_ge _ (32 + P))) by lia. fold pad. rewrite wrap_small by (unfold in_width; lia).
  unfold checked_mul. rewrite (proj2 (Z.ltb_lt (k * 48) _)) by lia. cbn [ok_or obind].
  unfold checked_add. rewrite (proj2 (Z.ltb_lt (32 + P + pad + k * 48) _)) by lia. cbn [ok_or obind].
  rewrite (proj2 (Z.ltb_ge _ _)) by lia.
  assert (Ha : Z.land (u64 (ptr + (32 + P + pad))) 3 = 0).
  { change 3 with (2 ^ 2 - 1). rewrite land_ones_mod by lia. unfold wrap. rewrite Z.mod_mod_divide by (by exists (2 ^ 62)).
    change (2 ^ 2) with 4. rewrite Zplus_mod, Hal, Z.add_0_l, Z.mod_mod by lia.
    rewrite <- (Z.mod_mod_divide _ 8 4) by (by exists 2). by rewrite Hmul. }
  rewrite Ha. cbn [Z.eqb negb]. do 2 f_equal.
  - unfold out. rewrite slice_app_r by lia. rewrite Hhd, Z.sub_diag, slice_app_l by lia. unfold slice. cbn [drop Z.to_nat].
    apply take_ge. unfold P, len. lia.
  - apply list_eq_same_length with (n := length blocks); [by rewrite length_fmap|rewrite length_fmap, length_seqZ; unfold k; lia|].
    intros i x y Hi Hx Hy. rewrite list_lookup_fmap in Hx. rewrite list_lookup_fmap in Hy. destruct (lookup_lt_is_Some_2 blocks i Hi) as [bl Hb].
    rewrite Hb in Hy. injection Hy as <-. rewrite lookup_seqZ_lt in Hx by (unfold k; lia). injection Hx as <-.
    rewrite node_at_slice by lia. f_equal. unfold out.
    rewrite !slice_app_r by (rewrite ?Hhd, ?Hz; fold P; lia). rewrite Hhd, Hz. fold P.
    replace (32 + P + pad + (0 + Z.of_nat i) * 48 - 32 - P - pad) with (Z.of_nat i * 48) by lia. by apply (concat_block blocks 48).
Qed.

(** C29: What the encoder makes of a page whose tags and texts have at most 65535
    bytes each, below 4 GiB in all, is parsed, at any aligned address, to the same
    page: its identity and viewport, and node by node the tag, the text, the links
    and the bounds. *)
Theorem fbp_roundtrip ns vw vh pid ptr :
  Forall owned_ok ns -> strings_len ns < 2 ^ 32 -> Z.of_nat (length ns) < 2 ^ 32 ->
  in_width 32 vw -> in_width 32 vh -> in_width 64 pid -> 0 <= ptr -> ptr mod 4 = 0 ->
  exists u, parse_state_update ptr (serialize_state_update ns vw vh pid) = Ok u /\
    page_id u = pid /\ viewport_w u = vw /\ viewport_h u = vh /\ Forall2 (same_node u) ns (nodes u).
Proof.
  intros Hns Hs Hk Hvw Hvh Hpid Hp Hal. unfold serialize_state_update. destruct (intern_all ns interner_new) as [it refs] eqn:Hi.
  destruct (intern_all_ok ns interner_new it refs Hns) as (_ & Hl & HF); [by apply Forall_nil|done|done|].
  cbn [buf interner_new] in Hl. change (len []) with 0 in Hl. set (pool := buf it) in *.
  assert (Hbl : length (zip_with node_bytes ns refs) = length ns) by (rewrite length_zip_with, <- (Forall2_length _ _ _ HF); lia).
  assert (H48 : Forall (fun l => len l = 48) (zip_with node_bytes ns refs)).
  { apply Forall_forall. intros l Hin. apply list_elem_of_lookup in Hin as [i Hin]. rewrite lookup_zip_with in Hin.
    apply bind_Some in Hin as (n & _ & Hin). apply bind_Some in Hin as (r & _ & Hin). injection Hin as <-. apply node_bytes_len. }
  eexists. split; [rewrite <- Hbl; apply parse_layout; rewrite ?Hbl; try done; lia|]. split; [done|]. split; [done|]. split; [done|].
  cbn [nodes]. assert (Hpool : len pool < 2 ^ 32) by lia. clear Hk Hs Hi Hbl H48 Hl. set (u := mkUpdate _ _ _ _ _). assert (Hu : string_pool u = pool) by done. revert Hu. generalize u. clear u.
  intros u Hu. revert Hns. induction HF as [|n r ns refs [Ht Hx] HF IH]; intros Hns; [constructor|].
  apply Forall_cons in Hns as [Hn Hns]. cbn [zip_with fmap list_fmap]. constructor; [|by apply IH].
  rewrite (read_node_bytes n r pool) by (done || lia). unfold same_node, tag, text. rewrite Hu. cbn [node_of tag_offset tag_len text_offset text_len].
  rewrite (pool_string_stored _ _ _ Ht), (pool_string_stored _ _ _ Hx) by lia. done.
Qed.

(** An interaction event is parsed back, whatever follows it. *)
Theorem interaction_roundtrip action node_id data rest :
  byte action -> in_width 32 node_id -> len data < 2 ^ 32 ->
  parse_interaction_event (serialize_interaction_event action node_id data ++ rest) = Ok (mkInteraction action node_id data).
Proof.
  intros Ha Hn Hd. assert (Hd0 : 0 <= len data) by (unfold len; lia).
  assert (Hl : len (serialize_interaction_event action node_id data ++ rest) = 12 + len data + len rest).
  { unfold serialize_interaction_event. rewrite !len_app. unfold len. cbn [length]. rewrite !le_bytes_length. lia. }
  unfold parse_interaction_event. rewrite Hl. assert (0 <= len rest) by (unfold len; lia). rewrite (proj2 (Z.ltb_ge _ _)) by lia.
  set (out := _ ++ rest). change (read_le 1 0 out) with 2. field_word out 4 8 (u32 (len data)). field_word out 4 4 node_id.
  change (read_le 1 1 out) with (action + 256 * 0). rewrite Z.add_0_r. rewrite !from_to_le_bytes. change (8 * Z.of_nat (Z.to_nat 4)) with 32.
  rewrite (wrap_small 32) by (unfold in_width; lia). rewrite (Z.mod_small node_id), (Z.mod_small (len data)) by (done || lia).
  change (negb (2 =? MSG_INTERACTION_EVENT)) with false. cbv iota. unfold checked_add. rewrite (proj2 (Z.ltb_lt _ _)) by lia.
  cbn [ok_or obind]. rewrite (proj2 (Z.ltb_ge _ _)) by lia. do 2 f_equal.
  change (slice 12 (len data) out) with (take (Z.to_nat (len data)) (data ++ rest)). replace (Z.to_nat (len data)) with (length data) by (unfold len; lia).
  apply take_app_length.
Qed.

(** ** A page *)

Definition page : list OwnedNode :=
  [mkOwned [100; 105; 118] [] 2 0 2 2 0 0 0 1024 768;
   mkOwned [97] [104; 105] 0x23 1 0 0 0 (-8) 16 40 12].

Lemma page_ok : Forall owned_ok page.
Proof. constructor; [|constructor; [|constructor]]; vm_compute; intuition congruence. Qed.

Lemma fbp_roundtrip_witness :
  exists u, parse_state_update 0x1000 (serialize_state_update page 1024 768 7) = Ok u /\ page_id u = 7 /\
    tag u <$> nodes u = [[100; 105; 118]; [97]] /\ text u <$> nodes u = [[]; [104; 105]].
Proof.
  destruct (fbp_roundtrip page 1024 768 7 0x1000 page_ok) as (u & Hu & Hp & _ & _ & HF);
    [vm_compute; reflexivity|vm_compute; reflexivity|done|done|done|done|done|]. exists u. split; [exact Hu|]. split; [exact Hp|].
  inversion HF as [|n1 s1 ns ss (H1 & H2 & _) HF1 E1 E2]. inversion HF1 as [|n2 s2 ns' ss' (H3 & H4 & _) HF2 E3 E4]. inversion HF2.
  cbn [fmap list_fmap]. rewrite H1, H2, H3, H4. split; reflexivity.
Defined.

Lemma interaction_roundtrip_witness :
  parse_interaction_event (serialize_interaction_event 1 5 [104; 105] ++ [9]) = Ok (mkInteraction 1 5 [104; 105]).
Proof. exact (interaction_roundtrip 1 5 [104; 105] [9] ltac:(done) ltac:(done) ltac:(done)). Defined.

(** The encoder cuts a string at 65535 bytes, a text too, whose length has 32 bits. *)
Theorem long_text_is_cut s :
  65535 < len s -> (intern s interner_new).2 = (0, 65535) /\ len (buf (intern s interner_new).1) = 65535.
Proof.
  intros Hs. unfold intern. destruct s as [|b s]; [done|]. set (t := b :: s) in *. cbn [interned entries interner_new List.find fst snd buf app].
  rewrite Z.min_r by (unfold U16_MAX; lia). split; [done|]. unfold len in *. rewrite length_take. unfold U16_MAX in *. lia.
Qed.

End Fbp.
