(* ===== verification/Firewall.v ===== *)
(** The packet filter of the kernel (src/kernel/src/net/firewall.rs).

    The statics are one record.  The tracker's array and its length are the list
    of the entries in use: a slot behind the length is never read.  Two locks
    are taken with [try_lock] from interrupt context; what they find is part of
    the environment of a call, with the uptime it reads. *)

From S2P Require Import Prelude.

#[local] Open Scope kernel_scope.

Module Firewall.

Inductive FirewallAction : Type := Allow | Drop.

Abbreviation Ip := (list Z).

Record SuspiciousPacket : Type := mkSuspicious { sp_src_ip : Ip; sp_dst_port : Z; sp_protocol : Z; sp_flags : Z; sp_timestamp : Z; sp_valid : bool }.

Definition EMPTY : SuspiciousPacket := mkSuspicious [0; 0; 0; 0] 0 0 0 0 false.
Definition QUEUE_SIZE : Z := 16.

Definition ETHERTYPE_ARP : Z := 0x0806.
Definition ETHERTYPE_IPV4 : Z := 0x0800.
Definition PROTO_ICMP : Z := 1.
Definition PROTO_TCP : Z := 6.
Definition PROTO_UDP : Z := 17.
Definition TCP_SYN : Z := 0x02.
Definition TCP_ACK : Z := 0x10.
Definition MAX_BLOCKLIST : nat := 16.
Definition BLOCK_DURATION_MS : Z := 120000.

(** [(ip, syn_count, last_seen_ms)] *)
Record Tracked : Type := mkTracked { t_ip : Ip; t_count : Z; t_last : Z }.

Record State : Type := mkState {
  entries : list SuspiciousPacket; write_head : Z; count : Z; DROPS : Z; ALLOWS : Z; BLOCKLIST : list Tracked; DROP_LOG_COUNT : Z;
}.

#[export] Instance eta_State : Eta State := fun s =>
  mkState (entries s) (write_head s) (count s) (DROPS s) (ALLOWS s) (BLOCKLIST s) (DROP_LOG_COUNT s).
#[export] Instance set_entries : Setter entries := ltac:(derive_setter).
#[export] Instance set_write_head : Setter write_head := ltac:(derive_setter).
#[export] Instance set_count : Setter count := ltac:(derive_setter).
#[export] Instance set_drops : Setter DROPS := ltac:(derive_setter).
#[export] Instance set_allows : Setter ALLOWS := ltac:(derive_setter).
#[export] Instance set_blocklist : Setter BLOCKLIST := ltac:(derive_setter).
#[export] Instance set_log : Setter DROP_LOG_COUNT := ltac:(derive_setter).

Definition initial : State := mkState (replicate 16 EMPTY) 0 0 0 0 [] 0.

(** The uptime in milliseconds, and whether the locks of the queue and of the
    tracker are free. *)
Record Env : Type := mkEnv { now : Z; queue_free : bool; list_free : bool }.

Abbreviation F := (M State Empty_set).

(** [frame[i]] *)
Definition at_ (frame : list Z) (i : Z) : F Z :=
  match frame !! Z.to_nat i with Some b => M_ret b | None => panic end.

Definition be16 (hi lo : Z) : Z := hi * 256 + lo.

(** ** The suspicious packets *)

Definition push (env : Env) (pkt : SuspiciousPacket) (s : State) : State :=
  let idx := write_head s mod QUEUE_SIZE in
  let s := s <| write_head := u64 (write_head s + 1) |> in
  let s := if queue_free env then s <| entries := <[Z.to_nat idx := pkt]> (entries s) |> else s in
  s <| count := u32 (count s + 1) |>.

(** What [recent] copies to the front of an output of [size] entries. *)
Definition recent (env : Env) (size : Z) (s : State) : list SuspiciousPacket :=
  let head := write_head s in
  let n := Z.min (Z.min size QUEUE_SIZE) head in
  if queue_free env then
    (fun i => nth (Z.to_nat (u64 (head - 1 - i) mod QUEUE_SIZE)) (entries s) EMPTY) <$> seqZ 0 n
  else [].

(** ** The tracker *)

Definition expired (now : Z) (t : Tracked) : bool := BLOCK_DURATION_MS <=? saturating_sub now (t_last t).

Definition is_blocked (env : Env) (ip : Ip) (s : State) : bool :=
  list_free env &&
  existsb (fun t => bool_decide (t_ip t = ip) && (3 <=? t_count t) && negb (expired (now env) t)) (BLOCKLIST s).

(** A further attempt of a tracked address. *)
Definition count_attempt (now : Z) (t : Tracked) : Tracked :=
  if (3 <=? t_count t) && expired now t then mkTracked (t_ip t) 1 now
  else mkTracked (t_ip t) (Z.min 255 (t_count t + 1)) now.

(** The loop over the tracked addresses. *)
Fixpoint bump (now : Z) (ip : Ip) (l : list Tracked) : option (list Tracked) :=
  match l with
  | [] => None
  | t :: l =>
      if bool_decide (t_ip t = ip) then Some (count_attempt now t :: l)
      else match bump now ip l with Some l => Some (t :: l) | None => None end
  end.

(** The loop over the full table: the entry of lowest rank, the first of them. *)
Fixpoint find_victim (now : Z) (l : list Tracked) (i : nat) (victim : option nat) (victim_rank : Z) : option nat :=
  match l with
  | [] => victim
  | t :: l =>
      let is_expired_block := (3 <=? t_count t) && expired now t in
      if (t_count t <? 3) || is_expired_block then
        let rank := if is_expired_block then 0 else t_count t in
        if rank <? victim_rank then find_victim now l (S i) (Some i) rank else find_victim now l (S i) victim victim_rank
      else find_victim now l (S i) victim victim_rank
  end.

Definition record_list (now : Z) (ip : Ip) (l : list Tracked) : list Tracked :=
  match bump now ip l with
  | Some l => l
  | None =>
      if (length l <? MAX_BLOCKLIST)%nat then l ++ [mkTracked ip 1 now] else
      match find_victim now l 0 None U8_MAX with
      | Some i => <[i := mkTracked ip 1 now]> l
      | None => l
      end
  end.

Definition record_syn_attempt (env : Env) (ip : Ip) (s : State) : State :=
  if list_free env then s <| BLOCKLIST := record_list (now env) ip (BLOCKLIST s) |> else s.

(** Addresses with three attempts, and all attempts. *)
Definition anomaly_stats (env : Env) (s : State) : Z * Z :=
  if list_free env then
    (u32 (Z.of_nat (length (List.filter (fun t => 3 <=? t_count t) (BLOCKLIST s)))), u32 (fold_right (fun t a => t_count t + a) 0 (BLOCKLIST s)))
  else (0, 0).

Definition log_drop (s : State) : State := s <| DROP_LOG_COUNT := u32 (DROP_LOG_COUNT s + 1) |>.

(** ** The filter *)

Definition allow : F FirewallAction := modify (fun s => s <| ALLOWS := u32 (ALLOWS s + 1) |>) ;;; M_ret Allow.
Definition drop_counted : F FirewallAction := modify (fun s => s <| DROPS := u32 (DROPS s + 1) |>) ;;; M_ret Drop.

Definition filter_tcp (env : Env) (frame : list Z) (transport_offset : Z) (src_ip : Ip) (dst_port : Z) : F FirewallAction :=
  if Z.of_nat (length frame) <? transport_offset + 14 then M_ret Drop else
  tcp_flags <- at_ frame (transport_offset + 13) ;;
  if negb (Z.land tcp_flags TCP_SYN =? 0) && (Z.land tcp_flags TCP_ACK =? 0) then
    if dst_port =? 2222 then allow else
    modify (record_syn_attempt env src_ip) ;;;
    modify log_drop ;;;
    modify (push env (mkSuspicious src_ip dst_port PROTO_TCP tcp_flags (now env) true)) ;;;
    drop_counted
  else allow.

Definition filter_packet (env : Env) (frame : list Z) : F FirewallAction :=
  let len := Z.of_nat (length frame) in
  if len <? 14 then M_ret Drop else
  e0 <- at_ frame 12 ;; e1 <- at_ frame 13 ;;
  let ethertype := be16 e0 e1 in
  if ethertype =? ETHERTYPE_ARP then allow else
  if negb (ethertype =? ETHERTYPE_IPV4) then allow else
  if len <? 34 then M_ret Drop else
  v <- at_ frame 14 ;;
  let ihl := Z.land v 0x0F in
  if ihl <? 5 then M_ret Drop else
  let ip_hdr_len := ihl * 4 in
  proto <- at_ frame (14 + 9) ;;
  a <- at_ frame (14 + 12) ;; b <- at_ frame (14 + 13) ;; c <- at_ frame (14 + 14) ;; d <- at_ frame (14 + 15) ;;
  let src_ip := [a; b; c; d] in
  if proto =? PROTO_ICMP then allow else
  let transport_offset := 14 + ip_hdr_len in
  if len <? transport_offset + 4 then M_ret Drop else
  s0 <- at_ frame transport_offset ;; s1 <- at_ frame (transport_offset + 1) ;;
  d0 <- at_ frame (transport_offset + 2) ;; d1 <- at_ frame (transport_offset + 3) ;;
  let dst_port := be16 d0 d1 in
  if proto =? PROTO_UDP then allow else
  blocked <- gets (is_blocked env src_ip) ;;
  if (blocked : bool) then drop_counted else
  if proto =? PROTO_TCP then filter_tcp env frame transport_offset src_ip dst_port else allow.

(** ** Frames by their fields *)

Section frame.
Context (frame : list Z).

Definition len : Z := Z.of_nat (length frame).
Definition field (i : Z) : Z := nth (Z.to_nat i) frame 0.
Definition ethertype : Z := be16 (field 12) (field 13).
Definition ihl : Z := Z.land (field 14) 0x0F.
Definition proto : Z := field 23.
Definition src_ip : Ip := [field 26; field 27; field 28; field 29].
Definition transport : Z := 14 + ihl * 4.
Definition dst_port : Z := be16 (field (transport + 2)) (field (transport + 3)).
Definition tcp_flags : Z := field (transport + 13).

(** An IPv4 packet whose header is whole. *)
Definition ipv4 : Prop := 34 <= len /\ ethertype = ETHERTYPE_IPV4 /\ 5 <= ihl.

(** A connection attempt. *)
Definition syn : Prop :=
  ipv4 /\ proto = PROTO_TCP /\ transport + 14 <= len /\ Z.land tcp_flags TCP_SYN <> 0 /\ Z.land tcp_flags TCP_ACK = 0.

(** Traffic the tracker speaks about: neither ICMP nor UDP. *)
Definition tracked_traffic (ip : Ip) : Prop := ipv4 /\ src_ip = ip /\ proto <> PROTO_ICMP /\ proto <> PROTO_UDP.

Lemma at_field {A} (k : Z -> F A) i s : 0 <= i < len -> M_bind k (at_ frame i) s = k (field i) s.
Proof.
  intros Hi. unfold at_, M_bind, field. unfold len in Hi. destruct (lookup_lt_is_Some_2 frame (Z.to_nat i)) as [b Hb]; [lia|].
  rewrite Hb. cbn. f_equal. symmetry. by apply nth_lookup_Some.
Qed.

Definition counted_allow (s : State) : State := s <| ALLOWS := u32 (ALLOWS s + 1) |>.
Definition counted_drop (s : State) : State := s <| DROPS := u32 (DROPS s + 1) |>.

(** What the filter does, on the fields. *)
Definition verdict (env : Env) (s : State) : State * FirewallAction :=
  if len <? 14 then (s, Drop) else
  if (ethertype =? ETHERTYPE_ARP) || negb (ethertype =? ETHERTYPE_IPV4) then (counted_allow s, Allow) else
  if (len <? 34) || (ihl <? 5) then (s, Drop) else
  if proto =? PROTO_ICMP then (counted_allow s, Allow) else
  if len <? transport + 4 then (s, Drop) else
  if proto =? PROTO_UDP then (counted_allow s, Allow) else
  if is_blocked env src_ip s then (counted_drop s, Drop) else
  if negb (proto =? PROTO_TCP) then (counted_allow s, Allow) else
  if len <? transport + 14 then (s, Drop) else
  if negb (Z.land tcp_flags TCP_SYN =? 0) && (Z.land tcp_flags TCP_ACK =? 0) then
    if dst_port =? 2222 then (counted_allow s, Allow) else
    let s := log_drop (record_syn_attempt env src_ip s) in
    (counted_drop (push env (mkSuspicious src_ip dst_port PROTO_TCP tcp_flags (now env) true) s), Drop)
  else (counted_allow s, Allow).

Lemma filter_verdict env s : filter_packet env frame s = (let (s', a) := verdict env s in (s', Ok a)).
Proof.
  unfold filter_packet, verdict. fold len. destruct (Z.ltb_spec len 14); [done|]. rewrite !at_field by lia. fold ethertype.
  destruct (ethertype =? ETHERTYPE_ARP); cbn [orb]; [done|]. destruct (ethertype =? ETHERTYPE_IPV4); cbn [negb]; [|done].
  destruct (Z.ltb_spec len 34); cbn [orb]; [done|]. rewrite !at_field by lia. fold ihl. destruct (Z.ltb_spec ihl 5); [done|].
  rewrite !at_field by lia. change (14 + 9) with 23. fold proto. destruct (proto =? PROTO_ICMP); [done|]. fold transport.
  destruct (Z.ltb_spec len (transport + 4)); [done|]. rewrite !at_field by (unfold transport in *; lia). fold dst_port.
  destruct (proto =? PROTO_UDP); [done|]. unfold M_bind at 1, gets. fold src_ip.
  change [field (14 + 12); field (14 + 13); field (14 + 14); field (14 + 15)] with src_ip. destruct (is_blocked env src_ip s); [done|].
  destruct (proto =? PROTO_TCP); cbn [negb]; [|done]. unfold filter_tcp. fold len. destruct (Z.ltb_spec len (transport + 14)); [done|].
  rewrite at_field by (unfold transport in *; lia). fold tcp_flags. destruct (_ && _); [|done]. by destruct (dst_port =? 2222).
Qed.
End frame.

(** The filter returns on every frame, without reading outside it; an unsolicited
    connection attempt to a port other than 2222 is dropped and counted, whatever
    the state and the locks. *)
Theorem unsolicited_syn_dropped env frame s :
  (exists s' a, filter_packet env frame s = (s', Ok a)) /\
  (syn frame -> dst_port frame <> 2222 ->
   exists s', filter_packet env frame s = (s', Ok Drop) /\ DROPS s' = u32 (DROPS s + 1) /\ ALLOWS s' = ALLOWS s).
Proof.
  rewrite filter_verdict. split; [destruct (verdict frame env s) as [s' a]; by exists s', a|].
  intros ((Hl & He & Hi) & Hp & Ht & Hs & Ha) Hd. unfold verdict. rewrite (proj2 (Z.ltb_ge _ 14)) by lia. rewrite He. cbn [Z.eqb ETHERTYPE_ARP ETHERTYPE_IPV4 Pos.eqb orb negb].
  rewrite (proj2 (Z.ltb_ge _ 34)) by lia. rewrite (proj2 (Z.ltb_ge _ 5)) by lia. cbn [orb]. rewrite Hp. cbn [Z.eqb PROTO_TCP PROTO_ICMP PROTO_UDP Pos.eqb negb].
  rewrite (proj2 (Z.ltb_ge _ (transport frame + 4))) by lia. destruct (is_blocked env (src_ip frame) s); [by eexists|].
  rewrite (proj2 (Z.ltb_ge _ (transport frame + 14))) by lia. rewrite (proj2 (Z.eqb_neq _ 0)) by done. rewrite Ha. cbn [Z.eqb negb andb].
  rewrite (proj2 (Z.eqb_neq _ 2222)) by done. eexists. split; [done|]. unfold counted_drop, push, log_drop, record_syn_attempt.
  destruct (list_free env), (queue_free env); done.
Qed.

(** ** The tracker over many frames *)

Fixpoint run (evs : list (Env * list Z)) (s : State) : State * list FirewallAction :=
  match evs with
  | [] => (s, [])
  | (env, frame) :: evs =>
      let (s, a) := verdict frame env s in let (s, l) := run evs s in (s, a :: l)
  end.

(** The filter, frame by frame. *)
Lemma run_filter env frame evs s :
  run ((env, frame) :: evs) s = match filter_packet env frame s with
    | (s, Ok a) => let (s, l) := run evs s in (s, a :: l) | (s, _) => (s, []) end.
Proof. rewrite filter_verdict. cbn [run]. by destruct (verdict frame env s). Qed.

(** A verdict changes the tracker for a connection attempt that is not blocked,
    and then drops it. *)
Lemma verdict_tracker env frame s :
  BLOCKLIST (verdict frame env s).1 = BLOCKLIST s \/
  is_blocked env (src_ip frame) s = false /\ list_free env = true /\ BLOCKLIST (verdict frame env s).1 = record_list (now env) (src_ip frame) (BLOCKLIST s).
Proof.
  unfold verdict. destruct (is_blocked env (src_ip frame) s) eqn:Hb; repeat (case_match; try by left).
  unfold counted_drop, push, log_drop, record_syn_attempt. destruct (list_free env) eqn:Hl, (queue_free env); cbn; try (by left); by right.
Qed.

(** A frame of the tracked kind from a blocked address is dropped. *)
Lemma blocked_dropped env frame s ip :
  tracked_traffic frame ip -> is_blocked env ip s = true -> (verdict frame env s).2 = Drop.
Proof.
  intros ((Hl & He & Hi) & <- & Hn1 & Hn2) Hb. unfold verdict. rewrite (proj2 (Z.ltb_ge _ 14)) by lia. rewrite He.
  cbn [Z.eqb ETHERTYPE_ARP ETHERTYPE_IPV4 Pos.eqb orb negb]. rewrite (proj2 (Z.ltb_ge _ 34)) by lia. rewrite (proj2 (Z.ltb_ge _ 5)) by lia.
  cbn [orb]. rewrite (proj2 (Z.eqb_neq _ PROTO_ICMP)) by done. case_match; [done|]. rewrite (proj2 (Z.eqb_neq _ PROTO_UDP)) by done. by rewrite Hb.
Qed.

Definition eligible (now : Z) (t : Tracked) : bool := (t_count t <? 3) || ((3 <=? t_count t) && expired now t).

Lemma find_victim_spec now l i v r j :
  find_victim now l i v r = Some j -> v = Some j \/ (i <= j)%nat /\ exists t, l !! (j - i)%nat = Some t /\ eligible now t = true.
Proof.
  revert i v r. induction l as [|t l IH]; intros i v r; cbn [find_victim]; [by left|].
  assert (Hnext : forall v' r', find_victim now l (S i) v' r' = Some j -> v' = Some j \/ (i <= j)%nat /\ exists t', (t :: l) !! (j - i)%nat = Some t' /\ eligible now t' = true).
  { intros v' r' Hf. destruct (IH _ _ _ Hf) as [|(Hij & t' & Ht & He)]; [by left|right]. split; [lia|]. exists t'.
    replace (j - i)%nat with (S (j - S i)) by lia. done. }
  fold (eligible now t). destruct (eligible now t) eqn:He; [|by apply Hnext]. destruct (_ <? r); [|by apply Hnext].
  intros Hf. destruct (Hnext _ _ Hf) as [[= <-]|]; [right|by right]. split; [lia|]. exists t. by rewrite Nat.sub_diag.
Qed.

Lemma bump_in now ip l l' t : bump now ip l = Some l' -> t ∈ l -> t_ip t <> ip -> t ∈ l'.
Proof.
  revert l'. induction l as [|x l IH]; intros l'; cbn [bump]; [done|]. destruct (bool_decide_reflect (t_ip x = ip)) as [Hx|Hx].
  - intros [= <-] [->|Ht]%elem_of_cons Hn; [done|]. by apply elem_of_cons; right.
  - destruct (bump now ip l) as [l1|]; [|done]. intros [= <-] [->|Ht]%elem_of_cons Hn; apply elem_of_cons; [by left|right]. by apply IH.
Qed.

(** Recording another address keeps an entry whose block holds. *)
Lemma record_keeps now ip l t : t ∈ l -> t_ip t <> ip -> 3 <= t_count t -> expired now t = false -> t ∈ record_list now ip l.
Proof.
  intros Ht Hn Hc He. unfold record_list. destruct (bump now ip l) as [l'|] eqn:Hb; [by eapply bump_in|].
  destruct (length l <? MAX_BLOCKLIST)%nat; [by apply elem_of_app; left|].
  destruct (find_victim now l 0 None U8_MAX) as [i|] eqn:Hv; [|done].
  apply find_victim_spec in Hv as [|(_ & x & Hx & Hel)]; [done|]. rewrite Nat.sub_0_r in Hx.
  apply list_elem_of_lookup in Ht as [j Hj]. apply (list_elem_of_lookup_2 _ j). rewrite list_lookup_insert_ne; [done|].
  intros ->. rewrite Hj in Hx. injection Hx as <-. unfold eligible in Hel. rewrite He, andb_false_r, orb_false_r in Hel. apply Z.ltb_lt in Hel. lia.
Qed.

Lemma blocked_by env ip s t :
  list_free env = true -> t ∈ BLOCKLIST s -> t_ip t = ip -> 3 <= t_count t -> expired (now env) t = false -> is_blocked env ip s = true.
Proof.
  intros Hl Ht Hip Hc He. unfold is_blocked. rewrite Hl. cbn [andb]. apply existsb_exists. exists t.
  rewrite <- list_elem_of_In. split; [done|]. rewrite bool_decide_eq_true_2, He by done. by rewrite (proj2 (Z.leb_le _ _)).
Qed.

(** C27: An address with three or more recorded attempts stays blocked for 120
    seconds after the last attempt that was recorded, whatever frames arrive from
    it or from others, as long as the table's lock is free when each of them
    arrives: none of its packets but ICMP and UDP is let through, and the table
    keeps its entry.  The attempts of a blocked address are dropped and not
    recorded, so they do not extend the time. *)
Theorem blocked_stays_blocked ip t evs s :
  t ∈ BLOCKLIST s -> t_ip t = ip -> 3 <= t_count t ->
  Forall (fun ev => list_free ev.1 = true /\ now ev.1 - t_last t < BLOCK_DURATION_MS) evs ->
  t ∈ BLOCKLIST (run evs s).1 /\
  forall i env frame, evs !! i = Some (env, frame) -> tracked_traffic frame ip -> (run evs s).2 !! i = Some Drop.
Proof.
  intros Ht Hip Hc Hevs. revert s Ht. induction Hevs as [|[env frame] evs [Hl Hw] _ IH]; intros s Ht; [done|]. cbn [run fst] in *.
  assert (He : expired (now env) t = false) by (apply Z.leb_gt; unfold saturating_sub, BLOCK_DURATION_MS in *; lia).
  assert (Hblk : is_blocked env ip s = true) by (by eapply blocked_by).
  pose proof (verdict_tracker env frame s) as Hv. destruct (verdict frame env s) as [s1 a] eqn:E. cbn [fst] in Hv.
  assert (Ht1 : t ∈ BLOCKLIST s1).
  { destruct Hv as [->|(Hnb & _ & ->)]; [done|]. apply record_keeps; try done. intros Hip'. rewrite <- Hip', Hip in Hnb. congruence. }
  destruct (IH s1 Ht1) as [IH1 IH2]. destruct (run evs s1) as [s2 acts]. cbn [fst snd] in *. split; [done|].
  intros [|i] env' frame' Hi Htr; cbn [lookup list_lookup] in *; [|by eapply IH2]. injection Hi as <- <-.
  pose proof (blocked_dropped env frame s ip Htr Hblk) as Hd. rewrite E in Hd. cbn in Hd. by rewrite Hd.
Qed.

(** The tracker's table: no address twice, no more entries than slots, counters
    in their byte. *)
Definition tracker_ok (l : list Tracked) : Prop :=
  NoDup (t_ip <$> l) /\ (length l <= MAX_BLOCKLIST)%nat /\ Forall (fun t => 1 <= t_count t <= 255) l.

Lemma bump_none now ip l : bump now ip l = None <-> ip ∉ t_ip <$> l.
Proof.
  induction l as [|t l IH]; cbn [bump fmap list_fmap]; [split; [intros _; apply not_elem_of_nil|done]|].
  rewrite not_elem_of_cons. destruct (bool_decide_reflect (t_ip t = ip)) as [Hx|Hx]; [split; [done|]; intros [Hn _]; congruence|].
  destruct (bump now ip l) as [l'|]; [|split; [intros _; split; [congruence|by apply IH]|done]].
  split; [done|]. intros [_ Hn]. apply IH in Hn. done.
Qed.

Lemma bump_some now ip l l' :
  bump now ip l = Some l' -> t_ip <$> l' = t_ip <$> l /\ length l' = length l /\
  (Forall (fun t => 1 <= t_count t <= 255) l -> Forall (fun t => 1 <= t_count t <= 255) l').
Proof.
  revert l'. induction l as [|t l IH]; intros l'; cbn [bump]; [done|]. destruct (bool_decide (t_ip t = ip)).
  - intros [= <-]. cbn [fmap list_fmap length]. assert (E : t_ip (count_attempt now t) = t_ip t) by (unfold count_attempt; by case_match).
    rewrite E. split; [done|]. split; [done|]. intros [Ht Hl]%Forall_cons. apply Forall_cons. split; [|done].
    unfold count_attempt. case_match; cbn; lia.
  - destruct (bump now ip l) as [l1|]; [|done]. intros [= <-]. destruct (IH l1 eq_refl) as (E & El & Ef). cbn [fmap list_fmap length].
    split; [by f_equal|]. split; [by f_equal|]. intros [Ht Hl]%Forall_cons. apply Forall_cons. split; [done|by apply Ef].
Qed.

Lemma record_ok now ip l : tracker_ok l -> tracker_ok (record_list now ip l).
Proof.
  intros (Hn & Hl & Hf). unfold record_list. destruct (bump now ip l) as [l'|] eqn:Hb.
  { destruct (bump_some _ _ _ _ Hb) as (E & El & Ef). unfold tracker_ok. rewrite E, El. split; [done|]. split; [done|by apply Ef]. }
  apply bump_none in Hb. destruct (Nat.ltb_spec (length l) MAX_BLOCKLIST) as [Hlt|].
  { unfold tracker_ok. rewrite fmap_app, length_app, Forall_app. cbn [fmap list_fmap length]. split; [|split; [lia|split; [done|by apply Forall_singleton]]].
    apply NoDup_app. split; [done|]. split; [|apply NoDup_singleton]. intros x Hx ->%list_elem_of_singleton. done. }
  destruct (find_victim now l 0 None U8_MAX) as [i|]; [|done]. unfold tracker_ok. rewrite list_fmap_insert, length_insert. cbn [t_ip].
  split; [|split; [done|by apply Forall_insert]]. apply NoDup_alt. intros j k x Hj Hk.
  destruct (decide (i < length l)%nat) as [Hi|Hi]; [|rewrite list_insert_ge in Hj, Hk by (rewrite length_fmap; lia); by eapply NoDup_lookup].
  apply list_lookup_insert_Some in Hj as [(-> & -> & _)|[Hji Hj]]; apply list_lookup_insert_Some in Hk as [(Hki & Hkx & _)|[Hki Hk]]; try done.
  - exfalso. apply Hb. by eapply list_elem_of_lookup_2.
  - subst k x. exfalso. apply Hb. by eapply list_elem_of_lookup_2.
  - by eapply NoDup_lookup.
Qed.

(** Whatever arrives, the tracker lists an address once, at most sixteen of them,
    and no counter wraps. *)
Theorem tracker_invariant evs : tracker_ok (BLOCKLIST (run evs initial).1).
Proof.
  assert (H : forall s, tracker_ok (BLOCKLIST s) -> tracker_ok (BLOCKLIST (run evs s).1)).
  { induction evs as [|[env frame] evs IH]; intros s Hs; [done|]. cbn [run]. pose proof (verdict_tracker env frame s) as Hv.
    destruct (verdict frame env s) as [s1 a]. cbn [fst] in Hv. specialize (IH s1). destruct (run evs s1) as [s2 l]. cbn [fst] in *. apply IH.
    destruct Hv as [->|(_ & _ & ->)]; [done|by apply record_ok]. }
  apply H. split; [apply NoDup_nil_2|]. split; [cbn; lia|by apply Forall_nil].
Qed.

(** An attempt that is let to the tracker is recorded. *)
Lemma syn_recorded env frame s :
  syn frame -> dst_port frame <> 2222 -> list_free env = true -> is_blocked env (src_ip frame) s = false ->
  (verdict frame env s).2 = Drop /\ BLOCKLIST (verdict frame env s).1 = record_list (now env) (src_ip frame) (BLOCKLIST s).
Proof.
  intros ((Hl & He & Hi) & Hp & Ht & Hs & Ha) Hd Hfree Hb. unfold verdict. rewrite (proj2 (Z.ltb_ge _ 14)) by lia. rewrite He.
  cbn [Z.eqb ETHERTYPE_ARP ETHERTYPE_IPV4 Pos.eqb orb negb]. rewrite (proj2 (Z.ltb_ge _ 34)) by lia. rewrite (proj2 (Z.ltb_ge _ 5)) by lia.
  cbn [orb]. rewrite Hp. cbn [Z.eqb PROTO_TCP PROTO_ICMP PROTO_UDP Pos.eqb negb]. rewrite (proj2 (Z.ltb_ge _ (transport frame + 4))) by lia.
  rewrite Hb. rewrite (proj2 (Z.ltb_ge _ (transport frame + 14))) by lia. rewrite (proj2 (Z.eqb_neq _ 0)) by done. rewrite Ha. cbn [Z.eqb negb andb].
  rewrite (proj2 (Z.eqb_neq _ 2222)) by done. split; [done|]. unfold counted_drop, push, log_drop, record_syn_attempt. rewrite Hfree.
  by destruct (queue_free env).
Qed.

Lemma not_blocked_yet env ip l c t0 s :
  BLOCKLIST s = l ++ [mkTracked ip c t0] -> ip ∉ t_ip <$> l -> c < 3 -> is_blocked env ip s = false.
Proof.
  intros El Hn Hc. unfold is_blocked. apply andb_false_iff. right. apply not_true_iff_false. rewrite existsb_exists.
  intros (t & Ht & Hb). rewrite <- list_elem_of_In, El, elem_of_app, list_elem_of_singleton in Ht. bool_prop. apply bool_decide_eq_true in H.
  destruct Ht as [Ht| ->]; [|cbn in *; lia]. apply Hn. rewrite <- H. by apply list_elem_of_fmap_2.
Qed.

Lemma untracked_not_blocked env ip s : ip ∉ t_ip <$> BLOCKLIST s -> is_blocked env ip s = false.
Proof.
  intros Hn. unfold is_blocked. apply andb_false_iff. right. apply not_true_iff_false. rewrite existsb_exists.
  intros (t & Ht & Hb). rewrite <- list_elem_of_In in Ht. bool_prop. apply bool_decide_eq_true in H. apply Hn. rewrite <- H. by apply list_elem_of_fmap_2.
Qed.

Lemma bump_last now ip l c t0 :
  ip ∉ t_ip <$> l -> c < 3 -> bump now ip (l ++ [mkTracked ip c t0]) = Some (l ++ [mkTracked ip (Z.min 255 (c + 1)) now]).
Proof.
  intros Hn Hc. induction l as [|t l IH]; cbn [app bump].
  - cbn [t_ip]. rewrite bool_decide_eq_true_2 by done. unfold count_attempt. cbn [t_count t_ip]. by rewrite (proj2 (Z.leb_gt _ _)).
  - cbn [fmap list_fmap] in Hn. rewrite not_elem_of_cons in Hn. destruct Hn as [Hx Hn]. rewrite bool_decide_eq_false_2 by congruence. by rewrite (IH Hn).
Qed.

(** Three connection attempts of an address the tracker does not know block it:
    all three are dropped and the entry stands with the time of the third. *)
Theorem three_syns_block ip s e1 e2 e3 f1 f2 f3 :
  ip ∉ t_ip <$> BLOCKLIST s -> (length (BLOCKLIST s) < MAX_BLOCKLIST)%nat ->
  Forall (fun ev => list_free ev.1 = true /\ syn ev.2 /\ dst_port ev.2 <> 2222 /\ src_ip ev.2 = ip) [(e1, f1); (e2, f2); (e3, f3)] ->
  let '(s', actions) := run [(e1, f1); (e2, f2); (e3, f3)] s in
  actions = [Drop; Drop; Drop] /\ mkTracked ip 3 (now e3) ∈ BLOCKLIST s' /\
  forall env, list_free env = true -> now env - now e3 < BLOCK_DURATION_MS -> is_blocked env ip s' = true.
Proof.
  intros Hn Hl HF. rewrite !Forall_cons in HF. cbn [fst snd] in HF.
  destruct HF as ((L1 & S1 & D1 & I1) & (L2 & S2 & D2 & I2) & (L3 & S3 & D3 & I3) & _). cbn [run].
  destruct (syn_recorded e1 f1 s S1 D1 L1) as [A1 B1]; [rewrite I1; by apply untracked_not_blocked|].
  destruct (verdict f1 e1 s) as [s1 a1]. cbn [fst snd] in *. unfold record_list in B1. rewrite I1 in B1.
  rewrite (proj2 (bump_none _ _ _) Hn) in B1. rewrite (proj2 (Nat.ltb_lt _ _) Hl) in B1.
  destruct (syn_recorded e2 f2 s1 S2 D2 L2) as [A2 B2]; [rewrite I2; by eapply not_blocked_yet|].
  destruct (verdict f2 e2 s1) as [s2 a2]. cbn [fst snd] in *. unfold record_list in B2. rewrite I2, B1, bump_last in B2 by done.
  destruct (syn_recorded e3 f3 s2 S3 D3 L3) as [A3 B3]; [rewrite I3; by eapply not_blocked_yet|].
  destruct (verdict f3 e3 s2) as [s3 a3]. cbn [fst snd] in *. unfold record_list in B3. rewrite I3, B2, bump_last in B3 by done.
  rewrite A1, A2, A3. split; [done|]. assert (Hin : mkTracked ip 3 (now e3) ∈ BLOCKLIST s3).
  { rewrite B3. apply elem_of_app. right. by apply list_elem_of_singleton. }
  split; [done|]. intros env Hf Hw. eapply (blocked_by env ip s3 _ Hf Hin); [done|done|].
  apply Z.leb_gt. unfold saturating_sub, BLOCK_DURATION_MS in *. cbn [t_last]. lia.
Qed.

(** ** Concrete frames *)

(** An IPv4 frame without options, from a port to a port. *)
Definition frame_of (proto : Z) (src : Ip) (port flags : Z) : list Z :=
  replicate 12 0 ++ [8; 0; 0x45] ++ replicate 8 0 ++ [proto; 0; 0] ++ src ++ [10; 0; 2; 15] ++ [16; 0; port / 256; port mod 256] ++
  replicate 8 0 ++ [0x50; flags] ++ replicate 6 0.

Definition attacker : Ip := [10; 0; 2; 99].
Definition attempt : list Z := frame_of PROTO_TCP attacker 80 TCP_SYN.
Definition reply : list Z := frame_of PROTO_TCP attacker 40000 TCP_ACK.
Definition at_time (t : Z) : Env := mkEnv t true true.

Lemma attempt_syn : syn attempt /\ dst_port attempt <> 2222.
Proof. vm_compute. intuition congruence. Qed.

Lemma unsolicited_syn_dropped_witness :
  exists s', filter_packet (at_time 0) attempt initial = (s', Ok Drop) /\ DROPS s' = 1 /\ ALLOWS s' = 0.
Proof. destruct attempt_syn as [H1 H2]. exact (proj2 (unsolicited_syn_dropped (at_time 0) attempt initial) H1 H2). Defined.

Lemma three_syns_block_witness : is_blocked (at_time 60000) attacker (run [(at_time 1, attempt); (at_time 2, attempt); (at_time 3, attempt)] initial).1 = true.
Proof.
  assert (H : forall t, list_free (at_time t) = true /\ syn attempt /\ dst_port attempt <> 2222 /\ src_ip attempt = attacker)
    by (intros t; destruct attempt_syn; repeat split; done).
  pose proof (three_syns_block attacker initial (at_time 1) (at_time 2) (at_time 3) attempt attempt attempt (not_elem_of_nil _) ltac:(vm_compute; lia)
    ltac:(constructor; [apply H|constructor; [apply H|constructor; [apply H|constructor]]])) as Hw.
  destruct (run _ initial) as [s' l]. destruct Hw as (_ & _ & Hw). exact (Hw (at_time 60000) eq_refl ltac:(done)).
Defined.

Lemma blocked_stays_blocked_witness :
  let s := initial <| BLOCKLIST := [mkTracked attacker 3 1000] |> in
  (run [(at_time 2000, attempt); (at_time 3000, reply)] s).2 = [Drop; Drop] /\
  (run [(at_time 2000, attempt); (at_time 3000, reply)] s).2 !! 1%nat = Some Drop.
Proof.
  intros s. split; [reflexivity|].
  destruct (blocked_stays_blocked attacker (mkTracked attacker 3 1000) [(at_time 2000, attempt); (at_time 3000, reply)] s
    ltac:(by apply list_elem_of_singleton) eq_refl ltac:(done) ltac:(constructor; [done|constructor; [done|constructor]])) as [_ H].
  apply (H 1%nat (at_time 3000) reply eq_refl). vm_compute. intuition congruence.
Defined.

(** ** Limits *)

(** An address that never stops trying is let in again 120 seconds after its third
    attempt: attempts that are dropped as blocked are not recorded. *)
Theorem flooding_is_let_back_in :
  (run [(at_time 0, attempt); (at_time 1, attempt); (at_time 2, attempt); (at_time 60000, attempt); (at_time 119999, attempt);
        (at_time 120002, reply)] initial).2 = [Drop; Drop; Drop; Drop; Drop; Allow].
Proof. vm_compute. reflexivity. Qed.

(** ICMP and UDP of a blocked address pass. *)
Theorem blocked_ip_udp_allowed :
  (run [(at_time 0, attempt); (at_time 1, attempt); (at_time 2, attempt); (at_time 3, frame_of PROTO_UDP attacker 53 0);
        (at_time 4, frame_of PROTO_ICMP attacker 0 0)] initial).2 = [Drop; Drop; Drop; Allow; Allow].
Proof. vm_compute. reflexivity. Qed.

(** While another context holds the tracker's lock a blocked address is not. *)
Theorem held_lock_opens_filter :
  (run [(at_time 0, attempt); (at_time 1, attempt); (at_time 2, attempt); (mkEnv 3 true false, reply)] initial).2 = [Drop; Drop; Drop; Allow].
Proof. vm_compute. reflexivity. Qed.

(** A table of blocked addresses takes no other: the newcomer is not tracked. *)
Theorem full_table_stops_tracking now ip l :
  length l = MAX_BLOCKLIST -> ip ∉ t_ip <$> l -> Forall (fun t => 3 <= t_count t /\ expired now t = false) l ->
  record_list now ip l = l.
Proof.
  intros Hl Hn HF. unfold record_list. rewrite (proj2 (bump_none _ _ _) Hn). rewrite Hl. cbn [Nat.ltb Nat.leb MAX_BLOCKLIST].
  assert (H : forall l i r, Forall (fun t => 3 <= t_count t /\ expired now t = false) l -> find_victim now l i None r = None).
  { clear. intros l i r HF. revert i r. induction HF as [|t l [Hc He] _ IH]; intros i r; cbn [find_victim]; [done|].
    rewrite He, andb_false_r, orb_false_r. rewrite (proj2 (Z.ltb_ge _ _)) by lia. apply IH. }
  by rewrite H.
Qed.

End Firewall.
