(* ===== verification/Fpk.v ===== *)
(** The read-only file system: packing an image on the host
    (src/tools/folk-pack/src/main.rs, format.rs), mounting it at boot
    (src/kernel/src/fs/format.rs, ramdisk.rs, mod.rs, src/kernel/src/lib.rs),
    the file system calls (arch/x86_64/syscall/handlers/fs.rs) and their
    wrappers for programs (src/userspace/libfolk/src/sys/fs.rs).

    The memory of the machine is one map of addresses: the image, the buffers
    of the caller and the names are ranges of it.  Structures are written and
    read as their bytes; the padding of a structure holds what was there, so it
    is an argument.  SHA-256 is a parameter. *)

From Stdlib Require Import String.
From S2P Require Import Prelude Bytes Slice Pmm PmmThm Mvfs MvfsThm.

#[local] Open Scope kernel_scope.

Module Fpk.

Definition FPK_MAGIC : list Z := str "FOLK".
Definition FPK_VERSION : Z := 1.
Definition FPK_PAGE_SIZE : Z := 4096.
Definition FPK_NAME_LEN : Z := 32.
Definition ENTRY_TYPE_ELF : Z := 0.
Definition ENTRY_TYPE_DATA : Z := 1.

(** [size_of] of the structures *)
Definition HEADER_SIZE : Z := 64.
Definition ENTRY_SIZE : Z := 64.
Definition DIR_ENTRY_SIZE : Z := 48.

Record FpkHeader : Type := mkHeader { magic : list Z; version : Z; entry_count : Z; total_size : Z; reserved : list Z }.

Record FpkEntry : Type := mkEntry { id : Z; entry_type : Z; name : list Z; offset : Z; size : Z; hash : list Z }.

Record DirEntry : Type := mkDirEntry { d_id : Z; d_entry_type : Z; d_name : list Z; d_size : Z }.

Definition is_valid (h : FpkHeader) : bool := bool_decide (magic h = FPK_MAGIC) && (version h =? FPK_VERSION).

(** [name.iter().position(|&b| b == 0).unwrap_or(FPK_NAME_LEN)] *)
Definition name_len (nm : list Z) : Z :=
  match list_find (fun b => b = 0) nm with Some (i, _) => Z.of_nat i | None => FPK_NAME_LEN end.

Definition name_str (e : FpkEntry) : list Z :=
  let s := take (Z.to_nat (name_len (name e))) (name e) in if utf8_valid s then s else str "<invalid>".

Definition is_elf (e : FpkEntry) : bool := entry_type e =? ENTRY_TYPE_ELF.

(** ** Packing (folk-pack) *)

Record AddEntry : Type := mkAdd { a_name : list Z; a_type : Z; a_path : list Z }.

(** [s.splitn(3, ':')], where it has three parts *)
Fixpoint split_colon (s : list Z) : option (list Z * list Z) :=
  match s with
  | [] => None
  | b :: s => if b =? 58 then Some ([], s) else match split_colon s with Some (l, r) => Some (b :: l, r) | None => None end
  end.

Definition splitn3 (s : list Z) : option (list Z * list Z * list Z) :=
  match split_colon s with
  | Some (a, s) => match split_colon s with Some (b, c) => Some (a, b, c) | None => None end
  | None => None
  end.

(** One argument of [--add]; [None] is [exit(1)]. *)
Definition parse_entry (arg : list Z) : option AddEntry :=
  match splitn3 arg with
  | None => None
  | Some (nm, ty, path) =>
      if FPK_NAME_LEN <=? Z.of_nat (length nm) then None else
      if decide (ty = str "elf") then Some (mkAdd nm ENTRY_TYPE_ELF path)
      else if decide (ty = str "data") then Some (mkAdd nm ENTRY_TYPE_DATA path)
      else None
  end.

Fixpoint parse_args (args : list (list Z)) (entries : list AddEntry) (embed quantize : bool) : option (list AddEntry * bool * bool) :=
  match args with
  | [] => Some (entries, embed, quantize)
  | a :: args =>
      if decide (a = str "--add") then
        match args with
        | [] => None
        | x :: args => match parse_entry x with Some e => parse_args args (entries ++ [e]) embed quantize | None => None end
        end
      else if decide (a = str "--embed") then parse_args args entries true quantize
      else if decide (a = str "--quantize") then parse_args args entries true true
      else None
  end.

Definition parse_add_entries (args : list (list Z)) : option (list AddEntry * bool * bool) :=
  match parse_args args [] false false with
  | Some (entries, embed, quantize) => if decide (entries = []) then None else Some (entries, embed, quantize)
  | None => None
  end.

(** [(value + align - 1) & !(align - 1)] *)
Definition align_up (value align : Z) : Z := Z.land (u64 (u64 (value + align) - 1)) (U64_MAX - u64 (align - 1)).

Definition header_bytes (h : FpkHeader) : list Z :=
  magic h ++ le_bytes 2 (version h) ++ le_bytes 2 (entry_count h) ++ le_bytes 8 (total_size h) ++ reserved h.

(** [as_bytes]; [pad] is the padding before [offset]. *)
Definition entry_bytes (pad : list Z) (e : FpkEntry) : list Z :=
  le_bytes 2 (id e) ++ le_bytes 2 (entry_type e) ++ name e ++ pad ++ le_bytes 8 (offset e) ++ le_bytes 8 (size e) ++ hash e.

Definition file_len (f : AddEntry * list Z) : Z := Z.of_nat (length f.2).

(** The loop over offsets: an offset for each file, and the offset after the last. *)
Fixpoint offsets (current : Z) (files : list (AddEntry * list Z)) : list Z * Z :=
  match files with
  | [] => ([], current)
  | f :: files =>
      let (l, total) := offsets (align_up (u64 (current + file_len f)) FPK_PAGE_SIZE) files in (current :: l, total)
  end.

Section pack.
Context (sha256 : list Z -> list Z) (pad : Z -> list Z).

(** [name[..n].copy_from_slice(..)] panics on a name longer than the field. *)
Definition fpk_entry (i : Z) (f : AddEntry * list Z) (off : Z) : outcome Empty_set FpkEntry :=
  if FPK_NAME_LEN <? Z.of_nat (length (a_name f.1)) then Panic
  else Ok (mkEntry (u16 i) (a_type f.1) (put 0 (a_name f.1) (zeros FPK_NAME_LEN)) off (file_len f) (take 8 (sha256 f.2))).

Fixpoint fpk_entries (i : Z) (files : list (AddEntry * list Z)) (offs : list Z) : outcome Empty_set (list FpkEntry) :=
  match files, offs with
  | f :: files, off :: offs =>
      let? e := fpk_entry i f off in
      let? es := fpk_entries (i + 1) files offs in
      Ok (e :: es)
  | _, _ => Ok []
  end.

Fixpoint table_bytes (i : Z) (es : list FpkEntry) : list Z :=
  match es with
  | [] => []
  | e :: es => entry_bytes (pad i) e ++ table_bytes (i + 1) es
  end.

(** The blobs with the padding between them; [pos] is where the next one must go. *)
Fixpoint blobs (pos : Z) (files : list (AddEntry * list Z)) (offs : list Z) : outcome Empty_set (list Z) :=
  match files, offs with
  | f :: files, off :: offs =>
      if negb (pos =? off) then Panic else
      let? rest := blobs (align_up (u64 (off + file_len f)) FPK_PAGE_SIZE) files offs in
      let gap := match offs with next :: _ => zeros (u64 (next - u64 (off + file_len f))) | [] => [] end in
      Ok (f.2 ++ gap ++ rest)
  | _, _ => Ok []
  end.

(** The bytes of the output file, for the entries with the contents of their files. *)
Definition create_fpk (files : list (AddEntry * list Z)) : outcome Empty_set (list Z) :=
  let count := Z.of_nat (length files) in
  let table_size := u64 (ENTRY_SIZE * count) in
  let data_start := align_up (u64 (HEADER_SIZE + table_size)) FPK_PAGE_SIZE in
  let (offs, total) := offsets data_start files in
  let header := mkHeader FPK_MAGIC FPK_VERSION (u16 count) total (zeros 48) in
  let? es := fpk_entries 0 files offs in
  let current_pos := u64 (HEADER_SIZE + table_size) in
  let padding := if current_pos <? data_start then zeros (data_start - current_pos) else [] in
  let? data := blobs data_start files offs in
  Ok (header_bytes header ++ table_bytes 0 es ++ padding ++ data).
End pack.

(** ** Mounting (ramdisk.rs) *)

(** The word of [n] bytes at address [a]. *)
Definition word (m : mem) (a n : Z) : Z := from_le_bytes (range m a n).

Definition header_at (m : mem) (p : Z) : FpkHeader :=
  mkHeader (range m p 4) (word m (p + 4) 2) (word m (p + 6) 2) (word m (p + 8) 8) (range m (p + 16) 48).

Definition entry_at (m : mem) (p : Z) : FpkEntry :=
  mkEntry (word m p 2) (word m (p + 2) 2) (range m (p + 4) 32) (word m (p + 40) 8) (word m (p + 48) 8) (range m (p + 56) 8).

Inductive RamdiskError : Type := TooSmall | BadMagic | BadVersion | EntryTableOverflow | EntryDataOverflow.

Record Ramdisk : Type := mkRamdisk { base : Z; image_size : Z }.

Definition entries_from_raw (m : mem) (base count : Z) : list FpkEntry :=
  (fun i => entry_at m (base + HEADER_SIZE + i * ENTRY_SIZE)) <$> seqZ 0 count.

(** The check of one entry. *)
Definition entry_fits (size' : Z) (e : FpkEntry) : bool :=
  match checked_add 64 (offset e) (size e) with Some end_ => negb (size' <? end_) | None => false end.

Definition from_memory (m : mem) (virt_addr size : Z) : outcome RamdiskError Ramdisk :=
  if size <? HEADER_SIZE then Err TooSmall else
  let header := header_at m virt_addr in
  if negb (is_valid header) then
    if negb (bool_decide (magic header = FPK_MAGIC)) then Err BadMagic else Err BadVersion
  else
  let entry_table_end := HEADER_SIZE + entry_count header * ENTRY_SIZE in
  if size <? entry_table_end then Err EntryTableOverflow else
  if negb (forallb (entry_fits size) (entries_from_raw m virt_addr (entry_count header))) then Err EntryDataOverflow else
  Ok (mkRamdisk virt_addr size).

Definition header (m : mem) (rd : Ramdisk) : FpkHeader := header_at m (base rd).

Definition entries (m : mem) (rd : Ramdisk) : list FpkEntry := entries_from_raw m (base rd) (entry_count (header m rd)).

Definition count_entries (m : mem) (rd : Ramdisk) : Z := entry_count (header m rd).

(** The comparison of an entry's name with the name looked for. *)
Definition name_matches (nm : list Z) (e : FpkEntry) : bool :=
  let len := name_len (name e) in
  (len =? Z.of_nat (length nm)) && forallb (fun j => nth (Z.to_nat j) (name e) 0 =? nth (Z.to_nat j) nm 0) (seqZ 0 len).

Definition find (m : mem) (rd : Ramdisk) (nm : list Z) : option FpkEntry :=
  if FPK_NAME_LEN <=? Z.of_nat (length nm) then None
  else snd <$> list_find (fun e => name_matches nm e = true) (entries m rd).

(** The slice of an entry's data. *)
Definition read (m : mem) (rd : Ramdisk) (e : FpkEntry) : slice := mkSlice m (u64 (base rd + offset e)) (size e).

(** ** System calls (handlers/fs.rs) *)

Record Machine (D : Type) : Type := mkMachine { memory : mem; ramdisk : option Ramdisk; mvfs : Fs D }.
Arguments mkMachine {D}. Arguments memory {D}. Arguments ramdisk {D}. Arguments mvfs {D}.

#[export] Instance Machine_eta {D} : Eta (Machine D) := fun s => mkMachine (memory s) (ramdisk s) (mvfs s).
#[export] Instance memory_set {D} : Setter (@memory D) := ltac:(derive_setter).
#[export] Instance ramdisk_set {D} : Setter (@ramdisk D) := ltac:(derive_setter).
#[export] Instance mvfs_set {D} : Setter (@mvfs D) := ltac:(derive_setter).

Definition USERSPACE_MIN : Z := 0x200000.
Definition USERSPACE_TOP : Z := 0x800000000000.
Definition MVFS_ERR : Z := U64_MAX.

Section calls.
Context {D : Type} `{BlockDriver D}.

Definition Sys (A : Type) : Type := M (Machine D) Empty_set A.

(** [GLOBAL_RAMDISK.call_once] *)
Definition init_ramdisk (rd : Ramdisk) (s : Machine D) : Machine D :=
  match ramdisk s with Some _ => s | None => s <| ramdisk := Some rd |> end.

(** The part of the boot that mounts the image the boot loader has left at
    [initrd_start]: whether there is a ramdisk. *)
Definition mount_initrd (initrd_start initrd_size : Z) : Sys bool := fun s =>
  if 0 <? initrd_size then
    match from_memory (memory s) initrd_start initrd_size with
    | Ok rd => (init_ramdisk rd s, Ok true)
    | Err _ => (s, Ok false)
    | Panic => (s, Panic)
    end
  else (s, Ok false).

(** Both checks of a range; [None] of [checked_add] fails it. *)
Definition mvfs_range_ok (ptr len : Z) : bool :=
  if (ptr <? USERSPACE_MIN) || (USERSPACE_TOP <=? ptr) then false
  else match checked_add 64 ptr len with Some end_ => end_ <=? USERSPACE_TOP | None => false end.

Definition dir_bytes (pad : list Z) (d : DirEntry) : list Z :=
  le_bytes 2 (d_id d) ++ le_bytes 2 (d_entry_type d) ++ d_name d ++ pad ++ le_bytes 8 (d_size d).

Definition dir_entry (e : FpkEntry) : DirEntry := mkDirEntry (id e) (entry_type e) (name e) (size e).

(** One round of the loop: entry [i] is read from the image and copied out;
    [pad i] is what the padding of the local variable holds. *)
Definition copy_dir_entry (pad : Z -> list Z) (image buf_ptr : Z) (m : mem) (i : Z) : mem :=
  blit m (u64 (buf_ptr + i * DIR_ENTRY_SIZE)) (dir_bytes (pad i) (dir_entry (entry_at m (image + HEADER_SIZE + i * ENTRY_SIZE)))).

Definition syscall_fs_read_dir (pad : Z -> list Z) (buf_ptr buf_size : Z) : Sys Z := fun s =>
  if (buf_ptr =? 0) || (buf_size =? 0) || (64 * 1024 <? buf_size) then (s, Ok U64_MAX) else
  match checked_add 64 buf_ptr buf_size with
  | None => (s, Ok U64_MAX)
  | Some buf_end =>
      if (buf_ptr <? USERSPACE_MIN) || (USERSPACE_TOP <=? buf_ptr) || (USERSPACE_TOP <? buf_end) then (s, Ok U64_MAX) else
      match ramdisk s with
      | None => (s, Ok 0)
      | Some rd =>
          let max_entries := buf_size / DIR_ENTRY_SIZE in
          let count := Z.min (count_entries (memory s) rd) max_entries in
          (s <| memory := foldl (copy_dir_entry pad (base rd) buf_ptr) (memory s) (seqZ 0 count) |>, Ok count)
      end
  end.

(** The name at [p]: its bytes up to a zero, 32 at most. *)
Fixpoint user_name (m : mem) (p : Z) (n : nat) : list Z :=
  match n with
  | O => []
  | S n => if m p =? 0 then [] else m p :: user_name m (p + 1) n
  end.

Definition syscall_fs_read_file (name_ptr buf_ptr buf_size : Z) : Sys Z := fun s =>
  if (name_ptr =? 0) || (buf_ptr =? 0) || (buf_size =? 0) || (4 * 1024 * 1024 <? buf_size) then (s, Ok U64_MAX) else
  match checked_add 64 name_ptr 32, checked_add 64 buf_ptr buf_size with
  | Some name_end, Some buf_end =>
      if (name_ptr <? USERSPACE_MIN) || (USERSPACE_TOP <=? name_ptr) || (USERSPACE_TOP <? name_end) then (s, Ok U64_MAX) else
      if (buf_ptr <? USERSPACE_MIN) || (USERSPACE_TOP <=? buf_ptr) || (USERSPACE_TOP <? buf_end) then (s, Ok U64_MAX) else
      let nm := user_name (memory s) name_ptr 32 in
      if negb (utf8_valid nm) then (s, Ok U64_MAX) else
      match ramdisk s with
      | None => (s, Ok U64_MAX)
      | Some rd =>
          match find (memory s) rd nm with
          | None => (s, Ok U64_MAX)
          | Some entry =>
              let data := read (memory s) rd entry in
              let copy_len := Z.min (sl_len data) buf_size in
              (s <| memory := blit (memory s) buf_ptr (range (sl_mem data) (sl_off data) copy_len) |>, Ok copy_len)
          end
      end
  | _, _ => (s, Ok U64_MAX)
  end.

(** A call of the mutable file system. *)
Definition on_mvfs {E A} (f : M (Fs D) E A) : Machine D -> Machine D * outcome E A :=
  fun s => let (fs, r) := f (mvfs s) in (s <| mvfs := fs |>, r).

Definition syscall_mvfs_write (name_ptr name_len data_ptr data_len : Z) : Sys Z := fun s =>
  if (name_len =? 0) || (MVFS_MAX_NAME <? name_len) then (s, Ok MVFS_ERR) else
  if MVFS_MAX_FILE_SIZE <? data_len then (s, Ok MVFS_ERR) else
  if negb (mvfs_range_ok name_ptr name_len) then (s, Ok MVFS_ERR) else
  if (0 <? data_len) && negb (mvfs_range_ok data_ptr data_len) then (s, Ok MVFS_ERR) else
  let nm := range (memory s) name_ptr name_len in
  let content := if data_len =? 0 then [] else range (memory s) data_ptr data_len in
  match on_mvfs (Mvfs.write nm content) s with
  | (s, Ok _) => (s, Ok 0)
  | (s, Err _) => (s, Ok MVFS_ERR)
  | (s, Panic) => (s, Panic)
  end.

Definition syscall_mvfs_read (name_ptr name_len buf_ptr buf_max : Z) : Sys Z := fun s =>
  if (name_len =? 0) || (MVFS_MAX_NAME <? name_len) then (s, Ok MVFS_ERR) else
  if (buf_max =? 0) || (MVFS_MAX_FILE_SIZE <? buf_max) then (s, Ok MVFS_ERR) else
  if negb (mvfs_range_ok name_ptr name_len) then (s, Ok MVFS_ERR) else
  if negb (mvfs_range_ok buf_ptr buf_max) then (s, Ok MVFS_ERR) else
  match Mvfs.read (range (memory s) name_ptr name_len) (range (memory s) buf_ptr buf_max) (table (mvfs s)) with
  | Ok (buf, n) => (s <| memory := blit (memory s) buf_ptr buf |>, Ok n)
  | Err _ => (s, Ok MVFS_ERR)
  | Panic => (s, Panic)
  end.

Definition syscall_mvfs_delete (name_ptr name_len : Z) : Sys Z := fun s =>
  if (name_len =? 0) || (MVFS_MAX_NAME <? name_len) then (s, Ok MVFS_ERR) else
  if negb (mvfs_range_ok name_ptr name_len) then (s, Ok MVFS_ERR) else
  match on_mvfs (Mvfs.delete (E := Empty_set) (range (memory s) name_ptr name_len)) s with
  | (s, Ok true) => (s, Ok 0)
  | (s, Ok false) => (s, Ok MVFS_ERR)
  | (s, Err _) => (s, Ok MVFS_ERR)
  | (s, Panic) => (s, Panic)
  end.

Definition syscall_mvfs_list (prefix_ptr prefix_len buf_ptr buf_max : Z) : Sys Z := fun s =>
  if (buf_max =? 0) || (4096 <? buf_max) then (s, Ok MVFS_ERR) else
  if negb (mvfs_range_ok buf_ptr buf_max) then (s, Ok MVFS_ERR) else
  if MVFS_MAX_NAME <? prefix_len then (s, Ok MVFS_ERR) else
  if (0 <? prefix_len) && negb (mvfs_range_ok prefix_ptr prefix_len) then (s, Ok MVFS_ERR) else
  let prefix := if prefix_len =? 0 then [] else range (memory s) prefix_ptr prefix_len in
  let (buf, n) := list_files prefix (range (memory s) buf_ptr buf_max) (table (mvfs s)) in
  (s <| memory := blit (memory s) buf_ptr buf |>, Ok n).

(** ** The wrappers of libfolk *)

(** [read_dir] on a buffer of [n] entries at [buf_ptr] *)
Definition read_dir (pad : Z -> list Z) (buf_ptr n : Z) : Sys Z :=
  ret <- syscall_fs_read_dir pad buf_ptr (u64 (n * DIR_ENTRY_SIZE)) ;;
  M_ret (if ret =? U64_MAX then 0 else ret).

(** [read_file]; its array for the name is at [name_ptr]. *)
Definition read_file (name_ptr : Z) (nm : list Z) (buf_ptr buf_len : Z) : Sys Z :=
  let len := Z.min (Z.of_nat (length nm)) 31 in
  modify (fun s : Machine D => s <| memory := blit (memory s) name_ptr (put 0 (take (Z.to_nat len) nm) (zeros 32)) |>) ;;;
  ret <- syscall_fs_read_file name_ptr buf_ptr buf_len ;;
  M_ret (if ret =? U64_MAX then 0 else ret).

(** The wrappers of the mutable file system take strings and buffers, that is
    addresses and lengths. *)
Definition mvfs_write (name_ptr name_len data_ptr data_len : Z) : Sys bool :=
  if (name_len =? 0) || (MVFS_MAX_NAME <? name_len) then M_ret false else
  if MVFS_MAX_FILE_SIZE <? data_len then M_ret false else
  ret <- syscall_mvfs_write name_ptr name_len data_ptr data_len ;;
  M_ret (negb (ret =? U64_MAX)).

Definition mvfs_read (name_ptr name_len buf_ptr buf_len : Z) : Sys (option Z) :=
  if (name_len =? 0) || (MVFS_MAX_NAME <? name_len) || (buf_len =? 0) then M_ret None else
  ret <- syscall_mvfs_read name_ptr name_len buf_ptr buf_len ;;
  M_ret (if ret =? U64_MAX then None else Some ret).

Definition mvfs_delete (name_ptr name_len : Z) : Sys bool :=
  if (name_len =? 0) || (MVFS_MAX_NAME <? name_len) then M_ret false else
  ret <- syscall_mvfs_delete name_ptr name_len ;;
  M_ret (negb (ret =? U64_MAX)).

Definition mvfs_list (prefix_ptr prefix_len buf_ptr buf_len : Z) : Sys Z :=
  if buf_len =? 0 then M_ret 0 else
  if MVFS_MAX_NAME <? prefix_len then M_ret 0 else
  ret <- syscall_mvfs_list prefix_ptr prefix_len buf_ptr buf_len ;;
  M_ret (if ret =? U64_MAX then 0 else ret).
End calls.

Definition dir_entry_at (m : mem) (p : Z) : DirEntry :=
  mkDirEntry (word m p 2) (word m (p + 2) 2) (range m (p + 4) 32) (word m (p + 40) 8).

Definition d_name_str (d : DirEntry) : list Z := take (Z.to_nat (name_len (d_name d))) (d_name d).

Definition d_is_elf (d : DirEntry) : bool := d_entry_type d =? 0.

(** ** Bytes at an address *)

Definition holds (m : mem) (a : Z) (l : list Z) : Prop := range m a (Z.of_nat (length l)) = l.

Lemma holds_app m a l1 l2 : holds m a (l1 ++ l2) <-> holds m a l1 /\ holds m (a + Z.of_nat (length l1)) l2.
Proof.
  unfold holds. rewrite length_app, Nat2Z.inj_add, range_app by lia. split.
  - intros H. apply app_inj_1 in H; [done|]. rewrite range_length. lia.
  - by intros [-> ->].
Qed.

Lemma holds_range m a n l : holds m a l -> n = Z.of_nat (length l) -> range m a n = l.
Proof. by intros H ->. Qed.

Lemma holds_at m a b l : a = b -> holds m a l -> holds m b l.
Proof. by intros ->. Qed.

Lemma holds_word m a n z : holds m a (le_bytes n z) -> in_width (8 * Z.of_nat n) z -> word m a (Z.of_nat n) = z.
Proof.
  intros H Hz. unfold word. rewrite (holds_range _ _ _ _ H) by (by rewrite le_bytes_length).
  rewrite from_to_le_bytes. by apply Z.mod_small.
Qed.

Lemma holds_same m m' a l : (forall i, a <= i < a + Z.of_nat (length l) -> m' i = m i) -> holds m a l -> holds m' a l.
Proof. intros He. unfold holds. intros H. rewrite <- H at 2. by apply range_ext. Qed.

Lemma holds_blit m a l : holds (blit m a l) a l.
Proof. by apply range_blit_same. Qed.

Lemma holds_cons m a b l : holds m a (b :: l) <-> m a = b /\ holds m (a + 1) l.
Proof.
  unfold holds. cbn [length]. rewrite range_cons by lia. replace (Z.of_nat (S (length l)) - 1) with (Z.of_nat (length l)) by lia.
  split; [by intros [= -> ->]|by intros [-> ->]].
Qed.

(** ** Names *)

Definition plain (nm : list Z) : Prop := Forall (fun b => b <> 0) nm /\ Z.of_nat (length nm) < FPK_NAME_LEN.

Lemma padded nm : plain nm -> put 0 nm (zeros FPK_NAME_LEN) = nm ++ 0 :: replicate (31 - length nm) 0.
Proof.
  intros [_ Hl]. unfold FPK_NAME_LEN in *. unfold put, zeros. change (Z.to_nat 0) with 0%nat. rewrite take_0, app_nil_l.
  f_equal. rewrite drop_replicate. change (Z.to_nat 32) with 32%nat. cbn [Nat.add].
  by replace (32 - length nm)%nat with (S (31 - length nm)) by lia.
Qed.

Lemma padded_length nm : plain nm -> length (put 0 nm (zeros FPK_NAME_LEN)) = 32%nat.
Proof. intros Hp. rewrite padded by done. destruct Hp as [_ Hl]. unfold FPK_NAME_LEN in Hl. rewrite length_app. cbn [length]. rewrite length_replicate. lia. Qed.

Lemma name_len_padded nm rest : Forall (fun b => b <> 0) nm -> name_len (nm ++ 0 :: rest) = Z.of_nat (length nm).
Proof.
  intros Hn. unfold name_len. rewrite list_find_app_r; [cbn; f_equal; lia|].
  by apply list_find_None.
Qed.

Lemma forallb_prefix nm q l rest :
  l = nm ++ rest -> length q = length nm ->
  forallb (fun j => nth (Z.to_nat j) l 0 =? nth (Z.to_nat j) q 0) (seqZ 0 (Z.of_nat (length nm))) = true -> q = nm.
Proof.
  intros -> Hl Hall. rewrite forallb_forall in Hall. apply list_eq_same_length with (n := length nm); [done|done|].
  intros i x y Hi Hx Hy. specialize (Hall (Z.of_nat i)). rewrite <- list_elem_of_In, elem_of_seqZ in Hall.
  specialize (Hall ltac:(lia)). apply Z.eqb_eq in Hall. rewrite Nat2Z.id, app_nth1 in Hall by done.
  apply nth_lookup_Some with (d := 0) in Hx, Hy. lia.
Qed.

Lemma name_matches_padded nm q e : plain nm -> name e = put 0 nm (zeros FPK_NAME_LEN) -> name_matches q e = true <-> nm = q.
Proof.
  intros Hp He. rewrite padded in He by done. unfold name_matches. rewrite He, name_len_padded by apply Hp. split.
  - intros Hm. bool_prop. symmetry. eapply (forallb_prefix nm q (nm ++ _)); [exact eq_refl|lia|eassumption].
  - intros ->. rewrite Z.eqb_refl. cbn [andb]. apply forallb_forall. intros j Hj. rewrite <- list_elem_of_In, elem_of_seqZ in Hj.
    apply Z.eqb_eq. by rewrite app_nth1 by lia.
Qed.

Lemma user_name_ok m p nm rest n :
  Forall (fun b => b <> 0) nm -> (length nm < n)%nat -> holds m p (nm ++ 0 :: rest) -> user_name m p n = nm.
Proof.
  revert p n. induction nm as [|b nm IH]; intros p n Hn Hl Hm; (destruct n as [|n]; [cbn in Hl; lia|]); cbn [user_name].
  - apply holds_cons in Hm as [-> _]. done.
  - inversion_clear Hn as [|? ? Hb Hn']. apply holds_cons in Hm as [-> Hm]. rewrite (proj2 (Z.eqb_neq _ _)) by done.
    f_equal. apply IH; [done|cbn in Hl; lia|done].
Qed.

(** ** The layout of an image *)

Lemma align_up_to_page x : 0 <= x -> x + 4096 <= 2 ^ 64 -> x <= align_up x FPK_PAGE_SIZE < x + 4096.
Proof. intros H1 H2. destruct (align_up_pow2 x 12 ltac:(lia) H1 H2) as [_ H]. exact H. Qed.

(** An upper bound of what the blobs take, each with its padding. *)
Definition volume (files : list (AddEntry * list Z)) : Z := foldr (fun f v => file_len f + FPK_PAGE_SIZE + v) 0 files.

Lemma volume_nonneg files : 0 <= volume files.
Proof. induction files as [|f files IH]; cbn [volume foldr]; [lia|]. fold (volume files). unfold file_len, FPK_PAGE_SIZE. lia. Qed.

(** A blob placed at its offset of the image. *)
Definition placed (m : mem) (start pos end_ : Z) (f : AddEntry * list Z) (off : Z) : Prop :=
  pos <= off /\ off + file_len f <= end_ /\ holds m (start + off) f.2.

Lemma blobs_ok pos files :
  0 <= pos -> pos + volume files + FPK_PAGE_SIZE < 2 ^ 62 ->
  exists offs total data, offsets pos files = (offs, total) /\ blobs pos files offs = Ok data /\ 0 <= total < 2 ^ 62 /\
    pos + Z.of_nat (length data) < 2 ^ 62 /\ length offs = length files /\
    forall m start, holds m (start + pos) data -> Forall2 (placed m start pos (pos + Z.of_nat (length data))) files offs.
Proof.
  revert pos. induction files as [|f files IH]; intros pos Hp Hv; cbn [volume foldr] in Hv.
  - exists [], pos, []. unfold FPK_PAGE_SIZE in Hv. cbn. repeat split; try lia. intros. constructor.
  - fold (volume files) in Hv. pose proof (volume_nonneg files) as Hnn. unfold FPK_PAGE_SIZE in Hv.
    assert (Hf : 0 <= file_len f) by (unfold file_len; lia).
    destruct (align_up_to_page (pos + file_len f)) as [Ha1 Ha2]; [lia|lia|].
    destruct (IH (align_up (pos + file_len f) FPK_PAGE_SIZE)) as (offs & total & data & Ho & Hb & Ht & Hd & Hl & Hm);
      [lia|unfold FPK_PAGE_SIZE in *; lia|].
    cbn [offsets blobs]. rewrite (wrap_small 64 (pos + _)) by (unfold in_width; lia). rewrite Ho.
    set (next := align_up (pos + file_len f) FPK_PAGE_SIZE) in *.
    exists (pos :: offs), total. rewrite Z.eqb_refl. cbn [negb]. rewrite (wrap_small 64 (pos + _)) by (unfold in_width; lia).
    fold next. rewrite Hb. cbn [obind]. eexists. split; [done|]. split; [done|].
    set (gap := match offs with [] => [] | n :: _ => zeros (u64 (n - (pos + file_len f))) end).
    assert (Hgap : data = [] /\ gap = [] /\ offs = [] \/ pos + file_len f + Z.of_nat (length gap) = next).
    { destruct files as [|f' files]; cbn [offsets] in Ho.
      - injection Ho as <- <-. cbn in Hb. injection Hb as <-. left. done.
      - destruct (offsets _ files) eqn:E in Ho. injection Ho as <- <-. right. unfold gap. rewrite zeros_length, wrap_small by (unfold in_width; lia). lia. }
    rewrite !length_app. split; [done|]. cbn [length]. rewrite Hl. unfold file_len in *.
    destruct Hgap as [(-> & -> & ->)|Hgap].
    + destruct files; [|done]. cbn [length app]. split; [lia|]. split; [done|]. intros m start Hh. rewrite app_nil_r in Hh.
      constructor; [|constructor]. split; [lia|]. split; [unfold file_len; lia|done].
    + split; [lia|]. split; [done|]. intros m start Hh. rewrite !holds_app in Hh. destruct Hh as (Hf2 & _ & Hdata). constructor.
      * split; [lia|]. split; [unfold file_len; lia|done].
      * replace (start + pos + Z.of_nat (length f.2) + Z.of_nat (length gap)) with (start + next) in Hdata by lia.
        eapply Forall2_impl; [by apply (Hm m start)|].
        intros g off (Hg1 & Hg2 & Hg3). split; [lia|]. split; [lia|done].
Qed.
Lemma offsets_range pos data files offs :
  0 <= pos -> pos + Z.of_nat (length data) < 2 ^ 62 ->
  (forall m start, holds m (start + pos) data -> Forall2 (placed m start pos (pos + Z.of_nat (length data))) files offs) ->
  Forall (fun off => 0 <= off < 2 ^ 62) offs.
Proof.
  intros Hp Hd Hm. set (l := replicate (Z.to_nat pos) 0 ++ data).
  assert (Hh : holds (mem_of_list l) (0 + pos) data).
  { pose proof (bytes_of_list l) as E. apply (holds_app _ 0 (replicate (Z.to_nat pos) 0) data) in E as [_ E].
    eapply holds_at, E. rewrite length_replicate. lia. }
  apply Forall_lookup. intros i off Hi. destruct (Forall2_lookup_r _ _ _ _ _ (Hm _ _ Hh) Hi) as (f & _ & H1 & H2 & _).
  unfold file_len in H2. lia.
Qed.

(** The entry of file [i] whose blob is at [off]. *)
Definition packed (sha256 : list Z -> list Z) (i : Z) (f : AddEntry * list Z) (off : Z) : FpkEntry :=
  mkEntry (u16 i) (a_type f.1) (put 0 (a_name f.1) (zeros FPK_NAME_LEN)) off (file_len f) (take 8 (sha256 f.2)).

(** What [parse_add_entries] lets through, without zero bytes in the name, and a
    size of a file. *)
Definition packable (f : AddEntry * list Z) : Prop :=
  plain (a_name f.1) /\ in_width 16 (a_type f.1) /\ file_len f < 2 ^ 62.

Section layout.
Context (sha256 : list Z -> list Z) (pad : Z -> list Z).
Context (Hsha : forall l, (8 <= length (sha256 l))%nat) (Hpad : forall i, length (pad i) = 4%nat).

Definition entry_ok (e : FpkEntry) : Prop :=
  in_width 16 (id e) /\ in_width 16 (entry_type e) /\ length (name e) = 32%nat /\ in_width 64 (offset e) /\
  in_width 64 (size e) /\ length (hash e) = 8%nat.

Lemma packed_ok i f off : packable f -> 0 <= off < 2 ^ 62 -> entry_ok (packed sha256 i f off).
Proof.
  intros (Hn & Ht & Hl) Ho. unfold entry_ok, packed. cbn [id entry_type name offset size hash]. split; [by apply wrap_range|].
  split; [done|]. split; [by apply padded_length|]. split; [unfold in_width; lia|].
  split; [unfold in_width, file_len in *; lia|]. rewrite length_take. specialize (Hsha f.2). lia.
Qed.

Lemma entry_bytes_length i e : entry_ok e -> length (entry_bytes (pad i) e) = 64%nat.
Proof.
  intros (_ & _ & Hn & _ & _ & Hh). unfold entry_bytes. by rewrite !length_app, !le_bytes_length, Hn, Hh, Hpad.
Qed.

Lemma entry_read m p i e : entry_ok e -> holds m p (entry_bytes (pad i) e) -> entry_at m p = e.
Proof.
  intros (Hi & Ht & Hn & Ho & Hs & Hh) Hm. unfold entry_bytes in Hm.
  rewrite !holds_app, !le_bytes_length, Hn, Hpad in Hm. destruct Hm as (H1 & H2 & H3 & _ & H4 & H5 & H6).
  unfold entry_at. destruct e as [a b c d f g]. cbn [id entry_type name offset size hash] in *. f_equal.
  - exact (holds_word m p 2 _ H1 Hi).
  - exact (holds_word m (p + 2) 2 _ H2 Ht).
  - refine (holds_range m (p + 4) 32 _ (holds_at _ _ _ _ _ H3) _); [lia|by rewrite Hn].
  - refine (holds_word m (p + 40) 8 _ (holds_at _ _ _ _ _ H4) Ho). lia.
  - refine (holds_word m (p + 48) 8 _ (holds_at _ _ _ _ _ H5) Hs). lia.
  - refine (holds_range m (p + 56) 8 _ (holds_at _ _ _ _ _ H6) _); [lia|by rewrite Hh].
Qed.

Lemma fpk_entries_ok i files offs :
  Forall packable files -> length offs = length files ->
  fpk_entries sha256 i files offs = Ok (imap (fun j p => packed sha256 (i + Z.of_nat j) p.1 p.2) (zip files offs)).
Proof.
  intros Hf. revert i offs. induction Hf as [|f files ((_ & Hn) & _) Hf IH]; intros i offs Hl; (destruct offs as [|off offs]; [done|]); [done|].
  injection Hl as Hl. cbn [fpk_entries]. unfold fpk_entry. rewrite (proj2 (Z.ltb_ge _ _)) by lia. cbn [obind].
  rewrite IH by done. cbn [obind zip zip_with imap]. f_equal. f_equal; [by rewrite Z.add_0_r|].
  apply imap_ext. intros j p _. cbn. f_equal. lia.
Qed.

Lemma table_length i es : Forall entry_ok es -> length (table_bytes pad i es) = (64 * length es)%nat.
Proof.
  intros He. revert i. induction He as [|e es He _ IH]; intros i; [done|].
  cbn [table_bytes length]. rewrite length_app, entry_bytes_length, IH by done. lia.
Qed.

Lemma table_read m p i es :
  Forall entry_ok es -> holds m p (table_bytes pad i es) ->
  (fun j => entry_at m (p + j * ENTRY_SIZE)) <$> seqZ 0 (Z.of_nat (length es)) = es.
Proof.
  intros He. revert p i. induction He as [|e es He _ IH]; intros p i Hm; [done|].
  cbn [table_bytes] in Hm. apply holds_app in Hm as [H1 H2]. rewrite entry_bytes_length in H2 by done.
  cbn [length]. rewrite seqZ_cons by lia. cbn [fmap list_fmap]. f_equal; [rewrite Z.mul_0_l, Z.add_0_r; by eapply entry_read|].
  etrans; [|exact (IH _ _ H2)]. replace (Z.pred (Z.of_nat (S (length es)))) with (Z.of_nat (length es)) by lia.
  change (Z.succ 0) with (1 + 0). rewrite <- (fmap_add_seqZ 1 0), <- list_fmap_compose.
  apply list_fmap_ext. intros k x _. cbn [compose]. unfold compose, ENTRY_SIZE. f_equal. lia.
Qed.

Lemma header_read m p n total :
  in_width 16 n -> in_width 64 total -> holds m p (header_bytes (mkHeader FPK_MAGIC FPK_VERSION n total (zeros 48))) ->
  header_at m p = mkHeader FPK_MAGIC FPK_VERSION n total (zeros 48).
Proof.
  intros Hn Ht Hm. unfold header_bytes in Hm. cbn [magic version entry_count total_size reserved] in Hm.
  rewrite !holds_app, !le_bytes_length in Hm. destruct Hm as (H1 & H2 & H3 & H4 & H5). unfold header_at. f_equal.
  - exact H1.
  - by refine (holds_word m (p + 4) 2 _ (holds_at _ _ _ _ _ H2) _).
  - refine (holds_word m (p + 6) 2 _ (holds_at _ _ _ _ _ H3) Hn). cbn. lia.
  - refine (holds_word m (p + 8) 8 _ (holds_at _ _ _ _ _ H4) Ht). cbn. lia.
  - refine (holds_range m (p + 16) 48 _ (holds_at _ _ _ _ _ H5) _); [cbn; lia|done].
Qed.

(** The entries of a packed image. *)
Definition packed_all (files : list (AddEntry * list Z)) (offs : list Z) : list FpkEntry :=
  imap (fun j p => packed sha256 (Z.of_nat j) p.1 p.2) (zip files offs).

Lemma packed_all_lookup files offs i e :
  packed_all files offs !! i = Some e <->
  exists f off, files !! i = Some f /\ offs !! i = Some off /\ e = packed sha256 (Z.of_nat i) f off.
Proof.
  unfold packed_all. rewrite list_lookup_imap, fmap_Some. split.
  - intros ([f off] & E & ->). apply lookup_zip_with_Some in E as (f' & off' & [= -> ->] & E1 & E2). by exists f', off'.
  - intros (f & off & E1 & E2 & ->). exists (f, off). split; [|done]. apply lookup_zip_with_Some. by exists f, off.
Qed.

Lemma packed_all_ok files offs :
  Forall packable files -> Forall (fun off => 0 <= off < 2 ^ 62) offs -> Forall entry_ok (packed_all files offs).
Proof.
  intros Hf Ho. apply Forall_lookup. intros i e (f & off & E1 & E2 & ->)%packed_all_lookup.
  apply packed_ok; [exact (Forall_lookup_1 _ _ _ _ Hf E1)|exact (Forall_lookup_1 _ _ _ _ Ho E2)].
Qed.

Lemma packed_all_length files offs : length offs = length files -> length (packed_all files offs) = length files.
Proof. intros Hl. unfold packed_all. rewrite length_imap, length_zip_with. lia. Qed.

(** What the kernel sees of an image that holds [files]: [offs] are the offsets. *)
Definition mounted (m : mem) (start size : Z) (files : list (AddEntry * list Z)) (offs : list Z) : Prop :=
  from_memory m start size = Ok (mkRamdisk start size) /\ entries m (mkRamdisk start size) = packed_all files offs /\
  count_entries m (mkRamdisk start size) = Z.of_nat (length files) /\ Forall2 (placed m start 0 size) files offs.

Lemma packed_fit m start sz files offs :
  Forall2 (placed m start 0 sz) files offs -> sz < 2 ^ 64 -> forallb (entry_fits sz) (packed_all files offs) = true.
Proof.
  intros Hpl Hs. apply forallb_forall. intros e He.
  apply list_elem_of_In, list_elem_of_lookup in He as [i (f & off & E1 & E2 & ->)%packed_all_lookup].
  destruct (Forall2_lookup_lr _ _ _ _ _ _ Hpl E1 E2) as (Hx & Hy & _). unfold entry_fits, packed, checked_add. cbn [offset size].
  rewrite (proj2 (Z.ltb_lt _ _)) by lia. by rewrite (proj2 (Z.ltb_ge _ _)) by lia.
Qed.

Lemma create_ok files :
  Forall packable files -> Z.of_nat (length files) < 65536 -> volume files < 2 ^ 61 ->
  exists image offs, create_fpk sha256 pad files = Ok image /\ Z.of_nat (length image) < 2 ^ 62 /\
    length offs = length files /\ Forall (fun off => 0 <= off < 2 ^ 62) offs /\
    forall m start, holds m start image -> mounted m start (Z.of_nat (length image)) files offs.
Proof.
  intros Hf Hn Hv. unfold create_fpk. unfold ENTRY_SIZE, HEADER_SIZE.
  rewrite (wrap_small 64 (64 * _)) by (unfold in_width; lia). rewrite (wrap_small 64 (64 + _)) by (unfold in_width; lia).
  set (c := Z.of_nat (length files)) in *. destruct (align_up_to_page (64 + 64 * c)) as [Hs1 Hs2]; [lia|lia|].
  set (data_start := align_up _ _) in *.
  destruct (blobs_ok data_start files) as (offs & total & data & -> & -> & Ht & Hd & Hl & Hm); [lia|unfold FPK_PAGE_SIZE; lia|].
  rewrite fpk_entries_ok by done. cbn [obind].
  change (imap _ (zip files offs)) with (packed_all files offs).
  rewrite (wrap_small 16) by (unfold in_width; lia).
  set (hdr := mkHeader FPK_MAGIC FPK_VERSION c total (zeros 48)). set (es := packed_all files offs).
  set (padding := if 64 + 64 * c <? data_start then _ else _).
  assert (Hp : Z.of_nat (length padding) = data_start - (64 + 64 * c)).
  { unfold padding. destruct (Z.ltb_spec (64 + 64 * c) data_start); [rewrite zeros_length; lia|cbn; lia]. }
  assert (Hoffs : Forall (fun off => 0 <= off < 2 ^ 62) offs).
  { eapply offsets_range; [|exact Hd|exact Hm]. lia. }
  assert (Hes : Forall entry_ok es) by (by apply packed_all_ok).
  assert (Hlen : length es = length files) by (by apply packed_all_length).
  eexists _, offs. split; [done|]. rewrite !length_app, table_length by done.
  assert (Hh : length (header_bytes hdr) = 64%nat) by (unfold header_bytes; rewrite !length_app, !le_bytes_length; reflexivity).
  rewrite Hh, Hlen. set (sz := Z.of_nat _).
  assert (Hsize : sz = data_start + Z.of_nat (length data)) by (unfold sz; lia). clearbody sz.
  split; [lia|]. split; [done|]. split; [done|]. intros m start Hi.
  rewrite !holds_app, Hh, table_length, Hlen in Hi by done. destruct Hi as (H1 & H2 & _ & H3).
  assert (Hhd : header_at m start = hdr) by (apply header_read; [unfold in_width; lia|unfold in_width; lia|done]).
  assert (Hen : entries_from_raw m start c = es).
  { etrans; [|exact (table_read _ _ _ _ Hes H2)]. by rewrite Hlen. }
  assert (Hpl : Forall2 (placed m start 0 sz) files offs).
  { eapply Forall2_impl; [apply (Hm m start)|].
    - eapply holds_at, H3. lia.
    - intros f off (Hx & Hy & Hz). split; [lia|]. split; [lia|done]. }
  unfold mounted, count_entries, entries, header. cbn [base]. rewrite Hhd. cbn [entry_count hdr].
  split; [|done]. unfold from_memory. rewrite Hhd. cbn [entry_count hdr]. rewrite Hen. unfold HEADER_SIZE, ENTRY_SIZE.
  rewrite (proj2 (Z.ltb_ge _ _)) by lia. change (is_valid hdr) with true. cbn [negb]. rewrite (proj2 (Z.ltb_ge _ _)) by lia.
  replace (forallb (entry_fits sz) es) with true; [done|]. symmetry. apply (packed_fit _ _ _ _ _ Hpl). lia.
Qed.

(** Looking a name up finds the first file packed under it. *)
Lemma find_packed m rd nm files offs :
  plain nm -> Forall packable files -> length offs = length files -> entries m rd = packed_all files offs ->
  match list_find (fun f => a_name f.1 = nm) files with
  | Some (i, f) => exists off, offs !! i = Some off /\ find m rd nm = Some (packed sha256 (Z.of_nat i) f off)
  | None => find m rd nm = None
  end.
Proof.
  intros Hn Hf Hl He. unfold find. rewrite (proj2 (Z.leb_gt _ _)), He by apply Hn.
  assert (Hall : forall i f, files !! i = Some f -> exists off, offs !! i = Some off /\
    packed_all files offs !! i = Some (packed sha256 (Z.of_nat i) f off) /\
    (name_matches nm (packed sha256 (Z.of_nat i) f off) = true <-> a_name f.1 = nm)).
  { intros i f Hi. destruct (lookup_lt_is_Some_2 offs i) as [off Ho]; [rewrite Hl; by eapply lookup_lt_Some|].
    exists off. split; [done|]. split; [apply packed_all_lookup; by exists f, off|]. apply name_matches_padded; [|done]. exact (proj1 (Forall_lookup_1 _ _ _ _ Hf Hi)). }
  destruct (list_find _ files) as [[i f]|] eqn:E.
  - apply list_find_Some in E as (Hi & Hnm & Hfirst). destruct (Hall i f Hi) as (off & Ho & Hp & Hm). exists off. split; [done|].
    rewrite (proj2 (list_find_Some _ _ i (packed sha256 (Z.of_nat i) f off))); [done|]. split; [done|]. split; [by apply Hm|].
    intros j e (x & y & E1 & E2 & ->)%packed_all_lookup Hlt Hmatch.
    destruct (Hall j x E1) as (y' & E2' & _ & Hm'). rewrite E2 in E2'. injection E2' as <-. apply (Hfirst j x E1 Hlt). by apply Hm'.
  - rewrite (proj2 (list_find_None _ _)); [done|]. apply list_find_None in E. apply Forall_lookup. intros j e (x & y & E1 & E2 & ->)%packed_all_lookup Hmatch.
    destruct (Hall j x E1) as (y' & E2' & _ & Hm'). rewrite E2 in E2'. injection E2' as <-. apply (Forall_lookup_1 _ _ _ _ E E1). by apply Hm'.
Qed.
End layout.

(** ** Mounting looks at the image only *)

Lemma header_at_ext m m' p : (forall a, p <= a < p + 64 -> m' a = m a) -> header_at m' p = header_at m p.
Proof. intros H. unfold header_at, word. by rewrite !(range_ext m' m) by (intros; apply H; lia). Qed.

Lemma entry_at_ext m m' p : (forall a, p <= a < p + 64 -> m' a = m a) -> entry_at m' p = entry_at m p.
Proof. intros H. unfold entry_at, word. by rewrite !(range_ext m' m) by (intros; apply H; lia). Qed.

Lemma entries_ext m m' start n size :
  HEADER_SIZE + n * ENTRY_SIZE <= size -> (forall a, start <= a < start + size -> m' a = m a) ->
  entries_from_raw m' start n = entries_from_raw m start n.
Proof.
  intros Hs H. unfold entries_from_raw. apply list_fmap_ext. intros i x Hx. apply lookup_seqZ in Hx as [-> Hx].
  apply entry_at_ext. unfold HEADER_SIZE, ENTRY_SIZE in *. intros a Ha. apply H. lia.
Qed.

Lemma from_memory_inv m start size rd :
  from_memory m start size = Ok rd ->
  rd = mkRamdisk start size /\ HEADER_SIZE <= size /\ HEADER_SIZE + entry_count (header_at m start) * ENTRY_SIZE <= size /\
  Forall (fun e => entry_fits size e = true) (entries_from_raw m start (entry_count (header_at m start))).
Proof.
  unfold from_memory. intros H. repeat split_match_in H; try discriminate. injection H as <-. bool_prop.
  split; [done|]. split; [lia|]. split; [lia|]. apply Forall_forall. intros e He. eapply forallb_forall; [done|]. by apply list_elem_of_In.
Qed.

Lemma from_memory_ext m m' start size rd :
  from_memory m start size = Ok rd -> (forall a, start <= a < start + size -> m' a = m a) -> from_memory m' start size = Ok rd.
Proof.
  intros H He. pose proof H as H'. apply from_memory_inv in H as (_ & H1 & H2 & _). rewrite <- H'. unfold from_memory, HEADER_SIZE in *.
  rewrite (header_at_ext m m') by (intros; apply He; lia). split_match; [done|]. split_match; [done|]. split_match; [done|].
  by rewrite (entries_ext m m' start _ size).
Qed.
(** ** Copying directory entries out *)

Lemma dir_bytes_length (pad : Z -> list Z) i e : length (pad i) = 4%nat -> length (name e) = 32%nat -> length (dir_bytes (pad i) (dir_entry e)) = 48%nat.
Proof. intros Hp Hn. unfold dir_bytes. cbn [dir_entry d_id d_entry_type d_name d_size]. by rewrite !length_app, !le_bytes_length, Hp, Hn. Qed.

Lemma dir_read (pad : Z -> list Z) i m p e :
  length (pad i) = 4%nat -> in_width 16 (id e) -> in_width 16 (entry_type e) -> length (name e) = 32%nat -> in_width 64 (size e) ->
  holds m p (dir_bytes (pad i) (dir_entry e)) -> dir_entry_at m p = dir_entry e.
Proof.
  intros Hp Hi Ht Hn Hs Hm. unfold dir_bytes in Hm. cbn [dir_entry d_id d_entry_type d_name d_size] in Hm.
  rewrite !holds_app, !le_bytes_length, Hn, Hp in Hm. destruct Hm as (H1 & H2 & H3 & _ & H4). unfold dir_entry_at, dir_entry. f_equal.
  - exact (holds_word m p 2 _ H1 Hi).
  - exact (holds_word m (p + 2) 2 _ H2 Ht).
  - refine (holds_range m (p + 4) 32 _ (holds_at _ _ _ _ _ H3) _); [lia|by rewrite Hn].
  - refine (holds_word m (p + 40) 8 _ (holds_at _ _ _ _ _ H4) Hs). lia.
Qed.

(** The first [k] rounds of the loop of [syscall_fs_read_dir]. *)
Lemma copy_dir_entries pad image buf_ptr m (k : nat) :
  (forall i, length (pad i) = 4%nat) -> 0 <= buf_ptr -> buf_ptr + Z.of_nat k * DIR_ENTRY_SIZE <= USERSPACE_TOP <= image ->
  let m' := foldl (copy_dir_entry pad image buf_ptr) m (seqZ 0 (Z.of_nat k)) in
  (forall a, ~ buf_ptr <= a < buf_ptr + Z.of_nat k * DIR_ENTRY_SIZE -> m' a = m a) /\
  (forall i, 0 <= i < Z.of_nat k -> holds m' (buf_ptr + i * DIR_ENTRY_SIZE) (dir_bytes (pad i) (dir_entry (entry_at m (image + HEADER_SIZE + i * ENTRY_SIZE))))).
Proof.
  intros Hpad Hb. unfold DIR_ENTRY_SIZE, HEADER_SIZE, ENTRY_SIZE, USERSPACE_TOP in *. induction k as [|k IH]; intros Hk; cbv zeta.
  - split; [done|]. intros i Hi. lia.
  - destruct IH as [IH1 IH2]; [lia|]. rewrite seqZ_S, foldl_app. cbn [foldl].
    set (m1 := foldl _ m _) in *. unfold copy_dir_entry. unfold DIR_ENTRY_SIZE, HEADER_SIZE, ENTRY_SIZE. rewrite Z.add_0_l, wrap_small by (unfold in_width; lia).
    set (e := entry_at m1 _). assert (He : e = entry_at m (image + 64 + Z.of_nat k * 64)).
    { apply entry_at_ext. intros a Ha. apply IH1. lia. }
    assert (Hl : length (dir_bytes (pad (Z.of_nat k)) (dir_entry e)) = 48%nat) by (apply dir_bytes_length; [done|apply range_length]).
    split.
    + intros a Ha. rewrite blit_outside by (rewrite Hl; lia). apply IH1. lia.
    + intros i Hi. destruct (decide (i = Z.of_nat k)) as [->|]; [rewrite <- He; apply holds_blit|].
      eapply holds_same; [|apply IH2; lia]. rewrite dir_bytes_length by (done || apply range_length). intros a Ha. apply blit_outside. lia.
Qed.

(** ** The properties *)

Definition user_range (p n : Z) : Prop := USERSPACE_MIN <= p /\ 0 < n /\ p + n <= USERSPACE_TOP.

Lemma syscall_read_file_run {D} m rd (fs : Fs D) name_ptr nm buf_ptr n :
  utf8_valid nm = true -> user_name m name_ptr 32 = nm -> user_range name_ptr 32 -> user_range buf_ptr n -> n <= 4 * 1024 * 1024 ->
  syscall_fs_read_file name_ptr buf_ptr n (mkMachine m rd fs) =
  match rd with
  | Some rd' =>
      match find m rd' nm with
      | Some e => let k := Z.min (size e) n in (mkMachine (blit m buf_ptr (range m (u64 (base rd' + offset e)) k)) rd fs, Ok k)
      | None => (mkMachine m rd fs, Ok U64_MAX)
      end
  | None => (mkMachine m rd fs, Ok U64_MAX)
  end.
Proof.
  intros Hu Hm (Hn1 & _ & Hn2) (Hb1 & Hb2 & Hb3) Hn. unfold USERSPACE_MIN, USERSPACE_TOP in *.
  unfold syscall_fs_read_file. cbn [memory ramdisk].
  rewrite !(proj2 (Z.eqb_neq _ _)), (proj2 (Z.ltb_ge _ _)) by lia. cbn [orb]. unfold checked_add.
  rewrite !(proj2 (Z.ltb_lt _ (2 ^ 64))) by lia. unfold USERSPACE_MIN, USERSPACE_TOP.
  rewrite !(proj2 (Z.ltb_ge _ _)), !(proj2 (Z.leb_gt _ _)) by lia. cbn [orb]. rewrite Hm, Hu. cbn [negb].
  destruct rd as [rd|]; [|done]. by destruct (find m rd nm) as [e|].
Qed.

(** The calls that look a name up and copy a file, where the buffers are the caller's. *)
Lemma read_file_run {D} (s : Machine D) name_ptr nm buf_ptr n :
  plain nm -> utf8_valid nm = true -> user_range name_ptr 32 -> user_range buf_ptr n -> n <= 4 * 1024 * 1024 ->
  let m := blit (memory s) name_ptr (put 0 nm (zeros FPK_NAME_LEN)) in
  read_file name_ptr nm buf_ptr n s =
  match ramdisk s with
  | Some rd =>
      match find m rd nm with
      | Some e => let k := Z.min (size e) n in
                  (s <| memory := blit m buf_ptr (range m (u64 (base rd + offset e)) k) |>, Ok (if k =? U64_MAX then 0 else k))
      | None => (s <| memory := m |>, Ok 0)
      end
  | None => (s <| memory := m |>, Ok 0)
  end.
Proof.
  intros Hp Hu Hnr Hbr Hn. destruct s as [m0 rd fs]. cbv zeta. cbn [memory ramdisk].
  unfold read_file, M_bind, modify. rewrite take_ge by (destruct Hp as [_ Hp]; unfold FPK_NAME_LEN in Hp; lia).
  change (zeros 32) with (zeros FPK_NAME_LEN). set (m := blit m0 name_ptr _).
  cbv beta iota. change ((mkMachine m0 rd fs) <| memory := m |>) with (mkMachine m rd fs).
  rewrite (syscall_read_file_run m rd fs name_ptr nm); [|done| |done|done|done].
  - destruct rd as [rd|]; [|done]. destruct (find m rd nm) as [e|]; done.
  - eapply user_name_ok; [apply Hp|destruct Hp as [_ Hp]; unfold FPK_NAME_LEN in Hp; lia|]. rewrite <- padded by done. apply holds_blit.
Qed.
(** A write below the image leaves it as it is. *)
Lemma mounted_ext sha256 m m' start size files offs :
  mounted sha256 m start size files offs -> (forall a, start <= a < start + size -> m' a = m a) ->
  mounted sha256 m' start size files offs.
Proof.
  intros (H1 & H2 & H3 & H4) He. destruct (from_memory_inv _ _ _ _ H1) as (_ & Hs & Ht & _). unfold HEADER_SIZE in Hs.
  assert (Hh : header_at m' start = header_at m start) by (apply header_at_ext; intros; apply He; lia).
  split; [by eapply from_memory_ext|]. unfold entries, count_entries, header in *. cbn [base] in *. rewrite Hh.
  split; [by rewrite (entries_ext m m' start _ size)|]. split; [done|].
  eapply Forall2_impl; [exact H4|]. intros f off (Hx & Hy & Hz). split; [done|]. split; [done|].
  eapply holds_same, Hz. unfold file_len in Hy. intros a Ha. apply He. lia.
Qed.

Section served.
Context {D : Type} (sha256 : list Z -> list Z) (files : list (AddEntry * list Z)) (offs : list Z) (start size : Z) (s : Machine D).
Context (Hrd : ramdisk s = Some (mkRamdisk start size)) (Hm : mounted sha256 (memory s) start size files offs).
Context (Htop : USERSPACE_TOP <= start) (Hend : start + size < 2 ^ 64).
Context (Hf : Forall packable files) (Hl : length offs = length files) (Ho : Forall (fun off => 0 <= off < 2 ^ 62) offs).

Lemma read_file_served nm name_ptr buf_ptr n :
  plain nm -> utf8_valid nm = true -> user_range name_ptr 32 -> user_range buf_ptr n -> n <= 4 * 1024 * 1024 ->
  exists s', match list_find (fun f => a_name f.1 = nm) files with
    | Some (_, f) => let k := Z.min (file_len f) n in
        read_file name_ptr nm buf_ptr n s = (s', Ok k) /\ range (memory s') buf_ptr k = take (Z.to_nat k) f.2
    | None => read_file name_ptr nm buf_ptr n s = (s', Ok 0)
    end /\
    forall a, ~ name_ptr <= a < name_ptr + 32 -> ~ buf_ptr <= a < buf_ptr + n -> memory s' a = memory s a.
Proof.
  intros Hp Hu Hnr Hbr Hn. rewrite read_file_run, Hrd by done. cbv zeta.
  set (m := blit (memory s) name_ptr (put 0 nm (zeros FPK_NAME_LEN))).
  assert (Hout : forall a, ~ name_ptr <= a < name_ptr + 32 -> m a = memory s a).
  { intros a Ha. apply blit_outside. rewrite padded_length by done. lia. }
  assert (Hm' : mounted sha256 m start size files offs).
  { eapply mounted_ext; [exact Hm|]. intros a Ha. apply Hout. destruct Hnr as (_ & _ & ?). lia. }
  pose proof (find_packed sha256 m _ nm files offs Hp Hf Hl (proj1 (proj2 Hm'))) as Hfind.
  destruct (list_find _ files) as [[i f]|] eqn:E.
  - destruct Hfind as (off & Hoff & ->). apply list_find_Some in E as (Hi & _ & _). cbn [Fpk.size Fpk.offset base packed].
    destruct Hm' as (_ & _ & _ & Hall). destruct (Forall2_lookup_lr _ _ _ _ _ _ Hall Hi Hoff) as (Hx & Hy & Hz).
    destruct Hbr as (Hb1 & Hb2 & Hb3). unfold USERSPACE_MIN, USERSPACE_TOP in *.
    assert (Hk : 0 <= file_len f) by (unfold file_len; lia). set (k := Z.min (file_len f) n).
    rewrite wrap_small by (unfold in_width; lia). rewrite (proj2 (Z.eqb_neq _ _)) by (unfold U64_MAX; lia).
    assert (Hr : range m (start + off) k = take (Z.to_nat k) f.2).
    { rewrite <- Hz. replace (Z.of_nat (length f.2)) with (k + (file_len f - k)) by (unfold file_len; lia).
      rewrite range_app by lia. rewrite take_app_length' by (rewrite range_length; lia). done. }
    eexists. split; [split; [done|]|].
    + cbn [memory]. rewrite Hr. apply holds_range; [apply holds_blit|]. rewrite length_take. unfold file_len in *. lia.
    + intros a Ha1 Ha2. cbn. rewrite blit_outside; [by apply Hout|]. rewrite range_length. lia.
  - rewrite Hfind. eexists. split; [done|]. intros a Ha1 _. by apply Hout.
Qed.

Lemma read_dir_served (pad : Z -> list Z) buf_ptr n :
  (forall i, length (pad i) = 4%nat) -> user_range buf_ptr (n * DIR_ENTRY_SIZE) -> n * DIR_ENTRY_SIZE <= 64 * 1024 ->
  exists s', read_dir pad buf_ptr n s = (s', Ok (Z.min (Z.of_nat (length files)) n)) /\
    (forall i f, files !! i = Some f -> Z.of_nat i < n ->
       let d := dir_entry_at (memory s') (buf_ptr + Z.of_nat i * DIR_ENTRY_SIZE) in
       d_id d = u16 (Z.of_nat i) /\ d_entry_type d = a_type f.1 /\ d_name_str d = a_name f.1 /\ d_size d = file_len f) /\
    forall a, ~ buf_ptr <= a < buf_ptr + n * DIR_ENTRY_SIZE -> memory s' a = memory s a.
Proof.
  intros Hpad (Hb1 & Hb2 & Hb3) Hn. unfold USERSPACE_MIN, USERSPACE_TOP in *. unfold DIR_ENTRY_SIZE in *.
  destruct s as [m rd fs]. cbn [memory ramdisk] in *. subst rd. destruct Hm as (_ & He & Hc & _).
  unfold read_dir, M_bind, syscall_fs_read_dir. cbn [memory ramdisk]. unfold DIR_ENTRY_SIZE, checked_add.
  rewrite (wrap_small 64) by (unfold in_width; lia). rewrite !(proj2 (Z.eqb_neq _ _)), (proj2 (Z.ltb_ge _ _)) by lia. cbn [orb].
  rewrite (proj2 (Z.ltb_lt _ (2 ^ 64))) by lia. unfold USERSPACE_MIN, USERSPACE_TOP.
  rewrite !(proj2 (Z.ltb_ge _ _)), !(proj2 (Z.leb_gt _ _)) by lia. cbn [orb]. rewrite Hc, Z.div_mul by lia.
  set (k := Z.min _ n). cbn [base].
  destruct (copy_dir_entries pad start buf_ptr m (Z.to_nat k) Hpad) as [H1 H2];
    [lia|unfold DIR_ENTRY_SIZE, USERSPACE_TOP; lia|]. rewrite Z2Nat.id in H1, H2 by lia. unfold DIR_ENTRY_SIZE in H1, H2.
  eexists. split; [cbn; rewrite (proj2 (Z.eqb_neq _ _)) by (unfold U64_MAX; lia); done|]. split.
  - intros i f Hi Hin. cbn [memory]. assert (Hk : Z.of_nat i < k) by (apply lookup_lt_Some in Hi; lia).
    destruct (lookup_lt_is_Some_2 offs i) as [off Hoff]; [rewrite Hl; by eapply lookup_lt_Some|].
    assert (Hp : entries m (mkRamdisk start size) !! i = Some (packed sha256 (Z.of_nat i) f off)).
    { rewrite He. apply packed_all_lookup. by exists f, off. }
    unfold entries, entries_from_raw in Hp. rewrite list_lookup_fmap, lookup_seqZ_lt in Hp
      by (change (Z.of_nat i < count_entries m (mkRamdisk start size)); lia).
    cbn [fmap option_fmap option_map base] in Hp. apply Some_inj in Hp. rewrite Z.add_0_l in Hp.
    specialize (H2 (Z.of_nat i) ltac:(lia)). rewrite Hp in H2.
    destruct (Forall_lookup_1 _ _ _ _ Hf Hi) as (Hpl & Hty & Hsz).
    cbv zeta. erewrite (dir_read pad (Z.of_nat i) _ _ _ (Hpad _)); [| | | | |exact H2].
    + unfold d_name_str. cbn [dir_entry packed d_id d_entry_type d_name d_size id entry_type name Fpk.size]. rewrite padded by done.
      rewrite name_len_padded by apply Hpl. rewrite Nat2Z.id, take_app_length. done.
    + by apply wrap_range.
    + done.
    + by apply padded_length.
    + unfold in_width. cbn [packed Fpk.size]. unfold file_len in *. lia.
  - intros a Ha. cbn. apply H1. lia.
Qed.
End served.
(** C9: A packed image is served as it was packed: the kernel mounts it, the
    directory a program reads lists the files in order with their types, names and
    sizes, and reading a name copies the contents of the first file packed under
    it, as much as the buffer takes, or returns 0 when there is none; nothing but
    the two buffers changes. *)
Theorem fpk_image_served {D} sha256 pad files :
  (forall l, (8 <= length (sha256 l))%nat) -> (forall i, length (pad i) = 4%nat) ->
  Forall packable files -> Z.of_nat (length files) < 65536 -> volume files < 2 ^ 61 ->
  exists image, create_fpk sha256 pad files = Ok image /\
  forall (s : Machine D) start, let size := Z.of_nat (length image) in
  ramdisk s = None -> USERSPACE_TOP <= start -> start + size < 2 ^ 64 -> holds (memory s) start image ->
  exists s1, mount_initrd start size s = (s1, Ok true) /\ memory s1 = memory s /\
    (forall nm name_ptr buf_ptr n,
       plain nm -> utf8_valid nm = true -> user_range name_ptr 32 -> user_range buf_ptr n -> n <= 4 * 1024 * 1024 ->
       exists s2, match list_find (fun f => a_name f.1 = nm) files with
         | Some (_, f) => let k := Z.min (file_len f) n in
             read_file name_ptr nm buf_ptr n s1 = (s2, Ok k) /\ range (memory s2) buf_ptr k = take (Z.to_nat k) f.2
         | None => read_file name_ptr nm buf_ptr n s1 = (s2, Ok 0)
         end /\
         forall a, ~ name_ptr <= a < name_ptr + 32 -> ~ buf_ptr <= a < buf_ptr + n -> memory s2 a = memory s1 a) /\
    (forall (pad' : Z -> list Z) buf_ptr n,
       (forall i, length (pad' i) = 4%nat) -> user_range buf_ptr (n * DIR_ENTRY_SIZE) -> n * DIR_ENTRY_SIZE <= 64 * 1024 ->
       exists s2, read_dir pad' buf_ptr n s1 = (s2, Ok (Z.min (Z.of_nat (length files)) n)) /\
         (forall i f, files !! i = Some f -> Z.of_nat i < n ->
            let d := dir_entry_at (memory s2) (buf_ptr + Z.of_nat i * DIR_ENTRY_SIZE) in
            d_id d = u16 (Z.of_nat i) /\ d_entry_type d = a_type f.1 /\ d_name_str d = a_name f.1 /\ d_size d = file_len f) /\
         forall a, ~ buf_ptr <= a < buf_ptr + n * DIR_ENTRY_SIZE -> memory s2 a = memory s1 a).
Proof.
  intros Hsha Hpad Hf Hn Hv. destruct (create_ok sha256 pad Hsha Hpad files Hf Hn Hv) as (image & offs & Hc & _ & Hl & Ho & Hm).
  exists image. split; [done|]. intros s start size Hnone Htop Hend Hi. specialize (Hm (memory s) start Hi). fold size in Hm.
  assert (Hsz : 0 < size) by (destruct (from_memory_inv _ _ _ _ (proj1 Hm)) as (_ & Hs & _); unfold HEADER_SIZE in Hs; lia).
  destruct s as [m rd fs]. cbn [memory ramdisk] in *. subst rd.
  exists (mkMachine m (Some (mkRamdisk start size)) fs). split.
  - unfold mount_initrd. rewrite (proj2 (Z.ltb_lt _ _)) by done. cbn [memory]. by rewrite (proj1 Hm).
  - split; [done|]. split; intros.
    + by apply (read_file_served sha256 files offs start size).
    + by apply (read_dir_served sha256 files offs start size).
Qed.

(** ** Confinement *)

Inductive FsCall : Type :=
| ReadDir (pad : Z -> list Z) (buf_ptr buf_size : Z)
| ReadFile (name_ptr buf_ptr buf_size : Z)
| MvfsWrite (name_ptr name_len data_ptr data_len : Z)
| MvfsRead (name_ptr name_len buf_ptr buf_max : Z)
| MvfsDelete (name_ptr name_len : Z)
| MvfsList (prefix_ptr prefix_len buf_ptr buf_max : Z).

Definition call {D} `{BlockDriver D} (c : FsCall) : Sys (D := D) Z :=
  match c with
  | ReadDir pad p n => syscall_fs_read_dir pad p n
  | ReadFile q p n => syscall_fs_read_file q p n
  | MvfsWrite q k p n => syscall_mvfs_write q k p n
  | MvfsRead q k p n => syscall_mvfs_read q k p n
  | MvfsDelete q k => syscall_mvfs_delete q k
  | MvfsList q k p n => syscall_mvfs_list q k p n
  end.

(** The buffer a call may write. *)
Definition buffer (c : FsCall) : option (Z * Z) :=
  match c with
  | ReadDir _ p n | ReadFile _ p n | MvfsRead _ _ p n | MvfsList _ _ p n => Some (p, n)
  | MvfsWrite _ _ _ _ | MvfsDelete _ _ => None
  end.

(** Arguments are words, and the local variable of [syscall_fs_read_dir] has its padding. *)
Definition args_ok (c : FsCall) : Prop :=
  match buffer c with Some (p, n) => in_width 64 p /\ in_width 64 n | None => True end /\
  match c with ReadDir pad _ _ => forall i, length (pad i) = 4%nat | _ => True end.

(** A ramdisk that was mounted above user space, on an image of bytes. *)
Definition ramdisk_ok {D} (s : Machine D) : Prop :=
  forall rd, ramdisk s = Some rd ->
    USERSPACE_TOP <= base rd /\ base rd + image_size rd < 2 ^ 64 /\
    from_memory (memory s) (base rd) (image_size rd) = Ok rd /\
    forall a, base rd <= a < base rd + image_size rd -> byte (memory s a).

(** A change of the memory by a call. *)
Definition confined {D} (c : FsCall) (s s' : Machine D) : Prop :=
  ramdisk s' = ramdisk s /\
  forall a, memory s' a <> memory s a ->
    exists p n, buffer c = Some (p, n) /\ p <= a < p + n /\ USERSPACE_MIN <= p /\ p + n <= USERSPACE_TOP.

Lemma confined_same {D} c (s s' : Machine D) : ramdisk s' = ramdisk s -> memory s' = memory s -> confined c s s'.
Proof. intros Hr Hm. split; [done|]. intros a Ha. by rewrite Hm in Ha. Qed.

Lemma confined_blit {D} c (s : Machine D) p n l :
  buffer c = Some (p, n) -> USERSPACE_MIN <= p -> p + n <= USERSPACE_TOP -> Z.of_nat (length l) <= n ->
  confined c s (s <| memory := blit (memory s) p l |>).
Proof.
  intros Hb H1 H2 Hl. split; [done|]. intros a Ha. exists p, n. split; [done|]. split; [|done]. cbn in Ha.
  destruct (decide (p <= a < p + n)); [done|]. rewrite blit_outside in Ha by lia. done.
Qed.

Lemma range_ok_spec p n : mvfs_range_ok p n = true -> USERSPACE_MIN <= p /\ p + n <= USERSPACE_TOP.
Proof. unfold mvfs_range_ok, checked_add. intros H. repeat split_match_in H; try discriminate. simplify_eq. bool_prop. lia. Qed.

Lemma list_loop_fits prefix cap t written :
  Z.of_nat (length written) <= cap -> Z.of_nat (length (list_loop prefix cap t written)) <= cap.
Proof.
  revert written. induction t as [|e t IH]; intros written Hw; cbn [list_loop]; [done|].
  split_match; [by apply IH|]. split_match; [done|]. bool_prop. apply IH. rewrite length_app. cbn [length]. lia.
Qed.

Lemma list_files_length prefix out t buf n : list_files prefix out t = (buf, n) -> length buf = length out.
Proof.
  intros [= <- _]. apply put_length; [lia|]. pose proof (list_loop_fits prefix (Z.of_nat (length out)) t [] ltac:(cbn; lia)). lia.
Qed.

Lemma read_length nm out t buf n : Mvfs.read nm out t = Ok (buf, n) -> length buf = length out.
Proof.
  unfold Mvfs.read. intros H. apply obind_ok in H as (k & _ & H). split_match_in H; [|done]. destruct p as [i e].
  injection H as <- _. apply put_length; [lia|]. rewrite length_take. lia.
Qed.
(** What a lookup finds lies in the image. *)
Lemma found_in_image {D} (s : Machine D) rd nm e :
  ramdisk_ok s -> ramdisk s = Some rd -> find (memory s) rd nm = Some e ->
  0 <= offset e /\ 0 <= size e /\ offset e + size e <= image_size rd /\ base rd + offset e + size e < 2 ^ 64.
Proof.
  intros Hok Hrd Hfind. destruct (Hok rd Hrd) as (_ & Hend & Hfm & Hby).
  destruct (from_memory_inv _ _ _ _ Hfm) as (_ & _ & Htab & Hfit). unfold HEADER_SIZE, ENTRY_SIZE in Htab.
  unfold find in Hfind. split_match_in Hfind; [done|]. destruct (list_find _ _) as [[i e']|] eqn:E; [|done]. injection Hfind as ->.
  apply list_find_Some in E as (Hi & _ & _). unfold entries, header in Hi.
  pose proof (Forall_lookup_1 _ _ _ _ Hfit Hi) as He. unfold entries_from_raw in Hi. rewrite list_lookup_fmap, fmap_Some in Hi.
  destruct Hi as (j & Hj & ->). apply lookup_seqZ in Hj as [-> Hj].
  assert (Hw : forall o, 0 <= o <= 56 -> 0 <= word (memory s) (base rd + HEADER_SIZE + (0 + Z.of_nat i) * ENTRY_SIZE + o) 8).
  { intros o Ho. unfold word. apply from_le_bytes_range. unfold range. apply Forall_fmap, Forall_forall. intros a Ha.
    apply elem_of_seqZ in Ha. apply Hby. unfold HEADER_SIZE, ENTRY_SIZE in *. lia. }
  unfold entry_fits, checked_add in He. split_match_in He; [|done]. simplify_eq. bool_prop.
  split; [by apply (Hw 40)|]. split; [by apply (Hw 48)|]. lia.
Qed.

Lemma confined_ok {D} c (s s' : Machine D) : ramdisk_ok s -> confined c s s' -> ramdisk_ok s'.
Proof.
  intros Hok [Hr Hc] rd Hrd. rewrite Hr in Hrd. destruct (Hok rd Hrd) as (H1 & H2 & H3 & H4).
  assert (He : forall a, base rd <= a < base rd + image_size rd -> memory s' a = memory s a).
  { intros a Ha. destruct (decide (memory s' a = memory s a)) as [|Hne]; [done|]. destruct (Hc a Hne) as (p & n & _ & ? & _ & ?). lia. }
  split; [done|]. split; [done|]. split; [by eapply from_memory_ext|]. intros a Ha. rewrite He by done. by apply H4.
Qed.

Lemma read_dir_confined {D} pad p n (s s' : Machine D) r :
  args_ok (ReadDir pad p n) -> ramdisk_ok s -> syscall_fs_read_dir pad p n s = (s', r) -> confined (ReadDir pad p n) s s'.
Proof.
  intros ((Hp & Hn) & Hpad) Hok. unfold in_width in Hp, Hn. unfold syscall_fs_read_dir, checked_add. intros H. repeat split_match_in H; simplify_eq; try by apply confined_same.
  bool_prop. destruct (Hok r0 ltac:(done)) as (Htop & Hend & Hfm & Hby).
  destruct (from_memory_inv _ _ _ _ Hfm) as (_ & _ & Htab & _). unfold HEADER_SIZE, ENTRY_SIZE in Htab.
  assert (Hc : 0 <= count_entries (memory s) r0).
  { unfold count_entries, header, header_at, word. cbn [entry_count]. apply from_le_bytes_range. unfold range.
    apply Forall_fmap, Forall_forall. intros a Ha. apply elem_of_seqZ in Ha. apply Hby.
    destruct (from_memory_inv _ _ _ _ Hfm) as (_ & Hs & _). unfold HEADER_SIZE in Hs. lia. }
  set (k := Z.min _ _). assert (Hk : 0 <= k /\ k * DIR_ENTRY_SIZE <= n).
  { unfold DIR_ENTRY_SIZE in *. pose proof (Z.mul_div_le n 48). pose proof (Z.div_pos n 48). unfold k. lia. }
  destruct (copy_dir_entries pad (base r0) p (memory s) (Z.to_nat k) Hpad) as [Ho _]; [lia|rewrite Z2Nat.id by lia; lia|].
  rewrite Z2Nat.id in Ho by lia. split; [done|]. intros a Ha. cbn [memory update_field] in Ha.
  exists p, n. split; [done|]. split; [|lia]. destruct (decide (p <= a < p + n)); [done|]. exfalso. apply Ha. apply Ho. lia.
Qed.

(** C15: A file system call changes no memory but its buffer, and that only when the
    buffer lies in user space; the ramdisk stays mounted, its image intact; and
    what a read of a file returns is a part of the image. *)
Theorem fs_calls_confined {D} `{BlockDriver D} c (s s' : Machine D) r :
  args_ok c -> ramdisk_ok s -> call c s = (s', r) ->
  confined c s s' /\ ramdisk_ok s' /\
  forall q p n k, c = ReadFile q p n -> r = Ok k -> k <> U64_MAX ->
    exists rd a, ramdisk s = Some rd /\ base rd <= a /\ a + k <= base rd + image_size rd /\ 0 <= k <= n /\
      range (memory s') p k = range (memory s) a k.
Proof.
  intros Ha Hok Hcall. assert (Hcr : confined c s s' /\ forall q p n k, c = ReadFile q p n -> r = Ok k -> k <> U64_MAX ->
    exists rd a, ramdisk s = Some rd /\ base rd <= a /\ a + k <= base rd + image_size rd /\ 0 <= k <= n /\
      range (memory s') p k = range (memory s) a k); [|by destruct Hcr; split; [|split; [eapply confined_ok|]]].
  destruct c; cbn [call] in Hcall.
  - split; [by eapply read_dir_confined|done].
  - destruct Ha as ((Hp & Hn) & _). unfold in_width in Hp, Hn. unfold syscall_fs_read_file, checked_add in Hcall.
    repeat split_match_in Hcall; simplify_eq; try (split; [by apply confined_same|intros; simplify_eq; done]).
    bool_prop. destruct (found_in_image s _ _ _ Hok ltac:(eassumption) ltac:(eassumption)) as (F1 & F2 & F3 & F4).
    destruct (Hok _ ltac:(eassumption)) as (Htop & _). unfold USERSPACE_TOP in Htop. cbn [read sl_len sl_off sl_mem]. rewrite wrap_small by (unfold in_width; lia).
    split; [eapply confined_blit; [done|lia|lia|rewrite range_length; lia]|].
    intros q p n k [= -> -> ->] [= <-] _. eexists _, _. split; [done|]. split; [|split; [|split]]; cycle 3.
    + cbn [memory update_field]. apply holds_range; [apply holds_blit|]. rewrite range_length. lia.
    + lia.
    + lia.
    + lia.
  - unfold syscall_mvfs_write, on_mvfs in Hcall. repeat split_match_in Hcall; simplify_eq; (split; [by apply confined_same|done]).
  - unfold syscall_mvfs_read in Hcall. repeat split_match_in Hcall; simplify_eq; (split; [|done]); try by apply confined_same.
    bool_prop. destruct (range_ok_spec buf_ptr buf_max ltac:(done)). eapply confined_blit; [done|done|done|].
    rewrite (read_length _ _ _ _ _ ltac:(eassumption)), range_length. destruct Ha as ((_ & Hn) & _). unfold in_width in Hn. lia.
  - unfold syscall_mvfs_delete, on_mvfs in Hcall. repeat split_match_in Hcall; simplify_eq; (split; [by apply confined_same|done]).
  - unfold syscall_mvfs_list in Hcall. repeat split_match_in Hcall; simplify_eq; (split; [|done]); try by apply confined_same.
    all: bool_prop; destruct (range_ok_spec buf_ptr buf_max ltac:(done)); (eapply confined_blit; [done|done|done|]).
    all: rewrite (list_files_length _ _ _ _ _ ltac:(eassumption)), range_length.
    all: destruct Ha as ((_ & Hn) & _); unfold in_width in Hn; lia.
Qed.
(** ** A concrete image *)

Definition demo_files : list (AddEntry * list Z) :=
  [(mkAdd (str "init") ENTRY_TYPE_ELF [], [127; 69; 76; 70]); (mkAdd (str "motd") ENTRY_TYPE_DATA [], str "hello");
   (mkAdd (str "motd") ENTRY_TYPE_DATA [], str "shadowed")].

Definition demo_sha (l : list Z) : list Z := replicate 32 (Z.of_nat (length l)).
Definition demo_pad (i : Z) : list Z := [1; 2; 3; 4].

Definition demo_image : list Z := match create_fpk demo_sha demo_pad demo_files with Ok l => l | _ => [] end.
Definition demo_start : Z := 0xFFFF800000000000.

(** A memory with [image] at [start], zero elsewhere. *)
Definition memory_with (start : Z) (image : list Z) : mem := fun a => mem_of_list image (a - start).

Definition demo_machine : Machine MemDisk := mkMachine (memory_with demo_start demo_image) None (mkFs [] 0 VirtioBlk ∅ ∅).

Lemma memory_with_holds start image : holds (memory_with start image) start image.
Proof.
  unfold holds. etrans; [|exact (bytes_of_list image)]. unfold bytes_of, slice_of_list, range. cbn [sl_mem sl_off sl_len].
  rewrite <- (Z.add_0_r start) at 2. rewrite <- (fmap_add_seqZ start 0), <- list_fmap_compose. apply list_fmap_ext.
  intros i x _. unfold compose, memory_with. f_equal. lia.
Qed.

Lemma demo_packable : Forall packable demo_files.
Proof. by repeat (constructor; [split; [split; [by repeat constructor|done]|done]|]). Qed.

Lemma demo_created : create_fpk demo_sha demo_pad demo_files = Ok demo_image /\ Z.of_nat (length demo_image) = 12296.
Proof. split; vm_compute; reflexivity. Qed.

(** The size in the header counts the padding of the last file, which is not written. *)
Lemma total_size_exceeds_image :
  total_size (header_at (mem_of_list demo_image) 0) = 16384 /\ Z.of_nat (length demo_image) = 12296.
Proof. split; vm_compute; reflexivity. Qed.

(** A name of more than 31 bytes is cut by the wrapper: it opens another file. *)
Lemma long_name_is_cut {D} name_ptr nm rest buf_ptr n (s : Machine D) :
  length nm = 31%nat -> read_file name_ptr (nm ++ rest) buf_ptr n s = read_file name_ptr nm buf_ptr n s.
Proof.
  intros Hl. unfold read_file. rewrite !length_app, Hl.
  replace (Z.to_nat (Z.min (Z.of_nat (31 + length rest)) 31)) with 31%nat by lia. change (Z.to_nat (Z.min (Z.of_nat 31) 31)) with 31%nat.
  by rewrite take_app_length', (take_ge nm) by lia.
Qed.

Lemma demo_motd : plain (str "motd").
Proof. split; [by repeat constructor|done]. Qed.

Lemma demo_nothing : plain (str "nothing").
Proof. split; [by repeat constructor|done]. Qed.

Ltac demo_range := unfold user_range, USERSPACE_MIN, USERSPACE_TOP; lia.

Lemma fpk_image_served_witness :
  Forall packable demo_files /\
  exists s1 s2 s3, mount_initrd demo_start 12296 demo_machine = (s1, Ok true) /\
    read_file 0x400000 (str "motd") 0x500000 100 s1 = (s2, Ok 5) /\ range (memory s2) 0x500000 5 = str "hello" /\
    read_file 0x400000 (str "nothing") 0x500000 100 s1 = (s3, Ok 0).
Proof.
  split; [exact demo_packable|].
  destruct (fpk_image_served (D := MemDisk) demo_sha demo_pad demo_files) as (image & Hc & H);
    [by intros l; unfold demo_sha; rewrite length_replicate; lia|done|exact demo_packable|done|done|].
  destruct demo_created as [Hd Hl]. assert (image = demo_image) as -> by congruence. clear Hc Hd.
  destruct (H demo_machine demo_start) as (s1 & Hmount & _ & Hread & _);
    [reflexivity|unfold demo_start, USERSPACE_TOP; lia|rewrite Hl; unfold demo_start; lia|apply memory_with_holds|].
  rewrite Hl in Hmount. clear H Hl.
  destruct (Hread (str "motd") 0x400000 0x500000 100) as (s2 & H2 & _); [exact demo_motd|reflexivity|demo_range|demo_range|lia|].
  destruct (Hread (str "nothing") 0x400000 0x500000 100) as (s3 & H3 & _); [exact demo_nothing|reflexivity|demo_range|demo_range|lia|].
  assert (E2 : list_find (fun f => a_name f.1 = str "motd") demo_files = Some (1%nat, (mkAdd (str "motd") ENTRY_TYPE_DATA [], str "hello")))
    by (vm_compute; reflexivity).
  assert (E3 : list_find (fun f => a_name f.1 = str "nothing") demo_files = None) by (vm_compute; reflexivity).
  rewrite E2 in H2. rewrite E3 in H3. cbv zeta in H2. change (Z.min _ 100) with 5 in H2. change (take _ _) with (str "hello") in H2.
  exists s1, s2, s3. split; [exact Hmount|]. split; [exact (proj1 H2)|]. split; [exact (proj2 H2)|exact H3].
Defined.

Lemma demo_bytes : Forall byte demo_image.
Proof. apply Forall_forall. intros b Hb. assert (Hall : forallb (fun b => (0 <=? b) && (b <? 256)) demo_image = true) by (vm_compute; reflexivity).
  rewrite forallb_forall in Hall. specialize (Hall b (proj1 (list_elem_of_In _ _) Hb)). bool_prop. done.
Qed.

Definition demo_mounted : Machine MemDisk := init_ramdisk (mkRamdisk demo_start 12296) demo_machine.

Lemma demo_ramdisk_ok : ramdisk_ok demo_mounted.
Proof.
  intros rd [= <-]. split; [done|]. split; [done|]. split; [vm_compute; reflexivity|]. intros a Ha.
  exact (mem_of_list_byte _ _ demo_bytes).
Qed.

Lemma fs_calls_confined_witness :
  let c := ReadDir demo_pad 0x600000 100 in
  args_ok c /\ ramdisk_ok demo_mounted /\ (call c demo_mounted).2 = Ok 2 /\ confined c demo_mounted (call c demo_mounted).1.
Proof.
  intros c. assert (Ha : args_ok c) by done. split; [done|]. split; [exact demo_ramdisk_ok|]. split; [vm_compute; reflexivity|].
  destruct (fs_calls_confined c demo_mounted (call c demo_mounted).1 (call c demo_mounted).2 Ha demo_ramdisk_ok) as [Hc _]; [|exact Hc].
  apply surjective_pairing.
Defined.
End Fpk.
