(* ===== verification/Dsml.v ===== *)
(** The user-interface library (src/userspace/libfolkui/src): the markup
    parser, the layout of boxes, hit testing, bindings, and the compiler to
    display lists.

    A string is its bytes.  A tree is its list of nodes, with the children of a
    node as indices.  The parser keeps the bytes from its position on, and the
    position for the errors.  Recursion over nodes takes fuel; running out of
    it is a panic of the model, which the theorems exclude.  The width of a
    progress bar's filled part is computed in floating point: the function is a
    parameter. *)

From Stdlib Require Import String.
From S2P Require Import Prelude Bytes Ring DisplayList.
Import DisplayList.

#[local] Open Scope kernel_scope.

Module Dsml.

(** ** Nodes (dom.rs) *)

Inductive NodeKind : Type := Element | Text.

Record Bounds : Type := mkBounds { x : Z; y : Z; w : Z; h : Z }.

Definition AttrMap : Type := list (list Z * list Z).

Record Node : Type := mkNode { kind : NodeKind; name : list Z; attrs : AttrMap; children : list Z; bounds : Bounds }.

#[export] Instance eta_Node : Eta Node := fun n => mkNode (kind n) (name n) (attrs n) (children n) (bounds n).
#[export] Instance set_attrs : Setter attrs := ltac:(derive_setter).
#[export] Instance set_children : Setter children := ltac:(derive_setter).
#[export] Instance set_bounds : Setter bounds := ltac:(derive_setter).

Definition Tree : Type := list Node.

Definition no_bounds : Bounds := mkBounds 0 0 0 0.

(** [AttrMap::get] *)
Fixpoint get (key : list Z) (m : AttrMap) : option (list Z) :=
  match m with
  | [] => None
  | (k, v) :: m => if decide (k = key) then Some v else get key m
  end.

(** [AttrMap::insert]: the value of a key that is there is replaced. *)
Fixpoint insert (key value : list Z) (m : AttrMap) : AttrMap :=
  match m with
  | [] => [(key, value)]
  | (k, v) :: m => if decide (k = key) then (k, value) :: m else (k, v) :: insert key value m
  end.

(** The value of a digit, below [radix]. *)
Definition digit (radix b : Z) : option Z :=
  let d := if in_range 48 57 b then b - 48 else if in_range 97 122 b then b - 87 else if in_range 65 90 b then b - 55 else radix in
  if d <? radix then Some d else None.

Fixpoint digits (radix acc : Z) (l : list Z) : option Z :=
  match l with
  | [] => Some acc
  | b :: l => match digit radix b with Some d => digits radix (acc * radix + d) l | None => None end
  end.

(** [from_str_radix] of an unsigned type: a leading plus is allowed, and a value
    above [max] is an error. *)
Definition parse_unsigned (radix max : Z) (s : list Z) : option Z :=
  let l := match s with 43 :: (_ :: _) as l => l | _ => s end in
  match l with
  | [] => None
  | _ => match digits radix 0 l with Some v => if v <=? max then Some v else None | None => None end
  end.

(** [str::parse::<i32>] *)
Definition parse_i32 (s : list Z) : option Z :=
  match s with
  | 45 :: (_ :: _) as l => match digits 10 0 l with Some v => if v <=? 2 ^ 31 then Some (- v) else None | None => None end
  | _ => parse_unsigned 10 (2 ^ 31 - 1) s
  end.

Definition get_u32 (key : list Z) (m : AttrMap) : option Z := get key m ≫= parse_unsigned 10 U32_MAX.
Definition get_i32 (key : list Z) (m : AttrMap) : option Z := get key m ≫= parse_i32.

(** Whether a string may be cut at [i]. *)
Definition char_boundary (s : list Z) (i : nat) : bool :=
  match s !! i with Some b => negb (utf8_tail b) | None => (i =? length s)%nat end.

(** [u8::from_str_radix(&v\[i..i + 2\], 16).ok()?] and the rest; cutting a
    character panics. *)
Definition component {A} (v : list Z) (i : nat) (k : Z -> outcome Empty_set (option A)) : outcome Empty_set (option A) :=
  if negb (char_boundary v i && char_boundary v (i + 2)) then Panic else
  match parse_unsigned 16 U8_MAX (take 2 (drop i v)) with
  | None => Ok None
  | Some c => k c
  end.

Definition rgba (r g b a : Z) : Z := Z.lor (Z.lor (Z.lor (Z.shiftl r 24) (Z.shiftl g 16)) (Z.shiftl b 8)) a.

Definition get_color (key : list Z) (m : AttrMap) : outcome Empty_set (option Z) :=
  match get key m with
  | Some (35 :: v) =>
      if (length v =? 6)%nat then
        component v 0 (fun r => component v 2 (fun g => component v 4 (fun b => Ok (Some (rgba r g b 0xFF)))))
      else if (length v =? 8)%nat then
        component v 0 (fun r => component v 2 (fun g => component v 4 (fun b => component v 6 (fun a => Ok (Some (rgba r g b a))))))
      else Ok None
  | _ => Ok None
  end.

Definition root (t : Tree) : option Z := match t with [] => None | _ => Some 0 end.

Definition push (n : Node) (t : Tree) : Tree * Z := (t ++ [n], u32 (Z.of_nat (length t))).

(** [&tree.nodes\[idx as usize\]] *)
Definition node_at (t : Tree) (idx : Z) : option Node := t !! Z.to_nat idx.

Definition update_node (idx : Z) (f : Node -> Node) (t : Tree) : Tree := alter f (Z.to_nat idx) t.

(** ** The parser (parser.rs) *)

Inductive ParseError : Type :=
| UnexpectedEof
| ExpectedTagName (offset : Z)
| MismatchedClose (expected found : list Z) (offset : Z)
| BadAttribute (offset byte : Z)
| TrailingContent (offset : Z).

Record Parser : Type := mkParser { rest : list Z; pos : Z; tree : Tree }.

Definition P (A : Type) : Type := M Parser ParseError A.

Definition is_name_start (b : Z) : bool := in_range 65 90 b || in_range 97 122 b || (b =? 95).
Definition is_name_cont (b : Z) : bool := in_range 65 90 b || in_range 97 122 b || in_range 48 57 b || (b =? 95) || (b =? 45).
Definition is_space (b : Z) : bool := (b =? 32) || (b =? 9) || (b =? 10) || (b =? 13).

(** The longest prefix of bytes with [f], and what follows. *)
Fixpoint span (f : Z -> bool) (l : list Z) : list Z * list Z :=
  match l with
  | [] => ([], [])
  | b :: l' => if f b then let (a, c) := span f l' in (b :: a, c) else ([], l)
  end.

Definition peek : P (option Z) := gets (fun p => head (rest p)).

(** [while let Some(b) = peek() { .. }]: the bytes passed over *)
Definition take_while (f : Z -> bool) : P (list Z) := fun p =>
  let (a, r) := span f (rest p) in (mkParser r (pos p + Z.of_nat (length a)) (tree p), Ok a).

Definition bump : P (option Z) := fun p =>
  match rest p with
  | [] => (p, Ok None)
  | b :: r => (mkParser r (pos p + 1) (tree p), Ok (Some b))
  end.

Definition skip_whitespace : P unit := take_while is_space ;;; M_ret tt.

Definition read_name : P (option (list Z)) :=
  b <- peek ;;
  match b with
  | Some b => if negb (is_name_start b) then M_ret None else nm <- take_while is_name_cont ;; M_ret (Some nm)
  | None => M_ret None
  end.

(** [Err(BadAttribute { offset: self.pos, byte: self.peek().unwrap_or(0) })] *)
Definition bad_attribute {A} : P A := fun p => (p, Err (BadAttribute (pos p) (default 0 (head (rest p))))).

(** [if self.bump() != Some(b) { return Err(e) }] *)
Definition expect (b : Z) (e : P unit) : P unit :=
  c <- bump ;; if decide (c = Some b) then M_ret tt else e.

Definition read_attribute : P (list Z * list Z) :=
  key <- read_name ;;
  match key with
  | None => bad_attribute
  | Some key =>
      expect 61 bad_attribute ;;;
      expect 34 bad_attribute ;;;
      val_start <- gets pos ;;
      val <- take_while (fun b => negb (b =? 34)) ;;
      if negb (utf8_valid val) then throw (BadAttribute val_start (default 0 (head val))) else
      expect 34 (throw UnexpectedEof) ;;;
      M_ret (key, val)
  end.

(** The loop over attributes: the attributes and whether the tag closed itself. *)
Fixpoint read_attributes (fuel : nat) (ats : AttrMap) : P (AttrMap * bool) :=
  match fuel with
  | O => panic
  | S fuel =>
      skip_whitespace ;;;
      b <- peek ;;
      match b with
      | None => throw UnexpectedEof
      | Some b =>
          if b =? 47 then bump ;;; expect 62 bad_attribute ;;; M_ret (ats, true)
          else if b =? 62 then bump ;;; M_ret (ats, false)
          else if is_name_start b then kv <- read_attribute ;; read_attributes fuel (insert kv.1 kv.2 ats)
          else fun p => (p, Err (BadAttribute (pos p) b))
      end
  end.

(** Whether the input goes on with [pat]. *)
Fixpoint is_prefix (pat l : list Z) : bool :=
  match pat, l with
  | [], _ => true
  | a :: pat, b :: l => (a =? b) && is_prefix pat l
  | _, [] => false
  end.

(** The length of the white-space character a string starts with, 0 if none
    ([char::is_whitespace]). *)
Definition space_len (l : list Z) : nat :=
  match l with
  | a :: l =>
      if in_range 9 13 a || (a =? 32) then 1%nat else
      match l with
      | b :: l =>
          if (a =? 0xC2) && ((b =? 0x85) || (b =? 0xA0)) then 2%nat else
          match l with
          | c :: _ =>
              if ((a =? 0xE1) && (b =? 0x9A) && (c =? 0x80)) ||
                 ((a =? 0xE2) && (b =? 0x80) && (in_range 0x80 0x8A c || (c =? 0xA8) || (c =? 0xA9) || (c =? 0xAF))) ||
                 ((a =? 0xE2) && (b =? 0x81) && (c =? 0x9F)) ||
                 ((a =? 0xE3) && (b =? 0x80) && (c =? 0x80)) then 3%nat else 0%nat
          | [] => 0%nat
          end
      | [] => 0%nat
      end
  | [] => 0%nat
  end.

Fixpoint trim_start (fuel : nat) (l : list Z) : list Z :=
  match fuel with
  | O => l
  | S fuel => match space_len l with O => l | n => trim_start fuel (drop n l) end
  end.

(** The white-space character a string ends with. *)
Definition space_end (l : list Z) : nat :=
  let n := length l in
  if (space_len (drop (n - 1) l) =? 1)%nat && (0 <? n)%nat then 1%nat
  else if (space_len (drop (n - 2) l) =? 2)%nat && (1 <? n)%nat then 2%nat
  else if (space_len (drop (n - 3) l) =? 3)%nat && (2 <? n)%nat then 3%nat else 0%nat.

Fixpoint trim_end (fuel : nat) (l : list Z) : list Z :=
  match fuel with
  | O => l
  | S fuel => match space_end l with O => l | n => trim_end fuel (take (length l - n) l) end
  end.

(** [str::trim] *)
Definition trim (l : list Z) : list Z := let l := trim_start (length l) l in trim_end (length l) l.

Definition push_node (n : Node) : P Z := fun p =>
  let (t, idx) := push n (tree p) in (mkParser (rest p) (pos p) t, Ok idx).

Definition modify_node (idx : Z) (f : Node -> Node) : P unit :=
  modify (fun p => mkParser (rest p) (pos p) (update_node idx f (tree p))).

(** A text up to the next tag; nothing is pushed for white space. *)
Definition read_text : P (option Z) :=
  text_start <- gets pos ;;
  raw <- take_while (fun b => negb (b =? 60)) ;;
  if decide (raw = []) then throw UnexpectedEof else
  if negb (utf8_valid raw) then throw (BadAttribute text_start (default 0 (head raw))) else
  let trimmed := trim raw in
  if decide (trimmed = []) then M_ret None else
  idx <- push_node (mkNode Text trimmed [] [] no_bounds) ;; M_ret (Some idx).

(** The closing tag of [tag], whose children are [kids]. *)
Definition close_tag (tag : list Z) (kids : list Z) : P (list Z) :=
  bump ;;; bump ;;;
  close_name <- read_name ;;
  match close_name with
  | None => throw UnexpectedEof
  | Some close_name =>
      if decide (close_name <> tag) then (fun p => (p, Err (MismatchedClose tag close_name (pos p)))) else
      skip_whitespace ;;; expect 62 (throw UnexpectedEof) ;;; M_ret kids
  end.

Fixpoint parse_element (fuel : nat) : P Z :=
  match fuel with
  | O => panic
  | S fuel =>
      c <- bump ;;
      if decide (c <> Some 60) then (fun p => (p, Err (ExpectedTagName (pos p)))) else
      tag <- read_name ;;
      match tag with
      | None => fun p => (p, Err (ExpectedTagName (pos p)))
      | Some tag =>
          elem_idx <- push_node (mkNode Element tag [] [] no_bounds) ;;
          n <- gets (fun p => length (rest p)) ;;
          ac <- read_attributes (S n) [] ;;
          if ac.2 : bool then modify_node elem_idx (fun e => e <| attrs := ac.1 |>) ;;; M_ret elem_idx else
          kids <- parse_children fuel tag [] ;;
          modify_node elem_idx (fun e => (e <| attrs := ac.1 |>) <| children := kids |>) ;;;
          M_ret elem_idx
      end
  end
with parse_children (fuel : nat) (tag : list Z) (kids : list Z) : P (list Z) :=
  match fuel with
  | O => panic
  | S fuel =>
      close <- gets (fun p => is_prefix [60; 47] (rest p)) ;;
      if close : bool then close_tag tag kids else
      b <- peek ;;
      if decide (b = Some 60) then child <- parse_element fuel ;; parse_children fuel tag (kids ++ [child])
      else
      idx <- read_text ;;
      parse_children fuel tag (match idx with Some i => kids ++ [i] | None => kids end)
  end.

(** [parse_element] takes at most one round per byte, and [parse_children] one more. *)
Definition parse_document : P unit :=
  skip_whitespace ;;;
  n <- gets (fun p => length (rest p)) ;;
  parse_element (S n) ;;;
  skip_whitespace ;;;
  fun p => if decide (rest p = []) then (p, Ok tt) else (p, Err (TrailingContent (pos p))).

Definition parse (src : list Z) : outcome ParseError Tree :=
  match parse_document (mkParser src 0 []) with
  | (p, Ok _) => Ok (tree p)
  | (_, Err e) => Err e
  | (_, Panic) => Panic
  end.
(** ** Layout (layout.rs) *)

Record LayoutConstraint : Type := mkConstraint { o_x : Z; o_y : Z; max_w : Z; max_h : Z }.

Inductive Axis : Type := X | Y.
Inductive Justify : Type := JStart | JCenter | JEnd | SpaceBetween.
Inductive Align : Type := AStart | ACenter | AEnd | Stretch.

Definition parse_justify (s : option (list Z)) : Justify :=
  if decide (s = Some (str "center")) then JCenter
  else if decide (s = Some (str "end")) then JEnd
  else if decide (s = Some (str "space-between")) then SpaceBetween
  else JStart.

Definition parse_align (s : option (list Z)) : Align :=
  if decide (s = Some (str "center")) then ACenter
  else if decide (s = Some (str "end")) then AEnd
  else if decide (s = Some (str "stretch")) then Stretch
  else AStart.

Definition GLYPH_W : Z := 8.
Definition GLYPH_H : Z := 16.

Definition saturating_mul (a b : Z) : Z := Z.min U32_MAX (a * b).

(** [s.chars().count()] *)
Definition char_count (s : list Z) : Z := Z.of_nat (length (filter (fun b => utf8_tail b = false) s)).

Definition is_text (n : Node) : bool := match kind n with Text => true | Element => false end.

Definition text_width (n : Node) : Z := saturating_mul (u32 (char_count (name n))) GLYPH_W.

Definition child_intrinsic_main (n : Node) (axis : Axis) : Z :=
  match get_u32 (match axis with X => str "width" | Y => str "height" end) (attrs n) with
  | Some s => s
  | None => if is_text n then match axis with X => text_width n | Y => GLYPH_H end else 0
  end.

Definition child_intrinsic_cross (n : Node) (axis : Axis) : Z :=
  match get_u32 (match axis with X => str "height" | Y => str "width" end) (attrs n) with
  | Some s => s
  | None => if is_text n then match axis with X => GLYPH_H | Y => text_width n end else 0
  end.

Definition child_grow (n : Node) : Z := default 0 (get_u32 (str "flex-grow") (attrs n)).

(** The bounds of a node under a constraint. *)
Definition own_bounds (n : Node) (outer : LayoutConstraint) : Bounds :=
  let bx := default (o_x outer) (get_i32 (str "x") (attrs n)) in
  let by' := default (o_y outer) (get_i32 (str "y") (attrs n)) in
  let bw := default (max_w outer) (get_u32 (str "width") (attrs n)) in
  let bh := default (max_h outer) (get_u32 (str "height") (attrs n)) in
  if is_text n then mkBounds bx by' (Z.min (text_width n) bw) (Z.min GLYPH_H bh) else mkBounds bx by' bw bh.

Definition stack_axis (n : Node) : Axis := if decide (name n = str "HBox") then X else Y.

(** [iter().sum()] of [u32]s in release mode *)
Definition sum32 (l : list Z) : Z := foldl (fun a b => u32 (a + b)) 0 l.

Definition saturating_sum (l : list Z) : Z := foldl (saturating_add 32) 0 l.

(** The last child that grows takes what rounding has left. *)
Fixpoint bump_last_grow (grow sizes : list Z) (leftover : Z) : option (list Z) :=
  match grow, sizes with
  | g :: grow, s :: sizes =>
      match bump_last_grow grow sizes leftover with
      | Some sizes => Some (s :: sizes)
      | None => if 0 <? g then Some (saturating_add 32 s leftover :: sizes) else None
      end
  | _, _ => None
  end.

(** Passes 1 and 2: the sizes of the children on the main axis. *)
Definition distribute (main_avail : Z) (intrinsic grow : list Z) : list Z :=
  let n := u32 (Z.of_nat (length intrinsic)) in
  let total_intrinsic := saturating_sum intrinsic in
  let total_grow := saturating_sum grow in
  if 0 <? total_grow then
    let remaining := saturating_sub main_avail total_intrinsic in
    let sizes := zip_with (fun s g => if 0 <? g then saturating_add 32 s (saturating_mul remaining g / total_grow) else s) intrinsic grow in
    let used := sum32 sizes in
    let want := u32 (total_intrinsic + remaining) in
    if used <? want then default sizes (bump_last_grow grow sizes (u32 (want - used))) else sizes
  else if (0 <? total_intrinsic) && (total_intrinsic <=? main_avail) then intrinsic
  else replicate (length intrinsic) (main_avail / Z.max n 1).

(** Where placing starts, and what it adds between children. *)
Definition justify_offsets (j : Justify) (n total_grow leftover : Z) : Z * Z :=
  if 0 <? total_grow then (0, 0) else
  match j with
  | JStart => (0, 0)
  | JCenter => (leftover / 2, 0)
  | JEnd => (leftover, 0)
  | SpaceBetween => if n <=? 1 then (0, 0) else (0, leftover / (n - 1))
  end.

(** The size and offset of a child on the cross axis. *)
Definition cross (a : Align) (avail intr : Z) : Z * Z :=
  match a with
  | Stretch => (avail, 0)
  | _ =>
      let s := if intr =? 0 then avail else Z.min intr avail in
      (s, match a with ACenter => saturating_sub avail s / 2 | AEnd => saturating_sub avail s | _ => 0 end)
  end.

(** The constraints of the children of [n] in its bounds [b]: pass 3 without the
    recursion. *)
Section slots.
Context (n : Node) (b : Bounds) (kids : list Node).

Definition axis : Axis := stack_axis n.
Definition padding : Z := default 0 (get_u32 (str "padding") (attrs n)).
Definition spacing : Z := default 0 (get_u32 (str "spacing") (attrs n)).
Definition inner_x : Z := i32 (x b + i32 padding).
Definition inner_y : Z := i32 (y b + i32 padding).
Definition inner_w : Z := saturating_sub (w b) (u32 (padding * 2)).
Definition inner_h : Z := saturating_sub (h b) (u32 (padding * 2)).
Definition count : Z := u32 (Z.of_nat (length kids)).
Definition total_spacing : Z := if 1 <? count then u32 (spacing * (count - 1)) else 0.
Definition main_avail : Z := saturating_sub (match axis with Y => inner_h | X => inner_w end) total_spacing.
Definition cross_avail : Z := match axis with Y => inner_w | X => inner_h end.
Definition sizes : list Z := distribute main_avail ((fun c => child_intrinsic_main c axis) <$> kids) (child_grow <$> kids).
Definition leftover : Z := saturating_sub main_avail (u32 (sum32 sizes + total_spacing)).
Definition offsets : Z * Z :=
  justify_offsets (parse_justify (get (str "justify") (attrs n))) count (saturating_sum (child_grow <$> kids)) leftover.

(** The constraint of a child with [main_size] at [main_cursor]. *)
Definition slot (main_cursor main_size : Z) (c : Node) : LayoutConstraint :=
  let (cross_size, cross_off) := cross (parse_align (get (str "align") (attrs n))) cross_avail (child_intrinsic_cross c axis) in
  match axis with
  | Y => mkConstraint (i32 (inner_x + i32 cross_off)) (i32 (inner_y + i32 main_cursor)) cross_size main_size
  | X => mkConstraint (i32 (inner_x + i32 main_cursor)) (i32 (inner_y + i32 cross_off)) main_size cross_size
  end.

Definition next_cursor (main_cursor main_size : Z) (last : bool) : Z :=
  let m := saturating_add 32 (saturating_add 32 main_cursor main_size) spacing in
  if last then m else saturating_add 32 m offsets.2.
End slots.

(** Pass 3: the children [cs] of [n], whose nodes are [ks], get the sizes [ss]. *)
Section place.
Context (layout_child : Tree -> Z -> LayoutConstraint -> outcome Empty_set Tree) (n : Node) (b : Bounds) (kids : list Node).

Fixpoint place (cs : list Z) (ks : list Node) (ss : list Z) (cursor : Z) (t : Tree) : outcome Empty_set Tree :=
  match cs, ks, ss with
  | c :: cs, k :: ks, s :: ss =>
      let? t := layout_child t c (slot n b cursor s k) in
      place cs ks ss (next_cursor n b kids cursor s (bool_decide (cs = []))) t
  | [], _, _ => Ok t
  | _, _, _ => Panic
  end.
End place.

(** [layout_node]; the attributes of the children, which are all the passes look
    at, do not change on the way. *)
Fixpoint layout_node (fuel : nat) (t : Tree) (idx : Z) (outer : LayoutConstraint) : outcome Empty_set Tree :=
  match fuel with
  | O => Panic
  | S fuel =>
      match node_at t idx with
      | None => Panic
      | Some n =>
          let b := own_bounds n outer in
          let t := update_node idx (fun n => n <| bounds := b |>) t in
          if is_text n then Ok t else
          if decide (children n = []) then Ok t else
          match mapM (node_at t) (children n) with
          | None => Panic
          | Some kids => place (layout_node fuel) n b kids (children n) kids (sizes n b kids) (offsets n b kids).1 t
          end
      end
  end.

Definition layout (t : Tree) (outer : LayoutConstraint) : outcome Empty_set Tree :=
  match root t with None => Ok t | Some r => layout_node (length t) t r outer end.

(** ** Hit testing (hit.rs) *)

Definition contains (b : Bounds) (px py : Z) : bool :=
  if (w b =? 0) || (h b =? 0) then false
  else (x b <=? px) && (px <? x b + w b) && (y b <=? py) && (py <? y b + h b).

(** The first child, in the order of [cs], that has a hit; [idx] if none has. *)
Section try.
Context (hit : Z -> outcome Empty_set (option Z)) (idx : Z).

Fixpoint first_hit (cs : list Z) : outcome Empty_set (option Z) :=
  match cs with
  | [] => Ok (Some idx)
  | c :: cs => let? r := hit c in match r with Some d => Ok (Some d) | None => first_hit cs end
  end.
End try.

Fixpoint walk (fuel : nat) (t : Tree) (idx px py : Z) : outcome Empty_set (option Z) :=
  match fuel with
  | O => Panic
  | S fuel =>
      match node_at t idx with
      | None => Ok None
      | Some n =>
          if negb (contains (bounds n) px py) then Ok None
          else first_hit (fun c => walk fuel t c px py) idx (rev (children n))
      end
  end.

Definition hit_test (t : Tree) (px py : Z) : outcome Empty_set (option Z) :=
  match root t with None => Ok None | Some r => walk (length t) t r px py end.

Definition hit_test_id (t : Tree) (px py : Z) : outcome Empty_set (option (list Z)) :=
  let? r := hit_test t px py in
  Ok (id ← r; n ← node_at t id; get (str "id") (attrs n)).

(** ** Bindings (state.rs) *)

Definition AppState : Type := list (list Z * list Z).

Definition state_get (key : list Z) (s : AppState) : option (list Z) :=
  snd <$> (snd <$> list_find (fun e => e.1 = key) s).

Fixpoint state_set (key value : list Z) (s : AppState) : AppState :=
  match s with
  | [] => [(key, value)]
  | (k, v) :: s => if decide (k = key) then (k, value) :: s else (k, v) :: state_set key value s
  end.

(** [swap_remove]: the last entry takes the place of the removed one. *)
Definition state_remove (key : list Z) (s : AppState) : AppState * bool :=
  match list_find (fun e => e.1 = key) s with
  | None => (s, false)
  | Some (i, _) =>
      match last s with
      | None => (s, false)
      | Some e => (take (length s - 1) (<[i := e]> s), true)
      end
  end.
(** ** The compiler (compiler.rs) *)

Definition rect_of (n : Node) (width color radius : Z) : DrawRectCmd :=
  mkRect (x (bounds n)) (y (bounds n)) width (h (bounds n)) color radius.

Definition radius_of (n : Node) (dflt : Z) : Z := u16 (default dflt (get_u32 (str "corner_radius") (attrs n))).

Definition font_size_of (n : Node) : Z := u16 (default 14 (get_u32 (str "font_size") (attrs n))).

Section compile.
Context (fill_width : Z -> list Z -> Z).

(** What a node paints itself, and whether its children are painted after it.
    [fill_width w v] is [((w as f64) * parse_unit(v)) as u32]. *)
Definition paint_node (n : Node) (st : AppState) : outcome Empty_set (list Command * bool) :=
  match kind n with
  | Text => Ok ([DrawText (x (bounds n)) (y (bounds n)) 0xFFFFFFFF 14 (name n)], false)
  | Element =>
      if decide (name n = str "Window") then
        let? color := get_color (str "bg_color") (attrs n) in
        Ok (match color with Some c => [DrawRect (rect_of n (w (bounds n)) c (radius_of n 0))] | None => [] end, true)
      else if decide (name n = str "Button") then
        let? color := get_color (str "bg_color") (attrs n) in
        Ok ([DrawRect (rect_of n (w (bounds n)) (default 0x3A3A3AFF color) (radius_of n 4))], true)
      else if decide (name n = str "ProgressBar") then
        let? track := get_color (str "track_color") (attrs n) in
        let fill_w := fill_width (w (bounds n)) (default (str "0") (get (str "value") (attrs n))) in
        let? fill := if 0 <? fill_w then
            let? c := get_color (str "fill_color") (attrs n) in Ok [DrawRect (rect_of n fill_w (default 0x4AC0FFFF c) 2)]
          else Ok [] in
        Ok (DrawRect (rect_of n (w (bounds n)) (default 0x2A2A2AFF track) 2) :: fill, false)
      else if decide (name n = str "Text") then
        match get (str "bind_text") (attrs n) ≫= (fun key => state_get key st) with
        | Some value =>
            let? color := get_color (str "color") (attrs n) in
            Ok ([DrawText (x (bounds n)) (y (bounds n)) (default 0xFFFFFFFF color) (font_size_of n) value], false)
        | None => Ok ([], true)
        end
      else Ok ([], true)
  end.

(** The builder after the commands. *)
Definition draw (cmds : list Command) (b : list Z) : list Z := fold_left (fun b c => emit c b) cmds b.

Fixpoint emit_node (fuel : nat) (t : Tree) (idx : Z) (st : AppState) (b : list Z) : outcome Empty_set (list Z) :=
  match fuel with
  | O => Panic
  | S fuel =>
      match node_at t idx with
      | None => Panic
      | Some n =>
          let? (cmds, inside) := paint_node n st in
          let b := draw cmds b in
          if negb inside then Ok b else
          foldl (fun r c => let? b := r in emit_node fuel t c st b) (Ok b) (children n)
      end
  end.

Definition compile_into (t : Tree) (st : AppState) : outcome Empty_set (list Z) :=
  let? b := match root t with None => Ok [] | Some r => emit_node (length t) t r st [] end in
  Ok (end_frame b).
End compile.

(** ** Partial frames (diff.rs) *)

Record DiffEntry : Type := mkEntry {
  key : list Z; last_value : list Z; e_x : Z; e_y : Z; e_w : Z; e_h : Z; bg_color : Z; fg_color : Z; e_font_size : Z
}.

Record DiffState : Type := mkDiff { entries : list DiffEntry; initialized : bool }.

Definition diff_new : DiffState := mkDiff [] false.
Definition diff_reset (d : DiffState) : DiffState := mkDiff [] false.

(** What a node paints on the first frame, whether its children are painted,
    with which background, and what is recorded. *)
Definition paint_full (n : Node) (st : AppState) (ancestor_bg : Z) : outcome Empty_set (list Command * bool * Z * list DiffEntry) :=
  let? own_bg := get_color (str "bg_color") (attrs n) in
  let bg_for_children := default ancestor_bg own_bg in
  match kind n with
  | Text => Ok ([DrawText (x (bounds n)) (y (bounds n)) 0xFFFFFFFF 14 (name n)], false, bg_for_children, [])
  | Element =>
      if decide (name n = str "Window") then
        Ok (match own_bg with Some c => [DrawRect (rect_of n (w (bounds n)) c (radius_of n 0))] | None => [] end, true, bg_for_children, [])
      else if decide (name n = str "Button") then
        let color := default 0x3A3A3AFF own_bg in
        Ok ([DrawRect (rect_of n (w (bounds n)) color (radius_of n 4))], true, color, [])
      else if decide (name n = str "ProgressBar") then
        let? track := get_color (str "track_color") (attrs n) in
        Ok ([DrawRect (rect_of n (w (bounds n)) (default 0x2A2A2AFF track) 2)], false, bg_for_children, [])
      else if decide (name n = str "Text") then
        match get (str "bind_text") (attrs n) with
        | Some k =>
            let? color := get_color (str "color") (attrs n) in
            let fg := default 0xFFFFFFFF color in
            let value := default [] (state_get k st) in
            let entry := mkEntry k value (x (bounds n)) (y (bounds n)) (Z.max (w (bounds n)) (u32 (8 * u32 (char_count value)))) 16
                           bg_for_children fg (font_size_of n) in
            if decide (value = []) then Ok ([], true, ancestor_bg, [entry])
            else Ok ([DrawText (x (bounds n)) (y (bounds n)) fg (font_size_of n) value], false, ancestor_bg, [entry])
        | None => Ok ([], true, ancestor_bg, [])
        end
      else Ok ([], true, bg_for_children, [])
  end.

(** The walk of the first frame; a node's entry is recorded after its children. *)
Fixpoint walk_full (fuel : nat) (t : Tree) (idx : Z) (st : AppState) (ancestor_bg : Z) (acc : list DiffEntry * list Z)
    : outcome Empty_set (list DiffEntry * list Z) :=
  match fuel with
  | O => Panic
  | S fuel =>
      match node_at t idx with
      | None => Panic
      | Some n =>
          let? (cmds, inside, bg, es) := paint_full n st ancestor_bg in
          let acc := (acc.1, draw cmds acc.2) in
          let? acc := if negb inside then Ok acc
            else foldl (fun r c => let? acc := r in walk_full fuel t c st bg acc) (Ok acc) (children n) in
          Ok (acc.1 ++ es, acc.2)
      end
  end.

(** One cached binding on a later frame. *)
Definition diff_entry (st : AppState) (e : DiffEntry) : DiffEntry * list Command :=
  let new_val := default [] (state_get (key e) st) in
  if decide (new_val = last_value e) then (e, [])
  else
    let new_width := Z.max (u32 (8 * u32 (char_count new_val))) (e_w e) in
    (mkEntry (key e) new_val (e_x e) (e_y e) new_width (e_h e) (bg_color e) (fg_color e) (e_font_size e),
     [DrawRect (mkRect (e_x e) (e_y e) new_width (e_h e) (bg_color e) 0);
      DrawText (e_x e) (e_y e) (fg_color e) (e_font_size e) new_val]).

Definition emit_diff (st : AppState) (d : DiffState) : DiffState * list Z :=
  (mkDiff ((fun e => (diff_entry st e).1) <$> entries d) (initialized d), draw (concat ((fun e => (diff_entry st e).2) <$> entries d)) []).

Definition compile_diff_into (t : Tree) (st : AppState) (d : DiffState) : outcome Empty_set (DiffState * list Z) :=
  if initialized d then let (d, b) := emit_diff st d in Ok (d, end_frame b)
  else
    let? (es, b) := match root t with None => Ok (entries d, []) | Some r => walk_full (length t) t r st 0 (entries d, []) end in
    Ok (mkDiff es true, end_frame b).
(** ** Documents

    The tree of nodes a list of nodes stands for: [flat i d] is the list the
    parser makes of [d] when its root gets the index [i]. *)

Inductive doc : Type := Doc (n : Node) (cs : list doc).

Fixpoint doc_size (d : doc) : nat := match d with Doc _ cs => S (list_sum (map doc_size cs)) end.

Fixpoint indices (i : nat) (cs : list doc) : list Z :=
  match cs with [] => [] | c :: cs => Z.of_nat i :: indices (i + doc_size c) cs end.

Fixpoint flat (i : nat) (d : doc) : list Node :=
  match d with
  | Doc n cs =>
      (n <| children := indices (S i) cs |>) ::
      (fix go (i : nat) (cs : list doc) : list Node :=
         match cs with [] => [] | c :: cs => flat i c ++ go (i + doc_size c)%nat cs end) (S i) cs
  end.

Fixpoint flats (i : nat) (cs : list doc) : list Node :=
  match cs with [] => [] | c :: cs => flat i c ++ flats (i + doc_size c)%nat cs end.

Lemma flat_eq i n cs : flat i (Doc n cs) = (n <| children := indices (S i) cs |>) :: flats (S i) cs.
Proof. reflexivity. Qed.

Lemma doc_induction (Q : doc -> Prop) : (forall n cs, Forall Q cs -> Q (Doc n cs)) -> forall d, Q d.
Proof.
  intros H. refine (fix IH d := match d with Doc n cs => H n cs _ end). induction cs as [|c cs IHcs]; constructor; [apply IH|done].
Qed.

Definition sizes_of (cs : list doc) : nat := list_sum (map doc_size cs).

Lemma flat_length i d : length (flat i d) = doc_size d.
Proof.
  revert i. induction d as [n cs IH] using doc_induction; intros i. rewrite flat_eq. cbn [length doc_size]. f_equal.
  generalize (S i). induction IH as [|c cs Hc _ IHcs]; intros j; [done|].
  cbn [flats map list_sum fold_right]. rewrite length_app, Hc. f_equal. apply IHcs.
Qed.

Lemma flats_length i cs : length (flats i cs) = sizes_of cs.
Proof.
  revert i. induction cs as [|c cs IH]; intros i; [done|]. cbn [flats]. unfold sizes_of. cbn [map list_sum fold_right].
  rewrite length_app, flat_length. f_equal. apply IH.
Qed.

Lemma flats_app i a b : flats i (a ++ b) = flats i a ++ flats (i + sizes_of a)%nat b.
Proof.
  revert i. induction a as [|c a IH]; intros i; cbn [flats app].
  - by rewrite Nat.add_0_r.
  - rewrite IH, <- app_assoc. unfold sizes_of. cbn [map list_sum fold_right]. by rewrite Nat.add_assoc.
Qed.

Lemma indices_app i a b : indices i (a ++ b) = indices i a ++ indices (i + sizes_of a)%nat b.
Proof.
  revert i. induction a as [|c a IH]; intros i; cbn [indices app].
  - by rewrite Nat.add_0_r.
  - rewrite IH. unfold sizes_of. cbn [map list_sum fold_right]. by rewrite Nat.add_assoc.
Qed.

(** ** The scanner *)

Lemma span_spec f l : let (a, r) := span f l in l = a ++ r /\ Forall (fun b => f b = true) a /\ forall b, head r = Some b -> f b = false.
Proof.
  induction l as [|b l IH]; cbn [span]; [done|]. destruct (f b) eqn:E.
  - destruct (span f l) as [a r]. destruct IH as (-> & Ha & Hr). by repeat constructor.
  - split; [done|]. split; [done|]. by intros ? [= <-].
Qed.

Lemma span_app f a r : Forall (fun b => f b = true) a -> (forall b, head r = Some b -> f b = false) -> span f (a ++ r) = (a, r).
Proof.
  intros Ha Hr. induction Ha as [|b a Hb _ IH]; cbn [app span]; [|by rewrite Hb, IH].
  destruct r as [|b r]; [done|]. cbn [span]. by rewrite (Hr b).
Qed.

Lemma bind_to {S E A B} (m : M S E A) (f : A -> M S E B) s s' a : m s = (s', Ok a) -> M_bind f m s = f a s'.
Proof. intros H. unfold M_bind. by rewrite H. Qed.

Lemma take_while_run f a r q t :
  Forall (fun b => f b = true) a -> (forall b, head r = Some b -> f b = false) ->
  take_while f (mkParser (a ++ r) q t) = (mkParser r (q + Z.of_nat (length a)) t, Ok a).
Proof. intros Ha Hr. unfold take_while. cbn [rest]. by rewrite span_app. Qed.

Definition name_ok (nm : list Z) : Prop :=
  (exists b, head nm = Some b /\ is_name_start b = true) /\ Forall (fun b => is_name_cont b = true) nm.

Lemma read_name_run nm r q t :
  name_ok nm -> (forall b, head r = Some b -> is_name_cont b = false) ->
  read_name (mkParser (nm ++ r) q t) = (mkParser r (q + Z.of_nat (length nm)) t, Ok (Some nm)).
Proof.
  intros ((b & Hb & Hs) & Hc) Hr. destruct nm as [|b' nm]; [done|]. injection Hb as ->.
  unfold read_name, peek, gets, M_bind at 1. cbn [rest app head]. rewrite Hs. cbn [negb].
  change (b :: nm ++ r) with ((b :: nm) ++ r). by rewrite (bind_to _ _ _ _ _ (take_while_run _ _ _ q t Hc Hr)).
Qed.

Lemma expect_run b e r q t : expect b e (mkParser (b :: r) q t) = (mkParser r (q + 1) t, Ok tt).
Proof. unfold expect, bump, M_bind. cbn [rest pos tree]. by rewrite decide_True. Qed.

Definition attr_ok (a : list Z * list Z) : Prop := name_ok a.1 /\ Forall (fun b => b <> 34) a.2 /\ utf8_valid a.2 = true.

Definition print_value (a : list Z * list Z) : list Z := a.1 ++ 61 :: 34 :: a.2 ++ [34].

Lemma read_attribute_run a r q t :
  attr_ok a -> read_attribute (mkParser (print_value a ++ r) q t) = (mkParser r (q + Z.of_nat (length (print_value a))) t, Ok a).
Proof.
  intros (Hk & Hv & Hu). destruct a as [k v]. cbn [fst snd] in *. unfold read_attribute, print_value. cbn [fst snd].
  rewrite <- app_assoc. cbn [app]. rewrite <- app_assoc. cbn [app].
  rewrite (bind_to _ _ _ _ _ (read_name_run k (61 :: _) q t Hk ltac:(by intros ? [= <-]))).
  rewrite (bind_to _ _ _ _ _ (expect_run _ _ _ _ _)), (bind_to _ _ _ _ _ (expect_run _ _ _ _ _)).
  unfold gets, M_bind at 1. cbn [pos].
  erewrite bind_to; [|apply (take_while_run _ v (34 :: r)); [|by intros ? [= <-]]].
  - rewrite Hu. cbn [negb]. rewrite (bind_to _ _ _ _ _ (expect_run _ _ _ _ _)). unfold M_ret. do 2 f_equal.
    rewrite !length_app. cbn [length]. rewrite length_app. cbn [length]. lia.
  - eapply Forall_impl; [exact Hv|]. intros b Hb. cbn. by apply negb_true_iff, Z.eqb_neq.
Qed.
Lemma skip_run a r q t :
  Forall (fun b => is_space b = true) a -> (forall b, head r = Some b -> is_space b = false) ->
  skip_whitespace (mkParser (a ++ r) q t) = (mkParser r (q + Z.of_nat (length a)) t, Ok tt).
Proof. intros Ha Hr. unfold skip_whitespace. by rewrite (bind_to _ _ _ _ _ (take_while_run _ _ _ q t Ha Hr)). Qed.

Definition keys (m : AttrMap) : list (list Z) := m.*1.

Lemma insert_new k v m : k ∉ keys m -> insert k v m = m ++ [(k, v)].
Proof.
  induction m as [|[k' v'] m IH]; intros Hk; cbn [insert app]; [done|]. unfold keys in Hk. rewrite fmap_cons in Hk.
  apply not_elem_of_cons in Hk as [Hne Hk]. rewrite decide_False by (intros ->; by apply Hne). f_equal. by apply IH.
Qed.

Definition print_attr (a : list Z * list Z) : list Z := 32 :: print_value a.

(** The end of a tag that closes itself, or does not. *)
Definition tag_end (closed : bool) : list Z := if closed then [47; 62] else [62].

Lemma name_start_bounds b : is_name_start b = true -> is_space b = false /\ (b =? 47) = false /\ (b =? 62) = false /\ b <> 60.
Proof.
  unfold is_name_start, is_space, in_range. intros H. apply orb_true_iff in H as [H|H]; [apply orb_true_iff in H as [H|H]|]; bool_prop;
    (split; [|split; [apply Z.eqb_neq; lia|split; [apply Z.eqb_neq; lia|lia]]]); rewrite !(proj2 (Z.eqb_neq _ _)) by lia; done.
Qed.

Lemma read_attributes_run ats acc fuel closed r q t :
  Forall attr_ok ats -> NoDup (keys acc ++ keys ats) -> (length ats < fuel)%nat ->
  exists q', read_attributes fuel acc (mkParser (concat (map print_attr ats) ++ tag_end closed ++ r) q t) = (mkParser r q' t, Ok (acc ++ ats, closed)).
Proof.
  intros Hats. revert acc fuel q. induction Hats as [|a ats Ha Hats IH]; intros acc fuel q Hnd Hf; (destruct fuel as [|fuel]; [cbn in Hf; lia|]).
  - cbn [map concat app read_attributes].
    erewrite bind_to; [|apply (skip_run []); [done|by destruct closed; intros ? [= <-]]].
    rewrite app_nil_r. destruct closed; cbn [tag_end app].
    + rewrite (bind_to peek _ _ _ (Some 47)) by done. cbn [Z.eqb Pos.eqb]. rewrite (bind_to bump _ _ _ (Some 47)) by done.
      rewrite (bind_to _ _ _ _ _ (expect_run _ _ _ _ _)). by eexists.
    + rewrite (bind_to peek _ _ _ (Some 62)) by done. cbn [Z.eqb Pos.eqb]. rewrite (bind_to bump _ _ _ (Some 62)) by done. by eexists.
  - pose proof Ha as (((b & Hb & Hs) & _) & _). destruct a as [k v]. cbn [fst] in Hb. destruct k as [|b' k]; [done|]. injection Hb as ->.
    destruct (name_start_bounds b Hs) as (H1 & H2 & H3 & _). cbn [map concat read_attributes]. unfold print_attr at 1. rewrite <- app_assoc.
    change ((32 :: print_value (b :: k, v)) ++ ?l) with ([32] ++ (print_value (b :: k, v) ++ l)).
    erewrite bind_to; [|apply (skip_run [32]); [by repeat constructor|by intros ? [= <-]]].
    erewrite (bind_to peek); [|reflexivity]. cbn [rest print_value fst app head]. rewrite H2, H3, Hs.
    change (b :: (k ++ 61 :: 34 :: snd (b :: k, v) ++ [34]) ++ ?l) with (print_value (b :: k, v) ++ l).
    erewrite bind_to; [|by apply read_attribute_run]. cbn [fst snd].
    rewrite insert_new. 2:{ intros Hin. apply NoDup_app in Hnd as (_ & Hdis & _). apply (Hdis _ Hin). by apply list_elem_of_here. }
    replace (acc ++ (b :: k, v) :: ats) with ((acc ++ [(b :: k, v)]) ++ ats) by (by rewrite <- app_assoc). apply IH; [|cbn in Hf; lia]. unfold keys in *. rewrite fmap_app. cbn [fmap list_fmap fst] in *.
    by rewrite <- app_assoc.
Qed.

(** ** Printing a document *)

Fixpoint print (d : doc) : list Z :=
  match d with
  | Doc n cs =>
      match kind n with
      | Text => name n
      | Element =>
          60 :: name n ++ concat (map print_attr (attrs n)) ++
          match cs with
          | [] => tag_end true
          | _ => tag_end false ++ flat_map print cs ++ 60 :: 47 :: name n ++ [62]
          end
      end
  end.

Definition is_text_doc (d : doc) : bool := match d with Doc n _ => is_text n end.

(** No two texts in a row: printed, they would be one. *)
Fixpoint separate (cs : list doc) : Prop :=
  match cs with
  | c :: (c' :: _) as cs' => (is_text_doc c && is_text_doc c' = false) /\ separate cs'
  | _ => True
  end.

Inductive printable : doc -> Prop :=
| printable_text s :
    s <> [] -> trim s = s -> utf8_valid s = true -> Forall (fun b => b <> 60) s ->
    printable (Doc (mkNode Text s [] [] no_bounds) [])
| printable_element tag ats cs :
    name_ok tag -> Forall attr_ok ats -> NoDup (keys ats) -> Forall printable cs -> separate cs ->
    printable (Doc (mkNode Element tag ats [] no_bounds) cs).

Lemma printable_induction (Q : doc -> Prop) :
  (forall s, s <> [] -> trim s = s -> utf8_valid s = true -> Forall (fun b => b <> 60) s -> Q (Doc (mkNode Text s [] [] no_bounds) [])) ->
  (forall tag ats cs, name_ok tag -> Forall attr_ok ats -> NoDup (keys ats) -> Forall printable cs -> Forall Q cs -> separate cs ->
     Q (Doc (mkNode Element tag ats [] no_bounds) cs)) ->
  forall d, printable d -> Q d.
Proof.
  intros Ht He d. induction d as [n cs IH] using doc_induction. intros Hp. inversion Hp; subst; [by apply Ht|].
  apply He; try done. apply Forall_forall. intros c Hc. rewrite Forall_forall in IH. apply (IH c Hc).
  by match goal with H : Forall printable cs |- _ => rewrite Forall_forall in H; apply H end.
Qed.
(** ** Parsing what was printed *)

Lemma modify_node_run f n T L r q :
  Z.of_nat (length T) < 2 ^ 32 ->
  modify_node (u32 (Z.of_nat (length T))) f (mkParser r q (T ++ n :: L)) = (mkParser r q (T ++ f n :: L), Ok tt).
Proof.
  intros Hl. unfold modify_node, modify, update_node. cbn [rest pos tree]. rewrite wrap_small by (unfold in_width; lia).
  rewrite Nat2Z.id. pose proof (alter_app_r f T (n :: L) 0) as E. rewrite Nat.add_0_r in E. do 2 f_equal. exact E.
Qed.

Lemma push_node_run n T r q :
  push_node n (mkParser r q T) = (mkParser r q (T ++ [n]), Ok (u32 (Z.of_nat (length T)))).
Proof. done. Qed.

(** The parser reads [d], printed before [r], and adds its nodes to the tree. *)
Definition reads (d : doc) : Prop := forall fuel T r q,
  (length (print d) <= fuel)%nat -> Z.of_nat (length T + doc_size d) < 2 ^ 32 ->
  exists q', parse_element fuel (mkParser (print d ++ r) q T) = (mkParser r q' (T ++ flat (length T) d), Ok (Z.of_nat (length T))).

Lemma read_text_run s T r q :
  s <> [] -> trim s = s -> utf8_valid s = true -> Forall (fun b => b <> 60) s -> head r = Some 60 -> Z.of_nat (length T) < 2 ^ 32 ->
  exists q', read_text (mkParser (s ++ r) q T) =
    (mkParser r q' (T ++ [mkNode Text s [] [] no_bounds]), Ok (Some (Z.of_nat (length T)))).
Proof.
  intros Hs Ht Hu Hb Hr HT. unfold read_text. unfold gets, M_bind at 1. cbn [pos].
  erewrite bind_to; [|apply take_while_run; [|by rewrite Hr; intros ? [= <-]]].
  2:{ eapply Forall_impl; [exact Hb|]. intros b Hne. cbn. by apply negb_true_iff, Z.eqb_neq. }
  rewrite decide_False, Hu, Ht by done. cbn [negb]. rewrite decide_False by done.
  rewrite (bind_to _ _ _ _ _ (push_node_run _ _ _ _)), wrap_small by (unfold in_width; lia). by eexists.
Qed.

Lemma print_element_head tag ats cs rest : exists l, print (Doc (mkNode Element tag ats [] no_bounds) cs) ++ rest = 60 :: tag ++ l.
Proof. cbn [print kind name]. eexists. cbn [app]. by rewrite <- app_assoc. Qed.

(** A tag that opens an element does not look like one that closes it. *)
Lemma not_closing tag l : name_ok tag -> is_prefix [60; 47] (60 :: tag ++ l) = false.
Proof.
  intros ((b & Hb & Hs) & _). destruct tag as [|b' tag]; [done|]. injection Hb as ->.
  destruct (name_start_bounds b Hs) as (_ & H & _). cbn [is_prefix app]. rewrite Z.eqb_sym in H. rewrite H. by rewrite andb_false_r.
Qed.

(** What follows a text is a tag. *)
Lemma tag_follows c cs l :
  is_text_doc c = true -> separate (c :: cs) -> Forall printable cs -> head (flat_map print cs ++ 60 :: l) = Some 60.
Proof.
  intros Hc Hs Hp. destruct cs as [|c' cs]; [done|]. destruct Hs as [Hs _]. rewrite Hc in Hs. inversion_clear Hp as [|? ? Hp' _].
  cbn [flat_map]. rewrite <- app_assoc. destruct Hp'; [done|]. by destruct (print_element_head tag ats cs0 (flat_map print cs ++ 60 :: l)) as [l' ->].
Qed.

Lemma parse_children_run tag cs kids fuel T r q :
  name_ok tag -> Forall printable cs -> Forall (fun d => is_text_doc d = false -> reads d) cs -> separate cs ->
  (length (flat_map print cs) < fuel)%nat -> Z.of_nat (length T + sizes_of cs) < 2 ^ 32 ->
  exists q', parse_children fuel tag kids (mkParser (flat_map print cs ++ 60 :: 47 :: tag ++ 62 :: r) q T) =
    (mkParser r q' (T ++ flats (length T) cs), Ok (kids ++ indices (length T) cs)).
Proof.
  intros Ht Hp Hr. revert kids fuel T q. induction Hp as [|c cs Hc Hp IH]; intros kids fuel T q Hsep Hf HT;
    (destruct fuel as [|fuel]; [cbn in Hf; lia|]).
  - cbn [flat_map app flats indices parse_children]. rewrite !app_nil_r.
    unfold gets, M_bind at 1. cbn [rest is_prefix Z.eqb Pos.eqb andb].
    unfold close_tag. do 2 (rewrite (bind_to bump _ _ (mkParser _ (_ + 1) T) (Some _)) by reflexivity).
    erewrite bind_to; [|by apply (read_name_run tag (62 :: r)); [|by intros ? [= <-]]].
    cbv beta iota. rewrite decide_False by (intros Hne; by apply Hne).
    erewrite bind_to; [|apply (skip_run []); [done|by intros ? [= <-]]].
    rewrite (bind_to _ _ _ _ _ (expect_run _ _ _ _ _)). by eexists.
  - inversion_clear Hr as [|? ? Hrc Hrcs]. specialize (IH Hrcs).
    assert (Hsep' : separate cs) by (destruct cs; [done|apply Hsep]).
    assert (Hsz : sizes_of (c :: cs) = (doc_size c + sizes_of cs)%nat) by done. rewrite Hsz in HT.
    cbn [flat_map] in Hf |- *. rewrite length_app in Hf. rewrite <- app_assoc. cbn [flats indices].
    set (after := flat_map print cs ++ 60 :: 47 :: tag ++ 62 :: r).
    cbn [parse_children]. inversion Hc as [s H1 H2 H3 H4 E|tag' ats cs' H1 H2 H3 H4 H5 E]; subst c.
    + cbn [print kind name] in *. destruct (read_text_run s T after q) as [q1 H5]; [done|done|done|done| |lia|].
      { by eapply (tag_follows (Doc (mkNode Text s [] [] no_bounds) [])). }
      destruct (IH (kids ++ [Z.of_nat (length T)]) fuel (T ++ [mkNode Text s [] [] no_bounds]) q1) as [q2 H6];
        [done|destruct s; [done|cbn in Hf; lia]|rewrite length_app; cbn [length doc_size map list_sum fold_right] in *; lia|].
      exists q2. destruct s as [|b s]; [done|]. inversion_clear H4 as [|? ? Hb _].
      unfold gets, M_bind at 1. cbn [rest app is_prefix]. rewrite (proj2 (Z.eqb_neq 60 b)) by congruence. cbn [andb].
      rewrite (bind_to peek _ _ (mkParser (b :: s ++ after) q T) (Some b)) by done. rewrite decide_False by congruence.
      change (b :: s ++ after) with ((b :: s) ++ after). rewrite (bind_to _ _ _ _ _ H5). cbv beta iota. fold after in H6. rewrite H6, length_app.
      cbn [length flats flat indices doc_size map list_sum fold_right app]. by rewrite <- !app_assoc, !(Nat.add_1_r (length T)).
    + set (d := Doc (mkNode Element tag' ats [] no_bounds) cs') in *.
      assert (H6 : (0 < length (print d))%nat) by (cbn; lia).
      destruct (Hrc eq_refl fuel T after q) as [q1 H7]; [lia|lia|].
      destruct (IH (kids ++ [Z.of_nat (length T)]) fuel (T ++ flat (length T) d) q1) as [q2 H8];
        [done|lia|rewrite length_app, flat_length; lia|].
      exists q2. destruct (print_element_head tag' ats cs' after) as [l El]. fold d in El.
      unfold gets, M_bind at 1. cbn [rest]. rewrite El, not_closing by done. rewrite <- El.
      rewrite (bind_to peek _ _ (mkParser (print d ++ after) q T) (Some 60)) by (unfold peek, gets; cbn [rest]; by rewrite El).
      rewrite decide_True by done. rewrite (bind_to _ _ _ _ _ H7). cbv beta iota. fold after in H8. rewrite H8, length_app, flat_length. by rewrite <- !app_assoc.
Qed.

Lemma attrs_length ats : (length ats <= length (concat (map print_attr ats)))%nat.
Proof. induction ats as [|a ats IH]; cbn [map concat length]; [lia|]. rewrite length_app. unfold print_attr at 1. cbn [length]. lia. Qed.

Lemma parse_element_run d : printable d -> is_text_doc d = false -> reads d.
Proof.
  induction 1 as [s|tag ats cs Ht Ha Hnd Hp IH Hsep] using printable_induction; [done|].
  intros _ fuel T r q Hf HT. rewrite flat_eq. set (d := Doc _ cs) in *. cbn [doc_size d] in HT. fold (sizes_of cs) in HT.
  destruct fuel as [|fuel]; [cbn in Hf; lia|]. cbn [parse_element print d kind name attrs app].
  erewrite (bind_to bump); [|reflexivity]. rewrite decide_False by (intros Hne; by apply Hne).
  rewrite <- !app_assoc. set (tail := match cs with [] => _ | _ => _ end).
  assert (Hhead : forall l b, head ((concat (map print_attr ats) ++ tail) ++ l) = Some b -> is_name_cont b = false).
  { intros l b. unfold tail. destruct ats as [|a ats']; [destruct cs|]; cbn; by intros [= <-]. }
  rewrite (app_assoc (concat _)). erewrite bind_to; [|apply read_name_run; [done|by intros b; apply Hhead]]. cbv beta iota.
  rewrite (bind_to _ _ _ _ _ (push_node_run _ _ _ _)). unfold gets, M_bind at 1. cbn [rest tree pos]. rewrite <- app_assoc.
  set (n0 := S (length _)). assert (Hn0 : (length ats < n0)%nat) by (unfold n0; rewrite length_app; pose proof (attrs_length ats); lia). clearbody n0.
  match goal with |- context [mkParser _ ?z _] => generalize z end. intros q1. unfold tail in *. clear tail Hhead. destruct cs as [|c cs]; cbv iota.
  - destruct (read_attributes_run ats [] n0 true r q1 (T ++ [mkNode Element tag [] [] no_bounds])) as [q2 H1]; [done|done|done|].
    rewrite (bind_to _ _ _ _ _ H1). cbn [fst snd]. rewrite (bind_to _ _ _ _ _ (modify_node_run _ _ T [] _ _ ltac:(lia))).
    rewrite wrap_small by (unfold in_width; lia). by exists q2.
  - destruct (read_attributes_run ats [] n0 false (flat_map print (c :: cs) ++ 60 :: 47 :: tag ++ 62 :: r) q1
      (T ++ [mkNode Element tag [] [] no_bounds])) as [q2 H1]; [done|done|done|].
    destruct (parse_children_run tag (c :: cs) [] fuel (T ++ [mkNode Element tag [] [] no_bounds]) r q2) as [q3 H2];
      [done|done|done|done| |rewrite length_app; cbn [length]; lia|].
    { cbn [print d kind name attrs length] in Hf. rewrite !length_app in Hf. cbn [length] in Hf. lia. }
    replace ((tag_end false ++ flat_map print (c :: cs) ++ 60 :: 47 :: tag ++ [62]) ++ r)
      with (tag_end false ++ flat_map print (c :: cs) ++ 60 :: 47 :: tag ++ 62 :: r) by (cbn [app tag_end]; by rewrite <- !app_assoc; cbn [app]; rewrite <- app_assoc).
    rewrite (bind_to _ _ _ _ _ H1). cbn [fst snd]. rewrite (bind_to _ _ _ _ _ H2). cbv beta iota.
    rewrite length_app, Nat.add_1_r, <- app_assoc. cbn [app]. rewrite (bind_to _ _ _ _ _ (modify_node_run _ _ T _ _ _ ltac:(lia))).
    rewrite wrap_small by (unfold in_width; lia). by exists q3.
Qed.

(** C28: The markup of a document is parsed to the nodes of that document. *)
Theorem dsml_roundtrip d :
  printable d -> is_text_doc d = false -> Z.of_nat (doc_size d) < 2 ^ 32 -> parse (print d) = Ok (flat 0 d).
Proof.
  intros Hp Ht Hs. unfold parse, parse_document. destruct (parse_element_run d Hp Ht (S (length (print d))) [] [] 0) as [q H1];
    [lia|cbn [length]; lia|]. rewrite app_nil_r in H1.
  assert (Hhead : head (print d) = Some 60) by (inversion Hp; subst; done).
  rewrite (bind_to _ _ _ _ _ (skip_run [] (print d) 0 [] ltac:(done) ltac:(by rewrite Hhead; intros ? [= <-]))).
  unfold gets, M_bind at 1. cbn [rest length]. change (0 + Z.of_nat 0) with 0. rewrite (bind_to _ _ _ _ _ H1).
  rewrite (bind_to _ _ _ _ _ (skip_run [] [] q _ ltac:(done) ltac:(done))). done.
Qed.
(** ** What the parser makes of any input *)

(** [m] does not panic, leaves the tree, and takes [k] bytes where it succeeds. *)
Definition quiet {A} (k : nat) (m : P A) : Prop := forall p,
  let (p', r) := m p in
  r <> Panic /\ tree p' = tree p /\ (length (rest p') <= length (rest p))%nat /\
  match r with Ok _ => (length (rest p') + k <= length (rest p))%nat | _ => True end.

Lemma quiet_bind {A B} j k (m : P A) (f : A -> P B) : quiet j m -> (forall a, quiet k (f a)) -> quiet (j + k) (M_bind f m).
Proof.
  intros Hm Hf p. unfold M_bind. specialize (Hm p). destruct (m p) as [p1 r]. destruct Hm as (Hn & Ht & Hl & Hk).
  destruct r as [a|e|]; [|done|done]. specialize (Hf a p1). destruct (f a p1) as [p2 r]. destruct Hf as (Hn' & Ht' & Hl' & Hk').
  split; [done|]. split; [congruence|]. split; [lia|]. destruct r; [lia|done|done].
Qed.

Lemma quiet_weaken {A} j k (m : P A) : quiet j m -> (k <= j)%nat -> quiet k m.
Proof. intros Hm Hk p. specialize (Hm p). destruct (m p) as [p' r]. destruct Hm as (? & ? & ? & ?). destruct r; repeat split; try done; lia. Qed.

Lemma quiet_ret {A} (a : A) : quiet 0 (M_ret a).
Proof. intros p. cbn. repeat split; [done|lia|lia]. Qed.

Lemma quiet_gets {A} (f : Parser -> A) : quiet 0 (gets f).
Proof. intros p. cbn. repeat split; [done|lia|lia]. Qed.

Lemma quiet_err {A} k (e : Parser -> ParseError) : quiet k (fun p => (p, Err (e p)) : Parser * outcome ParseError A).
Proof. intros p. cbn. by repeat split. Qed.

Lemma quiet_take f : quiet 0 (take_while f).
Proof.
  intros p. unfold take_while. pose proof (span_spec f (rest p)) as H. destruct (span f (rest p)) as [a r]. destruct H as (-> & _).
  cbn. rewrite length_app. repeat split; [done|lia|lia].
Qed.

Lemma quiet_bump : quiet 0 bump.
Proof. intros p. unfold bump. destruct (rest p) eqn:E; cbn; rewrite ?E; cbn; repeat split; try done; lia. Qed.

Lemma quiet_skip : quiet 0 skip_whitespace.
Proof. apply (quiet_bind 0 0); [apply quiet_take|intros; apply quiet_ret]. Qed.

Lemma quiet_read_name : quiet 0 read_name.
Proof.
  apply (quiet_bind 0 0); [apply quiet_gets|]. intros [b|]; [|apply quiet_ret]. destruct (negb _); [apply quiet_ret|].
  apply (quiet_bind 0 0); [apply quiet_take|intros; apply quiet_ret].
Qed.

Lemma quiet_expect b (e : P unit) : quiet 1 e -> quiet 1 (expect b e).
Proof.
  intros He p. unfold expect, bump, M_bind. destruct (rest p) as [|c l] eqn:E.
  - rewrite decide_False by done. specialize (He p). by rewrite E in He.
  - destruct (decide (Some c = Some b)).
    + cbn. rewrite ?E. cbn. repeat split; [done|lia|lia].
    + specialize (He (mkParser l (pos p + 1) (tree p))). destruct (e _) as [p' r]. cbn [rest tree] in He.
      destruct He as (? & ? & ? & ?). cbn [length]. destruct r; repeat split; try done; lia.
Qed.

Lemma quiet_read_attribute : quiet 1 read_attribute.
Proof.
  apply (quiet_bind 0 1); [apply quiet_read_name|]. intros [key|]; [|apply quiet_err].
  apply (quiet_weaken (1 + (1 + (0 + (0 + 1)))));  [|lia].
  apply quiet_bind; [apply quiet_expect, quiet_err|]. intros _. apply quiet_bind; [apply quiet_expect, quiet_err|]. intros _.
  apply quiet_bind; [apply quiet_gets|]. intros z. apply quiet_bind; [apply quiet_take|]. intros v. destruct (negb _); [apply (quiet_err 1)|].
  apply (quiet_bind 1 0); [apply quiet_expect, (quiet_err 1 (fun _ => UnexpectedEof))|]. intros _. apply quiet_ret.
Qed.

Lemma quiet_after {A} (m : P A) p p1 : quiet 0 m -> tree p1 = tree p -> (length (rest p1) <= length (rest p))%nat ->
  let (p', r) := m p1 in r <> Panic /\ tree p' = tree p /\ (length (rest p') <= length (rest p))%nat.
Proof. intros Hm Ht Hl. specialize (Hm p1). destruct (m p1) as [p' r]. destruct Hm as (? & ? & ? & _). split; [done|]. split; [congruence|lia]. Qed.

Lemma read_attributes_total fuel ats p : (length (rest p) < fuel)%nat ->
  let (p', r) := read_attributes fuel ats p in
  r <> Panic /\ tree p' = tree p /\ (length (rest p') <= length (rest p))%nat.
Proof.
  revert ats p. induction fuel as [|fuel IH]; intros ats p Hf; [lia|]. cbn [read_attributes].
  unfold M_bind at 1. pose proof (quiet_skip p) as Hs. destruct (skip_whitespace p) as [p1 [[]|e|]]; destruct Hs as (? & Ht & Hl & _); [|by split|done].
  unfold peek, gets. unfold M_bind at 1. destruct (head (rest p1)) as [b|]; [|by split].
  destruct (b =? 47).
  { assert (Hq : quiet 0 (bump ;;; expect 62 bad_attribute ;;; M_ret (ats, true))).
    { apply (quiet_weaken (0 + (1 + 0))); [|lia]. apply quiet_bind; [apply quiet_bump|]. intros _.
      apply quiet_bind; [apply quiet_expect, quiet_err|intros; apply quiet_ret]. }
    apply (quiet_after _ _ _ Hq); [congruence|lia]. }
  destruct (b =? 62).
  { assert (Hq : quiet 0 (bump ;;; M_ret (ats, false))) by (apply (quiet_bind 0 0); [apply quiet_bump|intros; apply quiet_ret]).
    apply (quiet_after _ _ _ Hq); [congruence|lia]. }
  destruct (is_name_start b); [|by split].
  unfold M_bind at 1. pose proof (quiet_read_attribute p1) as Ha. destruct (read_attribute p1) as [p2 [kv|e|]]; destruct Ha as (? & Ht2 & Hl2 & Hk); [|split; [done|split; [congruence|lia]]|done].
  specialize (IH (insert kv.1 kv.2 ats) p2 ltac:(lia)). destruct (read_attributes fuel _ p2) as [p3 r]. destruct IH as (? & ? & ?).
  split; [done|]. split; [congruence|lia].
Qed.

Lemma name_start_cont b : is_name_start b = true -> is_name_cont b = true.
Proof. unfold is_name_start, is_name_cont. destruct (in_range 65 90 b), (in_range 97 122 b), (b =? 95); by rewrite ?orb_true_r. Qed.

Lemma read_name_some p p' nm :
  read_name p = (p', Ok (Some nm)) -> name_ok nm /\ tree p' = tree p /\ (length (rest p') < length (rest p))%nat.
Proof.
  unfold read_name, peek, gets, M_bind. destruct (rest p) as [|b l] eqn:E; cbn [head]; [done|].
  destruct (is_name_start b) eqn:Hb; cbn [negb]; [|done]. unfold take_while. pose proof (span_spec is_name_cont (rest p)) as H.
  destruct (span is_name_cont (rest p)) as [a r] eqn:Es. destruct H as (Hl & Ha & _). intros [= <- <-]. cbn [rest tree].
  rewrite E in Es. cbn [span] in Es. rewrite name_start_cont in Es by done. destruct (span is_name_cont l) as [a' r']. injection Es as <- <-.
  split; [split; [by exists b|done]|]. split; [done|]. rewrite E in Hl. injection Hl as ->. cbn [length]. rewrite length_app. lia.
Qed.

(** A text: it takes its bytes and adds at most a node. *)
Lemma read_text_total p : Z.of_nat (length (tree p)) < 2 ^ 32 ->
  let (p', r) := read_text p in
  match r with
  | Ok (Some i) => exists s, i = Z.of_nat (length (tree p)) /\ tree p' = tree p ++ [mkNode Text s [] [] no_bounds] /\ (length (rest p') < length (rest p))%nat
  | Ok None => tree p' = tree p /\ (length (rest p') < length (rest p))%nat
  | Err _ => True
  | Panic => False
  end.
Proof.
  intros HT. unfold read_text, gets, M_bind, take_while. pose proof (span_spec (fun b => negb (b =? 60)) (rest p)) as H.
  destruct (span _ (rest p)) as [a r]. destruct H as (Hl & _ & _). rewrite Hl. destruct (decide (a = [])); [done|].
  assert (Hlen : (length r < length (a ++ r))%nat) by (rewrite length_app; destruct a; [done|cbn; lia]).
  destruct (negb (utf8_valid a)); [done|]. destruct (decide (trim a = [])); [done|].
  unfold push_node, push. cbn [rest tree pos]. rewrite wrap_small by (unfold in_width; lia). by exists (trim a).
Qed.
(** A document as the parser makes it: texts are leaves without attributes. *)
Inductive doc_ok : doc -> Prop :=
| doc_text s : doc_ok (Doc (mkNode Text s [] [] no_bounds) [])
| doc_element tag ats cs : Forall doc_ok cs -> doc_ok (Doc (mkNode Element tag ats [] no_bounds) cs).

Definition room (p : Parser) : Prop := Z.of_nat (length (tree p) + length (rest p)) < 2 ^ 32.

(** What an element, or the children of one, adds to the tree. *)
Definition adds_element (p : Parser) (res : Parser * outcome ParseError Z) : Prop :=
  let (p', r) := res in
  match r with
  | Ok i => i = Z.of_nat (length (tree p)) /\ exists d, doc_ok d /\ is_text_doc d = false /\
      tree p' = tree p ++ flat (length (tree p)) d /\ (doc_size d + length (rest p') <= length (rest p))%nat
  | Err _ => True
  | Panic => False
  end.

Definition adds_children (p : Parser) (kids : list Z) (res : Parser * outcome ParseError (list Z)) : Prop :=
  let (p', r) := res in
  match r with
  | Ok ks => exists cs, Forall doc_ok cs /\ ks = kids ++ indices (length (tree p)) cs /\
      tree p' = tree p ++ flats (length (tree p)) cs /\ (sizes_of cs + length (rest p') <= length (rest p))%nat
  | Err _ => True
  | Panic => False
  end.

Lemma close_tag_quiet tag kids : quiet 0 (close_tag tag kids).
Proof.
  apply (quiet_bind 0 0); [apply quiet_bump|]. intros _. apply (quiet_bind 0 0); [apply quiet_bump|]. intros _.
  apply (quiet_bind 0 0); [apply quiet_read_name|]. intros [nm|]; [|apply (quiet_err 0)]. destruct (decide _); [apply quiet_err|].
  apply (quiet_weaken (0 + (1 + 0))); [|lia]. apply quiet_bind; [apply quiet_skip|]. intros _.
  apply quiet_bind; [apply quiet_expect, (quiet_err 1 (fun _ => UnexpectedEof))|intros; apply quiet_ret].
Qed.

(** The closing tag yields the children it was given. *)
Lemma close_tag_value tag kids p p' ks : close_tag tag kids p = (p', Ok ks) -> ks = kids.
Proof. unfold close_tag, M_bind, M_ret, throw. intros H. repeat split_match_in H; simplify_eq; done. Qed.

Lemma parse_children_shape fuel :
  (forall p, (length (rest p) < fuel)%nat -> room p -> adds_element p (parse_element fuel p)) ->
  forall tag kids p, (length (rest p) < fuel)%nat -> room p ->
  (forall kids p, (length (rest p) + 1 < fuel)%nat -> room p -> adds_children p kids (parse_children fuel tag kids p)) ->
  adds_children p kids (parse_children (S fuel) tag kids p).
Proof.
  intros HE tag kids p Hf Hr HC. cbn [parse_children]. unfold gets. unfold M_bind at 1. destruct (is_prefix _ _).
  { pose proof (close_tag_quiet tag kids p) as Hq. pose proof (close_tag_value tag kids p) as Hv. destruct (close_tag tag kids p) as [p' r].
    destruct Hq as (Hn & Ht & Hl & _). destruct r as [ks|?|]; [|done|done]. exists []. rewrite (Hv _ _ eq_refl), Ht.
    cbn [indices flats sizes_of map list_sum fold_right]. rewrite !app_nil_r. by repeat split. }
  unfold peek, gets. unfold M_bind at 1. destruct (decide _).
  - specialize (HE p Hf Hr). unfold M_bind. destruct (parse_element fuel p) as [p1 r]. destruct r as [i|?|]; [|done|done].
    destruct HE as (-> & d & Hd & Hk & Ht & Hl). assert (Hd0 : (0 < doc_size d)%nat) by (destruct d; cbn; lia).
    specialize (HC (kids ++ [Z.of_nat (length (tree p))]) p1 ltac:(lia)). unfold room in *. rewrite Ht, length_app, flat_length in HC.
    specialize (HC ltac:(lia)). unfold adds_children in HC |- *. destruct (parse_children fuel tag _ p1) as [p2 r]. destruct r as [ks|?|]; [|done|done].
    destruct HC as (cs & Hcs & -> & Ht2 & Hl2). exists (d :: cs). split; [by constructor|]. rewrite Ht2, Ht, length_app, flat_length.
    cbn [indices flats]. unfold sizes_of in *. cbn [map list_sum fold_right]. rewrite <- !app_assoc. split; [done|]. split; [done|]. unfold list_sum in *. lia.
  - pose proof (read_text_total p ltac:(unfold room in Hr; lia)) as Hx. unfold M_bind. destruct (read_text p) as [p1 r]. destruct r as [[i|]|?|]; [| |done|done].
    + destruct Hx as (s & -> & Ht & Hl). specialize (HC (kids ++ [Z.of_nat (length (tree p))]) p1 ltac:(lia)). unfold room in *.
      rewrite Ht, length_app in HC. cbn [length] in HC. specialize (HC ltac:(lia)). unfold adds_children in HC |- *.
      destruct (parse_children fuel tag _ p1) as [p2 r]. destruct r as [ks|?|]; [|done|done].
      destruct HC as (cs & Hcs & -> & Ht2 & Hl2). exists (Doc (mkNode Text s [] [] no_bounds) [] :: cs). split; [constructor; [constructor|done]|].
      rewrite Ht2, Ht, length_app. cbn [indices flats flat doc_size length map list_sum fold_right]. unfold sizes_of in *.
      cbn [map list_sum fold_right doc_size]. rewrite <- !app_assoc. split; [done|]. split; [done|]. unfold list_sum in *. lia.
    + destruct Hx as (Ht & Hl). specialize (HC kids p1 ltac:(lia)). unfold room in *. rewrite Ht in HC. specialize (HC ltac:(lia)).
      unfold adds_children in HC |- *. destruct (parse_children fuel tag _ p1) as [p2 r]. destruct r as [ks|?|]; [|done|done].
      destruct HC as (cs & Hcs & -> & Ht2 & Hl2). exists cs. rewrite Ht2, Ht. split; [done|]. split; [done|]. split; [done|lia].
Qed.
Lemma parse_element_step fuel p :
  (forall tag kids p, (length (rest p) + 1 < fuel)%nat -> room p -> adds_children p kids (parse_children fuel tag kids p)) ->
  (length (rest p) < S fuel)%nat -> room p -> adds_element p (parse_element (S fuel) p).
Proof.
  intros HC Hf Hr. destruct p as [l q T]. cbn [parse_element]. destruct l as [|c l]; [by cbn|].
  erewrite (bind_to bump); [|reflexivity]. cbn [rest pos tree] in *. destruct (decide _); [done|].
  unfold M_bind at 1. pose proof (quiet_read_name (mkParser l (q + 1) T)) as Hq.
  destruct (read_name _) as [p1 r] eqn:En. destruct Hq as (Hn & _). destruct r as [[tag|]|?|]; [| done|done|done].
  apply read_name_some in En as (_ & Ht1 & Hl1). cbn [rest tree length] in *.
  unfold room in Hr. cbn [rest tree length] in Hr. destruct p1 as [l1 q1 T1]. cbn [rest tree] in *. subst T1.
  rewrite (bind_to _ _ _ _ _ (push_node_run _ _ _ _)). unfold gets. unfold M_bind at 1. cbn [rest].
  set (T1 := T ++ [mkNode Element tag [] [] no_bounds]).
  unfold M_bind at 1. pose proof (read_attributes_total (S (length l1)) [] (mkParser l1 q1 T1) ltac:(cbn; lia)) as Ha.
  destruct (read_attributes _ _ _) as [p2 r]. destruct Ha as (Hn2 & Ht2 & Hl2). destruct r as [[ats closed]|?|]; [|done|done].
  destruct p2 as [l2 q2 T2]. cbn [rest tree fst snd] in *. subst T2.
  assert (HT : Z.of_nat (length T) < 2 ^ 32) by lia. assert (Hi : u32 (Z.of_nat (length T)) = Z.of_nat (length T)) by (apply wrap_small; unfold in_width; lia).
  destruct closed.
  - unfold T1. rewrite (bind_to _ _ _ _ _ (modify_node_run _ _ T [] _ _ HT)). cbn. split; [done|].
    exists (Doc (mkNode Element tag ats [] no_bounds) []). repeat split; [by constructor|]. cbn. lia.
  - specialize (HC tag [] (mkParser l2 q2 T1)). cbn [rest tree] in HC. specialize (HC ltac:(lia)). unfold room in HC. cbn [rest tree] in HC.
    unfold T1 in HC at 1. rewrite length_app in HC. cbn [length] in HC. specialize (HC ltac:(lia)).
    unfold M_bind at 1. destruct (parse_children fuel tag [] _) as [p3 r]. destruct r as [ks|?|]; [|done|done].
    destruct HC as (cs & Hcs & -> & Ht3 & Hl3). destruct p3 as [l3 q3 T3]. cbn [rest tree app] in *. subst T3. unfold T1. rewrite <- app_assoc. cbn [app].
    rewrite (bind_to _ _ _ _ _ (modify_node_run _ _ T _ _ _ HT)). cbn [adds_element M_ret]. split; [done|].
    exists (Doc (mkNode Element tag ats [] no_bounds) cs). split; [by constructor|]. split; [done|]. cbn [tree rest].
    rewrite flat_eq, length_app, Nat.add_1_r. split; [done|]. cbn [doc_size length]. unfold sizes_of in Hl3. lia.
Qed.

Lemma parser_shape fuel :
  (forall p, (length (rest p) < fuel)%nat -> room p -> adds_element p (parse_element fuel p)) /\
  (forall tag kids p, (length (rest p) + 1 < fuel)%nat -> room p -> adds_children p kids (parse_children fuel tag kids p)).
Proof.
  induction fuel as [|fuel [IHe IHc]]; [split; intros; lia|]. split.
  - intros p Hf Hr. by apply parse_element_step.
  - intros tag kids p Hf Hr. apply parse_children_shape; [done|lia|done|]. intros. by apply IHc.
Qed.

Lemma parse_shape src :
  Z.of_nat (length src) < 2 ^ 32 ->
  parse src <> Panic /\ forall t, parse src = Ok t -> exists d, t = flat 0 d /\ doc_ok d /\ is_text_doc d = false.
Proof.
  intros Hs. assert (H : match parse_document (mkParser src 0 []) with
    | (p', Ok _) => exists d, tree p' = flat 0 d /\ doc_ok d /\ is_text_doc d = false
    | (_, Err _) => True
    | (_, Panic) => False
    end).
  { unfold parse_document, gets. unfold M_bind at 1. pose proof (quiet_skip (mkParser src 0 [])) as Hq.
    destruct (skip_whitespace _) as [p1 r]. destruct Hq as (Hn & Ht & Hl & _). cbn [rest tree] in *. destruct r as [[]|?|]; [|done|done].
    unfold M_bind at 1. unfold M_bind at 1. destruct (parser_shape (S (length (rest p1)))) as [He _].
    specialize (He p1 ltac:(lia)). unfold room in He. rewrite Ht in He. specialize (He ltac:(cbn; lia)).
    destruct (parse_element _ p1) as [p2 r]. destruct r as [i|?|]; [|done|done]. destruct He as (_ & d & Hd & Hk & Ht2 & _).
    unfold M_bind at 1. pose proof (quiet_skip p2) as Hq2. destruct (skip_whitespace p2) as [p3 r]. destruct Hq2 as (Hn3 & Ht3 & _).
    destruct r as [[]|?|]; [|done|done]. destruct (decide _); [|done]. exists d. by rewrite Ht3, Ht2, Ht. }
  unfold parse. destruct (parse_document _) as [p' [u|?|]]; [|by split|done]. split; [done|]. intros t [= <-]. exact H.
Qed.

(** On every input the parser ends without a panic, and what it accepts is the
    list of nodes of one document whose root is an element. *)
Theorem dsml_parse_total src :
  Z.of_nat (length src) < 2 ^ 32 ->
  parse src <> Panic /\ forall t, parse src = Ok t -> exists d, t = flat 0 d /\ doc_ok d /\ is_text_doc d = false.
Proof. apply parse_shape. Qed.
(** ** What layout and painting are to do

    Stated on the attributes, without the passes of layout.rs: where a node goes,
    how a box shares its main axis, and what each element shows. *)

Definition total (l : list Z) : Z := foldr Z.add 0 l.

Definition number (key : String.string) (dflt : Z) (n : Node) : Z := default dflt (get_u32 (str key) (attrs n)).

(** The size a node asks for: its attribute, or that of its text. *)
Definition wanted_width (n : Node) : Z := number "width" (match kind n with Text => 8 * char_count (name n) | Element => 0 end) n.
Definition wanted_height (n : Node) : Z := number "height" (match kind n with Text => 16 | Element => 0 end) n.
Definition wanted (row : bool) (n : Node) : Z := if row then wanted_width n else wanted_height n.
Definition growth (n : Node) : Z := number "flex-grow" 0 n.

(** A node takes its place and size from its attributes, else from the constraint;
    text is no larger than its glyphs. *)
Record bounded (n : Node) (o : LayoutConstraint) (b : Bounds) : Prop := {
  bounded_x : x b = default (o_x o) (get_i32 (str "x") (attrs n));
  bounded_y : y b = default (o_y o) (get_i32 (str "y") (attrs n));
  bounded_element : kind n = Element -> w b = number "width" (max_w o) n /\ h b = number "height" (max_h o) n;
  bounded_text : kind n = Text -> 8 * char_count (name n) < 2 ^ 32 ->
    w b = Z.min (8 * char_count (name n)) (number "width" (max_w o) n) /\ h b = Z.min 16 (number "height" (max_h o) n)
}.

(** The sizes on the main axis: what growing children leave of [avail] is shared in
    proportion and used up; children that do not grow keep their sizes if these
    fit, and share equally if not. *)
Inductive main_sizes (avail : Z) (wants grows : list Z) : list Z -> Prop :=
| SizesGrow ss :
    0 < total grows -> length ss = length wants -> total ss = total wants + Z.max 0 (avail - total wants) ->
    (forall i want grow s, wants !! i = Some want -> grows !! i = Some grow -> ss !! i = Some s ->
       s = want + Z.max 0 (avail - total wants) * grow / total grows \/
       0 < grow /\ forall j grow', (i < j)%nat -> grows !! j = Some grow' -> grow' = 0) ->
    main_sizes avail wants grows ss
| SizesWanted : total grows = 0 -> 0 < total wants <= avail -> main_sizes avail wants grows wants
| SizesEqual :
    total grows = 0 -> ~ 0 < total wants <= avail ->
    main_sizes avail wants grows (replicate (length wants) (avail / Z.of_nat (length wants))).

(** Where the first child starts, and what comes between two besides the spacing. *)
Inductive justified (mode : option (list Z)) (grows : list Z) (k free : Z) : Z -> Z -> Prop :=
| JustifyGrow : 0 < total grows -> justified mode grows k free 0 0
| JustifyCenter : total grows = 0 -> mode = Some (str "center") -> justified mode grows k free (free / 2) 0
| JustifyEnd : total grows = 0 -> mode = Some (str "end") -> justified mode grows k free free 0
| JustifyBetween : total grows = 0 -> mode = Some (str "space-between") -> 1 < k -> justified mode grows k free 0 (free / (k - 1))
| JustifyAlone : total grows = 0 -> mode = Some (str "space-between") -> k <= 1 -> justified mode grows k free 0 0
| JustifyStart :
    total grows = 0 -> mode <> Some (str "center") -> mode <> Some (str "end") -> mode <> Some (str "space-between") ->
    justified mode grows k free 0 0.

Definition fitted (avail want : Z) : Z := if want =? 0 then avail else Z.min want avail.

(** Size and offset on the cross axis. *)
Inductive crossed (mode : option (list Z)) (avail want : Z) : Z -> Z -> Prop :=
| CrossStretch : mode = Some (str "stretch") -> crossed mode avail want avail 0
| CrossCenter : mode = Some (str "center") -> crossed mode avail want (fitted avail want) ((avail - fitted avail want) / 2)
| CrossEnd : mode = Some (str "end") -> crossed mode avail want (fitted avail want) (avail - fitted avail want)
| CrossStart :
    mode <> Some (str "stretch") -> mode <> Some (str "center") -> mode <> Some (str "end") ->
    crossed mode avail want (fitted avail want) 0.

(** The numbers of a box are those of a screen. *)
Record box_fits (n : Node) (b : Bounds) (kids : list Node) : Prop := {
  fits_place : - 2 ^ 30 <= x b < 2 ^ 30 /\ - 2 ^ 30 <= y b < 2 ^ 30;
  fits_size : 0 <= w b < 2 ^ 16 /\ 0 <= h b < 2 ^ 16;
  fits_padding : 0 <= number "padding" 0 n < 2 ^ 16;
  fits_spacing : 0 <= number "spacing" 0 n < 2 ^ 16;
  fits_count : 0 < Z.of_nat (length kids) < 2 ^ 10;
  fits_kids : Forall (fun c => 0 <= wanted_width c < 2 ^ 16 /\ 0 <= wanted_height c < 2 ^ 16 /\ 0 <= growth c < 2 ^ 16) kids
}.

(** The constraints [os] of the children of a box: an [HBox] puts them side by side,
    any other one below the other, in order, [spacing] apart, inside the padding.
    The spacing counts twice in the space that is left to justify
    ([justified_end_misses_edge]). *)
Definition placed_in (n : Node) (b : Bounds) (kids : list Node) (os : list LayoutConstraint) : Prop :=
  let row := bool_decide (name n = str "HBox") in
  let pad := number "padding" 0 n in let gap := number "spacing" 0 n in
  let k := Z.of_nat (length kids) in
  let inner_w := Z.max 0 (w b - 2 * pad) in let inner_h := Z.max 0 (h b - 2 * pad) in
  let avail := Z.max 0 ((if row then inner_w else inner_h) - gap * (k - 1)) in
  let breadth := if row then inner_h else inner_w in
  exists ss lead between,
    main_sizes avail (wanted row <$> kids) (growth <$> kids) ss /\
    justified (get (str "justify") (attrs n)) (growth <$> kids) k (Z.max 0 (avail - (total ss + gap * (k - 1)))) lead between /\
    length os = length kids /\
    forall i o c s, os !! i = Some o -> kids !! i = Some c -> ss !! i = Some s ->
      let main := lead + total (take i ss) + Z.of_nat i * (gap + between) in
      exists size off, crossed (get (str "align") (attrs n)) breadth (wanted (negb row) c) size off /\
        o = if row then mkConstraint (x b + pad + main) (y b + pad + off) s size
            else mkConstraint (x b + pad + off) (y b + pad + main) size s.

Definition node_of (d : doc) : Node := match d with Doc n _ => n end.

(** [d'] is [d] laid out under a constraint. *)
Inductive laid : LayoutConstraint -> doc -> doc -> Prop :=
| LaidText n cs o b : kind n = Text -> bounded n o b -> laid o (Doc n cs) (Doc (n <| bounds := b |>) cs)
| LaidBox n cs o b os cs' :
    kind n = Element -> bounded n o b -> length os = length cs ->
    (box_fits n b (map node_of cs) -> placed_in n b (map node_of cs) os) ->
    Forall2 (fun p c' => laid p.1 p.2 c') (zip os cs) cs' -> laid o (Doc n cs) (Doc (n <| bounds := b |>) cs').

(** What an element shows itself, and whether its children are painted. *)
Section shows.
Context (fill_width : Z -> list Z -> Z) (st : AppState).

Definition has_color (key : String.string) (n : Node) (c : option Z) : Prop := get_color (str key) (attrs n) = Ok c.

Definition box (n : Node) (width color radius : Z) : Command :=
  DrawRect (mkRect (x (bounds n)) (y (bounds n)) width (h (bounds n)) color radius).

Definition bound_text (n : Node) : option (list Z) := get (str "bind_text") (attrs n) ≫= fun key => state_get key st.

Inductive shows (n : Node) : list Command -> bool -> Prop :=
| ShowsText : kind n = Text -> shows n [DrawText (x (bounds n)) (y (bounds n)) 0xFFFFFFFF 14 (name n)] false
| ShowsWindow c : kind n = Element -> name n = str "Window" -> has_color "bg_color" n (Some c) ->
    shows n [box n (w (bounds n)) c (u16 (number "corner_radius" 0 n))] true
| ShowsBareWindow : kind n = Element -> name n = str "Window" -> has_color "bg_color" n None -> shows n [] true
| ShowsButton c : kind n = Element -> name n = str "Button" -> has_color "bg_color" n c ->
    shows n [box n (w (bounds n)) (default 0x3A3A3AFF c) (u16 (number "corner_radius" 4 n))] true
| ShowsProgress track fill :
    kind n = Element -> name n = str "ProgressBar" -> has_color "track_color" n track -> has_color "fill_color" n fill ->
    let width := fill_width (w (bounds n)) (default (str "0") (get (str "value") (attrs n))) in 0 < width ->
    shows n [box n (w (bounds n)) (default 0x2A2A2AFF track) 2; box n width (default 0x4AC0FFFF fill) 2] false
| ShowsEmptyProgress track :
    kind n = Element -> name n = str "ProgressBar" -> has_color "track_color" n track ->
    fill_width (w (bounds n)) (default (str "0") (get (str "value") (attrs n))) <= 0 ->
    shows n [box n (w (bounds n)) (default 0x2A2A2AFF track) 2] false
| ShowsBound value color : kind n = Element -> name n = str "Text" -> bound_text n = Some value -> has_color "color" n color ->
    shows n [DrawText (x (bounds n)) (y (bounds n)) (default 0xFFFFFFFF color) (u16 (number "font_size" 14 n)) value] false
| ShowsUnbound : kind n = Element -> name n = str "Text" -> bound_text n = None -> shows n [] true
| ShowsOther : kind n = Element -> name n ∉ [str "Window"; str "Button"; str "ProgressBar"; str "Text"] -> shows n [] true.

(** What a document paints: a node first, then its children in their order. *)
Inductive paints : doc -> list Command -> Prop :=
| PaintsAlone n cs own : shows n own false -> paints (Doc n cs) own
| PaintsInside n cs own css : shows n own true -> Forall2 paints cs css -> paints (Doc n cs) (own ++ concat css).
End shows.

(** No color attribute is cut inside a character ([color_panics]). *)
Inductive readable : doc -> Prop :=
| Readable n cs :
    Forall (fun key => get_color key (attrs n) <> Panic) [str "bg_color"; str "track_color"; str "fill_color"; str "color"] ->
    Forall readable cs -> readable (Doc n cs).

(** ** Laying out and compiling a document *)

(** The tree functions of layout.rs and compiler.rs on documents, in place of lists of
    nodes: a step between the code and the specification above.  A child gets the
    constraint its parent computes for it. *)
Fixpoint arrange (d : doc) (outer : LayoutConstraint) : doc :=
  match d with
  | Doc n cs =>
      let b := own_bounds n outer in
      if is_text n then Doc (n <| bounds := b |>) cs else
      let kids := map node_of cs in
      Doc (n <| bounds := b |>)
        ((fix go (cs : list doc) (ss : list Z) (cursor : Z) : list doc :=
            match cs, ss with
            | c :: cs, s :: ss =>
                arrange c (slot n b cursor s (node_of c)) :: go cs ss (next_cursor n b kids cursor s (bool_decide (cs = [])))
            | cs, _ => cs
            end) cs (sizes n b kids) (offsets n b kids).1)
  end.

Section arrange_all.
Context (n : Node) (b : Bounds) (kids : list Node).

Fixpoint arrange_all (cs : list doc) (ss : list Z) (cursor : Z) : list doc :=
  match cs, ss with
  | c :: cs, s :: ss =>
      arrange c (slot n b cursor s (node_of c)) :: arrange_all cs ss (next_cursor n b kids cursor s (bool_decide (cs = [])))
  | cs, _ => cs
  end.
End arrange_all.

Lemma arrange_eq n cs outer :
  arrange (Doc n cs) outer =
  let b := own_bounds n outer in
  if is_text n then Doc (n <| bounds := b |>) cs
  else Doc (n <| bounds := b |>) (arrange_all n b (map node_of cs) cs (sizes n b (map node_of cs)) (offsets n b (map node_of cs)).1).
Proof. reflexivity. Qed.

Lemma distribute_length avail intrinsic grow : length grow = length intrinsic -> length (distribute avail intrinsic grow) = length intrinsic.
Proof.
  intros Hl. unfold distribute. assert (Hb : forall g s l r, bump_last_grow g s l = Some r -> length r = length s).
  { induction g as [|g gs IH]; intros [|s ss] l r; cbn; try done. destruct (bump_last_grow gs ss l) eqn:E; [intros [= <-]; cbn; f_equal; by eapply IH|].
    destruct (0 <? g); [by intros [= <-]|done]. }
  destruct (0 <? _); [|destruct (_ && _); [done|by rewrite length_replicate]]. cbv zeta. set (z := zip_with _ _ _).
  assert (Hz : length z = length intrinsic) by (unfold z; rewrite length_zip_with; lia). destruct (_ <? _); [|done].
  destruct (bump_last_grow _ _ _) eqn:E; [|done]. cbn. by rewrite (Hb _ _ _ _ E).
Qed.

Lemma sizes_length n b kids : length (sizes n b kids) = length kids.
Proof. unfold sizes. rewrite distribute_length; by rewrite !length_fmap. Qed.

(** Nodes that differ in their children and bounds only. *)
Definition alike (m n : Node) : Prop := kind m = kind n /\ name m = name n /\ attrs m = attrs n.

Lemma alike_slot n b c s k k' : alike k k' -> slot n b c s k = slot n b c s k'.
Proof. intros (H1 & H2 & H3). unfold slot, child_intrinsic_cross, is_text, text_width. by rewrite H1, H2, H3. Qed.

Lemma alike_kids {A} (f : Node -> A) ks ks' : (forall k k', alike k k' -> f k = f k') -> Forall2 alike ks ks' -> f <$> ks = f <$> ks'.
Proof. intros Hf H. induction H as [|k k' ks ks' Hk _ IH]; [done|]. cbn. f_equal; [by apply Hf|done]. Qed.

Lemma alike_sizes n b ks ks' : Forall2 alike ks ks' -> sizes n b ks = sizes n b ks' /\ offsets n b ks = offsets n b ks'.
Proof.
  intros H. assert (Hi : (fun c => child_intrinsic_main c (axis n)) <$> ks = (fun c => child_intrinsic_main c (axis n)) <$> ks').
  { apply alike_kids; [|done]. intros k k' (H1 & H2 & H3). unfold child_intrinsic_main, is_text, text_width. by rewrite H1, H2, H3. }
  assert (Hg : child_grow <$> ks = child_grow <$> ks').
  { apply alike_kids; [|done]. intros k k' (H1 & H2 & H3). unfold child_grow. by rewrite H3. }
  assert (Hc : count ks = count ks') by (unfold count; by rewrite (Forall2_length _ _ _ H)).
  assert (Hs : sizes n b ks = sizes n b ks') by (unfold sizes, main_avail, total_spacing; by rewrite Hi, Hg, Hc).
  split; [done|]. unfold offsets, leftover, main_avail, total_spacing. by rewrite Hg, Hc, Hs.
Qed.
Lemma arrange_size d outer : doc_size (arrange d outer) = doc_size d.
Proof.
  revert outer. induction d as [n cs IH] using doc_induction; intros outer. rewrite arrange_eq. cbv zeta. destruct (is_text n); [done|].
  cbn [doc_size]. f_equal. generalize (sizes n (own_bounds n outer) (map node_of cs)) as ss, (offsets n (own_bounds n outer) (map node_of cs)).1 as cur.
  generalize (map node_of cs) as kids. intros kids. induction IH as [|c cs Hc _ IHcs]; intros [|s ss] cur; cbn [arrange_all]; try done.
  cbn [map list_sum fold_right]. rewrite Hc. f_equal. apply IHcs.
Qed.

Lemma node_at_app A n B : node_at (A ++ n :: B) (Z.of_nat (length A)) = Some n.
Proof. unfold node_at. rewrite Nat2Z.id. by apply list_lookup_middle. Qed.

Lemma update_node_app f A n B : update_node (Z.of_nat (length A)) f (A ++ n :: B) = A ++ f n :: B.
Proof.
  unfold update_node. rewrite Nat2Z.id. pose proof (alter_app_r f A (n :: B) 0) as E. rewrite Nat.add_0_r in E. exact E.
Qed.

(** The nodes of the children, looked up in the tree. *)
Lemma kids_at A cs B : exists kids,
  mapM (node_at (A ++ flats (length A) cs ++ B)) (indices (length A) cs) = Some kids /\ Forall2 alike kids (map node_of cs).
Proof.
  revert A. induction cs as [|c cs IH]; intros A; [by exists []|]. destruct (IH (A ++ flat (length A) c)) as (kids & H1 & H2).
  rewrite length_app, flat_length, <- app_assoc in H1. cbn [flats indices map]. rewrite <- app_assoc.
  destruct c as [n cs']. rewrite flat_eq in *. cbn [app] in *. exists (n <| children := indices (S (length A)) cs' |> :: kids).
  cbn [mapM]. rewrite node_at_app. cbn [mbind option_bind]. rewrite H1. cbn. split; [done|]. constructor; [done|exact H2].
Qed.

Lemma arrange_all_kids n b kids kids' cs ss cursor :
  offsets n b kids = offsets n b kids' -> arrange_all n b kids cs ss cursor = arrange_all n b kids' cs ss cursor.
Proof.
  intros Ho. revert ss cursor. induction cs as [|c cs IH]; intros [|s ss] cursor; cbn [arrange_all]; try done.
  rewrite IH. unfold next_cursor. by rewrite Ho.
Qed.

Lemma indices_arranged n b kids i cs ss cursor : indices i (arrange_all n b kids cs ss cursor) = indices i cs.
Proof.
  revert i ss cursor. induction cs as [|c cs IH]; intros i [|s ss] cursor; cbn [arrange_all indices]; try done.
  by rewrite arrange_size, IH.
Qed.

(** Laying a document out in a tree is arranging it. *)
Definition lays_out (d : doc) : Prop := forall fuel A B outer, (doc_size d <= fuel)%nat ->
  layout_node fuel (A ++ flat (length A) d ++ B) (Z.of_nat (length A)) outer = Ok (A ++ flat (length A) (arrange d outer) ++ B).

Lemma place_spec fuel n b kids cs ks ss cursor A B :
  Forall lays_out cs -> Forall2 alike ks (map node_of cs) -> length ss = length cs -> (sizes_of cs <= fuel)%nat ->
  place (layout_node fuel) n b kids (indices (length A) cs) ks ss cursor (A ++ flats (length A) cs ++ B) =
  Ok (A ++ flats (length A) (arrange_all n b kids cs ss cursor) ++ B).
Proof.
  intros Hcs. revert ks ss cursor A. induction Hcs as [|c cs Hc _ IH]; intros ks ss cursor A Hk Hl Hf; [done|].
  cbn [map] in Hk. inversion Hk as [|k kn ks' kns Hkk Hks]; subst. destruct ss as [|s ss]; [done|]. injection Hl as Hl.
  unfold sizes_of in Hf. cbn [map list_sum fold_right] in Hf. cbn [indices place flats arrange_all]. rewrite <- !app_assoc.
  rewrite (Hc fuel A) by lia. cbn [obind]. rewrite (alike_slot n b cursor s k (node_of c)) by done.
  assert (Hempty : bool_decide (indices (length A + doc_size c) cs = []) = bool_decide (cs = [])) by (destruct cs; done).
  rewrite Hempty. set (c' := arrange c _). assert (Hsz : doc_size c' = doc_size c) by apply arrange_size.
  replace (length A + doc_size c)%nat with (length (A ++ flat (length A) c')) by (rewrite length_app, flat_length; lia).
  rewrite Hsz. rewrite app_assoc. rewrite IH by (done || unfold sizes_of, list_sum in *; lia).
  rewrite length_app, flat_length, Hsz. by rewrite <- app_assoc.
Qed.

Lemma layout_spec d : lays_out d.
Proof.
  induction d as [n cs IH] using doc_induction. intros fuel A B outer Hf. destruct fuel as [|fuel]; [cbn in Hf; lia|].
  rewrite arrange_eq. cbn [layout_node]. rewrite (flat_eq _ n). cbn [app]. rewrite node_at_app. cbv zeta. rewrite update_node_app.
  change (own_bounds (n <| children := _ |>) outer) with (own_bounds n outer). change (is_text (n <| children := _ |>)) with (is_text n).
  set (b := own_bounds n outer). destruct (is_text n); [by rewrite flat_eq|].
  change (children (n <| children := ?l |>)) with l.
  destruct (decide _) as [He|_].
  { assert (cs = []) as -> by (by destruct cs). cbn [map arrange_all]. by rewrite flat_eq. }
  set (n' := (n <| children := _ |>) <| bounds := b |>).
  replace (A ++ n' :: flats (S (length A)) cs ++ B) with ((A ++ [n']) ++ flats (length (A ++ [n'])) cs ++ B)
    by (rewrite length_app, Nat.add_1_r, <- app_assoc; done).
  destruct (kids_at (A ++ [n']) cs B) as (kids & Hk & Ha). replace (indices (S (length A)) cs) with (indices (length (A ++ [n'])) cs) by (rewrite length_app, Nat.add_1_r; done).
  rewrite Hk. destruct (alike_sizes n b kids (map node_of cs) Ha) as [Hs Ho].
  match goal with |- place ?f ?m b kids ?l kids (sizes ?m b kids) _ ?t = _ =>
    change (place f n b kids l kids (sizes n b kids) (offsets n b kids).1 t = Ok (A ++ flat (length A) (Doc (n <| bounds := b |>)
      (arrange_all n b (map node_of cs) cs (sizes n b (map node_of cs)) (offsets n b (map node_of cs)).1)) ++ B)) end.
  rewrite place_spec; [|done|done|rewrite sizes_length, (Forall2_length _ _ _ Ha); by rewrite length_map|cbn [doc_size] in Hf; unfold sizes_of; lia].
  rewrite Hs, Ho. rewrite (flat_eq _ (n <| bounds := b |>)), <- app_assoc, length_app, Nat.add_1_r. cbn [app].
  rewrite (arrange_all_kids n b kids (map node_of cs)) by done. set (all := arrange_all _ _ _ _ _ _).
  assert (Hi : indices (S (length A)) all = indices (S (length A)) cs) by apply indices_arranged. by rewrite Hi.
Qed.
(** What [emit_node] emits for a document. *)
Section paint.
Context (fill_width : Z -> list Z -> Z) (st : AppState).

Fixpoint paint (d : doc) : outcome Empty_set (list Command) :=
  match d with
  | Doc n cs =>
      let? (cmds, inside) := paint_node fill_width n st in
      if negb inside then Ok cmds else
      (fix go (cs : list doc) (cmds : list Command) : outcome Empty_set (list Command) :=
         match cs with [] => Ok cmds | c :: cs => let? l := paint c in go cs (cmds ++ l) end) cs cmds
  end.

Fixpoint paint_all (cs : list doc) (cmds : list Command) : outcome Empty_set (list Command) :=
  match cs with [] => Ok cmds | c :: cs => let? l := paint c in paint_all cs (cmds ++ l) end.

Lemma paint_eq n cs :
  paint (Doc n cs) = (let? (cmds, inside) := paint_node fill_width n st in if negb inside then Ok cmds else paint_all cs cmds).
Proof. reflexivity. Qed.

Definition emits (d : doc) : Prop := forall fuel A B b, (doc_size d <= fuel)%nat ->
  emit_node fill_width fuel (A ++ flat (length A) d ++ B) (Z.of_nat (length A)) st b = (let? cmds := paint d in Ok (draw cmds b)).

Lemma draw_app a c b : draw (a ++ c) b = draw c (draw a b).
Proof. apply fold_left_app. Qed.

Lemma foldl_panic fuel t cs : foldl (fun r c => let? b := r in emit_node fill_width fuel t c st b) Panic cs = Panic.
Proof. by induction cs. Qed.

Lemma emit_all_spec fuel cs A B b cmds :
  Forall emits cs -> (sizes_of cs <= fuel)%nat ->
  foldl (fun r c => let? b := r in emit_node fill_width fuel (A ++ flats (length A) cs ++ B) c st b) (Ok (draw cmds b)) (indices (length A) cs) =
  (let? all := paint_all cs cmds in Ok (draw all b)).
Proof.
  intros Hcs. revert A cmds. induction Hcs as [|c cs Hc _ IH]; intros A cmds Hf; [done|].
  unfold sizes_of in Hf. cbn [map list_sum fold_right] in Hf. cbn [indices flats foldl paint_all obind]. rewrite <- !app_assoc.
  rewrite (Hc fuel A) by lia. destruct (paint c) as [l|[]|]; cbn [obind]; [|apply foldl_panic].
  rewrite <- draw_app. specialize (IH (A ++ flat (length A) c) (cmds ++ l)). rewrite length_app, flat_length, <- app_assoc in IH.
  apply IH. unfold sizes_of, list_sum. lia.
Qed.

Lemma emit_spec d : emits d.
Proof.
  induction d as [n cs IH] using doc_induction. intros fuel A B b Hf. destruct fuel as [|fuel]; [cbn in Hf; lia|].
  rewrite paint_eq. cbn [emit_node]. rewrite flat_eq. cbn [app]. rewrite node_at_app.
  change (paint_node fill_width (n <| children := _ |>) st) with (paint_node fill_width n st).
  destruct (paint_node fill_width n st) as [[cmds inside]|[]|]; cbn [obind]; [|done]. destruct inside; cbn [negb obind]; [|done].
  change (children (n <| children := ?l |>)) with l. set (n' := n <| children := _ |>).
  pose proof (emit_all_spec fuel cs (A ++ [n']) B b cmds IH) as Hall. rewrite length_app, Nat.add_1_r, <- app_assoc in Hall.
  apply Hall. cbn [doc_size] in Hf. unfold sizes_of. lia.
Qed.
End paint.

Lemma draw_build cmds : draw cmds [] = build cmds.
Proof. reflexivity. Qed.

(** *** The passes of layout.rs meet the specification *)

Lemma total_cons a l : total (a :: l) = a + total l.
Proof. reflexivity. Qed.

Lemma total_app l l' : total (l ++ l') = total l + total l'.
Proof. induction l as [|a l IH]; [done|]. cbn [app]. rewrite !total_cons, IH. lia. Qed.

Lemma total_nonneg l : Forall (fun a => 0 <= a) l -> 0 <= total l.
Proof. induction 1 as [|a l Ha _ IH]; [done|]. rewrite total_cons. lia. Qed.

Lemma total_bound m l : Forall (fun a => 0 <= a <= m) l -> total l <= m * Z.of_nat (length l).
Proof. induction 1 as [|a l Ha _ IH]; [cbn; lia|]. rewrite total_cons. cbn [length]. lia. Qed.

Lemma total_replicate n a : total (replicate n a) = Z.of_nat n * a.
Proof. induction n as [|n IH]; [done|]. cbn [replicate]. rewrite total_cons, IH. lia. Qed.

Lemma total_take l i : Forall (fun a => 0 <= a) l -> 0 <= total (take i l) <= total l.
Proof.
  intros Hl. rewrite <- (take_drop i l) at 3. rewrite total_app.
  pose proof (total_nonneg _ (Forall_take _ i _ Hl)). pose proof (total_nonneg _ (Forall_drop _ i _ Hl)). lia.
Qed.

Lemma foldl_total (f : Z -> Z -> Z) l a :
  (forall a b, 0 <= a -> 0 <= b -> a + b < 2 ^ 32 -> f a b = a + b) ->
  Forall (fun a => 0 <= a) l -> 0 <= a -> a + total l < 2 ^ 32 -> foldl f a l = a + total l.
Proof.
  intros Hf Hl. revert a. induction Hl as [|b l Hb Hl IH]; intros a Ha Hlt; [cbn; lia|]. rewrite total_cons in *.
  pose proof (total_nonneg _ Hl). cbn [foldl]. rewrite Hf by lia. rewrite IH by lia. lia.
Qed.

Lemma saturating_sum_total l : Forall (fun a => 0 <= a) l -> total l < 2 ^ 32 -> saturating_sum l = total l.
Proof.
  intros Hl Hlt. unfold saturating_sum. rewrite (foldl_total _ l 0); [lia| |done|lia|lia].
  intros a b ? ? ?. unfold saturating_add. lia.
Qed.

Lemma sum32_total l : Forall (fun a => 0 <= a) l -> total l < 2 ^ 32 -> sum32 l = total l.
Proof.
  intros Hl Hlt. unfold sum32. rewrite (foldl_total _ l 0); [lia| |done|lia|lia].
  intros a b ? ? ?. apply wrap_small. unfold in_width. lia.
Qed.

(** Shares rounded down do not exceed what is shared. *)
Lemma shares_bound r g grows : 0 <= r -> 0 < g -> Forall (fun a => 0 <= a) grows ->
  g * total ((fun a => r * a / g) <$> grows) <= r * total grows.
Proof.
  intros Hr Hg. induction 1 as [|a l Ha _ IH]; [cbn; lia|]. rewrite fmap_cons, !total_cons.
  pose proof (Z.mul_div_le (r * a) g Hg). lia.
Qed.

Lemma bump_last_spec grows : forall ss extra,
  Forall (fun a => 0 <= a) grows -> Forall (fun a => 0 <= a) ss -> length grows = length ss -> 0 < total grows -> 0 <= extra ->
  total ss + extra < 2 ^ 32 ->
  exists ss', bump_last_grow grows ss extra = Some ss' /\ length ss' = length ss /\ total ss' = total ss + extra /\
    forall i s s' grow, ss !! i = Some s -> ss' !! i = Some s' -> grows !! i = Some grow ->
      s <= s' /\ (s' = s \/ 0 < grow /\ forall j grow', (i < j)%nat -> grows !! j = Some grow' -> grow' = 0).
Proof.
  induction grows as [|g grows IH]; intros ss extra Hg Hs Hl Ht He Hlt; [cbn in Ht; lia|]. destruct ss as [|s ss]; [done|].
  apply Forall_cons in Hg as [Hg0 Hg], Hs as [Hs0 Hs]. injection Hl as Hl. rewrite total_cons in Ht. rewrite total_cons in Hlt.
  pose proof (total_nonneg _ Hs). cbn [bump_last_grow]. destruct (decide (0 < total grows)) as [Hpos|Hz].
  - destruct (IH ss extra Hg Hs Hl Hpos He ltac:(lia)) as (ss' & -> & Hl' & Ht' & Hi).
    exists (s :: ss'). split; [done|]. split; [by cbn; f_equal|]. split; [rewrite !total_cons; lia|].
    intros [|i] a a' gr Ha Ha' Hgr; [injection Ha as ->; injection Ha' as ->; split; [done|by left]|].
    destruct (Hi i a a' gr Ha Ha' Hgr) as [Hle [?|[? Hlast]]]; (split; [done|]); [by left|right]. split; [done|]. intros [|j] gr' Hj Hgr'; [lia|].
    apply (Hlast j); [lia|done].
  - assert (Hzero : forall j gr', grows !! j = Some gr' -> gr' = 0).
    { pose proof (total_nonneg _ Hg). assert (E : total grows = 0) by lia. clear - E Hg. revert E. induction Hg as [|a l Ha Hl IHl]; [done|].
      rewrite total_cons. pose proof (total_nonneg _ Hl). intros E [|j] gr' Hj; [injection Hj as ->; lia|]. apply (IHl ltac:(lia) j gr' Hj). }
    assert (Hnone : bump_last_grow grows ss extra = None).
    { clear - Hzero. revert ss Hzero. induction grows as [|g' grows IHg]; intros ss Hzero; [done|]. destruct ss as [|s ss]; [done|]. cbn [bump_last_grow].
      rewrite IHg by (intros j; apply (Hzero (S j))). rewrite (Hzero 0%nat g' eq_refl). done. }
    rewrite Hnone. destruct (Z.ltb_spec 0 g); [|lia]. exists (saturating_add 32 s extra :: ss). split; [done|]. split; [done|].
    assert (Hadd : saturating_add 32 s extra = s + extra) by (unfold saturating_add; lia). rewrite Hadd. split; [rewrite !total_cons; lia|].
    intros [|i] a a' gr Ha Ha' Hgr; [|cbn in Ha, Ha'; assert (a' = a) as -> by congruence; split; [done|by left]].
    injection Hgr as ->. injection Ha as ->. injection Ha' as <-. split; [lia|]. right. split; [lia|].
    intros [|j] gr' Hj Hgr'; [lia|]. by apply (Hzero j).
Qed.

(** Adding a share to every size. *)
Lemma zip_total (f : Z -> Z -> Z) (share : Z -> Z) wants grows :
  Forall2 (fun s g => f s g = s + share g /\ 0 <= s + share g) wants grows ->
  Forall (fun a => 0 <= a) (zip_with f wants grows) /\
  total (zip_with f wants grows) = total wants + total (share <$> grows) /\
  forall i s g v, wants !! i = Some s -> grows !! i = Some g -> zip_with f wants grows !! i = Some v -> v = s + share g.
Proof.
  induction 1 as [|s g wants grows [Hf H0] _ (IH1 & IH2 & IH3)]; [by repeat split|]. cbn [zip_with]. rewrite fmap_cons, !total_cons, Hf.
  split; [by constructor|]. split; [lia|]. intros [|i] s' g' v Hs Hg Hv; [|by apply (IH3 i)]. injection Hs as <-. injection Hg as <-. by injection Hv as <-.
Qed.

Lemma small_nonneg l : Forall (fun a => 0 <= a < 2 ^ 16) l -> Forall (fun a => 0 <= a) l.
Proof. intros H. eapply Forall_impl; [exact H|]. cbn. lia. Qed.

Lemma small_total l : Forall (fun a => 0 <= a < 2 ^ 16) l -> Z.of_nat (length l) < 2 ^ 10 -> 0 <= total l <= 2 ^ 26.
Proof.
  intros H Hl. split; [by apply total_nonneg, small_nonneg|]. etrans; [apply (total_bound (2 ^ 16)); eapply Forall_impl; [exact H|]; cbn; lia|]. lia.
Qed.

Section distribute.
Context (avail : Z) (wants grows : list Z) (Ha : 0 <= avail < 2 ^ 16) (Hl : length grows = length wants)
  (Hn : 0 < Z.of_nat (length wants) < 2 ^ 10)
  (Hw : Forall (fun a => 0 <= a < 2 ^ 16) wants) (Hg : Forall (fun a => 0 <= a < 2 ^ 16) grows).

Lemma distribute_grow : 0 < total grows ->
  main_sizes avail wants grows (distribute avail wants grows) /\ Forall (fun a => 0 <= a) (distribute avail wants grows) /\
    total (distribute avail wants grows) < 2 ^ 27.
Proof using All.
  intros Hpos. pose proof (small_total _ Hw ltac:(lia)) as Hwt. pose proof (small_total _ Hg ltac:(lia)) as Hgt.
  set (r := Z.max 0 (avail - total wants)). assert (Hr : 0 <= r < 2 ^ 16) by lia. set (share := fun g => r * g / total grows).
  assert (Hzip : Forall2 (fun s g => (if 0 <? g then saturating_add 32 s (saturating_mul r g / total grows) else s) = s + share g /\ 0 <= s + share g) wants grows).
  { apply Forall2_lookup. intros i. destruct (wants !! i) as [s|] eqn:Es.
    2:{ apply lookup_ge_None in Es. rewrite lookup_ge_None_2 by lia. constructor. }
    destruct (lookup_lt_is_Some_2 grows i) as [g Eg]; [rewrite Hl; by eapply lookup_lt_Some|]. rewrite Eg. constructor.
    pose proof (Forall_lookup_1 _ _ _ _ Hw Es) as Hs. pose proof (Forall_lookup_1 _ _ _ _ Hg Eg) as Hgg. cbn in Hs, Hgg.
    assert (Hsh : 0 <= share g <= r * g) by (unfold share; split; [apply Z.div_pos; nia|apply Z.div_le_upper_bound; nia]).
    assert (Hrg : r * g <= (2 ^ 16 - 1) * (2 ^ 16 - 1)) by (apply Z.mul_le_mono_nonneg; lia). split; [|lia].
    destruct (Z.ltb_spec 0 g) as [|Hz].
    - unfold saturating_mul, U32_MAX. rewrite Z.min_r by lia. fold (share g). unfold saturating_add.
      assert (share g <= r) by (unfold share; apply Z.div_le_upper_bound; [lia|]; enough (g <= total grows) by nia;
        rewrite <- (take_drop_middle _ _ _ Eg), total_app, total_cons;
        pose proof (total_nonneg _ (Forall_take _ i _ (small_nonneg _ Hg))); pose proof (total_nonneg _ (Forall_drop _ (S i) _ (small_nonneg _ Hg))); lia).
      lia.
    - assert (g = 0) as -> by lia. unfold share. rewrite Z.mul_0_r, Z.div_0_l by lia. lia. }
  destruct (zip_total _ _ _ _ Hzip) as (Z1 & Z2 & Z3). unfold distribute.
  rewrite (wrap_small 32 (Z.of_nat (length wants))) by (unfold in_width; lia). rewrite !saturating_sum_total by (by apply small_nonneg || lia).
  destruct (Z.ltb_spec 0 (total grows)) as [_|]; [|lia]. cbv zeta. change (saturating_sub avail (total wants)) with r.
  set (zs := zip_with _ _ _) in *. assert (Hzl : length zs = length wants) by (unfold zs; rewrite length_zip_with; lia).
  assert (Hsum : 0 <= total (share <$> grows) <= r).
  { split.
    - apply total_nonneg, Forall_fmap. eapply Forall_impl; [exact Hg|]. intros g Hgg. cbn in *. unfold share. apply Z.div_pos; nia.
    - pose proof (shares_bound r (total grows) grows ltac:(lia) Hpos (small_nonneg _ Hg)) as Hb. fold share in Hb. nia. }
  rewrite (sum32_total zs Z1) by lia. rewrite (wrap_small 32 (total wants + r)) by (unfold in_width; lia).
  destruct (Z.ltb_spec (total zs) (total wants + r)) as [Hlt|Hge].
  - rewrite (wrap_small 32) by (unfold in_width; lia).
    destruct (bump_last_spec grows zs (total wants + r - total zs) (small_nonneg _ Hg) Z1 ltac:(lia) Hpos ltac:(lia) ltac:(lia)) as (zs' & -> & Hl' & Ht' & Hi).
    change (default zs (Some zs')) with zs'. split; [|split].
    + apply SizesGrow; [done|lia|fold r; lia|]. fold r. intros i s0 g s Hs0 Hgi Hs.
      destruct (lookup_lt_is_Some_2 zs i) as [z Hz]; [rewrite Hzl; by eapply lookup_lt_Some|].
      destruct (Hi i z s g Hz Hs Hgi) as [_ [->|?]]; [left|by right]. exact (Z3 _ _ _ _ Hs0 Hgi Hz).
    + apply Forall_lookup. intros i s Hs. destruct (lookup_lt_is_Some_2 zs i) as [z Hz]; [rewrite <- Hl'; by eapply lookup_lt_Some|].
      destruct (lookup_lt_is_Some_2 grows i) as [g Hgi]; [rewrite Hl, <- Hzl; by eapply lookup_lt_Some|].
      pose proof (Forall_lookup_1 _ _ _ _ Z1 Hz) as Hz0. cbn in Hz0. destruct (Hi i z s g Hz Hs Hgi) as [Hle _]. lia.
    + lia.
  - cbn. split; [|split; [exact Z1|lia]]. apply SizesGrow; [done|done|fold r; lia|]. fold r. intros i s0 g s Hs0 Hgi Hs. left. exact (Z3 _ _ _ _ Hs0 Hgi Hs).
Qed.
End distribute.
Section distribute_all.
Context (avail : Z) (wants grows : list Z) (Ha : 0 <= avail < 2 ^ 16) (Hl : length grows = length wants)
  (Hn : 0 < Z.of_nat (length wants) < 2 ^ 10)
  (Hw : Forall (fun a => 0 <= a < 2 ^ 16) wants) (Hg : Forall (fun a => 0 <= a < 2 ^ 16) grows).

Lemma distribute_sizes :
  main_sizes avail wants grows (distribute avail wants grows) /\ Forall (fun a => 0 <= a) (distribute avail wants grows) /\
    total (distribute avail wants grows) < 2 ^ 27.
Proof using All.
  pose proof (small_total _ Hw ltac:(lia)) as Hwt. pose proof (small_total _ Hg ltac:(lia)) as Hgt.
  destruct (Z.ltb_spec 0 (total grows)) as [|Hz]; [by apply distribute_grow|]. unfold distribute.
  rewrite (wrap_small 32 (Z.of_nat (length wants))) by (unfold in_width; lia). rewrite !saturating_sum_total by (by apply small_nonneg || lia).
  destruct (Z.ltb_spec 0 (total grows)) as [|_]; [lia|].
  destruct ((0 <? total wants) && (total wants <=? avail)) eqn:E.
  - split; [|split; [by apply small_nonneg|lia]]. apply SizesWanted; lia.
  - rewrite Z.max_l by lia. pose proof (Z.div_pos avail (Z.of_nat (length wants)) ltac:(lia) ltac:(lia)).
    split; [apply SizesEqual; lia|]. split; [by apply Forall_replicate|]. rewrite total_replicate.
    pose proof (Z.mul_div_le avail (Z.of_nat (length wants)) ltac:(lia)). lia.
Qed.
End distribute_all.

Lemma i32_small z : - 2 ^ 31 <= z < 2 ^ 31 -> i32 z = z.
Proof. intros Hz. unfold i32. rewrite Z.mod_small by lia. lia. Qed.

(** The constraints the children get, one after the other. *)
Section slot_list.
Context (n : Node) (b : Bounds) (kids : list Node).

Fixpoint slot_list (ks : list Node) (ss : list Z) (cursor : Z) : list LayoutConstraint :=
  match ks, ss with
  | k :: ks, s :: ss => slot n b cursor s k :: slot_list ks ss (next_cursor n b kids cursor s (bool_decide (ks = [])))
  | _, _ => []
  end.

Lemma slot_list_length ks ss cursor : length ss = length ks -> length (slot_list ks ss cursor) = length ks.
Proof. revert ss cursor. induction ks as [|k ks IH]; intros [|s ss] cursor H; try done. cbn. f_equal. apply IH. by injection H. Qed.

(** While nothing saturates, a child starts after the sizes of the ones before it
    and what is put between two. *)
Lemma slot_list_lookup ks ss cursor i o k s :
  0 <= spacing n -> 0 <= (offsets n b kids).2 -> Forall (fun a => 0 <= a) ss -> 0 <= cursor ->
  cursor + total ss + Z.of_nat (length ks) * (spacing n + (offsets n b kids).2) < 2 ^ 32 -> length ss = length ks ->
  slot_list ks ss cursor !! i = Some o -> ks !! i = Some k -> ss !! i = Some s ->
  o = slot n b (cursor + total (take i ss) + Z.of_nat i * (spacing n + (offsets n b kids).2)) s k.
Proof.
  intros Hg Hb Hss. set (step := spacing n + (offsets n b kids).2). revert ks cursor i. induction Hss as [|s0 ss Hs0 Hss IH]; intros ks cursor i Hc Hlt Hlen Ho Hk Hs; [done|].
  destruct ks as [|k0 ks]; [done|]. cbn [slot_list] in Ho. injection Hlen as Hlen. cbn [length] in Hlt. rewrite total_cons in Hlt.
  pose proof (total_nonneg _ Hss). destruct i as [|i].
  - injection Ho as <-. injection Hk as <-. injection Hs as <-. f_equal. cbn. lia.
  - cbn [lookup list_lookup] in Ho, Hk, Hs. assert (Hne : bool_decide (ks = []) = false) by (apply bool_decide_eq_false_2; by intros ->).
    assert (Hnext : next_cursor n b kids cursor s0 false = cursor + s0 + step).
    { unfold next_cursor, saturating_add. subst step. nia. }
    rewrite Hne, Hnext in Ho. assert (0 <= step) by (subst step; lia).
    rewrite (IH ks (cursor + s0 + step) i ltac:(lia) ltac:(lia) Hlen Ho Hk Hs). f_equal. cbn [take]. rewrite total_cons. lia.
Qed.
End slot_list.

Lemma text_width_wanted c : text_width c = 8 * char_count (name c) \/ 2 ^ 16 <= 8 * char_count (name c).
Proof.
  unfold text_width, saturating_mul, U32_MAX, GLYPH_W. assert (0 <= char_count (name c)) by (unfold char_count; lia).
  destruct (decide (8 * char_count (name c) < 2 ^ 16)); [left|right; lia]. rewrite wrap_small by (unfold in_width; lia). lia.
Qed.

Lemma intrinsic_wanted c row :
  0 <= wanted_width c < 2 ^ 16 ->
  child_intrinsic_main c (if row : bool then X else Y) = wanted row c /\ child_intrinsic_cross c (if row then X else Y) = wanted (negb row) c.
Proof.
  intros Hw. pose proof (text_width_wanted c) as Ht. unfold child_intrinsic_main, child_intrinsic_cross, wanted, wanted_width, wanted_height, number, is_text in *.
  destruct row; cbn [negb]; destruct (get_u32 (str "width") (attrs c)), (get_u32 (str "height") (attrs c)), (kind c); cbn [default from_option id] in *; unfold GLYPH_H; split; try done; lia.
Qed.

Section box.
Context (n : Node) (b : Bounds) (kids : list Node) (F : box_fits n b kids).
Let row := bool_decide (name n = str "HBox").
Let pad := number "padding" 0 n.
Let gap := number "spacing" 0 n.
Let k := Z.of_nat (length kids).
Let inner_width := Z.max 0 (w b - 2 * pad).
Let inner_height := Z.max 0 (h b - 2 * pad).
Let avail := Z.max 0 ((if row then inner_width else inner_height) - gap * (k - 1)).
Let breadth := if row then inner_height else inner_width.

Lemma box_axis : axis n = if row then X else Y.
Proof. unfold axis, stack_axis, row. case_decide; [by rewrite bool_decide_eq_true_2|by rewrite bool_decide_eq_false_2]. Qed.

Lemma box_inner : inner_w n b = inner_width /\ inner_h n b = inner_height /\ inner_x n b = x b + pad /\ inner_y n b = y b + pad.
Proof.
  destruct F as [(Hx & Hy) _ Hp _ _ _]. unfold inner_w, inner_h, inner_x, inner_y, inner_width, inner_height. change (padding n) with pad. fold pad in Hp.
  rewrite (wrap_small 32 (pad * 2)) by (unfold in_width; lia). rewrite (i32_small pad), !i32_small by lia. unfold saturating_sub. split_and!; lia.
Qed.

Lemma box_spacing : total_spacing n kids = gap * (k - 1) /\ count kids = k /\ 0 <= gap * k <= 2 ^ 26.
Proof.
  destruct F as [_ _ _ Hs Hk _]. fold gap in Hs. fold k in Hk. assert (Hc : count kids = k) by (unfold count; fold k; apply wrap_small; unfold in_width; lia).
  assert (Hgk : 0 <= gap * k <= 2 ^ 26) by (split; [nia|transitivity (2 ^ 16 * 2 ^ 10); [apply Z.mul_le_mono_nonneg; lia|done]]).
  split; [|done]. unfold total_spacing. rewrite Hc. change (spacing n) with gap. destruct (Z.ltb_spec 1 k).
  - apply wrap_small. unfold in_width. nia.
  - assert (k = 1) as -> by lia. lia.
Qed.

Lemma box_avail : main_avail n b kids = avail /\ cross_avail n b = breadth /\ 0 <= avail < 2 ^ 16 /\ 0 <= breadth.
Proof.
  destruct box_inner as (Hw & Hh & _), box_spacing as (Hs & _ & Hgk). destruct F as [_ (Hw' & Hh') Hp Hsp Hk _]. fold pad gap k in Hp, Hsp, Hk.
  unfold main_avail, cross_avail. rewrite box_axis, Hs, Hw, Hh. unfold avail, breadth, saturating_sub. destruct row.
  - split; [done|]. split; [done|]. unfold inner_width, inner_height. nia.
  - split; [done|]. split; [done|]. unfold inner_width, inner_height. nia.
Qed.

Lemma box_wants : (fun c => child_intrinsic_main c (axis n)) <$> kids = wanted row <$> kids.
Proof.
  apply list_fmap_ext. intros i c Hc. rewrite box_axis. pose proof (Forall_lookup_1 _ _ _ _ (fits_kids _ _ _ F) Hc) as (Hw & _). by apply intrinsic_wanted.
Qed.

Lemma box_small : Forall (fun a => 0 <= a < 2 ^ 16) (wanted row <$> kids) /\ Forall (fun a => 0 <= a < 2 ^ 16) (growth <$> kids).
Proof.
  split; apply Forall_fmap; (eapply Forall_impl; [apply (fits_kids _ _ _ F)|]); intros c (Hw & Hh & Hg); cbn; [|exact Hg]. unfold wanted. by destruct row.
Qed.

Lemma box_sizes : main_sizes avail (wanted row <$> kids) (growth <$> kids) (sizes n b kids) /\ Forall (fun a => 0 <= a) (sizes n b kids) /\
  total (sizes n b kids) < 2 ^ 27 /\ length (sizes n b kids) = length kids.
Proof.
  destruct box_avail as (Hav & _ & Hr & _), box_small as [Hw Hg]. unfold sizes. rewrite Hav, box_wants. change child_grow with growth.
  destruct (distribute_sizes avail (wanted row <$> kids) (growth <$> kids) Hr) as (H1 & H2 & H3); [by rewrite !length_fmap|rewrite length_fmap; apply (fits_count _ _ _ F)|done|done|].
  split; [done|]. split; [done|]. split; [done|]. rewrite distribute_length by (by rewrite !length_fmap). apply length_fmap.
Qed.

Let free := Z.max 0 (avail - (total (sizes n b kids) + gap * (k - 1))).

Lemma box_free : leftover n b kids = free.
Proof.
  destruct box_avail as (Hav & _ & Hr & _), box_spacing as (Hs & _ & Hgk), box_sizes as (_ & Hn & Ht & _). unfold leftover. rewrite Hav, Hs.
  pose proof (fits_count _ _ _ F) as Hk. pose proof (fits_spacing _ _ _ F) as Hg. fold k in Hk. fold gap in Hg. pose proof (total_nonneg _ Hn).
  rewrite sum32_total by (done || lia). rewrite wrap_small by (unfold in_width; nia). done.
Qed.

Lemma box_offsets :
  justified (get (str "justify") (attrs n)) (growth <$> kids) k free (offsets n b kids).1 (offsets n b kids).2 /\
  0 <= (offsets n b kids).1 < 2 ^ 16 /\ 0 <= (offsets n b kids).2 < 2 ^ 16.
Proof.
  destruct box_small as [_ Hg], box_spacing as (_ & Hc & _), box_avail as (_ & _ & Hr & _), box_sizes as (_ & Hn & _).
  pose proof (fits_count _ _ _ F) as Hk. pose proof (fits_spacing _ _ _ F) as Hsp. fold gap in Hsp. fold k in Hk. pose proof (total_nonneg _ Hn).
  assert (Hf : 0 <= free < 2 ^ 16) by (unfold free; nia).
  unfold offsets. rewrite box_free, Hc. change child_grow with growth.
  pose proof (small_total _ Hg ltac:(rewrite length_fmap; apply Hk)) as Hgt. rewrite saturating_sum_total by (by apply small_nonneg || lia).
  unfold justify_offsets, parse_justify. destruct (Z.ltb_spec 0 (total (growth <$> kids))) as [Hpos|Hz]; [split; [by apply JustifyGrow|cbn; lia]|].
  assert (H0 : total (growth <$> kids) = 0) by lia.
  destruct (decide _) as [Ec|Ec]; [split; [by apply JustifyCenter|cbn]; Z.div_mod_to_equations; lia|].
  destruct (decide _) as [Ee|Ee]; [split; [by apply JustifyEnd|cbn; lia]|].
  destruct (decide _) as [Eb|Eb]; [|split; [by apply JustifyStart|cbn; lia]].
  destruct (Z.leb_spec k 1); cbn [fst snd]; [split; [by apply JustifyAlone|lia]|].
  split; [by apply JustifyBetween|]. split; [lia|]. split; [apply Z.div_pos; lia|]. apply Z.div_lt_upper_bound; nia.
Qed.

Lemma box_cross c : 0 <= wanted_width c < 2 ^ 16 -> 0 <= wanted_height c < 2 ^ 16 ->
  exists size off, cross (parse_align (get (str "align") (attrs n))) breadth (child_intrinsic_cross c (axis n)) = (size, off) /\
    crossed (get (str "align") (attrs n)) breadth (wanted (negb row) c) size off /\ 0 <= off <= breadth.
Proof.
  intros Hw Hh. rewrite box_axis, (proj2 (intrinsic_wanted c row Hw)). destruct box_avail as (_ & _ & _ & Hb). unfold cross, parse_align, saturating_sub.
  assert (Hwant : 0 <= wanted (negb row) c) by (unfold wanted; destruct row; cbn; lia).
  assert (Hfit : 0 <= fitted breadth (wanted (negb row) c) <= breadth) by (unfold fitted; destruct (_ =? 0); lia).
  fold (fitted breadth (wanted (negb row) c)).
  destruct (decide _) as [Ec|Ec]; [do 2 eexists; split; [done|]; rewrite Z.max_r by lia; split; [by apply CrossCenter|Z.div_mod_to_equations; lia]|].
  destruct (decide _) as [Ee|Ee]; [do 2 eexists; split; [done|]; rewrite Z.max_r by lia; split; [by apply CrossEnd|lia]|].
  destruct (decide _) as [Es|Es]; do 2 eexists; (split; [done|]); [split; [by apply CrossStretch|lia]|split; [by apply CrossStart|lia]].
Qed.

Lemma box_placed : placed_in n b kids (slot_list n b kids kids (sizes n b kids) (offsets n b kids).1).
Proof.
  destruct box_sizes as (Hm & Hn & Ht & Hl), box_offsets as (Hj & Hlead & Hbetween), box_spacing as (_ & _ & Hgk), box_avail as (_ & Hbr & _ & Hb0), box_inner as (_ & _ & Hix & Hiy).
  pose proof (fits_count _ _ _ F) as Hk. pose proof (fits_spacing _ _ _ F) as Hsp. pose proof (fits_padding _ _ _ F) as Hpad. destruct (fits_place _ _ _ F) as [Hx Hy]. destruct (fits_size _ _ _ F) as [Hbw Hbh].
  fold gap in Hsp. fold k in Hk. fold pad in Hpad. unfold placed_in. cbv zeta. fold row pad gap k. fold inner_width inner_height. fold avail breadth.
  exists (sizes n b kids), (offsets n b kids).1, (offsets n b kids).2. split; [exact Hm|]. split; [exact Hj|].
  split; [by apply slot_list_length|]. intros i o c s Ho Hc Hs.
  set (lead := (offsets n b kids).1) in *. set (between := (offsets n b kids).2) in *.
  assert (Hkb : 0 <= k * between <= 2 ^ 26) by (split; [nia|transitivity (2 ^ 10 * 2 ^ 16); [apply Z.mul_le_mono_nonneg; lia|done]]).
  rewrite (slot_list_lookup n b kids kids (sizes n b kids) lead i o c s) by (done || (change (spacing n) with gap; fold between; fold k; lia)).
  change (spacing n) with gap. fold between. set (main := lead + total (take i (sizes n b kids)) + Z.of_nat i * (gap + between)).
  pose proof (total_take _ i Hn) as Htake. apply lookup_lt_Some in Hs as Hi. rewrite Hl in Hi.
  assert (Hmain : 0 <= main < 2 ^ 29) by (unfold main; assert (Z.of_nat i * (gap + between) <= k * (gap + between)) by (apply Z.mul_le_mono_nonneg_r; lia); nia).
  destruct (Forall_lookup_1 _ _ _ _ (fits_kids _ _ _ F) Hc) as (Hcw & Hch & _).
  destruct (box_cross c Hcw Hch) as (size & off & Ecross & Hcross & Hoff). exists size, off. split; [exact Hcross|].
  unfold slot. rewrite Hbr, Ecross, Hix, Hiy, box_axis.
  assert (Hbreadth : breadth < 2 ^ 16) by (unfold breadth, inner_height, inner_width; destruct row; lia).
  rewrite (i32_small main), (i32_small off) by lia. destruct row; rewrite !i32_small by lia; done.
Qed.
End box.

(** *** Layout and painting of a document *)

Lemma own_bounds_bounded n o : bounded n o (own_bounds n o).
Proof.
  assert (Ht : 8 * char_count (name n) < 2 ^ 32 -> text_width n = 8 * char_count (name n)).
  { intros H. unfold text_width, saturating_mul, U32_MAX, GLYPH_W. assert (0 <= char_count (name n)) by (unfold char_count; lia).
    rewrite wrap_small by (unfold in_width; lia). lia. }
  split; unfold own_bounds, is_text, number; destruct (kind n); cbn [x y w h]; try done. intros _ H. rewrite Ht by done. by split.
Qed.

Lemma arrange_all_laid n b kids cs ss cursor :
  Forall (fun d => forall o, laid o d (arrange d o)) cs -> length ss = length cs ->
  Forall2 (fun p c' => laid p.1 p.2 c') (zip (slot_list n b kids (map node_of cs) ss cursor) cs) (arrange_all n b kids cs ss cursor).
Proof.
  intros Hcs. revert ss cursor. induction Hcs as [|c cs Hc _ IH]; intros [|s ss] cursor Hl; try done.
  cbn [map slot_list zip zip_with arrange_all]. constructor; [apply Hc|].
  assert (He : bool_decide (map node_of cs = []) = bool_decide (cs = [])) by (by destruct cs).
  rewrite He. apply IH. by injection Hl.
Qed.

Lemma arrange_laid d : forall o, laid o d (arrange d o).
Proof.
  induction d as [n cs IH] using doc_induction. intros o. rewrite arrange_eq. cbv zeta. set (b := own_bounds n o).
  assert (Hb : bounded n o b) by apply own_bounds_bounded. destruct (is_text n) eqn:Ht.
  - apply LaidText; [|done]. unfold is_text in Ht. by destruct (kind n).
  - assert (Hl : length (sizes n b (map node_of cs)) = length cs) by (rewrite sizes_length; apply length_map).
    eapply LaidBox; [unfold is_text in Ht; by destruct (kind n)|exact Hb| | |by apply arrange_all_laid].
    + rewrite slot_list_length; [apply length_map|by rewrite length_map].
    + intros HF. by apply box_placed.
Qed.

Section painting.
Context (fill_width : Z -> list Z -> Z) (st : AppState).

Lemma shows_paint_node n own inside : shows fill_width st n own inside -> paint_node fill_width n st = Ok (own, inside).
Proof.
  unfold paint_node. intros [Hk|c Hk Hn Hc|Hk Hn Hc|c Hk Hn Hc|track fill Hk Hn Ht Hf wd Hw|track Hk Hn Ht Hw|v c Hk Hn Hv Hc|Hk Hn Hv|Hk Hn];
    unfold has_color, bound_text in *; rewrite Hk; [done|..];
    try (rewrite Hn; repeat (first [rewrite decide_True by done | rewrite decide_False by (vm_compute; discriminate)])).
  - rewrite Hc. done.
  - rewrite Hc. done.
  - rewrite Hc. done.
  - rewrite Ht. cbn [obind]. fold wd. rewrite (proj2 (Z.ltb_lt _ _) Hw), Hf. done.
  - rewrite Ht. cbn [obind]. rewrite (proj2 (Z.ltb_ge _ _) Hw). done.
  - rewrite Hv, Hc. done.
  - rewrite Hv. done.
  - do 4 (rewrite decide_False by (intros E; apply Hn; rewrite E; set_solver)). done.
Qed.

Lemma paint_all_concat cs css cmds :
  Forall2 (fun c l => paint fill_width st c = Ok l) cs css -> paint_all fill_width st cs cmds = Ok (cmds ++ concat css).
Proof.
  intros H. revert cmds. induction H as [|c l cs css Hc _ IH]; intros cmds; cbn [paint_all concat]; [by rewrite app_nil_r|].
  rewrite Hc. cbn [obind]. by rewrite IH, <- app_assoc.
Qed.

Lemma paints_paint d : forall cmds, paints fill_width st d cmds -> paint fill_width st d = Ok cmds.
Proof.
  induction d as [n cs IH] using doc_induction. intros cmds H. inversion H as [? ? own Hs|? ? own css Hs HF]; subst; rewrite paint_eq, (shows_paint_node _ _ _ Hs); cbn [obind negb]; [done|].
  apply paint_all_concat. clear - IH HF. induction HF as [|c l cs css Hc _ IHF]; [constructor|]. apply Forall_cons in IH as [IHc IH]. constructor; [by apply IHc|by apply IHF].
Qed.

Lemma shows_total n :
  Forall (fun key => get_color key (attrs n) <> Panic) [str "bg_color"; str "track_color"; str "fill_color"; str "color"] ->
  exists own inside, shows fill_width st n own inside.
Proof.
  rewrite !Forall_cons. intros (Hbg & Htr & Hfi & Hco & _).
  assert (Hc : forall key, get_color (str key) (attrs n) <> Panic -> exists c, has_color key n c).
  { intros key H. unfold has_color. destruct (get_color (str key) (attrs n)) as [c|[]|]; [exists c; reflexivity|by destruct H]. }
  destruct (Hc _ Hbg) as [bg Hbg'], (Hc _ Htr) as [tr Htr'], (Hc _ Hfi) as [fi Hfi'], (Hc _ Hco) as [co Hco'].
  destruct (kind n) eqn:Hk; [|do 2 eexists; by apply ShowsText].
  destruct (decide (name n = str "Window")); [destruct bg as [c|]; do 2 eexists; [by eapply ShowsWindow|by apply ShowsBareWindow]|].
  destruct (decide (name n = str "Button")); [do 2 eexists; by eapply ShowsButton|].
  destruct (decide (name n = str "ProgressBar")).
  { destruct (decide (0 < fill_width (w (bounds n)) (default (str "0") (get (str "value") (attrs n))))); do 2 eexists;
      [by eapply ShowsProgress|eapply ShowsEmptyProgress; [done|done|exact Htr'|lia]]. }
  destruct (decide (name n = str "Text")); [destruct (bound_text st n) eqn:Hv; do 2 eexists; [by eapply ShowsBound|by apply ShowsUnbound]|].
  do 2 eexists. apply ShowsOther; [done|]. set_solver.
Qed.

Lemma paints_total d : readable d -> exists cmds, paints fill_width st d cmds.
Proof.
  induction d as [n cs IH] using doc_induction. intros H. inversion H as [? ? Hn Hcs]; subst. destruct (shows_total n Hn) as (own & [|] & Hs).
  - assert (Hall : exists css, Forall2 (paints fill_width st) cs css).
    { clear - IH Hcs. induction IH as [|c cs Hc _ IHc]; [by exists []|]. apply Forall_cons in Hcs as [H1 H2].
      destruct (Hc H1) as [l Hl], (IHc H2) as [css Hcss]. exists (l :: css). by constructor. }
    destruct Hall as [css Hcss]. eexists. by eapply PaintsInside.
  - eexists. by apply PaintsAlone.
Qed.
End painting.

(** Layout leaves the attributes alone. *)
Lemma arrange_readable d : forall o, readable d -> readable (arrange d o).
Proof.
  induction d as [n cs IH] using doc_induction. intros o H. inversion H as [? ? Hn Hcs]; subst. rewrite arrange_eq. cbv zeta.
  destruct (is_text n); [by constructor|]. constructor; [done|]. generalize (sizes n (own_bounds n o) (map node_of cs)) as ss, (offsets n (own_bounds n o) (map node_of cs)).1 as cur.
  generalize (map node_of cs) as kids. intros kids. clear H Hn. induction IH as [|c cs Hc _ IHcs]; intros [|s ss] cur; cbn [arrange_all]; try done.
  apply Forall_cons in Hcs as [H1 H2]. constructor; [by apply Hc|by apply IHcs].
Qed.

(** C10: Markup that the parser accepts is the tree of a document and is laid out
    without a panic, the document as specified: every node has the bounds its
    attributes or its constraint give, and the children of a box (numbers below
    2^16, coordinates below 2^30, fewer than 1024 children) follow each other on
    its axis, separated by the spacing, inside the padding, with the sizes, the
    justification and the alignment its attributes ask for.  If no color
    attribute is cut inside a character there are commands that show the
    document, each element by its tag and then its children in order; they are
    what is compiled, and, when their fields fit the records of a display list
    and the frame is pushed to the ring, what the compositor executes next. *)
Theorem markup_reaches_screen fill_width src t outer st :
  Z.of_nat (length src) < 2 ^ 32 -> parse src = Ok t ->
  (exists d, t = flat 0 d) /\
  forall d, t = flat 0 d ->
    let d' := arrange d outer in
    layout t outer = Ok (flat 0 d') /\ laid outer d d' /\
    (readable d -> exists cmds, paints fill_width st d' cmds) /\
    forall cmds, paints fill_width st d' cmds ->
      compile_into fill_width (flat 0 d') st = Ok (end_frame (build cmds)) /\
      forall N W scratch rest, 0 < N -> (N | 2 ^ 64) -> N < 2 ^ 63 -> rtc (Ring.step N) (Ring.initial N) W -> Ring.cons W = Ring.CIdle ->
        Ring.len scratch = N -> Forall command_ok cmds -> Ring.pushed W = Ring.popped W ++ end_frame (build cmds) ++ rest ->
        exists r', drain N scratch (Ring.ring W) = (r', Ok (Some (cmds, Ok (Ring.len (end_frame (build cmds)))))).
Proof.
  intros Hs Hp. destruct (parse_shape src Hs) as [_ Hd]. destruct (Hd t Hp) as (d0 & Hd0 & _). split; [by exists d0|].
  intros d ->. assert (Hroot : forall d', root (flat 0 d') = Some 0) by (by intros [n cs]). cbv zeta. split; [|split; [apply arrange_laid|split]].
  - unfold layout. rewrite Hroot, flat_length. pose proof (layout_spec d (doc_size d) [] [] outer ltac:(lia)) as H.
    cbn [length app] in H. by rewrite !app_nil_r in H.
  - intros Hr. apply paints_total. by apply arrange_readable.
  - intros cmds Hc. apply paints_paint in Hc. split.
    + unfold compile_into. rewrite Hroot, flat_length. pose proof (emit_spec fill_width st (arrange d outer) (doc_size (arrange d outer)) [] [] [] ltac:(lia)) as H.
      cbn [length app] in H. rewrite app_nil_r in H. change (Z.of_nat 0) with 0 in H. rewrite H, Hc. done.
    + intros N W scratch rest H1 H2 H3 Hr Hcons Hlen Hcmds Hpush.
      destruct (drain_first_frame N W scratch cmds rest H1 H2 H3 Hr Hcons Hlen Hcmds Hpush) as (r' & Hd' & _). by exists r'.
Qed.

(** ** Hit testing *)

Lemma first_hit_inv hit idx cs r :
  first_hit hit idx cs = Ok (Some r) ->
  (r = idx /\ Forall (fun c => hit c = Ok None) cs) \/ exists c, c ∈ cs /\ hit c = Ok (Some r).
Proof.
  induction cs as [|c cs IH]; cbn [first_hit]; [by intros [= ->]; left|].
  destruct (hit c) as [[d|]|[]|] eqn:E; cbn [obind]; try discriminate.
  - intros [= ->]. right. exists c. by split; [apply list_elem_of_here|].
  - intros H. destruct (IH H) as [[-> Hall]|(c' & Hin & Hc')]; [left; by split; [|constructor]|].
    right. exists c'. by split; [apply list_elem_of_further|].
Qed.

Lemma walk_hit fuel t idx px py r :
  walk fuel t idx px py = Ok (Some r) ->
  exists n, node_at t r = Some n /\ contains (bounds n) px py = true /\
    Forall (fun c => exists fuel, walk fuel t c px py = Ok None) (children n).
Proof.
  revert idx. induction fuel as [|fuel IH]; intros idx; cbn [walk]; [discriminate|].
  destruct (node_at t idx) as [n|] eqn:En; [|discriminate]. destruct (contains (bounds n) px py) eqn:Ec; cbn [negb]; [|discriminate].
  intros H. destruct (first_hit_inv _ _ _ _ H) as [[-> Hall]|(c & _ & Hc)]; [|by apply (IH c)].
  exists n. split; [done|]. split; [done|]. rewrite Forall_forall in *. intros c Hc. exists fuel. apply Hall. by rewrite list_elem_of_In, <- in_rev, <- list_elem_of_In.
Qed.

(** A child that is not hit does not contain the point: the walk stops at a node
    only when the point is outside it. *)
Lemma walk_miss fuel t c px py m : walk fuel t c px py = Ok None -> node_at t c = Some m -> contains (bounds m) px py = false.
Proof.
  destruct fuel as [|fuel]; cbn [walk]; [discriminate|]. intros H Em. rewrite Em in H. destruct (contains (bounds m) px py); cbn [negb] in H; [|done].
  exfalso. revert H. induction (rev (children m)) as [|d ds IH]; cbn [first_hit]; [discriminate|].
  destruct (walk fuel t d px py) as [[r|]|[]|]; cbn [obind]; [discriminate|exact IH|discriminate].
Qed.

(** A hit is a node of the tree that contains the point, and none of its children does. *)
Theorem hit_is_deepest t px py i :
  hit_test t px py = Ok (Some i) ->
  exists n, node_at t i = Some n /\ contains (bounds n) px py = true /\
    forall c m, c ∈ children n -> node_at t c = Some m -> contains (bounds m) px py = false.
Proof.
  unfold hit_test. destruct (root t); [|discriminate]. intros H. destruct (walk_hit _ _ _ _ _ _ H) as (n & H1 & H2 & H3).
  exists n. split; [done|]. split; [done|]. intros c m Hc Hm. rewrite Forall_forall in H3. destruct (H3 c Hc) as [fuel Hf]. by eapply walk_miss.
Qed.

(** One round per node is enough. *)
Lemma walk_total_doc d px py fuel A B :
  (doc_size d <= fuel)%nat -> walk fuel (A ++ flat (length A) d ++ B) (Z.of_nat (length A)) px py <> Panic.
Proof.
  revert fuel A B. induction d as [n cs IH] using doc_induction. intros fuel A B Hf. destruct fuel as [|fuel]; [cbn in Hf; lia|].
  cbn [walk]. rewrite flat_eq. cbn [app]. rewrite node_at_app. destruct (negb _); [discriminate|].
  change (children (n <| children := ?l |>)) with l. set (n' := n <| children := _ |>).
  assert (Hall : forall A', Forall (fun c => walk fuel (A' ++ flats (length A') cs ++ B) c px py <> Panic) (indices (length A') cs)).
  { cbn [doc_size] in Hf. clear n'. revert Hf. induction IH as [|c cs Hc _ IHcs]; intros Hf A'; [constructor|].
    unfold list_sum in *. cbn [map fold_right] in Hf. cbn [flats indices]. rewrite <- !app_assoc. constructor; [apply Hc; lia|].
    specialize (IHcs ltac:(lia) (A' ++ flat (length A') c)). by rewrite length_app, flat_length, <- app_assoc in IHcs. }
  specialize (Hall (A ++ [n'])). rewrite length_app, Nat.add_1_r, <- app_assoc in Hall. cbn [app] in Hall.
  apply Forall_rev in Hall. induction Hall as [|c cs' Hc _ IHc]; cbn [first_hit]; [discriminate|].
  destruct (walk fuel _ c px py) as [[r|]|[]|]; cbn [obind]; [discriminate|exact IHc|done].
Qed.

Lemma hit_test_total d px py : hit_test (flat 0 d) px py <> Panic.
Proof.
  unfold hit_test. assert (Hroot : root (flat 0 d) = Some 0) by (by destruct d). rewrite Hroot, flat_length.
  pose proof (walk_total_doc d px py (doc_size d) [] [] ltac:(lia)) as H. cbn [length app] in H. by rewrite app_nil_r in H.
Qed.

(** ** Partial frames *)

(** The cache holds the value that was painted last. *)
Definition up_to_date (st : AppState) (e : DiffEntry) : Prop := last_value e = default [] (state_get (key e) st).

Lemma diff_entry_settled st e : up_to_date st e -> diff_entry st e = (e, []).
Proof. intros H. unfold diff_entry. by rewrite decide_True. Qed.

Lemma diff_entry_updates st e : up_to_date st (diff_entry st e).1.
Proof. unfold diff_entry, up_to_date. destruct (decide _) as [H|]; cbn [fst key last_value]; done. Qed.

Lemma paint_full_entries n st bg cmds inside bg' es :
  paint_full n st bg = Ok (cmds, inside, bg', es) -> Forall (up_to_date st) es.
Proof.
  unfold paint_full. destruct (get_color _ _) as [own|[]|]; cbn [obind]; [|discriminate].
  destruct (kind n); [|by intros [= _ _ _ <-]].
  repeat match goal with |- context [if decide ?c then _ else _] => destruct (decide c) end; try (by intros [= _ _ _ <-]).
  - destruct (get_color _ _) as [track|[]|]; cbn [obind]; [|discriminate]. by intros [= _ _ _ <-].
  - destruct (get (str "bind_text") (attrs n)) as [k|]; [|by intros [= _ _ _ <-]].
    destruct (get_color _ _) as [c|[]|]; cbn [obind]; [|discriminate].
    destruct (decide _); intros [= _ _ _ <-]; by repeat constructor.
Qed.

Lemma walk_full_entries fuel t idx st bg acc acc' :
  walk_full fuel t idx st bg acc = Ok acc' -> Forall (up_to_date st) acc.1 -> Forall (up_to_date st) acc'.1.
Proof.
  revert idx bg acc acc'. induction fuel as [|fuel IH]; intros idx bg acc acc'; cbn [walk_full]; [discriminate|].
  destruct (node_at t idx) as [n|]; [|discriminate].
  destruct (paint_full n st bg) as [[[[cmds inside] bg'] es]|[]|] eqn:Ep; cbn [obind]; [|discriminate].
  pose proof (paint_full_entries _ _ _ _ _ _ _ Ep) as Hes. intros H Hacc.
  set (start := (acc.1, draw cmds acc.2)) in H. assert (Hstart : Forall (up_to_date st) start.1) by done. clearbody start.
  assert (Hkids : forall cs r a, foldl (fun r c => let? acc := r in walk_full fuel t c st bg' acc) r cs = Ok a ->
    (forall a0, r = Ok a0 -> Forall (up_to_date st) a0.1) -> Forall (up_to_date st) a.1).
  { intros cs. induction cs as [|c cs IHcs]; intros r a; cbn [foldl]; [intros -> Hr; by apply Hr|].
    intros Hf Hr. apply (IHcs _ _ Hf). intros a0 Ha. destruct r as [b|[]|]; cbn [obind] in Ha; [|discriminate]. eapply IH; [exact Ha|by apply Hr]. }
  destruct inside; cbn [negb] in H.
  - destruct (foldl _ _ _) as [a|[]|] eqn:Ef; cbn [obind] in H; [|discriminate]. injection H as <-. cbn [fst].
    apply Forall_app_2; [|done]. apply (Hkids _ _ _ Ef). by intros a0 [= <-].
  - cbn [obind] in H. injection H as <-. cbn [fst]. by apply Forall_app_2.
Qed.

(** After a frame the cache holds the values of the state, so the next frame for the
    same state is the end marker alone. *)
Theorem unchanged_state_sends_nothing t st d d' b :
  compile_diff_into t st d = Ok (d', b) -> (initialized d = false -> entries d = []) ->
  initialized d' = true /\ Forall (up_to_date st) (entries d') /\
  forall t', compile_diff_into t' st d' = Ok (d', end_frame []).
Proof.
  intros H Hnew. assert (Hd : initialized d' = true /\ Forall (up_to_date st) (entries d')).
  { unfold compile_diff_into in H. destruct (initialized d) eqn:Ei.
    - injection H as <- <-. cbn [initialized entries]. split; [done|]. apply Forall_forall. intros e He.
      apply list_elem_of_fmap in He as (e' & -> & _). apply diff_entry_updates.
    - rewrite (Hnew eq_refl) in H. destruct (root t) as [r|]; cbn [obind] in H; [|injection H as <- <-; by split].
      destruct (walk_full _ _ _ _ _ _) as [[es b']|[]|] eqn:Ew; cbn [obind] in H; [|discriminate]. injection H as <- <-.
      split; [done|]. by apply (walk_full_entries _ _ _ _ _ _ _ Ew). }
  destruct Hd as [Hi He]. split; [done|]. split; [done|]. intros t'. unfold compile_diff_into. rewrite Hi. unfold emit_diff.
  assert (H1 : (fun e => (diff_entry st e).1) <$> entries d' = entries d').
  { induction He as [|e es He _ IH]; [done|]. rewrite fmap_cons, diff_entry_settled by done. by rewrite IH. }
  assert (H2 : concat ((fun e => (diff_entry st e).2) <$> entries d') = []).
  { clear H1. induction He as [|e es He _ IH]; [done|]. rewrite fmap_cons, diff_entry_settled by done. exact IH. }
  rewrite H1, H2. rewrite Hi. destruct d'; cbn in *; by subst.
Qed.

(** ** Examples *)

Definition button : doc :=
  Doc (mkNode Element (str "Button") [(str "height", str "20"); (str "bg_color", str "#405060")] [] no_bounds)
    [Doc (mkNode Text (str "Go") [] [] no_bounds) []].

(** A window with a button. *)
Definition panel : doc :=
  Doc (mkNode Element (str "Window") [(str "bg_color", str "#102030"); (str "padding", str "4")] [] no_bounds) [button].

Lemma names_ok l : forallb is_name_cont l = true -> is_name_start (default 0 (head l)) = true -> l <> [] -> name_ok l.
Proof.
  intros H1 H2 H3. split; [destruct l as [|b l]; [done|by exists b]|]. apply Forall_forall. intros b Hb.
  rewrite forallb_forall in H1. apply H1. by apply list_elem_of_In.
Qed.

Lemma attrs_ok ats :
  Forall (fun a => (forallb is_name_cont a.1 && is_name_start (default 0 (head a.1)) && negb (length a.1 =? 0)%nat &&
                    forallb (fun b => negb (b =? 34)) a.2 && utf8_valid a.2)%bool = true) ats -> Forall attr_ok ats.
Proof.
  intros H. eapply Forall_impl; [exact H|]. intros [k v] Ha. cbn [fst snd] in Ha.
  apply andb_true_iff in Ha as [[[[Ha1 Ha2]%andb_true_iff Ha3]%andb_true_iff Ha4]%andb_true_iff Ha5].
  split; [apply names_ok; [done|done|by destruct k]|split; [|done]].
  apply Forall_forall. intros b Hb. rewrite forallb_forall in Ha4. specialize (Ha4 b (proj1 (list_elem_of_In _ _) Hb)).
  by apply negb_true_iff, Z.eqb_neq in Ha4.
Qed.

Lemma panel_printable : printable panel.
Proof.
  assert (Hgo : printable (Doc (mkNode Text (str "Go") [] [] no_bounds) [])).
  { apply printable_text; [discriminate|vm_compute; reflexivity|vm_compute; reflexivity|repeat constructor; discriminate]. }
  assert (Hb : printable button).
  { apply printable_element; [apply names_ok; [reflexivity|reflexivity|discriminate]| | |by constructor|exact I].
    - apply attrs_ok. repeat constructor.
    - apply (bool_decide_unpack (NoDup _)). vm_compute. exact I. }
  apply printable_element; [apply names_ok; [reflexivity|reflexivity|discriminate]| | |by constructor|exact I].
  - apply attrs_ok. repeat constructor.
  - apply (bool_decide_unpack (NoDup _)). vm_compute. exact I.
Qed.

Lemma dsml_roundtrip_witness : parse (print panel) = Ok (flat 0 panel).
Proof. apply (dsml_roundtrip panel); [exact panel_printable|reflexivity|reflexivity]. Defined.

(** A tag that is closed by another one. *)
Lemma dsml_parse_total_witness :
  parse (str "<A><B></A>") <> Panic /\ parse (str "<A><B></A>") = Err (MismatchedClose (str "B") (str "A") 9).
Proof. split; [apply (dsml_parse_total (str "<A><B></A>")); reflexivity|vm_compute; reflexivity]. Defined.

Definition screen : LayoutConstraint := mkConstraint 0 0 200 100.

Definition panel_commands : list Command :=
  [DrawRect (mkRect 0 0 200 100 0x102030FF 0); DrawRect (mkRect 4 4 192 20 0x405060FF 4); DrawText 4 4 0xFFFFFFFF 14 (str "Go")].

Lemma panel_commands_ok : Forall command_ok panel_commands.
Proof. unfold panel_commands. repeat constructor; vm_compute; intuition congruence. Qed.

(** The numbers of the panel are small: its button is placed as specified. *)
Example panel_fits : box_fits (node_of panel) (own_bounds (node_of panel) screen) [node_of button].
Proof. split; [vm_compute..|]; [intuition congruence..|]. repeat constructor; vm_compute; congruence. Qed.

(** The panel as it is laid out. *)
Definition panel_on_screen : doc :=
  Doc ((node_of panel) <| bounds := mkBounds 0 0 200 100 |>)
    [Doc ((node_of button) <| bounds := mkBounds 4 4 192 20 |>) [Doc (mkNode Text (str "Go") [] [] (mkBounds 4 4 16 16)) []]].

Lemma shows_as fw st n own own' inside : shows fw st n own inside -> own = own' -> shows fw st n own' inside.
Proof. by intros H <-. Qed.

Lemma panel_paints fw : paints fw [] (arrange panel screen) panel_commands.
Proof.
  assert (arrange panel screen = panel_on_screen) as -> by (vm_compute; reflexivity).
  apply (PaintsInside fw [] _ _ [DrawRect (mkRect 0 0 200 100 0x102030FF 0)]
    [[DrawRect (mkRect 4 4 192 20 0x405060FF 4); DrawText 4 4 0xFFFFFFFF 14 (str "Go")]]); [eapply shows_as; [by apply (ShowsWindow fw [] _ 0x102030FF)|vm_compute; reflexivity]|].
  constructor; [|constructor].
  apply (PaintsInside fw [] _ _ [DrawRect (mkRect 4 4 192 20 0x405060FF 4)] [[DrawText 4 4 0xFFFFFFFF 14 (str "Go")]]); [eapply shows_as; [by apply (ShowsButton fw [] _ (Some 0x405060FF))|vm_compute; reflexivity]|].
  constructor; [|constructor]. apply PaintsAlone. by apply (ShowsText fw []).
Qed.

Lemma markup_reaches_screen_witness :
  let fw := fun _ _ => 0 in let d' := arrange panel screen in
  layout (flat 0 panel) screen = Ok (flat 0 d') /\ laid screen panel d' /\
  compile_into fw (flat 0 d') [] = Ok (end_frame (build panel_commands)) /\
  exists r r', Ring.push 256 (end_frame (build panel_commands)) (Ring.new 256) = (r, Ok tt) /\
    drain 256 (replicate 256 0) r = (r', Ok (Some (panel_commands, Ok (Ring.len (end_frame (build panel_commands)))))).
Proof.
  intros fw d'.
  destruct (markup_reaches_screen fw (print panel) (flat 0 panel) screen [] ltac:(reflexivity) ltac:(vm_compute; reflexivity)) as [_ H].
  destruct (H panel eq_refl) as (H1 & H0 & _ & H2). split; [exact H1|split; [exact H0|]].
  destruct (H2 panel_commands (panel_paints fw)) as [H3 H4].
  split; [exact H3|]. destruct (Ring.push 256 (end_frame (build panel_commands)) (Ring.new 256)) as [r o] eqn:Hpush.
  assert (Ho : o = Ok tt) by (change o with ((r, o).2); rewrite <- Hpush; vm_compute; reflexivity). subst o.
  exists r. assert (Hd : (256 | 2 ^ 64)) by (by exists (2 ^ 56)).
  pose proof (pushed_to_new 256 (end_frame (build panel_commands)) r ltac:(done) Hd ltac:(done) Hpush) as Hr.
  destruct (H4 256 (Ring.mkWorld r Ring.PIdle Ring.CIdle (end_frame (build panel_commands)) []) (replicate 256 0) []
    ltac:(done) Hd ltac:(done) Hr eq_refl eq_refl panel_commands_ok ltac:(cbn [Ring.pushed Ring.popped app]; by rewrite app_nil_r)) as (r' & Hdr).
  exists r'. split; [reflexivity|exact Hdr].
Defined.

Lemma hit_is_deepest_witness :
  let t := flat 0 (arrange panel screen) in
  exists n, node_at t 1 = Some n /\ contains (bounds n) 100 20 = true /\
    forall c m, c ∈ children n -> node_at t c = Some m -> contains (bounds m) 100 20 = false.
Proof. intros t. apply (hit_is_deepest t 100 20 1). vm_compute. reflexivity. Defined.

(** A bound text is painted on the first frame, not on the second. *)
Definition counter : Tree := [mkNode Element (str "Text") [(str "bind_text", str "n")] [] (mkBounds 8 8 80 16)].

Definition counter_state : AppState := [(str "n", str "42")].

Lemma unchanged_state_sends_nothing_witness :
  exists d b, compile_diff_into counter counter_state diff_new = Ok (d, b) /\
    b = end_frame (build [DrawText 8 8 0xFFFFFFFF 14 (str "42")]) /\ compile_diff_into counter counter_state d = Ok (d, end_frame []).
Proof.
  set (d := mkDiff [mkEntry (str "n") (str "42") 8 8 80 16 0 0xFFFFFFFF 14] true).
  set (b := end_frame (build [DrawText 8 8 0xFFFFFFFF 14 (str "42")])).
  assert (H : compile_diff_into counter counter_state diff_new = Ok (d, b)) by (vm_compute; reflexivity).
  exists d, b. split; [exact H|split; [reflexivity|]].
  exact (proj2 (proj2 (unchanged_state_sends_nothing counter counter_state diff_new d b H (fun _ => eq_refl))) counter).
Defined.

(** ** What the documentation says otherwise *)

(** A color of six bytes that is not ASCII is cut inside a character. *)
Lemma color_panics : get_color (str "c") [(str "c", 35 :: [0xE2; 0x82; 0xAC; 0xE2; 0x82; 0xAC])] = Panic /\
  utf8_valid (35 :: [0xE2; 0x82; 0xAC; 0xE2; 0x82; 0xAC]) = true.
Proof. split; vm_compute; reflexivity. Qed.

(** A plus sign is taken for a digit. *)
Lemma signed_color_accepted : get_color (str "c") [(str "c", str "#+1+2+3")] = Ok (Some 0x010203FF).
Proof. vm_compute. reflexivity. Qed.

Definition fixed_box : doc := Doc (mkNode Element (str "Button") [(str "width", str "20")] [] no_bounds) [].

Definition justified_row : doc :=
  Doc (mkNode Element (str "HBox") [(str "width", str "100"); (str "spacing", str "10"); (str "justify", str "end")] [] no_bounds) [fixed_box; fixed_box].

(** The space between the children is subtracted twice: the last child of a row that
    is justified to the end stops ten pixels before it. *)
Lemma justified_end_misses_edge :
  layout (flat 0 justified_row) (mkConstraint 0 0 100 20) = Ok (flat 0 (arrange justified_row (mkConstraint 0 0 100 20))) /\
  (fun n => x (bounds n) + w (bounds n)) <$> flat 0 (arrange justified_row (mkConstraint 0 0 100 20)) = [100; 60; 90].
Proof. split; vm_compute; reflexivity. Qed.

(** The first frame is not the one [compile_into] makes: the filled part of a progress
    bar is not painted. *)
Lemma first_frame_without_fill :
  let fw := fun _ _ => 50 in let bar := [mkNode Element (str "ProgressBar") [(str "value", str "0.5")] [] (mkBounds 0 0 100 8)] in
  exists d b b', compile_diff_into bar [] diff_new = Ok (d, b) /\ compile_into fw bar [] = Ok b' /\ (length b < length b')%nat.
Proof. do 3 eexists. split; [vm_compute; reflexivity|]. split; [vm_compute; reflexivity|]. vm_compute. lia. Qed.

(** A node that has not been laid out is painted all the same. *)
Lemma unlaid_node_painted :
  compile_into (fun _ _ => 0) [mkNode Element (str "Button") [] [] no_bounds] [] = Ok (end_frame (build [DrawRect (mkRect 0 0 0 0 0x3A3A3AFF 4)])).
Proof. vm_compute. reflexivity. Qed.

End Dsml.
